(* ===== verification/_CoqProject ===== *)
-Q . S2P
Prelude.v
DnsName.v
DnsRecord.v
DnsMessage.v
DnsResolver.v
DnsServer.v
MainArgs.v
ExpatRole.v
AprArray.v
AprTable.v
AprCompress.v
AprHash.v
AprEscape.v
AprStrmatch.v
AprBase64.v
AprCpystrn.v
AprDigest.v
AprMd.v
AprSha1.v
AprSha256.v
AprQueue.v
ExpatTok.v
ExpatScan.v
ExpatEnc.v
ExpatUtf.v
ExpatText.v
ExpatAtts.v
AprAllocator.v
AprFree.v
AprProc.v
AprPools.v
AprRing.v
AprPalloc.v
AprPoolTree.v
AprRelease.v
AprDestroy.v
AprPoolCreate.v
AprPoolReach.v
AprNumber.v
AprFormat.v
AprPrintf.v
AprSnprintf.v
AprInet.v
AprInet4.v
AprInet6.v
AprInetRound.v
ExpatHash.v
ExpatHashProbe.v
ExpatHashMap.v
ExpatHashRefine.v
ExpatPool.v
ExpatPoolGrow.v
ExpatPoolOps.v
ExpatPoolConvert.v
ExpatPoolRun.v
ExpatModel.v
ExpatModelTree.v
ExpatModelStep.v
ExpatModelGroup.v
ExpatModelBuild.v
ExpatModelRun.v
ExpatBuffer.v
ExpatBufferRun.v
AprRmm.v
AprRmmList.v
AprRmmMove.v
AprRmmLayout.v
AprRmmBlocks.v
AprRmmRoom.v
AprRmmRun.v
AprRmmServe.v
