(* ===== verification/Prelude.v ===== *)
(** * ODBCDNS: a verification library

    ODBCDNS is a caching DNS server for Windows. A request arrives as a UDP
    datagram ([src/ODBCDNS/DNSServer.cpp], [run]) and is queued; a pool of worker
    threads ([serviceRequests]) takes requests from the queue, extracts the
    questions, answers questions of type A from a database reached through ODBC,
    forwards the packet to a recursive server on a miss, sends the response and
    caches the records of a forwarded response before its next turn. The names
    and records of the packet are encoded and decoded by [src/DNS]. The tree also
    holds the C libraries the server is linked with: the Apache portable runtime
    and its utilities ([src/apr], [src/apr-util], with Expat) and log4cxx.

    ** Files

    - [Prelude]: machine integers with explicit wrap-around, the error monad
      [res] (every way a piece of code can end: exceptions, thrown integers, the
      C runtime's invalid-parameter handler, accesses outside an object, loop
      fuel), the state and error monad [M], byte objects with checked reads and
      writes, C strings, byte order, and the lemmas and tactics on them.
    - [DnsName]: [DNSUtil::decodeName] and [encodeName] (module [DNSUtil]) and
      [DNSQuery] (module [DNSQuery]).
    - [DnsRecord]: [DNSRDataA], [DNSRDataCNAME] and [DNSResourceRecord], a module
      each; the abstract class [DNSRData] is a sum with its two virtual calls.
    - [DnsMessage]: the bit-fields of [DNSHeader] over the bytes of a packet.
    - [DnsResolver]: [DNSResolver]. The resolver's state is the record [rstate]
      (packet, known name locations, questions) threaded through [M]; the rows
      the database returns, the reply of the recursive server and the execution
      of the two cache statements are parameters; [run_statement] reads the SQL
      of the cache statements, each [{fn NOW()}] being a reading of its own of a clock
      that does not go back, and [Collation] states what it needs of the database's
      string comparison.
    - [DnsServer]: module [Worker], one turn of [serviceRequests] with its catch
      clauses and the locals that survive; module [Queue], the queue, semaphore,
      quit event and running flag shared by the threads, as a step relation;
      module [Teardown], the wait loop of the destructor.
    - [MainArgs]: [parseArgs] of [src/ODBCDNS/main.cpp].
    - [ExpatRole]: Expat's prolog state machine, [xmlrole.c], handler by handler.
    - [ExpatTok], [ExpatScan]: the scanner of [xmltok_impl.c], which [xmltok.c]
      instantiates once per encoding: what an encoding provides is the class the
      scanner is written against. [ExpatEnc] holds the instances, built in
      tables included, [ExpatUtf] the conversions and the validity tests of UTF-8
      and UTF-16, [ExpatText] names, positions, literals and character references
      in any encoding, [ExpatAtts] the attributes of a start tag.
    - [AprArray]: the growing arrays of [apr_tables.c], over a heap of storage
      blocks so that headers can share one.
    - [AprTable], [AprCompress]: the string tables of [apr_tables.c] with their
      32-way index; the second file holds the merge sort and the removal of
      duplicate keys.
    - [AprHash]: the hash tables of [apr_hash.c].
    - [AprEscape]: the escaping functions of [apr_escape.c], with the character
      classes of [gen_test_char.c]. [AprBase64]: [apr_base64.c]. [AprStrmatch]: the
      string search of [apr_strmatch.c]. [AprCpystrn]: bounded copies and the
      splitting of command lines, [apr_cpystrn.c].
    - [AprDigest]: what the digests share; [AprMd]: [apr_md4.c] and [apr_md5.c];
      [AprSha1]: [apr_sha1.c]; [AprSha256]: [src/apr/random/unix/sha2.c].
    - [AprQueue]: the bounded queue of [apr_queue.c], as threads that take its
      lock, wait on its conditions and are woken.
    - [AprAllocator], [AprFree]: the node allocator of [apr_pools.c] over a heap of
      nodes; the second file gives nodes back and holds its theorems.
    - [AprProc]: [free_proc_chain] of [apr_pools.c].
    - [AprPools]: the pools of [apr_pools.c]. [AprRing] is the ring of a pool's
      nodes, [AprPalloc] the invariant of pools and [apr_palloc], [AprPoolTree] the
      tree of pools, [AprRelease] what gives nodes back, [AprDestroy] and
      [AprPoolCreate] the operations on trees, [AprPoolReach] the states that
      programs reach, with the theorems.
    - [AprRmm]: the relocatable memory of [apr_rmm.c], a region that holds its own lists
      of blocks. [AprRmmList] and [AprRmmMove] are the lists in memory and the moves
      between them, [AprRmmLayout] and [AprRmmBlocks] the tiling of the region,
      [AprRmmRoom] the gaps in it, [AprRmmRun] what a program may expect, and
      [AprRmmServe] that it gets it.
    - [AprNumber]: numbers as text, [apr_itoa] and [apr_strtoi64] of
      [apr_strings.c] and the conversions of [apr_snprintf.c]. [AprFormat]:
      [apr_vformatter] and what is built on it, [apr_snprintf] and [apr_strfsize].
      [AprPrintf] is a reference semantics of formats with the lemmas on one
      conversion, [AprSnprintf] the whole.
    - [AprInet]: [apr_inet_ntop] and [apr_inet_pton]; [AprInet4] and [AprInet6] are
      the two families, [AprInetRound] the reading back.
    - [ExpatHash]: the hash tables of Expat's [xmlparse.c]; [ExpatHashProbe] is the
      search with two hash values, [ExpatHashMap] the invariant, [ExpatHashRefine]
      histories of calls against a finite map.
    - [ExpatPool]: its string pools; [ExpatPoolGrow] is the invariant and [poolGrow],
      [ExpatPoolOps] the other operations with the interface of the converters,
      [ExpatPoolConvert] the converters, [ExpatPoolRun] histories.
    - [ExpatModel]: the content models of element declarations in [doProlog].
      [ExpatModelTree] says which scaffold stands for which tree, [ExpatModelStep] and
      [ExpatModelGroup] what single roles do, [ExpatModelBuild] is [build_model],
      [ExpatModelRun] whole declarations, from their tokens through [ExpatRole].
    - [ExpatBuffer]: the input buffer, [XML_Parse], [XML_GetBuffer] and
      [XML_ParseBuffer], with the processors as a parameter; [ExpatBufferRun] relates
      calls to a stream of bytes.

    ** What the theorems show

    Names and records. [encode_decode_name], [encodeName_wire] and
    [decodeName_text] relate the two name functions to the wire and text forms of
    a list of labels and to each other, and show that decoding ends. What the bytes of
    a packet spell by RFC 1035, pointers of any offset included, is the relation
    [spells]; the decoder agrees with it when the second byte of every pointer is below
    128, and leaves a packet of ordinary size otherwise, since it reads that byte as a
    signed [char]; both are part of [decodeName_text]. [decodeName_count] compares the
    count it returns with the bytes read, [decodeName_bounds] bounds what a decode of
    arbitrary bytes writes. [rdataA_roundtrip] and [rr_roundtrip] are the round trips of
    addresses and whole records, the latter with both sides of the same distinction;
    [DNSQuery_parses] and [extractQueries_ok] say what is read of a question section,
    and for which types and classes it is what the wire says.

    Answers. [resolveA_hit] gives the exact bytes of an answer section,
    [resolveA_answers_decode] that RFC 1035 reads the database rows in them, and the
    project's decoder too where it reads the pointers right, [serveRequest_hit] the datagram of the whole path. [resolveA_miss],
    [recursiveResolve_reply] (replies of every length up to 512) and
    [cacheResponse_live] (records of positive lifetime, with [cacheResponse_suppressed]
    for what the unequal comparisons of the statements lose) treat forwarding and
    caching; [resolveA_truncation] and [format_error_overwritten] the error
    paths. [queue_safe] is the invariant of the request queue under every
    interleaving of the threads, and [shutdown_race] the one it does not survive.

    Libraries. [table_refines], [table_join], [table_getm_values] and
    [table_overlap] show that tables implement the list of their entries, keep
    their index right, and that the in-place sort and removals end and stay in
    their allocations; [table_overlap] also says when the result is the one
    [apr_tables.h] documents; [hash_refines] and [hash_merge] that hash tables implement
    finite maps through growing, clearing, copying and merging; [push_appends],
    [append_appends] and [pstrcat_join] that arrays implement lists without
    disturbing arrays that share their storage. [url_roundtrip], [hex_roundtrip]
    and [entity_roundtrip] are the round trips of the escaping functions,
    [escape_allocation] that the counting pass allocates what the writing pass
    fills. [element_groups_balanced] and [prolog_order] are invariants of the
    prolog machine over arbitrary token sequences.

    XML. [xmltok_safe] shows for every encoding and every sequence of bytes that a
    scanner ends, reads no byte outside its input and returns a token that ends
    inside it; [xmltok_more_input] that more input changes no token that is
    complete; [getAtts_tag] and [charRefNumber_token] what is read off a token, the
    latter against the [Char] production of XML 1.0;
    [utf8_valid_iff] that the validity tests accept exactly well-formed UTF-8;
    [converters_longest] and [utf_roundtrip] that the conversions stop at the last
    whole character that fits and lose nothing; [names_compared] that names are
    compared as bytes. [hash_table_refines] shows that Expat's hash tables are finite
    maps, [pool_strings] that its string pools keep every string where it was stored,
    both with any answers of the allocator; [content_models] that the application gets
    the content model that the tokens of an element declaration write. [input_buffer]
    shows that the processors see the same stream however a document is cut into calls.

    Digests and texts. [md_pieces], [sha1_pieces] and [sha256_pieces] show that a
    message fed in pieces gives the digest of the whole, [md5_encode_validates] that
    a password matches its own hash; [base64_roundtrip], [strmatch_search] and
    [tokenize_arguments] relate encoder, search and splitter to direct definitions, the
    first to the text of RFC 4648.

    Numbers, formats and addresses. [strtoi64_reads] and [numbers_roundtrip] relate
    numbers and their texts, in every base and with its prefix, for builds without
    [APR_INT64_STRFN]; where that is defined [apr_strtoi64] is a call of the C library,
    a parameter here. [numbers_written] treats the conversions with digits.
    [snprintf_prints] says that formatted output implements the reference semantics
    as far as the buffer goes; [strfsize_four] that sizes take four characters and how
    near they are. [inet_roundtrip] is the round trip of addresses of both families,
    [pton4_exact] what is accepted, [ntop6_shortest] what is abbreviated.

    Threads. [queue_fifo], [queue_no_lost_wakeup] and [queue_term_completes] hold of
    every schedule of the threads that share a queue; [step_of] is a step of one thread.

    Memory. [allocator_lists] and [allocator_calls] are the invariant and the
    contract of the allocator under every sequence of calls, where a refusal means that
    the request is too large or that [malloc] says no to that very request in that state
    ([refused]); [pool_blocks] that the
    blocks of pools never overlap, [destroy_subtree] and [pool_calls] what destroying
    and the other calls do, [is_ancestor_below] that ancestry is decided right. Ghost
    state tells who has a node ([owners]), whose node it is ([home]), the children of
    a pool and the order of creation; the latter bounds the recursion of
    [apr_pool_destroy]. [subprocesses_freed] treats the end of subprocesses for all
    answers of the system, with the order of signals and waits on Unix and on Windows.
    [region_serves] is the contract of relocatable memory, with the failures of requests:
    they fail only when the block fits nowhere. It states its one exception, the
    [apr_rmm_realloc] that reads past the end of the region ([overruns]).

    Some theorems state behaviour the code should not have, where the faithful
    definition has it: [decodeName_self_pointer], [decodeName_root_underflow],
    [pointerOffset_value], [decodeName_count], [decodeRR_unreachable],
    [recursiveResolve_empty_reply], [cacheResponse_suppressed],
    [overlap_folds_duplicates], [encodeRR_boundary], [decodeRR_name_offset],
    [destructor_waits_bounds], [lowered_limit], [just_wait_windows],
    [strtoi64_overflow_missed], [itoa_least], [zeros_on_the_right],
    [zeros_before_prefix], [prefix_of_another], [before_the_buffer],
    [colons_in_full_address], [trailing_colon], [first_slots_fail],
    [realloc_refused_leaks], [utf8_split], [shared_index_shrinks],
    [huge_request_overruns], [doubling_never_ends], [realloc_reads_past], and parts of the
    error-path theorems above.

    ** Conventions and bounds

    Bytes are integers from 0 to 255; a byte read through a plain [char] is
    sign-extended by [schar], since the compilers of the project have signed
    [char]s. Counts and sizes are wrapped at their width where they can overflow
    ([u16], [u32], [u64]). Uninitialised memory is an argument, so a theorem that
    holds for all of its values does not depend on it. A pointer is an offset
    into the object it points to, and every access is checked.

    Loops whose end is not structural carry fuel, and a run that would exceed it
    is the error [OutOfFuel]; the theorems show the result is reached. Name
    decoding needs one unit per label and pointer, so 256 is enough for any name
    that fits the 255-character limit without pointers; [decodeName_text] is
    stated for every number of pointers. The other fuels are computed from the
    data: the length of the name in [encodeName], of the storage in
    [merge_passes], [merge_pass] and [dup_loop], the number of buckets and entries
    in the iterations of hash tables. Hash tables are treated up to 2^31
    operations, before [max] reaches the width of [unsigned int]. Walks over nodes
    take as much fuel as there are nodes, those over pools as there are pools, those
    over the blocks of a region one unit per word of it (a region has words of 8 bytes
    and a size that is a multiple of 8, from 48 bytes on);
    scanners take one unit per byte of their input. [BYTE_TO_ASCII] of the
    single-byte encodings is taken as an unsigned byte above 0x7F, where no
    comparison with a character of the grammar holds in either reading. Expat's hash
    tables are treated up to 2^(w-3) calls, [w] the width of an unsigned long, its pools
    up to 2^29 characters, content models as far as their size is an int, documents up to 2^29 bytes; a search takes
    as much fuel as there are slots, [poolAppend] four units per byte, [build_node] one
    per node.

    ** What is not modelled

    The operating system and the services: sockets, threads as such, the ODBC
    driver manager and its wrappers in [src/ODBC], the database engine. [malloc] is
    a parameter with its laws ([MallocLaws]). Outside the files on pools an
    allocation is a fresh block; pools are those of one thread, their cleanup
    functions do not call back, and the debug build, [apr_psprintf], user data and
    the start and end of the library are left out. Logging: calls into log4cxx have
    no effect on the state the theorems speak of. Of the portable runtime and
    [apr-util] only the files named above are modelled; the platform layers
    (files, processes, locks, shared memory) and the database and directory drivers
    are not. Of Expat's parser proper ([xmlparse.c]) the hash tables, string pools,
    element declarations and input buffer are modelled; the processors, entities,
    namespaces and callbacks are not, nor the positions of events. Of [xmltok.c] the XML
    declaration, the choice of the first encoding and encodings supplied by the
    application are left out. Of [apr_snprintf.c] the conversions of floating-point
    numbers are parameters, as are the text of a socket address and of an error. Dates,
    URIs, [apr_fnmatch], [apr_strnatcmp] and skip lists are pure computation that could
    be treated the same way. *)

From Stdlib Require Export ZArith Bool Lia String Ascii.
From Stdlib Require Import List.
From stdpp Require Export base list gmap strings.

#[global] Open Scope Z_scope.

(** ** Machine integers *)

Definition u8 (z : Z) : Z := z mod 2 ^ 8.
Definition u16 (z : Z) : Z := z mod 2 ^ 16.
Definition u32 (z : Z) : Z := z mod 2 ^ 32.
Definition u64 (z : Z) : Z := z mod 2 ^ 64.
Definition s32 (z : Z) : Z := (z + 2 ^ 31) mod 2 ^ 32 - 2 ^ 31.

(** The value of a byte read through a plain [char] lvalue: [char] is signed
    in the compilers the project is built with. *)
Definition schar (b : Z) : Z := if b <? 128 then b else b - 256.

Definition is_byte (b : Z) : Prop := 0 <= b < 256.
Definition bytes (l : list Z) : Prop := Forall is_byte l.

#[global] Instance is_byte_dec b : Decision (is_byte b).
Proof. unfold is_byte. apply _. Defined.

(** ** Errors and the error monad *)

Inductive err :=
  | Exception (what : string)   (* a thrown std::exception *)
  | ThrowInt (code : Z)         (* a thrown int *)
  | InvalidParameter            (* the CRT's invalid-parameter handler: the process ends *)
  | OutOfBounds                 (* a read or write outside the object *)
  | Uninitialised               (* a value that was never written is used *)
  | OutOfFuel.                  (* the loop bound of the model was reached *)

#[global] Instance err_eq_dec : EqDecision err.
Proof. solve_decision. Defined.

Inductive res (A : Type) :=
  | Ok (a : A)
  | Err (e : err).
Arguments Ok {A} a.
Arguments Err {A} e.

#[global] Instance res_eq_dec {A} `{EqDecision A} : EqDecision (res A).
Proof. solve_decision. Defined.

(** A value that may be missing, with the error of reading it. *)
Definition of_option {A} (e : err) (o : option A) : res A :=
  match o with Some a => Ok a | None => Err e end.

Definition rbind {A B} (r : res A) (k : A -> res B) : res B :=
  match r with Ok a => k a | Err e => Err e end.

Declare Scope res_scope.
Delimit Scope res_scope with res.
Notation "'do' x <- c ; k" := (rbind c (fun x => k))
  (at level 10, x pattern, c at level 100, k at level 200) : res_scope.
Notation "'check' b 'else' e ; k" := (if b then k else Err e)
  (at level 10, b at level 100, e at level 100, k at level 200) : res_scope.
#[global] Open Scope res_scope.

(** State and errors: an error keeps the state reached when it was raised, as
    an exception in the source leaves the objects it found. *)
Definition M (S A : Type) : Type := S -> res A * S.

Definition mok {S A} (a : A) : M S A := fun s => (Ok a, s).
Definition merr {S A} (e : err) : M S A := fun s => (Err e, s).
Definition mlift {S A} (r : res A) : M S A := fun s => (r, s).
Definition mgets {S A} (f : S -> A) : M S A := fun s => (Ok (f s), s).
Definition mmodify {S} (f : S -> S) : M S unit := fun s => (Ok tt, f s).
Definition mbindS {S A B} (c : M S A) (k : A -> M S B) : M S B :=
  fun s => match c s with
           | (Ok a, s') => k a s'
           | (Err e, s') => (Err e, s')
           end.

Notation "'let!' x := c 'in' k" := (mbindS c (fun x => k))
  (at level 10, x pattern, c at level 100, k at level 200) : res_scope.

(** ** Byte buffers *)

Definition zlen {A} (l : list A) : Z := Z.of_nat (length l).

(** [m[i]], the stored byte (0..255). *)
Definition rd (m : list Z) (i : Z) : res Z :=
  if (0 <=? i) && (i <? zlen m)
  then match m !! Z.to_nat i with Some b => Ok b | None => Err OutOfBounds end
  else Err OutOfBounds.

(** [m[i] = v]; [v] is truncated to a byte by the assignment. *)
Definition wr (m : list Z) (i v : Z) : res (list Z) :=
  if (0 <=? i) && (i <? zlen m)
  then Ok (<[Z.to_nat i := u8 v]> m)
  else Err OutOfBounds.

(** [*p++ = v]: the object and the advanced pointer. *)
Definition emit (m : list Z) (p v : Z) : res (list Z * Z) :=
  do m <- wr m p v; Ok (m, p + 1).

(** [m[i] = v] for an array whose elements hold [v] unchanged. *)
Definition store {A} (m : list A) (i : Z) (v : A) : res (list A) :=
  if (0 <=? i) && (i <? zlen m) then Ok (<[Z.to_nat i := v]> m) else Err OutOfBounds.

(** The [n] bytes of [m] from [o] on. *)
Definition sub (m : list Z) (o n : Z) : res (list Z) :=
  if (0 <=? o) && (0 <=? n) && (o + n <=? zlen m)
  then Ok (take (Z.to_nat n) (drop (Z.to_nat o) m))
  else Err OutOfBounds.

(** Overwrite the bytes of [m] from [o] on with [bs]. *)
Definition splice (m : list Z) (o : Z) (bs : list Z) : list Z :=
  (take (Z.to_nat o) m ++ bs ++ drop (Z.to_nat (o + zlen bs)) m)%list.

Definition blit (m : list Z) (o : Z) (bs : list Z) : res (list Z) :=
  if (0 <=? o) && (o + zlen bs <=? zlen m) then Ok (splice m o bs)
  else Err OutOfBounds.

(** [memcpy_s(m + o, dstSize, bs, zlen bs)]: the size arguments are [size_t];
    copying nothing always succeeds; a destination smaller than the count ends
    in the invalid-parameter handler. *)
Definition memcpy_s (m : list Z) (o dstSize : Z) (bs : list Z) : res (list Z) :=
  match bs with
  | [] => Ok m
  | _ => check (zlen bs <=? u64 dstSize) else InvalidParameter; blit m o bs
  end.

(** The bytes of a C string up to, not including, its terminator. *)
Fixpoint cstr (m : list Z) : list Z :=
  match m with
  | [] => []
  | b :: m' => if b =? 0 then [] else b :: cstr m'
  end.

(** [strlen(m + o)]: a scan that runs off the object is out of bounds. *)
Definition strlen (m : list Z) (o : Z) : res Z :=
  check (0 <=? o) && (o <=? zlen m) else OutOfBounds;
  let s := cstr (drop (Z.to_nat o) m) in
  check (o + zlen s <? zlen m) else OutOfBounds;
  Ok (zlen s).

(** The prefix of a list before the first [c], and whether [c] occurs. *)
Fixpoint before (c : Z) (s : list Z) : list Z :=
  match s with
  | [] => []
  | b :: s' => if b =? c then [] else b :: before c s'
  end.

Fixpoint occurs (c : Z) (s : list Z) : bool :=
  match s with
  | [] => false
  | b :: s' => (b =? c) || occurs c s'
  end.

(** String literals of the source as byte lists. *)
Fixpoint str (s : string) : list Z :=
  match s with
  | EmptyString => []
  | String a s' => Z.of_N (N_of_ascii a) :: str s'
  end.

(** ** Byte order and decimal text *)

Definition le16 (z : Z) : list Z := [z mod 256; z / 256 mod 256].
Definition le32 (z : Z) : list Z :=
  [z mod 256; z / 256 mod 256; z / 65536 mod 256; z / 16777216 mod 256].
Definition be16 (z : Z) : list Z := [z / 256 mod 256; z mod 256].
Definition be32 (z : Z) : list Z :=
  [z / 16777216 mod 256; z / 65536 mod 256; z / 256 mod 256; z mod 256].

(** The integer a little-endian host reads from two or four bytes. *)
Definition of_le16 (l : list Z) : Z :=
  match l with [a; b] => a + 256 * b | _ => 0 end.
Definition of_le32 (l : list Z) : Z :=
  match l with [a; b; c; d] => a + 256 * b + 65536 * c + 16777216 * d | _ => 0 end.

(** [htons]/[ntohs] and [htonl]/[ntohl] on a little-endian host. *)
Definition htons (z : Z) : Z := of_le16 (be16 z).
Definition htonl (z : Z) : Z := of_le32 (be32 z).

(** Decimal digits of a byte, most significant first. *)
Definition dec (v : Z) : list Z :=
  if v <? 10 then [48 + v]
  else if v <? 100 then [48 + v / 10; 48 + v mod 10]
  else [48 + v / 100; 48 + v / 10 mod 10; 48 + v mod 10].

Definition is_digit (c : Z) : bool := (48 <=? c) && (c <=? 57).
Definition is_space (c : Z) : bool := ((9 <=? c) && (c <=? 13)) || (c =? 32).

(** [tolower] on an unsigned char, in the C locale. *)
Definition tolower (c : Z) : Z := if (65 <=? c) && (c <=? 90) then c + 32 else c.

Fixpoint digits_value (acc : Z) (s : list Z) : Z :=
  match s with
  | [] => acc
  | c :: s' => if is_digit c then digits_value (acc * 10 + (c - 48)) s' else acc
  end.

Definition clamp32 (z : Z) : Z := Z.max (- 2 ^ 31) (Z.min (2 ^ 31 - 1) z).

Fixpoint skip_spaces (s : list Z) : list Z :=
  match s with
  | [] => []
  | c :: s' => if is_space c then skip_spaces s' else s
  end.

(** [atoi] on a C string: white space, a sign, digits; saturating. *)
Definition atoi (s : list Z) : Z :=
  match skip_spaces s with
  | [] => 0
  | c :: s' =>
      if c =? 45 then clamp32 (- digits_value 0 s')
      else if c =? 43 then clamp32 (digits_value 0 s')
      else clamp32 (digits_value 0 (c :: s'))
  end.

(** ** Automation *)

(** Turn boolean tests of the source into arithmetic facts. *)
Ltac bool_to_prop :=
  repeat match goal with
  | H : (_ && _) = true |- _ => apply andb_true_iff in H; destruct H
  | H : (_ || _) = false |- _ => apply orb_false_iff in H; destruct H
  | H : (_ <=? _) = true |- _ => apply Z.leb_le in H
  | H : (_ <=? _) = false |- _ => apply Z.leb_gt in H
  | H : (_ <? _) = true |- _ => apply Z.ltb_lt in H
  | H : (_ <? _) = false |- _ => apply Z.ltb_ge in H
  | H : (_ =? _) = true |- _ => apply Z.eqb_eq in H
  | H : (_ =? _) = false |- _ => apply Z.eqb_neq in H
  end.

(** Decide every boolean comparison in the goal whose truth [lia] can see. *)
Ltac zbool :=
  repeat match goal with
  | |- context [?a <=? ?b] =>
      first [ replace (a <=? b) with true by (symmetry; apply Z.leb_le; lia)
            | replace (a <=? b) with false by (symmetry; apply Z.leb_gt; lia) ]
  | |- context [?a <? ?b] =>
      first [ replace (a <? b) with true by (symmetry; apply Z.ltb_lt; lia)
            | replace (a <? b) with false by (symmetry; apply Z.ltb_ge; lia) ]
  | |- context [?a =? ?b] =>
      first [ replace (a =? b) with true by (symmetry; apply Z.eqb_eq; lia)
            | replace (a =? b) with false by (symmetry; apply Z.eqb_neq; lia) ]
  end; cbn [andb orb negb].

(** Close a side condition about concrete data by evaluation. *)
Ltac conc :=
  solve [ done | lia | vm_compute; congruence | vm_compute; intuition congruence
        | cbn; lia | vm_compute; repeat constructor ].

(** ** Lengths *)

Lemma zlen_nonneg {A} (l : list A) : 0 <= zlen l.
Proof. unfold zlen. lia. Qed.

Lemma zlen_nil {A} : zlen (@nil A) = 0.
Proof. reflexivity. Qed.

Lemma zlen_cons {A} (x : A) l : zlen (x :: l) = 1 + zlen l.
Proof. unfold zlen. cbn [length]. lia. Qed.

Lemma zlen_app {A} (l k : list A) : zlen (l ++ k) = zlen l + zlen k.
Proof. unfold zlen. rewrite length_app. lia. Qed.

Lemma zlen_map {A B} (f : A -> B) l : zlen (map f l) = zlen l.
Proof. unfold zlen. by rewrite length_map. Qed.

Lemma to_nat_zlen {A} (l : list A) : Z.to_nat (zlen l) = length l.
Proof. unfold zlen. lia. Qed.

Create Rewrite HintDb zlen.
#[export] Hint Rewrite @zlen_nil @zlen_cons @zlen_app @zlen_map @to_nat_zlen : zlen.

(** [lia] modulo the length equations, with every length known nonnegative. *)
Ltac zl :=
  autorewrite with zlen in *;
  repeat match goal with
  | |- context [zlen ?l] =>
      lazymatch goal with H : 0 <= zlen l |- _ => fail | _ => pose proof (zlen_nonneg l) end
  | _ : context [zlen ?l] |- _ =>
      lazymatch goal with H : 0 <= zlen l |- _ => fail | _ => pose proof (zlen_nonneg l) end
  end; lia.

(** ** Bytes at an offset *)

(** The object [m] holds [bs] from offset [o] on. *)
Definition has_bytes (m : list Z) (o : Z) (bs : list Z) : Prop :=
  exists pre post, m = (pre ++ bs ++ post)%list /\ zlen pre = o.

Lemma has_bytes_bound m o bs : has_bytes m o bs -> 0 <= o /\ o + zlen bs <= zlen m.
Proof. intros (pre & post & -> & <-). zl. Qed.

Lemma has_bytes_app m o a b :
  has_bytes m o (a ++ b) -> has_bytes m o a /\ has_bytes m (o + zlen a) b.
Proof.
  intros (pre & post & -> & <-). split.
  - exists pre, (b ++ post)%list. by rewrite <- !app_assoc.
  - exists (pre ++ a)%list, post. rewrite <- !app_assoc. split; [done | zl].
Qed.

Lemma has_bytes_cons m o x b :
  has_bytes m o (x :: b) -> has_bytes m o [x] /\ has_bytes m (o + 1) b.
Proof. intros H. apply (has_bytes_app m o [x] b) in H. exact H. Qed.

Lemma has_bytes_rd m o x b : has_bytes m o (x :: b) -> rd m o = Ok x.
Proof.
  intros (pre & post & -> & <-). unfold rd.
  replace ((0 <=? zlen pre) && (zlen pre <? zlen (pre ++ (x :: b) ++ post))) with true
    by (symmetry; apply andb_true_iff; split; [apply Z.leb_le | apply Z.ltb_lt]; zl).
  rewrite to_nat_zlen, lookup_app_r, Nat.sub_diag by lia. reflexivity.
Qed.

Lemma has_bytes_sub m o bs : has_bytes m o bs -> sub m o (zlen bs) = Ok bs.
Proof.
  intros H. pose proof (has_bytes_bound _ _ _ H). destruct H as (pre & post & -> & <-).
  unfold sub. pose proof (zlen_nonneg bs). zbool.
  rewrite !to_nat_zlen, drop_app_length, take_app_length. reflexivity.
Qed.

(** ** Reading and storing one element *)

Lemma rd_lookup m i x : rd m i = Ok x <-> 0 <= i /\ m !! Z.to_nat i = Some x.
Proof.
  unfold rd. destruct ((0 <=? i) && (i <? zlen m)) eqn:E; bool_to_prop.
  - destruct (m !! Z.to_nat i) eqn:El; naive_solver.
  - split; [done|]. intros [Hi Hl]. apply lookup_lt_Some in Hl.
    apply andb_false_iff in E as [E|E]; bool_to_prop; unfold zlen in E; lia.
Qed.

Lemma rd_total m i : 0 <= i < zlen m -> exists x, m !! Z.to_nat i = Some x /\ rd m i = Ok x.
Proof.
  intros Hi. destruct (lookup_lt_is_Some_2 m (Z.to_nat i)) as [x Hx]; [unfold zlen in Hi; lia|].
  exists x. split; [done|]. apply rd_lookup. split; [lia|done].
Qed.

Lemma rd_oob m i : ~ (0 <= i < zlen m) -> rd m i = Err OutOfBounds.
Proof.
  intros Hi. unfold rd. destruct ((0 <=? i) && (i <? zlen m)) eqn:E; [|done].
  bool_to_prop. lia.
Qed.

Lemma rd_app_r pre s k : 0 <= k -> rd (pre ++ s) (zlen pre + k) = rd s k.
Proof.
  intros Hk. pose proof (zlen_nonneg pre). unfold rd. rewrite zlen_app.
  replace (zlen pre + k <? zlen pre + zlen s) with (k <? zlen s)
    by (destruct (Z.ltb_spec k (zlen s)), (Z.ltb_spec (zlen pre + k) (zlen pre + zlen s)); lia || done).
  replace (0 <=? zlen pre + k) with (0 <=? k) by (destruct (Z.leb_spec 0 k), (Z.leb_spec 0 (zlen pre + k)); lia || done).
  rewrite lookup_app_r by (unfold zlen; lia).
  replace (Z.to_nat (zlen pre + k) - length pre)%nat with (Z.to_nat k) by (unfold zlen; lia). done.
Qed.

Lemma rd_app_0 pre s : rd (pre ++ s) (zlen pre) = rd s 0.
Proof. rewrite <- (rd_app_r pre s 0) by lia. f_equal. lia. Qed.

Lemma rd_cons_0 a s : rd (a :: s) 0 = Ok a.
Proof. apply rd_lookup. split; [lia|done]. Qed.

Lemma rd_cons a s k : 0 < k -> rd (a :: s) k = rd s (k - 1).
Proof. intros. rewrite <- (rd_app_r [a] s (k - 1)) by lia. cbn [app]. f_equal. change (zlen [a]) with 1. lia. Qed.

(** Reads at constant distances from the end of a known prefix. *)
Ltac rd_known :=
  repeat first [ rewrite rd_app_0 | rewrite rd_app_r by lia | rewrite rd_cons_0
               | rewrite rd_cons by lia; rewrite ?Z.sub_diag; cbn [Z.sub Z.add Z.opp Z.pos_sub Pos.pred_double] ].

Lemma store_ok {A} (m : list A) i v : 0 <= i < zlen m -> store m i v = Ok (<[Z.to_nat i := v]> m).
Proof. intros Hi. unfold store. zbool. reflexivity. Qed.

Lemma zlen_insert {A} (m : list A) i v : zlen (<[i := v]> m) = zlen m.
Proof. unfold zlen. by rewrite length_insert. Qed.
#[export] Hint Rewrite @zlen_insert : zlen.

Lemma zlen_replicate {A} n (v : A) : zlen (replicate n v) = Z.of_nat n.
Proof. unfold zlen. by rewrite length_replicate. Qed.
#[export] Hint Rewrite @zlen_replicate : zlen.

Lemma zlen_take {A} (l : list A) n : 0 <= n <= zlen l -> zlen (take (Z.to_nat n) l) = n.
Proof. unfold zlen. intros. rewrite length_take. lia. Qed.

Lemma zlen_drop {A} (l : list A) n : 0 <= n <= zlen l -> zlen (drop (Z.to_nat n) l) = zlen l - n.
Proof. unfold zlen. intros. rewrite length_drop. lia. Qed.

(** ** Overwriting bytes *)

Lemma zlen_splice m o bs :
  0 <= o -> o + zlen bs <= zlen m -> zlen (splice m o bs) = zlen m.
Proof.
  intros Ho Hb. unfold splice, zlen in *. rewrite !length_app, length_take, length_drop. lia.
Qed.

Lemma blit_ok m o bs :
  0 <= o -> o + zlen bs <= zlen m -> blit m o bs = Ok (splice m o bs).
Proof. intros. unfold blit. zbool. reflexivity. Qed.

Lemma splice_nil m o : 0 <= o -> splice m o [] = m.
Proof.
  intros. unfold splice. rewrite zlen_nil, Z.add_0_r. cbn. apply take_drop.
Qed.

Lemma has_bytes_splice m o bs :
  0 <= o -> o + zlen bs <= zlen m -> has_bytes (splice m o bs) o bs.
Proof.
  intros Ho Hb. exists (take (Z.to_nat o) m), (drop (Z.to_nat (o + zlen bs)) m).
  split; [done|]. unfold zlen in *. rewrite length_take. lia.
Qed.

Lemma splice_splice m o a b :
  0 <= o -> o + zlen a + zlen b <= zlen m ->
  splice (splice m o a) (o + zlen a) b = splice m o (a ++ b).
Proof.
  intros Ho Hb. unfold splice. rewrite zlen_app.
  pose proof (zlen_nonneg a). pose proof (zlen_nonneg b).
  assert (Hl : length (take (Z.to_nat o) m) = Z.to_nat o)
    by (rewrite length_take; unfold zlen in *; lia).
  replace (Z.to_nat (o + zlen a)) with (length (take (Z.to_nat o) m ++ a))%nat
    by (rewrite length_app, Hl; unfold zlen; lia).
  rewrite (app_assoc (take (Z.to_nat o) m) a), take_app_length.
  rewrite <- !app_assoc. f_equal. f_equal. f_equal.
  rewrite (app_assoc (take (Z.to_nat o) m) a), drop_app_ge
    by (rewrite length_app, Hl; unfold zlen; lia).
  rewrite drop_drop, length_app, Hl. f_equal. unfold zlen. lia.
Qed.

Lemma splice_cons m o x b :
  0 <= o -> o + 1 + zlen b <= zlen m ->
  splice (splice m o [x]) (o + 1) b = splice m o (x :: b).
Proof. intros. apply (splice_splice m o [x] b); zl. Qed.

(** Rewriting part of a range that has just been written. *)
Lemma splice_over m o a b b' c :
  0 <= o -> zlen b = zlen b' -> o + zlen a + zlen b + zlen c <= zlen m ->
  splice (splice m o (a ++ b ++ c)) (o + zlen a) b' = splice m o (a ++ b' ++ c).
Proof.
  intros Ho Hbb Hl. unfold splice. rewrite !zlen_app.
  assert (Hlen : length (take (Z.to_nat o) m) = Z.to_nat o)
    by (rewrite length_take; unfold zlen in *; lia).
  assert (Htk : length (take (Z.to_nat o) m ++ a) = Z.to_nat (o + zlen a))
    by (rewrite length_app, Hlen; unfold zlen; lia).
  assert (Hb : length b = length b') by (unfold zlen in Hbb; lia).
  rewrite <- !app_assoc, (app_assoc (take (Z.to_nat o) m) a), <- Htk, take_app_length.
  rewrite <- Hbb, <- !app_assoc. do 3 f_equal.
  replace (Z.to_nat (o + zlen a + zlen b)) with (length ((take (Z.to_nat o) m ++ a) ++ b))%nat
    by (rewrite length_app, Htk; unfold zlen; lia).
  by rewrite (app_assoc (take (Z.to_nat o) m) a), (app_assoc (take (Z.to_nat o) m ++ a) b),
    drop_app_length.
Qed.

(** Writing over the tail of a range that has just been written. *)
Lemma splice_tail m o a b c :
  0 <= o -> zlen b <= zlen c -> o + zlen a + zlen c <= zlen m ->
  splice (splice m o (a ++ b)) (o + zlen a) c = splice m o (a ++ c).
Proof.
  intros Ho Hbc Hl. pose proof (zlen_nonneg a). pose proof (zlen_nonneg b).
  rewrite <- (take_drop (length b) c).
  assert (Hcl : (length b <= length c)%nat) by (unfold zlen in Hbc; lia).
  assert (Ht : zlen b = zlen (take (length b) c))
    by (unfold zlen; rewrite length_take; lia).
  assert (Hd : zlen (drop (length b) c) = zlen c - zlen b)
    by (unfold zlen; rewrite length_drop; lia).
  rewrite <- splice_splice; [|zl|].
  2: { rewrite zlen_splice by (autorewrite with zlen; lia). rewrite <- Ht, Hd. lia. }
  pose proof (splice_over m o a b (take (length b) c) [] Ho Ht) as Hso.
  rewrite !app_nil_r, zlen_nil in Hso. rewrite Hso by lia.
  replace (o + zlen a + zlen (take (length b) c)) with (o + zlen (a ++ take (length b) c)) by zl.
  rewrite splice_splice; [by rewrite <- app_assoc|lia|].
  autorewrite with zlen. rewrite <- Ht, Hd. lia.
Qed.

Lemma splice_tail0 m a b c :
  zlen b <= zlen c -> zlen a + zlen c <= zlen m ->
  splice (splice m 0 (a ++ b)) (zlen a) c = splice m 0 (a ++ c).
Proof. intros. apply (splice_tail m 0); lia. Qed.

(** Writing the bytes just before a range that has just been written. *)
Lemma splice_before m o f b :
  0 <= o -> o + zlen f + zlen b <= zlen m ->
  splice (splice m (o + zlen f) b) o f = splice m o (f ++ b).
Proof.
  intros Ho Hl. unfold splice. pose proof (zlen_nonneg f). pose proof (zlen_nonneg b).
  rewrite take_app_le by (rewrite length_take; unfold zlen in *; lia).
  rewrite take_take, Nat.min_l by lia. rewrite <- app_assoc. do 2 f_equal.
  rewrite drop_app_ge by (rewrite length_take; lia).
  replace (Z.to_nat (o + zlen f) - length (take (Z.to_nat (o + zlen f)) m))%nat with O
    by (rewrite length_take; unfold zlen in *; lia).
  rewrite drop_0. do 2 f_equal. zl.
Qed.

(** Writing elsewhere leaves bytes in place. *)
Lemma has_bytes_splice_below m o b p bs :
  has_bytes m o b -> o + zlen b <= p -> has_bytes (splice m p bs) o b.
Proof.
  intros (pre & post & -> & <-) Hp. pose proof (zlen_nonneg pre). pose proof (zlen_nonneg b).
  unfold splice. rewrite (app_assoc pre b post), take_app_ge by (rewrite length_app; unfold zlen in *; lia).
  exists pre. eexists. split; [|done]. by rewrite <- !app_assoc.
Qed.

Lemma has_bytes_extend m c o b : has_bytes m o b -> has_bytes (m ++ c) o b.
Proof.
  intros (pre & post & -> & <-). exists pre, (post ++ c)%list. split; [by rewrite <- !app_assoc|done].
Qed.

Lemma has_bytes_app_2 m o a b : has_bytes m o (a ++ b) -> has_bytes m (o + zlen a) b.
Proof. intros H. by apply has_bytes_app in H as [_ H]. Qed.

Lemma has_bytes_splice_app m o a b c :
  0 <= o -> o + zlen (a ++ b ++ c) <= zlen m -> has_bytes (splice m o (a ++ b ++ c)) (o + zlen a) b.
Proof.
  intros Ho Hl. pose proof (has_bytes_splice m o _ Ho Hl) as H.
  apply has_bytes_app in H as [_ H]. by apply has_bytes_app in H as [H _].
Qed.

Lemma wr_blit m i v : 0 <= i < zlen m -> wr m i v = Ok (splice m i [u8 v]).
Proof.
  intros Hi. unfold wr. zbool. f_equal. unfold splice.
  rewrite insert_take_drop by (unfold zlen in Hi; lia).
  f_equal. cbn. do 2 f_equal. unfold zlen. cbn [length]. lia.
Qed.

Lemma wr_app a x b v : wr (a ++ x :: b) (zlen a) v = Ok (a ++ u8 v :: b)%list.
Proof.
  pose proof (zlen_nonneg a). pose proof (zlen_nonneg b). unfold wr. rewrite zlen_app, zlen_cons. zbool.
  by rewrite to_nat_zlen, insert_app_r_alt, Nat.sub_diag by lia.
Qed.

Lemma wr_oob m i v : ~ (0 <= i < zlen m) -> wr m i v = Err OutOfBounds.
Proof.
  intros Hi. unfold wr. destruct ((0 <=? i) && (i <? zlen m)) eqn:E; [|done].
  bool_to_prop. lia.
Qed.

Lemma u8_byte b : is_byte b -> u8 b = b.
Proof. intros. unfold u8. by rewrite Z.mod_small. Qed.

Lemma memcpy_s_ok m o n bs :
  zlen bs <= n < 2 ^ 64 -> 0 <= o -> o + zlen bs <= zlen m ->
  memcpy_s m o n bs = Ok (splice m o bs).
Proof.
  intros Hn Ho Hb. unfold memcpy_s. destruct bs as [|b bs]; [by rewrite splice_nil|].
  pose proof (zlen_nonneg (b :: bs)). unfold u64. rewrite Z.mod_small by lia.
  zbool. by apply blit_ok.
Qed.

(** [memcpy_s] with a size computed in 32-bit arithmetic: a negative size is a
    huge [size_t], so only the sizes from 0 to the count are refused. *)
Lemma memcpy_s_int m o n bs :
  - 2 ^ 31 <= n < 2 ^ 31 -> 0 < zlen bs < 2 ^ 31 ->
  memcpy_s m o n bs =
    if (0 <=? n) && (n <? zlen bs) then Err InvalidParameter else blit m o bs.
Proof.
  intros Hn Hb. unfold memcpy_s. destruct bs as [|b bs]; [unfold zlen in Hb; cbn in Hb; lia|].
  assert (Hu : u64 n = if n <? 0 then 2 ^ 64 + n else n).
  { unfold u64. destruct (Z.ltb_spec n 0); [|apply Z.mod_small; lia].
    symmetry. apply (Z.mod_unique _ _ (-1)); lia. }
  rewrite Hu. destruct (Z.ltb_spec n 0), (Z.ltb_spec n (zlen (b :: bs))); zbool; done.
Qed.

Lemma mod_byte z : is_byte (z mod 256).
Proof. unfold is_byte. apply Z.mod_pos_bound. lia. Qed.

(** Writing one byte after what was written so far. *)
Lemma wr_splice0 m l v : zlen l < zlen m -> wr (splice m 0 l) (zlen l) v = Ok (splice m 0 (l ++ [u8 v])).
Proof.
  intros Hl. pose proof (zlen_nonneg l). rewrite wr_blit by (rewrite zlen_splice; lia).
  by rewrite (splice_splice m 0 l) by (autorewrite with zlen; lia).
Qed.

Lemma emit_u8 m l v :
  zlen l < zlen m -> emit (splice m 0 l) (zlen l) v = Ok (splice m 0 (l ++ [u8 v]), zlen (l ++ [u8 v])).
Proof.
  intros Hl. unfold emit. rewrite wr_splice0 by done. cbn [rbind]. do 2 f_equal. zl.
Qed.

Lemma emit_splice0 m l v :
  zlen l < zlen m -> is_byte v ->
  emit (splice m 0 l) (zlen l) v = Ok (splice m 0 (l ++ [v]), zlen (l ++ [v])).
Proof. intros Hl Hv. by rewrite emit_u8, u8_byte. Qed.

(** ** Bits of a byte *)

Lemma byte_bits_ext x y :
  is_byte x -> is_byte y ->
  (forall n, n ∈ [0; 1; 2; 3; 4; 5; 6; 7] -> Z.testbit x n = Z.testbit y n) -> x = y.
Proof.
  intros Hx Hy H. rewrite <- (u8_byte x Hx), <- (u8_byte y Hy). unfold u8.
  apply Z.bits_inj'. intros n Hn. destruct (Z.lt_ge_cases n 8).
  - rewrite !Z.mod_pow2_bits_low by lia. apply H. rewrite !elem_of_cons. lia.
  - by rewrite !Z.mod_pow2_bits_high by lia.
Qed.

Lemma u8_is_byte z : is_byte (u8 z).
Proof. apply mod_byte. Qed.

Lemma u8_testbit z n : 0 <= n < 8 -> Z.testbit (u8 z) n = Z.testbit z n.
Proof. intros. unfold u8. apply Z.mod_pow2_bits_low. lia. Qed.

Lemma u32_testbit z n : 0 <= n < 32 -> Z.testbit (u32 z) n = Z.testbit z n.
Proof. intros. unfold u32. apply Z.mod_pow2_bits_low. lia. Qed.

Lemma u64_testbit z n : 0 <= n < 64 -> Z.testbit (u64 z) n = Z.testbit z n.
Proof. intros. unfold u64. apply Z.mod_pow2_bits_low. lia. Qed.

Lemma u32_testbit_high z n : 32 <= n -> Z.testbit (u32 z) n = false.
Proof. intros. unfold u32. apply Z.mod_pow2_bits_high. lia. Qed.

Lemma u64_testbit_high z n : 64 <= n -> Z.testbit (u64 z) n = false.
Proof. intros. unfold u64. apply Z.mod_pow2_bits_high. lia. Qed.

(** The bit operations stay within a width. *)
Definition fits (k x : Z) : Prop := 0 <= x < 2 ^ k.

Lemma fits_bits k x : 0 <= k -> 0 <= x -> (forall n, k <= n -> Z.testbit x n = false) -> fits k x.
Proof.
  intros Hk Hx H. split; [done|]. destruct (Z.lt_ge_cases x (2 ^ k)) as [|Hge]; [done|].
  exfalso. pose proof (Z.pow_pos_nonneg 2 k ltac:(lia) Hk).
  pose proof (Z.log2_le_mono _ _ Hge) as Hl. rewrite Z.log2_pow2 in Hl by done.
  pose proof (Z.bit_log2 x ltac:(lia)) as Hb. by rewrite H in Hb.
Qed.

Lemma bits_fits k x n : fits k x -> 0 <= k <= n -> Z.testbit x n = false.
Proof.
  intros [Hx Hl] Hn. destruct (Z.eq_dec x 0) as [->|]; [apply Z.bits_0|].
  apply Z.bits_above_log2; [done|]. apply Z.lt_le_trans with k; [apply Z.log2_lt_pow2; lia|lia].
Qed.

Lemma fits_land_r k x y : 0 <= k -> fits k y -> fits k (Z.land x y).
Proof.
  intros Hk Hy. apply fits_bits; [done|apply Z.land_nonneg; right; apply Hy|].
  intros n Hn. rewrite Z.land_spec, (bits_fits k y n Hy) by lia. apply andb_false_r.
Qed.

Lemma fits_land_l k x y : 0 <= k -> fits k x -> fits k (Z.land x y).
Proof. intros. rewrite Z.land_comm. by apply fits_land_r. Qed.

Lemma fits_lor k x y : 0 <= k -> fits k x -> fits k y -> fits k (Z.lor x y).
Proof.
  intros Hk Hx Hy. apply fits_bits; [done|apply Z.lor_nonneg; split; [apply Hx|apply Hy]|].
  intros n Hn. by rewrite Z.lor_spec, (bits_fits k x n Hx), (bits_fits k y n Hy) by lia.
Qed.

Lemma fits_lxor k x y : 0 <= k -> fits k x -> fits k y -> fits k (Z.lxor x y).
Proof.
  intros Hk Hx Hy. apply fits_bits; [done|apply Z.lxor_nonneg; split; intros; [apply Hy|apply Hx]|].
  intros n Hn. by rewrite Z.lxor_spec, (bits_fits k x n Hx), (bits_fits k y n Hy) by lia.
Qed.

Lemma fits_shiftr k j x : 0 <= k -> 0 <= j -> fits (k + j) x -> fits k (Z.shiftr x j).
Proof.
  intros Hk Hj Hx. apply fits_bits; [done|apply Z.shiftr_nonneg; apply Hx|].
  intros n Hn. rewrite Z.shiftr_spec by lia. apply (bits_fits (k + j)); [done|lia].
Qed.

Lemma fits_shiftl k j x : 0 <= j <= k -> fits (k - j) x -> fits k (Z.shiftl x j).
Proof.
  intros Hj Hx. apply fits_bits; [lia|apply Z.shiftl_nonneg; apply Hx|].
  intros n Hn. rewrite Z.shiftl_spec by lia. apply (bits_fits (k - j)); [done|lia].
Qed.

Lemma fits_le k j x : 0 <= k <= j -> fits k x -> fits j x.
Proof. intros Hk [? ?]. split; [done|]. pose proof (Z.pow_le_mono_r 2 k j). lia. Qed.

Lemma fits_u32 x : fits 32 (u32 x).
Proof. unfold fits, u32. apply Z.mod_pos_bound. lia. Qed.

Lemma fits_small k x : 0 <= x -> Z.ltb x (2 ^ k) = true -> fits k x.
Proof. intros ? ?%Z.ltb_lt. by split. Qed.

(** Solve [fits] for a nest of shifts, masks and constants. *)
Ltac fits_tac :=
  lazymatch goal with
  | |- fits _ (Z.lor _ _) => apply fits_lor; [lia|fits_tac|fits_tac]
  | |- fits _ (Z.lxor _ _) => apply fits_lxor; [lia|fits_tac|fits_tac]
  | |- fits _ (Z.land _ _) => first [apply fits_land_r; [lia|fits_tac] | apply fits_land_l; [lia|fits_tac]]
  | |- fits _ (Z.shiftr _ _) => apply fits_shiftr; [lia|lia|fits_tac]
  | |- fits _ (Z.shiftl _ _) => apply fits_shiftl; [lia|fits_tac]
  | |- fits _ (u32 _) => first [apply fits_u32 | eapply fits_le; [|apply fits_u32]; lia]
  | |- _ => first [ assumption | solve [unfold fits, is_byte in *; lia]
                  | apply fits_small; [lia|reflexivity] ]
  end.

(** A decidable fact of the values below [n], checked one by one. *)
Lemma forall_below (P : Z -> Prop) `{forall x, Decision (P x)} (n : nat) :
  forallb (fun x => bool_decide (P x)) (map Z.of_nat (seq 0 n)) = true ->
  forall c, 0 <= c < Z.of_nat n -> P c.
Proof.
  intros Hall c Hc. rewrite forallb_forall in Hall. apply (bool_decide_eq_true_1 _), Hall, in_map_iff.
  exists (Z.to_nat c). split; [lia|]. apply in_seq. lia.
Qed.

(** Equality of bytes built by shifts and masks: bit by bit. *)
Ltac bits8 :=
  let n := fresh "n" in let Hn := fresh "Hn" in
  intros n Hn; rewrite !elem_of_cons, elem_of_nil in Hn;
  repeat (destruct Hn as [->|Hn]); try done;
  rewrite ?u8_testbit by lia;
  repeat match goal with
  | |- context [Z.testbit (Z.shiftr ?a ?k) ?n] => rewrite (Z.shiftr_spec a k n) by lia
  | |- context [Z.testbit (Z.shiftl ?a ?k) ?n] => rewrite (Z.shiftl_spec a k n) by lia
  | |- context [Z.testbit (u32 ?a) ?n] => rewrite (u32_testbit a n) by lia
  | |- context [Z.testbit (u64 ?a) ?n] => rewrite (u64_testbit a n) by lia
  | |- context [Z.testbit (u32 ?a) ?n] => rewrite (u32_testbit_high a n) by lia
  | |- context [Z.testbit (u64 ?a) ?n] => rewrite (u64_testbit_high a n) by lia
  | |- context [Z.testbit ?a ?n] => rewrite (Z.testbit_neg_r a n) by lia
  | |- context [Z.testbit (Z.lor ?a ?b) ?n] => rewrite (Z.lor_spec a b n)
  | |- context [Z.testbit (Z.land ?a ?b) ?n] => rewrite (Z.land_spec a b n)
  | |- context [Z.testbit (Z.lxor ?a ?b) ?n] => rewrite (Z.lxor_spec a b n)
  end; cbn;
  rewrite ?andb_false_r, ?andb_true_r, ?orb_false_r, ?orb_true_r; cbn; try reflexivity.

(** ** Byte order *)

Lemma le16_of_le16 a b : is_byte a -> is_byte b -> le16 (of_le16 [a; b]) = [a; b].
Proof. unfold is_byte, le16, of_le16. intros Ha Hb. f_equal; [|f_equal]; Z.to_euclidean_division_equations; lia. Qed.

Lemma le32_of_le32 a b c d :
  is_byte a -> is_byte b -> is_byte c -> is_byte d -> le32 (of_le32 [a; b; c; d]) = [a; b; c; d].
Proof.
  unfold is_byte, le32, of_le32. intros Ha Hb Hc Hd.
  f_equal; [|f_equal; [|f_equal; [|f_equal]]]; Z.to_euclidean_division_equations; lia.
Qed.

Lemma le16_htons z : le16 (htons z) = be16 z.
Proof. apply le16_of_le16; apply mod_byte. Qed.

Lemma le32_htonl z : le32 (htonl z) = be32 z.
Proof. apply le32_of_le32; apply mod_byte. Qed.

Lemma htons_of_be16 z : 0 <= z < 2 ^ 16 -> htons (of_le16 (be16 z)) = z.
Proof.
  intros Hz. unfold htons, be16, of_le16. Z.to_euclidean_division_equations. lia.
Qed.

Lemma htonl_of_be32 z : 0 <= z < 2 ^ 32 -> htonl (of_le32 (be32 z)) = z.
Proof.
  intros Hz. unfold htonl.
  change (be32 (of_le32 (be32 z))) with (rev (le32 (htonl z))). rewrite le32_htonl.
  unfold be32. cbn [rev app of_le32]. Z.to_euclidean_division_equations. lia.
Qed.

(** ** C strings *)

Lemma cstr_app s r : 0 ∉ s -> cstr (s ++ 0 :: r) = s.
Proof.
  induction s as [|b s IH]; intros H; [done|]. cbn [app cstr].
  apply not_elem_of_cons in H as [Hb H]. zbool. by rewrite IH.
Qed.

Lemma cstr_no_nul m : 0 ∉ cstr m.
Proof.
  induction m as [|b m IH]; cbn; [by apply not_elem_of_nil|].
  destruct (Z.eqb_spec b 0); [by apply not_elem_of_nil|].
  apply not_elem_of_cons. split; [lia|done].
Qed.

Lemma strlen_ok m o s : has_bytes m o (s ++ [0]) -> 0 ∉ s -> strlen m o = Ok (zlen s).
Proof.
  intros H Hs. pose proof (has_bytes_bound _ _ _ H) as Hb. rewrite zlen_app in Hb.
  destruct H as (pre & post & -> & <-). change (zlen [0]) with 1 in Hb.
  unfold strlen. pose proof (zlen_nonneg s). zbool.
  rewrite to_nat_zlen, drop_app_length, <- app_assoc. cbn [app].
  rewrite cstr_app by done. rewrite <- app_assoc in Hb. cbn [app] in Hb. zbool. reflexivity.
Qed.

Lemma before_app c s r : c ∉ s -> before c (s ++ c :: r) = s.
Proof.
  induction s as [|b s IH]; intros H; cbn [app before].
  - by rewrite Z.eqb_refl.
  - apply not_elem_of_cons in H as [Hb H]. zbool. by rewrite IH.
Qed.

Lemma before_none c s : c ∉ s -> before c s = s.
Proof.
  induction s as [|b s IH]; intros H; cbn [before]; [done|].
  apply not_elem_of_cons in H as [Hb H]. zbool. by rewrite IH.
Qed.

Lemma occurs_spec c s : occurs c s = true <-> c ∈ s.
Proof.
  induction s as [|b s IH]; cbn; [split; [done|by intros ?%not_elem_of_nil]|].
  rewrite orb_true_iff, IH, Z.eqb_eq, elem_of_cons. split; intros [?|?]; auto.
Qed.

Lemma occurs_false c s : occurs c s = false <-> c ∉ s.
Proof. rewrite <- occurs_spec. destruct (occurs c s); naive_solver. Qed.

(** Induction three or four elements at a time. *)
Lemma list_ind3 {A} (P : list A -> Prop) :
  P [] -> (forall a, P [a]) -> (forall a b, P [a; b]) ->
  (forall a b c l, P l -> P (a :: b :: c :: l)) -> forall l, P l.
Proof.
  intros H0 H1 H2 H3. fix IH 1. intros [|a [|b [|c l]]]; [done|apply H1|apply H2|apply H3, IH].
Qed.

Lemma list_ind4 {A} (P : list A -> Prop) :
  P [] -> (forall a, P [a]) -> (forall a b, P [a; b]) -> (forall a b c, P [a; b; c]) ->
  (forall a b c d l, P l -> P (a :: b :: c :: d :: l)) -> forall l, P l.
Proof.
  intros H0 H1 H2 H3 H4. fix IH 1.
  intros [|a [|b [|c [|d l]]]]; [done|apply H1|apply H2|apply H3|apply H4, IH].
Qed.

(** Induction for recursion that takes one or two elements. *)
Lemma list_ind2 {A} (P : list A -> Prop) :
  P [] -> (forall a, P [a]) -> (forall a b l, P l -> P (b :: l) -> P (a :: b :: l)) -> forall l, P l.
Proof.
  intros H0 H1 H2. enough (H : forall l, P l /\ forall a, P (a :: l)) by (intros l; apply H).
  induction l as [|b l [IH1 IH2]]; [by split|]. split; [apply IH2|]. intros a. by apply H2.
Qed.

Lemma not_elem_take {A} (x : A) n l : x ∉ l -> x ∉ take n l.
Proof. intros H Hin. apply H. rewrite <- (take_drop n l), elem_of_app. by left. Qed.

Lemma not_elem_drop {A} (x : A) n l : x ∉ l -> x ∉ drop n l.
Proof. intros H Hin. apply H. rewrite <- (take_drop n l), elem_of_app. by right. Qed.

(** ** Pointers into C strings *)

(** At offset [p] of [m] stands the rest [s] of a string, with its NUL. *)
Definition points (m : list Z) (p : Z) (s : list Z) : Prop := has_bytes m p (s ++ [0]) /\ 0 ∉ s.

Lemma points_intro pre s post : 0 ∉ s -> points (pre ++ s ++ 0 :: post) (zlen pre) s.
Proof. intros H. split; [|done]. exists pre, post. by rewrite <- app_assoc. Qed.

Lemma points_rd m p s : points m p s -> rd m p = Ok (hd 0 s).
Proof. intros [H _]. destruct s as [|c s]; [by eapply has_bytes_rd|]. by eapply has_bytes_rd. Qed.

Lemma points_next m p c s : points m p (c :: s) -> points m (p + 1) s.
Proof.
  intros [H H0]. split; [by apply (has_bytes_cons m p c)|]. by apply not_elem_of_cons in H0 as [_ ?].
Qed.

Lemma points_nz m p c s : points m p (c :: s) -> c <> 0.
Proof. intros [_ H0]. apply not_elem_of_cons in H0 as [? _]. done. Qed.

Lemma points_app m p a b : points m p (a ++ b) -> points m (p + zlen a) b.
Proof.
  intros [H H0]. rewrite <- app_assoc in H. split; [by apply has_bytes_app_2|]. 
  intros Hb. apply H0. apply elem_of_app. by right.
Qed.

Lemma points_len m p s : points m p s -> 0 <= p /\ p + zlen s < zlen m.
Proof. intros [H _]. apply has_bytes_bound in H. rewrite zlen_app in H. change (zlen [0]) with 1 in H. lia. Qed.

Lemma points_bytes m p s : points m p s -> bytes m -> bytes s.
Proof.
  intros [(pre & post & -> & _) _] Hb. unfold bytes in *. rewrite !Forall_app in Hb. intuition.
Qed.

Lemma points_rd_end m p s : points m p s -> rd m (p + zlen s) = Ok 0.
Proof. intros H. rewrite <- (app_nil_r s) in H. apply points_app in H. by apply points_rd in H. Qed.

(** Byte lists and absent characters are settled by evaluation as well. *)
Ltac conc ::=
  solve [ done | lia | vm_compute; congruence | vm_compute; intuition congruence
        | cbn; lia | vm_compute; repeat constructor | apply occurs_false; reflexivity
        | apply (bool_decide_unpack _); vm_compute; exact I ].
