(* ===== verification/DnsName.v ===== *)
(** * Domain names: [DNSUtil] (src/DNS/DNSUtil.cpp)

    [decodeName] turns a name in wire format (length-prefixed labels, with
    compression pointers) into a dotted C string; [encodeName] does the reverse.
    Both are translated loop by loop; the theorems relate them to the wire and
    text forms of a list of labels. *)

From S2P Require Import Prelude.

Definition DOT : Z := 46.
Definition MAX_DNS_PACKET_LENGTH : Z := 512.
Definition MAX_DNS_NAME_LENGTH : Z := 255.

Module DNSUtil.

(** The 14-bit offset of a compression pointer as the code computes it:
    [uint16_t ptr = srcLoc[1] | srcLoc[0] << 8; ptr &= 0x3FFF]; both bytes are
    [char]s and are sign-extended before the bit operations. *)
Definition pointerOffset (b0 b1 : Z) : Z :=
  Z.land (u16 (Z.lor (schar b1) (Z.shiftl (schar b0) 8))) 0x3FFF.

(** [(start[0] & 0xC0) == 0xC0] on a sign-extended [char]. *)
Definition isPointer (b0 : Z) : bool := Z.land (u32 (schar b0)) 0xC0 =? 0xC0.

(** The [for (unsigned int i = 1; i <= count; ++i)] loop; [n] is the number of
    iterations left. *)
Fixpoint writeCharacters (n : nat) (cur : list Z) (srcLoc i : Z)
    (out : list Z) (dstLoc bufLen bytesRead : Z) : res (list Z * Z * Z) :=
  match n with
  | O => Ok (out, dstLoc, bytesRead)
  | S n' =>
      check (dstLoc + 1 <=? bufLen) else Exception "Buffer too small";
      do c <- rd cur (srcLoc + i);
      do out <- wr out dstLoc c;
      writeCharacters n' cur srcLoc (i + 1) out (dstLoc + 1) bufLen (bytesRead + 1)
  end.

(** The [do ... while (count > 0)] loop, one unit of fuel per iteration. [cur]
    is the object [srcLoc] points into: the caller's until a pointer has been
    followed, the packet's afterwards. *)
Fixpoint decodeLabels (fuel : nat) (packet cur : list Z) (srcLoc : Z)
    (out : list Z) (dstLoc bufLen bytesRead : Z) : res (list Z * Z * Z) :=
  match fuel with
  | O => Err OutOfFuel
  | S fuel' =>
      do b0 <- rd cur srcLoc;
      let count := u32 (schar b0) in
      if isPointer b0 then
        do b1 <- rd cur (srcLoc + 1);
        (* [continue] re-tests [count > 0], which holds *)
        decodeLabels fuel' packet packet (pointerOffset b0 b1) out dstLoc bufLen bytesRead
      else if 63 <? count then Err (Exception "Label length longer than maximum of 63")
      else
        do (out, dstLoc, bytesRead) <-
          writeCharacters (Z.to_nat count) cur srcLoc 1 out dstLoc bufLen bytesRead;
        check (dstLoc + 1 <=? bufLen) else Exception "Buffer too small";
        do out <- wr out dstLoc DOT;
        if 0 <? count
        then decodeLabels fuel' packet cur (srcLoc + (count + 1)) out (dstLoc + 1) bufLen (bytesRead + 1)
        else Ok (out, dstLoc + 1, bytesRead + 1)
  end.

(** [decodeName(name, packet, outputBuffer, bufLen)]: [cur]/[name] is the
    object and offset the [name] argument points to. *)
Definition decodeName (fuel : nat) (cur : list Z) (name : Z) (packet : list Z)
    (out : list Z) (bufLen : Z) : res (list Z * Z) :=
  do qnameLength <- strlen cur name;
  check negb (255 <? qnameLength) else Exception "QNAME length longer than maximum of 255";
  do (out, dstLoc, bytesRead) <- decodeLabels fuel packet cur name out 0 bufLen 0;
  do out <- wr out (dstLoc - 2) 0;
  Ok (out, bytesRead).

(** The [while (read)] loop of [encodeName]; [name] is the C string [lastPtr]
    points to. *)
Fixpoint encodeLabels (fuel : nat) (name : list Z) (out : list Z)
    (outputPtr bufLen totalLen : Z) : res (list Z * Z) :=
  match fuel with
  | O => Err OutOfFuel
  | S fuel' =>
      let read := occurs DOT name in
      let label := before DOT name in
      let len := u8 (zlen label) in
      do out <- wr out outputPtr len;
      do out <- memcpy_s out (outputPtr + 1) bufLen (take (Z.to_nat len) label);
      if read
      then encodeLabels fuel' (drop (Z.to_nat (len + 1)) name) out
             (outputPtr + 1 + len) bufLen (totalLen + (len + 1))
      else Ok (out, totalLen + (len + 1))
  end.

(** [encodeName(name, outputBuffer, bufLen)] with [outputBuffer = out + o]. Every
    iteration but the last consumes at least the dot, so one unit of fuel per
    character and one more are enough. *)
Definition encodeName (name : list Z) (out : list Z) (o bufLen : Z) : res (list Z * Z) :=
  do (out, totalLen) <- encodeLabels (S (length name)) name out o bufLen 0;
  do out <- wr out (o + totalLen) 0;
  Ok (out, totalLen + 1).

(** ** The wire and text forms of a list of labels *)

Definition wireLabels (ls : list (list Z)) : list Z :=
  concat (map (fun l => zlen l :: l) ls).

(** RFC 1035 form: every label preceded by its length, then the root. *)
Definition wire (ls : list (list Z)) : list Z := (wireLabels ls ++ [0])%list.

Definition dotted (ls : list (list Z)) : list Z := concat (map (fun l => (l ++ [DOT])%list) ls).

Fixpoint text (ls : list (list Z)) : list Z :=
  match ls with
  | [] => []
  | [l] => l
  | l :: ls' => (l ++ DOT :: text ls')%list
  end.

(** A label [decodeName] accepts: 1 to 63 bytes. *)
Definition label_ok (l : list Z) : Prop := 1 <= zlen l <= 63 /\ bytes l.

(** A label whose text form is unambiguous. *)
Definition label_text (l : list Z) : Prop := (DOT ∉ l) /\ (0 ∉ l).

(** The name a packet spells, as RFC 1035 (4.1.4) reads it. [spells packet cur
    o ls e n low]: the bytes at offset [o] of [cur] spell the labels [ls],
    following compression pointers into [packet] whose 14-bit offset is the
    number their two bytes spell; the name ends on the wire before offset [e];
    it takes [n] steps to read; [low] says that the second byte of every pointer
    followed is below 128. *)
Inductive spells (packet : list Z) : list Z -> Z -> list (list Z) -> Z -> nat -> bool -> Prop :=
  | spells_root cur o : has_bytes cur o [0] -> spells packet cur o [] (o + 1) 1 true
  | spells_label cur o l ls e n low :
      label_ok l -> has_bytes cur o (zlen l :: l) ->
      spells packet cur (o + 1 + zlen l) ls e n low ->
      spells packet cur o (l :: ls) e (S n) low
  | spells_pointer cur o b0 b1 ls e n low :
      0xC0 <= b0 < 256 -> is_byte b1 -> has_bytes cur o [b0; b1] ->
      spells packet packet ((b0 - 0xC0) * 256 + b1) ls e n low ->
      spells packet cur o ls (o + 2) (S n) ((b1 <? 128) && low).

(** ** Lemmas *)

Lemma wireLabels_cons l ls : wireLabels (l :: ls) = (zlen l :: l ++ wireLabels ls)%list.
Proof. reflexivity. Qed.

Lemma wire_cons l ls : wire (l :: ls) = (zlen l :: l ++ wire ls)%list.
Proof. unfold wire. rewrite wireLabels_cons. cbn. by rewrite <- app_assoc. Qed.

Lemma dotted_cons l ls : dotted (l :: ls) = (l ++ DOT :: dotted ls)%list.
Proof. unfold dotted. cbn. by rewrite <- app_assoc. Qed.

Lemma zlen_dotted ls : zlen (dotted ls) = zlen (wireLabels ls).
Proof.
  induction ls as [|l ls IH]; [done|]. rewrite dotted_cons, wireLabels_cons. zl.
Qed.

Lemma dotted_text ls : ls <> [] -> dotted ls = (text ls ++ [DOT])%list.
Proof.
  induction ls as [|l [|l' ls] IH]; intros Hne; [done| |].
  - unfold dotted. cbn. by rewrite app_nil_r.
  - rewrite dotted_cons, IH by done. cbn [text]. by rewrite <- app_assoc.
Qed.

Lemma schar_small b : 0 <= b < 128 -> schar b = b.
Proof. intros. unfold schar. by zbool. Qed.

Lemma isPointer_small b : 0 <= b <= 63 -> isPointer b = false.
Proof.
  intros Hb. unfold isPointer, u32. rewrite schar_small, Z.mod_small by lia.
  apply Z.eqb_neq. intros E.
  assert (Z.testbit (Z.land b 0xC0) 7 = true) as Ht by (rewrite E; reflexivity).
  rewrite Z.land_spec in Ht. apply andb_true_iff in Ht. destruct Ht as [Ht _].
  rewrite (Z.bits_above_log2 b 7) in Ht; [done|lia|].
  destruct (decide (b = 0)) as [->|]; [done|]. apply Z.log2_lt_pow2; lia.
Qed.

(** Every byte value is a constant: facts about one byte are checked by
    running through the 256 cases. *)
Lemma byte_cases (P : Z -> bool) :
  forallb P (map Z.of_nat (seq 0 256)) = true -> forall b, is_byte b -> P b = true.
Proof.
  intros H b Hb. rewrite forallb_forall in H. apply H. apply in_map_iff.
  exists (Z.to_nat b). unfold is_byte in Hb. split; [lia|]. apply in_seq. lia.
Qed.

Lemma isPointer_high b : 0xC0 <= b < 256 -> isPointer b = true.
Proof.
  intros Hb. pose proof (byte_cases (fun b => implb (0xC0 <=? b) (isPointer b)) ltac:(vm_compute; reflexivity) b) as H.
  cbn beta in H. rewrite (proj2 (Z.leb_le 0xC0 b)) in H by lia. apply H. unfold is_byte. lia.
Qed.

Lemma pointerOffset_eq b0 b1 :
  0xC0 <= b0 < 256 -> is_byte b1 ->
  pointerOffset b0 b1 = if b1 <? 128 then (b0 - 0xC0) * 256 + b1 else 0x3F00 + b1.
Proof.
  intros H0 H1. pose proof (byte_cases (fun b1 =>
    (forallb (fun b0 => implb (0xC0 <=? b0)
       (pointerOffset b0 b1 =? if b1 <? 128 then (b0 - 0xC0) * 256 + b1 else 0x3F00 + b1))
       (map Z.of_nat (seq 0 256)))) ltac:(vm_compute; reflexivity) b1 H1) as H.
  pose proof (byte_cases _ H b0 ltac:(unfold is_byte; lia)) as H'. cbn beta in H'.
  rewrite (proj2 (Z.leb_le 0xC0 b0)) in H' by lia. by apply Z.eqb_eq.
Qed.

Lemma pointerOffset_small b0 b1 :
  0xC0 <= b0 < 256 -> 0 <= b1 < 128 -> pointerOffset b0 b1 = (b0 - 0xC0) * 256 + b1.
Proof. intros H0 H1. rewrite pointerOffset_eq by (done || unfold is_byte; lia). by zbool. Qed.

Lemma writeCharacters_ok l : forall cur srcLoc i out dstLoc bufLen bytesRead,
  bytes l -> has_bytes cur (srcLoc + i) l ->
  0 <= dstLoc -> dstLoc + zlen l <= bufLen -> bufLen <= zlen out ->
  writeCharacters (length l) cur srcLoc i out dstLoc bufLen bytesRead =
    Ok (splice out dstLoc l, dstLoc + zlen l, bytesRead + zlen l).
Proof.
  induction l as [|c l IH]; intros cur srcLoc i out dstLoc bufLen bytesRead Hb Hm Hd Hl Ho.
  - cbn. rewrite splice_nil, zlen_nil, !Z.add_0_r by lia. done.
  - apply Forall_cons in Hb as [Hc Hb]. pose proof (zlen_nonneg l).
    rewrite zlen_cons in Hl. cbn [length writeCharacters]. zbool.
    rewrite (has_bytes_rd _ _ _ _ Hm). cbn [rbind]. rewrite wr_blit by lia. cbn [rbind].
    rewrite u8_byte by done. apply has_bytes_cons in Hm as [_ Hm].
    rewrite IH; [|done|by rewrite Z.add_assoc in *|lia|lia|rewrite zlen_splice; zl].
    rewrite splice_cons by zl.
    do 2 f_equal; [f_equal|]; zl.
Qed.

Lemma decodeLabels_ok packet cur o ls e n low :
  spells packet cur o ls e n low -> low = true ->
  forall fuel out dstLoc bufLen bytesRead,
  (n <= fuel)%nat -> 0 <= dstLoc -> dstLoc + zlen (wire ls) <= bufLen -> bufLen <= zlen out ->
  decodeLabels fuel packet cur o out dstLoc bufLen bytesRead =
    Ok (splice out dstLoc (dotted ls ++ [DOT]), dstLoc + zlen (wire ls), bytesRead + zlen (wire ls)).
Proof.
  induction 1 as [cur o H0 | cur o l ls e n low [Hlen Hlb] Hm _ IH | cur o b0 b1 ls e n low Hb0 Hb1 Hm _ IH];
    intros Hlow [|fuel] out dstLoc bufLen bytesRead Hf Hd Hl Ho; [lia| |lia| |lia|].
  - change (zlen (wire [])) with 1 in *. cbn [decodeLabels]. rewrite (has_bytes_rd _ _ _ _ H0).
    cbn [rbind]. change (isPointer 0) with false. change (u32 (schar 0)) with 0.
    zbool. change (Z.to_nat 0) with O. cbn [writeCharacters rbind]. zbool. rewrite wr_blit by lia. reflexivity.
  - rewrite wire_cons in *. assert (Hw : 0 <= zlen (wire ls)) by zl.
    rewrite zlen_cons, zlen_app in *. cbn [decodeLabels].
    rewrite (has_bytes_rd _ _ _ _ Hm). cbn [rbind]. rewrite isPointer_small by lia.
    unfold u32. rewrite schar_small, Z.mod_small by lia. zbool.
    apply has_bytes_cons in Hm as [_ Hm].
    rewrite to_nat_zlen, writeCharacters_ok; [|done|done|lia|lia|done]. cbn [rbind]. zbool.
    assert (Hsz : zlen (splice out dstLoc l) = zlen out) by (apply zlen_splice; lia).
    rewrite wr_blit by lia. cbn [rbind].
    rewrite splice_splice by zl.
    replace (o + (zlen l + 1)) with (o + 1 + zlen l) by lia.
    rewrite IH; [|done|lia|lia|lia|rewrite zlen_splice; zl].
    replace (dstLoc + zlen l + 1) with (dstLoc + zlen (l ++ [u8 DOT])) by zl.
    rewrite splice_splice; [|lia|autorewrite with zlen; rewrite zlen_dotted; unfold wire in *; zl].
    rewrite dotted_cons. change (u8 DOT) with DOT. rewrite <- !app_assoc.
    do 2 f_equal; [f_equal|]; zl.
  - cbn [decodeLabels]. rewrite (has_bytes_rd _ _ _ _ Hm). cbn [rbind]. rewrite isPointer_high by lia.
    apply has_bytes_cons in Hm as [_ Hm]. rewrite (has_bytes_rd _ _ _ _ Hm). cbn [rbind].
    apply andb_true_iff in Hlow as [Hb Hlow]. bool_to_prop. unfold is_byte in Hb1.
    rewrite pointerOffset_small by lia. apply IH; done || lia.
Qed.

(** A pointer whose second byte is 128 or more leads out of the packet. *)
Lemma decodeLabels_leaves packet cur o ls e n low :
  spells packet cur o ls e n low -> low = false ->
  forall fuel out dstLoc bufLen bytesRead, zlen packet <= 0x3F80 ->
  (n <= fuel)%nat -> 0 <= dstLoc -> dstLoc + zlen (wire ls) <= bufLen -> bufLen <= zlen out ->
  decodeLabels fuel packet cur o out dstLoc bufLen bytesRead = Err OutOfBounds.
Proof.
  induction 1 as [cur o H0 | cur o l ls e n low [Hlen Hlb] Hm _ IH | cur o b0 b1 ls e n low Hb0 Hb1 Hm Hs IH];
    intros Hlow [|fuel] out dstLoc bufLen bytesRead Hp Hf Hd Hl Ho; [done|done|lia| |lia|].
  - rewrite wire_cons in *. assert (Hw : 0 <= zlen (wire ls)) by zl.
    rewrite zlen_cons, zlen_app in *. cbn [decodeLabels].
    rewrite (has_bytes_rd _ _ _ _ Hm). cbn [rbind]. rewrite isPointer_small by lia.
    unfold u32. rewrite schar_small, Z.mod_small by lia. zbool.
    apply has_bytes_cons in Hm as [_ Hm].
    rewrite to_nat_zlen, writeCharacters_ok; [|done|done|lia|lia|done]. cbn [rbind]. zbool.
    assert (Hsz : zlen (splice out dstLoc l) = zlen out) by (apply zlen_splice; lia).
    rewrite wr_blit by lia. cbn [rbind].
    replace (o + (zlen l + 1)) with (o + 1 + zlen l) by lia.
    apply IH; [done|done|lia|lia|lia|]. rewrite zlen_splice; zl.
  - cbn [decodeLabels]. rewrite (has_bytes_rd _ _ _ _ Hm). cbn [rbind]. rewrite isPointer_high by lia.
    apply has_bytes_cons in Hm as [_ Hm]. rewrite (has_bytes_rd _ _ _ _ Hm). cbn [rbind].
    rewrite pointerOffset_eq by done. destruct (b1 <? 128) eqn:E; bool_to_prop.
    + apply IH; done || lia.
    + destruct fuel as [|fuel]; [destruct Hs; lia|]. cbn [decodeLabels]. by rewrite rd_oob by lia.
Qed.

Lemma encodeLabels_ok ls : forall fuel out o bufLen t,
  ls <> [] ->
  Forall (fun l => (DOT ∉ l) /\ zlen l <= 255 /\ zlen l <= bufLen < 2 ^ 64) ls ->
  (length (text ls) < fuel)%nat -> 0 <= o -> o + zlen (wireLabels ls) <= zlen out ->
  encodeLabels fuel (text ls) out o bufLen t =
    Ok (splice out o (wireLabels ls), t + zlen (wireLabels ls)).
Proof.
  induction ls as [|l ls IH]; intros [|fuel] out o bufLen t Hne Hall Hf Ho Hfit; [done|done|lia|].
  apply Forall_cons in Hall as [(Hdot & Hl & Hb) Hall].
  rewrite wireLabels_cons in *. pose proof (zlen_nonneg l). pose proof (zlen_nonneg (wireLabels ls)).
  rewrite zlen_cons, zlen_app in *.
  assert (Hu : u8 (zlen l) = zlen l) by (apply u8_byte; unfold is_byte; lia).
  destruct ls as [|l' ls].
  - cbn [text encodeLabels]. rewrite (proj2 (occurs_false _ _) Hdot), before_none, Hu by done.
    rewrite wr_blit by lia. cbn [rbind]. rewrite Hu, to_nat_zlen, take_ge by lia.
    rewrite memcpy_s_ok; [|lia|lia|rewrite zlen_splice; zl]. cbn [rbind].
    rewrite splice_cons by zl. cbn. rewrite app_nil_r. do 2 f_equal. zl.
  - change (text (l :: l' :: ls)) with (l ++ DOT :: text (l' :: ls))%list in *.
    remember (l' :: ls) as ls' eqn:E. cbn [encodeLabels].
    rewrite (proj2 (occurs_spec DOT (l ++ DOT :: text ls')))
      by (apply elem_of_app; right; apply elem_of_cons; by left).
    rewrite before_app, Hu by done. rewrite wr_blit by lia. cbn [rbind].
    rewrite Hu, to_nat_zlen, take_ge by lia.
    rewrite memcpy_s_ok; [|lia|lia|rewrite zlen_splice; zl]. cbn [rbind].
    rewrite splice_cons by zl.
    replace (Z.to_nat (zlen l + 1)) with (length (l ++ [DOT]))
      by (rewrite length_app; cbn [length]; unfold zlen; lia).
    rewrite (app_assoc l [DOT] (text ls') : (l ++ DOT :: text ls')%list = _), drop_app_length.
    rewrite IH; [|by subst|done|rewrite length_app in Hf; cbn in Hf; lia|lia|rewrite zlen_splice; zl].
    replace (o + 1 + zlen l) with (o + zlen (zlen l :: l)) by zl.
    rewrite splice_splice by zl. cbn [app]. do 2 f_equal. lia.
Qed.

Lemma encodeName_ok ls out o bufLen :
  ls <> [] ->
  Forall (fun l => (DOT ∉ l) /\ zlen l <= 255 /\ zlen l <= bufLen < 2 ^ 64) ls ->
  0 <= o -> o + zlen (wire ls) <= zlen out ->
  encodeName (text ls) out o bufLen = Ok (splice out o (wire ls), zlen (wire ls)).
Proof.
  intros Hne Hall Ho Hfit. unfold wire in *. rewrite zlen_app in *. change (zlen [0]) with 1 in *.
  unfold encodeName. rewrite encodeLabels_ok; [|done|done|lia|done|lia]. cbn [rbind].
  rewrite wr_blit by (rewrite zlen_splice; pose proof (zlen_nonneg (wireLabels ls)); lia).
  cbn [rbind]. rewrite Z.add_0_l, splice_splice by (change (zlen [u8 0]) with 1; lia). reflexivity.
Qed.

Lemma decodeName_ok packet cur o ls e n fuel out bufLen len :
  spells packet cur o ls e n true -> ls <> [] -> (n <= fuel)%nat ->
  strlen cur o = Ok len -> len <= 255 ->
  zlen (wire ls) <= bufLen -> bufLen <= zlen out ->
  decodeName fuel cur o packet out bufLen =
    Ok (splice out 0 (text ls ++ [0; DOT]), zlen (wire ls)) /\
  (Forall label_text ls -> cstr (splice out 0 (text ls ++ [0; DOT])) = text ls).
Proof.
  intros Hn Hne Hf Hs Hlen Hb Ho. pose proof (dotted_text ls Hne) as Hdt.
  pose proof (f_equal zlen Hdt) as Hzl. rewrite zlen_dotted, zlen_app in Hzl.
  change (zlen [DOT]) with 1 in Hzl.
  assert (Hw : zlen (wire ls) = zlen (text ls) + 2) by (unfold wire; zl).
  split.
  - unfold decodeName. rewrite Hs. cbn [rbind]. zbool. cbn [negb].
    rewrite (decodeLabels_ok _ _ _ _ _ _ _ Hn) by (done || lia). cbn [rbind]. rewrite Hdt, <- app_assoc, Hw.
    replace (0 + (zlen (text ls) + 2) - 2) with (0 + zlen (text ls)) by lia.
    pose proof (zlen_nonneg (text ls)).
    rewrite wr_blit by (rewrite zlen_splice; zl). cbn [rbind].
    change ([DOT] ++ [DOT])%list with ([DOT] ++ [DOT] ++ [])%list.
    rewrite (splice_over out 0 (text ls) [DOT] [u8 0] ([DOT] ++ [])%list) by zl. reflexivity.
  - intros Ht. unfold splice. cbn. rewrite <- app_assoc. apply cstr_app. clear -Ht.
    induction Ht as [|l [|l' ls] [_ Hl] _ IH]; [by apply not_elem_of_nil|done|].
    change (text (l :: l' :: ls)) with (l ++ DOT :: text (l' :: ls))%list.
    rewrite not_elem_of_app, not_elem_of_cons. done.
Qed.

(** Side conditions on a concrete list of labels. *)
Ltac labels_conc :=
  repeat (apply Forall_cons; split;
    [repeat split; first [ conc | apply occurs_false; reflexivity | repeat constructor; done ] |]);
  apply Forall_nil; exact I.

(** ** Properties *)

(** [encodeName] writes, at the output offset, exactly the wire form of the
    labels of a dotted name (each label of at most 255 bytes and not larger than
    the stated buffer), and returns the number of bytes written; nothing else
    of the output object changes. *)
Theorem encodeName_wire ls out o bufLen :
  ls <> [] ->
  Forall (fun l => (DOT ∉ l) /\ zlen l <= 255 /\ zlen l <= bufLen < 2 ^ 64) ls ->
  0 <= o -> o + zlen (wire ls) <= zlen out ->
  encodeName (text ls) out o bufLen = Ok (splice out o (wire ls), zlen (wire ls)).
Proof. apply encodeName_ok. Qed.

Lemma encodeName_wire_witness :
  encodeName (text [str "www"; str "google"; str "com"]) (replicate 20 7) 2 256 =
    Ok ([7; 7; 3; 119; 119; 119; 6; 103; 111; 111; 103; 108; 101; 3; 99; 111; 109; 0; 7; 7], 16).
Proof.
  rewrite (encodeName_wire [str "www"; str "google"; str "com"]);
    [reflexivity | done | | lia | vm_compute; congruence].
  labels_conc.
Defined.

(** C32: [decodeName] on any name that the bytes spell by RFC 1035, labels and
    compression pointers of any offset: with a NUL more than 255 bytes away it
    throws; otherwise it ends, and (1) when the second byte of every pointer is
    below 128 and the name has a label, the output buffer holds the dotted
    text, terminated, and the count returned is the length of the
    uncompressed wire form; (2) when some pointer's second byte is 128 or more
    the sign-extended byte sends the decoder outside the packet (of at most
    0x3F80 bytes); (3) on the root name the terminator is stored one byte
    before the output buffer. The uncompressed form fits the stated length. *)
Theorem decodeName_text packet cur o ls e n low fuel out bufLen len :
  spells packet cur o ls e n low -> (n <= fuel)%nat -> strlen cur o = Ok len ->
  zlen (wire ls) <= bufLen -> bufLen <= zlen out ->
  (255 < len -> decodeName fuel cur o packet out bufLen = Err (Exception "QNAME length longer than maximum of 255")) /\
  (len <= 255 -> low = true -> ls <> [] ->
     decodeName fuel cur o packet out bufLen =
       Ok (splice out 0 (text ls ++ [0; DOT]), zlen (wire ls)) /\
     (Forall label_text ls -> cstr (splice out 0 (text ls ++ [0; DOT])) = text ls)) /\
  (len <= 255 -> low = false -> zlen packet <= 0x3F80 ->
     decodeName fuel cur o packet out bufLen = Err OutOfBounds) /\
  (len <= 255 -> low = true -> ls = [] ->
     decodeName fuel cur o packet out bufLen = Err OutOfBounds).
Proof.
  intros Hs Hf Hl Hb Ho. pose proof (zlen_nonneg (wire ls)). split; [|split; [|split]].
  - intros H255. unfold decodeName. rewrite Hl. cbn [rbind]. by zbool.
  - intros H255 -> Hne. eapply decodeName_ok; done.
  - intros H255 Hlow Hp. unfold decodeName. rewrite Hl. cbn [rbind]. zbool. cbn [negb].
    by rewrite (decodeLabels_leaves _ _ _ _ _ _ _ Hs) by (done || lia).
  - intros H255 Hlow ->. unfold decodeName. rewrite Hl. cbn [rbind]. zbool. cbn [negb].
    rewrite (decodeLabels_ok _ _ _ _ _ _ _ Hs) by (done || lia). cbn [rbind]. change (zlen (wire [])) with 1. by rewrite wr_oob by lia.
Qed.

(** A packet with a compressed name at offset 0 and a plain name at offset 6. *)
Definition www_ms : list Z := ([3; 119; 119; 119; 0xC0; 6] ++ [2; 109; 115; 0])%list.

Lemma www_ms_spells : spells www_ms www_ms 0 [str "www"; str "ms"] 6 4 true.
Proof.
  apply spells_label; [split; [conc|repeat constructor; done] | by exists [], [0xC0; 6; 2; 109; 115; 0] |].
  apply (spells_pointer www_ms www_ms 4 0xC0 6 [str "ms"] 10 2 true);
    [lia|unfold is_byte; lia|by exists [3; 119; 119; 119], [2; 109; 115; 0]|].
  apply (spells_label www_ms www_ms 6 (str "ms") [] 10 1 true);
    [split; [conc|repeat constructor; done] |by exists [3; 119; 119; 119; 0xC0; 6], [0]|].
  apply (spells_root www_ms www_ms 9). by exists [3; 119; 119; 119; 0xC0; 6; 2; 109; 115], [].
Qed.

Lemma decodeName_text_witness :
  decodeName 10 www_ms 0 www_ms (replicate 12 7) 12 = Ok (str "www.ms" ++ [0; 46; 7; 7; 7; 7], 8)%list.
Proof.
  refine (proj1 (proj1 (proj2 (decodeName_text www_ms www_ms 0 [str "www"; str "ms"] 6 4 true 10
    (replicate 12 7) 12 9 www_ms_spells _ _ _ _)) _ _ _)); conc.
Defined.

(** the count [decodeName] returns is not the number of bytes read: the
    compressed name above takes 6 bytes and 8 are reported. *)
Theorem decodeName_count :
  spells www_ms www_ms 0 [str "www"; str "ms"] 6 4 true /\
  exists out, decodeName 10 www_ms 0 www_ms (replicate 12 7) 12 = Ok (out, 8).
Proof. split; [exact www_ms_spells|]. eexists. vm_compute. reflexivity. Qed.

(** A name in plain wire form is spelled, and ends where the form does. *)
Lemma spells_wire packet cur ls : forall o,
  Forall label_ok ls -> has_bytes cur o (wire ls) ->
  spells packet cur o ls (o + zlen (wire ls)) (S (length ls)) true.
Proof.
  induction ls as [|l ls IH]; intros o Hok Hm; [by apply spells_root|].
  apply Forall_cons in Hok as [Hl Hok]. rewrite wire_cons in *.
  apply (has_bytes_app _ _ (zlen l :: l)) in Hm as [Hm Hm'].
  rewrite zlen_cons, zlen_app. replace (o + (1 + (zlen l + zlen (wire ls)))) with (o + 1 + zlen l + zlen (wire ls)) by lia.
  apply spells_label; [done|done|]. apply IH; [done|].
  rewrite zlen_cons in Hm'. by replace (o + 1 + zlen l) with (o + (1 + zlen l)) by lia.
Qed.

(** The label bytes and length prefixes of a textual name contain no NUL. *)
Lemma wireLabels_no_nul ls : Forall label_ok ls -> Forall label_text ls -> 0 ∉ wireLabels ls.
Proof.
  induction 1 as [|l ls [Hl _] _ IH]; intros Ht; [by apply not_elem_of_nil|].
  apply Forall_cons in Ht as [[_ Hz] Ht]. rewrite wireLabels_cons, not_elem_of_cons, not_elem_of_app.
  split; [lia|]. split; [done|by apply IH].
Qed.

(** C4: encoding a dotted name into a buffer and decoding it from there gives
    the name back, and the decoder reports as many bytes read as the encoder
    wrote, for every name of non-empty labels of at most 63 bytes whose wire
    form has at most 256 bytes (the size of the callers' buffers). *)
Theorem encode_decode_name ls m o packet out :
  ls <> [] -> Forall label_ok ls -> Forall label_text ls ->
  zlen (wire ls) <= 256 -> 256 <= zlen out -> 0 <= o -> o + zlen (wire ls) <= zlen m ->
  exists m' out',
    encodeName (text ls) m o 256 = Ok (m', zlen (wire ls)) /\
    decodeName (S (length ls)) m' o packet out 256 = Ok (out', zlen (wire ls)) /\
    cstr out' = text ls.
Proof.
  intros Hne Hok Ht Hw Hout Ho Hfit. exists (splice m o (wire ls)).
  pose proof (has_bytes_splice m o (wire ls) Ho Hfit) as Hm.
  eexists. split; [|].
  - apply encodeName_ok; [done| |done|done].
    eapply Forall_impl; [exact (proj2 (Forall_and _ _) (conj Hok Ht))|]. cbn.
    intros l [[Hl _] [Hd _]]. split; [done|lia].
  - destruct (decodeName_ok packet (splice m o (wire ls)) o ls (o + zlen (wire ls)) (S (length ls)) (S (length ls)) out 256
      (zlen (wireLabels ls))) as [Hd Hc]; auto using spells_wire.
    + apply strlen_ok; [done|by apply wireLabels_no_nul].
    + unfold wire in Hw. zl.
    + split; [exact Hd | by apply Hc].
Qed.

Lemma encode_decode_name_witness :
  exists m' out',
    encodeName (str "ns1.example.org") (replicate 40 9) 3 256 = Ok (m', 17) /\
    decodeName 4 m' 3 [] (replicate 256 1) 256 = Ok (out', 17) /\
    cstr out' = str "ns1.example.org".
Proof.
  apply (encode_decode_name [str "ns1"; str "example"; str "org"] (replicate 40 9) 3 [] (replicate 256 1));
    conc.
Defined.

Lemma writeCharacters_frame n : forall cur srcLoc i out dstLoc bufLen bytesRead out' d' r',
  0 <= dstLoc <= bufLen ->
  writeCharacters n cur srcLoc i out dstLoc bufLen bytesRead = Ok (out', d', r') ->
  zlen out' = zlen out /\ dstLoc <= d' <= bufLen /\ r' - bytesRead = d' - dstLoc /\
  drop (Z.to_nat bufLen) out' = drop (Z.to_nat bufLen) out.
Proof.
  induction n as [|n IH]; intros cur srcLoc i out dstLoc bufLen bytesRead out' d' r' Hd E; cbn in E.
  - injection E as <- <- <-. repeat split; lia.
  - destruct (dstLoc + 1 <=? bufLen) eqn:Hle; [|done]. bool_to_prop.
    destruct (rd cur (srcLoc + i)) as [c|]; cbn in E; [|done].
    destruct (wr out dstLoc c) as [out1|] eqn:Ew; cbn in E; [|done].
    apply IH in E as (Hz & Hb & Hr & Hdr); [|lia].
    unfold wr in Ew. destruct ((0 <=? dstLoc) && (dstLoc <? zlen out)) eqn:Eb; [|done].
    injection Ew as <-. unfold zlen in *. rewrite length_insert in Hz. split; [lia|].
    split; [lia|]. split; [lia|]. rewrite Hdr. apply drop_insert_lt. lia.
Qed.

Lemma decodeLabels_frame fuel : forall packet cur srcLoc out dstLoc bufLen bytesRead out' d' r',
  0 <= dstLoc <= bufLen ->
  decodeLabels fuel packet cur srcLoc out dstLoc bufLen bytesRead = Ok (out', d', r') ->
  zlen out' = zlen out /\ dstLoc < d' <= bufLen /\ r' - bytesRead = d' - dstLoc /\
  drop (Z.to_nat bufLen) out' = drop (Z.to_nat bufLen) out.
Proof.
  induction fuel as [|fuel IH]; intros packet cur srcLoc out dstLoc bufLen bytesRead out' d' r' Hd E;
    cbn [decodeLabels] in E; [done|].
  destruct (rd cur srcLoc) as [b0|]; cbn [rbind] in E; [|done]. destruct (isPointer b0).
  { destruct (rd cur (srcLoc + 1)); cbn [rbind] in E; [|done]. eapply IH; [|exact E]. lia. }
  destruct (63 <? u32 (schar b0)); [done|].
  destruct (writeCharacters _ _ _ _ _ _ _ _) as [[[o1 d1] r1]|] eqn:Ewc; cbn [rbind] in E; [|done].
  apply writeCharacters_frame in Ewc as (Hz1 & Hb1 & Hr1 & Hd1); [|lia].
  destruct (d1 + 1 <=? bufLen) eqn:Hle; [|done]. bool_to_prop.
  destruct (wr o1 d1 DOT) as [o2|] eqn:Ew; cbn [rbind] in E; [|done].
  unfold wr in Ew. destruct ((0 <=? d1) && (d1 <? zlen o1)) eqn:Eb; [|done]. injection Ew as <-.
  assert (Hdi : drop (Z.to_nat bufLen) (<[Z.to_nat d1:=u8 DOT]> o1) = drop (Z.to_nat bufLen) o1)
    by (apply drop_insert_lt; lia).
  assert (Hzi : zlen (<[Z.to_nat d1:=u8 DOT]> o1) = zlen o1) by (unfold zlen; by rewrite length_insert).
  destruct (0 <? u32 (schar b0)).
  - apply IH in E as (Hz & Hb & Hr & Hdr); [|lia]. rewrite Hdr. repeat split; congruence || lia.
  - injection E as <- <- <-. repeat split; congruence || lia.
Qed.

(** whatever the packet contains, a decode that returns has stayed inside
    the stated output length: the buffer keeps its size, no byte at or after
    [bufLen] changes, and at most [bufLen] bytes are reported. *)
Theorem decodeName_bounds fuel cur name packet out bufLen out' n :
  0 <= bufLen <= zlen out ->
  decodeName fuel cur name packet out bufLen = Ok (out', n) ->
  zlen out' = zlen out /\ 0 < n <= bufLen /\
  drop (Z.to_nat bufLen) out' = drop (Z.to_nat bufLen) out.
Proof.
  intros Hb E. unfold decodeName in E.
  destruct (strlen cur name) as [l|]; cbn [rbind] in E; [|done].
  destruct (negb (255 <? l)); [|done].
  destruct (decodeLabels _ _ _ _ _ _ _ _) as [[[o1 d1] r1]|] eqn:El; cbn [rbind] in E; [|done].
  apply decodeLabels_frame in El as (Hz & Hd & Hr & Hdr); [|lia].
  unfold wr in E. destruct ((0 <=? d1 - 2) && (d1 - 2 <? zlen o1)) eqn:Eb; cbn [rbind] in E; [|done].
  injection E as <- <-. bool_to_prop. unfold zlen in *. rewrite length_insert.
  split; [lia|]. split; [lia|]. rewrite drop_insert_lt by lia. done.
Qed.

Lemma decodeName_bounds_witness :
  0 <= 5 <= zlen (replicate 6 7) /\
  zlen [97; 0; 46; 7; 7; 7] = zlen (replicate 6 7) /\ 0 < 3 <= 5 /\
  drop 5 [97; 0; 46; 7; 7; 7] = drop 5 (replicate 6 7).
Proof.
  split; [vm_compute; intuition congruence|].
  apply (decodeName_bounds 3 [1; 97; 0] 0 [] (replicate 6 7) 5 [97; 0; 46; 7; 7; 7] 3);
    [vm_compute; intuition congruence | vm_compute; reflexivity].
Defined.

(** a compression pointer that designates its own offset is followed for
    ever: no amount of fuel is enough, so the code does not return. *)
Theorem decodeName_self_pointer fuel packet o b0 b1 out bufLen len :
  isPointer b0 = true -> has_bytes packet o [b0; b1] -> pointerOffset b0 b1 = o ->
  strlen packet o = Ok len -> len <= 255 ->
  decodeName fuel packet o packet out bufLen = Err OutOfFuel.
Proof.
  intros Hp Hm Ho Hs Hl. unfold decodeName. rewrite Hs. cbn [rbind]. zbool. cbn [negb].
  assert (decodeLabels fuel packet packet o out 0 bufLen 0 = Err OutOfFuel) as ->; [|done].
  clear Hs. pose proof (has_bytes_rd _ _ _ _ Hm) as H0.
  apply has_bytes_cons in Hm as [_ Hm]. pose proof (has_bytes_rd _ _ _ _ Hm) as H1.
  induction fuel as [|fuel IH]; [done|]. cbn [decodeLabels].
  rewrite H0. cbn [rbind]. rewrite Hp, H1. cbn [rbind]. by rewrite Ho.
Qed.

Lemma decodeName_self_pointer_witness :
  decodeName 1000 (replicate 12 1 ++ [0xC0; 12; 0])%list 12
    (replicate 12 1 ++ [0xC0; 12; 0])%list (replicate 256 0) 256 = Err OutOfFuel.
Proof.
  apply (decodeName_self_pointer 1000 _ 12 0xC0 12 _ _ 2);
    [reflexivity | by exists (replicate 12 1), [0] | reflexivity | reflexivity | lia].
Defined.

(** the root name, a single zero byte, makes the decoder store its
    terminator one byte before the output buffer. *)
Theorem decodeName_root_underflow fuel packet cur o out bufLen :
  has_bytes cur o [0] -> 1 <= bufLen -> 0 < zlen out ->
  decodeName (S fuel) cur o packet out bufLen = Err OutOfBounds.
Proof.
  intros Hm Hb Ho. unfold decodeName. rewrite (strlen_ok cur o []); [|done|by apply not_elem_of_nil].
  cbn [rbind decodeLabels]. rewrite (has_bytes_rd _ _ _ _ Hm). cbn [rbind].
  change (isPointer 0) with false. change (u32 (schar 0)) with 0.
  change (Z.to_nat 0) with O. change (zlen []) with 0. zbool. cbn [negb writeCharacters rbind]. zbool.
  rewrite wr_blit by lia. cbn [rbind]. by rewrite wr_oob by lia.
Qed.

Lemma decodeName_root_underflow_witness :
  decodeName 1 [0; 0; 1; 0; 1] 0 [] (replicate 256 0) 256 = Err OutOfBounds.
Proof.
  apply (decodeName_root_underflow 0 [] [0; 0; 1; 0; 1] 0 (replicate 256 0) 256);
    [by exists [], [0; 1; 0; 1] | lia | vm_compute; congruence].
Defined.

(** the offset of a compression pointer is the 14-bit number its two bytes
    spell exactly when the second byte is below 128; otherwise the
    sign-extended second byte overrides the first and the offset lies at or
    above 0x3F80, outside any 512-byte packet. *)
Theorem pointerOffset_value b0 b1 :
  0xC0 <= b0 < 256 -> is_byte b1 ->
  pointerOffset b0 b1 = (if b1 <? 128 then (b0 - 0xC0) * 256 + b1 else 0x3F00 + b1) /\
  (128 <= b1 -> MAX_DNS_PACKET_LENGTH < pointerOffset b0 b1).
Proof.
  intros H0 H1.
  pose proof (pointerOffset_eq b0 b1 H0 H1) as Hv.
  split; [exact Hv|]. intros Hb. rewrite Hv. unfold MAX_DNS_PACKET_LENGTH. zbool. lia.
Qed.

Lemma pointerOffset_value_witness :
  pointerOffset 0xC0 0x80 = 0x3F80 /\ MAX_DNS_PACKET_LENGTH < pointerOffset 0xC0 0x80.
Proof.
  pose proof (pointerOffset_value 0xC0 0x80 ltac:(lia) ltac:(unfold is_byte; lia)) as [H1 H2].
  split; [exact H1 | apply H2; lia].
Defined.

End DNSUtil.

(** * Questions: [DNSQuery] (src/DNS/DNSQuery.cpp, DNSQuery.h) *)

Module DNSQuery.

Record query := mkQuery {
  qname : list Z;    (* char qname[MAX_DNS_NAME_LENGTH + 1] *)
  qtype : Z;         (* enum TYPE : uint16_t *)
  qclass : Z;        (* enum CLASS : uint16_t *)
  qlength : Z        (* size_t length *)
}.

(** [getQname()] as a C string. *)
Definition getQname (q : query) : list Z := cstr (qname q).
Definition getQtype (q : query) : Z := qtype q.
Definition getQclass (q : query) : Z := qclass q.
Definition getLength (q : query) : Z := qlength q.

(** [DNSQuery(start, message)]: [start] points at offset [start] of [buf],
    [message] at the beginning of [message]; [junk] is the initial content of
    the [qname] array. *)
Definition DNSQuery (fuel : nat) (buf : list Z) (start : Z) (message junk : list Z) : res query :=
  do b0 <- rd buf start;
  let pointer := DNSUtil.isPointer b0 in
  do (src, srcLoc) <-
    (if pointer then do b1 <- rd buf (start + 1); Ok (message, DNSUtil.pointerOffset b0 b1)
     else Ok (buf, start));
  do (qname, n) <- DNSUtil.decodeName fuel src srcLoc message junk (MAX_DNS_NAME_LENGTH + 1);
  let srcLoc := srcLoc + n in
  if pointer then
    do t <- rd buf (start + 3);
    do c <- rd buf (start + 5);
    Ok (mkQuery qname (u16 (schar t)) (u16 (schar c)) 6)
  else
    do t <- rd src (srcLoc + 1);
    do c <- rd src (srcLoc + 3);
    Ok (mkQuery qname (u16 (schar t)) (u16 (schar c)) (u64 (srcLoc - start + 4))).

Import DNSUtil.

(** A plain question: name, then the big-endian type and class. *)
Definition question (ls : list (list Z)) (th tl ch cl : Z) : list Z :=
  (wire ls ++ [th; tl; ch; cl])%list.

Lemma DNSQuery_ok fuel buf start message junk ls th tl ch cl :
  ls <> [] -> Forall label_ok ls -> Forall label_text ls -> zlen (wire ls) <= 256 ->
  zlen junk = 256 -> (length ls < fuel)%nat ->
  has_bytes buf start (question ls th tl ch cl) ->
  exists q, DNSQuery fuel buf start message junk = Ok q /\
    getQname q = text ls /\ getLength q = zlen (question ls th tl ch cl) /\
    qtype q = u16 (schar tl) /\ qclass q = u16 (schar cl) /\ zlen (qname q) = 256.
Proof.
  intros Hne Hok Ht Hw Hj Hf Hm. unfold question in Hm.
  apply has_bytes_app in Hm as [Hm Hm'].
  destruct ls as [|l ls]; [done|].
  assert (Hb0 : rd buf start = Ok (zlen l)) by (rewrite wire_cons in Hm; by eapply has_bytes_rd).
  pose proof Hok as Hok'. apply Forall_cons in Hok' as [[Hl _] _].
  remember (l :: ls) as lbls eqn:E.
  destruct (decodeName_ok message buf start lbls (start + zlen (wire lbls)) (S (length lbls)) fuel junk 256 (zlen (wireLabels lbls)))
    as [Hd Hc]; auto using spells_wire; [| |lia|].
  { apply strlen_ok; [done|by apply wireLabels_no_nul]. }
  { unfold wire in Hw. zl. }
  pose proof (has_bytes_bound _ _ _ Hm') as Hbd. change (zlen [th; tl; ch; cl]) with 4 in Hbd.
  apply has_bytes_cons in Hm' as [_ Hm']. pose proof (has_bytes_rd _ _ _ _ Hm') as Ht1.
  do 2 apply has_bytes_cons in Hm' as [_ Hm']. pose proof (has_bytes_rd _ _ _ _ Hm') as Hc1.
  unfold DNSQuery. rewrite Hb0. cbn [rbind]. rewrite isPointer_small by lia. cbn [rbind].
  change (MAX_DNS_NAME_LENGTH + 1) with 256. rewrite Hd. cbn [rbind].
  rewrite Ht1. cbn [rbind]. replace (start + zlen (wire lbls) + 3) with (start + zlen (wire lbls) + 1 + 1 + 1) by lia.
  rewrite Hc1. cbn [rbind]. eexists. split; [reflexivity|]. cbn.
  assert (Hz : zlen (splice junk 0 (text lbls ++ [0; DOT])) = 256).
  { pose proof (f_equal zlen (dotted_text lbls Hne)) as Hdt. rewrite zlen_dotted, zlen_app in Hdt.
    rewrite zlen_splice; [done|lia|]. unfold wire in Hw. zl. }
  split; [by apply Hc|]. split; [|done]. unfold question, u64. rewrite zlen_app.
  change (zlen [th; tl; ch; cl]) with 4. pose proof (zlen_nonneg (wire lbls)).
  rewrite Z.mod_small by lia. lia.
Qed.

(** a plain question is parsed to its dotted name and its exact length,
    without reading the message base; the type and class are taken from the
    low byte only, sign-extended, and so are the values on the wire when the
    high byte is zero and the low byte is below 128. *)
Theorem DNSQuery_parses fuel buf start message junk ls th tl ch cl :
  ls <> [] -> Forall label_ok ls -> Forall label_text ls -> zlen (wire ls) <= 256 ->
  zlen junk = 256 -> (length ls < fuel)%nat -> 0 <= tl < 256 -> 0 <= cl < 256 ->
  has_bytes buf start (question ls th tl ch cl) ->
  exists q, DNSQuery fuel buf start message junk = Ok q /\
    getQname q = text ls /\ getLength q = zlen (wire ls) + 4 /\
    getQtype q = (if tl <? 128 then tl else 0xFF00 + tl) /\
    getQclass q = (if cl <? 128 then cl else 0xFF00 + cl) /\
    (th = 0 -> tl < 128 -> getQtype q = th * 256 + tl) /\
    (ch = 0 -> cl < 128 -> getQclass q = ch * 256 + cl).
Proof.
  intros Hne Hok Ht Hw Hj Hf Htl Hcl Hm.
  destruct (DNSQuery_ok fuel buf start message junk ls th tl ch cl) as (q & Hq & Hn & Hl & Hty & Hcls & _);
    auto.
  assert (Hs : forall b, 0 <= b < 256 -> u16 (schar b) = if b <? 128 then b else 0xFF00 + b).
  { intros b Hb. unfold u16, schar. destruct (Z.ltb_spec b 128); [apply Z.mod_small; lia|].
    symmetry. apply (Z.mod_unique _ _ (-1)); lia. }
  rewrite Hs in Hty, Hcls by done. exists q. unfold getQtype, getQclass.
  unfold question in Hl. rewrite zlen_app in Hl. change (zlen [th; tl; ch; cl]) with 4 in Hl.
  repeat split; try done.
  - intros -> H. rewrite Hty. zbool. lia.
  - intros -> H. rewrite Hcls. zbool. lia.
Qed.

Lemma DNSQuery_parses_witness :
  exists q, DNSQuery 9 (replicate 12 0 ++ str "" ++ [3; 119; 119; 119; 2; 109; 115; 0; 0; 255; 0; 1])%list
      12 [] (replicate 256 0) = Ok q /\
    getQname q = str "www.ms" /\ getLength q = 12 /\ getQtype q = 0xFFFF /\ getQclass q = 1 /\
    (0 = 0 -> 255 < 128 -> getQtype q = 0 * 256 + 255) /\
    (0 = 0 -> 1 < 128 -> getQclass q = 0 * 256 + 1).
Proof.
  apply (DNSQuery_parses 9 _ 12 [] (replicate 256 0) [str "www"; str "ms"] 0 255 0 1);
    try conc.
  - by exists (replicate 12 0), [].
Defined.

End DNSQuery.
