(* ===== verification/DnsRecord.v ===== *)
(** * Resource records: [DNSRDataA], [DNSRDataCNAME], [DNSResourceRecord]

    (src/DNS/DNSRDataA.cpp, DNSRDataCNAME.cpp, DNSRData.h, DNSResourceRecord.cpp)

    Record data as the two implementations of the [DNSRData] interface, and the
    encoding and decoding of whole records in a packet. Objects are byte lists,
    pointers are offsets into them. *)

From S2P Require Import Prelude DnsName.

(** [enum TYPE] and [enum CLASS]: the members the code switches on. *)
Definition TYPE_A : Z := 1.
Definition TYPE_CNAME : Z := 5.
Definition CLASS_IN : Z := 1.

(** ** CRT string functions used here *)

(** [strcpy_s(dst, size, src)] into an array of [size] bytes. *)
Definition strcpy_s (dst : list Z) (size : Z) (src : list Z) : res (list Z) :=
  check (zlen src + 1 <=? size) else InvalidParameter; blit dst 0 (src ++ [0]).

(** [_itoa_s(v, m + o, size, 10)] for a byte value. *)
Definition itoa_s (v : Z) (m : list Z) (o size : Z) : res (list Z) :=
  check (zlen (dec v) + 1 <=? size) else InvalidParameter; blit m o (dec v ++ [0]).

(** [strcat_s(m + o, size, s)]. *)
Definition strcat_s (m : list Z) (o size : Z) (s : list Z) : res (list Z) :=
  do n <- strlen m o;
  check (n + zlen s + 1 <=? size) else InvalidParameter; blit m (o + n) (s ++ [0]).

Module DNSRDataA.

Record rdataA := mkA {
  addr : list Z;     (* unsigned char addr[4] *)
  value : list Z     (* char value[16] *)
}.

(** The loop of the constructor, [n] iterations left; [ptr] is an offset into
    the object [str] that holds the address string. *)
Fixpoint parseOctets (n : nat) (str : list Z) (ptr : Z) : res (list Z) :=
  match n with
  | O => Ok []
  | S n' =>
      let part := before DOT (cstr (drop (Z.to_nat ptr) str)) in
      let numChars := zlen part in
      check (ptr + numChars <? zlen str) else OutOfBounds;  (* strchr runs off the object *)
      check (numChars <=? 4) else InvalidParameter;        (* memcpy_s(temp, 4, ...) *)
      check (numChars <? 4) else OutOfBounds;              (* temp[numChars] = 0 *)
      do addr <- parseOctets n' str (ptr + (numChars + 1));
      Ok (u8 (atoi part) :: addr)
  end.

(** [DNSRDataA(char *addrStr)]; [junk] is the initial content of [value]. *)
Definition DNSRDataA (addrStr junk : list Z) : res rdataA :=
  do value <- strcpy_s junk 16 (cstr addrStr);
  do addr <- parseOctets 4 addrStr 0;
  Ok (mkA addr value).

Definition encodeA (r : rdataA) (out : list Z) (o bufLen : Z) : res (list Z * Z) :=
  do out <- memcpy_s out o bufLen (addr r);
  Ok (out, 4).

Definition getValueA (r : rdataA) : list Z := cstr (value r).

(** One turn of the text-building loop of [decode]: [v = addr[i]]. *)
Definition appendOctet (last : bool) (v : Z) (value : list Z) (ptr remLen : Z) : res (list Z * Z * Z) :=
  do value <- itoa_s v value ptr remLen;
  let remLen := remLen - (if 99 <? v then 3 else if 9 <? v then 2 else 1) in
  do (value, remLen) <-
    (if last then Ok (value, remLen)
     else do value <- strcat_s value ptr remLen [DOT]; Ok (value, remLen - 1));
  Ok (value, 16 - remLen, remLen).

Fixpoint appendOctets (addr : list Z) (value : list Z) (ptr remLen : Z) : res (list Z * Z) :=
  match addr with
  | [] => Ok (value, ptr)
  | v :: addr' =>
      do (value, ptr, remLen) <- appendOctet (match addr' with [] => true | _ => false end) v value ptr remLen;
      appendOctets addr' value ptr remLen
  end.

(** [DNSRDataA::decode(buffer, bufLen)] with [buffer = buf + o]; [junkAddr] and
    [junkValue] are the initial contents of the new object's arrays. *)
Definition decodeA (buf : list Z) (o bufLen : Z) (junkAddr junkValue : list Z) : res rdataA :=
  check (bufLen <=? 4) else InvalidParameter;
  do bs <- sub buf o bufLen;
  do addr <- blit junkAddr 0 bs;
  do value <- wr junkValue 0 0;
  do (value, ptr) <- appendOctets addr value 0 16;
  do value <- wr value ptr 0;
  Ok (mkA addr value).

(** ** Lemmas *)

(** The text of an address: its octets in decimal, separated by dots. *)
Definition quad (a : list Z) : list Z := DNSUtil.text (map dec a).

Lemma zlen_dec v : is_byte v -> zlen (dec v) = if 99 <? v then 3 else if 9 <? v then 2 else 1.
Proof.
  intros Hv. unfold dec. destruct (Z.ltb_spec v 10), (Z.ltb_spec v 100); zbool; reflexivity || lia.
Qed.

Lemma dec_digits v : is_byte v -> Forall (fun c => 48 <= c <= 57) (dec v).
Proof.
  intros Hv. pose proof (DNSUtil.byte_cases (fun v => forallb is_digit (dec v))
    ltac:(vm_compute; reflexivity) v Hv) as H. cbn beta in H. rewrite forallb_forall in H.
  apply Forall_forall. intros c Hc. apply list_elem_of_In in Hc. specialize (H c Hc).
  unfold is_digit in H. bool_to_prop. lia.
Qed.

Lemma dec_text v : is_byte v -> DNSUtil.label_text (dec v).
Proof.
  intros Hv. pose proof (dec_digits v Hv) as Hd. rewrite Forall_forall in Hd.
  split; intros Hin; apply Hd in Hin; unfold DOT in *; lia.
Qed.

Lemma dec_bytes v : is_byte v -> bytes (dec v).
Proof. intros Hv. eapply Forall_impl; [apply dec_digits, Hv|]. unfold is_byte. cbn. lia. Qed.

Lemma atoi_dec v : is_byte v -> u8 (atoi (dec v)) = v.
Proof.
  intros Hv. apply Z.eqb_eq.
  exact (DNSUtil.byte_cases (fun v => u8 (atoi (dec v)) =? v) ltac:(vm_compute; reflexivity) v Hv).
Qed.

Lemma text_no_nul ls : Forall DNSUtil.label_text ls -> 0 ∉ DNSUtil.text ls.
Proof.
  induction 1 as [|l [|l' ls] [_ Hl] _ IH]; [by apply not_elem_of_nil|done|].
  change (DNSUtil.text (l :: l' :: ls)) with (l ++ DOT :: DNSUtil.text (l' :: ls))%list.
  rewrite not_elem_of_app, not_elem_of_cons. done.
Qed.

Lemma quad_no_nul a : bytes a -> 0 ∉ quad a.
Proof.
  intros Ha. apply text_no_nul. apply Forall_map. eapply Forall_impl; [exact Ha|apply dec_text].
Qed.

Lemma has_bytes_cstr m o s : has_bytes m o (s ++ [0]) -> 0 ∉ s -> cstr (drop (Z.to_nat o) m) = s.
Proof.
  intros (pre & post & -> & <-) Hs. rewrite to_nat_zlen, drop_app_length, <- app_assoc. by apply cstr_app.
Qed.

Lemma appendOctet_inner v value remLen :
  is_byte v -> zlen value = 16 -> 2 * zlen (dec v) + 2 <= remLen <= 16 ->
  appendOctet false v value (16 - remLen) remLen =
    Ok (splice value (16 - remLen) (dec v ++ [DOT; 0]),
        16 - (remLen - zlen (dec v) - 1), remLen - zlen (dec v) - 1).
Proof.
  intros Hv Hz Hr. unfold appendOctet, itoa_s. pose proof (zlen_nonneg (dec v)). zbool.
  rewrite blit_ok by (autorewrite with zlen; lia). cbn [rbind].
  rewrite <- (zlen_dec v Hv). unfold strcat_s.
  rewrite (strlen_ok _ _ (dec v)); [|apply has_bytes_splice; zl|by apply dec_text].
  cbn [rbind]. change (zlen [DOT]) with 1. zbool.
  rewrite blit_ok; [|lia|rewrite zlen_splice; zl]. cbn [rbind app].
  rewrite splice_tail by zl. reflexivity.
Qed.

Lemma appendOctet_last v value remLen :
  is_byte v -> zlen value = 16 -> zlen (dec v) + 1 <= remLen <= 16 ->
  appendOctet true v value (16 - remLen) remLen =
    Ok (splice value (16 - remLen) (dec v ++ [0]),
        16 - (remLen - zlen (dec v)), remLen - zlen (dec v)).
Proof.
  intros Hv Hz Hr. unfold appendOctet, itoa_s. zbool.
  rewrite blit_ok by (autorewrite with zlen; lia). cbn [rbind]. by rewrite <- (zlen_dec v Hv).
Qed.

(** After [k] octets have been written (as [pre], dots included) the rest
    fits, because at most four octets of at most three digits are left. *)
Lemma appendOctets_ok a : forall value pre remLen,
  a <> [] -> bytes a -> zlen value = 16 -> zlen pre = 16 - remLen ->
  4 * zlen a <= remLen -> remLen <= 16 ->
  appendOctets a (splice value 0 (pre ++ [0])) (16 - remLen) remLen =
    Ok (splice value 0 (pre ++ quad a ++ [0]), zlen pre + zlen (quad a)).
Proof.
  induction a as [|v a IH]; intros value pre remLen Hne Ha Hz Hp Hr Hr16; [done|].
  apply Forall_cons in Ha as [Hv Ha]. rewrite zlen_cons in Hr. pose proof (zlen_nonneg a).
  assert (Hd : 1 <= zlen (dec v) <= 3)
    by (rewrite zlen_dec by done; destruct (99 <? v), (9 <? v); lia).
  assert (Hz' : zlen (splice value 0 (pre ++ [0])) = 16) by (rewrite zlen_splice; zl).
  cbn [appendOctets]. destruct a as [|v' a].
  - rewrite appendOctet_last by (done || lia). cbn [rbind appendOctets].
    rewrite <- Hp. rewrite splice_tail0 by zl.
    unfold quad. cbn. do 2 f_equal. lia.
  - rewrite zlen_cons in Hr. rewrite appendOctet_inner by (done || zl). cbn [rbind].
    rewrite <- Hp. rewrite splice_tail0 by zl.
    replace (pre ++ dec v ++ [DOT; 0])%list with ((pre ++ dec v ++ [DOT]) ++ [0])%list
      by (by rewrite <- !app_assoc).
    rewrite IH; [|done|done|done|zl|zl|lia].
    change (quad (v :: v' :: a)) with (dec v ++ DOT :: quad (v' :: a))%list.
    rewrite <- !app_assoc. cbn [app]. do 2 f_equal. zl.
Qed.

Lemma zlen_quad a : zlen a = 4 -> bytes a -> zlen (quad a) <= 15.
Proof.
  intros Hl Ha. destruct a as [|b [|c [|d [|e [|]]]]]; try (cbv in Hl; lia).
  2: { autorewrite with zlen in Hl. zl. }
  repeat apply Forall_cons in Ha as [? Ha]. unfold quad. cbn. autorewrite with zlen.
  rewrite !zlen_dec by done.
  repeat match goal with |- context [if ?b then _ else _] => destruct b end; lia.
Qed.

Lemma decodeA_ok buf o a ja jv :
  zlen a = 4 -> bytes a -> has_bytes buf o a -> zlen ja = 4 -> zlen jv = 16 ->
  decodeA buf o 4 ja jv = Ok (mkA a (splice jv 0 (quad a ++ [0]))).
Proof.
  intros Hl Ha Hm Hja Hjv. unfold decodeA. rewrite <- Hl, has_bytes_sub, Hl by done. zbool. cbn [rbind].
  rewrite blit_ok by lia. cbn [rbind]. rewrite wr_blit by lia. cbn [rbind].
  assert (Hs : splice ja 0 a = a).
  { unfold splice. rewrite drop_ge by (unfold zlen in *; lia). cbn. apply app_nil_r. }
  rewrite Hs. pose proof (zlen_quad a Hl Ha).
  pose proof (appendOctets_ok a jv [] 16) as Happ. change (16 - 16) with 0 in Happ.
  change (u8 0) with 0. cbn [app] in Happ.
  rewrite Happ; [|by destruct a|done|done|reflexivity|lia|lia]. cbn [rbind].
  change (zlen []) with 0. pose proof (zlen_nonneg (quad a)).
  rewrite wr_blit by (rewrite zlen_splice; zl). cbn [rbind].
  rewrite splice_tail by zl. reflexivity.
Qed.

Lemma parseOctets_ok a : forall m ptr,
  bytes a -> has_bytes m ptr (quad a ++ [0]) -> parseOctets (length a) m ptr = Ok a.
Proof.
  induction a as [|v a IH]; intros m ptr Ha Hm; [done|].
  pose proof (quad_no_nul _ Ha) as Hnul. apply Forall_cons in Ha as [Hv Ha].
  pose proof (dec_text v Hv) as [Hdot _]. pose proof (zlen_dec v Hv) as Hz.
  pose proof (has_bytes_bound _ _ _ Hm) as Hb.
  cbn [length parseOctets]. rewrite (has_bytes_cstr m ptr (quad (v :: a))) by done.
  assert (Hpart : before DOT (quad (v :: a)) = dec v).
  { destruct a; [by apply before_none|]. by apply before_app. }
  assert (Hz3 : zlen (dec v) <= 3) by (rewrite Hz; destruct (99 <? v), (9 <? v); lia).
  assert (Hle : zlen (dec v) <= zlen (quad (v :: a))).
  { destruct a; [done|]. change (quad (v :: z :: a)) with (dec v ++ DOT :: quad (z :: a))%list. zl. }
  rewrite Hpart. rewrite zlen_app in Hb. change (zlen [0]) with 1 in Hb. zbool.
  rewrite atoi_dec by done. destruct a as [|v' a]; [reflexivity|].
  change (quad (v :: v' :: a)) with (dec v ++ DOT :: quad (v' :: a))%list in Hm.
  rewrite <- app_assoc in Hm. apply has_bytes_app in Hm as [_ Hm].
  apply has_bytes_cons in Hm as [_ Hm]. rewrite <- Z.add_assoc in Hm. by rewrite IH.
Qed.

(** The object [buf] holds an address string. *)
Lemma DNSRDataA_ok a buf junk :
  zlen a = 4 -> bytes a -> has_bytes buf 0 (quad a ++ [0]) -> zlen junk = 16 ->
  DNSRDataA buf junk = Ok (mkA a (splice junk 0 (quad a ++ [0]))).
Proof.
  intros Hl Ha Hm Hj. unfold DNSRDataA, strcpy_s. pose proof (zlen_quad a Hl Ha).
  pose proof (has_bytes_cstr buf 0 (quad a) Hm (quad_no_nul a Ha)) as Hc. cbn [Z.to_nat drop] in Hc.
  change (drop (Z.to_nat 0) buf) with buf in Hc. rewrite Hc.
  zbool. rewrite blit_ok by zl. cbn [rbind].
  change 4%nat with (Z.to_nat 4). rewrite <- Hl, to_nat_zlen, parseOctets_ok by done. reflexivity.
Qed.

(** ** Properties *)

(** an IPv4 address survives both directions: the four bytes of a record
    decode to the dotted decimal text, without ever overrunning the 16-byte
    text array; constructing record data from that text gives the same bytes,
    and encoding writes them to the packet and nothing else. *)
Theorem rdataA_roundtrip a buf o ja jv jv' out p bufLen :
  zlen a = 4 -> bytes a -> has_bytes buf o a ->
  zlen ja = 4 -> zlen jv = 16 -> zlen jv' = 16 ->
  4 <= bufLen < 2 ^ 64 -> 0 <= p -> p + 4 <= zlen out ->
  exists r r', decodeA buf o 4 ja jv = Ok r /\ addr r = a /\ getValueA r = quad a /\
    DNSRDataA (value r) jv' = Ok r' /\ addr r' = a /\ getValueA r' = quad a /\
    encodeA r' out p bufLen = Ok (splice out p a, 4).
Proof.
  intros Hl Ha Hm Hja Hjv Hjv' Hb Hp Hout.
  pose proof (quad_no_nul a Ha). pose proof (zlen_quad a Hl Ha) as Hq.
  assert (Hc : forall j, cstr (splice j 0 (quad a ++ [0])) = quad a).
  { intros j. unfold splice. cbn. rewrite <- app_assoc. by apply cstr_app. }
  exists (mkA a (splice jv 0 (quad a ++ [0]))), (mkA a (splice jv' 0 (quad a ++ [0]))).
  split; [by apply decodeA_ok|]. split; [done|]. split; [apply Hc|].
  split; [apply DNSRDataA_ok; try done; apply has_bytes_splice; zl|].
  split; [done|]. split; [apply Hc|].
  unfold encodeA. cbn [addr]. rewrite memcpy_s_ok by lia. reflexivity.
Qed.

Lemma rdataA_roundtrip_witness :
  exists r r', decodeA [9; 23; 11; 60; 133; 9] 1 4 (replicate 4 0) (replicate 16 7) = Ok r /\
    addr r = [23; 11; 60; 133] /\ getValueA r = quad [23; 11; 60; 133] /\
    DNSRDataA (value r) (replicate 16 1) = Ok r' /\ addr r' = [23; 11; 60; 133] /\
    getValueA r' = quad [23; 11; 60; 133] /\
    encodeA r' (replicate 6 0) 1 500 = Ok (splice (replicate 6 0) 1 [23; 11; 60; 133], 4).
Proof.
  apply (rdataA_roundtrip [23; 11; 60; 133]); try conc.
  - by exists [9], [9].
Defined.

End DNSRDataA.

Module DNSRDataCNAME.

Record rdataCNAME := mkCNAME { name : list Z (* char name[MAX_DNS_NAME_LENGTH + 1] *) }.

Definition DNSRDataCNAME (nm junk : list Z) : res rdataCNAME :=
  do n <- strcpy_s junk (MAX_DNS_NAME_LENGTH + 1) nm;
  Ok (mkCNAME n).

Definition encodeCNAME (r : rdataCNAME) (out : list Z) (o bufLen : Z) : res (list Z * Z) :=
  DNSUtil.encodeName (cstr (name r)) out o (u64 bufLen).

Definition getValueCNAME (r : rdataCNAME) : list Z := cstr (name r).

(** [DNSRDataCNAME::decode(buffer, packet, bufLen)] with [buffer = packet + o]. *)
Definition decodeCNAME (fuel : nat) (packet : list Z) (o bufLen : Z) (junk junk' : list Z) : res rdataCNAME :=
  do b0 <- rd packet o;
  do srcLoc <-
    (if DNSUtil.isPointer b0 then do b1 <- rd packet (o + 1); Ok (DNSUtil.pointerOffset b0 b1) else Ok o);
  do (nm, _) <- DNSUtil.decodeName fuel packet srcLoc packet junk (MAX_DNS_NAME_LENGTH + 1);
  DNSRDataCNAME (cstr nm) junk'.

End DNSRDataCNAME.

(** The interface [DNSRData] and its two implementations. *)
Inductive DNSRData :=
  | RDataA (r : DNSRDataA.rdataA)
  | RDataCNAME (r : DNSRDataCNAME.rdataCNAME).

(** The virtual calls. *)
Definition rdata_encode (d : DNSRData) (out : list Z) (o bufLen : Z) : res (list Z * Z) :=
  match d with
  | RDataA r => DNSRDataA.encodeA r out o bufLen
  | RDataCNAME r => DNSRDataCNAME.encodeCNAME r out o bufLen
  end.

Definition rdata_getValue (d : DNSRData) : list Z :=
  match d with
  | RDataA r => DNSRDataA.getValueA r
  | RDataCNAME r => DNSRDataCNAME.getValueCNAME r
  end.

Module DNSResourceRecord.

(** [struct FixedRRInfo]: type and class at offsets 0 and 2, ttl at 4,
    rdlength at 8; the first ten bytes are copied to and from packets. *)
Record FixedRRInfo := mkInfo { type : Z; rclass : Z; ttl : Z; rdlength : Z }.

Definition info_bytes (i : FixedRRInfo) : list Z :=
  (le16 (type i) ++ le16 (rclass i) ++ le32 (ttl i) ++ le16 (rdlength i))%list.

Definition info_of_bytes (bs : list Z) : FixedRRInfo :=
  mkInfo (of_le16 (take 2 bs)) (of_le16 (take 2 (drop 2 bs)))
         (of_le32 (take 4 (drop 4 bs))) (of_le16 (take 2 (drop 8 bs))).

Record rr := mkRR { rname : list Z; info : FixedRRInfo; rdata : option DNSRData }.

Definition getName (r : rr) : list Z := rname r.
Definition getType (r : rr) : Z := type (info r).
Definition getClass (r : rr) : Z := rclass (info r).
(** [int32_t getTTL()] of the [uint32_t] field. *)
Definition getTTL (r : rr) : Z := s32 (ttl (info r)).
Definition getRDLength (r : rr) : Z := rdlength (info r).
Definition getRData (r : rr) : option DNSRData := rdata r.

(** [encode(outputBuffer, bufLen, pointerLocations)] with [outputBuffer = out + o].
    The fixed part of the record object is left in network order. A record
    whose [rdata] is null would dereference it. *)
Definition encodeRR (r : rr) (out : list Z) (o bufLen : Z) (pointerLocations : gmap (list Z) Z)
    : res (list Z * Z * rr) :=
  do (out, ptr, remainingLen) <-
    (match pointerLocations !! rname r with
     | Some p =>
         let loc := htons (Z.lor p 0xC000) in
         do out <- memcpy_s out o bufLen (le16 loc);
         Ok (out, o + 2, bufLen - 2)
     | None =>
         do (out, n) <- DNSUtil.encodeName (rname r) out o bufLen;
         Ok (out, o + n, bufLen - n)
     end);
  do d <- (match rdata r with Some d => Ok d | None => Err OutOfBounds end);
  do (out, rdlength) <- rdata_encode d out (ptr + 10) (s32 remainingLen - 10);
  let info := mkInfo (htons (type (info r))) (htons (rclass (info r)))
                     (htonl (ttl (info r))) (htons (u16 rdlength)) in
  let remainingLen := remainingLen - rdlength in
  do out <- memcpy_s out ptr remainingLen (info_bytes info);
  let remainingLen := remainingLen - 10 in
  Ok (out, u64 (bufLen - remainingLen), mkRR (rname r) info (rdata r)).

(** The initial contents of the arrays [decode] allocates. *)
Record junk := mkJunk { j_name : list Z; j_addr : list Z; j_value : list Z; j_cname : list Z; j_cname' : list Z }.

(** [decode(buffer, packet, bufLen, &after)] with [buffer = packet + o]; the
    result is the record and the offset stored through the last argument. *)
Definition decodeRR (fuel : nat) (packet : list Z) (o : Z) (j : junk) : res (rr * Z) :=
  do b0 <- rd packet o;
  let pointer := DNSUtil.isPointer b0 in
  do srcLoc <-
    (if pointer then do b1 <- rd packet (o + 1); Ok (DNSUtil.pointerOffset b0 b1) else Ok o);
  check negb (MAX_DNS_PACKET_LENGTH <? srcLoc) else Exception "Tried to access out of packet bounds";
  do (name, nameBytes) <- DNSUtil.decodeName fuel packet srcLoc packet (j_name j) (MAX_DNS_NAME_LENGTH + 1);
  let srcLoc := if pointer then o + 2 else srcLoc + nameBytes in
  do bs <- sub packet srcLoc 10;
  let raw := info_of_bytes bs in
  let info := mkInfo (htons (type raw)) (htons (rclass raw)) (htonl (ttl raw)) (htons (rdlength raw)) in
  let srcLoc := srcLoc + 10 in
  do rdata <-
    (if type info =? TYPE_A then
       do r <- DNSRDataA.decodeA packet srcLoc (rdlength info) (j_addr j) (j_value j); Ok (Some (RDataA r))
     else if type info =? TYPE_CNAME then
       do r <- DNSRDataCNAME.decodeCNAME fuel packet srcLoc (rdlength info) (j_cname j) (j_cname' j);
       Ok (Some (RDataCNAME r))
     else Ok None);
  Ok (mkRR (cstr name) info rdata, srcLoc + rdlength info).

Import DNSUtil.

(** ** What the record data stands for *)

(** [rdata_spec t d bs]: the data [d] of a record of type [t] has wire form [bs]. *)
Inductive rdata_spec : Z -> DNSRData -> list Z -> Prop :=
  | spec_A a v : zlen a = 4 -> bytes a -> cstr v = DNSRDataA.quad a ->
      rdata_spec TYPE_A (RDataA (DNSRDataA.mkA a v)) a
  | spec_CNAME n ls : ls <> [] -> Forall label_ok ls -> Forall label_text ls ->
      zlen (wire ls) <= 256 -> cstr n = text ls ->
      rdata_spec TYPE_CNAME (RDataCNAME (DNSRDataCNAME.mkCNAME n)) (wire ls).

Lemma label_le_wire l ls : l ∈ ls -> zlen l < zlen (wire ls).
Proof.
  induction ls as [|l' ls IH]; intros Hin; [by apply not_elem_of_nil in Hin|].
  rewrite wire_cons, zlen_cons, zlen_app. pose proof (zlen_nonneg (wire ls)).
  pose proof (zlen_nonneg l').
  apply elem_of_cons in Hin as [->|Hin]; [lia|]. specialize (IH Hin). lia.
Qed.

Lemma labels_encodable ls n :
  Forall label_ok ls -> Forall label_text ls -> zlen (wire ls) <= n < 2 ^ 64 ->
  Forall (fun l => (DOT ∉ l) /\ zlen l <= 255 /\ zlen l <= n < 2 ^ 64) ls.
Proof.
  intros Hok Ht Hn. rewrite Forall_forall in *. intros l Hl.
  pose proof (label_le_wire l ls Hl). destruct (Hok l Hl) as [? _], (Ht l Hl) as [? _].
  split; [done|lia].
Qed.

Lemma rdata_spec_length t d bs : rdata_spec t d bs -> 0 <= zlen bs <= 256.
Proof. intros H. pose proof (zlen_nonneg bs). destruct H; lia. Qed.

(** The promise of the interface [DNSRData] to its clients: with room for it,
    [encode] writes the wire form and returns its length. *)
Lemma rdata_spec_encode t d bs out o n :
  rdata_spec t d bs -> zlen bs <= n < 2 ^ 63 -> 0 <= o -> o + zlen bs <= zlen out ->
  rdata_encode d out o n = Ok (splice out o bs, zlen bs).
Proof.
  intros [a v Hl Ha _ | nm ls Hne Hok Ht Hw Hc] Hn Ho Hfit; cbn [rdata_encode].
  - unfold DNSRDataA.encodeA. cbn. rewrite memcpy_s_ok by lia. cbn. by rewrite Hl.
  - unfold DNSRDataCNAME.encodeCNAME. cbn. rewrite Hc. unfold u64. pose proof (zlen_nonneg (wire ls)).
    rewrite Z.mod_small by lia. apply encodeName_ok; [done|apply labels_encodable; done || lia|done|done].
Qed.

(** The text a domain name decodes to fits the 256-byte arrays. *)
Lemma zlen_text ls : ls <> [] -> zlen (wire ls) = zlen (text ls) + 2.
Proof.
  intros Hne. pose proof (f_equal zlen (dotted_text ls Hne)) as H. rewrite zlen_dotted in H.
  unfold wire. zl.
Qed.

Definition junk_ok (j : junk) : Prop :=
  zlen (j_name j) = 256 /\ zlen (j_addr j) = 4 /\ zlen (j_value j) = 16 /\
  zlen (j_cname j) = 256 /\ zlen (j_cname' j) = 256.

(** [decodeName] on a name in plain wire form, into a 256-byte array. *)
Lemma decodeName_wire packet m o ls fuel j :
  ls <> [] -> Forall label_ok ls -> Forall label_text ls -> zlen (wire ls) <= 256 ->
  (length ls < fuel)%nat -> zlen j = 256 -> has_bytes m o (wire ls) ->
  exists nm, decodeName fuel m o packet j (MAX_DNS_NAME_LENGTH + 1) = Ok (nm, zlen (wire ls)) /\
    cstr nm = text ls.
Proof.
  intros Hne Hok Ht Hw Hf Hj Hm.
  destruct (decodeName_ok packet m o ls (o + zlen (wire ls)) (S (length ls)) fuel j 256 (zlen (wireLabels ls)))
    as [Hd Hc]; auto using spells_wire; [| |lia|eexists; split; [exact Hd|by apply Hc]].
  - apply strlen_ok; [done|by apply wireLabels_no_nul].
  - unfold wire in Hw. zl.
Qed.

Lemma first_label_not_pointer m o ls :
  ls <> [] -> Forall label_ok ls -> has_bytes m o (wire ls) ->
  exists b0, rd m o = Ok b0 /\ isPointer b0 = false.
Proof.
  intros Hne Hok Hm. destruct ls as [|l ls]; [done|]. apply Forall_cons in Hok as [[Hl _] _].
  exists (zlen l). rewrite wire_cons in Hm. split; [by eapply has_bytes_rd|]. apply isPointer_small. lia.
Qed.

Lemma DNSRDataCNAME_ok nm j :
  zlen nm <= 255 -> zlen j = 256 -> 0 ∉ nm ->
  exists c, DNSRDataCNAME.DNSRDataCNAME nm j = Ok (DNSRDataCNAME.mkCNAME c) /\ cstr c = nm.
Proof.
  intros Hl Hj Hn. unfold DNSRDataCNAME.DNSRDataCNAME, strcpy_s. change (MAX_DNS_NAME_LENGTH + 1) with 256.
  zbool. rewrite blit_ok by zl. eexists. split; [reflexivity|].
  unfold splice. cbn. rewrite <- app_assoc. by apply cstr_app.
Qed.

(** The decoder of the record data, as the [switch] of [decode] selects it. *)
Lemma rdata_spec_decode t d bs fuel m o j :
  rdata_spec t d bs -> has_bytes m o bs -> junk_ok j -> (256 < fuel)%nat ->
  exists d',
    (if t =? TYPE_A then
       do r <- DNSRDataA.decodeA m o (zlen bs) (j_addr j) (j_value j); Ok (Some (RDataA r))
     else if t =? TYPE_CNAME then
       do r <- DNSRDataCNAME.decodeCNAME fuel m o (zlen bs) (j_cname j) (j_cname' j);
       Ok (Some (RDataCNAME r))
     else Ok None) = Ok (Some d') /\
    rdata_spec t d' bs /\ rdata_getValue d' = rdata_getValue d.
Proof.
  intros [a v Hl Ha Hv | nm ls Hne Hok Ht Hw Hc] Hm (Hj1 & Hj2 & Hj3 & Hj4 & Hj5) Hf.
  - rewrite Hl. change (TYPE_A =? TYPE_A) with true. cbv iota.
    rewrite (DNSRDataA.decodeA_ok m o a) by done. eexists. split; [reflexivity|].
    assert (Hcs : cstr (splice (j_value j) 0 (DNSRDataA.quad a ++ [0])) = DNSRDataA.quad a).
    { unfold splice. cbn. rewrite <- app_assoc. apply cstr_app. by apply DNSRDataA.quad_no_nul. }
    split; [by constructor|]. cbn. unfold DNSRDataA.getValueA. cbn. by rewrite Hv.
  - change (TYPE_CNAME =? TYPE_A) with false. change (TYPE_CNAME =? TYPE_CNAME) with true. cbv iota.
    unfold DNSRDataCNAME.decodeCNAME.
    destruct (first_label_not_pointer m o ls) as (b0 & -> & Hb0); [done..|]. cbn [rbind]. rewrite Hb0.
    assert (Hlen : zlen ls <= zlen (wireLabels ls)).
    { clear. induction ls as [|l ls IH]; [done|]. rewrite wireLabels_cons. zl. }
    destruct (decodeName_wire m m o ls fuel (j_cname j)) as (n1 & Hd & Hc1); try done.
    { unfold wire, zlen in *. rewrite length_app in Hw. cbn in Hw. lia. }
    cbn [rbind]. rewrite Hd. cbn [rbind]. rewrite Hc1. pose proof (zlen_text ls Hne).
    assert (Hnn : 0 ∉ text ls) by (by apply DNSRDataA.text_no_nul).
    destruct (DNSRDataCNAME_ok (text ls) (j_cname' j)) as (c & -> & Hcc); [lia|done|done|].
    cbn [rbind]. eexists. split; [reflexivity|]. split; [by constructor|].
    cbn. unfold DNSRDataCNAME.getValueCNAME. cbn. congruence.
Qed.

(** ** Whole records *)

(** The bytes [encode] writes for the owner name: a pointer when the name has a
    known location, the full name otherwise. *)
Inductive name_part (pl : gmap (list Z) Z) (nm : list Z) (bufLen : Z) : list Z -> Prop :=
  | part_pointer p : pl !! nm = Some p -> 0 <= p < 0x4000 -> 2 <= bufLen ->
      name_part pl nm bufLen (be16 (p + 0xC000))
  | part_plain ls : pl !! nm = None -> nm = text ls -> ls <> [] -> Forall label_ok ls ->
      Forall label_text ls -> zlen (wire ls) <= 256 -> zlen (wire ls) <= bufLen ->
      name_part pl nm bufLen (wire ls).

(** The fixed fields of a record on the wire. *)
Definition fixed (i : FixedRRInfo) (n : Z) : list Z :=
  (be16 (type i) ++ be16 (rclass i) ++ be32 (ttl i) ++ be16 n)%list.

Definition network_order (i : FixedRRInfo) (n : Z) : FixedRRInfo :=
  mkInfo (htons (type i)) (htons (rclass i)) (htonl (ttl i)) (htons n).

Lemma info_bytes_network i n : info_bytes (network_order i n) = fixed i n.
Proof. unfold info_bytes, network_order, fixed. cbn [type rclass ttl rdlength]. by rewrite !le16_htons, le32_htonl. Qed.

Lemma lor_C000 p : 0 <= p < 0x4000 -> Z.lor p 0xC000 = p + 0xC000.
Proof.
  intros Hp. assert (Hl : Z.land p 0xC000 = 0).
  { apply Z.bits_inj'. intros n Hn. rewrite Z.land_spec, Z.bits_0. change 0xC000 with (Z.shiftl 3 14).
    destruct (Z.ltb_spec n 14).
    - rewrite Z.shiftl_spec_low by lia. apply andb_false_r.
    - destruct (decide (p = 0)) as [->|]; [by rewrite Z.bits_0|].
      rewrite (Z.bits_above_log2 p); [done|lia|]. apply Z.log2_lt_pow2; [lia|].
      apply Z.lt_le_trans with (2 ^ 14); [lia|apply Z.pow_le_mono_r; lia]. }
  by rewrite <- Z.lxor_lor, <- Z.add_nocarry_lxor by done.
Qed.

Lemma name_part_length pl nm n nb : name_part pl nm n nb -> 0 <= zlen nb <= 256.
Proof. intros H. pose proof (zlen_nonneg nb). destruct H; [change (zlen _) with 2; lia|lia]. Qed.

(** Both branches of the owner-name part of [encode]. *)
Lemma encode_name_part pl nm bufLen nb out o :
  name_part pl nm bufLen nb -> bufLen < 2 ^ 31 -> 0 <= o -> o + zlen nb <= zlen out ->
  (match pl !! nm with
   | Some p =>
       do out <- memcpy_s out o bufLen (le16 (htons (Z.lor p 0xC000))); Ok (out, o + 2, bufLen - 2)
   | None =>
       do (out, n) <- encodeName nm out o bufLen; Ok (out, o + n, bufLen - n)
   end) = Ok (splice out o nb, o + zlen nb, bufLen - zlen nb).
Proof.
  intros [p Hp Hr Hb | ls Hp -> Hne Hok Ht Hw Hb] Hlt Ho Hfit; rewrite Hp.
  - rewrite le16_htons, lor_C000 by done. change (zlen (be16 (p + 0xC000))) with 2 in *.
    rewrite memcpy_s_ok; [reflexivity| |done|]; change (zlen (be16 (p + 0xC000))) with 2; lia.
  - pose proof (zlen_nonneg (wire ls)).
    rewrite encodeName_ok; [reflexivity|done|apply labels_encodable; done || lia|done|done].
Qed.

Lemma encodeRR_ok nm i d pl t nb bs out o bufLen :
  name_part pl nm bufLen nb -> rdata_spec t d bs ->
  zlen nb + 10 + zlen bs <= bufLen < 2 ^ 31 ->
  0 <= o -> o + (zlen nb + 10 + zlen bs) <= zlen out ->
  encodeRR (mkRR nm i (Some d)) out o bufLen pl =
    Ok (splice out o (nb ++ fixed i (zlen bs) ++ bs), zlen nb + 10 + zlen bs,
        mkRR nm (network_order i (zlen bs)) (Some d)).
Proof.
  intros Hnp Hd Hfit Ho Hout. pose proof (rdata_spec_length _ _ _ Hd) as Hbs.
  pose proof (name_part_length _ _ _ _ Hnp) as Hnb.
  unfold encodeRR. cbn [rname rdata info]. rewrite (encode_name_part pl nm bufLen nb) by (done || lia).
  cbn [rbind]. assert (Hs : s32 (bufLen - zlen nb) = bufLen - zlen nb)
    by (unfold s32; rewrite Z.mod_small by lia; lia).
  rewrite Hs. rewrite (rdata_spec_encode t d bs); [|done|lia|lia|rewrite zlen_splice; lia].
  cbn [rbind]. replace (u16 (zlen bs)) with (zlen bs) by (unfold u16; rewrite Z.mod_small; lia).
  change (mkInfo (htons (type i)) (htons (rclass i)) (htonl (ttl i)) (htons (zlen bs)))
    with (network_order i (zlen bs)). rewrite info_bytes_network.
  assert (Hf : zlen (fixed i (zlen bs)) = 10) by reflexivity.
  rewrite memcpy_s_ok; [|lia|lia|rewrite !zlen_splice; try lia; rewrite zlen_splice; lia]. cbn [rbind].
  rewrite <- Hf at 1. rewrite splice_before; [|lia|rewrite zlen_splice; lia].
  rewrite splice_splice by (autorewrite with zlen; lia).
  do 3 f_equal. unfold u64. rewrite Z.mod_small; lia.
Qed.

(** The packet [m] spells the name [nm] at [p]; [low] says whether every pointer
    followed from there has a second byte below 128. *)
Definition name_spelled (fuel : nat) (m : list Z) (p : Z) (nm : list Z) (low : bool) : Prop :=
  exists ls e k len, nm = text ls /\ ls <> [] /\ Forall label_text ls /\ spells m m p ls e k low /\
    (k <= fuel)%nat /\ zlen (wire ls) <= 256 /\ strlen m p = Ok len /\ len <= 255 /\
    p <= MAX_DNS_PACKET_LENGTH.

(** The name the owner's pointer stands for can be read by [decode]. *)
Definition owner_reachable (fuel : nat) (m : list Z) (pl : gmap (list Z) Z) (nm : list Z) : Prop :=
  forall p, pl !! nm = Some p -> p mod 256 < 128 /\ name_spelled fuel m p nm true.

Lemma pointer_bytes p : 0 <= p < 0x4000 ->
  exists b0 b1, be16 (p + 0xC000) = [b0; b1] /\ isPointer b0 = true /\ 0xC0 <= b0 < 256 /\
    b1 = p mod 256 /\ (b0 - 0xC0) * 256 + b1 = p /\
    pointerOffset b0 b1 = if p mod 256 <? 128 then p else 0x3F00 + p mod 256.
Proof.
  intros Hp. unfold be16. eexists _, _. split; [reflexivity|].
  assert (H0 : (p + 0xC000) / 256 mod 256 = 0xC0 + p / 256) by (Z.to_euclidean_division_equations; lia).
  assert (H1 : (p + 0xC000) mod 256 = p mod 256) by (Z.to_euclidean_division_equations; lia).
  assert (H2 : 0 <= p / 256 < 0x40) by (Z.to_euclidean_division_equations; lia).
  assert (H3 : (0xC0 + p / 256 - 0xC0) * 256 + p mod 256 = p) by (Z.to_euclidean_division_equations; lia).
  rewrite H0, H1. split; [apply isPointer_high; lia|]. split; [lia|]. split; [done|]. split; [done|].
  rewrite pointerOffset_eq; [by rewrite H3|lia|]. unfold is_byte. apply Z.mod_pos_bound. lia.
Qed.

(** The owner-name part of [decode]: which source offset follows the name. *)
Lemma decode_name_part pl nm n nb fuel m o j :
  name_part pl nm n nb -> has_bytes m o nb -> o <= MAX_DNS_PACKET_LENGTH -> zlen j = 256 ->
  (256 < fuel)%nat -> owner_reachable fuel m pl nm ->
  exists b0 srcLoc name nameBytes, rd m o = Ok b0 /\
    (if isPointer b0 then do b1 <- rd m (o + 1); Ok (pointerOffset b0 b1) else Ok o) = Ok srcLoc /\
    srcLoc <= MAX_DNS_PACKET_LENGTH /\
    decodeName fuel m srcLoc m j (MAX_DNS_NAME_LENGTH + 1) = Ok (name, nameBytes) /\
    cstr name = nm /\ (if isPointer b0 then o + 2 else srcLoc + nameBytes) = o + zlen nb.
Proof.
  intros [p Hp Hr Hb | ls Hp -> Hne Hok Ht Hw Hb] Hm Ho Hj Hf Hsp.
  - destruct (Hsp p Hp) as (Hlo & ls & e & k & len & -> & Hne & Ht & Hn & Hk & Hw & Hs & Hl & Hp5).
    destruct (pointer_bytes p Hr) as (b0 & b1 & Heq & Hip & _ & _ & _ & Hpo).
    rewrite Heq in *. rewrite (proj2 (Z.ltb_lt _ _) Hlo) in Hpo.
    destruct (decodeName_ok m m p ls e k fuel j 256 len) as [Hd Hc]; try done; [lia|].
    exists b0, p. eexists _, _. split; [by eapply has_bytes_rd|]. rewrite Hip.
    apply has_bytes_cons in Hm as [_ Hm]. rewrite (has_bytes_rd _ _ _ _ Hm). cbn [rbind]. rewrite Hpo.
    split; [done|]. split; [done|]. split; [exact Hd|]. split; [by apply Hc|done].
  - destruct (first_label_not_pointer m o ls) as (b0 & Hrd & Hip); [done..|].
    assert (Hlen : zlen ls <= zlen (wireLabels ls)).
    { clear. induction ls as [|l ls IH]; [done|]. rewrite wireLabels_cons. zl. }
    destruct (decodeName_wire m m o ls fuel j) as (n1 & Hd & Hc1); try done.
    { unfold wire, zlen in *. rewrite length_app in Hw. cbn in Hw. lia. }
    exists b0, o, n1, (zlen (wire ls)). rewrite Hip. done.
Qed.

Definition info_ok (i : FixedRRInfo) : Prop :=
  0 <= type i < 2 ^ 16 /\ 0 <= rclass i < 2 ^ 16 /\ 0 <= ttl i < 2 ^ 32.

Lemma info_of_fixed i n : info_ok i -> 0 <= n < 2 ^ 16 ->
  let raw := info_of_bytes (fixed i n) in
  mkInfo (htons (type raw)) (htons (rclass raw)) (htonl (ttl raw)) (htons (rdlength raw)) =
    mkInfo (type i) (rclass i) (ttl i) n.
Proof.
  intros (Ht & Hc & Hl) Hn. unfold info_of_bytes. cbn [type rclass ttl rdlength].
  change (take 2 (fixed i n)) with (be16 (type i)).
  change (take 2 (drop 2 (fixed i n))) with (be16 (rclass i)).
  change (take 4 (drop 4 (fixed i n))) with (be32 (ttl i)).
  change (take 2 (drop 8 (fixed i n))) with (be16 n).
  by rewrite !htons_of_be16, htonl_of_be32.
Qed.

(** Decoding the bytes of a record, wherever they come from. *)
Lemma decodeRR_ok nm i d pl nb bs bufLen m o fuel j :
  name_part pl nm bufLen nb -> rdata_spec (type i) d bs -> info_ok i ->
  has_bytes m o (nb ++ fixed i (zlen bs) ++ bs) -> o <= MAX_DNS_PACKET_LENGTH ->
  junk_ok j -> (256 < fuel)%nat -> owner_reachable fuel m pl nm ->
  exists d', decodeRR fuel m o j =
      Ok (mkRR nm (mkInfo (type i) (rclass i) (ttl i) (zlen bs)) (Some d'), o + (zlen nb + 10 + zlen bs)) /\
    rdata_getValue d' = rdata_getValue d.
Proof.
  intros Hnp Hd Hi Hm Ho Hj Hf Hsp. pose proof (rdata_spec_length _ _ _ Hd) as Hbs.
  pose proof (zlen_nonneg nb). assert (Hfx : zlen (fixed i (zlen bs)) = 10) by reflexivity.
  apply has_bytes_app in Hm as [Hm1 Hm]. apply has_bytes_app in Hm as [Hm2 Hm3].
  rewrite Hfx in Hm3. pose proof Hj as (Hj1 & _).
  destruct (decode_name_part pl nm bufLen nb fuel m o (j_name j))
    as (b0 & srcLoc & name & nameBytes & Hrd & Hsrc & H512 & Hdn & Hcn & Hnext); try done.
  destruct (rdata_spec_decode (type i) d bs fuel m (o + zlen nb + 10) j) as (d' & Hdd & Hsp' & Hv);
    try done.
  exists d'. split; [|done].
  unfold decodeRR. rewrite Hrd. cbn [rbind]. rewrite Hsrc. cbn [rbind]. zbool. cbn [negb].
  rewrite Hdn. cbn [rbind]. rewrite Hnext, <- Hfx, has_bytes_sub by done. cbn [rbind]. cbv zeta.
  rewrite info_of_fixed by (done || lia). cbn [type rdlength]. rewrite Hfx, Hdd. cbn [rbind].
  rewrite Hcn. do 2 f_equal. lia.
Qed.

(** The owner-name part of [decode] when the owner is written as a pointer
    that [decode] cannot follow. *)
Lemma decodeRR_unreachable (nm : list Z) (pl : gmap (list Z) Z) p bs m o fuel j :
  pl !! nm = Some p -> 0 <= p < 0x4000 -> has_bytes m o (be16 (p + 0xC000) ++ bs) -> zlen (j_name j) = 256 ->
  (128 <= p mod 256 -> decodeRR fuel m o j = Err (Exception "Tried to access out of packet bounds")) /\
  (p mod 256 < 128 -> name_spelled fuel m p nm false -> zlen m <= 0x3F80 -> decodeRR fuel m o j = Err OutOfBounds).
Proof.
  intros Hp Hr Hm Hj. apply has_bytes_app in Hm as [Hm _].
  destruct (pointer_bytes p Hr) as (b0 & b1 & Heq & Hip & _ & _ & _ & Hpo). rewrite Heq in Hm.
  unfold decodeRR. rewrite (has_bytes_rd _ _ _ _ Hm). cbn [rbind]. rewrite Hip.
  apply has_bytes_cons in Hm as [_ Hm]. rewrite (has_bytes_rd _ _ _ _ Hm). cbn [rbind]. rewrite Hpo.
  unfold MAX_DNS_PACKET_LENGTH. split.
  - intros Hhi. rewrite (proj2 (Z.ltb_ge _ _) Hhi). by zbool.
  - intros Hlo (ls & e & k & len & -> & Hne & Ht & Hn & Hk & Hw & Hs & Hl & Hp5) Hz.
    rewrite (proj2 (Z.ltb_lt _ _) Hlo). unfold MAX_DNS_PACKET_LENGTH in Hp5. zbool. cbn [negb].
    unfold decodeName. rewrite Hs. cbn [rbind]. zbool. cbn [negb]. pose proof (zlen_nonneg (wire ls)).
    change (MAX_DNS_NAME_LENGTH + 1) with 256.
    by rewrite (decodeLabels_leaves _ _ _ _ _ _ _ Hn) by (done || lia).
Qed.

(** C3: a resource record survives the wire: an A or CNAME record is encoded
    into a packet, its owner name in full or as a compression pointer when a
    location is known for it. Decoding at the same offset gives back the owner
    name, type, class, ttl and data, and the offset just after the bytes the
    encoder reported, when the owner is in full, or its pointer has a second
    byte below 128 and the place it designates spells the name through such
    pointers only. In the other cases [decode] does not read the encoder's own
    pointers: a second byte of 128 or more is refused with the code's exception
    (the sign-extended offset is past 512), and a place that spells the name
    through such a pointer makes it read outside the packet. *)
Theorem rr_roundtrip nm i d pl nb bs out o bufLen fuel j :
  let m := splice out o (nb ++ fixed i (zlen bs) ++ bs) in
  name_part pl nm bufLen nb -> rdata_spec (type i) d bs -> info_ok i ->
  zlen nb + 10 + zlen bs <= bufLen < 2 ^ 31 ->
  0 <= o <= MAX_DNS_PACKET_LENGTH -> o + (zlen nb + 10 + zlen bs) <= zlen out ->
  junk_ok j -> (256 < fuel)%nat ->
  exists n r0, encodeRR (mkRR nm i (Some d)) out o bufLen pl = Ok (m, n, r0) /\
    (owner_reachable fuel m pl nm -> exists r d', decodeRR fuel m o j = Ok (r, o + n) /\
       getName r = nm /\ getType r = type i /\ getClass r = rclass i /\ ttl (info r) = ttl i /\
       getRDLength r = zlen bs /\ getRData r = Some d' /\ rdata_getValue d' = rdata_getValue d) /\
    (forall p, pl !! nm = Some p -> 128 <= p mod 256 ->
       decodeRR fuel m o j = Err (Exception "Tried to access out of packet bounds")) /\
    (forall p, pl !! nm = Some p -> p mod 256 < 128 -> name_spelled fuel m p nm false ->
       zlen out <= 0x3F80 -> decodeRR fuel m o j = Err OutOfBounds).
Proof.
  intros m Hnp Hd Hi Hfit Ho Hout Hj Hf.
  assert (Hz : zlen (nb ++ fixed i (zlen bs) ++ bs) = zlen nb + 10 + zlen bs).
  { autorewrite with zlen. change (zlen (fixed i (zlen bs))) with 10. lia. }
  assert (Hm : has_bytes m o (nb ++ fixed i (zlen bs) ++ bs)) by (apply has_bytes_splice; lia).
  assert (Hzm : zlen m = zlen out) by (apply zlen_splice; lia).
  assert (Hun : forall p, pl !! nm = Some p -> 0 <= p < 0x4000 /\
    has_bytes m o (be16 (p + 0xC000) ++ fixed i (zlen bs) ++ bs)).
  { intros p Hp. destruct Hnp as [q Hq Hr _|ls Hq]; rewrite Hq in Hp; [|done]. by injection Hp as ->. }
  eexists _, _. split; [apply encodeRR_ok with (type i); done || lia|].
  split; [|split].
  - intros Hsp. destruct (decodeRR_ok nm i d pl nb bs bufLen m o fuel j) as (d' & Hdec & Hv); try done; [lia|].
    eexists _, d'. split; [exact Hdec|done].
  - intros p Hp. destruct (Hun p Hp) as [Hr Hb]. by eapply decodeRR_unreachable, Hj.
  - intros p Hp Hlo Hs Hl. destruct (Hun p Hp) as [Hr Hb]. rewrite <- Hzm in Hl.
    by eapply (decodeRR_unreachable nm pl p _ m o fuel j Hp Hr Hb (proj1 Hj)).
Qed.

(** A concrete object for the initial contents of the decoder's arrays. *)
Definition zero_junk : junk :=
  mkJunk (replicate 256 0) (replicate 4 0) (replicate 16 0) (replicate 256 0) (replicate 256 0).

Lemma rr_roundtrip_witness :
  let i := mkInfo TYPE_A CLASS_IN 300 0 in
  let d := RDataA (DNSRDataA.mkA [23; 11; 60; 133] (str "23.11.60.133" ++ [0; 7; 7; 7])) in
  let out := (replicate 12 0 ++ [3; 119; 119; 119; 2; 109; 115; 0] ++ replicate 40 0)%list in
  let m := splice out 24 (be16 (12 + 0xC000) ++ fixed i 4 ++ [23; 11; 60; 133]) in
  exists r d', decodeRR 300 m 24 zero_junk = Ok (r, 40) /\
    getName r = str "www.ms" /\ getType r = type i /\ getClass r = rclass i /\ ttl (info r) = ttl i /\
    getRDLength r = 4 /\ getRData r = Some d' /\ rdata_getValue d' = rdata_getValue d.
Proof.
  intros i d out m.
  destruct (rr_roundtrip (str "www.ms") i d {[ str "www.ms" := 12 ]} (be16 (12 + 0xC000)) [23; 11; 60; 133]
    out 24 500 300 zero_junk) as (n & r0 & He & Hd & _); try conc.
  - apply part_pointer; [reflexivity|lia|lia].
  - apply spec_A; [reflexivity| |reflexivity].
    repeat (apply Forall_cons; split; [unfold is_byte; lia|]). by apply Forall_nil.
  - assert (n = 16) as -> by (vm_compute in He; congruence). apply Hd.
    intros p Hp. assert (p = 12) as -> by (vm_compute in Hp; congruence). split; [done|].
    exists [str "www"; str "ms"], 20, 3%nat, 7. split; [reflexivity|]. split; [done|].
    split; [labels_conc|]. split; [|repeat split; conc].
    apply (spells_wire m m [str "www"; str "ms"] 12); [labels_conc|].
    by exists (replicate 12 0), (drop 20 m).
Defined.

(** how [encode] behaves near the end of the stated buffer length, for an
    A record: with exactly enough room or more it succeeds; when the fixed part
    is short of room by one to ten bytes the CRT's invalid-parameter handler
    ends the process; when even the record data does not fit, the negative
    remaining length is taken for a huge size and the record is written past
    the stated length. *)
Theorem encodeRR_boundary nm i d pl nb a out o bufLen :
  name_part pl nm bufLen nb -> rdata_spec TYPE_A d a -> bufLen < 2 ^ 31 ->
  0 <= o -> o + (zlen nb + 14) <= zlen out ->
  let r := mkRR nm i (Some d) in
  let room := bufLen - zlen nb - 4 in
  encodeRR r out o bufLen pl =
    if (0 <=? room) && (room <? 10) then Err InvalidParameter
    else Ok (splice out o (nb ++ fixed i 4 ++ a), zlen nb + 14, mkRR nm (network_order i 4) (Some d)).
Proof.
  intros Hnp Hd Hlt Ho Hout r room. unfold room, r. clear r room. inversion Hd; subst.
  pose proof (name_part_length _ _ _ _ Hnp) as Hnb. assert (Hb2 : zlen nb <= bufLen) by (destruct Hnp; [exact H4|exact H8]).
  assert (Hz : zlen (splice out o nb) = zlen out) by (apply zlen_splice; lia).
  assert (Hf : zlen (fixed i 4) = 10) by reflexivity.
  unfold encodeRR. cbn [rname rdata info]. rewrite (encode_name_part pl nm bufLen nb) by (done || lia).
  cbn [rbind]. replace (s32 (bufLen - zlen nb)) with (bufLen - zlen nb)
    by (unfold s32; rewrite Z.mod_small by lia; lia).
  cbn [rdata_encode]. unfold DNSRDataA.encodeA. cbn [DNSRDataA.addr].
  rewrite memcpy_s_int, H by lia.
  destruct ((0 <=? bufLen - zlen nb - 10) && (bufLen - zlen nb - 10 <? 4)) eqn:E1.
  { bool_to_prop. zbool. reflexivity. }
  rewrite blit_ok by lia. cbn [rbind].
  change (mkInfo (htons (type i)) (htons (rclass i)) (htonl (ttl i)) (htons (u16 4)))
    with (network_order i 4). rewrite info_bytes_network, memcpy_s_int, Hf by lia.
  destruct ((0 <=? bufLen - zlen nb - 4) && (bufLen - zlen nb - 4 <? 10)); [reflexivity|].
  rewrite blit_ok; [|lia|rewrite Hf, zlen_splice; lia]. cbn [rbind].
  rewrite <- Hf at 1. rewrite splice_before; [|lia|lia].
  rewrite splice_splice by (autorewrite with zlen; lia).
  do 3 f_equal. unfold u64. rewrite Z.mod_small; lia.
Qed.

Lemma encodeRR_boundary_witness :
  encodeRR (mkRR (str "www.ms") (mkInfo 1 1 300 0)
      (Some (RDataA (DNSRDataA.mkA [23; 11; 60; 133] (str "23.11.60.133" ++ [0; 7; 7; 7])))))
    (replicate 40 0) 2 21 ∅ = Err InvalidParameter.
Proof.
  refine (encodeRR_boundary (str "www.ms") (mkInfo 1 1 300 0) _ ∅ (wire [str "www"; str "ms"])
    [23; 11; 60; 133] (replicate 40 0) 2 21 _ _ _ _ _); try conc.
  - apply (part_plain _ _ _ [str "www"; str "ms"]); try conc.
  - apply spec_A; [reflexivity| |reflexivity].
    repeat (apply Forall_cons; split; [unfold is_byte; lia|]). by apply Forall_nil.
Defined.

(** the fixed part of a record whose owner name starts with a label is read
    at the length of the uncompressed name after the record's start, so the
    offset after the record is right only when the name is not compressed: a
    name that ends in a compression pointer occupies fewer bytes. *)
Theorem decodeRR_name_offset fuel m o j l ls e k len r after :
  label_ok l -> has_bytes m o (zlen l :: l) -> spells m m o (l :: ls) e k true -> (k <= fuel)%nat ->
  zlen (wire (l :: ls)) <= 256 -> strlen m o = Ok len -> len <= 255 -> junk_ok j ->
  decodeRR fuel m o j = Ok (r, after) ->
  after = o + zlen (wire (l :: ls)) + 10 + getRDLength r /\
  sub m (o + zlen (wire (l :: ls))) 10 <> Err OutOfBounds.
Proof.
  intros [Hl _] Hm Hn Hk Hw Hs Hlen (Hj & _) E. unfold decodeRR in E.
  rewrite (has_bytes_rd _ _ _ _ Hm) in E. cbn [rbind] in E. rewrite isPointer_small in E by lia.
  cbn [rbind] in E. destruct (negb (MAX_DNS_PACKET_LENGTH <? o)); [|done].
  destruct (decodeName_ok m m o (l :: ls) e k fuel (j_name j) 256 len) as [Hd _]; try done; [lia|].
  change (MAX_DNS_NAME_LENGTH + 1) with 256 in E. rewrite Hd in E. cbn [rbind] in E.
  destruct (sub m _ 10) as [bs|]; cbn [rbind] in E; [|done].
  match type of E with rbind ?x _ = _ => destruct x as [d|]; cbn [rbind] in E; [|done] end.
  injection E as <- <-. cbn. split; [lia|done].
Qed.

(** [www] followed by a pointer to [ms]: six bytes on the wire, eight assumed. *)
Lemma decodeRR_name_offset_witness :
  let m := ([2; 109; 115; 0] ++ [3; 119; 119; 119; 0xC0; 0] ++ replicate 20 0)%list in
  22 = 4 + zlen (wire [str "www"; str "ms"]) + 10 + getRDLength (mkRR (str "www.ms") (mkInfo 0 0 0 0) None) /\
  sub m (4 + zlen (wire [str "www"; str "ms"])) 10 <> Err OutOfBounds.
Proof.
  intros m. assert (Hok : forall l, zlen (str l) = 3 \/ zlen (str l) = 2 -> bytes (str l) -> label_ok (str l))
    by (intros l Hl Hb; split; [lia|done]).
  assert (Hb : forall s, forallb (fun b => (0 <=? b) && (b <? 256)) (str s) = true -> bytes (str s)).
  { intros s H. apply Forall_forall. intros c Hc. rewrite forallb_forall in H.
    apply list_elem_of_In, H in Hc. bool_to_prop. unfold is_byte. lia. }
  apply (decodeRR_name_offset 10 m 4 zero_junk (str "www") [str "ms"] 10 4 5
    (mkRR (str "www.ms") (mkInfo 0 0 0 0) None) 22); try conc.
  - by exists [2; 109; 115; 0], (drop 8 m).
  - apply spells_label; [apply Hok; [by left|by apply Hb]|by exists [2; 109; 115; 0], (drop 8 m)|].
    apply (spells_pointer m m 8 0xC0 0 [str "ms"] 4 2 true);
      [lia|unfold is_byte; lia|by exists (take 8 m), (replicate 20 0)|].
    apply (spells_label m m 0 (str "ms") [] 4 1 true); [apply Hok; [by right|by apply Hb]|by exists [], (drop 3 m)|].
    apply (spells_root m m 3). by exists (take 3 m), (drop 4 m).
Defined.

End DNSResourceRecord.
