(* ===== verification/DnsMessage.v ===== *)
(** * The message header: [DNSHeader] and [DNSPacket] (src/DNS/DNSMessage.h)

    A packet is the byte object [DNSPacket] overlays: twelve header bytes, then
    [data]. [BYTE_ORDER] and [BIG_ENDIAN] are not defined by the headers the
    project includes, so the preprocessor takes the first branch, in which a
    little-endian compiler allots the flag bits from the least significant bit
    up; 16-bit fields are host-order reads of two consecutive bytes. *)

From S2P Require Import Prelude.

(** [sizeof(DNSHeader)], which is also the offset of [data] in [DNSPacket]. *)
Definition HEADER_LEN : Z := 12.

(** [enum OPCODE], [enum RCODE] and the members of [enum TYPE] and [enum CLASS]. *)
Definition OPCODE_QUERY : Z := 0.
Definition RCODE_NO_ERROR : Z := 0.
Definition RCODE_FORMAT_ERROR : Z := 1.
Definition RCODE_SERVER_FAILURE : Z := 2.
Definition RCODE_NAME_ERROR : Z := 3.
Definition RCODE_NOT_IMPLIMENTED : Z := 4.
Definition RCODE_REFUSED : Z := 5.

Module DNSHeader.

(** The fields: where the compiler puts them. *)
Inductive field16 := F_id | F_qdcount | F_ancount | F_nscount | F_arcount.
Inductive flag := F_rd | F_tc | F_aa | F_qr | F_ra.

Definition offset16 (f : field16) : Z :=
  match f with F_id => 0 | F_qdcount => 4 | F_ancount => 6 | F_nscount => 8 | F_arcount => 10 end.

Definition flag_byte (f : flag) : Z := match f with F_ra => 3 | _ => 2 end.
Definition flag_bit (f : flag) : Z :=
  match f with F_rd => 0 | F_tc => 1 | F_aa => 2 | F_qr => 7 | F_ra => 7 end.

(** Reading and assigning a 16-bit bit-field, in host order. *)
Definition get16 (p : list Z) (f : field16) : res Z :=
  do bs <- sub p (offset16 f) 2; Ok (of_le16 bs).
Definition put16 (p : list Z) (f : field16) (v : Z) : res (list Z) := blit p (offset16 f) (le16 v).

(** Reading and assigning a one-bit field. *)
Definition get_flag (p : list Z) (f : flag) : res bool :=
  do b <- rd p (flag_byte f); Ok (Z.testbit b (flag_bit f)).
Definition put_flag (p : list Z) (f : flag) (v : bool) : res (list Z) :=
  do b <- rd p (flag_byte f);
  wr p (flag_byte f) (if v then Z.setbit b (flag_bit f) else Z.clearbit b (flag_bit f)).

(** The four-bit response code. *)
Definition get_rcode (p : list Z) : res Z := do b <- rd p 3; Ok (Z.land b 0x0F).
Definition put_rcode (p : list Z) (v : Z) : res (list Z) :=
  do b <- rd p 3; wr p 3 (Z.lor (Z.land b 0xF0) (Z.land v 0x0F)).

(** ** The fields of a packet whose header bytes are known *)

Lemma rd_at m n b : m !! n = Some b -> rd m (Z.of_nat n) = Ok b.
Proof.
  intros H. pose proof (lookup_lt_Some _ _ _ H). unfold rd, zlen. zbool. by rewrite Nat2Z.id, H.
Qed.

Lemma wr_insert m n v : (n < length m)%nat -> wr m (Z.of_nat n) v = Ok (<[n := u8 v]> m).
Proof. intros H. unfold wr, zlen. zbool. by rewrite Nat2Z.id. Qed.

Lemma blit_nat m n bs :
  (n + length bs <= length m)%nat -> blit m (Z.of_nat n) bs = Ok (take n m ++ bs ++ drop (n + length bs) m)%list.
Proof.
  intros H. unfold blit, splice, zlen. zbool. rewrite Nat2Z.id. do 4 f_equal. lia.
Qed.

Lemma sub_nat m n k :
  (n + k <= length m)%nat -> sub m (Z.of_nat n) (Z.of_nat k) = Ok (take k (drop n m)).
Proof. intros H. unfold sub, zlen. zbool. by rewrite !Nat2Z.id. Qed.

(** A packet object is its twelve header bytes and the rest. *)
Lemma header_split (m : list Z) : HEADER_LEN <= zlen m ->
  exists h0 h1 h2 h3 h4 h5 h6 h7 h8 h9 h10 h11 rest,
    m = (h0 :: h1 :: h2 :: h3 :: h4 :: h5 :: h6 :: h7 :: h8 :: h9 :: h10 :: h11 :: rest).
Proof.
  intros H. unfold HEADER_LEN, zlen in H.
  do 12 (destruct m as [|? m]; [cbn in H; lia|]). repeat eexists.
Qed.

Section Fields.

Variables h0 h1 h2 h3 h4 h5 h6 h7 h8 h9 h10 h11 : Z.
Variable rest : list Z.

Definition pkt (a b c d e f g h i j k l : Z) : list Z :=
  (a :: b :: c :: d :: e :: f :: g :: h :: i :: j :: k :: l :: rest).

#[local] Abbreviation P := (pkt h0 h1 h2 h3 h4 h5 h6 h7 h8 h9 h10 h11).

Lemma get_flag_pkt f :
  get_flag P f = Ok (Z.testbit (match f with F_ra => h3 | _ => h2 end) (flag_bit f)).
Proof.
  unfold get_flag. destruct f; cbn [flag_byte];
    [change 2 with (Z.of_nat 2)..|change 3 with (Z.of_nat 3)]; by erewrite rd_at by reflexivity.
Qed.

Lemma put_flag_pkt f v :
  put_flag P f v = Ok
    (let set b := u8 (if v then Z.setbit b (flag_bit f) else Z.clearbit b (flag_bit f)) in
     match f with
     | F_ra => pkt h0 h1 h2 (set h3) h4 h5 h6 h7 h8 h9 h10 h11
     | _ => pkt h0 h1 (set h2) h3 h4 h5 h6 h7 h8 h9 h10 h11
     end).
Proof.
  unfold put_flag. destruct f; cbn [flag_byte];
    [change 2 with (Z.of_nat 2)..|change 3 with (Z.of_nat 3)];
    erewrite rd_at by reflexivity; cbn [rbind]; rewrite wr_insert by (cbn; lia); reflexivity.
Qed.

Lemma get_rcode_pkt : get_rcode P = Ok (Z.land h3 0x0F).
Proof. unfold get_rcode. change 3 with (Z.of_nat 3). by erewrite rd_at by reflexivity. Qed.

Lemma put_rcode_pkt v :
  put_rcode P v = Ok (pkt h0 h1 h2 (u8 (Z.lor (Z.land h3 0xF0) (Z.land v 0x0F))) h4 h5 h6 h7 h8 h9 h10 h11).
Proof.
  unfold put_rcode. change 3 with (Z.of_nat 3). erewrite rd_at by reflexivity. cbn [rbind].
  by rewrite wr_insert by (cbn; lia).
Qed.

Lemma get16_pkt f :
  get16 P f = Ok (of_le16 (match f with
    | F_id => [h0; h1] | F_qdcount => [h4; h5] | F_ancount => [h6; h7]
    | F_nscount => [h8; h9] | F_arcount => [h10; h11] end)).
Proof.
  unfold get16. destruct f; cbn [offset16]; change 2 with (Z.of_nat 2);
    [change 0 with (Z.of_nat 0)|change 4 with (Z.of_nat 4)|change 6 with (Z.of_nat 6)
    |change 8 with (Z.of_nat 8)|change 10 with (Z.of_nat 10)];
    rewrite sub_nat by (cbn; lia); reflexivity.
Qed.

Lemma put16_pkt f v :
  put16 P f v = Ok (let a := v mod 256 in let b := v / 256 mod 256 in
    match f with
    | F_id => pkt a b h2 h3 h4 h5 h6 h7 h8 h9 h10 h11
    | F_qdcount => pkt h0 h1 h2 h3 a b h6 h7 h8 h9 h10 h11
    | F_ancount => pkt h0 h1 h2 h3 h4 h5 a b h8 h9 h10 h11
    | F_nscount => pkt h0 h1 h2 h3 h4 h5 h6 h7 a b h10 h11
    | F_arcount => pkt h0 h1 h2 h3 h4 h5 h6 h7 h8 h9 a b
    end).
Proof.
  unfold put16. destruct f; cbn [offset16];
    [change 0 with (Z.of_nat 0)|change 4 with (Z.of_nat 4)|change 6 with (Z.of_nat 6)
    |change 8 with (Z.of_nat 8)|change 10 with (Z.of_nat 10)];
    rewrite blit_nat by (cbn; lia); reflexivity.
Qed.

(** Writing at or after [data] only changes the rest. *)
Lemma splice_pkt o bs :
  HEADER_LEN <= o -> splice P o bs =
    (fun r => h0 :: h1 :: h2 :: h3 :: h4 :: h5 :: h6 :: h7 :: h8 :: h9 :: h10 :: h11 :: r)
      (splice rest (o - HEADER_LEN) bs).
Proof.
  intros Ho. unfold HEADER_LEN in *. unfold splice. pose proof (zlen_nonneg bs).
  replace (Z.to_nat o) with (12 + Z.to_nat (o - 12))%nat by lia.
  replace (Z.to_nat (o + zlen bs)) with (12 + Z.to_nat (o - 12 + zlen bs))%nat by lia.
  reflexivity.
Qed.

Lemma take_pkt n :
  HEADER_LEN <= n -> take (Z.to_nat n) P =
    (fun r => h0 :: h1 :: h2 :: h3 :: h4 :: h5 :: h6 :: h7 :: h8 :: h9 :: h10 :: h11 :: r)
      (take (Z.to_nat (n - HEADER_LEN)) rest).
Proof.
  intros Hn. unfold HEADER_LEN in *. replace (Z.to_nat n) with (12 + Z.to_nat (n - 12))%nat by lia. reflexivity.
Qed.

End Fields.

Lemma testbit_set_u8 b n : 0 <= n < 8 -> Z.testbit (u8 (Z.setbit b n)) n = true.
Proof. intros Hn. unfold u8. rewrite Z.mod_pow2_bits_low by lia. apply Z.setbit_eq. lia. Qed.

(** The response code that has just been stored. *)
Lemma rcode_stored x v : 0 <= v < 16 -> Z.land (u8 (Z.lor (Z.land x 0xF0) (Z.land v 0x0F))) 0x0F = v.
Proof.
  intros Hv. unfold u8. rewrite <- Z.land_ones by lia. rewrite <- Z.land_assoc.
  change (Z.land (Z.ones 8) 0x0F) with 0x0F. rewrite Z.land_lor_distr_l, <- !Z.land_assoc.
  change (Z.land 0xF0 0x0F) with 0. rewrite Z.land_0_r, Z.lor_0_l. change (Z.land 0x0F 0x0F) with (Z.ones 4).
  rewrite Z.land_ones by lia. apply Z.mod_small. lia.
Qed.

Arguments pkt rest a b c d e f g h i j k l : simpl never.
Create Rewrite HintDb header.
#[export] Hint Rewrite get_flag_pkt put_flag_pkt get_rcode_pkt put_rcode_pkt get16_pkt put16_pkt : header.

End DNSHeader.
