(* ===== verification/DnsResolver.v ===== *)
(** * The resolver: [DNSResolver] (src/DNS/DNSResolver.cpp, DNSResolver.h)

    Answers questions from the database, forwards the packet to the recursive
    server on a miss, and stores records of forwarded responses. The database
    and the network are parameters: [cache] gives the rows the SQL statement of
    [resolveA] returns for a name, [net] the datagram the recursive server
    answers a request with (each may fail with the error the code throws), and
    [exec] runs the two statements of [cacheResponse]. *)

From S2P Require Import Prelude DnsName DnsRecord DnsMessage.
Import DNSHeader.

(** [struct ResponseInfo]; [length] has no initialiser, so it is [None] until
    it is assigned. *)
Record ResponseInfo := mkResp {
  answers : Z; authAnswers : Z; otherAnswers : Z; rcode : Z;
  resp_length : option Z; recursionOccurred : bool; truncationOccurred : bool
}.

Definition fresh_info : ResponseInfo := mkResp 0 0 0 RCODE_NO_ERROR None false false.

Definition set_answers (i : ResponseInfo) (n : Z) : ResponseInfo :=
  mkResp n (authAnswers i) (otherAnswers i) (rcode i) (resp_length i) (recursionOccurred i) (truncationOccurred i).
Definition set_truncated (i : ResponseInfo) : ResponseInfo :=
  mkResp (answers i) (authAnswers i) (otherAnswers i) (rcode i) (resp_length i) (recursionOccurred i) true.
Definition set_recursed (i : ResponseInfo) : ResponseInfo :=
  mkResp (answers i) (authAnswers i) (otherAnswers i) (rcode i) (resp_length i) true (truncationOccurred i).
Definition set_length (i : ResponseInfo) (n : Z) : ResponseInfo :=
  mkResp (answers i) (authAnswers i) (otherAnswers i) (rcode i) (Some n) (recursionOccurred i) (truncationOccurred i).
Definition set_rcode (i : ResponseInfo) (c : Z) : ResponseInfo :=
  mkResp (answers i) (authAnswers i) (otherAnswers i) c (resp_length i) (recursionOccurred i) (truncationOccurred i).

(** A row of the result set: [NAME] as a string, [VALUE] as the content of the
    256-byte array it is fetched into. *)
Record row := mkRow { r_ttl : Z; r_name : list Z; r_value : list Z; r_type : Z; r_class : Z }.

(** What the resolver changes: the packet it works on, the locations of the
    names already in it, and the questions extracted so far. *)
Record rstate := mkR {
  packet : list Z;
  pointerLocations : gmap (list Z) Z;
  queries : list DNSQuery.query
}.

Definition set_packet (p : list Z) (s : rstate) : rstate := mkR p (pointerLocations s) (queries s).
Definition set_locations (l : gmap (list Z) Z) (s : rstate) : rstate := mkR (packet s) l (queries s).

(** [clean()]. *)
Definition clean (s : rstate) : rstate := set_locations ∅ s.

(** [validateDescrArrays]: the indices of the description tables. *)
Definition validateDescrArrays (opcode rcode type rclass : Z) : bool :=
  (0 <=? opcode) && (opcode <? 3) && (0 <=? rcode) && (rcode <? 6) &&
  (0 <=? type) && (type <? 256) && (0 <=? rclass) && (rclass <? 256).

Section Resolver.

Variable cache : list Z -> res (list row).
Variable net : list Z -> res (list Z).
(** [recursiveServer->sin_addr.s_addr]. *)
Variable recursiveServer : Z.
(** The object at [&packet] in [extractQueries]: the parameter's own storage. *)
Variable stack : list Z.
(** Initial contents of uninitialised arrays, and the decoder's fuel. *)
Variable junkValue junkName : list Z.
Variable fuel : nat.

(** The [switch] that creates the record data of a row. *)
Definition rowData (r : row) : res (option DNSRData) :=
  if r_type r =? TYPE_A then
    do a <- DNSRDataA.DNSRDataA (r_value r) junkValue; Ok (Some (RDataA a))
  else if r_type r =? TYPE_CNAME then
    do c <- DNSRDataCNAME.DNSRDataCNAME (cstr (r_value r)) junkName; Ok (Some (RDataCNAME c))
  else Ok None.

(** The outcome of the loop over the result set: early return on truncation, or
    the state after the last row. *)
Inductive rows_end :=
  | Truncated (ptr : Z) (info : ResponseInfo)
  | Exhausted (ptr : Z) (numARecords : Z) (info : ResponseInfo).

(** One turn of the loop: encode the row's record at [ptr], remember where a
    CNAME's target was written, check for truncation. A row that is neither A
    nor CNAME leaves [rdata] null or dangling, and [encode] dereferences it. *)
Definition resolveRow (r : row) (ptr remLen : Z) : M rstate Z :=
  let! rdata := mlift (rowData r) in
  let info := DNSResourceRecord.mkInfo (r_type r) (r_class r) (u32 (r_ttl r)) 0 in
  let! p := mgets packet in
  let! pl := mgets pointerLocations in
  let! (p, readBytes, _) := mlift
    (DNSResourceRecord.encodeRR (DNSResourceRecord.mkRR (r_name r) info rdata) p ptr remLen pl) in
  let! _ := mmodify (set_packet p) in
  let value := cstr (r_value r) in
  let! _ := mmodify (set_locations
    (if (r_type r =? TYPE_CNAME) && (match pl !! value with None => true | Some _ => false end)
     then <[value := u16 (ptr + readBytes - zlen value - 2)]> pl else pl)) in
  mok readBytes.

Fixpoint resolveRows (rows : list row) (ptr remLen numARecords : Z) (info : ResponseInfo) : M rstate rows_end :=
  match rows with
  | [] => mok (Exhausted ptr numARecords info)
  | r :: rows' =>
      let numARecords := if r_type r =? TYPE_A then numARecords + 1 else numARecords in
      let! readBytes := resolveRow r ptr remLen in
      let remLen := remLen - readBytes in
      if remLen <=? 0
      then mok (Truncated ptr (set_answers (set_truncated info) (u16 (answers info - 1))))
      else resolveRows rows' (ptr + readBytes) remLen numARecords
             (set_answers info (u16 (answers info + 1)))
  end.

(** [recursiveResolve(packet, packet, packetLen)]. *)
Definition recursiveResolve (packetLen : Z) : M rstate Z :=
  if recursiveServer =? 4294967295 then mok packetLen
  else
    let! p := mgets packet in
    let! originalId := mlift (get16 p F_id) in
    let! request := mlift (sub p 0 packetLen) in
    let! reply := mlift (net request) in
    let! p := mlift (blit p 0 (take (Z.to_nat MAX_DNS_PACKET_LENGTH) reply)) in
    let! _ := mmodify (set_packet p) in
    (* recv fills the buffer and reports WSAEMSGSIZE for a larger datagram *)
    if MAX_DNS_PACKET_LENGTH <? zlen reply then merr (ThrowInt 10040) else
    let! id := mlift (get16 p F_id) in
    if id =? originalId then mok (u64 (zlen reply - packetLen))
    else merr (Exception "Recursive response ID mismatch").

(** [resolveA(query, responseData, &info, packet, packetLen)] with
    [responseData = packet + responseData]. *)
Definition resolveA (q : DNSQuery.query) (responseData packetLen : Z) (info : ResponseInfo)
    : M rstate (Z * ResponseInfo) :=
  let qname := DNSQuery.getQname q in
  (* strcpy_s(name, qname) into char[MAX_DNS_NAME_LENGTH] *)
  if MAX_DNS_NAME_LENGTH <? zlen qname + 1 then merr InvalidParameter
  else
    let! rows := mlift (cache qname) in
    let! res := resolveRows rows responseData (MAX_DNS_PACKET_LENGTH - HEADER_LEN) 0 info in
    match res with
    | Truncated ptr info => mok (ptr - responseData, info)
    | Exhausted ptr numARecords info =>
        let! p := mgets packet in
        let! rd := mlift (get_flag p F_rd) in
        if (numARecords <=? 0) && rd then
          let! n := recursiveResolve packetLen in mok (n, set_recursed info)
        else mok (ptr - responseData, info)
    end.

(** The loop of [resolve]. *)
Fixpoint resolveQueries (qs : list DNSQuery.query) (responseData packetLen : Z) (info : ResponseInfo)
    : M rstate ResponseInfo :=
  match qs with
  | [] => mok info
  | q :: qs' =>
      if DNSQuery.getQtype q =? TYPE_A then
        let! (n, info) := resolveA q responseData packetLen info in
        resolveQueries qs' responseData packetLen (set_length info n)
      else
        let! p := mgets packet in
        let! rd := mlift (get_flag p F_rd) in
        if rd then
          let! n := recursiveResolve packetLen in mok (set_recursed (set_length info n))
        else mok (set_rcode info RCODE_NOT_IMPLIMENTED)
  end.

Definition resolve (responseData packetLen : Z) : M rstate ResponseInfo :=
  let! qs := mgets queries in
  resolveQueries qs responseData packetLen fresh_info.

(** The loop of [extractQueries], [n] iterations left. *)
Fixpoint extractLoop (n : nat) (ptr length : Z) : M rstate Z :=
  match n with
  | O => mok length
  | S n' =>
      let! p := mgets packet in
      let! q := mlift (DNSQuery.DNSQuery fuel p ptr stack junkName) in
      let! _ := mmodify (fun s =>
        mkR (packet s) (<[DNSQuery.getQname q := u16 HEADER_LEN]> (pointerLocations s))
            (queries s ++ [q])) in
      extractLoop n' (ptr + DNSQuery.getLength q) (u64 (length + DNSQuery.getLength q))
  end.

Definition extractQueries : M rstate Z :=
  let! p := mgets packet in
  let! qd := mlift (get16 p F_qdcount) in
  extractLoop (Z.to_nat (htons qd)) HEADER_LEN 0.

End Resolver.

(** ** Caching responses *)

(** A row of the table [RECORD]. *)
Record record := mkRecord { NAME : list Z; VALUE : list Z; EXPIRES : Z; RTYPE : Z; RCLASS : Z }.

(** The two prepared statements of [cacheResponse], with their parameters. *)
Inductive statement :=
  | DeleteExpired (name : list Z)
  | InsertIfAbsent (name value : list Z) (ttl type rclass : Z).

(** The database: the table, and how many times its clock has been read. *)
Record db := mkDB { table : list record; readings : nat }.

(** The effect of the statements under the string equality [eqs] of the
    database; [clock i] is the value of the [i]-th evaluation of [{fn NOW()}]:
    one in DELETE, one in the test of the INSERT, one in its VALUES. *)
Definition run_statement (eqs : list Z -> list Z -> bool) (clock : nat -> Z) (st : statement) (d : db) : db :=
  let k := readings d in
  match st with
  | DeleteExpired n =>
      mkDB (List.filter (fun r => negb (eqs (NAME r) n && (EXPIRES r <=? clock k))) (table d)) (k + 1)
  | InsertIfAbsent n v ttl ty c =>
      if existsb (fun r => eqs (NAME r) n && eqs (VALUE r) v && (clock k <=? EXPIRES r)) (table d)
      then mkDB (table d) (k + 1)
      else mkDB (table d ++ [mkRecord n v (clock (k + 1)%nat + ttl) ty c]) (k + 2)
  end.

Section Cache.

(** [executeUpdate] of the two statements: the database after them, or the
    exception they raise. *)
Context {DB : Type}.
Variable exec : statement -> DB -> res DB.
Variable fuel : nat.
Variable j : DNSResourceRecord.junk.

(** The loop of [cacheResponse], [n] iterations left: the state is the database. *)
Fixpoint cacheLoop (n : nat) (packet : list Z) (ptr : Z) : M DB unit :=
  match n with
  | O => mok tt
  | S n' =>
      let! (rr, ptr) := mlift (DNSResourceRecord.decodeRR fuel packet ptr j) in
      match DNSResourceRecord.getRData rr with
      | None => cacheLoop n' packet ptr
      | Some rdata =>
          let name := DNSResourceRecord.getName rr in
          let value := rdata_getValue rdata in
          if (256 <? zlen name + 1) || (256 <? zlen value + 1) then merr InvalidParameter
          else
            let! _ := (fun t => match exec (DeleteExpired name) t with Ok t' => (Ok tt, t') | Err e => (Err e, t) end) in
            let! _ := (fun t => match exec (InsertIfAbsent name value (DNSResourceRecord.getTTL rr)
                                   (DNSResourceRecord.getType rr) (DNSResourceRecord.getClass rr)) t with
                                 | Ok t' => (Ok tt, t') | Err e => (Err e, t) end) in
            cacheLoop n' packet ptr
      end
  end.

(** [cacheResponse(data, packet, numResponses, bufLen)] with [data = packet + data]. *)
Definition cacheResponse (data : Z) (packet : list Z) (numResponses : Z) : M DB unit :=
  cacheLoop (Z.to_nat numResponses) packet data.

End Cache.

(** ** Extracting the questions *)

Import DNSUtil.

Definition set_queries (qs : list DNSQuery.query) (s : rstate) : rstate :=
  mkR (packet s) (pointerLocations s) qs.

(** A question on the wire: labels, type bytes, class bytes. *)
Record wquestion := mkWQ { wq_labels : list (list Z); wq_th : Z; wq_tl : Z; wq_ch : Z; wq_cl : Z }.

Definition wq_bytes (q : wquestion) : list Z :=
  DNSQuery.question (wq_labels q) (wq_th q) (wq_tl q) (wq_ch q) (wq_cl q).

Definition wq_ok (q : wquestion) : Prop :=
  wq_labels q <> [] /\ Forall label_ok (wq_labels q) /\ Forall label_text (wq_labels q) /\
  zlen (wire (wq_labels q)) <= 256.

(** What [DNSQuery] stores of it, type and class from their low byte only. *)
Definition stored_query (w : wquestion) (q : DNSQuery.query) : Prop :=
  DNSQuery.getQname q = text (wq_labels w) /\ DNSQuery.getLength q = zlen (wq_bytes w) /\
  DNSQuery.getQtype q = u16 (schar (wq_tl w)) /\ DNSQuery.getQclass q = u16 (schar (wq_cl w)).

(** Every question name is recorded at the offset of the first one. *)
Definition question_locations (ws : list wquestion) (pl : gmap (list Z) Z) : gmap (list Z) Z :=
  foldl (fun pl w => <[text (wq_labels w) := HEADER_LEN]> pl) pl ws.

Lemma labels_le_wire ls : (length ls < length (wire ls))%nat.
Proof.
  induction ls as [|l ls IH]; [cbn; lia|]. rewrite wire_cons. cbn [length]. rewrite length_app. lia.
Qed.

Lemma extractLoop_ok stack junkName fuel ws : forall ptr len s,
  Forall wq_ok ws -> zlen junkName = 256 -> (256 <= fuel)%nat -> 0 <= len ->
  has_bytes (packet s) ptr (concat (map wq_bytes ws)) ->
  len + zlen (concat (map wq_bytes ws)) < 2 ^ 64 ->
  exists qs, Forall2 stored_query ws qs /\
    extractLoop stack junkName fuel (length ws) ptr len s =
      (Ok (len + zlen (concat (map wq_bytes ws))),
       mkR (packet s) (question_locations ws (pointerLocations s)) (queries s ++ qs)).
Proof.
  induction ws as [|w ws IH]; intros ptr len s Hok Hj Hf Hl Hm Hb.
  - exists []. split; [constructor|]. cbn. rewrite app_nil_r, zlen_nil, Z.add_0_r. by destruct s.
  - apply Forall_cons in Hok as [(Hne & Hlo & Hlt & Hw) Hok]. cbn [map concat] in *.
    apply has_bytes_app in Hm as [Hm1 Hm2]. rewrite zlen_app in *.
    pose proof (zlen_nonneg (wq_bytes w)). pose proof (zlen_nonneg (concat (map wq_bytes ws))).
    pose proof (labels_le_wire (wq_labels w)).
    destruct (DNSQuery.DNSQuery_ok fuel (packet s) ptr stack junkName (wq_labels w) (wq_th w) (wq_tl w)
      (wq_ch w) (wq_cl w)) as (q & Hq & Hn & Hql & Hqt & Hqc & _); try done.
    { unfold zlen in Hw. lia. }
    fold (wq_bytes w) in Hql. cbn [length extractLoop]. unfold mbindS, mgets, mlift, mmodify. rewrite Hq.
    rewrite Hql. replace (u64 (len + zlen (wq_bytes w))) with (len + zlen (wq_bytes w))
      by (unfold u64; rewrite Z.mod_small; lia).
    destruct (IH (ptr + zlen (wq_bytes w)) (len + zlen (wq_bytes w))
      (mkR (packet s) (<[DNSQuery.getQname q := u16 HEADER_LEN]> (pointerLocations s)) (queries s ++ [q])))
      as (qs & Hqs & Hex); [done|done|done|lia|done|lia|].
    exists (q :: qs). split; [constructor; [repeat split; done|done]|].
    unfold mbindS, mgets, mlift, mmodify in Hex. rewrite Hex. cbn [packet pointerLocations queries].
    rewrite Hn, <- app_assoc, Z.add_assoc. reflexivity.
Qed.

Lemma extractQueries_run stack junkName fuel ws s :
  Forall wq_ok ws -> zlen junkName = 256 -> (256 <= fuel)%nat -> zlen ws < 2 ^ 16 ->
  has_bytes (packet s) 4 (be16 (zlen ws)) ->
  has_bytes (packet s) HEADER_LEN (concat (map wq_bytes ws)) ->
  zlen (packet s) < 2 ^ 64 -> queries s = [] ->
  exists qs, Forall2 stored_query ws qs /\
    extractQueries stack junkName fuel s =
      (Ok (zlen (concat (map wq_bytes ws))),
       mkR (packet s) (question_locations ws (pointerLocations s)) qs).
Proof.
  intros Hok Hj Hf Hn Hc Hm Hp Hq. pose proof (has_bytes_bound _ _ _ Hm) as Hb.
  destruct (extractLoop_ok stack junkName fuel ws HEADER_LEN 0 s) as (qs & Hps & Hex); try done.
  { unfold HEADER_LEN in Hb. lia. }
  exists qs. split; [done|]. unfold extractQueries, mbindS, mgets, mlift, get16.
  change (offset16 F_qdcount) with 4. change 2 with (zlen (be16 (zlen ws))) at 1.
  rewrite has_bytes_sub by done. cbn [rbind].
  rewrite htons_of_be16 by (pose proof (zlen_nonneg ws); lia). rewrite to_nat_zlen, Hex, Hq. reflexivity.
Qed.

(** The 16-bit type and class of a question on the wire. *)
Definition wq_type (w : wquestion) : Z := wq_th w * 256 + wq_tl w.
Definition wq_class (w : wquestion) : Z := wq_ch w * 256 + wq_cl w.

(** [wire16 v r]: a field of value [v] on the wire is read as [r], which is
    [v] exactly when [v] is below 128 or at least 0xFF80, and has its low byte
    in any case. *)
Definition wire16 (v r : Z) : Prop :=
  (r = v <-> v < 128 \/ 0xFF80 <= v) /\ r mod 256 = v mod 256.

(** A question read against its meaning on the wire. *)
Definition question_read (w : wquestion) (q : DNSQuery.query) : Prop :=
  DNSQuery.getQname q = text (wq_labels w) /\ DNSQuery.getLength q = zlen (wq_bytes w) /\
  wire16 (wq_type w) (DNSQuery.getQtype q) /\ wire16 (wq_class w) (DNSQuery.getQclass q).

Lemma has_bytes_bytes m o bs : bytes m -> has_bytes m o bs -> bytes bs.
Proof.
  intros Hm (a & c & -> & _). apply Forall_app in Hm as [_ Hm]. by apply Forall_app in Hm as [Hm _].
Qed.

Lemma wire16_low h l : is_byte h -> is_byte l -> wire16 (h * 256 + l) (u16 (schar l)).
Proof.
  unfold is_byte, wire16, u16, schar. intros Hh Hl.
  destruct (Z.ltb_spec l 128).
  - rewrite (Z.mod_small l) by lia. split; [lia|]. Z.to_euclidean_division_equations. lia.
  - replace ((l - 256) mod 2 ^ 16) with (l + 0xFF00) by (apply (Z.mod_unique _ _ (-1)); lia).
    split; [lia|]. Z.to_euclidean_division_equations. lia.
Qed.

Lemma stored_question_read ws qs p o :
  Forall2 stored_query ws qs -> bytes p -> has_bytes p o (concat (map wq_bytes ws)) -> Forall2 question_read ws qs.
Proof.
  intros H Hb. revert o. induction H as [|w q ws qs (Hn & Hl & Ht & Hc) _ IH]; intros o Hm; constructor.
  - cbn [map concat] in Hm. apply has_bytes_app in Hm as [Hm _].
    unfold wq_bytes, DNSQuery.question in Hm. apply has_bytes_app_2 in Hm.
    pose proof (has_bytes_bytes _ _ _ Hb Hm) as Hf. inversion_clear Hf as [|? ? ? Hf']. inversion_clear Hf' as [|? ? ? Hf''].
    inversion_clear Hf'' as [|? ? ? Hf']. inversion_clear Hf'.
    unfold question_read, wq_type, wq_class. rewrite Ht, Hc. auto using wire16_low.
  - cbn [map concat] in Hm. apply has_bytes_app_2 in Hm. by eapply IH.
Qed.

(** C38: on a packet whose question section is made of plain questions,
    [extractQueries] returns the exact length of that section, gives for every
    question in order its dotted name and its length, leaves the packet alone,
    and records every question's name at offset 12. The 16-bit type and class
    of a question are read right exactly when they are below 128 or at least
    0xFF80; of any other value only the low byte survives. *)
Theorem extractQueries_ok stack junkName fuel ws s :
  Forall wq_ok ws -> zlen junkName = 256 -> (256 <= fuel)%nat -> zlen ws < 2 ^ 16 ->
  has_bytes (packet s) 4 (be16 (zlen ws)) ->
  has_bytes (packet s) HEADER_LEN (concat (map wq_bytes ws)) ->
  bytes (packet s) -> zlen (packet s) < 2 ^ 64 -> queries s = [] ->
  exists qs, Forall2 question_read ws qs /\
    extractQueries stack junkName fuel s =
      (Ok (zlen (concat (map wq_bytes ws))),
       mkR (packet s) (question_locations ws (pointerLocations s)) qs).
Proof.
  intros Hok Hj Hf Hn Hc Hm Hb Hp Hq.
  destruct (extractQueries_run stack junkName fuel ws s) as (qs & Hqs & Hex); try done.
  exists qs. split; [by eapply stored_question_read|exact Hex].
Qed.

(** The packet of the project's own test: two questions. *)
Definition test_questions : list wquestion :=
  [mkWQ [str "www"; str "google"; str "com"] 0 1 0 1;
   mkWQ [str "www"; str "microsoft"; str "com"] 0 1 0 1].

Definition test_packet : list Z :=
  ([5; 57; 1; 0; 0; 2; 0; 0; 0; 0; 0; 0] ++ concat (map wq_bytes test_questions) ++ replicate 60 0)%list.

Lemma extractQueries_ok_witness :
  exists qs, Forall2 question_read test_questions qs /\
    extractQueries [] (replicate 256 0) 300 (mkR test_packet ∅ []) =
      (Ok 43, mkR test_packet (question_locations test_questions ∅) qs).
Proof.
  apply (extractQueries_ok [] (replicate 256 0) 300 test_questions (mkR test_packet ∅ []));
    try conc.
  - by exists (take 4 test_packet), (drop 6 test_packet).
  - by exists (take 12 test_packet), (replicate 60 0).
Defined.

(** ** Answering from the database *)

(** The location recorded after a row has been encoded in [n] bytes at [ptr]. *)
Definition row_locations (r : row) (ptr n : Z) (pl : gmap (list Z) Z) : gmap (list Z) Z :=
  if (r_type r =? TYPE_CNAME) && (match pl !! cstr (r_value r) with None => true | Some _ => false end)
  then <[cstr (r_value r) := u16 (ptr + n - zlen (cstr (r_value r)) - 2)]> pl else pl.

(** The fixed fields of a row's record. *)
Definition row_info (r : row) : DNSResourceRecord.FixedRRInfo :=
  DNSResourceRecord.mkInfo (r_type r) (r_class r) (u32 (r_ttl r)) 0.

(** [row_bytes pl remLen r bs]: with [remLen] bytes left, the record of row [r]
    is encoded as [bs]. *)
Inductive row_bytes (jv jn : list Z) (pl : gmap (list Z) Z) (remLen : Z) (r : row) : list Z -> Prop :=
  | row_bytes_intro d nb rb :
      rowData jv jn r = Ok (Some d) -> DNSResourceRecord.rdata_spec (r_type r) d rb ->
      DNSResourceRecord.name_part pl (r_name r) remLen nb ->
      row_bytes jv jn pl remLen r
        (nb ++ DNSResourceRecord.fixed (row_info r) (zlen rb) ++ rb).

(** The answer section the rows give from offset [ptr] on, when every record
    leaves room after it. *)
Inductive section (jv jn : list Z) : gmap (list Z) Z -> Z -> Z -> list row -> list Z -> gmap (list Z) Z -> Prop :=
  | section_nil pl ptr remLen : section jv jn pl ptr remLen [] [] pl
  | section_cons pl ptr remLen r rows bs out pl' :
      row_bytes jv jn pl remLen r bs -> zlen bs < remLen ->
      section jv jn (row_locations r ptr (zlen bs) pl) (ptr + zlen bs) (remLen - zlen bs) rows out pl' ->
      section jv jn pl ptr remLen (r :: rows) (bs ++ out) pl'.

Definition count_A (rows : list row) : Z := zlen (List.filter (fun r => r_type r =? TYPE_A) rows).

Lemma resolveRow_ok jv jn r ptr remLen bs s :
  row_bytes jv jn (pointerLocations s) remLen r bs -> zlen bs <= remLen < 2 ^ 31 ->
  0 <= ptr -> ptr + zlen bs <= zlen (packet s) ->
  resolveRow jv jn r ptr remLen s =
    (Ok (zlen bs), mkR (splice (packet s) ptr bs)
                       (row_locations r ptr (zlen bs) (pointerLocations s)) (queries s)).
Proof.
  intros [d nb rb Hd Hs Hn] Hr Hp Hfit. autorewrite with zlen in *.
  change (zlen (DNSResourceRecord.fixed (row_info r) (zlen rb))) with 10 in *.
  unfold resolveRow, mbindS, mlift, mgets, mmodify. rewrite Hd.
  fold (row_info r). rewrite (DNSResourceRecord.encodeRR_ok (r_name r) (row_info r) d _ (r_type r) nb rb);
    [|done|done|lia|done|lia].
  replace (zlen nb + 10 + zlen rb) with (zlen nb + (10 + zlen rb)) by lia. reflexivity.
Qed.

Lemma resolveRows_section jv jn pl ptr remLen rows out pl' :
  section jv jn pl ptr remLen rows out pl' ->
  forall more s numA info,
  pointerLocations s = pl -> remLen < 2 ^ 31 -> 0 <= ptr -> ptr + zlen out <= zlen (packet s) ->
  0 <= answers info -> answers info + zlen rows < 2 ^ 16 ->
  resolveRows jv jn (rows ++ more) ptr remLen numA info s =
    resolveRows jv jn more (ptr + zlen out) (remLen - zlen out) (numA + count_A rows)
      (set_answers info (answers info + zlen rows)) (mkR (splice (packet s) ptr out) pl' (queries s)).
Proof.
  induction 1 as [pl ptr remLen|pl ptr remLen r rows bs out pl' Hr Hlt Hs IH];
    intros more s numA info Hpl Hrem Hp Hfit Ha Hb.
  - rewrite splice_nil by done. unfold count_A. cbn. rewrite !zlen_nil, !Z.add_0_r, Z.sub_0_r. subst pl.
    destruct s, info. reflexivity.
  - pose proof (zlen_nonneg bs). pose proof (zlen_nonneg out). pose proof (zlen_nonneg rows).
    autorewrite with zlen in *. subst pl. cbn [app resolveRows]. unfold mbindS at 1.
    rewrite (resolveRow_ok jv jn r ptr remLen bs) by (done || lia).
    replace (remLen - zlen bs <=? 0) with false by (symmetry; apply Z.leb_gt; lia).
    replace (u16 (answers info + 1)) with (answers info + 1) by (unfold u16; rewrite Z.mod_small; lia).
    rewrite IH; cbn [packet pointerLocations queries set_answers answers]; try (done || lia).
    2: { rewrite zlen_splice; lia. }
    rewrite splice_splice by lia. unfold count_A. cbn [List.filter].
    destruct (r_type r =? TYPE_A); autorewrite with zlen; f_equal;
      first [lia | unfold set_answers; cbn; f_equal; lia].
Qed.

Lemma resolveA_section cache net srv jv jn q o packetLen info s rows out pl' rd :
  zlen (DNSQuery.getQname q) < MAX_DNS_NAME_LENGTH -> cache (DNSQuery.getQname q) = Ok rows ->
  section jv jn (pointerLocations s) o (MAX_DNS_PACKET_LENGTH - HEADER_LEN) rows out pl' ->
  HEADER_LEN <= o -> o + zlen out <= zlen (packet s) ->
  get_flag (splice (packet s) o out) F_rd = Ok rd -> (0 < count_A rows \/ rd = false) ->
  0 <= answers info -> answers info + zlen rows < 2 ^ 16 ->
  resolveA cache net srv jv jn q o packetLen info s =
    (Ok (zlen out, set_answers info (answers info + zlen rows)),
     mkR (splice (packet s) o out) pl' (queries s)).
Proof.
  intros Hq Hc Hs Ho Hfit Hrd Hhit Ha Hb. unfold resolveA. zbool. unfold mbindS at 1, mlift at 1. rewrite Hc.
  unfold mbindS at 1. rewrite <- (app_nil_r rows) at 1.
  rewrite (resolveRows_section _ _ _ _ _ _ _ _ Hs) by (done || unfold HEADER_LEN, MAX_DNS_PACKET_LENGTH in *; lia).
  cbn [resolveRows]. unfold mok at 1. unfold mbindS, mgets, mlift. cbn [packet]. rewrite Hrd.
  replace ((0 + count_A rows <=? 0) && rd) with false.
  2: { symmetry. apply andb_false_iff. destruct Hhit as [H| ->]; [left; apply Z.leb_gt; lia|by right]. }
  unfold mok. do 3 f_equal. lia.
Qed.

(** C37: a database hit. When the rows found for a question's name all fit, one
    of them is an address (or recursion is not wanted), [resolveA] writes
    exactly their records, one after the other, at the response position,
    reports their total length, and adds their number to the answer count. *)
Theorem resolveA_hit cache net srv jv jn q o packetLen info s rows out pl' rd :
  zlen (DNSQuery.getQname q) < MAX_DNS_NAME_LENGTH -> cache (DNSQuery.getQname q) = Ok rows ->
  section jv jn (pointerLocations s) o (MAX_DNS_PACKET_LENGTH - HEADER_LEN) rows out pl' ->
  HEADER_LEN <= o -> o + zlen out <= zlen (packet s) ->
  get_flag (splice (packet s) o out) F_rd = Ok rd -> (0 < count_A rows \/ rd = false) ->
  0 <= answers info -> answers info + zlen rows < 2 ^ 16 ->
  resolveA cache net srv jv jn q o packetLen info s =
    (Ok (zlen out, set_answers info (answers info + zlen rows)),
     mkR (splice (packet s) o out) pl' (queries s)).
Proof. apply resolveA_section. Qed.

(** One cached address for the question's own name, written as a pointer. *)
Definition hit_row : row :=
  mkRow 300 (str "www.ms") (str "23.11.60.133" ++ replicate 244 0) TYPE_A 1.

Definition hit_query : DNSQuery.query :=
  DNSQuery.mkQuery (str "www.ms" ++ replicate 250 0) 1 1 12.

(** A response packet for that question: header with RD set, question, room. *)
Definition hit_packet : list Z :=
  ([5; 57; 1; 0; 0; 1; 0; 0; 0; 0; 0; 0] ++ wire [str "www"; str "ms"] ++ [0; 1; 0; 1] ++ replicate 1000 0)%list.

Lemma hit_section :
  section (replicate 16 0) (replicate 256 0) {[ str "www.ms" := 12 ]} 24 500 [hit_row]
    [0xC0; 12; 0; 1; 0; 1; 0; 0; 1; 44; 0; 4; 23; 11; 60; 133] {[ str "www.ms" := 12 ]}.
Proof.
  change [0xC0; 12; 0; 1; 0; 1; 0; 0; 1; 44; 0; 4; 23; 11; 60; 133] with
    ((be16 (12 + 0xC000) ++ DNSResourceRecord.fixed (row_info hit_row) (zlen [23; 11; 60; 133]) ++ [23; 11; 60; 133]) ++ [])%list.
  apply section_cons; [|conc|apply section_nil].
  eapply row_bytes_intro; [vm_compute; reflexivity| |apply DNSResourceRecord.part_pointer; [reflexivity|lia|lia]].
  apply DNSResourceRecord.spec_A; [reflexivity| |vm_compute; reflexivity].
  repeat (apply Forall_cons; split; [unfold is_byte; lia|]). by apply Forall_nil.
Qed.

Lemma resolveA_hit_witness :
  resolveA (fun _ => Ok [hit_row]) (fun _ => Err (ThrowInt 10060)) 0x08080808 (replicate 16 0) (replicate 256 0)
      hit_query 24 24 fresh_info (mkR hit_packet {[ str "www.ms" := 12 ]} [hit_query]) =
    (Ok (16, set_answers fresh_info 1),
     mkR (splice hit_packet 24 [0xC0; 12; 0; 1; 0; 1; 0; 0; 1; 44; 0; 4; 23; 11; 60; 133])
         {[ str "www.ms" := 12 ]} [hit_query]).
Proof.
  refine (resolveA_hit _ _ _ _ _ hit_query 24 24 fresh_info (mkR hit_packet {[ str "www.ms" := 12 ]} [hit_query])
    [hit_row] _ _ true _ _ hit_section _ _ _ _ _ _); try conc.
Defined.

(** truncation. When the first rows fit and the record of the next one
    exactly fills the remaining length, [resolveA] writes that record too but
    reports truncation, the length of the records before it, and an answer
    count one less than their number (65535 when there is none). *)
Theorem resolveA_truncation cache net srv jv jn q o packetLen info s rows r rows' out pl' bs :
  zlen (DNSQuery.getQname q) < MAX_DNS_NAME_LENGTH -> cache (DNSQuery.getQname q) = Ok (rows ++ r :: rows') ->
  section jv jn (pointerLocations s) o (MAX_DNS_PACKET_LENGTH - HEADER_LEN) rows out pl' ->
  row_bytes jv jn pl' (MAX_DNS_PACKET_LENGTH - HEADER_LEN - zlen out) r bs ->
  zlen bs = MAX_DNS_PACKET_LENGTH - HEADER_LEN - zlen out ->
  HEADER_LEN <= o -> o + zlen out + zlen bs <= zlen (packet s) ->
  0 <= answers info -> answers info + zlen rows < 2 ^ 16 ->
  exists s', resolveA cache net srv jv jn q o packetLen info s =
    (Ok (zlen out, set_answers (set_truncated info) (u16 (answers info + zlen rows - 1))), s') /\
    packet s' = splice (packet s) o (out ++ bs).
Proof.
  intros Hq Hc Hs Hr Hbs Ho Hfit Ha Hb. pose proof (zlen_nonneg bs). pose proof (zlen_nonneg out).
  unfold resolveA. zbool. unfold mbindS at 1, mlift at 1. rewrite Hc. unfold mbindS at 1.
  rewrite (resolveRows_section _ _ _ _ _ _ _ _ Hs) by (done || unfold HEADER_LEN, MAX_DNS_PACKET_LENGTH in *; lia).
  cbn [resolveRows]. unfold mbindS at 1. unfold MAX_DNS_PACKET_LENGTH, HEADER_LEN in *.
  rewrite (resolveRow_ok jv jn r _ _ bs); cbn [pointerLocations packet]; [|done|lia|lia|rewrite zlen_splice; lia].
  replace (512 - 12 - zlen out - zlen bs <=? 0) with true by (symmetry; apply Z.leb_le; lia).
  unfold mok. eexists. split; [|].
  - cbn. do 3 f_equal. lia.
  - cbn. by rewrite splice_splice by lia.
Qed.

(** A CNAME whose owner and target fill the 500 bytes after the header. *)
Definition long_labels : list (list Z) := replicate 61 (str "aaa").
Definition long_row : row :=
  mkRow 300 (text long_labels) (text long_labels ++ replicate 13 0) TYPE_CNAME 1.

Lemma resolveA_truncation_witness :
  let bs := (wire long_labels ++ DNSResourceRecord.fixed (row_info long_row) 245 ++ wire long_labels)%list in
  exists s', resolveA (fun _ => Ok [long_row]) (fun _ => Err (ThrowInt 10060)) 0x08080808 (replicate 16 0)
      (replicate 256 0) hit_query 24 24 fresh_info (mkR hit_packet ∅ [hit_query]) =
    (Ok (0, set_answers (set_truncated fresh_info) 65535), s') /\
    packet s' = splice hit_packet 24 ([] ++ bs).
Proof.
  intros bs. assert (Hok : Forall label_ok long_labels).
  { apply Forall_replicate. split; [conc|]. repeat constructor; done. }
  assert (Ht : Forall label_text long_labels).
  { apply Forall_replicate. split; apply occurs_false; reflexivity. }
  refine (resolveA_truncation (fun _ => Ok [long_row]) _ _ _ _ hit_query 24 24 fresh_info
    (mkR hit_packet ∅ [hit_query]) [] long_row [] [] ∅ bs _ _ _ _ _ _ _ _ _);
    [conc|reflexivity|apply section_nil| |reflexivity|conc|conc|conc|conc].
  change bs with (wire long_labels ++ DNSResourceRecord.fixed (row_info long_row) (zlen (wire long_labels)) ++ wire long_labels)%list.
  eapply row_bytes_intro; [vm_compute; reflexivity| |].
  - apply DNSResourceRecord.spec_CNAME; try done; conc.
  - apply (DNSResourceRecord.part_plain _ _ _ long_labels); try done; conc.
Defined.

(** ** Forwarding *)

(** a database miss. When none of the rows is an address and recursion is
    desired, [resolveA] hands the packet, with the records of the rows already
    appended, to [recursiveResolve]; without a recursive server the length it
    returns is the length of the whole request, not the zero bytes added. *)
Theorem resolveA_miss cache net srv jv jn q o packetLen info s rows out pl' :
  zlen (DNSQuery.getQname q) < MAX_DNS_NAME_LENGTH -> cache (DNSQuery.getQname q) = Ok rows ->
  section jv jn (pointerLocations s) o (MAX_DNS_PACKET_LENGTH - HEADER_LEN) rows out pl' ->
  HEADER_LEN <= o -> o + zlen out <= zlen (packet s) ->
  get_flag (splice (packet s) o out) F_rd = Ok true -> count_A rows = 0 ->
  0 <= answers info -> answers info + zlen rows < 2 ^ 16 ->
  let s' := mkR (splice (packet s) o out) pl' (queries s) in
  let info' := set_recursed (set_answers info (answers info + zlen rows)) in
  resolveA cache net srv jv jn q o packetLen info s =
    (match recursiveResolve net srv packetLen s' with
     | (Ok n, s'') => (Ok (n, info'), s'')
     | (Err e, s'') => (Err e, s'')
     end) /\
  (srv = 4294967295 -> resolveA cache net srv jv jn q o packetLen info s = (Ok (packetLen, info'), s')).
Proof.
  intros Hq Hc Hs Ho Hfit Hrd HA Ha Hb s' info'.
  assert (E : resolveA cache net srv jv jn q o packetLen info s =
    (match recursiveResolve net srv packetLen s' with
     | (Ok n, s'') => (Ok (n, info'), s'') | (Err e, s'') => (Err e, s'') end)).
  { unfold resolveA. zbool. unfold mbindS at 1, mlift at 1. rewrite Hc.
    unfold mbindS at 1. rewrite <- (app_nil_r rows) at 1.
    rewrite (resolveRows_section _ _ _ _ _ _ _ _ Hs)
      by (done || unfold HEADER_LEN, MAX_DNS_PACKET_LENGTH in *; lia).
    cbn [resolveRows]. unfold mok at 1. unfold mbindS at 1, mgets at 1, mbindS at 1, mlift at 1. cbn [packet].
    rewrite Hrd, HA. cbn [Z.add Z.leb Z.compare andb]. unfold mbindS at 1. reflexivity. }
  split; [exact E|]. intros ->. rewrite E. unfold recursiveResolve. cbn. reflexivity.
Qed.

Lemma resolveA_miss_witness :
  resolveA (fun _ => Ok []) (fun _ => Err (ThrowInt 10060)) 4294967295 (replicate 16 0) (replicate 256 0)
      hit_query 24 24 fresh_info (mkR hit_packet ∅ [hit_query]) =
    (Ok (24, set_recursed (set_answers fresh_info 0)), mkR (splice hit_packet 24 []) ∅ [hit_query]).
Proof.
  refine (proj2 (resolveA_miss (fun _ => Ok []) _ 4294967295 _ _ hit_query 24 24 fresh_info
    (mkR hit_packet ∅ [hit_query]) [] [] ∅ _ _ _ _ _ _ _ _ _) eq_refl); conc.
Defined.

(** The first two bytes of a packet are its id. *)
Lemma get16_id a b l : get16 (a :: b :: l) F_id = Ok (a + 256 * b).
Proof.
  unfold get16, sub. change (offset16 F_id) with 0.
  replace ((0 <=? 0) && (0 <=? 2) && (0 + 2 <=? zlen (a :: b :: l))) with true; [reflexivity|].
  symmetry. cbn. apply Z.leb_le. rewrite !zlen_cons. pose proof (zlen_nonneg l). lia.
Qed.

(** What forwarding comes to: the ids before and after the reply has been
    received over the packet are compared. *)
Lemma recursiveResolve_run net srv packetLen s request reply p0 p1 ps q0 q1 qs :
  srv <> 4294967295 -> sub (packet s) 0 packetLen = Ok request -> net request = Ok reply ->
  zlen reply <= MAX_DNS_PACKET_LENGTH <= zlen (packet s) ->
  packet s = p0 :: p1 :: ps -> splice (packet s) 0 reply = q0 :: q1 :: qs ->
  bytes (packet s) -> bytes reply ->
  recursiveResolve net srv packetLen s =
    (if bool_decide ([q0; q1] = [p0; p1]) then Ok (u64 (zlen reply - packetLen))
     else Err (Exception "Recursive response ID mismatch"), set_packet (splice (packet s) 0 reply) s).
Proof.
  intros Hsrv Hsub Hnet Hr Hp Hq Hbp Hbr. unfold recursiveResolve. rewrite (proj2 (Z.eqb_neq _ _) Hsrv).
  assert (Hbq : bytes (q0 :: q1 :: qs)).
  { rewrite <- Hq. unfold splice. repeat apply Forall_app_2; [by apply Forall_take|done|by apply Forall_drop]. }
  unfold mbindS, mgets, mlift, mmodify. rewrite Hp at 1. rewrite get16_id, Hsub, Hnet.
  rewrite take_ge by (unfold MAX_DNS_PACKET_LENGTH, zlen in *; lia). rewrite blit_ok by lia.
  rewrite (proj2 (Z.ltb_ge _ _)) by lia. rewrite Hq, get16_id. rewrite Hp in Hbp.
  repeat apply Forall_cons in Hbp as [? Hbp]. repeat apply Forall_cons in Hbq as [? Hbq].
  unfold is_byte in *. case_bool_decide as E.
  - injection E as -> ->. by rewrite Z.eqb_refl.
  - rewrite (proj2 (Z.eqb_neq _ _)); [reflexivity|]. intros E'. apply E. repeat f_equal; lia.
Qed.

(** C39: forwarding. A reply of at most 512 bytes, of any length, replaces the
    beginning of the packet. It is accepted exactly when it agrees with the
    id of the request on as many of the two id bytes as it has, and then the
    returned count is the difference of the two lengths modulo 2^64, so that
    adding it to the request's length gives the reply's. A reply of two bytes
    or more is thus accepted exactly when it carries the id; an empty reply is
    always accepted, since the id compared is the request's own. *)
Theorem recursiveResolve_reply net srv packetLen s request reply :
  srv <> 4294967295 -> sub (packet s) 0 packetLen = Ok request -> net request = Ok reply ->
  zlen reply <= MAX_DNS_PACKET_LENGTH <= zlen (packet s) ->
  bytes reply -> bytes (packet s) -> 0 <= packetLen ->
  let s' := set_packet (splice (packet s) 0 reply) s in
  (take 2 reply `prefix_of` packet s ->
     exists n, recursiveResolve net srv packetLen s = (Ok n, s') /\ u64 (packetLen + n) = zlen reply) /\
  (~ take 2 reply `prefix_of` packet s ->
     recursiveResolve net srv packetLen s = (Err (Exception "Recursive response ID mismatch"), s')).
Proof.
  intros Hsrv Hsub Hnet Hr Hbr Hbp Hpl s'.
  destruct (packet s) as [|p0 [|p1 ps]] eqn:Eps;
    [by change (zlen []) with 0 in Hr; unfold MAX_DNS_PACKET_LENGTH in Hr; lia
    |by change (zlen [p0]) with 1 in Hr; unfold MAX_DNS_PACKET_LENGTH in Hr; lia|].
  assert (Hq : exists q0 q1 qs, splice (p0 :: p1 :: ps) 0 reply = q0 :: q1 :: qs /\
    ([q0; q1] = [p0; p1] <-> take 2 reply `prefix_of` (p0 :: p1 :: ps))).
  { destruct reply as [|r0 [|r1 reply]]; (eexists _, _, _; split; [reflexivity|]).
    - split; [intros _; apply prefix_nil|done].
    - cbn [take]. split; [intros [= ->]; by exists (p1 :: ps)|]. intros [l E]. by injection E as -> _.
    - cbn [take]. split; [intros [= -> ->]; by exists ps|]. intros [l E]. by injection E as -> -> _. }
  destruct Hq as (q0 & q1 & qs & Hq & Hid).
  rewrite <- Eps in Hsub, Hr, Hbp, Hq.
  rewrite (recursiveResolve_run net srv packetLen s request reply p0 p1 ps q0 q1 qs) by done.
  unfold s'. rewrite Eps. split.
  - intros Hpre. rewrite bool_decide_eq_true_2 by (by apply Hid). eexists. split; [reflexivity|].
    unfold u64. rewrite Zplus_mod_idemp_r. pose proof (zlen_nonneg reply).
    unfold MAX_DNS_PACKET_LENGTH in Hr. rewrite Z.mod_small by lia. lia.
  - intros Hne. rewrite bool_decide_eq_false_2; [done|]. by rewrite Hid.
Qed.

Lemma recursiveResolve_reply_witness :
  let net := fun _ => Ok (5 :: 57 :: replicate 30 9) in
  let s := mkR hit_packet ∅ [] in
  exists n, recursiveResolve net 0x08080808 24 s = (Ok n, set_packet (splice hit_packet 0 (5 :: 57 :: replicate 30 9)) s) /\
    u64 (24 + n) = 32.
Proof.
  intros net s.
  refine (proj1 (recursiveResolve_reply net 0x08080808 24 s (take 24 hit_packet) (5 :: 57 :: replicate 30 9)
    _ _ _ _ _ _ _) _); conc.
Defined.

(** an empty datagram is accepted as the response to any request, although it
    carries no id. *)
Theorem recursiveResolve_empty_reply :
  exists n s', recursiveResolve (fun _ => Ok []) 0x08080808 24 (mkR hit_packet ∅ []) = (Ok n, s').
Proof. eexists _, _. vm_compute. reflexivity. Qed.

(** ** The client's view of the answer section *)

Import DNSResourceRecord.

(** The packet [m] spells the name [nm], uncompressed, at offset [p]. *)
Definition spelled (m : list Z) (nm : list Z) (p : Z) : Prop :=
  exists ls, nm = text ls /\ ls <> [] /\ Forall label_ok ls /\ Forall label_text ls /\
    zlen (wire ls) <= 256 /\ has_bytes m p (wire ls).

Definition locations_ok (m : list Z) (pl : gmap (list Z) Z) : Prop :=
  forall nm p, pl !! nm = Some p -> spelled m nm p.

(** Locations the project's own decoder can follow a pointer to: inside the
    packet, and with a low byte that [pointerOffset] reads back. *)
Definition locations_reachable (pl : gmap (list Z) Z) : Prop :=
  forall nm p, pl !! nm = Some p -> 0 <= p <= MAX_DNS_PACKET_LENGTH /\ p mod 256 < 128.

Lemma spelled_name fuel m nm p :
  spelled m nm p -> 0 <= p <= MAX_DNS_PACKET_LENGTH -> (256 < fuel)%nat ->
  name_spelled fuel m p nm true.
Proof.
  intros (ls & -> & Hne & Hok & Ht & Hw & Hm) Hp Hf.
  exists ls, (p + zlen (wire ls)), (S (length ls)), (zlen (wireLabels ls)). pose proof (labels_le_wire ls).
  repeat split; try done; try lia.
  - by apply spells_wire.
  - unfold zlen in Hw. lia.
  - apply strlen_ok; [done|by apply wireLabels_no_nul].
  - unfold wire in Hw. zl.
Qed.

(** The text of a row's record data is the string in its [VALUE] column. *)
Lemma rowData_value jv jn r d :
  rowData jv jn r = Ok (Some d) -> rdata_getValue d = cstr (r_value r).
Proof.
  intros H. unfold rowData, DNSRDataA.DNSRDataA, DNSRDataCNAME.DNSRDataCNAME, strcpy_s in H.
  assert (Hc : forall j, cstr (splice j 0 (cstr (r_value r) ++ [0])) = cstr (r_value r)).
  { intros j. unfold splice. cbn. rewrite <- app_assoc. apply cstr_app, cstr_no_nul. }
  destruct (r_type r =? TYPE_A).
  - destruct (zlen (cstr (r_value r)) + 1 <=? 16); [|done]. unfold blit in H.
    destruct ((0 <=? 0) && _); cbn [rbind] in H; [|done].
    destruct (DNSRDataA.parseOctets 4 (r_value r) 0); cbn [rbind] in H; [|done].
    injection H as <-. apply Hc.
  - destruct (r_type r =? TYPE_CNAME); [|done].
    destruct (zlen (cstr (r_value r)) + 1 <=? _); [|done]. unfold blit in H.
    destruct ((0 <=? 0) && _); cbn [rbind] in H; [|done]. injection H as <-. apply Hc.
Qed.

(** Encoding a row keeps the invariant: the new location spells the target. *)
Lemma row_locations_ok jv jn pl remLen r bs m ptr :
  locations_ok m pl -> row_bytes jv jn pl remLen r bs -> has_bytes m ptr bs -> ptr + zlen bs < 2 ^ 16 ->
  locations_ok m (row_locations r ptr (zlen bs) pl).
Proof.
  intros Hl [d nb rb Hd Hs Hn] Hm Hlt. unfold row_locations.
  destruct (Z.eqb_spec (r_type r) TYPE_CNAME) as [Ht|]; [|done].
  destruct (pl !! cstr (r_value r)) eqn:Epl; [done|]. cbn [andb].
  rewrite Ht in Hs. inversion Hs as [|n ls Hne Hok Htx Hw Hc]; subst.
  pose proof (rowData_value _ _ _ _ Hd) as Hv. cbn in Hv. unfold DNSRDataCNAME.getValueCNAME in Hv.
  cbn in Hv. rewrite Hc in Hv.
  rewrite app_assoc in Hm. pose proof (has_bytes_bound _ _ _ Hm) as Hb.
  apply has_bytes_app_2 in Hm. pose proof (has_bytes_bound _ _ _ Hm) as Hb2.
  intros nm p Hp. destruct (decide (nm = cstr (r_value r))) as [->|Hneq].
  2: { rewrite lookup_insert_ne in Hp by done. by apply Hl. }
  rewrite lookup_insert_eq in Hp. injection Hp as <-.
  exists ls. repeat split; try done. rewrite <- Hv.
  pose proof (zlen_text ls Hne). autorewrite with zlen in *.
  replace (u16 _) with (ptr + (zlen nb + zlen (fixed (row_info r) (zlen (wire ls))))); [done|].
  change (zlen (fixed (row_info r) (zlen (wire ls)))) with 10 in *.
  unfold u16. pose proof (zlen_nonneg nb). pose proof (zlen_nonneg (text ls)). rewrite Z.mod_small; lia.
Qed.

Lemma row_locations_sub r ptr n pl nm p :
  pl !! nm = Some p -> row_locations r ptr n pl !! nm = Some p.
Proof.
  intros H. unfold row_locations. destruct (r_type r =? TYPE_CNAME); [|done].
  destruct (pl !! cstr (r_value r)) eqn:E; cbn [andb]; [done|].
  rewrite lookup_insert_ne; [done|]. congruence.
Qed.

Lemma section_locations_sub jv jn pl ptr remLen rows out pl' nm p :
  section jv jn pl ptr remLen rows out pl' -> pl !! nm = Some p -> pl' !! nm = Some p.
Proof. induction 1; eauto using row_locations_sub. Qed.

(** Decoding [n] consecutive records, as [cacheResponse] and every client do. *)
Fixpoint decodeRecords (fuel : nat) (j : junk) (m : list Z) (ptr : Z) (n : nat) : res (list rr * Z) :=
  match n with
  | O => Ok ([], ptr)
  | S n' =>
      do (r, ptr) <- decodeRR fuel m ptr j;
      do (rs, ptr) <- decodeRecords fuel j m ptr n';
      Ok (r :: rs, ptr)
  end.

(** A decoded record carries a row's columns. *)
Definition carries (r : row) (x : rr) : Prop :=
  getName x = r_name r /\ getType x = r_type r /\ getClass x = r_class r /\
  ttl (info x) = u32 (r_ttl r) /\
  exists d, getRData x = Some d /\ rdata_getValue d = cstr (r_value r).

Lemma section_decodes jv jn pl ptr remLen rows out pl' :
  section jv jn pl ptr remLen rows out pl' ->
  forall m fuel j, locations_ok m pl -> locations_reachable pl' -> has_bytes m ptr out ->
  Forall (fun r => info_ok (row_info r)) rows -> ptr + zlen out <= MAX_DNS_PACKET_LENGTH ->
  junk_ok j -> (256 < fuel)%nat ->
  exists rs, decodeRecords fuel j m ptr (length rows) = Ok (rs, ptr + zlen out) /\
    Forall2 carries rows rs.
Proof.
  induction 1 as [pl ptr remLen|pl ptr remLen r rows bs out pl' Hr Hlt Hs IH];
    intros m fuel j Hl Hre Hm Hi Hmax Hj Hf.
  - exists []. cbn. rewrite Z.add_0_r. split; [done|constructor].
  - apply Forall_cons in Hi as [Hir Hi]. apply has_bytes_app in Hm as [Hm1 Hm2].
    pose proof (zlen_nonneg bs). pose proof (zlen_nonneg out). rewrite zlen_app in Hmax.
    assert (Hl' : locations_ok m (row_locations r ptr (zlen bs) pl)).
    { eapply row_locations_ok; try done. unfold MAX_DNS_PACKET_LENGTH in Hmax. lia. }
    destruct (IH m fuel j) as (rs & Hrs & Hcar); try done; [lia|].
    pose proof (fun nm p => section_locations_sub _ _ _ _ _ _ _ _ nm p Hs) as Hsub. destruct Hr as [d nb rb Hd Hsp Hnp].
    destruct (decodeRR_ok (r_name r) (row_info r) d pl nb rb remLen m ptr fuel j) as (d' & Hdec & Hv);
      try done; [lia| |].
    { intros p Hp. pose proof (row_locations_sub r ptr (zlen (nb ++ fixed (row_info r) (zlen rb) ++ rb)) _ _ _ Hp) as Hp1.
      apply Hsub in Hp1. apply Hre in Hp1 as [Hp2 Hp3]. split; [done|].
      apply spelled_name; [by apply Hl|done|done]. }
    eexists. cbn [length decodeRecords]. rewrite Hdec. cbn [rbind].
    autorewrite with zlen in *. change (zlen (fixed (row_info r) (zlen rb))) with 10 in *.
    replace (ptr + (zlen nb + 10 + zlen rb)) with (ptr + (zlen nb + (10 + zlen rb))) by lia.
    rewrite Hrs. cbn [rbind]. rewrite <- Z.add_assoc. split; [reflexivity|].
    constructor; [|done]. repeat split; try done. exists d'. split; [done|].
    rewrite Hv. by eapply rowData_value.
Qed.

(** A resource record as RFC 1035 (4.1.3) reads it at offset [o]: the owner name,
    with compression, then type, class, ttl and the length of the data, then
    the data: four octets for an address, a name for a CNAME. The record ends
    before [e]. *)
Definition record_at (m : list Z) (o : Z) (nm : list Z) (ty cl tl : Z) (value : list Z) (e : Z) : Prop :=
  exists ls e1 k low n, spells m m o ls e1 k low /\ nm = text ls /\
    has_bytes m e1 (be16 ty ++ be16 cl ++ be32 tl ++ be16 n) /\ e = e1 + 10 + n /\
    ((ty = TYPE_A /\ n = 4 /\ exists a, zlen a = 4 /\ has_bytes m (e1 + 10) a /\ value = DNSRDataA.quad a) \/
     (ty = TYPE_CNAME /\ exists ls' k' low', spells m m (e1 + 10) ls' e k' low' /\ value = text ls')).

(** Consecutive records that carry the columns of the rows. *)
Inductive records_at (m : list Z) : Z -> list row -> Z -> Prop :=
  | records_nil o : records_at m o [] o
  | records_cons o r rows e e' :
      record_at m o (r_name r) (r_type r) (r_class r) (u32 (r_ttl r)) (cstr (r_value r)) e ->
      records_at m e rows e' -> records_at m o (r :: rows) e'.

(** The owner name [encode] writes reads as the name, whichever form it has. *)
Lemma name_part_spells pl nm n nb m o :
  name_part pl nm n nb -> locations_ok m pl -> has_bytes m o nb ->
  exists ls k low, spells m m o ls (o + zlen nb) k low /\ nm = text ls.
Proof.
  intros [p Hp Hr Hb | ls Hp -> Hne Hok Ht Hw Hb] Hl Hm.
  - destruct (Hl nm p Hp) as (ls & -> & Hne & Hok & _ & _ & Hw).
    destruct (pointer_bytes p Hr) as (b0 & b1 & Heq & _ & Hb0 & Hb1 & Hpo & _). rewrite Heq in *.
    exists ls. eexists _, _. split; [|done]. change (zlen [b0; b1]) with 2. eapply spells_pointer; [done| |done|].
    + subst b1. unfold is_byte. apply Z.mod_pos_bound. lia.
    + rewrite Hpo. by apply spells_wire.
  - exists ls. eexists _, _. split; [by apply spells_wire|done].
Qed.

Lemma row_bytes_read jv jn pl remLen r bs m o :
  row_bytes jv jn pl remLen r bs -> locations_ok m pl -> has_bytes m o bs ->
  record_at m o (r_name r) (r_type r) (r_class r) (u32 (r_ttl r)) (cstr (r_value r)) (o + zlen bs).
Proof.
  intros [d nb rb Hd Hs Hn] Hl Hm. apply has_bytes_app in Hm as [Hm1 Hm]. apply has_bytes_app in Hm as [Hm2 Hm3].
  destruct (name_part_spells _ _ _ _ _ _ Hn Hl Hm1) as (ls & k & low & Hsp & Hnm).
  change (zlen (fixed (row_info r) (zlen rb))) with 10 in Hm3.
  pose proof (rowData_value _ _ _ _ Hd) as Hv.
  exists ls, (o + zlen nb), k, low, (zlen rb). split; [done|]. split; [done|]. split; [exact Hm2|].
  rewrite !zlen_app. change (zlen (fixed (row_info r) (zlen rb))) with 10. split; [lia|].
  inversion Hs as [a v Ha Hba Hq Hty|n ls' Hne Hok Ht Hw Hc Hty]; subst d.
  - left. split; [done|]. split; [done|]. exists rb. subst. split; [done|]. split; [done|].
    rewrite <- Hv. cbn. done.
  - right. split; [done|]. exists ls'. eexists _, _. split; [|rewrite <- Hv; cbn; done]. subst rb.
    replace (o + (zlen nb + (10 + zlen (wire ls')))) with (o + zlen nb + 10 + zlen (wire ls')) by lia.
    by apply spells_wire.
Qed.

Lemma section_reads jv jn pl ptr remLen rows out pl' :
  section jv jn pl ptr remLen rows out pl' ->
  forall m, locations_ok m pl -> has_bytes m ptr out -> ptr + zlen out <= MAX_DNS_PACKET_LENGTH ->
  records_at m ptr rows (ptr + zlen out).
Proof.
  induction 1 as [pl ptr remLen|pl ptr remLen r rows bs out pl' Hr Hlt Hs IH]; intros m Hl Hm Hmax.
  - change (zlen []) with 0. rewrite Z.add_0_r. constructor.
  - apply has_bytes_app in Hm as [Hm1 Hm2]. rewrite zlen_app in *. pose proof (zlen_nonneg out).
    eapply records_cons; [by eapply row_bytes_read|]. rewrite Z.add_assoc. apply IH; [|done|lia].
    eapply row_locations_ok; try done. unfold MAX_DNS_PACKET_LENGTH in Hmax. lia.
Qed.

(** C2: what [resolveA] writes is what a client reads. If every location known
    before the call spells its name in the packet before the response position,
    the answer section of a database hit, read by RFC 1035 with its compression
    pointers, is the rows of the database, in order: name, type, class, ttl and
    value, and it ends exactly where the section ends. The project's own decoder
    reads it back too provided every known location has a low byte below
    128, the pointers its sign-extended offsets can follow. *)
Theorem resolveA_answers_decode cache net srv jv jn q o packetLen info s rows out pl' rd fuel j :
  zlen (DNSQuery.getQname q) < MAX_DNS_NAME_LENGTH -> cache (DNSQuery.getQname q) = Ok rows ->
  section jv jn (pointerLocations s) o (MAX_DNS_PACKET_LENGTH - HEADER_LEN) rows out pl' ->
  HEADER_LEN <= o -> o + zlen out <= MAX_DNS_PACKET_LENGTH -> MAX_DNS_PACKET_LENGTH <= zlen (packet s) ->
  get_flag (splice (packet s) o out) F_rd = Ok rd -> (0 < count_A rows \/ rd = false) ->
  0 <= answers info -> answers info + zlen rows < 2 ^ 16 ->
  locations_ok (take (Z.to_nat o) (packet s)) (pointerLocations s) ->
  Forall (fun r => info_ok (row_info r)) rows -> junk_ok j -> (256 < fuel)%nat ->
  exists s', resolveA cache net srv jv jn q o packetLen info s =
      (Ok (zlen out, set_answers info (answers info + zlen rows)), s') /\
    records_at (packet s') o rows (o + zlen out) /\
    (locations_reachable pl' -> exists rs,
       decodeRecords fuel j (packet s') o (length rows) = Ok (rs, o + zlen out) /\ Forall2 carries rows rs).
Proof.
  intros Hq Hc Hs Ho Hout Hp Hrd Hhit Ha Hb Hl Hi Hj Hf.
  assert (Hl' : locations_ok (splice (packet s) o out) (pointerLocations s)).
  { intros nm p H. destruct (Hl nm p H) as (ls & ? & ? & ? & ? & ? & Hm).
    exists ls. repeat split; try done. unfold splice. by apply has_bytes_extend. }
  assert (Hm : has_bytes (splice (packet s) o out) o out)
    by (apply has_bytes_splice; unfold HEADER_LEN, MAX_DNS_PACKET_LENGTH in *; lia).
  eexists. split; [apply (resolveA_section _ _ _ _ _ _ _ _ _ _ _ _ pl' rd); try done; lia|].
  cbn [packet]. split; [by eapply section_reads|]. intros Hre. by eapply section_decodes.
Qed.

Lemma resolveA_answers_decode_witness :
  exists s', resolveA (fun _ => Ok [hit_row]) (fun _ => Err (ThrowInt 10060)) 0x08080808 (replicate 16 0)
      (replicate 256 0) hit_query 24 24 fresh_info (mkR hit_packet {[ str "www.ms" := 12 ]} [hit_query]) =
      (Ok (16, set_answers fresh_info 1), s') /\
    records_at (packet s') 24 [hit_row] 40 /\
    (locations_reachable {[ str "www.ms" := 12 ]} -> exists rs,
       decodeRecords 300 zero_junk (packet s') 24 1 = Ok (rs, 40) /\ Forall2 carries [hit_row] rs).
Proof.
  refine (resolveA_answers_decode _ _ _ _ _ hit_query 24 24 fresh_info
    (mkR hit_packet {[ str "www.ms" := 12 ]} [hit_query]) [hit_row] _ _ true 300 zero_junk
    _ _ hit_section _ _ _ _ _ _ _ _ _ _ _);
    [conc|reflexivity|conc|conc|conc|reflexivity|left; conc|conc|conc| | |repeat split; reflexivity|lia].
  - intros nm p H. cbn [pointerLocations] in H. apply lookup_singleton_Some in H as [<- <-]. exists [str "www"; str "ms"].
    split; [reflexivity|]. split; [done|]. split; [labels_conc|]. split; [labels_conc|]. split; [conc|].
    by exists (take 12 hit_packet), (take 4 (drop 20 hit_packet)).
  - apply Forall_cons. split; [repeat split; conc|by apply Forall_nil].
Defined.

(** ** The cache after a forwarded response *)

(** What the resolver relies on of the database's string comparison: a string
    equals itself, whether or not the collation folds case. *)
Class Collation (eqs : list Z -> list Z -> bool) : Prop := { collation_refl : forall a, eqs a a = true }.

Definition bytes_eq (a b : list Z) : bool := bool_decide (a = b).

#[global] Instance bytes_eq_collation : Collation bytes_eq.
Proof. constructor. intros a. by apply bool_decide_eq_true_2. Qed.

(** A collation that folds case, the default of the database the SQL dialect of
    the statements belongs to. *)
Definition ascii_lower (c : Z) : Z := if (65 <=? c) && (c <=? 90) then c + 32 else c.
Definition nocase_eq (a b : list Z) : bool := bytes_eq (map ascii_lower a) (map ascii_lower b).

#[global] Instance nocase_eq_collation : Collation nocase_eq.
Proof. constructor. intros a. exact (collation_refl (eqs := bytes_eq) _). Qed.

Section CacheSpec.

Context (eqs : list Z -> list Z -> bool) `{!Collation eqs} (clock : nat -> Z).
Hypothesis clock_mono : forall i k, (i <= k)%nat -> clock i <= clock k.

(** The database executes both statements without error. *)
Definition exec_ok (st : statement) (d : db) : res db := Ok (run_statement eqs clock st d).













End CacheSpec.


Definition hit_answer : list Z :=
  splice hit_packet 24 [0xC0; 12; 0; 1; 0; 1; 0; 0; 1; 44; 0; 4; 23; 11; 60; 133].


(** a row that expires at the very moment of the test, after the DELETE has
    kept it, suppresses the insertion (the test asks for [EXPIRES >= NOW], the
    lookup for [EXPIRES > NOW]): the record of the response, with 300 seconds
    to live, has no row that a lookup would serve when the call returns. *)
Theorem cacheResponse_suppressed :
  let clock := fun i : nat => if (i =? 0)%nat then 1000 else 1005 in
  let old := mkRecord (str "www.ms") (str "23.11.60.133") 1005 TYPE_A 1 in
  (forall i k, (i <= k)%nat -> clock i <= clock k) /\
  exists d', cacheResponse (exec_ok bytes_eq clock) 300 zero_junk 24 hit_answer 1 (mkDB [old] 0) = (Ok tt, d') /\
    forall r, In r (table d') -> EXPIRES r <= clock (readings d').
Proof.
  intros clock old. split.
  - intros i k Hik. unfold clock. destruct (Nat.eqb_spec i 0), (Nat.eqb_spec k 0); lia.
  - exists (mkDB [old] 2). split; [vm_compute; reflexivity|]. intros r [<-|[]]. vm_compute. congruence.
Qed.
