(* ===== verification/DnsServer.v ===== *)
(** * The server: [DNSServer] (src/ODBCDNS/DNSServer.cpp, DNSServer.h)

    [Worker] models one turn of [serviceRequests]: a request packet in, the
    datagram sent back and the worker's locals out. [Queue] models the request
    queue, its semaphore and the quit event shared by the receiving thread and
    the workers, as a step relation. [Teardown] models the wait loop of the
    destructor. *)

From S2P Require Import Prelude DnsName DnsRecord DnsMessage DnsResolver.
Import DNSHeader.

Module Worker.

(** The locals of [serviceRequests] that survive a turn of its loop; the two
    byte counts are [None] until they are first assigned. *)
Record worker := mkWorker {
  w_packet : option (list Z);     (* request.packet, NULL at first *)
  w_error : bool;
  w_info : ResponseInfo;
  w_queryBytes : option Z;
  w_totalBytes : option Z
}.

Definition start : worker := mkWorker None false fresh_info None None.

(** [run()]: the packet object for a received datagram: [malloc] of twice the
    maximal length, with the datagram copied to its front. *)
Definition receive (junk dgram : list Z) : res (list Z) :=
  memcpy_s junk 0 MAX_DNS_PACKET_LENGTH dgram.

(** Errors the catch clauses take; the others end the process. *)
Definition catchable (e : err) : bool :=
  match e with Exception _ | ThrowInt _ => true | _ => false end.

Section Serve.

Variable cache : list Z -> res (list row).
Variable net : list Z -> res (list Z).
Variable recursiveServer : Z.
Variable stack : list Z.
Variable junkValue junkName : list Z.
Variable fuel : nat.
(** The values found in [totalBytes] and in [ResponseInfo::length] when they
    are read without having been assigned. *)
Variable indetTotal indetLength : Z.

(** The first inner [try]: extract the questions. The result is the resolver's
    state, the two counts and the error flag. *)
Definition extractStep (w : worker) (p : list Z) : res (rstate * option Z * option Z * bool) :=
  match extractQueries stack junkName fuel (mkR p ∅ []) with
  | (Ok n, s) => Ok (s, Some n, Some n, false)
  | (Err e, s) =>
      if catchable e then
        do p <- put_rcode (packet s) RCODE_FORMAT_ERROR;
        Ok (set_packet p s, w_queryBytes w, w_totalBytes w, true)
      else Err e
  end.

(** The flags set when no recursion occurred. *)
Definition setResponseFlags (p : list Z) (i : ResponseInfo) : res (list Z) :=
  do p <- put_flag p F_qr true;
  do p <- put_flag p F_ra (negb (recursiveServer =? 4294967295));
  do p <- put16 p F_ancount (htons (answers i));
  do p <- put16 p F_nscount (htons (authAnswers i));
  do p <- put16 p F_arcount (htons (otherAnswers i));
  put_rcode p (rcode i).

(** The second inner [try]: resolve and complete the header. *)
Definition resolveStep (w : worker) (s : rstate) (totalBytes : option Z) (error : bool)
    : res (list Z * ResponseInfo * Z * bool) :=
  let total := default indetTotal totalBytes in
  match resolve cache net recursiveServer junkValue junkName
          (HEADER_LEN + total) (u64 (HEADER_LEN + total)) s with
  | (Ok i, s) =>
      do p <- (if truncationOccurred i then put_flag (packet s) F_tc true else Ok (packet s));
      let total := u64 (total + default indetLength (resp_length i)) in
      do p <- (if recursionOccurred i then Ok p else setResponseFlags p i);
      Ok (p, i, total, error)
  | (Err e, s) =>
      if catchable e then
        do p <- put_rcode (packet s) RCODE_SERVER_FAILURE;
        Ok (p, w_info w, total, true)
      else Err e
  end.

(** A request from the queue to the datagram handed to [sendto]. A failed send
    and a rethrown error both leave the error flag set. *)
Definition serveRequest (w : worker) (sendOk : bool) (p : list Z) : res (list Z * worker) :=
  do (s, queryBytes, totalBytes, error) <- extractStep w p;
  do (p, i, total, error) <- resolveStep w s totalBytes error;
  do dgram <- sub p 0 (Z.min (u64 (HEADER_LEN + total)) MAX_DNS_PACKET_LENGTH);
  Ok (dgram, mkWorker (Some p) (error || negb sendOk) i queryBytes (Some total)).

Context {DB : Type}.
Variable exec : statement -> DB -> res DB.
Variable j : DNSResourceRecord.junk.

(** The head of the loop: cache the previous packet if recursion happened and
    nothing went wrong, then release it. An exception skips the rest of the
    turn with the error flag set. *)
Definition cacheStep (w : worker) (t : DB) : res (worker * DB) :=
  match w_packet w with
  | Some p =>
      if negb (w_error w) && recursionOccurred (w_info w) then
        do ancount <- get16 p F_ancount;
        do queryBytes <- of_option Uninitialised (w_queryBytes w);
        match cacheResponse exec fuel j (HEADER_LEN + queryBytes) p (htons ancount) t with
        | (Ok _, t) => Ok (mkWorker None false (w_info w) (w_queryBytes w) (w_totalBytes w), t)
        | (Err e, t) =>
            if catchable e then Ok (mkWorker (Some p) true (w_info w) (w_queryBytes w) (w_totalBytes w), t)
            else Err e
        end
      else Ok (mkWorker None false (w_info w) (w_queryBytes w) (w_totalBytes w), t)
  | None => Ok (mkWorker None false (w_info w) (w_queryBytes w) (w_totalBytes w), t)
  end.

End Serve.

Import DNSUtil.

(** ** Answering from the database, end to end *)

(** The header completed for a response without recursion. *)
Lemma setResponseFlags_pkt srv rest h0 h1 h2 h3 h4 h5 h6 h7 h8 h9 h10 h11 i :
  exists a2 a3, setResponseFlags srv (pkt rest h0 h1 h2 h3 h4 h5 h6 h7 h8 h9 h10 h11) i =
    Ok (pkt rest h0 h1 a2 a3 h4 h5 (answers i / 256 mod 256) (answers i mod 256)
          (authAnswers i / 256 mod 256) (authAnswers i mod 256)
          (otherAnswers i / 256 mod 256) (otherAnswers i mod 256)) /\
    Z.testbit a2 7 = true /\ (0 <= rcode i < 16 -> Z.land a3 0x0F = rcode i).
Proof.
  assert (Hlo : forall z, htons z mod 256 = z / 256 mod 256 /\ htons z / 256 mod 256 = z mod 256).
  { intros z. pose proof (le16_htons z) as H. unfold le16, be16 in H. injection H as H1 H2. done. }
  unfold setResponseFlags. eexists _, _. split.
  - rewrite put_flag_pkt. cbn [rbind]. rewrite put_flag_pkt. cbn [rbind].
    rewrite put16_pkt. cbn [rbind]. rewrite put16_pkt. cbn [rbind]. rewrite put16_pkt. cbn [rbind].
    rewrite put_rcode_pkt. cbv zeta.
    rewrite !(proj1 (Hlo _)), !(proj2 (Hlo _)). reflexivity.
  - cbn [flag_bit]. split; [apply testbit_set_u8; lia|apply rcode_stored].
Qed.

(** What is sent of a packet: its header and the first bytes after it. *)
Lemma sub_pkt rest h0 h1 h2 h3 h4 h5 h6 h7 h8 h9 h10 h11 n :
  0 <= n <= zlen rest ->
  sub (pkt rest h0 h1 h2 h3 h4 h5 h6 h7 h8 h9 h10 h11) 0 (HEADER_LEN + n) =
  Ok (pkt (take (Z.to_nat n) rest) h0 h1 h2 h3 h4 h5 h6 h7 h8 h9 h10 h11).
Proof.
  intros Hn. unfold sub. replace ((0 <=? 0) && _ && _) with true.
  2: { symmetry. rewrite !andb_true_iff, !Z.leb_le. unfold pkt, HEADER_LEN. autorewrite with zlen. lia. }
  change (Z.to_nat 0) with O. rewrite drop_0, take_pkt by (unfold HEADER_LEN; lia).
  by replace (HEADER_LEN + n - HEADER_LEN) with n by lia.
Qed.

(** The bytes after the header once [out] has been put after [b]. *)
Lemma take_splice_pkt rest h0 h1 h2 h3 h4 h5 h6 h7 h8 h9 h10 h11 b out :
  has_bytes (pkt rest h0 h1 h2 h3 h4 h5 h6 h7 h8 h9 h10 h11) HEADER_LEN b ->
  take (Z.to_nat (zlen b + zlen out)) (splice rest (zlen b) out) = (b ++ out)%list.
Proof.
  intros (pre & post & Epp & Hpre). unfold HEADER_LEN in Hpre.
  do 12 (destruct pre as [|? pre]; [unfold zlen in Hpre; cbn in Hpre; lia|]).
  destruct pre; [|autorewrite with zlen in Hpre; pose proof (zlen_nonneg pre); lia].
  unfold pkt in Epp. cbn in Epp. injection Epp as _ _ _ _ _ _ _ _ _ _ _ _ ->.
  unfold splice. rewrite to_nat_zlen, take_app_length.
  rewrite app_assoc, take_app_ge by (rewrite length_app; unfold zlen; lia).
  rewrite (proj2 (Nat.sub_0_le _ _)) by (rewrite length_app; unfold zlen; lia). by rewrite app_nil_r.
Qed.

Section Hit.

Context (cache : list Z -> res (list row)) (net : list Z -> res (list Z)) (srv : Z).
Context (stack jv jn : list Z) (fuel : nat) (g1 g2 : Z) (w : wquestion) (w0 : worker).
Context (rows : list row) (out : list Z) (pl' : gmap (list Z) Z).

(** A packet with one plain question: the question is extracted. *)
Lemma extractStep_one p :
  wq_ok w -> zlen jn = 256 -> (256 <= fuel)%nat -> zlen p = 1024 ->
  has_bytes p 4 (be16 1) -> has_bytes p HEADER_LEN (wq_bytes w) ->
  HEADER_LEN + zlen (wq_bytes w) <= MAX_DNS_PACKET_LENGTH ->
  exists q, DNSQuery.getQname q = text (wq_labels w) /\ DNSQuery.getQtype q = u16 (schar (wq_tl w)) /\
    extractStep stack jn fuel w0 p =
    Ok (mkR p {[ text (wq_labels w) := HEADER_LEN ]} [q],
        Some (zlen (wq_bytes w)), Some (zlen (wq_bytes w)), false).
Proof.
  intros Hok Hj Hf Hp Hqd Hq Hfit. unfold HEADER_LEN, MAX_DNS_PACKET_LENGTH in *.
  destruct (extractQueries_run stack jn fuel [w] (mkR p ∅ [])) as (qs & Hps & Hex); try done.
  { apply Forall_cons. split; [done|by apply Forall_nil]. }
  { cbn. by rewrite app_nil_r. }
  { cbn [packet]. lia. }
  cbn [map concat] in Hex. rewrite app_nil_r in Hex.
  apply Forall2_cons_inv_l in Hps as (q & qs' & (Hn & Hlen & Hty & _) & Hps & ->).
  apply Forall2_nil_inv_l in Hps as ->. cbn [packet pointerLocations] in Hex.
  unfold question_locations in Hex. cbn [foldl] in Hex. unfold HEADER_LEN in Hex.
  exists q. split; [done|]. split; [done|]. unfold extractStep. by rewrite Hex.
Qed.

(** Its type is A and the database answers: the rows' records follow it. *)
Lemma resolveStep_one q rest h0 h1 h2 h3 h4 h5 h6 h7 h8 h9 h10 h11 :
  let p := pkt rest h0 h1 h2 h3 h4 h5 h6 h7 h8 h9 h10 h11 in
  let qlen := zlen (wq_bytes w) in
  zlen p = 1024 -> DNSQuery.getQname q = text (wq_labels w) -> DNSQuery.getQtype q = TYPE_A ->
  zlen (text (wq_labels w)) < MAX_DNS_NAME_LENGTH -> cache (text (wq_labels w)) = Ok rows ->
  section jv jn {[ text (wq_labels w) := HEADER_LEN ]} (HEADER_LEN + qlen)
    (MAX_DNS_PACKET_LENGTH - HEADER_LEN) rows out pl' ->
  0 < count_A rows -> zlen rows < 2 ^ 16 -> HEADER_LEN + qlen + zlen out <= MAX_DNS_PACKET_LENGTH ->
  exists i a2 a3,
    resolveStep cache net srv jv jn g1 g2 w0 (mkR p {[ text (wq_labels w) := HEADER_LEN ]} [q])
      (Some qlen) false =
    Ok (pkt (splice rest qlen out) h0 h1 a2 a3 h4 h5 (zlen rows / 256 mod 256) (zlen rows mod 256) 0 0 0 0,
        i, qlen + zlen out, false) /\
    Z.testbit a2 7 = true /\ Z.land a3 0x0F = 0.
Proof.
  intros p qlen Hp Hn Hty Hnl Hc Hs HA Hrows Hfit.
  pose proof (zlen_nonneg out). pose proof (zlen_nonneg (wq_bytes w)). pose proof (zlen_nonneg rows).
  unfold HEADER_LEN, MAX_DNS_PACKET_LENGTH in *.
  unfold resolveStep, resolve, HEADER_LEN. cbn [default]. unfold id.
  unfold mbindS at 1, mgets at 1. cbn [queries resolveQueries]. rewrite Hty, Z.eqb_refl. unfold mbindS at 1.
  assert (Hsp : splice p (12 + qlen) out = pkt (splice rest qlen out) h0 h1 h2 h3 h4 h5 h6 h7 h8 h9 h10 h11).
  { unfold p. rewrite splice_pkt by (unfold HEADER_LEN; lia). unfold HEADER_LEN.
    by replace (12 + qlen - 12) with qlen by lia. }
  rewrite (resolveA_section cache net srv jv jn q (12 + qlen) (u64 (12 + qlen)) fresh_info
    (mkR p {[text (wq_labels w):=12]} [q]) rows out pl' (Z.testbit h2 0)); unfold HEADER_LEN, MAX_DNS_PACKET_LENGTH;
    rewrite ?Hn; try (done || lia); cbn [packet pointerLocations answers fresh_info]; try (done || lia).
  2: { rewrite Hsp, get_flag_pkt. reflexivity. }
  unfold mok. cbn [truncationOccurred set_length set_answers fresh_info rbind recursionOccurred resp_length default packet].
  rewrite Hsp. set (i := set_length _ _).
  destruct (setResponseFlags_pkt srv (splice rest qlen out) h0 h1 h2 h3 h4 h5 h6 h7 h8 h9 h10 h11 i)
    as (a2 & a3 & -> & Ha2 & Ha3). exists i, a2, a3. split; [|split; [done|by apply Ha3]].
  unfold i in *. cbn [rbind answers authAnswers otherAnswers set_length set_answers fresh_info].
  change (0 + zlen rows) with (zlen rows). assert (0 <= qlen) by (unfold qlen; lia). unfold u64. by rewrite (Z.mod_small (qlen + zlen out)) by lia.
Qed.

(** C1: the whole path of a request. For a packet with one plain question of
    type A whose name the database answers, the datagram sent back carries the
    request's id and question, the QR bit, response code 0, the number of rows
    as answer count, and exactly the rows' records after the question; the
    worker is left without error. *)
Theorem serveRequest_hit p :
  let qlen := zlen (wq_bytes w) in
  wq_ok w -> wq_tl w = 1 -> zlen jn = 256 -> (256 <= fuel)%nat -> zlen p = 1024 ->
  has_bytes p 4 (be16 1) -> has_bytes p HEADER_LEN (wq_bytes w) ->
  zlen (text (wq_labels w)) < MAX_DNS_NAME_LENGTH -> cache (text (wq_labels w)) = Ok rows ->
  section jv jn {[ text (wq_labels w) := HEADER_LEN ]} (HEADER_LEN + qlen)
    (MAX_DNS_PACKET_LENGTH - HEADER_LEN) rows out pl' ->
  0 < count_A rows -> zlen rows < 2 ^ 16 -> HEADER_LEN + qlen + zlen out <= MAX_DNS_PACKET_LENGTH ->
  exists dgram w', serveRequest cache net srv stack jv jn fuel g1 g2 w0 true p = Ok (dgram, w') /\
    w_error w' = false /\ zlen dgram = HEADER_LEN + qlen + zlen out /\
    drop 12 dgram = (wq_bytes w ++ out)%list /\
    get16 dgram F_id = get16 p F_id /\ get_flag dgram F_qr = Ok true /\
    get_rcode dgram = Ok RCODE_NO_ERROR /\ get16 dgram F_ancount = Ok (htons (zlen rows)).
Proof.
  intros qlen Hok Htl Hj Hf Hp Hqd Hq Hnl Hc Hs HA Hrows Hfit.
  pose proof (zlen_nonneg out). pose proof (zlen_nonneg (wq_bytes w)) as Hql. fold qlen in Hql.
  destruct (extractStep_one p Hok Hj Hf Hp Hqd Hq) as (q & Hn & Hty & Hex); [unfold qlen in Hfit; lia|].
  rewrite Htl in Hty. unfold HEADER_LEN, MAX_DNS_PACKET_LENGTH in Hfit.
  destruct (header_split p) as (h0 & h1 & h2 & h3 & h4 & h5 & h6 & h7 & h8 & h9 & h10 & h11 & rest & Ep);
    [unfold HEADER_LEN; lia|].
  fold (pkt rest h0 h1 h2 h3 h4 h5 h6 h7 h8 h9 h10 h11) in Ep. subst p.
  assert (Hrest : zlen rest = 1012) by (unfold pkt in Hp; autorewrite with zlen in Hp; lia).
  destruct (resolveStep_one q rest h0 h1 h2 h3 h4 h5 h6 h7 h8 h9 h10 h11) as (i & a2 & a3 & Hr & Ha2 & Ha3); try done.
  unfold serveRequest. rewrite Hex. cbn [rbind]. fold qlen in Hr |- *. rewrite Hr. cbn [rbind].
  rewrite Z.min_l by (unfold u64, HEADER_LEN, MAX_DNS_PACKET_LENGTH; rewrite Z.mod_small; lia).
  unfold u64. rewrite (Z.mod_small (HEADER_LEN + (qlen + zlen out))) by (unfold HEADER_LEN; lia).
  rewrite sub_pkt by (rewrite zlen_splice; lia). unfold qlen. rewrite (take_splice_pkt _ _ _ _ _ _ _ _ _ _ _ _ _ _ _ Hq).
  cbn [rbind]. eexists _, _. split; [reflexivity|]. cbn [w_error orb negb].
  split; [done|]. split; [unfold pkt, HEADER_LEN; autorewrite with zlen; lia|]. split; [done|].
  rewrite !get16_pkt, get_flag_pkt, get_rcode_pkt. cbn [flag_bit]. rewrite Ha2, Ha3. done.
Qed.

End Hit.

Lemma serveRequest_hit_witness :
  let w := mkWQ [str "www"; str "ms"] 0 1 0 1 in
  exists dgram w',
    serveRequest (fun _ => Ok [hit_row]) (fun _ => Err (ThrowInt 10060)) 0x08080808 [] (replicate 16 0)
      (replicate 256 0) 300 0 0 start true hit_packet = Ok (dgram, w') /\
    w_error w' = false /\ zlen dgram = 40 /\
    drop 12 dgram = (wq_bytes w ++ [0xC0; 12; 0; 1; 0; 1; 0; 0; 1; 44; 0; 4; 23; 11; 60; 133])%list /\
    get16 dgram F_id = get16 hit_packet F_id /\ get_flag dgram F_qr = Ok true /\
    get_rcode dgram = Ok RCODE_NO_ERROR /\ get16 dgram F_ancount = Ok (htons 1).
Proof.
  intros w.
  refine (serveRequest_hit (fun _ => Ok [hit_row]) (fun _ => Err (ThrowInt 10060)) 0x08080808 [] (replicate 16 0)
    (replicate 256 0) 300 0 0 w start [hit_row] _ {[ str "www.ms" := 12 ]} hit_packet
    _ _ _ _ _ _ _ _ _ hit_section _ _ _).
  - unfold wq_ok, w. cbn [wq_labels]. split; [done|]. split; [labels_conc|]. split; [labels_conc|]. apply Z.leb_le. reflexivity.
  - reflexivity.
  - reflexivity.
  - apply Nat.leb_le. reflexivity.
  - reflexivity.
  - by exists (take 4 hit_packet), (drop 6 hit_packet).
  - by exists (take 12 hit_packet), (drop 24 hit_packet).
  - reflexivity.
  - reflexivity.
  - reflexivity.
  - reflexivity.
  - apply Z.leb_le. reflexivity.
Defined.

(** ** A malformed question *)

(** The error of a first question with an overlong name: nothing is extracted. *)
Lemma extractQueries_overlong stack jn fuel p qd b0 n :
  get16 p F_qdcount = Ok qd -> 0 < htons qd -> rd p HEADER_LEN = Ok b0 -> isPointer b0 = false -> strlen p HEADER_LEN = Ok n -> 255 < n ->
  extractQueries stack jn fuel (mkR p ∅ []) =
    (Err (Exception "QNAME length longer than maximum of 255"), mkR p ∅ []).
Proof.
  intros Hqd Hpos Hb0 Hnp Hlen Hn. unfold extractQueries, mbindS, mgets, mlift. cbn [packet]. rewrite Hqd.
  destruct (Z.to_nat (htons qd)) as [|k] eqn:E; [lia|]. cbn [extractLoop]. unfold mbindS, mgets, mlift.
  cbn [packet]. unfold DNSQuery.DNSQuery, decodeName. rewrite Hb0. cbn [rbind]. rewrite Hnp. cbn [rbind]. rewrite Hlen. cbn [rbind]. by zbool.
Qed.

(** a format error is not reported to the client. When the first question
    of a request is malformed (its name runs over 255 bytes), the worker puts
    FORMAT_ERROR in the header, but then resolves the empty list of questions
    and completes the header all the same: whatever the unassigned byte counts
    hold, the packet leaves with response code 0, the QR bit set and no
    answers, while the worker records the error. *)
Theorem format_error_overwritten cache net srv stack jv jn fuel g1 g2 w0 sent p qd b0 n :
  zlen p = 1024 -> get16 p F_qdcount = Ok qd -> 0 < htons qd ->
  rd p HEADER_LEN = Ok b0 -> isPointer b0 = false ->
   strlen p HEADER_LEN = Ok n -> 255 < n ->
  exists dgram w' p', serveRequest cache net srv stack jv jn fuel g1 g2 w0 sent p = Ok (dgram, w') /\
    w_error w' = true /\ w_packet w' = Some p' /\
    get_rcode p' = Ok RCODE_NO_ERROR /\ get_flag p' F_qr = Ok true /\ get16 p' F_ancount = Ok 0.
Proof.
  intros Hp Hqd Hpos Hb0 Hnp Hlen Hn.
  pose proof (extractQueries_overlong stack jn fuel p qd b0 n Hqd Hpos Hb0 Hnp Hlen Hn) as Hex.
  destruct (header_split p) as (h0 & h1 & h2 & h3 & h4 & h5 & h6 & h7 & h8 & h9 & h10 & h11 & rest & Ep);
    [unfold HEADER_LEN; lia|].
  fold (pkt rest h0 h1 h2 h3 h4 h5 h6 h7 h8 h9 h10 h11) in Ep. subst p.
  assert (Hrest : zlen rest = 1012) by (unfold pkt in Hp; autorewrite with zlen in Hp; lia).
  unfold serveRequest, extractStep. rewrite Hex. cbn [catchable packet rbind].
  rewrite put_rcode_pkt. cbv zeta. cbn [rbind]. unfold resolveStep, resolve, mbindS, mgets.
  cbn [set_packet queries resolveQueries packet]. unfold mok. cbn [truncationOccurred recursionOccurred fresh_info rbind].
  unfold set_packet. cbn [packet]. match goal with |- context [setResponseFlags srv (pkt rest h0 h1 h2 ?b h4 h5 h6 h7 h8 h9 h10 h11) ?i] =>
    destruct (setResponseFlags_pkt srv rest h0 h1 h2 b h4 h5 h6 h7 h8 h9 h10 h11 i) as (a2 & a3 & -> & Ha2 & Ha3) end.
  cbn [rbind answers authAnswers otherAnswers rcode] in *.
  set (dlen := Z.min _ _).
  assert (Hd : 0 <= dlen <= 512).
  { unfold dlen, MAX_DNS_PACKET_LENGTH, u64. match goal with |- context [Z.min (?x mod ?m) _] => pose proof (Z.mod_pos_bound x m) end. lia. }
  unfold sub. replace ((0 <=? 0) && _ && _) with true.
  2: { symmetry. rewrite !andb_true_iff, !Z.leb_le. unfold pkt. autorewrite with zlen. lia. }
  cbn [rbind]. eexists _, _, _. split; [reflexivity|]. cbn [w_error w_packet orb].
  split; [done|]. split; [reflexivity|].
  rewrite get_rcode_pkt, get_flag_pkt, get16_pkt. cbn [flag_bit]. rewrite Ha2, Ha3 by (cbv; intuition congruence). done.
Qed.

(** A question name of 300 bytes without a root label. *)
Definition overlong_packet : list Z :=
  ([5; 57; 1; 0; 0; 1; 0; 0; 0; 0; 0; 0] ++ replicate 300 1 ++ replicate 712 0)%list.

Lemma format_error_overwritten_witness :
  exists dgram w' p',
    serveRequest (fun _ => Ok []) (fun _ => Err (ThrowInt 10060)) 0x08080808 [] [] [] 300 77 88 start true
      overlong_packet = Ok (dgram, w') /\
    w_error w' = true /\ w_packet w' = Some p' /\
    get_rcode p' = Ok RCODE_NO_ERROR /\ get_flag p' F_qr = Ok true /\ get16 p' F_ancount = Ok 0.
Proof.
  refine (format_error_overwritten _ _ _ _ _ _ _ _ _ _ _ overlong_packet 256 1 300 _ _ _ _ _ _ _); try reflexivity.
Defined.

End Worker.

Module Queue.

(** Where a worker is in its loop: at the [while] test, in
    [WaitForMultipleObjects], past the wait (having taken a semaphore count or
    not), about to take the front of the queue, finished, or past a [front()]
    of an empty queue. *)
Inductive pc := Test | Waiting | Checking (token : bool) | Popping (token : bool) | Exited | Crashed.

(** The receiving thread: before its test of [isRunning], holding a received
    datagram, or between [push] and [ReleaseSemaphore]. *)
Inductive main_pc := Receiving | Received | Releasing.

Record state := mkState {
  q : list nat;            (* requestQueue, requests numbered by arrival *)
  sem : nat;               (* count of requestSemaphore *)
  quit : bool;             (* quitEvent, manual-reset *)
  isRunning : bool;
  main : main_pc;
  workers : list pc;
  popped : list nat        (* requests taken so far, in order *)
}.

Definition init (n : nat) : state := mkState [] 0 false true Receiving (replicate n Test) [].

(** The number of the next request. *)
Definition next (s : state) : nat := length (popped s ++ q s).

Definition with_worker (s : state) (i : nat) (c : pc) : state :=
  mkState (q s) (sem s) (quit s) (isRunning s) (main s) (<[i := c]> (workers s)) (popped s).

Inductive step : state -> state -> Prop :=
  | step_receive s : isRunning s = true -> main s = Receiving ->
      step s (mkState (q s) (sem s) (quit s) (isRunning s) Received (workers s) (popped s))
  | step_push s : main s = Received ->
      step s (mkState (q s ++ [next s]) (sem s) (quit s) (isRunning s) Releasing (workers s) (popped s))
  | step_release s : main s = Releasing ->
      step s (mkState (q s) (S (sem s)) (quit s) (isRunning s) Receiving (workers s) (popped s))
  | step_stop s :                                             (* shutdown(): isRunning = false *)
      step s (mkState (q s) (sem s) (quit s) false (main s) (workers s) (popped s))
  | step_quit s : isRunning s = false ->                      (* shutdown(): SetEvent(quitEvent) *)
      step s (mkState (q s) (sem s) true (isRunning s) (main s) (workers s) (popped s))
  | step_test s i : workers s !! i = Some Test ->
      step s (with_worker s i (if isRunning s || (0 <? zlen (q s)) then Waiting else Exited))
  | step_wait_sem s i n : workers s !! i = Some Waiting -> sem s = S n ->
      step s (mkState (q s) n (quit s) (isRunning s) (main s) (<[i := Checking true]> (workers s)) (popped s))
  | step_wait_quit s i : workers s !! i = Some Waiting -> sem s = O -> quit s = true ->
      step s (with_worker s i (Checking false))
  | step_check s i b : workers s !! i = Some (Checking b) ->
      step s (with_worker s i (if negb (isRunning s) && (zlen (q s) <=? 0) then Exited else Popping b))
  | step_pop s i b r q' : workers s !! i = Some (Popping b) -> q s = r :: q' ->
      step s (mkState q' (sem s) (quit s) (isRunning s) (main s) (<[i := Test]> (workers s)) (popped s ++ [r]))
  | step_crash s i b : workers s !! i = Some (Popping b) -> q s = [] ->
      step s (with_worker s i Crashed).

Inductive reachable (n : nat) : state -> Prop :=
  | reach_init : reachable n (init n)
  | reach_step s s' : reachable n s -> step s s' -> reachable n s'.

(** Counts held by workers between a successful wait and the pop. *)
Definition holds (c : pc) : nat := match c with Checking true | Popping true => 1 | _ => 0 end.
Definition tokens (ws : list pc) : nat := sum_list_with holds ws.
Definition pending (m : main_pc) : nat := match m with Releasing => 1 | _ => 0 end.

(** ** Invariant *)

Definition no_shortcut (c : pc) : bool :=
  match c with Checking false | Popping false | Crashed => false | _ => true end.

(** As long as the quit event is not set, every queued request is matched by a
    semaphore count, by a worker that has taken one, or by the pending release. *)
Definition balanced (s : state) : Prop :=
  length (q s) = (sem s + tokens (workers s) + pending (main s))%nat /\
  forallb no_shortcut (workers s) = true.

Lemma tokens_insert ws i c c' :
  ws !! i = Some c -> (tokens (<[i := c']> ws) + holds c = tokens ws + holds c')%nat.
Proof.
  unfold tokens. revert i. induction ws as [|x ws IH]; intros [|i] H; simpl in *; try done.
  - injection H as ->. lia.
  - specialize (IH i H). lia.
Qed.

Lemma tokens_lookup ws i c : ws !! i = Some c -> (holds c <= tokens ws)%nat.
Proof. intros H. pose proof (tokens_insert ws i c Test H). cbn in *. lia. Qed.

Lemma forallb_insert {A} (f : A -> bool) l i x :
  forallb f l = true -> f x = true -> forallb f (<[i := x]> l) = true.
Proof.
  revert i. induction l as [|y l IH]; intros [|i] Hl Hx; cbn in *; try done.
  - apply andb_true_iff in Hl as [_ ->]. by rewrite Hx.
  - apply andb_true_iff in Hl as [-> Hl]. by apply IH.
Qed.

Lemma forallb_lookup {A} (f : A -> bool) l i x : forallb f l = true -> l !! i = Some x -> f x = true.
Proof.
  intros H Hi. rewrite forallb_forall in H. apply H. apply list_elem_of_In.
  apply list_elem_of_lookup. by exists i.
Qed.

Lemma step_balanced s s' : step s s' -> quit s' = false -> balanced s -> balanced s'.
Proof.
  intros Hs Hq [Hl Hw].
  destruct Hs as [s Hr Hm|s Hm|s Hm|s|s Hr|s i Hi|s i n Hi Hn|s i Hi Hn Hqt|s i b Hi|s i b r q' Hi Hqq|s i b Hi Hqq];
    unfold balanced, with_worker in *;
    cbn [q sem quit isRunning main workers popped] in *; rewrite ?Hm in *; cbn [pending] in *; try congruence.
  - split; [lia|done].
  - rewrite length_app. cbn. split; [lia|done].
  - split; [lia|done].
  - split; [lia|done].
  - pose proof (tokens_insert (workers s) i Test (if isRunning s || (0 <? zlen (q s)) then Waiting else Exited) Hi) as Ht.
    split; [destruct (isRunning s || _); cbn in Ht; lia|]. apply forallb_insert; [done|]. by destruct (isRunning s || _).
  - pose proof (tokens_insert (workers s) i Waiting (Checking true) Hi) as Ht. cbn in Ht.
    split; [lia|]. by apply forallb_insert.
  - pose proof (forallb_lookup _ _ _ _ Hw Hi) as Hb. destruct b; [|done].
    pose proof (tokens_lookup _ _ _ Hi) as Hlt. cbn [holds] in Hlt.
    assert (Hne : (zlen (q s) <=? 0) = false) by (apply Z.leb_gt; unfold zlen; lia).
    rewrite Hne, andb_false_r. pose proof (tokens_insert (workers s) i (Checking true) (Popping true) Hi) as Ht.
    cbn in Ht. split; [lia|]. by apply forallb_insert.
  - pose proof (forallb_lookup _ _ _ _ Hw Hi) as Hb. destruct b; [|done].
    pose proof (tokens_insert (workers s) i (Popping true) Test Hi) as Ht. cbn in Ht.
    rewrite Hqq in Hl. cbn in Hl. split; [lia|]. by apply forallb_insert.
  - pose proof (forallb_lookup _ _ _ _ Hw Hi) as Hb. destruct b; [|done].
    pose proof (tokens_lookup _ _ _ Hi) as Hlt. rewrite Hqq in Hl. cbn in *. lia.
Qed.

Lemma step_quit_mono s s' : step s s' -> quit s' = false -> quit s = false.
Proof. destruct 1; cbn; congruence. Qed.

Lemma balanced_init n : balanced (init n).
Proof.
  split; cbn.
  - rewrite Nat.add_0_r. induction n as [|n IH]; [done|]. cbn. exact IH.
  - induction n as [|n IH]; [done|]. cbn. exact IH.
Qed.

Lemma reachable_balanced n s : reachable n s -> quit s = false -> balanced s.
Proof.
  induction 1 as [|s s' _ IH Hstep]; intros Hq; [apply balanced_init|].
  eapply step_balanced; [done|done|]. apply IH. by eapply step_quit_mono.
Qed.

(** Requests leave the queue in the order they were put in, each once. *)
Lemma reachable_fifo n s : reachable n s -> (popped s ++ q s)%list = seq 0 (next s).
Proof.
  assert (Hsn : forall l k, l = seq 0 k -> (l ++ [length l])%list = seq 0 (length (l ++ [length l]))).
  { intros l k ->. rewrite length_app, length_seq. cbn. by rewrite Nat.add_comm, seq_S. }
  unfold next. induction 1 as [|s s' _ IH Hstep]; [done|].
  destruct Hstep; unfold next, with_worker in *; cbn [q popped]; try exact IH.
  - rewrite app_assoc. eapply Hsn. exact IH.
  - rewrite H0 in IH. rewrite <- app_assoc. cbn [app]. exact IH.
Qed.

(** C28: until the quit event is set, no worker that has passed its wait can
    find the queue empty, and no worker has: the count of the semaphore is
    balanced against the queue. At any time, the requests taken and the
    requests queued are those received, in order, none lost or served twice. *)
Theorem queue_safe n s :
  reachable n s ->
  (popped s ++ q s)%list = seq 0 (next s) /\
  (quit s = false ->
     (forall i b, workers s !! i = Some (Popping b) -> q s <> []) /\ Crashed ∉ workers s).
Proof.
  intros Hr. split; [by eapply reachable_fifo|]. intros Hq.
  destruct (reachable_balanced n s Hr Hq) as [Hl Hw]. split.
  - intros i b Hi He. pose proof (forallb_lookup _ _ _ _ Hw Hi) as Hb. destruct b; [|done].
    pose proof (tokens_lookup _ _ _ Hi) as Ht. rewrite He in Hl. cbn in *. lia.
  - intros Hc. apply list_elem_of_lookup in Hc as [i Hi]. by pose proof (forallb_lookup _ _ _ _ Hw Hi).
Qed.

Lemma queue_safe_witness :
  ([] ++ [0%nat])%list = seq 0 1 /\
  (false = false ->
     (forall i b, [Popping true] !! i = Some (Popping b) -> [0%nat] <> []) /\ Crashed ∉ [Popping true]).
Proof.
  apply (queue_safe 1 (mkState [0%nat] 0 false true Receiving [Popping true] [])).
  eapply reach_step. 2: { exact (step_check (mkState [0%nat] 0 false true Receiving [Checking true] []) 0 true eq_refl). }
  eapply reach_step. 2: { exact (step_wait_sem (mkState [0%nat] 1 false true Receiving [Waiting] []) 0 0 eq_refl eq_refl). }
  eapply reach_step. 2: { exact (step_test (mkState [0%nat] 1 false true Receiving [Test] []) 0 eq_refl). }
  eapply reach_step. 2: { exact (step_release (mkState [0%nat] 0 false true Releasing [Test] []) eq_refl). }
  eapply reach_step. 2: { exact (step_push (mkState [] 0 false true Received [Test] []) eq_refl). }
  eapply reach_step. 2: { exact (step_receive (mkState [] 0 false true Receiving [Test] []) eq_refl eq_refl). }
  apply reach_init.
Defined.

(** at shutdown the balance is lost: with two workers and one queued
    request, one worker can be released by the semaphore and the other by the
    quit event, both see a non-empty queue, and the second takes the front of an
    empty one. *)
Theorem shutdown_race : exists s, reachable 2 s /\ Crashed ∈ workers s.
Proof.
  exists (mkState [] 0 true false Receiving [Test; Crashed] [0%nat]). split; [|set_solver].
  eapply reach_step. 2: { exact (step_crash (mkState [] 0 true false Receiving [Test; Popping false] [0%nat]) 1 false eq_refl eq_refl). }
  eapply reach_step. 2: { exact (step_pop (mkState [0%nat] 0 true false Receiving [Popping true; Popping false] []) 0 true 0%nat [] eq_refl eq_refl). }
  eapply reach_step. 2: { exact (step_check (mkState [0%nat] 0 true false Receiving [Popping true; Checking false] []) 1 false eq_refl). }
  eapply reach_step. 2: { exact (step_check (mkState [0%nat] 0 true false Receiving [Checking true; Checking false] []) 0 true eq_refl). }
  eapply reach_step. 2: { exact (step_wait_quit (mkState [0%nat] 0 true false Receiving [Checking true; Waiting] []) 1 eq_refl eq_refl eq_refl). }
  eapply reach_step. 2: { exact (step_wait_sem (mkState [0%nat] 1 true false Receiving [Waiting; Waiting] []) 0 0 eq_refl eq_refl). }
  eapply reach_step. 2: { exact (step_quit (mkState [0%nat] 1 false false Receiving [Waiting; Waiting] []) eq_refl). }
  eapply reach_step. 2: { exact (step_stop (mkState [0%nat] 1 false true Receiving [Waiting; Waiting] [])). }
  eapply reach_step. 2: { exact (step_test (mkState [0%nat] 1 false true Receiving [Waiting; Test] []) 1 eq_refl). }
  eapply reach_step. 2: { exact (step_test (mkState [0%nat] 1 false true Receiving [Test; Test] []) 0 eq_refl). }
  eapply reach_step. 2: { exact (step_release (mkState [0%nat] 0 false true Releasing [Test; Test] []) eq_refl). }
  eapply reach_step. 2: { exact (step_push (mkState [] 0 false true Received [Test; Test] []) eq_refl). }
  eapply reach_step. 2: { exact (step_receive (mkState [] 0 false true Receiving [Test; Test] []) eq_refl eq_refl). }
  apply reach_init.
Qed.

End Queue.

Module Teardown.

Definition MAXIMUM_WAIT_OBJECTS : Z := 64.

(** The wait loop of [~DNSServer]: the index of the first handle and the number
    of handles of each [WaitForMultipleObjects] call; one unit of fuel per turn. *)
Fixpoint waits (fuel : nat) (numThreads threadsWaiting : Z) : list (Z * Z) :=
  match fuel with
  | O => []
  | S fuel' =>
      if 0 <? threadsWaiting then
        let numWait := if MAXIMUM_WAIT_OBJECTS <? threadsWaiting then MAXIMUM_WAIT_OBJECTS else threadsWaiting in
        (threadsWaiting - numThreads, numWait) :: waits fuel' numThreads (threadsWaiting - numWait)
      else []
  end.

Definition destructor_waits (numThreads : Z) : list (Z * Z) :=
  waits (Z.to_nat numThreads) numThreads numThreads.

(** with at most 64 threads, the destructor waits once, for exactly the
    thread handles; with more, its second wait starts 64 places before the
    array of handles. *)
Theorem destructor_waits_bounds n :
  (0 < n <= MAXIMUM_WAIT_OBJECTS -> destructor_waits n = [(0, n)]) /\
  (MAXIMUM_WAIT_OBJECTS < n ->
     exists k rest, destructor_waits n = (0, MAXIMUM_WAIT_OBJECTS) :: (-64, k) :: rest).
Proof.
  unfold destructor_waits, MAXIMUM_WAIT_OBJECTS. split; intros Hn.
  - destruct (Z.to_nat n) as [|m] eqn:E; [lia|]. cbn [waits]. unfold MAXIMUM_WAIT_OBJECTS. zbool.
    rewrite !Z.sub_diag. by destruct m.
  - destruct (Z.to_nat n) as [|[|m]] eqn:E; [lia|lia|]. cbn [waits]. unfold MAXIMUM_WAIT_OBJECTS. zbool.
    eexists _, _. rewrite Z.sub_diag. replace (n - 64 - n) with (-64) by lia. reflexivity.
Qed.

Lemma destructor_waits_bounds_witness :
  destructor_waits 64 = [(0, 64)] /\
  exists k rest, destructor_waits 100 = (0, MAXIMUM_WAIT_OBJECTS) :: (-64, k) :: rest.
Proof.
  split; [apply (proj1 (destructor_waits_bounds 64)); unfold MAXIMUM_WAIT_OBJECTS; lia|].
  apply (proj2 (destructor_waits_bounds 100)). unfold MAXIMUM_WAIT_OBJECTS. lia.
Defined.

End Teardown.
