(* ===== verification/MainArgs.v ===== *)
(** * The command line: [parseArgs] (src/ODBCDNS/main.cpp)

    The global variables the options set are the record [config]; a run of
    [parseArgs] ends with a configuration, with [printUsage], which leaves the
    process with status 0, or with the CRT's invalid-parameter handler. *)

From S2P Require Import Prelude.

(** The globals of main.cpp. *)
Record config := mkConfig {
  connectionString : list Z;
  logPropertiesPath : option (list Z);
  recursiveServer : list Z;
  port : Z;
  numThreads : Z
}.

Definition default_config (conn : list Z) : config := mkConfig conn None [] 53 64.

Inductive message :=
  | InvalidArguments | InvalidPort (n : Z) | InvalidThreads (n : Z) | InvalidOption (o : list Z).

Inductive outcome :=
  | Configured (c : config)
  | Usage (m : option message)      (* printUsage: exit(0) *)
  | Died (e : err).

(** [strncmp(a, b, n) == 0] on C strings, [n] a [size_t]. *)
Fixpoint strncmp_eq (a b : list Z) (n : nat) {struct n} : bool :=
  match n with
  | O => true
  | S n' =>
      match a, b with
      | [], [] => true
      | x :: a', y :: b' => (x =? y) && strncmp_eq a' b' n'
      | _, _ => false
      end
  end.

Definition DASH : Z := 45.
Definition EQUALS : Z := 61.

(** [numChars] converted to [size_t]; comparing more characters than the longer
    string has makes no difference, so the count is capped there. *)
Definition compared (numChars : Z) (a b : list Z) : nat :=
  Z.to_nat (Z.min (u64 numChars) (zlen a + zlen b + 1)).

Definition matches (name : string) (option : list Z) (numChars : Z) : bool :=
  strncmp_eq (str name) option (compared numChars (str name) option).

(** The body of the loop for one argument, a C string. *)
Definition parseArg (c : config) (arg : list Z) : outcome :=
  if negb (occurs DASH arg) || negb (occurs EQUALS arg) then Usage (Some InvalidArguments)
  else
    let option := drop 1 arg in
    let numChars := zlen (before EQUALS arg) - 1 in
    let value := drop 1 (drop (length (before EQUALS arg)) arg) in
    if matches "recursiveserver" option numChars then
      if 16 <? zlen value + 1 then Died InvalidParameter
      else Configured (mkConfig (connectionString c) (logPropertiesPath c) value (port c) (numThreads c))
    else if matches "port" option numChars then
      let p := atoi value in
      if p <=? 0 then Usage (Some (InvalidPort p))
      else Configured (mkConfig (connectionString c) (logPropertiesPath c) (recursiveServer c) p (numThreads c))
    else if matches "threads" option numChars then
      let n := atoi value in
      if port c <=? 0 then Usage (Some (InvalidThreads n))
      else Configured (mkConfig (connectionString c) (logPropertiesPath c) (recursiveServer c) (port c) n)
    else if matches "logproperties" option numChars then
      Configured (mkConfig (connectionString c) (Some value) (recursiveServer c) (port c) (numThreads c))
    else Usage (Some (InvalidOption (take (Z.to_nat numChars) option))).

Fixpoint parseLoop (c : config) (args : list (list Z)) : outcome :=
  match args with
  | [] => Configured c
  | a :: args' =>
      match parseArg c a with
      | Configured c => parseLoop c args'
      | o => o
      end
  end.

(** [parseArgs(argc, argv)], for a connection string of single-byte characters. *)
Definition parseArgs (argv : list (list Z)) : outcome :=
  match argv with
  | _ :: conn :: args => parseLoop (default_config conn) args
  | _ => Usage None
  end.

(** ** Options are recognised by any prefix *)

(** The meaning of an option word: the first of the four names it is a prefix
    of, the empty word included. *)
Definition is_prefix (w name : list Z) : bool := bool_decide (w `prefix_of` name).

Lemma strncmp_prefix name w rest :
  (0 ∉ w) -> strncmp_eq name (w ++ rest) (length w) = is_prefix w name.
Proof.
  unfold is_prefix. revert name. induction w as [|x w IH]; intros name H0.
  - cbn. symmetry. apply bool_decide_eq_true. apply prefix_nil.
  - destruct name as [|y name]; cbn [length app strncmp_eq].
    + symmetry. apply bool_decide_eq_false. intros H. by apply prefix_nil_not in H.
    + rewrite IH by set_solver. destruct (Z.eqb_spec y x) as [->|Hne]; cbn [andb].
      * apply bool_decide_ext. split; [apply prefix_cons|apply prefix_cons_inv_2].
      * symmetry. apply bool_decide_eq_false. intros H. by apply prefix_cons_inv_1 in H.
Qed.

Lemma matches_prefix name w v :
  (0 ∉ w) -> zlen w < 2 ^ 63 -> matches name (w ++ EQUALS :: v) (zlen w) = is_prefix w (str name).
Proof.
  intros H0 Hb. unfold matches, compared. autorewrite with zlen.
  pose proof (zlen_nonneg w). pose proof (zlen_nonneg v). pose proof (zlen_nonneg (str name)).
  unfold u64. rewrite Z.mod_small, Z.min_l by lia. rewrite to_nat_zlen. by apply strncmp_prefix.
Qed.

Lemma before_app_stop c w v : (c ∉ w) -> before c (w ++ c :: v) = w.
Proof.
  induction w as [|x w IH]; cbn; intros H; [by rewrite Z.eqb_refl|].
  destruct (Z.eqb_spec x c) as [->|_]; [set_solver|]. rewrite IH by set_solver. done.
Qed.

Lemma occurs_elem c w : c ∈ w -> occurs c w = true.
Proof.
  induction w as [|x w IH]; [set_solver|]. cbn. intros H.
  destruct (Z.eqb_spec x c) as [->|Hne]; [done|]. apply IH. set_solver.
Qed.

(** The four cases of [parseArg] on an argument "-word=value". *)
Definition option_effect (c : config) (w v : list Z) : outcome :=
  if is_prefix w (str "recursiveserver") then
    if 16 <=? zlen v then Died InvalidParameter
    else Configured (mkConfig (connectionString c) (logPropertiesPath c) v (port c) (numThreads c))
  else if is_prefix w (str "port") then
    if atoi v <=? 0 then Usage (Some (InvalidPort (atoi v)))
    else Configured (mkConfig (connectionString c) (logPropertiesPath c) (recursiveServer c) (atoi v) (numThreads c))
  else if is_prefix w (str "threads") then
    Configured (mkConfig (connectionString c) (logPropertiesPath c) (recursiveServer c) (port c) (atoi v))
  else if is_prefix w (str "logproperties") then
    Configured (mkConfig (connectionString c) (Some v) (recursiveServer c) (port c) (numThreads c))
  else Usage (Some (InvalidOption w)).

Lemma parseArg_effect c w v :
  0 < port c -> (0 ∉ w) -> (EQUALS ∉ w) -> zlen w < 2 ^ 63 ->
  parseArg c (DASH :: w ++ EQUALS :: v) = option_effect c w v.
Proof.
  intros Hp H0 He Hb. unfold parseArg, option_effect.
  rewrite !occurs_elem by set_solver. cbn [negb orb].
  replace (before EQUALS (DASH :: w ++ EQUALS :: v)) with (DASH :: w).
  2: { symmetry. apply (before_app_stop EQUALS (DASH :: w)). set_solver. }
  replace (zlen (DASH :: w) - 1) with (zlen w) by (autorewrite with zlen; lia).
  cbv zeta. cbn [length drop]. rewrite !drop_0, !drop_app_length. cbn [drop]. rewrite !drop_0. rewrite !matches_prefix by done.
  rewrite to_nat_zlen, take_app_length. zbool.
  replace (16 <? zlen v + 1) with (16 <=? zlen v) by (destruct (Z.leb_spec 16 (zlen v)), (Z.ltb_spec 16 (zlen v + 1)); lia).
  done.
Qed.

Lemma parseArg_port c a c' : 0 < port c -> parseArg c a = Configured c' -> 0 < port c'.
Proof.
  intros Hp. unfold parseArg. repeat case_match; intros ?; simplify_eq; cbn; bool_to_prop; lia.
Qed.

(** the options, as a whole. For arguments of the form "-word=value",
    [parseArgs] applies them from left to right; each word stands for the first
    of recursiveserver, port, threads and logproperties of which it is a
    prefix, and a word that is a prefix of none stops the program with the
    usage text. The number of threads is not checked: any value, zero and
    negative ones included, is accepted. *)
Theorem parseArgs_options app conn opts :
  Forall (fun wv => (0 ∉ fst wv) /\ (EQUALS ∉ fst wv) /\ zlen (fst wv) < 2 ^ 63) opts ->
  parseArgs (app :: conn :: map (fun wv => DASH :: fst wv ++ EQUALS :: snd wv) opts) =
    foldl (fun o wv => match o with Configured c => option_effect c (fst wv) (snd wv) | _ => o end)
          (Configured (default_config conn)) opts.
Proof.
  unfold parseArgs. intros H. assert (Hp : 0 < port (default_config conn)) by (cbn; lia).
  revert Hp. generalize (default_config conn). induction H as [|[w v] opts (H0 & He & Hb) Hall IH]; intros c Hp; [done|].
  cbn [map parseLoop foldl fst snd] in *. rewrite <- (parseArg_effect c w v) by done.
  destruct (parseArg c (DASH :: w ++ EQUALS :: v)) as [c'|m|e] eqn:E.
  - apply IH. by apply (parseArg_port c _ c') in E.
  - clear. induction opts as [|x opts IH]; [done|]. cbn. done.
  - clear. induction opts as [|x opts IH]; [done|]. cbn. done.
Qed.

Lemma parseArgs_options_witness :
  parseArgs [str "odbcdns"; str "DSN=dns"; str "-p=5353"; str "-threads=0"; str "-rec=8.8.8.8"] =
    Configured (mkConfig (str "DSN=dns") None (str "8.8.8.8") 5353 0).
Proof.
  refine (parseArgs_options (str "odbcdns") (str "DSN=dns")
    [(str "p", str "5353"); (str "threads", str "0"); (str "rec", str "8.8.8.8")] _).
  repeat (apply Forall_cons; split; [split; [by apply (bool_decide_unpack _)|split; [by apply (bool_decide_unpack _)|reflexivity]]|]).
  by apply Forall_nil.
Defined.
