(* ===== verification/ExpatRole.v ===== *)
(** * Expat's prolog state machine (src/apr-util/xml/expat/lib/xmlrole.c)

    The tokens of a document prolog or of an external DTD subset are given a
    role by a machine whose state is a pointer to the current handler function,
    two nesting counters, and two flags. Each handler of the source is a
    definition here; [XmlTokenRole] is the call through the pointer. The code
    under [XML_DTD], which winconfig.h defines, is included. *)

From Stdlib Require Import Sorted.
From S2P Require Import Prelude.

(** Tokens, xmltok.h. *)
Inductive XML_TOK :=
  | XML_TOK_TRAILING_RSQB | XML_TOK_NONE | XML_TOK_TRAILING_CR | XML_TOK_PARTIAL_CHAR
  | XML_TOK_PARTIAL | XML_TOK_INVALID | XML_TOK_START_TAG_WITH_ATTS | XML_TOK_START_TAG_NO_ATTS
  | XML_TOK_EMPTY_ELEMENT_WITH_ATTS | XML_TOK_EMPTY_ELEMENT_NO_ATTS | XML_TOK_END_TAG
  | XML_TOK_DATA_CHARS | XML_TOK_DATA_NEWLINE | XML_TOK_CDATA_SECT_OPEN | XML_TOK_ENTITY_REF
  | XML_TOK_CHAR_REF | XML_TOK_PI | XML_TOK_XML_DECL | XML_TOK_COMMENT | XML_TOK_BOM
  | XML_TOK_PROLOG_S | XML_TOK_DECL_OPEN | XML_TOK_DECL_CLOSE | XML_TOK_NAME | XML_TOK_NMTOKEN
  | XML_TOK_POUND_NAME | XML_TOK_OR | XML_TOK_PERCENT | XML_TOK_OPEN_PAREN | XML_TOK_CLOSE_PAREN
  | XML_TOK_OPEN_BRACKET | XML_TOK_CLOSE_BRACKET | XML_TOK_LITERAL | XML_TOK_PARAM_ENTITY_REF
  | XML_TOK_INSTANCE_START | XML_TOK_NAME_QUESTION | XML_TOK_NAME_ASTERISK | XML_TOK_NAME_PLUS
  | XML_TOK_COND_SECT_OPEN | XML_TOK_COND_SECT_CLOSE | XML_TOK_CLOSE_PAREN_QUESTION
  | XML_TOK_CLOSE_PAREN_ASTERISK | XML_TOK_CLOSE_PAREN_PLUS | XML_TOK_COMMA
  | XML_TOK_ATTRIBUTE_VALUE_S | XML_TOK_CDATA_SECT_CLOSE | XML_TOK_PREFIXED_NAME
  | XML_TOK_IGNORE_SECT.

(** Roles, xmlrole.h. *)
Inductive XML_ROLE :=
  | XML_ROLE_ERROR | XML_ROLE_NONE | XML_ROLE_XML_DECL | XML_ROLE_INSTANCE_START
  | XML_ROLE_DOCTYPE_NONE | XML_ROLE_DOCTYPE_NAME | XML_ROLE_DOCTYPE_SYSTEM_ID
  | XML_ROLE_DOCTYPE_PUBLIC_ID | XML_ROLE_DOCTYPE_INTERNAL_SUBSET | XML_ROLE_DOCTYPE_CLOSE
  | XML_ROLE_GENERAL_ENTITY_NAME | XML_ROLE_PARAM_ENTITY_NAME | XML_ROLE_ENTITY_NONE
  | XML_ROLE_ENTITY_VALUE | XML_ROLE_ENTITY_SYSTEM_ID | XML_ROLE_ENTITY_PUBLIC_ID
  | XML_ROLE_ENTITY_COMPLETE | XML_ROLE_ENTITY_NOTATION_NAME | XML_ROLE_NOTATION_NONE
  | XML_ROLE_NOTATION_NAME | XML_ROLE_NOTATION_SYSTEM_ID | XML_ROLE_NOTATION_NO_SYSTEM_ID
  | XML_ROLE_NOTATION_PUBLIC_ID | XML_ROLE_ATTRIBUTE_NAME | XML_ROLE_ATTRIBUTE_TYPE_CDATA
  | XML_ROLE_ATTRIBUTE_TYPE_ID | XML_ROLE_ATTRIBUTE_TYPE_IDREF | XML_ROLE_ATTRIBUTE_TYPE_IDREFS
  | XML_ROLE_ATTRIBUTE_TYPE_ENTITY | XML_ROLE_ATTRIBUTE_TYPE_ENTITIES
  | XML_ROLE_ATTRIBUTE_TYPE_NMTOKEN | XML_ROLE_ATTRIBUTE_TYPE_NMTOKENS
  | XML_ROLE_ATTRIBUTE_ENUM_VALUE | XML_ROLE_ATTRIBUTE_NOTATION_VALUE | XML_ROLE_ATTLIST_NONE
  | XML_ROLE_ATTLIST_ELEMENT_NAME | XML_ROLE_IMPLIED_ATTRIBUTE_VALUE
  | XML_ROLE_REQUIRED_ATTRIBUTE_VALUE | XML_ROLE_DEFAULT_ATTRIBUTE_VALUE
  | XML_ROLE_FIXED_ATTRIBUTE_VALUE | XML_ROLE_ELEMENT_NONE | XML_ROLE_ELEMENT_NAME
  | XML_ROLE_CONTENT_ANY | XML_ROLE_CONTENT_EMPTY | XML_ROLE_CONTENT_PCDATA | XML_ROLE_GROUP_OPEN
  | XML_ROLE_GROUP_CLOSE | XML_ROLE_GROUP_CLOSE_REP | XML_ROLE_GROUP_CLOSE_OPT
  | XML_ROLE_GROUP_CLOSE_PLUS | XML_ROLE_GROUP_CHOICE | XML_ROLE_GROUP_SEQUENCE
  | XML_ROLE_CONTENT_ELEMENT | XML_ROLE_CONTENT_ELEMENT_REP | XML_ROLE_CONTENT_ELEMENT_OPT
  | XML_ROLE_CONTENT_ELEMENT_PLUS | XML_ROLE_PI | XML_ROLE_COMMENT | XML_ROLE_TEXT_DECL
  | XML_ROLE_IGNORE_SECT | XML_ROLE_INNER_PARAM_ENTITY_REF | XML_ROLE_PARAM_ENTITY_REF.

(** The values a [PROLOG_HANDLER] pointer takes. *)
Inductive handlers :=
  | H_prolog0 | H_prolog1 | H_prolog2 | H_doctype0 | H_doctype1 | H_doctype2 | H_doctype3
  | H_doctype4 | H_doctype5 | H_internalSubset | H_externalSubset0 | H_externalSubset1 | H_entity0
  | H_entity1 | H_entity2 | H_entity3 | H_entity4 | H_entity5 | H_entity6 | H_entity7 | H_entity8
  | H_entity9 | H_entity10 | H_notation0 | H_notation1 | H_notation2 | H_notation3 | H_notation4
  | H_attlist0 | H_attlist1 | H_attlist2 | H_attlist3 | H_attlist4 | H_attlist5 | H_attlist6
  | H_attlist7 | H_attlist8 | H_attlist9 | H_element0 | H_element1 | H_element2 | H_element3
  | H_element4 | H_element5 | H_element6 | H_element7 | H_condSect0 | H_condSect1 | H_condSect2
  | H_declClose | H_error.

#[global] Instance XML_TOK_eq_dec : EqDecision XML_TOK.
Proof. solve_decision. Defined.
#[global] Instance XML_ROLE_eq_dec : EqDecision XML_ROLE.
Proof. solve_decision. Defined.
#[global] Instance handlers_eq_dec : EqDecision handlers.
Proof. solve_decision. Defined.

(** [PROLOG_STATE]; the counters are [unsigned]. *)
Record PROLOG_STATE := mkProlog {
  handler : handlers; level : Z; role_none : XML_ROLE;
  includeLevel : Z; documentEntity : bool; inEntityValue : bool
}.

Definition goto (h : handlers) (s : PROLOG_STATE) : PROLOG_STATE :=
  mkProlog h (level s) (role_none s) (includeLevel s) (documentEntity s) (inEntityValue s).
Definition set_level (n : Z) (s : PROLOG_STATE) : PROLOG_STATE :=
  mkProlog (handler s) n (role_none s) (includeLevel s) (documentEntity s) (inEntityValue s).
Definition set_role_none (r : XML_ROLE) (s : PROLOG_STATE) : PROLOG_STATE :=
  mkProlog (handler s) (level s) r (includeLevel s) (documentEntity s) (inEntityValue s).
Definition set_includeLevel (n : Z) (s : PROLOG_STATE) : PROLOG_STATE :=
  mkProlog (handler s) (level s) (role_none s) n (documentEntity s) (inEntityValue s).

Definition include_more (s : PROLOG_STATE) : PROLOG_STATE := set_includeLevel (u32 (includeLevel s + 1)) s.

Definition KW_ANY : list Z := str "ANY".
Definition KW_ATTLIST : list Z := str "ATTLIST".
Definition KW_CDATA : list Z := str "CDATA".
Definition KW_DOCTYPE : list Z := str "DOCTYPE".
Definition KW_ELEMENT : list Z := str "ELEMENT".
Definition KW_EMPTY : list Z := str "EMPTY".
Definition KW_ENTITIES : list Z := str "ENTITIES".
Definition KW_ENTITY : list Z := str "ENTITY".
Definition KW_FIXED : list Z := str "FIXED".
Definition KW_ID : list Z := str "ID".
Definition KW_IDREF : list Z := str "IDREF".
Definition KW_IDREFS : list Z := str "IDREFS".
Definition KW_IGNORE : list Z := str "IGNORE".
Definition KW_IMPLIED : list Z := str "IMPLIED".
Definition KW_INCLUDE : list Z := str "INCLUDE".
Definition KW_NDATA : list Z := str "NDATA".
Definition KW_NMTOKEN : list Z := str "NMTOKEN".
Definition KW_NMTOKENS : list Z := str "NMTOKENS".
Definition KW_NOTATION : list Z := str "NOTATION".
Definition KW_PCDATA : list Z := str "PCDATA".
Definition KW_PUBLIC : list Z := str "PUBLIC".
Definition KW_REQUIRED : list Z := str "REQUIRED".
Definition KW_SYSTEM : list Z := str "SYSTEM".

(** [setTopLevel]. *)
Definition setTopLevel (s : PROLOG_STATE) : PROLOG_STATE :=
  goto (if documentEntity s then H_internalSubset else H_externalSubset1) s.

(** The three shapes of encoding: one byte per character of ASCII text, or two
    in either order. *)
Inductive encoding := Normal | Little2 | Big2.

Definition minBytesPerChar (enc : encoding) : nat := match enc with Normal => 1 | _ => 2 end.

(** [XmlNameMatchesAscii(enc, ptr1, end1, ptr2)], on the bytes between [ptr1]
    and [end1]. A token of a two-byte encoding has an even number of bytes. *)
Fixpoint nameMatchesAscii (enc : encoding) (text kw : list Z) : bool :=
  match kw with
  | [] => match text with [] => true | _ => false end
  | k :: kw' =>
      match enc, text with
      | Normal, c :: text' => (c =? k) && nameMatchesAscii enc text' kw'
      | Little2, c :: hi :: text' => (hi =? 0) && (c =? k) && nameMatchesAscii enc text' kw'
      | Big2, hi :: c :: text' => (hi =? 0) && (c =? k) && nameMatchesAscii enc text' kw'
      | _, _ => false
      end
  end.

Section Handlers.

Variable enc : encoding.

(** The keyword tests of the handlers: the token's bytes after [k] characters. *)
Definition name_is (text : list Z) (k : nat) (kw : list Z) : bool :=
  nameMatchesAscii enc (drop (k * minBytesPerChar enc) text) kw.

Definition PROLOG_HANDLER : Type := PROLOG_STATE -> XML_TOK -> list Z -> XML_ROLE * PROLOG_STATE.

Definition common (s : PROLOG_STATE) (tok : XML_TOK) : XML_ROLE * PROLOG_STATE :=
  if negb (documentEntity s) && bool_decide (tok = XML_TOK_PARAM_ENTITY_REF)
  then (XML_ROLE_INNER_PARAM_ENTITY_REF, s)
  else (XML_ROLE_ERROR, goto H_error s).

(** [state->level -= 1], and the end of the content model at level 0. *)
Definition close_group (s : PROLOG_STATE) : PROLOG_STATE :=
  let s := set_level (u32 (level s - 1)) s in
  if level s =? 0 then set_role_none XML_ROLE_ELEMENT_NONE (goto H_declClose s) else s.

Definition prolog0 : PROLOG_HANDLER := fun s tok text =>
  match tok with
  | XML_TOK_PROLOG_S => (XML_ROLE_NONE, goto H_prolog1 s)
  | XML_TOK_XML_DECL => (XML_ROLE_XML_DECL, goto H_prolog1 s)
  | XML_TOK_PI => (XML_ROLE_PI, goto H_prolog1 s)
  | XML_TOK_COMMENT => (XML_ROLE_COMMENT, goto H_prolog1 s)
  | XML_TOK_BOM => (XML_ROLE_NONE, s)
  | XML_TOK_DECL_OPEN =>
      if name_is text 2 KW_DOCTYPE then (XML_ROLE_DOCTYPE_NONE, goto H_doctype0 s)
      else common s tok
  | XML_TOK_INSTANCE_START => (XML_ROLE_INSTANCE_START, goto H_error s)
  | _ => common s tok
  end.

Definition prolog1 : PROLOG_HANDLER := fun s tok text =>
  match tok with
  | XML_TOK_PROLOG_S => (XML_ROLE_NONE, s)
  | XML_TOK_PI => (XML_ROLE_PI, s)
  | XML_TOK_COMMENT => (XML_ROLE_COMMENT, s)
  | XML_TOK_BOM => (XML_ROLE_NONE, s)
  | XML_TOK_DECL_OPEN =>
      if name_is text 2 KW_DOCTYPE then (XML_ROLE_DOCTYPE_NONE, goto H_doctype0 s)
      else common s tok
  | XML_TOK_INSTANCE_START => (XML_ROLE_INSTANCE_START, goto H_error s)
  | _ => common s tok
  end.

Definition prolog2 : PROLOG_HANDLER := fun s tok text =>
  match tok with
  | XML_TOK_PROLOG_S => (XML_ROLE_NONE, s)
  | XML_TOK_PI => (XML_ROLE_PI, s)
  | XML_TOK_COMMENT => (XML_ROLE_COMMENT, s)
  | XML_TOK_INSTANCE_START => (XML_ROLE_INSTANCE_START, goto H_error s)
  | _ => common s tok
  end.

Definition doctype0 : PROLOG_HANDLER := fun s tok text =>
  match tok with
  | XML_TOK_PROLOG_S => (XML_ROLE_DOCTYPE_NONE, s)
  | XML_TOK_NAME | XML_TOK_PREFIXED_NAME => (XML_ROLE_DOCTYPE_NAME, goto H_doctype1 s)
  | _ => common s tok
  end.

Definition doctype1 : PROLOG_HANDLER := fun s tok text =>
  match tok with
  | XML_TOK_PROLOG_S => (XML_ROLE_DOCTYPE_NONE, s)
  | XML_TOK_OPEN_BRACKET => (XML_ROLE_DOCTYPE_INTERNAL_SUBSET, goto H_internalSubset s)
  | XML_TOK_DECL_CLOSE => (XML_ROLE_DOCTYPE_CLOSE, goto H_prolog2 s)
  | XML_TOK_NAME =>
      if name_is text 0 KW_SYSTEM then (XML_ROLE_DOCTYPE_NONE, goto H_doctype3 s)
      else if name_is text 0 KW_PUBLIC then (XML_ROLE_DOCTYPE_NONE, goto H_doctype2 s)
      else common s tok
  | _ => common s tok
  end.

Definition doctype2 : PROLOG_HANDLER := fun s tok text =>
  match tok with
  | XML_TOK_PROLOG_S => (XML_ROLE_DOCTYPE_NONE, s)
  | XML_TOK_LITERAL => (XML_ROLE_DOCTYPE_PUBLIC_ID, goto H_doctype3 s)
  | _ => common s tok
  end.

Definition doctype3 : PROLOG_HANDLER := fun s tok text =>
  match tok with
  | XML_TOK_PROLOG_S => (XML_ROLE_DOCTYPE_NONE, s)
  | XML_TOK_LITERAL => (XML_ROLE_DOCTYPE_SYSTEM_ID, goto H_doctype4 s)
  | _ => common s tok
  end.

Definition doctype4 : PROLOG_HANDLER := fun s tok text =>
  match tok with
  | XML_TOK_PROLOG_S => (XML_ROLE_DOCTYPE_NONE, s)
  | XML_TOK_OPEN_BRACKET => (XML_ROLE_DOCTYPE_INTERNAL_SUBSET, goto H_internalSubset s)
  | XML_TOK_DECL_CLOSE => (XML_ROLE_DOCTYPE_CLOSE, goto H_prolog2 s)
  | _ => common s tok
  end.

Definition doctype5 : PROLOG_HANDLER := fun s tok text =>
  match tok with
  | XML_TOK_PROLOG_S => (XML_ROLE_DOCTYPE_NONE, s)
  | XML_TOK_DECL_CLOSE => (XML_ROLE_DOCTYPE_CLOSE, goto H_prolog2 s)
  | _ => common s tok
  end.

Definition internalSubset : PROLOG_HANDLER := fun s tok text =>
  match tok with
  | XML_TOK_PROLOG_S => (XML_ROLE_NONE, s)
  | XML_TOK_DECL_OPEN =>
      if name_is text 2 KW_ENTITY then (XML_ROLE_ENTITY_NONE, goto H_entity0 s)
      else if name_is text 2 KW_ATTLIST then (XML_ROLE_ATTLIST_NONE, goto H_attlist0 s)
      else if name_is text 2 KW_ELEMENT then (XML_ROLE_ELEMENT_NONE, goto H_element0 s)
      else if name_is text 2 KW_NOTATION then (XML_ROLE_NOTATION_NONE, goto H_notation0 s)
      else common s tok
  | XML_TOK_PI => (XML_ROLE_PI, s)
  | XML_TOK_COMMENT => (XML_ROLE_COMMENT, s)
  | XML_TOK_PARAM_ENTITY_REF => (XML_ROLE_PARAM_ENTITY_REF, s)
  | XML_TOK_CLOSE_BRACKET => (XML_ROLE_DOCTYPE_NONE, goto H_doctype5 s)
  | _ => common s tok
  end.

Definition externalSubset1 : PROLOG_HANDLER := fun s tok text =>
  match tok with
  | XML_TOK_COND_SECT_OPEN => (XML_ROLE_NONE, goto H_condSect0 s)
  | XML_TOK_COND_SECT_CLOSE =>
      if includeLevel s =? 0 then common s tok
      else (XML_ROLE_NONE, set_includeLevel (u32 (includeLevel s - 1)) s)
  | XML_TOK_PROLOG_S => (XML_ROLE_NONE, s)
  | XML_TOK_CLOSE_BRACKET => common s tok
  | XML_TOK_NONE => if includeLevel s =? 0 then (XML_ROLE_NONE, s) else common s tok
  | _ => internalSubset s tok text
  end.

Definition externalSubset0 : PROLOG_HANDLER := fun s tok text =>
  let s := goto H_externalSubset1 s in
  if bool_decide (tok = XML_TOK_XML_DECL) then (XML_ROLE_TEXT_DECL, s)
  else externalSubset1 s tok text.

Definition entity0 : PROLOG_HANDLER := fun s tok text =>
  match tok with
  | XML_TOK_PROLOG_S => (XML_ROLE_ENTITY_NONE, s)
  | XML_TOK_PERCENT => (XML_ROLE_ENTITY_NONE, goto H_entity1 s)
  | XML_TOK_NAME => (XML_ROLE_GENERAL_ENTITY_NAME, goto H_entity2 s)
  | _ => common s tok
  end.

Definition entity1 : PROLOG_HANDLER := fun s tok text =>
  match tok with
  | XML_TOK_PROLOG_S => (XML_ROLE_ENTITY_NONE, s)
  | XML_TOK_NAME => (XML_ROLE_PARAM_ENTITY_NAME, goto H_entity7 s)
  | _ => common s tok
  end.

Definition entity2 : PROLOG_HANDLER := fun s tok text =>
  match tok with
  | XML_TOK_PROLOG_S => (XML_ROLE_ENTITY_NONE, s)
  | XML_TOK_NAME =>
      if name_is text 0 KW_SYSTEM then (XML_ROLE_ENTITY_NONE, goto H_entity4 s)
      else if name_is text 0 KW_PUBLIC then (XML_ROLE_ENTITY_NONE, goto H_entity3 s)
      else common s tok
  | XML_TOK_LITERAL => (XML_ROLE_ENTITY_VALUE, set_role_none XML_ROLE_ENTITY_NONE (goto H_declClose s))
  | _ => common s tok
  end.

Definition entity3 : PROLOG_HANDLER := fun s tok text =>
  match tok with
  | XML_TOK_PROLOG_S => (XML_ROLE_ENTITY_NONE, s)
  | XML_TOK_LITERAL => (XML_ROLE_ENTITY_PUBLIC_ID, goto H_entity4 s)
  | _ => common s tok
  end.

Definition entity4 : PROLOG_HANDLER := fun s tok text =>
  match tok with
  | XML_TOK_PROLOG_S => (XML_ROLE_ENTITY_NONE, s)
  | XML_TOK_LITERAL => (XML_ROLE_ENTITY_SYSTEM_ID, goto H_entity5 s)
  | _ => common s tok
  end.

Definition entity5 : PROLOG_HANDLER := fun s tok text =>
  match tok with
  | XML_TOK_PROLOG_S => (XML_ROLE_ENTITY_NONE, s)
  | XML_TOK_DECL_CLOSE => (XML_ROLE_ENTITY_COMPLETE, setTopLevel s)
  | XML_TOK_NAME =>
      if name_is text 0 KW_NDATA then (XML_ROLE_ENTITY_NONE, goto H_entity6 s)
      else common s tok
  | _ => common s tok
  end.

Definition entity6 : PROLOG_HANDLER := fun s tok text =>
  match tok with
  | XML_TOK_PROLOG_S => (XML_ROLE_ENTITY_NONE, s)
  | XML_TOK_NAME => (XML_ROLE_ENTITY_NOTATION_NAME, set_role_none XML_ROLE_ENTITY_NONE (goto H_declClose s))
  | _ => common s tok
  end.

Definition entity7 : PROLOG_HANDLER := fun s tok text =>
  match tok with
  | XML_TOK_PROLOG_S => (XML_ROLE_ENTITY_NONE, s)
  | XML_TOK_NAME =>
      if name_is text 0 KW_SYSTEM then (XML_ROLE_ENTITY_NONE, goto H_entity9 s)
      else if name_is text 0 KW_PUBLIC then (XML_ROLE_ENTITY_NONE, goto H_entity8 s)
      else common s tok
  | XML_TOK_LITERAL => (XML_ROLE_ENTITY_VALUE, set_role_none XML_ROLE_ENTITY_NONE (goto H_declClose s))
  | _ => common s tok
  end.

Definition entity8 : PROLOG_HANDLER := fun s tok text =>
  match tok with
  | XML_TOK_PROLOG_S => (XML_ROLE_ENTITY_NONE, s)
  | XML_TOK_LITERAL => (XML_ROLE_ENTITY_PUBLIC_ID, goto H_entity9 s)
  | _ => common s tok
  end.

Definition entity9 : PROLOG_HANDLER := fun s tok text =>
  match tok with
  | XML_TOK_PROLOG_S => (XML_ROLE_ENTITY_NONE, s)
  | XML_TOK_LITERAL => (XML_ROLE_ENTITY_SYSTEM_ID, goto H_entity10 s)
  | _ => common s tok
  end.

Definition entity10 : PROLOG_HANDLER := fun s tok text =>
  match tok with
  | XML_TOK_PROLOG_S => (XML_ROLE_ENTITY_NONE, s)
  | XML_TOK_DECL_CLOSE => (XML_ROLE_ENTITY_COMPLETE, setTopLevel s)
  | _ => common s tok
  end.

Definition notation0 : PROLOG_HANDLER := fun s tok text =>
  match tok with
  | XML_TOK_PROLOG_S => (XML_ROLE_NOTATION_NONE, s)
  | XML_TOK_NAME => (XML_ROLE_NOTATION_NAME, goto H_notation1 s)
  | _ => common s tok
  end.

Definition notation1 : PROLOG_HANDLER := fun s tok text =>
  match tok with
  | XML_TOK_PROLOG_S => (XML_ROLE_NOTATION_NONE, s)
  | XML_TOK_NAME =>
      if name_is text 0 KW_SYSTEM then (XML_ROLE_NOTATION_NONE, goto H_notation3 s)
      else if name_is text 0 KW_PUBLIC then (XML_ROLE_NOTATION_NONE, goto H_notation2 s)
      else common s tok
  | _ => common s tok
  end.

Definition notation2 : PROLOG_HANDLER := fun s tok text =>
  match tok with
  | XML_TOK_PROLOG_S => (XML_ROLE_NOTATION_NONE, s)
  | XML_TOK_LITERAL => (XML_ROLE_NOTATION_PUBLIC_ID, goto H_notation4 s)
  | _ => common s tok
  end.

Definition notation3 : PROLOG_HANDLER := fun s tok text =>
  match tok with
  | XML_TOK_PROLOG_S => (XML_ROLE_NOTATION_NONE, s)
  | XML_TOK_LITERAL => (XML_ROLE_NOTATION_SYSTEM_ID,
        set_role_none XML_ROLE_NOTATION_NONE (goto H_declClose s))
  | _ => common s tok
  end.

Definition notation4 : PROLOG_HANDLER := fun s tok text =>
  match tok with
  | XML_TOK_PROLOG_S => (XML_ROLE_NOTATION_NONE, s)
  | XML_TOK_LITERAL => (XML_ROLE_NOTATION_SYSTEM_ID,
        set_role_none XML_ROLE_NOTATION_NONE (goto H_declClose s))
  | XML_TOK_DECL_CLOSE => (XML_ROLE_NOTATION_NO_SYSTEM_ID, setTopLevel s)
  | _ => common s tok
  end.

Definition attlist0 : PROLOG_HANDLER := fun s tok text =>
  match tok with
  | XML_TOK_PROLOG_S => (XML_ROLE_ATTLIST_NONE, s)
  | XML_TOK_NAME | XML_TOK_PREFIXED_NAME => (XML_ROLE_ATTLIST_ELEMENT_NAME, goto H_attlist1 s)
  | _ => common s tok
  end.

Definition attlist1 : PROLOG_HANDLER := fun s tok text =>
  match tok with
  | XML_TOK_PROLOG_S => (XML_ROLE_ATTLIST_NONE, s)
  | XML_TOK_DECL_CLOSE => (XML_ROLE_ATTLIST_NONE, setTopLevel s)
  | XML_TOK_NAME | XML_TOK_PREFIXED_NAME => (XML_ROLE_ATTRIBUTE_NAME, goto H_attlist2 s)
  | _ => common s tok
  end.

(** The table [types], with the roles [XML_ROLE_ATTRIBUTE_TYPE_CDATA + i]. *)
Definition types : list (list Z * XML_ROLE) :=
  [(KW_CDATA, XML_ROLE_ATTRIBUTE_TYPE_CDATA); (KW_ID, XML_ROLE_ATTRIBUTE_TYPE_ID);
   (KW_IDREF, XML_ROLE_ATTRIBUTE_TYPE_IDREF); (KW_IDREFS, XML_ROLE_ATTRIBUTE_TYPE_IDREFS);
   (KW_ENTITY, XML_ROLE_ATTRIBUTE_TYPE_ENTITY); (KW_ENTITIES, XML_ROLE_ATTRIBUTE_TYPE_ENTITIES);
   (KW_NMTOKEN, XML_ROLE_ATTRIBUTE_TYPE_NMTOKEN); (KW_NMTOKENS, XML_ROLE_ATTRIBUTE_TYPE_NMTOKENS)].

Definition attlist2 : PROLOG_HANDLER := fun s tok text =>
  match tok with
  | XML_TOK_PROLOG_S => (XML_ROLE_ATTLIST_NONE, s)
  | XML_TOK_NAME =>
      match List.find (fun t => name_is text 0 (fst t)) types with
      | Some (_, r) => (r, goto H_attlist8 s)
      | None => if name_is text 0 KW_NOTATION then (XML_ROLE_ATTLIST_NONE, goto H_attlist5 s)
                else common s tok
      end
  | XML_TOK_OPEN_PAREN => (XML_ROLE_ATTLIST_NONE, goto H_attlist3 s)
  | _ => common s tok
  end.

Definition attlist3 : PROLOG_HANDLER := fun s tok text =>
  match tok with
  | XML_TOK_PROLOG_S => (XML_ROLE_ATTLIST_NONE, s)
  | XML_TOK_NMTOKEN | XML_TOK_NAME | XML_TOK_PREFIXED_NAME => (XML_ROLE_ATTRIBUTE_ENUM_VALUE, goto H_attlist4 s)
  | _ => common s tok
  end.

Definition attlist4 : PROLOG_HANDLER := fun s tok text =>
  match tok with
  | XML_TOK_PROLOG_S => (XML_ROLE_ATTLIST_NONE, s)
  | XML_TOK_CLOSE_PAREN => (XML_ROLE_ATTLIST_NONE, goto H_attlist8 s)
  | XML_TOK_OR => (XML_ROLE_ATTLIST_NONE, goto H_attlist3 s)
  | _ => common s tok
  end.

Definition attlist5 : PROLOG_HANDLER := fun s tok text =>
  match tok with
  | XML_TOK_PROLOG_S => (XML_ROLE_ATTLIST_NONE, s)
  | XML_TOK_OPEN_PAREN => (XML_ROLE_ATTLIST_NONE, goto H_attlist6 s)
  | _ => common s tok
  end.

Definition attlist6 : PROLOG_HANDLER := fun s tok text =>
  match tok with
  | XML_TOK_PROLOG_S => (XML_ROLE_ATTLIST_NONE, s)
  | XML_TOK_NAME => (XML_ROLE_ATTRIBUTE_NOTATION_VALUE, goto H_attlist7 s)
  | _ => common s tok
  end.

Definition attlist7 : PROLOG_HANDLER := fun s tok text =>
  match tok with
  | XML_TOK_PROLOG_S => (XML_ROLE_ATTLIST_NONE, s)
  | XML_TOK_CLOSE_PAREN => (XML_ROLE_ATTLIST_NONE, goto H_attlist8 s)
  | XML_TOK_OR => (XML_ROLE_ATTLIST_NONE, goto H_attlist6 s)
  | _ => common s tok
  end.

Definition attlist8 : PROLOG_HANDLER := fun s tok text =>
  match tok with
  | XML_TOK_PROLOG_S => (XML_ROLE_ATTLIST_NONE, s)
  | XML_TOK_POUND_NAME =>
      if name_is text 1 KW_IMPLIED then (XML_ROLE_IMPLIED_ATTRIBUTE_VALUE, goto H_attlist1 s)
      else if name_is text 1 KW_REQUIRED then (XML_ROLE_REQUIRED_ATTRIBUTE_VALUE, goto H_attlist1 s)
      else if name_is text 1 KW_FIXED then (XML_ROLE_ATTLIST_NONE, goto H_attlist9 s)
      else common s tok
  | XML_TOK_LITERAL => (XML_ROLE_DEFAULT_ATTRIBUTE_VALUE, goto H_attlist1 s)
  | _ => common s tok
  end.

Definition attlist9 : PROLOG_HANDLER := fun s tok text =>
  match tok with
  | XML_TOK_PROLOG_S => (XML_ROLE_ATTLIST_NONE, s)
  | XML_TOK_LITERAL => (XML_ROLE_FIXED_ATTRIBUTE_VALUE, goto H_attlist1 s)
  | _ => common s tok
  end.

Definition element0 : PROLOG_HANDLER := fun s tok text =>
  match tok with
  | XML_TOK_PROLOG_S => (XML_ROLE_ELEMENT_NONE, s)
  | XML_TOK_NAME | XML_TOK_PREFIXED_NAME => (XML_ROLE_ELEMENT_NAME, goto H_element1 s)
  | _ => common s tok
  end.

Definition element1 : PROLOG_HANDLER := fun s tok text =>
  match tok with
  | XML_TOK_PROLOG_S => (XML_ROLE_ELEMENT_NONE, s)
  | XML_TOK_NAME =>
      if name_is text 0 KW_EMPTY then (XML_ROLE_CONTENT_EMPTY,
        set_role_none XML_ROLE_ELEMENT_NONE (goto H_declClose s))
      else if name_is text 0 KW_ANY then (XML_ROLE_CONTENT_ANY,
        set_role_none XML_ROLE_ELEMENT_NONE (goto H_declClose s))
      else common s tok
  | XML_TOK_OPEN_PAREN => (XML_ROLE_GROUP_OPEN, set_level 1 (goto H_element2 s))
  | _ => common s tok
  end.

Definition element2 : PROLOG_HANDLER := fun s tok text =>
  match tok with
  | XML_TOK_PROLOG_S => (XML_ROLE_ELEMENT_NONE, s)
  | XML_TOK_POUND_NAME =>
      if name_is text 1 KW_PCDATA then (XML_ROLE_CONTENT_PCDATA, goto H_element3 s)
      else common s tok
  | XML_TOK_OPEN_PAREN => (XML_ROLE_GROUP_OPEN, goto H_element6 (set_level 2 s))
  | XML_TOK_NAME | XML_TOK_PREFIXED_NAME => (XML_ROLE_CONTENT_ELEMENT, goto H_element7 s)
  | XML_TOK_NAME_QUESTION => (XML_ROLE_CONTENT_ELEMENT_OPT, goto H_element7 s)
  | XML_TOK_NAME_ASTERISK => (XML_ROLE_CONTENT_ELEMENT_REP, goto H_element7 s)
  | XML_TOK_NAME_PLUS => (XML_ROLE_CONTENT_ELEMENT_PLUS, goto H_element7 s)
  | _ => common s tok
  end.

Definition element3 : PROLOG_HANDLER := fun s tok text =>
  match tok with
  | XML_TOK_PROLOG_S => (XML_ROLE_ELEMENT_NONE, s)
  | XML_TOK_CLOSE_PAREN => (XML_ROLE_GROUP_CLOSE, set_role_none XML_ROLE_ELEMENT_NONE (goto H_declClose s))
  | XML_TOK_CLOSE_PAREN_ASTERISK => (XML_ROLE_GROUP_CLOSE_REP,
        set_role_none XML_ROLE_ELEMENT_NONE (goto H_declClose s))
  | XML_TOK_OR => (XML_ROLE_ELEMENT_NONE, goto H_element4 s)
  | _ => common s tok
  end.

Definition element4 : PROLOG_HANDLER := fun s tok text =>
  match tok with
  | XML_TOK_PROLOG_S => (XML_ROLE_ELEMENT_NONE, s)
  | XML_TOK_NAME | XML_TOK_PREFIXED_NAME => (XML_ROLE_CONTENT_ELEMENT, goto H_element5 s)
  | _ => common s tok
  end.

Definition element5 : PROLOG_HANDLER := fun s tok text =>
  match tok with
  | XML_TOK_PROLOG_S => (XML_ROLE_ELEMENT_NONE, s)
  | XML_TOK_CLOSE_PAREN_ASTERISK => (XML_ROLE_GROUP_CLOSE_REP,
        set_role_none XML_ROLE_ELEMENT_NONE (goto H_declClose s))
  | XML_TOK_OR => (XML_ROLE_ELEMENT_NONE, goto H_element4 s)
  | _ => common s tok
  end.

Definition element6 : PROLOG_HANDLER := fun s tok text =>
  match tok with
  | XML_TOK_PROLOG_S => (XML_ROLE_ELEMENT_NONE, s)
  | XML_TOK_OPEN_PAREN => (XML_ROLE_GROUP_OPEN, set_level (u32 (level s + 1)) s)
  | XML_TOK_NAME | XML_TOK_PREFIXED_NAME => (XML_ROLE_CONTENT_ELEMENT, goto H_element7 s)
  | XML_TOK_NAME_QUESTION => (XML_ROLE_CONTENT_ELEMENT_OPT, goto H_element7 s)
  | XML_TOK_NAME_ASTERISK => (XML_ROLE_CONTENT_ELEMENT_REP, goto H_element7 s)
  | XML_TOK_NAME_PLUS => (XML_ROLE_CONTENT_ELEMENT_PLUS, goto H_element7 s)
  | _ => common s tok
  end.

Definition element7 : PROLOG_HANDLER := fun s tok text =>
  match tok with
  | XML_TOK_PROLOG_S => (XML_ROLE_ELEMENT_NONE, s)
  | XML_TOK_CLOSE_PAREN => (XML_ROLE_GROUP_CLOSE, close_group s)
  | XML_TOK_CLOSE_PAREN_ASTERISK => (XML_ROLE_GROUP_CLOSE_REP, close_group s)
  | XML_TOK_CLOSE_PAREN_QUESTION => (XML_ROLE_GROUP_CLOSE_OPT, close_group s)
  | XML_TOK_CLOSE_PAREN_PLUS => (XML_ROLE_GROUP_CLOSE_PLUS, close_group s)
  | XML_TOK_COMMA => (XML_ROLE_GROUP_SEQUENCE, goto H_element6 s)
  | XML_TOK_OR => (XML_ROLE_GROUP_CHOICE, goto H_element6 s)
  | _ => common s tok
  end.

Definition condSect0 : PROLOG_HANDLER := fun s tok text =>
  match tok with
  | XML_TOK_PROLOG_S => (XML_ROLE_NONE, s)
  | XML_TOK_NAME =>
      if name_is text 0 KW_INCLUDE then (XML_ROLE_NONE, goto H_condSect1 s)
      else if name_is text 0 KW_IGNORE then (XML_ROLE_NONE, goto H_condSect2 s)
      else common s tok
  | _ => common s tok
  end.

Definition condSect1 : PROLOG_HANDLER := fun s tok text =>
  match tok with
  | XML_TOK_PROLOG_S => (XML_ROLE_NONE, s)
  | XML_TOK_OPEN_BRACKET => (XML_ROLE_NONE, include_more (goto H_externalSubset1 s))
  | _ => common s tok
  end.

Definition condSect2 : PROLOG_HANDLER := fun s tok text =>
  match tok with
  | XML_TOK_PROLOG_S => (XML_ROLE_NONE, s)
  | XML_TOK_OPEN_BRACKET => (XML_ROLE_IGNORE_SECT, goto H_externalSubset1 s)
  | _ => common s tok
  end.

Definition declClose : PROLOG_HANDLER := fun s tok text =>
  match tok with
  | XML_TOK_PROLOG_S => (role_none s, s)
  | XML_TOK_DECL_CLOSE => (role_none s, setTopLevel s)
  | _ => common s tok
  end.

Definition error : PROLOG_HANDLER := fun s tok text => (XML_ROLE_NONE, s).

(** The function a handler value points to. *)
Definition handler_fun (h : handlers) : PROLOG_HANDLER :=
  match h with
  | H_prolog0 => prolog0 | H_prolog1 => prolog1 | H_prolog2 => prolog2 | H_doctype0 => doctype0
  | H_doctype1 => doctype1 | H_doctype2 => doctype2 | H_doctype3 => doctype3 | H_doctype4 => doctype4
  | H_doctype5 => doctype5 | H_internalSubset => internalSubset
  | H_externalSubset0 => externalSubset0 | H_externalSubset1 => externalSubset1
  | H_entity0 => entity0 | H_entity1 => entity1 | H_entity2 => entity2 | H_entity3 => entity3
  | H_entity4 => entity4 | H_entity5 => entity5 | H_entity6 => entity6 | H_entity7 => entity7
  | H_entity8 => entity8 | H_entity9 => entity9 | H_entity10 => entity10 | H_notation0 => notation0
  | H_notation1 => notation1 | H_notation2 => notation2 | H_notation3 => notation3
  | H_notation4 => notation4 | H_attlist0 => attlist0 | H_attlist1 => attlist1
  | H_attlist2 => attlist2 | H_attlist3 => attlist3 | H_attlist4 => attlist4 | H_attlist5 => attlist5
  | H_attlist6 => attlist6 | H_attlist7 => attlist7 | H_attlist8 => attlist8 | H_attlist9 => attlist9
  | H_element0 => element0 | H_element1 => element1 | H_element2 => element2 | H_element3 => element3
  | H_element4 => element4 | H_element5 => element5 | H_element6 => element6 | H_element7 => element7
  | H_condSect0 => condSect0 | H_condSect1 => condSect1 | H_condSect2 => condSect2
  | H_declClose => declClose | H_error => error
  end.

Definition XmlTokenRole (s : PROLOG_STATE) (tok : XML_TOK) (text : list Z) : XML_ROLE * PROLOG_STATE :=
  handler_fun (handler s) s tok text.

(** The roles of a sequence of tokens. *)
Fixpoint token_roles (s : PROLOG_STATE) (ts : list (XML_TOK * list Z)) : list XML_ROLE * PROLOG_STATE :=
  match ts with
  | [] => ([], s)
  | (tok, text) :: ts' =>
      let (r, s1) := XmlTokenRole s tok text in
      let (rs, s2) := token_roles s1 ts' in (r :: rs, s2)
  end.

End Handlers.

(** [level] and [role_none] keep the values they had. *)
Definition XmlPrologStateInit (s : PROLOG_STATE) : PROLOG_STATE :=
  mkProlog H_prolog0 (level s) (role_none s) 0 true false.

Definition XmlPrologStateInitExternalEntity (s : PROLOG_STATE) : PROLOG_STATE :=
  mkProlog H_externalSubset0 (level s) (role_none s) 0 false (inEntityValue s).

(** Case analysis over the handlers and the tokens. *)
Ltac by_handlers s tok :=
  destruct s as [h lv rn il de iv]; cbn [handler level role_none includeLevel documentEntity] in *;
  unfold XmlTokenRole; cbn [handler]; destruct h; cbn [handler_fun];
  unfold prolog0, prolog1, prolog2, doctype0, doctype1, doctype2, doctype3, doctype4, doctype5,
    externalSubset0, externalSubset1, internalSubset, entity0, entity1, entity2, entity3, entity4, entity5,
    entity6, entity7, entity8, entity9, entity10, notation0, notation1, notation2, notation3, notation4,
    attlist0, attlist1, attlist2, attlist3, attlist4, attlist5, attlist6, attlist7, attlist8, attlist9,
    element0, element1, element2, element3, element4, element5, element6, element7,
    condSect0, condSect1, condSect2, declClose, error, close_group, setTopLevel, include_more;
  destruct tok; cbn.

(** ** Content models are balanced *)

(** The groups opened and not yet closed, as the state counts them. *)
Definition depth (s : PROLOG_STATE) : Z :=
  match handler s with
  | H_element2 | H_element3 | H_element4 | H_element5 => 1
  | H_element6 | H_element7 => level s
  | _ => 0
  end.

Definition nesting_change (r : XML_ROLE) : Z :=
  match r with
  | XML_ROLE_GROUP_OPEN => 1
  | XML_ROLE_GROUP_CLOSE | XML_ROLE_GROUP_CLOSE_REP | XML_ROLE_GROUP_CLOSE_OPT | XML_ROLE_GROUP_CLOSE_PLUS => -1
  | _ => 0
  end.

(** The groups open after a sequence of roles; [None] if one was closed that
    had not been opened. *)
Definition nesting (rs : list XML_ROLE) : option Z :=
  foldl (fun n r => match n with
                    | Some n => if n + nesting_change r <? 0 then None else Some (n + nesting_change r)
                    | None => None end) (Some 0) rs.

(** ** Phases of a document prolog *)

(** Before and after the XML declaration, in the document type declaration
    before its name, before its internal subset, in the subset, after it, after
    the declaration, and past the prolog (or in error). *)
Definition phase (h : handlers) : Z :=
  match h with
  | H_prolog0 => 0
  | H_prolog1 => 1
  | H_doctype0 => 2
  | H_doctype1 | H_doctype2 | H_doctype3 | H_doctype4 => 3
  | H_doctype5 => 5
  | H_prolog2 => 6
  | H_error => 7
  | _ => 4
  end.

(** The phase a landmark of the prolog begins. *)
Definition landmark (r : XML_ROLE) : option Z :=
  match r with
  | XML_ROLE_XML_DECL => Some 1
  | XML_ROLE_DOCTYPE_NAME => Some 3
  | XML_ROLE_DOCTYPE_INTERNAL_SUBSET => Some 4
  | XML_ROLE_DOCTYPE_CLOSE => Some 6
  | XML_ROLE_INSTANCE_START => Some 7
  | _ => None
  end.

(** Handlers and roles of external subsets only. *)
Definition external (h : handlers) : bool :=
  match h with H_externalSubset0 | H_externalSubset1 | H_condSect0 | H_condSect1 | H_condSect2 => true | _ => false end.

Definition external_role (r : XML_ROLE) : bool :=
  match r with XML_ROLE_TEXT_DECL | XML_ROLE_IGNORE_SECT | XML_ROLE_INNER_PARAM_ENTITY_REF => true | _ => false end.

(** ** The step invariant *)

(** The roles [declClose] reports. *)
Definition decl_role (r : XML_ROLE) : bool :=
  match r with XML_ROLE_ENTITY_NONE | XML_ROLE_NOTATION_NONE | XML_ROLE_ELEMENT_NONE => true | _ => false end.

Definition state_ok (s : PROLOG_STATE) : Prop :=
  match handler s with
  | H_element2 => level s = 1
  | H_element6 | H_element7 => 1 <= level s < 2 ^ 32
  | H_declClose => decl_role (role_none s) = true
  | _ => True
  end.

(** What one token does to a state. *)
Record step_facts (s : PROLOG_STATE) (r : XML_ROLE) (s' : PROLOG_STATE) : Prop := {
  sf_ok : state_ok s';
  sf_entity : documentEntity s' = documentEntity s;
  sf_depth : handler s' <> H_error -> depth s' = depth s + nesting_change r;
  sf_document : documentEntity s = true -> external (handler s) = false ->
    external (handler s') = false /\ includeLevel s' = includeLevel s /\ external_role r = false /\
    phase (handler s) <= phase (handler s') /\
    match landmark r with Some k => phase (handler s) < k /\ phase (handler s') = k | None => True end
}.

(** [common] either keeps the state or goes to [error]. *)
Lemma common_cases s tok r s' :
  common s tok = (r, s') ->
  (r = XML_ROLE_INNER_PARAM_ENTITY_REF /\ s' = s /\ documentEntity s = false) \/ (r = XML_ROLE_ERROR /\ s' = goto H_error s).
Proof.
  unfold common. destruct (negb (documentEntity s) && _) eqn:E; intros [= <- <-]; [|by right]. left.
  apply andb_true_iff in E as [E _]. apply negb_true_iff in E. done.
Qed.

Lemma phase_le_error h : phase h <= 7.
Proof. by destruct h. Qed.

Lemma common_facts s tok r s' : state_ok s -> common s tok = (r, s') -> step_facts s r s'.
Proof.
  intros Hok [(-> & -> & He)|(-> & ->)]%common_cases; split; cbn; try done.
  - lia.
  - congruence.
  - intros _ _. pose proof (phase_le_error (handler s)). done.
Qed.

Lemma find_types f r t :
  List.find f types = Some (t, r) -> nesting_change r = 0 /\ external_role r = false /\ landmark r = None.
Proof. unfold types. cbn [List.find]. repeat case_match; intros ?; simplify_eq; done. Qed.

Lemma external_start_facts s r s' :
  handler s = H_externalSubset0 -> step_facts (goto H_externalSubset1 s) r s' -> step_facts s r s'.
Proof.
  intros Hs [Hok He Hd Hdoc]. split; try done.
  - intros H. rewrite Hd by done. unfold depth. by rewrite Hs.
  - rewrite Hs. done.
Qed.

Lemma token_role_facts enc s tok text r s' :
  state_ok s -> depth s < 2 ^ 32 - 1 -> XmlTokenRole enc s tok text = (r, s') -> step_facts s r s'.
Proof.
  intros Hok Hlt Hstep. revert Hlt Hstep. pose proof Hok as Hok'. revert Hok'. unfold state_ok, depth.
  by_handlers s tok; intros Hok' Hlt Hstep.
  all: try exact (common_facts _ _ _ _ Hok Hstep).
  all: repeat (case_match; [ |]; try exact (common_facts _ _ _ _ Hok Hstep)).
  all: try (injection Hstep as <- <-; split; cbn; solve [done | lia]).
  all: try (apply external_start_facts; [reflexivity|]; eapply common_facts; [|exact Hstep]; exact I).
  all: try (injection Hstep as <- <-; split; cbn; solve [destruct de; done | destruct rn; done]).
  all: try (assert (Hu : u32 (lv - 1) = lv - 1) by (unfold u32; apply Z.mod_small; lia);
    rewrite Hu in *; bool_to_prop; injection Hstep as <- <-; split; cbn; solve [done | lia]).
  - destruct p as [t r0]. injection Hstep as <- <-.
    match goal with H : _ = Some (t, r0) |- _ =>
      destruct (find_types (fun t => name_is enc text 0 (fst t)) r0 t H) as (Hn & He & Hl) end.
    split; cbn; rewrite ?Hn, ?He, ?Hl; done || lia.
  - assert (Hu : u32 (lv + 1) = lv + 1) by (unfold u32; apply Z.mod_small; lia).
    rewrite Hu in *. injection Hstep as <- <-. split; cbn; done || lia.
Qed.

Lemma error_absorbs enc s ts : handler s = H_error -> snd (token_roles enc s ts) = s.
Proof.
  intros H. induction ts as [|[tok text] ts IH]; [done|]. cbn [token_roles].
  unfold XmlTokenRole. rewrite H. cbn [handler_fun]. unfold error. destruct (token_roles enc s ts). by cbn in *.
Qed.

(** The depth of a state is at most one more after each token. *)
Lemma step_depth_bound s r s' : step_facts s r s' -> 0 <= depth s -> 0 <= depth s' <= depth s + 1.
Proof.
  intros [Hok _ Hd _] H0. destruct (decide (handler s' = H_error)) as [He|He].
  { replace (depth s') with 0 by (unfold depth; by rewrite He). lia. }
  specialize (Hd He). split.
  - unfold depth, state_ok in *. destruct (handler s'); lia.
  - rewrite Hd. destruct r; cbn; lia.
Qed.

Lemma token_roles_nesting enc ts : forall s rs s' n,
  state_ok s -> 0 <= depth s -> depth s + zlen ts < 2 ^ 32 - 1 ->
  token_roles enc s ts = (rs, s') -> handler s' <> H_error -> n = depth s ->
  foldl (fun n r => match n with
                    | Some n => if n + nesting_change r <? 0 then None else Some (n + nesting_change r)
                    | None => None end) (Some n) rs = Some (depth s').
Proof.
  induction ts as [|[tok text] ts IH]; intros s rs s' n Hok H0 Hb Hrun He ->; cbn [token_roles] in Hrun.
  { by injection Hrun as <- <-. }
  autorewrite with zlen in Hb. pose proof (zlen_nonneg ts).
  destruct (XmlTokenRole enc s tok text) as [r s1] eqn:E1.
  destruct (token_roles enc s1 ts) as [rs2 s2] eqn:E2. injection Hrun as <- <-.
  apply token_role_facts in E1 as Hf; [|done|lia].
  assert (He1 : handler s1 <> H_error).
  { intros Hc. apply (error_absorbs enc s1 ts) in Hc as Hs. rewrite E2 in Hs. cbn in Hs. congruence. }
  pose proof (step_depth_bound _ _ _ Hf H0) as Hd. destruct Hf as [Hok1 _ Hdep _]. specialize (Hdep He1).
  cbn [foldl]. replace (depth s + nesting_change r <? 0) with false by (symmetry; apply Z.ltb_ge; lia).
  apply (IH s1); done || lia.
Qed.

(** C21: content models are balanced. From either initial state and for any
    tokens, as long as the machine has not gone into its error state the roles
    it has reported open and close content-model groups in a properly nested
    way, and the number of groups still open is the one its state records: zero
    whenever it is outside the content model of an element declaration. *)
Theorem element_groups_balanced enc s0 (ext : bool) ts rs s :
  token_roles enc (if ext then XmlPrologStateInitExternalEntity s0 else XmlPrologStateInit s0) ts = (rs, s) ->
  handler s <> H_error -> zlen ts < 2 ^ 32 - 1 ->
  nesting rs = Some (depth s).
Proof.
  intros Hrun He Hb. unfold nesting.
  destruct ext; eapply (token_roles_nesting enc ts _ rs s); try exact Hrun; cbn; done || lia.
Qed.

(** "<!DOCTYPE a [<!ELEMENT a (b,(c|d" in UTF-8. *)
Definition element_tokens : list (XML_TOK * list Z) :=
  [(XML_TOK_DECL_OPEN, str "<!DOCTYPE"); (XML_TOK_PROLOG_S, str " "); (XML_TOK_NAME, str "a");
   (XML_TOK_PROLOG_S, str " "); (XML_TOK_OPEN_BRACKET, str "["); (XML_TOK_DECL_OPEN, str "<!ELEMENT");
   (XML_TOK_PROLOG_S, str " "); (XML_TOK_NAME, str "a"); (XML_TOK_PROLOG_S, str " ");
   (XML_TOK_OPEN_PAREN, str "("); (XML_TOK_NAME, str "b"); (XML_TOK_COMMA, str ",");
   (XML_TOK_OPEN_PAREN, str "("); (XML_TOK_NAME, str "c"); (XML_TOK_OR, str "|"); (XML_TOK_NAME, str "d")].

Definition any_state : PROLOG_STATE := mkProlog H_error 7 XML_ROLE_GROUP_OPEN 3 false false.

Lemma element_groups_balanced_witness :
  nesting (fst (token_roles Normal (XmlPrologStateInit any_state) element_tokens)) = Some 2.
Proof.
  refine (element_groups_balanced Normal any_state false element_tokens
    (fst (token_roles Normal (XmlPrologStateInit any_state) element_tokens))
    (snd (token_roles Normal (XmlPrologStateInit any_state) element_tokens)) _ _ _);
    [apply surjective_pairing|vm_compute; discriminate|reflexivity].
Defined.

(** ** The order of a prolog *)

Definition landmarks (rs : list XML_ROLE) : list Z := omap landmark rs.

Lemma token_roles_document enc ts : forall s rs s',
  state_ok s -> 0 <= depth s -> depth s + zlen ts < 2 ^ 32 - 1 ->
  documentEntity s = true -> external (handler s) = false -> token_roles enc s ts = (rs, s') ->
  (external (handler s') = false /\ includeLevel s' = includeLevel s /\ Forall (fun r => external_role r = false) rs) /\
  Forall (fun k => phase (handler s) < k) (landmarks rs) /\ StronglySorted Z.lt (landmarks rs).
Proof.
  induction ts as [|[tok text] ts IH]; intros s rs s' Hok H0 Hb Hdoc Hext Hrun; cbn [token_roles] in Hrun.
  { injection Hrun as <- <-. repeat split; done || constructor. }
  autorewrite with zlen in Hb. pose proof (zlen_nonneg ts).
  destruct (XmlTokenRole enc s tok text) as [r s1] eqn:E1.
  destruct (token_roles enc s1 ts) as [rs2 s2] eqn:E2. injection Hrun as <- <-.
  apply token_role_facts in E1 as Hf; [|done|lia].
  pose proof (step_depth_bound _ _ _ Hf H0) as Hd. destruct Hf as [Hok1 Hent _ Hf].
  destruct (Hf Hdoc Hext) as (Hx1 & Hi1 & Hr & Hph & Hl).
  destruct (IH s1 rs2 s2) as ((Hx2 & Hi2 & Hr2) & Hp2 & Hs2); try (done || lia); [congruence|].
  split; [split; [done|]; split; [congruence|by apply Forall_cons]|].
  unfold landmarks in *. cbn [omap list_omap]. destruct (landmark r) as [k|].
  - split.
    + apply Forall_cons. split; [lia|]. eapply Forall_impl; [exact Hp2|]. cbn. lia.
    + apply SSorted_cons; [done|]. destruct Hl as [_ <-]. exact Hp2.
  - split; [|done]. eapply Forall_impl; [exact Hp2|]. cbn. lia.
Qed.

(** C33: the order of a prolog. For any tokens of a document entity, the
    landmarks the machine reports - the XML declaration, the document type
    name, the start of the internal subset, the close of the declaration and
    the start of the document element - each occur at most once and in this
    order; conditional sections, text declarations and ignored sections are
    never entered or reported, and the include level stays zero. *)
Theorem prolog_order enc s0 ts rs s :
  token_roles enc (XmlPrologStateInit s0) ts = (rs, s) -> zlen ts < 2 ^ 32 - 1 ->
  StronglySorted Z.lt (landmarks rs) /\ Forall (fun r => external_role r = false) rs /\
  external (handler s) = false /\ includeLevel s = 0.
Proof.
  intros Hrun Hb. destruct (token_roles_document enc ts (XmlPrologStateInit s0) rs s) as ((Hx & Hi & Hr) & _ & Hs);
    cbn; done || lia.
Qed.

Definition element_run := token_roles Normal (XmlPrologStateInit any_state) element_tokens.

Lemma prolog_order_witness :
  landmarks (fst element_run) = [3; 4] /\ StronglySorted Z.lt (landmarks (fst element_run)) /\
  Forall (fun r => external_role r = false) (fst element_run) /\
  external (handler (snd element_run)) = false /\ includeLevel (snd element_run) = 0.
Proof.
  split; [vm_compute; reflexivity|].
  apply (prolog_order Normal any_state element_tokens (fst element_run) (snd element_run)).
  - unfold element_run. apply surjective_pairing.
  - vm_compute. reflexivity.
Defined.
