(* ===== verification/AprArray.v ===== *)
(** * Arrays of the portable runtime (src/apr/tables/apr_tables.c, array part)

    An array header points to a block of element storage; [apr_array_copy_hdr]
    makes two headers share a block, so the blocks live in a heap here. A
    pointer to an element is the block and its offset; element sizes are
    abstracted to one slot per element, and the [int] counts are not bounded. *)

From S2P Require Import Prelude.

Section Arrays.

Context {A : Type} (zero junk : A).

(** The blocks allocated so far; allocation never reuses one. *)
Abbreviation heap := (list (list A)).

(** [apr_array_header_t]. *)
Record array := mkArray { blk : nat; nelts : nat; nalloc : nat }.

Definition block (h : heap) (b : nat) : list A := default [] (h !! b).

(** [apr_palloc] (contents indeterminate) and [apr_pcalloc]. *)
Definition palloc (h : heap) (contents : list A) : nat * heap := (length h, h ++ [contents]).

(** [memcpy] of [n] elements into a block at offset [o]. *)
Definition write_block (h : heap) (b o : nat) (xs : list A) : res heap :=
  check Nat.leb (o + length xs) (length (block h b)) else OutOfBounds;
  Ok (<[b := take o (block h b) ++ xs ++ drop (o + length xs) (block h b)]> h).

Definition make_array_core (h : heap) (n : nat) (clear : bool) : array * heap :=
  let n := if Nat.ltb n 1 then 1%nat else n in
  let (b, h) := palloc h (replicate n (if clear then zero else junk)) in
  (mkArray b 0 n, h).

Definition apr_is_empty_array (a : option array) : bool :=
  match a with None => true | Some a => Nat.eqb (nelts a) 0 end.

Definition apr_array_make (h : heap) (n : nat) : array * heap := make_array_core h n true.

Definition apr_array_clear (a : array) : array := mkArray (blk a) 0 (nalloc a).

(** The popped element's offset, or NULL. *)
Definition apr_array_pop (a : array) : option nat * array :=
  if apr_is_empty_array (Some a) then (None, a)
  else (Some (pred (nelts a)), mkArray (blk a) (pred (nelts a)) (nalloc a)).

Definition doubled (n : nat) : nat := if Nat.leb n 0 then 1 else n * 2.

(** Push: the new element's offset. [clear] distinguishes [apr_array_push] from
    [apr_array_push_noclear]. *)
Definition array_push (clear : bool) (h : heap) (a : array) : res (nat * array * heap) :=
  if Nat.eqb (nelts a) (nalloc a) then
    let new_size := doubled (nalloc a) in
    check Nat.leb (nalloc a) (length (block h (blk a))) else OutOfBounds;
    let (b, h) := palloc h (take (nalloc a) (block h (blk a)) ++
                            replicate (new_size - nalloc a) (if clear then zero else junk)) in
    Ok (nelts a, mkArray b (S (nelts a)) new_size, h)
  else Ok (nelts a, mkArray (blk a) (S (nelts a)) (nalloc a), h).

Definition apr_array_push := array_push true.
Definition apr_array_push_noclear := array_push false.

(** [while (wanted > new_size) new_size *= 2], from a positive size. *)
Fixpoint grow (fuel wanted new_size : nat) : res nat :=
  if Nat.ltb new_size wanted then
    match fuel with O => Err OutOfFuel | S fuel' => grow fuel' wanted (new_size * 2) end
  else Ok new_size.

Definition apr_array_cat (h : heap) (dst src : array) : res (array * heap) :=
  let wanted := (nelts dst + nelts src)%nat in
  do (dst, h) <-
    (if Nat.ltb (nalloc dst) wanted then
       do new_size <- grow wanted wanted (doubled (nalloc dst));
       check Nat.leb (nalloc dst) (length (block h (blk dst))) else OutOfBounds;
       let (b, h) := palloc h (take (nalloc dst) (block h (blk dst)) ++ replicate (new_size - nalloc dst) zero) in
       Ok (mkArray b (nelts dst) new_size, h)
     else Ok (dst, h));
  do h <- write_block h (blk dst) (nelts dst) (take (nelts src) (block h (blk src)));
  Ok (mkArray (blk dst) wanted (nalloc dst), h).

Definition apr_array_copy (h : heap) (a : array) : res (array * heap) :=
  let (r, h) := make_array_core h (nalloc a) false in
  do h <- write_block h (blk r) 0 (take (nelts a) (block h (blk a)));
  do h <- write_block h (blk r) (nelts a) (replicate (nalloc r - nelts a) zero);
  Ok (mkArray (blk r) (nelts a) (nalloc r), h).

(** The header only: the capacity is cut to force a copy on push. *)
Definition apr_array_copy_hdr (a : array) : array := mkArray (blk a) (nelts a) (nelts a).

Definition apr_array_append (h : heap) (first second : array) : res (array * heap) :=
  apr_array_cat h (apr_array_copy_hdr first) second.

(** ** Contents *)

Definition contents (h : heap) (a : array) : list A := take (nelts a) (block h (blk a)).

Record ok (h : heap) (a : array) : Prop := {
  ok_blk : (blk a < length h)%nat;
  ok_nelts : (nelts a <= nalloc a)%nat;
  ok_nalloc : (nalloc a <= length (block h (blk a)))%nat
}.

(** Storing through the pointer a push returned. *)
Definition store (h : heap) (a : array) (o : nat) (x : A) : res heap := write_block h (blk a) o [x].

Lemma block_app h c b : (b < length h)%nat -> block (h ++ [c]) b = block h b.
Proof. intros H. unfold block. by rewrite lookup_app_l. Qed.

Lemma block_new h c : block (h ++ [c]) (length h) = c.
Proof. unfold block. by rewrite lookup_app_r, Nat.sub_diag by lia. Qed.

Lemma block_insert h b c : (b < length h)%nat -> block (<[b := c]> h) b = c.
Proof. intros H. unfold block. by rewrite list_lookup_insert_eq. Qed.

Lemma block_insert_ne h b b' c : b <> b' -> block (<[b := c]> h) b' = block h b'.
Proof. intros H. unfold block. by rewrite list_lookup_insert_ne. Qed.

Lemma contents_length h a : ok h a -> length (contents h a) = nelts a.
Proof. intros [_ H1 H2]. unfold contents. rewrite length_take. lia. Qed.

(** An array is not affected by a write past its live elements or elsewhere. *)
Lemma write_block_frame h b o xs h' c :
  write_block h b o xs = Ok h' -> ok h c -> (b = blk c -> (nelts c <= o)%nat) -> ok h' c /\ contents h' c = contents h c.
Proof.
  unfold write_block. destruct (Nat.leb_spec (o + length xs) (length (block h b))) as [Hb|]; [|done].
  intros [= <-] [H1 H2 H3] Hf. destruct (decide (b = blk c)) as [->|Hne].
  - assert (Hl : block (<[blk c := take o (block h (blk c)) ++ xs ++ drop (o + length xs) (block h (blk c))]> h) (blk c)
      = take o (block h (blk c)) ++ xs ++ drop (o + length xs) (block h (blk c))) by (by apply block_insert).
    split; [split|].
    + by rewrite length_insert.
    + done.
    + rewrite Hl, !length_app, length_take, length_drop. lia.
    + unfold contents. rewrite Hl, take_app_le by (rewrite length_take; specialize (Hf eq_refl); lia).
      rewrite take_take. f_equal. specialize (Hf eq_refl). lia.
  - split; [split|].
    + by rewrite length_insert.
    + done.
    + by rewrite block_insert_ne.
    + unfold contents. by rewrite block_insert_ne.
Qed.

(** A write at the end of the live elements extends the contents. *)
Lemma write_block_end h a xs h' :
  write_block h (blk a) (nelts a) xs = Ok h' -> ok h a -> (nelts a + length xs <= nalloc a)%nat ->
  ok h' (mkArray (blk a) (nelts a + length xs) (nalloc a)) /\
  contents h' (mkArray (blk a) (nelts a + length xs) (nalloc a)) = contents h a ++ xs.
Proof.
  unfold write_block. destruct (Nat.leb_spec (nelts a + length xs) (length (block h (blk a)))) as [Hb|]; [|done].
  intros [= <-] [H1 H2 H3] Hf.
  assert (Hl := block_insert h (blk a) (take (nelts a) (block h (blk a)) ++ xs ++ drop (nelts a + length xs) (block h (blk a))) H1).
  split; [split; cbn|].
  - by rewrite length_insert.
  - lia.
  - rewrite Hl, !length_app, length_take, length_drop. lia.
  - unfold contents. cbn [blk nelts]. rewrite Hl, app_assoc.
    assert (Hn : (nelts a + length xs)%nat = length (take (nelts a) (block h (blk a)) ++ xs))
      by (rewrite length_app, length_take; lia).
    rewrite Hn. apply take_app_length.
Qed.

(** The heap only grows: arrays keep their contents. *)
Lemma palloc_frame h c a : ok h a -> ok (h ++ [c]) a /\ contents (h ++ [c]) a = contents h a.
Proof.
  intros [H1 H2 H3]. unfold contents. rewrite block_app by done. split; [|done]. split; [|done|by rewrite block_app].
  rewrite length_app. lia.
Qed.

Lemma grow_ok fuel wanted : forall n, (0 < n)%nat -> (wanted <= n + fuel)%nat ->
  exists m, grow fuel wanted n = Ok m /\ (wanted <= m)%nat /\ (n <= m)%nat.
Proof.
  induction fuel as [|fuel IH]; intros n Hn Hw; cbn [grow].
  - destruct (Nat.ltb_spec n wanted); [lia|]. exists n. split; [done|lia].
  - destruct (Nat.ltb_spec n wanted); [|exists n; split; [done|lia]].
    destruct (IH (n * 2)%nat) as (m & Hm & H1 & H2); [lia..|]. exists m. split; [done|lia].
Qed.

Lemma doubled_pos n : (0 < doubled n)%nat /\ (n <= doubled n)%nat.
Proof. unfold doubled. destruct (Nat.leb_spec n 0); lia. Qed.

(** The new storage of a growing array, the old elements first. *)
Lemma regrow h a x n :
  ok h a -> (nalloc a <= n)%nat ->
  let a' := mkArray (length h) (nelts a) n in
  let h' := h ++ [take (nalloc a) (block h (blk a)) ++ replicate (n - nalloc a) x] in
  ok h' a' /\ contents h' a' = contents h a.
Proof.
  intros [H1 H2 H3] Hn. cbv zeta. split; [split; cbn|].
  - rewrite length_app. cbn. lia.
  - lia.
  - rewrite block_new, length_app, length_take, length_replicate. lia.
  - unfold contents. cbn [blk nelts]. rewrite block_new, take_app_le by (rewrite length_take; lia).
    rewrite take_take. f_equal. lia.
Qed.

(** pushing. A push followed by a store through the pointer it returns
    appends the element; every other array keeps its contents provided it has
    its own storage or, sharing it, does not reach past the pushing array's
    end: in particular the original of a header copied with
    [apr_array_copy_hdr]. *)
Theorem push_appends clear h a x :
  ok h a ->
  exists o a' h1 h2, array_push clear h a = Ok (o, a', h1) /\ store h1 a' o x = Ok h2 /\
    ok h2 a' /\ contents h2 a' = contents h a ++ [x] /\
    forall c, ok h c -> blk c <> blk a \/ (nelts c <= nelts a)%nat -> ok h2 c /\ contents h2 c = contents h c.
Proof.
  intros Hok. pose proof Hok as [H1 H2 H3]. unfold array_push, store, palloc.
  destruct (Nat.eqb_spec (nelts a) (nalloc a)) as [E|E].
  - destruct (doubled_pos (nalloc a)) as [Hp Hd].
    rewrite (proj2 (Nat.leb_le _ _) H3).
    destruct (regrow h a (if clear then zero else junk) (doubled (nalloc a)) Hok Hd) as [Hok' Hc']. cbv zeta in *.
    set (h' := h ++ [_]) in *. set (a1 := mkArray (length h) (nelts a) _) in *.
    assert (Hgt : (nalloc a < doubled (nalloc a))%nat) by (unfold doubled in *; destruct (Nat.leb_spec (nalloc a) 0); lia).
    destruct (write_block h' (blk a1) (nelts a1) [x]) as [h2|] eqn:W.
    2: { unfold write_block in W. destruct (Nat.leb_spec (nelts a1 + length [x]) (length (block h' (blk a1)))); [done|].
         destruct Hok' as [_ _ Hn]. cbn in *. lia. }
    exists (nelts a), (mkArray (length h) (S (nelts a)) (doubled (nalloc a))), h', h2.
    split; [done|]. split; [done|].
    destruct (write_block_end h' a1 [x] h2 W Hok') as [Ho Hc]; [cbn; lia|].
    cbn [blk nelts nalloc a1 length] in Ho, Hc. rewrite Nat.add_1_r in Ho, Hc. split; [done|]. split; [by rewrite Hc, Hc'|].
    intros c Hokc _. destruct (palloc_frame h (take (nalloc a) (block h (blk a)) ++
      replicate (doubled (nalloc a) - nalloc a) (if clear then zero else junk)) c Hokc) as [Hf1 Hf2].
    rewrite <- Hf2. apply (write_block_frame _ _ _ _ _ _ W Hf1).
    intros Hb. cbn in Hb. destruct Hokc as [Hlt _ _]. lia.
  - destruct (write_block h (blk a) (nelts a) [x]) as [h2|] eqn:W.
    2: { unfold write_block in W. destruct (Nat.leb_spec (nelts a + length [x]) (length (block h (blk a)))); [done|]. cbn in *. lia. }
    exists (nelts a), (mkArray (blk a) (S (nelts a)) (nalloc a)), h, h2. split; [done|]. split; [done|].
    destruct (write_block_end h a [x] h2 W Hok) as [Ho Hc]; [cbn; lia|].
    cbn [length] in Ho, Hc. rewrite Nat.add_1_r in Ho, Hc. split; [done|]. split; [done|].
    intros c Hokc Hd. apply (write_block_frame _ _ _ _ _ _ W Hokc). intros Hb. destruct Hd as [Hd|Hd]; [congruence|done].
Qed.

Lemma cat_appends h dst src :
  ok h dst -> ok h src ->
  exists a' h', apr_array_cat h dst src = Ok (a', h') /\ ok h' a' /\ contents h' a' = contents h dst ++ contents h src /\
    forall c, ok h c -> blk c <> blk dst \/ (nelts c <= nelts dst)%nat -> ok h' c /\ contents h' c = contents h c.
Proof.
  intros Hd Hs. pose proof (contents_length h src Hs) as Hls. unfold apr_array_cat, palloc.
  assert (Hfin : forall d' h1, ok h1 d' -> nelts d' = nelts dst -> (nelts dst + nelts src <= nalloc d')%nat ->
    contents h1 d' = contents h dst -> contents h1 src = contents h src ->
    (forall c, ok h c -> blk c <> blk dst \/ (nelts c <= nelts dst)%nat ->
       ok h1 c /\ contents h1 c = contents h c /\ (blk d' = blk c -> (nelts c <= nelts dst)%nat)) ->
    exists a' h', (do h' <- write_block h1 (blk d') (nelts d') (contents h1 src);
                   Ok (mkArray (blk d') (nelts dst + nelts src) (nalloc d'), h')) = Ok (a', h') /\
      ok h' a' /\ contents h' a' = contents h dst ++ contents h src /\
      forall c, ok h c -> blk c <> blk dst \/ (nelts c <= nelts dst)%nat -> ok h' c /\ contents h' c = contents h c).
  { intros d' h1 Ho Hn Hcap Hcd Hcs Hframe. pose proof Ho as [_ _ Hal]. rewrite Hcs.
    destruct (write_block h1 (blk d') (nelts d') (contents h src)) as [h2|] eqn:W.
    2: { unfold write_block in W. destruct (Nat.leb_spec (nelts d' + length (contents h src)) (length (block h1 (blk d')))); [done|]. lia. }
    cbn [rbind]. eexists _, _. split; [reflexivity|].
    destruct (write_block_end h1 d' (contents h src) h2 W Ho) as [Ho2 Hc2]; [lia|]. rewrite Hls, Hn in Ho2, Hc2.
    split; [done|]. split; [by rewrite Hc2, Hcd|]. intros c Hc Hb. destruct (Hframe c Hc Hb) as (Hc1 & <- & Hlt).
    apply (write_block_frame _ _ _ _ _ _ W Hc1). rewrite Hn. exact Hlt. }
  destruct (Nat.ltb_spec (nalloc dst) (nelts dst + nelts src)) as [Hg|Hg].
  - destruct (doubled_pos (nalloc dst)) as [Hp Hdd]. pose proof Hd as [Hd1 Hd2 Hd3].
    destruct (grow_ok (nelts dst + nelts src) (nelts dst + nelts src) (doubled (nalloc dst)) Hp) as (m & -> & Hm1 & Hm2); [lia|].
    cbn [rbind]. rewrite (proj2 (Nat.leb_le _ _) Hd3).
    destruct (regrow h dst zero m Hd) as [Hok' Hc']; [lia|]. cbv zeta in *. cbn [rbind].
    pose proof (palloc_frame h (take (nalloc dst) (block h (blk dst)) ++ replicate (m - nalloc dst) zero) src Hs) as [_ Hcs].
    apply (Hfin _ _ Hok'); [done|done|done|done|].
    intros c Hc Hb. destruct (palloc_frame h (take (nalloc dst) (block h (blk dst)) ++ replicate (m - nalloc dst) zero) c Hc) as [Hf1 Hf2].
    split; [done|]. split; [done|]. cbn. intros Hb'. destruct Hc as [Hlt _ _]. lia.
  - cbn [rbind]. apply (Hfin dst h Hd); [done|lia|done|done|]. intros c Hc Hb. split; [done|]. split; [done|].
    intros Hb'. destruct Hb; [congruence|done].
Qed.

(** appending. [apr_array_append] returns an array with the elements of the
    first followed by those of the second - the doubling loop ends - and leaves
    both arrays, and every array not reaching past the first one's end in its
    storage, as they were. *)
Theorem append_appends h a b :
  ok h a -> ok h b ->
  exists r h', apr_array_append h a b = Ok (r, h') /\ ok h' r /\ contents h' r = contents h a ++ contents h b /\
    forall c, ok h c -> blk c <> blk a \/ (nelts c <= nelts a)%nat -> ok h' c /\ contents h' c = contents h c.
Proof.
  intros Ha Hb. assert (Hc : ok h (apr_array_copy_hdr a)) by (destruct Ha as [H1 H2 H3]; split; cbn; lia).
  exact (cat_appends h (apr_array_copy_hdr a) b Hc Hb).
Qed.

End Arrays.

Arguments ok {A} h a.

Lemma push_appends_witness :
  let h := [[7; 8; 0; 0]] in let a := mkArray 0 2 4 in let c := apr_array_copy_hdr a in
  exists o a' h1 h2, array_push 0 (-1) true h c = Ok (o, a', h1) /\ store h1 a' o 9 = Ok h2 /\
    ok h2 a' /\ contents h2 a' = [7; 8; 9] /\ contents h2 a = [7; 8].
Proof.
  intros h a c. destruct (push_appends 0 (-1) true h c 9) as (o & a' & h1 & h2 & Hp & Hst & Hok & Hc & Hf).
  - split; cbn; lia.
  - exists o, a', h1, h2. split; [done|]. split; [done|]. split; [done|]. split; [exact Hc|].
    apply (Hf a); [split; cbn; lia|right; cbn; lia].
Defined.

Lemma append_appends_witness :
  let h := [[7; 8; 0; 0]; [1; 2; 3]] in let a := mkArray 0 2 4 in let b := mkArray 1 3 3 in
  exists r h', apr_array_append 0 h a b = Ok (r, h') /\ contents h' r = [7; 8; 1; 2; 3] /\ contents h' a = [7; 8].
Proof.
  intros h a b. destruct (append_appends 0 h a b) as (r & h' & Hp & Hok & Hc & Hf).
  - split; cbn; lia.
  - split; cbn; lia.
  - exists r, h'. split; [done|]. split; [exact Hc|]. apply (Hf a); [split; cbn; lia|right; cbn; lia].
Defined.

(** Sharing is visible after a pop: pushing on a header copy that was popped
    writes into the storage of the original. *)
Example copy_hdr_pop_push :
  let h := [[7; 8]] in let a := mkArray 0 2 2 in let c := snd (apr_array_pop (apr_array_copy_hdr a)) in
  exists o c' h1 h2, apr_array_push 0 (-1) h c = Ok (o, c', h1) /\ store h1 c' o 9 = Ok h2 /\ contents h2 a = [7; 9].
Proof. cbv zeta. eexists _, _, _, _. split; [reflexivity|]. split; reflexivity. Qed.

(** ** Joining an array of strings *)

(** Pass one of [apr_array_pstrcat] over the elements, NULL ones included. *)
Fixpoint pstrcat_len (strs : list (option (list Z))) (sep : Z) : Z :=
  match strs with
  | [] => 0
  | s :: rest =>
      let len := match s with Some s => zlen s | None => 0 end in
      match rest with
      | [] => len
      | _ => len + (if sep =? 0 then 0 else 1) + pstrcat_len rest sep
      end
  end.

(** Pass two, into the allocated buffer from [cp] on. *)
Fixpoint pstrcat_copy (strs : list (option (list Z))) (sep : Z) (buf : list Z) (cp : Z) : res (list Z * Z) :=
  match strs with
  | [] => Ok (buf, cp)
  | s :: rest =>
      do (buf, cp) <- (match s with
                       | Some s => do buf <- blit buf cp s; Ok (buf, cp + zlen s)
                       | None => Ok (buf, cp)
                       end);
      match rest with
      | [] => Ok (buf, cp)
      | _ => if sep =? 0 then pstrcat_copy rest sep buf cp
             else do buf <- wr buf cp sep; pstrcat_copy rest sep buf (cp + 1)
      end
  end.

(** [junk] is the content of the fresh allocation. *)
Definition apr_array_pstrcat (strs : list (option (list Z))) (sep : Z) (junk : Z) : res (list Z) :=
  match strs with
  | [] => Ok [0]
  | _ =>
      let len := pstrcat_len strs sep in
      do (buf, cp) <- pstrcat_copy strs sep (replicate (Z.to_nat (len + 1)) junk) 0;
      wr buf cp 0
  end.

(** The strings with the separator between them. *)
Fixpoint join (strs : list (option (list Z))) (sep : Z) : list Z :=
  match strs with
  | [] => []
  | s :: rest =>
      default [] s ++ match rest with [] => [] | _ => (if sep =? 0 then [] else [u8 sep]) ++ join rest sep end
  end.

Lemma pstrcat_len_join strs sep : pstrcat_len strs sep = zlen (join strs sep).
Proof.
  induction strs as [|s rest IH]; [done|]. cbn [pstrcat_len join]. destruct rest as [|r rest].
  - rewrite app_nil_r. by destruct s.
  - rewrite IH. autorewrite with zlen. destruct s, (sep =? 0); cbn [default]; unfold id; autorewrite with zlen; lia.
Qed.

Lemma pstrcat_copy_join strs sep : forall buf cp,
  0 <= cp -> cp + zlen (join strs sep) <= zlen buf ->
  pstrcat_copy strs sep buf cp = Ok (splice buf cp (join strs sep), cp + zlen (join strs sep)).
Proof.
  induction strs as [|s rest IH]; intros buf cp Hc Hb; cbn [pstrcat_copy join] in *.
  { rewrite splice_nil by done. by rewrite zlen_nil, Z.add_0_r. }
  set (w := default [] s).
  replace (match s with Some s0 => _ | None => Ok (buf, cp) end) with (Ok (splice buf cp w, cp + zlen w)).
  2: { unfold w. destruct s as [s|]; cbn [default]; unfold id.
       - autorewrite with zlen in Hb. pose proof (zlen_nonneg (match rest with [] => [] | _ :: _ =>
           (if sep =? 0 then [] else [u8 sep]) ++ join rest sep end)). cbn [default] in Hb. unfold id in Hb.
         by rewrite blit_ok by lia.
       - rewrite splice_nil by done. by rewrite zlen_nil, Z.add_0_r. }
  fold w in Hb. cbn [rbind]. pose proof (zlen_nonneg w). destruct rest as [|r rest]; [by rewrite app_nil_r|].
  pose proof (zlen_nonneg (join (r :: rest) sep)). destruct (sep =? 0).
  - cbn [app] in *. autorewrite with zlen in Hb. rewrite IH by (rewrite ?zlen_splice; lia).
    rewrite splice_splice by lia. autorewrite with zlen. do 2 f_equal. lia.
  - autorewrite with zlen in Hb. rewrite wr_blit by (rewrite zlen_splice; lia). cbn [rbind].
    rewrite splice_splice by (autorewrite with zlen; lia). rewrite IH by (rewrite ?zlen_splice; autorewrite with zlen; lia).
    replace (cp + zlen w + 1) with (cp + zlen (w ++ [u8 sep])) by (autorewrite with zlen; lia).
    rewrite splice_splice by (autorewrite with zlen; lia). rewrite <- app_assoc. autorewrite with zlen. do 2 f_equal. lia.
Qed.

(** [apr_array_pstrcat] fills its allocation exactly. The result is the
    elements in order, NULL ones as empty strings, with the separator between
    each two unless it is NUL, then the terminator; no store misses the buffer
    of the length pass one computed. *)
Theorem pstrcat_join strs sep junk :
  apr_array_pstrcat strs sep junk = Ok (join strs sep ++ [0]).
Proof.
  unfold apr_array_pstrcat. destruct strs as [|s rest]; [done|]. rewrite pstrcat_len_join.
  set (l := join (s :: rest) sep). pose proof (zlen_nonneg l).
  assert (Hb : zlen (replicate (Z.to_nat (zlen l + 1)) junk) = zlen l + 1) by (unfold zlen at 1; rewrite length_replicate; lia).
  rewrite pstrcat_copy_join by (fold l; lia). fold l. cbn [rbind].
  rewrite wr_blit by (rewrite zlen_splice; lia). f_equal.
  change (u8 0) with 0. rewrite splice_splice by (autorewrite with zlen; lia).
  unfold splice. cbn [Z.to_nat take app]. rewrite drop_ge; [by rewrite app_nil_r|].
  autorewrite with zlen. unfold zlen in *. lia.
Qed.

Example pstrcat_example :
  apr_array_pstrcat [Some (str "a"); None; Some (str "bc")] 44 170 = Ok (str "a,,bc" ++ [0]).
Proof. reflexivity. Qed.
