(* ===== verification/AprTable.v ===== *)
(** * String tables of the portable runtime (src/apr/tables/apr_tables.c)

    [apr_table_t] is an array of key/value entries with a 32-way index on the
    first character of the key: for every hash value a bit says whether some
    entry has it, and two arrays hold the offsets of the first and last one.
    Keys are compared without regard to case; a checksum of the first four
    characters is compared before the strings.

    The element storage is kept as the source has it, stale entries past
    [nelts] included, and the loops that remove entries move them one by one in
    place. The capacity of the storage is not modelled: a push past its end
    extends it. [abs] is the list of live entries; the operations are shown to
    implement the obvious ones on that list. *)

From S2P Require Import Prelude.

(** ** Keys *)


(** [!strcasecmp(a, b)] on C strings. *)
Definition strcaseeq (a b : list Z) : bool := bool_decide (map tolower a = map tolower b).

Definition TABLE_HASH_SIZE : nat := 32.
Definition CASE_MASK : Z := 0xdfdfdfdf.

(** [TABLE_HASH(key)]; the first byte of the empty key is its terminator. *)
Definition TABLE_HASH (key : list Z) : nat := Z.to_nat (Z.land 0x1f (default 0 (key !! O))).

(** [(apr_uint32_t)*k], with [char] signed, at position [i]. *)
Definition key_char (key : list Z) (i : nat) : Z := u32 (schar (default 0 (key !! i))).

(** [COMPUTE_KEY_CHECKSUM(key, checksum)]. *)
Definition COMPUTE_KEY_CHECKSUM (key : list Z) : Z :=
  let c := key_char key 0 in
  let checksum := u32 (Z.shiftl c 8) in
  let '(c, checksum) := if c =? 0 then (c, checksum)
                        else (key_char key 1, Z.lor checksum (key_char key 1)) in
  let checksum := u32 (Z.shiftl checksum 8) in
  let '(c, checksum) := if c =? 0 then (c, checksum)
                        else (key_char key 2, Z.lor checksum (key_char key 2)) in
  let checksum := u32 (Z.shiftl checksum 8) in
  let checksum := if c =? 0 then checksum else Z.lor checksum (key_char key 3) in
  Z.land checksum CASE_MASK.

(** ** The table *)

(** [apr_table_entry_t]. *)
Record entry := mkEntry { key : list Z; val : list Z; key_checksum : Z }.

(** [struct apr_table_t]. *)
Record table := mkTable {
  elts : list entry; nelts : nat;
  index_initialized : Z; index_first : list nat; index_last : list nat
}.

Definition set_val (e : entry) (v : list Z) : entry := mkEntry (key e) v (key_checksum e).

Definition set_elts (t : table) (l : list entry) (n : nat) : table :=
  mkTable l n (index_initialized t) (index_first t) (index_last t).

Definition TABLE_INDEX_IS_INITIALIZED (t : table) (h : nat) : bool :=
  Z.testbit (index_initialized t) (Z.of_nat h).

(** [index_first[h] = i; TABLE_SET_INDEX_INITIALIZED(t, h)]. *)
Definition init_index (t : table) (h i : nat) : table :=
  mkTable (elts t) (nelts t) (u32 (Z.lor (index_initialized t) (Z.shiftl 1 (Z.of_nat h))))
    (<[h := i]> (index_first t)) (index_last t).

Definition set_last (t : table) (h i : nat) : table :=
  mkTable (elts t) (nelts t) (index_initialized t) (index_first t) (<[h := i]> (index_last t)).

(** [table_push] and the assignment of the new entry. *)
Definition table_push (t : table) (e : entry) : table :=
  set_elts t (take (nelts t) (elts t) ++ e :: drop (S (nelts t)) (elts t)) (S (nelts t)).

(** The index arrays of a fresh table hold whatever the memory held. *)
Definition apr_table_make (junk_first junk_last : list nat) : table :=
  mkTable [] 0 0 junk_first junk_last.

Definition apr_is_empty_table (t : option table) : bool :=
  match t with None => true | Some t => Nat.eqb (nelts t) 0 end.

Definition apr_table_clear (t : table) : table :=
  mkTable (elts t) 0 0 (index_first t) (index_last t).

Definition apr_table_copy (t : table) : table :=
  mkTable (take (nelts t) (elts t)) (nelts t) (index_initialized t) (index_first t) (index_last t).

(** Element [i] of the storage. *)
Definition elt (l : list entry) (i : nat) : res entry := of_option OutOfBounds (l !! i).

(** The test of every scan. *)
Definition entry_matches (checksum : Z) (k : list Z) (e : entry) : bool :=
  (checksum =? key_checksum e) && strcaseeq (key e) k.

(** The scan from [i] on, [n] entries left: the offset of the first match. *)
Fixpoint scan (l : list entry) (checksum : Z) (k : list Z) (n i : nat) : res (option nat) :=
  match n with
  | O => Ok None
  | S n' =>
      do e <- elt l i;
      if entry_matches checksum k e then Ok (Some i) else scan l checksum k n' (S i)
  end.

(** The entries of the index range of [h]: [next_elt <= end_elt]. *)
Definition range_first (t : table) (h : nat) : nat := default 0%nat (index_first t !! h).
Definition range_last (t : table) (h : nat) : nat := default 0%nat (index_last t !! h).

Definition scan_range (t : table) (h : nat) (checksum : Z) (k : list Z) : res (option nat) :=
  scan (elts t) checksum k (S (range_last t h) - range_first t h) (range_first t h).

Definition apr_table_get (t : table) (k : list Z) : res (option (list Z)) :=
  let hash := TABLE_HASH k in
  if TABLE_INDEX_IS_INITIALIZED t hash then
    do found <- scan_range t hash (COMPUTE_KEY_CHECKSUM k) k;
    match found with
    | Some i => do e <- elt (elts t) i; Ok (Some (val e))
    | None => Ok None
    end
  else Ok None.

(** The loop of [table_reindex], [n] entries left from [i] on. *)
Fixpoint reindex_loop (n i : nat) (t : table) : res table :=
  match n with
  | O => Ok t
  | S n' =>
      do e <- elt (elts t) i;
      let hash := TABLE_HASH (key e) in
      let t := set_last t hash i in
      let t := if TABLE_INDEX_IS_INITIALIZED t hash then t else init_index t hash i in
      reindex_loop n' (S i) t
  end.

Definition table_reindex (t : table) : res table :=
  reindex_loop (nelts t) 0 (mkTable (elts t) (nelts t) 0 (index_first t) (index_last t)).

(** The loop that removes further matches, [n] entries left from [next] on; the
    result is the storage, [nelts], [dst_elt] and [next_elt]. *)
Fixpoint remove_loop (checksum : Z) (k : list Z) (n next : nat) (dst : option nat)
    (l : list entry) (cnt : nat) : res (list entry * nat * option nat) :=
  match n with
  | O => Ok (l, cnt, dst)
  | S n' =>
      do e <- elt l next;
      if entry_matches checksum k e then
        remove_loop checksum k n' (S next) (match dst with None => Some next | _ => dst end) l (pred cnt)
      else match dst with
           | Some d => remove_loop checksum k n' (S next) (Some (S d)) (<[d := e]> l) cnt
           | None => remove_loop checksum k n' (S next) None l cnt
           end
  end.

(** The loop that shifts the rest of the table, [n] entries left. *)
Fixpoint shift_loop (n next dst : nat) (l : list entry) : res (list entry) :=
  match n with
  | O => Ok l
  | S n' => do e <- elt l next; shift_loop n' (S next) (S dst) (<[dst := e]> l)
  end.

(** From [add_new_elt] on. *)
Definition add_new_elt (t : table) (hash : nat) (k v : list Z) (checksum : Z) : table :=
  table_push (set_last t hash (nelts t)) (mkEntry k v checksum).

(** [apr_table_set(t, key, val)]. *)
Definition apr_table_set (t : table) (k v : list Z) : res table :=
  let checksum := COMPUTE_KEY_CHECKSUM k in
  let hash := TABLE_HASH k in
  if TABLE_INDEX_IS_INITIALIZED t hash then
    let last := range_last t hash in
    let table_end := nelts t in
    do found <- scan_range t hash checksum k;
    match found with
    | Some i =>
        do e <- elt (elts t) i;
        let l := <[i := set_val e v]> (elts t) in
        do (l, cnt, dst) <- remove_loop checksum k (S last - S i) (S i) None l (nelts t);
        match dst with
        | Some d =>
            do l <- shift_loop (table_end - S last) (S last) d l;
            table_reindex (set_elts t l cnt)
        | None => Ok (set_elts t l cnt)
        end
    | None => Ok (add_new_elt t hash k v checksum)
    end
  else Ok (add_new_elt (init_index t hash (nelts t)) hash k v checksum).

(** [apr_table_setn] stores the caller's strings instead of copies of them. *)
Definition apr_table_setn (t : table) (k v : list Z) : res table := apr_table_set t k v.

Definition apr_table_unset (t : table) (k : list Z) : res table :=
  let hash := TABLE_HASH k in
  if TABLE_INDEX_IS_INITIALIZED t hash then
    let checksum := COMPUTE_KEY_CHECKSUM k in
    let last := range_last t hash in
    do found <- scan_range t hash checksum k;
    match found with
    | Some i =>
        let table_end := nelts t in
        do (l, cnt, dst) <- remove_loop checksum k (S last - S i) (S i) (Some i) (elts t) (pred (nelts t));
        do l <- shift_loop (table_end - S last) (S last) (default i dst) l;
        table_reindex (set_elts t l cnt)
    | None => Ok t
    end
  else Ok t.

(** [apr_table_merge(t, key, val)]. *)
Definition apr_table_merge (t : table) (k v : list Z) : res table :=
  let checksum := COMPUTE_KEY_CHECKSUM k in
  let hash := TABLE_HASH k in
  if TABLE_INDEX_IS_INITIALIZED t hash then
    do found <- scan_range t hash checksum k;
    match found with
    | Some i =>
        do e <- elt (elts t) i;
        Ok (set_elts t (<[i := set_val e (val e ++ str ", " ++ v)]> (elts t)) (nelts t))
    | None => Ok (add_new_elt t hash k v checksum)
    end
  else Ok (add_new_elt (init_index t hash (nelts t)) hash k v checksum).

(** [apr_table_mergen] stores the caller's strings when it adds an entry. *)
Definition apr_table_mergen (t : table) (k v : list Z) : res table := apr_table_merge t k v.

(** [apr_table_add(t, key, val)]. *)
Definition apr_table_add (t : table) (k v : list Z) : table :=
  let hash := TABLE_HASH k in
  let t := set_last t hash (nelts t) in
  let t := if TABLE_INDEX_IS_INITIALIZED t hash then t else init_index t hash (nelts t) in
  table_push t (mkEntry k v (COMPUTE_KEY_CHECKSUM k)).

Definition apr_table_addn (t : table) (k v : list Z) : table := apr_table_add t k v.

(** [apr_table_clone]: the loop over the elements. *)
Definition apr_table_clone (junk_first junk_last : list nat) (t : table) : table :=
  foldl (fun n e => apr_table_add n (key e) (val e)) (apr_table_make junk_first junk_last)
    (take (nelts t) (elts t)).

(** [apr_table_overlay(p, overlay, base)]. *)
Definition apr_table_overlay (junk_first junk_last : list nat) (overlay base : table) : res table :=
  table_reindex (mkTable (take (nelts overlay) (elts overlay) ++ take (nelts base) (elts base))
    (nelts overlay + nelts base) 0 junk_first junk_last).

(** The loop of [apr_table_cat] over the index, [n] slots left from [idx] on;
    [n0] is the number of elements [t] had. *)
Fixpoint cat_index (s : table) (n0 n idx : nat) (bits : Z) (first last : list nat) : list nat * list nat :=
  match n with
  | O => (first, last)
  | S n' =>
      if TABLE_INDEX_IS_INITIALIZED s idx then
        let last := <[idx := (range_last s idx + n0)%nat]> last in
        let first := if Z.testbit bits (Z.of_nat idx) then first
                     else <[idx := (range_first s idx + n0)%nat]> first in
        cat_index s n0 n' (S idx) bits first last
      else cat_index s n0 n' (S idx) bits first last
  end.

Definition apr_table_cat (t s : table) : table :=
  let l := take (nelts t) (elts t) ++ take (nelts s) (elts s) in
  let n := (nelts t + nelts s)%nat in
  if Nat.eqb (nelts t) 0 then mkTable l n (index_initialized s) (index_first s) (index_last s)
  else
    let (first, last) := cat_index s (nelts t) TABLE_HASH_SIZE 0 (index_initialized t) (index_first t) (index_last t) in
    mkTable l n (Z.lor (index_initialized t) (index_initialized s)) first last.

Section Callback.

Context {S : Type}.
(** The callback and its [rec]: the new state and whether to go on. *)
Variable comp : S -> list Z -> list Z -> S * bool.

(** The scan of the index range of one key, [n] entries left. *)
Fixpoint vdo_range (l : list entry) (checksum : Z) (k : list Z) (n i : nat) (r : S) : res (S * bool) :=
  match n with
  | O => Ok (r, true)
  | Datatypes.S n' =>
      do e <- elt l i;
      if entry_matches checksum k e then
        let (r, rv) := comp r (key e) (val e) in
        if rv then vdo_range l checksum k n' (Datatypes.S i) r else Ok (r, false)
      else vdo_range l checksum k n' (Datatypes.S i) r
  end.

(** The scan of the entire table. *)
Fixpoint vdo_all (l : list entry) (n i : nat) (r : S) : res (S * bool) :=
  match n with
  | O => Ok (r, true)
  | Datatypes.S n' =>
      do e <- elt l i;
      let (r, rv) := comp r (key e) (val e) in
      if rv then vdo_all l n' (Datatypes.S i) r else Ok (r, false)
  end.

(** The keys of the [va_list], after the first test of [argp]. *)
Fixpoint vdo_keys (t : table) (ks : list (list Z)) (r : S) (vdorv : bool) : res (S * bool) :=
  match ks with
  | [] => Ok (r, vdorv)
  | k :: ks' =>
      let hash := TABLE_HASH k in
      do (r, rv) <-
        (if TABLE_INDEX_IS_INITIALIZED t hash then
           vdo_range (elts t) (COMPUTE_KEY_CHECKSUM k) k
             (Datatypes.S (range_last t hash) - range_first t hash) (range_first t hash) r
         else Ok (r, true));
      vdo_keys t ks' r (if rv then vdorv else false)
  end.

(** [apr_table_vdo(comp, rec, t, vp)]: the arguments up to the NULL. *)
Definition apr_table_vdo (t : table) (ks : list (list Z)) (r : S) : res (S * bool) :=
  match ks with
  | [] => vdo_all (elts t) (nelts t) 0 r
  | _ => vdo_keys t ks r true
  end.

Definition apr_table_do (t : table) (ks : list (list Z)) (r : S) : res (S * bool) := apr_table_vdo t ks r.

End Callback.

(** [table_getm_t]; [merged] is the array of values. *)
Record getm_state := mkGetm { gm_first : option (list Z); gm_merged : option (list (list Z)) }.

Definition table_getm_do (s : getm_state) (_ v : list Z) : getm_state * bool :=
  match gm_first s with
  | None => (mkGetm (Some v) (gm_merged s), true)
  | Some f =>
      let merged := match gm_merged s with None => [f] | Some m => m end in
      (mkGetm (Some f) (Some (merged ++ [v])), true)
  end.

(** The strings of an array with [sep] between them: the result of
    [apr_array_pstrcat] on non-NULL strings. *)
Fixpoint joined (sep : list Z) (vs : list (list Z)) : list Z :=
  match vs with
  | [] => []
  | [v] => v
  | v :: vs' => v ++ sep ++ joined sep vs'
  end.

Definition apr_table_getm (t : table) (k : list Z) : res (option (list Z)) :=
  do (s, rv) <- apr_table_do table_getm_do t [k] (mkGetm None None);
  match gm_first s, gm_merged s with
  | None, _ => Ok None
  | Some f, None => Ok (Some f)
  | Some _, Some m => Ok (Some (joined [44] m))
  end.

(** ** Keys equal up to case have the same hash and checksum *)

(** Numbers that agree outside the case bits of their bytes. *)
Definition agree (a b : Z) : Prop := forall n, 0 <= n -> n mod 8 <> 5 -> Z.testbit a n = Z.testbit b n.

Lemma agree_refl a : agree a a.
Proof. by intros n _ _. Qed.

Lemma agree_lor a b a' b' : agree a a' -> agree b b' -> agree (Z.lor a b) (Z.lor a' b').
Proof. intros Ha Hb n H0 Hn. by rewrite !Z.lor_spec, Ha, Hb. Qed.

Lemma testbit_u32 z n : 0 <= n -> Z.testbit (u32 z) n = (n <? 32) && Z.testbit z n.
Proof.
  intros Hn. unfold u32. destruct (Z.ltb_spec n 32); [by apply Z.mod_pow2_bits_low|].
  by apply Z.mod_pow2_bits_high.
Qed.

Lemma agree_u32_shift a b : agree a b -> agree (u32 (Z.shiftl a 8)) (u32 (Z.shiftl b 8)).
Proof.
  intros H n H0 Hn. rewrite !testbit_u32, !Z.shiftl_spec by done. destruct (n <? 32); [|done]. cbn.
  destruct (Z.le_gt_cases 8 n).
  - apply H; [lia|]. intros Hc. apply Hn. rewrite <- Hc.
    replace n with (n - 8 + 1 * 8) at 1 by lia. apply Z.mod_add. lia.
  - by rewrite !Z.testbit_neg_r by lia.
Qed.

Lemma case_mask_bit n : 0 <= n -> n mod 8 = 5 -> Z.testbit CASE_MASK n = false.
Proof.
  intros H0 Hn. destruct (Z.lt_ge_cases n 32).
  - assert (n = 5 \/ n = 13 \/ n = 21 \/ n = 29) as [-> |[-> |[-> | ->]]]; try done.
    pose proof (Z.div_mod n 8 ltac:(lia)) as Hdm. rewrite Hn in Hdm.
    assert (0 <= n / 8 < 4) by (split; [apply Z.div_pos; lia|apply Z.div_lt_upper_bound; lia]). lia.
  - apply Z.bits_above_log2; [done|]. change (Z.log2 CASE_MASK) with 31. lia.
Qed.

Lemma agree_mask a b : agree a b -> Z.land a CASE_MASK = Z.land b CASE_MASK.
Proof.
  intros H. apply Z.bits_inj'. intros n H0. rewrite !Z.land_spec.
  destruct (Z.eq_dec (n mod 8) 5) as [E|E]; [by rewrite case_mask_bit, !andb_false_r|by rewrite H].
Qed.

(** Two characters equal up to case are equal or differ in bit 5. *)
Lemma tolower_eq x y :
  tolower x = tolower y ->
  x = y \/ (65 <= x <= 90 /\ y = Z.lor x 32) \/ (65 <= y <= 90 /\ x = Z.lor y 32).
Proof.
  assert (Hl : forall z, 65 <= z <= 90 -> z + 32 = Z.lor z 32).
  { intros z Hz. assert (Hf : forallb (fun n => Z.eqb (65 + Z.of_nat n + 32) (Z.lor (65 + Z.of_nat n) 32)) (seq 0 26) = true)
      by (vm_compute; reflexivity).
    rewrite forallb_forall in Hf. specialize (Hf (Z.to_nat (z - 65))).
    replace (65 + Z.of_nat (Z.to_nat (z - 65))) with z in Hf by lia. apply Z.eqb_eq, Hf.
    apply in_seq. lia. }
  unfold tolower. destruct ((65 <=? x) && (x <=? 90)) eqn:Ex, ((65 <=? y) && (y <=? 90)) eqn:Ey;
    bool_to_prop; intros He; [left; lia|right; left; rewrite <- Hl; lia|right; right; rewrite <- Hl; lia|by left].
Qed.

Definition same_char (x y : Z) : Prop := agree x y /\ (x =? 0) = (y =? 0).

Lemma same_char_refl x : same_char x x.
Proof. by split; [apply agree_refl|]. Qed.

Lemma lor32_char z : 65 <= z <= 90 -> same_char (u32 (schar z)) (u32 (schar (Z.lor z 32))).
Proof.
  intros Hz.
  assert (Hf : forallb (fun n => let z := 65 + Z.of_nat n in (u32 (schar z) =? z) &&
    (u32 (schar (Z.lor z 32)) =? Z.lor z 32) && negb (z =? 0) && negb (Z.lor z 32 =? 0)) (seq 0 26) = true)
    by (vm_compute; reflexivity).
  rewrite forallb_forall in Hf. specialize (Hf (Z.to_nat (z - 65))). cbv zeta in Hf.
  replace (65 + Z.of_nat (Z.to_nat (z - 65))) with z in Hf by lia.
  assert (H : In (Z.to_nat (z - 65)) (seq 0 26)) by (apply in_seq; lia).
  specialize (Hf H). rewrite !andb_true_iff, !negb_true_iff, !Z.eqb_eq in Hf. destruct Hf as [[[E1 E2] E3] E4].
  rewrite E1, E2. split; [|by rewrite E3, E4]. intros n H0 Hn. rewrite Z.lor_spec. change 32 with (2 ^ 5).
  rewrite Z.pow2_bits_false, orb_false_r; [done|]. intros Hc. apply Hn. by rewrite <- Hc.
Qed.

Lemma key_char_same a b i : map tolower a = map tolower b -> same_char (key_char a i) (key_char b i).
Proof.
  intros H. unfold key_char.
  assert (Hi : tolower <$> (a !! i) = tolower <$> (b !! i)) by (rewrite <- !list_lookup_fmap; by f_equal).
  destruct (a !! i) as [x|], (b !! i) as [y|]; cbn in *; try done.
  injection Hi as Ht. destruct (tolower_eq x y Ht) as [-> |[[Hx ->]|[Hy ->]]]; [apply same_char_refl|by apply lor32_char|].
  destruct (lor32_char y Hy) as [Ha Hz]. split; [|done]. intros n H0 Hn. symmetry. by apply Ha.
Qed.

Lemma checksum_case a b : map tolower a = map tolower b -> COMPUTE_KEY_CHECKSUM a = COMPUTE_KEY_CHECKSUM b.
Proof.
  intros H. unfold COMPUTE_KEY_CHECKSUM.
  destruct (key_char_same a b 0 H) as [A0 Z0], (key_char_same a b 1 H) as [A1 Z1],
    (key_char_same a b 2 H) as [A2 Z2], (key_char_same a b 3 H) as [A3 Z3].
  cbv zeta. rewrite <- Z0. destruct (key_char a 0 =? 0) eqn:E0; cbv beta iota zeta.
  - rewrite <- Z0, E0. cbv iota. rewrite <- Z0, E0. apply agree_mask. by repeat apply agree_u32_shift.
  - rewrite <- Z1. destruct (key_char a 1 =? 0) eqn:E1; cbv iota.
    + rewrite <- Z1, E1. apply agree_mask. do 2 apply agree_u32_shift. apply agree_lor; [|done]. by apply agree_u32_shift.
    + rewrite <- Z2. destruct (key_char a 2 =? 0); apply agree_mask;
        repeat first [done | apply agree_lor | apply agree_u32_shift].
Qed.

Lemma hash_case a b : map tolower a = map tolower b -> TABLE_HASH a = TABLE_HASH b.
Proof.
  assert (Hm : forall z, Z.land 0x1f (Z.lor z 32) = Z.land 0x1f z).
  { intros z. rewrite Z.land_lor_distr_r. by rewrite Z.lor_0_r. }
  intros H. unfold TABLE_HASH. f_equal.
  destruct a as [|x a], b as [|y b]; try done. injection H as Ht _.
  change (Z.land 0x1f x = Z.land 0x1f y).
  destruct (tolower_eq x y Ht) as [-> |[[_ ->]|[_ ->]]]; rewrite ?Hm; reflexivity.
Qed.

Lemma hash_bound k : (TABLE_HASH k < TABLE_HASH_SIZE)%nat.
Proof.
  unfold TABLE_HASH, TABLE_HASH_SIZE. generalize (default 0 (k !! O)). intros z.
  rewrite Z.land_comm. change 0x1f with (Z.ones 5). rewrite Z.land_ones by lia.
  pose proof (Z.mod_pos_bound z (2 ^ 5)). lia.
Qed.

Lemma strcaseeq_spec a b : strcaseeq a b = true <-> map tolower a = map tolower b.
Proof. apply bool_decide_eq_true. Qed.

(** ** The index invariant *)

Definition hash_of (e : entry) : nat := TABLE_HASH (key e).

(** One slot of the index: its bit is set if and only if some entry hashes to
    it, and then the two offsets are those of the first and the last one. *)
Definition slot_ok (es : list entry) (h : nat) (bit : bool) (f l : nat) : Prop :=
  if bit then
    (exists e, es !! f = Some e /\ hash_of e = h) /\ (exists e, es !! l = Some e /\ hash_of e = h) /\
    (forall i e, es !! i = Some e -> hash_of e = h -> (f <= i <= l)%nat)
  else forall i e, es !! i = Some e -> hash_of e <> h.

Record index_ok (es : list entry) (bits : Z) (first last : list nat) : Prop := {
  ix_first : length first = TABLE_HASH_SIZE;
  ix_last : length last = TABLE_HASH_SIZE;
  ix_bits : 0 <= bits < 2 ^ 32;
  ix_slots : forall h, (h < TABLE_HASH_SIZE)%nat ->
    slot_ok es h (Z.testbit bits (Z.of_nat h)) (default 0%nat (first !! h)) (default 0%nat (last !! h))
}.

Lemma index_ok_nil first last :
  length first = TABLE_HASH_SIZE -> length last = TABLE_HASH_SIZE -> index_ok [] 0 first last.
Proof. intros H1 H2. split; [done|done|lia|]. intros h _. rewrite Z.testbit_0_l. intros i e H. by rewrite lookup_nil in H. Qed.

Lemma testbit_set bits h h' :
  (h < 32)%nat -> (h' < 32)%nat ->
  Z.testbit (u32 (Z.lor bits (Z.shiftl 1 (Z.of_nat h)))) (Z.of_nat h') = Z.testbit bits (Z.of_nat h') || Nat.eqb h h'.
Proof.
  intros H H'. rewrite testbit_u32, Z.lor_spec, Z.shiftl_1_l by lia.
  replace (Z.of_nat h' <? 32) with true by (symmetry; apply Z.ltb_lt; lia). cbn [andb]. f_equal.
  rewrite Z.pow2_bits_eqb by lia. destruct (Nat.eqb_spec h h') as [->|Hn]; [apply Z.eqb_refl|apply Z.eqb_neq; lia].
Qed.

(** A further entry: what [apr_table_add] and [table_reindex] do to the index. *)
Lemma index_ok_snoc es bits first last e :
  index_ok es bits first last ->
  let h := hash_of e in
  let set := Z.testbit bits (Z.of_nat h) in
  index_ok (es ++ [e]) (if set then bits else u32 (Z.lor bits (Z.shiftl 1 (Z.of_nat h))))
    (if set then first else <[h := length es]> first) (<[h := length es]> last).
Proof.
  intros [Hf Hl Hb Hs] h set. pose proof (hash_bound (key e)) as Hh. fold (hash_of e) in Hh. fold h in Hh.
  split.
  - destruct set; by rewrite ?length_insert.
  - by rewrite length_insert.
  - destruct set; [done|]. unfold u32. apply Z.mod_pos_bound. lia.
  - intros h' Hh'. specialize (Hs h' Hh').
    replace (Z.testbit (if set then bits else _) (Z.of_nat h')) with (Z.testbit bits (Z.of_nat h') || Nat.eqb h h').
    2: { unfold set. destruct (Z.testbit bits (Z.of_nat h)) eqn:E; [|by rewrite testbit_set].
         destruct (Nat.eqb_spec h h') as [->|_]; [by rewrite E|by rewrite orb_false_r]. }
    destruct (Nat.eqb_spec h h') as [<-|Hne].
    + rewrite orb_true_r, list_lookup_insert_eq by (rewrite Hl; done).
      assert (Hlast : (es ++ [e]) !! length es = Some e) by (by rewrite lookup_app_r, Nat.sub_diag by lia).
      unfold set in *. destruct (Z.testbit bits (Z.of_nat h)) eqn:E; cbn [slot_ok] in *.
      * destruct Hs as ((e1 & H1 & H1h) & _ & Hall). split; [|split].
        -- exists e1. split; [|done]. rewrite lookup_app_l; [done|]. by apply lookup_lt_Some in H1.
        -- exists e. done.
        -- intros i e' [Hi|[Hi [? ?]%list_lookup_singleton_Some]]%lookup_app_Some He; simplify_eq.
           ++ apply Hall in Hi as Hi'; [|done]. apply lookup_lt_Some in Hi. cbn. lia.
           ++ apply lookup_lt_Some in H1. cbn. lia.
      * rewrite list_lookup_insert_eq by (rewrite Hf; done). cbn [default]. split; [|split].
        -- exists e. done.
        -- exists e. done.
        -- intros i e' [Hi|[Hi [? ?]%list_lookup_singleton_Some]]%lookup_app_Some He; simplify_eq.
           ++ by apply Hs in Hi.
           ++ cbn. lia.
    + rewrite orb_false_r. replace (<[h := length es]> last !! h') with (last !! h') by (by rewrite list_lookup_insert_ne).
      replace ((if set then first else <[h := length es]> first) !! h') with (first !! h')
        by (destruct set; [done|by rewrite list_lookup_insert_ne]).
      destruct (Z.testbit bits (Z.of_nat h')); cbn [slot_ok] in *.
      * destruct Hs as ((e1 & H1 & H1h) & (e2 & H2 & H2h) & Hall). split; [|split].
        -- exists e1. split; [|done]. rewrite lookup_app_l; [done|]. by apply lookup_lt_Some in H1.
        -- exists e2. split; [|done]. rewrite lookup_app_l; [done|]. by apply lookup_lt_Some in H2.
        -- intros i e' [Hi|[Hi [? ?]%list_lookup_singleton_Some]]%lookup_app_Some He; simplify_eq. by apply (Hall i e').
      * intros i e' [Hi|[Hi [? ?]%list_lookup_singleton_Some]]%lookup_app_Some He; simplify_eq. by apply (Hs i e').
Qed.

(** ** Tables and their entries *)

Definition abs (t : table) : list entry := take (nelts t) (elts t).

Definition checksum_ok (e : entry) : Prop := key_checksum e = COMPUTE_KEY_CHECKSUM (key e).

Record wf (t : table) : Prop := {
  wf_nelts : (nelts t <= length (elts t))%nat;
  wf_sums : Forall checksum_ok (abs t);
  wf_index : index_ok (abs t) (index_initialized t) (index_first t) (index_last t)
}.

Definition same_key (k : list Z) (e : entry) : bool := strcaseeq (key e) k.

Lemma entry_matches_key k e : checksum_ok e -> entry_matches (COMPUTE_KEY_CHECKSUM k) k e = same_key k e.
Proof.
  unfold entry_matches, same_key, checksum_ok. intros ->. destruct (strcaseeq (key e) k) eqn:E; [|apply andb_false_r].
  apply strcaseeq_spec, checksum_case in E. by rewrite E, Z.eqb_refl.
Qed.

Lemma same_key_hash k e : same_key k e = true -> hash_of e = TABLE_HASH k.
Proof. unfold same_key, hash_of. intros H%strcaseeq_spec. by apply hash_case. Qed.

(** The position of the first entry with a property. *)
Fixpoint find_first (p : entry -> bool) (es : list entry) : option nat :=
  match es with
  | [] => None
  | e :: es' => if p e then Some 0%nat else S <$> find_first p es'
  end.

Lemma find_first_Some p es i :
  find_first p es = Some i ->
  exists e, es !! i = Some e /\ p e = true /\ (forall j e', (j < i)%nat -> es !! j = Some e' -> p e' = false).
Proof.
  revert i. induction es as [|x es IH]; intros i; cbn; [done|]. destruct (p x) eqn:E.
  - intros [= <-]. exists x. repeat split; [done|]. intros; lia.
  - destruct (find_first p es) as [j|]; [|done]. cbn. intros [= <-].
    destruct (IH j eq_refl) as (e & He & Hp & Hlt). exists e. repeat split; [done|done|].
    intros [|j'] e' Hj; cbn; [congruence|]. apply Hlt. lia.
Qed.

Lemma find_first_None p es : find_first p es = None <-> forall i e, es !! i = Some e -> p e = false.
Proof.
  induction es as [|x es IH]; cbn; [split; [intros _ i e H; by rewrite lookup_nil in H|done]|].
  destruct (p x) eqn:E; [split; [done|intros H; specialize (H 0%nat x eq_refl); congruence]|].
  rewrite fmap_None, IH. split.
  - intros H [|i] e; cbn; [congruence|apply H].
  - intros H i e He. by apply (H (S i) e).
Qed.

(** A scan of the entries between [i] and [i + n] that contains every entry
    with the key finds the first one. *)
Lemma scan_find l cs k n : forall i,
  (i + n <= length l)%nat ->
  scan l cs k n i = Ok ((fun j => (i + j)%nat) <$> find_first (entry_matches cs k) (take n (drop i l))).
Proof.
  induction n as [|n IH]; intros i Hn; cbn [scan]; [by rewrite take_0|].
  destruct (lookup_lt_is_Some_2 l i) as [e He]; [lia|]. unfold elt. rewrite He. cbn [of_option rbind].
  rewrite (drop_S _ _ _ He). cbn [take find_first]. destruct (entry_matches cs k e).
  - cbn. by rewrite Nat.add_0_r.
  - rewrite IH by lia. f_equal. destruct (find_first _ _); cbn; [|done]. f_equal. lia.
Qed.

Lemma find_first_ext p q es : (forall e, In e es -> p e = q e) -> find_first p es = find_first q es.
Proof.
  induction es as [|x es IH]; intros H; [done|]. cbn. rewrite (H x) by (by left). rewrite IH; [done|].
  intros e He. apply H. by right.
Qed.

Lemma find_first_window p es f n :
  (forall i e, es !! i = Some e -> p e = true -> (f <= i < f + n)%nat) ->
  find_first p es = (fun j => (f + j)%nat) <$> find_first p (take n (drop f es)).
Proof.
  revert f n. induction es as [|x es IH]; intros f n H.
  { rewrite drop_nil, take_nil. done. }
  destruct f as [|f].
  - destruct n as [|n].
    + rewrite take_0. transitivity (@None nat); [|done].
      apply find_first_None. intros i e He. destruct (p e) eqn:E; [|done]. apply H in He; [lia|done].
    + cbn. destruct (p x) eqn:E; [done|]. rewrite (IH 0%nat n).
      * rewrite drop_0. by destruct (find_first p (take n es)).
      * intros i e He Hp. specialize (H (S i) e He Hp). lia.
  - cbn. destruct (p x) eqn:E; [specialize (H 0%nat x eq_refl E); lia|]. rewrite (IH f n).
    + by destruct (find_first p (take n (drop f es))).
    + intros i e He Hp. specialize (H (S i) e He Hp). lia.
Qed.

Lemma abs_lookup t i : (i < nelts t)%nat -> abs t !! i = elts t !! i.
Proof. intros H. unfold abs. by rewrite lookup_take_lt. Qed.

Lemma abs_length t : wf t -> length (abs t) = nelts t.
Proof. intros [H _ _]. unfold abs. rewrite length_take. lia. Qed.

(** The slot of a key: where its entries can be. *)
Lemma slot_of_key t k :
  wf t ->
  let h := TABLE_HASH k in
  if TABLE_INDEX_IS_INITIALIZED t h then
    (range_last t h < nelts t)%nat /\
    forall i e, abs t !! i = Some e -> same_key k e = true -> (range_first t h <= i <= range_last t h)%nat
  else forall i e, abs t !! i = Some e -> same_key k e = false.
Proof.
  intros Hwf h. destruct Hwf as [Hn Hs [_ _ _ Hslots]]. specialize (Hslots h (hash_bound k)).
  unfold TABLE_INDEX_IS_INITIALIZED, range_first, range_last. destruct (Z.testbit _ _); cbn [slot_ok] in Hslots.
  - destruct Hslots as (_ & (e & He & _) & Hall). split.
    + apply lookup_lt_Some in He. unfold abs in He. rewrite length_take in He. lia.
    + intros i e' Hi Hk. apply (Hall i e'); [done|]. by apply same_key_hash.
  - intros i e Hi. destruct (same_key k e) eqn:E; [|done]. apply same_key_hash in E. by apply Hslots in Hi.
Qed.

Lemma scan_range_find t k :
  wf t -> TABLE_INDEX_IS_INITIALIZED t (TABLE_HASH k) = true ->
  scan_range t (TABLE_HASH k) (COMPUTE_KEY_CHECKSUM k) k = Ok (find_first (same_key k) (abs t)).
Proof.
  intros Hwf Hb. pose proof (slot_of_key t k Hwf) as Hk. cbv zeta in Hk. rewrite Hb in Hk. destruct Hk as [Hlt Hall].
  pose proof Hwf as [Hn Hs _]. unfold scan_range. set (f := range_first t _) in *. set (la := range_last t _) in *.
  destruct (Nat.le_gt_cases f la) as [Hfl|Hfl].
  2: { replace (S la - f)%nat with 0%nat by lia. cbn [scan]. f_equal. symmetry. apply find_first_None.
       intros i e Hi. destruct (same_key k e) eqn:E; [|done]. apply Hall in Hi; [lia|done]. }
  rewrite scan_find by lia. f_equal.
  rewrite (find_first_window (same_key k) (abs t) f (S la - f)) by (intros i e Hi He; apply Hall in Hi; [lia|done]).
  f_equal. replace (take (S la - f) (drop f (abs t))) with (take (S la - f) (drop f (elts t))).
  2: { unfold abs. rewrite skipn_firstn_comm, firstn_firstn. f_equal. lia. }
  apply find_first_ext. intros e He. apply entry_matches_key. rewrite Forall_forall in Hs. apply Hs.
  unfold abs. apply elem_of_take. apply list_elem_of_In, elem_of_take in He as (i & Hi & Hlt').
  rewrite lookup_drop in Hi. exists (f + i)%nat. split; [done|lia].
Qed.

Lemma no_slot t k :
  wf t -> TABLE_INDEX_IS_INITIALIZED t (TABLE_HASH k) = false -> find_first (same_key k) (abs t) = None.
Proof.
  intros Hwf Hb. pose proof (slot_of_key t k Hwf) as Hk. cbv zeta in Hk. rewrite Hb in Hk. by apply find_first_None.
Qed.

(** The value under a key: that of the first entry with it. *)
Definition lookup_first (k : list Z) (es : list entry) : option (list Z) :=
  find_first (same_key k) es ≫= fun i => val <$> es !! i.

Lemma get_first t k : wf t -> apr_table_get t k = Ok (lookup_first k (abs t)).
Proof.
  intros Hwf. unfold apr_table_get, lookup_first. destruct (TABLE_INDEX_IS_INITIALIZED _ _) eqn:E.
  - rewrite scan_range_find by done. cbn [rbind]. destruct (find_first _ _) as [i|] eqn:F; [|done].
    apply find_first_Some in F as (e & He & _). cbn. rewrite He. apply lookup_lt_Some in He as Hlt.
    rewrite abs_length in Hlt by done. rewrite abs_lookup in He by done. unfold elt. by rewrite He.
  - by rewrite no_slot.
Qed.

(** ** Adding and overwriting *)

Lemma abs_push t e : (nelts t <= length (elts t))%nat -> abs (table_push t e) = abs t ++ [e].
Proof.
  intros H. unfold abs, table_push. cbn [elts nelts set_elts].
  rewrite take_app_ge by (rewrite length_take; lia). rewrite length_take.
  replace (S (nelts t) - nelts t `min` length (elts t))%nat with 1%nat by lia. done.
Qed.

Definition new_entry (k v : list Z) : entry := mkEntry k v (COMPUTE_KEY_CHECKSUM k).

Lemma add_wf t k v : wf t -> wf (apr_table_add t k v) /\ abs (apr_table_add t k v) = abs t ++ [new_entry k v].
Proof.
  intros Hwf. pose proof Hwf as [Hn Hs Hi]. pose proof (abs_length t Hwf) as Hlen.
  assert (Ha : abs (apr_table_add t k v) = abs t ++ [new_entry k v]).
  { unfold apr_table_add. case_match; by rewrite abs_push. }
  split; [|done]. split.
  - unfold apr_table_add, table_push. case_match; cbn; rewrite length_app, length_take; cbn; lia.
  - rewrite Ha. apply Forall_app. split; [done|]. by apply Forall_singleton.
  - rewrite Ha. apply (index_ok_snoc _ _ _ _ (new_entry k v)) in Hi. cbv zeta in Hi. rewrite Hlen in Hi.
    unfold hash_of in Hi. cbn [key new_entry] in Hi.
    unfold apr_table_add, TABLE_INDEX_IS_INITIALIZED. cbn [index_initialized set_last].
    by destruct (Z.testbit _ _).
Qed.

(** The branch of the other operations that adds an entry does the same. *)
Lemma add_new_elt_add t k v :
  (if TABLE_INDEX_IS_INITIALIZED t (TABLE_HASH k) then add_new_elt t (TABLE_HASH k) k v (COMPUTE_KEY_CHECKSUM k)
   else add_new_elt (init_index t (TABLE_HASH k) (nelts t)) (TABLE_HASH k) k v (COMPUTE_KEY_CHECKSUM k))
  = apr_table_add t k v.
Proof.
  unfold apr_table_add, TABLE_INDEX_IS_INITIALIZED. cbn [index_initialized set_last]. by destruct (Z.testbit _ _).
Qed.

Lemma index_ok_ext es es' bits first last :
  map hash_of es = map hash_of es' -> index_ok es bits first last -> index_ok es' bits first last.
Proof.
  intros Hm [H1 H2 H3 H4]. split; [done..|]. intros h Hh. specialize (H4 h Hh).
  assert (Hx : forall i e', es' !! i = Some e' -> exists e, es !! i = Some e /\ hash_of e = hash_of e').
  { intros i e' He'. assert (Hl : map hash_of es !! i = Some (hash_of e')) by (rewrite Hm, list_lookup_fmap, He'; done).
    rewrite list_lookup_fmap in Hl. apply fmap_Some in Hl as (e & He & Hh'). by exists e. }
  assert (Hy : forall i e, es !! i = Some e -> exists e', es' !! i = Some e' /\ hash_of e' = hash_of e).
  { intros i e He. assert (Hl : map hash_of es' !! i = Some (hash_of e)) by (rewrite <- Hm, list_lookup_fmap, He; done).
    rewrite list_lookup_fmap in Hl. apply fmap_Some in Hl as (e' & He' & Hh'). by exists e'. }
  destruct (Z.testbit _ _); cbn [slot_ok] in *.
  - destruct H4 as ((e1 & He1 & Hh1) & (e2 & He2 & Hh2) & Hall). split; [|split].
    + destruct (Hy _ _ He1) as (e & He & Hhe). exists e. split; [done|congruence].
    + destruct (Hy _ _ He2) as (e & He & Hhe). exists e. split; [done|congruence].
    + intros i e' He' Hh'. destruct (Hx _ _ He') as (e & He & Hhe). apply (Hall i e); [done|congruence].
  - intros i e' He' Hc. destruct (Hx _ _ He') as (e & He & Hhe). apply (H4 i e); [done|congruence].
Qed.

Lemma set_val_wf t i e v :
  wf t -> abs t !! i = Some e ->
  wf (set_elts t (<[i := set_val e v]> (elts t)) (nelts t)) /\
  abs (set_elts t (<[i := set_val e v]> (elts t)) (nelts t)) = <[i := set_val e v]> (abs t).
Proof.
  intros Hwf He. pose proof Hwf as [Hn Hs Hi]. apply lookup_lt_Some in He as Hlt. rewrite abs_length in Hlt by done.
  assert (Ha : abs (set_elts t (<[i := set_val e v]> (elts t)) (nelts t)) = <[i := set_val e v]> (abs t)).
  { unfold abs. cbn. by rewrite take_insert_lt. }
  split; [|done]. split.
  - cbn. by rewrite length_insert.
  - rewrite Ha. apply Forall_insert; [done|]. rewrite Forall_lookup in Hs. exact (Hs i e He).
  - rewrite Ha. cbn [index_initialized index_first index_last set_elts]. eapply index_ok_ext; [|exact Hi].
    apply list_eq. intros j. rewrite !list_lookup_fmap.
    destruct (decide (j = i)) as [->|Hne]; [|by rewrite list_lookup_insert_ne].
    rewrite list_lookup_insert_eq by (rewrite abs_length; done). by rewrite He.
Qed.

(** ** Reindexing *)

Lemma reindex_loop_ok n : forall i t es,
  (i + n <= length (elts t))%nat -> es = take i (elts t) ->
  index_ok es (index_initialized t) (index_first t) (index_last t) ->
  exists t', reindex_loop n i t = Ok t' /\ elts t' = elts t /\ nelts t' = nelts t /\
    index_ok (take (i + n) (elts t)) (index_initialized t') (index_first t') (index_last t').
Proof.
  induction n as [|n IH]; intros i t es Hn -> Hi; cbn [reindex_loop].
  { exists t. by rewrite Nat.add_0_r. }
  destruct (lookup_lt_is_Some_2 (elts t) i) as [e He]; [lia|]. unfold elt. rewrite He. cbn [of_option rbind].
  apply (index_ok_snoc _ _ _ _ e) in Hi. cbv zeta in Hi. rewrite length_take, Nat.min_l in Hi by lia.
  rewrite <- (take_S_r _ _ _ He) in Hi. unfold hash_of in Hi.
  set (t1 := if TABLE_INDEX_IS_INITIALIZED _ _ then _ else _).
  assert (Ht1 : elts t1 = elts t /\ nelts t1 = nelts t) by (unfold t1; by destruct (TABLE_INDEX_IS_INITIALIZED _ _)).
  destruct Ht1 as [E1 E2].
  destruct (IH (S i) t1 (take (S i) (elts t1))) as (t' & Hr & Hel & Hne & Hix).
  - rewrite E1. lia.
  - done.
  - rewrite E1. unfold t1, TABLE_INDEX_IS_INITIALIZED. cbn [index_initialized set_last]. by destruct (Z.testbit _ _).
  - exists t'. rewrite Hr, Hel, Hne, E1, E2. rewrite E1 in Hix. replace (i + S n)%nat with (S i + n)%nat by lia. done.
Qed.

Lemma reindex_wf t :
  (nelts t <= length (elts t))%nat -> Forall checksum_ok (abs t) ->
  length (index_first t) = TABLE_HASH_SIZE -> length (index_last t) = TABLE_HASH_SIZE ->
  exists t', table_reindex t = Ok t' /\ wf t' /\ abs t' = abs t.
Proof.
  intros Hn Hs Hf Hl. unfold table_reindex.
  destruct (reindex_loop_ok (nelts t) 0 (mkTable (elts t) (nelts t) 0 (index_first t) (index_last t)) [])
    as (t' & Hr & He & Hne & Hi); [done|done|by apply index_ok_nil|].
  cbn [elts nelts] in *. assert (Ha : abs t' = abs t) by (unfold abs; by rewrite He, Hne).
  exists t'. split; [done|]. split; [|done]. split.
  - by rewrite He, Hne.
  - by rewrite Ha.
  - by rewrite Ha.
Qed.

(** ** Removing entries in place *)

(** Equalities of tuples up to linear arithmetic. *)
Ltac eq_lia := repeat first [reflexivity | lia | f_equal].

Section Removal.

Context (cs : Z) (k : list Z).

Definition kept (es : list entry) : list entry := List.filter (fun e => negb (entry_matches cs k e)) es.

Lemma kept_cons x m : kept (x :: m) = if entry_matches cs k x then kept m else x :: kept m.
Proof. unfold kept. cbn. by destruct (entry_matches cs k x). Qed.

Lemma kept_le m : (length (kept m) <= length m)%nat.
Proof. apply filter_length_le. Qed.

(** With [dst_elt] at the end of [p] and [g] the gap up to [next_elt]. *)
Lemma remove_loop_gap m : forall p g rest cnt,
  exists g', remove_loop cs k (length m) (length p + length g) (Some (length p)) (p ++ g ++ m ++ rest) cnt =
    Ok (p ++ kept m ++ g' ++ rest, (cnt - (length m - length (kept m)))%nat, Some (length p + length (kept m))%nat) /\
    (length g' + length (kept m) = length g + length m)%nat.
Proof.
  induction m as [|x m IH]; intros p g rest cnt; cbn [length remove_loop].
  { exists g. split; [|cbn; lia]. cbn. eq_lia. }
  assert (Hx : (p ++ g ++ (x :: m) ++ rest) !! (length p + length g)%nat = Some x).
  { rewrite lookup_app_r by lia. rewrite lookup_app_r by lia.
    replace (length p + length g - length p - length g)%nat with 0%nat by lia. done. }
  unfold elt. rewrite Hx, kept_cons. cbn [of_option rbind]. destruct (entry_matches cs k x); cbn [length].
  - destruct (IH p (g ++ [x]) rest (pred cnt)) as (g' & Hr & Hlen). exists g'. rewrite length_app in *. cbn [length] in *.
    rewrite <- !app_assoc in Hr. cbn [app] in *.
    replace (length p + (length g + 1))%nat with (S (length p + length g)) in Hr by lia.
    rewrite Hr. split; [|lia]. pose proof (kept_le m) as Hle.
    eq_lia.
  - destruct g as [|y g].
    + destruct (IH (p ++ [x]) [] rest cnt) as (g' & Hr & Hlen). exists g'. rewrite length_app in Hr. cbn [length] in *.
      rewrite <- !app_assoc in Hr. cbn [app] in *. rewrite Nat.add_0_r in *.
      rewrite list_insert_id by done. replace (length p + 1)%nat with (S (length p)) in Hr by lia.
      rewrite Hr. split; [|lia].
      eq_lia.
    + destruct (IH (p ++ [x]) (g ++ [x]) rest cnt) as (g' & Hr & Hlen). exists g'. rewrite !length_app in *. cbn [length] in *.
      rewrite <- !app_assoc in Hr. cbn [app] in *.
      replace (<[length p := x]> (p ++ y :: g ++ x :: m ++ rest)) with (p ++ x :: g ++ x :: m ++ rest)
        by (by rewrite insert_app_r_alt, Nat.sub_diag by lia).
      replace (length p + 1 + (length g + 1))%nat with (S (length p + S (length g))) in Hr by lia.
      replace (length p + 1)%nat with (S (length p)) in Hr by lia. rewrite Hr. split; [|lia].
      eq_lia.
Qed.

(** Before any match [dst_elt] is NULL. *)
Lemma remove_loop_none m : forall p rest cnt,
  (remove_loop cs k (length m) (length p) None (p ++ m ++ rest) cnt = Ok (p ++ m ++ rest, cnt, None) /\ kept m = m) \/
  exists g', remove_loop cs k (length m) (length p) None (p ++ m ++ rest) cnt =
    Ok (p ++ kept m ++ g' ++ rest, (cnt - (length m - length (kept m)))%nat, Some (length p + length (kept m))%nat) /\
    (length g' + length (kept m) = length m)%nat.
Proof.
  induction m as [|x m IH]; intros p rest cnt; cbn [length remove_loop]; [by left|].
  assert (Hx : (p ++ (x :: m) ++ rest) !! length p = Some x) by (by rewrite lookup_app_r, Nat.sub_diag by lia).
  unfold elt. rewrite Hx, kept_cons. cbn [of_option rbind]. destruct (entry_matches cs k x); cbn [length].
  - right. destruct (remove_loop_gap m p [x] rest (pred cnt)) as (g' & Hr & Hlen). exists g'. cbn [length app] in *.
    replace (length p + 1)%nat with (S (length p)) in Hr by lia. rewrite Hr. split; [|lia].
    pose proof (kept_le m) as Hle.
    eq_lia.
  - destruct (IH (p ++ [x]) rest cnt) as [[Hr Hk]|(g' & Hr & Hlen)]; rewrite length_app in Hr; cbn [length] in Hr;
      rewrite <- !app_assoc in Hr; cbn [app] in *; replace (length p + 1)%nat with (S (length p)) in Hr by lia.
    + left. split; [done|by rewrite Hk].
    + right. exists g'. rewrite Hr. cbn [length]. split; [|lia]. eq_lia.
Qed.

Lemma shift_loop_gap m : forall p g rest,
  exists g', shift_loop (length m) (length p + length g) (length p) (p ++ g ++ m ++ rest) = Ok (p ++ m ++ g' ++ rest).
Proof.
  induction m as [|x m IH]; intros p g rest; cbn [length shift_loop]; [by exists g|].
  assert (Hx : (p ++ g ++ (x :: m) ++ rest) !! (length p + length g)%nat = Some x).
  { rewrite lookup_app_r by lia. rewrite lookup_app_r by lia.
    replace (length p + length g - length p - length g)%nat with 0%nat by lia. done. }
  unfold elt. rewrite Hx. cbn [of_option rbind].
  destruct g as [|y g].
  - destruct (IH (p ++ [x]) [] rest) as (g' & Hr). exists g'. rewrite length_app in Hr. cbn [length app] in *.
    rewrite <- !app_assoc in Hr. cbn [app] in *. rewrite Nat.add_0_r in *. rewrite list_insert_id by done.
    by replace (length p + 1)%nat with (S (length p)) in Hr by lia.
  - destruct (IH (p ++ [x]) (g ++ [x]) rest) as (g' & Hr). exists g'. rewrite !length_app in Hr. cbn [length app] in *.
    rewrite <- !app_assoc in Hr. cbn [app] in *.
    replace (<[length p := x]> (p ++ y :: g ++ x :: m ++ rest)) with (p ++ x :: g ++ x :: m ++ rest)
      by (by rewrite insert_app_r_alt, Nat.sub_diag by lia).
    replace (length p + 1 + (length g + 1))%nat with (S (length p + S (length g))) in Hr by lia.
    by replace (length p + 1)%nat with (S (length p)) in Hr by lia.
Qed.

End Removal.

(** ** The operations on the list of entries *)

Definition others (k : list Z) (es : list entry) : list entry := List.filter (fun e => negb (same_key k e)) es.

Definition spec_add (k v : list Z) (es : list entry) : list entry := es ++ [new_entry k v].

(** Overwrite the first entry with the key and drop the other ones, or add. *)
Definition spec_set (k v : list Z) (es : list entry) : list entry :=
  match find_first (same_key k) es with
  | Some i => match es !! i with
              | Some e => take i es ++ set_val e v :: others k (drop (S i) es)
              | None => es
              end
  | None => spec_add k v es
  end.

(** Append to the value of the first entry with the key, or add. *)
Definition spec_merge (k v : list Z) (es : list entry) : list entry :=
  match find_first (same_key k) es with
  | Some i => match es !! i with
              | Some e => <[i := set_val e (val e ++ str ", " ++ v)]> es
              | None => es
              end
  | None => spec_add k v es
  end.

Lemma others_app k a b : others k (a ++ b) = others k a ++ others k b.
Proof. apply List.filter_app. Qed.

Lemma others_id k es : Forall (fun e => same_key k e = false) es -> others k es = es.
Proof. induction 1 as [|e es He _ IH]; [done|]. unfold others in *. cbn. rewrite He. cbn. by rewrite IH. Qed.

Lemma kept_others k es : Forall checksum_ok es -> kept (COMPUTE_KEY_CHECKSUM k) k es = others k es.
Proof.
  intros H. unfold kept, others. apply List.filter_ext_in. intros e He. rewrite entry_matches_key; [done|].
  rewrite Forall_forall in H. apply H. by apply list_elem_of_In.
Qed.

Lemma find_first_others k es : find_first (same_key k) es = None -> others k es = es.
Proof.
  intros H. apply others_id, Forall_lookup. intros i e He. by apply (proj1 (find_first_None _ _) H i e).
Qed.

Lemma others_Forall (P : entry -> Prop) k es : Forall P es -> Forall P (others k es).
Proof.
  rewrite !Forall_forall. intros H e He. apply H. apply list_elem_of_In in He. apply list_elem_of_In.
  by apply List.filter_In in He as [He _].
Qed.

(** The storage around the first entry with a key: [pre], the entry, the rest
    of its index range, the rest of the table, stale entries. *)
Lemma split_table t k i :
  wf t -> TABLE_INDEX_IS_INITIALIZED t (TABLE_HASH k) = true -> find_first (same_key k) (abs t) = Some i ->
  exists pre e m r tail,
    elts t = pre ++ e :: m ++ r ++ tail /\ abs t = pre ++ e :: m ++ r /\ length pre = i /\ same_key k e = true /\
    length m = (S (range_last t (TABLE_HASH k)) - S i)%nat /\ length r = (nelts t - S (range_last t (TABLE_HASH k)))%nat /\
    Forall (fun e => same_key k e = false) pre /\ Forall (fun e => same_key k e = false) r.
Proof.
  intros Hwf Hb Hf. pose proof (slot_of_key t k Hwf) as Hk. cbv zeta in Hk. rewrite Hb in Hk. destruct Hk as [Hlt Hall].
  apply find_first_Some in Hf as (e & He & Hs & Hpre). pose proof (Hall i e He Hs) as Hi.
  set (la := range_last t (TABLE_HASH k)) in *. pose proof (abs_length t Hwf) as Hlen.
  exists (take i (abs t)), e, (take (S la - S i) (drop (S i) (abs t))), (drop (S la) (abs t)), (drop (nelts t) (elts t)).
  assert (Habs : abs t = take i (abs t) ++ e :: take (S la - S i) (drop (S i) (abs t)) ++ drop (S la) (abs t)).
  { rewrite <- (take_drop_middle _ _ _ He) at 1. do 2 f_equal.
    rewrite <- (take_drop (S la - S i) (drop (S i) (abs t))) at 1. f_equal. rewrite drop_drop. f_equal. lia. }
  repeat split; try done.
  - rewrite <- (take_drop (nelts t) (elts t)) at 1. fold (abs t). rewrite Habs at 1.
    by rewrite <- !app_assoc, <- app_comm_cons, <- !app_assoc.
  - rewrite length_take. lia.
  - rewrite length_take, length_drop. lia.
  - rewrite length_drop. lia.
  - apply Forall_lookup. intros j x Hj. apply lookup_take_Some in Hj as [Hj Hlt']. by apply (Hpre j x).
  - apply Forall_lookup. intros j x Hj. rewrite lookup_drop in Hj. destruct (same_key k x) eqn:E; [|done].
    apply Hall in Hj; [lia|done].
Qed.

Lemma abs_exact t pre stale : elts t = pre ++ stale -> nelts t = length pre -> abs t = pre.
Proof. intros H1 H2. unfold abs. rewrite H1, H2. apply take_app_length. Qed.

Lemma index_lengths t : wf t -> length (index_first t) = TABLE_HASH_SIZE /\ length (index_last t) = TABLE_HASH_SIZE.
Proof. by intros [_ _ [H1 H2 _ _]]. Qed.

(** The end of a removal: the rest of the table is moved down over the gap and
    the index is computed again. *)
Lemma shift_reindex t p g r tail :
  wf t -> Forall checksum_ok (p ++ r) ->
  exists t', (do l <- shift_loop (length r) (length p + length g) (length p) (p ++ g ++ r ++ tail);
              table_reindex (set_elts t l (length p + length r))) = Ok t' /\ wf t' /\ abs t' = p ++ r.
Proof.
  intros Hwf Hs. destruct (shift_loop_gap r p g tail) as (g' & ->). cbn [rbind].
  destruct (index_lengths t Hwf) as [Hf1 Hl1].
  assert (Ha : abs (set_elts t (p ++ r ++ g' ++ tail) (length p + length r)) = p ++ r).
  { apply (abs_exact _ _ (g' ++ tail)); cbn; [by rewrite <- app_assoc|by rewrite length_app]. }
  destruct (reindex_wf (set_elts t (p ++ r ++ g' ++ tail) (length p + length r))) as (t' & Hre & Hwf' & Ha'); try done.
  - cbn. rewrite !length_app. lia.
  - by rewrite Ha.
  - exists t'. by rewrite Ha', Ha.
Qed.

Lemma set_refines t k v : wf t -> exists t', apr_table_set t k v = Ok t' /\ wf t' /\ abs t' = spec_set k v (abs t).
Proof.
  intros Hwf. unfold apr_table_set, spec_set.
  pose proof (add_new_elt_add t k v) as Hadd. destruct (add_wf t k v Hwf) as [Haw Haa].
  destruct (TABLE_INDEX_IS_INITIALIZED t (TABLE_HASH k)) eqn:Hb.
  2: { rewrite no_slot, Hadd by done. by exists (apr_table_add t k v). }
  rewrite scan_range_find by done. cbn [rbind]. destruct (find_first (same_key k) (abs t)) as [i|] eqn:Hf.
  2: { rewrite Hadd. by exists (apr_table_add t k v). }
  destruct (split_table t k i Hwf Hb Hf) as (pre & e & m & r & tail & Hel & Habs & Hpre & Hke & Hm & Hr & Hp1 & Hr1).
  assert (Hei : elts t !! i = Some e) by (rewrite Hel, lookup_app_r, Hpre, Nat.sub_diag by lia; done).
  assert (Hai : abs t !! i = Some e) by (rewrite Habs, lookup_app_r, Hpre, Nat.sub_diag by lia; done).
  unfold elt. rewrite Hei, Hai. cbn [of_option rbind].
  replace (drop (S i) (abs t)) with (m ++ r) by (rewrite Habs, drop_app_ge, <- Hpre, Nat.sub_succ_l, Nat.sub_diag by lia; done).
  replace (take i (abs t)) with pre by (rewrite Habs, <- Hpre; by rewrite take_app_length).
  pose proof (wf_sums t Hwf) as Hsum. rewrite Habs in Hsum. apply Forall_app in Hsum as [Hs1 Hs2].
  apply Forall_cons in Hs2 as [Hse [Hsm Hsr]%Forall_app].
  rewrite others_app, (others_id k r Hr1), <- (kept_others k m Hsm).
  assert (Hins : <[i := set_val e v]> (elts t) = (pre ++ [set_val e v]) ++ m ++ r ++ tail).
  { rewrite Hel, insert_app_r_alt, Hpre, Nat.sub_diag by lia. by rewrite <- app_assoc. }
  assert (Hpi : S i = length (pre ++ [set_val e v])) by (rewrite length_app; cbn; lia).
  pose proof (abs_length t Hwf) as Hlen. rewrite Habs, length_app in Hlen. cbn [length] in Hlen. rewrite length_app in Hlen.
  rewrite Hins, Hpi, <- Hpi, <- Hm, Hpi.
  destruct (remove_loop_none (COMPUTE_KEY_CHECKSUM k) k m (pre ++ [set_val e v]) (r ++ tail) (nelts t))
    as [[Hrm Hk]|(g' & Hrm & Hg)]; rewrite Hrm; cbn [rbind].
  - destruct (set_val_wf t i e v Hwf Hai) as [Hw Ha]. rewrite Hins in Hw, Ha. eexists. split; [reflexivity|]. split; [done|].
    rewrite Ha, Habs, insert_app_r_alt, Hpre, Nat.sub_diag by lia. by rewrite Hk.
  - destruct (shift_reindex t ((pre ++ [set_val e v]) ++ kept (COMPUTE_KEY_CHECKSUM k) k m) g' r tail Hwf)
      as (t' & Hsh & Hwf' & Ha').
    { rewrite !Forall_app, Forall_singleton, (kept_others k m Hsm). repeat split; try done. by apply others_Forall. }
    exists t'. rewrite Ha', <- !app_assoc. split; [|by split]. rewrite <- Hsh, <- Hr, !length_app, <- !app_assoc. cbn [length] in *.
    rewrite !length_app in *. cbn [length] in *. pose proof (kept_le (COMPUTE_KEY_CHECKSUM k) k m).
    match goal with |- _ = rbind (shift_loop _ ?a _ _) (fun l => table_reindex (set_elts _ l ?b)) =>
      replace (S (range_last t (TABLE_HASH k))) with a by lia; by replace (nelts t - _)%nat with b by lia end.
Qed.

Lemma unset_refines t k : wf t -> exists t', apr_table_unset t k = Ok t' /\ wf t' /\ abs t' = others k (abs t).
Proof.
  intros Hwf. unfold apr_table_unset. destruct (TABLE_INDEX_IS_INITIALIZED t (TABLE_HASH k)) eqn:Hb.
  2: { exists t. by rewrite find_first_others by (by apply no_slot). }
  rewrite scan_range_find by done. cbn [rbind]. destruct (find_first (same_key k) (abs t)) as [i|] eqn:Hf.
  2: { exists t. by rewrite find_first_others. }
  destruct (split_table t k i Hwf Hb Hf) as (pre & e & m & r & tail & Hel & Habs & Hpre & Hke & Hm & Hr & Hp1 & Hr1).
  pose proof (wf_sums t Hwf) as Hsum. rewrite Habs in Hsum. apply Forall_app in Hsum as [Hs1 Hs2].
  apply Forall_cons in Hs2 as [Hse [Hsm Hsr]%Forall_app].
  pose proof (abs_length t Hwf) as Hlen. rewrite Habs, length_app in Hlen. cbn [length] in Hlen. rewrite length_app in Hlen.
  assert (Ho : others k (abs t) = (pre ++ kept (COMPUTE_KEY_CHECKSUM k) k m) ++ r).
  { rewrite Habs, others_app, (others_id k pre Hp1), (kept_others k m Hsm).
    change (e :: m ++ r) with ([e] ++ m ++ r). rewrite !others_app, (others_id k r Hr1), <- app_assoc.
    unfold others at 1. cbn. by rewrite Hke. }
  rewrite Hel, <- Hm.
  destruct (remove_loop_gap (COMPUTE_KEY_CHECKSUM k) k m pre [e] (r ++ tail) (pred (nelts t))) as (g' & Hrm & Hg).
  replace (S i) with (length pre + length [e])%nat by (cbn; lia). rewrite <- Hpre in *. cbn [app] in Hrm.
  rewrite Hrm. cbn [rbind default].
  destruct (shift_reindex t (pre ++ kept (COMPUTE_KEY_CHECKSUM k) k m) g' r tail Hwf) as (t' & Hsh & Hwf' & Ha').
  { rewrite !Forall_app, (kept_others k m Hsm). repeat split; try done. by apply others_Forall. }
  exists t'. rewrite Ha', Ho. split; [|done]. rewrite <- Hsh, <- Hr, !length_app, <- !app_assoc. cbn [length] in *.
  pose proof (kept_le (COMPUTE_KEY_CHECKSUM k) k m). unfold id.
  match goal with |- _ = rbind (shift_loop _ ?a _ _) (fun l => table_reindex (set_elts _ l ?b)) =>
    replace (S (range_last t (TABLE_HASH k))) with a by lia; by replace (pred (nelts t) - _)%nat with b by lia end.
Qed.

Lemma merge_refines t k v : wf t -> exists t', apr_table_merge t k v = Ok t' /\ wf t' /\ abs t' = spec_merge k v (abs t).
Proof.
  intros Hwf. unfold apr_table_merge, spec_merge.
  pose proof (add_new_elt_add t k v) as Hadd. destruct (add_wf t k v Hwf) as [Haw Haa].
  destruct (TABLE_INDEX_IS_INITIALIZED t (TABLE_HASH k)) eqn:Hb.
  2: { rewrite no_slot, Hadd by done. by exists (apr_table_add t k v). }
  rewrite scan_range_find by done. cbn [rbind]. destruct (find_first (same_key k) (abs t)) as [i|] eqn:Hf.
  2: { rewrite Hadd. by exists (apr_table_add t k v). }
  apply find_first_Some in Hf as (e & He & _). rewrite He. apply lookup_lt_Some in He as Hlt.
  rewrite abs_length in Hlt by done. pose proof He as He'. rewrite abs_lookup in He' by done.
  unfold elt. rewrite He'. cbn [of_option rbind].
  destruct (set_val_wf t i e (val e ++ str ", " ++ v) Hwf He) as [Hw Ha]. eexists. split; [reflexivity|]. by split.
Qed.

Lemma make_wf junk1 junk2 :
  length junk1 = TABLE_HASH_SIZE -> length junk2 = TABLE_HASH_SIZE -> wf (apr_table_make junk1 junk2).
Proof. intros H1 H2. split; [done|by apply Forall_nil|by apply index_ok_nil]. Qed.

Lemma clear_wf t : wf t -> wf (apr_table_clear t) /\ abs (apr_table_clear t) = [].
Proof.
  intros Hwf. destruct (index_lengths t Hwf) as [H1 H2].
  split; [|done]. split; [cbn; lia|by apply Forall_nil|by apply index_ok_nil].
Qed.

Lemma copy_wf t : wf t -> wf (apr_table_copy t) /\ abs (apr_table_copy t) = abs t.
Proof.
  intros [Hn Hs Hi].
  assert (Ha : abs (apr_table_copy t) = abs t) by (unfold abs, apr_table_copy; cbn; rewrite take_take; f_equal; lia).
  split; [|done]. split; [|by rewrite Ha|by rewrite Ha].
  cbn. rewrite length_take. lia.
Qed.

Lemma overlay_refines junk1 junk2 o b :
  length junk1 = TABLE_HASH_SIZE -> length junk2 = TABLE_HASH_SIZE -> wf o -> wf b ->
  exists t, apr_table_overlay junk1 junk2 o b = Ok t /\ wf t /\ abs t = abs o ++ abs b.
Proof.
  intros H1 H2 Ho Hb. unfold apr_table_overlay. fold (abs o) (abs b). pose proof (abs_length o Ho). pose proof (abs_length b Hb).
  set (t := mkTable _ _ _ _ _).
  assert (Ha : abs t = abs o ++ abs b).
  { apply (abs_exact _ _ []); cbn; [by rewrite app_nil_r|rewrite length_app; lia]. }
  destruct (reindex_wf t) as (t' & Hr & Hwf & Ha'); try done.
  - cbn. rewrite length_app. lia.
  - rewrite Ha. apply Forall_app. split; [apply Ho|apply Hb].
  - exists t'. by rewrite Ha', Ha.
Qed.

(** The loop of [apr_table_cat] over the index, slot by slot. *)
Lemma cat_index_lookup s n0 bits n : forall idx first last f' l',
  cat_index s n0 n idx bits first last = (f', l') -> (idx + n <= length first)%nat -> (idx + n <= length last)%nat ->
  length f' = length first /\ length l' = length last /\
  forall h, (h < length first)%nat -> (h < length last)%nat ->
    let here := Nat.leb idx h && Nat.ltb h (idx + n) && TABLE_INDEX_IS_INITIALIZED s h in
    default 0%nat (l' !! h) = (if here then range_last s h + n0 else default 0 (last !! h))%nat /\
    default 0%nat (f' !! h) =
      (if here && negb (Z.testbit bits (Z.of_nat h)) then range_first s h + n0 else default 0 (first !! h))%nat.
Proof.
  induction n as [|n IH]; intros idx first last f' l' Hc Hf Hl; cbn [cat_index] in Hc.
  { injection Hc as <- <-. repeat split; try done;
      replace (Nat.leb idx h && Nat.ltb h (idx + 0)) with false; try done;
      symmetry; apply andb_false_iff; rewrite Nat.leb_gt, Nat.ltb_ge; lia. }
  assert (Hin : forall h, h <> idx -> Nat.leb idx h && Nat.ltb h (idx + S n) = Nat.leb (S idx) h && Nat.ltb h (S idx + n)).
  { intros h Hne. apply eq_true_iff_eq. rewrite !andb_true_iff, !Nat.leb_le, !Nat.ltb_lt. lia. }
  assert (Hout : Nat.leb (S idx) idx && Nat.ltb idx (S idx + n) = false).
  { apply andb_false_iff. left. apply Nat.leb_gt. lia. }
  assert (Hhere : Nat.leb idx idx && Nat.ltb idx (idx + S n) = true).
  { rewrite andb_true_iff, Nat.leb_le, Nat.ltb_lt. lia. }
  destruct (TABLE_INDEX_IS_INITIALIZED s idx) eqn:E.
  - set (f1 := if Z.testbit bits _ then _ else _) in Hc. set (l1 := <[idx := _]> last) in Hc.
    assert (Hf1 : length f1 = length first) by (unfold f1; destruct (Z.testbit _ _); by rewrite ?length_insert).
    assert (Hl1 : length l1 = length last) by (unfold l1; by rewrite length_insert).
    apply IH in Hc as (H1 & H2 & H3); [|lia..]. split; [lia|]. split; [lia|]. intros h Hh Hh'.
    destruct (H3 h) as [H4 H5]; [lia..|]. rewrite H4, H5. destruct (decide (h = idx)) as [->|Hne].
    + rewrite Hout, Hhere, E. cbn [andb]. unfold l1, f1. rewrite list_lookup_insert_eq by done. split; [done|].
      destruct (Z.testbit _ _); [done|]. by rewrite list_lookup_insert_eq.
    + rewrite (Hin h Hne). unfold l1, f1. rewrite list_lookup_insert_ne by done. split; [done|].
      by destruct (Z.testbit bits (Z.of_nat idx)); rewrite ?list_lookup_insert_ne.
  - apply IH in Hc as (H1 & H2 & H3); [|lia..]. split; [lia|]. split; [lia|]. intros h Hh Hh'.
    destruct (H3 h) as [H4 H5]; [lia..|]. rewrite H4, H5. destruct (decide (h = idx)) as [->|Hne].
    + by rewrite Hout, Hhere, E.
    + by rewrite (Hin h Hne).
Qed.

Lemma slot_ok_app es es' h b b' f l f' l' :
  slot_ok es h b f l -> slot_ok es' h b' f' l' ->
  slot_ok (es ++ es') h (b || b') (if b' && negb b then f' + length es else f)%nat (if b' then l' + length es else l)%nat.
Proof.
  intros H H'.
  assert (Hr : forall i e, es' !! i = Some e -> (es ++ es') !! (i + length es)%nat = Some e).
  { intros i e He. rewrite lookup_app_r by lia. by replace (i + length es - length es)%nat with i by lia. }
  assert (Hl : forall i e, es !! i = Some e -> (es ++ es') !! i = Some e).
  { intros i e He. rewrite lookup_app_l; [done|by apply lookup_lt_Some in He]. }
  destruct b, b'; cbn [slot_ok orb andb negb] in *.
  - destruct H as ((e1 & He1 & Hh1) & (e2 & He2 & Hh2) & Hall), H' as ((e3 & He3 & Hh3) & (e4 & He4 & Hh4) & Hall').
    split; [exists e1; auto|]. split; [exists e4; auto|].
    intros i e [Hi|[Hge Hi]]%lookup_app_Some He.
    + apply Hall in Hi as Hb; [|done]. apply lookup_lt_Some in Hi. lia.
    + apply Hall' in Hi; [|done]. apply lookup_lt_Some in He1. lia.
  - destruct H as ((e1 & He1 & Hh1) & (e2 & He2 & Hh2) & Hall).
    split; [exists e1; auto|]. split; [exists e2; auto|].
    intros i e [Hi|[Hge Hi]]%lookup_app_Some He; [by apply (Hall i e)|by apply H' in Hi].
  - destruct H' as ((e3 & He3 & Hh3) & (e4 & He4 & Hh4) & Hall').
    split; [exists e3; auto|]. split; [exists e4; auto|].
    intros i e [Hi|[Hge Hi]]%lookup_app_Some He; [by apply H in Hi|]. apply Hall' in Hi; [lia|done].
  - intros i e [Hi|[Hge Hi]]%lookup_app_Some; [by apply (H i e)|by apply H' in Hi].
Qed.

Lemma lor_u32 a b : 0 <= a < 2 ^ 32 -> 0 <= b < 2 ^ 32 -> 0 <= Z.lor a b < 2 ^ 32.
Proof.
  intros Ha Hb. assert (E : u32 (Z.lor a b) = Z.lor a b).
  { apply Z.bits_inj'. intros n Hn. rewrite testbit_u32 by done. destruct (Z.ltb_spec n 32); [done|].
    rewrite Z.lor_spec, <- (Z.mod_small a (2 ^ 32)), <- (Z.mod_small b (2 ^ 32)) by done.
    by rewrite !Z.mod_pow2_bits_high by lia. }
  rewrite <- E.
  unfold u32. apply Z.mod_pos_bound. lia.
Qed.

Lemma cat_refines t s : wf t -> wf s -> wf (apr_table_cat t s) /\ abs (apr_table_cat t s) = abs t ++ abs s.
Proof.
  intros Ht Hs. pose proof (abs_length t Ht) as Lt. pose proof (abs_length s Hs) as Ls.
  assert (Ha : abs (apr_table_cat t s) = abs t ++ abs s).
  { apply (abs_exact _ _ []); unfold apr_table_cat; fold (abs t) (abs s);
      (destruct (Nat.eqb _ _); [|destruct (cat_index _ _ _ _ _ _ _)]); cbn; rewrite ?app_nil_r, ?length_app; done || lia. }
  split; [|done]. split.
  - unfold apr_table_cat. fold (abs t) (abs s).
    (destruct (Nat.eqb _ _); [|destruct (cat_index _ _ _ _ _ _ _)]); cbn; rewrite length_app; lia.
  - rewrite Ha. apply Forall_app. split; [apply Ht|apply Hs].
  - rewrite Ha. unfold apr_table_cat. destruct (Nat.eqb_spec (nelts t) 0) as [E|E].
    + destruct (abs t); [|cbn in Lt; lia]. cbn [app index_initialized index_first index_last]. apply Hs.
    + destruct (cat_index _ _ _ _ _ _ _) as [f' l'] eqn:Ec. cbn [index_initialized index_first index_last].
      pose proof (wf_index t Ht) as [Hf1 Hl1 Hb1 Hs1]. pose proof (wf_index s Hs) as [Hf2 Hl2 Hb2 Hs2].
      apply cat_index_lookup in Ec as (H1 & H2 & H3); [|lia..]. split; [lia|lia| |].
      * by apply lor_u32.
      * intros h Hh. rewrite Z.lor_spec. destruct (H3 h) as [-> ->]; [lia..|].
        replace (Nat.leb 0 h && Nat.ltb h (0 + TABLE_HASH_SIZE)) with true
          by (symmetry; rewrite andb_true_iff, Nat.leb_le, Nat.ltb_lt; lia).
        cbn [andb]. unfold TABLE_INDEX_IS_INITIALIZED. rewrite <- Lt. apply slot_ok_app; [apply Hs1|apply Hs2]; done.
Qed.

Lemma lookup_first_app k a b :
  lookup_first k (a ++ b) = match lookup_first k a with Some v => Some v | None => lookup_first k b end.
Proof.
  unfold lookup_first. induction a as [|e a IH]; cbn [app find_first]; [done|].
  destruct (same_key k e); [done|]. revert IH.
  destruct (find_first (same_key k) (a ++ b)) as [i|], (find_first (same_key k) a) as [j|]; cbn; intros IH; exact IH.
Qed.

Lemma filter_none (p : entry -> bool) es : (forall i e, es !! i = Some e -> p e = false) -> List.filter p es = [].
Proof.
  induction es as [|x es IH]; intros H; [done|]. cbn. rewrite (H 0%nat x eq_refl). apply IH. intros i e He. by apply (H (S i)).
Qed.

Lemma filter_window (p : entry -> bool) es f n :
  (forall i e, es !! i = Some e -> p e = true -> (f <= i < f + n)%nat) ->
  List.filter p es = List.filter p (take n (drop f es)).
Proof.
  intros H. rewrite <- (take_drop f es) at 1. rewrite <- (take_drop n (drop f es)) at 1.
  rewrite !List.filter_app, (filter_none p (take f es)), (filter_none p (drop n (drop f es))).
  - by rewrite app_nil_r.
  - intros i e He. rewrite drop_drop, lookup_drop in He. destruct (p e) eqn:E; [|done]. apply H in He; [lia|done].
  - intros i e [He Hlt]%lookup_take_Some. destruct (p e) eqn:E; [|done]. apply H in He; [lia|done].
Qed.

(** ** Sequences of operations *)

Inductive op :=
  | OpSet (k v : list Z) | OpSetn (k v : list Z) | OpUnset (k : list Z) | OpMerge (k v : list Z)
  | OpMergen (k v : list Z) | OpAdd (k v : list Z) | OpAddn (k v : list Z) | OpClear.

Definition exec_op (o : op) (t : table) : res table :=
  match o with
  | OpSet k v => apr_table_set t k v
  | OpSetn k v => apr_table_setn t k v
  | OpUnset k => apr_table_unset t k
  | OpMerge k v => apr_table_merge t k v
  | OpMergen k v => apr_table_mergen t k v
  | OpAdd k v => Ok (apr_table_add t k v)
  | OpAddn k v => Ok (apr_table_addn t k v)
  | OpClear => Ok (apr_table_clear t)
  end.

Definition exec_ops (os : list op) (t : table) : res table :=
  foldl (fun r o => rbind r (exec_op o)) (Ok t) os.

Definition spec_op (es : list entry) (o : op) : list entry :=
  match o with
  | OpSet k v | OpSetn k v => spec_set k v es
  | OpUnset k => others k es
  | OpMerge k v | OpMergen k v => spec_merge k v es
  | OpAdd k v | OpAddn k v => spec_add k v es
  | OpClear => []
  end.

Lemma exec_op_refines o t : wf t -> exists t', exec_op o t = Ok t' /\ wf t' /\ abs t' = spec_op (abs t) o.
Proof.
  intros Hwf. destruct o; cbn [exec_op spec_op].
  - by apply set_refines.
  - by apply set_refines.
  - by apply unset_refines.
  - by apply merge_refines.
  - by apply merge_refines.
  - eexists. split; [reflexivity|]. by apply add_wf.
  - eexists. split; [reflexivity|]. by apply add_wf.
  - eexists. split; [reflexivity|]. by apply clear_wf.
Qed.

Lemma exec_ops_refines os : forall t, wf t ->
  exists t', exec_ops os t = Ok t' /\ wf t' /\ abs t' = foldl spec_op (abs t) os.
Proof.
  unfold exec_ops. induction os as [|o os IH]; intros t Hwf; [by exists t|].
  destruct (exec_op_refines o t Hwf) as (t1 & H1 & Hwf1 & Ha1). cbn [foldl rbind]. rewrite H1.
  destruct (IH t1 Hwf1) as (t' & H2 & Hwf2 & Ha2). exists t'. by rewrite Ha2, Ha1.
Qed.

(** C13: tables refine lists of entries. Any sequence of set, unset, merge, add
    and clear operations on a fresh table, whatever its index arrays contained,
    runs without reading outside the storage; the live entries are the ones the
    list operations give (set overwrites the first entry with the key and drops
    the others, merge appends to the first one, unset drops them all, up to
    case), the index invariant of the source's comment holds, and a lookup
    returns the value of the first entry with the key. *)
Theorem table_refines os junk1 junk2 :
  length junk1 = TABLE_HASH_SIZE -> length junk2 = TABLE_HASH_SIZE ->
  exists t, exec_ops os (apr_table_make junk1 junk2) = Ok t /\ abs t = foldl spec_op [] os /\
    index_ok (abs t) (index_initialized t) (index_first t) (index_last t) /\
    forall k, apr_table_get t k = Ok (lookup_first k (foldl spec_op [] os)).
Proof.
  intros H1 H2. destruct (exec_ops_refines os _ (make_wf junk1 junk2 H1 H2)) as (t & He & Hwf & Ha).
  exists t. split; [done|]. split; [done|]. split; [apply Hwf|]. intros k. rewrite get_first by done. by rewrite Ha.
Qed.

Lemma table_refines_witness :
  let os := [OpAdd (str "Host") (str "a"); OpAdd (str "Accept") (str "b"); OpAdd (str "HOST") (str "c");
             OpMerge (str "accept") (str "d"); OpSet (str "host") (str "e"); OpUnset (str "X")] in
  exists t, exec_ops os (apr_table_make (replicate 32 7%nat) (replicate 32 9%nat)) = Ok t /\
    abs t = [new_entry (str "Host") (str "e"); new_entry (str "Accept") (str "b, d")] /\
    index_ok (abs t) (index_initialized t) (index_first t) (index_last t) /\
    forall k, apr_table_get t k =
      Ok (lookup_first k [new_entry (str "Host") (str "e"); new_entry (str "Accept") (str "b, d")]).
Proof. intros os. apply (table_refines os (replicate 32 7%nat) (replicate 32 9%nat)); reflexivity. Defined.

(** joining tables. [apr_table_overlay] and [apr_table_cat], which patches
    the index of its first table instead of computing it again, both give a
    table whose entries are those of the first table followed by those of the
    second and whose index is right; a lookup finds the first table's value
    before the second's. *)
Theorem table_join junk1 junk2 a b :
  length junk1 = TABLE_HASH_SIZE -> length junk2 = TABLE_HASH_SIZE -> wf a -> wf b ->
  (exists t, apr_table_overlay junk1 junk2 a b = Ok t /\ wf t /\ abs t = abs a ++ abs b) /\
  wf (apr_table_cat a b) /\ abs (apr_table_cat a b) = abs a ++ abs b /\
  (forall k, apr_table_get (apr_table_cat a b) k =
     Ok (match lookup_first k (abs a) with Some v => Some v | None => lookup_first k (abs b) end)).
Proof.
  intros H1 H2 Ha Hb. split; [by apply overlay_refines|]. destruct (cat_refines a b Ha Hb) as [Hw Hc].
  split; [done|]. split; [done|]. intros k. rewrite get_first, Hc by done. f_equal. apply lookup_first_app.
Qed.

Definition table_a : table := apr_table_add (apr_table_make (replicate 32 0%nat) (replicate 32 0%nat)) (str "k") (str "1").
Definition table_b : table :=
  apr_table_add (apr_table_add (apr_table_make (replicate 32 0%nat) (replicate 32 0%nat)) (str "m") (str "2")) (str "K") (str "3").

Lemma table_join_witness :
  (exists t, apr_table_overlay (replicate 32 5%nat) (replicate 32 6%nat) table_a table_b = Ok t /\ wf t /\
     abs t = [new_entry (str "k") (str "1"); new_entry (str "m") (str "2"); new_entry (str "K") (str "3")]) /\
  wf (apr_table_cat table_a table_b) /\
  abs (apr_table_cat table_a table_b) =
    [new_entry (str "k") (str "1"); new_entry (str "m") (str "2"); new_entry (str "K") (str "3")] /\
  (forall k, apr_table_get (apr_table_cat table_a table_b) k =
     Ok (match lookup_first k (abs table_a) with Some v => Some v | None => lookup_first k (abs table_b) end)).
Proof.
  apply (table_join (replicate 32 5%nat) (replicate 32 6%nat) table_a table_b); [reflexivity|reflexivity| |];
    repeat apply add_wf; by apply make_wf.
Defined.

(** ** Walking a table *)

Section Walk.

Context {S : Type} (comp : S -> list Z -> list Z -> S * bool).

(** The callback on the given entries until it returns zero. *)
Fixpoint visit (es : list entry) (r : S) : S * bool :=
  match es with
  | [] => (r, true)
  | e :: es' => let (r, rv) := comp r (key e) (val e) in if rv then visit es' r else (r, false)
  end.

(** For every key in turn the entries with it; stopping for one key does not
    stop the others. *)
Fixpoint visit_keys (es : list entry) (ks : list (list Z)) (r : S) (rv : bool) : S * bool :=
  match ks with
  | [] => (r, rv)
  | k :: ks' =>
      let (r, rv') := visit (List.filter (same_key k) es) r in visit_keys es ks' r (if rv' then rv else false)
  end.

Lemma vdo_all_visit l n : forall i r,
  (i + n <= length l)%nat -> vdo_all comp l n i r = Ok (visit (take n (drop i l)) r).
Proof.
  induction n as [|n IH]; intros i r Hn; cbn [vdo_all]; [by rewrite take_0|].
  destruct (lookup_lt_is_Some_2 l i) as [e He]; [lia|]. unfold elt. rewrite He. cbn [of_option rbind].
  rewrite (drop_S _ _ _ He). cbn [take visit]. destruct (comp r (key e) (val e)) as [r' []]; [|done]. apply IH. lia.
Qed.

Lemma vdo_range_visit l cs k n : forall i r,
  (i + n <= length l)%nat ->
  vdo_range comp l cs k n i r = Ok (visit (List.filter (entry_matches cs k) (take n (drop i l))) r).
Proof.
  induction n as [|n IH]; intros i r Hn; cbn [vdo_range]; [by rewrite take_0|].
  destruct (lookup_lt_is_Some_2 l i) as [e He]; [lia|]. unfold elt. rewrite He. cbn [of_option rbind].
  rewrite (drop_S _ _ _ He). cbn [take List.filter]. destruct (entry_matches cs k e); [|apply IH; lia].
  cbn [visit]. destruct (comp r (key e) (val e)) as [r' []]; [|done]. apply IH. lia.
Qed.

Lemma vdo_key_visit t k r :
  wf t ->
  (if TABLE_INDEX_IS_INITIALIZED t (TABLE_HASH k) then
     vdo_range comp (elts t) (COMPUTE_KEY_CHECKSUM k) k
       (Datatypes.S (range_last t (TABLE_HASH k)) - range_first t (TABLE_HASH k)) (range_first t (TABLE_HASH k)) r
   else Ok (r, true)) = Ok (visit (List.filter (same_key k) (abs t)) r).
Proof.
  intros Hwf. pose proof (slot_of_key t k Hwf) as Hk. cbv zeta in Hk.
  destruct (TABLE_INDEX_IS_INITIALIZED t (TABLE_HASH k)).
  2: { replace (List.filter (same_key k) (abs t)) with (@nil entry); [done|]. symmetry. by apply filter_none. }
  destruct Hk as [Hlt Hall]. pose proof Hwf as [Hn Hs _]. set (f := range_first t _) in *. set (la := range_last t _) in *.
  destruct (Nat.le_gt_cases f la) as [Hfl|Hfl].
  2: { replace (Datatypes.S la - f)%nat with 0%nat by lia. cbn [vdo_range].
       replace (List.filter (same_key k) (abs t)) with (@nil entry); [done|]. symmetry. apply filter_none.
       intros i e Hi. destruct (same_key k e) eqn:E; [|done]. apply Hall in Hi; [lia|done]. }
  rewrite vdo_range_visit by lia. do 2 f_equal.
  rewrite (filter_window (same_key k) (abs t) f (Datatypes.S la - f)) by (intros i e Hi He; apply Hall in Hi; [lia|done]).
  replace (take (Datatypes.S la - f) (drop f (abs t))) with (take (Datatypes.S la - f) (drop f (elts t))).
  2: { unfold abs. rewrite skipn_firstn_comm, firstn_firstn. f_equal. lia. }
  apply List.filter_ext_in. intros e He. apply entry_matches_key. rewrite Forall_forall in Hs. apply Hs.
  unfold abs. apply elem_of_take. apply list_elem_of_In, elem_of_take in He as (i & Hi & Hlt').
  rewrite lookup_drop in Hi. exists (f + i)%nat. split; [done|lia].
Qed.

Lemma vdo_visits t ks r :
  wf t ->
  apr_table_vdo comp t ks r =
    Ok (match ks with [] => visit (abs t) r | _ => visit_keys (abs t) ks r true end).
Proof.
  intros Hwf. unfold apr_table_vdo. destruct ks as [|k0 ks0].
  - rewrite vdo_all_visit by apply Hwf. done.
  - generalize (k0 :: ks0) true. intros ks. revert r. induction ks as [|k ks IH]; intros r rv; [done|].
    cbn [vdo_keys visit_keys]. rewrite vdo_key_visit by done. cbn [rbind].
    destruct (visit (List.filter (same_key k) (abs t)) r) as [r' rv']. apply IH.
Qed.

End Walk.

(** reading every value. [apr_table_getm] returns NULL when no entry has the
    key, the value when one has it, and otherwise the values of all of them in
    table order with a comma between each two. *)
Theorem table_getm_values t k :
  wf t ->
  apr_table_getm t k =
    Ok (match map val (List.filter (same_key k) (abs t)) with [] => None | vs => Some (joined [44] vs) end).
Proof.
  intros Hwf. unfold apr_table_getm, apr_table_do. rewrite vdo_visits by done. cbn [visit_keys].
  generalize (List.filter (same_key k) (abs t)). intros es.
  assert (Hm : forall es f m, visit table_getm_do es (mkGetm (Some f) (Some m)) =
    (mkGetm (Some f) (Some (m ++ map val es)), true)).
  { clear. induction es as [|e es IH]; intros f m; cbn; [by rewrite app_nil_r|]. rewrite IH. by rewrite <- app_assoc. }
  destruct es as [|e1 [|e2 es]]; [done|done|]. cbn. rewrite Hm. cbn [rbind gm_first gm_merged app map]. done.
Qed.

Lemma table_getm_values_witness :
  apr_table_getm (apr_table_cat table_a table_b) (str "K") = Ok (Some (str "1,3")).
Proof.
  refine (table_getm_values (apr_table_cat table_a table_b) (str "K") _).
  apply cat_refines; repeat apply add_wf; by apply make_wf.
Defined.
