(* ===== verification/AprCompress.v ===== *)
(** * Removing duplicate keys from a table (src/apr/tables/apr_tables.c)

    [apr_table_compress] sorts pointers to the entries with a bottom-up merge
    sort, folds every run of equal keys into its first entry, closes the gaps
    and computes the index again; [apr_table_overlap] does so after appending a
    second table. Pointers to entries are their positions in the table. *)

From Stdlib Require Import Sorted.
From S2P Require Import Prelude AprTable.

(** [strcasecmp]: the comparison of the lower-case characters, a string that
    ends being smaller. *)
Fixpoint strcasecmp (a b : list Z) : comparison :=
  match a, b with
  | [], [] => Eq
  | [], _ => Lt
  | _, [] => Gt
  | x :: a', y :: b' =>
      match tolower x ?= tolower y with Eq => strcasecmp a' b' | c => c end
  end.

(** ** [table_mergesort] *)

Section Mergesort.

Context {A : Type}.
(** [values[i]->key]. *)
Variable K : A -> list Z.

Definition greater (x y : A) : bool :=
  match strcasecmp (K x) (K y) with Gt => true | _ => false end.

(** First pass: pairs of elements. *)
Fixpoint sort_pairs (l : list A) : list A :=
  match l with
  | x :: y :: l' => if greater x y then y :: x :: sort_pairs l' else x :: y :: sort_pairs l'
  | _ => l
  end.

(** The merge of two blocks: the smaller head first, block 1 on equal keys, and
    the rest of the other block once one is empty. *)
Fixpoint merge_blocks (b1 : list A) : list A -> list A :=
  fix inner (b2 : list A) : list A :=
    match b1, b2 with
    | [], _ => b2
    | _, [] => b1
    | x :: b1', y :: b2' => if greater x y then y :: inner b2' else x :: merge_blocks b1' b2
    end.

(** One pass over the array from [next_start] on: [next_start + blocksize < n]. *)
Fixpoint merge_pass (fuel blocksize : nat) (l : list A) : res (list A) :=
  if Nat.ltb blocksize (length l) then
    match fuel with
    | O => Err OutOfFuel
    | S fuel' =>
        do rest <- merge_pass fuel' blocksize (drop (blocksize + blocksize) l);
        Ok (merge_blocks (take blocksize l) (take blocksize (drop blocksize l)) ++ rest)
    end
  else Ok l.

(** [while (blocksize < n)]. *)
Fixpoint merge_passes (fuel blocksize : nat) (l : list A) : res (list A) :=
  if Nat.ltb blocksize (length l) then
    match fuel with
    | O => Err OutOfFuel
    | S fuel' =>
        do l <- merge_pass (length l) blocksize l;
        merge_passes fuel' (blocksize + blocksize) l
    end
  else Ok l.

Definition table_mergesort (l : list A) : res (list A) := merge_passes (length l) 2 (sort_pairs l).

End Mergesort.

(** ** [apr_table_compress] *)

Definition APR_OVERLAP_TABLES_SET : Z := 0.
Definition APR_OVERLAP_TABLES_MERGE : Z := 1.

(** The key a pointer into the table leads to. *)
Definition key_at (l : list entry) (p : nat) : list Z :=
  match l !! p with Some e => key e | None => [] end.

(** The entries from [ps] on that have the key of [le], and the rest. *)
Fixpoint dup_run (l : list entry) (le : entry) (ps : list nat) : res (list nat * list nat) :=
  match ps with
  | [] => Ok ([], [])
  | p :: ps' =>
      do e <- elt l p;
      if entry_matches (key_checksum le) (key le) e then
        do (run, rest) <- dup_run l le ps';
        Ok (p :: run, rest)
      else Ok ([], ps)
  end.

(** The values of entries. *)
Fixpoint vals_at (l : list entry) (ps : list nat) : res (list (list Z)) :=
  match ps with
  | [] => Ok []
  | p :: ps' => do e <- elt l p; do vs <- vals_at l ps'; Ok (val e :: vs)
  end.

(** The length computed for a merged value, and the copy: the buffer and
    [val_dst], the place of the terminator. *)
Definition merge_len (vs : list (list Z)) : Z := foldr (fun v n => zlen v + 2 + n) 0 vs.

Fixpoint merge_copy (vs : list (list Z)) (buf : list Z) (val_dst : Z) : res (list Z * Z) :=
  match vs with
  | [] => Ok (buf, val_dst)
  | v :: vs' =>
      do buf <- blit buf val_dst (v ++ [0]);
      let val_dst := val_dst + zlen v in
      match vs' with
      | [] => do buf <- wr buf val_dst 0; Ok (buf, val_dst)
      | _ => do buf <- wr buf val_dst 44;
             do buf <- wr buf (val_dst + 1) 32;
             merge_copy vs' buf (val_dst + 2)
      end
  end.

Definition merge_vals (junk : Z) (vs : list (list Z)) : res (list Z) :=
  do (buf, val_dst) <- merge_copy vs (replicate (Z.to_nat (merge_len vs)) junk) 0;
  sub buf 0 val_dst.

(** [key = NULL] for the entries of a run. *)
Definition kill (ps : list nat) (alive : list bool) : list bool :=
  foldr (fun p a => <[p := false]> a) alive ps.

(** The loop over the sorted pointers: [last], the pointers from [sort_next]
    on; the result is the storage, which entries still have a key, and
    [dups_found]. *)
Fixpoint dup_loop (fuel : nat) (junk flags : Z) (l : list entry) (alive : list bool)
    (last : nat) (ps : list nat) (dups_found : bool) : res (list entry * list bool * bool) :=
  match ps with
  | [] => Ok (l, alive, dups_found)
  | p :: ps' =>
      match fuel with
      | O => Err OutOfFuel
      | S fuel' =>
          do le <- elt l last;
          do (run, rest) <- dup_run l le ps;
          match run with
          | [] => dup_loop fuel' junk flags l alive p ps' dups_found
          | _ =>
              do v <- (if flags =? APR_OVERLAP_TABLES_MERGE
                       then do vs <- vals_at l (last :: run); merge_vals junk vs
                       else do e <- elt l (List.last run last); Ok (val e));
              dup_loop fuel' junk flags (<[last := set_val le v]> l) (kill run alive) last rest true
          end
      end
  end.

(** Shifting the entries that still have a key to the left: [src], [dst]. *)
Fixpoint squeeze (n src dst : nat) (l : list entry) (alive : list bool) : res (list entry * nat) :=
  match n with
  | O => Ok (l, dst)
  | S n' =>
      do e <- elt l src;
      do a <- of_option OutOfBounds (alive !! src);
      if (a : bool) then squeeze n' (S src) (S dst) (<[dst := e]> l) alive
      else squeeze n' (S src) dst l alive
  end.

(** [apr_table_compress(t, flags)]. Cells past [nelts] are never read, so the
    cleared keys they keep are not recorded. *)
Definition apr_table_compress (junk : Z) (t : table) (flags : Z) : res table :=
  if Nat.leb (nelts t) 1 then Ok t
  else
    do sorted <- table_mergesort (key_at (elts t)) (seq 0 (nelts t));
    match sorted with
    | [] => Err OutOfBounds
    | last :: ps =>
        do (l, alive, dups_found) <- dup_loop (length ps) junk flags (elts t) (replicate (nelts t) true) last ps false;
        do (l, n) <- (if (dups_found : bool) then squeeze (nelts t) 0 0 l alive else Ok (l, nelts t));
        table_reindex (set_elts t l n)
    end.

Definition apr_table_overlap (junk : Z) (a b : table) (flags : Z) : res table :=
  if Nat.eqb (nelts a + nelts b) 0 then Ok a
  else apr_table_compress junk (apr_table_cat a b) flags.

(** ** The order of keys *)

Lemma strcasecmp_eq a b : strcasecmp a b = Eq <-> map tolower a = map tolower b.
Proof.
  revert b. induction a as [|x a IH]; intros [|y b]; cbn; try done.
  destruct (Z.compare_spec (tolower x) (tolower y)) as [E|E|E].
  - rewrite IH, E. split; [by intros ->|by intros [= ->]].
  - split; [done|]. intros [= ? _]. lia.
  - split; [done|]. intros [= ? _]. lia.
Qed.

Lemma strcasecmp_opp a b : strcasecmp b a = CompOpp (strcasecmp a b).
Proof.
  revert b. induction a as [|x a IH]; intros [|y b]; cbn; try done.
  rewrite (Z.compare_antisym (tolower x) (tolower y)). destruct (tolower x ?= tolower y); cbn; [apply IH|done|done].
Qed.

(** Keys in order, and strictly so. *)
Definition key_le (a b : list Z) : Prop := strcasecmp a b <> Gt.
Definition key_lt (a b : list Z) : Prop := strcasecmp a b = Lt.

Lemma key_lt_le_trans a b c : key_lt a b -> key_le b c -> key_lt a c.
Proof.
  unfold key_lt, key_le. revert b c. induction a as [|x a IH]; intros [|y b] [|z c]; cbn; try done.
  destruct (Z.compare_spec (tolower x) (tolower y)), (Z.compare_spec (tolower y) (tolower z)),
    (Z.compare_spec (tolower x) (tolower z)); try done; try lia. apply IH.
Qed.

Lemma key_eq_le a b c : strcasecmp a b = Eq -> key_le b c -> key_le a c.
Proof.
  unfold key_le. revert b c. induction a as [|x a IH]; intros [|y b] [|z c]; cbn; try done.
  destruct (Z.compare_spec (tolower x) (tolower y)), (Z.compare_spec (tolower y) (tolower z)),
    (Z.compare_spec (tolower x) (tolower z)); try done; try lia. apply IH.
Qed.

Lemma key_le_trans a b c : key_le a b -> key_le b c -> key_le a c.
Proof.
  intros Hab Hbc. destruct (strcasecmp a b) eqn:E; [by apply (key_eq_le a b)| |by destruct Hab].
  unfold key_le. by rewrite (key_lt_le_trans a b c E Hbc).
Qed.

(** ** The sort is stable *)

Section SortSpec.

Context {A : Type}.
Variable K : A -> list Z.

Definition le (x y : A) : Prop := key_le (K x) (K y).

#[local] Abbreviation sorted := (StronglySorted le).

Lemma greater_spec x y : if greater K x y then key_lt (K y) (K x) else le x y.
Proof.
  unfold greater, le, key_le, key_lt. rewrite (strcasecmp_opp (K x) (K y)). by destruct (strcasecmp (K x) (K y)).
Qed.

Lemma greater_le x y : greater K x y = true -> le y x.
Proof. intros H. pose proof (greater_spec x y) as Hg. rewrite H in Hg. unfold le, key_le. by rewrite Hg. Qed.

Lemma merge_blocks_nil_r b : merge_blocks K b [] = b.
Proof. by destruct b. Qed.

Lemma merge_blocks_cons x b1 y b2 :
  merge_blocks K (x :: b1) (y :: b2) =
  if greater K x y then y :: merge_blocks K (x :: b1) b2 else x :: merge_blocks K b1 (y :: b2).
Proof. done. Qed.

(** Induction over the merge. *)
Lemma merge_blocks_ind (P : list A -> list A -> list A -> Prop) :
  (forall b, P [] b b) -> (forall b, P b [] b) ->
  (forall x b1 y b2, greater K x y = true -> P (x :: b1) b2 (merge_blocks K (x :: b1) b2) ->
     P (x :: b1) (y :: b2) (y :: merge_blocks K (x :: b1) b2)) ->
  (forall x b1 y b2, greater K x y = false -> P b1 (y :: b2) (merge_blocks K b1 (y :: b2)) ->
     P (x :: b1) (y :: b2) (x :: merge_blocks K b1 (y :: b2))) ->
  forall b1 b2, P b1 b2 (merge_blocks K b1 b2).
Proof.
  intros H1 H2 H3 H4. induction b1 as [|x b1 IH1]; intros b2; [destruct b2; apply H1|].
  induction b2 as [|y b2 IH2]; [apply H2|]. rewrite merge_blocks_cons.
  destruct (greater K x y) eqn:E; [by apply H3|by apply H4].
Qed.

Lemma merge_blocks_perm b1 b2 : merge_blocks K b1 b2 ≡ₚ b1 ++ b2.
Proof.
  apply (merge_blocks_ind (fun b1 b2 m => m ≡ₚ b1 ++ b2)); clear; intros.
  - done.
  - by rewrite app_nil_r.
  - rewrite H0. apply Permutation_middle.
  - by rewrite H0.
Qed.

Lemma StronglySorted_Forall x l : sorted (x :: l) -> Forall (le x) l.
Proof. by inversion 1. Qed.

Lemma le_all x y l : le x y -> Forall (le y) l -> Forall (le x) l.
Proof. intros H Hl. eapply Forall_impl; [exact Hl|]. intros z. by apply key_le_trans. Qed.

Lemma merge_blocks_sorted b1 b2 : sorted b1 -> sorted b2 -> sorted (merge_blocks K b1 b2).
Proof.
  apply (merge_blocks_ind (fun b1 b2 m => sorted b1 -> sorted b2 -> sorted m)); clear b1 b2.
  - done.
  - done.
  - intros x b1 y b2 E IH H1 H2. inversion H2; subst. constructor; [by apply IH|].
    rewrite merge_blocks_perm. apply Forall_app. split; [|done].
    apply greater_le in E. constructor; [done|]. by eapply le_all, StronglySorted_Forall.
  - intros x b1 y b2 E IH H1 H2. inversion H1; subst. constructor; [by apply IH|].
    rewrite merge_blocks_perm. apply Forall_app. split; [done|].
    pose proof (greater_spec x y) as Hg. rewrite E in Hg. constructor; [done|]. by eapply le_all, StronglySorted_Forall.
Qed.

(** A test that only equal keys pass together. *)
Definition key_test (p : A -> bool) : Prop :=
  forall x y, p x = true -> p y = true -> strcasecmp (K x) (K y) = Eq.

Lemma filter_above p y l : key_test p -> p y = true -> Forall (fun x => key_lt (K y) (K x)) l -> List.filter p l = [].
Proof.
  intros Hp Hy. induction 1 as [|x l Hx _ IH]; cbn; [done|]. destruct (p x) eqn:E; [|done].
  pose proof (Hp y x Hy E). unfold key_lt in Hx. congruence.
Qed.

Lemma merge_blocks_stable p b1 b2 :
  key_test p -> sorted b1 -> List.filter p (merge_blocks K b1 b2) = List.filter p (b1 ++ b2).
Proof.
  intros Hp. apply (merge_blocks_ind (fun b1 b2 m => sorted b1 -> List.filter p m = List.filter p (b1 ++ b2))); clear b1 b2.
  - done.
  - intros b _. by rewrite app_nil_r.
  - intros x b1 y b2 E IH H1. cbn [List.filter]. rewrite IH by done. rewrite !List.filter_app. cbn [List.filter].
    destruct (p y) eqn:Ey; [|done]. pose proof (greater_spec x y) as Hg. rewrite E in Hg.
    change (if p x then x :: List.filter p b1 else List.filter p b1) with (List.filter p (x :: b1)).
    rewrite (filter_above p y (x :: b1)); [done|done|done|]. constructor; [done|].
    eapply Forall_impl; [by apply StronglySorted_Forall|]. intros z Hz. by apply (key_lt_le_trans _ (K x)).
  - intros x b1 y b2 _ IH H1. inversion H1; subst. cbn [List.filter app]. by rewrite IH.
Qed.

(** What a pass keeps: the elements, and the order of those with equal keys. *)
Definition same_groups (l l' : list A) : Prop :=
  l' ≡ₚ l /\ forall p, key_test p -> List.filter p l' = List.filter p l.

Lemma same_groups_trans a b c : same_groups a b -> same_groups b c -> same_groups a c.
Proof.
  intros [H1 H2] [H3 H4]. split; [by rewrite H3|]. intros p Hp. by rewrite H4, H2.
Qed.

Lemma same_groups_app a a' b b' : same_groups a a' -> same_groups b b' -> same_groups (a ++ b) (a' ++ b').
Proof.
  intros [H1 H2] [H3 H4]. split; [by rewrite H1, H3|]. intros p Hp. rewrite !List.filter_app. by rewrite H2, H4.
Qed.

(** Every block of [bs] elements is sorted. *)
Definition blocks (bs : nat) (l : list A) : Prop := forall i, sorted (take bs (drop (i * bs) l)).

Lemma blocks_drop bs l : blocks bs l -> blocks bs (drop bs l).
Proof. intros H i. rewrite drop_drop. apply (H (S i)). Qed.

Lemma blocks_take bs l : blocks bs l -> sorted (take bs l).
Proof. intros H. apply (H 0%nat). Qed.

Lemma blocks_short bs bs' l : (length l <= bs)%nat -> (bs <= bs')%nat -> blocks bs l -> blocks bs' l.
Proof.
  intros Hl Hb H [|i]; cbn [Nat.mul].
  - rewrite drop_0, take_ge by lia. apply blocks_take in H. by rewrite take_ge in H by lia.
  - rewrite drop_ge by lia. rewrite take_nil. constructor.
Qed.

Lemma blocks_app bs a l :
  sorted a -> length a = bs \/ ((length a <= bs)%nat /\ l = []) -> blocks bs l -> blocks bs (a ++ l).
Proof.
  intros Ha [Hl|[Hl ->]] H [|i]; cbn [Nat.mul].
  - by rewrite drop_0, take_app_length'.
  - rewrite drop_app_ge by lia. replace (bs + i * bs - length a)%nat with (i * bs)%nat by lia. apply H.
  - by rewrite drop_0, app_nil_r, take_ge by lia.
  - rewrite app_nil_r, drop_ge by lia. rewrite take_nil. constructor.
Qed.

Lemma merge_pass_ok bs fuel : forall l,
  (0 < bs)%nat -> (length l <= fuel)%nat -> blocks bs l ->
  exists l', merge_pass K fuel bs l = Ok l' /\ same_groups l l' /\ blocks (bs + bs) l'.
Proof.
  induction fuel as [|fuel IH]; intros l Hbs Hf Hb; cbn [merge_pass]; destruct (Nat.ltb_spec bs (length l)) as [Hlt|Hge].
  1: lia.
  1, 3: exists l; split; [done|]; split; [done|]; apply (blocks_short bs); [done|lia|done].
  destruct (IH (drop (bs + bs) l)) as (r & Hr & Hg & Hbr).
  - done.
  - rewrite length_drop. lia.
  - rewrite <- drop_drop. by apply blocks_drop, blocks_drop.
  - rewrite Hr. cbn [rbind]. eexists. split; [reflexivity|]. set (b1 := take bs l). set (b2 := take bs (drop bs l)).
    assert (Hs1 : sorted b1) by (by apply blocks_take). assert (Hs2 : sorted b2) by (by apply blocks_take, blocks_drop).
    assert (Hl : l = (b1 ++ b2) ++ drop (bs + bs) l).
    { unfold b1, b2. rewrite <- app_assoc, <- drop_drop, take_drop. by rewrite take_drop. }
    split.
    + rewrite Hl at 1. apply same_groups_app; [|done]. split; [apply merge_blocks_perm|].
      intros p Hp. by apply merge_blocks_stable.
    + apply blocks_app; [by apply merge_blocks_sorted| |done].
      assert (Hlen : length (merge_blocks K b1 b2) = (length b1 + length b2)%nat) by (by rewrite merge_blocks_perm, length_app).
      assert (Hb1 : length b1 = bs) by (unfold b1; rewrite length_take; lia).
      assert (Hb2 : length b2 = Nat.min bs (length l - bs)) by (unfold b2; by rewrite length_take, length_drop).
      destruct (Nat.le_gt_cases (bs + bs) (length l)); [left; lia|]. right. split; [lia|].
      destruct Hg as [Hg _]. rewrite drop_ge in Hg by lia. by apply Permutation_nil_r in Hg.
Qed.

Lemma merge_passes_ok fuel : forall bs l,
  (0 < bs)%nat -> (length l <= fuel + bs)%nat -> blocks bs l ->
  exists l', merge_passes K fuel bs l = Ok l' /\ same_groups l l' /\ sorted l'.
Proof.
  induction fuel as [|fuel IH]; intros bs l Hbs Hf Hb; cbn [merge_passes]; destruct (Nat.ltb_spec bs (length l)) as [Hlt|Hge].
  1: lia.
  1, 3: exists l; split; [done|]; split; [done|]; apply blocks_take in Hb; by rewrite take_ge in Hb.
  destruct (merge_pass_ok bs (length l) l) as (l1 & -> & Hg & Hb1); [done|done|done|]. cbn [rbind].
  destruct (IH (bs + bs)%nat l1) as (l2 & -> & Hg2 & Hs); [lia|destruct Hg as [-> _]; lia|done|].
  exists l2. split; [done|]. split; [by eapply same_groups_trans|done].
Qed.

Lemma sort_pairs_ok n : forall l, (length l <= n)%nat -> same_groups l (sort_pairs K l) /\ blocks 2 (sort_pairs K l).
Proof.
  induction n as [|n IH]; intros [|x [|y l]] Hl; cbn in Hl; try lia.
  1, 2: split; [done|]; intros i; destruct i; cbn; constructor.
  1: split; [done|]; intros [|i]; cbn; [repeat constructor|destruct (i * 2)%nat; constructor].
  destruct (IH l) as [Hg Hb]; [lia|]. cbn [sort_pairs].
  assert (H2 : forall a b, le a b -> sorted [a; b]) by (intros; repeat constructor; done).
  pose proof (greater_spec x y) as Hxy. destruct (greater K x y) eqn:E.
  - split.
    + apply (same_groups_app [x; y] [y; x] l); [|done]. split; [apply perm_swap|]. intros p Hp. cbn.
      destruct (p x) eqn:Ex, (p y) eqn:Ey; try done. pose proof (Hp y x Ey Ex). unfold key_lt in Hxy. congruence.
    + apply (blocks_app 2 [y; x]); [apply H2; by apply greater_le|by left|done].
  - split; [by apply (same_groups_app [x; y] [x; y] l)|]. apply (blocks_app 2 [x; y]); [by apply H2|by left|done].
Qed.

Lemma table_mergesort_ok l :
  exists l', table_mergesort K l = Ok l' /\ l' ≡ₚ l /\ sorted l' /\
    forall p, key_test p -> List.filter p l' = List.filter p l.
Proof.
  destruct (sort_pairs_ok (length l) l) as [Hg Hb]; [done|]. unfold table_mergesort.
  destruct (merge_passes_ok (length l) 2 (sort_pairs K l)) as (l' & -> & Hg' & Hs); [lia| |done|].
  - destruct Hg as [-> _]. lia.
  - exists l'. destruct (same_groups_trans _ _ _ Hg Hg') as [H1 H2]. done.
Qed.

End SortSpec.

(** ** Runs of equal keys *)

Definition val_at (l : list entry) (p : nat) : list Z :=
  match l !! p with Some e => val e | None => [] end.

(** The value a run of entries with one key is folded into. *)
Definition combine (flags : Z) (vs : list (list Z)) : list Z :=
  if flags =? APR_OVERLAP_TABLES_MERGE then joined (str ", ") vs else List.last vs [].

Lemma combine_single flags v : combine flags [v] = v.
Proof. unfold combine. by case_match. Qed.

Lemma set_val_id e : set_val e (val e) = e.
Proof. by destruct e. Qed.

(** The pointers of [ps] to entries with the key of [p]. *)
Definition group (l : list entry) (p : nat) (ps : list nat) : list nat :=
  List.filter (fun q => strcaseeq (key_at l q) (key_at l p)) ps.

Definition valid (l : list entry) (ps : list nat) : Prop :=
  Forall (fun p => exists e, l !! p = Some e /\ checksum_ok e) ps.

Lemma strcaseeq_refl k : strcaseeq k k = true.
Proof. by apply strcaseeq_spec. Qed.

Lemma strcaseeq_sym a b : strcaseeq a b = strcaseeq b a.
Proof. unfold strcaseeq. apply bool_decide_ext. split; by intros ->. Qed.

Lemma strcaseeq_trans a b c : strcaseeq a b = true -> strcaseeq b c = strcaseeq a c.
Proof. intros H%strcaseeq_spec. unfold strcaseeq. by rewrite H. Qed.

Lemma dup_run_ok l le ps :
  checksum_ok le -> valid l ps ->
  exists run rest, dup_run l le ps = Ok (run, rest) /\ ps = run ++ rest /\
    Forall (fun q => strcaseeq (key_at l q) (key le) = true) run /\
    (forall q, head rest = Some q -> strcaseeq (key_at l q) (key le) = false).
Proof.
  intros Hle. induction ps as [|p ps IH]; intros Hv; cbn [dup_run]; [by exists [], []|].
  apply Forall_cons in Hv as [(e & He & Hc) Hv]. unfold elt. rewrite He. cbn [of_option rbind].
  rewrite Hle, entry_matches_key by done. unfold same_key.
  assert (Hk : key e = key_at l p) by (unfold key_at; by rewrite He). rewrite Hk.
  destruct (strcaseeq (key_at l p) (key le)) eqn:E.
  - destruct (IH Hv) as (run & rest & Hd & -> & Hrun & Hrest). rewrite Hd. cbn [rbind]. exists (p :: run), rest. auto.
  - exists [], (p :: ps). split; [done|]. split; [done|]. split; [done|]. by intros q [= <-].
Qed.

Lemma vals_at_ok l ps : valid l ps -> vals_at l ps = Ok (map (val_at l) ps).
Proof.
  induction 1 as [|p ps (e & He & _) _ IH]; [done|]. cbn [vals_at map]. unfold elt. rewrite He. cbn [of_option rbind].
  rewrite IH. cbn [rbind]. unfold val_at at 2. by rewrite He.
Qed.

Lemma merge_copy_ok vs : forall buf p,
  vs <> [] -> 0 <= p -> p + merge_len vs <= zlen buf ->
  exists buf', merge_copy vs buf p = Ok (buf', p + zlen (joined (str ", ") vs)) /\
    has_bytes buf' p (joined (str ", ") vs) /\ take (Z.to_nat p) buf' = take (Z.to_nat p) buf /\ zlen buf' = zlen buf.
Proof.
  assert (Hmlen : forall vs, 0 <= merge_len vs).
  { intros l. unfold merge_len. induction l as [|v l IH]; cbn; [lia|]. pose proof (zlen_nonneg v). lia. }
  assert (Htake : forall m o bs, 0 <= o <= zlen m -> take (Z.to_nat o) (splice m o bs) = take (Z.to_nat o) m).
  { intros m o bs Ho. unfold splice. rewrite take_app_le by (rewrite length_take; unfold zlen in Ho; lia).
    rewrite take_take. f_equal. lia. }
  induction vs as [|v vs IH]; intros buf p Hne Hp Hb; [done|].
  change (merge_len (v :: vs)) with (zlen v + 2 + merge_len vs) in Hb.
  pose proof (zlen_nonneg v). pose proof (Hmlen vs).
  cbn [merge_copy]. rewrite blit_ok by zl. cbn [rbind].
  assert (Hz1 : zlen (splice buf p (v ++ [0])) = zlen buf) by (apply zlen_splice; zl).
  destruct vs as [|v' vs].
  - rewrite wr_blit by lia. cbn [rbind joined]. eexists. split; [reflexivity|]. change (u8 0) with 0.
    rewrite splice_tail by (autorewrite with zlen; lia). split; [|split; [apply Htake; lia|by rewrite zlen_splice by zl]].
    eapply proj1, has_bytes_app, has_bytes_splice; zl.
  - rewrite wr_blit by lia. cbn [rbind]. change (u8 44) with 44. rewrite splice_tail by (autorewrite with zlen; lia).
    assert (Hz2 : zlen (splice buf p (v ++ [44])) = zlen buf) by (apply zlen_splice; zl).
    rewrite wr_blit by lia. cbn [rbind]. change (u8 32) with 32.
    replace (p + zlen v + 1) with (p + zlen (v ++ [44])) by zl. rewrite splice_splice by (autorewrite with zlen; lia).
    rewrite <- app_assoc. cbn [app]. set (buf2 := splice buf p (v ++ [44; 32])).
    assert (Hz3 : zlen buf2 = zlen buf) by (apply zlen_splice; zl).
    destruct (IH buf2 (p + zlen v + 2)) as (buf' & Hc & Hhb & Ht & Hz); [done|lia|lia|].
    rewrite Hc. set (J := joined (str ", ") (v' :: vs)) in *. exists buf'.
    change (joined (str ", ") (v :: v' :: vs)) with (v ++ str ", " ++ J). change (str ", ") with [44; 32].
    split; [do 2 f_equal; autorewrite with zlen; lia|].
    assert (Hpre : take (Z.to_nat (p + zlen v + 2)) buf' = take (Z.to_nat p) buf ++ v ++ [44; 32]).
    { rewrite Ht. unfold buf2, splice. rewrite (app_assoc (take _ buf)), take_app_length'; [done|].
      rewrite !length_app, length_take. unfold zlen in *. cbn [length]. lia. }
    split; [|split; [|lia]].
    + destruct Hhb as (pre & post & -> & Hpl). rewrite take_app_le, take_ge in Hpre by (unfold zlen in *; lia). subst pre.
      exists (take (Z.to_nat p) buf), post. split; [by rewrite <- !app_assoc|]. unfold zlen in *. rewrite length_take. lia.
    + replace (take (Z.to_nat p) buf') with (take (Z.to_nat p) (take (Z.to_nat (p + zlen v + 2)) buf'))
        by (rewrite take_take; f_equal; lia).
      rewrite Hpre, take_app_le by (rewrite length_take; unfold zlen in *; lia). rewrite take_take. f_equal. lia.
Qed.

(** The allocation for a merged value is large enough. *)
Lemma merge_vals_ok junk vs : vs <> [] -> merge_vals junk vs = Ok (joined (str ", ") vs).
Proof.
  intros Hne. unfold merge_vals.
  assert (Hz : zlen (replicate (Z.to_nat (merge_len vs)) junk) = Z.max 0 (merge_len vs))
    by (unfold zlen; rewrite length_replicate; lia).
  destruct (merge_copy_ok vs (replicate (Z.to_nat (merge_len vs)) junk) 0) as (buf & -> & Hb & _); [done|lia|lia|].
  cbn [rbind]. by apply has_bytes_sub in Hb.
Qed.

Lemma StronglySorted_weaken {A} (R R' : A -> A -> Prop) l :
  (forall x y, R x y -> R' x y) -> StronglySorted R l -> StronglySorted R' l.
Proof.
  intros H. induction 1 as [|x l _ IH Hx]; constructor; [done|]. eapply Forall_impl; [exact Hx|]. auto.
Qed.

Lemma kill_length ps alive : length (kill ps alive) = length alive.
Proof. unfold kill. induction ps; cbn; [done|]. by rewrite length_insert. Qed.

Lemma kill_in ps alive p : p ∈ ps -> (p < length alive)%nat -> kill ps alive !! p = Some false.
Proof.
  intros Hp Hl. induction ps as [|q ps IH]; [by destruct (not_elem_of_nil p)|].
  change (kill (q :: ps) alive) with (<[q := false]> (kill ps alive)). destruct (decide (q = p)) as [->|Hne].
  - apply list_lookup_insert_eq. by rewrite kill_length.
  - rewrite list_lookup_insert_ne by done. apply IH. set_solver.
Qed.

Lemma kill_out ps alive p : p ∉ ps -> kill ps alive !! p = alive !! p.
Proof.
  intros Hp. induction ps as [|q ps IH]; [done|].
  change (kill (q :: ps) alive) with (<[q := false]> (kill ps alive)). rewrite list_lookup_insert_ne by set_solver.
  apply IH. set_solver.
Qed.

(** Changing a value changes no key. *)
Lemma key_at_set l q e v p : l !! q = Some e -> key_at (<[q := set_val e v]> l) p = key_at l p.
Proof.
  intros He. unfold key_at. destruct (decide (q = p)) as [<-|Hne]; [|by rewrite list_lookup_insert_ne].
  rewrite list_lookup_insert_eq by (by apply lookup_lt_Some in He). by rewrite He.
Qed.

Lemma group_key_at l l' p ps : (forall q, key_at l' q = key_at l q) -> group l' p ps = group l p ps.
Proof. intros H. unfold group. apply List.filter_ext_in. intros q _. by rewrite !H. Qed.

Lemma group_none l p ps : Forall (fun q => strcaseeq (key_at l q) (key_at l p) = false) ps -> group l p ps = [].
Proof. induction 1 as [|q ps Hq _ IH]; cbn; [done|]. unfold group in IH. by rewrite Hq. Qed.

Lemma group_all l p ps : Forall (fun q => strcaseeq (key_at l q) (key_at l p) = true) ps -> group l p ps = ps.
Proof. induction 1 as [|q ps Hq _ IH]; cbn; [done|]. unfold group in IH. by rewrite Hq, IH. Qed.

Lemma group_app l p a b : group l p (a ++ b) = group l p a ++ group l p b.
Proof. apply List.filter_app. Qed.

Lemma group_subset l p ps q : q ∈ group l p ps -> q ∈ ps.
Proof. rewrite !list_elem_of_In. unfold group. rewrite List.filter_In. tauto. Qed.

(** In sorted pointers, the keys after a run are other keys. *)
Lemma after_run l last run rest :
  StronglySorted (le (key_at l)) (last :: run ++ rest) ->
  (forall q, head rest = Some q -> strcaseeq (key_at l q) (key_at l last) = false) ->
  Forall (fun q => strcaseeq (key_at l q) (key_at l last) = false) rest.
Proof.
  intros Hs Hh. apply Sorted.StronglySorted_inv in Hs as [Hs Hl]. apply Forall_app in Hl as [_ Hl].
  destruct rest as [|q rest]; [done|]. specialize (Hh q eq_refl).
  assert (Hr : StronglySorted (le (key_at l)) (q :: rest)).
  { clear -Hs. induction run as [|x run IH]; [done|]. apply IH. by inversion Hs. }
  apply Forall_cons in Hl as [Hlq Hl].
  assert (Hlt : key_lt (key_at l last) (key_at l q)).
  { unfold key_lt, le, key_le in *. destruct (strcasecmp (key_at l last) (key_at l q)) eqn:E; [|done|done].
    apply strcasecmp_eq in E. rewrite (proj2 (strcaseeq_spec _ _)) in Hh; [done|by symmetry]. }
  constructor; [done|]. inversion Hr as [|? ? _ Hq]; subst. eapply Forall_impl; [exact Hq|]. cbn. intros x Hx.
  pose proof (key_lt_le_trans _ _ _ Hlt Hx) as H. unfold key_lt in H.
  destruct (strcaseeq (key_at l x) (key_at l last)) eqn:E; [|done].
  apply strcaseeq_spec in E. rewrite (proj2 (strcasecmp_eq _ _)) in H; [done|by symmetry].
Qed.

(** What the loop has done to the entry at [p], for the pointers [ps]. *)
Definition folded (flags : Z) (ps : list nat) (l l' : list entry) (alive alive' : list bool) (p : nat) : Prop :=
  if bool_decide (p ∈ ps) then
    if bool_decide (head (group l p ps) = Some p) then
      l' !! p = (fun e => set_val e (combine flags (map (val_at l) (group l p ps)))) <$> l !! p /\ alive' !! p = alive !! p
    else alive' !! p = Some false
  else l' !! p = l !! p /\ alive' !! p = alive !! p.

Lemma folded_alone flags ps l l' alive alive' p e :
  l !! p = Some e -> p ∈ ps -> group l p ps = [p] -> l' !! p = l !! p -> alive' !! p = alive !! p ->
  folded flags ps l l' alive alive' p.
Proof.
  intros He Hp Hg Hl Ha. unfold folded. rewrite bool_decide_eq_true_2 by done. rewrite Hg, bool_decide_eq_true_2 by done.
  cbn [map]. rewrite combine_single. unfold val_at. rewrite Hl, He. cbn. by rewrite set_val_id.
Qed.

(** Moving on to the next key. *)
Lemma folded_skip flags l l' alive alive' last rest e :
  l !! last = Some e -> NoDup (last :: rest) ->
  Forall (fun q => strcaseeq (key_at l q) (key_at l last) = false) rest ->
  (forall p, folded flags rest l l' alive alive' p) -> forall p, folded flags (last :: rest) l l' alive alive' p.
Proof.
  intros He [Hni _]%NoDup_cons Hr Hf p. specialize (Hf p). destruct (decide (p = last)) as [->|Hne].
  - unfold folded in Hf. rewrite bool_decide_eq_false_2 in Hf by done. destruct Hf as [H1 H2].
    apply (folded_alone _ _ _ _ _ _ _ e); [done|set_solver| |done|done].
    unfold group. cbn. rewrite strcaseeq_refl. f_equal. by apply group_none.
  - unfold folded in *. rewrite (bool_decide_ext (p ∈ last :: rest) (p ∈ rest)) by set_solver.
    case_bool_decide as Hp; [|done].
    assert (Hg : group l p (last :: rest) = group l p rest).
    { unfold group. cbn. rewrite strcaseeq_sym. rewrite Forall_forall in Hr. by rewrite (Hr p Hp). }
    by rewrite Hg.
Qed.

(** The group of an element of a run, and of an element after it. *)
Lemma group_run l last run rest q :
  Forall (fun x => strcaseeq (key_at l x) (key_at l last) = true) run ->
  Forall (fun x => strcaseeq (key_at l x) (key_at l last) = false) rest ->
  q = last \/ q ∈ run -> group l q (last :: run ++ rest) = last :: run.
Proof.
  intros Hin Hout Hq. assert (Hql : strcaseeq (key_at l last) (key_at l q) = true).
  { destruct Hq as [->|Hq]; [apply strcaseeq_refl|]. rewrite strcaseeq_sym. rewrite Forall_forall in Hin. by apply Hin. }
  assert (Hall : forall x, strcaseeq (key_at l x) (key_at l q) = strcaseeq (key_at l x) (key_at l last)).
  { intros x. rewrite (strcaseeq_sym _ (key_at l q)), (strcaseeq_sym _ (key_at l last)). by apply strcaseeq_trans. }
  change (group l q (last :: run ++ rest)) with (group l q ([last] ++ run ++ rest)).
  rewrite !group_app, (group_all l q run), (group_none l q rest), app_nil_r.
  - unfold group. cbn. by rewrite Hql.
  - eapply Forall_impl; [exact Hout|]. intros x. cbn. by rewrite Hall.
  - eapply Forall_impl; [exact Hin|]. intros x. cbn. by rewrite Hall.
Qed.

Lemma group_after_run l last run rest q :
  Forall (fun x => strcaseeq (key_at l x) (key_at l last) = true) run ->
  strcaseeq (key_at l last) (key_at l q) = false ->
  group l q (last :: run ++ rest) = group l q rest /\ group l q (last :: rest) = group l q rest.
Proof.
  intros Hin Hq. assert (Hn : group l q run = []).
  { apply group_none. eapply Forall_impl; [exact Hin|]. intros x Hx. cbn in *.
    rewrite <- Hq. symmetry. by apply strcaseeq_trans. }
  change (group l q (last :: run ++ rest)) with (group l q ([last] ++ run ++ rest)). rewrite !group_app, Hn.
  unfold group. cbn. by rewrite Hq.
Qed.

(** Folding a run into its first entry. *)
Lemma folded_run flags l l' alive alive' last run rest e :
  let l1 := <[last := set_val e (combine flags (map (val_at l) (last :: run)))]> l in
  l !! last = Some e -> NoDup (last :: run ++ rest) -> Forall (fun p => (p < length alive)%nat) run ->
  Forall (fun q => strcaseeq (key_at l q) (key_at l last) = true) run ->
  Forall (fun q => strcaseeq (key_at l q) (key_at l last) = false) rest ->
  (forall p, folded flags (last :: rest) l1 l' (kill run alive) alive' p) ->
  forall p, folded flags (last :: run ++ rest) l l' alive alive' p.
Proof.
  intros l1 He [Hni Hnd]%NoDup_cons Hlen Hin Hout Hf p. specialize (Hf p).
  apply NoDup_app in Hnd as (_ & Hdis & _). rewrite elem_of_app in Hni.
  assert (Hk1 : forall q, key_at l1 q = key_at l q) by (intros q; by apply key_at_set).
  assert (Hl1 : l1 !! last = Some (set_val e (combine flags (map (val_at l) (last :: run)))))
    by (apply list_lookup_insert_eq; by apply lookup_lt_Some in He).
  assert (Hgrun : forall q, q = last \/ q ∈ run -> group l q (last :: run ++ rest) = last :: run)
    by (intros q Hq; by apply group_run).
  unfold folded in *. destruct (decide (p = last)) as [->|Hne]; [|destruct (decide (p ∈ run)) as [Hpr|Hpr]].
  - rewrite bool_decide_eq_true_2 in Hf by set_solver. rewrite bool_decide_eq_true_2 by set_solver.
    rewrite Hgrun by auto. rewrite bool_decide_eq_true_2 by done.
    assert (Hg1 : group l1 last (last :: rest) = [last]).
    { unfold group. cbn. rewrite strcaseeq_refl. f_equal. apply group_none. eapply Forall_impl; [exact Hout|].
      intros x. cbn. by rewrite !Hk1. }
    rewrite Hg1, bool_decide_eq_true_2 in Hf by done. cbn [map] in Hf. rewrite combine_single in Hf.
    unfold val_at at 1 in Hf. rewrite Hl1 in Hf. rewrite kill_out in Hf by tauto. rewrite He. destruct Hf as [-> ->]. done.
  - rewrite bool_decide_eq_true_2 by set_solver. rewrite Hgrun by auto.
    rewrite bool_decide_eq_false_2 by (cbn; congruence).
    rewrite bool_decide_eq_false_2 in Hf by (intros [->|Hp]%elem_of_cons; [done|by apply (Hdis p)]).
    destruct Hf as [_ ->]. apply kill_in; [done|]. rewrite Forall_forall in Hlen. by apply Hlen.
  - rewrite (bool_decide_ext (p ∈ last :: run ++ rest) (p ∈ last :: rest)) by set_solver.
    rewrite kill_out in Hf by done. assert (Hlp : l1 !! p = l !! p) by (by apply list_lookup_insert_ne). rewrite Hlp in Hf.
    case_bool_decide as Hp; [|done]. apply elem_of_cons in Hp as [->|Hp]; [done|].
    assert (Hpl : strcaseeq (key_at l last) (key_at l p) = false)
      by (rewrite strcaseeq_sym; rewrite Forall_forall in Hout; by apply Hout).
    destruct (group_after_run l last run rest p Hin Hpl) as [Hg Hg1].
    rewrite <- (group_key_at l l1) in Hg1 by done.
    rewrite Hg, Hg1 in *. assert (Hvals : map (val_at l1) (group l p rest) = map (val_at l) (group l p rest)).
    { apply List.map_ext_in. intros x Hx. unfold val_at. apply list_elem_of_In, group_subset in Hx.
      unfold l1. rewrite list_lookup_insert_ne; [done|]. intros <-. tauto. }
    by rewrite Hvals in Hf.
Qed.

Lemma valid_set l q e v ps : l !! q = Some e -> checksum_ok e -> valid l ps -> valid (<[q := set_val e v]> l) ps.
Proof.
  intros He Hc Hv. eapply Forall_impl; [exact Hv|]. intros p (x & Hx & Hcx). destruct (decide (q = p)) as [<-|Hne].
  - eexists. split; [apply list_lookup_insert_eq; by apply lookup_lt_Some in He|]. exact Hc.
  - exists x. by rewrite list_lookup_insert_ne.
Qed.

Lemma run_value junk flags l last run :
  valid l (last :: run) -> run <> [] ->
  (if flags =? APR_OVERLAP_TABLES_MERGE then do vs <- vals_at l (last :: run); merge_vals junk vs
   else do e <- elt l (List.last run last); Ok (val e)) = Ok (combine flags (map (val_at l) (last :: run))).
Proof.
  intros Hv Hne. unfold combine. destruct (flags =? APR_OVERLAP_TABLES_MERGE).
  - rewrite vals_at_ok by done. cbn [rbind]. by apply merge_vals_ok.
  - destruct run as [|p run _] using rev_ind; [done|]. rewrite List.last_last.
    rewrite app_comm_cons, List.map_app. cbn [map]. rewrite List.last_last.
    rewrite app_comm_cons in Hv. apply Forall_app in Hv as [_ Hv]. apply Forall_cons in Hv as [(e & He & _) _].
    unfold elt, val_at. by rewrite He.
Qed.

Lemma StronglySorted_app_skip {A} (R : A -> A -> Prop) x a b :
  StronglySorted R (x :: a ++ b) -> StronglySorted R (x :: b).
Proof.
  induction a as [|y a IH]; [done|]. intros H. apply IH. inversion H as [|? ? Hs Hf]; subst.
  inversion Hs; subst. inversion Hf; subst. by constructor.
Qed.

Lemma dup_loop_ok junk flags fuel : forall l alive last ps found,
  (length ps <= fuel)%nat -> StronglySorted (le (key_at l)) (last :: ps) -> NoDup (last :: ps) ->
  valid l (last :: ps) -> Forall (fun p => (p < length alive)%nat) (last :: ps) ->
  exists l' alive' found', dup_loop fuel junk flags l alive last ps found = Ok (l', alive', found') /\
    length l' = length l /\ length alive' = length alive /\
    (found = true -> found' = true) /\ (found' = false -> alive' = alive) /\
    forall p, folded flags (last :: ps) l l' alive alive' p.
Proof.
  induction fuel as [|fuel IH]; intros l alive last ps found Hf Hs Hn Hv Ha;
    pose proof (proj1 (Forall_cons _ _ _) Hv) as [(le0 & Hle & Hcs) Hvps];
    (assert (Hkl : key le0 = key_at l last) by (unfold key_at; by rewrite Hle));
    destruct ps as [|p0 ps]; cbn [length] in Hf; try lia.
  1, 2: exists l, alive, found; repeat (split; [done|]);
    apply (folded_skip _ _ _ _ _ _ [] le0); try done; intros p; unfold folded; by rewrite bool_decide_eq_false_2 by set_solver.
  cbn [dup_loop]. unfold elt at 1. rewrite Hle. cbn [of_option rbind].
  destruct (dup_run_ok l le0 (p0 :: ps) Hcs Hvps) as (run & rest & Hrun & Hps & Hin & Hout). rewrite Hrun. cbn [rbind].
  rewrite Hkl in Hin, Hout. destruct run as [|q0 run'] eqn:Er.
  - cbn in Hps. subst rest. assert (Hrest := after_run l last [] (p0 :: ps) Hs Hout).
    destruct (IH l alive p0 ps found) as (l' & alive' & f' & Hd & H1 & H2 & H3 & H4 & H5).
    + lia.
    + by inversion Hs.
    + by apply NoDup_cons in Hn as [_ Hn].
    + done.
    + by apply Forall_cons in Ha as [_ Ha].
    + exists l', alive', f'. repeat (split; [done|]). by apply (folded_skip _ _ _ _ _ _ _ le0).
  - rewrite <- Er in *. assert (Hne : run <> []) by (by rewrite Er). clear Er q0 run'. rewrite Hps in Hs, Hn, Hv, Ha.
    assert (Hrest := after_run l last run rest Hs Hout).
    pose proof Hv as Hv'. rewrite app_comm_cons in Hv'. apply Forall_app in Hv' as [Hvr Hvrest].
    assert (Hlen : length (p0 :: ps) = (length run + length rest)%nat) by (by rewrite Hps, length_app).
    assert (Hrl : (0 < length run)%nat) by (destruct run; [done|cbn; lia]). cbn [length] in Hlen.
    rewrite (run_value junk flags l last run Hvr Hne). cbn [rbind].
    set (v := combine flags _). set (l1 := <[last := set_val le0 v]> l).
    assert (Hk1 : forall q, key_at l1 q = key_at l q) by (intros q; by apply key_at_set).
    destruct (IH l1 (kill run alive) last rest true) as (l' & alive' & f' & Hd & H1 & H2 & H3 & H4 & H5).
    + lia.
    + apply (StronglySorted_weaken (le (key_at l))); [intros x y; unfold le; by rewrite !Hk1|].
      by apply StronglySorted_app_skip in Hs.
    + apply NoDup_cons in Hn as [Hni Hn]. apply NoDup_app in Hn as (_ & _ & Hn). apply NoDup_cons. set_solver.
    + apply valid_set; [done|done|]. apply Forall_cons in Hvr as [Hvl _]. by apply Forall_cons.
    + rewrite kill_length. rewrite app_comm_cons in Ha. apply Forall_app in Ha as [Ha1 Ha2].
      apply Forall_cons in Ha1 as [Ha1 _]. by apply Forall_cons.
    + exists l', alive', f'. rewrite Hps. split; [by destruct run|]. unfold l1 in H1. rewrite length_insert in H1.
      rewrite kill_length in H2. split; [done|]. split; [done|]. split; [auto|]. split; [intros ->; by discriminate H3|].
      apply (folded_run _ _ _ _ _ _ _ _ le0); try done.
      rewrite app_comm_cons in Ha. apply Forall_app in Ha as [Ha1 _]. by apply Forall_cons in Ha1 as [_ Ha1].
Qed.

(** ** The specification: one entry per key *)

(** The entries without an earlier one with their key, after the entries [pre]. *)
Fixpoint firsts_from (pre es : list entry) : list entry :=
  match es with
  | [] => []
  | e :: es' => (if existsb (same_key (key e)) pre then [] else [e]) ++ firsts_from (pre ++ [e]) es'
  end.

(** The first entry of every key, in table order, with the values of all the
    entries of the key joined, or the last one of them. *)
Definition spec_compress (flags : Z) (es : list entry) : list entry :=
  map (fun e => set_val e (combine flags (map val (List.filter (same_key (key e)) es)))) (firsts_from [] es).

Definition alive_of (es : list entry) (alive : list bool) : list entry :=
  map fst (List.filter snd (zip es alive)).

Lemma squeeze_ok rest : forall pre gap tail alive ar,
  take (length rest) (drop (length pre + length gap) alive) = ar -> length ar = length rest ->
  exists stale, squeeze (length rest) (length pre + length gap) (length pre) (pre ++ gap ++ rest ++ tail) alive =
    Ok (pre ++ alive_of rest ar ++ stale ++ tail, (length pre + length (alive_of rest ar))%nat).
Proof.
  induction rest as [|e rest IH]; intros pre gap tail alive ar Har Hl.
  - destruct ar; [|done]. exists gap. cbn. by rewrite Nat.add_0_r.
  - destruct ar as [|a ar]; [done|]. cbn [length squeeze].
    assert (Hsrc : (pre ++ gap ++ (e :: rest) ++ tail) !! (length pre + length gap)%nat = Some e).
    { rewrite app_assoc, lookup_app_r by (rewrite length_app; lia). rewrite length_app, Nat.sub_diag. done. }
    assert (Ha : alive !! (length pre + length gap)%nat = Some a /\
                 take (length rest) (drop (S (length pre + length gap)) alive) = ar).
    { destruct (drop (length pre + length gap) alive) as [|b al] eqn:Ed; [done|]. cbn in Har. injection Har as -> Har.
      split; [rewrite <- (Nat.add_0_r (length pre + length gap)), <- lookup_drop, Ed; done|].
      rewrite <- Nat.add_1_r, <- drop_drop, Ed. done. }
    destruct Ha as [Ha Har']. unfold elt. rewrite Hsrc, Ha. cbn [of_option rbind].
    assert (Hl' : length ar = length rest) by (cbn in Hl; lia). destruct a.
    + assert (Hst : exists gap', <[length pre := e]> (pre ++ gap ++ (e :: rest) ++ tail) =
        (pre ++ [e]) ++ gap' ++ rest ++ tail /\ length gap' = length gap).
      { destruct gap as [|g gap].
        - exists []. rewrite insert_app_r_alt, Nat.sub_diag by lia. cbn. by rewrite <- app_assoc.
        - exists (gap ++ [e]). rewrite insert_app_r_alt, Nat.sub_diag by lia. cbn. rewrite <- !app_assoc. cbn.
          rewrite length_app. cbn. split; [done|lia]. }
      destruct Hst as (gap' & -> & Hgl). destruct (IH (pre ++ [e]) gap' tail alive ar) as (stale & Hsq); [|done|].
      * rewrite length_app, Hgl. cbn. by replace (length pre + 1 + length gap)%nat with (S (length pre + length gap)) by lia.
      * exists stale. rewrite length_app, Hgl in Hsq. cbn [length] in Hsq.
        replace (length pre + 1 + length gap)%nat with (S (length pre + length gap)) in Hsq by lia.
        replace (length pre + 1)%nat with (S (length pre)) in Hsq by lia. rewrite Hsq.
        change (alive_of (e :: rest) (true :: ar)) with (e :: alive_of rest ar). cbn [length app].
        rewrite <- app_assoc. cbn. do 2 f_equal. lia.
    + destruct (IH pre (gap ++ [e]) tail alive ar) as (stale & Hsq); [|done|].
      * rewrite length_app. cbn. by replace (length pre + (length gap + 1))%nat with (S (length pre + length gap)) by lia.
      * exists stale. rewrite length_app in Hsq. cbn [length] in Hsq.
        replace (length pre + (length gap + 1))%nat with (S (length pre + length gap)) in Hsq by lia.
        rewrite <- app_assoc in Hsq. exact Hsq.
Qed.

Lemma alive_of_firsts f es : forall pre l' ar,
  length l' = length es -> length ar = length es ->
  (forall i e, es !! i = Some e ->
     let first := negb (existsb (same_key (key e)) (pre ++ take i es)) in
     ar !! i = Some first /\ (first = true -> l' !! i = Some (f e))) ->
  alive_of l' ar = map f (firsts_from pre es).
Proof.
  induction es as [|e es IH]; intros pre l' ar Hl Ha H.
  - by destruct l', ar.
  - destruct l' as [|e' l']; [done|]. destruct ar as [|a ar]; [done|]. cbn [firsts_from].
    destruct (H 0%nat e eq_refl) as [H1 H2]. cbn in H1, H2. rewrite app_nil_r in H1, H2. injection H1 as H1.
    assert (Hr : alive_of l' ar = map f (firsts_from (pre ++ [e]) es)).
    { apply IH; [cbn in Hl; lia|cbn in Ha; lia|]. intros i x Hx. rewrite <- app_assoc. apply (H (S i) x Hx). }
    destruct (existsb (same_key (key e)) pre); cbn in H1; subst a; cbn [app map].
    + exact Hr.
    + change (alive_of (e' :: l') (true :: ar)) with (e' :: alive_of l' ar). rewrite Hr.
      specialize (H2 eq_refl). by injection H2 as ->.
Qed.

Lemma filter_seq_map {B} (g : nat -> B) (g' : entry -> B) (f : nat -> bool) (f' : entry -> bool) es : forall k,
  (forall i e, es !! i = Some e -> f (k + i)%nat = f' e /\ g (k + i)%nat = g' e) ->
  map g (List.filter f (seq k (length es))) = map g' (List.filter f' es).
Proof.
  induction es as [|e es IH]; intros k H; [done|]. cbn [length seq List.filter].
  destruct (H 0%nat e eq_refl) as [H1 H2]. rewrite Nat.add_0_r in H1, H2. rewrite H1.
  assert (Hr : map g (List.filter f (seq (S k) (length es))) = map g' (List.filter f' es)).
  { apply IH. intros i x Hx. replace (S k + i)%nat with (k + S i)%nat by lia. by apply (H (S i)). }
  destruct (f' e); cbn [map]; by rewrite Hr, ?H2.
Qed.

Lemma existsb_filter {B} (f : B -> bool) l : existsb f l = false <-> List.filter f l = [].
Proof. induction l as [|x l IH]; cbn; [done|]. by destruct (f x). Qed.

Lemma head_filter_seq f n i :
  (i < n)%nat -> f i = true -> head (List.filter f (seq 0 n)) = Some i <-> List.filter f (seq 0 i) = [].
Proof.
  intros Hi Hf. replace n with (i + S (n - S i))%nat by lia. rewrite seq_app, List.filter_app. cbn [Nat.add seq].
  cbn [List.filter]. rewrite Hf. destruct (List.filter f (seq 0 i)) as [|x xs] eqn:E; [done|]. cbn. split; [|done].
  intros [= ->]. assert (Hin : In i (List.filter f (seq 0 i))) by (rewrite E; by left).
  apply List.filter_In in Hin as [Hin _]. apply in_seq in Hin. lia.
Qed.

(** The pointers with the key of entry [i], in any stable order, are the
    entries with its key. *)
Lemma group_seq l n i e :
  (n <= length l)%nat -> take n l !! i = Some e ->
  map (val_at l) (group l i (seq 0 n)) = map val (List.filter (same_key (key e)) (take n l)) /\
  (head (group l i (seq 0 n)) = Some i <-> existsb (same_key (key e)) (take i (take n l)) = false).
Proof.
  intros Hn He. pose proof (lookup_lt_Some _ _ _ He) as Hi. rewrite length_take in Hi.
  assert (Hat : forall j x, take n l !! j = Some x -> key_at l j = key x /\ val_at l j = val x).
  { intros j x Hx. apply lookup_take_Some in Hx as [Hx _]. unfold key_at, val_at. by rewrite Hx. }
  destruct (Hat i e He) as [Hk _].
  assert (Hlen : length (take n l) = n) by (rewrite length_take; lia). unfold group. rewrite Hk. split.
  - rewrite <- Hlen at 1. apply filter_seq_map. intros j x Hx. cbn. destruct (Hat j x Hx) as [-> ->]. done.
  - rewrite head_filter_seq by (lia || (rewrite Hk; apply strcaseeq_refl)). rewrite existsb_filter.
    pose proof (filter_seq_map (fun _ => tt) (fun _ => tt) (fun q => strcaseeq (key_at l q) (key e))
      (same_key (key e)) (take i (take n l)) 0) as Hm.
    rewrite length_take, Hlen, Nat.min_l in Hm by lia. specialize (Hm ltac:(intros j x Hx;
      apply lookup_take_Some in Hx as [Hx _]; cbn; by destruct (Hat j x Hx) as [-> _])).
    split; intros H; rewrite H in Hm; cbn in Hm; [symmetry in Hm|]; by apply List.map_eq_nil in Hm.
Qed.

Lemma key_test_group l i : key_test (key_at l) (fun q => strcaseeq (key_at l q) (key_at l i)).
Proof. intros x y Hx%strcaseeq_spec Hy%strcaseeq_spec. apply strcasecmp_eq. congruence. Qed.

(** A table with distinct keys, or at most one entry, is its own compression. *)
Lemma spec_compress_single flags es : (length es <= 1)%nat -> spec_compress flags es = es.
Proof.
  destruct es as [|e [|e' es]]; intros H; [done| |cbn in H; lia].
  unfold spec_compress. cbn. unfold same_key. rewrite strcaseeq_refl. cbn. by rewrite combine_single, set_val_id.
Qed.

(** The folded storage, read through the marks. *)
Lemma folded_spec flags t sorted l' alive' :
  wf t -> sorted ≡ₚ seq 0 (nelts t) ->
  (forall p, key_test (key_at (elts t)) p -> List.filter p sorted = List.filter p (seq 0 (nelts t))) ->
  length l' = length (elts t) -> length alive' = nelts t ->
  (forall p, folded flags sorted (elts t) l' (replicate (nelts t) true) alive' p) ->
  alive_of (take (nelts t) l') alive' = spec_compress flags (abs t).
Proof.
  intros Hwf Hperm Hst Hl Ha Hf. pose proof (wf_nelts t Hwf) as Hn. pose proof (abs_length t Hwf) as Hlen.
  unfold spec_compress. apply alive_of_firsts; [rewrite length_take; lia|lia|].
  intros i e He first. cbn [app] in first. pose proof (lookup_lt_Some _ _ _ He) as Hi. rewrite Hlen in Hi.
  destruct (group_seq (elts t) (nelts t) i e Hn He) as [Hv Hh].
  assert (Hg : group (elts t) i sorted = group (elts t) i (seq 0 (nelts t))) by (apply Hst, key_test_group).
  specialize (Hf i). unfold folded in Hf. rewrite bool_decide_eq_true_2 in Hf
    by (rewrite Hperm; apply list_elem_of_In, in_seq; lia).
  rewrite Hg, Hv in Hf. rewrite lookup_replicate_2 in Hf by done. rewrite lookup_take_lt by done.
  assert (Hli : elts t !! i = Some e) by (by apply lookup_take_Some in He as [He _]).
  unfold first, abs. destruct (existsb (same_key (key e)) (take i (take (nelts t) (elts t)))) eqn:E.
  - rewrite bool_decide_eq_false_2 in Hf by (intros H; apply Hh in H; done). done.
  - rewrite bool_decide_eq_true_2 in Hf by (by apply Hh). destruct Hf as [Hf1 Hf2]. split; [exact Hf2|].
    intros _. rewrite Hf1, Hli. done.
Qed.

Lemma spec_compress_sums flags es : Forall checksum_ok es -> Forall checksum_ok (spec_compress flags es).
Proof.
  intros H. unfold spec_compress. apply Forall_fmap.
  assert (Hf : forall pre, Forall checksum_ok (firsts_from pre es)).
  { induction H as [|e es He _ IH]; intros pre; cbn; [done|]. case_match; cbn; [done|]. by constructor. }
  eapply Forall_impl; [apply Hf|]. done.
Qed.

Lemma alive_of_all l n : length l = n -> alive_of l (replicate n true) = l.
Proof.
  intros <-. induction l as [|e l IH]; [done|].
  change (alive_of (e :: l) (replicate (length (e :: l)) true)) with (e :: alive_of l (replicate (length l) true)). by rewrite IH.
Qed.

Lemma compress_refines junk t flags :
  wf t -> exists t', apr_table_compress junk t flags = Ok t' /\ wf t' /\ abs t' = spec_compress flags (abs t).
Proof.
  intros Hwf. pose proof (wf_nelts t Hwf) as Hn. pose proof (abs_length t Hwf) as Hlen. unfold apr_table_compress.
  destruct (Nat.leb_spec (nelts t) 1) as [Hle|Hgt]; [exists t; by rewrite spec_compress_single by lia|].
  destruct (table_mergesort_ok (key_at (elts t)) (seq 0 (nelts t))) as (sorted & -> & Hperm & Hs & Hst). cbn [rbind].
  destruct sorted as [|last ps]; [apply Permutation_nil_l in Hperm; destruct (nelts t); [lia|done]|].
  assert (Hin : Forall (fun p => (p < nelts t)%nat) (last :: ps)).
  { rewrite Hperm. apply Forall_forall. intros p Hp. apply list_elem_of_In, in_seq in Hp. lia. }
  assert (Hval : valid (elts t) (last :: ps)).
  { eapply Forall_impl; [exact Hin|]. cbn. intros p Hp. destruct (lookup_lt_is_Some_2 (abs t) p) as [e He]; [lia|].
    exists e. pose proof (wf_sums t Hwf) as Hsum. rewrite Forall_lookup in Hsum. split; [|by apply (Hsum p)].
    by apply lookup_take_Some in He as [He _]. }
  destruct (dup_loop_ok junk flags (length ps) (elts t) (replicate (nelts t) true) last ps false)
    as (l' & alive' & f' & -> & H1 & H2 & _ & H4 & H5); try done.
  { rewrite Hperm. apply NoDup_ListNoDup, seq_NoDup. }
  { eapply Forall_impl; [exact Hin|]. cbn. intros p Hp. by rewrite length_replicate. }
  cbn [rbind]. rewrite length_replicate in H2.
  pose proof (folded_spec flags t (last :: ps) l' alive' Hwf Hperm Hst H1 H2 H5) as Hspec.
  destruct (index_lengths t Hwf) as [Hi1 Hi2].
  assert (Hfin : exists l2 n2, (if f' then squeeze (nelts t) 0 0 l' alive' else Ok (l', nelts t)) = Ok (l2, n2) /\
    (n2 <= length l2)%nat /\ abs (set_elts t l2 n2) = spec_compress flags (abs t)).
  { destruct f'.
    - destruct (squeeze_ok (take (nelts t) l') [] [] (drop (nelts t) l') alive' alive') as (stale & Hsq).
      + cbn. rewrite drop_0, length_take, take_ge by lia. done.
      + rewrite length_take. lia.
      + cbn [app length Nat.add] in Hsq. rewrite take_drop, length_take, Nat.min_l in Hsq by lia. rewrite Hsq, Hspec.
        eexists _, _. split; [reflexivity|]. split; [rewrite !length_app; lia|]. by eapply abs_exact.
    - exists l', (nelts t). split; [done|]. split; [lia|]. rewrite (H4 eq_refl) in Hspec.
      rewrite alive_of_all in Hspec by (rewrite length_take; lia). exact Hspec. }
  destruct Hfin as (l2 & n2 & -> & Hle2 & Habs). cbn [rbind].
  destruct (reindex_wf (set_elts t l2 n2)) as (t' & Hre & Hwf' & Ha'); try done.
  - rewrite Habs. apply spec_compress_sums, Hwf.
  - exists t'. by rewrite Ha', Habs.
Qed.

(** ** Properties *)

Lemma same_key_trans k e e' : same_key k e = true -> same_key (key e) e' = same_key k e'.
Proof. unfold same_key, strcaseeq. intros H%bool_decide_eq_true. by rewrite H. Qed.

Lemma lookup_first_cons k e es : lookup_first k (e :: es) = if same_key k e then Some (val e) else lookup_first k es.
Proof.
  unfold lookup_first. cbn [find_first]. destruct (same_key k e); [done|]. by destruct (find_first (same_key k) es).
Qed.

Lemma existsb_same k e es : same_key k e = true -> existsb (same_key (key e)) es = existsb (same_key k) es.
Proof. intros H. induction es as [|x es IH]; [done|]. cbn. by rewrite IH, (same_key_trans k e). Qed.

Lemma lookup_firsts k f es : forall pre,
  (forall e, key (f e) = key e) ->
  lookup_first k (map f (firsts_from pre es)) =
    if existsb (same_key k) pre then None else (fun e => val (f e)) <$> List.find (same_key k) es.
Proof.
  intros pre Hk. revert pre. induction es as [|e es IH]; intros pre; cbn [firsts_from List.find map]; [by case_match|].
  assert (Hf : same_key k (f e) = same_key k e) by (unfold same_key; by rewrite Hk).
  specialize (IH (pre ++ [e])). rewrite existsb_app in IH. cbn [existsb] in IH. rewrite orb_false_r in IH.
  destruct (same_key k e) eqn:E; [rewrite (existsb_same k e pre E); rewrite orb_true_r in IH|rewrite orb_false_r in IH].
  - destruct (existsb (same_key k) pre); cbn [app map]; [done|]. by rewrite lookup_first_cons, Hf.
  - rewrite <- IH. destruct (existsb (same_key (key e)) pre); cbn [app map]; [done|]. by rewrite lookup_first_cons, Hf.
Qed.

(** The keys of a list of entries up to case. *)
Definition folded_keys (es : list entry) : list (list Z) := map (fun e => map tolower (key e)) es.

Lemma firsts_distinct es : forall pre,
  NoDup (folded_keys (firsts_from pre es)) /\
  forall e, e ∈ firsts_from pre es -> existsb (same_key (key e)) pre = false.
Proof.
  induction es as [|e es IH]; intros pre; cbn [firsts_from]; [split; [constructor|intros e []%not_elem_of_nil]|].
  destruct (IH (pre ++ [e])) as [Hn Hp].
  assert (Hp' : forall x, x ∈ firsts_from (pre ++ [e]) es -> existsb (same_key (key x)) pre = false /\ same_key (key x) e = false).
  { intros x Hx. specialize (Hp x Hx). rewrite existsb_app in Hp. apply orb_false_iff in Hp as [H1 H2]. cbn in H2.
    by rewrite orb_false_r in H2. }
  destruct (existsb (same_key (key e)) pre) eqn:E; cbn [app]; [split; [done|]; intros x Hx; by apply Hp'|]. split.
  - unfold folded_keys. cbn [map]. apply NoDup_cons. split; [|done].
    intros (x & Hx & Hin)%list_elem_of_fmap. destruct (Hp' x Hin) as [_ Hne].
    unfold same_key in Hne. rewrite (proj2 (strcaseeq_spec _ _) Hx) in Hne. done.
  - intros x [->|Hx]%elem_of_cons; [done|by apply Hp'].
Qed.

Lemma compress_distinct flags es : NoDup (folded_keys (spec_compress flags es)).
Proof.
  unfold folded_keys, spec_compress. rewrite List.map_map. apply (firsts_distinct es []).
Qed.

Lemma find_filter k es : List.find (same_key k) es = head (List.filter (same_key k) es).
Proof. induction es as [|e es IH]; [done|]. cbn. by destruct (same_key k e). Qed.

Lemma lookup_compress flags k es :
  lookup_first k (spec_compress flags es) =
    match map val (List.filter (same_key k) es) with [] => None | vs => Some (combine flags vs) end.
Proof.
  unfold spec_compress. rewrite lookup_firsts by done. cbn [existsb]. rewrite find_filter.
  destruct (List.filter (same_key k) es) as [|e r] eqn:E; [done|]. cbn [head fmap option_fmap option_map val set_val map].
  assert (He : same_key k e = true).
  { assert (Hin : In e (List.filter (same_key k) es)) by (rewrite E; by left). apply List.filter_In in Hin as [_ Hin]. exact Hin. }
  rewrite (List.filter_ext (same_key (key e)) (same_key k)) by (intros x; by apply same_key_trans). by rewrite E.
Qed.

Lemma overlap_refines junk a b flags :
  wf a -> wf b ->
  exists t, apr_table_overlap junk a b flags = Ok t /\ wf t /\ abs t = spec_compress flags (abs a ++ abs b).
Proof.
  intros Ha Hb. unfold apr_table_overlap. destruct (Nat.eqb_spec (nelts a + nelts b) 0) as [E|E].
  - exists a. pose proof (abs_length a Ha). pose proof (abs_length b Hb).
    destruct (abs a) eqn:E1, (abs b) eqn:E2; cbn in *; try lia. done.
  - destruct (cat_refines a b Ha Hb) as [Hw Hc]. rewrite <- Hc. by apply compress_refines.
Qed.

(** ** The documented behaviour

    [apr_tables.h] describes [apr_table_overlap] as a loop that adds the entries of
    the second table to the first with [apr_table_setn] or [apr_table_mergen]. *)
Definition documented (flags : Z) (e : entry) : op :=
  if Z.testbit flags 0 then OpMergen (key e) (val e) else OpSetn (key e) (val e).

Lemma firsts_snoc es e : forall pre,
  firsts_from pre (es ++ [e]) = firsts_from pre es ++ (if existsb (same_key (key e)) (pre ++ es) then [] else [e]).
Proof.
  induction es as [|x es IH]; intros pre; cbn [app firsts_from]; [by rewrite !app_nil_r|].
  by rewrite IH, <- !app_assoc.
Qed.

Lemma firsts_sub es : forall pre x, x ∈ firsts_from pre es -> x ∈ es.
Proof.
  induction es as [|e es IH]; intros pre x; cbn [firsts_from]; [done|]. intros [H|H]%elem_of_app; [|right; by eapply IH].
  case_match; [by apply not_elem_of_nil in H|]. apply list_elem_of_singleton in H as ->. left.
Qed.

Lemma same_key_iff k e : same_key k e = true <-> map tolower (key e) = map tolower k.
Proof. apply strcaseeq_spec. Qed.

Lemma joined_snoc sep vs v : vs <> [] -> joined sep (vs ++ [v]) = joined sep vs ++ sep ++ v.
Proof.
  induction vs as [|w [|w' vs] IH]; intros H; [done|done|]. change (joined sep ((w :: w' :: vs) ++ [v])) with (w ++ sep ++ joined sep ((w' :: vs) ++ [v])).
  rewrite IH by done. change (joined sep (w :: w' :: vs)) with (w ++ sep ++ joined sep (w' :: vs)). by rewrite <- !app_assoc.
Qed.

(** With distinct keys, set and merge change the one entry of the key. *)
Lemma others_distinct k es : ~ map tolower k ∈ folded_keys es -> others k es = es.
Proof.
  induction es as [|e es IH]; intros H; [done|]. cbn in *. rewrite not_elem_of_cons in H. destruct H as [Hne H].
  destruct (same_key k e) eqn:E; [apply same_key_iff in E; congruence|]. cbn. fold (others k es). by rewrite IH.
Qed.

Lemma same_key_absent k es x : ~ map tolower k ∈ folded_keys es -> In x es -> same_key k x = false.
Proof.
  intros H Hx. destruct (same_key k x) eqn:E; [|done]. apply same_key_iff in E. exfalso. apply H. rewrite <- E.
  apply list_elem_of_fmap_2' with x; [by apply list_elem_of_In|done].
Qed.

Definition update (k : list Z) (f : list Z -> list Z) (e : entry) : entry :=
  if same_key k e then set_val e (f (val e)) else e.

Lemma update_absent k f es : ~ map tolower k ∈ folded_keys es -> map (update k f) es = es.
Proof.
  intros H. rewrite <- (List.map_id es) at 2. apply List.map_ext_in. intros x Hx. unfold update. by rewrite (same_key_absent k es).
Qed.

Lemma set_merge_distinct k v es : NoDup (folded_keys es) -> existsb (same_key k) es = true ->
  spec_set k v es = map (update k (fun _ => v)) es /\ spec_merge k v es = map (update k (fun w => w ++ str ", " ++ v)) es.
Proof.
  unfold spec_set, spec_merge. induction es as [|e es IH]; intros Hn Hex; [done|]. cbn [folded_keys map existsb find_first] in *.
  apply NoDup_cons in Hn as [He Hn]. unfold update at 1 3. destruct (same_key k e) eqn:E; cbn [orb] in Hex.
  - apply same_key_iff in E. rewrite E in He. cbn -[others]. rewrite drop_0, others_distinct, !update_absent by done. done.
  - specialize (IH Hn Hex). destruct (find_first (same_key k) es) as [i|] eqn:Ef; cbn [fmap option_fmap option_map].
    + destruct (find_first_Some _ _ _ Ef) as (x & Hx & _). rewrite Hx in IH. destruct IH as [I1 I2]. change ((e :: es) !! S i) with (es !! i). rewrite Hx.
      split; [exact (f_equal (cons e) I1)|exact (f_equal (cons e) I2)].
    + exfalso. apply existsb_exists in Hex as (x & Hin & Hsx). apply list_elem_of_In, list_elem_of_lookup in Hin as [i Hi].
      by rewrite (proj1 (find_first_None _ _) Ef i x Hi) in Hsx.
Qed.

Lemma existsb_firsts k es : forall pre, existsb (same_key k) pre = false -> existsb (same_key k) (firsts_from pre es) = existsb (same_key k) es.
Proof.
  induction es as [|e es IH]; intros pre Hp; [done|]. cbn [firsts_from existsb]. rewrite existsb_app. destruct (same_key k e) eqn:E.
  - rewrite (existsb_same k e pre E), Hp. cbn. by rewrite E.
  - rewrite IH by (rewrite existsb_app, Hp; cbn; by rewrite E). destruct (existsb (same_key (key e)) pre); cbn; by rewrite ?E.
Qed.

Lemma existsb_compress k flags es : existsb (same_key k) (spec_compress flags es) = existsb (same_key k) es.
Proof.
  rewrite <- (existsb_firsts k es []) by done. unfold spec_compress. induction (firsts_from [] es) as [|x l IH]; [done|]. cbn [map existsb]. by rewrite IH.
Qed.

Lemma new_entry_id e : checksum_ok e -> new_entry (key e) (val e) = e.
Proof. destruct e. unfold checksum_ok, new_entry. cbn. by intros ->. Qed.

(** The table so far, and one more entry. *)
Lemma compress_snoc flags es e : flags = 0 \/ flags = 1 -> checksum_ok e ->
  spec_compress flags (es ++ [e]) = spec_op (spec_compress flags es) (documented flags e).
Proof.
  intros Hfl Hc. unfold spec_compress at 1. rewrite firsts_snoc. cbn [app].
  destruct (existsb (same_key (key e)) es) eqn:Ex.
  - rewrite app_nil_r. pose proof (compress_distinct flags es) as Hd.
    pose proof Ex as Ex'. rewrite <- (existsb_compress _ flags) in Ex'.
    destruct (set_merge_distinct (key e) (val e) _ Hd Ex') as [Hs Hm].
    assert (Hop : spec_op (spec_compress flags es) (documented flags e) =
      map (update (key e) (fun w => combine flags [w; val e])) (spec_compress flags es)).
    { unfold documented. destruct Hfl as [->| ->]; [change (Z.testbit 0 0) with false|change (Z.testbit 1 0) with true]; cbn [spec_op]; [rewrite Hs|rewrite Hm]; apply List.map_ext; intros x; unfold update, combine; by case_match. }
    rewrite Hop. unfold spec_compress. rewrite List.map_map. apply List.map_ext_in. intros x Hx%list_elem_of_In.
    rewrite List.filter_app, List.map_app. cbn [List.filter]. unfold update. unfold same_key at 3. cbn [set_val key].
    fold (same_key (key e) x). rewrite (strcaseeq_sym (key x) (key e) : same_key (key e) x = same_key (key x) e).
    destruct (same_key (key x) e) eqn:E; [|cbn; by rewrite app_nil_r]. cbn [map val].
    assert (Hne : map val (List.filter (same_key (key x)) es) <> []).
    { intros Hz. apply map_eq_nil in Hz. apply firsts_sub in Hx. assert (In x (List.filter (same_key (key x)) es)) as Hin
        by (apply List.filter_In; split; [by apply list_elem_of_In|by apply same_key_iff]). by rewrite Hz in Hin. }
    unfold set_val. cbn. f_equal. unfold combine. destruct (flags =? _); [by rewrite joined_snoc|by rewrite List.last_last].
  - rewrite List.map_app. cbn [map]. rewrite List.filter_app, (proj1 (existsb_filter _ _) Ex). cbn [app List.filter].
    rewrite (proj2 (same_key_iff _ _) eq_refl). cbn [map]. rewrite combine_single, set_val_id.
    assert (Hnone : find_first (same_key (key e)) (spec_compress flags es) = None).
    { apply find_first_None. intros i x Hi. destruct (same_key (key e) x) eqn:E; [|done]. rewrite <- (existsb_compress _ flags) in Ex.
      assert (existsb (same_key (key e)) (spec_compress flags es) = true); [|congruence]. apply existsb_exists. exists x. split; [|done].
      apply list_elem_of_In. by eapply list_elem_of_lookup_2. }
    assert (Hop : spec_op (spec_compress flags es) (documented flags e) = spec_compress flags es ++ [e]).
    { unfold documented. destruct (Z.testbit flags 0); cbn [spec_op]; unfold spec_set, spec_merge; rewrite Hnone; unfold spec_add; by rewrite new_entry_id. }
    rewrite Hop. f_equal. apply List.map_ext_in. intros x Hx%list_elem_of_In%firsts_sub%list_elem_of_In. rewrite List.filter_app. cbn [List.filter].
    destruct (same_key (key x) e) eqn:E; [|by rewrite app_nil_r]. exfalso. apply same_key_iff in E.
    assert (existsb (same_key (key e)) es = true); [|congruence]. apply existsb_exists. exists x. split; [done|]. by apply same_key_iff.
Qed.

Lemma compress_nodup flags es : flags = 0 \/ flags = 1 -> Forall checksum_ok es -> NoDup (folded_keys es) -> spec_compress flags es = es.
Proof.
  intros Hfl. induction es as [|e es IH] using rev_ind; intros Hc Hd; [done|]. apply Forall_app in Hc as [Hc He]. inversion_clear He as [|? ? He' _].
  unfold folded_keys in Hd. rewrite List.map_app in Hd. apply NoDup_app in Hd as (Hd & Hdis & _).
  rewrite compress_snoc, IH by done.
  assert (Hnone : find_first (same_key (key e)) es = None).
  { apply find_first_None. intros i x Hi. destruct (same_key (key e) x) eqn:E; [|done]. apply same_key_iff in E. exfalso.
    apply (Hdis (map tolower (key x))); [apply list_elem_of_fmap_2' with x; [by eapply list_elem_of_lookup_2|done]|]. rewrite E. left. }
  unfold documented. destruct (Z.testbit flags 0); cbn [spec_op]; unfold spec_set, spec_merge; rewrite Hnone; unfold spec_add; by rewrite new_entry_id.
Qed.

Lemma compress_documented flags a b : flags = 0 \/ flags = 1 -> Forall checksum_ok a -> Forall checksum_ok b -> NoDup (folded_keys a) ->
  foldl spec_op a (map (documented flags) b) = spec_compress flags (a ++ b).
Proof.
  intros Hfl Ha Hb Hd. induction b as [|e b IH] using rev_ind; [by rewrite app_nil_r, compress_nodup|].
  apply Forall_app in Hb as [Hb He]. inversion_clear He as [|? ? He' _].
  rewrite List.map_app, foldl_app, app_assoc. cbn [map foldl]. rewrite IH by done. by rewrite compress_snoc.
Qed.

(** C20: overlapping tables. [apr_table_overlap], that is appending the second
    table and [apr_table_compress] with its merge sort, leaves one entry per
    key up to case, the first one in table order, whose value is all the values
    of the key in order joined with a comma and a space (merge), or the last
    one of them (set); the index is right, and a lookup gives that value. The
    loops end, and the merged strings fit their allocations. When the first
    table has no key twice, the entries are those the loop of [apr_tables.h]
    gives, which adds the second table's entries to it with [apr_table_setn] or
    [apr_table_mergen]; keys the first table has twice are folded too, which
    that loop does not do (see [overlap_folds_duplicates]). *)
Theorem table_overlap junk a b flags :
  wf a -> wf b ->
  exists t, apr_table_overlap junk a b flags = Ok t /\ wf t /\
    abs t = spec_compress flags (abs a ++ abs b) /\ NoDup (folded_keys (abs t)) /\
    (forall k, apr_table_get t k =
      Ok (match map val (List.filter (same_key k) (abs a ++ abs b)) with [] => None | vs => Some (combine flags vs) end)) /\
    (NoDup (folded_keys (abs a)) -> flags = APR_OVERLAP_TABLES_SET \/ flags = APR_OVERLAP_TABLES_MERGE ->
     exists t', exec_ops (map (documented flags) (abs b)) a = Ok t' /\ abs t = abs t').
Proof.
  intros Ha Hb. destruct (overlap_refines junk a b flags Ha Hb) as (t & Ht & Hw & He). exists t.
  split; [done|]. split; [done|]. split; [done|]. rewrite He. split; [apply compress_distinct|]. split.
  - intros k. rewrite get_first, He by done. f_equal. apply lookup_compress.
  - intros Hd Hfl. destruct (exec_ops_refines (map (documented flags) (abs b)) a Ha) as (t' & H1 & _ & H2).
    exists t'. split; [done|]. rewrite H2. symmetry. apply compress_documented; [done|apply Ha|apply Hb|done].
Qed.

Definition table_of (kvs : list (list Z * list Z)) : table :=
  foldl (fun t kv => apr_table_add t (fst kv) (snd kv)) (apr_table_make (replicate 32 0%nat) (replicate 32 0%nat)) kvs.

Lemma table_of_wf kvs : wf (table_of kvs).
Proof.
  unfold table_of. assert (H : wf (apr_table_make (replicate 32 0%nat) (replicate 32 0%nat))) by (by apply make_wf).
  revert H. generalize (apr_table_make (replicate 32 0%nat) (replicate 32 0%nat)).
  induction kvs as [|[k v] kvs IH]; intros t Ht; [done|]. cbn. by apply IH, add_wf.
Qed.

Definition headers_a : table := table_of [(str "Vary", str "a"); (str "Host", str "h"); (str "VARY", str "b")].
Definition headers_b : table := table_of [(str "Age", str "1"); (str "vary", str "c")].

Lemma table_overlap_witness :
  (  exists t, apr_table_overlap 7 headers_a headers_b APR_OVERLAP_TABLES_MERGE = Ok t /\ wf t /\
    abs t = spec_compress APR_OVERLAP_TABLES_MERGE (abs headers_a ++ abs headers_b) /\ NoDup (folded_keys (abs t)) /\
    (forall k, apr_table_get t k =
      Ok (match map val (List.filter (same_key k) (abs headers_a ++ abs headers_b)) with
          | [] => None | vs => Some (combine APR_OVERLAP_TABLES_MERGE vs) end)) /\
    (NoDup (folded_keys (abs headers_a)) -> APR_OVERLAP_TABLES_MERGE = 0 \/ APR_OVERLAP_TABLES_MERGE = 1 ->
     exists t', exec_ops (map (documented APR_OVERLAP_TABLES_MERGE) (abs headers_b)) headers_a = Ok t' /\ abs t = abs t')) /\
  exists t t', apr_table_overlap 7 headers_b headers_a APR_OVERLAP_TABLES_SET = Ok t /\
    exec_ops (map (documented APR_OVERLAP_TABLES_SET) (abs headers_a)) headers_b = Ok t' /\ abs t = abs t'.
Proof.
  split; [apply (table_overlap 7 headers_a headers_b APR_OVERLAP_TABLES_MERGE); apply table_of_wf|].
  destruct (table_overlap 7 headers_b headers_a APR_OVERLAP_TABLES_SET) as (t & Ht & _ & _ & _ & _ & Hdoc); [apply table_of_wf|apply table_of_wf|].
  destruct Hdoc as (t' & Ht' & He); [apply (bool_decide_unpack _); vm_compute; exact I|by left|]. exists t, t'. exact (conj Ht (conj Ht' He)).
Defined.

(** a key that the first table has twice: [apr_table_overlap] folds its entries into
    one, the loop of the header file leaves the second one alone. *)
Theorem overlap_folds_duplicates :
  (do t <- apr_table_overlap 7 headers_a headers_b APR_OVERLAP_TABLES_MERGE; Ok (map val (abs t))) = Ok [str "a, b, c"; str "h"; str "1"] /\
  (do t <- exec_ops (map (documented APR_OVERLAP_TABLES_MERGE) (abs headers_b)) headers_a; Ok (map val (abs t))) = Ok [str "a, c"; str "h"; str "b"; str "1"].
Proof. split; vm_compute; reflexivity. Qed.

(** The run itself. *)
Example overlap_run :
  (do t <- apr_table_overlap 7 headers_a headers_b APR_OVERLAP_TABLES_MERGE; Ok (map (fun e => (key e, val e)) (abs t))) =
    Ok [(str "Vary", str "a, b, c"); (str "Host", str "h"); (str "Age", str "1")] /\
  (do t <- apr_table_overlap 7 headers_a headers_b APR_OVERLAP_TABLES_SET; apr_table_get t (str "vARY")) = Ok (Some (str "c")).
Proof. split; vm_compute; reflexivity. Qed.
