(* ===== verification/AprHash.v ===== *)
(** * Hash tables of the portable runtime (src/apr/tables/apr_hash.c)

    A table is an array of [max + 1] buckets, each a linked list of entries;
    [max] is one less than a power of two and the bucket of an entry is its hash
    masked with it. The table doubles when it has more entries than buckets.
    Linked lists are lists here; keys are the [klen] bytes (or the characters of
    a NUL-terminated key). The operations are shown to implement a finite map. *)

From S2P Require Import Prelude.

Section HashTables.

Context {V : Type}.

(** [struct apr_hash_entry_t], without the link. *)
Record hentry := mkHEntry { e_hash : Z; e_key : list Z; e_val : V }.

(** [struct apr_hash_t]; [free] is the number of recycled entries. *)
Record hash_t := mkHash {
  array : list (list hentry); count : Z; max : Z; seed : Z;
  hash_func : option (list Z -> Z); free : nat
}.

Definition INITIAL_MAX : Z := 15.

(** [max + 1] is computed as an [unsigned int]. *)
Definition alloc_array (m : Z) : list (list hentry) := replicate (Z.to_nat (u32 (m + 1))) [].

(** The seed is computed from the time and addresses. *)
Definition apr_hash_make (seed : Z) : hash_t :=
  mkHash (alloc_array INITIAL_MAX) 0 INITIAL_MAX seed None 0.

Definition apr_hash_make_custom (seed : Z) (f : list Z -> Z) : hash_t :=
  mkHash (alloc_array INITIAL_MAX) 0 INITIAL_MAX seed (Some f) 0.

(** [hashfunc_default(key, klen, hash)]: times 33. *)
Definition hashfunc_default (key : list Z) (hash : Z) : Z :=
  foldl (fun h c => u32 (h * 33 + c)) hash key.

Definition apr_hashfunc_default (key : list Z) : Z := hashfunc_default key 0.

Definition key_hash (ht : hash_t) (key : list Z) : Z :=
  match hash_func ht with
  | Some f => u32 (f key)
  | None => hashfunc_default key (seed ht)
  end.

(** ** Iteration *)

(** [apr_hash_index_t]: the entries from [this] on in its bucket, and [index]. *)
Record hash_index := mkIndex { hi_rest : list hentry; hi_index : Z }.

(** The loop of [apr_hash_next] that looks for a non-empty bucket. *)
Fixpoint next_bucket (ht : hash_t) (fuel : nat) (index : Z) : res (option hash_index) :=
  if max ht <? index then Ok None
  else match fuel with
       | O => Err OutOfFuel
       | S fuel' =>
           do b <- of_option OutOfBounds (array ht !! Z.to_nat index);
           match b with
           | [] => next_bucket ht fuel' (u32 (index + 1))
           | _ => Ok (Some (mkIndex b (u32 (index + 1))))
           end
       end.

(** [apr_hash_next(hi)]: [next] is the rest after [this]. *)
Definition apr_hash_next (ht : hash_t) (hi : hash_index) : res (option hash_index) :=
  match tail (hi_rest hi) with
  | [] => next_bucket ht (Z.to_nat (max ht + 1 - hi_index hi)) (hi_index hi)
  | rest => Ok (Some (mkIndex rest (hi_index hi)))
  end.

Definition apr_hash_first (ht : hash_t) : res (option hash_index) :=
  apr_hash_next ht (mkIndex [] 0).

Definition apr_hash_this (hi : hash_index) : res (list Z * V) :=
  match hi_rest hi with
  | e :: _ => Ok (e_key e, e_val e)
  | [] => Err OutOfBounds
  end.

(** [for (hi = apr_hash_first(ht); hi; hi = apr_hash_next(hi))]: the entries. *)
Fixpoint iterate (ht : hash_t) (fuel : nat) (hi : option hash_index) : res (list hentry) :=
  match hi with
  | None => Ok []
  | Some hi =>
      match fuel, hi_rest hi with
      | S fuel', e :: _ =>
          do hi' <- apr_hash_next ht hi;
          do es <- iterate ht fuel' hi';
          Ok (e :: es)
      | _, _ => Err OutOfFuel
      end
  end.

Definition entries (ht : hash_t) : res (list hentry) :=
  do hi <- apr_hash_first ht;
  iterate ht (length (concat (array ht))) hi.

(** ** Growing *)

(** One turn of [expand_array]: the entry goes to the front of its bucket. *)
Definition place (m : Z) (a : list (list hentry)) (e : hentry) : list (list hentry) :=
  let i := Z.to_nat (Z.land (e_hash e) m) in
  <[i := e :: default [] (a !! i)]> a.

Definition expand_array (ht : hash_t) : res hash_t :=
  let new_max := u32 (max ht * 2 + 1) in
  do es <- entries ht;
  Ok (mkHash (foldl (place new_max) (alloc_array new_max) es) (count ht) new_max (seed ht) (hash_func ht) (free ht)).

(** ** Lookup and update *)

(** The scan of a bucket in [find_entry]: the position of the entry. *)
Fixpoint find_pos (h : Z) (key : list Z) (b : list hentry) : option nat :=
  match b with
  | [] => None
  | e :: b' =>
      if (e_hash e =? h) && bool_decide (e_key e = key) then Some O else S <$> find_pos h key b'
  end.

(** The bucket of a key. *)
Definition slot (ht : hash_t) (key : list Z) : nat := Z.to_nat (Z.land (key_hash ht key) (max ht)).
Definition bucket (ht : hash_t) (key : list Z) : list hentry := default [] (array ht !! slot ht key).

Definition apr_hash_get (ht : hash_t) (key : list Z) : option V :=
  match find_pos (key_hash ht key) key (bucket ht key) with
  | Some p => e_val <$> bucket ht key !! p
  | None => None
  end.

Definition with_bucket (ht : hash_t) (key : list Z) (b : list hentry) (c : Z) (f : nat) : hash_t :=
  mkHash (<[slot ht key := b]> (array ht)) c (max ht) (seed ht) (hash_func ht) f.

(** [apr_hash_set(ht, key, klen, val)]; a NULL value deletes. [find_entry]
    appends a new entry to its bucket, from the free list if it can. *)
Definition apr_hash_set (ht : hash_t) (key : list Z) (val : option V) : res hash_t :=
  let h := key_hash ht key in
  let b := bucket ht key in
  match find_pos h key b, val with
  | Some p, None =>
      Ok (with_bucket ht key (delete p b) (u32 (count ht - 1)) (S (free ht)))
  | Some p, Some v =>
      let ht := with_bucket ht key (<[p := mkHEntry h key v]> b) (count ht) (free ht) in
      if max ht <? count ht then expand_array ht else Ok ht
  | None, Some v =>
      let ht := with_bucket ht key (b ++ [mkHEntry h key v]) (u32 (count ht + 1)) (pred (free ht)) in
      if max ht <? count ht then expand_array ht else Ok ht
  | None, None => Ok ht
  end.

Definition apr_hash_count (ht : hash_t) : Z := count ht.

(** ** Copying *)

(** The [while (orig_entry)] of [apr_hash_copy] over one bucket: each entry is copied
    into the next of the [new_vals], of which there are as many as the table counts;
    the new bucket links their indices. *)
Fixpoint copy_chain (new_vals : list (option hentry)) (j : Z) (orig_entry : list hentry) : res (list (option hentry) * Z * list Z) :=
  match orig_entry with
  | [] => Ok (new_vals, j, [])
  | e :: next =>
      if zlen new_vals <=? j then Err OutOfBounds else
      let new_vals := <[Z.to_nat j := Some (mkHEntry (e_hash e) (e_key e) (e_val e))]> new_vals in
      do (new_vals, j', links) <- copy_chain new_vals (u32 (j + 1)) next;
      Ok (new_vals, j', j :: links)
  end.

(** [for (i = 0; i <= ht->max; i++)]: [n] buckets from [i] on. *)
Fixpoint copy_buckets (orig : hash_t) (n i : nat) (new_vals : list (option hentry)) (j : Z) : res (list (option hentry) * Z * list (list Z)) :=
  match n with
  | O => Ok (new_vals, j, [])
  | S n' =>
      do b <- of_option OutOfBounds (array orig !! i);
      do (new_vals, j, links) <- copy_chain new_vals j b;
      do (new_vals, j, more) <- copy_buckets orig n' (S i) new_vals j;
      Ok (new_vals, j, links :: more)
  end.

(** The entry a link points to, which has been written. *)
Definition linked (new_vals : list (option hentry)) (j : Z) : option hentry := mjoin (new_vals !! Z.to_nat j).

Definition apr_hash_copy (orig : hash_t) : res hash_t :=
  do (new_vals, _, array) <- copy_buckets orig (Z.to_nat (u32 (max orig + 1))) 0 (replicate (Z.to_nat (count orig)) None) 0;
  do array <- of_option OutOfBounds (mapM (mapM (linked new_vals)) array);
  Ok (mkHash array (count orig) (max orig) (seed orig) (hash_func orig) 0).

(** The loop of [apr_hash_clear]: the iterator has read the link of [this]
    before the entry is deleted. *)
Fixpoint clear_loop (fuel : nat) (ht : hash_t) (hi : option hash_index) : res hash_t :=
  match hi with
  | None => Ok ht
  | Some hi =>
      match fuel, hi_rest hi with
      | S fuel', e :: _ =>
          do ht <- apr_hash_set ht (e_key e) None;
          do hi' <- apr_hash_next ht hi;
          clear_loop fuel' ht hi'
      | _, _ => Err OutOfFuel
      end
  end.

Definition apr_hash_clear (ht : hash_t) : res hash_t :=
  do hi <- apr_hash_first ht;
  clear_loop (length (concat (array ht))) ht hi.

(** ** Merging *)

(** [for (k = 0; k <= max; k++) for (iter = array[k]; iter; iter = iter->next)]:
    the entries of [n] buckets from [k] on. *)
Fixpoint bucket_entries_from (ht : hash_t) (n k : nat) : res (list hentry) :=
  match n with
  | O => Ok []
  | S n' =>
      do b <- of_option OutOfBounds (array ht !! k);
      do es <- bucket_entries_from ht n' (S k);
      Ok (b ++ es)
  end.

Definition all_entries (ht : hash_t) : res (list hentry) := bucket_entries_from ht (Z.to_nat (max ht + 1)) 0.

Definition merge_max (overlay base : hash_t) : Z :=
  let m := if max base <? max overlay then max overlay else max base in
  if m <? u32 (count base + count overlay) then u32 (m * 2 + 1) else m.

(** The scan of a bucket in [apr_hash_merge], which compares keys only. *)
Fixpoint find_key (key : list Z) (b : list hentry) : option nat :=
  match b with
  | [] => None
  | e :: b' => if bool_decide (e_key e = key) then Some O else S <$> find_key key b'
  end.

(** One entry of the overlay. *)
Definition merge_entry (merger : option (list Z -> V -> V -> V)) (r : hash_t) (iter : hentry) : hash_t :=
  let hash := key_hash r (e_key iter) in
  let b := bucket r (e_key iter) in
  match find_key (e_key iter) b with
  | Some p =>
      let ent := default iter (b !! p) in
      let v := match merger with Some f => f (e_key iter) (e_val iter) (e_val ent) | None => e_val iter end in
      with_bucket r (e_key iter) (<[p := mkHEntry (e_hash ent) (e_key ent) v]> b) (count r) (free r)
  | None =>
      with_bucket r (e_key iter) (mkHEntry hash (e_key iter) (e_val iter) :: b) (u32 (count r + 1)) (free r)
  end.

Definition apr_hash_merge (overlay base : hash_t) (merger : option (list Z -> V -> V -> V)) : res hash_t :=
  let m := merge_max overlay base in
  do bs <- all_entries base;
  do os <- all_entries overlay;
  Ok (foldl (merge_entry merger)
        (mkHash (foldl (place m) (alloc_array m) bs) (count base) m (seed base) (hash_func base) 0) os).

Definition apr_hash_overlay (overlay base : hash_t) : res hash_t := apr_hash_merge overlay base None.

(** [apr_hash_do(comp, rec, ht)]. *)
Fixpoint do_entries {S} (comp : S -> list Z -> V -> S * bool) (es : list hentry) (r : S) : S * bool :=
  match es with
  | [] => (r, true)
  | e :: es' =>
      let (r, rv) := comp r (e_key e) (e_val e) in
      if rv then do_entries comp es' r else (r, false)
  end.

Definition apr_hash_do {S} (comp : S -> list Z -> V -> S * bool) (ht : hash_t) (r : S) : res (S * bool) :=
  do es <- entries ht;
  Ok (do_entries comp es r).

(** ** Refinement of finite maps *)

Definition pairs (es : list hentry) : list (list Z * V) := map (fun e => (e_key e, e_val e)) es.

(** The map a table stands for. *)
Definition to_map (ht : hash_t) : gmap (list Z) V := list_to_map (pairs (concat (array ht))).

Record wf (ht : hash_t) : Prop := {
  wf_max : exists k, 0 <= k <= 31 /\ max ht = Z.ones k;
  wf_length : length (array ht) = Z.to_nat (max ht + 1);
  wf_place : forall i b e, array ht !! i = Some b -> e ∈ b ->
    e_hash e = key_hash ht (e_key e) /\ i = Z.to_nat (Z.land (e_hash e) (max ht));
  wf_nodup : NoDup (map e_key (concat (array ht)));
  wf_count : count ht = u32 (zlen (concat (array ht)))
}.

Lemma ones_bound k : 0 <= k -> 0 <= Z.ones k.
Proof. intros Hk. rewrite Z.ones_equiv. pose proof (Z.pow_pos_nonneg 2 k). lia. Qed.

Lemma ones_31 k : 0 <= k <= 31 -> 0 <= Z.ones k < 2 ^ 31.
Proof.
  intros Hk. pose proof (ones_bound k ltac:(lia)). rewrite Z.ones_equiv in *.
  pose proof (Z.pow_le_mono_r 2 k 31). lia.
Qed.

Lemma max_bound ht : wf ht -> 0 <= max ht < 2 ^ 31.
Proof. intros [(k & Hk & ->) _ _ _ _]. by apply ones_31. Qed.

Lemma length_alloc_array m : 0 <= m < 2 ^ 32 - 1 -> length (alloc_array m) = Z.to_nat (m + 1).
Proof. intros Hm. unfold alloc_array. rewrite length_replicate. unfold u32. rewrite Z.mod_small; lia. Qed.

(** A masked hash is a bucket. *)
Lemma masked_lt h k : 0 <= k -> (Z.to_nat (Z.land h (Z.ones k)) < Z.to_nat (Z.ones k + 1))%nat.
Proof.
  intros Hk. rewrite Z.land_ones by done. rewrite Z.ones_equiv.
  pose proof (Z.mod_pos_bound h (2 ^ k) (Z.pow_pos_nonneg 2 k ltac:(lia) Hk)). lia.
Qed.

Lemma slot_lt ht key : wf ht -> (slot ht key < length (array ht))%nat.
Proof.
  intros [(k & Hk & Hm) Hl _ _ _]. rewrite Hl. unfold slot. rewrite Hm. apply masked_lt. lia.
Qed.

Lemma bucket_lookup ht key : wf ht -> array ht !! slot ht key = Some (bucket ht key).
Proof.
  intros Hwf. unfold bucket. destruct (lookup_lt_is_Some_2 (array ht) (slot ht key)) as [b Hb]; [by apply slot_lt|].
  by rewrite Hb.
Qed.

(** The other buckets. *)
Definition others (ht : hash_t) (key : list Z) : list hentry :=
  concat (take (slot ht key) (array ht) ++ drop (S (slot ht key)) (array ht)).

Lemma concat_insert (a : list (list hentry)) i b :
  (i < length a)%nat -> concat (<[i := b]> a) ≡ₚ b ++ concat (take i a ++ drop (S i) a).
Proof.
  intros Hi. rewrite insert_take_drop by done. rewrite !concat_app. cbn. rewrite !app_assoc.
  apply Permutation_app_tail. apply Permutation_app_comm.
Qed.

Lemma concat_bucket ht key : wf ht -> concat (array ht) ≡ₚ bucket ht key ++ others ht key.
Proof.
  intros Hwf. rewrite <- (list_insert_id (array ht) (slot ht key) (bucket ht key)) at 1 by (by apply bucket_lookup).
  apply concat_insert. by apply slot_lt.
Qed.

Lemma find_pos_Some h key b p :
  find_pos h key b = Some p -> exists e, b !! p = Some e /\ e_hash e = h /\ e_key e = key.
Proof.
  revert p. induction b as [|e b IH]; intros p; cbn; [done|].
  destruct ((e_hash e =? h) && bool_decide (e_key e = key)) eqn:E.
  - intros [= <-]. apply andb_true_iff in E as [E1 E2]. apply Z.eqb_eq in E1. apply bool_decide_eq_true in E2. by exists e.
  - destruct (find_pos h key b); [|done]. cbn. intros [= <-]. by apply IH.
Qed.

Lemma find_pos_None h key b e : find_pos h key b = None -> e ∈ b -> e_hash e = h -> e_key e <> key.
Proof.
  induction b as [|x b IH]; cbn; [intros _ H; by apply not_elem_of_nil in H|].
  destruct ((e_hash x =? h) && bool_decide (e_key x = key)) eqn:E; [done|]. intros H.
  assert (Hn : find_pos h key b = None) by (by destruct (find_pos h key b)).
  intros [->|Hin]%elem_of_cons Hh; [|by apply IH].
  apply andb_false_iff in E as [E|E]; [apply Z.eqb_neq in E; congruence|by apply bool_decide_eq_false in E].
Qed.

(** An entry with the key is in its bucket. *)
Lemma entry_in_bucket ht e :
  wf ht -> e ∈ concat (array ht) -> e ∈ bucket ht (e_key e) /\ e_hash e = key_hash ht (e_key e).
Proof.
  intros Hwf He. apply list_elem_of_In, in_concat in He as (b & Hb & Hin).
  apply list_elem_of_In, list_elem_of_lookup in Hb as [i Hb]. apply list_elem_of_In in Hin.
  destruct (wf_place ht Hwf i b e Hb Hin) as [Hh Hi]. split; [|done].
  unfold bucket, slot. rewrite <- Hh, <- Hi, Hb. done.
Qed.

Lemma keys_pairs es : fst <$> pairs es = map e_key es.
Proof. unfold pairs. rewrite <- list_fmap_compose. done. Qed.

Lemma get_to_map ht key : wf ht -> apr_hash_get ht key = to_map ht !! key.
Proof.
  intros Hwf. unfold apr_hash_get, to_map. destruct (find_pos _ _ _) as [p|] eqn:E.
  - apply find_pos_Some in E as (e & He & Hh & Hk). rewrite He. cbn. symmetry.
    apply elem_of_list_to_map; [rewrite keys_pairs; apply Hwf|]. unfold pairs.
    apply list_elem_of_fmap. exists e. split; [by subst key|]. rewrite (concat_bucket ht key Hwf).
    apply elem_of_app. left. by apply list_elem_of_lookup_2 in He.
  - symmetry. apply not_elem_of_list_to_map. rewrite keys_pairs. intros (e & Hk & He)%list_elem_of_fmap.
    destruct (entry_in_bucket ht e Hwf He) as [Hb Hh]. rewrite <- Hk in Hb, Hh.
    by apply (find_pos_None _ _ _ e E).
Qed.

(** ** Iteration visits every entry *)

(** The entries an iterator has still to visit, [this] included. *)
Definition remaining (ht : hash_t) (hi : option hash_index) : list hentry :=
  match hi with
  | Some hi => hi_rest hi ++ concat (drop (Z.to_nat (hi_index hi)) (array ht))
  | None => []
  end.

Lemma next_bucket_ok ht fuel : forall index,
  length (array ht) = Z.to_nat (max ht + 1) -> max ht < 2 ^ 31 -> 0 <= index -> fuel = Z.to_nat (max ht + 1 - index) ->
  exists hi, next_bucket ht fuel index = Ok hi /\ remaining ht hi = concat (drop (Z.to_nat index) (array ht)) /\
    match hi with Some hi => hi_rest hi <> [] /\ 0 <= hi_index hi | None => True end.
Proof.
  induction fuel as [|fuel IH]; intros index Hl Hmax Hi Hf; cbn [next_bucket].
  - destruct (Z.ltb_spec (max ht) index); [|lia]. exists None. split; [done|]. split; [|done]. cbn.
    rewrite drop_ge by lia. done.
  - destruct (Z.ltb_spec (max ht) index); [lia|]. unfold u32. rewrite Z.mod_small by lia.
    destruct (lookup_lt_is_Some_2 (array ht) (Z.to_nat index)) as [b Hb]; [lia|]. rewrite Hb. cbn [of_option rbind].
    rewrite (drop_S _ _ _ Hb). cbn [concat]. replace (S (Z.to_nat index)) with (Z.to_nat (index + 1)) by lia. destruct b as [|e b].
    + destruct (IH (index + 1) Hl Hmax) as (hi & H1 & H2 & H3); [lia..|]. exists hi. done.
    + eexists. split; [reflexivity|]. cbn. split; [done|]. split; [done|lia].
Qed.

Lemma next_ok ht hi :
  length (array ht) = Z.to_nat (max ht + 1) -> max ht < 2 ^ 31 -> 0 <= hi_index hi ->
  exists hi', apr_hash_next ht hi = Ok hi' /\ remaining ht hi' = tail (hi_rest hi) ++ concat (drop (Z.to_nat (hi_index hi)) (array ht)) /\
    match hi' with Some hi => hi_rest hi <> [] /\ 0 <= hi_index hi | None => True end.
Proof.
  intros Hl Hmax Hi. unfold apr_hash_next. destruct (tail (hi_rest hi)) as [|e rest].
  - by apply next_bucket_ok.
  - eexists. split; [reflexivity|]. done.
Qed.

Lemma iterate_ok ht fuel : forall hi,
  length (array ht) = Z.to_nat (max ht + 1) -> max ht < 2 ^ 31 -> (length (remaining ht hi) <= fuel)%nat ->
  match hi with Some hi => hi_rest hi <> [] /\ 0 <= hi_index hi | None => True end ->
  iterate ht fuel hi = Ok (remaining ht hi).
Proof.
  induction fuel as [|fuel IH]; intros [hi|] Hl Hmax Hf Hhi; [|done| |done].
  - destruct Hhi as [Hne _]. cbn in Hf. destruct (hi_rest hi); [done|cbn in Hf; lia].
  - destruct Hhi as [Hne Hix]. destruct (next_ok ht hi Hl Hmax Hix) as (hi' & Hn & Hr & Hhi').
    cbn [iterate remaining] in *. destruct (hi_rest hi) as [|e rest]; [done|]. cbn [tail app length] in *.
    rewrite Hn. cbn [rbind]. rewrite (IH hi' Hl Hmax) by (rewrite ?Hr; done || lia). by rewrite Hr.
Qed.

Lemma entries_all ht : wf ht -> entries ht = Ok (concat (array ht)).
Proof.
  intros Hwf. pose proof (wf_length ht Hwf) as Hl. pose proof (max_bound ht Hwf) as Hm. unfold entries, apr_hash_first.
  destruct (next_ok ht (mkIndex [] 0) Hl) as (hi & -> & Hr & Hhi); [lia|done|]. cbn [rbind].
  cbn in Hr. rewrite drop_0 in Hr. rewrite iterate_ok; rewrite ?Hr; done || lia.
Qed.

(** ** Growing keeps the entries *)

Lemma place_ok m k a e :
  m = Z.ones k -> 0 <= k -> length a = Z.to_nat (m + 1) ->
  (forall i b x, a !! i = Some b -> x ∈ b -> i = Z.to_nat (Z.land (e_hash x) m)) ->
  length (place m a e) = Z.to_nat (m + 1) /\ concat (place m a e) ≡ₚ e :: concat a /\
  (forall i b x, place m a e !! i = Some b -> x ∈ b -> i = Z.to_nat (Z.land (e_hash x) m)).
Proof.
  intros -> Hk Hl Hp. pose proof (masked_lt (e_hash e) k Hk) as Hi. rewrite <- Hl in Hi. unfold place.
  set (i := Z.to_nat (Z.land (e_hash e) (Z.ones k))) in *.
  destruct (lookup_lt_is_Some_2 a i Hi) as [b Hb]. rewrite Hb. cbn [default]. unfold id.
  split; [by rewrite length_insert|]. split.
  - rewrite concat_insert by done. cbn [app]. apply perm_skip.
    rewrite <- (list_insert_id a i b Hb) at 3. symmetry. by apply concat_insert.
  - intros j b' x Hj Hx. destruct (decide (i = j)) as [<-|Hne].
    + rewrite list_lookup_insert_eq in Hj by done. injection Hj as <-. apply elem_of_cons in Hx as [->|Hx]; [done|].
      by apply (Hp i b).
    + rewrite list_lookup_insert_ne in Hj by done. by apply (Hp j b').
Qed.

Lemma place_all m k es : forall a,
  m = Z.ones k -> 0 <= k -> length a = Z.to_nat (m + 1) ->
  (forall i b x, a !! i = Some b -> x ∈ b -> i = Z.to_nat (Z.land (e_hash x) m)) ->
  length (foldl (place m) a es) = Z.to_nat (m + 1) /\ concat (foldl (place m) a es) ≡ₚ es ++ concat a /\
  (forall i b x, foldl (place m) a es !! i = Some b -> x ∈ b -> i = Z.to_nat (Z.land (e_hash x) m)).
Proof.
  induction es as [|e es IH]; intros a Hm Hk Hl Hp; [done|].
  destruct (place_ok m k a e Hm Hk Hl Hp) as (H1 & H2 & H3).
  destruct (IH (place m a e) Hm Hk H1 H3) as (H4 & H5 & H6). cbn [foldl]. split; [done|]. split; [|done].
  rewrite H5, H2. cbn. symmetry. apply Permutation_middle.
Qed.

Lemma concat_empty n : concat (replicate n (@nil hentry)) = [].
Proof. by induction n. Qed.

Lemma alloc_array_empty m i b (x : hentry) : alloc_array m !! i = Some b -> x ∈ b -> False.
Proof. unfold alloc_array. intros [-> _]%lookup_replicate_1 Hx. by apply not_elem_of_nil in Hx. Qed.

Lemma new_max_ones k : 0 <= k <= 30 -> u32 (Z.ones k * 2 + 1) = Z.ones (k + 1).
Proof.
  intros Hk. pose proof (ones_31 (k + 1)). rewrite !Z.ones_equiv, Z.pow_add_r in * by lia. unfold u32.
  rewrite Z.mod_small; lia.
Qed.

(** Tables with the same entries stand for the same map. *)
Lemma to_map_perm es es' :
  es ≡ₚ es' -> NoDup (map e_key es) -> (list_to_map (pairs es) : gmap (list Z) V) = list_to_map (pairs es').
Proof.
  intros Hp Hn. apply list_to_map_proper; [by rewrite keys_pairs|]. unfold pairs. by apply fmap_Permutation.
Qed.

(** Entries with their hashes, put into the buckets of a new array. *)
Lemma rehash_wf ht0 k es c fr :
  0 <= k <= 31 -> (forall e, e ∈ es -> e_hash e = key_hash ht0 (e_key e)) -> NoDup (map e_key es) -> c = u32 (zlen es) ->
  let ht := mkHash (foldl (place (Z.ones k)) (alloc_array (Z.ones k)) es) c (Z.ones k) (seed ht0) (hash_func ht0) fr in
  wf ht /\ to_map ht = list_to_map (pairs es).
Proof.
  intros Hk Hh Hn Hc ht. pose proof (ones_31 k Hk) as Hb.
  destruct (place_all (Z.ones k) k es (alloc_array (Z.ones k))) as (H1 & H2 & H3);
    [done|lia|apply length_alloc_array; lia|intros i b x Hi Hx; by destruct (alloc_array_empty _ _ _ _ Hi Hx)|].
  unfold alloc_array in H2 at 2. rewrite concat_empty, app_nil_r in H2.
  split; [split; cbn [array max count hash_func seed ht]|].
  - by exists k.
  - done.
  - intros i b e Hi He. split; [|by apply (H3 i b)]. apply Hh. rewrite <- H2.
    apply list_elem_of_In, in_concat. exists b. split; apply list_elem_of_In; [by apply list_elem_of_lookup_2 in Hi|done].
  - unfold map. rewrite H2. exact Hn.
  - rewrite Hc. unfold zlen. by rewrite H2.
  - unfold to_map. cbn [array ht]. symmetry. apply to_map_perm; [by symmetry|done].
Qed.

Lemma entry_hash ht e : wf ht -> e ∈ concat (array ht) -> e_hash e = key_hash ht (e_key e).
Proof. intros Hwf He. by destruct (entry_in_bucket ht e Hwf He). Qed.

Lemma expand_wf ht :
  wf ht -> max ht < zlen (concat (array ht)) < 2 ^ 31 ->
  exists ht', expand_array ht = Ok ht' /\ wf ht' /\ to_map ht' = to_map ht.
Proof.
  intros Hwf Hz. pose proof Hwf as [(k & Hk & Hm) _ _ Hn Hc]. unfold expand_array. rewrite entries_all by done. cbn [rbind].
  destruct (Z.eq_dec k 31) as [->|Hne]; [rewrite Hm in Hz; change (Z.ones 31) with (2 ^ 31 - 1) in Hz; lia|].
  rewrite Hm, new_max_ones by lia.
  destruct (rehash_wf ht (k + 1) (concat (array ht)) (count ht) (free ht)) as [H1 H2]; try done; [lia| |by eexists].
  intros e. by apply entry_hash.
Qed.

(** ** Updates *)

Lemma with_bucket_wf ht key b c f :
  wf ht ->
  (forall e, e ∈ b -> e_hash e = key_hash ht (e_key e) /\ Z.to_nat (Z.land (e_hash e) (max ht)) = slot ht key) ->
  NoDup (map e_key (b ++ others ht key)) -> c = u32 (zlen (b ++ others ht key)) ->
  wf (with_bucket ht key b c f) /\ concat (array (with_bucket ht key b c f)) ≡ₚ b ++ others ht key.
Proof.
  intros Hwf Hb Hn Hc. pose proof (slot_lt ht key Hwf) as Hs. pose proof Hwf as [Hm Hl Hp _ _].
  assert (Hperm : concat (array (with_bucket ht key b c f)) ≡ₚ b ++ others ht key) by (by apply concat_insert).
  split; [|done]. split.
  - done.
  - cbn. by rewrite length_insert.
  - cbn [array with_bucket max hash_func seed]. intros i b' e Hi He. destruct (decide (slot ht key = i)) as [<-|Hne].
    + rewrite list_lookup_insert_eq in Hi by done. injection Hi as <-. destruct (Hb e He) as [H1 H2]. by split.
    + rewrite list_lookup_insert_ne in Hi by done. by apply (Hp i b').
  - unfold map. rewrite Hperm. exact Hn.
  - unfold zlen. rewrite Hperm. exact Hc.
Qed.

Lemma bucket_entries ht key e :
  wf ht -> e ∈ bucket ht key ->
  e_hash e = key_hash ht (e_key e) /\ Z.to_nat (Z.land (e_hash e) (max ht)) = slot ht key.
Proof.
  intros Hwf He. destruct (wf_place ht Hwf (slot ht key) (bucket ht key) e (bucket_lookup ht key Hwf) He) as [H1 H2]. by split.
Qed.

Lemma insert_perm (b : list hentry) p e e' : b !! p = Some e -> <[p := e']> b ≡ₚ e' :: delete p b.
Proof.
  intros Hp. apply lookup_lt_Some in Hp as Hlt.
  rewrite (delete_Permutation (<[p := e']> b) p e') by (by apply list_lookup_insert_eq). apply perm_skip.
  rewrite !delete_take_drop. rewrite take_insert_ge, drop_insert_lt by lia. done.
Qed.

(** The key is not among the other entries once its own is taken out. *)
Lemma found_split ht key p :
  wf ht -> find_pos (key_hash ht key) key (bucket ht key) = Some p ->
  exists e, bucket ht key !! p = Some e /\ e_key e = key /\
    concat (array ht) ≡ₚ e :: delete p (bucket ht key) ++ others ht key /\
    (key ∉ map e_key (delete p (bucket ht key) ++ others ht key)) /\
    NoDup (map e_key (delete p (bucket ht key) ++ others ht key)).
Proof.
  intros Hwf Hf. apply find_pos_Some in Hf as (e & He & Hh & Hk). exists e. split; [done|]. split; [done|].
  assert (Hp : concat (array ht) ≡ₚ e :: delete p (bucket ht key) ++ others ht key).
  { rewrite (concat_bucket ht key Hwf). rewrite (delete_Permutation _ _ _ He) at 1. done. }
  split; [done|]. pose proof (wf_nodup ht Hwf) as Hn. unfold map in Hn. rewrite Hp in Hn.
  apply NoDup_cons in Hn as [Hn1 Hn2]. rewrite Hk in Hn1. done.
Qed.

Lemma new_entry_ok ht key v :
  let e := mkHEntry (key_hash ht key) key v in
  e_hash e = key_hash ht (e_key e) /\ Z.to_nat (Z.land (e_hash e) (max ht)) = slot ht key.
Proof. done. Qed.

Lemma maybe_expand ht m :
  wf ht -> zlen (concat (array ht)) < 2 ^ 31 -> to_map ht = m ->
  exists ht', (if max ht <? count ht then expand_array ht else Ok ht) = Ok ht' /\ wf ht' /\ to_map ht' = m.
Proof.
  intros Hwf Hz <-. pose proof (zlen_nonneg (concat (array ht))). rewrite (wf_count ht Hwf). unfold u32. rewrite Z.mod_small by lia.
  destruct (Z.ltb_spec (max ht) (zlen (concat (array ht)))); [by apply expand_wf|]. by exists ht.
Qed.

(** Replacing the value of an entry. *)
Lemma replace_wf ht key p v :
  wf ht -> find_pos (key_hash ht key) key (bucket ht key) = Some p ->
  let ht' := with_bucket ht key (<[p := mkHEntry (key_hash ht key) key v]> (bucket ht key)) (count ht) (free ht) in
  wf ht' /\ to_map ht' = <[key := v]> (to_map ht) /\ zlen (concat (array ht')) = zlen (concat (array ht)).
Proof.
  intros Hwf E. cbv zeta. destruct (found_split ht key p Hwf E) as (e & He & Hk & Hperm & Hni & Hnd).
  assert (Hm : to_map ht = <[key := e_val e]> (list_to_map (pairs (delete p (bucket ht key) ++ others ht key)))).
  { unfold to_map. rewrite (to_map_perm _ _ Hperm) by apply Hwf. cbn. by rewrite Hk. }
  set (b := <[p := mkHEntry (key_hash ht key) key v]> (bucket ht key)) in *.
  assert (Hb : b ++ others ht key ≡ₚ mkHEntry (key_hash ht key) key v :: delete p (bucket ht key) ++ others ht key).
  { unfold b. by rewrite (insert_perm _ _ _ _ He). }
  assert (Hlen : zlen (b ++ others ht key) = zlen (concat (array ht))).
  { unfold zlen. by rewrite Hperm, Hb. }
  destruct (with_bucket_wf ht key b (count ht) (free ht) Hwf) as [Hw Hwp].
  - intros x [i Hi]%list_elem_of_lookup. unfold b in Hi. apply list_lookup_insert_Some in Hi as [(_ & <- & _)|(_ & Hi)].
    + apply new_entry_ok.
    + apply bucket_entries; [done|]. by apply list_elem_of_lookup_2 in Hi.
  - unfold map. rewrite Hb. cbn. by apply NoDup_cons.
  - by rewrite (wf_count ht Hwf), Hlen.
  - split; [done|]. split; [|unfold zlen in *; by rewrite Hwp]. unfold to_map at 1. rewrite (to_map_perm _ _ Hwp) by apply Hw.
    rewrite (to_map_perm _ _ Hb) by (unfold map; rewrite <- Hwp; apply Hw). cbn. by rewrite Hm, insert_insert_eq.
Qed.

(** Adding an entry for a new key, anywhere in its bucket. *)
Lemma insert_wf ht key v b fr :
  wf ht -> find_pos (key_hash ht key) key (bucket ht key) = None ->
  b ≡ₚ mkHEntry (key_hash ht key) key v :: bucket ht key ->
  let ht' := with_bucket ht key b (u32 (count ht + 1)) fr in
  wf ht' /\ to_map ht' = <[key := v]> (to_map ht) /\ zlen (concat (array ht')) = 1 + zlen (concat (array ht)).
Proof.
  intros Hwf E Hb0. cbv zeta.
  assert (Hb : b ++ others ht key ≡ₚ mkHEntry (key_hash ht key) key v :: concat (array ht)).
  { by rewrite (concat_bucket ht key Hwf), Hb0. }
  assert (Hni : key ∉ map e_key (concat (array ht))).
  { rewrite <- keys_pairs. apply not_elem_of_list_to_map. fold (to_map ht). rewrite <- get_to_map by done.
    unfold apr_hash_get. by rewrite E. }
  assert (Hlen : zlen (b ++ others ht key) = 1 + zlen (concat (array ht))) by (unfold zlen; rewrite Hb; cbn; lia).
  destruct (with_bucket_wf ht key b (u32 (count ht + 1)) fr Hwf) as [Hw Hwp].
  - intros x Hx. rewrite Hb0 in Hx. apply elem_of_cons in Hx as [->|Hx]; [apply new_entry_ok|by apply bucket_entries].
  - unfold map. rewrite Hb. cbn. apply NoDup_cons. split; [done|apply Hwf].
  - rewrite (wf_count ht Hwf), Hlen. unfold u32. rewrite Zplus_mod_idemp_l. f_equal. lia.
  - split; [done|]. split; [|unfold zlen in *; by rewrite Hwp]. unfold to_map at 1. rewrite (to_map_perm _ _ Hwp) by apply Hw.
    rewrite (to_map_perm _ _ Hb) by (unfold map; rewrite <- Hwp; apply Hw). done.
Qed.

Lemma remove_wf ht key p :
  wf ht -> find_pos (key_hash ht key) key (bucket ht key) = Some p ->
  let ht' := with_bucket ht key (delete p (bucket ht key)) (u32 (count ht - 1)) (S (free ht)) in
  wf ht' /\ to_map ht' = delete key (to_map ht).
Proof.
  intros Hwf E. cbv zeta. destruct (found_split ht key p Hwf E) as (e & He & Hk & Hperm & Hni & Hnd).
  assert (Hm : to_map ht = <[key := e_val e]> (list_to_map (pairs (delete p (bucket ht key) ++ others ht key)))).
  { unfold to_map. rewrite (to_map_perm _ _ Hperm) by apply Hwf. cbn. by rewrite Hk. }
  assert (Hlen : zlen (concat (array ht)) = 1 + zlen (delete p (bucket ht key) ++ others ht key)).
  { unfold zlen. rewrite Hperm. cbn. lia. }
  destruct (with_bucket_wf ht key (delete p (bucket ht key)) (u32 (count ht - 1)) (S (free ht)) Hwf) as [Hw Hwp].
  - intros x Hx. apply bucket_entries; [done|]. apply list_elem_of_lookup in Hx as [i Hi].
    rewrite list_lookup_delete in Hi. case_match; by apply list_elem_of_lookup_2 in Hi.
  - done.
  - rewrite (wf_count ht Hwf), Hlen. unfold u32. rewrite Zminus_mod_idemp_l. f_equal. lia.
  - split; [done|]. unfold to_map at 1. rewrite (to_map_perm _ _ Hwp) by apply Hw.
    rewrite Hm, delete_insert_id; [done|]. apply not_elem_of_list_to_map. by rewrite keys_pairs.
Qed.

Lemma hash_set_refines ht key val :
  wf ht -> zlen (concat (array ht)) < 2 ^ 31 - 1 -> exists ht', apr_hash_set ht key val = Ok ht' /\ wf ht' /\
    to_map ht' = match val with Some v => <[key := v]> (to_map ht) | None => delete key (to_map ht) end.
Proof.
  intros Hwf Hz. unfold apr_hash_set. destruct (find_pos _ _ _) as [p|] eqn:E, val as [v|].
  - destruct (replace_wf ht key p v Hwf E) as (Hw & Hm & Hl). apply maybe_expand; [done|lia|done].
  - destruct (remove_wf ht key p Hwf E) as (Hw & Hm). by eexists.
  - destruct (insert_wf ht key v (bucket ht key ++ [mkHEntry (key_hash ht key) key v]) (pred (free ht)) Hwf E) as (Hw & Hm & Hl).
    { symmetry. apply Permutation_cons_append. }
    apply maybe_expand; [done|lia|done].
  - exists ht. split; [done|]. split; [done|]. rewrite delete_id; [done|].
    rewrite <- get_to_map by done. unfold apr_hash_get. by rewrite E.
Qed.

Lemma hash_make_wf s f : wf (mkHash (alloc_array INITIAL_MAX) 0 INITIAL_MAX s f 0).
Proof.
  split; cbn [array max count hash_func seed].
  - exists 4. split; [lia|reflexivity].
  - reflexivity.
  - intros i b e Hb He. by destruct (alloc_array_empty _ _ _ _ Hb He).
  - constructor.
  - reflexivity.
Qed.

(** ** Clearing *)

(** Where the iteration of [apr_hash_clear] stands: the buckets before the
    current one are empty, the current one holds the entries from [this] on. *)
Definition cleared_upto (ht : hash_t) (hi : option hash_index) : Prop :=
  match hi with
  | None => concat (array ht) = []
  | Some hi => exists j rest, array ht = replicate j [] ++ hi_rest hi :: rest /\
      hi_index hi = Z.of_nat (S j) /\ hi_rest hi <> []
  end.

Lemma lookup_replicate_app {A} j (x : A) b rest : (replicate j x ++ b :: rest) !! j = Some b.
Proof. rewrite lookup_app_r by (rewrite length_replicate; lia). by rewrite length_replicate, Nat.sub_diag. Qed.

Lemma next_bucket_cleared ht fuel : forall j rest,
  array ht = replicate j [] ++ rest -> length (array ht) = Z.to_nat (max ht + 1) -> max ht < 2 ^ 31 ->
  fuel = Z.to_nat (max ht + 1 - Z.of_nat j) ->
  exists hi, next_bucket ht fuel (Z.of_nat j) = Ok hi /\ cleared_upto ht hi.
Proof.
  induction fuel as [|fuel IH]; intros j rest Ha Hl Hm Hf; cbn [next_bucket].
  - destruct (Z.ltb_spec (max ht) (Z.of_nat j)); [|lia]. exists None. split; [done|].
    rewrite Ha, length_app, length_replicate in Hl. destruct rest; [|cbn in Hl; lia].
    cbn. by rewrite Ha, app_nil_r, concat_empty.
  - destruct (Z.ltb_spec (max ht) (Z.of_nat j)); [lia|]. rewrite Nat2Z.id. unfold u32. rewrite Z.mod_small by lia.
    destruct rest as [|b rest]; [rewrite Ha, app_nil_r, length_replicate in Hl; lia|].
    rewrite Ha, lookup_replicate_app. cbn [of_option rbind]. replace (Z.of_nat j + 1) with (Z.of_nat (S j)) by lia.
    destruct b as [|e b].
    + apply (IH (S j) rest); [|done|done|lia]. rewrite Ha, replicate_S_end, <- app_assoc. done.
    + eexists. split; [reflexivity|]. by exists j, rest.
Qed.

Lemma set_none_first ht j e b rest :
  wf ht -> array ht = replicate j [] ++ (e :: b) :: rest ->
  apr_hash_set ht (e_key e) None =
    Ok (mkHash (replicate j [] ++ b :: rest) (u32 (count ht - 1)) (max ht) (seed ht) (hash_func ht) (S (free ht))).
Proof.
  intros Hwf Ha. pose proof (lookup_replicate_app j [] (e :: b) rest) as Hj. rewrite <- Ha in Hj.
  destruct (wf_place ht Hwf j (e :: b) e Hj ltac:(set_solver)) as [Hh Hi].
  assert (Hs : slot ht (e_key e) = j) by (unfold slot; by rewrite <- Hh).
  unfold apr_hash_set, bucket, with_bucket. rewrite Hs, Hj. unfold default, from_option, id. cbn [find_pos].
  rewrite Hh, Z.eqb_refl, bool_decide_eq_true_2 by done. cbn. rewrite Ha, insert_app_r_alt by (rewrite length_replicate; lia).
  by rewrite length_replicate, Nat.sub_diag.
Qed.

Lemma to_map_empty ht : concat (array ht) = [] -> to_map ht = ∅.
Proof. intros H. unfold to_map. by rewrite H. Qed.

Lemma clear_loop_ok fuel : forall ht hi,
  wf ht -> zlen (concat (array ht)) < 2 ^ 31 - 1 -> cleared_upto ht hi -> (length (concat (array ht)) <= fuel)%nat ->
  exists ht', clear_loop fuel ht hi = Ok ht' /\ wf ht' /\ to_map ht' = ∅.
Proof.
  induction fuel as [|fuel IH]; intros ht [hi|] Hwf Hz Hc Hf.
  2, 4: exists ht; auto using to_map_empty.
  - destruct Hc as (j & rest & Ha & _ & Hne). rewrite Ha, concat_app in Hf. cbn in Hf.
    rewrite !length_app in Hf. destruct (hi_rest hi); [done|cbn in Hf; lia].
  - destruct Hc as (j & rest & Ha & Hi & Hne). cbn [clear_loop]. destruct hi as [l ix]. cbn [hi_rest hi_index] in *.
    destruct l as [|e b]; [done|]. pose proof (set_none_first ht j e b rest Hwf Ha) as Hset. rewrite Hset. cbn [rbind].
    destruct (hash_set_refines ht (e_key e) None Hwf Hz) as (h1 & H1 & Hw1 & _). rewrite Hset in H1. injection H1 as H1.
    rewrite H1. assert (Ha1 : array h1 = replicate j [] ++ b :: rest) by (by rewrite <- H1).
    assert (Hlen : length (concat (array ht)) = S (length (concat (array h1)))).
    { rewrite Ha, Ha1, !concat_app, !concat_empty. cbn. by rewrite !length_app. }
    assert (Hnext : exists hi', apr_hash_next h1 (mkIndex (e :: b) ix) = Ok hi' /\ cleared_upto h1 hi').
    { unfold apr_hash_next. cbn [hi_rest hi_index tail]. destruct b as [|e' b].
      - rewrite Hi. apply (next_bucket_cleared _ _ (S j) rest); [|by apply wf_length|by apply max_bound|done].
        by rewrite Ha1, replicate_S_end, <- app_assoc.
      - eexists. split; [reflexivity|]. by exists j, rest. }
    destruct Hnext as (hi' & -> & Hc'). cbn [rbind]. apply IH; [done|unfold zlen in *; lia|done|lia].
Qed.

Lemma hash_clear_refines ht :
  wf ht -> zlen (concat (array ht)) < 2 ^ 31 - 1 -> exists ht', apr_hash_clear ht = Ok ht' /\ wf ht' /\ to_map ht' = ∅.
Proof.
  intros Hwf Hz. unfold apr_hash_clear, apr_hash_first, apr_hash_next. cbn [hi_rest hi_index tail].
  destruct (next_bucket_cleared ht (Z.to_nat (max ht + 1 - 0)) 0 (array ht)) as (hi & Hn & Hc);
    [done|by apply wf_length|by apply max_bound|done|]. change (Z.of_nat 0) with 0 in Hn. rewrite Hn. cbn [rbind]. by apply clear_loop_ok.
Qed.

(** A bucket goes to the next free entries, and its links lead to them. *)
Lemma copy_chain_ok b : forall pre r, zlen pre + zlen b < 2 ^ 32 -> exists links,
  copy_chain (map Some pre ++ replicate (length b + r) None) (zlen pre) b = Ok (map Some (pre ++ b) ++ replicate r None, zlen pre + zlen b, links) /\
  forall post, mapM (linked (map Some (pre ++ b ++ post))) links = Some b.
Proof.
  induction b as [|e b IH]; intros pre r Hz; cbn [copy_chain length Nat.add replicate].
  - exists []. rewrite app_nil_r, zlen_nil, Z.add_0_r. done.
  - autorewrite with zlen in Hz. pose proof (zlen_nonneg pre). pose proof (zlen_nonneg b). set (vals := map Some pre ++ None :: replicate (length b + r) None).
    assert (Hl : zlen vals = zlen pre + 1 + zlen (replicate (length b + r) (@None hentry))) by (unfold vals; rewrite zlen_app, zlen_cons, zlen_map; lia).
    pose proof (zlen_nonneg (replicate (length b + r) (@None hentry))). replace (zlen vals <=? zlen pre) with false by lia.
    assert (Hput : <[Z.to_nat (zlen pre) := Some (mkHEntry (e_hash e) (e_key e) (e_val e))]> vals = map Some (pre ++ [e]) ++ replicate (length b + r) None).
    { unfold vals. replace (Z.to_nat (zlen pre)) with (length (map Some pre) + 0)%nat by (rewrite length_map; unfold zlen; lia). rewrite insert_app_r, map_app, <- app_assoc. by destruct e. }
    rewrite Hput. destruct (IH (pre ++ [e]) r) as (links & E & Hlinks); [rewrite zlen_app; change (zlen [e]) with 1; lia|].
    rewrite zlen_app in E. change (zlen [e]) with 1 in E. unfold u32. rewrite Z.mod_small by lia. rewrite E. cbn [rbind]. exists (zlen pre :: links). split; [rewrite <- app_assoc, zlen_cons, Z.add_assoc; done|].
    intros post. specialize (Hlinks post). rewrite <- app_assoc in Hlinks. cbn [app] in Hlinks. cbn [app mapM]. rewrite Hlinks.
    replace (linked _ (zlen pre)) with (Some e); [done|]. unfold linked. rewrite list_lookup_fmap, lookup_app_r by (unfold zlen; lia). by replace (Z.to_nat (zlen pre) - length pre)%nat with O by (unfold zlen; lia).
Qed.

Lemma copy_buckets_ok ht bs : forall i pre r, drop i (array ht) = bs -> zlen pre + zlen (concat bs) < 2 ^ 32 -> exists links,
  copy_buckets ht (length bs) i (map Some pre ++ replicate (length (concat bs) + r) None) (zlen pre) = Ok (map Some (pre ++ concat bs) ++ replicate r None, zlen pre + zlen (concat bs), links) /\
  forall post, mapM (mapM (linked (map Some (pre ++ concat bs ++ post)))) links = Some bs.
Proof.
  induction bs as [|b bs IH]; intros i pre r Hi Hz; cbn [copy_buckets length concat].
  - exists []. rewrite app_nil_r, zlen_nil, Z.add_0_r. done.
  - assert (Hb : array ht !! i = Some b) by (rewrite <- (Nat.add_0_r i), <- lookup_drop, Hi; done). rewrite Hb. cbn [of_option rbind concat] in *. rewrite zlen_app in Hz. pose proof (zlen_nonneg (concat bs)).
    destruct (copy_chain_ok b pre (length (concat bs) + r)) as (links & E & Hlinks); [lia|]. rewrite length_app, <- Nat.add_assoc, E. cbn [rbind].
    destruct (IH (S i) (pre ++ b) r) as (more & E' & Hmore); [by rewrite (drop_S _ _ _ Hb) in Hi; injection Hi|rewrite zlen_app; lia|].
    rewrite zlen_app in E'. rewrite E'. cbn [rbind]. eexists. split; [rewrite <- app_assoc, zlen_app, Z.add_assoc; reflexivity|].
    intros post. specialize (Hmore post). specialize (Hlinks (concat bs ++ post)). rewrite <- !app_assoc in *. cbn [mapM]. by rewrite Hlinks, Hmore.
Qed.

(** The copy has the same buckets: the entries that are allocated are enough. *)
Lemma hash_copy_ok ht : wf ht -> zlen (concat (array ht)) < 2 ^ 31 -> apr_hash_copy ht = Ok (mkHash (array ht) (count ht) (max ht) (seed ht) (hash_func ht) 0).
Proof.
  intros Hwf Hz. pose proof (max_bound ht Hwf). pose proof (zlen_nonneg (concat (array ht))). destruct (copy_buckets_ok ht (array ht) 0 [] 0 (drop_0 _) ltac:(rewrite zlen_nil; lia)) as (links & E & Hlinks).
  unfold apr_hash_copy. rewrite (wf_count ht Hwf) at 1. unfold u32. rewrite !Z.mod_small by lia. rewrite <- (wf_length ht Hwf).
  replace (Z.to_nat (zlen (concat (array ht)))) with (length (concat (array ht)) + 0)%nat by (unfold zlen; lia). cbn [map app] in E. rewrite zlen_nil in E. rewrite E. cbn [rbind app replicate].
  specialize (Hlinks []). cbn [app] in Hlinks. rewrite app_nil_r in *. by rewrite Hlinks.
Qed.

Lemma hash_copy_refines ht : wf ht -> zlen (concat (array ht)) < 2 ^ 31 -> exists ht', apr_hash_copy ht = Ok ht' /\ wf ht' /\ to_map ht' = to_map ht.
Proof. intros Hwf Hz. rewrite hash_copy_ok by done. eexists. split; [done|]. destruct Hwf as [H1 H2 H3 H4 H5]. by split. Qed.

(** ** Sequences of operations *)

Inductive hash_op := HashSet (key : list Z) (val : option V) | HashClear | HashCopy.

Definition exec_hash_op (o : hash_op) (ht : hash_t) : res hash_t :=
  match o with
  | HashSet k v => apr_hash_set ht k v
  | HashClear => apr_hash_clear ht
  | HashCopy => apr_hash_copy ht
  end.

Definition exec_hash_ops (os : list hash_op) (ht : hash_t) : res hash_t :=
  foldl (fun r o => rbind r (exec_hash_op o)) (Ok ht) os.

Definition spec_hash_op (m : gmap (list Z) V) (o : hash_op) : gmap (list Z) V :=
  match o with
  | HashSet k (Some v) => <[k := v]> m
  | HashSet k None => delete k m
  | HashClear => ∅
  | HashCopy => m
  end.

Lemma size_entries ht : wf ht -> Z.of_nat (size (to_map ht)) = zlen (concat (array ht)).
Proof.
  intros Hwf. unfold to_map. rewrite <- (length_map_to_list (list_to_map _)).
  rewrite map_to_list_to_map by (rewrite keys_pairs; apply Hwf). unfold pairs, zlen. by rewrite length_fmap.
Qed.

Lemma size_spec_op m o : (size (spec_hash_op m o) <= S (size m))%nat.
Proof.
  destruct o as [k [v|]| |]; cbn; [..|rewrite map_size_empty; lia|lia].
  - rewrite map_size_insert. case_match; unfold id; lia.
  - rewrite map_size_delete. case_match; unfold id; lia.
Qed.

Lemma size_spec_ops os : forall m, (size (foldl spec_hash_op m os) <= size m + length os)%nat.
Proof.
  induction os as [|o os IH]; intros m; cbn; [lia|]. pose proof (IH (spec_hash_op m o)). pose proof (size_spec_op m o). lia.
Qed.

Lemma exec_hash_ops_refines os : forall ht,
  wf ht -> zlen (concat (array ht)) + zlen os < 2 ^ 31 ->
  exists ht', exec_hash_ops os ht = Ok ht' /\ wf ht' /\ to_map ht' = foldl spec_hash_op (to_map ht) os.
Proof.
  unfold exec_hash_ops. induction os as [|o os IH]; intros ht Hwf Hz; [by exists ht|].
  pose proof (zlen_nonneg os). autorewrite with zlen in Hz. cbn [foldl rbind].
  assert (Ho : exists h1, exec_hash_op o ht = Ok h1 /\ wf h1 /\ to_map h1 = spec_hash_op (to_map ht) o).
  { destruct o as [k v| |]; cbn [exec_hash_op spec_hash_op].
    - destruct (hash_set_refines ht k v Hwf) as (h1 & ? & ? & ?); [lia|]. exists h1. by destruct v.
    - apply hash_clear_refines; [done|lia].
    - apply hash_copy_refines; [done|lia]. }
  destruct Ho as (h1 & -> & Hw1 & Hm1). rewrite <- Hm1. apply IH; [done|].
  rewrite <- size_entries, Hm1 by done. pose proof (size_spec_op (to_map ht) o).
  rewrite <- size_entries in Hz by done. lia.
Qed.

(** A fresh table, with the default or a custom hash function. *)
Definition fresh (s : Z) (f : option (list Z -> Z)) : hash_t :=
  match f with Some f => apr_hash_make_custom s f | None => apr_hash_make s end.

Lemma fresh_refines os s f :
  zlen os < 2 ^ 31 ->
  exists ht, exec_hash_ops os (fresh s f) = Ok ht /\ wf ht /\ to_map ht = foldl spec_hash_op ∅ os.
Proof.
  intros Hz. assert (Hf : fresh s f = mkHash (alloc_array INITIAL_MAX) 0 INITIAL_MAX s f 0) by (by destruct f).
  rewrite Hf. apply (exec_hash_ops_refines os); [apply hash_make_wf|exact Hz].
Qed.

(** C14: hash tables refine finite maps. Any sequence of fewer than 2^31
    insertions, replacements, deletions, clearings and copies on a fresh table,
    with any seed and any hash function, and through the doublings it causes,
    runs without leaving the bucket array or the entries a copy allocates; then every lookup agrees with the
    map, the count is the number of keys, and an iteration visits every key
    with its value exactly once. *)
Theorem hash_refines os s (f : option (list Z -> Z)) :
  zlen os < 2 ^ 31 ->
  let m := foldl spec_hash_op ∅ os in
  exists ht, exec_hash_ops os (fresh s f) = Ok ht /\
    (forall k, apr_hash_get ht k = m !! k) /\ apr_hash_count ht = u32 (Z.of_nat (size m)) /\
    exists es, entries ht = Ok es /\ NoDup (map e_key es) /\
      forall k v, (k, v) ∈ pairs es <-> m !! k = Some v.
Proof.
  intros Hz m. destruct (fresh_refines os s f Hz) as (ht & He & Hwf & Hm).
  exists ht. split; [done|]. split; [intros k; rewrite get_to_map by done; by rewrite Hm|]. split.
  - unfold apr_hash_count. rewrite (wf_count ht Hwf), <- size_entries by done. by rewrite Hm.
  - exists (concat (array ht)). split; [by apply entries_all|]. split; [apply Hwf|].
    intros k v. unfold m. rewrite <- Hm. unfold to_map. apply elem_of_list_to_map. rewrite keys_pairs. apply Hwf.
Qed.

(** ** Merging *)

Lemma bucket_entries_from_ok ht n : forall k,
  (k + n <= length (array ht))%nat -> bucket_entries_from ht n k = Ok (concat (take n (drop k (array ht)))).
Proof.
  induction n as [|n IH]; intros k Hk; [done|]. cbn [bucket_entries_from].
  destruct (lookup_lt_is_Some_2 (array ht) k) as [b Hb]; [lia|]. rewrite Hb. cbn [of_option rbind].
  rewrite IH by lia. cbn [rbind]. by rewrite (drop_S _ _ _ Hb).
Qed.

Lemma all_entries_ok ht : wf ht -> all_entries ht = Ok (concat (array ht)).
Proof.
  intros Hwf. unfold all_entries. pose proof (wf_length ht Hwf). rewrite bucket_entries_from_ok by lia.
  rewrite drop_0, take_ge by lia. done.
Qed.

Lemma merge_max_ones o b :
  wf o -> wf b -> zlen (concat (array o)) + zlen (concat (array b)) < 2 ^ 31 ->
  exists k, 0 <= k <= 31 /\ merge_max o b = Z.ones k.
Proof.
  intros Ho Hb Hz. pose proof (zlen_nonneg (concat (array o))). pose proof (zlen_nonneg (concat (array b))).
  unfold merge_max. rewrite (wf_count o Ho), (wf_count b Hb).
  assert (Hc : u32 (u32 (zlen (concat (array b))) + u32 (zlen (concat (array o)))) =
    zlen (concat (array o)) + zlen (concat (array b))).
  { unfold u32. rewrite (Z.mod_small (zlen (concat (array b)))), (Z.mod_small (zlen (concat (array o)))) by lia.
    rewrite Z.mod_small; lia. }
  rewrite Hc. set (m := if max b <? max o then max o else max b).
  assert (Hm : exists k, 0 <= k <= 31 /\ m = Z.ones k) by (unfold m; case_match; [apply Ho|apply Hb]).
  destruct Hm as (k & Hk & Hm). destruct (Z.ltb_spec m (zlen (concat (array o)) + zlen (concat (array b)))); [|by exists k].
  destruct (Z.eq_dec k 31) as [->|Hne]; [change (Z.ones 31) with (2 ^ 31 - 1) in Hm; lia|].
  exists (k + 1). split; [lia|]. rewrite Hm. apply new_max_ones. lia.
Qed.

Lemma find_key_pos h key (b : list hentry) :
  (forall e, e ∈ b -> e_key e = key -> e_hash e = h) -> find_key key b = find_pos h key b.
Proof.
  induction b as [|e b IH]; intros H; [done|]. cbn. rewrite IH by (intros x Hx; apply H; set_solver).
  case_bool_decide as Hk; [|by rewrite andb_false_r]. rewrite (H e) by (done || set_solver). by rewrite Z.eqb_refl.
Qed.

(** The value an overlay entry leaves. *)
Definition merged (merger : option (list Z -> V -> V -> V)) (k : list Z) (v : V) (w : option V) : V :=
  match merger, w with Some f, Some w => f k v w | _, _ => v end.

Lemma merge_entry_wf merger r e :
  wf r -> wf (merge_entry merger r e) /\
    to_map (merge_entry merger r e) = <[e_key e := merged merger (e_key e) (e_val e) (to_map r !! e_key e)]> (to_map r).
Proof.
  intros Hwf. unfold merge_entry. rewrite <- get_to_map by done. unfold apr_hash_get.
  rewrite (find_key_pos (key_hash r (e_key e))) by (intros x Hx Hk; destruct (bucket_entries r _ x Hwf Hx); congruence).
  destruct (find_pos _ _ _) as [p|] eqn:E.
  - destruct (find_pos_Some _ _ _ _ E) as (x & Hx & Hh & Hk). rewrite Hx. unfold default, from_option, id. rewrite Hh, Hk. cbn [fmap option_fmap option_map].
    match goal with |- context [mkHEntry _ _ ?w] => destruct (replace_wf r (e_key e) p w Hwf E) as (Hw & Hm & _) end.
    split; [done|]. rewrite Hm. by destruct merger.
  - edestruct (insert_wf r (e_key e) (e_val e)) as (Hw & Hm & _); [done|done|reflexivity|]. split; [exact Hw|].
    rewrite Hm. by destruct merger.
Qed.

Lemma merge_entries_wf merger es : forall r,
  wf r -> NoDup (map e_key es) ->
  wf (foldl (merge_entry merger) r es) /\
  forall k, to_map (foldl (merge_entry merger) r es) !! k =
    match (list_to_map (pairs es) : gmap (list Z) V) !! k with
    | Some v => Some (merged merger k v (to_map r !! k))
    | None => to_map r !! k
    end.
Proof.
  induction es as [|e es IH]; intros r Hwf Hn; [split; [done|]; intros k; cbn; by rewrite lookup_empty|].
  cbn [map] in Hn. apply NoDup_cons in Hn as [Hni Hn]. destruct (merge_entry_wf merger r e Hwf) as [Hw Hm].
  destruct (IH _ Hw Hn) as [Hw' Hk]. split; [done|]. intros k. cbn [foldl pairs map list_to_map foldr]. rewrite Hk, Hm.
  cbn. destruct (decide (e_key e = k)) as [<-|Hne].
  - rewrite !lookup_insert_eq. fold (pairs es). replace (list_to_map (pairs es) !! e_key e) with (@None V); [done|].
    symmetry. apply not_elem_of_list_to_map. by rewrite keys_pairs.
  - by rewrite !lookup_insert_ne by done.
Qed.

Lemma hash_merge_refines merger o b :
  wf o -> wf b -> zlen (concat (array o)) + zlen (concat (array b)) < 2 ^ 31 ->
  exists r, apr_hash_merge o b merger = Ok r /\ wf r /\
    forall k, to_map r !! k = match to_map o !! k with
                             | Some v => Some (merged merger k v (to_map b !! k))
                             | None => to_map b !! k
                             end.
Proof.
  intros Ho Hb Hz. destruct (merge_max_ones o b Ho Hb Hz) as (k & Hk & Hm). unfold apr_hash_merge. rewrite Hm.
  rewrite !all_entries_ok by done. cbn [rbind]. eexists. split; [reflexivity|].
  destruct (rehash_wf b k (concat (array b)) (count b) 0) as [Hw Hm'];
    [done|intros e; by apply entry_hash|apply Hb|apply Hb|].
  destruct (merge_entries_wf merger (concat (array o)) _ Hw (wf_nodup o Ho)) as [Hw' Hg]. split; [done|].
  intros key. rewrite Hg, Hm'. done.
Qed.

(** merging. For two tables built by any operations, [apr_hash_merge]
    returns a table in which a key of the overlay has the value the merger
    computes from the overlay's and the base's value (the overlay's own when the
    base has none or there is no merger), and every other key its value in the
    base; the two tables may differ in seed, hash function and size. *)
Theorem hash_merge merger os1 os2 s1 s2 f1 f2 :
  zlen os1 + zlen os2 < 2 ^ 31 ->
  let m1 := foldl spec_hash_op ∅ os1 in
  let m2 := foldl spec_hash_op ∅ os2 in
  exists o b r, exec_hash_ops os1 (fresh s1 f1) = Ok o /\ exec_hash_ops os2 (fresh s2 f2) = Ok b /\
    apr_hash_merge o b merger = Ok r /\
    forall k, apr_hash_get r k = match m1 !! k with
                                | Some v => Some (merged merger k v (m2 !! k))
                                | None => m2 !! k
                                end.
Proof.
  intros Hz m1 m2. pose proof (zlen_nonneg os1). pose proof (zlen_nonneg os2).
  destruct (fresh_refines os1 s1 f1) as (o & Ho & Hwo & Hmo); [lia|].
  destruct (fresh_refines os2 s2 f2) as (b & Hb & Hwb & Hmb); [lia|].
  pose proof (size_spec_ops os1 ∅). pose proof (size_spec_ops os2 ∅). rewrite map_size_empty in *.
  destruct (hash_merge_refines merger o b Hwo Hwb) as (r & Hr & Hwr & Hg).
  { rewrite <- !size_entries, Hmo, Hmb by done. unfold zlen in *. lia. }
  exists o, b, r. split; [done|]. split; [done|]. split; [done|]. intros k. rewrite get_to_map by done. by rewrite Hg, Hmo, Hmb.
Qed.

End HashTables.

Lemma hash_refines_witness :
  let os := [HashSet (str "a") (Some 1); HashSet (str "b") (Some 2); HashSet (str "a") (Some 3); HashCopy; HashSet (str "b") None] in
  exists ht, exec_hash_ops os (fresh 5 None) = Ok ht /\
    (forall k, apr_hash_get ht k = foldl spec_hash_op ∅ os !! k) /\
    apr_hash_count ht = u32 (Z.of_nat (size (foldl spec_hash_op ∅ os))) /\
    exists es, entries ht = Ok es /\ NoDup (map e_key es) /\
      forall k v, (k, v) ∈ pairs es <-> foldl spec_hash_op ∅ os !! k = Some v.
Proof. intros os. apply (hash_refines os 5 None). reflexivity. Defined.

Lemma hash_merge_witness :
  exists o b r, exec_hash_ops [HashSet (str "a") (Some 1)] (fresh 5 None) = Ok o /\
    exec_hash_ops [HashSet (str "a") (Some 2)] (fresh 6 (Some (fun _ => 0))) = Ok b /\
    apr_hash_merge o b (Some (fun _ x y => x + y)) = Ok r /\
    forall k, apr_hash_get r k = match foldl spec_hash_op ∅ [HashSet (str "a") (Some 1)] !! k with
       | Some v => Some (merged (Some (fun _ x y => x + y)) k v (foldl spec_hash_op ∅ [HashSet (str "a") (Some 2)] !! k))
       | None => foldl spec_hash_op ∅ [HashSet (str "a") (Some 2)] !! k
       end.
Proof.
  apply (hash_merge (Some (fun _ x y => x + y)) [HashSet (str "a") (Some 1)] [HashSet (str "a") (Some 2)]
           5 6 None (Some (fun _ => 0))). reflexivity.
Defined.

(** Twenty keys, which forces a doubling, then a lookup and a clearing. *)
Example hash_run :
  let os := map (fun n => HashSet [Z.of_nat n] (Some n)) (seq 1 20) in
  (do ht <- exec_hash_ops os (fresh 0 None); Ok (max ht, apr_hash_get ht [7], apr_hash_get ht [21])) =
    Ok (31, Some 7%nat, None) /\
  (do ht <- exec_hash_ops (os ++ [HashClear]) (fresh 0 None); Ok (apr_hash_count ht)) = Ok 0.
Proof. split; vm_compute; reflexivity. Qed.
