(* ===== verification/AprEscape.v ===== *)
(** * Escaping and unescaping (src/apr/encoding/apr_escape.c)

    Every function of the file has two branches: with a destination it writes
    the result, without one it only counts, and the [apr_pescape_*] wrappers
    count first, allocate what was counted, and write. The branch is the
    argument [d] here; the result is the list of bytes put before the
    terminating NUL, the reported size, and the status. Strings are lists of
    non-zero bytes; [slen] is the signed count that stops the loops at zero,
    -1 for whole strings. The character classes are those the table generator
    (src/apr/tools/gen_test_char.c) computes for Windows. *)

From S2P Require Import Prelude.

Inductive apr_status := APR_SUCCESS | APR_NOTFOUND | APR_EINVAL | APR_BADCH.

#[global] Instance apr_status_eq_dec : EqDecision apr_status.
Proof. solve_decision. Defined.

Definition APR_ESCAPE_STRING : Z := -1.

Record outcome := mkOut { out : list Z; size : Z; status : apr_status }.

(** ** The character table *)

Definition is_digit (c : Z) : bool := (48 <=? c) && (c <=? 57).
Definition is_upper (c : Z) : bool := (65 <=? c) && (c <=? 90).
Definition is_lower (c : Z) : bool := (97 <=? c) && (c <=? 122).
Definition is_alnum (c : Z) : bool := is_digit c || is_upper c || is_lower c.
Definition is_print (c : Z) : bool := (32 <=? c) && (c <=? 126).
Definition is_xdigit (c : Z) : bool :=
  is_digit c || ((65 <=? c) && (c <=? 70)) || ((97 <=? c) && (c <=? 102)).

(** [strchr(s, c)], which also finds the terminator. *)
Definition strchr (s : list Z) (c : Z) : bool := existsb (Z.eqb c) s || (c =? 0).

Definition QUOTE : Z := 34.
Definition BACKSLASH : Z := 92.
Definition PERCENT : Z := 37.
Definition AMP : Z := 38.

Definition T_ESCAPE_SHELL_CMD (c : Z) : bool :=
  negb (c =? 0) && strchr (str "&;`'" ++ QUOTE :: str "|*?~<>^()[]{}$\" ++ [10; 13; PERCENT]) c.
Definition T_ESCAPE_PATH_SEGMENT (c : Z) : bool := negb (is_alnum c) && negb (strchr (str "$-_.+!*'(),:@&=~") c).
Definition T_OS_ESCAPE_PATH (c : Z) : bool := negb (is_alnum c) && negb (strchr (str "$-_.+!*'(),:@&=/~") c).
Definition T_ESCAPE_URLENCODED (c : Z) : bool := negb (is_alnum c) && negb (strchr (str ".-*_ ") c).
Definition T_ESCAPE_ECHO (c : Z) : bool :=
  negb (c =? 0) && (negb (is_print c) || (c =? QUOTE) || (c =? BACKSLASH)).
Definition T_ESCAPE_XML (c : Z) : bool := strchr (str "<>&" ++ [QUOTE]) c.

(** ** The shape of the escaping loops *)

(** One turn of a loop: the bytes written, the growth of [size], whether
    [found] is set. The loop runs while the character and [slen] are not zero. *)
Fixpoint escape_loop (step : Z -> list Z * Z * bool) (s : list Z) (slen : Z) : list Z * Z * bool :=
  match s with
  | [] => ([], 0, false)
  | c :: s' =>
      if slen =? 0 then ([], 0, false)
      else
        let '(bs, n, f) := step c in
        let '(bs', n', f') := escape_loop step s' (slen - 1) in
        (bs ++ bs', n + n', f || f')
  end.

Definition found_status (found : bool) : apr_status := if found then APR_SUCCESS else APR_NOTFOUND.

(** The functions whose loop starts at the string, [size] at 1. *)
Definition run_escape (step : Z -> list Z * Z * bool) (s : option (list Z)) (slen : Z) : outcome :=
  match s with
  | Some s => let '(bs, n, f) := escape_loop step s slen in mkOut bs (1 + n) (found_status f)
  | None => mkOut [] 1 APR_NOTFOUND
  end.

(** The wrappers: count, then write into an allocation of that size. [None] for
    NULL. *)
Definition pescape (f : bool -> outcome) (str : option (list Z)) : option (list Z) :=
  match status (f false) with
  | APR_SUCCESS => Some (out (f true))
  | _ => str
  end.

(** [c2x(what, prefix, where)]. *)
Definition c2x_table : list Z := str "0123456789abcdef".
Definition hex_digit (n : Z) : Z := default 0 (c2x_table !! Z.to_nat n).
Definition c2x (what prefix : Z) : list Z := [prefix; hex_digit (Z.shiftr what 4); hex_digit (Z.land what 0xf)].

(** ** Shell commands *)

Definition shell_step (d : bool) (c : Z) : list Z * Z * bool :=
  if d then
    if (c =? 13) || (c =? 10) then ([32], 0, true)
    else if T_ESCAPE_SHELL_CMD c then ([BACKSLASH; c], 2, true)
    else ([c], 1, false)
  else if T_ESCAPE_SHELL_CMD c then ([], 2, true) else ([], 1, false).

Definition apr_escape_shell (d : bool) (str : option (list Z)) (slen : Z) : outcome :=
  run_escape (shell_step d) str slen.

Definition apr_pescape_shell (str : option (list Z)) : option (list Z) :=
  pescape (fun d => apr_escape_shell d str APR_ESCAPE_STRING) str.

(** ** URLs *)

(** [x2c(what)]: the value of two hexadecimal digits, a char. *)
Definition xvalue (c : Z) : Z := if 65 <=? c then Z.land c 0xdf - 65 + 10 else c - 48.
Definition x2c (a b : Z) : Z := u8 (u8 (xvalue a) * 16 + xvalue b).

(** The loop of [apr_unescape_url]: the bytes, the growth of [size], and the
    flags badesc, badpath and found. *)
Fixpoint unescape_url_loop (d : bool) (forbid reserved : option (list Z)) (plus : bool) (s : list Z) (slen : Z)
    : list Z * Z * (bool * bool * bool) :=
  match s with
  | [] => ([], 0, (false, false, false))
  | c :: s1 =>
      if slen =? 0 then ([], 0, (false, false, false))
      else if plus && (c =? 43) then
        let '(o, n, (be, bp, fd)) := unescape_url_loop d forbid reserved plus s1 (slen - 1) in
        (32 :: o, n + 1, (be, bp, true))
      else if negb (c =? PERCENT) then
        let '(o, n, fl) := unescape_url_loop d forbid reserved plus s1 (slen - 1) in
        (c :: o, n + 1, fl)
      else
        match s1 with
        | a :: b :: s3 =>
            if negb (is_xdigit a) || negb (is_xdigit b) then
              let '(o, n, (be, bp, fd)) := unescape_url_loop d forbid reserved plus s1 (slen - 1) in
              (PERCENT :: o, n + 1, (true, bp, fd))
            else
              let decoded := x2c a b in
              if (decoded =? 0) || match forbid with Some f => strchr f decoded | None => false end then
                let '(o, n, (be, bp, fd)) := unescape_url_loop d forbid reserved plus s3 (slen - 2 - 1) in
                (decoded :: o, n + 1, (be, true, fd))
              else if match reserved with Some r => strchr r decoded | None => false end then
                (* the writing branch does not count the two characters it skips *)
                let '(o, n, fl) := unescape_url_loop d forbid reserved plus s3 (if d then slen - 1 else slen - 2 - 1) in
                (c :: a :: b :: o, n + 2 + 1, fl)
              else
                let '(o, n, (be, bp, fd)) := unescape_url_loop d forbid reserved plus s3 (slen - 2 - 1) in
                (decoded :: o, n + 1, (be, bp, true))
        | _ =>
            let '(o, n, (be, bp, fd)) := unescape_url_loop d forbid reserved plus s1 (slen - 1) in
            (PERCENT :: o, n + 1, (true, bp, fd))
        end
  end.

Definition apr_unescape_url (d : bool) (url : option (list Z)) (slen : Z) (forbid reserved : option (list Z))
    (plus : bool) : outcome :=
  match url with
  | None => mkOut [] 1 APR_NOTFOUND
  | Some s =>
      let '(o, n, (badesc, badpath, found)) := unescape_url_loop d forbid reserved plus s slen in
      mkOut o (1 + n) (if badesc then APR_EINVAL else if badpath then APR_BADCH else found_status found)
  end.

Definition apr_punescape_url (url forbid reserved : option (list Z)) (plus : bool) : option (list Z) :=
  match status (apr_unescape_url false url APR_ESCAPE_STRING forbid reserved plus) with
  | APR_SUCCESS => Some (out (apr_unescape_url true url APR_ESCAPE_STRING forbid reserved plus))
  | APR_EINVAL | APR_BADCH => None
  | APR_NOTFOUND => url
  end.

Definition path_segment_step (d : bool) (c : Z) : list Z * Z * bool :=
  if T_ESCAPE_PATH_SEGMENT c then (if d then c2x c PERCENT else [], 3, true)
  else (if d then [c] else [], 1, false).

Definition apr_escape_path_segment (d : bool) (str : option (list Z)) (slen : Z) : outcome :=
  run_escape (path_segment_step d) str slen.

Definition apr_pescape_path_segment (str : option (list Z)) : option (list Z) :=
  pescape (fun d => apr_escape_path_segment d str APR_ESCAPE_STRING) str.

(** The writing branch of [apr_escape_path] neither counts the escapes nor
    notes that it found one. *)
Definition path_step (d : bool) (c : Z) : list Z * Z * bool :=
  if d then (if T_OS_ESCAPE_PATH c then c2x c PERCENT else [c], 1, false)
  else if T_OS_ESCAPE_PATH c then ([], 3, true) else ([], 1, false).

(** The index of the first [c], the length if there is none. *)
Definition index (c : Z) (s : list Z) : Z := zlen (before c s).

Definition apr_escape_path (d : bool) (path : option (list Z)) (slen : Z) (partial : bool) : outcome :=
  match path with
  | None => mkOut [] 1 APR_NOTFOUND
  | Some s =>
      let prefix := negb partial && (occurs 58 s && (negb (occurs 47 s) || (index 58 s <? index 47 s))) in
      let '(bs, n, f) := escape_loop (path_step d) s slen in
      mkOut (if prefix && d then 46 :: 47 :: bs else bs) (1 + (if prefix then 2 else 0) + n)
            (found_status (prefix || f))
  end.

Definition apr_pescape_path (str : option (list Z)) (partial : bool) : option (list Z) :=
  pescape (fun d => apr_escape_path d str APR_ESCAPE_STRING partial) str.

Definition urlencoded_step (d : bool) (c : Z) : list Z * Z * bool :=
  if T_ESCAPE_URLENCODED c then (if d then c2x c PERCENT else [], 3, true)
  else if c =? 32 then (if d then [43] else [], 1, true)
  else (if d then [c] else [], 1, false).

Definition apr_escape_urlencoded (d : bool) (str : option (list Z)) (slen : Z) : outcome :=
  run_escape (urlencoded_step d) str slen.

Definition apr_pescape_urlencoded (str : option (list Z)) : option (list Z) :=
  pescape (fun d => apr_escape_urlencoded d str APR_ESCAPE_STRING) str.

(** ** Entities *)

(** [apr_snprintf(buf, 6, "&#%3.3d;", c)] for a byte [c]: five characters fit
    before the terminator, and their number is returned. *)
Definition numeric_entity (c : Z) : list Z :=
  take 5 (str "&#" ++ [48 + c / 100; 48 + c / 10 mod 10; 48 + c mod 10] ++ [59]).

Definition entity_step (d toasc : bool) (c : Z) : list Z * Z * bool :=
  if T_ESCAPE_XML c then
    let e := if c =? 62 then str "&gt;" else if c =? 60 then str "&lt;"
             else if c =? AMP then str "&amp;" else if c =? QUOTE then str "&quot;"
             else if c =? 39 then str "&apos;" else [] in
    (if d then e else [], zlen e, true)
  else if toasc && negb ((0 <=? c) && (c <? 128)) then
    (if d then numeric_entity c else [], zlen (numeric_entity c), true)
  else (if d then [c] else [], 1, false).

Definition apr_escape_entity (d : bool) (str : option (list Z)) (slen : Z) (toasc : bool) : outcome :=
  run_escape (entity_step d toasc) str slen.

Definition apr_pescape_entity (str : option (list Z)) (toasc : bool) : option (list Z) :=
  pescape (fun d => apr_escape_entity d str APR_ESCAPE_STRING toasc) str.

(** The table [entlist], by the length of the names. *)
Definition entlist (n : nat) : list (list Z * Z) :=
  map (fun p : string * Z => (str (fst p), snd p))
  match n with
  | 2%nat => [("lt", 60); ("gt", 62)]
  | 3%nat => [("amp", 38); ("ETH", 208); ("eth", 240)]
  | 4%nat => [("quot", 34); ("Auml", 196); ("Euml", 203); ("Iuml", 207); ("Ouml", 214); ("Uuml", 220);
          ("auml", 228); ("euml", 235); ("iuml", 239); ("ouml", 246); ("uuml", 252); ("yuml", 255)]
  | 5%nat => [("Acirc", 194); ("Aring", 197); ("AElig", 198); ("Ecirc", 202); ("Icirc", 206); ("Ocirc", 212);
          ("Ucirc", 219); ("THORN", 222); ("szlig", 223); ("acirc", 226); ("aring", 229); ("aelig", 230);
          ("ecirc", 234); ("icirc", 238); ("ocirc", 244); ("ucirc", 251); ("thorn", 254)]
  | 6%nat => [("Agrave", 192); ("Aacute", 193); ("Atilde", 195); ("Ccedil", 199); ("Egrave", 200); ("Eacute", 201);
          ("Igrave", 204); ("Iacute", 205); ("Ntilde", 209); ("Ograve", 210); ("Oacute", 211); ("Otilde", 213);
          ("Oslash", 216); ("Ugrave", 217); ("Uacute", 218); ("Yacute", 221); ("agrave", 224); ("aacute", 225);
          ("atilde", 227); ("ccedil", 231); ("egrave", 232); ("eacute", 233); ("igrave", 236); ("iacute", 237);
          ("ntilde", 241); ("ograve", 242); ("oacute", 243); ("otilde", 245); ("oslash", 248); ("ugrave", 249);
          ("uacute", 250); ("yacute", 253)]
  | _ => []
  end%string.

(** The end of an entity: from [i] on, a semicolon, the terminator, or the end
    of [slen]. [s] is the string after the ampersand, from its character [i - 1]. *)
Fixpoint entity_end (s : list Z) (slen : Z) (i : nat) : option nat :=
  match s with
  | [] => None
  | c :: s' =>
      if slen - Z.of_nat i =? 0 then None
      else if c =? 59 then Some i
      else entity_end s' slen (S i)
  end.

(** The digits of a numeric entity: their value and how many there are. *)
Fixpoint entity_digits (s : list Z) (v : Z) : Z * nat :=
  match s with
  | c :: s' => if is_digit c then let (v, n) := entity_digits s' (s32 (v * 10 + c - 48)) in (v, S n) else (v, O)
  | [] => (v, O)
  end.

(** The loop of [apr_unescape_entity]; every turn consumes a character. *)
Fixpoint unescape_entity_loop (fuel : nat) (s : list Z) (slen : Z) : res (list Z * Z * bool) :=
  match s with
  | [] => Ok ([], 0, false)
  | c :: s1 =>
      if slen =? 0 then Ok ([], 0, false)
      else
        match fuel with
        | O => Err OutOfFuel
        | S fuel' =>
            let emit b found s' slen' :=
              (do (o, n, f) <- unescape_entity_loop fuel' s' slen';
               Ok (b ++ o, zlen b + n, found || f)) in
            if negb (c =? AMP) then emit [c] false s1 (slen - 1)
            else
              match entity_end s1 slen 1 with
              | None => emit [c] false s1 (slen - 1)
              | Some i =>
                  if bool_decide (s1 !! O = Some 35) then
                    let (val, n) := entity_digits (take (i - 2) (drop 1 s1)) 0 in
                    let bad := Nat.ltb (2 + n) i || (val <=? 8) || ((11 <=? val) && (val <=? 31))
                               || ((127 <=? val) && (val <=? 160)) || (256 <=? val) in
                    (* [slen] is not reduced by the characters skipped *)
                    if bad then emit [] false (drop i s1) (slen - 1)
                    else emit [u8 val] true (drop i s1) (slen - 1)
                  else
                    match List.find (fun p => bool_decide (fst p = take (i - 1) s1)) (entlist (i - 1)) with
                    | None => emit [AMP] false s1 (slen - 1)
                    | Some (_, v) => emit [v] true (drop i s1) (slen - Z.of_nat i - 1)
                    end
              end
        end
  end.

Definition apr_unescape_entity (d : bool) (str : option (list Z)) (slen : Z) : res outcome :=
  match str with
  | None => Ok (mkOut [] 1 APR_NOTFOUND)
  | Some s =>
      do (o, n, f) <- unescape_entity_loop (length s) s slen;
      Ok (mkOut (if d then o else []) (1 + n) (found_status f))
  end.

Definition apr_punescape_entity (str : option (list Z)) : res (option (list Z)) :=
  do r <- apr_unescape_entity false str APR_ESCAPE_STRING;
  match status r with
  | APR_SUCCESS => do w <- apr_unescape_entity true str APR_ESCAPE_STRING; Ok (Some (out w))
  | _ => Ok str
  end.

(** ** Log lines *)

(** The letter of the two-character escapes. *)
Definition echo_letter (c : Z) : option Z :=
  if c =? 7 then Some 97 else if c =? 8 then Some 98 else if c =? 12 then Some 102
  else if c =? 10 then Some 110 else if c =? 13 then Some 114 else if c =? 9 then Some 116
  else if c =? 11 then Some 118 else if c =? BACKSLASH then Some BACKSLASH else None.

Definition echo_step (d quote : bool) (c : Z) : list Z * Z * bool :=
  if T_ESCAPE_ECHO c then
    match echo_letter c with
    | Some l => (if d then [BACKSLASH; l] else [], 2, true)
    | None =>
        if c =? QUOTE then
          if quote then (if d then [BACKSLASH; c] else [], 2, true)
          else (if d then [c] else [], 1, false)      (* d[-1] = c *)
        else (if d then BACKSLASH :: c2x c 120 else [], 4, true)
    end
  else (if d then [c] else [], 1, false).

Definition apr_escape_echo (d : bool) (str : option (list Z)) (slen : Z) (quote : bool) : outcome :=
  run_escape (echo_step d quote) str slen.

Definition apr_pescape_echo (str : option (list Z)) (quote : bool) : option (list Z) :=
  pescape (fun d => apr_escape_echo d str APR_ESCAPE_STRING quote) str.

(** ** Hexadecimal *)

(** The loop of [apr_escape_hex], at byte [i]. *)
Fixpoint hex_loop (colon : bool) (src : list Z) (i : nat) : list Z :=
  match src with
  | [] => []
  | b :: src' =>
      (if colon && negb (Nat.eqb i 0) then [58] else []) ++
      hex_digit (Z.shiftr b 4) :: hex_digit (Z.land b 0xf) :: hex_loop colon src' (S i)
  end.

Definition apr_escape_hex (d : bool) (src : option (list Z)) (colon : bool) : outcome :=
  match src with
  | None => mkOut [] 0 APR_NOTFOUND
  | Some src =>
      mkOut (if d then hex_loop colon src 0 else [])
            (if colon && negb (zlen src =? 0) then zlen src * 3 else zlen src * 2 + 1) APR_SUCCESS
  end.

Definition apr_pescape_hex (src : option (list Z)) (colon : bool) : option (list Z) :=
  pescape (fun d => apr_escape_hex d src colon) src.

(** The value of a digit [apr_unescape_hex] accepts. *)
Definition hex_value (c : Z) : option Z :=
  if is_digit c then Some (c - 48)
  else if is_upper c && (c <=? 70) then Some (c - 55)
  else if is_lower c && (c <=? 102) then Some (c - 87)
  else None.

(** The loop of [apr_unescape_hex]: the bytes completed, and whether it ended
    between two digits; [None] for APR_BADCH. *)
Fixpoint unhex_loop (colon : bool) (s : list Z) (slen : Z) (flip : bool) (u : Z) : option (list Z * bool) :=
  match s with
  | [] => Some ([], flip)
  | c :: s' =>
      if slen =? 0 then Some ([], flip)
      else
        let u := if flip then u else 0 in
        if colon && (c =? 58) && negb flip then unhex_loop colon s' (slen - 1) flip u
        else match hex_value c with
             | None => None
             | Some v =>
                 let u := u8 (Z.lor u v) in
                 if flip then
                   match unhex_loop colon s' (slen - 1) false u with
                   | Some (o, f) => Some (u :: o, f)
                   | None => None
                   end
                 else unhex_loop colon s' (slen - 1) true (u8 (Z.shiftl u 4))
             end
  end.

(** In the middle of a pair the writing branch has stored the high half in the
    next byte of the destination: [touched] counts the bytes written to. *)
Record unhexed := mkUnhexed { uh_out : list Z; uh_size : Z; uh_touched : Z; uh_status : apr_status }.

Definition apr_unescape_hex (d : bool) (str : option (list Z)) (slen : Z) (colon : bool) : unhexed :=
  match str with
  | None => mkUnhexed [] 0 0 APR_NOTFOUND
  | Some s =>
      match unhex_loop colon s slen false 0 with
      | Some (o, f) =>
          mkUnhexed (if d then o else []) (zlen o) (if d then zlen o + (if f then 1 else 0) else 0) APR_SUCCESS
      | None => mkUnhexed [] 0 0 APR_BADCH
      end
  end.

Definition apr_punescape_hex (str : option (list Z)) (colon : bool) : option (list Z) :=
  match uh_status (apr_unescape_hex false str APR_ESCAPE_STRING colon) with
  | APR_SUCCESS => Some (uh_out (apr_unescape_hex true str APR_ESCAPE_STRING colon))
  | _ => None
  end.

(** ** What is counted is what is written *)

Lemma escape_loop_sizes (w c : Z -> list Z * Z * bool) s : forall slen,
  (forall x, zlen (fst (fst (w x))) <= snd (fst (c x))) ->
  zlen (fst (fst (escape_loop w s slen))) <= snd (fst (escape_loop c s slen)).
Proof.
  induction s as [|x s IH]; intros slen H; cbn [escape_loop]; [done|]. destruct (slen =? 0); [done|].
  specialize (IH (slen - 1) H). specialize (H x).
  destruct (w x) as [[bw nw] fw], (c x) as [[bc nc] fc],
    (escape_loop w s (slen - 1)) as [[bw' nw'] fw'], (escape_loop c s (slen - 1)) as [[bc' nc'] fc'].
  cbn in *. autorewrite with zlen. lia.
Qed.

Lemma escape_loop_exact (w c : Z -> list Z * Z * bool) s : forall slen,
  (forall x, zlen (fst (fst (w x))) = snd (fst (c x))) ->
  zlen (fst (fst (escape_loop w s slen))) = snd (fst (escape_loop c s slen)).
Proof.
  induction s as [|x s IH]; intros slen H; cbn [escape_loop]; [done|]. destruct (slen =? 0); [done|].
  specialize (IH (slen - 1) H). specialize (H x).
  destruct (w x) as [[bw nw] fw], (c x) as [[bc nc] fc],
    (escape_loop w s (slen - 1)) as [[bw' nw'] fw'], (escape_loop c s (slen - 1)) as [[bc' nc'] fc'].
  cbn in *. autorewrite with zlen. lia.
Qed.

Lemma run_escape_exact w c s slen :
  (forall x, zlen (fst (fst (w x))) = snd (fst (c x))) ->
  zlen (out (run_escape w (Some s) slen)) + 1 = size (run_escape c (Some s) slen).
Proof.
  intros H. pose proof (escape_loop_exact w c s slen H) as Hl. unfold run_escape.
  destruct (escape_loop w s slen) as [[bw nw] fw], (escape_loop c s slen) as [[bc nc] fc]. cbn in *. lia.
Qed.

(** One turn of the decoding loop in both branches, from [HS] for the rest. *)
Ltac unescape_turn HS :=
  match goal with |- context [unescape_url_loop true _ _ _ ?s' ?a] =>
    match goal with |- context [unescape_url_loop false _ _ _ s' ?b] =>
      destruct (HS a b s') as (o & n & [[? ?] ?] & -> & -> & <-); [cbn [length] in *; lia..|] end end;
  cbn [fst snd]; autorewrite with zlen; repeat split; lia.

(** The decoding loop without a character count: both branches agree. *)
Lemma unescape_url_sizes forbid reserved plus k : forall s slen slen',
  (length s <= k)%nat -> slen < 0 -> slen' < 0 ->
  fst (unescape_url_loop true forbid reserved plus s slen) = fst (unescape_url_loop false forbid reserved plus s slen') /\
  snd (unescape_url_loop true forbid reserved plus s slen) = snd (unescape_url_loop false forbid reserved plus s slen') /\
  zlen (fst (fst (unescape_url_loop true forbid reserved plus s slen))) =
    snd (fst (unescape_url_loop true forbid reserved plus s slen)).
Proof.
  induction k as [|k IH]; intros s slen slen' Hk H1 H2.
  { destruct s; [done|cbn in Hk; lia]. }
  destruct s as [|c s1]; [done|]. cbn [length] in Hk. cbn [unescape_url_loop].
  rewrite (proj2 (Z.eqb_neq slen 0)), (proj2 (Z.eqb_neq slen' 0)) by lia.
  assert (HS : forall a b s', (length s' <= k)%nat -> a < 0 -> b < 0 -> exists o n fl,
    unescape_url_loop true forbid reserved plus s' a = (o, n, fl) /\
    unescape_url_loop false forbid reserved plus s' b = (o, n, fl) /\ zlen o = n).
  { intros a b s' Hs' Ha Hb. destruct (IH s' a b Hs' Ha Hb) as (E1 & E2 & E3).
    destruct (unescape_url_loop true forbid reserved plus s' a) as [[o n] fl],
      (unescape_url_loop false forbid reserved plus s' b) as [[o' n'] fl']. cbn in *.
    exists o, n, fl. split; [done|]. split; [congruence|done]. }
  destruct (plus && (c =? 43)); [unescape_turn HS|]. destruct (negb (c =? PERCENT)); [unescape_turn HS|].
  destruct s1 as [|a [|b s3]]; [unescape_turn HS..|]. cbn [length] in *.
  destruct (negb (is_xdigit a) || negb (is_xdigit b)); [unescape_turn HS|]. cbv zeta.
  destruct ((x2c a b =? 0) || _); [unescape_turn HS|].
  destruct (match reserved with Some r => strchr r (x2c a b) | None => false end); unescape_turn HS.
Qed.

Lemma unescape_entity_sizes fuel : forall s slen o n f,
  unescape_entity_loop fuel s slen = Ok (o, n, f) -> zlen o = n.
Proof.
  induction fuel as [|fuel IH]; intros s slen o n f; destruct s as [|c s1]; cbn [unescape_entity_loop];
    try (intros [= <- <- <-]; done).
  { case_match; [intros [= <- <- <-]|]; done. }
  destruct (slen =? 0); [intros [= <- <- <-]; done|]. cbv zeta.
  assert (HE : forall b fd s' slen', (do (o, n, f) <- unescape_entity_loop fuel s' slen';
    Ok (b ++ o, zlen b + n, fd || f)) = Ok (o, n, f) -> zlen o = n).
  { intros b fd s' slen'. destruct (unescape_entity_loop fuel s' slen') as [[[o' n'] f']|] eqn:E; [|done].
    cbn [rbind]. intros [= <- <- <-]. apply IH in E. autorewrite with zlen. lia. }
  destruct (negb (c =? AMP)); [apply HE|]. destruct (entity_end s1 slen 1) as [i|]; [|apply HE].
  case_match.
  - destruct (entity_digits _ _) as [v k]. case_match; apply HE.
  - destruct (List.find _ _) as [[? v]|]; apply HE.
Qed.

(** allocations are right. For each of the escaping functions that count
    before they write, and whatever the string, the character count and the
    options, the writing pass puts exactly as many bytes as the counting pass
    announced, the terminator included; the shell escape, which turns line
    breaks into spaces only when writing, puts at most that many. *)
Theorem escape_allocation s slen (toasc quote partial colon : bool) :
  zlen (out (apr_escape_path_segment true (Some s) slen)) + 1 = size (apr_escape_path_segment false (Some s) slen) /\
  zlen (out (apr_escape_path true (Some s) slen partial)) + 1 = size (apr_escape_path false (Some s) slen partial) /\
  zlen (out (apr_escape_urlencoded true (Some s) slen)) + 1 = size (apr_escape_urlencoded false (Some s) slen) /\
  zlen (out (apr_escape_entity true (Some s) slen toasc)) + 1 = size (apr_escape_entity false (Some s) slen toasc) /\
  zlen (out (apr_escape_echo true (Some s) slen quote)) + 1 = size (apr_escape_echo false (Some s) slen quote) /\
  zlen (out (apr_escape_hex true (Some s) colon)) + 1 = size (apr_escape_hex false (Some s) colon) /\
  zlen (out (apr_escape_shell true (Some s) slen)) + 1 <= size (apr_escape_shell false (Some s) slen).
Proof.
  split; [|split; [|split; [|split; [|split; [|split]]]]].
  - apply run_escape_exact. intros x. unfold path_segment_step. by case_match.
  - assert (H : forall x, zlen (fst (fst (path_step true x))) = snd (fst (path_step false x))).
    { intros x. unfold path_step. by case_match. }
    pose proof (escape_loop_exact _ _ s slen H) as Hl. unfold apr_escape_path.
    destruct (escape_loop (path_step true) s slen) as [[bw nw] fw], (escape_loop (path_step false) s slen) as [[bc nc] fc].
    cbn [fst snd] in *. destruct (negb partial && _); cbn [out size andb]; autorewrite with zlen; lia.
  - apply run_escape_exact. intros x. unfold urlencoded_step. by repeat case_match.
  - apply run_escape_exact. intros x. unfold entity_step. by repeat case_match.
  - apply run_escape_exact. intros x. unfold echo_step. by repeat case_match.
  - cbn [apr_escape_hex out size].
    assert (H : forall l i, zlen (hex_loop colon l i) =
      zlen l * 2 + (if colon then zlen l - (if Nat.eqb i 0 then Z.min 1 (zlen l) else 0) else 0)).
    { induction l as [|b l IH]; intros i; cbn [hex_loop]; autorewrite with zlen.
      - by destruct colon, (Nat.eqb i 0).
      - pose proof (zlen_nonneg l). rewrite IH. destruct colon, i; cbn [andb negb Nat.eqb app]; autorewrite with zlen; lia. }
    rewrite H. pose proof (zlen_nonneg s). destruct colon; cbn [andb Nat.eqb]; [|lia].
    destruct (Z.eqb_spec (zlen s) 0); cbn [negb]; lia.
  - pose proof (escape_loop_sizes (shell_step true) (shell_step false) s slen) as Hl.
    unfold apr_escape_shell, run_escape.
    destruct (escape_loop (shell_step true) s slen) as [[bw nw] fw], (escape_loop (shell_step false) s slen) as [[bc nc] fc].
    cbn in *. enough (zlen bw <= nc) by lia. apply Hl. intros x. unfold shell_step.
    by repeat case_match.
Qed.

(** ** Round trips *)

Definition text_byte (c : Z) : Prop := 0 < c < 256.

Lemma byte_forall (p : Z -> bool) : forallb (fun n => p (Z.of_nat n)) (seq 1 255) = true -> forall c, text_byte c -> p c = true.
Proof.
  intros H c Hc. rewrite forallb_forall in H. specialize (H (Z.to_nat c)).
  replace (Z.of_nat (Z.to_nat c)) with c in H by (unfold text_byte in Hc; lia). apply H. apply in_seq.
  unfold text_byte in Hc. lia.
Qed.

Lemma c2x_decodes c :
  text_byte c -> exists a b, c2x c PERCENT = [PERCENT; a; b] /\ is_xdigit a = true /\ is_xdigit b = true /\ x2c a b = c.
Proof.
  intros Hc. eexists _, _. split; [reflexivity|].
  pose proof (byte_forall (fun c => is_xdigit (hex_digit (Z.shiftr c 4)) && is_xdigit (hex_digit (Z.land c 15)) &&
    (x2c (hex_digit (Z.shiftr c 4)) (hex_digit (Z.land c 15)) =? c)) eq_refl c Hc) as H.
  cbv beta in H. rewrite !andb_true_iff, Z.eqb_eq in H. tauto.
Qed.

(** What a writing step puts for a character, [f] telling whether it changed it. *)
Inductive url_code (plus : bool) (c : Z) : list Z -> bool -> Prop :=
  | code_escaped : url_code plus c (c2x c PERCENT) true
  | code_plus : plus = true -> c = 32 -> url_code plus c [43] true
  | code_plain : c <> PERCENT -> (plus = true -> c <> 43) -> url_code plus c [c] false.

Lemma unescape_code d plus c bs f rest slen :
  text_byte c -> url_code plus c bs f -> slen < 0 ->
  exists slen', slen' < 0 /\
    unescape_url_loop d None None plus (bs ++ rest) slen =
    let '(o, n, (be, bp, fd)) := unescape_url_loop d None None plus rest slen' in (c :: o, n + 1, (be, bp, f || fd)).
Proof.
  intros Hc Hcode Hs. assert (E : (slen =? 0) = false) by (apply Z.eqb_neq; lia). destruct Hcode as [|Hpl Hc32|Hp Hplus]; [|subst plus c|].
  - destruct (c2x_decodes c Hc) as (a & b & -> & Ha & Hb & Hx). exists (slen - 2 - 1). split; [lia|].
    cbn [app unescape_url_loop]. rewrite E. cbn [Z.eqb PERCENT Pos.eqb andb negb]. rewrite andb_false_r, Ha, Hb, Hx.
    cbn [negb orb]. unfold text_byte in Hc. rewrite (proj2 (Z.eqb_neq c 0)) by lia. cbn [orb]. done.
  - exists (slen - 1). split; [lia|]. cbn [app unescape_url_loop]. rewrite E. cbn [andb Z.eqb Pos.eqb].
    destruct (unescape_url_loop d None None true rest (slen - 1)) as [[o n] [[be bp] fd]]. done.
  - exists (slen - 1). split; [lia|]. cbn [app unescape_url_loop]. rewrite E.
    replace (plus && (c =? 43)) with false.
    2: { symmetry. apply andb_false_iff. destruct plus; [right; apply Z.eqb_neq; by apply Hplus|by left]. }
    rewrite (proj2 (Z.eqb_neq c PERCENT)) by done. cbn [negb].
    destruct (unescape_url_loop d None None plus rest (slen - 1)) as [[o n] [[be bp] fd]]. done.
Qed.

(** Decoding what a writing loop produced gives the string back. *)
Lemma unescape_escape d plus (step : Z -> list Z * Z * bool) s : forall slen slen',
  (forall c, text_byte c -> url_code plus c (fst (fst (step c))) (snd (step c))) ->
  Forall text_byte s -> slen < 0 -> slen' < 0 ->
  unescape_url_loop d None None plus (fst (fst (escape_loop step s slen))) slen' =
    (s, zlen s, (false, false, snd (escape_loop step s slen))).
Proof.
  induction s as [|c s IH]; intros slen slen' Hstep Hs Hl Hl'; cbn [escape_loop]; [done|].
  apply Forall_cons in Hs as [Hc Hs]. rewrite (proj2 (Z.eqb_neq slen 0)) by lia.
  specialize (Hstep c Hc) as Hcode.
  destruct (unescape_code d plus c _ _ (fst (fst (escape_loop step s (slen - 1)))) slen' Hc Hcode Hl') as (sl & Hsl & E).
  specialize (IH (slen - 1) sl Hstep Hs). rewrite IH in E by lia.
  destruct (step c) as [[bs n] f], (escape_loop step s (slen - 1)) as [[bs' n'] f']. cbn [fst snd] in *. rewrite E.
  autorewrite with zlen. do 2 f_equal. lia.
Qed.

(** A loop that finds nothing copies the string. *)
Lemma escape_loop_copies plus (step : Z -> list Z * Z * bool) s : forall slen,
  (forall c, text_byte c -> url_code plus c (fst (fst (step c))) (snd (step c))) ->
  Forall text_byte s -> slen < 0 -> snd (escape_loop step s slen) = false -> fst (fst (escape_loop step s slen)) = s.
Proof.
  induction s as [|c s IH]; intros slen Hstep Hs Hl; cbn [escape_loop]; [done|].
  apply Forall_cons in Hs as [Hc Hs]. rewrite (proj2 (Z.eqb_neq slen 0)) by lia.
  specialize (Hstep c Hc) as Hcode. specialize (IH (slen - 1) Hstep Hs ltac:(lia)).
  destruct (step c) as [[bs n] f], (escape_loop step s (slen - 1)) as [[bs' n'] f']. cbn [fst snd] in *.
  intros [-> ->]%orb_false_iff. rewrite IH by done. by inversion Hcode.
Qed.

Lemma path_segment_code c :
  text_byte c -> url_code false c (fst (fst (path_segment_step true c))) (snd (path_segment_step true c)).
Proof.
  intros Hc. unfold path_segment_step. destruct (T_ESCAPE_PATH_SEGMENT c) eqn:E; cbn [fst snd]; [constructor|].
  apply code_plain; [|done]. intros ->. by vm_compute in E.
Qed.

Lemma urlencoded_code c :
  text_byte c -> url_code true c (fst (fst (urlencoded_step true c))) (snd (urlencoded_step true c)).
Proof.
  intros Hc. unfold urlencoded_step. destruct (T_ESCAPE_URLENCODED c) eqn:E; cbn [fst snd]; [constructor|].
  destruct (Z.eqb_spec c 32) as [->|Hn]; cbn [fst snd]; [by constructor|].
  apply code_plain; [|intros _]; intros ->; by vm_compute in E.
Qed.

(** The two loops, counting and writing, report the same flag. *)
Lemma escape_loop_found (w c : Z -> list Z * Z * bool) s : forall slen,
  (forall x, snd (w x) = snd (c x)) -> snd (escape_loop w s slen) = snd (escape_loop c s slen).
Proof.
  induction s as [|x s IH]; intros slen H; cbn [escape_loop]; [done|]. destruct (slen =? 0); [done|].
  specialize (IH (slen - 1) H). specialize (H x).
  destruct (w x) as [[bw nw] fw], (c x) as [[bc nc] fc],
    (escape_loop w s (slen - 1)) as [[bw' nw'] fw'], (escape_loop c s (slen - 1)) as [[bc' nc'] fc'].
  cbn in *. congruence.
Qed.

Lemma url_wrapper_roundtrip plus (step : bool -> Z -> list Z * Z * bool) s :
  (forall c, text_byte c -> url_code plus c (fst (fst (step true c))) (snd (step true c))) ->
  (forall c, snd (step true c) = snd (step false c)) -> Forall text_byte s ->
  apr_punescape_url (pescape (fun d => run_escape (step d) (Some s) APR_ESCAPE_STRING) (Some s)) None None plus = Some s.
Proof.
  intros Hcode Hf Hs. unfold pescape, run_escape. pose proof (escape_loop_found (step true) (step false) s (-1) Hf) as Hfs.
  pose proof (fun d => unescape_escape d plus (step true) s (-1) (-1) Hcode Hs ltac:(lia) ltac:(lia)) as Hu.
  pose proof (escape_loop_copies plus (step true) s (-1) Hcode Hs ltac:(lia)) as Hcp. unfold APR_ESCAPE_STRING.
  destruct (escape_loop (step true) s (-1)) as [[bw nw] fw], (escape_loop (step false) s (-1)) as [[bc nc] fc].
  cbn [fst snd status out] in *. subst fc. destruct fw; cbn [found_status].
  - unfold apr_punescape_url, apr_unescape_url, APR_ESCAPE_STRING. rewrite !Hu. done.
  - rewrite Hcp in Hu by done. unfold apr_punescape_url, apr_unescape_url, APR_ESCAPE_STRING. rewrite !Hu. done.
Qed.

(** URL escaping is reversible. For every string of bytes other than NUL,
    unescaping what [apr_pescape_path_segment] returns gives the string back,
    and so does unescaping, with plus signs as spaces, what
    [apr_pescape_urlencoded] returns. *)
Theorem url_roundtrip s :
  Forall text_byte s ->
  apr_punescape_url (apr_pescape_path_segment (Some s)) None None false = Some s /\
  apr_punescape_url (apr_pescape_urlencoded (Some s)) None None true = Some s.
Proof.
  intros Hs. split.
  - apply (url_wrapper_roundtrip false path_segment_step); [apply path_segment_code| |done].
    intros c. unfold path_segment_step. by case_match.
  - apply (url_wrapper_roundtrip true urlencoded_step); [apply urlencoded_code| |done].
    intros c. unfold urlencoded_step. by repeat case_match.
Qed.

(** "a b%+", which both functions escape differently. *)
Definition url_text : list Z := [97; 32; 98; 37; 43; 233].

Lemma url_roundtrip_witness :
  apr_pescape_urlencoded (Some url_text) = Some (str "a+b%25%2b%e9") /\
  apr_punescape_url (apr_pescape_path_segment (Some url_text)) None None false = Some url_text /\
  apr_punescape_url (apr_pescape_urlencoded (Some url_text)) None None true = Some url_text.
Proof.
  split; [vm_compute; reflexivity|]. apply url_roundtrip.
  repeat (apply Forall_cons; split; [unfold text_byte; lia|]). by apply Forall_nil.
Defined.

(** The documented limit [slen] is stepped over by an escape that straddles it:
    the rest of the string is decoded too. *)
Example unescape_url_overruns :
  out (apr_unescape_url true (Some (str "%41BC")) 1 None None false) = str "ABC".
Proof. vm_compute. reflexivity. Qed.

(** With a destination [apr_escape_path] reports neither the escapes nor their
    size, without one it does. *)
Example escape_path_status :
  let w := apr_escape_path true (Some (str "a b")) (-1) true in
  let c := apr_escape_path false (Some (str "a b")) (-1) true in
  out w = str "a%20b" /\ status w = APR_NOTFOUND /\ size w = 4 /\ status c = APR_SUCCESS /\ size c = 6.
Proof. vm_compute. done. Qed.

(** ** Hexadecimal round trip *)

Lemma hex_values b :
  0 <= b < 256 ->
  exists v w, hex_value (hex_digit (Z.shiftr b 4)) = Some v /\ hex_value (hex_digit (Z.land b 15)) = Some w /\
    u8 (Z.lor (u8 (Z.shiftl (u8 (Z.lor 0 v)) 4)) w) = b /\ hex_digit (Z.shiftr b 4) <> 58.
Proof.
  intros Hb.
  pose (p := fun b => match hex_value (hex_digit (Z.shiftr b 4)), hex_value (hex_digit (Z.land b 15)) with
    | Some v, Some w => (u8 (Z.lor (u8 (Z.shiftl (u8 (Z.lor 0 v)) 4)) w) =? b) && negb (hex_digit (Z.shiftr b 4) =? 58)
    | _, _ => false end).
  assert (H : p b = true).
  { destruct (Z.eq_dec b 0) as [->|Hn]; [reflexivity|]. apply (byte_forall p); [vm_compute; reflexivity|].
    unfold text_byte. lia. }
  unfold p in H. destruct (hex_value (hex_digit (Z.shiftr b 4))) as [v|]; [|done].
  destruct (hex_value (hex_digit (Z.land b 15))) as [w|]; [|done].
  rewrite andb_true_iff, Z.eqb_eq, negb_true_iff, Z.eqb_neq in H. exists v, w. tauto.
Qed.

Lemma unhex_hex colon s : forall i slen u,
  Forall is_byte s -> slen < 0 -> unhex_loop colon (hex_loop colon s i) slen false u = Some (s, false).
Proof.
  induction s as [|b s IH]; intros i slen u Hs Hl; [done|]. apply Forall_cons in Hs as [Hb Hs].
  destruct (hex_values b Hb) as (v & w & Hv & Hw & Hvw & Hne). cbn [hex_loop].
  assert (Hpair : forall sl u', sl < 0 ->
    unhex_loop colon (hex_digit (Z.shiftr b 4) :: hex_digit (Z.land b 15) :: hex_loop colon s (S i)) sl false u' =
    Some (b :: s, false)).
  { intros sl u' Hsl. cbn [unhex_loop]. rewrite (proj2 (Z.eqb_neq sl 0)), (proj2 (Z.eqb_neq (sl - 1) 0)) by lia.
    rewrite (proj2 (Z.eqb_neq (hex_digit (Z.shiftr b 4)) 58)) by done. cbn [negb].
    rewrite !andb_false_r. cbn [andb]. rewrite Hv, Hw. cbv zeta. rewrite Hvw, IH by (done || lia). done. }
  destruct (colon && negb (Nat.eqb i 0)) eqn:E; cbn [app]; [|by apply Hpair].
  apply andb_true_iff in E as [-> _].
  assert (Hc : forall l, unhex_loop true (58 :: l) slen false u = unhex_loop true l (slen - 1) false 0).
  { intros l. cbn [unhex_loop]. by rewrite (proj2 (Z.eqb_neq slen 0)) by lia. }
  rewrite Hc. apply Hpair. lia.
Qed.

(** hexadecimal is reversible. Any bytes written by [apr_pescape_hex],
    with or without colons, are read back by [apr_punescape_hex]; and the reader
    stores exactly the bytes it counted. *)
Theorem hex_roundtrip s colon :
  bytes s ->
  let h := apr_pescape_hex (Some s) colon in
  apr_punescape_hex h colon = Some s /\
  uh_touched (apr_unescape_hex true h (-1) colon) = uh_size (apr_unescape_hex false h (-1) colon).
Proof.
  intros Hs h. pose proof (unhex_hex colon s 0 (-1) 0 Hs ltac:(lia)) as H.
  unfold apr_punescape_hex, apr_unescape_hex, h, apr_pescape_hex, pescape, apr_escape_hex, APR_ESCAPE_STRING.
  cbn [status out]. rewrite H. cbn. split; [done|lia].
Qed.

Lemma hex_roundtrip_witness :
  apr_pescape_hex (Some [0; 171; 255]) true = Some (str "00:ab:ff") /\
  apr_punescape_hex (apr_pescape_hex (Some [0; 171; 255]) true) true = Some [0; 171; 255] /\
  uh_touched (apr_unescape_hex true (apr_pescape_hex (Some [0; 171; 255]) true) (-1) true) =
    uh_size (apr_unescape_hex false (apr_pescape_hex (Some [0; 171; 255]) true) (-1) true).
Proof.
  split; [vm_compute; reflexivity|]. apply (hex_roundtrip [0; 171; 255] true).
  repeat (apply Forall_cons; split; [unfold is_byte; lia|]). by apply Forall_nil.
Defined.

(** An odd number of digits is accepted; half of the last byte is stored one
    byte after the last one counted. *)
Example unhex_odd_overrun :
  let w := apr_unescape_hex true (Some (str "abc")) (-1) false in
  uh_status w = APR_SUCCESS /\ uh_size (apr_unescape_hex false (Some (str "abc")) (-1) false) = 1 /\ uh_touched w = 2.
Proof. vm_compute. done. Qed.

(** ** Entity round trip *)

(** The side conditions of [named_entity] for a name of the table. *)
Ltac named := first [done | by vm_compute | apply (bool_decide_unpack _); vm_compute; exact I].

Lemma entity_end_semicolon name rest slen : forall i,
  slen < 0 -> 59 ∉ name -> entity_end (name ++ 59 :: rest) slen i = Some (i + length name)%nat.
Proof.
  induction name as [|c name IH]; intros i Hs Hn; cbn [app entity_end];
    rewrite (proj2 (Z.eqb_neq (slen - Z.of_nat i) 0)) by lia.
  - cbn. by rewrite Nat.add_0_r.
  - rewrite (proj2 (Z.eqb_neq c 59)) by set_solver. rewrite IH by set_solver. f_equal. cbn. lia.
Qed.

(** A named entity of the table is one turn of the loop. *)
Lemma named_entity name name' v rest slen fuel :
  slen < 0 -> 59 ∉ name -> name !! O <> Some 35 -> name <> [] ->
  List.find (fun p => bool_decide (fst p = name)) (entlist (length name)) = Some (name', v) ->
  unescape_entity_loop (S fuel) (AMP :: name ++ 59 :: rest) slen =
    (do (o, n, f) <- unescape_entity_loop fuel rest (slen - Z.of_nat (S (length name)) - 1); Ok (v :: o, 1 + n, true)).
Proof.
  intros Hs Hn Hh Hne Hfind. cbn [unescape_entity_loop]. rewrite (proj2 (Z.eqb_neq slen 0)) by lia.
  rewrite Z.eqb_refl. cbn [negb]. rewrite entity_end_semicolon by done.
  replace (bool_decide ((name ++ 59 :: rest) !! O = Some 35)) with false.
  2: { symmetry. apply bool_decide_eq_false. by destruct name. }
  change (1 + length name)%nat with (S (length name)). rewrite Nat.sub_succ, Nat.sub_0_r, take_app_length, Hfind.
  replace (drop (S (length name)) (name ++ 59 :: rest)) with rest; [done|].
  rewrite drop_app_ge, Nat.sub_succ_l, Nat.sub_diag by lia. done.
Qed.

Lemma entity_code c rest slen fuel :
  text_byte c -> slen < 0 ->
  exists slen', slen' < 0 /\
  unescape_entity_loop (S fuel) (fst (fst (entity_step true false c)) ++ rest) slen =
    (do (o, n, f) <- unescape_entity_loop fuel rest slen';
     Ok (c :: o, 1 + n, snd (entity_step true false c) || f)).
Proof.
  intros Hc Hs. unfold entity_step. destruct (T_ESCAPE_XML c) eqn:E.
  - assert (Hx : c = 62 \/ c = 60 \/ c = AMP \/ c = QUOTE).
    { unfold T_ESCAPE_XML, strchr in E. cbn [existsb str app] in E. rewrite !orb_true_iff, !Z.eqb_eq in E.
      unfold text_byte in Hc. unfold AMP, QUOTE in *. cbn in E. lia. }
    destruct Hx as [-> |[-> |[-> | ->]]].
    + eexists. split; [|apply (named_entity (str "gt") (str "gt") 62); named]. cbn. lia.
    + eexists. split; [|apply (named_entity (str "lt") (str "lt") 60); named]. cbn. lia.
    + eexists. split; [|apply (named_entity (str "amp") (str "amp") AMP); named]. cbn. lia.
    + eexists. split; [|apply (named_entity (str "quot") (str "quot") QUOTE); named]. cbn. lia.
  - assert (Hn : c <> AMP) by (intros ->; by vm_compute in E). cbn [andb fst snd app orb].
    exists (slen - 1). split; [lia|]. cbn [unescape_entity_loop].
    rewrite (proj2 (Z.eqb_neq slen 0)), (proj2 (Z.eqb_neq c AMP)) by (done || lia). done.
Qed.

Lemma unescape_entities s : forall slen slen' fuel,
  Forall text_byte s -> slen < 0 -> slen' < 0 -> (length s <= fuel)%nat ->
  unescape_entity_loop fuel (fst (fst (escape_loop (entity_step true false) s slen))) slen' =
    Ok (s, zlen s, snd (escape_loop (entity_step true false) s slen)).
Proof.
  induction s as [|c s IH]; intros slen slen' fuel Hs Hl Hl' Hf; cbn [escape_loop]; [by destruct fuel|].
  apply Forall_cons in Hs as [Hc Hs]. rewrite (proj2 (Z.eqb_neq slen 0)) by lia.
  destruct fuel as [|fuel]; [cbn in Hf; lia|].
  destruct (entity_code c (fst (fst (escape_loop (entity_step true false) s (slen - 1)))) slen' fuel Hc Hl') as (sl & Hsl & E).
  rewrite (IH (slen - 1) sl fuel Hs) in E by (cbn in Hf; lia).
  destruct (entity_step true false c) as [[bs n] f], (escape_loop (entity_step true false) s (slen - 1)) as [[bs' n'] f'].
  cbn [fst snd rbind] in *. rewrite E. by autorewrite with zlen.
Qed.

Lemma entity_lengths s slen :
  Forall text_byte s -> slen < 0 -> (length s <= length (fst (fst (escape_loop (entity_step true false) s slen))))%nat.
Proof.
  revert slen. induction s as [|c s IH]; intros slen Hs Hl; cbn [escape_loop]; [done|].
  apply Forall_cons in Hs as [Hc Hs]. rewrite (proj2 (Z.eqb_neq slen 0)) by lia. specialize (IH (slen - 1) Hs ltac:(lia)).
  assert (Hn : (1 <= length (fst (fst (entity_step true false c))))%nat).
  { pose proof (byte_forall (fun c => Nat.leb 1 (length (fst (fst (entity_step true false c))))) eq_refl c Hc) as H.
    by apply Nat.leb_le in H. }
  destruct (entity_step true false c) as [[bs n] f], (escape_loop (entity_step true false) s (slen - 1)) as [[bs' n'] f'].
  cbn [fst snd length] in *. rewrite length_app. lia.
Qed.

Lemma entity_copies s slen :
  slen < 0 -> snd (escape_loop (entity_step true false) s slen) = false ->
  fst (fst (escape_loop (entity_step true false) s slen)) = s.
Proof.
  revert slen. induction s as [|c s IH]; intros slen Hl; cbn [escape_loop]; [done|].
  rewrite (proj2 (Z.eqb_neq slen 0)) by lia. specialize (IH (slen - 1) ltac:(lia)).
  assert (Hstep : snd (entity_step true false c) = false -> fst (fst (entity_step true false c)) = [c])
    by (unfold entity_step; by case_match).
  destruct (entity_step true false c) as [[bs n] f], (escape_loop (entity_step true false) s (slen - 1)) as [[bs' n'] f'].
  cbn [fst snd] in *. intros [-> ->]%orb_false_iff. by rewrite IH, Hstep.
Qed.

(** entity escaping is reversible. For every string of bytes other than
    NUL, [apr_punescape_entity] gives back the string [apr_pescape_entity]
    escaped without character references. *)
Theorem entity_roundtrip s :
  Forall text_byte s -> apr_punescape_entity (apr_pescape_entity (Some s) false) = Ok (Some s).
Proof.
  intros Hs. unfold apr_pescape_entity, pescape, apr_escape_entity, run_escape, APR_ESCAPE_STRING.
  pose proof (escape_loop_found (entity_step true false) (entity_step false false) s (-1)) as Hf.
  pose proof (unescape_entities s (-1) (-1)) as Hu.
  pose proof (entity_lengths s (-1) Hs) as Hlen. pose proof (entity_copies s (-1)) as Hcp.
  destruct (escape_loop (entity_step true false) s (-1)) as [[bw nw] fw],
    (escape_loop (entity_step false false) s (-1)) as [[bc nc] fc]. cbn [fst snd status out] in *.
  rewrite <- Hf by (intros x; unfold entity_step; by repeat case_match).
  unfold apr_punescape_entity, apr_unescape_entity, APR_ESCAPE_STRING.
  destruct fw; cbn [found_status].
  - rewrite Hu by (done || lia). done.
  - rewrite Hcp in Hu by (done || lia). rewrite Hu by (done || lia). done.
Qed.

Lemma entity_roundtrip_witness :
  apr_pescape_entity (Some (str "a<b&amp;'")) false = Some (str "a&lt;b&amp;amp;'") /\
  apr_punescape_entity (apr_pescape_entity (Some (str "a<b&amp;'")) false) = Ok (Some (str "a<b&amp;'")).
Proof.
  split; [vm_compute; reflexivity|]. apply entity_roundtrip.
  repeat (apply Forall_cons; split; [unfold text_byte; cbn; lia|]). by apply Forall_nil.
Defined.

(** With character references the buffer given to [apr_snprintf] is one byte
    short: the reference is written without its semicolon. *)
Example entity_reference_truncated :
  apr_pescape_entity (Some [233]) true = Some (str "&#233") /\
  apr_punescape_entity (apr_pescape_entity (Some [233]) true) = Ok (Some (str "&#233")).
Proof. vm_compute. done. Qed.
