(* ===== verification/AprStrmatch.v ===== *)
(** * String search: [src/apr-util/strmatch/apr_strmatch.c]

    [apr_strmatch_precompile] computes the shift table of a pattern and chooses
    one of three search functions; [apr_strmatch] calls the chosen one. A text is
    an object with its length, a result the offset of the occurrence. The two
    Boyer-Moore-Horspool functions differ in the characters they compare, the
    argument [fold] of [bmh_search]. The theorem is that the compiled search finds
    what a search at every offset finds, and reads only the text it was given. *)

From S2P Require Import Prelude.

Definition NUM_CHARS : Z := 256.

(** The [compare] member: which of the three functions is called. *)
Inductive compare_fn :=
  | Match_no_op
  | Match_boyer_moore_horspool
  | Match_boyer_moore_horspool_nocase.

Record apr_strmatch_pattern := mk_pattern {
  compare_of : compare_fn;
  pattern : list Z;           (* the object the pattern string is in *)
  pat_length : Z;
  context : option (list Z)   (* the shift table *)
}.

(** [apr_tolower]: the character is converted to [unsigned char] first. *)
Definition apr_tolower (c : Z) : Z := tolower (u8 c).

(** ** The search loops *)

(** [while (fold *s_tmp == fold *p_tmp) { ... }] *)
Fixpoint match_back (fold : Z -> Z) (fuel : nat) (p m : list Z) (s_tmp p_tmp : Z)
  : res (option Z) :=
  match fuel with
  | O => Err OutOfFuel
  | S fuel =>
      do a <- rd m s_tmp;
      do b <- rd p p_tmp;
      if fold a =? fold b then
        let p_tmp := p_tmp - 1 in
        if p_tmp <? 0 then Ok (Some s_tmp)
        else match_back fold fuel p m (s_tmp - 1) p_tmp
      else Ok None
  end.

(** [while (s_next < s_end) { ... }] *)
Fixpoint bmh_loop (fold : Z -> Z) (fuel : nat) (shift p : list Z) (len : Z) (m : list Z)
    (s_end s_next : Z) : res (option Z) :=
  match fuel with
  | O => Err OutOfFuel
  | S fuel =>
      if s_next <? s_end then
        do r <- match_back fold (Z.to_nat len) p m s_next (len - 1);
        match r with
        | Some s_tmp => Ok (Some s_tmp)
        | None =>
            do c <- rd m s_next;
            do d <- rd shift (fold c);
            bmh_loop fold fuel shift p len m s_end (s_next + d)
        end
      else Ok None
  end.

Definition bmh_search (fold : Z -> Z) (this : apr_strmatch_pattern) (m : list Z) (slen : Z)
  : res (option Z) :=
  do shift <- of_option OutOfBounds (context this);
  bmh_loop fold (S (Z.to_nat slen)) shift (pattern this) (pat_length this) m slen
    (pat_length this - 1).

Definition match_no_op (this : apr_strmatch_pattern) (m : list Z) (slen : Z) : res (option Z) :=
  Ok (Some 0).

Definition match_boyer_moore_horspool (this : apr_strmatch_pattern) (m : list Z) (slen : Z)
  : res (option Z) := bmh_search (fun c => c) this m slen.

Definition match_boyer_moore_horspool_nocase (this : apr_strmatch_pattern) (m : list Z) (slen : Z)
  : res (option Z) := bmh_search apr_tolower this m slen.

(** The macro [apr_strmatch]. *)
Definition apr_strmatch (this : apr_strmatch_pattern) (m : list Z) (slen : Z) : res (option Z) :=
  match compare_of this with
  | Match_no_op => match_no_op this m slen
  | Match_boyer_moore_horspool => match_boyer_moore_horspool this m slen
  | Match_boyer_moore_horspool_nocase => match_boyer_moore_horspool_nocase this m slen
  end.

(** ** Compiling a pattern *)

(** [for (; i < length - 1; i++) shift[fold s[i]] = length - i - 1], [n]
    iterations of it. *)
Fixpoint fill_shift (fold : Z -> Z) (n : nat) (s : list Z) (len i : Z) (shift : list Z)
  : res (list Z) :=
  match n with
  | O => Ok shift
  | S n =>
      do c <- rd s i;
      do shift <- store shift (fold c) (len - i - 1);
      fill_shift fold n s len (i + 1) shift
  end.

Definition apr_strmatch_precompile (s : list Z) (case_sensitive : bool)
  : res apr_strmatch_pattern :=
  do len <- strlen s 0;
  if len =? 0 then Ok (mk_pattern Match_no_op s len None)
  else
    let shift := replicate (Z.to_nat NUM_CHARS) len in
    if case_sensitive then
      do shift <- fill_shift (fun c => c) (Z.to_nat (len - 1)) s len 0 shift;
      Ok (mk_pattern Match_boyer_moore_horspool s len (Some shift))
    else
      do shift <- fill_shift apr_tolower (Z.to_nat (len - 1)) s len 0 shift;
      Ok (mk_pattern Match_boyer_moore_horspool_nocase s len (Some shift)).

(** ** The reference search *)

(** The text starts with the pattern, characters compared after [fold]. *)
Fixpoint starts_with (fold : Z -> Z) (p t : list Z) : bool :=
  match p, t with
  | [], _ => true
  | _, [] => false
  | a :: p, b :: t => (fold a =? fold b) && starts_with fold p t
  end.

(** The first offset, from [i] on, where the pattern occurs. *)
Fixpoint search (fold : Z -> Z) (p t : list Z) (i : Z) : option Z :=
  if starts_with fold p t then Some i
  else match t with
       | [] => None
       | _ :: t => search fold p t (i + 1)
       end.

Definition folding (case_sensitive : bool) : Z -> Z :=
  if case_sensitive then fun c => c else apr_tolower.

(** ** The reference search finds the first occurrence *)

Lemma starts_with_lookup fold p t k b :
  starts_with fold p t = true -> p !! k = Some b -> exists a, t !! k = Some a /\ fold b = fold a.
Proof.
  revert t k. induction p as [|x p IH]; intros [|y t] k Hs Hb; cbn in *; try done.
  apply andb_true_iff in Hs as [Hx Hs]. destruct k as [|k]; cbn in *; [|by eapply IH].
  simplify_eq. exists y. split; [done|]. by apply Z.eqb_eq.
Qed.

Lemma starts_with_snoc fold l x t :
  starts_with fold (l ++ [x]) t =
    starts_with fold l t && match t !! length l with Some a => fold x =? fold a | None => false end.
Proof.
  revert t. induction l as [|y l IH]; intros [|a t]; cbn; try done; [by rewrite andb_true_r|].
  by rewrite IH, andb_assoc.
Qed.

Lemma search_first fold p t i n :
  starts_with fold p (drop n t) = true ->
  (forall k, (k < n)%nat -> starts_with fold p (drop k t) = false) ->
  search fold p t i = Some (i + Z.of_nat n).
Proof.
  revert t i. induction n as [|n IH]; intros t i Hn Hlt.
  - rewrite drop_0 in Hn. destruct t; cbn [search]; rewrite Hn; f_equal; lia.
  - pose proof (Hlt O ltac:(lia)) as H0. rewrite drop_0 in H0.
    destruct t as [|a t]; [by rewrite drop_nil in Hn; rewrite Hn in H0|].
    cbn [search]. rewrite H0, IH; [f_equal; lia|done|].
    intros k Hk. apply (Hlt (S k)). lia.
Qed.

Lemma search_none fold p t i :
  (forall k, starts_with fold p (drop k t) = false) -> search fold p t i = None.
Proof.
  revert i. induction t as [|a t IH]; intros i H; pose proof (H O) as H0; cbn [drop] in H0;
    cbn [search]; rewrite H0; [done|]. apply IH. intros k. apply (H (S k)).
Qed.

(** ** The compiled search *)

Section horspool.
Context (fold : Z -> Z) (pat rest m : list Z) (slen : Z).
Hypothesis fold_byte : forall c, is_byte c -> is_byte (fold c).
Hypothesis pat_bytes : bytes pat.
Hypothesis m_bytes : bytes m.
Hypothesis pat_pos : 0 < zlen pat.
Hypothesis slen_ok : 0 <= slen <= zlen m.

Local Abbreviation t := (take (Z.to_nat slen) m).
Local Abbreviation p := (pat ++ rest)%list.

Lemma rd_text i : 0 <= i < slen -> exists a, rd m i = Ok a /\ t !! Z.to_nat i = Some a /\ is_byte a.
Proof.
  intros Hi. destruct (rd_total m i) as (a & Ha & Hr); [lia|].
  exists a. rewrite lookup_take_lt by lia. repeat split; [done|done| |];
  by apply (proj1 (Forall_lookup _ _) m_bytes _ _ Ha).
Qed.

Lemma match_back_spec n i fuel :
  0 < Z.of_nat n <= zlen pat -> (n <= fuel)%nat -> 0 <= i -> i + Z.of_nat n <= slen ->
  match_back fold fuel p m (i + Z.of_nat n - 1) (Z.of_nat n - 1) =
    Ok (if starts_with fold (take n pat) (drop (Z.to_nat i) t) then Some i else None).
Proof.
  revert fuel. induction n as [|n IH]; intros fuel Hn Hf Hi Hs; [lia|].
  destruct fuel as [|fuel]; [lia|]. cbn [match_back].
  destruct (rd_text (i + Z.of_nat (S n) - 1)) as (a & Ha & Hta & _); [lia|]. rewrite Ha.
  destruct (lookup_lt_is_Some_2 pat n) as [b Hb]; [unfold zlen in Hn; lia|].
  assert (Hrb : rd p (Z.of_nat (S n) - 1) = Ok b).
  { apply rd_lookup. split; [lia|]. replace (Z.to_nat _) with n by lia. by apply lookup_app_l_Some. }
  rewrite Hrb. cbn [rbind]. rewrite (take_S_r _ _ _ Hb), starts_with_snoc, length_take.
  rewrite Nat.min_l by (apply lookup_lt_Some in Hb; lia). rewrite lookup_drop.
  replace (Z.to_nat i + n)%nat with (Z.to_nat (i + Z.of_nat (S n) - 1)) by lia. rewrite Hta.
  rewrite (Z.eqb_sym (fold b)). destruct (fold a =? fold b); rewrite ?andb_false_r, ?andb_true_r; [|done].
  destruct n as [|n].
  - cbn. do 2 f_equal. lia.
  - zbool. replace (Z.of_nat (S (S n)) - 1 - 1) with (Z.of_nat (S n) - 1) by lia.
    replace (i + Z.of_nat (S (S n)) - 1 - 1) with (i + Z.of_nat (S n) - 1) by lia. apply IH; lia.
Qed.

(** The shift table allows a step past every alignment that cannot match. *)
Definition shift_good (n : nat) (sh : list Z) : Prop :=
  zlen sh = NUM_CHARS /\
  forall c, is_byte c -> exists d, sh !! Z.to_nat c = Some d /\ 1 <= d <= zlen pat /\
    forall k b, pat !! k = Some b -> zlen pat - d <= Z.of_nat k < Z.of_nat n -> fold b <> c.

Lemma fill_shift_good n i sh :
  (i + n < length pat)%nat -> shift_good i sh ->
  exists sh', fill_shift fold n p (zlen pat) (Z.of_nat i) sh = Ok sh' /\ shift_good (i + n) sh'.
Proof.
  revert i sh. induction n as [|n IH]; intros i sh Hl [Hz Hg].
  { exists sh. rewrite Nat.add_0_r. done. }
  destruct (lookup_lt_is_Some_2 pat i) as [b Hb]; [lia|]. cbn [fill_shift].
  replace (rd p (Z.of_nat i)) with (@Ok Z b).
  2: { symmetry. apply rd_lookup. split; [lia|]. rewrite Nat2Z.id. by apply lookup_app_l_Some. }
  pose proof (fold_byte b (proj1 (Forall_lookup _ _) pat_bytes _ _ Hb)) as Hfb. cbn [rbind].
  unfold is_byte in Hfb. rewrite store_ok by (rewrite Hz; unfold NUM_CHARS; lia). cbn [rbind].
  replace (Z.of_nat i + 1) with (Z.of_nat (S i)) by lia.
  replace (i + S n)%nat with (S i + n)%nat by lia. apply IH; [lia|].
  split; [by autorewrite with zlen|]. intros c Hc. destruct (Z.eq_dec (fold b) c) as [<-|Hne].
  - exists (zlen pat - Z.of_nat i - 1). split; [|unfold zlen; split; [lia|]; intros; lia].
    apply list_lookup_insert_eq. unfold zlen, NUM_CHARS in *. lia.
  - destruct (Hg c Hc) as (d & Hd & Hdl & Hk). exists d. split; [|split; [done|]].
    + unfold is_byte in Hc. rewrite list_lookup_insert_ne by lia. done.
    + intros k b' Hb' Hkr. destruct (decide (k = i)) as [->|]; [congruence|].
      apply (Hk k b' Hb'). lia.
Qed.

Lemma shift_good_init : shift_good 0 (replicate (Z.to_nat NUM_CHARS) (zlen pat)).
Proof.
  split; [by autorewrite with zlen|]. intros c Hc. exists (zlen pat).
  split; [|split; [lia|intros; lia]]. apply lookup_replicate_2. unfold is_byte, NUM_CHARS in *. lia.
Qed.

(** After a mismatch, no alignment before the next one tried can match. *)
Lemma shift_skips sh n a d :
  shift_good (length pat - 1) sh -> t !! (n + (length pat - 1))%nat = Some a ->
  sh !! Z.to_nat (fold a) = Some d -> is_byte a ->
  1 <= d /\ forall k, (n < k < n + Z.to_nat d)%nat -> starts_with fold pat (drop k t) = false.
Proof.
  intros [_ Hg] Ha Hd Hb. destruct (Hg (fold a) (fold_byte a Hb)) as (d' & Hd' & Hdl & Hk).
  simplify_eq. split; [lia|]. intros k Hkn. apply not_true_is_false. intros Hs.
  set (j := (n + (length pat - 1) - k)%nat).
  destruct (lookup_lt_is_Some_2 pat j) as [b Hpb]; [unfold zlen in *; lia|].
  destruct (starts_with_lookup _ _ _ _ _ Hs Hpb) as (a' & Ha' & Hf). rewrite lookup_drop in Ha'.
  replace (k + j)%nat with (n + (length pat - 1))%nat in Ha' by (unfold zlen in *; lia). simplify_eq.
  apply (Hk j b Hpb); [unfold zlen in *; lia|done].
Qed.

Lemma bmh_loop_search sh fuel n :
  shift_good (length pat - 1) sh ->
  (forall k, (k < n)%nat -> starts_with fold pat (drop k t) = false) ->
  slen < Z.of_nat fuel + (Z.of_nat n + zlen pat - 1) -> (0 < fuel)%nat ->
  bmh_loop fold fuel sh p (zlen pat) m slen (Z.of_nat n + zlen pat - 1) = Ok (search fold pat t 0).
Proof.
  intros Hsh. revert n. induction fuel as [|fuel IH]; intros n Hlt Hf Hp; [lia|].
  cbn [bmh_loop]. destruct (Z.ltb_spec (Z.of_nat n + zlen pat - 1) slen) as [Hs|Hs].
  - rewrite to_nat_zlen. unfold zlen at 1 2. rewrite match_back_spec by (unfold zlen in *; lia).
    rewrite firstn_all, Nat2Z.id. cbn [rbind]. destruct (starts_with fold pat (drop n t)) eqn:E.
    { by rewrite (search_first _ _ _ _ n). }
    destruct (rd_text (Z.of_nat n + zlen pat - 1)) as (a & Ha & Hta & Hab); [lia|].
    replace (Z.to_nat (Z.of_nat n + zlen pat - 1)) with (n + (length pat - 1))%nat in Hta by (unfold zlen in *; lia).
    rewrite Ha. cbn [rbind]. destruct (proj2 Hsh (fold a) (fold_byte a Hab)) as (d & Hd & _).
    pose proof (fold_byte a Hab) as Hfa. unfold is_byte in Hfa.
    replace (rd sh (fold a)) with (@Ok Z d) by (symmetry; apply rd_lookup; split; [lia|done]). cbn [rbind].
    destruct (shift_skips sh n a d Hsh Hta Hd Hab) as [Hd1 Hskip].
    replace (Z.of_nat n + zlen pat - 1 + d) with (Z.of_nat (n + Z.to_nat d) + zlen pat - 1) by lia.
    apply IH; [|lia|lia]. intros k Hk. destruct (lt_eq_lt_dec k n) as [[?| ->]|?]; auto with lia.
  - rewrite search_none; [done|]. intros k. destruct (decide (k < n)%nat); [auto|].
    apply not_true_is_false. intros Hst.
    destruct (lookup_lt_is_Some_2 pat (length pat - 1)) as [b Hb]; [unfold zlen in *; lia|].
    destruct (starts_with_lookup _ _ _ _ _ Hst Hb) as (a & Ha & _). rewrite lookup_drop in Ha.
    apply lookup_lt_Some in Ha. rewrite length_take in Ha. unfold zlen in *. lia.
Qed.

Lemma compiled_search fn :
  exists sh, fill_shift fold (Z.to_nat (zlen pat - 1)) p (zlen pat) 0
               (replicate (Z.to_nat NUM_CHARS) (zlen pat)) = Ok sh /\
    bmh_search fold (mk_pattern fn p (zlen pat) (Some sh)) m slen = Ok (search fold pat t 0).
Proof.
  destruct (fill_shift_good (length pat - 1) 0 _ ltac:(unfold zlen in *; lia) shift_good_init) as (sh & Hf & Hsh).
  exists sh. replace (Z.to_nat (zlen pat - 1)) with (length pat - 1)%nat by (unfold zlen; lia).
  split; [done|]. apply (bmh_loop_search sh (S (Z.to_nat slen)) 0 Hsh); [intros; lia|lia|lia].
Qed.
End horspool.

Lemma folding_byte cs c : is_byte c -> is_byte (folding cs c).
Proof.
  intros Hc. destruct cs; [done|]. cbn. unfold apr_tolower, tolower. rewrite u8_byte by done.
  unfold is_byte in *. destruct ((65 <=? c) && (c <=? 90)) eqn:E; bool_to_prop; lia.
Qed.

(** C34: A compiled search is the reference search: for every pattern string and
    text, compiling the pattern and running the chosen function ends, without a
    read outside the text or the table, with the offset of the first occurrence
    of the pattern in the text, letter case ignored when asked, or with NULL when
    the pattern does not occur; the empty pattern is found at once. *)
Theorem strmatch_search s rest cs m slen :
  bytes s -> 0 ∉ s -> bytes m -> 0 <= slen <= zlen m ->
  (do pt <- apr_strmatch_precompile (s ++ 0 :: rest) cs; apr_strmatch pt m slen) =
    Ok (search (folding cs) s (take (Z.to_nat slen) m) 0).
Proof.
  intros Hs H0 Hm Hl. unfold apr_strmatch_precompile.
  rewrite (strlen_ok _ 0 s); [|by exists [], rest; rewrite <- app_assoc|done]. cbn [rbind].
  destruct (Z.eqb_spec (zlen s) 0) as [E|E].
  { destruct s; [|zl]. cbn. by destruct (take (Z.to_nat slen) m). }
  pose proof (zlen_nonneg s).
  destruct (compiled_search (folding cs) s (0 :: rest) m slen (folding_byte cs) Hs Hm ltac:(lia) Hl
    (if cs then Match_boyer_moore_horspool else Match_boyer_moore_horspool_nocase)) as (sh & Hf & Hr).
  destruct cs; cbn [folding] in *; rewrite Hf; exact Hr.
Qed.

Lemma strmatch_search_witness :
  (do pt <- apr_strmatch_precompile (str "Abra" ++ [0]) false; apr_strmatch pt (str "cadABRA") 7) = Ok (Some 3) /\
  (do pt <- apr_strmatch_precompile (str "Abra" ++ [0]) true; apr_strmatch pt (str "cadABRA") 7) = Ok None.
Proof. split; rewrite strmatch_search; conc. Defined.
