(* ===== verification/AprBase64.v ===== *)
(** * Base64: [src/apr-util/encoding/apr_base64.c]

    The source reads and writes caller-supplied buffers; they are objects with
    checked accesses here, and the length functions are the promise of how large
    the buffers must be. The reference encoding [b64] is on lists. The theorems
    relate the two directions to it, within the sizes the length functions give. *)

From S2P Require Import Prelude.

Definition pr2six : list Z :=
  [64; 64; 64; 64; 64; 64; 64; 64; 64; 64; 64; 64; 64; 64; 64; 64;
   64; 64; 64; 64; 64; 64; 64; 64; 64; 64; 64; 64; 64; 64; 64; 64;
   64; 64; 64; 64; 64; 64; 64; 64; 64; 64; 64; 62; 64; 64; 64; 63;
   52; 53; 54; 55; 56; 57; 58; 59; 60; 61; 64; 64; 64; 64; 64; 64;
   64; 0; 1; 2; 3; 4; 5; 6; 7; 8; 9; 10; 11; 12; 13; 14;
   15; 16; 17; 18; 19; 20; 21; 22; 23; 24; 25; 64; 64; 64; 64; 64;
   64; 26; 27; 28; 29; 30; 31; 32; 33; 34; 35; 36; 37; 38; 39; 40;
   41; 42; 43; 44; 45; 46; 47; 48; 49; 50; 51; 64; 64; 64; 64; 64;
   64; 64; 64; 64; 64; 64; 64; 64; 64; 64; 64; 64; 64; 64; 64; 64;
   64; 64; 64; 64; 64; 64; 64; 64; 64; 64; 64; 64; 64; 64; 64; 64;
   64; 64; 64; 64; 64; 64; 64; 64; 64; 64; 64; 64; 64; 64; 64; 64;
   64; 64; 64; 64; 64; 64; 64; 64; 64; 64; 64; 64; 64; 64; 64; 64;
   64; 64; 64; 64; 64; 64; 64; 64; 64; 64; 64; 64; 64; 64; 64; 64;
   64; 64; 64; 64; 64; 64; 64; 64; 64; 64; 64; 64; 64; 64; 64; 64;
   64; 64; 64; 64; 64; 64; 64; 64; 64; 64; 64; 64; 64; 64; 64; 64;
   64; 64; 64; 64; 64; 64; 64; 64; 64; 64; 64; 64; 64; 64; 64; 64].

Definition basis_64 : list Z :=
  str "ABCDEFGHIJKLMNOPQRSTUVWXYZabcdefghijklmnopqrstuvwxyz0123456789+/".

(** ** Decoding *)

(** [while (pr2six[*(bufin++)] <= 63);], the index of the character that ends
    the coded text. *)
Fixpoint coded_end (fuel : nat) (bufcoded : list Z) (bufin : Z) : res Z :=
  match fuel with
  | O => Err OutOfFuel
  | S fuel =>
      do c <- rd bufcoded bufin;
      do x <- rd pr2six c;
      if x <=? 63 then coded_end fuel bufcoded (bufin + 1) else Ok bufin
  end.

Definition scan_coded (bufcoded : list Z) : res Z :=
  coded_end (S (length bufcoded)) bufcoded 0.

(** [(((int)nprbytes + 3) / 4) * 3] *)
Definition decoded_size (nprbytes : Z) : Z := s32 (Z.quot (s32 (s32 nprbytes + 3)) 4 * 3).

Definition apr_base64_decode_len (bufcoded : list Z) : res Z :=
  do nprbytes <- scan_coded bufcoded;
  Ok (s32 (decoded_size nprbytes + 1)).

Definition six (bufcoded : list Z) (i : Z) : res Z := do c <- rd bufcoded i; rd pr2six c.

(** The three assignments that unpack a group; [bufin] is the group's index. *)
Definition group_1 (bufcoded : list Z) (bufin : Z) (buf : list Z) (bufout : Z) : res (list Z * Z) :=
  do x <- six bufcoded bufin; do y <- six bufcoded (bufin + 1);
  emit buf bufout (Z.lor (Z.shiftl x 2) (Z.shiftr y 4)).
Definition group_2 (bufcoded : list Z) (bufin : Z) (buf : list Z) (bufout : Z) : res (list Z * Z) :=
  do x <- six bufcoded (bufin + 1); do y <- six bufcoded (bufin + 2);
  emit buf bufout (Z.lor (Z.shiftl x 4) (Z.shiftr y 2)).
Definition group_3 (bufcoded : list Z) (bufin : Z) (buf : list Z) (bufout : Z) : res (list Z * Z) :=
  do x <- six bufcoded (bufin + 2); do y <- six bufcoded (bufin + 3);
  emit buf bufout (Z.lor (Z.shiftl x 6) y).

(** [while (nprbytes > 4) { ... }] *)
Fixpoint decode_loop (fuel : nat) (bufcoded buf : list Z) (bufin bufout nprbytes : Z)
  : res (list Z * Z * Z * Z) :=
  match fuel with
  | O => Err OutOfFuel
  | S fuel =>
      if 4 <? nprbytes then
        do (buf, bufout) <- group_1 bufcoded bufin buf bufout;
        do (buf, bufout) <- group_2 bufcoded bufin buf bufout;
        do (buf, bufout) <- group_3 bufcoded bufin buf bufout;
        decode_loop fuel bufcoded buf (bufin + 4) bufout (nprbytes - 4)
      else Ok (buf, bufin, bufout, nprbytes)
  end.

(** The last group, one to four characters of it. *)
Definition decode_rest (bufcoded buf : list Z) (bufin bufout nprbytes : Z) : res (list Z) :=
  do (buf, bufout) <-
    (if 1 <? nprbytes then group_1 bufcoded bufin buf bufout else Ok (buf, bufout));
  do (buf, bufout) <-
    (if 2 <? nprbytes then group_2 bufcoded bufin buf bufout else Ok (buf, bufout));
  do (buf, bufout) <-
    (if 3 <? nprbytes then group_3 bufcoded bufin buf bufout else Ok (buf, bufout));
  Ok buf.

Definition apr_base64_decode_binary (bufplain bufcoded : list Z) : res (list Z * Z) :=
  do n <- scan_coded bufcoded;
  let nbytesdecoded := decoded_size n in
  do (buf, bufin, bufout, nprbytes) <- decode_loop (S (length bufcoded)) bufcoded bufplain 0 0 n;
  do buf <- decode_rest bufcoded buf bufin bufout nprbytes;
  Ok (buf, nbytesdecoded - Z.land (4 - s32 nprbytes) 3).

Definition apr_base64_decode (bufplain bufcoded : list Z) : res (list Z * Z) :=
  do (buf, len) <- apr_base64_decode_binary bufplain bufcoded;
  do buf <- wr buf len 0;
  Ok (buf, len).

(** ** Encoding *)

Definition apr_base64_encode_len (len : Z) : Z := s32 (Z.quot (s32 (len + 2)) 3 * 4 + 1).

Definition put_basis (encoded : list Z) (p x : Z) : res (list Z * Z) :=
  do c <- rd basis_64 x; emit encoded p c.

(** The first, second and third six bits, [y] the following byte. *)
Definition six_1 (x : Z) : Z := Z.land (Z.shiftr x 2) 0x3F.
Definition six_2 (x y : Z) : Z := Z.lor (Z.shiftl (Z.land x 0x3) 4) (Z.shiftr (Z.land y 0xF0) 4).
Definition six_3 (x y : Z) : Z := Z.lor (Z.shiftl (Z.land x 0xF) 2) (Z.shiftr (Z.land y 0xC0) 6).

(** [for (i = 0; i < len - 2; i += 3) { ... }] *)
Fixpoint encode_loop (fuel : nat) (string encoded : list Z) (p i len : Z) : res (list Z * Z * Z) :=
  match fuel with
  | O => Err OutOfFuel
  | S fuel =>
      if i <? len - 2 then
        do a <- rd string i;
        do (encoded, p) <- put_basis encoded p (six_1 a);
        do b <- rd string (i + 1);
        do (encoded, p) <- put_basis encoded p (six_2 a b);
        do c <- rd string (i + 2);
        do (encoded, p) <- put_basis encoded p (six_3 b c);
        do (encoded, p) <- put_basis encoded p (Z.land c 0x3F);
        encode_loop fuel string encoded p (i + 3) len
      else Ok (encoded, p, i)
  end.

Definition EQUALS : Z := 61.

(** What follows the loop: the last one or two bytes, padded, and the NUL. *)
Definition encode_rest (string encoded : list Z) (p i len : Z) : res (list Z * Z) :=
  do (encoded, p) <-
    (if i <? len then
       do a <- rd string i;
       do (encoded, p) <- put_basis encoded p (six_1 a);
       do (encoded, p) <-
         (if i =? len - 1 then
            do (encoded, p) <- put_basis encoded p (Z.shiftl (Z.land a 0x3) 4);
            emit encoded p EQUALS
          else
            do b <- rd string (i + 1);
            do (encoded, p) <- put_basis encoded p (six_2 a b);
            put_basis encoded p (Z.shiftl (Z.land b 0xF) 2));
       emit encoded p EQUALS
     else Ok (encoded, p));
  emit encoded p 0.

Definition apr_base64_encode_binary (encoded string : list Z) (len : Z) : res (list Z * Z) :=
  do (encoded, p, i) <- encode_loop (S (Z.to_nat len)) string encoded 0 0 len;
  encode_rest string encoded p i len.

Definition apr_base64_encode (encoded string : list Z) (len : Z) : res (list Z * Z) :=
  apr_base64_encode_binary encoded string len.

(** ** The reference: groups of six bits *)

(** The six-bit values of a byte string, first to last. *)
Fixpoint sixes (s : list Z) : list Z :=
  match s with
  | [] => []
  | [a] => [six_1 a; Z.shiftl (Z.land a 0x3) 4]
  | [a; b] => [six_1 a; six_2 a b; Z.shiftl (Z.land b 0xF) 2]
  | a :: b :: c :: r => six_1 a :: six_2 a b :: six_3 b c :: Z.land c 0x3F :: sixes r
  end.

(** The padding of the last group. *)
Fixpoint padding (s : list Z) : list Z :=
  match s with
  | [] => []
  | [_] => [EQUALS; EQUALS]
  | [_; _] => [EQUALS]
  | _ :: _ :: _ :: r => padding r
  end.

Definition basis (x : Z) : Z := default 0 (basis_64 !! Z.to_nat x).
Definition b64 (s : list Z) : list Z := map basis (sixes s) ++ padding s.

(** The bytes a list of six-bit values stands for. *)
Fixpoint unsix (xs : list Z) : list Z :=
  match xs with
  | x :: y :: z :: w :: r =>
      u8 (Z.lor (Z.shiftl x 2) (Z.shiftr y 4)) :: u8 (Z.lor (Z.shiftl y 4) (Z.shiftr z 2)) ::
      u8 (Z.lor (Z.shiftl z 6) w) :: unsix r
  | [x; y; z] => [u8 (Z.lor (Z.shiftl x 2) (Z.shiftr y 4)); u8 (Z.lor (Z.shiftl y 4) (Z.shiftr z 2))]
  | [x; y] => [u8 (Z.lor (Z.shiftl x 2) (Z.shiftr y 4))]
  | _ => []
  end.

Lemma six_1_fits a : fits 6 (six_1 a).
Proof. unfold six_1. fits_tac. Qed.
Lemma six_2_fits a b : fits 6 (six_2 a b).
Proof. unfold six_2. fits_tac. Qed.
Lemma six_3_fits a b : fits 6 (six_3 a b).
Proof. unfold six_3. fits_tac. Qed.
Lemma six_2_last a : fits 6 (Z.shiftl (Z.land a 0x3) 4).
Proof. fits_tac. Qed.
Lemma six_3_last a : fits 6 (Z.shiftl (Z.land a 0xF) 2).
Proof. fits_tac. Qed.
Lemma six_4_fits a : fits 6 (Z.land a 0x3F).
Proof. fits_tac. Qed.
#[local] Hint Resolve six_1_fits six_2_fits six_3_fits six_2_last six_3_last six_4_fits : core.

Lemma sixes_fits s : Forall (fits 6) (sixes s).
Proof. induction s using list_ind3; cbn [sixes]; repeat (apply Forall_cons; split; [auto|]); auto. Qed.

(** Decoding the six-bit values of a byte string gives it back. *)
Lemma unsix_sixes s : bytes s -> unsix (sixes s) = s.
Proof.
  induction s as [|a|a b|a b c s IH] using list_ind3; intros H; cbn [sixes unsix]; [done|..];
    repeat (apply Forall_cons in H as [? H]); rewrite ?IH by done; repeat f_equal;
    (apply byte_bits_ext; [apply u8_is_byte|done|]); unfold six_1, six_2, six_3; bits8.
Qed.

Lemma basis_ok x : fits 6 x ->
  rd basis_64 x = Ok (basis x) /\ is_byte (basis x) /\ rd pr2six (basis x) = Ok x /\ basis x <> 0.
Proof.
  apply (forall_below (fun x => rd basis_64 x = Ok (basis x) /\ is_byte (basis x) /\
    rd pr2six (basis x) = Ok x /\ basis x <> 0) 64). vm_compute. reflexivity.
Qed.

Lemma put_basis_splice m l x :
  zlen l < zlen m -> fits 6 x ->
  put_basis (splice m 0 l) (zlen l) x = Ok (splice m 0 (l ++ [basis x]), zlen (l ++ [basis x])).
Proof.
  intros Hl Hx. destruct (basis_ok x Hx) as (Hr & Hb & _). unfold put_basis. rewrite Hr. cbn [rbind].
  by apply emit_splice0.
Qed.

Lemma zlen_b64 s : zlen (b64 s) = (zlen s + 2) / 3 * 4.
Proof.
  unfold b64. induction s as [|a|a b|a b c s IH] using list_ind3; try reflexivity.
  cbn [sixes padding map app]. autorewrite with zlen in *.
  replace (1 + (1 + (1 + zlen s)) + 2) with (zlen s + 2 + 1 * 3) by lia.
  rewrite Z.div_add by lia. lia.
Qed.

(** One step of the encoders at the end of what has been written. *)
Ltac encode_step :=
  repeat (first [ rewrite put_basis_splice by (autorewrite with zlen in *; auto; lia)
                | rewrite emit_splice0 by (autorewrite with zlen in *; auto; unfold is_byte, EQUALS; lia) ];
          cbn [rbind]).

Lemma encode_spec s pre l m fuel :
  zlen l + zlen (b64 s) < zlen m -> (length s < fuel)%nat ->
  (do (e, p, i) <- encode_loop fuel (pre ++ s) (splice m 0 l) (zlen l) (zlen pre) (zlen (pre ++ s));
   encode_rest (pre ++ s) e p i (zlen (pre ++ s))) =
    Ok (splice m 0 (l ++ b64 s ++ [0]), zlen (l ++ b64 s ++ [0])).
Proof.
  revert pre l fuel. unfold b64.
  induction s as [|a|a b|a b c s IH] using list_ind3; intros pre l [|fuel] Hm Hf; try (cbn in Hf; lia);
    cbn [encode_loop sixes padding map app] in *; autorewrite with zlen in *;
    pose proof (zlen_nonneg l); pose proof (zlen_nonneg pre).
  1-3: zbool; cbn [rbind]; unfold encode_rest; autorewrite with zlen; zbool; rd_known; cbn [rbind];
       encode_step; rewrite <- ?app_assoc; cbn [app];
       repeat f_equal; zl.
  pose proof (zlen_nonneg s). pose proof (zlen_nonneg (sixes s)). pose proof (zlen_nonneg (padding s)).
  zbool. rd_known. cbn [rbind]. encode_step.
  replace (pre ++ a :: b :: c :: s)%list with ((pre ++ [a; b; c]) ++ s)%list by (by rewrite <- app_assoc).
  replace (zlen pre + 3) with (zlen (pre ++ [a; b; c])) by zl.
  replace (zlen pre + (1 + (1 + (1 + zlen s)))) with (zlen ((pre ++ [a; b; c]) ++ s)) by zl.
  rewrite IH; [|zl|cbn in Hf; lia]. rewrite <- !app_assoc. cbn [app]. repeat f_equal. zl.
Qed.

Lemma encode_len_b64 s : zlen s <= 1610612733 -> apr_base64_encode_len (zlen s) = zlen (b64 s) + 1.
Proof.
  intros Hs. rewrite zlen_b64. unfold apr_base64_encode_len, s32. pose proof (zlen_nonneg s).
  rewrite (Z.mod_small (zlen s + 2 + _)) by lia. rewrite Z.quot_div_nonneg by lia.
  replace (zlen s + 2 + 2 ^ 31 - 2 ^ 31) with (zlen s + 2) by lia.
  rewrite Z.mod_small; Z.to_euclidean_division_equations; lia.
Qed.

Lemma encode_binary_spec s enc :
  zlen s <= 1610612733 -> apr_base64_encode_len (zlen s) <= zlen enc ->
  apr_base64_encode_binary enc s (zlen s) =
    Ok (splice enc 0 (b64 s ++ [0]), apr_base64_encode_len (zlen s)).
Proof.
  intros Hs He. rewrite encode_len_b64 in * by done.
  unfold apr_base64_encode_binary. rewrite to_nat_zlen.
  pose proof (encode_spec s [] [] enc (S (length s))) as H. rewrite splice_nil in H by lia.
  cbn [app] in H. change (zlen (@nil Z)) with 0 in H. rewrite H; [|lia|lia]. do 2 f_equal. zl.
Qed.

(** ** Decoding *)

(** [buf] holds the characters of the values [xs], then one that ends the text. *)
Definition coded (buf xs : list Z) : Prop :=
  exists cs stop rest y, buf = (cs ++ stop :: rest)%list /\
    Forall2 (fun c x => rd pr2six c = Ok x /\ fits 6 x) cs xs /\ rd pr2six stop = Ok y /\ 63 < y.

Lemma six_coded buf xs i : coded buf xs -> 0 <= i < zlen xs -> six buf i = rd xs i.
Proof.
  intros (cs & stop & rest & y & -> & Hf & _) Hi.
  destruct (rd_total xs i Hi) as (x & Hx & Hr).
  destruct (Forall2_lookup_r _ _ _ _ _ Hf Hx) as (c & Hc & Hp & _).
  unfold six. replace (rd (cs ++ stop :: rest) i) with (@Ok Z c); [cbn [rbind]; congruence|].
  symmetry. apply rd_lookup. split; [lia|]. by apply lookup_app_l_Some.
Qed.

Lemma coded_end_spec cs xs stop rest y pre fuel :
  Forall2 (fun c x => rd pr2six c = Ok x /\ fits 6 x) cs xs -> rd pr2six stop = Ok y -> 63 < y ->
  (length cs < fuel)%nat ->
  coded_end fuel (pre ++ cs ++ stop :: rest) (zlen pre) = Ok (zlen pre + zlen cs).
Proof.
  intros Hf Hs Hy. revert pre fuel. induction Hf as [|c x cs xs [Hc Hx] Hf IH]; intros pre [|fuel] Hl;
    cbn [length] in Hl; try lia; cbn [coded_end app]; rewrite rd_app_0, rd_cons_0; cbn [rbind].
  - rewrite Hs. cbn [rbind]. zbool. f_equal. zl.
  - rewrite Hc. cbn [rbind]. unfold fits in Hx. zbool.
    replace (pre ++ c :: cs ++ stop :: rest)%list with ((pre ++ [c]) ++ cs ++ stop :: rest)%list
      by (by rewrite <- app_assoc).
    replace (zlen pre + 1) with (zlen (pre ++ [c])) by zl. rewrite IH by lia. f_equal. zl.
Qed.

Lemma scan_coded_spec buf xs : coded buf xs -> scan_coded buf = Ok (zlen xs).
Proof.
  intros (cs & stop & rest & y & -> & Hf & Hs & Hy). unfold scan_coded.
  pose proof (fun n => coded_end_spec cs xs stop rest y [] n Hf Hs Hy) as H. cbn [app] in H.
  change (zlen (@nil Z)) with 0 in H. rewrite H by (rewrite length_app; cbn; lia).
  f_equal. unfold zlen. rewrite (Forall2_length _ _ _ Hf). lia.
Qed.

(** One of the three assignments of a group, in terms of the values [xs]. *)
Ltac group_spec :=
  intros Hc Hl Hi Hx H1 H2; unfold group_1, group_2, group_3;
  rewrite !(six_coded _ _ _ Hc) by lia; rewrite H1, H2; cbn [rbind]; by apply emit_u8.

Lemma group_1_spec buf m xs l i x y :
  coded buf xs -> zlen l < zlen m -> 0 <= i -> i + 1 < zlen xs -> rd xs i = Ok x -> rd xs (i + 1) = Ok y ->
  group_1 buf i (splice m 0 l) (zlen l) =
    let l' := (l ++ [u8 (Z.lor (Z.shiftl x 2) (Z.shiftr y 4))])%list in Ok (splice m 0 l', zlen l').
Proof. group_spec. Qed.

Lemma group_2_spec buf m xs l i x y :
  coded buf xs -> zlen l < zlen m -> 0 <= i -> i + 2 < zlen xs -> rd xs (i + 1) = Ok x -> rd xs (i + 2) = Ok y ->
  group_2 buf i (splice m 0 l) (zlen l) =
    let l' := (l ++ [u8 (Z.lor (Z.shiftl x 4) (Z.shiftr y 2))])%list in Ok (splice m 0 l', zlen l').
Proof. group_spec. Qed.

Lemma group_3_spec buf m xs l i x y :
  coded buf xs -> zlen l < zlen m -> 0 <= i -> i + 3 < zlen xs -> rd xs (i + 2) = Ok x -> rd xs (i + 3) = Ok y ->
  group_3 buf i (splice m 0 l) (zlen l) =
    let l' := (l ++ [u8 (Z.lor (Z.shiftl x 6) y)])%list in Ok (splice m 0 l', zlen l').
Proof. group_spec. Qed.

Ltac group_step :=
  repeat (first [ erewrite group_1_spec; [|eassumption|zl|zl|zl|rd_known; reflexivity|rd_known; reflexivity]
                | erewrite group_2_spec; [|eassumption|zl|zl|zl|rd_known; reflexivity|rd_known; reflexivity]
                | erewrite group_3_spec; [|eassumption|zl|zl|zl|rd_known; reflexivity|rd_known; reflexivity] ];
          cbv zeta; cbn [rbind]).

Lemma decode_loop_spec buf m xr pre l fuel :
  coded buf (pre ++ xr) -> zlen l + zlen (unsix xr) <= zlen m -> (length xr < fuel)%nat ->
  exists l' pre' xr' k,
    decode_loop fuel buf (splice m 0 l) (zlen pre) (zlen l) (zlen xr) =
      Ok (splice m 0 l', zlen pre', zlen l', zlen xr') /\
    (pre ++ xr = pre' ++ xr')%list /\ (l ++ unsix xr = l' ++ unsix xr')%list /\
    zlen xr' <= 4 /\ zlen xr = 4 * k + zlen xr' /\ (0 < k -> 0 < zlen xr') /\ 0 <= k.
Proof.
  revert pre l fuel. induction xr as [|a|a b|a b c|a b c d r IH] using list_ind4; intros pre l [|fuel] Hc Hm Hf;
    cbn [length] in Hf; try lia; cbn [decode_loop].
  1-4: eexists l, pre, _, 0; zbool; split; [reflexivity|]; repeat split; zl.
  destruct r as [|e r].
  { exists l, pre, [a; b; c; d], 0. zbool. split; [reflexivity|]. repeat split; zl. }
  assert (Hu : zlen (unsix (a :: b :: c :: d :: e :: r)) = 3 + zlen (unsix (e :: r))).
  { change (unsix (a :: b :: c :: d :: e :: r)) with
      ([u8 (Z.lor (Z.shiftl a 2) (Z.shiftr b 4)); u8 (Z.lor (Z.shiftl b 4) (Z.shiftr c 2));
        u8 (Z.lor (Z.shiftl c 6) d)] ++ unsix (e :: r))%list. generalize (unsix (e :: r)). intros. zl. }
  pose proof (zlen_nonneg (unsix (e :: r))).
  replace (4 <? zlen (a :: b :: c :: d :: e :: r)) with true by (symmetry; apply Z.ltb_lt; zl).
  group_step.
  set (l1 := (((l ++ _) ++ _) ++ _)%list).
  replace (zlen (a :: b :: c :: d :: e :: r) - 4) with (zlen (e :: r)) by zl.
  replace (zlen pre + 4) with (zlen (pre ++ [a; b; c; d])) by zl.
  destruct (IH (pre ++ [a; b; c; d])%list l1 fuel) as (l' & pre' & xr' & k & He & H1 & H2 & H3 & H4 & H5 & H6).
  - by rewrite <- app_assoc.
  - subst l1. rewrite Hu in Hm. rewrite !zlen_app. change (zlen [_]) with 1. lia.
  - cbn [length] in *. lia.
  - exists l', pre', xr', (k + 1). rewrite He. rewrite <- app_assoc in H1.
    split; [done|]. split; [done|]. split; [|repeat split; zl].
    rewrite <- H2. subst l1. by rewrite <- !app_assoc.
Qed.

Lemma unsix_len xs : zlen (unsix xs) <= zlen xs.
Proof. induction xs using list_ind4; cbn [unsix]; zl. Qed.

Lemma land3 n : 0 < n <= 4 -> Z.land (4 - n) 3 = 4 - n.
Proof. intros. assert (n = 1 \/ n = 2 \/ n = 3 \/ n = 4) as [->|[->|[->| ->]]] by lia; reflexivity. Qed.

Lemma zlen_unsix xs : zlen (unsix xs) = if zlen xs =? 0 then 0 else (zlen xs + 3) / 4 * 3 - (4 - ((zlen xs - 1) mod 4 + 1)).
Proof.
  induction xs as [|a|a b|a b c|a b c d r IH] using list_ind4; try reflexivity.
  cbn [unsix]. pose proof (zlen_nonneg r). autorewrite with zlen in *. zbool. rewrite IH.
  destruct (Z.eqb_spec (zlen r) 0) as [->|]; [reflexivity|]. Z.to_euclidean_division_equations. lia.
Qed.

Lemma decoded_size_small n : 0 <= n <= 2 ^ 31 - 4 -> decoded_size n = (n + 3) / 4 * 3.
Proof.
  intros Hn. unfold decoded_size, s32. rewrite (Z.mod_small (n + _)) by lia.
  rewrite (Z.mod_small (n + 2 ^ 31 - 2 ^ 31 + 3 + _)) by lia. rewrite Z.quot_div_nonneg by lia.
  replace (n + 2 ^ 31 - 2 ^ 31 + 3 + 2 ^ 31 - 2 ^ 31) with (n + 3) by lia.
  rewrite Z.mod_small; Z.to_euclidean_division_equations; lia.
Qed.

Lemma decode_rest_spec buf m pre xr l :
  coded buf (pre ++ xr) -> zlen l + zlen (unsix xr) <= zlen m -> zlen xr <= 4 ->
  decode_rest buf (splice m 0 l) (zlen pre) (zlen l) (zlen xr) = Ok (splice m 0 (l ++ unsix xr)).
Proof.
  intros Hc Hm H4. unfold decode_rest.
  destruct xr as [|a [|b [|c [|d [|e r]]]]]; try zl; cbn [unsix] in *; autorewrite with zlen in *; zbool; group_step;
    rewrite <- ?app_assoc, ?app_nil_r; done.
Qed.

Lemma decode_count xs k r :
  zlen xs = 4 * k + r -> 0 <= r <= 4 -> (0 < k -> 0 < r) -> 0 <= k ->
  (zlen xs + 3) / 4 * 3 - Z.land (4 - s32 r) 3 = zlen (unsix xs).
Proof.
  intros Hx Hr Hk Hk0. rewrite zlen_unsix. unfold s32. rewrite Z.mod_small by lia.
  replace (4 - (r + 2 ^ 31 - 2 ^ 31)) with (4 - r) by lia.
  destruct (Z.eqb_spec (zlen xs) 0) as [E|E].
  - assert (k = 0 /\ r = 0) as [-> ->] by lia. rewrite E. reflexivity.
  - rewrite land3 by lia. Z.to_euclidean_division_equations. lia.
Qed.

Lemma decode_binary_spec buf xs m :
  coded buf xs -> zlen xs <= 2 ^ 31 - 4 -> zlen (unsix xs) <= zlen m ->
  apr_base64_decode_binary m buf = Ok (splice m 0 (unsix xs), zlen (unsix xs)).
Proof.
  intros Hc Hx Hm. unfold apr_base64_decode_binary. rewrite (scan_coded_spec _ _ Hc). cbn [rbind].
  pose proof (zlen_nonneg xs). rewrite decoded_size_small by lia.
  assert (Hlen : (length xs < S (length buf))%nat).
  { destruct Hc as (cs & stop & rest & y & -> & Hf & _). rewrite length_app, (Forall2_length _ _ _ Hf). lia. }
  destruct (decode_loop_spec buf m xs [] [] _ Hc Hm Hlen) as (l & pre & xr & k & He & H1 & H2 & H3 & H4 & H5 & H6).
  rewrite splice_nil in He by lia. change (zlen (@nil Z)) with 0 in He. rewrite He. cbn [rbind app] in *.
  rewrite (decode_rest_spec buf m pre xr l); [|by rewrite <- H1|rewrite <- zlen_app, <- H2; done|done].
  cbn [rbind]. rewrite (decode_count xs k) by (done || zl). by rewrite H2.
Qed.

(** The allocation the length function asks for, for any coded text. *)
Lemma decode_len_spec buf xs :
  coded buf xs -> zlen xs <= 2 ^ 31 - 4 ->
  apr_base64_decode_len buf = Ok ((zlen xs + 3) / 4 * 3 + 1) /\
  zlen (unsix xs) < (zlen xs + 3) / 4 * 3 + 1 <= zlen (unsix xs) + 4.
Proof.
  intros Hc Hx. unfold apr_base64_decode_len. rewrite (scan_coded_spec _ _ Hc). cbn [rbind].
  pose proof (zlen_nonneg xs). rewrite decoded_size_small by lia. rewrite zlen_unsix.
  assert (0 <= (zlen xs + 3) / 4 * 3 < 2 ^ 31 - 1) by (Z.to_euclidean_division_equations; lia).
  unfold s32. rewrite Z.mod_small by lia. split; [f_equal; lia|].
  destruct (Z.eqb_spec (zlen xs) 0) as [->|]; [change ((0 + 3) / 4 * 3 + 1) with 1; lia|]. Z.to_euclidean_division_equations. lia.
Qed.

Lemma decode_spec buf xs m n :
  coded buf xs -> zlen xs <= 2 ^ 31 - 4 -> apr_base64_decode_len buf = Ok n -> n <= zlen m ->
  apr_base64_decode m buf = Ok (splice m 0 (unsix xs ++ [0]), zlen (unsix xs)).
Proof.
  intros Hc Hx Hn Hm. destruct (decode_len_spec buf xs Hc Hx) as [Hl Hb].
  rewrite Hl in Hn. injection Hn as Hn. rewrite Hn in Hb. clear Hn Hl.
  unfold apr_base64_decode. rewrite (decode_binary_spec buf xs) by (done || lia). cbn [rbind].
  pose proof (zlen_nonneg (unsix xs)).
  rewrite wr_blit by (rewrite zlen_splice; lia). cbn [rbind].
  rewrite (splice_splice m 0 (unsix xs)) by (autorewrite with zlen; lia). done.
Qed.

Lemma padding_stop s rest : exists stop r y, (padding s ++ 0 :: rest)%list = stop :: r /\ rd pr2six stop = Ok y /\ 63 < y.
Proof.
  induction s as [|a|a b|a b c s IH] using list_ind3; cbn [padding app]; eauto;
    eexists _, _, 64; repeat split; reflexivity.
Qed.

(** What the encoder writes is coded text of the same values. *)
Lemma b64_coded s rest : coded ((b64 s ++ [0]) ++ rest) (sixes s).
Proof.
  destruct (padding_stop s rest) as (stop & r & y & He & Hy). exists (map basis (sixes s)), stop, r, y.
  split; [unfold b64; rewrite <- !app_assoc; cbn [app]; by rewrite He|]. split; [|done].
  pose proof (sixes_fits s) as Hf. induction Hf as [|x xs Hx Hf IH]; cbn [map]; constructor; [|done].
  by split; [apply basis_ok|].
Qed.

Lemma zlen_sixes s : zlen (sixes s) <= zlen (b64 s).
Proof. unfold b64. zl. Qed.

(** ** RFC 4648

    Three bytes are a number of 24 bits, written as four digits of the base-64
    alphabet; the last group is filled up with zero bits, and digits that hold
    none of the bytes are padding. *)
Definition rfc_char (v : Z) : Z :=
  if v <? 26 then 65 + v            (* A-Z *)
  else if v <? 52 then 97 + (v - 26) (* a-z *)
  else if v <? 62 then 48 + (v - 52) (* 0-9 *)
  else if v =? 62 then 43 else 47.   (* + and / *)

Definition digit_of (n k : Z) : Z := rfc_char (n / 64 ^ k mod 64).

Fixpoint rfc4648 (s : list Z) : list Z :=
  match s with
  | [] => []
  | [a] => let n := a * 2 ^ 16 in [digit_of n 3; digit_of n 2; 61; 61]
  | [a; b] => let n := a * 2 ^ 16 + b * 2 ^ 8 in [digit_of n 3; digit_of n 2; digit_of n 1; 61]
  | a :: b :: c :: r =>
      let n := a * 2 ^ 16 + b * 2 ^ 8 + c in digit_of n 3 :: digit_of n 2 :: digit_of n 1 :: digit_of n 0 :: rfc4648 r
  end.

Lemma basis_rfc x : fits 6 x -> basis x = rfc_char x.
Proof. apply (forall_below (fun x => basis x = rfc_char x) 64). vm_compute. reflexivity. Qed.

(** The six bits by arithmetic: each is checked on all bytes. *)
Lemma six_1_div a : is_byte a -> six_1 a = a / 4.
Proof. apply (forall_below (fun a => six_1 a = a / 4) 256). vm_compute. reflexivity. Qed.

Lemma low_two a : is_byte a -> Z.shiftl (Z.land a 0x3) 4 = a mod 4 * 16.
Proof. apply (forall_below (fun a => Z.shiftl (Z.land a 0x3) 4 = a mod 4 * 16) 256). vm_compute. reflexivity. Qed.

Lemma low_four b : is_byte b -> Z.shiftl (Z.land b 0xF) 2 = b mod 16 * 4.
Proof. apply (forall_below (fun b => Z.shiftl (Z.land b 0xF) 2 = b mod 16 * 4) 256). vm_compute. reflexivity. Qed.

Lemma six_2_div a b : is_byte a -> is_byte b -> six_2 a b = a mod 4 * 16 + b / 16.
Proof.
  intros Ha Hb. unfold six_2. rewrite low_two by done.
  assert (Hl : Z.shiftr (Z.land b 0xF0) 4 = b / 16)
    by (revert b Hb; apply (forall_below (fun b => Z.shiftr (Z.land b 0xF0) 4 = b / 16) 256); vm_compute; reflexivity).
  rewrite Hl. assert (H4 : 0 <= a mod 4 < Z.of_nat 4) by (apply Z.mod_pos_bound; lia).
  assert (H16 : 0 <= b / 16 < Z.of_nat 16) by (unfold is_byte in Hb; Z.to_euclidean_division_equations; lia).
  revert H4 H16. generalize (a mod 4), (b / 16). intros x y Hx. revert x Hx y.
  assert (H : forall x, 0 <= x < Z.of_nat 4 -> Forall (fun y => Z.lor (x * 16) y = x * 16 + y) (map Z.of_nat (seq 0 16)))
    by (apply (forall_below (fun x => Forall (fun y => Z.lor (x * 16) y = x * 16 + y) (map Z.of_nat (seq 0 16))) 4); vm_compute; reflexivity).
  intros x Hx y Hy. specialize (H x Hx). rewrite Forall_forall in H. apply H, list_elem_of_fmap.
  exists (Z.to_nat y). split; [lia|]. apply list_elem_of_In, in_seq. lia.
Qed.

Lemma six_3_div b c : is_byte b -> is_byte c -> six_3 b c = b mod 16 * 4 + c / 64.
Proof.
  intros Hb Hc. unfold six_3. rewrite low_four by done.
  assert (Hl : Z.shiftr (Z.land c 0xC0) 6 = c / 64)
    by (revert c Hc; apply (forall_below (fun b => Z.shiftr (Z.land b 0xC0) 6 = b / 64) 256); vm_compute; reflexivity).
  rewrite Hl. assert (H4 : 0 <= b mod 16 < Z.of_nat 16) by (apply Z.mod_pos_bound; lia).
  assert (H16 : 0 <= c / 64 < Z.of_nat 4) by (unfold is_byte in Hc; Z.to_euclidean_division_equations; lia).
  revert H4 H16. generalize (b mod 16), (c / 64). intros x y Hx. revert x Hx y.
  assert (H : forall x, 0 <= x < Z.of_nat 16 -> Forall (fun y => Z.lor (x * 4) y = x * 4 + y) (map Z.of_nat (seq 0 4)))
    by (apply (forall_below (fun x => Forall (fun y => Z.lor (x * 4) y = x * 4 + y) (map Z.of_nat (seq 0 4))) 16); vm_compute; reflexivity).
  intros x Hx y Hy. specialize (H x Hx). rewrite Forall_forall in H. apply H, list_elem_of_fmap.
  exists (Z.to_nat y). split; [lia|]. apply list_elem_of_In, in_seq. lia.
Qed.

Lemma six_4_mod c : Z.land c 0x3F = c mod 64.
Proof. change 0x3F with (Z.ones 6). by rewrite Z.land_ones by lia. Qed.

Lemma last_six a b c : (a * 65536 + b * 256 + c) / 1 mod 64 = c mod 64.
Proof. rewrite Z.div_1_r. replace (a * 65536 + b * 256 + c) with (c + (a * 1024 + b * 4) * 64) by lia. apply Z.mod_add. lia. Qed.

(** The text the encoder writes is that of RFC 4648. *)
Lemma b64_rfc s : bytes s -> b64 s = rfc4648 s.
Proof.
  unfold b64. induction s as [|a|a b|a b c s IH] using list_ind3; intros H; [done|..];
    repeat (apply Forall_cons in H as [? H]); unfold is_byte in *;
    cbn [sixes padding map app rfc4648]; rewrite ?IH by done; cbv zeta; unfold digit_of;
    rewrite !basis_rfc by auto; rewrite ?six_1_div, ?six_2_div, ?six_3_div, ?six_4_mod, ?low_two, ?low_four by (unfold is_byte; lia);
    change (64 ^ 3) with 262144; change (64 ^ 2) with 4096; change (64 ^ 1) with 64; change (64 ^ 0) with 1;
    change (2 ^ 16) with 65536; change (2 ^ 8) with 256; unfold EQUALS; rewrite ?last_six; repeat f_equal; Z.to_euclidean_division_equations; lia.
Qed.

(** C35: Base64. Encoding a byte string into a buffer of the size
    [apr_base64_encode_len] gives writes, inside the buffer, the text of RFC 4648
    for the string and a NUL, and nothing else, and returns that size;
    [apr_base64_decode_len] of the result is more than the string's length by at
    most four, and decoding into a buffer of that size gives the string and its
    length back, NUL-terminated. *)
Theorem base64_roundtrip s enc :
  bytes s -> zlen s <= 1610612733 -> apr_base64_encode_len (zlen s) <= zlen enc ->
  exists n,
    apr_base64_encode enc s (zlen s) = Ok (splice enc 0 (rfc4648 s ++ [0]), apr_base64_encode_len (zlen s)) /\
    apr_base64_encode_len (zlen s) = zlen (rfc4648 s) + 1 /\
    apr_base64_decode_len (splice enc 0 (rfc4648 s ++ [0])) = Ok n /\ zlen s < n <= zlen s + 4 /\
    forall plain, n <= zlen plain ->
      apr_base64_decode plain (splice enc 0 (rfc4648 s ++ [0])) = Ok (splice plain 0 (s ++ [0]), zlen s).
Proof.
  intros Hb Hs He. rewrite <- b64_rfc by done. pose proof (encode_len_b64 s Hs) as Hel. pose proof (zlen_nonneg (b64 s)).
  assert (Hc : coded (splice enc 0 (b64 s ++ [0])) (sixes s)).
  { unfold splice. change (Z.to_nat 0) with O. rewrite take_0. apply b64_coded. }
  assert (Hz : zlen (sixes s) <= 2 ^ 31 - 4).
  { pose proof (zlen_sixes s). rewrite zlen_b64 in *. Z.to_euclidean_division_equations. lia. }
  destruct (decode_len_spec _ _ Hc Hz) as [Hd Hr]. rewrite unsix_sixes in Hr by done.
  eexists. split; [by apply encode_binary_spec|]. split; [done|].
  split; [done|]. split; [done|]. intros plain Hp.
  rewrite (decode_spec _ (sixes s) _ _ Hc Hz Hd Hp). by rewrite unsix_sixes.
Qed.

Lemma base64_roundtrip_witness :
  exists n, apr_base64_encode (replicate 17 7) (str "foobar+/~z") 10 = Ok ((str "Zm9vYmFyKy9+eg==" ++ [0])%list, 17) /\
    apr_base64_decode_len (str "Zm9vYmFyKy9+eg==" ++ [0])%list = Ok n /\ 10 < n <= 14.
Proof.
  destruct (base64_roundtrip (str "foobar+/~z") (replicate 17 7)) as (n & He & _ & Hd & Hn & _); [conc|conc|conc|].
  exists n. done.
Defined.

Definition six_value (c : Z) : Z := default 64 (pr2six !! Z.to_nat c).

Lemma pr2six_total c : is_byte c -> exists x, rd pr2six c = Ok x /\ 0 <= x <= 64.
Proof.
  intros Hc. exists (six_value c). revert c Hc.
  apply (forall_below (fun c => rd pr2six c = Ok (six_value c) /\ 0 <= six_value c <= 64) 256).
  vm_compute. reflexivity.
Qed.

Lemma coded_any s rest : bytes s -> exists xs, coded (s ++ 0 :: rest) xs /\ zlen xs <= zlen s.
Proof.
  induction s as [|c s IH]; intros Hb.
  { exists []. split; [|done]. exists [], 0, rest, 64. by repeat split. }
  apply Forall_cons in Hb as [Hc Hb]. destruct (pr2six_total c Hc) as (x & Hx & Hr).
  destruct (Z.le_gt_cases x 63) as [Hle|Hgt].
  - destruct (IH Hb) as (xs & (cs & stop & r & y & He & Hf & Hy) & Hl). exists (x :: xs). split; [|zl].
    exists (c :: cs), stop, r, y. cbn [app]. rewrite He. split; [done|]. split; [|done].
    constructor; [|done]. split; [done|]. unfold fits. lia.
  - exists []. split; [|zl]. exists [], c, (s ++ 0 :: rest)%list, x. repeat split; [constructor|done|lia].
Qed.

(** Decoding any string is safe. For every object that holds a NUL,
    [apr_base64_decode_len] stops at the first character outside the alphabet, and
    decoding into a buffer of the size it returns ends, with every write inside
    the buffer and the result terminated; the length returned is below that size. *)
Theorem base64_decode_safe s rest :
  bytes s -> zlen s <= 2 ^ 31 - 4 ->
  exists n out, apr_base64_decode_len (s ++ 0 :: rest) = Ok n /\ zlen out < n /\
    forall plain, n <= zlen plain ->
      apr_base64_decode plain (s ++ 0 :: rest) = Ok (splice plain 0 (out ++ [0]), zlen out).
Proof.
  intros Hb Hl. destruct (coded_any s rest Hb) as (xs & Hc & Hx).
  destruct (decode_len_spec _ _ Hc ltac:(lia)) as [Hn Hr]. eexists _, (unsix xs).
  split; [done|]. split; [lia|]. intros plain Hp. by apply (decode_spec _ _ _ _ Hc ltac:(lia) Hn).
Qed.

Lemma base64_decode_safe_witness :
  exists n (out : list Z), apr_base64_decode_len (str "QUJD!!" ++ 0 :: []) = Ok n /\ zlen out < n.
Proof.
  destruct (base64_decode_safe (str "QUJD!!") []) as (n & out & H1 & H2 & _); [conc|conc|].
  exists n, out. done.
Defined.
