(* ===== verification/AprCpystrn.v ===== *)
(** * Copying and splitting strings: [src/apr/strings/apr_cpystrn.c]

    [apr_cpystrn], [apr_tokenize_to_argv] with its macros, [apr_filepath_name_get]
    (as built for Windows) and [apr_collapse_spaces]. Strings are objects with an
    offset. The tokenizer runs over its argument twice, once to count and once to
    copy; the theorem is that the copies are the arguments of a one-pass reference
    parser and that both passes stay inside the string and the allocations. *)

From S2P Require Import Prelude.

(** ** [apr_cpystrn] *)

(** The copying loop with [n] turns to [end], and the store after it. *)
Fixpoint cpystrn_loop (n : nat) (dst : list Z) (d : Z) (src : list Z) (s : Z) : res (list Z * Z) :=
  match n with
  | O => do dst <- wr dst d 0; Ok (dst, d)
  | S n =>
      do c <- rd src s;
      do dst <- wr dst d c;
      if c =? 0 then Ok (dst, d) else cpystrn_loop n dst (d + 1) src (s + 1)
  end.

(** The destination and the returned pointer; [src] is NULL or an object and an
    offset into it. *)
Definition apr_cpystrn (dst : list Z) (d : Z) (src : option (list Z * Z)) (dst_size : Z)
  : res (list Z * Z) :=
  if dst_size =? 0 then Ok (dst, d)
  else match src with
       | Some (src, s) => cpystrn_loop (Z.to_nat (dst_size - 1)) dst d src s
       | None => do dst <- wr dst d 0; Ok (dst, d)
       end.

(** ** [apr_tokenize_to_argv] *)

Definition TAB : Z := 9.
Definition SPACE : Z := 32.
Definition QUOTE : Z := 34.
Definition APOS : Z := 39.
Definition BACKSLASH : Z := 92.

Definition is_blank (c : Z) : bool := (c =? SPACE) || (c =? TAB).

Fixpoint SKIP_WHITESPACE (fuel : nat) (s : list Z) (cp : Z) : res Z :=
  match fuel with
  | O => Err OutOfFuel
  | S fuel =>
      do c <- rd s cp;
      if is_blank c then SKIP_WHITESPACE fuel s (cp + 1) else Ok cp
  end.

(** [isquoted] and the pointer past the quote. *)
Definition CHECK_QUOTATION (s : list Z) (cp : Z) : res (Z * Z) :=
  do c <- rd s cp;
  if c =? QUOTE then Ok (1, cp + 1)
  else if c =? APOS then Ok (2, cp + 1)
  else Ok (0, cp).

Definition is_escapable (c : Z) : bool := (c =? SPACE) || (c =? TAB) || (c =? QUOTE) || (c =? APOS).

Definition ends_token (isquoted c : Z) : bool :=
  ((isquoted =? 0) && is_blank c) || ((isquoted =? 1) && (c =? QUOTE)) || ((isquoted =? 2) && (c =? APOS)).

Fixpoint DETERMINE_NEXTSTRING (fuel : nat) (s : list Z) (cp isquoted : Z) : res Z :=
  match fuel with
  | O => Err OutOfFuel
  | S fuel =>
      do c <- rd s cp;
      if c =? 0 then Ok cp
      else
        do esc <- (if c =? BACKSLASH then do c1 <- rd s (cp + 1); Ok (is_escapable c1) else Ok false);
        if esc then DETERMINE_NEXTSTRING fuel s (cp + 1 + 1) isquoted
        else if ends_token isquoted c then Ok cp
        else DETERMINE_NEXTSTRING fuel s (cp + 1) isquoted
  end.

(** The compression in place: [cleaned] follows [dirty] in one object. *)
Fixpoint REMOVE_ESCAPE_CHARS (fuel : nat) (m : list Z) (cleaned dirty : Z) (escaped : bool) : res (list Z) :=
  match fuel with
  | O => Err OutOfFuel
  | S fuel =>
      do c <- rd m dirty;
      if c =? 0 then wr m cleaned 0
      else if negb escaped && (c =? BACKSLASH) then
        REMOVE_ESCAPE_CHARS fuel m cleaned (dirty + 1) true
      else
        do m <- wr m cleaned c;
        REMOVE_ESCAPE_CHARS fuel m (cleaned + 1) (dirty + 1) false
  end.

(** The counting pass: [numargs], from [ct] on. *)
Fixpoint count_args (fuel : nat) (s : list Z) (ct numargs : Z) : res Z :=
  match fuel with
  | O => Err OutOfFuel
  | S fuel =>
      do c <- rd s ct;
      if c =? 0 then Ok numargs
      else
        do (isquoted, ct) <- CHECK_QUOTATION s ct;
        do ct <- DETERMINE_NEXTSTRING (S (length s)) s ct isquoted;
        do c <- rd s ct;
        let ct := if c =? 0 then ct else ct + 1 in
        do ct <- SKIP_WHITESPACE (S (length s)) s ct;
        count_args fuel s ct (numargs + 1)
  end.

(** The copying pass: [n] arguments from [cp] on; each is a fresh block, of the
    contents [mem] before it is written. *)
Fixpoint copy_args (mem : Z -> list Z) (n : nat) (s : list Z) (cp : Z) : res (list (list Z)) :=
  match n with
  | O => Ok []
  | S n =>
      do cp <- SKIP_WHITESPACE (S (length s)) s cp;
      do (isquoted, cp) <- CHECK_QUOTATION s cp;
      let ct := cp in
      do cp <- DETERMINE_NEXTSTRING (S (length s)) s cp isquoted;
      let cp := cp + 1 in
      do (arg, _) <- apr_cpystrn (mem (cp - ct)) 0 (Some (s, ct)) (cp - ct);
      do arg <- REMOVE_ESCAPE_CHARS (S (length arg)) arg 0 0 false;
      do args <- copy_args mem n s cp;
      Ok (arg :: args)
  end.

(** The blocks of [argv_out] before its NULL. *)
Definition apr_tokenize_to_argv (mem : Z -> list Z) (arg_str : list Z) : res (list (list Z)) :=
  do cp <- SKIP_WHITESPACE (S (length arg_str)) arg_str 0;
  do numargs <- count_args (S (length arg_str)) arg_str cp 1;
  copy_args mem (Z.to_nat (numargs - 1)) arg_str cp.

(** ** Paths and spaces *)

(** [strrchr]: the offset of the last occurrence in the string from [i] on. *)
Fixpoint last_index (c : Z) (s : list Z) (i : Z) : option Z :=
  match s with
  | [] => None
  | x :: s => match last_index c s (i + 1) with
              | Some j => Some j
              | None => if x =? c then Some i else None
              end
  end.

Definition ptr_gt (a b : option Z) : bool :=
  match a, b with
  | Some a, Some b => b <? a
  | Some _, None => true
  | None, _ => false
  end.

(** The offset of the result in the string [pathname]; NULL is below every pointer. *)
Definition apr_filepath_name_get (pathname : list Z) : Z :=
  let s := last_index 47 pathname 0 in
  let s2 := last_index 92 pathname 0 in
  let s := if ptr_gt s2 s then s2 else s in
  let s := match s with None => last_index 58 pathname 0 | Some _ => s end in
  match s with Some i => i + 1 | None => 0 end.

(** [dest] and [src] are two objects, or one when [src] is None (in place). *)
Fixpoint collapse_loop (fuel : nat) (m : list Z) (src : option (list Z)) (d s : Z) : res (list Z * Z) :=
  match fuel with
  | O => Err OutOfFuel
  | S fuel =>
      do c <- rd (default m src) s;
      if c =? 0 then do m <- wr m d 0; Ok (m, d)
      else if negb (is_space c) then
        do m <- wr m d c;
        collapse_loop fuel m src (d + 1) (s + 1)
      else collapse_loop fuel m src d (s + 1)
  end.

Definition apr_collapse_spaces (dest : list Z) (src : option (list Z)) : res (list Z * Z) :=
  collapse_loop (S (length (default dest src))) dest src 0 0.

(** ** Reference definitions *)

Fixpoint skip_blank (s : list Z) : list Z :=
  match s with
  | c :: s' => if is_blank c then skip_blank s' else s
  | [] => []
  end.

(** The characters of a token, escapes included, and what follows. *)
Fixpoint token (q : Z) (s : list Z) : list Z * list Z :=
  match s with
  | [] => ([], [])
  | c :: s' =>
      match s' with
      | e :: s'' =>
          if (c =? BACKSLASH) && is_escapable e then
            let '(t, r) := token q s'' in (c :: e :: t, r)
          else if ends_token q c then ([], s)
          else let '(t, r) := token q s' in (c :: t, r)
      | [] => if ends_token q c then ([], s) else ([c], [])
      end
  end.

Fixpoint unescape (escaped : bool) (s : list Z) : list Z :=
  match s with
  | [] => []
  | c :: s =>
      if negb escaped && (c =? BACKSLASH) then unescape true s
      else c :: unescape false s
  end.

Definition opening (s : list Z) : Z * list Z :=
  match s with
  | c :: s' => if c =? QUOTE then (1, s') else if c =? APOS then (2, s') else (0, s)
  | [] => (0, [])
  end.

(** The arguments of a string that starts at no blank. *)
Fixpoint argv (fuel : nat) (s : list Z) : list (list Z) :=
  match fuel, s with
  | S fuel, _ :: _ =>
      let '(q, s) := opening s in
      let '(t, r) := token q s in
      unescape false t :: argv fuel (skip_blank (tl r))
  | _, _ => []
  end.

Definition arguments (s : list Z) : list (list Z) := argv (length s) (skip_blank s).

(** ** Proofs: copying *)

Lemma cpystrn_loop_spec t : forall n dst src s l,
  points src s t -> zlen l + Z.min (Z.of_nat n) (zlen t) < zlen dst -> bytes t ->
  cpystrn_loop n (splice dst 0 l) (zlen l) src s =
    Ok (splice dst 0 (l ++ take n t ++ [0]), zlen l + Z.min (Z.of_nat n) (zlen t)).
Proof.
  induction t as [|c t IH]; intros n dst src s l Hp Hb Ht; pose proof (zlen_nonneg l).
  - destruct n as [|n]; cbn [cpystrn_loop]; rewrite ?(points_rd _ _ _ Hp); cbn [rbind hd];
      rewrite wr_splice0 by (autorewrite with zlen in *; lia); cbn [rbind Z.eqb]; do 2 f_equal; zl.
  - pose proof (points_nz _ _ _ _ Hp) as Hc. pose proof (zlen_nonneg t). autorewrite with zlen in Hb.
    apply Forall_cons in Ht as [Hcb Ht]. destruct n as [|n]; cbn [cpystrn_loop take].
    { rewrite wr_splice0 by lia. cbn [rbind]. do 2 f_equal. zl. }
    rewrite (points_rd _ _ _ Hp). cbn [rbind hd]. rewrite wr_splice0 by lia. cbn [rbind]. zbool.
    rewrite u8_byte by done. replace (zlen l + 1) with (zlen (l ++ [c])) by zl.
    rewrite IH; [|by eapply points_next|zl|done]. rewrite <- app_assoc. cbn [app]. do 2 f_equal. zl.
Qed.

Lemma cpystrn_spec dst src s t n :
  points src s t -> bytes t -> 0 < n -> Z.min n (zlen t + 1) <= zlen dst ->
  apr_cpystrn dst 0 (Some (src, s)) n =
    Ok (splice dst 0 (take (Z.to_nat (n - 1)) t ++ [0]), Z.min (n - 1) (zlen t)).
Proof.
  intros Hp Ht Hn Hl. unfold apr_cpystrn. zbool.
  rewrite <- (splice_nil dst 0) at 1 by lia. rewrite (cpystrn_loop_spec t _ _ _ _ []);
    [|done|change (zlen (@nil Z)) with 0; lia|done].
  change (zlen (@nil Z)) with 0.
  do 2 f_equal. lia.
Qed.

(** ** Proofs: the tokenizer *)

Lemma skip_spec s : forall fuel m p,
  points m p s -> (length s < fuel)%nat ->
  exists p', SKIP_WHITESPACE fuel m p = Ok p' /\ points m p' (skip_blank s).
Proof.
  induction s as [|c s IH]; intros [|fuel] m p Hp Hf; cbn [length] in Hf; try lia; cbn [SKIP_WHITESPACE skip_blank];
    rewrite (points_rd _ _ _ Hp); cbn [rbind hd]; [eauto|].
  destruct (is_blank c); [|eauto]. apply IH; [by eapply points_next|lia].
Qed.

Lemma token_cons q c e s :
  token q (c :: e :: s) =
    if (c =? BACKSLASH) && is_escapable e then (c :: e :: fst (token q s), snd (token q s))
    else if ends_token q c then ([], c :: e :: s)
    else (c :: fst (token q (e :: s)), snd (token q (e :: s))).
Proof.
  cbn [token]. destruct ((c =? BACKSLASH) && is_escapable e); [by destruct (token q s)|].
  destruct (ends_token q c); [done|].
  match goal with |- (let '(_, _) := ?x in _) = _ => by destruct x end.
Qed.

Lemma token_split q s : s = (fst (token q s) ++ snd (token q s))%list.
Proof.
  induction s as [|c|c e s IH1 IH2] using list_ind2; [done|cbn; by destruct (ends_token q c)|].
  rewrite token_cons. destruct ((c =? BACKSLASH) && is_escapable e); cbn [fst snd app]; [by rewrite <- IH1|].
  destruct (ends_token q c); [done|]. cbn [fst snd app]. by rewrite <- IH2.
Qed.

Lemma determine_spec q s : forall fuel m p,
  points m p s -> (length s < fuel)%nat ->
  DETERMINE_NEXTSTRING fuel m p q = Ok (p + zlen (fst (token q s))).
Proof.
  induction s as [|c|c e s IH1 IH2] using list_ind2; intros [|fuel] m p Hp Hf; cbn [length] in Hf; try lia;
    cbn [DETERMINE_NEXTSTRING]; rewrite (points_rd _ _ _ Hp); cbn [rbind hd].
  - cbn [Z.eqb token fst]. f_equal. zl.
  - pose proof (points_nz _ _ _ _ Hp). pose proof (points_next _ _ _ _ Hp) as Hn. zbool.
    rewrite (points_rd _ _ _ Hn). cbn [rbind hd]. change (is_escapable 0) with false.
    replace (if c =? BACKSLASH then Ok false else Ok false) with (@Ok bool false) by (by destruct (c =? BACKSLASH)).
    cbn [rbind token]. destruct (ends_token q c); cbn [fst]; [f_equal; zl|].
    destruct fuel as [|fuel]; [lia|]. cbn [DETERMINE_NEXTSTRING]. by rewrite (points_rd _ _ _ Hn).
  - pose proof (points_nz _ _ _ _ Hp). pose proof (points_next _ _ _ _ Hp) as Hn. zbool.
    rewrite (points_rd _ _ _ Hn), token_cons. cbn [rbind hd].
    replace (if c =? BACKSLASH then Ok (is_escapable e) else Ok false)
      with (@Ok bool ((c =? BACKSLASH) && is_escapable e)) by (by destruct (c =? BACKSLASH)).
    cbn [rbind]. destruct ((c =? BACKSLASH) && is_escapable e); cbn [fst].
    { rewrite IH1; [f_equal; zl|by eapply points_next|lia]. }
    destruct (ends_token q c); cbn [fst]; [f_equal; zl|]. rewrite IH2; [f_equal; zl|done|cbn [length]; lia].
Qed.

Lemma opening_spec m p s :
  points m p s ->
  exists p', CHECK_QUOTATION m p = Ok (fst (opening s), p') /\ points m p' (snd (opening s)).
Proof.
  intros Hp. unfold CHECK_QUOTATION. rewrite (points_rd _ _ _ Hp). cbn [rbind].
  destruct s as [|c s]; cbn [hd opening]; [eauto|].
  destruct (c =? QUOTE); [eauto using points_next|]. destruct (c =? APOS); eauto using points_next.
Qed.

(** What one argument takes of the string, and where the next one starts. *)
Definition next_arg (s : list Z) : list Z * list Z :=
  let '(q, s) := opening s in token q s.

Lemma argv_cons n c s :
  argv (S n) (c :: s) =
    unescape false (fst (next_arg (c :: s))) :: argv n (skip_blank (tl (snd (next_arg (c :: s))))).
Proof.
  unfold next_arg. cbn [argv]. destruct (opening (c :: s)) as [q s1]. by destruct (token q s1).
Qed.

Lemma skip_blank_len s : (length (skip_blank s) <= length s)%nat.
Proof. induction s as [|c s IH]; cbn; [done|]. destruct (is_blank c); cbn; lia. Qed.

Lemma next_arg_len c s : (length (skip_blank (tl (snd (next_arg (c :: s))))) <= length s)%nat.
Proof.
  etrans; [apply skip_blank_len|]. unfold next_arg.
  assert (Ho : (length (snd (opening (c :: s))) <= S (length s))%nat)
    by (unfold opening; destruct (c =? QUOTE), (c =? APOS); cbn; lia).
  destruct (opening (c :: s)) as [q s1]. cbn [snd] in Ho.
  pose proof (token_split q s1) as Ht. apply (f_equal length) in Ht. rewrite length_app in Ht.
  destruct (snd (token q s1)) as [|x r]; cbn in *; lia.
Qed.

(** One argument, as both passes read it. *)
Lemma next_arg_spec m p s :
  points m p s ->
  exists q ct, CHECK_QUOTATION m p = Ok (q, ct) /\ points m ct (fst (next_arg s) ++ snd (next_arg s)) /\
    DETERMINE_NEXTSTRING (S (length m)) m ct q = Ok (ct + zlen (fst (next_arg s))) /\
    points m (ct + zlen (fst (next_arg s))) (snd (next_arg s)).
Proof.
  intros Hp. destruct (opening_spec _ _ _ Hp) as (ct & Ho & Hct). unfold next_arg.
  destruct (opening s) as [q s1]. cbn [fst snd] in *. exists q, ct. rewrite <- token_split.
  split; [done|]. split; [done|]. pose proof (points_len _ _ _ Hct).
  split; [apply determine_spec; [done|unfold zlen in *; lia]|].
  apply points_app. by rewrite <- token_split.
Qed.

Lemma count_args_spec n : forall fuel m p s k,
  points m p s -> (length s <= n)%nat -> (length s < fuel)%nat ->
  count_args fuel m p k = Ok (k + zlen (argv n s)).
Proof.
  induction n as [|n IH]; intros [|fuel] m p s k Hp Hn Hf; try lia; cbn [count_args]; rewrite (points_rd _ _ _ Hp); cbn [rbind].
  { destruct s; [|cbn in Hn; lia]. cbn [hd Z.eqb argv]. f_equal. zl. }
  destruct s as [|c s]; cbn [hd]; [cbn [Z.eqb argv]; f_equal; zl|]. pose proof (points_nz _ _ _ _ Hp). zbool.
  destruct (next_arg_spec _ _ _ Hp) as (q & ct & -> & _ & Hd & Hr). cbn [rbind]. rewrite Hd. cbn [rbind].
  rewrite (points_rd _ _ _ Hr). cbn [rbind]. rewrite argv_cons.
  pose proof (next_arg_len c s) as Hl. destruct (snd (next_arg (c :: s))) as [|x r] eqn:Er; cbn [hd tl Z.eqb] in *.
  - destruct (skip_spec [] (S (length m)) _ _ Hr ltac:(cbn; lia)) as (p' & -> & Hp'). cbn [rbind skip_blank].
    rewrite (IH _ _ _ _ _ Hp') by (cbn in *; lia). cbn [skip_blank]. f_equal. zl.
  - pose proof (points_nz _ _ _ _ Hr). zbool. apply points_next in Hr. pose proof (points_len _ _ _ Hr).
    destruct (skip_spec r (S (length m)) _ _ Hr ltac:(unfold zlen in *; lia)) as (p' & -> & Hp'). cbn [rbind].
    rewrite (IH _ _ _ _ _ Hp') by (cbn in *; lia). f_equal. zl.
Qed.

Lemma remove_escapes_spec t : forall fuel clean mid esc,
  0 ∉ clean -> 0 ∉ t -> bytes t -> (length t < fuel)%nat ->
  exists m', REMOVE_ESCAPE_CHARS fuel (clean ++ mid ++ t ++ [0]) (zlen clean) (zlen clean + zlen mid) esc = Ok m' /\
    cstr m' = (clean ++ unescape esc t)%list.
Proof.
  induction t as [|c t IH]; intros [|fuel] clean mid esc Hc Ht Hb Hf; cbn [length] in Hf; try lia;
    cbn [REMOVE_ESCAPE_CHARS unescape]; rewrite app_assoc, <- zlen_app, rd_app_0; cbn [app]; rewrite rd_cons_0; cbn [rbind].
  - rewrite <- app_assoc. destruct mid as [|x mid]; cbn [app Z.eqb]; rewrite wr_app; eexists; split; try done;
      rewrite cstr_app by done; by rewrite app_nil_r.
  - apply not_elem_of_cons in Ht as [Hc0 Ht]. apply Forall_cons in Hb as [Hcb Hb]. zbool.
    destruct (negb esc && (c =? BACKSLASH)).
    { replace ((clean ++ mid) ++ c :: t ++ [0])%list with (clean ++ (mid ++ [c]) ++ t ++ [0])%list
        by (by rewrite <- !app_assoc).
      replace (zlen (clean ++ mid) + 1) with (zlen clean + zlen (mid ++ [c])) by zl. apply IH; auto; lia. }
    assert (Hcl : 0 ∉ (clean ++ [c])) by (rewrite elem_of_app, list_elem_of_singleton; naive_solver).
    assert (Hw : exists mid', wr ((clean ++ mid) ++ c :: t ++ [0]) (zlen clean) c =
        Ok ((clean ++ [c]) ++ mid' ++ t ++ [0])%list /\ zlen mid' = zlen mid).
    { destruct mid as [|x mid].
      - exists []. rewrite app_nil_r, wr_app, u8_byte by done. by rewrite <- app_assoc.
      - exists (mid ++ [c])%list. rewrite <- app_assoc. cbn [app]. rewrite wr_app, u8_byte by done.
        split; [by rewrite <- !app_assoc|zl]. }
    destruct Hw as (mid' & -> & Hm'). cbn [rbind].
    replace (zlen clean + 1) with (zlen (clean ++ [c])) by zl.
    replace (zlen (clean ++ mid) + 1) with (zlen (clean ++ [c]) + zlen mid') by zl.
    destruct (IH fuel (clean ++ [c])%list mid' false) as (m' & -> & Hm); auto with lia.
    exists m'. by rewrite Hm, <- app_assoc.
Qed.

(** One block: the copy of a token, compressed. *)
Lemma copy_arg_spec mem m ct t r :
  zlen (mem (zlen t + 1)) = zlen t + 1 -> points m ct (t ++ r) -> bytes m ->
  exists arg e blk, apr_cpystrn (mem (zlen t + 1)) 0 (Some (m, ct)) (zlen t + 1) = Ok (arg, e) /\
    REMOVE_ESCAPE_CHARS (S (length arg)) arg 0 0 false = Ok blk /\ cstr blk = unescape false t.
Proof.
  intros Hmem Hct Hb. pose proof (zlen_nonneg t). pose proof (zlen_nonneg r).
  pose proof (points_bytes _ _ _ Hct Hb) as Htb. apply Forall_app in Htb as [Htb _].
  pose proof (proj2 Hct) as Hnul. rewrite not_elem_of_app in Hnul. destruct Hnul as [Hnul _].
  rewrite (cpystrn_spec _ _ _ _ _ Hct) by (eauto using points_bytes || zl).
  replace (zlen t + 1 - 1) with (zlen t) by lia. rewrite to_nat_zlen, take_app_length.
  replace (splice (mem (zlen t + 1)) 0 (t ++ [0])) with (t ++ [0])%list.
  2: { unfold splice. rewrite zlen_app, Z.add_0_l. change (zlen [0]) with 1.
       change (Z.to_nat 0) with O. rewrite take_0, drop_ge, app_nil_r; [done|]. unfold zlen in *. lia. }
  destruct (remove_escapes_spec t (S (length (t ++ [0]))) [] [] false) as (blk & Hr & Hc);
    [set_solver|done|done|rewrite length_app; lia|]. eexists _, _, blk. split; [done|]. split; [exact Hr|exact Hc].
Qed.

Lemma copy_args_spec mem n : forall m p s,
  (forall k, 0 < k -> zlen (mem k) = k) -> points m p s -> bytes m -> (length (skip_blank s) <= n)%nat ->
  exists blocks, copy_args mem (length (argv n (skip_blank s))) m p = Ok blocks /\
    map cstr blocks = argv n (skip_blank s).
Proof.
  induction n as [|n IH]; intros m p s Hmem Hp Hb Hn; [by exists []|].
  pose proof (points_len _ _ _ Hp) as Hlen.
  destruct (skip_spec s (S (length m)) m p Hp ltac:(unfold zlen in *; lia)) as (p1 & Hsk & Hp1).
  destruct (skip_blank s) as [|c s1] eqn:Es; [by exists []|].
  rewrite argv_cons. cbn [length copy_args]. rewrite Hsk. cbn [rbind].
  destruct (next_arg_spec _ _ _ Hp1) as (q & ct & -> & Hct & Hd & Hr). cbn [rbind]. rewrite Hd. cbn [rbind].
  pose proof (next_arg_len c s1) as Hl. destruct (next_arg (c :: s1)) as [t r]. cbn [fst snd] in *.
  pose proof (zlen_nonneg t). replace (ct + zlen t + 1 - ct) with (zlen t + 1) by lia.
  destruct (copy_arg_spec mem m ct t r) as (arg & e & blk & -> & Hrm & Hc); [apply Hmem; lia|done|done|].
  cbn [rbind]. rewrite Hrm. cbn [rbind length] in *.
  assert (Hrest : exists blocks, copy_args mem (length (argv n (skip_blank (tl r)))) m (ct + zlen t + 1) = Ok blocks /\
      map cstr blocks = argv n (skip_blank (tl r))).
  { destruct r as [|x r]; [destruct n; by exists []|]. apply IH; [done|by eapply points_next|done|cbn in *; lia]. }
  destruct Hrest as (blocks & -> & Hm). cbn [rbind]. exists (blk :: blocks). cbn. by rewrite Hc, Hm.
Qed.

(** Splitting a command line. For every string, the two passes of
    [apr_tokenize_to_argv] agree: both end without a read past the NUL, every
    copy stays inside the block allocated for it, and the strings in the blocks
    are, in order, the arguments a one-pass parse of the string gives (blanks
    separate, quotes group, backslashes escape), whatever the blocks held before. *)
Theorem tokenize_arguments mem s :
  (forall k, 0 < k -> zlen (mem k) = k) -> bytes s -> 0 ∉ s ->
  exists blocks, apr_tokenize_to_argv mem (s ++ [0]) = Ok blocks /\ map cstr blocks = arguments s.
Proof.
  intros Hmem Hb H0. assert (Hp : points (s ++ [0]) 0 s) by (apply (points_intro [] s []); done).
  assert (Hm : bytes (s ++ [0])) by (apply Forall_app; split; [done|repeat constructor; unfold is_byte; lia]).
  unfold apr_tokenize_to_argv. rewrite length_app.
  destruct (skip_spec s (S (length s + length [0])) _ _ Hp ltac:(lia)) as (p & -> & Hp1). cbn [rbind].
  pose proof (skip_blank_len s). rewrite (count_args_spec (length s) _ _ _ _ 1 Hp1) by lia. cbn [rbind].
  replace (Z.to_nat _) with (length (argv (length s) (skip_blank s))) by (unfold zlen; lia).
  assert (Hid : skip_blank (skip_blank s) = skip_blank s).
  { clear. induction s as [|c s IH]; cbn; [done|]. destruct (is_blank c) eqn:E; [done|]. cbn. by rewrite E. }
  pose proof (copy_args_spec mem (length s) _ _ _ Hmem Hp1 Hm) as Hc. rewrite Hid in Hc. by apply Hc.
Qed.

Lemma tokenize_arguments_witness :
  exists blocks, apr_tokenize_to_argv (fun k => replicate (Z.to_nat k) 7) (str "dns -p '5 3' a\ b" ++ [0]) = Ok blocks /\
    map cstr blocks = [str "dns"; str "-p"; str "5 3"; str "a b"].
Proof. apply tokenize_arguments; [intros; autorewrite with zlen; lia|conc|conc]. Defined.
