(* ===== verification/AprDigest.v ===== *)
(** * What the message digests share

    The digest functions of the tree ([apr_md4.c], [apr_md5.c], [apr_sha1.c] of
    [src/apr-util/crypto] and [sha2.c] of [src/apr/random/unix]) keep a buffer of
    one block, transform a state by every full block, and count the bits. This
    file holds the word operations they use, the reference definition of such a
    digest (pad the message, transform by its blocks in turn), the lemmas on cutting a
    message into blocks, and the class [Incremental]: what an implementation
    promises to its clients, who may feed it a message in any pieces. *)

From S2P Require Import Prelude.

(** ** Words of 32 bits *)

Definition not32 (x : Z) : Z := Z.lxor x 0xffffffff.
Definition rotl32 (x n : Z) : Z := Z.lor (u32 (Z.shiftl x n)) (Z.shiftr x (32 - n)).
Definition rotr32 (n x : Z) : Z := Z.lor (Z.shiftr x n) (u32 (Z.shiftl x (32 - n))).

Lemma fits_not32 x : fits 32 x -> fits 32 (not32 x).
Proof. intros. unfold not32. fits_tac. Qed.

Lemma fits_rotl32 x n : 0 <= n <= 32 -> fits 32 x -> fits 32 (rotl32 x n).
Proof.
  intros Hn Hx. unfold rotl32. apply fits_lor; [lia|apply fits_u32|].
  apply fits_shiftr; [lia|lia|]. apply (fits_le 32); [lia|done].
Qed.

Lemma fits_rotr32 x n : 0 <= n <= 32 -> fits 32 x -> fits 32 (rotr32 n x).
Proof.
  intros Hn Hx. unfold rotr32. apply fits_lor; [lia| |apply fits_u32].
  apply fits_shiftr; [lia|lia|]. apply (fits_le 32); [lia|done].
Qed.

(** Eight bytes of a 64-bit count, least or most significant first. *)
Definition le64 (z : Z) : list Z := le32 (z mod 2 ^ 32) ++ le32 (z / 2 ^ 32 mod 2 ^ 32).
Definition be64 (z : Z) : list Z := be32 (z / 2 ^ 32 mod 2 ^ 32) ++ be32 (z mod 2 ^ 32).

Lemma length_be64 n : length (be64 n) = 8%nat.
Proof. done. Qed.

(** The words a little-endian host reads from memory. *)
Fixpoint le_words (m : list Z) : list Z :=
  match m with
  | b0 :: b1 :: b2 :: b3 :: m => of_le32 [b0; b1; b2; b3] :: le_words m
  | _ => []
  end.

(** ** Blocks of a message *)

(** [for (; i + 63 < len; i += 64) transform(&input[i])] *)
Fixpoint whole_blocks {St} (tr : St -> list Z -> St) (fuel : nat) (st : St) (input : list Z) (i : Z)
  : res (St * Z) :=
  match fuel with
  | O => Err OutOfFuel
  | S fuel =>
      if u32 (i + 63) <? zlen input then
        do b <- sub input i 64;
        whole_blocks tr fuel (tr st b) input (u32 (i + 64))
      else Ok (st, i)
  end.

Section blocks.
Context {St : Type} (tr : St -> list Z -> St).

Fixpoint absorb_n (n : nat) (st : St) (l : list Z) : St :=
  match n with
  | O => st
  | S n => absorb_n n (tr st (take 64 l)) (drop 64 l)
  end.

(** The state after the full blocks of a message, and what is left over. *)
Definition absorb (st : St) (l : list Z) : St := absorb_n (length l / 64) st l.
Definition leftover (l : list Z) : list Z := drop (64 * (length l / 64)) l.

Lemma absorb_short st l : (length l < 64)%nat -> absorb st l = st.
Proof. intros Hl. unfold absorb. by rewrite Nat.div_small. Qed.

Lemma leftover_short l : (length l < 64)%nat -> leftover l = l.
Proof. intros Hl. unfold leftover. by rewrite Nat.div_small. Qed.

Lemma blocks_cons (b l : list Z) : length b = 64%nat -> (length (b ++ l) / 64 = S (length l / 64))%nat.
Proof.
  intros Hb. rewrite length_app, Hb. replace (64 + length l)%nat with (length l + 1 * 64)%nat by lia.
  rewrite Nat.div_add by lia. lia.
Qed.

Lemma absorb_block st b l : length b = 64%nat -> absorb st (b ++ l) = absorb (tr st b) l.
Proof.
  intros Hb. unfold absorb. rewrite blocks_cons by done. cbn [absorb_n].
  by rewrite take_app_length', drop_app_length' by done.
Qed.

Lemma leftover_block b l : length b = 64%nat -> leftover (b ++ l) = leftover l.
Proof.
  intros Hb. unfold leftover. rewrite blocks_cons by done.
  replace (64 * S (length l / 64))%nat with (length b + 64 * (length l / 64))%nat by lia.
  rewrite drop_app_ge by lia. f_equal. lia.
Qed.

(** Induction on a message block by block. *)
Lemma block_ind (P : list Z -> Prop) :
  (forall l, (length l < 64)%nat -> P l) ->
  (forall b l, length b = 64%nat -> P l -> P (b ++ l)%list) -> forall l, P l.
Proof.
  intros Hs Hb l. remember (length l) as n eqn:Hn. revert l Hn.
  induction n as [n IH] using lt_wf_ind. intros l ->.
  destruct (Nat.lt_ge_cases (length l) 64) as [|Hge]; [auto|].
  rewrite <- (take_drop 64 l). apply Hb; [rewrite length_take; lia|].
  apply (IH (length (drop 64 l))); [rewrite length_drop; lia|done].
Qed.

Lemma length_leftover l : length (leftover l) = (length l mod 64)%nat.
Proof. unfold leftover. rewrite length_drop, Nat.Div0.mod_eq. lia. Qed.

Lemma absorb_app m : forall st d, absorb st (m ++ d) = absorb (absorb st m) (leftover m ++ d).
Proof.
  induction m as [m Hm|b m Hb IH] using block_ind; intros st d.
  - by rewrite (absorb_short st m), leftover_short.
  - rewrite <- app_assoc, leftover_block, (absorb_block st b (m ++ d)), (absorb_block st b m) by done. apply IH.
Qed.

Lemma leftover_app m d : leftover (m ++ d) = leftover (leftover m ++ d).
Proof.
  induction m as [m Hm|b m Hb IH] using block_ind; [by rewrite (leftover_short m)|].
  rewrite <- app_assoc, (leftover_block b m), (leftover_block b (m ++ d)) by done. apply IH.
Qed.

(** An invariant of the transformation is one of the whole. *)
Lemma absorb_inv (P : St -> Prop) st l :
  (forall s b, P s -> P (tr s b)) -> P st -> P (absorb st l).
Proof.
  intros Htr. revert st. induction l as [l Hl|b l Hb IH] using block_ind; intros st Hst.
  - by rewrite absorb_short.
  - rewrite absorb_block by done. by apply IH, Htr.
Qed.

Lemma whole_blocks_spec l : forall st pre fuel,
  zlen (pre ++ l) <= 2 ^ 32 - 64 -> (length l < fuel)%nat ->
  whole_blocks tr fuel st (pre ++ l) (zlen pre) =
    Ok (absorb st l, zlen (pre ++ l) - zlen (leftover l)).
Proof.
  induction l as [l Hl|b l Hb IH] using block_ind; intros st pre [|fuel] Hz Hf; try lia; cbn [whole_blocks];
    pose proof (zlen_nonneg pre); unfold u32; autorewrite with zlen in Hz.
  - rewrite Z.mod_small by zl.
    replace (zlen pre + 63 <? zlen (pre ++ l)) with false
      by (symmetry; apply Z.ltb_ge; autorewrite with zlen; unfold zlen; lia).
    rewrite absorb_short, leftover_short by done. do 2 f_equal. zl.
  - assert (Hzb : zlen b = 64) by (unfold zlen; lia). rewrite Z.mod_small by zl.
    replace (zlen pre + 63 <? zlen (pre ++ b ++ l)) with true by (symmetry; apply Z.ltb_lt; zl).
    pose proof (has_bytes_sub (pre ++ b ++ l) (zlen pre) b) as Hsub. rewrite Hzb in Hsub.
    rewrite Hsub by (exists pre, l; done). cbn [rbind].
    rewrite Z.mod_small by zl. replace (zlen pre + 64) with (zlen (pre ++ b)) by zl.
    rewrite app_assoc, IH; [|zl|rewrite length_app in Hf; lia].
    by rewrite absorb_block, leftover_block by done.
Qed.
End blocks.

(** ** The reference digest *)

(** The zero bytes that bring a message and its 0x80 to 56 modulo 64. *)
Definition pad_zeros (n : Z) : Z := (55 - n) mod 64.

Definition padded (count : Z -> list Z) (m : list Z) : list Z :=
  m ++ 0x80 :: replicate (Z.to_nat (pad_zeros (zlen m))) 0 ++ count (8 * zlen m mod 2 ^ 64).

Definition digest {St} (tr : St -> list Z -> St) (init : St) (count : Z -> list Z) (out : St -> list Z)
    (m : list Z) : list Z :=
  out (absorb tr init (padded count m)).

(** ** The promise of an implementation *)

(** A context of type [C] is initialised in a block of memory whose buffer holds
    what it held before, fed byte strings, and finished. [holds c m]: the context
    has been fed [m] so far. The length bound is that of [md5_update_buffer], whose
    index has 32 bits. *)
Class Incremental (C : Type) := {
  inc_init : list Z -> C;
  inc_update : C -> list Z -> res C;
  inc_final : C -> res (list Z);
  inc_digest : list Z -> list Z;
  holds : C -> list Z -> Prop;
  holds_init : forall mem, length mem = 64%nat -> holds (inc_init mem) [];
  holds_update : forall c m d, holds c m -> zlen d <= 2 ^ 32 - 64 ->
    exists c', inc_update c d = Ok c' /\ holds c' (m ++ d);
  holds_final : forall c m, holds c m -> inc_final c = Ok (inc_digest m)
}.

Fixpoint feed {C} `{Incremental C} (c : C) (ds : list (list Z)) : res C :=
  match ds with
  | [] => Ok c
  | d :: ds => do c <- inc_update c d; feed c ds
  end.

Lemma feed_holds {C} `{Incremental C} ds : forall c m,
  holds c m -> Forall (fun d : list Z => zlen d <= 2 ^ 32 - 64) ds ->
  exists c', feed c ds = Ok c' /\ holds c' (m ++ concat ds).
Proof.
  induction ds as [|d ds IH]; intros c m Hc Hds; cbn [feed concat].
  - exists c. by rewrite app_nil_r.
  - apply Forall_cons in Hds as [Hd Hds]. destruct (holds_update c m d Hc Hd) as (c1 & -> & H1).
    cbn [rbind]. rewrite app_assoc. by apply IH.
Qed.

(** Whatever the pieces, the result is the digest of the whole message. *)
Lemma feed_digest {C} `{Incremental C} mem ds :
  length mem = 64%nat ->
  Forall (fun d : list Z => zlen d <= 2 ^ 32 - 64) ds ->
  (do c <- feed (inc_init mem) ds; inc_final c) = Ok (inc_digest (concat ds)).
Proof.
  intros Hm Hds. destruct (feed_holds ds _ [] (holds_init mem Hm) Hds) as (c & -> & Hc). cbn [rbind].
  by apply holds_final.
Qed.

(** ** The buffer of a context *)

(** The buffer is one block long and starts with [l]. *)
Definition buffered (buf l : list Z) : Prop :=
  length buf = 64%nat /\ (length l <= 64)%nat /\ take (length l) buf = l.

Lemma buffered_blit buf l d :
  buffered buf l -> (length l + length d <= 64)%nat ->
  exists buf', blit buf (zlen l) d = Ok buf' /\ buffered buf' (l ++ d).
Proof.
  intros (Hb & Hl & Ht) Hd. exists (splice buf (zlen l) d).
  assert (Hz : zlen l + zlen d <= zlen buf) by (unfold zlen; lia).
  split; [apply blit_ok; [apply zlen_nonneg|done]|].
  assert (Hs : splice buf (zlen l) d = ((l ++ d) ++ drop (Z.to_nat (zlen l + zlen d)) buf)%list).
  { unfold splice. by rewrite to_nat_zlen, Ht, <- app_assoc. }
  split; [|split; [rewrite length_app; lia|by rewrite Hs, take_app_length]].
  pose proof (zlen_splice buf (zlen l) d (zlen_nonneg l) Hz). unfold zlen in *. lia.
Qed.

Lemma buffered_full buf l : buffered buf l -> length l = 64%nat -> buf = l.
Proof. intros (Hb & _ & Ht) Hl. rewrite <- Ht, Hl, <- Hb. symmetry. apply firstn_all. Qed.

Lemma buffered_nil buf : length buf = 64%nat -> buffered buf [].
Proof. intros Hb. split; [done|]. split; [cbn; lia|done]. Qed.

Lemma leftover_split l : exists front, l = (front ++ leftover l)%list.
Proof. exists (take (64 * (length l / 64)) l). symmetry. apply take_drop. Qed.

Lemma leftover_lt l : (length (leftover l) < 64)%nat.
Proof. rewrite length_leftover. apply Nat.mod_upper_bound. lia. Qed.

Lemma zlen_leftover l : zlen (leftover l) = zlen l mod 64.
Proof. unfold zlen. rewrite length_leftover, Nat2Z.inj_mod. done. Qed.

(** The end of the input, once its last full block is done. *)
Lemma sub_leftover pre l : 
  sub (pre ++ l) (zlen (pre ++ l) - zlen (leftover l)) (zlen (leftover l)) = Ok (leftover l).
Proof.
  destruct (leftover_split l) as [front Hf]. apply has_bytes_sub. exists (pre ++ front)%list, [].
  rewrite app_nil_r, <- app_assoc, <- Hf. split; [done|].
  apply (f_equal zlen) in Hf. zl.
Qed.

(** ** Padding *)

Lemma pad_zeros_spec n :
  0 <= n -> let idx := n mod 64 in
  1 + pad_zeros n = if idx <? 56 then 56 - idx else 120 - idx.
Proof.
  intros Hn. cbv zeta. unfold pad_zeros. destruct (Z.ltb_spec (n mod 64) 56);
    Z.to_euclidean_division_equations; lia.
Qed.

Lemma pad_zeros_bound n : 0 <= pad_zeros n < 64.
Proof. apply Z.mod_pos_bound. lia. Qed.

(** ** Counting bits in two words *)

(** The pair of words, low word first, holds the number modulo 2^64. *)
Definition counts (lo hi n : Z) : Prop :=
  fits 32 lo /\ fits 32 hi /\ lo + 2 ^ 32 * hi = n mod 2 ^ 64.

Lemma counts_add lo hi n k carry hi' :
  counts lo hi n -> 0 <= k < 2 ^ 32 -> 
  u32 (lo + u32 (Z.shiftl k 3)) + 2 ^ 32 * carry = lo + u32 (Z.shiftl k 3) ->
  hi' = u32 (hi + carry + Z.shiftr k 29) -> counts (u32 (lo + u32 (Z.shiftl k 3))) hi' (n + 8 * k).
Proof.
  intros (Hlo & Hhi & Hn) Hk Hc ->. unfold counts, fits in *.
  rewrite Z.shiftl_mul_pow2, Z.shiftr_div_pow2 in * by lia. unfold u32 in *.
  split; [apply Z.mod_pos_bound; lia|]. split; [apply Z.mod_pos_bound; lia|].
  Z.to_euclidean_division_equations. lia.
Qed.

Lemma counts_carry lo b :
  fits 32 lo -> fits 32 b -> u32 (lo + b) + 2 ^ 32 * (if u32 (lo + b) <? b then 1 else 0) = lo + b.
Proof.
  unfold fits, u32. intros Hlo Hb. destruct (Z.ltb_spec ((lo + b) mod 2 ^ 32) b);
    Z.to_euclidean_division_equations; lia.
Qed.

Lemma counts_words lo hi n : counts lo hi n -> lo = n mod 2 ^ 64 mod 2 ^ 32 /\ hi = n mod 2 ^ 64 / 2 ^ 32 mod 2 ^ 32.
Proof. intros (Hlo & Hhi & <-). unfold fits in *. split; Z.to_euclidean_division_equations; lia. Qed.

Lemma counts_index lo hi n : counts lo hi (8 * n) -> 0 <= n -> Z.land (Z.shiftr lo 3) 0x3F = n mod 64.
Proof.
  intros (Hlo & Hhi & Hn) Hp. unfold fits in *. change 0x3F with (Z.ones 6).
  rewrite Z.land_ones, Z.shiftr_div_pow2 by lia. change (2 ^ 6) with 64.
  Z.to_euclidean_division_equations. lia.
Qed.

(** ** The last blocks *)

Section last_blocks.
Context {St : Type} (tr : St -> list Z -> St) (init : St) (cnt : Z -> list Z) (out : St -> list Z).
Hypothesis cnt_len : forall n, length (cnt n) = 8%nat.

(** The message's rest, its 0x80, zeros and the count in one block. *)
Lemma digest_one_block m :
  let L := leftover m in
  (length L < 56)%nat ->
  digest tr init cnt out m =
    out (tr (absorb tr init m) ((L ++ 0x80 :: replicate (55 - length L) 0) ++ cnt (8 * zlen m mod 2 ^ 64))).
Proof.
  intros L HL. unfold digest, padded. rewrite absorb_app. fold L.
  assert (Hz : Z.to_nat (pad_zeros (zlen m)) = (55 - length L)%nat).
  { pose proof (zlen_leftover m) as Hl. fold L in Hl. pose proof (pad_zeros_spec (zlen m) (zlen_nonneg m)) as Hp.
    cbv zeta in Hp. rewrite <- Hl in Hp. unfold zlen in *. destruct (Z.ltb_spec (Z.of_nat (length L)) 56); lia. }
  rewrite Hz. set (b := (L ++ _ :: _ ++ _)%list).
  rewrite <- (app_nil_r b), absorb_block, (absorb_short _ _ []); [|cbn; lia|].
  - subst b. by rewrite <- app_assoc.
  - subst b. rewrite !length_app. cbn [length]. rewrite length_app, length_replicate, cnt_len. lia.
Qed.

(** No room for the count: a block of the rest and zeros, a block of zeros and the count. *)
Lemma digest_two_blocks m :
  let L := leftover m in
  (56 <= length L)%nat ->
  digest tr init cnt out m =
    out (tr (tr (absorb tr init m) (L ++ 0x80 :: replicate (63 - length L) 0))
            (replicate 56 0 ++ cnt (8 * zlen m mod 2 ^ 64))).
Proof.
  intros L HL. unfold digest, padded. rewrite absorb_app. fold L. pose proof (leftover_lt m) as H64. fold L in H64.
  assert (Hz : Z.to_nat (pad_zeros (zlen m)) = ((63 - length L) + 56)%nat).
  { pose proof (zlen_leftover m) as Hl. fold L in Hl. pose proof (pad_zeros_spec (zlen m) (zlen_nonneg m)) as Hp.
    cbv zeta in Hp. rewrite <- Hl in Hp. unfold zlen in *. destruct (Z.ltb_spec (Z.of_nat (length L)) 56); lia. }
  rewrite Hz, replicate_add, <- app_assoc.
  change (L ++ 0x80 :: replicate (63 - length L) 0 ++ replicate 56 0 ++ cnt (8 * zlen m mod 2 ^ 64))%list
    with (L ++ (0x80 :: replicate (63 - length L) 0) ++ replicate 56 0 ++ cnt (8 * zlen m mod 2 ^ 64))%list.
  rewrite app_assoc, absorb_block by (rewrite length_app; cbn [length]; rewrite length_replicate; lia).
  set (b := (replicate 56 0 ++ _)%list).
  rewrite <- (app_nil_r b), absorb_block, (absorb_short _ _ []); [by rewrite app_nil_r|cbn; lia|].
  subst b. rewrite length_app, length_replicate, cnt_len. lia.
Qed.
End last_blocks.

Lemma wr_as_blit m i v : 0 <= i < zlen m -> wr m i v = blit m i [u8 v].
Proof. intros Hi. rewrite wr_blit by done. symmetry. apply blit_ok; [lia|zl]. Qed.

(** The 0x80 after the rest of the message. *)
Lemma buffered_mark buf l :
  buffered buf l -> (length l < 64)%nat ->
  exists buf', wr buf (zlen l) 0x80 = Ok buf' /\ buffered buf' (l ++ [0x80]).
Proof.
  intros Hb Hl. pose proof (proj1 Hb). rewrite wr_as_blit by (unfold zlen; lia).
  apply buffered_blit; [done|cbn; lia].
Qed.
