(* ===== verification/AprMd.v ===== *)
(** * MD4 and MD5: [src/apr-util/crypto/apr_md4.c] and [apr_md5.c]

    The two files have the same context, update and final functions around
    different transformations; the shared functions take the transformation as
    an argument. The context's translation handle is NULL, as [apr_md5_init] leaves
    it, so input is copied and not translated. [Decode] reads the words of a block
    also where the source, on a little-endian host and an aligned block, reads
    them in place. *)

From S2P Require Import Prelude AprCpystrn AprDigest.

(** ** Words and bytes *)

Definition APR_MD5_DIGESTSIZE : Z := 16.

Fixpoint Decode (input : list Z) : list Z :=
  match input with
  | b0 :: b1 :: b2 :: b3 :: input =>
      Z.lor (Z.lor (Z.lor b0 (Z.shiftl b1 8)) (Z.shiftl b2 16)) (Z.shiftl b3 24) :: Decode input
  | _ => []
  end.

Fixpoint Encode (input : list Z) : list Z :=
  match input with
  | k :: input =>
      Z.land k 0xff :: Z.land (Z.shiftr k 8) 0xff :: Z.land (Z.shiftr k 16) 0xff ::
      Z.land (Z.shiftr k 24) 0xff :: Encode input
  | [] => []
  end.

(** ** The transformations *)

(** The registers [a], [b], [c], [d] of the next step, in this order: a step
    updates its first register, and the following step is called with the
    registers turned by one place. *)
Definition regs : Type := Z * Z * Z * Z.

Definition ROTATE_LEFT (x n : Z) : Z := rotl32 x n.

(** The auxiliary functions; G differs in the two files. *)
Module Fn.
Definition F (x y z : Z) : Z := Z.lor (Z.land x y) (Z.land (not32 x) z).
Definition G (x y z : Z) : Z := Z.lor (Z.land x z) (Z.land y (not32 z)).
Definition H (x y z : Z) : Z := Z.lxor (Z.lxor x y) z.
Definition I (x y z : Z) : Z := Z.lxor y (Z.lor x (not32 z)).
Definition G4 (x y z : Z) : Z := Z.lor (Z.lor (Z.land x y) (Z.land x z)) (Z.land y z).
End Fn.

(** The macros FF, GG, HH and II of [apr_md5.c], the auxiliary function first. *)
Definition md5_step (f : Z -> Z -> Z -> Z) (x : list Z) (r : regs) (op : nat * Z * Z) : regs :=
  let '(a, b, c, d) := r in
  let '(k, s, ac) := op in
  let a := u32 (a + (f b c d + nth k x 0 + ac)) in
  let a := ROTATE_LEFT a s in
  let a := u32 (a + b) in
  (d, a, b, c).

(** The macros FF, GG and HH of [apr_md4.c], with the constant of the round. *)
Definition md4_step (f : Z -> Z -> Z -> Z) (ac : Z) (x : list Z) (r : regs) (op : nat * Z) : regs :=
  let '(a, b, c, d) := r in
  let '(k, s) := op in
  let a := u32 (a + (f b c d + nth k x 0 + ac)) in
  let a := ROTATE_LEFT a s in
  (d, a, b, c).

(** The calls of each round: index into the block, rotation, constant. *)
Definition md5_FF : list (nat * Z * Z) :=
  [(0%nat, 7, 0xd76aa478); (1%nat, 12, 0xe8c7b756); (2%nat, 17, 0x242070db); (3%nat, 22, 0xc1bdceee);
   (4%nat, 7, 0xf57c0faf); (5%nat, 12, 0x4787c62a); (6%nat, 17, 0xa8304613); (7%nat, 22, 0xfd469501);
   (8%nat, 7, 0x698098d8); (9%nat, 12, 0x8b44f7af); (10%nat, 17, 0xffff5bb1); (11%nat, 22, 0x895cd7be);
   (12%nat, 7, 0x6b901122); (13%nat, 12, 0xfd987193); (14%nat, 17, 0xa679438e); (15%nat, 22, 0x49b40821)].
Definition md5_GG : list (nat * Z * Z) :=
  [(1%nat, 5, 0xf61e2562); (6%nat, 9, 0xc040b340); (11%nat, 14, 0x265e5a51); (0%nat, 20, 0xe9b6c7aa);
   (5%nat, 5, 0xd62f105d); (10%nat, 9, 0x2441453); (15%nat, 14, 0xd8a1e681); (4%nat, 20, 0xe7d3fbc8);
   (9%nat, 5, 0x21e1cde6); (14%nat, 9, 0xc33707d6); (3%nat, 14, 0xf4d50d87); (8%nat, 20, 0x455a14ed);
   (13%nat, 5, 0xa9e3e905); (2%nat, 9, 0xfcefa3f8); (7%nat, 14, 0x676f02d9); (12%nat, 20, 0x8d2a4c8a)].
Definition md5_HH : list (nat * Z * Z) :=
  [(5%nat, 4, 0xfffa3942); (8%nat, 11, 0x8771f681); (11%nat, 16, 0x6d9d6122); (14%nat, 23, 0xfde5380c);
   (1%nat, 4, 0xa4beea44); (4%nat, 11, 0x4bdecfa9); (7%nat, 16, 0xf6bb4b60); (10%nat, 23, 0xbebfbc70);
   (13%nat, 4, 0x289b7ec6); (0%nat, 11, 0xeaa127fa); (3%nat, 16, 0xd4ef3085); (6%nat, 23, 0x4881d05);
   (9%nat, 4, 0xd9d4d039); (12%nat, 11, 0xe6db99e5); (15%nat, 16, 0x1fa27cf8); (2%nat, 23, 0xc4ac5665)].
Definition md5_II : list (nat * Z * Z) :=
  [(0%nat, 6, 0xf4292244); (7%nat, 10, 0x432aff97); (14%nat, 15, 0xab9423a7); (5%nat, 21, 0xfc93a039);
   (12%nat, 6, 0x655b59c3); (3%nat, 10, 0x8f0ccc92); (10%nat, 15, 0xffeff47d); (1%nat, 21, 0x85845dd1);
   (8%nat, 6, 0x6fa87e4f); (15%nat, 10, 0xfe2ce6e0); (6%nat, 15, 0xa3014314); (13%nat, 21, 0x4e0811a1);
   (4%nat, 6, 0xf7537e82); (11%nat, 10, 0xbd3af235); (2%nat, 15, 0x2ad7d2bb); (9%nat, 21, 0xeb86d391)].

Definition md4_FF : list (nat * Z) :=
  [(0%nat, 3); (1%nat, 7); (2%nat, 11); (3%nat, 19);
   (4%nat, 3); (5%nat, 7); (6%nat, 11); (7%nat, 19);
   (8%nat, 3); (9%nat, 7); (10%nat, 11); (11%nat, 19);
   (12%nat, 3); (13%nat, 7); (14%nat, 11); (15%nat, 19)].
Definition md4_GG : list (nat * Z) :=
  [(0%nat, 3); (4%nat, 5); (8%nat, 9); (12%nat, 13);
   (1%nat, 3); (5%nat, 5); (9%nat, 9); (13%nat, 13);
   (2%nat, 3); (6%nat, 5); (10%nat, 9); (14%nat, 13);
   (3%nat, 3); (7%nat, 5); (11%nat, 9); (15%nat, 13)].
Definition md4_HH : list (nat * Z) :=
  [(0%nat, 3); (8%nat, 9); (4%nat, 11); (12%nat, 15);
   (2%nat, 3); (10%nat, 9); (6%nat, 11); (14%nat, 15);
   (1%nat, 3); (9%nat, 9); (5%nat, 11); (13%nat, 15);
   (3%nat, 3); (11%nat, 9); (7%nat, 11); (15%nat, 15)].

Definition add_regs (s r : regs) : regs :=
  let '(s0, s1, s2, s3) := s in
  let '(a, b, c, d) := r in
  (u32 (s0 + a), u32 (s1 + b), u32 (s2 + c), u32 (s3 + d)).

Definition MD5Transform (state : regs) (block : list Z) : regs :=
  let x := Decode block in
  let r := fold_left (md5_step Fn.F x) md5_FF state in
  let r := fold_left (md5_step Fn.G x) md5_GG r in
  let r := fold_left (md5_step Fn.H x) md5_HH r in
  let r := fold_left (md5_step Fn.I x) md5_II r in
  add_regs state r.

Definition MD4Transform (state : regs) (block : list Z) : regs :=
  let x := Decode block in
  let r := fold_left (md4_step Fn.F 0 x) md4_FF state in
  let r := fold_left (md4_step Fn.G4 0x5a827999 x) md4_GG r in
  let r := fold_left (md4_step Fn.H 0x6ed9eba1 x) md4_HH r in
  add_regs state r.

(** ** Contexts *)

Record md_ctx := mk_md { state : regs; count : Z * Z; buffer : list Z }.

Definition md_magic : regs := (0x67452301, 0xefcdab89, 0x98badcfe, 0x10325476).

(** [mem] is what the buffer held before. *)
Definition apr_md5_init (mem : list Z) : md_ctx := mk_md md_magic (0, 0) mem.
Definition apr_md4_init (mem : list Z) : md_ctx := mk_md md_magic (0, 0) mem.

(** The update of the bit count by [inputLen] bytes. *)
Definition add_count (count : Z * Z) (inputLen : Z) : Z * Z :=
  let bits := u32 (Z.shiftl (u32 inputLen) 3) in
  let count0 := u32 (fst count + bits) in
  let count1 := if count0 <? bits then u32 (snd count + 1) else snd count in
  (count0, u32 (count1 + Z.shiftr (u32 inputLen) 29)).

Section update.
Context (transform : regs -> list Z -> regs).

Definition md_update (context : md_ctx) (input : list Z) : res md_ctx :=
  let inputLen := zlen input in
  let idx := Z.land (Z.shiftr (fst (count context)) 3) 0x3F in
  let cnt := add_count (count context) inputLen in
  let partLen := 64 - idx in
  do (st, buf, idx, i) <-
    (if partLen <=? inputLen then
       do part <- sub input 0 partLen;
       do buf <- blit (buffer context) idx part;
       do (st, i) <- whole_blocks transform (S (length input)) (transform (state context) buf) input partLen;
       Ok (st, buf, 0, i)
     else Ok (state context, buffer context, idx, 0));
  do rest <- sub input i (inputLen - i);
  do buf <- blit buf idx rest;
  Ok (mk_md st cnt buf).

Definition PADDING : list Z := 0x80 :: replicate 63 0.

(** The digest, and the context zeroed. *)
Definition md_final (context : md_ctx) : res (list Z * md_ctx) :=
  let bits := Encode [fst (count context); snd (count context)] in
  let idx := Z.land (Z.shiftr (fst (count context)) 3) 0x3f in
  let padLen := if idx <? 56 then 56 - idx else 120 - idx in
  do pad <- sub PADDING 0 padLen;
  do context <- md_update context pad;
  do context <- md_update context bits;
  let '(a, b, c, d) := state context in
  Ok (Encode [a; b; c; d], mk_md (0, 0, 0, 0) (0, 0) (replicate 64 0)).
End update.

Definition md5_update_buffer (context : md_ctx) (input : list Z) : res md_ctx :=
  md_update MD5Transform context input.
Definition apr_md5_update (context : md_ctx) (input : list Z) : res md_ctx :=
  md5_update_buffer context input.
Definition apr_md5_final (context : md_ctx) : res (list Z * md_ctx) := md_final MD5Transform context.

Definition apr_md4_update (context : md_ctx) (input : list Z) : res md_ctx :=
  md_update MD4Transform context input.
Definition apr_md4_final (context : md_ctx) : res (list Z * md_ctx) := md_final MD4Transform context.

(** One step; [mem] is what the local context's buffer held. *)
Definition apr_md5 (mem input : list Z) : res (list Z) :=
  let ctx := apr_md5_init mem in
  do ctx <- apr_md5_update ctx input;
  do (digest, _) <- apr_md5_final ctx;
  Ok digest.

Definition apr_md4 (mem input : list Z) : res (list Z) :=
  let ctx := apr_md4_init mem in
  do ctx <- apr_md4_update ctx input;
  do (digest, _) <- apr_md4_final ctx;
  Ok digest.

(** ** Feeding a context *)

Lemma add_count_counts lo hi n k :
  counts lo hi (8 * n) -> 0 <= k < 2 ^ 32 ->
  counts (fst (add_count (lo, hi) k)) (snd (add_count (lo, hi) k)) (8 * (n + k)).
Proof.
  intros Hc Hk. unfold add_count. cbn [fst snd].
  replace (u32 k) with k by (unfold u32; rewrite Z.mod_small; lia).
  replace (8 * (n + k)) with (8 * n + 8 * k) by lia.
  eapply counts_add; [done|done|apply counts_carry; [apply Hc|apply fits_u32]|].
  destruct Hc as (_ & Hhi & _). unfold fits in Hhi. unfold u32.
  destruct (_ <? _); [by rewrite Zplus_mod_idemp_l|by rewrite Z.add_0_r].
Qed.

Section holds.
Context (transform : regs -> list Z -> regs).

(** The context has been fed the message [m]. *)
Definition md_holds (c : md_ctx) (m : list Z) : Prop :=
  state c = absorb transform md_magic m /\ buffered (buffer c) (leftover m) /\
  counts (fst (count c)) (snd (count c)) (8 * zlen m).

Lemma md_holds_init mem : length mem = 64%nat -> md_holds (mk_md md_magic (0, 0) mem) [].
Proof.
  intros Hm. split; [done|]. split; [by apply buffered_nil|].
  vm_compute. intuition congruence.
Qed.

Lemma md_holds_update c m d :
  md_holds c m -> zlen d <= 2 ^ 32 - 64 ->
  exists c', md_update transform c d = Ok c' /\ md_holds c' (m ++ d).
Proof.
  intros (Hst & Hbuf & Hc) Hd. destruct c as [st [lo hi] buf]. cbn [state count buffer fst snd] in *.
  pose proof (zlen_nonneg m). pose proof (zlen_nonneg d). pose proof (leftover_lt m) as Hr.
  pose proof (add_count_counts lo hi (zlen m) (zlen d) Hc ltac:(lia)) as Hc'.
  unfold md_update. cbn [state count buffer fst snd].
  rewrite (counts_index lo hi (zlen m)), <- zlen_leftover by (done || lia).
  set (L := leftover m) in *. assert (HL : zlen L = Z.of_nat (length L)) by done.
  destruct (Z.leb_spec (64 - zlen L) (zlen d)) as [Hge|Hlt].
  - set (d1 := take (64 - length L) d). set (d2 := drop (64 - length L) d).
    assert (Hdd : d = (d1 ++ d2)%list) by (symmetry; apply take_drop).
    assert (Hl1 : length d1 = (64 - length L)%nat) by (subst d1; rewrite length_take; unfold zlen in *; lia).
    replace (64 - zlen L) with (zlen d1) by (unfold zlen; lia). rewrite Hdd.
    rewrite (has_bytes_sub _ 0 d1) by (exists [], d2; done). cbn [rbind].
    destruct (buffered_blit buf L d1 Hbuf ltac:(lia)) as (b1 & -> & Hb1). cbn [rbind].
    assert (H64 : length (L ++ d1) = 64%nat) by (rewrite length_app; lia).
    rewrite (buffered_full _ _ Hb1 H64) in *. rewrite whole_blocks_spec; [|by rewrite <- Hdd|rewrite length_app; lia].
    cbn [rbind]. rewrite Z.sub_sub_distr, Z.sub_diag, Z.add_0_l, sub_leftover. cbn [rbind].
    destruct (buffered_blit (L ++ d1) [] (leftover d2)) as (b2 & Hb2 & Hbuf2);
      [by apply buffered_nil|pose proof (leftover_lt d2); cbn [length]; lia|].
    change (zlen []) with 0 in Hb2. rewrite Hb2. cbn [rbind]. eexists. split; [done|].
    split; [|split]; cbn [state count buffer].
    + by rewrite absorb_app, app_assoc, absorb_block, <- Hst.
    + by rewrite leftover_app, app_assoc, leftover_block.
    + rewrite <- Hdd, zlen_app. done.
  - cbn [rbind]. rewrite Z.sub_0_r, (has_bytes_sub d 0 d) by (exists [], []; by rewrite app_nil_r). cbn [rbind].
    destruct (buffered_blit buf L d Hbuf) as (b1 & -> & Hb1); [unfold zlen in *; lia|]. cbn [rbind].
    assert (Hs : (length (L ++ d) < 64)%nat) by (rewrite length_app; unfold zlen in *; lia).
    eexists. split; [done|]. split; [|split]; cbn [state count buffer].
    + by rewrite absorb_app, absorb_short.
    + by rewrite leftover_app, leftover_short.
    + by rewrite zlen_app.
Qed.

Lemma Encode_le32 k l : Encode (k :: l) = (le32 k ++ Encode l)%list.
Proof.
  cbn [Encode le32 app]. change 0xff with (Z.ones 8).
  by rewrite !Z.land_ones, !Z.shiftr_div_pow2 by lia.
Qed.

Lemma padding_part n :
  sub PADDING 0 (1 + pad_zeros n) = Ok (0x80 :: replicate (Z.to_nat (pad_zeros n)) 0).
Proof.
  pose proof (pad_zeros_bound n). set (z := Z.to_nat (pad_zeros n)).
  replace (1 + pad_zeros n) with (zlen (0x80 :: replicate z 0)) by (autorewrite with zlen; lia).
  apply has_bytes_sub. exists [], (replicate (63 - z) 0). split; [|done]. unfold PADDING. cbn [app].
  f_equal. rewrite <- replicate_add. f_equal. lia.
Qed.

Definition out_regs (r : regs) : list Z := let '(a, b, c, d) := r in Encode [a; b; c; d].

Definition zero_ctx : md_ctx := mk_md (0, 0, 0, 0) (0, 0) (replicate 64 0).

Lemma md_holds_final c m :
  md_holds c m ->
  md_final transform c = Ok (digest transform md_magic le64 out_regs m, zero_ctx).
Proof.
  intros Hh. pose proof Hh as (_ & _ & Hc). pose proof (zlen_nonneg m).
  unfold md_final. rewrite (counts_index _ _ _ Hc) by done.
  rewrite <- (pad_zeros_spec (zlen m)), padding_part by done. cbn [rbind]. pose proof (pad_zeros_bound (zlen m)).
  destruct (md_holds_update c m (0x80 :: replicate (Z.to_nat (pad_zeros (zlen m))) 0) Hh) as (c1 & Hu1 & Hh1); [|rewrite Hu1; cbn [rbind]].
  { autorewrite with zlen. lia. }
  destruct (md_holds_update c1 _ (Encode [fst (count c); snd (count c)]) Hh1) as (c2 & Hu2 & Hh2);
    [vm_compute; congruence|rewrite Hu2; cbn [rbind]].
  destruct Hh2 as (Hst & _). destruct (counts_words _ _ _ Hc) as [Hlo Hhi]. unfold digest, out_regs, padded, le64.
  rewrite !Encode_le32, <- !app_assoc, Hlo, Hhi in Hst. cbn [Encode app] in Hst. rewrite app_nil_r in Hst.
  rewrite <- Hst. destruct (state c2) as [[[? ?] ?] ?]. reflexivity.
Qed.
End holds.

(** The reference digests. *)
Definition md5 : list Z -> list Z := digest MD5Transform md_magic le64 out_regs.
Definition md4 : list Z -> list Z := digest MD4Transform md_magic le64 out_regs.

(** A context used as one of the two digests. *)
Record md5_ctx := MD5 { md5_of : md_ctx }.
Record md4_ctx := MD4 { md4_of : md_ctx }.

#[global] Program Instance md5_incremental : Incremental md5_ctx := {
  inc_init mem := MD5 (apr_md5_init mem);
  inc_update c d := do c <- apr_md5_update (md5_of c) d; Ok (MD5 c);
  inc_final c := do (d, _) <- apr_md5_final (md5_of c); Ok d;
  inc_digest := md5;
  holds c m := md_holds MD5Transform (md5_of c) m
}.
Next Obligation. intros mem Hm. by apply md_holds_init. Qed.
Next Obligation.
  intros [c] m d Hc Hd. destruct (md_holds_update _ _ _ _ Hc Hd) as (c' & Hu & Hc'). exists (MD5 c').
  split; [|done]. cbn [md5_of] in *. unfold apr_md5_update, md5_update_buffer. by rewrite Hu.
Qed.
Next Obligation. intros [c] m Hc. cbn [md5_of] in *. unfold apr_md5_final. by rewrite (md_holds_final _ _ _ Hc). Qed.

#[global] Program Instance md4_incremental : Incremental md4_ctx := {
  inc_init mem := MD4 (apr_md4_init mem);
  inc_update c d := do c <- apr_md4_update (md4_of c) d; Ok (MD4 c);
  inc_final c := do (d, _) <- apr_md4_final (md4_of c); Ok d;
  inc_digest := md4;
  holds c m := md_holds MD4Transform (md4_of c) m
}.
Next Obligation. intros mem Hm. by apply md_holds_init. Qed.
Next Obligation.
  intros [c] m d Hc Hd. destruct (md_holds_update _ _ _ _ Hc Hd) as (c' & Hu & Hc'). exists (MD4 c').
  split; [|done]. cbn [md4_of] in *. unfold apr_md4_update. by rewrite Hu.
Qed.
Next Obligation. intros [c] m Hc. cbn [md4_of] in *. unfold apr_md4_final. by rewrite (md_holds_final _ _ _ Hc). Qed.

(** Feeding a message in pieces. However a message is cut, initialising a
    context over any memory, updating it with the pieces in turn and finishing it
    ends, stays inside the 64-byte buffer, and gives the digest of the whole
    message as the specifications define it (padding to 56 bytes modulo 64, the
    bit count modulo 2^64, the blocks transformed in order); the one-step functions
    are the case of one piece. *)
Theorem md_pieces mem ds :
  length mem = 64%nat -> Forall (fun d : list Z => zlen d <= 2 ^ 32 - 64) ds ->
  (do c <- feed (C := md5_ctx) (inc_init mem) ds; inc_final c) = Ok (md5 (concat ds)) /\
  (do c <- feed (C := md4_ctx) (inc_init mem) ds; inc_final c) = Ok (md4 (concat ds)) /\
  (forall d, zlen d <= 2 ^ 32 - 64 -> apr_md5 mem d = Ok (md5 d) /\ apr_md4 mem d = Ok (md4 d)).
Proof.
  intros Hm Hds. split; [exact (feed_digest (C := md5_ctx) mem ds Hm Hds)|].
  split; [exact (feed_digest (C := md4_ctx) mem ds Hm Hds)|].
  intros d Hd. unfold apr_md5, apr_md4, apr_md5_update, md5_update_buffer, apr_md4_update, apr_md5_final, apr_md4_final.
  destruct (md_holds_update MD5Transform _ _ d (md_holds_init MD5Transform mem Hm) Hd) as (c5 & Hu5 & Hh5).
  destruct (md_holds_update MD4Transform _ _ d (md_holds_init MD4Transform mem Hm) Hd) as (c4 & Hu4 & Hh4).
  unfold apr_md5_init, apr_md4_init. rewrite Hu5, Hu4. cbn [rbind].
  by rewrite (md_holds_final _ _ _ Hh5), (md_holds_final _ _ _ Hh4).
Qed.

(** The test vectors of RFC 1320 and RFC 1321 for "abc", fed in two pieces. *)
Lemma md_pieces_witness :
  (do c <- feed (C := md5_ctx) (inc_init (replicate 64 7)) [str "a"; str "bc"]; inc_final c) =
    Ok [0x90; 0x01; 0x50; 0x98; 0x3c; 0xd2; 0x4f; 0xb0; 0xd6; 0x96; 0x3f; 0x7d; 0x28; 0xe1; 0x7f; 0x72] /\
  (do c <- feed (C := md4_ctx) (inc_init (replicate 64 7)) [str "a"; str "bc"]; inc_final c) =
    Ok [0xa4; 0x48; 0x01; 0x7a; 0xaf; 0x21; 0xd8; 0x52; 0x5f; 0xc1; 0x0a; 0xe8; 0x7a; 0xa6; 0x72; 0x9d].
Proof.
  destruct (md_pieces (replicate 64 7) [str "a"; str "bc"]) as (H5 & H4 & _);
    [reflexivity|repeat constructor; vm_compute; congruence|].
  rewrite H5, H4. split; vm_compute; reflexivity.
Defined.

(** ** The password hash *)

Definition apr1_id : list Z := str "$apr1$".
Definition DOLLAR : Z := 36.

Definition itoa64 : list Z := str "./0123456789ABCDEFGHIJKLMNOPQRSTUVWXYZabcdefghijklmnopqrstuvwxyz".

(** [to64(p, v, n)] into the object [s]. *)
Fixpoint to64 (s : list Z) (p v : Z) (n : nat) : res (list Z) :=
  match n with
  | O => Ok s
  | S n =>
      do c <- rd itoa64 (Z.land v 0x3f);
      do s <- wr s p c;
      to64 s (p + 1) (Z.shiftr v 6) n
  end.

(** [!strncmp(sp, lit, strlen(lit))] for a literal without NUL. *)
Fixpoint starts (m : list Z) (sp : Z) (lit : list Z) : res bool :=
  match lit with
  | [] => Ok true
  | x :: lit =>
      do c <- rd m sp;
      if c =? x then starts m (sp + 1) lit else Ok false
  end.

(** [for (ep = sp; *ep != 0 && *ep != '$' && ep < sp + 8; ep++)], [n] turns left
    to [sp + 8]. *)
Fixpoint salt_end (n : nat) (m : list Z) (ep : Z) : res Z :=
  do c <- rd m ep;
  if c =? 0 then Ok ep
  else if c =? DOLLAR then Ok ep
  else match n with
       | O => Ok ep
       | S n => salt_end n m (ep + 1)
       end.

(** [for (pl = strlen(pw); pl > 0; pl -= 16) update(final, min(pl, 16))] *)
Fixpoint update_by_length (fuel : nat) (ctx : md_ctx) (final : list Z) (pl : Z) : res md_ctx :=
  match fuel with
  | O => Err OutOfFuel
  | S fuel =>
      if 0 <? pl then
        do part <- sub final 0 (if APR_MD5_DIGESTSIZE <? pl then APR_MD5_DIGESTSIZE else pl);
        do ctx <- md5_update_buffer ctx part;
        update_by_length fuel ctx final (pl - APR_MD5_DIGESTSIZE)
      else Ok ctx
  end.

(** [for (i = strlen(pw); i != 0; i >>= 1) ...] *)
Fixpoint update_by_bits (fuel : nat) (ctx : md_ctx) (final pw : list Z) (i : Z) : res md_ctx :=
  match fuel with
  | O => Err OutOfFuel
  | S fuel =>
      if i =? 0 then Ok ctx
      else
        do one <- sub (if Z.odd i then final else pw) 0 1;
        do ctx <- md5_update_buffer ctx one;
        update_by_bits fuel ctx final pw (Z.shiftr i 1)
  end.

(** One of the 1000 rounds: [ctx1] and [final]. *)
Definition md5_round (pw salt : list Z) (i : Z) (ctx1 : md_ctx) (final : list Z) : res (list Z * md_ctx) :=
  let ctx1 := apr_md5_init (buffer ctx1) in
  do ctx1 <- (if Z.odd i then apr_md5_update ctx1 pw else md5_update_buffer ctx1 final);
  do ctx1 <- (if i mod 3 =? 0 then Ok ctx1 else apr_md5_update ctx1 salt);
  do ctx1 <- (if i mod 7 =? 0 then Ok ctx1 else apr_md5_update ctx1 pw);
  do ctx1 <- (if Z.odd i then md5_update_buffer ctx1 final else apr_md5_update ctx1 pw);
  apr_md5_final ctx1.

Fixpoint md5_rounds (n : nat) (pw salt : list Z) (i : Z) (ctx1 : md_ctx) (final : list Z) : res (list Z) :=
  match n with
  | O => Ok final
  | S n =>
      do (final, ctx1) <- md5_round pw salt i ctx1 final;
      md5_rounds n pw salt (i + 1) ctx1 final
  end.

(** [(final[a]<<16) | (final[b]<<8) | final[c]] *)
Definition three (final : list Z) (a b c : Z) : res Z :=
  do x <- rd final a; do y <- rd final b; do z <- rd final c;
  Ok (Z.lor (Z.lor (Z.shiftl x 16) (Z.shiftl y 8)) z).

(** The hash as text, and its NUL. *)
Definition encode_final (passwd : list Z) (p : Z) (final : list Z) : res (list Z) :=
  do l <- three final 0 6 12; do passwd <- to64 passwd p l 4;
  do l <- three final 1 7 13; do passwd <- to64 passwd (p + 4) l 4;
  do l <- three final 2 8 14; do passwd <- to64 passwd (p + 8) l 4;
  do l <- three final 3 9 15; do passwd <- to64 passwd (p + 12) l 4;
  do l <- three final 4 10 5; do passwd <- to64 passwd (p + 16) l 4;
  do l <- rd final 11; do passwd <- to64 passwd (p + 20) l 2;
  wr passwd (p + 22) 0.

(** From the first [apr_md5_init] to the loop over the bits of the length: the
    contexts [ctx] and [ctx1]. [mem], [mem1] are what their buffers held. *)
Definition md5_mix (mem mem1 pw salt : list Z) : res (md_ctx * md_ctx) :=
  let len := zlen pw in
  let ctx := apr_md5_init mem in
  do ctx <- apr_md5_update ctx pw;
  do ctx <- apr_md5_update ctx apr1_id;
  do ctx <- apr_md5_update ctx salt;
  let ctx1 := apr_md5_init mem1 in
  do ctx1 <- apr_md5_update ctx1 pw;
  do ctx1 <- apr_md5_update ctx1 salt;
  do ctx1 <- apr_md5_update ctx1 pw;
  do (final, ctx1) <- apr_md5_final ctx1;
  do ctx <- update_by_length (S (length pw)) ctx final len;
  let final := replicate (Z.to_nat APR_MD5_DIGESTSIZE) 0 in
  do ctx <- update_by_bits (S (length pw)) ctx final pw len;
  Ok (ctx, ctx1).

(** [strcpy(passwd, apr1_id); strncat(passwd, sp, sl); strcat(passwd, "$")] *)
Definition passwd_head (passwd salt : list Z) : res (list Z) :=
  do passwd <- blit passwd 0 (apr1_id ++ [0]);
  do passwd <- blit passwd (zlen apr1_id) (salt ++ [0]);
  blit passwd (zlen apr1_id + zlen salt) [DOLLAR; 0].

(** [pw] and [salt] are the objects of two strings, [passwd] what the local array
    of 120 characters held. *)
Definition apr_md5_encode (mem mem1 passwd pw salt result : list Z) (nbytes : Z) : res (list Z) :=
  do magic <- starts salt 0 apr1_id;
  let sp := if magic then zlen apr1_id else 0 in
  do ep <- salt_end 8 salt sp;
  do salt <- sub salt sp (ep - sp);
  do len <- strlen pw 0;
  do pw <- sub pw 0 len;
  do (ctx, ctx1) <- md5_mix mem mem1 pw salt;
  do passwd <- passwd_head passwd salt;
  do (final, ctx) <- apr_md5_final ctx;
  do final <- md5_rounds 1000 pw salt 0 ctx1 final;
  do p <- strlen passwd 0;
  do passwd <- encode_final passwd p final;
  do (result, _) <- apr_cpystrn result 0 (Some (passwd, 0)) (nbytes - 1);
  Ok result.

(** ** The password hash: reference *)

Fixpoint prefixb (lit s : list Z) : bool :=
  match lit, s with
  | [], _ => true
  | x :: lit, c :: s => (c =? x) && prefixb lit s
  | _, [] => false
  end.

(** The salt of a string, which may be a hash made earlier. *)
Definition refine (salt : list Z) : list Z :=
  take 8 (before DOLLAR (if prefixb apr1_id salt then drop (length apr1_id) salt else salt)).

Fixpoint by_length (fuel : nat) (final : list Z) (pl : Z) : list Z :=
  match fuel with
  | O => []
  | S fuel => if 0 <? pl then take (Z.to_nat (Z.min 16 pl)) final ++ by_length fuel final (pl - 16) else []
  end.

Fixpoint by_bits (fuel : nat) (pw : list Z) (i : Z) : list Z :=
  match fuel with
  | O => []
  | S fuel => if i =? 0 then [] else (if Z.odd i then [0] else take 1 pw) ++ by_bits fuel pw (Z.shiftr i 1)
  end.

Definition apr1_start (pw salt : list Z) : list Z :=
  let n := S (length pw) in
  md5 (pw ++ apr1_id ++ salt ++ by_length n (md5 (pw ++ salt ++ pw)) (zlen pw) ++ by_bits n pw (zlen pw)).

Definition apr1_round (pw salt : list Z) (i : Z) (final : list Z) : list Z :=
  md5 ((if Z.odd i then pw else final) ++ (if i mod 3 =? 0 then [] else salt) ++
       (if i mod 7 =? 0 then [] else pw) ++ (if Z.odd i then final else pw)).

Fixpoint apr1_rounds (n : nat) (pw salt : list Z) (i : Z) (final : list Z) : list Z :=
  match n with
  | O => final
  | S n => apr1_rounds n pw salt (i + 1) (apr1_round pw salt i final)
  end.

Fixpoint text64 (v : Z) (n : nat) : list Z :=
  match n with
  | O => []
  | S n => nth (Z.to_nat (Z.land v 0x3f)) itoa64 0 :: text64 (Z.shiftr v 6) n
  end.

Definition word3 (f : list Z) (a b c : nat) : Z :=
  Z.lor (Z.lor (Z.shiftl (nth a f 0) 16) (Z.shiftl (nth b f 0) 8)) (nth c f 0).

Definition final_text (f : list Z) : list Z :=
  text64 (word3 f 0 6 12) 4 ++ text64 (word3 f 1 7 13) 4 ++ text64 (word3 f 2 8 14) 4 ++
  text64 (word3 f 3 9 15) 4 ++ text64 (word3 f 4 10 5) 4 ++ text64 (nth 11 f 0) 2.

(** The hash string of a password and a refined salt. *)
Definition apr1 (pw salt : list Z) : list Z :=
  apr1_id ++ salt ++ DOLLAR :: final_text (apr1_rounds 1000 pw salt 0 (apr1_start pw salt)).

(** ** The password hash: proofs *)

Lemma starts_spec lit : forall m p s,
  points m p s -> 0 ∉ lit -> starts m p lit = Ok (prefixb lit s).
Proof.
  induction lit as [|x lit IH]; intros m p s Hp Hl; [done|]. apply not_elem_of_cons in Hl as [Hx Hl].
  cbn [starts]. rewrite (points_rd _ _ _ Hp). cbn [rbind]. destruct s as [|c s]; cbn [hd prefixb].
  { by zbool. }
  destruct (c =? x); cbn [andb]; [|done]. apply IH; [by eapply points_next|done].
Qed.

Lemma salt_end_spec n : forall m p s,
  points m p s -> salt_end n m p = Ok (p + zlen (take n (before DOLLAR s))).
Proof.
  induction n as [|n IH]; intros m p s Hp; cbn [salt_end]; rewrite (points_rd _ _ _ Hp); cbn [rbind];
    (destruct s as [|c s]; cbn [hd before]; [cbn [Z.eqb take]; f_equal; zl|]); pose proof (points_nz _ _ _ _ Hp); zbool.
  - destruct (c =? DOLLAR); cbn [take]; f_equal; zl.
  - destruct (c =? DOLLAR); cbn [take]; [f_equal; zl|].
    rewrite (IH _ _ _ (points_next _ _ _ _ Hp)). f_equal. zl.
Qed.

Lemma before_prefix c s : exists r, s = (before c s ++ r)%list.
Proof.
  induction s as [|b s [r IH]]; [by exists []|]. cbn. destruct (b =? c); [by exists (b :: s)|].
  exists r. cbn. by rewrite <- IH.
Qed.

Lemma prefixb_split lit s : prefixb lit s = true -> s = (lit ++ drop (length lit) s)%list.
Proof.
  revert s. induction lit as [|x lit IH]; intros [|c s]; cbn; try done.
  intros [->%Z.eqb_eq ?]%andb_true_iff. f_equal. by apply IH.
Qed.

(** The first statements of [apr_md5_encode] find the refined salt. *)
Lemma refine_spec m s :
  points m 0 s ->
  exists sp, starts m 0 apr1_id = Ok (prefixb apr1_id s) /\ sp = (if prefixb apr1_id s then zlen apr1_id else 0) /\
    salt_end 8 m sp = Ok (sp + zlen (refine s)) /\ sub m sp (zlen (refine s)) = Ok (refine s).
Proof.
  intros Hp. exists (if prefixb apr1_id s then zlen apr1_id else 0). split; [|split; [done|]].
  { apply starts_spec; [done|]. apply occurs_false. reflexivity. }
  set (sp := if prefixb apr1_id s then zlen apr1_id else 0).
  set (s1 := if prefixb apr1_id s then drop (length apr1_id) s else s).
  assert (Hs1 : points m sp s1).
  { subst sp s1. destruct (prefixb apr1_id s) eqn:E; [|done].
    rewrite (prefixb_split _ _ E) in Hp. by apply points_app in Hp. }
  split; [apply (salt_end_spec 8 _ _ _ Hs1)|].
  destruct (before_prefix DOLLAR s1) as [r Hr]. destruct Hs1 as [Hs1 _].
  rewrite Hr, <- (take_drop 8 (before DOLLAR s1)), <- !app_assoc in Hs1. apply has_bytes_app in Hs1 as [Hs1 _].
  by apply has_bytes_sub.
Qed.

Abbreviation fed := (md_holds MD5Transform).

Lemma fed_update c m d :
  fed c m -> zlen d <= 2 ^ 32 - 64 -> exists c', md5_update_buffer c d = Ok c' /\ fed c' (m ++ d).
Proof. apply md_holds_update. Qed.

Lemma fed_init mem : length mem = 64%nat -> fed (apr_md5_init mem) [].
Proof. apply md_holds_init. Qed.

Lemma fed_final c m : fed c m -> apr_md5_final c = Ok (md5 m, zero_ctx).
Proof. apply md_holds_final. Qed.

(** Run one update of a fed context. *)
Ltac feed_step H :=
  let c := fresh "c" in let Hu := fresh "Hu" in let Hn := fresh "Hf" in
  match goal with
  | |- context [md5_update_buffer ?x ?d] =>
      destruct (fed_update x _ d H) as (c & Hu & Hn); [|rewrite Hu; cbn [rbind]; clear Hu H; rename Hn into H]
  end.

Lemma length_md5 m : length (md5 m) = 16%nat.
Proof. unfold md5, digest, out_regs. by destruct (absorb _ _ _) as [[[? ?] ?] ?]. Qed.

Lemma update_by_length_spec fuel : forall c m final pl,
  fed c m -> length final = 16%nat -> pl < Z.of_nat fuel ->  (0 < fuel)%nat ->
  exists c', update_by_length fuel c final pl = Ok c' /\ fed c' (m ++ by_length fuel final pl).
Proof.
  induction fuel as [|fuel IH]; intros c m final pl Hc Hl Hf Hp; [lia|]. cbn [update_by_length by_length].
  destruct (Z.ltb_spec 0 pl); [|exists c; by rewrite app_nil_r].
  replace (if APR_MD5_DIGESTSIZE <? pl then APR_MD5_DIGESTSIZE else pl) with (Z.min 16 pl)
    by (unfold APR_MD5_DIGESTSIZE; destruct (Z.ltb_spec 16 pl); lia).
  assert (Hsub : sub final 0 (Z.min 16 pl) = Ok (take (Z.to_nat (Z.min 16 pl)) final)).
  { pose proof (has_bytes_sub final 0 (take (Z.to_nat (Z.min 16 pl)) final)) as Hs.
    rewrite zlen_take in Hs by (unfold zlen; lia). apply Hs.
    exists [], (drop (Z.to_nat (Z.min 16 pl)) final). split; [|done]. cbn [app]. by rewrite take_drop. }
  rewrite Hsub.
  cbn [rbind]. feed_step Hc; [rewrite zlen_take; unfold zlen; lia|].
  rewrite app_assoc. apply IH; [done|done|unfold APR_MD5_DIGESTSIZE; lia|lia].
Qed.

Lemma update_by_bits_spec fuel : forall c m pw i,
  fed c m -> 0 <= i < Z.of_nat fuel -> (i <> 0 -> pw <> []) -> 
  exists c', update_by_bits fuel c (replicate 16 0) pw i = Ok c' /\ fed c' (m ++ by_bits fuel pw i).
Proof.
  induction fuel as [|fuel IH]; intros c m pw i Hc Hi Hpw; [lia|]. cbn [update_by_bits by_bits].
  destruct (Z.eqb_spec i 0) as [->|Hne]; [exists c; by rewrite app_nil_r|]. destruct pw as [|x pw]; [by destruct Hpw|].
  replace (sub (if Z.odd i then replicate 16 0 else x :: pw) 0 1) with (@Ok (list Z) (if Z.odd i then [0] else [x])).
  2: { destruct (Z.odd i); symmetry; [reflexivity|]. apply (has_bytes_sub (x :: pw) 0 [x]). by exists [], pw. }
  cbn [rbind]. feed_step Hc; [by destruct (Z.odd i)|]. cbn [take]. rewrite app_assoc.
  assert (Hs : 0 <= Z.shiftr i 1 < i) by (rewrite Z.shiftr_div_pow2 by lia; Z.to_euclidean_division_equations; lia).
  apply IH; [done|lia|done].
Qed.

Section password.
Context (pw salt : list Z).
Hypothesis pw_len : zlen pw <= 2 ^ 32 - 64.
Hypothesis salt_len : zlen salt <= 8.

Lemma md5_mix_spec mem mem1 :
  length mem = 64%nat -> length mem1 = 64%nat ->
  exists c m, md5_mix mem mem1 pw salt = Ok (c, zero_ctx) /\ fed c m /\ md5 m = apr1_start pw salt.
Proof.
  intros Hm Hm1. unfold md5_mix, apr_md5_update.
  pose proof (fed_init mem Hm) as Hc. pose proof (fed_init mem1 Hm1) as Hc1.
  feed_step Hc; [done|]. feed_step Hc; [vm_compute; congruence|]. feed_step Hc; [lia|].
  feed_step Hc1; [done|]. feed_step Hc1; [lia|]. feed_step Hc1; [done|].
  rewrite (fed_final _ _ Hc1). cbn [rbind].
  destruct (update_by_length_spec (S (length pw)) _ _ (md5 ((([] ++ pw) ++ salt) ++ pw)) (zlen pw) Hc (length_md5 _))
    as (c6 & -> & Hc6); [unfold zlen; lia|lia|]. cbn [rbind].
  destruct (update_by_bits_spec (S (length pw)) _ _ pw (zlen pw) Hc6) as (c7 & Hu & Hc7);
    [unfold zlen; lia|intros ? ->; done|].
  change (Z.to_nat APR_MD5_DIGESTSIZE) with 16%nat. rewrite Hu. cbn [rbind]. eexists _, _. split; [done|].
  split; [exact Hc7|]. unfold apr1_start. cbn [app]. by rewrite <- !app_assoc.
Qed.

Lemma md5_round_spec i c final :
  length (buffer c) = 64%nat -> length final = 16%nat ->
  md5_round pw salt i c final = Ok (apr1_round pw salt i final, zero_ctx).
Proof.
  intros Hb Hf. unfold md5_round, apr_md5_update. pose proof (fed_init _ Hb) as Hc.
  assert (Hfl : zlen final <= 2 ^ 32 - 64) by (unfold zlen; lia).
  unfold apr1_round. destruct (Z.odd i), (i mod 3 =? 0), (i mod 7 =? 0); cbn [rbind app];
    repeat (feed_step Hc; [done || lia|]); rewrite (fed_final _ _ Hc); cbn [app]; by rewrite <- ?app_assoc.
Qed.

Lemma md5_rounds_spec n : forall i c final,
  length (buffer c) = 64%nat -> length final = 16%nat ->
  md5_rounds n pw salt i c final = Ok (apr1_rounds n pw salt i final).
Proof.
  induction n as [|n IH]; intros i c final Hb Hf; cbn [md5_rounds apr1_rounds]; [done|].
  rewrite md5_round_spec by done. cbn [rbind]. apply IH; [done|apply length_md5].
Qed.

Lemma length_apr1_rounds n i final : length final = 16%nat -> length (apr1_rounds n pw salt i final) = 16%nat.
Proof. revert i final. induction n as [|n IH]; intros i final Hf; cbn [apr1_rounds]; [done|]. apply IH, length_md5. Qed.
End password.

(** ** The text of the hash *)

Lemma itoa64_ok x : rd itoa64 (Z.land x 0x3f) = Ok (nth (Z.to_nat (Z.land x 0x3f)) itoa64 0) /\
  is_byte (nth (Z.to_nat (Z.land x 0x3f)) itoa64 0) /\ nth (Z.to_nat (Z.land x 0x3f)) itoa64 0 <> 0.
Proof.
  assert (Hx : fits 6 (Z.land x 0x3f)) by fits_tac. revert Hx. generalize (Z.land x 0x3f).
  apply (forall_below (fun x => rd itoa64 x = Ok (nth (Z.to_nat x) itoa64 0) /\
    is_byte (nth (Z.to_nat x) itoa64 0) /\ nth (Z.to_nat x) itoa64 0 <> 0) 64). vm_compute. reflexivity.
Qed.

Lemma to64_spec n : forall m l v,
  zlen l + Z.of_nat n <= zlen m ->
  to64 (splice m 0 l) (zlen l) v n = Ok (splice m 0 (l ++ text64 v n)).
Proof.
  induction n as [|n IH]; intros m l v Hl; cbn [to64 text64]; [by rewrite app_nil_r|].
  destruct (itoa64_ok v) as (-> & Hb & _). cbn [rbind]. rewrite wr_splice0 by lia. cbn [rbind].
  rewrite u8_byte by done. replace (zlen l + 1) with (zlen (l ++ [nth (Z.to_nat (Z.land v 0x3f)) itoa64 0])) by zl.
  rewrite IH by (autorewrite with zlen; lia). by rewrite <- app_assoc.
Qed.

Lemma length_text64 v n : length (text64 v n) = n.
Proof. revert v. induction n as [|n IH]; intros v; cbn; [done|]. by rewrite IH. Qed.

Lemma text64_chars v n : bytes (text64 v n) /\ 0 ∉ text64 v n.
Proof.
  revert v. induction n as [|n IH]; intros v; cbn [text64]; [split; [constructor|set_solver]|].
  destruct (itoa64_ok v) as (_ & Hb & H0), (IH (Z.shiftr v 6)) as [Hbs H0s].
  split; [by constructor|]. by apply not_elem_of_cons.
Qed.

Lemma rd_nth f k : length f = 16%nat -> 0 <= k < 16 -> rd f k = Ok (nth (Z.to_nat k) f 0).
Proof.
  intros Hf Hk. apply rd_lookup. split; [lia|]. rewrite nth_lookup.
  destruct (lookup_lt_is_Some_2 f (Z.to_nat k)) as [x ->]; [lia|done].
Qed.

Lemma encode_final_spec m l f :
  length f = 16%nat -> zlen l + 22 < zlen m ->
  encode_final (splice m 0 l) (zlen l) f = Ok (splice m 0 (l ++ final_text f ++ [0])).
Proof.
  intros Hf Hm. unfold encode_final, three. rewrite !rd_nth by (done || lia). cbn [rbind].
  assert (Hz : forall v n, zlen (text64 v n) = Z.of_nat n) by (intros; unfold zlen; by rewrite length_text64).
  repeat match goal with
  | |- context [to64 (splice m 0 ?k) ?p ?v ?n] =>
      replace p with (zlen k) by (autorewrite with zlen; rewrite ?Hz; lia);
      rewrite (to64_spec n m k v) by (autorewrite with zlen; rewrite ?Hz; lia); cbn [rbind]
  end.
  match goal with |- wr (splice m 0 ?k) ?p _ = _ => replace p with (zlen k) by (autorewrite with zlen; rewrite ?Hz; lia) end.
  rewrite wr_splice0 by (autorewrite with zlen; rewrite ?Hz; lia). unfold final_text, word3. by rewrite <- !app_assoc.
Qed.

Lemma passwd_head_spec passwd salt :
  zlen passwd = 120 -> zlen salt <= 8 ->
  passwd_head passwd salt = Ok (splice passwd 0 ((apr1_id ++ salt ++ [DOLLAR]) ++ [0])).
Proof.
  intros Hp Hs. unfold passwd_head. pose proof (zlen_nonneg salt).
  assert (H6 : zlen apr1_id = 6) by reflexivity.
  rewrite blit_ok by (rewrite ?zlen_app, ?H6; zl). cbn [rbind].
  rewrite blit_ok by (rewrite ?zlen_splice; rewrite ?zlen_app, ?H6; zl). cbn [rbind].
  rewrite (splice_tail0 passwd apr1_id [0] (salt ++ [0])) by (rewrite ?H6; zl).
  rewrite app_assoc, <- zlen_app.
  rewrite blit_ok by (rewrite ?zlen_splice; rewrite ?zlen_app, ?H6; zl).
  rewrite (splice_tail0 passwd (apr1_id ++ salt) [0] [DOLLAR; 0]) by (rewrite ?zlen_app, ?H6; zl).
  by rewrite <- !app_assoc.
Qed.

Lemma refine_chars s : bytes s -> 0 ∉ s -> bytes (refine s) /\ 0 ∉ refine s /\ DOLLAR ∉ refine s /\ zlen (refine s) <= 8.
Proof.
  intros Hb H0. unfold refine. set (s1 := if prefixb apr1_id s then _ else _).
  assert (Hs1 : bytes s1 /\ 0 ∉ s1).
  { subst s1. destruct (prefixb apr1_id s); [|done]. split; [by apply Forall_drop|].
    by apply not_elem_drop. }
  destruct Hs1 as [Hb1 H01]. destruct (before_prefix DOLLAR s1) as [r Hr].
  assert (Hd : DOLLAR ∉ before DOLLAR s1).
  { clear. generalize s1. intros k. induction k as [|c k IH]; cbn; [set_solver|]. destruct (Z.eqb_spec c DOLLAR); set_solver. }
  rewrite Hr in Hb1, H01. apply Forall_app in Hb1 as [Hb1 _]. rewrite not_elem_of_app in H01.
  split; [by apply Forall_take|]. split; [apply not_elem_take, H01|].
  split; [by apply not_elem_take|]. unfold zlen. rewrite length_take. lia.
Qed.

Lemma length_final_text f : length (final_text f) = 22%nat.
Proof. unfold final_text. by rewrite !length_app, !length_text64. Qed.

Lemma final_text_chars f : bytes (final_text f) /\ 0 ∉ final_text f.
Proof.
  assert (H : forall n, n ∈ final_text f -> is_byte n /\ n <> 0).
  { intros n Hn. unfold final_text in Hn. repeat (apply elem_of_app in Hn as [Hn|Hn]);
      match type of Hn with n ∈ text64 ?v ?k => destruct (text64_chars v k) as [Hb H0] end;
      (split; [|by intros ->]); eapply Forall_forall; eauto. }
  split; [apply Forall_forall; intros x Hx; by apply H|]. intros H0. by destruct (H 0 H0).
Qed.

(** The end of [apr_md5_encode]: the text after the salt, and the copy out. *)
Lemma passwd_tail_spec passwd L f result nbytes :
  zlen passwd = 120 -> zlen L <= 15 -> bytes L -> 0 ∉ L -> length f = 16%nat -> 39 <= nbytes <= zlen result ->
  (do p <- strlen (splice passwd 0 (L ++ [0])) 0;
   do passwd <- encode_final (splice passwd 0 (L ++ [0])) p f;
   do (result, _) <- apr_cpystrn result 0 (Some (passwd, 0)) (nbytes - 1);
   Ok result) = Ok (splice result 0 ((L ++ final_text f) ++ [0])).
Proof.
  intros Hp HL Hb H0 Hf Hn. pose proof (zlen_nonneg L).
  assert (Ht : zlen (final_text f) = 22) by (unfold zlen; by rewrite length_final_text).
  destruct (final_text_chars f) as [Htb Ht0].
  rewrite (strlen_ok _ 0 L) by (done || apply has_bytes_splice; zl). cbn [rbind].
  assert (Hr : splice passwd 0 (L ++ [0]) = splice (splice passwd 0 (L ++ [0])) 0 L).
  { symmetry. rewrite <- (app_nil_l L) at 2. rewrite <- (splice_nil (splice passwd 0 (L ++ [0])) 0) at 2 by lia.
    rewrite splice_nil by lia. apply (splice_over passwd 0 [] L L [0]); [lia|done|zl]. }
  rewrite Hr, encode_final_spec by (done || rewrite zlen_splice; zl). cbn [rbind]. rewrite app_assoc.
  rewrite (cpystrn_spec _ _ 0 (L ++ final_text f)); [| | |lia|zl].
  - cbn [rbind]. rewrite take_ge; [done|]. rewrite length_app, length_final_text. unfold zlen in *. lia.
  - split; [apply has_bytes_splice; [lia|rewrite zlen_splice; zl]|]. by apply not_elem_of_app.
  - by apply Forall_app.
Qed.

(** The hash of a password under a salt. *)
Lemma md5_encode_spec mem mem1 passwd pw salt postp posts result nbytes :
  length mem = 64%nat -> length mem1 = 64%nat -> zlen passwd = 120 ->
  bytes salt -> 0 ∉ salt -> 0 ∉ pw -> zlen pw <= 2 ^ 32 - 64 ->
  39 <= nbytes <= zlen result ->
  apr_md5_encode mem mem1 passwd (pw ++ 0 :: postp) (salt ++ 0 :: posts) result nbytes =
    Ok (splice result 0 (apr1 pw (refine salt) ++ [0])).
Proof.
  intros Hm Hm1 Hpw120 Hsb Hs0 Hp0 Hpl Hn. unfold apr_md5_encode.
  destruct (refine_spec (salt ++ 0 :: posts) salt (points_intro [] salt posts Hs0)) as (sp & -> & Hsp & Hend & Hsub).
  destruct (refine_chars salt Hsb Hs0) as (Hrb & Hr0 & _ & Hr8). set (sa := refine salt) in *.
  cbn [rbind]. cbv zeta. rewrite <- Hsp, Hend. cbn [rbind]. replace (sp + zlen sa - sp) with (zlen sa) by lia.
  rewrite Hsub. cbn [rbind]. rewrite (strlen_ok _ 0 pw); [|by exists [], postp; rewrite <- app_assoc|done].
  cbn [rbind]. rewrite (has_bytes_sub _ 0 pw) by (by exists [], (0 :: postp)). cbn [rbind].
  destruct (md5_mix_spec pw sa Hpl Hr8 mem mem1 Hm Hm1) as (c & m & -> & Hc & Hst). cbn [rbind].
  rewrite passwd_head_spec by done. cbn [rbind]. rewrite (fed_final _ _ Hc), Hst. cbn [rbind].
  rewrite (md5_rounds_spec pw sa Hpl Hr8 1000) by (done || apply length_md5). cbn [rbind].
  set (f := apr1_rounds _ _ _ _ _). set (L := (apr1_id ++ sa ++ [DOLLAR])%list).
  assert (Hf : length f = 16%nat) by (apply length_apr1_rounds, length_md5).
  assert (HL : bytes L /\ 0 ∉ L /\ zlen L <= 15).
  { subst L. split; [|split].
    - apply Forall_app. split; [apply (bool_decide_unpack _); vm_compute; exact I|].
      apply Forall_app. split; [done|]. repeat constructor; vm_compute; congruence.
    - rewrite !not_elem_of_app. split; [apply occurs_false; reflexivity|]. split; [done|]. apply occurs_false; reflexivity.
    - rewrite !zlen_app. change (zlen apr1_id) with 6. change (zlen [DOLLAR]) with 1. lia. }
  destruct HL as (HLb & HL0 & HL15). rewrite (passwd_tail_spec passwd L f result nbytes) by (done || lia).
  unfold apr1. subst L. by rewrite <- !app_assoc.
Qed.

Lemma refine_apr1 pw sa : DOLLAR ∉ sa -> zlen sa <= 8 -> refine (apr1 pw sa) = sa.
Proof.
  intros Hd Hl. unfold refine, apr1. set (t := final_text _).
  assert (Hpre : forall s, prefixb apr1_id (apr1_id ++ s) = true) by (intros; reflexivity).
  rewrite Hpre, drop_app_length, before_app by done. apply take_ge. unfold zlen in Hl. lia.
Qed.

(** A password validates against its own hash. For every password and
    salt string, [apr_md5_encode] ends, never writes outside its local array of
    120 characters or the result, and produces "$apr1$", the salt up to its first
    dollar and at most 8 characters, a dollar and 22 characters; encoding the same
    password with that hash string as the salt gives the same string again, as
    password validation relies on. *)
Theorem md5_encode_validates mem mem1 passwd pw salt postp posts result nbytes :
  length mem = 64%nat -> length mem1 = 64%nat -> zlen passwd = 120 ->
  bytes salt -> 0 ∉ salt -> 0 ∉ pw -> zlen pw <= 2 ^ 32 - 64 ->
  39 <= nbytes <= zlen result ->
  exists hash rest,
    apr_md5_encode mem mem1 passwd (pw ++ 0 :: postp) (salt ++ 0 :: posts) result nbytes = Ok (hash ++ 0 :: rest)%list /\
    hash = (apr1_id ++ refine salt ++ DOLLAR :: drop (length apr1_id + length (refine salt) + 1) hash)%list /\
    zlen hash = 29 + zlen (refine salt) /\
    apr_md5_encode mem mem1 passwd (pw ++ 0 :: postp) (hash ++ 0 :: rest) result nbytes = Ok (hash ++ 0 :: rest)%list.
Proof.
  intros Hm Hm1 Hp Hsb Hs0 Hp0 Hpl Hn. destruct (refine_chars salt Hsb Hs0) as (Hrb & Hr0 & Hrd & Hr8).
  set (h := apr1 pw (refine salt)). exists h, (drop (Z.to_nat (zlen (h ++ [0]))) result).
  assert (Hrest : splice result 0 (h ++ [0]) = (h ++ 0 :: drop (Z.to_nat (zlen (h ++ [0]))) result)%list).
  { unfold splice. change (Z.to_nat 0) with O. by rewrite take_0, Z.add_0_l, <- app_assoc. }
  rewrite md5_encode_spec by done. fold h. rewrite Hrest. split; [done|]. split; [|split].
  - subst h. unfold apr1. set (t := final_text _). do 2 f_equal.
    rewrite app_assoc, <- length_app, drop_app_add. reflexivity.
  - subst h. unfold apr1. rewrite zlen_app, zlen_app, zlen_cons. change (zlen apr1_id) with 6.
    unfold zlen at 2. rewrite length_final_text. lia.
  - assert (Hc : bytes h /\ 0 ∉ h).
    { subst h. unfold apr1. destruct (final_text_chars (apr1_rounds 1000 pw (refine salt) 0 (apr1_start pw (refine salt)))).
      split; [apply Forall_app; split; [apply (bool_decide_unpack _); vm_compute; exact I|]|].
      - apply Forall_app. split; [done|]. constructor; [vm_compute; split; congruence|done].
      - rewrite !not_elem_of_app, not_elem_of_cons. split; [apply occurs_false; reflexivity|done]. }
    rewrite md5_encode_spec by (done || apply Hc). subst h. rewrite refine_apr1 by done. by rewrite Hrest.
Qed.

Lemma md5_encode_validates_witness :
  exists hash rest,
    apr_md5_encode (replicate 64 1) (replicate 64 2) (replicate 120 3) (str "sesame" ++ 0 :: []) (str "NaCl" ++ 0 :: [])
      (replicate 40 5) 40 = Ok (hash ++ 0 :: rest)%list /\ zlen hash = 33.
Proof.
  destruct (md5_encode_validates (replicate 64 1) (replicate 64 2) (replicate 120 3) (str "sesame") (str "NaCl") [] []
    (replicate 40 5) 40) as (h & r & H1 & _ & H2 & _); try reflexivity; try (vm_compute; split; congruence);
    try (vm_compute; congruence); [conc|apply occurs_false; reflexivity|apply occurs_false; reflexivity|].
  exists h, r. split; [exact H1|exact H2].
Defined.
