(* ===== verification/AprSha1.v ===== *)
(** * SHA-1: [src/apr-util/crypto/apr_sha1.c]

    The context keeps the 64 bytes of its data in memory order; a little-endian
    host, as the project's build is, reverses the bytes of every word before the
    transformation. *)

From S2P Require Import Prelude AprCpystrn AprBase64 AprDigest.

Definition SHA_BLOCKSIZE : Z := 64.
Definition APR_SHA1_DIGESTSIZE : Z := 20.

Record apr_sha1_ctx_t := mk_sha1 {
  digest_words : list Z;      (* digest[5] *)
  count_lo : Z;
  count_hi : Z;
  data : list Z;              (* the 64 bytes of data[16] *)
  local : Z
}.

Definition f1 (x y z : Z) : Z := Z.lor (Z.land x y) (Z.land (not32 x) z).
Definition f2 (x y z : Z) : Z := Z.lxor (Z.lxor x y) z.
Definition f3 (x y z : Z) : Z := Z.lor (Z.lor (Z.land x y) (Z.land x z)) (Z.land y z).
Definition f4 (x y z : Z) : Z := Z.lxor (Z.lxor x y) z.

Definition CONST1 : Z := 0x5a827999.
Definition CONST2 : Z := 0x6ed9eba1.
Definition CONST3 : Z := 0x8f1bbcdc.
Definition CONST4 : Z := 0xca62c1d6.

(** The registers A, B, C, D, E. *)
Definition regs : Type := Z * Z * Z * Z * Z.

Definition FUNC (f : Z -> Z -> Z -> Z) (k : Z) (W : list Z) (r : regs) (i : nat) : regs :=
  let '(A, B, C, D, E) := r in
  let temp := u32 (rotl32 A 5 + f B C D + E + nth i W 0 + k) in
  (temp, A, rotl32 B 30, C, D).

(** [for (i = 16; i < 80; ++i) W[i] = ...], [n] words still to come. *)
Fixpoint expand (n : nat) (W : list Z) : list Z :=
  match n with
  | O => W
  | S n =>
      let i := length W in
      let w := Z.lxor (Z.lxor (Z.lxor (nth (i - 3) W 0) (nth (i - 8) W 0)) (nth (i - 14) W 0)) (nth (i - 16) W 0) in
      expand n (W ++ [rotl32 w 1])
  end.

(** The new digest words, from the digest words and the data. *)
Definition sha_transform (digest data : list Z) : list Z :=
  let W := expand 64 (le_words data) in
  match digest with
  | [d0; d1; d2; d3; d4] =>
      let r := fold_left (FUNC f1 CONST1 W) (seq 0 20) (d0, d1, d2, d3, d4) in
      let r := fold_left (FUNC f2 CONST2 W) (seq 20 20) r in
      let r := fold_left (FUNC f3 CONST3 W) (seq 40 20) r in
      let '(A, B, C, D, E) := fold_left (FUNC f4 CONST4 W) (seq 60 20) r in
      [u32 (d0 + A); u32 (d1 + B); u32 (d2 + C); u32 (d3 + D); u32 (d4 + E)]
  | _ => digest
  end.

Fixpoint maybe_byte_reverse (buffer : list Z) : list Z :=
  match buffer with
  | b0 :: b1 :: b2 :: b3 :: buffer => b3 :: b2 :: b1 :: b0 :: maybe_byte_reverse buffer
  | _ => buffer
  end.

Definition sha1_magic : list Z := [0x67452301; 0xefcdab89; 0x98badcfe; 0x10325476; 0xc3d2e1f0].

(** [mem] is what the data held before. *)
Definition apr_sha1_init (mem : list Z) : apr_sha1_ctx_t := mk_sha1 sha1_magic 0 0 mem 0.

(** [while (count >= SHA_BLOCKSIZE) { ... }], from [buffer] on: the digest, the
    data and the pointer. *)
Fixpoint update_blocks (fuel : nat) (digest data input : list Z) (buffer count : Z)
  : res (list Z * list Z * Z * Z) :=
  match fuel with
  | O => Err OutOfFuel
  | S fuel =>
      if SHA_BLOCKSIZE <=? count then
        do blk <- sub input buffer SHA_BLOCKSIZE;
        do data <- blit data 0 blk;
        let data := maybe_byte_reverse data in
        update_blocks fuel (sha_transform digest data) data input (buffer + SHA_BLOCKSIZE) (count - SHA_BLOCKSIZE)
      else Ok (digest, data, buffer, count)
  end.

Definition apr_sha1_update_binary (sha_info : apr_sha1_ctx_t) (input : list Z) : res apr_sha1_ctx_t :=
  let count := zlen input in
  let bits := u32 (Z.shiftl count 3) in
  let hi := if u32 (count_lo sha_info + bits) <? count_lo sha_info then u32 (count_hi sha_info + 1) else count_hi sha_info in
  let lo := u32 (count_lo sha_info + bits) in
  let hi := u32 (hi + Z.shiftr count 29) in
  do step <-
    (if local sha_info =? 0 then Ok (inr (digest_words sha_info, data sha_info, 0))
     else
       let i := if count <? SHA_BLOCKSIZE - local sha_info then count else SHA_BLOCKSIZE - local sha_info in
       do part <- sub input 0 i;
       do dat <- blit (data sha_info) (local sha_info) part;
       let loc := local sha_info + i in
       if loc =? SHA_BLOCKSIZE then
         let dat := maybe_byte_reverse dat in
         Ok (inr (sha_transform (digest_words sha_info) dat, dat, i))
       else Ok (inl (mk_sha1 (digest_words sha_info) lo hi dat loc)));
  match step with
  | inl sha_info => Ok sha_info
  | inr (dig, dat, buffer) =>
      do (dig, dat, buffer, count) <- update_blocks (S (length input)) dig dat input buffer (count - buffer);
      do rest <- sub input buffer count;
      do dat <- blit dat 0 rest;
      Ok (mk_sha1 dig lo hi dat count)
  end.

Definition apr_sha1_update (sha_info : apr_sha1_ctx_t) (buf : list Z) : res apr_sha1_ctx_t :=
  apr_sha1_update_binary sha_info buf.

(** [digest[j++] = (k >> 24) & 0xff; ...] for the five words. *)
Fixpoint be_bytes (ws : list Z) : list Z :=
  match ws with
  | k :: ws =>
      Z.land (Z.shiftr k 24) 0xff :: Z.land (Z.shiftr k 16) 0xff :: Z.land (Z.shiftr k 8) 0xff :: Z.land k 0xff ::
      be_bytes ws
  | [] => []
  end.

(** The 0x80 and the zeros: the digest and the data before the bit count. *)
Definition pad_data (sha_info : apr_sha1_ctx_t) (count : Z) : res (list Z * list Z) :=
  do dat <- wr (data sha_info) count 0x80;
  let count := count + 1 in
  if SHA_BLOCKSIZE - 8 <? count then
    do dat <- blit dat count (replicate (Z.to_nat (SHA_BLOCKSIZE - count)) 0);
    let dat := maybe_byte_reverse dat in
    let dig := sha_transform (digest_words sha_info) dat in
    do dat <- blit dat 0 (replicate (Z.to_nat (SHA_BLOCKSIZE - 8)) 0);
    Ok (dig, dat)
  else
    do dat <- blit dat count (replicate (Z.to_nat (SHA_BLOCKSIZE - 8 - count)) 0);
    Ok (digest_words sha_info, dat).

Definition apr_sha1_final (sha_info : apr_sha1_ctx_t) : res (list Z) :=
  let lo_bit_count := count_lo sha_info in
  let hi_bit_count := count_hi sha_info in
  let count := Z.land (Z.shiftr lo_bit_count 3) 0x3f in
  do (dig, dat) <- pad_data sha_info count;
  let dat := maybe_byte_reverse dat in
  do dat <- blit dat 56 (le32 hi_bit_count);
  do dat <- blit dat 60 (le32 lo_bit_count);
  Ok (be_bytes (sha_transform dig dat)).

Definition APR_SHA1PW_ID : list Z := str "{SHA}".
Definition APR_SHA1PW_IDLEN : Z := 5.

(** [out] is an object; the encoder writes the part of it from the sixth byte on. *)
Definition apr_sha1_base64 (mem clear out : list Z) : res (list Z) :=
  let context := apr_sha1_init mem in
  do context <- apr_sha1_update context clear;
  do digest <- apr_sha1_final context;
  do (out, _) <- apr_cpystrn out 0 (Some (APR_SHA1PW_ID ++ [0], 0)%list) (APR_SHA1PW_IDLEN + 1);
  do (tail, l) <- apr_base64_encode_binary (drop (Z.to_nat APR_SHA1PW_IDLEN) out) digest APR_SHA1_DIGESTSIZE;
  let out := (take (Z.to_nat APR_SHA1PW_IDLEN) out ++ tail)%list in
  wr out (l + APR_SHA1PW_IDLEN) 0.

(** ** Feeding a context *)

Definition sha1_block (st b : list Z) : list Z := sha_transform st (maybe_byte_reverse b).

Lemma length_reverse l : length (maybe_byte_reverse l) = length l.
Proof. induction l as [|a|a b|a b c|a b c d l IH] using list_ind4; cbn; auto. Qed.

(** The context has been fed the message [m]. *)
Definition sha1_holds (c : apr_sha1_ctx_t) (m : list Z) : Prop :=
  digest_words c = absorb sha1_block sha1_magic m /\ buffered (data c) (leftover m) /\
  local c = zlen (leftover m) /\ counts (count_lo c) (count_hi c) (8 * zlen m).

Lemma sha1_holds_init mem : length mem = 64%nat -> sha1_holds (apr_sha1_init mem) [].
Proof.
  intros Hm. split; [done|]. split; [by apply buffered_nil|]. split; [done|]. vm_compute. intuition congruence.
Qed.

Lemma sha1_blocks_spec l : forall pre fuel st dat,
  length dat = 64%nat -> (length l < fuel)%nat ->
  exists dat', length dat' = 64%nat /\
    update_blocks fuel st dat (pre ++ l) (zlen pre) (zlen l) =
      Ok (absorb sha1_block st l, dat', zlen (pre ++ l) - zlen (leftover l), zlen (leftover l)).
Proof.
  induction l as [l Hl|b l Hb IH] using block_ind; intros pre [|fuel] st dat Hd Hf; try lia; cbn [update_blocks].
  - exists dat. split; [done|].
    replace (SHA_BLOCKSIZE <=? zlen l) with false by (symmetry; apply Z.leb_gt; unfold zlen, SHA_BLOCKSIZE; lia).
    rewrite absorb_short, leftover_short by done. do 3 f_equal. zl.
  - assert (Hzb : zlen b = SHA_BLOCKSIZE) by (unfold zlen, SHA_BLOCKSIZE; lia).
    rewrite zlen_app, Hzb. pose proof (zlen_nonneg l). zbool.
    rewrite <- Hzb, has_bytes_sub by (by exists pre, l). cbn [rbind].
    destruct (buffered_blit dat [] b) as (d1 & Hd1 & Hbuf); [by apply buffered_nil|cbn [length]; lia|].
    change (zlen []) with 0 in Hd1. rewrite Hd1. cbn [rbind]. rewrite (buffered_full _ _ Hbuf) by done. cbn [app].
    replace (zlen pre + zlen b) with (zlen (pre ++ b)) by zl. replace (zlen b + zlen l - zlen b) with (zlen l) by lia.
    rewrite (app_assoc pre b l). rewrite length_app in Hf.
    destruct (IH (pre ++ b)%list fuel (sha_transform st (maybe_byte_reverse b)) (maybe_byte_reverse b)) as (d2 & Hl2 & ->);
      [by rewrite length_reverse|lia|]. exists d2. split; [done|].
    by rewrite absorb_block, leftover_block.
Qed.

(** The end of the update, once the buffer is empty: [input = pre ++ l]. *)
Lemma sha1_rest_spec pre l st dat lo hi m :
  length dat = 64%nat -> st = absorb sha1_block sha1_magic m -> leftover m = [] ->
  counts lo hi (8 * zlen (m ++ l)) ->
  exists c,
    (do (dig, dat, buffer, count) <- update_blocks (S (length (pre ++ l))) st dat (pre ++ l) (zlen pre) (zlen l);
     do rest <- sub (pre ++ l) buffer count;
     do dat <- blit dat 0 rest;
     Ok (mk_sha1 dig lo hi dat count)) = Ok c /\ sha1_holds c (m ++ l).
Proof.
  intros Hd -> Hm Hc.
  destruct (sha1_blocks_spec l pre (S (length (pre ++ l))) (absorb sha1_block sha1_magic m) dat Hd) as (d1 & Hd1 & ->);
    [rewrite length_app; lia|]. cbn [rbind]. rewrite sub_leftover. cbn [rbind].
  destruct (buffered_blit d1 [] (leftover l)) as (d2 & Hd2 & Hbuf);
    [by apply buffered_nil|pose proof (leftover_lt l); cbn [length]; lia|].
  change (zlen []) with 0 in Hd2. rewrite Hd2. cbn [rbind]. eexists. split; [done|].
  unfold sha1_holds. cbn [digest_words data local count_lo count_hi].
  by rewrite absorb_app, leftover_app, Hm.
Qed.

Lemma sha1_counts lo hi n k :
  counts lo hi (8 * n) -> 0 <= k < 2 ^ 32 ->
  let bits := u32 (Z.shiftl k 3) in
  counts (u32 (lo + bits)) (u32 ((if u32 (lo + bits) <? lo then u32 (hi + 1) else hi) + Z.shiftr k 29)) (8 * (n + k)).
Proof.
  intros Hc Hk. cbv zeta. replace (8 * (n + k)) with (8 * n + 8 * k) by lia.
  eapply counts_add; [exact Hc|lia| |].
  - rewrite (Z.add_comm lo). apply counts_carry; [apply fits_u32|apply Hc].
  - rewrite (Z.add_comm (u32 (Z.shiftl k 3))). unfold u32.
    destruct (_ <? _); [by rewrite Zplus_mod_idemp_l|by rewrite Z.add_0_r].
Qed.

Lemma sha1_holds_update c m d :
  sha1_holds c m -> zlen d < 2 ^ 32 ->
  exists c', apr_sha1_update_binary c d = Ok c' /\ sha1_holds c' (m ++ d).
Proof.
  intros (Hst & Hbuf & Hloc & Hc) Hd. unfold apr_sha1_update_binary. pose proof (zlen_nonneg d).
  pose proof (sha1_counts _ _ _ (zlen d) Hc ltac:(lia)) as Hc'. cbv zeta in Hc'. rewrite <- zlen_app in Hc'.
  revert Hc'. generalize (u32 ((if u32 (count_lo c + u32 (Z.shiftl (zlen d) 3)) <? count_lo c then
    u32 (count_hi c + 1) else count_hi c) + Z.shiftr (zlen d) 29)).
  generalize (u32 (count_lo c + u32 (Z.shiftl (zlen d) 3))). intros lo hi Hc'.
  rewrite Hloc. destruct (Z.eqb_spec (zlen (leftover m)) 0) as [E0|E0]; cbn [rbind].
  { assert (Hl : leftover m = []) by (destruct (leftover m); [done|zl]).
    rewrite Z.sub_0_r. apply (sha1_rest_spec [] d); [apply Hbuf|done|done|done]. }
  pose proof (leftover_lt m) as Hlt. set (L := leftover m) in *. unfold SHA_BLOCKSIZE.
  destruct (Z.ltb_spec (zlen d) (64 - zlen L)) as [Hs|Hs].
  - rewrite (has_bytes_sub d 0 d) by (exists [], []; by rewrite app_nil_r). cbn [rbind].
    destruct (buffered_blit (data c) L d Hbuf) as (d1 & -> & Hb1); [unfold zlen in *; lia|]. cbn [rbind].
    assert (Hlen : (length (L ++ d) < 64)%nat) by (rewrite length_app; unfold zlen in *; lia).
    zbool. cbn [rbind]. eexists. split; [done|]. unfold sha1_holds. cbn [digest_words data local count_lo count_hi].
    rewrite absorb_app, leftover_app, absorb_short, leftover_short, zlen_app by done. done.
  - set (d1 := take (64 - length L) d). set (d2 := drop (64 - length L) d).
    assert (Hdd : d = (d1 ++ d2)%list) by (symmetry; apply take_drop).
    assert (Hl1 : length d1 = (64 - length L)%nat) by (subst d1; rewrite length_take; unfold zlen in *; lia).
    replace (64 - zlen L) with (zlen d1) by (unfold zlen; lia).
    rewrite Hdd, (has_bytes_sub _ 0 d1) by (by exists [], d2). cbn [rbind].
    destruct (buffered_blit (data c) L d1 Hbuf) as (b1 & -> & Hb1); [lia|]. cbn [rbind].
    assert (H64 : length (L ++ d1) = 64%nat) by (rewrite length_app; lia).
    rewrite (buffered_full _ _ Hb1 H64). replace (zlen L + zlen d1) with 64 by (unfold zlen; lia). cbn [rbind Z.eqb Pos.eqb].
    rewrite zlen_app. replace (zlen d1 + zlen d2 - zlen d1) with (zlen d2) by lia.
    rewrite (app_assoc m d1 d2). apply sha1_rest_spec.
    + by rewrite length_reverse.
    + rewrite Hst, absorb_app. fold L. rewrite <- (app_nil_r (L ++ d1)), absorb_block by done.
      by rewrite (absorb_short _ _ []), app_nil_r by (cbn; lia).
    + rewrite leftover_app. fold L. by rewrite <- (app_nil_r (L ++ d1)), leftover_block.
    + by rewrite <- app_assoc, <- Hdd.
Qed.

Lemma reverse_app a b : (length a mod 4 = 0)%nat -> maybe_byte_reverse (a ++ b) = (maybe_byte_reverse a ++ maybe_byte_reverse b)%list.
Proof.
  induction a as [|a1|a1 a2|a1 a2 a3|a1 a2 a3 a4 a IH] using list_ind4; intros Ha; try (cbn in Ha; lia); [done|].
  cbn [maybe_byte_reverse app]. rewrite IH; [done|]. cbn [length] in Ha.
  replace (S (S (S (S (length a)))))%nat with (length a + 1 * 4)%nat in Ha by lia. by rewrite Nat.Div0.mod_add in Ha.
Qed.

Lemma be_bytes_be32 k l : be_bytes (k :: l) = (be32 k ++ be_bytes l)%list.
Proof.
  cbn [be_bytes be32 app]. change 0xff with (Z.ones 8). by rewrite !Z.land_ones, !Z.shiftr_div_pow2 by lia.
Qed.

(** The bit counts stored over the last two words. *)
Lemma store_counts dat p lo hi :
  buffered dat p -> length p = 56%nat -> 
  exists d1, blit (maybe_byte_reverse dat) 56 (le32 hi) = Ok d1 /\
    blit d1 60 (le32 lo) = Ok (maybe_byte_reverse (p ++ be32 hi ++ be32 lo)).
Proof.
  intros (Hd & _ & Ht) Hp. rewrite <- (take_drop 56 dat). rewrite Hp in Ht. rewrite Ht, reverse_app by (by rewrite Hp).
  assert (Hr56 : length (maybe_byte_reverse p) = 56%nat) by (by rewrite length_reverse).
  assert (Hr8 : length (maybe_byte_reverse (drop 56 dat)) = 8%nat) by (rewrite length_reverse, length_drop; lia).
  set (q := maybe_byte_reverse p) in *. set (e := maybe_byte_reverse (drop 56 dat)) in *.
  assert (Hb : buffered (q ++ e) q).
  { split; [rewrite length_app; lia|]. split; [lia|]. apply take_app_length. }
  destruct (buffered_blit _ _ (le32 hi) Hb ltac:(cbn; lia)) as (d1 & H1 & Hb1).
  destruct (buffered_blit _ _ (le32 lo) Hb1 ltac:(rewrite length_app; cbn; lia)) as (d2 & H2 & Hb2).
  exists d1. replace 56 with (zlen q) by (unfold zlen; lia). split; [done|].
  replace 60 with (zlen (q ++ le32 hi)) by (rewrite zlen_app; unfold zlen; rewrite Hr56; done). rewrite H2. f_equal.
  rewrite (buffered_full _ _ Hb2) by (rewrite !length_app; cbn; lia). rewrite reverse_app by (by rewrite Hp).
  by rewrite <- app_assoc.
Qed.

Definition sha1 : list Z -> list Z := digest sha1_block sha1_magic be64 be_bytes.

Lemma pad_data_spec c m :
  sha1_holds c m ->
  exists dig dat p, pad_data c (zlen (leftover m)) = Ok (dig, dat) /\ buffered dat p /\ length p = 56%nat /\
    sha1 m = be_bytes (sha1_block dig (p ++ be64 (8 * zlen m mod 2 ^ 64))).
Proof.
  intros (Hst & Hbuf & _). pose proof (leftover_lt m) as Hlt. unfold pad_data, sha1, SHA_BLOCKSIZE.
  set (L := leftover m) in *. destruct (buffered_mark _ _ Hbuf Hlt) as (d1 & -> & Hb1). cbn [rbind].
  replace (zlen L + 1) with (zlen (L ++ [0x80])) by zl.
  assert (Hz1 : zlen (L ++ [0x80]) = Z.of_nat (length L) + 1) by (unfold zlen; rewrite length_app; cbn; lia).
  assert (Hlen : forall n, length (L ++ 0x80 :: replicate n 0) = (length L + 1 + n)%nat)
    by (intros n; rewrite length_app; cbn [length]; rewrite length_replicate; lia).
  destruct (Z.ltb_spec (64 - 8) (zlen (L ++ [0x80]))) as [Hge|Hle].
  - replace (Z.to_nat (64 - zlen (L ++ [0x80]))) with (63 - length L)%nat by lia.
    destruct (buffered_blit _ _ (replicate (63 - length L) 0) Hb1) as (d2 & -> & Hb2);
      [rewrite length_app, length_replicate; cbn [length]; lia|]. cbn [rbind]. rewrite <- app_assoc in Hb2. cbn [app] in Hb2.
    rewrite (buffered_full _ _ Hb2) by (rewrite Hlen; lia).
    destruct (buffered_blit (maybe_byte_reverse (L ++ 0x80 :: replicate (63 - length L) 0)) [] (replicate 56 0)) as (d3 & Hd3 & Hb3);
      [apply buffered_nil; rewrite length_reverse, Hlen; lia|rewrite length_replicate; cbn; lia|].
    change (zlen []) with 0 in Hd3. change (Z.to_nat (64 - 8)) with 56%nat. rewrite Hd3. cbn [rbind].
    eexists _, d3, _. split; [done|]. split; [exact Hb3|]. split; [done|].
    rewrite digest_two_blocks by (done || fold L; lia). by rewrite Hst.
  - replace (Z.to_nat (64 - 8 - zlen (L ++ [0x80]))) with (55 - length L)%nat by lia.
    destruct (buffered_blit _ _ (replicate (55 - length L) 0) Hb1) as (d2 & -> & Hb2);
      [rewrite length_app, length_replicate; cbn [length]; lia|]. cbn [rbind]. rewrite <- app_assoc in Hb2. cbn [app] in Hb2.
    eexists _, d2, _. split; [done|]. split; [exact Hb2|]. split; [rewrite Hlen; lia|].
    rewrite digest_one_block by (done || fold L; lia). by rewrite Hst.
Qed.

Lemma sha1_holds_final c m : sha1_holds c m -> apr_sha1_final c = Ok (sha1 m).
Proof.
  intros Hh. pose proof Hh as (_ & _ & _ & Hc). unfold apr_sha1_final.
  rewrite (counts_index _ _ _ Hc), <- zlen_leftover by apply zlen_nonneg.
  destruct (pad_data_spec c m Hh) as (dig & dat & p & -> & Hb & Hp & ->). cbn [rbind].
  destruct (counts_words _ _ _ Hc) as [Hlo Hhi].
  destruct (store_counts dat p (count_lo c) (count_hi c) Hb Hp) as (d4 & -> & H4). cbn [rbind]. rewrite H4. cbn [rbind].
  unfold sha1_block, be64. by rewrite <- Hlo, <- Hhi.
Qed.

#[global] Program Instance sha1_incremental : Incremental apr_sha1_ctx_t := {
  inc_init := apr_sha1_init;
  inc_update := apr_sha1_update;
  inc_final := apr_sha1_final;
  inc_digest := sha1;
  holds := sha1_holds
}.
Next Obligation. exact sha1_holds_init. Qed.
Next Obligation. intros c m d Hc Hd. apply sha1_holds_update; [done|lia]. Qed.
Next Obligation. exact sha1_holds_final. Qed.

(** Feeding SHA-1 in pieces. However a message is cut, initialising a context
    over any memory, updating it with the pieces in turn and finishing it ends,
    stays inside the data block, and gives the digest of the whole message (blocks
    read most significant byte first, padding to 56 bytes modulo 64, the bit count
    modulo 2^64). *)
Theorem sha1_pieces mem ds :
  length mem = 64%nat -> Forall (fun d : list Z => zlen d <= 2 ^ 32 - 64) ds ->
  (do c <- feed (apr_sha1_init mem) ds; apr_sha1_final c) = Ok (sha1 (concat ds)).
Proof. exact (feed_digest (C := apr_sha1_ctx_t) mem ds). Qed.

(** The test vector of FIPS 180 for "abc", fed in two pieces. *)
Lemma sha1_pieces_witness :
  (do c <- feed (apr_sha1_init (replicate 64 7)) [str "a"; str "bc"]; apr_sha1_final c) =
    Ok [0xa9; 0x99; 0x3e; 0x36; 0x47; 0x06; 0x81; 0x6a; 0xba; 0x3e; 0x25; 0x71; 0x78; 0x50; 0xc2; 0x6c; 0x9c; 0xd0;
        0xd8; 0x9d].
Proof.
  rewrite (sha1_pieces (replicate 64 7) [str "a"; str "bc"]); [vm_compute; reflexivity|reflexivity|].
  repeat constructor; vm_compute; congruence.
Defined.

(** ** The password form *)

Lemma length_sha1 m : length (sha1 m) = 20%nat.
Proof.
  unfold sha1, digest. set (st := absorb _ _ _). assert (Hst : length st = 5%nat); [|by do 6 (destruct st as [|? st]; [done|])].
  subst st. apply absorb_inv; [|done]. intros s b Hs. unfold sha1_block, sha_transform.
  do 5 (destruct s as [|? s]; [done|]). destruct s; [|done]. by destruct (fold_left _ _ _) as [[[[? ?] ?] ?] ?].
Qed.

Lemma bytes_sha1 m : bytes (sha1 m).
Proof.
  unfold sha1, digest. generalize (absorb sha1_block sha1_magic (padded be64 m)). intros ws.
  induction ws as [|w ws IH]; [constructor|]. rewrite be_bytes_be32. apply Forall_app. split; [|done].
  unfold be32. repeat constructor; apply mod_byte.
Qed.

(** The password form of SHA-1. [apr_sha1_base64] writes "{SHA}", the 28
    characters of the digest in Base64 and a NUL, 34 bytes; it then writes a second
    NUL one byte further, so a buffer of exactly the 34 bytes the string and its
    terminator need is overrun, and one of 35 is enough. *)
Theorem sha1_base64_overrun mem clear out :
  length mem = 64%nat -> zlen clear < 2 ^ 32 -> 34 <= zlen out ->
  apr_sha1_base64 mem clear out =
    if zlen out =? 34 then Err OutOfBounds
    else Ok (splice out 0 (APR_SHA1PW_ID ++ b64 (sha1 clear) ++ [0; 0])).
Proof.
  intros Hm Hc Ho. unfold apr_sha1_base64, apr_sha1_update.
  destruct (sha1_holds_update _ [] clear (sha1_holds_init mem Hm) Hc) as (c & -> & Hh). cbn [rbind].
  rewrite (sha1_holds_final _ _ Hh). cbn [rbind app].
  rewrite (cpystrn_spec out _ 0 APR_SHA1PW_ID);
    [|apply (points_intro [] _ []); apply occurs_false; reflexivity|conc|done|change (zlen APR_SHA1PW_ID) with 5; unfold APR_SHA1PW_IDLEN; lia].
  change (take (Z.to_nat (APR_SHA1PW_IDLEN + 1 - 1)) APR_SHA1PW_ID) with APR_SHA1PW_ID. cbn [rbind].
  assert (Hsp : splice out 0 (APR_SHA1PW_ID ++ [0]) = (APR_SHA1PW_ID ++ 0 :: drop 6 out)%list) by reflexivity.
  rewrite Hsp. change (Z.to_nat APR_SHA1PW_IDLEN) with (length APR_SHA1PW_ID).
  rewrite drop_app_length, take_app_length. set (rest := (0 :: drop 6 out)%list).
  assert (Hrest : zlen rest = zlen out - 5) by (subst rest; rewrite zlen_cons; unfold zlen; rewrite length_drop; unfold zlen in Ho; lia).
  assert (H20 : zlen (sha1 clear) = 20) by (unfold zlen; by rewrite length_sha1).
  assert (H28 : zlen (b64 (sha1 clear)) = 28) by (rewrite zlen_b64, H20; reflexivity).
  pose proof (encode_binary_spec (sha1 clear) rest) as He. rewrite H20 in He. change (apr_base64_encode_len 20) with 29 in He.
  unfold APR_SHA1_DIGESTSIZE. rewrite He by lia. cbn [rbind]. unfold APR_SHA1PW_IDLEN.
  assert (Hs2 : (APR_SHA1PW_ID ++ splice rest 0 (b64 (sha1 clear) ++ [0]) = splice out 0 (APR_SHA1PW_ID ++ b64 (sha1 clear) ++ [0]))%list).
  { unfold splice. change (Z.to_nat 0) with O. rewrite !take_0. cbn [app]. rewrite !zlen_app, H28. change (zlen APR_SHA1PW_ID) with 5.
    change (zlen [0]) with 1. subst rest. change (Z.to_nat (0 + (28 + 1))) with 29%nat.
    change (Z.to_nat (0 + (5 + (28 + 1)))) with 34%nat. change (drop 29 (0 :: drop 6 out)) with (drop 28 (drop 6 out)).
    by rewrite drop_drop, <- !app_assoc. }
  rewrite Hs2. replace (29 + 5) with (zlen (APR_SHA1PW_ID ++ b64 (sha1 clear) ++ [0])) by (rewrite !zlen_app, H28; reflexivity).
  assert (H34 : zlen (APR_SHA1PW_ID ++ b64 (sha1 clear) ++ [0]) = 34) by (rewrite !zlen_app, H28; reflexivity).
  destruct (Z.eqb_spec (zlen out) 34) as [E|E].
  - apply wr_oob. rewrite zlen_splice by lia. lia.
  - rewrite wr_splice0 by lia. by rewrite <- !app_assoc.
Qed.

Lemma sha1_base64_overrun_witness :
  apr_sha1_base64 (replicate 64 7) (str "abc") (replicate 34 1) = Err OutOfBounds /\
  apr_sha1_base64 (replicate 64 7) (str "abc") (replicate 35 1) =
    Ok (str "{SHA}qZk+NkcGgWq6PiVxeFDCbJzQ2J0=" ++ [0; 0])%list.
Proof.
  split; rewrite sha1_base64_overrun; try reflexivity; try (vm_compute; congruence).
Defined.
