(* ===== verification/AprSha256.v ===== *)
(** * SHA-256: [src/apr/random/unix/sha2.c]

    The buffer of the context is also the working array of the transformation
    (the version without unrolled loops), so a transformation leaves the working
    words in it; reversals are those of a little-endian host. *)

From S2P Require Import Prelude AprDigest.

Definition SHA256_BLOCK_LENGTH : Z := 64.
Definition SHA256_SHORT_BLOCK_LENGTH : Z := SHA256_BLOCK_LENGTH - 8.

Record SHA256_CTX := mk_sha256 { state : list Z; bitcount : Z; buffer : list Z }.

Definition REVERSE32 (w : Z) : Z :=
  let tmp := Z.lor (Z.shiftr w 16) (u32 (Z.shiftl w 16)) in
  Z.lor (Z.shiftr (Z.land tmp 0xff00ff00) 8) (Z.shiftl (Z.land tmp 0x00ff00ff) 8).

Definition REVERSE64 (w : Z) : Z :=
  let tmp := Z.lor (Z.shiftr w 32) (u64 (Z.shiftl w 32)) in
  let tmp := Z.lor (Z.shiftr (Z.land tmp 0xff00ff00ff00ff00) 8) (Z.shiftl (Z.land tmp 0x00ff00ff00ff00ff) 8) in
  Z.lor (Z.shiftr (Z.land tmp 0xffff0000ffff0000) 16) (Z.shiftl (Z.land tmp 0x0000ffff0000ffff) 16).

Definition R (b x : Z) : Z := Z.shiftr x b.
Definition S32 (b x : Z) : Z := rotr32 b x.
Definition Ch (x y z : Z) : Z := Z.lxor (Z.land x y) (Z.land (not32 x) z).
Definition Maj (x y z : Z) : Z := Z.lxor (Z.lxor (Z.land x y) (Z.land x z)) (Z.land y z).
Definition Sigma0_256 (x : Z) : Z := Z.lxor (Z.lxor (S32 2 x) (S32 13 x)) (S32 22 x).
Definition Sigma1_256 (x : Z) : Z := Z.lxor (Z.lxor (S32 6 x) (S32 11 x)) (S32 25 x).
Definition sigma0_256 (x : Z) : Z := Z.lxor (Z.lxor (S32 7 x) (S32 18 x)) (R 3 x).
Definition sigma1_256 (x : Z) : Z := Z.lxor (Z.lxor (S32 17 x) (S32 19 x)) (R 10 x).

(** The round constants, four a row as in the source. *)
Definition K256 : list Z := Eval cbv in concat
  [[0x428a2f98; 0x71374491; 0xb5c0fbcf; 0xe9b5dba5];
   [0x3956c25b; 0x59f111f1; 0x923f82a4; 0xab1c5ed5];
   [0xd807aa98; 0x12835b01; 0x243185be; 0x550c7dc3];
   [0x72be5d74; 0x80deb1fe; 0x9bdc06a7; 0xc19bf174];
   [0xe49b69c1; 0xefbe4786; 0x0fc19dc6; 0x240ca1cc];
   [0x2de92c6f; 0x4a7484aa; 0x5cb0a9dc; 0x76f988da];
   [0x983e5152; 0xa831c66d; 0xb00327c8; 0xbf597fc7];
   [0xc6e00bf3; 0xd5a79147; 0x06ca6351; 0x14292967];
   [0x27b70a85; 0x2e1b2138; 0x4d2c6dfc; 0x53380d13];
   [0x650a7354; 0x766a0abb; 0x81c2c92e; 0x92722c85];
   [0xa2bfe8a1; 0xa81a664b; 0xc24b8b70; 0xc76c51a3];
   [0xd192e819; 0xd6990624; 0xf40e3585; 0x106aa070];
   [0x19a4c116; 0x1e376c08; 0x2748774c; 0x34b0bcb5];
   [0x391c0cb3; 0x4ed8aa4a; 0x5b9cca4f; 0x682e6ff3];
   [0x748f82ee; 0x78a5636f; 0x84c87814; 0x8cc70208];
   [0x90befffa; 0xa4506ceb; 0xbef9a3f7; 0xc67178f2]].

Definition sha256_initial_hash_value : list Z :=
  [0x6a09e667; 0xbb67ae85; 0x3c6ef372; 0xa54ff53a; 0x510e527f; 0x9b05688c; 0x1f83d9ab; 0x5be0cd19].

(** The registers [a] to [h]. *)
Record regs := mk_regs { ra : Z; rb : Z; rc : Z; rd_ : Z; re : Z; rf : Z; rg : Z; rh : Z }.

(** The compression step with the word [w] of round [j]. *)
Definition compress (r : regs) (j : nat) (w : Z) : regs :=
  let T1 := u32 (rh r + Sigma1_256 (re r) + Ch (re r) (rf r) (rg r) + nth j K256 0 + w) in
  let T2 := u32 (Sigma0_256 (ra r) + Maj (ra r) (rb r) (rc r)) in
  mk_regs (u32 (T1 + T2)) (ra r) (rb r) (rc r) (u32 (rd_ r + T1)) (re r) (rf r) (rg r).

(** The first loop: the working array is filled from the data, reversed. *)
Definition round_0_15 (words : list Z) (s : regs * list Z) (j : nat) : regs * list Z :=
  let '(r, W256) := s in
  let w := REVERSE32 (nth j words 0) in
  (compress r j w, <[j := w]> W256).

(** The second loop: the working array is used as a ring of 16 words. *)
Definition round_16_63 (s : regs * list Z) (j : nat) : regs * list Z :=
  let '(r, W256) := s in
  let s0 := sigma0_256 (nth ((j + 1) mod 16) W256 0) in
  let s1 := sigma1_256 (nth ((j + 14) mod 16) W256 0) in
  let w := u32 (nth (j mod 16) W256 0 + (s1 + nth ((j + 9) mod 16) W256 0 + s0)) in
  (compress r j w, <[(j mod 16)%nat := w]> W256).

(** The new state and the words left in the buffer. The data may be the buffer
    itself: each word is read before it is overwritten. *)
Definition transform_words (state words W256 : list Z) : list Z * list Z :=
  match state with
  | [s0; s1; s2; s3; s4; s5; s6; s7] =>
      let '(r, W256) := fold_left (round_0_15 words) (seq 0 16) (mk_regs s0 s1 s2 s3 s4 s5 s6 s7, W256) in
      let '(r, W256) := fold_left round_16_63 (seq 16 48) (r, W256) in
      ([u32 (s0 + ra r); u32 (s1 + rb r); u32 (s2 + rc r); u32 (s3 + rd_ r);
        u32 (s4 + re r); u32 (s5 + rf r); u32 (s6 + rg r); u32 (s7 + rh r)], W256)
  | _ => (state, W256)
  end.

Definition apr__SHA256_Transform (context : SHA256_CTX) (data : list Z) : SHA256_CTX :=
  let '(st, W256) := transform_words (state context) (le_words data) (le_words (buffer context)) in
  mk_sha256 st (bitcount context) (concat (map le32 W256)).

Definition apr__SHA256_Init : SHA256_CTX :=
  mk_sha256 sha256_initial_hash_value 0 (replicate (Z.to_nat SHA256_BLOCK_LENGTH) 0).

Definition add_bits (context : SHA256_CTX) (n : Z) : SHA256_CTX :=
  mk_sha256 (state context) (u64 (bitcount context + Z.shiftl n 3)) (buffer context).
Definition with_buffer (context : SHA256_CTX) (b : list Z) : SHA256_CTX :=
  mk_sha256 (state context) (bitcount context) b.

(** [while (len >= SHA256_BLOCK_LENGTH) { ... }] *)
Fixpoint update_blocks (fuel : nat) (context : SHA256_CTX) (input : list Z) (data len : Z)
  : res (SHA256_CTX * Z * Z) :=
  match fuel with
  | O => Err OutOfFuel
  | S fuel =>
      if SHA256_BLOCK_LENGTH <=? len then
        do blk <- sub input data SHA256_BLOCK_LENGTH;
        let context := apr__SHA256_Transform context blk in
        let context := add_bits context SHA256_BLOCK_LENGTH in
        update_blocks fuel context input (data + SHA256_BLOCK_LENGTH) (len - SHA256_BLOCK_LENGTH)
      else Ok (context, data, len)
  end.

Definition apr__SHA256_Update (context : SHA256_CTX) (input : list Z) : res SHA256_CTX :=
  let len := zlen input in
  if len =? 0 then Ok context
  else
    let usedspace := Z.shiftr (bitcount context) 3 mod SHA256_BLOCK_LENGTH in
    let freespace := SHA256_BLOCK_LENGTH - usedspace in
    if (0 <? usedspace) && (len <? freespace) then
      do part <- sub input 0 len;
      do b <- blit (buffer context) usedspace part;
      Ok (add_bits (with_buffer context b) len)
    else
      do (context, data) <-
        (if 0 <? usedspace then
           do part <- sub input 0 freespace;
           do b <- blit (buffer context) usedspace part;
           let context := add_bits (with_buffer context b) freespace in
           Ok (apr__SHA256_Transform context (buffer context), freespace)
         else Ok (context, 0));
      do (context, data, len) <- update_blocks (S (length input)) context input data (len - data);
      if 0 <? len then
        do part <- sub input data len;
        do b <- blit (buffer context) 0 part;
        Ok (add_bits (with_buffer context b) len)
      else Ok context.

(** The buffer ready for the last transformation but for the bit count. *)
Definition pad_buffer (context : SHA256_CTX) (usedspace : Z) : res SHA256_CTX :=
  if 0 <? usedspace then
    do b <- wr (buffer context) usedspace 0x80;
    let usedspace := usedspace + 1 in
    if usedspace <=? SHA256_SHORT_BLOCK_LENGTH then
      do b <- blit b usedspace (replicate (Z.to_nat (SHA256_SHORT_BLOCK_LENGTH - usedspace)) 0);
      Ok (with_buffer context b)
    else
      do b <- (if usedspace <? SHA256_BLOCK_LENGTH
               then blit b usedspace (replicate (Z.to_nat (SHA256_BLOCK_LENGTH - usedspace)) 0)
               else Ok b);
      let context := apr__SHA256_Transform (with_buffer context b) b in
      do b <- blit (buffer context) 0 (replicate (Z.to_nat SHA256_SHORT_BLOCK_LENGTH) 0);
      Ok (with_buffer context b)
  else
    do b <- blit (buffer context) 0 (replicate (Z.to_nat SHA256_SHORT_BLOCK_LENGTH) 0);
    do b <- wr b 0 0x80;
    Ok (with_buffer context b).

(** The digest bytes as stored through [d]. *)
Definition apr__SHA256_Final (context : SHA256_CTX) : res (list Z) :=
  let usedspace := Z.shiftr (bitcount context) 3 mod SHA256_BLOCK_LENGTH in
  let bits := REVERSE64 (bitcount context) in
  do context <- pad_buffer context usedspace;
  do b <- blit (buffer context) SHA256_SHORT_BLOCK_LENGTH (le64 bits);
  let context := apr__SHA256_Transform (with_buffer context b) b in
  Ok (concat (map (fun s => le32 (REVERSE32 s)) (state context))).

Definition sha2_hex_digits : list Z := str "0123456789abcdef".

(** The characters [apr__SHA256_End] writes, and its NUL. *)
Definition apr__SHA256_End (context : SHA256_CTX) : res (list Z) :=
  do digest <- apr__SHA256_Final context;
  Ok (concat (map (fun d => [nth (Z.to_nat (Z.shiftr (Z.land d 0xf0) 4)) sha2_hex_digits 0;
                             nth (Z.to_nat (Z.land d 0x0f)) sha2_hex_digits 0]) digest) ++ [0])%list.

Definition apr__SHA256_Data (data : list Z) : res (list Z) :=
  do context <- apr__SHA256_Update apr__SHA256_Init data;
  apr__SHA256_End context.

(** ** Reversals *)

Lemma le32_bytes z : le32 z = [u8 z; u8 (Z.shiftr z 8); u8 (Z.shiftr z 16); u8 (Z.shiftr z 24)].
Proof. unfold le32, u8. by rewrite !Z.shiftr_div_pow2 by lia. Qed.

Lemma be32_bytes z : be32 z = [u8 (Z.shiftr z 24); u8 (Z.shiftr z 16); u8 (Z.shiftr z 8); u8 z].
Proof. unfold be32, u8. by rewrite !Z.shiftr_div_pow2 by lia. Qed.

Lemma REVERSE32_spec w : fits 32 w -> le32 (REVERSE32 w) = be32 w.
Proof.
  intros Hw. replace w with (u32 w) by (unfold u32; rewrite Z.mod_small; done).
  rewrite le32_bytes, be32_bytes. unfold REVERSE32. cbv zeta.
  repeat (apply (f_equal2 cons); [apply byte_bits_ext; [apply u8_is_byte|apply u8_is_byte|bits8]|]). done.
Qed.

Lemma le64_bytes z : le64 z =
  [u8 z; u8 (Z.shiftr z 8); u8 (Z.shiftr z 16); u8 (Z.shiftr z 24);
   u8 (Z.shiftr z 32); u8 (Z.shiftr z 40); u8 (Z.shiftr z 48); u8 (Z.shiftr z 56)].
Proof.
  unfold le64. rewrite !le32_bytes. unfold u8. rewrite !Z.shiftr_div_pow2 by lia. cbn [app].
  repeat (apply (f_equal2 cons); [Z.to_euclidean_division_equations; lia|]). done.
Qed.

Lemma REVERSE64_spec w : fits 64 w -> le64 (REVERSE64 w) = be64 w.
Proof.
  intros Hw. replace w with (u64 w) by (unfold u64; rewrite Z.mod_small; done).
  change (be64 (u64 w)) with (rev (le64 (u64 w))). rewrite !le64_bytes. cbn [rev app].
  unfold REVERSE64. cbv zeta.
  repeat (apply (f_equal2 cons); [apply byte_bits_ext; [apply u8_is_byte|apply u8_is_byte|bits8]|]). done.
Qed.

(** ** The transformation *)

(** The first loop does not read the working array. *)
Definition first_rounds (words : list Z) (r : regs) : regs :=
  fold_left (fun r j => compress r j (REVERSE32 (nth j words 0))) (seq 0 16) r.
Definition fill (words W : list Z) : list Z :=
  fold_left (fun W j => <[j := REVERSE32 (nth j words 0)]> W) (seq 0 16) W.

Lemma fold_round_0_15 words r W :
  fold_left (round_0_15 words) (seq 0 16) (r, W) = (first_rounds words r, fill words W).
Proof.
  unfold first_rounds, fill. generalize (seq 0 16). intros js. revert r W.
  induction js as [|j js IH]; intros r W; cbn [fold_left]; [done|]. apply IH.
Qed.

Lemma round_16_63_length js : forall r W, length (snd (fold_left round_16_63 js (r, W))) = length W.
Proof.
  induction js as [|j js IH]; intros r W; cbn [fold_left]; [done|]. unfold round_16_63 at 2.
  rewrite IH. apply length_insert.
Qed.

(** The whole working array is written before it is read. *)
Lemma fill_W256 words W W' :
  length W = 16%nat -> length W' = 16%nat -> fill words W = fill words W'.
Proof.
  intros HW HW'. unfold fill. apply list_eq_same_length with 16%nat.
  1-2: cbn [seq fold_left]; by rewrite !length_insert.
  intros i x y Hi Hx Hy. cbn [seq fold_left] in Hx, Hy.
  do 16 (destruct i as [|i]; [repeat first [rewrite list_lookup_insert_ne in Hx by lia | rewrite list_lookup_insert_ne in Hy by lia];
    rewrite list_lookup_insert_eq in Hx by (rewrite ?length_insert; lia);
    rewrite list_lookup_insert_eq in Hy by (rewrite ?length_insert; lia); congruence|]). lia.
Qed.

Lemma length_fill words W : length (fill words W) = length W.
Proof. unfold fill. cbn [seq fold_left]. by rewrite !length_insert. Qed.

(** The state after a block, whatever the working array held. *)
Definition sha256_block (st b : list Z) : list Z := fst (transform_words st (le_words b) (replicate 16 0)).

Lemma transform_words_spec st ws W :
  length W = 16%nat ->
  fst (transform_words st ws W) = fst (transform_words st ws (replicate 16 0)) /\
  length (snd (transform_words st ws W)) = 16%nat.
Proof.
  intros HW. unfold transform_words.
  destruct st as [|s0 [|s1 [|s2 [|s3 [|s4 [|s5 [|s6 [|s7 [|s8 st]]]]]]]]].
  1-8, 10: split; [reflexivity|exact HW].
  rewrite !fold_round_0_15, (fill_W256 ws W (replicate 16 0)) by (done || apply length_replicate).
  set (r0 := first_rounds _ _). set (W0 := fill _ _).
  assert (H0 : length W0 = 16%nat) by (subst W0; by rewrite length_fill).
  pose proof (round_16_63_length (seq 16 48) r0 W0) as Hl.
  destruct (fold_left round_16_63 (seq 16 48) (r0, W0)) as [r W1]. cbn [fst snd] in *. split; [done|congruence].
Qed.

Lemma length_le_words l : length l = 64%nat -> length (le_words l) = 16%nat.
Proof.
  assert (H : forall l, length (le_words l) = (length l / 4)%nat).
  { clear. induction l as [|a|a b|a b c|a b c d l IH] using list_ind4; try reflexivity.
    cbn [le_words length]. rewrite IH. replace (S (S (S (S (length l)))))%nat with (length l + 1 * 4)%nat by lia.
    rewrite Nat.div_add by lia. lia. }
  intros Hl. by rewrite H, Hl.
Qed.

Lemma length_le_bytes W : length (concat (map le32 W)) = (4 * length W)%nat.
Proof. induction W as [|w W IH]; cbn [map concat length]; [done|]. rewrite length_app, IH. cbn [le32 length]. lia. Qed.

Lemma transform_spec c b :
  length (buffer c) = 64%nat ->
  let c' := apr__SHA256_Transform c b in
  state c' = sha256_block (state c) b /\ bitcount c' = bitcount c /\ length (buffer c') = 64%nat.
Proof.
  intros Hb. cbv zeta. unfold apr__SHA256_Transform.
  destruct (transform_words_spec (state c) (le_words b) _ (length_le_words _ Hb)) as [H1 H2].
  destruct (transform_words (state c) (le_words b) (le_words (buffer c))) as [st W]. cbn [fst snd state bitcount buffer] in *.
  split; [done|]. split; [done|]. by rewrite length_le_bytes, H2.
Qed.

Lemma sha256_block_fits st b : Forall (fits 32) st -> Forall (fits 32) (sha256_block st b).
Proof.
  intros H. unfold sha256_block, transform_words.
  destruct st as [|s0 [|s1 [|s2 [|s3 [|s4 [|s5 [|s6 [|s7 [|s8 st]]]]]]]]].
  1-8, 10: exact H.
  rewrite fold_round_0_15. set (r0 := first_rounds _ _). set (W0 := fill _ _).
  destruct (fold_left round_16_63 (seq 16 48) (r0, W0)) as [r W1]. cbn [fst].
  repeat (apply Forall_cons; split; [apply fits_u32|]). constructor.
Qed.

(** ** Feeding a context *)

Definition sha256_holds (c : SHA256_CTX) (m : list Z) : Prop :=
  state c = absorb sha256_block sha256_initial_hash_value m /\ buffered (buffer c) (leftover m) /\
  bitcount c = 8 * zlen m mod 2 ^ 64.

Lemma sha256_holds_init : sha256_holds apr__SHA256_Init [].
Proof. split; [done|]. split; [by apply buffered_nil|]. done. Qed.

Lemma usedspace_spec n : 0 <= n -> Z.shiftr (8 * n mod 2 ^ 64) 3 mod SHA256_BLOCK_LENGTH = n mod 64.
Proof.
  intros Hn. unfold SHA256_BLOCK_LENGTH. rewrite Z.shiftr_div_pow2 by lia.
  Z.to_euclidean_division_equations. lia.
Qed.

Lemma add_bits_spec c n k : bitcount c = 8 * n mod 2 ^ 64 -> bitcount (add_bits c k) = 8 * (n + k) mod 2 ^ 64.
Proof.
  intros Hb. cbn [add_bits bitcount]. rewrite Hb, Z.shiftl_mul_pow2 by lia. unfold u64.
  rewrite Zplus_mod_idemp_l. f_equal. lia.
Qed.

(** One block transformed and counted. *)
Lemma block_step c b n :
  length (buffer c) = 64%nat -> bitcount c = 8 * n mod 2 ^ 64 ->
  let c' := add_bits (apr__SHA256_Transform c b) SHA256_BLOCK_LENGTH in
  state c' = sha256_block (state c) b /\ length (buffer c') = 64%nat /\ bitcount c' = 8 * (n + 64) mod 2 ^ 64.
Proof.
  intros Hb Hn. cbv zeta. destruct (transform_spec c b Hb) as (H1 & H2 & H3).
  split; [done|]. split; [done|]. apply add_bits_spec. congruence.
Qed.

Lemma sha256_blocks_spec l : forall pre fuel c n,
  length (buffer c) = 64%nat -> bitcount c = 8 * n mod 2 ^ 64 -> (length l < fuel)%nat ->
  exists c', update_blocks fuel c (pre ++ l) (zlen pre) (zlen l) =
      Ok (c', zlen (pre ++ l) - zlen (leftover l), zlen (leftover l)) /\
    state c' = absorb sha256_block (state c) l /\ length (buffer c') = 64%nat /\
    bitcount c' = 8 * (n + zlen l - zlen (leftover l)) mod 2 ^ 64.
Proof.
  induction l as [l Hl|b l Hb IH] using block_ind; intros pre [|fuel] c n Hd Hn Hf; try lia; cbn [update_blocks].
  - exists c. replace (SHA256_BLOCK_LENGTH <=? zlen l) with false
      by (symmetry; apply Z.leb_gt; unfold zlen, SHA256_BLOCK_LENGTH; lia).
    rewrite absorb_short, leftover_short by done. split; [do 3 f_equal; zl|]. split; [done|]. split; [done|].
    rewrite Hn. f_equal. lia.
  - assert (Hzb : zlen b = SHA256_BLOCK_LENGTH) by (unfold zlen, SHA256_BLOCK_LENGTH; lia).
    rewrite (zlen_app b), Hzb. pose proof (zlen_nonneg l). zbool.
    pose proof (has_bytes_sub (pre ++ b ++ l) (zlen pre) b) as Hsub. rewrite Hzb in Hsub.
    rewrite Hsub by (by exists pre, l). cbn [rbind].
    replace (zlen pre + SHA256_BLOCK_LENGTH) with (zlen (pre ++ b)) by (rewrite zlen_app; lia).
    replace (SHA256_BLOCK_LENGTH + zlen l - SHA256_BLOCK_LENGTH) with (zlen l) by lia.
    rewrite (app_assoc pre b l). rewrite length_app in Hf.
    destruct (block_step c b n Hd Hn) as (H1 & H2 & H3). set (c1 := add_bits _ _) in *.
    destruct (IH (pre ++ b)%list fuel c1 (n + 64) H2 H3 ltac:(lia)) as (c' & He & Hs & Hl' & Hn').
    exists c'. rewrite He, absorb_block, leftover_block by done. split; [done|]. split; [by rewrite Hs, H1|]. split; [done|].
    rewrite Hn'. unfold SHA256_BLOCK_LENGTH. do 2 f_equal. lia.
Qed.

(** The end of the update, once the buffer is empty: [input = pre ++ l]. *)
Lemma sha256_rest_spec pre l c m :
  length (buffer c) = 64%nat -> state c = absorb sha256_block sha256_initial_hash_value m -> leftover m = [] ->
  bitcount c = 8 * zlen m mod 2 ^ 64 ->
  exists c',
    (do (context, data, len) <- update_blocks (S (length (pre ++ l))) c (pre ++ l) (zlen pre) (zlen l);
     if 0 <? len then
       do part <- sub (pre ++ l) data len;
       do b <- blit (buffer context) 0 part;
       Ok (add_bits (with_buffer context b) len)
     else Ok context) = Ok c' /\ sha256_holds c' (m ++ l).
Proof.
  intros Hd Hst Hm Hn.
  destruct (sha256_blocks_spec l pre (S (length (pre ++ l))) c (zlen m) Hd Hn) as (c1 & -> & Hs & Hl & Hb);
    [rewrite length_app; lia|]. cbn [rbind]. unfold sha256_holds. rewrite absorb_app, leftover_app, Hm, (zlen_app m l), <- Hst. cbn [app].
  destruct (Z.ltb_spec 0 (zlen (leftover l))) as [Hpos|Hz].
  - rewrite sub_leftover. cbn [rbind]. destruct (buffered_blit (buffer c1) [] (leftover l)) as (d & Hd2 & Hbuf);
      [by apply buffered_nil|pose proof (leftover_lt l); cbn [length]; lia|].
    change (zlen []) with 0 in Hd2. rewrite Hd2. cbn [rbind]. eexists. split; [done|].
    split; [done|]. split; [done|]. rewrite (add_bits_spec _ (zlen m + zlen l - zlen (leftover l))) by done. f_equal. lia.
  - assert (Hnil : leftover l = []) by (destruct (leftover l); [done|zl]). rewrite Hnil in *. exists c1.
    split; [done|]. split; [done|]. split; [by apply buffered_nil|]. rewrite Hb. f_equal. zl.
Qed.

(** The partial block in the buffer is filled and transformed first. *)
Lemma sha256_fill_update c m d :
  sha256_holds c m -> 0 < zlen (leftover m) -> 64 - zlen (leftover m) <= zlen d ->
  exists c',
    (do (context, data) <-
       (do part <- sub d 0 (64 - zlen (leftover m));
        do b <- blit (buffer c) (zlen (leftover m)) part;
        let context := add_bits (with_buffer c b) (64 - zlen (leftover m)) in
        Ok (apr__SHA256_Transform context (buffer context), 64 - zlen (leftover m)));
     do (context, data, len) <- update_blocks (S (length d)) context d data (zlen d - data);
     if 0 <? len then
       do part <- sub d data len;
       do b <- blit (buffer context) 0 part;
       Ok (add_bits (with_buffer context b) len)
     else Ok context) = Ok c' /\ sha256_holds c' (m ++ d).
Proof.
  intros (Hst & Hbuf & Hn) Hpos Hs. pose proof (leftover_lt m) as Hlt. set (L := leftover m) in *.
  set (d1 := take (64 - length L) d). set (d2 := drop (64 - length L) d).
  assert (Hdd : d = (d1 ++ d2)%list) by (symmetry; apply take_drop).
  assert (Hl1 : length d1 = (64 - length L)%nat) by (subst d1; rewrite length_take; unfold zlen in *; lia).
  replace (64 - zlen L) with (zlen d1) by (unfold zlen; lia).
  rewrite Hdd, (has_bytes_sub _ 0 d1) by (by exists [], d2). cbn [rbind].
  destruct (buffered_blit _ L d1 Hbuf) as (b1 & -> & Hb1); [lia|]. cbn [rbind].
  assert (H64 : length (L ++ d1) = 64%nat) by (rewrite length_app; lia).
  rewrite (buffered_full _ _ Hb1 H64), zlen_app. replace (zlen d1 + zlen d2 - zlen d1) with (zlen d2) by lia.
  rewrite (app_assoc m d1 d2). set (c1 := add_bits _ _).
  destruct (transform_spec c1 (buffer c1) H64) as (Hs1 & Hn1 & Hl). apply sha256_rest_spec; [done| | |].
  - rewrite Hs1. subst c1. cbn [add_bits with_buffer state buffer]. rewrite Hst, absorb_app. fold L.
    by rewrite <- (app_nil_r (L ++ d1)), absorb_block, (absorb_short _ _ []), app_nil_r by (done || cbn; lia).
  - rewrite leftover_app. fold L. by rewrite <- (app_nil_r (L ++ d1)), leftover_block.
  - rewrite Hn1. subst c1. rewrite (add_bits_spec _ (zlen m)) by done. by rewrite zlen_app.
Qed.

Lemma sha256_holds_update c m d :
  sha256_holds c m -> exists c', apr__SHA256_Update c d = Ok c' /\ sha256_holds c' (m ++ d).
Proof.
  intros (Hst & Hbuf & Hn). unfold apr__SHA256_Update. pose proof (zlen_nonneg d).
  destruct (Z.eqb_spec (zlen d) 0) as [E|E].
  { destruct d; [|zl]. exists c. rewrite app_nil_r. done. }
  rewrite Hn, usedspace_spec, <- zlen_leftover by apply zlen_nonneg. unfold SHA256_BLOCK_LENGTH.
  pose proof (leftover_lt m) as Hlt. destruct (Z.ltb_spec 0 (zlen (leftover m))) as [Hpos|Hz]; cbn [andb rbind].
  - destruct (Z.ltb_spec (zlen d) (64 - zlen (leftover m))) as [Hs|Hs].
    + rewrite (has_bytes_sub d 0 d) by (exists [], []; by rewrite app_nil_r). cbn [rbind].
      destruct (buffered_blit _ _ d Hbuf) as (d1 & -> & Hb1); [unfold zlen in *; lia|]. cbn [rbind].
      assert (Hlen : (length (leftover m ++ d) < 64)%nat) by (rewrite length_app; unfold zlen in *; lia).
      eexists. split; [done|]. unfold sha256_holds.
      rewrite (add_bits_spec _ (zlen m)), zlen_app by done. cbn [add_bits with_buffer state buffer].
      by rewrite absorb_app, leftover_app, absorb_short, leftover_short by done.
    + by apply sha256_fill_update.
  - assert (Hl : leftover m = []) by (destruct (leftover m); [done|zl]).
    rewrite Z.sub_0_r. apply (sha256_rest_spec [] d); [apply Hbuf|done|done|done].
Qed.

Definition be_words (ws : list Z) : list Z := concat (map be32 ws).
Definition sha256 : list Z -> list Z := digest sha256_block sha256_initial_hash_value be64 be_words.

Lemma state_fits c m : sha256_holds c m -> Forall (fits 32) (state c).
Proof.
  intros (-> & _). apply absorb_inv; [intros; by apply sha256_block_fits|].
  repeat (apply Forall_cons; split; [vm_compute; split; congruence|]). constructor.
Qed.

(** Before the last transformation: 56 bytes of padding [p], and the reference digest. *)
Definition padding_done (m : list Z) (r : res SHA256_CTX) : Prop :=
  exists c' p, r = Ok c' /\ buffered (buffer c') p /\ length p = 56%nat /\ Forall (fits 32) (state c') /\
    sha256 m = be_words (sha256_block (state c') (p ++ be64 (8 * zlen m mod 2 ^ 64))).

Lemma pad_empty c m :
  sha256_holds c m -> leftover m = [] -> padding_done m (pad_buffer c 0).
Proof.
  intros Hh HL. pose proof (state_fits c m Hh) as Hfit. destruct Hh as (Hst & Hbuf & _).
  unfold pad_buffer, SHA256_SHORT_BLOCK_LENGTH, SHA256_BLOCK_LENGTH. cbn [Z.ltb Z.compare].
  change (Z.to_nat (64 - 8)) with 56%nat. destruct (buffered_blit (buffer c) [] (replicate 56 0)) as (d1 & Hd1 & Hb1);
    [apply buffered_nil, Hbuf|rewrite length_replicate; cbn; lia|].
  change (zlen []) with 0 in Hd1. rewrite Hd1. cbn [rbind].
  destruct Hb1 as (H64 & _ & Ht). destruct d1 as [|x d1]; [done|]. pose proof (wr_app [] x d1 0x80) as Hw. cbn [app] in Hw.
  change (zlen []) with 0 in Hw. rewrite Hw. cbn [rbind]. eexists _, (0x80 :: replicate 55 0).
  split; [done|]. cbn [with_buffer buffer state]. split; [split; [exact H64|split; [rewrite length_cons, length_replicate; lia|]]|split; [done|split; [done|]]].
  - rewrite length_cons, length_replicate. cbn [app] in Ht. rewrite length_replicate in Ht.
    change (take 56 (x :: d1)) with (x :: take 55 d1) in Ht. change (replicate 56 0) with (0 :: replicate 55 0) in Ht.
    injection Ht as _ Ht. change (take 56 (u8 128 :: d1)) with (u8 128 :: take 55 d1). by rewrite Ht.
  - unfold sha256. rewrite (digest_one_block _ _ _ _ length_be64) by (rewrite HL; cbn; lia). by rewrite HL, Hst.
Qed.

Section pad.
Context (c : SHA256_CTX) (m : list Z).
Hypothesis Hh : sha256_holds c m.
Let L := leftover m.

Local Lemma mark_len n : length (L ++ 0x80 :: replicate n 0) = (length L + 1 + n)%nat.
Proof. rewrite length_app. cbn [length]. rewrite length_replicate. lia. Qed.

Local Lemma mark_zlen : zlen (L ++ [0x80]) = Z.of_nat (length L) + 1.
Proof. unfold zlen. rewrite length_app. cbn [length]. lia. Qed.

(** Zeros after the mark. *)
Local Lemma mark_zeros d n :
  buffered d (L ++ [0x80]) -> (length L + 1 + n <= 64)%nat ->
  exists d', blit d (zlen (L ++ [0x80])) (replicate n 0) = Ok d' /\ buffered d' (L ++ 0x80 :: replicate n 0).
Proof.
  intros Hd Hn. destruct (buffered_blit _ _ (replicate n 0) Hd) as (d' & H1 & H2);
    [rewrite length_app, length_replicate; cbn [length]; lia|].
  exists d'. rewrite <- app_assoc in H2. done.
Qed.

Lemma pad_partial : 0 < zlen L -> padding_done m (pad_buffer c (zlen L)).
Proof.
  intros Hpos. pose proof (state_fits c m Hh) as Hfit. destruct Hh as (Hst & Hbuf & _). pose proof (leftover_lt m) as Hlt. fold L in Hlt, Hbuf.
  unfold pad_buffer, SHA256_SHORT_BLOCK_LENGTH, SHA256_BLOCK_LENGTH. zbool.
  destruct (buffered_mark _ _ Hbuf Hlt) as (d1 & -> & Hb1). cbn [rbind]. pose proof mark_zlen as Hz1.
  replace (zlen L + 1) with (zlen (L ++ [0x80])) by zl. unfold padding_done, sha256.
  destruct (Z.leb_spec (zlen (L ++ [0x80])) (64 - 8)) as [Hle|Hge].
  - replace (Z.to_nat (64 - 8 - zlen (L ++ [0x80]))) with (55 - length L)%nat by lia.
    destruct (mark_zeros d1 (55 - length L) Hb1) as (d2 & -> & Hb2); [lia|]. cbn [rbind].
    eexists _, _. split; [done|]. split; [exact Hb2|]. split; [rewrite mark_len; lia|]. split; [done|].
    rewrite (digest_one_block _ _ _ _ length_be64) by (fold L; lia). cbn [with_buffer state]. by rewrite Hst.
  - assert (Hfull : (if zlen (L ++ [0x80]) <? 64
        then blit d1 (zlen (L ++ [0x80])) (replicate (Z.to_nat (64 - zlen (L ++ [0x80]))) 0) else Ok d1) =
        Ok (L ++ 0x80 :: replicate (63 - length L) 0)%list).
    { destruct (mark_zeros d1 (63 - length L) Hb1) as (d2 & Hd2 & Hb2); [lia|].
      replace (Z.to_nat (64 - zlen (L ++ [0x80]))) with (63 - length L)%nat by lia.
      destruct (Z.ltb_spec (zlen (L ++ [0x80])) 64) as [|Hge64].
      - rewrite Hd2. f_equal. apply buffered_full; [done|rewrite mark_len; lia].
      - replace (63 - length L)%nat with O by lia. f_equal. apply buffered_full; [done|rewrite length_app; cbn [length replicate]; lia]. }
    rewrite Hfull. cbn [rbind]. set (c1 := with_buffer c _).
    destruct (transform_spec c1 (L ++ 0x80 :: replicate (63 - length L) 0)) as (Hs1 & _ & Hl1);
      [cbn [c1 with_buffer buffer]; rewrite mark_len; lia|].
    change (Z.to_nat (64 - 8)) with 56%nat.
    destruct (buffered_blit (buffer (apr__SHA256_Transform c1 (L ++ 0x80 :: replicate (63 - length L) 0))) [] (replicate 56 0))
      as (d3 & Hd3 & Hb3); [by apply buffered_nil|rewrite length_replicate; cbn; lia|].
    change (zlen []) with 0 in Hd3. rewrite Hd3. cbn [rbind]. eexists _, _. split; [done|]. split; [exact Hb3|].
    split; [done|]. split; [cbn [with_buffer state]; rewrite Hs1; by apply sha256_block_fits|].
    rewrite (digest_two_blocks _ _ _ _ length_be64) by (fold L; lia).
    cbn [with_buffer state]. rewrite Hs1. cbn [c1 with_buffer state]. by rewrite Hst.
Qed.
End pad.

Lemma reverse_words ws : Forall (fits 32) ws -> concat (map (fun s => le32 (REVERSE32 s)) ws) = be_words ws.
Proof.
  unfold be_words. induction 1 as [|w ws Hw Hws IH]; cbn [map concat]; [done|]. by rewrite REVERSE32_spec, IH.
Qed.

Lemma sha256_holds_final c m : sha256_holds c m -> apr__SHA256_Final c = Ok (sha256 m).
Proof.
  intros Hh. pose proof Hh as (Hst & _ & Hn). unfold apr__SHA256_Final.
  rewrite Hn, usedspace_spec, <- zlen_leftover by apply zlen_nonneg.
  assert (Hp : padding_done m (pad_buffer c (zlen (leftover m)))).
  { destruct (leftover m) eqn:E; [by apply pad_empty|]. rewrite <- E. apply pad_partial; [done|rewrite E; zl]. }
  destruct Hp as (c1 & p & -> & Hb & Hp & Hfit & Hsha). cbn [rbind].
  rewrite REVERSE64_spec by (unfold fits; apply Z.mod_pos_bound; lia).
  destruct (buffered_blit _ _ (be64 (8 * zlen m mod 2 ^ 64)) Hb) as (d & Hd & Hbd); [cbn [be64 app be32 length]; lia|].
  replace SHA256_SHORT_BLOCK_LENGTH with (zlen p) by (unfold zlen; rewrite Hp; done). rewrite Hd. cbn [rbind].
  assert (H64 : length (p ++ be64 (8 * zlen m mod 2 ^ 64)) = 64%nat) by (rewrite length_app, Hp; done).
  rewrite (buffered_full _ _ Hbd H64). f_equal. set (c2 := with_buffer c1 _).
  destruct (transform_spec c2 (p ++ be64 (8 * zlen m mod 2 ^ 64)) H64) as (-> & _).
  cbn [c2 with_buffer state]. rewrite Hsha. by apply reverse_words, sha256_block_fits.
Qed.

#[global] Program Instance sha256_incremental : Incremental SHA256_CTX := {
  inc_init _ := apr__SHA256_Init;
  inc_update := apr__SHA256_Update;
  inc_final := apr__SHA256_Final;
  inc_digest := sha256;
  holds := sha256_holds
}.
Next Obligation. intros mem Hm. exact sha256_holds_init. Qed.
Next Obligation. intros c m d Hc _. by apply sha256_holds_update. Qed.
Next Obligation. exact sha256_holds_final. Qed.

(** Feeding SHA-256 in pieces. However a message is cut, feeding the pieces to
    an initialised context and finishing it ends, stays inside the buffer the
    transformation shares as its working array, and gives the digest of the whole
    message: every block is transformed as from a fresh working array, the
    padding and the reversed bit count are in place. *)
Theorem sha256_pieces ds :
  Forall (fun d : list Z => zlen d <= 2 ^ 32 - 64) ds ->
  (do c <- feed apr__SHA256_Init ds; apr__SHA256_Final c) = Ok (sha256 (concat ds)).
Proof. exact (feed_digest (C := SHA256_CTX) (replicate 64 0) ds eq_refl). Qed.

(** The test vector of FIPS 180 for "abc", fed in two pieces. *)
Lemma sha256_pieces_witness :
  (do c <- feed apr__SHA256_Init [str "a"; str "bc"]; apr__SHA256_Final c) =
    Ok [0xba; 0x78; 0x16; 0xbf; 0x8f; 0x01; 0xcf; 0xea; 0x41; 0x41; 0x40; 0xde; 0x5d; 0xae; 0x22; 0x23;
        0xb0; 0x03; 0x61; 0xa3; 0x96; 0x17; 0x7a; 0x9c; 0xb4; 0x10; 0xff; 0x61; 0xf2; 0x00; 0x15; 0xad].
Proof.
  rewrite (sha256_pieces [str "a"; str "bc"]); [vm_compute; reflexivity|].
  repeat constructor; vm_compute; congruence.
Defined.
