(* ===== verification/AprQueue.v ===== *)
(** * The bounded blocking queue: [src/apr-util/misc/apr_queue.c]

    The queue is a ring of [bounds] slots under one mutex with two condition
    variables. A critical section runs while its thread holds the mutex, so it is
    one step of the system; what the source reads without the mutex
    ([terminated] at the start of an operation and after an interrupted wait) is a
    step of its own. A waiting thread is in the wait set of its condition until a
    signal, a broadcast or a spurious wakeup removes it, and counts as a waiter
    until it holds the mutex again. The operations of the mutex and the conditions
    succeed. *)

From S2P Require Import Prelude.

Section queue.
Context {V : Type}.

(** ** The queue and its critical sections *)

Record queue := mk_queue {
  data : list (option V);     (* NULL or a pushed pointer *)
  nelts : Z;
  qin : Z;
  qout : Z;
  bounds : Z;
  full_waiters : Z;
  empty_waiters : Z;
  terminated : bool
}.

Definition apr_queue_full (q : queue) : bool := nelts q =? bounds q.
Definition apr_queue_empty (q : queue) : bool := nelts q =? 0.
Definition apr_queue_size (q : queue) : Z := nelts q.

Definition apr_queue_create (queue_capacity : Z) : queue :=
  mk_queue (replicate (Z.to_nat queue_capacity) None) 0 0 0 queue_capacity 0 0 false.

Inductive cond := Not_empty | Not_full.

#[global] Instance cond_eq_dec : EqDecision cond.
Proof. solve_decision. Defined.

(** What the caller gets. *)
Inductive result :=
  | APR_SUCCESS (out : option V)   (* the popped element, if any *)
  | APR_EOF
  | APR_EINTR
  | APR_EAGAIN.

(** How a critical section ends: it waits on its condition, it unlocks to read
    [terminated] again, or it returns, after signalling a condition or not. *)
Inductive section_end :=
  | Waits (q : queue)
  | Interrupted (q : queue)
  | Returns (q : queue) (r : result) (signal : option cond).

Definition set_waiters (q : queue) (full empty : Z) : queue :=
  mk_queue (data q) (nelts q) (qin q) (qout q) (bounds q) full empty (terminated q).

(** [in++; if (in >= bounds) in -= bounds] on an [unsigned int]. *)
Definition advance (i bound : Z) : Z :=
  let i := u32 (i + 1) in if bound <=? i then i - bound else i.

(** The common end of a push: store, advance, count, signal. *)
Definition push_element (q : queue) (v : V) : res section_end :=
  do d <- store (data q) (qin q) (Some v);
  let q := mk_queue d (u32 (nelts q + 1)) (advance (qin q) (bounds q)) (qout q) (bounds q)
             (full_waiters q) (empty_waiters q) (terminated q) in
  Ok (Returns q (APR_SUCCESS None) (if empty_waiters q =? 0 then None else Some Not_empty)).

(** The common end of a pop. *)
Definition pop_element (q : queue) : res section_end :=
  do x <- of_option OutOfBounds (data q !! Z.to_nat (qout q));
  let q := mk_queue (data q) (u32 (nelts q - 1)) (qin q) (advance (qout q) (bounds q)) (bounds q)
             (full_waiters q) (empty_waiters q) (terminated q) in
  Ok (Returns q (APR_SUCCESS x) (if full_waiters q =? 0 then None else Some Not_full)).

(** [apr_queue_push] from the lock on, and from the return of the wait on. *)
Definition apr_queue_push (q : queue) (v : V) : res section_end :=
  if apr_queue_full q then
    if terminated q then Ok (Interrupted q)
    else Ok (Waits (set_waiters q (u32 (full_waiters q + 1)) (empty_waiters q)))
  else push_element q v.

Definition push_woken (q : queue) (v : V) : res section_end :=
  let q := set_waiters q (u32 (full_waiters q - 1)) (empty_waiters q) in
  if apr_queue_full q then Ok (Interrupted q) else push_element q v.

Definition apr_queue_trypush (q : queue) (v : V) : res section_end :=
  if apr_queue_full q then Ok (Returns q APR_EAGAIN None) else push_element q v.

Definition apr_queue_pop (q : queue) : res section_end :=
  if apr_queue_empty q then
    if terminated q then Ok (Interrupted q)
    else Ok (Waits (set_waiters q (full_waiters q) (u32 (empty_waiters q + 1))))
  else pop_element q.

Definition pop_woken (q : queue) : res section_end :=
  let q := set_waiters q (full_waiters q) (u32 (empty_waiters q - 1)) in
  if apr_queue_empty q then Ok (Interrupted q) else pop_element q.

Definition apr_queue_trypop (q : queue) : res section_end :=
  if apr_queue_empty q then Ok (Returns q APR_EAGAIN None) else pop_element q.

(** The critical section of [apr_queue_term]. *)
Definition apr_queue_term (q : queue) : queue :=
  mk_queue (data q) (nelts q) (qin q) (qout q) (bounds q) (full_waiters q) (empty_waiters q) true.

(** ** Threads *)

Inductive op := Push (v : V) | TryPush (v : V) | Pop | TryPop | InterruptAll | Term.

(** An operation that can wait, with the condition it waits on. *)
Inductive wop := WPush (v : V) | WPop.
Definition cond_of (w : wop) : cond := match w with WPush _ => Not_full | WPop => Not_empty end.

Inductive pc :=
  | Start (o : op)         (* called; has not read [terminated] *)
  | Lock (o : op)          (* waits for the mutex to enter its section *)
  | Waiting (w : wop)      (* in the wait set of its condition *)
  | Woken (w : wop)        (* removed from the wait set, wants the mutex *)
  | Unlocked               (* interrupted; is about to read [terminated] *)
  | Broadcast              (* at the critical section of [apr_queue_interrupt_all] *)
  | Finished (r : result).

Definition is_waiting (c : cond) (p : pc) : bool :=
  match p with Waiting w => bool_decide (cond_of w = c) | _ => false end.
Definition is_woken (c : cond) (p : pc) : bool :=
  match p with Woken w => bool_decide (cond_of w = c) | _ => false end.

Definition wake (p : pc) : pc := match p with Waiting w => Woken w | _ => p end.

(** [apr_thread_cond_signal]: one thread of the wait set is removed, if any. *)
Inductive signalled (c : cond) (ts : list pc) : list pc -> Prop :=
  | signal_one i p : ts !! i = Some p -> is_waiting c p = true -> signalled c ts (<[i := wake p]> ts)
  | signal_none : Forall (fun p => is_waiting c p = false) ts -> signalled c ts ts.

Definition notified (s : option cond) (ts ts' : list pc) : Prop :=
  match s with Some c => signalled c ts ts' | None => ts' = ts end.

(** The section an operation runs when it has the mutex. *)
Definition enter (o : op) (q : queue) : res section_end :=
  match o with
  | Push v => apr_queue_push q v
  | TryPush v => apr_queue_trypush q v
  | Pop => apr_queue_pop q
  | TryPop => apr_queue_trypop q
  | InterruptAll | Term => Err OutOfBounds (* never at [Lock] *)
  end.

Definition resume (w : wop) (q : queue) : res section_end :=
  match w with WPush v => push_woken q v | WPop => pop_woken q end.

(** What is written by a push that returns, for the history of the run. *)
Definition pushes (o : op) : list V := match o with Push v | TryPush v => [v] | _ => [] end.
Definition wpushes (w : wop) : list V := match w with WPush v => [v] | WPop => [] end.
Definition wop_of (o : op) : option wop :=
  match o with Push v => Some (WPush v) | Pop => Some WPop | _ => None end.

(** The system: the queue, the threads, and the values pushed and popped so far. *)
Record sys := mk_sys { sq : queue; threads : list pc; pushed : list V; popped : list V }.

Definition history (r : result) (vs : list V) (s : sys) : list V * list V :=
  match r with
  | APR_SUCCESS (Some x) => (pushed s, popped s ++ [x])
  | APR_SUCCESS None => (pushed s ++ vs, popped s)
  | _ => (pushed s, popped s)
  end.

(** The system after thread [i] ran a section that waits as [w] if it waits and
    pushes [vs] if it pushes. *)
Inductive ended (s : sys) (i : nat) (w : option wop) (vs : list V) : section_end -> sys -> Prop :=
  | ended_waits q w' : w = Some w' ->
      ended s i w vs (Waits q) (mk_sys q (<[i := Waiting w']> (threads s)) (pushed s) (popped s))
  | ended_interrupted q :
      ended s i w vs (Interrupted q) (mk_sys q (<[i := Unlocked]> (threads s)) (pushed s) (popped s))
  | ended_returns q r sg ts :
      notified sg (<[i := Finished r]> (threads s)) ts ->
      ended s i w vs (Returns q r sg) (mk_sys q ts (fst (history r vs s)) (snd (history r vs s))).

(** The first statement of an operation. *)
Definition start (o : op) (q : queue) : pc :=
  match o with
  | InterruptAll => Broadcast
  | Term => Lock Term
  | _ => if terminated q then Finished APR_EOF else Lock o
  end.

(** [step_of s i s']: a step of thread [i] (for [step_spurious], its wakeup). *)
Inductive step_of (s : sys) : nat -> sys -> Prop :=
  | step_start i o : threads s !! i = Some (Start o) ->
      step_of s i (mk_sys (sq s) (<[i := start o (sq s)]> (threads s)) (pushed s) (popped s))
  | step_enter i o e s' : threads s !! i = Some (Lock o) -> o <> Term ->
      enter o (sq s) = Ok e -> ended s i (wop_of o) (pushes o) e s' -> step_of s i s'
  | step_resume i w e s' : threads s !! i = Some (Woken w) ->
      resume w (sq s) = Ok e -> ended s i (Some w) (wpushes w) e s' -> step_of s i s'
  | step_unlocked i : threads s !! i = Some Unlocked ->
      step_of s i (mk_sys (sq s) (<[i := Finished (if terminated (sq s) then APR_EOF else APR_EINTR)]> (threads s))
                (pushed s) (popped s))
  | step_term i : threads s !! i = Some (Lock Term) ->
      step_of s i (mk_sys (apr_queue_term (sq s)) (<[i := Broadcast]> (threads s)) (pushed s) (popped s))
  | step_broadcast i : threads s !! i = Some Broadcast ->
      step_of s i (mk_sys (sq s) (map wake (<[i := Finished (APR_SUCCESS None)]> (threads s))) (pushed s) (popped s))
  | step_spurious i w : threads s !! i = Some (Waiting w) ->
      step_of s i (mk_sys (sq s) (<[i := Woken w]> (threads s)) (pushed s) (popped s)).

(** A step of the system is a step of a thread. *)
Definition step (s s' : sys) : Prop := exists i, step_of s i s'.

Definition init (capacity : Z) (ops : list op) : sys :=
  mk_sys (apr_queue_create capacity) (map Start ops) [] [].

Inductive reachable (capacity : Z) (ops : list op) : sys -> Prop :=
  | reach_init : reachable capacity ops (init capacity ops)
  | reach_step s s' : reachable capacity ops s -> step s s' -> reachable capacity ops s'.

(** ** The ring holds a list *)

Definition wrap (b x : Z) : Z := if x <? b then x else x - b.

Record ring (q : queue) (l : list V) : Prop := {
  ring_bounds : 0 < bounds q < 2 ^ 32;
  ring_data : zlen (data q) = bounds q;
  ring_out : 0 <= qout q < bounds q;
  ring_nelts : nelts q = zlen l;
  ring_size : zlen l <= bounds q;
  ring_in : qin q = wrap (bounds q) (qout q + zlen l);
  ring_slots : forall k v, l !! k = Some v ->
    data q !! Z.to_nat (wrap (bounds q) (qout q + Z.of_nat k)) = Some (Some v)
}.

Ltac wraps :=
  unfold wrap, advance, u32 in *;
  repeat match goal with
  | |- context [?a mod 2 ^ 32] => rewrite (Z.mod_small a (2 ^ 32)) by lia
  | H : context [?a mod 2 ^ 32] |- _ => rewrite (Z.mod_small a (2 ^ 32)) in H by lia
  end;
  repeat match goal with
  | |- context [?a <? ?b] => destruct (Z.ltb_spec a b)
  | |- context [?a <=? ?b] => destruct (Z.leb_spec a b)
  | H : context [?a <? ?b] |- _ => destruct (Z.ltb_spec a b)
  end; try lia.

Lemma create_ring capacity : 0 < capacity < 2 ^ 32 -> ring (apr_queue_create capacity) [].
Proof.
  intros Hc. split; cbn [apr_queue_create data nelts qin qout bounds]; try done; try lia.
  - autorewrite with zlen. lia.
  - zl.
  - change (zlen []) with 0. wraps.
Qed.

(** The queue after a push that returns. *)
Lemma push_ring q l v :
  ring q l -> zlen l < bounds q ->
  exists q', push_element q v =
      Ok (Returns q' (APR_SUCCESS None) (if empty_waiters q =? 0 then None else Some Not_empty)) /\
    ring q' (l ++ [v]) /\ bounds q' = bounds q /\ full_waiters q' = full_waiters q /\
    empty_waiters q' = empty_waiters q /\ terminated q' = terminated q.
Proof.
  intros [Hb Hd Ho Hn Hs Hi Hsl] Hl. pose proof (zlen_nonneg l). unfold push_element.
  assert (Hin : 0 <= qin q < bounds q) by (rewrite Hi; wraps).
  rewrite store_ok by (rewrite Hd; lia). cbn [rbind]. eexists. split; [done|].
  split; [|done]. split; cbn [data nelts qin qout bounds]; rewrite ?zlen_app, ?zlen_insert; change (zlen [v]) with 1; try done; try lia.
  - rewrite Hn. wraps.
  - rewrite Hi. wraps.
  - intros k w Hk. apply lookup_app_Some in Hk as [Hk|[Hge Hk]].
    + pose proof (lookup_lt_Some _ _ _ Hk) as Hlt. rewrite list_lookup_insert_ne; [by apply Hsl|].
      rewrite Hi. unfold zlen in *. wraps.
    + assert (k = length l) as ->.
      { destruct (k - length l)%nat eqn:E; cbn in Hk; [lia|done]. }
      rewrite Nat.sub_diag in Hk. cbn in Hk. injection Hk as <-.
      rewrite Hi. fold (zlen l). rewrite list_lookup_insert_eq; [done|]. unfold zlen in *. wraps.
Qed.

Lemma pop_ring q x l :
  ring q (x :: l) ->
  exists q', pop_element q =
      Ok (Returns q' (APR_SUCCESS (Some x)) (if full_waiters q =? 0 then None else Some Not_full)) /\
    ring q' l /\ bounds q' = bounds q /\ full_waiters q' = full_waiters q /\
    empty_waiters q' = empty_waiters q /\ terminated q' = terminated q.
Proof.
  intros [Hb Hd Ho Hn Hs Hi Hsl]. pose proof (zlen_nonneg l). rewrite zlen_cons in *. unfold pop_element.
  pose proof (Hsl O x eq_refl) as H0. replace (wrap (bounds q) (qout q + Z.of_nat 0)) with (qout q) in H0 by wraps.
  rewrite H0. cbn [rbind of_option]. eexists. split; [done|]. split; [|done].
  split; cbn [data nelts qin qout bounds]; try done; try lia.
  - wraps.
  - rewrite Hn. wraps.
  - rewrite Hi. wraps.
  - intros k v Hk. pose proof (lookup_lt_Some _ _ _ Hk). rewrite <- (Hsl (S k) v Hk). f_equal. f_equal.
    unfold zlen in *. wraps.
Qed.

(** ** Counting threads *)

Fixpoint cnt (f : pc -> bool) (ts : list pc) : Z :=
  match ts with
  | [] => 0
  | p :: ts => (if f p then 1 else 0) + cnt f ts
  end.

Lemma cnt_bound f ts : 0 <= cnt f ts <= zlen ts.
Proof. induction ts as [|p ts IH]; cbn [cnt]; [done|]. rewrite zlen_cons. destruct (f p); lia. Qed.

Lemma cnt_insert f ts i p p' :
  ts !! i = Some p -> cnt f (<[i := p']> ts) = cnt f ts - (if f p then 1 else 0) + (if f p' then 1 else 0).
Proof.
  revert i. induction ts as [|a ts IH]; intros [|i] Hi; try done.
  - cbn in Hi. simplify_eq. change (<[0%nat := p']> (p :: ts)) with (p' :: ts). cbn [cnt]. lia.
  - change (<[S i := p']> (a :: ts)) with (a :: <[i := p']> ts). cbn [cnt]. rewrite (IH i Hi). lia.
Qed.

Lemma cnt_pos f ts : 0 < cnt f ts -> exists i p, ts !! i = Some p /\ f p = true.
Proof.
  induction ts as [|a ts IH]; cbn [cnt]; [lia|]. intros H. destruct (f a) eqn:E; [by exists O, a|].
  destruct IH as (i & p & Hi & Hp); [lia|]. by exists (S i), p.
Qed.

Lemma cnt_none f ts : Forall (fun p => f p = false) ts -> cnt f ts = 0.
Proof. induction 1 as [|p ts Hp Hts IH]; cbn [cnt]; [done|]. by rewrite Hp, IH. Qed.

Lemma cnt_wake (f g : pc -> bool) ts :
  (forall p, f (wake p) = g p) -> cnt f (map wake ts) = cnt g ts.
Proof. intros H. induction ts as [|p ts IH]; cbn; [done|]. by rewrite H, IH. Qed.

Lemma cnt_add (f g h : pc -> bool) ts :
  (forall p, (if f p then 1 else 0) + (if g p then 1 else 0) = (if h p then 1 else 0)) -> cnt f ts + cnt g ts = cnt h ts.
Proof. intros H. induction ts as [|p ts IH]; cbn [cnt]; [done|]. rewrite <- H, <- IH. lia. Qed.

Definition waiting (c : cond) (ts : list pc) : Z := cnt (is_waiting c) ts.
Definition woken (c : cond) (ts : list pc) : Z := cnt (is_woken c) ts.
Definition is_broadcast (p : pc) : bool := match p with Broadcast => true | _ => false end.
Definition broadcasts (ts : list pc) : Z := cnt is_broadcast ts.

Lemma counts_update ts i p p' :
  ts !! i = Some p ->
  (forall c, waiting c (<[i := p']> ts) = waiting c ts - (if is_waiting c p then 1 else 0) + (if is_waiting c p' then 1 else 0)) /\
  (forall c, woken c (<[i := p']> ts) = woken c ts - (if is_woken c p then 1 else 0) + (if is_woken c p' then 1 else 0)) /\
  broadcasts (<[i := p']> ts) = broadcasts ts - (if is_broadcast p then 1 else 0) + (if is_broadcast p' then 1 else 0).
Proof. intros Hi. split; [|split]; intros; by apply cnt_insert. Qed.

(** A signal moves one thread from waiting to woken, if one waits. *)
Lemma signalled_counts c ts ts' :
  signalled c ts ts' ->
  exists k, (k = 0 /\ waiting c ts = 0 \/ k = 1) /\
    waiting c ts' = waiting c ts - k /\ woken c ts' = woken c ts + k /\
    (forall c', c' <> c -> waiting c' ts' = waiting c' ts /\ woken c' ts' = woken c' ts) /\
    broadcasts ts' = broadcasts ts /\ zlen ts' = zlen ts.
Proof.
  intros [i p Hi Hw|Hn].
  - exists 1. destruct p as [| |w| | | |]; try done. cbn [wake is_waiting] in *. apply bool_decide_eq_true in Hw.
    destruct (counts_update ts i _ (Woken w) Hi) as (Ha & Hb & Hc). rewrite Ha, Hb, Hc. cbn [is_waiting is_woken is_broadcast].
    rewrite Hw, bool_decide_true by done. rewrite zlen_insert. split; [by right|]. repeat split; try lia.
    all: rewrite ?Ha, ?Hb; cbn [is_waiting is_woken]; rewrite Hw, bool_decide_false by done; lia.
  - exists 0. rewrite (cnt_none _ _ Hn : waiting c ts = 0). repeat split; auto; lia.
Qed.

Lemma wake_counts ts :
  (forall c, waiting c (map wake ts) = 0) /\ (forall c, woken c (map wake ts) = waiting c ts + woken c ts) /\
  broadcasts (map wake ts) = broadcasts ts.
Proof.
  split; [|split].
  - intros c. unfold waiting. rewrite (cnt_wake _ (fun _ => false)); [|by intros []]. apply cnt_none. by apply Forall_true.
  - intros c. unfold waiting, woken. rewrite (cnt_wake _ (fun p => is_waiting c p || is_woken c p)); [|intros []; cbn; by rewrite ?orb_false_r].
    symmetry. apply cnt_add. intros p. destruct p; cbn; try done; by destruct (bool_decide _).
  - unfold broadcasts. apply cnt_wake. by intros [].
Qed.

(** ** The invariant *)

Definition no_bad_lock (p : pc) : Prop := p <> Lock InterruptAll.

(** The invariant, where one element and one free slot may be on their way to the
    thread that has just taken the mutex ([de], [df] are 0 or 1). *)
Record inv_slack (de df capacity n : Z) (s : sys) : Prop := {
  inv_len : zlen (threads s) = n;
  inv_bounds : bounds (sq s) = capacity;
  inv_full : full_waiters (sq s) = waiting Not_full (threads s) + woken Not_full (threads s);
  inv_empty : empty_waiters (sq s) = waiting Not_empty (threads s) + woken Not_empty (threads s);
  (* every element is accounted for by a woken popper as long as a popper waits *)
  inv_pop : 0 < waiting Not_empty (threads s) -> nelts (sq s) <= woken Not_empty (threads s) + de;
  (* every free slot by a woken pusher as long as a pusher waits *)
  inv_push : 0 < waiting Not_full (threads s) -> bounds (sq s) - nelts (sq s) <= woken Not_full (threads s) + df;
  (* after termination nobody waits, or a broadcast is still to come *)
  inv_term : terminated (sq s) = true ->
    0 < waiting Not_empty (threads s) + waiting Not_full (threads s) -> 0 < broadcasts (threads s);
  inv_locks : Forall no_bad_lock (threads s);
  inv_fifo : exists l, ring (sq s) l /\ pushed s = (popped s ++ l)%list
}.

Abbreviation inv := (inv_slack 0 0).

(** The counts after thread [i] moves from [p] to [p']. *)
Ltac counts_of Hi p' :=
  let Ha := fresh "Hwait" in let Hb := fresh "Hwoken" in let Hc := fresh "Hbc" in
  destruct (counts_update _ _ _ p' Hi) as (Ha & Hb & Hc);
  pose proof (Ha Not_empty); pose proof (Ha Not_full); pose proof (Hb Not_empty); pose proof (Hb Not_full);
  clear Ha Hb; cbn [is_waiting is_woken is_broadcast cond_of] in *;
  repeat match goal with H : context [bool_decide (?a = ?b)] |- _ =>
    first [ rewrite (bool_decide_true (a = b)) in H by done | rewrite (bool_decide_false (a = b)) in H by done ] end.

Ltac bounds_of ts :=
  pose proof (cnt_bound (is_waiting Not_empty) ts); pose proof (cnt_bound (is_waiting Not_full) ts);
  pose proof (cnt_bound (is_woken Not_empty) ts); pose proof (cnt_bound (is_woken Not_full) ts);
  pose proof (cnt_bound is_broadcast ts);
  repeat match goal with
  | H : context [cnt (is_waiting ?c) ts] |- _ => change (cnt (is_waiting c) ts) with (waiting c ts) in H
  | H : context [cnt (is_woken ?c) ts] |- _ => change (cnt (is_woken c) ts) with (woken c ts) in H
  | H : context [cnt is_broadcast ts] |- _ => change (cnt is_broadcast ts) with (broadcasts ts) in H
  end.

Lemma no_bad_insert ts i p : Forall no_bad_lock ts -> no_bad_lock p -> Forall no_bad_lock (<[i := p]> ts).
Proof. intros. by apply Forall_insert. Qed.

(** A thread that no count depends on. *)
Definition neutral (p : pc) : Prop :=
  match p with Waiting _ | Woken _ | Broadcast => False | _ => no_bad_lock p end.

Lemma inv_move de df capacity n s i p p' :
  inv_slack de df capacity n s -> threads s !! i = Some p -> neutral p -> neutral p' ->
  inv_slack de df capacity n (mk_sys (sq s) (<[i := p']> (threads s)) (pushed s) (popped s)).
Proof.
  intros [? ? ? ? ? ? Ht ? ?] Hi Hp Hp'.
  assert (Hc : forall c, is_waiting c p = false /\ is_woken c p = false /\ is_waiting c p' = false /\ is_woken c p' = false)
    by (intros c; by destruct p, p').
  assert (Hbc : is_broadcast p = false /\ is_broadcast p' = false) by (by destruct p, p').
  destruct (counts_update _ _ _ p' Hi) as (Ha & Hb & Hbb). rewrite (proj1 Hbc), (proj2 Hbc) in Hbb.
  pose proof (Ha Not_empty) as H1. pose proof (Ha Not_full) as H2. pose proof (Hb Not_empty) as H3. pose proof (Hb Not_full) as H4.
  destruct (Hc Not_empty) as (E1 & E2 & E3 & E4), (Hc Not_full) as (E5 & E6 & E7 & E8).
  rewrite ?E1, ?E2, ?E3, ?E4, ?E5, ?E6, ?E7, ?E8 in *.
  split; cbn [sq threads pushed popped]; try done; try lia.
  - by rewrite zlen_insert.
  - intros Hterm. specialize (Ht Hterm). lia.
  - apply no_bad_insert; [done|]. by destruct p'.
Qed.

(** A woken thread takes the mutex and stops counting as a waiter. *)
Lemma inv_resume_pop capacity n s i :
  inv capacity n s -> n < 2 ^ 31 -> threads s !! i = Some (Woken WPop) ->
  inv_slack 1 0 capacity n (mk_sys (set_waiters (sq s) (full_waiters (sq s)) (u32 (empty_waiters (sq s) - 1)))
    (<[i := Unlocked]> (threads s)) (pushed s) (popped s)).
Proof.
  intros [? ? ? ? ? ? Ht ? Hf] Hn Hi. counts_of Hi Unlocked. bounds_of (threads s). bounds_of (<[i := Unlocked]> (threads s)).
  split; cbn [sq threads pushed popped set_waiters bounds full_waiters empty_waiters nelts terminated]; try done; try lia.
  - by rewrite zlen_insert.
  - unfold u32. rewrite Z.mod_small; lia.
  - intros Hterm. specialize (Ht Hterm). lia.
  - by apply no_bad_insert.
  - destruct Hf as (l & [] & Hp). exists l. by split.
Qed.

Lemma inv_resume_push capacity n s i v :
  inv capacity n s -> n < 2 ^ 31 -> threads s !! i = Some (Woken (WPush v)) ->
  inv_slack 0 1 capacity n (mk_sys (set_waiters (sq s) (u32 (full_waiters (sq s) - 1)) (empty_waiters (sq s)))
    (<[i := Unlocked]> (threads s)) (pushed s) (popped s)).
Proof.
  intros [? ? ? ? ? ? Ht ? Hf] Hn Hi. counts_of Hi Unlocked. bounds_of (threads s). bounds_of (<[i := Unlocked]> (threads s)).
  split; cbn [sq threads pushed popped set_waiters bounds full_waiters empty_waiters nelts terminated]; try done; try lia.
  - by rewrite zlen_insert.
  - unfold u32. rewrite Z.mod_small; lia.
  - intros Hterm. specialize (Ht Hterm). lia.
  - by apply no_bad_insert.
  - destruct Hf as (l & [] & Hp). exists l. by split.
Qed.

(** Ends of sections, for a thread that holds the mutex. *)
Section ends.
Context (capacity n : Z) (s : sys) (i : nat).
Hypothesis Hn : n < 2 ^ 31.
Hypothesis Hi : threads s !! i = Some Unlocked.

Lemma notified_inv de df q ts sg r hs :
  inv_slack de df capacity n s -> 0 <= de <= 1 -> 0 <= df <= 1 ->
  notified sg (<[i := Finished r]> (threads s)) ts ->
  bounds q = bounds (sq s) -> full_waiters q = full_waiters (sq s) -> empty_waiters q = empty_waiters (sq s) ->
  terminated q = terminated (sq s) ->
  (0 < waiting Not_empty ts -> nelts q <= woken Not_empty ts) ->
  (0 < waiting Not_full ts -> bounds q - nelts q <= woken Not_full ts) ->
  (exists l, ring q l /\ fst hs = (snd hs ++ l)%list) ->
  inv capacity n (mk_sys q ts (fst hs) (snd hs)).
Proof.
  intros [? ? ? ? ? ? Ht ? ?] Hde Hdf Hsg Hb Hfw Hew Htm Hpop Hpush Hl. counts_of Hi (Finished r).
  assert (Hc : waiting Not_empty ts + woken Not_empty ts = waiting Not_empty (threads s) + woken Not_empty (threads s) /\
    waiting Not_full ts + woken Not_full ts = waiting Not_full (threads s) + woken Not_full (threads s) /\
    waiting Not_empty ts <= waiting Not_empty (threads s) /\ waiting Not_full ts <= waiting Not_full (threads s) /\
    broadcasts ts = broadcasts (threads s) /\ zlen ts = zlen (threads s)).
  { destruct sg as [c|]; cbn [notified] in Hsg; [|subst ts; rewrite zlen_insert; lia].
    destruct (signalled_counts _ _ _ Hsg) as (k & Hk & Hw & Hkk & Ho & Hbc' & Hz). rewrite zlen_insert in Hz.
    destruct c; [pose proof (Ho Not_full ltac:(done))|pose proof (Ho Not_empty ltac:(done))]; lia. }
  assert (Hlocks : Forall no_bad_lock ts).
  { assert (Hb' : Forall no_bad_lock (<[i := Finished r]> (threads s))) by (by apply no_bad_insert).
    destruct sg as [c|]; cbn [notified] in Hsg; [|by subst ts]. destruct Hsg as [j p Hj Hw|]; [|done].
    apply no_bad_insert; [done|]. by destruct p. }
  split; cbn [sq threads pushed popped]; try done; try lia.
  rewrite Htm. intros Hterm. specialize (Ht Hterm). lia.
Qed.

(** The counts after a return, with or without a signal. *)
Lemma notified_counts sg r ts :
  notified sg (<[i := Finished r]> (threads s)) ts ->
  forall c, waiting c ts = waiting c (threads s) /\ woken c ts = woken c (threads s) \/
    sg = Some c /\ waiting c ts = waiting c (threads s) - 1 /\ woken c ts = woken c (threads s) + 1.
Proof.
  intros Hsg c. destruct (counts_update _ _ _ (Finished r) Hi) as (Ha & Hb & _). specialize (Ha c). specialize (Hb c).
  cbn [is_waiting is_woken] in Ha, Hb. destruct sg as [c'|]; cbn [notified] in Hsg; [|subst; left; lia].
  destruct (signalled_counts _ _ _ Hsg) as (k & Hk & Hw & Hkk & Ho & _).
  destruct (decide (c = c')) as [->|Hne]; [|destruct (Ho c Hne); left; lia].
  destruct Hk as [[-> _]| ->]; [left; lia|right; split; [done|lia]].
Qed.

(** A signal is not lost: with none, nobody waited. *)
Lemma notified_none sg r ts c :
  notified sg (<[i := Finished r]> (threads s)) ts ->
  waiting c ts = waiting c (threads s) -> 0 < waiting c ts -> sg <> Some c.
Proof.
  intros Hsg Hw Hp ->. cbn [notified] in Hsg. destruct (signalled_counts _ _ _ Hsg) as (k & Hk & Hw' & _).
  destruct (counts_update _ _ _ (Finished r) Hi) as (Ha & _). specialize (Ha c). cbn [is_waiting] in Ha.
  destruct Hk as [[-> ?]| ->]; lia.
Qed.

Lemma push_end df v e s' w :
  inv_slack 0 df capacity n s -> 0 <= df <= 1 -> nelts (sq s) <> bounds (sq s) ->
  push_element (sq s) v = Ok e -> ended s i w [v] e s' -> inv capacity n s'.
Proof.
  intros Hinv Hdf Hne Hpe He. destruct (inv_fifo _ _ _ _ _ Hinv) as (l & Hr & Hh).
  pose proof (ring_nelts _ _ Hr) as Hnl. pose proof (ring_size _ _ Hr) as Hsz.
  destruct (push_ring (sq s) l v Hr ltac:(lia)) as (q & Hp & Hr' & Hb & Hf & He' & Ht). rewrite Hp in Hpe. injection Hpe as <-.
  inversion He as [| |q0 r0 sg0 ts Hsg]; subst q0 r0 sg0 s'. pose proof (ring_nelts _ _ Hr') as Hnl'. rewrite zlen_app in Hnl'.
  change (zlen [v]) with 1 in Hnl'. pose proof (notified_counts _ _ _ Hsg) as Hc.
  pose proof Hinv as [? ? ? Hew Hpop Hpush ? ? _].
  bounds_of (threads s). bounds_of ts. eapply (notified_inv 0 df); eauto; try lia.
  - intros Hw. pose proof (notified_none _ _ _ Not_empty Hsg) as Hnone.
    destruct (Hc Not_empty) as [[H1' H2']|[_ [H1' H2']]]; [|specialize (Hpop ltac:(lia)); lia].
    specialize (Hnone H1' Hw). destruct (Z.eqb_spec (empty_waiters (sq s)) 0); [|done]. lia.
  - intros Hw. destruct (Hc Not_full) as [[H1' H2']|[Hs _]]; [specialize (Hpush ltac:(lia)); lia|].
    by destruct (empty_waiters (sq s) =? 0).
  - exists (l ++ [v])%list. split; [done|]. cbn [history fst snd]. by rewrite Hh, app_assoc.
Qed.

Lemma pop_end de e s' w :
  inv_slack de 0 capacity n s -> 0 <= de <= 1 -> nelts (sq s) <> 0 ->
  pop_element (sq s) = Ok e -> ended s i w [] e s' -> inv capacity n s'.
Proof.
  intros Hinv Hde Hne Hpe He. destruct (inv_fifo _ _ _ _ _ Hinv) as (l & Hr & Hh).
  pose proof (ring_nelts _ _ Hr) as Hnl. destruct l as [|x l]; [by rewrite zlen_nil in Hnl|]. rewrite zlen_cons in Hnl.
  destruct (pop_ring (sq s) x l Hr) as (q & Hp & Hr' & Hb & Hf & He' & Ht). rewrite Hp in Hpe. injection Hpe as <-.
  inversion He as [| |q0 r0 sg0 ts Hsg]; subst q0 r0 sg0 s'. pose proof (ring_nelts _ _ Hr') as Hnl'.
  pose proof (notified_counts _ _ _ Hsg) as Hc. pose proof Hinv as [? ? Hfw ? Hpop Hpush ? ? _].
  bounds_of (threads s). bounds_of ts. eapply (notified_inv de 0); eauto; try lia.
  - intros Hw. destruct (Hc Not_empty) as [[H1' H2']|[Hs _]]; [specialize (Hpop ltac:(lia)); lia|].
    by destruct (full_waiters (sq s) =? 0).
  - intros Hw. pose proof (notified_none _ _ _ Not_full Hsg) as Hnone.
    destruct (Hc Not_full) as [[H1' H2']|[_ [H1' H2']]]; [|specialize (Hpush ltac:(lia)); lia].
    specialize (Hnone H1' Hw). destruct (Z.eqb_spec (full_waiters (sq s)) 0); [|done]. lia.
  - exists l. split; [done|]. cbn [history fst snd]. by rewrite Hh, <- app_assoc.
Qed.

Lemma wait_end w q :
  inv capacity n s -> terminated (sq s) = false ->
  match w with
  | WPop => nelts (sq s) = 0 /\ q = set_waiters (sq s) (full_waiters (sq s)) (u32 (empty_waiters (sq s) + 1))
  | WPush _ => nelts (sq s) = bounds (sq s) /\ q = set_waiters (sq s) (u32 (full_waiters (sq s) + 1)) (empty_waiters (sq s))
  end ->
  inv capacity n (mk_sys q (<[i := Waiting w]> (threads s)) (pushed s) (popped s)).
Proof.
  intros [? ? ? ? ? ? Ht ? Hf] Hterm Hw. bounds_of (threads s). bounds_of (<[i := Waiting w]> (threads s)).
  rewrite !zlen_insert in *.
  destruct w as [v|]; destruct Hw as [Hne ->]; [counts_of Hi (Waiting (WPush v))|counts_of Hi (@Waiting WPop)];
    (split; cbn [sq threads pushed popped set_waiters bounds full_waiters empty_waiters nelts terminated]; try done; try lia;
     [by rewrite zlen_insert|unfold u32; rewrite Z.mod_small; lia|congruence|by apply no_bad_insert|];
     destruct Hf as (l & [] & Hp); exists l; by split).
Qed.

Lemma interrupted_end de df :
  inv_slack de df capacity n s -> (nelts (sq s) = 0 /\ df = 0 \/ nelts (sq s) = bounds (sq s) /\ de = 0) ->
  inv capacity n (mk_sys (sq s) (<[i := Unlocked]> (threads s)) (pushed s) (popped s)).
Proof.
  intros [? ? ? ? ? ? Ht ? ?] Hd. bounds_of (threads s). counts_of Hi Unlocked.
  split; cbn [sq threads pushed popped]; try done; try lia.
  - by rewrite zlen_insert.
  - intros Hterm. specialize (Ht Hterm). lia.
  - by apply no_bad_insert.
Qed.
End ends.

(** The end of a section does not depend on where its thread was. *)
Lemma ended_neutral s i q w vs e s' :
  ended s i w vs e s' ->
  ended (mk_sys q (<[i := Unlocked]> (threads s)) (pushed s) (popped s)) i w vs e s'.
Proof.
  set (s0 := mk_sys q _ _ _). intros [q' w' Hw|q'|q' r sg ts Hsg].
  - rewrite <- (list_insert_insert_eq (threads s) i (Waiting w') Unlocked). exact (ended_waits s0 i w vs q' w' Hw).
  - rewrite <- (list_insert_insert_eq (threads s) i Unlocked Unlocked). exact (ended_interrupted s0 i w vs q').
  - rewrite <- (list_insert_insert_eq (threads s) i (Finished r) Unlocked) in Hsg.
    replace (history r vs s) with (history r vs s0) by (by destruct r as [[]| | |]).
    exact (ended_returns s0 i w vs q' r sg ts Hsg).
Qed.

Lemma enter_inv capacity n s i o e s' :
  inv capacity n s -> n < 2 ^ 31 -> threads s !! i = Some Unlocked ->
  enter o (sq s) = Ok e -> ended s i (wop_of o) (pushes o) e s' -> inv capacity n s'.
Proof.
  intros Hinv Hn Hi He Hend.
  assert (Hagain : e = Returns (sq s) APR_EAGAIN None -> inv capacity n s').
  { intros ->. inversion Hend as [| |q0 r0 sg0 ts Hsg]; subst q0 r0 sg0 s'. cbn [notified history fst snd] in *. subst ts.
    by apply (inv_move 0 0 _ _ _ _ Unlocked). }
  assert (Hintr : e = Interrupted (sq s) -> inv capacity n s').
  { intros ->. inversion Hend; subst s'. by apply (inv_move 0 0 _ _ _ _ Unlocked). }
  destruct o as [v|v| | | |]; cbn [enter wop_of pushes] in *; try done;
    unfold apr_queue_push, apr_queue_trypush, apr_queue_pop, apr_queue_trypop, apr_queue_full, apr_queue_empty in He;
    match type of He with (if ?a =? ?b then _ else _) = _ => destruct (Z.eqb_spec a b) as [E|E] end;
    try (injection He as <-; by apply Hagain); try (eapply (push_end _ _ _ _ Hi 0); eauto; lia);
    try (eapply (pop_end _ _ _ _ Hi 0); eauto; lia);
    (destruct (terminated (sq s)) eqn:Et; injection He as <-; [by apply Hintr|]);
    inversion Hend; simplify_eq; by apply wait_end.
Qed.

Lemma resume_inv capacity n s i w e s' :
  inv capacity n s -> n < 2 ^ 31 -> threads s !! i = Some (Woken w) ->
  resume w (sq s) = Ok e -> ended s i (Some w) (wpushes w) e s' -> inv capacity n s'.
Proof.
  intros Hinv Hn Hi He Hend.
  assert (Hui : forall q, threads (mk_sys q (<[i := Unlocked]> (threads s)) (pushed s) (popped s)) !! i = Some Unlocked)
    by (intros q; cbn [threads]; apply list_lookup_insert_eq; by eapply lookup_lt_Some).
  destruct w as [v|]; cbn [resume wpushes] in *; [unfold push_woken, apr_queue_full in He|unfold pop_woken, apr_queue_empty in He];
    match type of He with (if ?a =? ?b then _ else _) = _ => destruct (Z.eqb_spec a b) as [E|E] end.
  - injection He as <-. inversion Hend; subst s'. rewrite <- (list_insert_insert_eq (threads s) i Unlocked Unlocked).
    eapply (interrupted_end _ _ (mk_sys _ _ _ _) i (Hui _) 0 1); [by apply inv_resume_push with (v := v)|by right].
  - eapply (push_end _ _ (mk_sys _ _ _ _) i (Hui _) 1); [by apply inv_resume_push with (v := v)|lia|exact E|exact He|].
    by apply ended_neutral.
  - injection He as <-. inversion Hend; subst s'. rewrite <- (list_insert_insert_eq (threads s) i Unlocked Unlocked).
    eapply (interrupted_end _ _ (mk_sys _ _ _ _) i (Hui _) 1 0); [by apply inv_resume_pop|by left].
  - eapply (pop_end _ _ (mk_sys _ _ _ _) i (Hui _) 1); [by apply inv_resume_pop|lia|exact E|exact He|].
    by apply ended_neutral.
Qed.

(** A thread comes to its broadcast; a terminating one has set the flag. *)
Lemma broadcast_pending_inv capacity n s i p q :
  inv capacity n s -> threads s !! i = Some p -> neutral p -> (q = sq s \/ q = apr_queue_term (sq s)) ->
  inv capacity n (mk_sys q (<[i := Broadcast]> (threads s)) (pushed s) (popped s)).
Proof.
  intros Hinv Hi Hp Hq. pose proof (inv_move _ _ _ _ _ _ _ Unlocked Hinv Hi Hp ltac:(done)) as [? ? ? ? ? ? Ht Hl (l & Hr & Hh)].
  cbn [sq threads pushed popped] in *. set (ts := <[i := Unlocked]> (threads s)) in *.
  assert (Hi' : ts !! i = Some Unlocked) by (apply list_lookup_insert_eq; by eapply lookup_lt_Some).
  rewrite <- (list_insert_insert_eq (threads s) i Broadcast Unlocked). fold ts. counts_of Hi' (@Broadcast).
  bounds_of ts. destruct Hq as [-> | ->];
    (split; cbn [sq threads pushed popped apr_queue_term bounds full_waiters empty_waiters nelts terminated]; try done; try lia;
     [by rewrite zlen_insert|by apply no_bad_insert|]; exists l; split; [|done]; destruct Hr; by split).
Qed.

Lemma broadcast_inv capacity n s i :
  inv capacity n s -> threads s !! i = Some Broadcast ->
  inv capacity n (mk_sys (sq s) (map wake (<[i := Finished (APR_SUCCESS None)]> (threads s))) (pushed s) (popped s)).
Proof.
  intros [? ? ? ? ? ? ? Hl ?] Hi. counts_of Hi (Finished (APR_SUCCESS None)).
  set (ts := <[i := _]> (threads s)) in *. destruct (wake_counts ts) as (Ha & Hb & Hc).
  pose proof (Ha Not_empty). pose proof (Ha Not_full). pose proof (Hb Not_empty). pose proof (Hb Not_full).
  split; cbn [sq threads pushed popped]; try done; try lia.
  - rewrite zlen_map. subst ts. by rewrite zlen_insert.
  - apply Forall_map. eapply Forall_impl; [by apply no_bad_insert; [exact Hl|]|]. by intros [].
Qed.

Lemma spurious_inv capacity n s i w :
  inv capacity n s -> threads s !! i = Some (Waiting w) ->
  inv capacity n (mk_sys (sq s) (<[i := Woken w]> (threads s)) (pushed s) (popped s)).
Proof.
  intros [? ? ? ? ? ? Ht ? ?] Hi. bounds_of (threads s). destruct w as [v|];
    [counts_of Hi (Woken (WPush v))|counts_of Hi (Woken WPop)];
    (split; cbn [sq threads pushed popped]; try done; try lia;
     [by rewrite zlen_insert|intros Hterm; specialize (Ht Hterm); lia|by apply no_bad_insert]).
Qed.

Lemma step_inv capacity n s s' : inv capacity n s -> n < 2 ^ 31 -> step s s' -> inv capacity n s'.
Proof.
  intros Hinv Hn [i0 Hs]. destruct Hs as [i o Hi|i o e s' Hi Ho He Hend|i w e s' Hi He Hend|i Hi|i Hi|i Hi|i w Hi].
  - destruct o as [v|v| | | |]; cbn [start]; try (eapply broadcast_pending_inv; eauto; done);
      eapply (inv_move 0 0); eauto; try done; by destruct (terminated (sq s)).
  - pose proof (inv_move 0 0 _ _ _ _ _ Unlocked Hinv Hi) as Hm.
    eapply (enter_inv _ _ (mk_sys (sq s) (<[i := Unlocked]> (threads s)) (pushed s) (popped s)) i);
      [apply Hm; [|done]|done| |exact He|by apply ended_neutral].
    + pose proof (proj1 (Forall_lookup _ _) (inv_locks _ _ _ _ _ Hinv) _ _ Hi). done.
    + cbn [threads]. apply list_lookup_insert_eq. by eapply lookup_lt_Some.
  - by eapply resume_inv.
  - by eapply (inv_move 0 0).
  - eapply broadcast_pending_inv; eauto. done.
  - by apply broadcast_inv.
  - by apply spurious_inv.
Qed.

Lemma init_inv capacity ops : 0 < capacity < 2 ^ 32 -> inv capacity (zlen ops) (init capacity ops).
Proof.
  intros Hc. assert (H0 : forall f : pc -> bool, (forall o, f (Start o) = false) -> cnt f (map Start ops) = 0)
    by (intros f Hf; apply cnt_none, Forall_map, Forall_true, Hf).
  split; cbn [init sq threads pushed popped apr_queue_create bounds full_waiters empty_waiters nelts terminated];
    unfold waiting, woken, broadcasts; rewrite ?H0 by done; try done; try lia.
  - apply zlen_map.
  - by apply Forall_map, Forall_true.
  - exists []. split; [by apply create_ring|done].
Qed.

Lemma reachable_inv capacity ops s :
  0 < capacity < 2 ^ 32 -> zlen ops < 2 ^ 31 -> reachable capacity ops s -> inv capacity (zlen ops) s.
Proof. intros Hc Hn. induction 1 as [|s s' _ IH Hs]; [by apply init_inv|by eapply step_inv]. Qed.

(** ** Progress *)

Lemma notified_total sg ts : exists ts', notified sg ts ts'.
Proof.
  destruct sg as [c|]; [|by exists ts]. cbn [notified].
  destruct (Z.lt_ge_cases 0 (cnt (is_waiting c) ts)) as [H|H].
  - destruct (cnt_pos _ _ H) as (i & p & Hi & Hp). eexists. by eapply signal_one.
  - exists ts. apply signal_none. apply Forall_lookup. intros i p Hi. apply not_true_is_false. intros Hp.
    pose proof (cnt_insert (is_waiting c) ts i p Unlocked Hi) as Hc. rewrite Hp in Hc. cbn [is_waiting] in Hc.
    pose proof (cnt_bound (is_waiting c) (<[i := Unlocked]> ts)). lia.
Qed.

Lemma ended_total s i w vs e : (forall q, e = Waits q -> w <> None) -> exists s', ended s i w vs e s'.
Proof.
  intros Hw. destruct e as [q|q|q r sg].
  - destruct w as [w|]; [|by destruct (Hw q eq_refl)]. eexists. by constructor.
  - eexists. constructor.
  - destruct (notified_total sg (<[i := Finished r]> (threads s))) as [ts Hts]. eexists. by constructor.
Qed.

(** A section that may run ends without an access outside the ring. *)
Lemma section_total q l o :
  ring q l -> o <> Term -> o <> InterruptAll ->
  exists e, enter o q = Ok e /\ forall q', e = Waits q' -> wop_of o <> None.
Proof.
  intros Hr Ho Ho'. pose proof (ring_nelts _ _ Hr) as Hn. pose proof (ring_size _ _ Hr).
  assert (Hpush : forall v, nelts q <> bounds q -> exists q' r sg, push_element q v = Ok (Returns q' r sg)).
  { intros v Hv. destruct (push_ring q l v Hr ltac:(lia)) as (q' & -> & _). eauto. }
  assert (Hpop : nelts q <> 0 -> exists q' r sg, pop_element q = Ok (Returns q' r sg)).
  { intros Hv. destruct l as [|x l]; [by rewrite zlen_nil in Hn|]. destruct (pop_ring q x l Hr) as (q' & -> & _). eauto. }
  destruct o as [v|v| | | |]; try done; cbn [enter wop_of];
    unfold apr_queue_push, apr_queue_trypush, apr_queue_pop, apr_queue_trypop, apr_queue_full, apr_queue_empty;
    match goal with |- context [?a =? ?b] => destruct (Z.eqb_spec a b) as [E|E] end;
    try (destruct (Hpush v E) as (q' & r & sg & ->); eexists; split; [done|]; done);
    try (destruct (Hpop E) as (q' & r & sg & ->); eexists; split; [done|]; done);
    try destruct (terminated q); eexists; (split; [done|]); done.
Qed.

Lemma resume_total q l w : ring q l -> exists e, resume w q = Ok e.
Proof.
  intros Hr. assert (Hr' : forall f e, ring (set_waiters q f e) l) by (intros; destruct Hr; by split).
  pose proof (ring_nelts _ _ Hr) as Hn. pose proof (ring_size _ _ Hr).
  destruct w as [v|]; cbn [resume]; [unfold push_woken, apr_queue_full|unfold pop_woken, apr_queue_empty];
    match goal with |- context [?a =? ?b] => destruct (Z.eqb_spec a b) as [E|E] end; eauto; cbn [set_waiters nelts bounds] in E.
  - destruct (push_ring _ l v (Hr' (u32 (full_waiters q - 1)) (empty_waiters q))) as (q' & -> & _); [cbn; lia|eauto].
  - destruct l as [|x l]; [by rewrite zlen_nil in Hn|].
    destruct (pop_ring _ x l (Hr' (full_waiters q) (u32 (empty_waiters q - 1)))) as (q' & -> & _). eauto.
Qed.

(** Neither waiting nor finished. *)
Definition active (p : pc) : bool := match p with Waiting _ | Finished _ => false | _ => true end.

Lemma active_steps capacity n s i p :
  inv capacity n s -> threads s !! i = Some p -> active p = true -> exists s', step_of s i s'.
Proof.
  intros Hinv Hi Hp. destruct (inv_fifo _ _ _ _ _ Hinv) as (l & Hr & _).
  destruct p as [o|o|w|w| | |r]; try done.
  - eexists. by eapply step_start.
  - assert (Ho : o = Term \/ o = InterruptAll \/ o <> Term /\ o <> InterruptAll) by (destruct o; auto).
    destruct Ho as [->|[->|[Ht Hia]]]; [eexists; by eapply step_term| |].
    { by destruct (proj1 (Forall_lookup _ _) (inv_locks _ _ _ _ _ Hinv) _ _ Hi). }
    destruct (section_total (sq s) l o Hr Ht Hia) as (e & He & Hw).
    destruct (ended_total s i (wop_of o) (pushes o) e Hw) as [s' Hs']. exists s'. by eapply step_enter.
  - destruct (resume_total (sq s) l w Hr) as [e He]. destruct (ended_total s i (Some w) (wpushes w) e) as [s' Hs']; [done|].
    eexists. by eapply step_resume.
  - eexists. by eapply step_unlocked.
  - eexists. by eapply step_broadcast.
Qed.

(** ** Termination *)

Definition rank (p : pc) : Z :=
  match p with
  | Start _ | Waiting _ => 3
  | Lock _ | Woken _ => 2
  | Unlocked | Broadcast => 1
  | Finished _ => 0
  end.

Fixpoint total (ts : list pc) : Z :=
  match ts with [] => 0 | p :: ts => rank p + total ts end.

Lemma total_bound ts : 0 <= total ts <= 3 * zlen ts.
Proof. induction ts as [|p ts IH]; cbn [total]; [done|]. rewrite zlen_cons. destruct p; cbn [rank]; lia. Qed.

Lemma total_insert ts i p p' : ts !! i = Some p -> total (<[i := p']> ts) = total ts - rank p + rank p'.
Proof.
  revert i. induction ts as [|a ts IH]; intros [|i] Hi; try done.
  - cbn in Hi. simplify_eq. change (<[0%nat := p']> (p :: ts)) with (p' :: ts). cbn [total]. lia.
  - change (<[S i := p']> (a :: ts)) with (a :: <[i := p']> ts). cbn [total]. rewrite (IH i Hi). lia.
Qed.

Lemma total_wake ts : total (map wake ts) <= total ts.
Proof. induction ts as [|p ts IH]; cbn [map total]; [done|]. destruct p; cbn [wake rank]; lia. Qed.

Lemma total_notified sg ts ts' : notified sg ts ts' -> total ts' <= total ts.
Proof.
  destruct sg as [c|]; [|by intros ->]. intros [i p Hi Hp|_]; [|done]. rewrite (total_insert _ _ _ _ Hi).
  destruct p; cbn [wake rank]; lia.
Qed.

(** A section keeps [terminated], and does not wait once it is set. *)
Lemma section_terminated q e :
  (exists o, enter o q = Ok e) \/ (exists w, resume w q = Ok e) -> terminated q = true ->
  match e with Waits _ => False | Interrupted q' | Returns q' _ _ => terminated q' = true end.
Proof.
  assert (Hpush : forall q v e, push_element q v = Ok e -> terminated q = true ->
    match e with Waits _ => False | Interrupted q' | Returns q' _ _ => terminated q' = true end).
  { intros q0 v e0. unfold push_element. destruct (store _ _ _); cbn [rbind]; [|done]. by intros [= <-]. }
  assert (Hpop : forall q e, pop_element q = Ok e -> terminated q = true ->
    match e with Waits _ => False | Interrupted q' | Returns q' _ _ => terminated q' = true end).
  { intros q0 e0. unfold pop_element. destruct (of_option _ _); cbn [rbind]; [|done]. by intros [= <-]. }
  intros [[o He]|[w He]] Ht; [destruct o as [v|v| | | |]|destruct w as [v|]]; cbn [enter resume] in He; try done;
    unfold apr_queue_push, apr_queue_trypush, apr_queue_pop, apr_queue_trypop, push_woken, pop_woken in He;
    match type of He with (if ?b then _ else _) = _ => destruct b end;
    rewrite ?Ht in He; simplify_eq; try done; solve [by eapply Hpush|by eapply Hpop].
Qed.

Lemma ended_total_lt s i w vs e s' p :
  ended s i w vs e s' -> threads s !! i = Some p -> rank p = 2 ->
  match e with Waits _ => False | Interrupted q' | Returns q' _ _ => terminated q' = true end ->
  terminated (sq s') = true /\ total (threads s') < total (threads s).
Proof.
  intros [q' w' Hw|q'|q' r sg ts Hsg] Hi Hp He; [done| |]; cbn [sq threads]; (split; [done|]).
  - rewrite (total_insert _ _ _ _ Hi). cbn [rank]. lia.
  - apply total_notified in Hsg. rewrite (total_insert _ _ _ _ Hi) in Hsg. cbn [rank] in Hsg. lia.
Qed.

Lemma step_total s s' :
  step s s' -> terminated (sq s) = true -> terminated (sq s') = true /\ total (threads s') < total (threads s).
Proof.
  intros [i0 Hs] Ht. destruct Hs as [i o Hi|i o e s' Hi Ho He Hend|i w e s' Hi He Hend|i Hi|i Hi|i Hi|i w Hi];
    try (eapply ended_total_lt; [exact Hend|exact Hi|done|]; eapply section_terminated; eauto; done);
    cbn [sq threads apr_queue_term terminated]; (split; [done|]).
  - rewrite (total_insert _ _ _ _ Hi). destruct o; cbn [start rank]; rewrite ?Ht; cbn [rank]; lia.
  - rewrite (total_insert _ _ _ _ Hi). cbn [rank]. lia.
  - rewrite (total_insert _ _ _ _ Hi). cbn [rank]. lia.
  - pose proof (total_wake (<[i := Finished (APR_SUCCESS None)]> (threads s))) as Hw.
    rewrite (total_insert _ _ _ _ Hi) in Hw. cbn [rank] in Hw. lia.
  - rewrite (total_insert _ _ _ _ Hi). cbn [rank]. lia.
Qed.

(** Runs of [k] steps. *)
Inductive run : Z -> sys -> sys -> Prop :=
  | run_nil s : run 0 s s
  | run_step k s s' s'' : step s s' -> run k s' s'' -> run (1 + k) s s''.

(** C29: The queue is first-in first-out under every interleaving. In every
    reachable state of any number of threads (below 2^31) running any operations on
    a queue of positive capacity, the ring holds a list of at most [capacity]
    elements and the values pushed so far are the values popped so far followed by
    that list; and the two waiter counts are the numbers of threads that wait on
    their condition or have been woken and not yet run, so at most the number of
    threads: they never wrap around. *)
Theorem queue_fifo capacity ops (s : sys) :
  0 < capacity < 2 ^ 32 -> zlen ops < 2 ^ 31 -> reachable capacity ops s ->
  (exists l, ring (sq s) l /\ pushed s = (popped s ++ l)%list /\
     apr_queue_size (sq s) = zlen l /\ zlen l <= capacity) /\
  full_waiters (sq s) = waiting Not_full (threads s) + woken Not_full (threads s) /\
  empty_waiters (sq s) = waiting Not_empty (threads s) + woken Not_empty (threads s) /\
  0 <= full_waiters (sq s) <= zlen ops /\ 0 <= empty_waiters (sq s) <= zlen ops.
Proof.
  intros Hc Hn Hr. pose proof (reachable_inv _ _ _ Hc Hn Hr) as Hinv. split.
  - destruct (inv_fifo _ _ _ _ _ Hinv) as (l & Hl & Hp). exists l. split; [done|]. split; [done|].
    split; [apply Hl|]. rewrite <- (inv_bounds _ _ _ _ _ Hinv). apply Hl.
  - pose proof (inv_full _ _ _ _ _ Hinv) as Hf. pose proof (inv_empty _ _ _ _ _ Hinv) as He.
    assert (Hb : forall c, 0 <= waiting c (threads s) + woken c (threads s) <= zlen ops).
    { intros c. rewrite <- (inv_len _ _ _ _ _ Hinv). unfold waiting, woken.
      rewrite (cnt_add _ _ (fun p => is_waiting c p || is_woken c p)); [apply cnt_bound|].
      intros p. destruct p; cbn; try done; by destruct (bool_decide _). }
    rewrite Hf, He. auto.
Qed.

(** When only waiting and finished threads are left. *)
Lemma blocked_waits capacity n s :
  inv capacity n s -> Forall (fun p => active p = false) (threads s) ->
  (0 < waiting Not_empty (threads s) -> nelts (sq s) = 0 /\ waiting Not_full (threads s) = 0) /\
  (0 < waiting Not_full (threads s) -> nelts (sq s) = capacity /\ waiting Not_empty (threads s) = 0) /\
  (terminated (sq s) = true -> waiting Not_empty (threads s) = 0 /\ waiting Not_full (threads s) = 0).
Proof.
  intros Hinv Hblocked.
  assert (H0 : forall f : pc -> bool, (forall p, f p = true -> active p = true) -> cnt f (threads s) = 0).
  { intros f Hf. apply cnt_none. eapply Forall_impl; [exact Hblocked|]. intros p Hp. apply not_true_is_false.
    intros Hfp. apply Hf in Hfp. congruence. }
  assert (Hk : forall c, woken c (threads s) = 0) by (intros c; apply H0; by intros []).
  assert (Hb : broadcasts (threads s) = 0) by (apply H0; by intros []).
  pose proof (Hk Not_empty). pose proof (Hk Not_full). destruct (inv_fifo _ _ _ _ _ Hinv) as (l & Hl & _).
  pose proof (ring_nelts _ _ Hl). pose proof (ring_size _ _ Hl). pose proof (ring_bounds _ _ Hl). pose proof (zlen_nonneg l).
  destruct Hinv as [? ? ? ? Hpop Hpush Hterm _ _]. bounds_of (threads s).
  split; [intros; lia|]. split; [intros; lia|]. intros Ht. specialize (Hterm Ht). lia.
Qed.

(** C30: No lost wakeups. In every reachable state, every thread that neither waits
    nor has finished can take a step of its own (no section accesses outside the
    ring); and
    when only waiting and finished threads are left, a waiting pop means that the
    queue is empty, a waiting push that it is full, so not both, and nobody waits
    if the queue was terminated. *)
Theorem queue_no_lost_wakeup capacity ops (s : sys) :
  0 < capacity < 2 ^ 32 -> zlen ops < 2 ^ 31 -> reachable capacity ops s ->
  (forall i p, threads s !! i = Some p -> active p = true -> exists s', step_of s i s') /\
  (Forall (fun p => active p = false) (threads s) ->
   (0 < waiting Not_empty (threads s) -> nelts (sq s) = 0 /\ waiting Not_full (threads s) = 0) /\
   (0 < waiting Not_full (threads s) -> nelts (sq s) = capacity /\ waiting Not_empty (threads s) = 0) /\
   (terminated (sq s) = true -> waiting Not_empty (threads s) = 0 /\ waiting Not_full (threads s) = 0)).
Proof.
  intros Hc Hn Hr. pose proof (reachable_inv _ _ _ Hc Hn Hr) as Hinv.
  split; [intros i p; by eapply active_steps|by eapply blocked_waits].
Qed.

(** C31: Termination reaches everybody. From every reachable state in which the
    queue is terminated, every run is finite, of at most three steps per thread;
    as long as a thread is neither waiting nor finished the run can be continued,
    and when none is, every thread has finished: nobody stays blocked after
    [apr_queue_term], and no spurious wakeup is needed for that. *)
Theorem queue_term_completes capacity ops (s : sys) k s' :
  0 < capacity < 2 ^ 32 -> zlen ops < 2 ^ 31 -> reachable capacity ops s -> terminated (sq s) = true ->
  run k s s' ->
  k <= 3 * zlen ops /\
  (forall i p, threads s' !! i = Some p -> active p = true -> exists s'', step s' s'') /\
  (Forall (fun p => active p = false) (threads s') -> Forall (fun p => exists r, p = Finished r) (threads s')).
Proof.
  intros Hc Hn Hr Ht Hrun. pose proof (total_bound (threads s)) as Hb.
  rewrite (inv_len _ _ _ _ _ (reachable_inv _ _ _ Hc Hn Hr)) in Hb.
  assert (H : k <= total (threads s) /\ reachable capacity ops s' /\ terminated (sq s') = true).
  { clear Hb. induction Hrun as [s|k s s1 s' Hs Hrun IH]; [pose proof (total_bound (threads s)); by split; [lia|]|].
    destruct (step_total _ _ Hs Ht) as [Ht1 Hlt].
    destruct (IH ltac:(by eapply reach_step) Ht1) as (Hk & Hr' & Ht'). split; [lia|done]. }
  destruct H as (Hk & Hr' & Ht'). split; [lia|]. pose proof (reachable_inv _ _ _ Hc Hn Hr') as Hinv.
  split; [intros i p Hi Ha; destruct (active_steps _ _ _ _ _ Hinv Hi Ha) as [s'' Hs'']; by exists s'', i|]. intros Hblocked. apply Forall_lookup. intros i p Hi.
  pose proof (proj1 (Forall_lookup _ _) Hblocked _ _ Hi) as Ha.
  destruct p as [| |w| | | |r]; try done; [|by exists r]. exfalso. destruct (blocked_waits _ _ _ Hinv Hblocked) as (_ & _ & Hw).
  destruct (Hw Ht') as [He Hf].
  destruct w as [v|]; counts_of Hi (Unlocked); bounds_of (<[i := Unlocked]> (threads s')); lia.
Qed.
End queue.

(** ** Witnesses *)

(** A thread that returns without a signal. *)
Lemma enter_returns capacity ops (s : sys (V := Z)) i o q r :
  reachable capacity ops s -> threads s !! i = Some (Lock o) -> o <> Term -> enter o (sq s) = Ok (Returns q r None) ->
  reachable capacity ops (mk_sys q (<[i := Finished r]> (threads s)) (fst (history r (pushes o) s)) (snd (history r (pushes o) s))).
Proof. intros Hr Hi Ho He. eapply reach_step; [exact Hr|]. exists i. eapply step_enter; [done..|]. by constructor. Qed.

Lemma start_thread capacity ops (s : sys (V := Z)) i o :
  reachable capacity ops s -> threads s !! i = Some (Start o) ->
  reachable capacity ops (mk_sys (sq s) (<[i := start o (sq s)]> (threads s)) (pushed s) (popped s)).
Proof. intros Hr Hi. eapply reach_step; [exact Hr|]. exists i. by constructor. Qed.

(** Two values have been pushed and one popped. *)
Definition one_left : sys (V := Z) :=
  mk_sys (mk_queue [Some 5; Some 6] 1 0 1 2 0 0 false) [Finished (APR_SUCCESS None); Finished (APR_SUCCESS None); Finished (APR_SUCCESS (Some 5))] [5; 6] [5].

Lemma one_left_reachable : reachable 2 [Push 5; Push 6; Pop] one_left.
Proof.
  pose proof (reach_init (V := Z) 2 [Push 5; Push 6; Pop]) as H.
  apply (start_thread _ _ _ 0 (Push 5)) in H; [|reflexivity]. eapply (enter_returns _ _ _ 0 (Push 5)) in H; [|reflexivity|done|reflexivity].
  apply (start_thread _ _ _ 1 (Push 6)) in H; [|reflexivity]. eapply (enter_returns _ _ _ 1 (Push 6)) in H; [|reflexivity|done|reflexivity].
  apply (start_thread _ _ _ 2 Pop) in H; [|reflexivity]. eapply (enter_returns _ _ _ 2 Pop) in H; [|reflexivity|done|reflexivity]. exact H.
Qed.

Lemma queue_fifo_witness :
  exists l, ring (sq one_left) l /\ [5; 6] = (popped one_left ++ l)%list /\ apr_queue_size (sq one_left) = zlen l.
Proof.
  destruct (queue_fifo 2 [Push 5; Push 6; Pop] one_left ltac:(lia) ltac:(conc) one_left_reachable) as [(l & Hl & Hp & Hs & _) _].
  exists l. done.
Defined.

(** A pop waits on an empty queue, and nobody else is left. *)
Definition blocked_pop : sys (V := Z) := mk_sys (set_waiters (apr_queue_create 2) 0 1) [Waiting WPop] [] [].

Lemma blocked_pop_reachable : reachable 2 [Pop] blocked_pop.
Proof.
  pose proof (reach_init (V := Z) 2 [Pop]) as H. apply (start_thread _ _ _ 0 Pop) in H; [|reflexivity].
  eapply reach_step; [exact H|]. exists 0%nat. eapply (step_enter _ 0 Pop); [reflexivity|done|reflexivity|].
  exact (ended_waits (mk_sys (apr_queue_create 2) [Lock Pop] [] []) 0 (Some WPop) [] _ WPop eq_refl).
Qed.

Lemma queue_no_lost_wakeup_witness :
  0 < waiting Not_empty (threads blocked_pop) /\ nelts (sq blocked_pop) = 0 /\ waiting Not_full (threads blocked_pop) = 0.
Proof.
  split; [conc|]. apply (proj1 (proj2 (queue_no_lost_wakeup 2 [Pop] blocked_pop ltac:(lia) ltac:(conc) blocked_pop_reachable)
    ltac:(by repeat constructor))). conc.
Defined.

(** A thread waits in a pop, another one terminates the queue. *)
Definition terminating : sys (V := Z) :=
  mk_sys (apr_queue_term (set_waiters (apr_queue_create 2) 0 1)) [Waiting WPop; Broadcast] [] [].

Lemma terminating_reachable : reachable 2 [Pop; Term] terminating.
Proof.
  assert (H1 : reachable 2 [Pop; Term] (mk_sys (apr_queue_create (V := Z) 2) [Lock Pop; Start Term] [] [])).
  { eapply reach_step; [apply reach_init|]. exists 0%nat. exact (step_start (init 2 [Pop; Term]) 0 Pop eq_refl). }
  assert (H2 : reachable 2 [Pop; Term] (mk_sys (set_waiters (apr_queue_create (V := Z) 2) 0 1) [Waiting WPop; Start Term] [] [])).
  { eapply reach_step; [exact H1|]. exists 0%nat. eapply (step_enter _ 0 Pop); [reflexivity|done|reflexivity|].
    exact (ended_waits (mk_sys (apr_queue_create 2) [Lock Pop; Start Term] [] []) 0 (Some WPop) [] _ WPop eq_refl). }
  assert (H3 : reachable 2 [Pop; Term] (mk_sys (set_waiters (apr_queue_create (V := Z) 2) 0 1) [Waiting WPop; Lock Term] [] [])).
  { eapply reach_step; [exact H2|]. exists 1%nat.
    exact (step_start (mk_sys (set_waiters (apr_queue_create 2) 0 1) [Waiting WPop; Start Term] [] []) 1 Term eq_refl). }
  eapply reach_step; [exact H3|]. exists 1%nat.
  exact (step_term (mk_sys (set_waiters (apr_queue_create 2) 0 1) [Waiting WPop; Lock Term] [] []) 1 eq_refl).
Qed.

Lemma queue_term_completes_witness : exists s' : sys, step terminating s'.
Proof.
  apply (proj1 (proj2 (queue_term_completes 2 [Pop; Term] terminating 0 terminating ltac:(lia) ltac:(conc)
    terminating_reachable eq_refl (run_nil _))) 1%nat Broadcast); reflexivity.
Defined.
