(* ===== verification/ExpatTok.v ===== *)
(** * Expat's tokenizer: [src/apr-util/xml/expat/lib/xmltok_impl.c]

    The file is compiled once per family of encodings; what the copies differ in
    ([MINBPC], [BYTE_TYPE], [CHAR_MATCHES], ...) is the record [ENCODING] here, and
    the scanners are written once over it. A pointer is an offset into the buffer,
    [nextTokPtr] is returned, [None] when it is not written, and the code under
    [XML_NS] and [XML_DTD] is included. The theorems hold for every encoding
    whose operations look at the bytes of one character only
    ([EncodingLaws] in ExpatScan.v); ExpatEnc.v discharges that for the encodings
    of xmltok.c. *)

From S2P Require Import Prelude ExpatRole.

(** ** Byte types and encodings *)

Inductive BT :=
  | BT_NONXML | BT_MALFORM | BT_LT | BT_AMP | BT_RSQB | BT_LEAD2 | BT_LEAD3 | BT_LEAD4 | BT_TRAIL
  | BT_CR | BT_LF | BT_GT | BT_QUOT | BT_APOS | BT_EQUALS | BT_QUEST | BT_EXCL | BT_SOL | BT_SEMI
  | BT_NUM | BT_LSQB | BT_S | BT_NMSTRT | BT_COLON | BT_HEX | BT_DIGIT | BT_NAME | BT_MINUS
  | BT_OTHER | BT_NONASCII | BT_PERCNT | BT_LPAR | BT_RPAR | BT_AST | BT_PLUS | BT_COMMA | BT_VERBAR.

#[global] Instance BT_eq_dec : EqDecision BT.
Proof. solve_decision. Defined.

(** The widths of the multi-byte characters. *)
Definition lead (t : BT) : option Z :=
  match t with BT_LEAD2 => Some 2 | BT_LEAD3 => Some 3 | BT_LEAD4 => Some 4 | _ => None end.

(** What [PREFIX] and the macros of xmltok.c select. *)
Record ENCODING := mk_encoding {
  MINBPC : Z;
  BYTE_TYPE : list Z -> Z -> res BT;
  BYTE_TO_ASCII : list Z -> Z -> res Z;
  CHAR_MATCHES : Z -> list Z -> Z -> res bool;
  IS_NAME_CHAR : Z -> list Z -> Z -> res bool;
  IS_NMSTRT_CHAR : Z -> list Z -> Z -> res bool;
  IS_INVALID_CHAR : Z -> list Z -> Z -> res bool;
  IS_NAME_CHAR_MINBPC : list Z -> Z -> res bool;
  IS_NMSTRT_CHAR_MINBPC : list Z -> Z -> res bool
}.

(** The numbers of the tokens, xmltok.h; [Neg t] is the result [- t]. *)
Definition tok_value (t : XML_TOK) : Z :=
  match t with
  | XML_TOK_TRAILING_RSQB => -5 | XML_TOK_NONE => -4 | XML_TOK_TRAILING_CR => -3
  | XML_TOK_PARTIAL_CHAR => -2 | XML_TOK_PARTIAL => -1 | XML_TOK_INVALID => 0
  | XML_TOK_START_TAG_WITH_ATTS => 1 | XML_TOK_START_TAG_NO_ATTS => 2
  | XML_TOK_EMPTY_ELEMENT_WITH_ATTS => 3 | XML_TOK_EMPTY_ELEMENT_NO_ATTS => 4
  | XML_TOK_END_TAG => 5 | XML_TOK_DATA_CHARS => 6 | XML_TOK_DATA_NEWLINE => 7
  | XML_TOK_CDATA_SECT_OPEN => 8 | XML_TOK_ENTITY_REF => 9 | XML_TOK_CHAR_REF => 10
  | XML_TOK_PI => 11 | XML_TOK_XML_DECL => 12 | XML_TOK_COMMENT => 13 | XML_TOK_BOM => 14
  | XML_TOK_PROLOG_S => 15 | XML_TOK_DECL_OPEN => 16 | XML_TOK_DECL_CLOSE => 17
  | XML_TOK_NAME => 18 | XML_TOK_NMTOKEN => 19 | XML_TOK_POUND_NAME => 20 | XML_TOK_OR => 21
  | XML_TOK_PERCENT => 22 | XML_TOK_OPEN_PAREN => 23 | XML_TOK_CLOSE_PAREN => 24
  | XML_TOK_OPEN_BRACKET => 25 | XML_TOK_CLOSE_BRACKET => 26 | XML_TOK_LITERAL => 27
  | XML_TOK_PARAM_ENTITY_REF => 28 | XML_TOK_INSTANCE_START => 29 | XML_TOK_NAME_QUESTION => 30
  | XML_TOK_NAME_ASTERISK => 31 | XML_TOK_NAME_PLUS => 32 | XML_TOK_COND_SECT_OPEN => 33
  | XML_TOK_COND_SECT_CLOSE => 34 | XML_TOK_CLOSE_PAREN_QUESTION => 35
  | XML_TOK_CLOSE_PAREN_ASTERISK => 36 | XML_TOK_CLOSE_PAREN_PLUS => 37 | XML_TOK_COMMA => 38
  | XML_TOK_ATTRIBUTE_VALUE_S => 39 | XML_TOK_CDATA_SECT_CLOSE => 40
  | XML_TOK_PREFIXED_NAME => 41 | XML_TOK_IGNORE_SECT => 42
  end.

Inductive tok := Tok (t : XML_TOK) | Neg (t : XML_TOK).

#[global] Instance tok_eq_dec : EqDecision tok.
Proof. solve_decision. Defined.

Definition tok_int (t : tok) : Z := match t with Tok t => tok_value t | Neg t => - tok_value t end.

(** What a scanner returns: the token and what it wrote to [nextTokPtr]. *)
Definition scan : Type := tok * option Z.

(** How the cases of a switch that a macro supplies end: they advance the pointer
    and break, they return, or the byte type is none of theirs. *)
Inductive case_ := Advance (ptr : Z) | Returns (r : scan) | Default.

(** The loops return the pointer they were left at, or what the scanner returns. *)
Definition switch (c : res case_) (advance : Z -> res scan) (default : res scan) : res scan :=
  do c <- c;
  match c with Advance p => advance p | Returns r => Ok r | Default => default end.

Definition PARTIAL : scan := (Tok XML_TOK_PARTIAL, None).
Definition INVALID (ptr : Z) : scan := (Tok XML_TOK_INVALID, Some ptr).

Section scanners.
Context (enc : ENCODING) (m : list Z) (end_ : Z).
Abbreviation MIN := (MINBPC enc).

(** Enough iterations for a loop that starts at [ptr] and advances. *)
Definition fuel_at (ptr : Z) : nat := S (Z.to_nat (end_ - ptr)).

Definition INVALID_CASES (t : BT) (ptr : Z) : res case_ :=
  match lead t with
  | Some n =>
      if end_ - ptr <? n then Ok (Returns (Tok XML_TOK_PARTIAL_CHAR, None))
      else do bad <- IS_INVALID_CHAR enc n m ptr;
           Ok (if bad then Returns (INVALID ptr) else Advance (ptr + n))
  | None =>
      match t with
      | BT_NONXML | BT_MALFORM | BT_TRAIL => Ok (Returns (INVALID ptr))
      | _ => Ok Default
      end
  end.

Definition CHECK_NAME_CASES (t : BT) (ptr : Z) : res case_ :=
  match t with
  | BT_NONASCII =>
      do ok <- IS_NAME_CHAR_MINBPC enc m ptr;
      Ok (if ok : bool then Advance (ptr + MIN) else Returns (INVALID ptr))
  | BT_NMSTRT | BT_HEX | BT_DIGIT | BT_NAME | BT_MINUS => Ok (Advance (ptr + MIN))
  | _ =>
      match lead t with
      | Some n =>
          if end_ - ptr <? n then Ok (Returns (Tok XML_TOK_PARTIAL_CHAR, None))
          else do ok <- IS_NAME_CHAR enc n m ptr;
               Ok (if ok : bool then Advance (ptr + n) else Returns (INVALID ptr))
      | None => Ok Default
      end
  end.

Definition CHECK_NMSTRT_CASES (t : BT) (ptr : Z) : res case_ :=
  match t with
  | BT_NONASCII =>
      do ok <- IS_NMSTRT_CHAR_MINBPC enc m ptr;
      Ok (if ok : bool then Advance (ptr + MIN) else Returns (INVALID ptr))
  | BT_NMSTRT | BT_HEX => Ok (Advance (ptr + MIN))
  | _ =>
      match lead t with
      | Some n =>
          if end_ - ptr <? n then Ok (Returns (Tok XML_TOK_PARTIAL_CHAR, None))
          else do ok <- IS_NMSTRT_CHAR enc n m ptr;
               Ok (if ok : bool then Advance (ptr + n) else Returns (INVALID ptr))
      | None => Ok Default
      end
  end.

(** ** Comments, declarations, processing instructions *)

Fixpoint scanComment_loop (fuel : nat) (ptr : Z) : res scan :=
  match fuel with
  | O => Err OutOfFuel
  | S fuel =>
      if ptr =? end_ then Ok PARTIAL else
      do t <- BYTE_TYPE enc m ptr;
      switch (INVALID_CASES t ptr) (scanComment_loop fuel)
        match t with
        | BT_MINUS =>
            let ptr := ptr + MIN in
            if ptr =? end_ then Ok PARTIAL else
            do minus <- CHAR_MATCHES enc 45 m ptr;
            if minus : bool then
              let ptr := ptr + MIN in
              if ptr =? end_ then Ok PARTIAL else
              do gt <- CHAR_MATCHES enc 62 m ptr;
              Ok (if gt : bool then (Tok XML_TOK_COMMENT, Some (ptr + MIN)) else INVALID ptr)
            else scanComment_loop fuel ptr
        | _ => scanComment_loop fuel (ptr + MIN)
        end
  end.

Definition scanComment (ptr : Z) : res scan :=
  if ptr =? end_ then Ok PARTIAL else
  do minus <- CHAR_MATCHES enc 45 m ptr;
  if minus : bool then scanComment_loop (fuel_at ptr) (ptr + MIN) else Ok (INVALID ptr).

Fixpoint scanDecl_loop (fuel : nat) (ptr : Z) : res scan :=
  match fuel with
  | O => Err OutOfFuel
  | S fuel =>
      if ptr =? end_ then Ok PARTIAL else
      do t <- BYTE_TYPE enc m ptr;
      match t with
      | BT_PERCNT =>
          if ptr + MIN =? end_ then Ok PARTIAL else
          do t <- BYTE_TYPE enc m (ptr + MIN);
          match t with
          | BT_S | BT_CR | BT_LF | BT_PERCNT => Ok (INVALID ptr)
          | _ => Ok (Tok XML_TOK_DECL_OPEN, Some ptr)
          end
      | BT_S | BT_CR | BT_LF => Ok (Tok XML_TOK_DECL_OPEN, Some ptr)
      | BT_NMSTRT | BT_HEX => scanDecl_loop fuel (ptr + MIN)
      | _ => Ok (INVALID ptr)
      end
  end.

Definition scanDecl (ptr : Z) : res scan :=
  if ptr =? end_ then Ok PARTIAL else
  do t <- BYTE_TYPE enc m ptr;
  match t with
  | BT_MINUS => scanComment (ptr + MIN)
  | BT_LSQB => Ok (Tok XML_TOK_COND_SECT_OPEN, Some (ptr + MIN))
  | BT_NMSTRT | BT_HEX => scanDecl_loop (fuel_at ptr) (ptr + MIN)
  | _ => Ok (INVALID ptr)
  end.

(** [checkPiTarget(enc, ptr, end)]: the token, or [None] for a target that is
    [xml] with an upper-case letter. *)
Definition checkPiTarget (ptr tgt_end : Z) : res (option XML_TOK) :=
  if negb (tgt_end - ptr =? MIN * 3) then Ok (Some XML_TOK_PI) else
  do x <- BYTE_TO_ASCII enc m ptr;
  if negb ((x =? 120) || (x =? 88)) then Ok (Some XML_TOK_PI) else
  do y <- BYTE_TO_ASCII enc m (ptr + MIN);
  if negb ((y =? 109) || (y =? 77)) then Ok (Some XML_TOK_PI) else
  do z <- BYTE_TO_ASCII enc m (ptr + MIN + MIN);
  if negb ((z =? 108) || (z =? 76)) then Ok (Some XML_TOK_PI) else
  Ok (if (x =? 88) || (y =? 77) || (z =? 76) then None else Some XML_TOK_XML_DECL).

(** The text of a processing instruction, to [?>]. *)
Fixpoint scanPi_text (fuel : nat) (t : XML_TOK) (ptr : Z) : res scan :=
  match fuel with
  | O => Err OutOfFuel
  | S fuel =>
      if ptr =? end_ then Ok PARTIAL else
      do b <- BYTE_TYPE enc m ptr;
      switch (INVALID_CASES b ptr) (scanPi_text fuel t)
        match b with
        | BT_QUEST =>
            let ptr := ptr + MIN in
            if ptr =? end_ then Ok PARTIAL else
            do gt <- CHAR_MATCHES enc 62 m ptr;
            if gt : bool then Ok (Tok t, Some (ptr + MIN)) else scanPi_text fuel t ptr
        | _ => scanPi_text fuel t (ptr + MIN)
        end
  end.

Fixpoint scanPi_target (fuel : nat) (target ptr : Z) : res scan :=
  match fuel with
  | O => Err OutOfFuel
  | S fuel =>
      if ptr =? end_ then Ok PARTIAL else
      do b <- BYTE_TYPE enc m ptr;
      switch (CHECK_NAME_CASES b ptr) (scanPi_target fuel target)
        match b with
        | BT_S | BT_CR | BT_LF =>
            do t <- checkPiTarget target ptr;
            match t with
            | None => Ok (INVALID ptr)
            | Some t => scanPi_text (fuel_at ptr) t (ptr + MIN)
            end
        | BT_QUEST =>
            do t <- checkPiTarget target ptr;
            match t with
            | None => Ok (INVALID ptr)
            | Some t =>
                let ptr := ptr + MIN in
                if ptr =? end_ then Ok PARTIAL else
                do gt <- CHAR_MATCHES enc 62 m ptr;
                Ok (if gt : bool then (Tok t, Some (ptr + MIN)) else INVALID ptr)
            end
        | _ => Ok (INVALID ptr)
        end
  end.

Definition scanPi (ptr : Z) : res scan :=
  if ptr =? end_ then Ok PARTIAL else
  do b <- BYTE_TYPE enc m ptr;
  switch (CHECK_NMSTRT_CASES b ptr) (scanPi_target (fuel_at ptr) ptr) (Ok (INVALID ptr)).

(** ** CDATA sections, end tags, references *)

Definition CDATA_LSQB : list Z := str "CDATA[".

Fixpoint match_literal (lit : list Z) (ptr : Z) : res scan :=
  match lit with
  | [] => Ok (Tok XML_TOK_CDATA_SECT_OPEN, Some ptr)
  | c :: lit =>
      do ok <- CHAR_MATCHES enc c m ptr;
      if ok : bool then match_literal lit (ptr + MIN) else Ok (INVALID ptr)
  end.

Definition scanCdataSection (ptr : Z) : res scan :=
  if end_ - ptr <? 6 * MIN then Ok PARTIAL else match_literal CDATA_LSQB ptr.

Fixpoint scanEndTag_space (fuel : nat) (ptr : Z) : res scan :=
  match fuel with
  | O => Err OutOfFuel
  | S fuel =>
      if ptr =? end_ then Ok PARTIAL else
      do t <- BYTE_TYPE enc m ptr;
      match t with
      | BT_S | BT_CR | BT_LF => scanEndTag_space fuel (ptr + MIN)
      | BT_GT => Ok (Tok XML_TOK_END_TAG, Some (ptr + MIN))
      | _ => Ok (INVALID ptr)
      end
  end.

Fixpoint scanEndTag_name (fuel : nat) (ptr : Z) : res scan :=
  match fuel with
  | O => Err OutOfFuel
  | S fuel =>
      if ptr =? end_ then Ok PARTIAL else
      do t <- BYTE_TYPE enc m ptr;
      switch (CHECK_NAME_CASES t ptr) (scanEndTag_name fuel)
        match t with
        | BT_S | BT_CR | BT_LF => scanEndTag_space (fuel_at ptr) (ptr + MIN)
        | BT_COLON => scanEndTag_name fuel (ptr + MIN)
        | BT_GT => Ok (Tok XML_TOK_END_TAG, Some (ptr + MIN))
        | _ => Ok (INVALID ptr)
        end
  end.

Definition scanEndTag (ptr : Z) : res scan :=
  if ptr =? end_ then Ok PARTIAL else
  do t <- BYTE_TYPE enc m ptr;
  switch (CHECK_NMSTRT_CASES t ptr) (scanEndTag_name (fuel_at ptr)) (Ok (INVALID ptr)).

(** The digits of a character reference, to the semicolon. *)
Fixpoint scanDigits (hex : bool) (fuel : nat) (ptr : Z) : res scan :=
  match fuel with
  | O => Err OutOfFuel
  | S fuel =>
      if ptr =? end_ then Ok PARTIAL else
      do t <- BYTE_TYPE enc m ptr;
      match t with
      | BT_DIGIT => scanDigits hex fuel (ptr + MIN)
      | BT_HEX => if hex then scanDigits hex fuel (ptr + MIN) else Ok (INVALID ptr)
      | BT_SEMI => Ok (Tok XML_TOK_CHAR_REF, Some (ptr + MIN))
      | _ => Ok (INVALID ptr)
      end
  end.

Definition scanHexCharRef (ptr : Z) : res scan :=
  if ptr =? end_ then Ok PARTIAL else
  do t <- BYTE_TYPE enc m ptr;
  match t with
  | BT_DIGIT | BT_HEX => scanDigits true (fuel_at ptr) (ptr + MIN)
  | _ => Ok (INVALID ptr)
  end.

Definition scanCharRef (ptr : Z) : res scan :=
  if ptr =? end_ then Ok PARTIAL else
  do x <- CHAR_MATCHES enc 120 m ptr;
  if x : bool then scanHexCharRef (ptr + MIN) else
  do t <- BYTE_TYPE enc m ptr;
  match t with
  | BT_DIGIT => scanDigits false (fuel_at ptr) (ptr + MIN)
  | _ => Ok (INVALID ptr)
  end.

(** A name closed by a semicolon; [r] is the token of the reference. *)
Fixpoint scanRef_name (r : XML_TOK) (fuel : nat) (ptr : Z) : res scan :=
  match fuel with
  | O => Err OutOfFuel
  | S fuel =>
      if ptr =? end_ then Ok PARTIAL else
      do t <- BYTE_TYPE enc m ptr;
      switch (CHECK_NAME_CASES t ptr) (scanRef_name r fuel)
        match t with
        | BT_SEMI => Ok (Tok r, Some (ptr + MIN))
        | _ => Ok (INVALID ptr)
        end
  end.

Definition scanRef (ptr : Z) : res scan :=
  if ptr =? end_ then Ok PARTIAL else
  do t <- BYTE_TYPE enc m ptr;
  switch (CHECK_NMSTRT_CASES t ptr) (scanRef_name XML_TOK_ENTITY_REF (fuel_at ptr))
    match t with
    | BT_NUM => scanCharRef (ptr + MIN)
    | _ => Ok (INVALID ptr)
    end.

(** ** Start tags and their attributes *)

(** From the space after an attribute's name to its equals sign. *)
Fixpoint skip_to_equals (fuel : nat) (ptr : Z) : res case_ :=
  match fuel with
  | O => Err OutOfFuel
  | S fuel =>
      let ptr := ptr + MIN in
      if ptr =? end_ then Ok (Returns PARTIAL) else
      do t <- BYTE_TYPE enc m ptr;
      match t with
      | BT_EQUALS => Ok (Advance ptr)
      | BT_S | BT_LF | BT_CR => skip_to_equals fuel ptr
      | _ => Ok (Returns (INVALID ptr))
      end
  end.

(** From the equals sign to the opening quote. *)
Fixpoint skip_to_quote (fuel : nat) (ptr : Z) : res case_ :=
  match fuel with
  | O => Err OutOfFuel
  | S fuel =>
      let ptr := ptr + MIN in
      if ptr =? end_ then Ok (Returns PARTIAL) else
      do open <- BYTE_TYPE enc m ptr;
      match open with
      | BT_QUOT | BT_APOS => Ok (Advance ptr)
      | BT_S | BT_LF | BT_CR => skip_to_quote fuel ptr
      | _ => Ok (Returns (INVALID ptr))
      end
  end.

(** The value, to the closing quote. *)
Fixpoint scan_value (fuel : nat) (open : BT) (ptr : Z) : res case_ :=
  match fuel with
  | O => Err OutOfFuel
  | S fuel =>
      if ptr =? end_ then Ok (Returns PARTIAL) else
      do t <- BYTE_TYPE enc m ptr;
      if bool_decide (t = open) then Ok (Advance ptr) else
      do c <- INVALID_CASES t ptr;
      match c with
      | Advance p => scan_value fuel open p
      | Returns r => Ok (Returns r)
      | Default =>
          match t with
          | BT_AMP =>
              do (r, next) <- scanRef (ptr + MIN);
              let ptr := match next with Some p => p | None => ptr end in
              if tok_int r <=? 0
              then Ok (Returns (r, if bool_decide (r = Tok XML_TOK_INVALID) then Some ptr else None))
              else scan_value fuel open ptr
          | BT_LT => Ok (Returns (INVALID ptr))
          | _ => scan_value fuel open (ptr + MIN)
          end
      end
  end.

(** The slash of an empty-element tag; [t] is the tag's token. *)
Definition scan_sol (t : XML_TOK) (ptr : Z) : res scan :=
  let ptr := ptr + MIN in
  if ptr =? end_ then Ok PARTIAL else
  do gt <- CHAR_MATCHES enc 62 m ptr;
  Ok (if gt : bool then (Tok t, Some (ptr + MIN)) else INVALID ptr).

Definition as_case (r : res scan) : res case_ := do r <- r; Ok (Returns r).

(** After a value and a space: the next attribute's first character, or the end
    of the tag. *)
Fixpoint next_att (fuel : nat) (ptr : Z) : res case_ :=
  match fuel with
  | O => Err OutOfFuel
  | S fuel =>
      let ptr := ptr + MIN in
      if ptr =? end_ then Ok (Returns PARTIAL) else
      do t <- BYTE_TYPE enc m ptr;
      do c <- CHECK_NMSTRT_CASES t ptr;
      match c with
      | Default =>
          match t with
          | BT_S | BT_CR | BT_LF => next_att fuel ptr
          | BT_GT => Ok (Returns (Tok XML_TOK_START_TAG_WITH_ATTS, Some (ptr + MIN)))
          | BT_SOL => as_case (scan_sol XML_TOK_EMPTY_ELEMENT_WITH_ATTS ptr)
          | _ => Ok (Returns (INVALID ptr))
          end
      | _ => Ok c
      end
  end.

(** What follows the closing quote at [ptr]. *)
Definition after_value (ptr : Z) : res case_ :=
  let ptr := ptr + MIN in
  if ptr =? end_ then Ok (Returns PARTIAL) else
  do t <- BYTE_TYPE enc m ptr;
  match t with
  | BT_S | BT_CR | BT_LF => next_att (fuel_at ptr) ptr
  | BT_SOL => as_case (scan_sol XML_TOK_EMPTY_ELEMENT_WITH_ATTS ptr)
  | BT_GT => Ok (Returns (Tok XML_TOK_START_TAG_WITH_ATTS, Some (ptr + MIN)))
  | _ => Ok (Returns (INVALID ptr))
  end.

Definition bind_case (c : res case_) (k : Z -> res case_) : res case_ :=
  do c <- c; match c with Advance p => k p | _ => Ok c end.

(** From the equals sign at [ptr] to the first character of the next name. *)
Definition attribute_value (ptr : Z) : res case_ :=
  bind_case (skip_to_quote (fuel_at ptr) ptr) (fun ptr =>
  do open <- BYTE_TYPE enc m ptr;
  bind_case (scan_value (fuel_at ptr) open (ptr + MIN)) after_value).

(** The colon of a qualified name; the name goes on at the pointer it returns. *)
Definition scan_colon (hadColon : bool) (ptr : Z) : res case_ :=
  if hadColon then Ok (Returns (INVALID ptr)) else
  let ptr := ptr + MIN in
  if ptr =? end_ then Ok (Returns PARTIAL) else
  do t <- BYTE_TYPE enc m ptr;
  do c <- CHECK_NMSTRT_CASES t ptr;
  Ok (match c with Default => Returns (INVALID ptr) | _ => c end).

Fixpoint scanAtts (fuel : nat) (hadColon : bool) (ptr : Z) : res scan :=
  match fuel with
  | O => Err OutOfFuel
  | S fuel =>
      if ptr =? end_ then Ok PARTIAL else
      do t <- BYTE_TYPE enc m ptr;
      switch (CHECK_NAME_CASES t ptr) (scanAtts fuel hadColon)
        match t with
        | BT_COLON => switch (scan_colon hadColon ptr) (scanAtts fuel true) (Ok (INVALID ptr))
        | BT_S | BT_CR | BT_LF =>
            switch (bind_case (skip_to_equals (fuel_at ptr) ptr) attribute_value)
              (scanAtts fuel false) (Ok (INVALID ptr))
        | BT_EQUALS => switch (attribute_value ptr) (scanAtts fuel false) (Ok (INVALID ptr))
        | _ => Ok (INVALID ptr)
        end
  end.

(** The space after the element's name. *)
Fixpoint scanLt_space (fuel : nat) (ptr : Z) : res scan :=
  match fuel with
  | O => Err OutOfFuel
  | S fuel =>
      if ptr =? end_ then Ok PARTIAL else
      do t <- BYTE_TYPE enc m ptr;
      switch (CHECK_NMSTRT_CASES t ptr) (fun ptr => scanAtts (fuel_at ptr) false ptr)
        match t with
        | BT_GT => Ok (Tok XML_TOK_START_TAG_NO_ATTS, Some (ptr + MIN))
        | BT_SOL => scan_sol XML_TOK_EMPTY_ELEMENT_NO_ATTS ptr
        | BT_S | BT_CR | BT_LF => scanLt_space fuel (ptr + MIN)
        | _ => Ok (INVALID ptr)
        end
  end.

Fixpoint scanLt_name (fuel : nat) (hadColon : bool) (ptr : Z) : res scan :=
  match fuel with
  | O => Err OutOfFuel
  | S fuel =>
      if ptr =? end_ then Ok PARTIAL else
      do t <- BYTE_TYPE enc m ptr;
      switch (CHECK_NAME_CASES t ptr) (scanLt_name fuel hadColon)
        match t with
        | BT_COLON => switch (scan_colon hadColon ptr) (scanLt_name fuel true) (Ok (INVALID ptr))
        | BT_S | BT_CR | BT_LF => scanLt_space (fuel_at ptr) (ptr + MIN)
        | BT_GT => Ok (Tok XML_TOK_START_TAG_NO_ATTS, Some (ptr + MIN))
        | BT_SOL => scan_sol XML_TOK_EMPTY_ELEMENT_NO_ATTS ptr
        | _ => Ok (INVALID ptr)
        end
  end.

Definition scanLt (ptr : Z) : res scan :=
  if ptr =? end_ then Ok PARTIAL else
  do t <- BYTE_TYPE enc m ptr;
  switch (CHECK_NMSTRT_CASES t ptr) (scanLt_name (fuel_at ptr) false)
    match t with
    | BT_EXCL =>
        let ptr := ptr + MIN in
        if ptr =? end_ then Ok PARTIAL else
        do t <- BYTE_TYPE enc m ptr;
        match t with
        | BT_MINUS => scanComment (ptr + MIN)
        | BT_LSQB => scanCdataSection (ptr + MIN)
        | _ => Ok (INVALID ptr)
        end
    | BT_QUEST => scanPi (ptr + MIN)
    | BT_SOL => scanEndTag (ptr + MIN)
    | _ => Ok (INVALID ptr)
    end.

(** ** Content and CDATA text *)

(** A run of character data; [stops] tells the types that end it beyond the
    malformed ones. *)
Definition data_case (t : BT) (ptr : Z) : res case_ :=
  match lead t with
  | Some n =>
      if end_ - ptr <? n then Ok (Returns (Tok XML_TOK_DATA_CHARS, Some ptr))
      else do bad <- IS_INVALID_CHAR enc n m ptr;
           Ok (if bad : bool then Returns (Tok XML_TOK_DATA_CHARS, Some ptr) else Advance (ptr + n))
  | None => Ok Default
  end.

Fixpoint cdata_chars (fuel : nat) (ptr : Z) : res scan :=
  match fuel with
  | O => Err OutOfFuel
  | S fuel =>
      if ptr =? end_ then Ok (Tok XML_TOK_DATA_CHARS, Some ptr) else
      do t <- BYTE_TYPE enc m ptr;
      switch (data_case t ptr) (cdata_chars fuel)
        match t with
        | BT_NONXML | BT_MALFORM | BT_TRAIL | BT_CR | BT_LF | BT_RSQB =>
            Ok (Tok XML_TOK_DATA_CHARS, Some ptr)
        | _ => cdata_chars fuel (ptr + MIN)
        end
  end.

Fixpoint content_chars (fuel : nat) (ptr : Z) : res scan :=
  match fuel with
  | O => Err OutOfFuel
  | S fuel =>
      if ptr =? end_ then Ok (Tok XML_TOK_DATA_CHARS, Some ptr) else
      do t <- BYTE_TYPE enc m ptr;
      switch (data_case t ptr) (content_chars fuel)
        match t with
        | BT_RSQB =>
            if ptr + MIN =? end_ then Ok (Tok XML_TOK_DATA_CHARS, Some ptr) else
            do rsqb <- CHAR_MATCHES enc 93 m (ptr + MIN);
            if negb rsqb then content_chars fuel (ptr + MIN) else
            if ptr + 2 * MIN =? end_ then Ok (Tok XML_TOK_DATA_CHARS, Some ptr) else
            do gt <- CHAR_MATCHES enc 62 m (ptr + 2 * MIN);
            if negb gt then content_chars fuel (ptr + MIN) else Ok (INVALID (ptr + 2 * MIN))
        | BT_AMP | BT_LT | BT_NONXML | BT_MALFORM | BT_TRAIL | BT_CR | BT_LF =>
            Ok (Tok XML_TOK_DATA_CHARS, Some ptr)
        | _ => content_chars fuel (ptr + MIN)
        end
  end.

(** A carriage return at [ptr], with the line feed after it; [at_end] is the
    token when nothing follows. *)
Definition scan_cr (at_end : XML_TOK) (ptr : Z) : res scan :=
  let ptr := ptr + MIN in
  if ptr =? end_ then Ok (Tok at_end, None) else
  do t <- BYTE_TYPE enc m ptr;
  Ok (Tok XML_TOK_DATA_NEWLINE, Some (if bool_decide (t = BT_LF) then ptr + MIN else ptr)).

Definition cdataSection_from (ptr : Z) : res scan :=
  do t <- BYTE_TYPE enc m ptr;
  match t with
  | BT_RSQB =>
      let ptr := ptr + MIN in
      if ptr =? end_ then Ok PARTIAL else
      do rsqb <- CHAR_MATCHES enc 93 m ptr;
      if negb rsqb then cdata_chars (fuel_at ptr) ptr else
      let ptr := ptr + MIN in
      if ptr =? end_ then Ok PARTIAL else
      do gt <- CHAR_MATCHES enc 62 m ptr;
      if negb gt then cdata_chars (fuel_at (ptr - MIN)) (ptr - MIN) else
      Ok (Tok XML_TOK_CDATA_SECT_CLOSE, Some (ptr + MIN))
  | BT_CR => scan_cr XML_TOK_PARTIAL ptr
  | BT_LF => Ok (Tok XML_TOK_DATA_NEWLINE, Some (ptr + MIN))
  | _ =>
      switch (INVALID_CASES t ptr) (cdata_chars (fuel_at ptr)) (cdata_chars (fuel_at ptr) (ptr + MIN))
  end.

Definition content_from (ptr : Z) : res scan :=
  do t <- BYTE_TYPE enc m ptr;
  match t with
  | BT_LT => scanLt (ptr + MIN)
  | BT_AMP => scanRef (ptr + MIN)
  | BT_CR => scan_cr XML_TOK_TRAILING_CR ptr
  | BT_LF => Ok (Tok XML_TOK_DATA_NEWLINE, Some (ptr + MIN))
  | BT_RSQB =>
      let ptr := ptr + MIN in
      if ptr =? end_ then Ok (Tok XML_TOK_TRAILING_RSQB, None) else
      do rsqb <- CHAR_MATCHES enc 93 m ptr;
      if negb rsqb then content_chars (fuel_at ptr) ptr else
      let ptr := ptr + MIN in
      if ptr =? end_ then Ok (Tok XML_TOK_TRAILING_RSQB, None) else
      do gt <- CHAR_MATCHES enc 62 m ptr;
      if negb gt then content_chars (fuel_at (ptr - MIN)) (ptr - MIN) else Ok (INVALID ptr)
  | _ =>
      switch (INVALID_CASES t ptr) (content_chars (fuel_at ptr)) (content_chars (fuel_at ptr) (ptr + MIN))
  end.

(** ** The prolog *)

Definition scanPercent (ptr : Z) : res scan :=
  if ptr =? end_ then Ok (Neg XML_TOK_PERCENT, None) else
  do t <- BYTE_TYPE enc m ptr;
  switch (CHECK_NMSTRT_CASES t ptr) (scanRef_name XML_TOK_PARAM_ENTITY_REF (fuel_at ptr))
    match t with
    | BT_S | BT_LF | BT_CR | BT_PERCNT => Ok (Tok XML_TOK_PERCENT, Some ptr)
    | _ => Ok (INVALID ptr)
    end.

Fixpoint poundName_rest (fuel : nat) (ptr : Z) : res scan :=
  match fuel with
  | O => Err OutOfFuel
  | S fuel =>
      if ptr =? end_ then Ok (Neg XML_TOK_POUND_NAME, None) else
      do t <- BYTE_TYPE enc m ptr;
      switch (CHECK_NAME_CASES t ptr) (poundName_rest fuel)
        match t with
        | BT_CR | BT_LF | BT_S | BT_RPAR | BT_GT | BT_PERCNT | BT_VERBAR =>
            Ok (Tok XML_TOK_POUND_NAME, Some ptr)
        | _ => Ok (INVALID ptr)
        end
  end.

Definition scanPoundName (ptr : Z) : res scan :=
  if ptr =? end_ then Ok PARTIAL else
  do t <- BYTE_TYPE enc m ptr;
  switch (CHECK_NMSTRT_CASES t ptr) (poundName_rest (fuel_at ptr)) (Ok (INVALID ptr)).

(** What may follow a literal. *)
Definition after_literal (t : BT) : XML_TOK :=
  match t with
  | BT_S | BT_CR | BT_LF | BT_GT | BT_PERCNT | BT_LSQB => XML_TOK_LITERAL
  | _ => XML_TOK_INVALID
  end.

Fixpoint scanLit (open : BT) (fuel : nat) (ptr : Z) : res scan :=
  match fuel with
  | O => Err OutOfFuel
  | S fuel =>
      if ptr =? end_ then Ok PARTIAL else
      do t <- BYTE_TYPE enc m ptr;
      switch (INVALID_CASES t ptr) (scanLit open fuel)
        match t with
        | BT_QUOT | BT_APOS =>
            let ptr := ptr + MIN in
            if negb (bool_decide (t = open)) then scanLit open fuel ptr else
            if ptr =? end_ then Ok (Neg XML_TOK_LITERAL, None) else
            do t <- BYTE_TYPE enc m ptr;
            Ok (Tok (after_literal t), Some ptr)
        | _ => scanLit open fuel (ptr + MIN)
        end
  end.

(** White space between the markup of the prolog. *)
Fixpoint prolog_space (fuel : nat) (ptr : Z) : res scan :=
  match fuel with
  | O => Err OutOfFuel
  | S fuel =>
      let ptr := ptr + MIN in
      if ptr =? end_ then Ok (Tok XML_TOK_PROLOG_S, Some ptr) else
      do t <- BYTE_TYPE enc m ptr;
      match t with
      | BT_S | BT_LF => prolog_space fuel ptr
      | BT_CR =>
          if negb (ptr + MIN =? end_) then prolog_space fuel ptr
          else Ok (Tok XML_TOK_PROLOG_S, Some ptr)
      | _ => Ok (Tok XML_TOK_PROLOG_S, Some ptr)
      end
  end.

(** A name with a repetition mark; [tk] is what has been read so far. *)
Definition name_mark (tk t : XML_TOK) (ptr : Z) : scan :=
  if bool_decide (tk = XML_TOK_NMTOKEN) then INVALID ptr else (Tok t, Some (ptr + MIN)).

(** The rest of a name or nmtoken. *)
Fixpoint prolog_name (fuel : nat) (tk : XML_TOK) (ptr : Z) : res scan :=
  match fuel with
  | O => Err OutOfFuel
  | S fuel =>
      if ptr =? end_ then Ok (Neg tk, None) else
      do t <- BYTE_TYPE enc m ptr;
      switch (CHECK_NAME_CASES t ptr) (prolog_name fuel tk)
        match t with
        | BT_GT | BT_RPAR | BT_COMMA | BT_VERBAR | BT_LSQB | BT_PERCNT | BT_S | BT_CR | BT_LF =>
            Ok (Tok tk, Some ptr)
        | BT_COLON =>
            let ptr := ptr + MIN in
            match tk with
            | XML_TOK_NAME =>
                if ptr =? end_ then Ok PARTIAL else
                do t <- BYTE_TYPE enc m ptr;
                switch (CHECK_NAME_CASES t ptr) (prolog_name fuel XML_TOK_PREFIXED_NAME)
                  (prolog_name fuel XML_TOK_NMTOKEN ptr)
            | XML_TOK_PREFIXED_NAME => prolog_name fuel XML_TOK_NMTOKEN ptr
            | _ => prolog_name fuel tk ptr
            end
        | BT_PLUS => Ok (name_mark tk XML_TOK_NAME_PLUS ptr)
        | BT_AST => Ok (name_mark tk XML_TOK_NAME_ASTERISK ptr)
        | BT_QUEST => Ok (name_mark tk XML_TOK_NAME_QUESTION ptr)
        | _ => Ok (INVALID ptr)
        end
  end.

(** What follows [<] in the prolog. *)
Definition prolog_lt (ptr : Z) : res scan :=
  let ptr := ptr + MIN in
  if ptr =? end_ then Ok PARTIAL else
  do t <- BYTE_TYPE enc m ptr;
  match t with
  | BT_EXCL => scanDecl (ptr + MIN)
  | BT_QUEST => scanPi (ptr + MIN)
  | BT_NMSTRT | BT_HEX | BT_NONASCII | BT_LEAD2 | BT_LEAD3 | BT_LEAD4 =>
      Ok (Tok XML_TOK_INSTANCE_START, Some (ptr - MIN))
  | _ => Ok (INVALID ptr)
  end.

Definition prolog_rsqb (ptr : Z) : res scan :=
  let ptr := ptr + MIN in
  if ptr =? end_ then Ok (Neg XML_TOK_CLOSE_BRACKET, None) else
  do rsqb <- CHAR_MATCHES enc 93 m ptr;
  if negb rsqb then Ok (Tok XML_TOK_CLOSE_BRACKET, Some ptr) else
  if ptr + MIN =? end_ then Ok PARTIAL else
  do gt <- CHAR_MATCHES enc 62 m (ptr + MIN);
  Ok (if gt : bool then (Tok XML_TOK_COND_SECT_CLOSE, Some (ptr + 2 * MIN))
      else (Tok XML_TOK_CLOSE_BRACKET, Some ptr)).

Definition prolog_rpar (ptr : Z) : res scan :=
  let ptr := ptr + MIN in
  if ptr =? end_ then Ok (Neg XML_TOK_CLOSE_PAREN, None) else
  do t <- BYTE_TYPE enc m ptr;
  match t with
  | BT_AST => Ok (Tok XML_TOK_CLOSE_PAREN_ASTERISK, Some (ptr + MIN))
  | BT_QUEST => Ok (Tok XML_TOK_CLOSE_PAREN_QUESTION, Some (ptr + MIN))
  | BT_PLUS => Ok (Tok XML_TOK_CLOSE_PAREN_PLUS, Some (ptr + MIN))
  | BT_CR | BT_LF | BT_S | BT_GT | BT_COMMA | BT_VERBAR | BT_RPAR => Ok (Tok XML_TOK_CLOSE_PAREN, Some ptr)
  | _ => Ok (INVALID ptr)
  end.

(** The first character of a name or nmtoken that is not ASCII, [n] bytes of it;
    [nmstrt] and [name] are the tests of the encoding. *)
Definition prolog_first (n : Z) (nmstrt name : list Z -> Z -> res bool) (ptr : Z) : res scan :=
  do s <- nmstrt m ptr;
  if s : bool then prolog_name (fuel_at ptr) XML_TOK_NAME (ptr + n) else
  do s <- name m ptr;
  if s : bool then prolog_name (fuel_at ptr) XML_TOK_NMTOKEN (ptr + n) else Ok (INVALID ptr).

Definition prolog_from (ptr : Z) : res scan :=
  do t <- BYTE_TYPE enc m ptr;
  match t with
  | BT_QUOT => scanLit BT_QUOT (fuel_at ptr) (ptr + MIN)
  | BT_APOS => scanLit BT_APOS (fuel_at ptr) (ptr + MIN)
  | BT_LT => prolog_lt ptr
  | BT_CR => if ptr + MIN =? end_ then Ok (Neg XML_TOK_PROLOG_S, Some end_) else prolog_space (fuel_at ptr) ptr
  | BT_S | BT_LF => prolog_space (fuel_at ptr) ptr
  | BT_PERCNT => scanPercent (ptr + MIN)
  | BT_COMMA => Ok (Tok XML_TOK_COMMA, Some (ptr + MIN))
  | BT_LSQB => Ok (Tok XML_TOK_OPEN_BRACKET, Some (ptr + MIN))
  | BT_RSQB => prolog_rsqb ptr
  | BT_LPAR => Ok (Tok XML_TOK_OPEN_PAREN, Some (ptr + MIN))
  | BT_RPAR => prolog_rpar ptr
  | BT_VERBAR => Ok (Tok XML_TOK_OR, Some (ptr + MIN))
  | BT_GT => Ok (Tok XML_TOK_DECL_CLOSE, Some (ptr + MIN))
  | BT_NUM => scanPoundName (ptr + MIN)
  | BT_NMSTRT | BT_HEX => prolog_name (fuel_at ptr) XML_TOK_NAME (ptr + MIN)
  | BT_DIGIT | BT_NAME | BT_MINUS | BT_COLON => prolog_name (fuel_at ptr) XML_TOK_NMTOKEN (ptr + MIN)
  | BT_NONASCII => prolog_first MIN (IS_NMSTRT_CHAR_MINBPC enc) (IS_NAME_CHAR_MINBPC enc) ptr
  | _ =>
      match lead t with
      | Some n =>
          if end_ - ptr <? n then Ok (Tok XML_TOK_PARTIAL_CHAR, None)
          else prolog_first n (IS_NMSTRT_CHAR enc n) (IS_NAME_CHAR enc n) ptr
      | None => Ok (INVALID ptr)
      end
  end.

(** ** Ignored sections *)

Fixpoint ignore_loop (fuel : nat) (level ptr : Z) : res scan :=
  match fuel with
  | O => Err OutOfFuel
  | S fuel =>
      if ptr =? end_ then Ok PARTIAL else
      do t <- BYTE_TYPE enc m ptr;
      switch (INVALID_CASES t ptr) (ignore_loop fuel level)
        match t with
        | BT_LT =>
            let ptr := ptr + MIN in
            if ptr =? end_ then Ok PARTIAL else
            do excl <- CHAR_MATCHES enc 33 m ptr;
            if negb excl then ignore_loop fuel level ptr else
            let ptr := ptr + MIN in
            if ptr =? end_ then Ok PARTIAL else
            do lsqb <- CHAR_MATCHES enc 91 m ptr;
            if lsqb : bool then ignore_loop fuel (s32 (level + 1)) (ptr + MIN) else ignore_loop fuel level ptr
        | BT_RSQB =>
            let ptr := ptr + MIN in
            if ptr =? end_ then Ok PARTIAL else
            do rsqb <- CHAR_MATCHES enc 93 m ptr;
            if negb rsqb then ignore_loop fuel level ptr else
            let ptr := ptr + MIN in
            if ptr =? end_ then Ok PARTIAL else
            do gt <- CHAR_MATCHES enc 62 m ptr;
            if negb gt then ignore_loop fuel level ptr else
            let ptr := ptr + MIN in
            if level =? 0 then Ok (Tok XML_TOK_IGNORE_SECT, Some ptr) else ignore_loop fuel (level - 1) ptr
        | _ => ignore_loop fuel level (ptr + MIN)
        end
  end.
End scanners.

(** ** The entry points *)

(** [end] moved down to a whole number of characters. *)
Definition aligned_end (enc : ENCODING) (ptr end_ : Z) : Z :=
  if MINBPC enc >? 1 then ptr + Z.land (end_ - ptr) (Z.lnot (MINBPC enc - 1)) else end_.

Definition tokenizer (from : ENCODING -> list Z -> Z -> Z -> res scan)
    (enc : ENCODING) (m : list Z) (ptr end_ : Z) : res scan :=
  if ptr =? end_ then Ok (Tok XML_TOK_NONE, None) else
  let e := aligned_end enc ptr end_ in
  if e =? ptr then Ok PARTIAL else from enc m e ptr.

Definition contentTok := tokenizer content_from.
Definition cdataSectionTok := tokenizer cdataSection_from.
Definition prologTok := tokenizer prolog_from.

Definition ignoreSectionTok (enc : ENCODING) (m : list Z) (ptr end_ : Z) : res scan :=
  let e := aligned_end enc ptr end_ in
  ignore_loop enc m e (fuel_at e ptr) 0 ptr.

(** [XmlTok(enc, state, ptr, end, nextTokPtr)], xmltok.h: the scanner of a state. *)
Inductive tok_state :=
  XML_PROLOG_STATE | XML_CONTENT_STATE | XML_CDATA_SECTION_STATE | XML_IGNORE_SECTION_STATE.

Definition XmlTok (enc : ENCODING) (st : tok_state) : list Z -> Z -> Z -> res scan :=
  match st with
  | XML_PROLOG_STATE => prologTok enc
  | XML_CONTENT_STATE => contentTok enc
  | XML_CDATA_SECTION_STATE => cdataSectionTok enc
  | XML_IGNORE_SECTION_STATE => ignoreSectionTok enc
  end.
