(* ===== verification/ExpatScan.v ===== *)
(** * The tokenizer's results: bounds, progress, and more input

    Every scanner of ExpatTok.v is run on two buffers at once, one that ends at
    [e] and one that continues to [e']: the first run only reads below [e], ends,
    and returns a well-formed result, and if that result does not depend on where
    the buffer ends, the second run returns the same. *)

From S2P Require Import Prelude ExpatRole ExpatTok.

(** ** What the scanners need of an encoding *)

(** Both buffers have the same bytes from [p] to [p + w]. *)
Definition same_bytes (m m' : list Z) (p w : Z) : Prop :=
  forall i, p <= i < p + w -> exists b, is_byte b /\ rd m i = Ok b /\ rd m' i = Ok b.

(** An operation that looks at [w] bytes only. *)
Definition local_op {A} (w : Z) (f : list Z -> Z -> res A) : Prop :=
  forall m m' p, same_bytes m m' p w -> exists a, f m p = Ok a /\ f m' p = Ok a.

Class EncodingLaws (enc : ENCODING) : Prop := {
  law_minbpc : MINBPC enc = 1 \/ MINBPC enc = 2;
  law_type : local_op (MINBPC enc) (BYTE_TYPE enc);
  law_ascii : local_op (MINBPC enc) (BYTE_TO_ASCII enc);
  law_matches c : local_op (MINBPC enc) (CHAR_MATCHES enc c);
  law_name m p t n : BYTE_TYPE enc m p = Ok t -> lead t = Some n -> local_op n (IS_NAME_CHAR enc n);
  law_nmstrt m p t n : BYTE_TYPE enc m p = Ok t -> lead t = Some n -> local_op n (IS_NMSTRT_CHAR enc n);
  law_invalid m p t n : BYTE_TYPE enc m p = Ok t -> lead t = Some n -> local_op n (IS_INVALID_CHAR enc n);
  law_name_min : local_op (MINBPC enc) (IS_NAME_CHAR_MINBPC enc);
  law_nmstrt_min : local_op (MINBPC enc) (IS_NMSTRT_CHAR_MINBPC enc);
  law_lead m p t n : BYTE_TYPE enc m p = Ok t -> lead t = Some n -> n mod MINBPC enc = 0
}.

Lemma lead_range t n : lead t = Some n -> 2 <= n <= 4.
Proof. destruct t; cbn; intros; simplify_eq; lia. Qed.

(** ** A scan and the same scan with more input

    [r] is the result in a buffer that ends at [e], [r'] the result in a buffer
    that goes on to [e']. The result is well-formed, and if it does not depend on
    the end of the buffer the longer one gives the same. *)

(** The tokens that more input cannot change. *)
Definition decided (t : tok) : bool :=
  match t with
  | Neg _ => false
  | Tok (XML_TOK_TRAILING_RSQB | XML_TOK_NONE | XML_TOK_TRAILING_CR | XML_TOK_PARTIAL_CHAR
         | XML_TOK_PARTIAL | XML_TOK_DATA_CHARS | XML_TOK_PROLOG_S) => false
  | Tok _ => true
  end.

Section outcome.
Context (enc : ENCODING) `{!EncodingLaws enc}.
Context (m m' : list Z) (e e' : Z).
Abbreviation MIN := (MINBPC enc).
Context (Hsame : same_bytes m m' 0 e) (Hends : e <= e') (Halign : (e' - e) mod MIN = 0).

(** [p] is at a character boundary between [lo] and the end. *)
Definition inside (lo p : Z) : Prop := 0 <= lo <= p /\ p <= e /\ (e - p) mod MIN = 0.

Definition past (lo p : Z) : Prop := inside lo p /\ lo < p.

(** What a scanner may return: a token ends at a boundary past [lo] (but
    [XML_TOK_INSTANCE_START] points at the [<], which is read again), an invalid
    token points at a character, and otherwise nothing is written, or the end. *)
Definition wf_scan (lo : Z) (r : scan) : Prop :=
  match r with
  | (Tok t, next) =>
      if 0 <? tok_value t then
        exists p, next = Some p /\ inside lo p /\ (t <> XML_TOK_INSTANCE_START -> lo < p)
      else if tok_value t =? 0 then exists p, next = Some p /\ inside lo p /\ p <> e
      else next = None
  | (Neg t, next) => 0 < tok_value t /\ (next = None \/ next = Some e)
  end.

Definition outcome (lo : Z) (r r' : res scan) : Prop :=
  exists s, r = Ok s /\ wf_scan lo s /\ (decided (fst s) = true -> r' = Ok s).

Definition outcome_case (lo : Z) (r r' : res case_) : Prop :=
  exists c, r = Ok c /\
    match c with
    | Advance p => past lo p /\ r' = Ok c
    | Returns s => wf_scan lo s /\ (decided (fst s) = true -> r' = Ok c)
    | Default => r' = Ok c
    end.

Lemma min_range : 1 <= MIN <= 2.
Proof. destruct law_minbpc as [-> | ->]; lia. Qed.

Lemma past_inside lo p : past lo p -> inside lo p.
Proof. by intros []. Qed.

Lemma inside_next lo p : inside lo p -> p <> e -> past lo (p + MIN).
Proof.
  intros (Hlo & Hp & Ha) Hne. unfold past, inside. destruct law_minbpc as [E|E]; rewrite E in *; Z.div_mod_to_equations; lia.
Qed.

Lemma inside_lead lo p t n :
  inside lo p -> BYTE_TYPE enc m p = Ok t -> lead t = Some n -> n <= e - p -> past lo (p + n).
Proof.
  intros (Hlo & Hp & Ha) Ht Hn Hle. pose proof (lead_range _ _ Hn). pose proof (law_lead _ _ _ _ Ht Hn) as Hm.
  unfold past, inside. destruct law_minbpc as [E|E]; rewrite E in *; Z.div_mod_to_equations; lia.
Qed.

Lemma inside_mono lo lo' p : inside lo p -> 0 <= lo' <= lo -> inside lo' p.
Proof. unfold inside. lia. Qed.

Lemma inside_end' lo p : inside lo p -> p <> e -> (p =? e') = false.
Proof. unfold inside. intros. apply Z.eqb_neq. lia. Qed.

Lemma same_at lo p w : inside lo p -> w <= e - p -> same_bytes m m' p w.
Proof. intros (Hlo & Hp & _) Hw i Hi. apply Hsame. lia. Qed.

(** An operation on one character before the end. *)
Lemma local_read {A} (f : list Z -> Z -> res A) lo p :
  local_op MIN f -> inside lo p -> p <> e -> exists a, f m p = Ok a /\ f m' p = Ok a.
Proof.
  intros Hf Hp Hne. apply Hf. apply (same_at lo); [done|]. destruct (inside_next _ _ Hp Hne) as [(_ & H & _) _]. lia.
Qed.

Lemma outcome_read {A} (f : list Z -> Z -> res A) lo p (k k' : A -> res scan) lo' :
  local_op MIN f -> inside lo p -> p <> e ->
  (forall a, f m p = Ok a -> outcome lo' (k a) (k' a)) ->
  outcome lo' (rbind (f m p) k) (rbind (f m' p) k').
Proof. intros Hf Hp Hne Hk. destruct (local_read f lo p Hf Hp Hne) as (a & E & ->). rewrite E. cbn [rbind]. by apply Hk. Qed.

Lemma outcome_read_case {A} (f : list Z -> Z -> res A) lo p (k k' : A -> res case_) lo' :
  local_op MIN f -> inside lo p -> p <> e ->
  (forall a, f m p = Ok a -> outcome_case lo' (k a) (k' a)) ->
  outcome_case lo' (rbind (f m p) k) (rbind (f m' p) k').
Proof. intros Hf Hp Hne Hk. destruct (local_read f lo p Hf Hp Hne) as (a & E & ->). rewrite E. cbn [rbind]. by apply Hk. Qed.

(** The test of the end of the buffer. *)
Lemma outcome_end lo p s (k : res scan) (s' k' : res scan) lo' :
  inside lo p -> (p = e -> wf_scan lo' s /\ decided (fst s) = false) ->
  (p <> e -> outcome lo' k k') ->
  outcome lo' (if p =? e then Ok s else k) (if p =? e' then s' else k').
Proof.
  intros Hp Hs Hk. destruct (Z.eqb_spec p e) as [->|Hne].
  - destruct (Hs eq_refl) as [Hw Hd]. exists s. split; [done|]. split; [done|]. rewrite Hd. done.
  - rewrite (inside_end' lo p Hp Hne). by apply Hk.
Qed.

Lemma outcome_end_case lo p s (k : res case_) (s' k' : res case_) lo' :
  inside lo p -> (p = e -> wf_scan lo' s /\ decided (fst s) = false) ->
  (p <> e -> outcome_case lo' k k') ->
  outcome_case lo' (if p =? e then Ok (Returns s) else k) (if p =? e' then s' else k').
Proof.
  intros Hp Hs Hk. destruct (Z.eqb_spec p e) as [->|Hne].
  - destruct (Hs eq_refl) as [Hw Hd]. exists (Returns s). split; [done|]. split; [done|]. rewrite Hd. done.
  - rewrite (inside_end' lo p Hp Hne). by apply Hk.
Qed.

Lemma outcome_ok lo s : wf_scan lo s -> outcome lo (Ok s) (Ok s).
Proof. intros H. by exists s. Qed.

Lemma outcome_advance lo p : past lo p -> outcome_case lo (Ok (Advance p)) (Ok (Advance p)).
Proof. intros H. by exists (Advance p). Qed.

Lemma outcome_returns lo s : wf_scan lo s -> outcome_case lo (Ok (Returns s)) (Ok (Returns s)).
Proof. intros H. by exists (Returns s). Qed.

Lemma outcome_default lo : outcome_case lo (Ok Default) (Ok Default).
Proof. by exists Default. Qed.

Lemma outcome_switch lo c c' adv adv' d d' :
  outcome_case lo c c' ->
  (forall p, c = Ok (Advance p) -> past lo p -> outcome lo (adv p) (adv' p)) ->
  (c = Ok Default -> outcome lo d d') ->
  outcome lo (switch c adv d) (switch c' adv' d').
Proof.
  intros (cc & -> & Hcc) Ha Hd. unfold switch. cbn [rbind]. destruct cc as [p|s|].
  - destruct Hcc as [Hp ->]. cbn [rbind]. by apply Ha.
  - destruct Hcc as [Hw Hs]. exists s. split; [done|]. split; [done|]. intros H. by rewrite (Hs H).
  - rewrite Hcc. cbn [rbind]. by apply Hd.
Qed.

Lemma outcome_bind_case lo c c' k k' :
  outcome_case lo c c' ->
  (forall p, past lo p -> c = Ok (Advance p) -> outcome_case lo (k p) (k' p)) ->
  outcome_case lo (bind_case c k) (bind_case c' k').
Proof.
  intros (cc & -> & Hcc) Ha. unfold bind_case. cbn [rbind]. destruct cc as [p|s|].
  - destruct Hcc as [Hp ->]. cbn [rbind]. by apply Ha.
  - destruct Hcc as [Hw Hs]. exists (Returns s). split; [done|]. split; [done|]. intros H. by rewrite (Hs H).
  - exists Default. split; [done|]. by rewrite Hcc.
Qed.

Lemma outcome_as_case lo r r' : outcome lo r r' -> outcome_case lo (as_case r) (as_case r').
Proof.
  intros (s & -> & Hw & Hs). exists (Returns s). split; [done|]. split; [done|]. intros H. by rewrite (Hs H).
Qed.

Lemma wf_mono lo lo' s : wf_scan lo s -> 0 <= lo' <= lo -> wf_scan lo' s.
Proof.
  destruct s as [[t|t] next]; cbn; intros Hw Hlo; [|done].
  destruct (0 <? tok_value t); [|destruct (tok_value t =? 0); [|done]].
  - destruct Hw as (p & -> & Hp & Hlt). exists p. split; [done|]. split; [by eapply inside_mono|]. intros Ht. specialize (Hlt Ht). lia.
  - destruct Hw as (p & -> & Hp & Hne). exists p. split; [done|]. split; [|done]. by eapply inside_mono.
Qed.

Lemma outcome_mono lo lo' r r' : outcome lo r r' -> 0 <= lo' <= lo -> outcome lo' r r'.
Proof. intros (s & Hr & Hw & Hs) Hlo. exists s. split; [done|]. split; [by eapply wf_mono|done]. Qed.

Lemma wf_invalid lo p : inside lo p -> p <> e -> wf_scan lo (INVALID p).
Proof. intros. cbn. by exists p. Qed.

Lemma wf_tok lo t p : 0 < tok_value t -> past lo p -> wf_scan lo (Tok t, Some p).
Proof. intros Ht [Hp Hlt]. cbn. replace (0 <? tok_value t) with true by (symmetry; lia). by exists p. Qed.

Lemma wf_instance lo p : inside lo p -> wf_scan lo (Tok XML_TOK_INSTANCE_START, Some p).
Proof. intros Hp. cbn. by exists p. Qed.

Lemma wf_none lo t : tok_value t < 0 -> wf_scan lo (Tok t, None).
Proof.
  intros Ht. cbn. replace (0 <? tok_value t) with false by (symmetry; lia).
  by replace (tok_value t =? 0) with false by (symmetry; lia).
Qed.

Create HintDb scan.
Hint Resolve law_type law_ascii law_matches law_name_min law_nmstrt_min : scan.
Hint Resolve past_inside inside_next wf_invalid wf_tok wf_none wf_instance : scan.
Hint Extern 1 (0 < tok_value _) => reflexivity : scan.
Hint Extern 1 (tok_value _ < 0) => reflexivity : scan.
Hint Extern 2 (wf_scan _ PARTIAL) => apply wf_none : scan.

(** ** The cases the macros supply *)

Lemma lead_case_ok lo ptr t n (f : list Z -> Z -> res bool) (g : bool -> case_) s :
  inside lo ptr -> ptr <> e -> BYTE_TYPE enc m ptr = Ok t -> lead t = Some n -> local_op n f ->
  wf_scan lo s -> decided (fst s) = false ->
  (forall b, outcome_case lo (Ok (g b)) (Ok (g b)) \/ g b = Advance (ptr + n)) ->
  outcome_case lo (if e - ptr <? n then Ok (Returns s) else rbind (f m ptr) (fun b => Ok (g b)))
    (if e' - ptr <? n then Ok (Returns s) else rbind (f m' ptr) (fun b => Ok (g b))).
Proof.
  intros Hp Hne Ht Hn Hf Hs Hd Hg. destruct (Z.ltb_spec (e - ptr) n) as [Hlt|Hge].
  - exists (Returns s). split; [done|]. split; [done|]. by rewrite Hd.
  - replace (e' - ptr <? n) with false by (symmetry; lia).
    destruct (Hf m m' ptr) as (b & -> & ->); [apply (same_at lo); [done|lia]|]. cbn [rbind].
    destruct (Hg b) as [H|E]; [done|]. rewrite E. apply outcome_advance. by eapply inside_lead.
Qed.

Lemma INVALID_CASES_ok lo t ptr :
  inside lo ptr -> ptr <> e -> BYTE_TYPE enc m ptr = Ok t ->
  outcome_case lo (INVALID_CASES enc m e t ptr) (INVALID_CASES enc m' e' t ptr).
Proof.
  intros Hp Hne Ht. unfold INVALID_CASES. destruct (lead t) as [n|] eqn:Hn.
  - apply (lead_case_ok lo ptr t n (IS_INVALID_CHAR enc n) (fun b => if b then Returns (INVALID ptr) else Advance (ptr + n)));
      try done; [by eapply law_invalid|].
    intros []; [left; apply outcome_returns|right; done]. auto with scan.
  - destruct t; first [apply outcome_default|apply outcome_returns; auto with scan].
Qed.

(** A multi-byte name character, and one of [MIN] bytes. *)
Lemma name_lead_ok lo t n ptr (f : list Z -> Z -> res bool) :
  inside lo ptr -> ptr <> e -> BYTE_TYPE enc m ptr = Ok t -> lead t = Some n -> local_op n f ->
  outcome_case lo
    (if e - ptr <? n then Ok (Returns (Tok XML_TOK_PARTIAL_CHAR, None))
     else do ok <- f m ptr; Ok (if ok : bool then Advance (ptr + n) else Returns (INVALID ptr)))
    (if e' - ptr <? n then Ok (Returns (Tok XML_TOK_PARTIAL_CHAR, None))
     else do ok <- f m' ptr; Ok (if ok : bool then Advance (ptr + n) else Returns (INVALID ptr))).
Proof.
  intros Hp Hne Ht Hn Hf.
  apply (lead_case_ok lo ptr t n f (fun b : bool => if b then Advance (ptr + n) else Returns (INVALID ptr)));
    try done.
  intros []; [right; done|left; apply outcome_returns]. auto with scan.
Qed.

Lemma name_min_ok lo ptr (b : bool) :
  inside lo ptr -> ptr <> e ->
  outcome_case lo (Ok (if b then Advance (ptr + MIN) else Returns (INVALID ptr)))
    (Ok (if b then Advance (ptr + MIN) else Returns (INVALID ptr))).
Proof. intros Hp Hne. destruct b; [apply outcome_advance|apply outcome_returns]; auto with scan. Qed.

Ltac name_cases_ok ptr Hp Hne Ht :=
  first [ apply outcome_default | apply (name_min_ok _ ptr true Hp Hne)
        | eapply name_lead_ok; [exact Hp|exact Hne|exact Ht|reflexivity|first [eapply law_name|eapply law_nmstrt]; [exact Ht|reflexivity]]
        | eapply outcome_read_case; [first [apply law_name_min|apply law_nmstrt_min]|exact Hp|exact Hne|];
          intros b _; apply (name_min_ok _ ptr b Hp Hne) ].

Lemma CHECK_NAME_CASES_ok lo t ptr :
  inside lo ptr -> ptr <> e -> BYTE_TYPE enc m ptr = Ok t ->
  outcome_case lo (CHECK_NAME_CASES enc m e t ptr) (CHECK_NAME_CASES enc m' e' t ptr).
Proof. intros Hp Hne Ht. unfold CHECK_NAME_CASES. destruct t; cbn [lead]; name_cases_ok ptr Hp Hne Ht. Qed.

Lemma CHECK_NMSTRT_CASES_ok lo t ptr :
  inside lo ptr -> ptr <> e -> BYTE_TYPE enc m ptr = Ok t ->
  outcome_case lo (CHECK_NMSTRT_CASES enc m e t ptr) (CHECK_NMSTRT_CASES enc m' e' t ptr).
Proof. intros Hp Hne Ht. unfold CHECK_NMSTRT_CASES. destruct t; cbn [lead]; name_cases_ok ptr Hp Hne Ht. Qed.

(** The cases that advance, advance. *)
Lemma cases_progress t ptr p :
  INVALID_CASES enc m e t ptr = Ok (Advance p) \/ CHECK_NAME_CASES enc m e t ptr = Ok (Advance p) \/
  CHECK_NMSTRT_CASES enc m e t ptr = Ok (Advance p) -> ptr < p.
Proof.
  pose proof min_range. unfold INVALID_CASES, CHECK_NAME_CASES, CHECK_NMSTRT_CASES.
  destruct t; cbn [lead];
    repeat match goal with |- context [if ?c then _ else _] => destruct c end;
    repeat match goal with |- context [rbind ?x _] => destruct x as [[]|]; cbn [rbind] end;
    intros [E|[E|E]]; simplify_eq; lia.
Qed.

(** ** The scanners

    [walk] follows a scanner's code: a test for the end of the buffer, a read of
    one character, the cases of a macro, a branch on what was read, a result. The
    hints close the results; what is left are the calls of other scanners. *)

Hint Resolve INVALID_CASES_ok CHECK_NAME_CASES_ok CHECK_NMSTRT_CASES_ok : scan.

Ltac in_fuel := solve [eauto 9 with scan] || lia.

(** A branch on a type or an answer that was read. *)
Ltac branch t :=
  is_var t; let T := type of t in first [constr_eq T BT | constr_eq T bool]; destruct t.

Ltac walk1 :=
  match goal with
  | |- outcome _ (Ok (if ?b then _ else _)) _ => destruct b
  | |- outcome _ (Ok _) (Ok _) => apply outcome_ok; solve [eauto 9 with scan]
  | |- outcome_case _ (Ok (if ?b then _ else _)) _ => destruct b
  | |- outcome_case _ (Ok (Advance _)) _ => apply outcome_advance; solve [eauto 9 with scan]
  | |- outcome_case _ (Ok (Returns _)) _ => apply outcome_returns; solve [eauto 9 with scan]
  | |- outcome _ (if ?p =? e then _ else _) _ =>
      eapply (outcome_end _ p); [solve [eauto 9 with scan]|intros ?; split; [solve [eauto 9 with scan]|reflexivity]|intros ?]
  | |- outcome_case _ (if ?p =? e then _ else _) _ =>
      eapply (outcome_end_case _ p); [solve [eauto 9 with scan]|intros ?; split; [solve [eauto 9 with scan]|reflexivity]|intros ?]
  | |- outcome _ (rbind (_ ?p) _) _ =>
      eapply (outcome_read _ _ p); [solve [eauto 9 with scan]..|let b := fresh "b" in intros b ?]
  | |- outcome_case _ (rbind (_ ?p) _) _ =>
      eapply (outcome_read_case _ _ p); [solve [eauto 9 with scan]..|let b := fresh "b" in intros b ?]
  | |- outcome _ (switch (INVALID_CASES _ _ _ _ _) _ _) _ =>
      eapply outcome_switch; [solve [eauto 9 with scan]|intros ?p ?Hc ?; pose proof (cases_progress _ _ _ (or_introl Hc)); clear Hc|intros _]
  | |- outcome _ (switch (CHECK_NAME_CASES _ _ _ _ _) _ _) _ =>
      eapply outcome_switch; [solve [eauto 9 with scan]|intros ?p ?Hc ?; pose proof (cases_progress _ _ _ (or_intror (or_introl Hc))); clear Hc|intros _]
  | |- outcome _ (switch (CHECK_NMSTRT_CASES _ _ _ _ _) _ _) _ =>
      eapply outcome_switch; [solve [eauto 9 with scan]|intros ?p ?Hc ?; pose proof (cases_progress _ _ _ (or_intror (or_intror Hc))); clear Hc|intros _]
  | |- outcome _ (if negb ?b then _ else _) _ => is_var b; destruct b; cbn [negb]
  | |- outcome _ (match ?t with _ => _ end) _ => branch t
  | |- outcome_case _ (match ?t with _ => _ end) _ => branch t
  end.

Ltac walk := cbv zeta; repeat (walk1; cbv zeta).

Ltac enough_fuel := unfold fuel_at, past, inside in *; pose proof min_range; lia.

(** A loop: the induction hypothesis for the calls of the loop itself. *)
Ltac walk_loop IH := walk; try (apply IH; [solve [eauto 9 with scan]|enough_fuel|enough_fuel]).

(** A call of another loop. *)
Ltac call L := apply L; [solve [eauto 9 with scan]|enough_fuel|enough_fuel].

(** The start of the induction on a loop's fuel. *)
Ltac loop_induction fuel IH :=
  induction fuel as [|fuel IH]; intros [|fuel'] ptr Hp Hf Hf'; [enough_fuel..|].

Section scanners.
Context (lo : Z).

(** Both runs of a loop have enough fuel. *)
Definition loop_ok (f f' : nat -> Z -> res scan) : Prop := forall fuel fuel' ptr,
  past lo ptr -> e - ptr < Z.of_nat fuel -> e' - ptr < Z.of_nat fuel' -> outcome lo (f fuel ptr) (f' fuel' ptr).

Definition case_loop_ok (f f' : nat -> Z -> res case_) : Prop := forall fuel fuel' ptr,
  past lo ptr -> e - ptr < Z.of_nat fuel -> e' - ptr < Z.of_nat fuel' -> outcome_case lo (f fuel ptr) (f' fuel' ptr).

Definition scanner_ok (f f' : Z -> res scan) : Prop := forall ptr, past lo ptr -> outcome lo (f ptr) (f' ptr).

Lemma scanComment_loop_ok : loop_ok (scanComment_loop enc m e) (scanComment_loop enc m' e').
Proof. intros fuel. loop_induction fuel IH; cbn [scanComment_loop]. walk_loop IH. Qed.

Lemma scanComment_ok : scanner_ok (scanComment enc m e) (scanComment enc m' e').
Proof.
  intros ptr Hp. unfold scanComment. walk. call scanComment_loop_ok.
Qed.

Lemma scanDecl_loop_ok : loop_ok (scanDecl_loop enc m e) (scanDecl_loop enc m' e').
Proof. intros fuel. loop_induction fuel IH; cbn [scanDecl_loop]. walk_loop IH. Qed.

Lemma scanDecl_ok : scanner_ok (scanDecl enc m e) (scanDecl enc m' e').
Proof.
  intros ptr Hp. unfold scanDecl. walk;
    first [apply scanComment_ok; eauto 9 with scan|call scanDecl_loop_ok].
Qed.

Lemma checkPiTarget_ok target ptr :
  0 <= target -> ptr <= e ->
  exists t, checkPiTarget enc m target ptr = Ok t /\ checkPiTarget enc m' target ptr = Ok t /\
    (forall tk, t = Some tk -> tk = XML_TOK_PI \/ tk = XML_TOK_XML_DECL).
Proof.
  intros H0 He. unfold checkPiTarget. destruct (Z.eqb_spec (ptr - target) (MIN * 3)) as [E|]; cbn [negb];
    [|eexists; repeat split; intros; simplify_eq; auto]. pose proof min_range.
  assert (Hrd : forall q, 0 <= q -> q + MIN <= e -> exists a, BYTE_TO_ASCII enc m q = Ok a /\ BYTE_TO_ASCII enc m' q = Ok a).
  { intros q Hq Hqe. apply law_ascii. intros i Hi. apply Hsame. lia. }
  destruct (Hrd target) as (x & -> & ->); [lia..|]. cbn [rbind].
  destruct (Hrd (target + MIN)) as (y & -> & ->); [lia..|]. cbn [rbind].
  destruct (Hrd (target + MIN + MIN)) as (z & -> & ->); [lia..|]. cbn [rbind].
  repeat case_match; eexists; (split; [reflexivity|]); (split; [reflexivity|]); intros; simplify_eq; auto.
Qed.

Lemma scanPi_text_ok t : 0 < tok_value t -> loop_ok (fun f => scanPi_text enc m e f t) (fun f => scanPi_text enc m' e' f t).
Proof. intros Ht fuel. loop_induction fuel IH; cbn [scanPi_text]. walk_loop IH. Qed.

Lemma scanPi_target_ok target :
  0 <= target -> loop_ok (fun f => scanPi_target enc m e f target) (fun f => scanPi_target enc m' e' f target).
Proof.
  intros H0 fuel. loop_induction fuel IH; cbn [scanPi_target]. walk_loop IH.
  all: destruct (checkPiTarget_ok target ptr H0) as (t & -> & -> & Htk); [by unfold past, inside in Hp; lia|]; cbn [rbind].
  all: destruct t as [t|]; [|walk]; assert (0 < tok_value t) by (destruct (Htk t eq_refl) as [-> | ->]; reflexivity).
  all: walk. all: eapply scanPi_text_ok; [done|eauto 9 with scan|enough_fuel..].
Qed.

Lemma scanPi_ok : scanner_ok (scanPi enc m e) (scanPi enc m' e').
Proof.
  intros ptr Hp. unfold scanPi. walk. eapply scanPi_target_ok; [unfold past, inside in Hp; lia|eauto 9 with scan|enough_fuel..].
Qed.

Lemma match_literal_ok lit : forall ptr,
  past lo ptr -> zlen lit * MIN <= e - ptr ->
  outcome lo (match_literal enc m lit ptr) (match_literal enc m' lit ptr).
Proof.
  pose proof min_range. induction lit as [|c lit IH]; intros ptr Hp Hl; cbn [match_literal]; [walk|].
  rewrite zlen_cons in Hl. pose proof (zlen_nonneg lit). assert (ptr <> e) by nia.
  walk. apply IH; [eauto 9 with scan|nia].
Qed.

Lemma scanCdataSection_ok : scanner_ok (scanCdataSection enc m e) (scanCdataSection enc m' e').
Proof.
  intros ptr Hp. unfold scanCdataSection. destruct (Z.ltb_spec (e - ptr) (6 * MIN)).
  - exists PARTIAL. split; [done|]. split; [auto with scan|done].
  - replace (e' - ptr <? 6 * MIN) with false by (symmetry; lia). by apply match_literal_ok.
Qed.

Lemma scanEndTag_space_ok : loop_ok (scanEndTag_space enc m e) (scanEndTag_space enc m' e').
Proof. intros fuel. loop_induction fuel IH; cbn [scanEndTag_space]. walk_loop IH. Qed.

Lemma scanEndTag_name_ok : loop_ok (scanEndTag_name enc m e) (scanEndTag_name enc m' e').
Proof.
  intros fuel. loop_induction fuel IH; cbn [scanEndTag_name]. walk_loop IH.
  all: call scanEndTag_space_ok.
Qed.

Lemma scanEndTag_ok : scanner_ok (scanEndTag enc m e) (scanEndTag enc m' e').
Proof. intros ptr Hp. unfold scanEndTag. walk. call scanEndTag_name_ok. Qed.

Lemma scanDigits_ok hex : loop_ok (scanDigits enc m e hex) (scanDigits enc m' e' hex).
Proof. intros fuel. loop_induction fuel IH; cbn [scanDigits]. destruct hex; walk_loop IH. Qed.

Lemma scanHexCharRef_ok : scanner_ok (scanHexCharRef enc m e) (scanHexCharRef enc m' e').
Proof. intros ptr Hp. unfold scanHexCharRef. walk; call scanDigits_ok. Qed.

Lemma scanCharRef_ok : scanner_ok (scanCharRef enc m e) (scanCharRef enc m' e').
Proof.
  intros ptr Hp. unfold scanCharRef. walk; [apply scanHexCharRef_ok; eauto 9 with scan|].
  call scanDigits_ok.
Qed.

Lemma scanRef_name_ok r : 0 < tok_value r -> loop_ok (scanRef_name enc m e r) (scanRef_name enc m' e' r).
Proof. intros Hr fuel. loop_induction fuel IH; cbn [scanRef_name]. walk_loop IH. Qed.

Lemma scanRef_ok : scanner_ok (scanRef enc m e) (scanRef enc m' e').
Proof.
  intros ptr Hp. unfold scanRef. walk; [apply scanRef_name_ok; [done|eauto 9 with scan|enough_fuel..]|].
  apply scanCharRef_ok; eauto 9 with scan.
Qed.

(** *** Tags *)

Lemma skip_to_equals_ok fuel : forall fuel' ptr,
  inside lo ptr -> ptr <> e -> e - ptr < Z.of_nat fuel -> e' - ptr < Z.of_nat fuel' ->
  outcome_case lo (skip_to_equals enc m e fuel ptr) (skip_to_equals enc m' e' fuel' ptr).
Proof.
  induction fuel as [|fuel IH]; intros [|fuel'] ptr Hp Hne Hf Hf'; [enough_fuel..|]; cbn [skip_to_equals].
  walk; (apply IH; [eauto 9 with scan|done|enough_fuel..]).
Qed.

Lemma skip_to_quote_ok fuel : forall fuel' ptr,
  inside lo ptr -> ptr <> e -> e - ptr < Z.of_nat fuel -> e' - ptr < Z.of_nat fuel' ->
  outcome_case lo (skip_to_quote enc m e fuel ptr) (skip_to_quote enc m' e' fuel' ptr).
Proof.
  induction fuel as [|fuel IH]; intros [|fuel'] ptr Hp Hne Hf Hf'; [enough_fuel..|]; cbn [skip_to_quote].
  walk; (apply IH; [eauto 9 with scan|done|enough_fuel..]).
Qed.

(** Where the loops stop is before the end. *)
Lemma skip_to_equals_stop fuel : forall ptr p, skip_to_equals enc m e fuel ptr = Ok (Advance p) -> p <> e /\ ptr < p.
Proof.
  pose proof min_range. induction fuel as [|fuel IH]; intros ptr p; cbn [skip_to_equals]; [done|]. cbv zeta.
  destruct (Z.eqb_spec (ptr + MIN) e); [done|]. destruct (BYTE_TYPE enc m (ptr + MIN)) as [[]|]; cbn [rbind]; intros E;
    simplify_eq; try (apply IH in E); lia.
Qed.

Lemma skip_to_quote_stop fuel : forall ptr p, skip_to_quote enc m e fuel ptr = Ok (Advance p) -> p <> e /\ ptr < p.
Proof.
  pose proof min_range. induction fuel as [|fuel IH]; intros ptr p; cbn [skip_to_quote]; [done|]. cbv zeta.
  destruct (Z.eqb_spec (ptr + MIN) e); [done|]. destruct (BYTE_TYPE enc m (ptr + MIN)) as [[]|]; cbn [rbind]; intros E;
    simplify_eq; try (apply IH in E); lia.
Qed.
End scanners.

(** The tokens of a reference. *)
Definition ref_tok (t : tok) : bool :=
  bool_decide (t = Tok XML_TOK_PARTIAL) || bool_decide (t = Tok XML_TOK_PARTIAL_CHAR) || bool_decide (t = Tok XML_TOK_INVALID) ||
  bool_decide (t = Tok XML_TOK_ENTITY_REF) || bool_decide (t = Tok XML_TOK_CHAR_REF).

(** The results of the macros' cases. *)
Lemma case_toks t ptr s :
  INVALID_CASES enc m e t ptr = Ok (Returns s) \/ CHECK_NAME_CASES enc m e t ptr = Ok (Returns s) \/
  CHECK_NMSTRT_CASES enc m e t ptr = Ok (Returns s) -> ref_tok (fst s) = true.
Proof.
  unfold INVALID_CASES, CHECK_NAME_CASES, CHECK_NMSTRT_CASES.
  destruct t; cbn [lead];
    repeat match goal with |- context [if ?c then _ else _] => destruct c end;
    repeat match goal with |- context [rbind ?x _] => destruct x as [[]|]; cbn [rbind] end;
    intros [E|[E|E]]; simplify_eq; done.
Qed.

Lemma switch_toks c adv d s :
  switch c adv d = Ok s -> (forall s, c = Ok (Returns s) -> ref_tok (fst s) = true) ->
  (forall p, adv p = Ok s -> ref_tok (fst s) = true) -> (d = Ok s -> ref_tok (fst s) = true) -> ref_tok (fst s) = true.
Proof. unfold switch. destruct c as [[p|r|]|]; cbn [rbind]; intros E Hc Ha Hd; simplify_eq; eauto. Qed.

Ltac toks :=
  repeat match goal with
  | |- Ok _ = Ok _ -> _ => intros; simplify_eq; reflexivity
  | |- Err _ = Ok _ -> _ => done
  | |- (if ?b then _ else _) = Ok _ -> _ => destruct b
  | |- rbind ?x _ = Ok _ -> _ => destruct x; cbn [rbind]
  | |- (match ?t with _ => _ end) = Ok _ -> _ => is_var t; destruct t
  | |- switch _ _ _ = Ok _ -> _ =>
      intros E; apply (switch_toks _ _ _ _ E); clear E; [intros ? ?; eapply case_toks; eauto|intros ?|]
  end.

Lemma scanRef_toks ptr s : scanRef enc m e ptr = Ok s -> ref_tok (fst s) = true.
Proof.
  assert (Hd : forall hex fuel p s, scanDigits enc m e hex fuel p = Ok s -> ref_tok (fst s) = true).
  { intros hex fuel. induction fuel as [|fuel IH]; intros p r; cbn [scanDigits]; toks; eauto. }
  assert (Hn : forall fuel p s, scanRef_name enc m e XML_TOK_ENTITY_REF fuel p = Ok s -> ref_tok (fst s) = true).
  { intros fuel. induction fuel as [|fuel IH]; intros p r; cbn [scanRef_name]; toks; eauto. }
  unfold scanRef, scanCharRef, scanHexCharRef. toks; eauto.
Qed.

Section tags.
Context (lo : Z).

Lemma scan_value_ok open : case_loop_ok lo (fun f => scan_value enc m e f open) (fun f => scan_value enc m' e' f open).
Proof.
  intros fuel. loop_induction fuel IH; cbn [scan_value]. walk.
  destruct (bool_decide (b = open)); [walk|].
  destruct (INVALID_CASES_ok lo b ptr (past_inside _ _ Hp) H H0) as (c & Ec & Hc). rewrite Ec. cbn [rbind]. destruct c as [p|r|].
  - destruct Hc as [Hin ->]. cbn [rbind]. pose proof (cases_progress _ _ _ (or_introl Ec)).
    apply IH; [done|enough_fuel..].
  - destruct Hc as [Hw Hr]. exists (Returns r). split; [done|]. split; [done|]. intros Hd. by rewrite (Hr Hd).
  - rewrite Hc. cbn [rbind]. destruct b; try (apply IH; [eauto 9 with scan|enough_fuel..]); [walk|].
    assert (Hin : past ptr (ptr + MIN)) by (apply inside_next; [unfold past, inside in *; lia|done]).
    destruct (scanRef_ok _ _ Hin) as ([r next] & Er & Hw & Hr). rewrite Er. cbn [rbind].
    pose proof (scanRef_toks _ _ Er) as Ht. unfold ref_tok in Ht. cbn [fst] in *.
    repeat rewrite orb_true_iff in Ht. rewrite !bool_decide_eq_true in Ht.
    assert (Hlo : 0 <= lo <= ptr) by (unfold past, inside in Hp; lia).
    destruct Ht as [[[[-> | ->]| ->]| ->]| ->]; cbn in Hw.
    1, 2: subst next; cbn; eexists; split; [reflexivity|]; split; [by apply wf_none|done].
    all: rewrite (Hr eq_refl); cbn [rbind]; destruct Hw as (p & -> & Hw); cbn.
    1: apply outcome_returns, wf_invalid; [by eapply inside_mono; [apply Hw|]|apply Hw].
    all: destruct Hw as [Hin' Hlt]; specialize (Hlt ltac:(done)); apply IH; [split; [by eapply inside_mono|lia]|unfold past, inside in *; lia..].
Qed.

Lemma scan_value_stop open fuel : forall ptr p, scan_value enc m e fuel open ptr = Ok (Advance p) -> p <> e.
Proof.
  induction fuel as [|fuel IH]; intros ptr p; cbn [scan_value]; [done|].
  destruct (Z.eqb_spec ptr e); [done|]. destruct (BYTE_TYPE enc m ptr) as [t|]; cbn [rbind]; [|done].
  case_bool_decide; [intros; simplify_eq; done|].
  destruct (INVALID_CASES enc m e t ptr) as [[]|]; cbn [rbind]; [apply IH|done| |done].
  destruct t; try apply IH; [done|]. destruct (scanRef enc m e (ptr + MIN)) as [[r next]|]; cbn [rbind]; [|done].
  cbv zeta. destruct (tok_int r <=? 0); [done|apply IH].
Qed.

Lemma scan_sol_ok t ptr :
  0 < tok_value t -> inside lo ptr -> ptr <> e -> outcome lo (scan_sol enc m e t ptr) (scan_sol enc m' e' t ptr).
Proof. intros Ht Hp Hne. unfold scan_sol. walk. Qed.

Hint Resolve scan_sol_ok : scan.

(** The cases of a macro, passed on. *)
Lemma outcome_through (c c' d d' : res case_) :
  outcome_case lo c c' -> outcome_case lo d d' ->
  outcome_case lo (do x <- c; match x with Default => d | _ => Ok x end)
    (do x <- c'; match x with Default => d' | _ => Ok x end).
Proof.
  intros (x & -> & Hx) Hd. cbn [rbind]. destruct x as [p|r|].
  - destruct Hx as [Hp ->]. by apply outcome_advance.
  - destruct Hx as [Hw Hr]. exists (Returns r). split; [done|]. split; [done|]. intros H. by rewrite (Hr H).
  - by rewrite Hx.
Qed.

Lemma next_att_ok fuel : forall fuel' ptr,
  inside lo ptr -> ptr <> e -> e - ptr < Z.of_nat fuel -> e' - ptr < Z.of_nat fuel' ->
  outcome_case lo (next_att enc m e fuel ptr) (next_att enc m' e' fuel' ptr).
Proof.
  induction fuel as [|fuel IH]; intros [|fuel'] ptr Hp Hne Hf Hf'; [enough_fuel..|]; cbn [next_att].
  walk. apply outcome_through; [eauto 9 with scan|]. walk.
  all: first [apply IH; [eauto 9 with scan|done|enough_fuel..]|apply outcome_as_case; eauto 9 with scan].
Qed.

Lemma after_value_ok ptr :
  inside lo ptr -> ptr <> e -> outcome_case lo (after_value enc m e ptr) (after_value enc m' e' ptr).
Proof.
  intros Hp Hne. unfold after_value. walk.
  all: first [apply next_att_ok; [eauto 9 with scan|done|enough_fuel..]|apply outcome_as_case; eauto 9 with scan].
Qed.

Definition quoted_value (n : list Z) (ed ptr : Z) : res case_ :=
  do open <- BYTE_TYPE enc n ptr; bind_case (scan_value enc n ed (fuel_at ed ptr) open (ptr + MIN)) (after_value enc n ed).

Lemma quoted_value_ok ptr :
  inside lo ptr -> ptr <> e -> outcome_case lo (quoted_value m e ptr) (quoted_value m' e' ptr).
Proof.
  intros Hp Hne. unfold quoted_value. walk.
  apply outcome_bind_case; [eapply scan_value_ok; [eauto 9 with scan|enough_fuel..]|].
  intros p' Hin' Hv. apply after_value_ok; [by apply past_inside|]. by eapply scan_value_stop.
Qed.

Lemma attribute_value_ok ptr :
  inside lo ptr -> ptr <> e -> outcome_case lo (attribute_value enc m e ptr) (attribute_value enc m' e' ptr).
Proof.
  intros Hp Hne. unfold attribute_value.
  apply outcome_bind_case; [apply skip_to_quote_ok; [done|done|enough_fuel..]|].
  intros p Hin Hq. apply skip_to_quote_stop in Hq as [Hpe Hlt]. apply quoted_value_ok; [by apply past_inside|done].
Qed.
End tags.

Lemma attribute_value_progress lo ptr p :
  inside lo ptr -> ptr <> e -> attribute_value enc m e ptr = Ok (Advance p) -> ptr < p.
Proof.
  intros Hp Hne. unfold attribute_value, bind_case at 1.
  destruct (skip_to_quote_ok lo (fuel_at e ptr) (fuel_at e' ptr) ptr) as (c & Ec & Hc); [done|done|enough_fuel..|].
  rewrite Ec. cbn [rbind]. destruct c as [q|r|]; [|done|done]. destruct Hc as [Hq _].
  apply skip_to_quote_stop in Ec as [Hqe Hlt]. intros E.
  destruct (quoted_value_ok q q) as (c & Ec & Hc); [unfold past, inside in *; lia|done|].
  unfold quoted_value in Ec. rewrite E in Ec. simplify_eq. destruct Hc as [[_ Hin] _]. lia.
Qed.

Section start_tag.
Context (lo : Z).

Lemma scan_colon_ok had ptr :
  inside lo ptr -> ptr <> e -> outcome_case lo (scan_colon enc m e had ptr) (scan_colon enc m' e' had ptr).
Proof.
  intros Hp Hne. unfold scan_colon. destruct had; [walk|]. walk.
  destruct (CHECK_NMSTRT_CASES_ok lo b (ptr + MIN)) as (c & -> & Hc); [eauto 9 with scan..|]. cbn [rbind].
  destruct c as [p|r|].
  - destruct Hc as [Hin ->]. by apply outcome_advance.
  - destruct Hc as [Hw Hr]. exists (Returns r). split; [done|]. split; [done|]. intros Hd. by rewrite (Hr Hd).
  - rewrite Hc. cbn [rbind]. walk.
Qed.

Lemma scan_colon_progress had ptr p : scan_colon enc m e had ptr = Ok (Advance p) -> ptr < p.
Proof.
  pose proof min_range. unfold scan_colon. destruct had; [done|]. cbv zeta. destruct (ptr + MIN =? e); [done|].
  destruct (BYTE_TYPE enc m (ptr + MIN)) as [t|]; cbn [rbind]; [|done].
  destruct (CHECK_NMSTRT_CASES enc m e t (ptr + MIN)) as [[q|r|]|] eqn:E; cbn [rbind]; intros; simplify_eq.
  pose proof (cases_progress _ _ _ (or_intror (or_intror E))). lia.
Qed.

Lemma scanAtts_ok fuel : forall fuel' had ptr,
  past lo ptr -> e - ptr < Z.of_nat fuel -> e' - ptr < Z.of_nat fuel' ->
  outcome lo (scanAtts enc m e fuel had ptr) (scanAtts enc m' e' fuel' had ptr).
Proof.
  induction fuel as [|fuel IH]; intros [|fuel'] had ptr Hp Hf Hf'; [enough_fuel..|]; cbn [scanAtts].
  pose proof (past_inside _ _ Hp).
  walk; try (apply IH; [done|enough_fuel..]).
  all: eapply outcome_switch;
    [first [by apply scan_colon_ok|by apply attribute_value_ok|
       apply outcome_bind_case; [apply skip_to_equals_ok; [done|done|enough_fuel..]|
         intros q Hq Eq; apply skip_to_equals_stop in Eq as [Hqe _]; apply past_inside in Hq; by apply attribute_value_ok]]
    |intros p Ec Hin; apply IH; [done|..]|intros _; walk].
  all: assert (ptr < p); [|enough_fuel].
  all: try (by eapply scan_colon_progress); try (by eapply attribute_value_progress).
  all: unfold bind_case in Ec;
    destruct (skip_to_equals_ok lo (fuel_at e ptr) (fuel_at e' ptr) ptr) as (c & Es & Hc); [done|done|enough_fuel..|];
    rewrite Es in Ec; cbn [rbind] in Ec; destruct c as [q|r|]; [|done|done]; destruct Hc as [Hq _];
    apply skip_to_equals_stop in Es as [Hqe Hlt]; pose proof (attribute_value_progress _ _ _ (past_inside _ _ Hq) Hqe Ec); lia.
Qed.

Lemma scanLt_space_ok : loop_ok lo (scanLt_space enc m e) (scanLt_space enc m' e').
Proof.
  intros fuel. loop_induction fuel IH; cbn [scanLt_space]. walk_loop IH; [|apply scan_sol_ok; auto with scan].
  call scanAtts_ok.
Qed.

Lemma scanLt_name_ok fuel : forall fuel' had ptr,
  past lo ptr -> e - ptr < Z.of_nat fuel -> e' - ptr < Z.of_nat fuel' ->
  outcome lo (scanLt_name enc m e fuel had ptr) (scanLt_name enc m' e' fuel' had ptr).
Proof.
  induction fuel as [|fuel IH]; intros [|fuel'] had ptr Hp Hf Hf'; [enough_fuel..|]; cbn [scanLt_name].
  walk; try (apply IH; [done|enough_fuel..]); try (call scanLt_space_ok); [apply scan_sol_ok; auto with scan|].
  eapply outcome_switch; [apply scan_colon_ok; [by apply past_inside|done]|intros p Ec Hin; apply scan_colon_progress in Ec|intros _; walk].
  apply IH; [done|enough_fuel..].
Qed.

Lemma scanLt_ok : scanner_ok lo (scanLt enc m e) (scanLt enc m' e').
Proof.
  intros ptr Hp. unfold scanLt. walk; try (call scanLt_name_ok).
  all: first [apply scanComment_ok|apply scanCdataSection_ok|apply scanPi_ok|apply scanEndTag_ok]; eauto 9 with scan.
Qed.
End start_tag.

(** *** Character data *)

Section data.
Context (lo : Z).

Lemma data_case_ok t ptr :
  past lo ptr -> ptr <> e -> BYTE_TYPE enc m ptr = Ok t ->
  outcome_case lo (data_case enc m e t ptr) (data_case enc m' e' t ptr).
Proof.
  intros Hp Hne Ht. unfold data_case. destruct (lead t) as [n|] eqn:Hn; [|apply outcome_default].
  apply (lead_case_ok lo ptr t n (IS_INVALID_CHAR enc n)
    (fun b : bool => if b then Returns (Tok XML_TOK_DATA_CHARS, Some ptr) else Advance (ptr + n))); auto using past_inside with scan.
  - by eapply law_invalid.
  - intros []; [left; apply outcome_returns|right; done]. auto with scan.
Qed.

Lemma data_case_progress t ptr p : data_case enc m e t ptr = Ok (Advance p) -> ptr < p.
Proof.
  unfold data_case. destruct (lead t) as [n|] eqn:Hn; [|done]. apply lead_range in Hn.
  destruct (e - ptr <? n); [done|]. destruct (IS_INVALID_CHAR enc n m ptr) as [[]|]; cbn [rbind]; intros; simplify_eq; lia.
Qed.

Ltac data_switch IH :=
  eapply outcome_switch; [by apply data_case_ok|intros ?p Ec ?Hin; apply data_case_progress in Ec; apply IH; [done|enough_fuel..]|intros _].

Lemma cdata_chars_ok : loop_ok lo (cdata_chars enc m e) (cdata_chars enc m' e').
Proof. intros fuel. loop_induction fuel IH; cbn [cdata_chars]. walk. data_switch IH. walk_loop IH. Qed.

Lemma two_min ptr : ptr + 2 * MIN = ptr + MIN + MIN.
Proof. lia. Qed.

Lemma content_chars_ok : loop_ok lo (content_chars enc m e) (content_chars enc m' e').
Proof.
  intros fuel. loop_induction fuel IH; cbn [content_chars]. rewrite !two_min. walk. data_switch IH. walk_loop IH.
Qed.

Lemma scan_cr_ok t ptr :
  tok_value t < 0 -> inside lo ptr -> ptr <> e -> decided (Tok t) = false ->
  outcome lo (scan_cr enc m e t ptr) (scan_cr enc m' e' t ptr).
Proof.
  intros Ht Hp Hne Hd. unfold scan_cr. cbv zeta.
  eapply outcome_end; [eauto 9 with scan|intros _; split; [auto with scan|done]|intros ?]. walk.
  apply outcome_ok. case_bool_decide; eauto 9 with scan.
Qed.

Lemma cdataSection_from_ok ptr :
  inside lo ptr -> ptr <> e -> outcome lo (cdataSection_from enc m e ptr) (cdataSection_from enc m' e' ptr).
Proof.
  intros Hp Hne. unfold cdataSection_from. walk; try (call cdata_chars_ok); try (by apply scan_cr_ok).
  replace (ptr + MIN + MIN - MIN) with (ptr + MIN) by lia. call cdata_chars_ok.
Qed.

Lemma content_from_ok ptr :
  inside lo ptr -> ptr <> e -> outcome lo (content_from enc m e ptr) (content_from enc m' e' ptr).
Proof.
  intros Hp Hne. unfold content_from. walk; try (call content_chars_ok); try (by apply scan_cr_ok).
  - apply scanLt_ok. eauto 9 with scan.
  - apply scanRef_ok. eauto 9 with scan.
  - replace (ptr + MIN + MIN - MIN) with (ptr + MIN) by lia. call content_chars_ok.
Qed.
End data.

(** *** The prolog and ignored sections *)

Section prolog.
Context (lo : Z).

Lemma wf_neg t : 0 < tok_value t -> wf_scan lo (Neg t, None).
Proof. intros. split; [done|by left]. Qed.
Hint Resolve wf_neg : scan.

Lemma scanPercent_ok : scanner_ok lo (scanPercent enc m e) (scanPercent enc m' e').
Proof. intros ptr Hp. unfold scanPercent. walk. eapply scanRef_name_ok; [done|eauto 9 with scan|enough_fuel..]. Qed.

Lemma poundName_rest_ok : loop_ok lo (poundName_rest enc m e) (poundName_rest enc m' e').
Proof. intros fuel. loop_induction fuel IH; cbn [poundName_rest]. walk_loop IH. Qed.

Lemma scanPoundName_ok : scanner_ok lo (scanPoundName enc m e) (scanPoundName enc m' e').
Proof. intros ptr Hp. unfold scanPoundName. walk. call poundName_rest_ok. Qed.

Lemma wf_after_literal t ptr : past lo ptr -> ptr <> e -> wf_scan lo (Tok (after_literal t), Some ptr).
Proof. intros Hp Hne. destruct t; first [by apply wf_tok|apply wf_invalid; [by apply past_inside|done]]. Qed.
Hint Resolve wf_after_literal : scan.

Lemma scanLit_ok open : loop_ok lo (scanLit enc m e open) (scanLit enc m' e' open).
Proof.
  intros fuel. loop_induction fuel IH; cbn [scanLit]. walk_loop IH.
  all: destruct (bool_decide _); cbn [negb]; walk_loop IH.
Qed.

Lemma prolog_space_ok fuel : forall fuel' ptr,
  inside lo ptr -> ptr <> e -> e - ptr < Z.of_nat fuel -> e' - ptr < Z.of_nat fuel' ->
  outcome lo (prolog_space enc m e fuel ptr) (prolog_space enc m' e' fuel' ptr).
Proof.
  induction fuel as [|fuel IH]; intros [|fuel'] ptr Hp Hne Hf Hf'; [enough_fuel..|]; cbn [prolog_space].
  walk; try (apply IH; [eauto 9 with scan|done|enough_fuel..]).
  destruct (Z.eqb_spec (ptr + MIN + MIN) e) as [E|E]; cbn [negb].
  - eexists. split; [reflexivity|]. split; [eauto 9 with scan|done].
  - rewrite (inside_end' lo) by eauto 9 with scan. apply IH; [eauto 9 with scan|done|enough_fuel..].
Qed.

Definition name_tok (tk : XML_TOK) : Prop := tk = XML_TOK_NAME \/ tk = XML_TOK_PREFIXED_NAME \/ tk = XML_TOK_NMTOKEN.

Lemma wf_name_mark tk t ptr :
  0 < tok_value t -> inside lo ptr -> ptr <> e -> wf_scan lo (name_mark enc tk t ptr).
Proof. intros. unfold name_mark. case_bool_decide; auto with scan. Qed.
Hint Resolve wf_name_mark : scan.

Lemma prolog_name_ok fuel : forall fuel' tk ptr,
  name_tok tk -> past lo ptr -> e - ptr < Z.of_nat fuel -> e' - ptr < Z.of_nat fuel' ->
  outcome lo (prolog_name enc m e fuel tk ptr) (prolog_name enc m' e' fuel' tk ptr).
Proof.
  induction fuel as [|fuel IH]; intros [|fuel'] tk ptr Hk Hp Hf Hf'; [enough_fuel..|]; cbn [prolog_name].
  assert (Hpos : 0 < tok_value tk) by (destruct Hk as [-> |[-> | ->]]; reflexivity).
  walk; try (apply IH; [done|eauto 9 with scan|enough_fuel..]).
  destruct Hk as [-> |[-> | ->]]; walk; (apply IH; [unfold name_tok; tauto|eauto 9 with scan|enough_fuel..]).
Qed.

Lemma prolog_lt_ok ptr :
  inside lo ptr -> ptr <> e -> outcome lo (prolog_lt enc m e ptr) (prolog_lt enc m' e' ptr).
Proof.
  intros Hp Hne. unfold prolog_lt. cbv zeta. replace (ptr + MIN - MIN) with ptr by lia.
  walk; [apply scanPi_ok|apply scanDecl_ok]; eauto 9 with scan.
Qed.

Lemma prolog_rsqb_ok ptr :
  inside lo ptr -> ptr <> e -> outcome lo (prolog_rsqb enc m e ptr) (prolog_rsqb enc m' e' ptr).
Proof.
  intros Hp Hne. unfold prolog_rsqb. cbv zeta. rewrite !two_min. walk.
Qed.

Lemma prolog_rpar_ok ptr :
  inside lo ptr -> ptr <> e -> outcome lo (prolog_rpar enc m e ptr) (prolog_rpar enc m' e' ptr).
Proof. intros Hp Hne. unfold prolog_rpar. walk. Qed.

Lemma prolog_first_ok n f g ptr :
  inside lo ptr -> ptr <> e -> past lo (ptr + n) -> 0 < n -> local_op n f -> local_op n g ->
  outcome lo (prolog_first enc m e n f g ptr) (prolog_first enc m' e' n f g ptr).
Proof.
  intros Hp Hne Hn H0 Hf Hg. unfold prolog_first.
  assert (Hs : same_bytes m m' ptr n) by (apply (same_at lo); [done|unfold past, inside in Hn; lia]).
  destruct (Hf m m' ptr Hs) as ([] & -> & ->); cbn [rbind].
  - apply prolog_name_ok; [unfold name_tok; tauto|done|enough_fuel..].
  - destruct (Hg m m' ptr Hs) as ([] & -> & ->); cbn [rbind]; [|walk].
    apply prolog_name_ok; [unfold name_tok; tauto|done|enough_fuel..].
Qed.

Lemma prolog_lead_ok t n ptr :
  inside lo ptr -> ptr <> e -> BYTE_TYPE enc m ptr = Ok t -> lead t = Some n ->
  outcome lo
    (if e - ptr <? n then Ok (Tok XML_TOK_PARTIAL_CHAR, None)
     else prolog_first enc m e n (IS_NMSTRT_CHAR enc n) (IS_NAME_CHAR enc n) ptr)
    (if e' - ptr <? n then Ok (Tok XML_TOK_PARTIAL_CHAR, None)
     else prolog_first enc m' e' n (IS_NMSTRT_CHAR enc n) (IS_NAME_CHAR enc n) ptr).
Proof.
  intros Hp Hne Ht Hn. pose proof (lead_range _ _ Hn). destruct (Z.ltb_spec (e - ptr) n).
  - eexists. split; [reflexivity|]. split; [auto with scan|done].
  - replace (e' - ptr <? n) with false by (symmetry; lia).
    apply prolog_first_ok; [done|done|by eapply inside_lead|lia|by eapply law_nmstrt|by eapply law_name].
Qed.

Lemma prolog_from_ok ptr :
  inside lo ptr -> ptr <> e -> outcome lo (prolog_from enc m e ptr) (prolog_from enc m' e' ptr).
Proof.
  intros Hp Hne. unfold prolog_from. walk; cbn [lead];
    first [ by eapply prolog_lead_ok | by apply prolog_lt_ok | by apply prolog_rsqb_ok | by apply prolog_rpar_ok
          | call scanLit_ok | apply scanPercent_ok; by eauto 9 with scan | apply scanPoundName_ok; by eauto 9 with scan
          | apply prolog_space_ok; [done|done|enough_fuel..]
          | apply prolog_name_ok; [unfold name_tok; tauto|eauto 9 with scan|enough_fuel..]
          | apply prolog_first_ok; [done|done|by eauto 9 with scan|pose proof min_range; lia|apply law_nmstrt_min|apply law_name_min]
          | idtac ].
  all: try walk.
  destruct (Z.eqb_spec (ptr + MIN) e) as [E|E].
  - eexists. split; [reflexivity|]. split; [split; [reflexivity|by right]|done].
  - rewrite (inside_end' lo) by eauto 9 with scan. apply prolog_space_ok; [done|done|enough_fuel..].
Qed.

Lemma ignore_loop_ok fuel : forall fuel' level ptr,
  past lo ptr -> e - ptr < Z.of_nat fuel -> e' - ptr < Z.of_nat fuel' ->
  outcome lo (ignore_loop enc m e fuel level ptr) (ignore_loop enc m' e' fuel' level ptr).
Proof.
  induction fuel as [|fuel IH]; intros [|fuel'] level ptr Hp Hf Hf'; [enough_fuel..|]; cbn [ignore_loop].
  walk; try (apply IH; [eauto 9 with scan|enough_fuel..]).
  destruct (level =? 0); walk. apply IH; [eauto 9 with scan|enough_fuel..].
Qed.

(** The section starts at [ptr] itself. *)
Lemma ignore_from_ok ptr :
  inside lo ptr ->
  outcome lo (ignore_loop enc m e (fuel_at e ptr) 0 ptr) (ignore_loop enc m' e' (fuel_at e' ptr) 0 ptr).
Proof.
  intros Hp. unfold fuel_at. cbn [ignore_loop].
  walk; try (apply ignore_loop_ok; [eauto 9 with scan|enough_fuel..]).
  change (0 =? 0) with true. cbv iota. walk.
Qed.
End prolog.

End outcome.

(** ** The entry points *)

Section tokens.
Context (enc : ENCODING) `{!EncodingLaws enc}.

Lemma aligned_end_spec ptr end_ :
  ptr <= end_ ->
  ptr <= aligned_end enc ptr end_ <= end_ /\ end_ - aligned_end enc ptr end_ < MINBPC enc /\
  (aligned_end enc ptr end_ - ptr) mod MINBPC enc = 0.
Proof.
  intros Hle. unfold aligned_end. destruct law_minbpc as [E|E]; rewrite E; cbn [Z.gtb Z.compare Pos.compare Pos.compare_cont];
    [rewrite Z.mod_1_r; lia|]. rewrite <- Z.ldiff_land. change (2 - 1) with (Z.ones 1). rewrite Z.ldiff_ones_r by lia.
  rewrite Z.shiftl_mul_pow2, Z.shiftr_div_pow2 by lia. Z.div_mod_to_equations. lia.
Qed.

Lemma aligned_end_more ptr end_ k :
  ptr <= end_ -> 0 <= k ->
  aligned_end enc ptr end_ <= aligned_end enc ptr (end_ + k) /\
  (aligned_end enc ptr (end_ + k) - aligned_end enc ptr end_) mod MINBPC enc = 0.
Proof.
  intros Hle Hk. destruct (aligned_end_spec ptr end_ Hle) as (H1 & H2 & H3).
  destruct (aligned_end_spec ptr (end_ + k) ltac:(lia)) as (H4 & H5 & H6).
  destruct law_minbpc as [E|E]; rewrite E in *; Z.div_mod_to_equations; lia.
Qed.

Lemma same_bytes_app m k e : bytes m -> e <= zlen m -> same_bytes m (m ++ k) 0 e.
Proof.
  intros Hb He i Hi. destruct (rd_total m i) as (b & Hl & Hrd); [lia|]. exists b.
  split; [by eapply (proj1 (Forall_lookup _ _) Hb)|]. split; [done|].
  apply rd_lookup. split; [lia|]. by apply lookup_app_l_Some.
Qed.

(** Both runs of an entry point, with [e] and [e'] the aligned ends. *)
Lemma XmlTok_outcome st m k ptr :
  bytes m -> 0 <= ptr <= zlen m ->
  outcome enc (aligned_end enc ptr (zlen m)) ptr (XmlTok enc st m ptr (zlen m)) (XmlTok enc st (m ++ k) ptr (zlen m + zlen k)).
Proof.
  intros Hb Hp. pose proof (zlen_nonneg k) as Hk.
  destruct (aligned_end_spec ptr (zlen m) ltac:(lia)) as (He & _ & Ha).
  destruct (aligned_end_more ptr (zlen m) (zlen k) ltac:(lia) Hk) as [Hle Hal].
  pose proof (same_bytes_app m k _ Hb (proj2 He)) as Hs.
  set (e := aligned_end enc ptr (zlen m)) in *. set (e' := aligned_end enc ptr (zlen m + zlen k)) in *.
  assert (Hin : inside enc e ptr ptr) by (unfold inside; lia).
  assert (Hno : forall t r', tok_value t < 0 -> decided (Tok t) = false -> outcome enc e ptr (Ok (Tok t, None)) r').
  { intros t r' Ht Hd. exists (Tok t, None). split; [done|]. split; [by apply wf_none|]. cbn [fst]. by rewrite Hd. }
  assert (Htok : forall from, (ptr <> e -> outcome enc e ptr (from enc m e ptr) (from enc (m ++ k) e' ptr)) ->
    outcome enc e ptr (tokenizer from enc m ptr (zlen m)) (tokenizer from enc (m ++ k) ptr (zlen m + zlen k))).
  { intros from Hf. unfold tokenizer. destruct (Z.eqb_spec ptr (zlen m)); [by apply Hno|]. fold e e'.
    destruct (Z.eqb_spec e ptr); [by apply Hno|]. replace (ptr =? zlen m + zlen k) with false by (symmetry; lia).
    replace (e' =? ptr) with false by (symmetry; lia). by apply Hf. }
  destruct st; cbn [XmlTok].
  - apply Htok. intros Hne. by apply prolog_from_ok.
  - apply Htok. intros Hne. by apply content_from_ok.
  - apply Htok. intros Hne. by apply cdataSection_from_ok.
  - unfold ignoreSectionTok. fold e e'. by apply ignore_from_ok.
Qed.

(** No access outside the buffer, an end, and progress; stated for the encodings of
    the library in ExpatEnc.v. *)
Lemma tok_safe st m ptr :
  bytes m -> 0 <= ptr <= zlen m ->
  exists t next, XmlTok enc st m ptr (zlen m) = Ok (t, next) /\
    (0 < tok_int t -> exists p, next = Some p /\ ptr <= p <= zlen m /\ (t <> Tok XML_TOK_INSTANCE_START -> ptr < p)) /\
    (tok_int t = 0 -> exists p, next = Some p /\ ptr <= p < zlen m) /\
    (tok_int t < 0 -> forall p, next = Some p -> p <= zlen m).
Proof.
  intros Hb Hp. destruct (XmlTok_outcome st m [] ptr Hb Hp) as ([t next] & Hr & Hw & _).
  destruct (aligned_end_spec ptr (zlen m) ltac:(lia)) as (He & _ & _).
  exists t, next. split; [done|]. unfold wf_scan, inside in Hw. destruct t as [t|t]; cbn [tok_int].
  - destruct (Z.ltb_spec 0 (tok_value t)); [|destruct (Z.eqb_spec (tok_value t) 0)].
    + destruct Hw as (p & -> & Hin & Hlt). repeat split; try lia.
      intros _. exists p. split; [done|]. split; [lia|]. intros Ht. apply Hlt. congruence.
    + destruct Hw as (p & -> & Hin & Hne). repeat split; try lia. intros _. exists p. split; [done|]. lia.
    + subst next. repeat split; try lia. done.
  - destruct Hw as [Ht Hw]. repeat split; try lia. intros _ p ->. destruct Hw as [|[= ->]]; [done|lia].
Qed.

Lemma tok_more_input st m k ptr s :
  bytes m -> 0 <= ptr <= zlen m -> XmlTok enc st m ptr (zlen m) = Ok s -> decided (fst s) = true ->
  XmlTok enc st (m ++ k) ptr (zlen m + zlen k) = Ok s.
Proof.
  intros Hb Hp Hr Hd. destruct (XmlTok_outcome st m k ptr Hb Hp) as (s' & Hr' & _ & Hs).
  rewrite Hr in Hr'. simplify_eq. by apply Hs.
Qed.
End tokens.
