(* ===== verification/ExpatEnc.v ===== *)
(** * The encodings of [src/apr-util/xml/expat/lib/xmltok.c]

    The byte-type tables (asciitab.h, iasciitab.h, utf8tab.h, latin1tab.h), the
    naming tables (nametab.h), the validity tests of UTF-8 and the encodings built
    from them, as values of [ENCODING]; every one of them satisfies
    [EncodingLaws]. The declarations under [XML_MIN_SIZE] are not configured. *)

From S2P Require Import Prelude ExpatRole ExpatTok ExpatScan.

(** ** Tables *)

(** asciitab.h and iasciitab.h; they differ in the carriage return, and [colon] is
    [BT_COLON] with namespaces, [BT_NMSTRT] without. *)

Definition ascii_types (cr colon : BT) : list BT :=
  [BT_NONXML; BT_NONXML; BT_NONXML; BT_NONXML; BT_NONXML; BT_NONXML; BT_NONXML; BT_NONXML;
   BT_NONXML; BT_S; BT_LF; BT_NONXML; BT_NONXML; cr; BT_NONXML; BT_NONXML;
   BT_NONXML; BT_NONXML; BT_NONXML; BT_NONXML; BT_NONXML; BT_NONXML; BT_NONXML; BT_NONXML;
   BT_NONXML; BT_NONXML; BT_NONXML; BT_NONXML; BT_NONXML; BT_NONXML; BT_NONXML; BT_NONXML;
   BT_S; BT_EXCL; BT_QUOT; BT_NUM; BT_OTHER; BT_PERCNT; BT_AMP; BT_APOS;
   BT_LPAR; BT_RPAR; BT_AST; BT_PLUS; BT_COMMA; BT_MINUS; BT_NAME; BT_SOL;
   BT_DIGIT; BT_DIGIT; BT_DIGIT; BT_DIGIT; BT_DIGIT; BT_DIGIT; BT_DIGIT; BT_DIGIT;
   BT_DIGIT; BT_DIGIT; colon; BT_SEMI; BT_LT; BT_EQUALS; BT_GT; BT_QUEST;
   BT_OTHER; BT_HEX; BT_HEX; BT_HEX; BT_HEX; BT_HEX; BT_HEX; BT_NMSTRT;
   BT_NMSTRT; BT_NMSTRT; BT_NMSTRT; BT_NMSTRT; BT_NMSTRT; BT_NMSTRT; BT_NMSTRT; BT_NMSTRT;
   BT_NMSTRT; BT_NMSTRT; BT_NMSTRT; BT_NMSTRT; BT_NMSTRT; BT_NMSTRT; BT_NMSTRT; BT_NMSTRT;
   BT_NMSTRT; BT_NMSTRT; BT_NMSTRT; BT_LSQB; BT_OTHER; BT_RSQB; BT_OTHER; BT_NMSTRT;
   BT_OTHER; BT_HEX; BT_HEX; BT_HEX; BT_HEX; BT_HEX; BT_HEX; BT_NMSTRT;
   BT_NMSTRT; BT_NMSTRT; BT_NMSTRT; BT_NMSTRT; BT_NMSTRT; BT_NMSTRT; BT_NMSTRT; BT_NMSTRT;
   BT_NMSTRT; BT_NMSTRT; BT_NMSTRT; BT_NMSTRT; BT_NMSTRT; BT_NMSTRT; BT_NMSTRT; BT_NMSTRT;
   BT_NMSTRT; BT_NMSTRT; BT_NMSTRT; BT_OTHER; BT_VERBAR; BT_OTHER; BT_OTHER; BT_OTHER].

Definition asciitab := ascii_types BT_CR.
Definition iasciitab := ascii_types BT_S.

(** utf8tab.h and latin1tab.h, the upper half of the tables. *)

Definition utf8tab : list BT :=
  [BT_TRAIL; BT_TRAIL; BT_TRAIL; BT_TRAIL; BT_TRAIL; BT_TRAIL; BT_TRAIL; BT_TRAIL;
   BT_TRAIL; BT_TRAIL; BT_TRAIL; BT_TRAIL; BT_TRAIL; BT_TRAIL; BT_TRAIL; BT_TRAIL;
   BT_TRAIL; BT_TRAIL; BT_TRAIL; BT_TRAIL; BT_TRAIL; BT_TRAIL; BT_TRAIL; BT_TRAIL;
   BT_TRAIL; BT_TRAIL; BT_TRAIL; BT_TRAIL; BT_TRAIL; BT_TRAIL; BT_TRAIL; BT_TRAIL;
   BT_TRAIL; BT_TRAIL; BT_TRAIL; BT_TRAIL; BT_TRAIL; BT_TRAIL; BT_TRAIL; BT_TRAIL;
   BT_TRAIL; BT_TRAIL; BT_TRAIL; BT_TRAIL; BT_TRAIL; BT_TRAIL; BT_TRAIL; BT_TRAIL;
   BT_TRAIL; BT_TRAIL; BT_TRAIL; BT_TRAIL; BT_TRAIL; BT_TRAIL; BT_TRAIL; BT_TRAIL;
   BT_TRAIL; BT_TRAIL; BT_TRAIL; BT_TRAIL; BT_TRAIL; BT_TRAIL; BT_TRAIL; BT_TRAIL;
   BT_LEAD2; BT_LEAD2; BT_LEAD2; BT_LEAD2; BT_LEAD2; BT_LEAD2; BT_LEAD2; BT_LEAD2;
   BT_LEAD2; BT_LEAD2; BT_LEAD2; BT_LEAD2; BT_LEAD2; BT_LEAD2; BT_LEAD2; BT_LEAD2;
   BT_LEAD2; BT_LEAD2; BT_LEAD2; BT_LEAD2; BT_LEAD2; BT_LEAD2; BT_LEAD2; BT_LEAD2;
   BT_LEAD2; BT_LEAD2; BT_LEAD2; BT_LEAD2; BT_LEAD2; BT_LEAD2; BT_LEAD2; BT_LEAD2;
   BT_LEAD3; BT_LEAD3; BT_LEAD3; BT_LEAD3; BT_LEAD3; BT_LEAD3; BT_LEAD3; BT_LEAD3;
   BT_LEAD3; BT_LEAD3; BT_LEAD3; BT_LEAD3; BT_LEAD3; BT_LEAD3; BT_LEAD3; BT_LEAD3;
   BT_LEAD4; BT_LEAD4; BT_LEAD4; BT_LEAD4; BT_LEAD4; BT_NONXML; BT_NONXML; BT_NONXML;
   BT_NONXML; BT_NONXML; BT_NONXML; BT_NONXML; BT_NONXML; BT_NONXML; BT_MALFORM; BT_MALFORM].

Definition latin1tab : list BT :=
  [BT_OTHER; BT_OTHER; BT_OTHER; BT_OTHER; BT_OTHER; BT_OTHER; BT_OTHER; BT_OTHER;
   BT_OTHER; BT_OTHER; BT_OTHER; BT_OTHER; BT_OTHER; BT_OTHER; BT_OTHER; BT_OTHER;
   BT_OTHER; BT_OTHER; BT_OTHER; BT_OTHER; BT_OTHER; BT_OTHER; BT_OTHER; BT_OTHER;
   BT_OTHER; BT_OTHER; BT_OTHER; BT_OTHER; BT_OTHER; BT_OTHER; BT_OTHER; BT_OTHER;
   BT_OTHER; BT_OTHER; BT_OTHER; BT_OTHER; BT_OTHER; BT_OTHER; BT_OTHER; BT_OTHER;
   BT_OTHER; BT_OTHER; BT_NMSTRT; BT_OTHER; BT_OTHER; BT_OTHER; BT_OTHER; BT_OTHER;
   BT_OTHER; BT_OTHER; BT_OTHER; BT_OTHER; BT_OTHER; BT_NMSTRT; BT_OTHER; BT_NAME;
   BT_OTHER; BT_OTHER; BT_NMSTRT; BT_OTHER; BT_OTHER; BT_OTHER; BT_OTHER; BT_OTHER;
   BT_NMSTRT; BT_NMSTRT; BT_NMSTRT; BT_NMSTRT; BT_NMSTRT; BT_NMSTRT; BT_NMSTRT; BT_NMSTRT;
   BT_NMSTRT; BT_NMSTRT; BT_NMSTRT; BT_NMSTRT; BT_NMSTRT; BT_NMSTRT; BT_NMSTRT; BT_NMSTRT;
   BT_NMSTRT; BT_NMSTRT; BT_NMSTRT; BT_NMSTRT; BT_NMSTRT; BT_NMSTRT; BT_NMSTRT; BT_OTHER;
   BT_NMSTRT; BT_NMSTRT; BT_NMSTRT; BT_NMSTRT; BT_NMSTRT; BT_NMSTRT; BT_NMSTRT; BT_NMSTRT;
   BT_NMSTRT; BT_NMSTRT; BT_NMSTRT; BT_NMSTRT; BT_NMSTRT; BT_NMSTRT; BT_NMSTRT; BT_NMSTRT;
   BT_NMSTRT; BT_NMSTRT; BT_NMSTRT; BT_NMSTRT; BT_NMSTRT; BT_NMSTRT; BT_NMSTRT; BT_NMSTRT;
   BT_NMSTRT; BT_NMSTRT; BT_NMSTRT; BT_NMSTRT; BT_NMSTRT; BT_NMSTRT; BT_NMSTRT; BT_OTHER;
   BT_NMSTRT; BT_NMSTRT; BT_NMSTRT; BT_NMSTRT; BT_NMSTRT; BT_NMSTRT; BT_NMSTRT; BT_NMSTRT].

(** nametab.h. *)

Definition namingBitmap : list Z := Eval cbv in concat
  [[0x00000000; 0x00000000; 0x00000000; 0x00000000; 0x00000000; 0x00000000; 0x00000000; 0x00000000];
   [0xFFFFFFFF; 0xFFFFFFFF; 0xFFFFFFFF; 0xFFFFFFFF; 0xFFFFFFFF; 0xFFFFFFFF; 0xFFFFFFFF; 0xFFFFFFFF];
   [0x00000000; 0x04000000; 0x87FFFFFE; 0x07FFFFFE; 0x00000000; 0x00000000; 0xFF7FFFFF; 0xFF7FFFFF];
   [0xFFFFFFFF; 0x7FF3FFFF; 0xFFFFFDFE; 0x7FFFFFFF; 0xFFFFFFFF; 0xFFFFFFFF; 0xFFFFE00F; 0xFC31FFFF];
   [0x00FFFFFF; 0x00000000; 0xFFFF0000; 0xFFFFFFFF; 0xFFFFFFFF; 0xF80001FF; 0x00000003; 0x00000000];
   [0x00000000; 0x00000000; 0x00000000; 0x00000000; 0xFFFFD740; 0xFFFFFFFB; 0x547F7FFF; 0x000FFFFD];
   [0xFFFFDFFE; 0xFFFFFFFF; 0xDFFEFFFF; 0xFFFFFFFF; 0xFFFF0003; 0xFFFFFFFF; 0xFFFF199F; 0x033FCFFF];
   [0x00000000; 0xFFFE0000; 0x027FFFFF; 0xFFFFFFFE; 0x0000007F; 0x00000000; 0xFFFF0000; 0x000707FF];
   [0x00000000; 0x07FFFFFE; 0x000007FE; 0xFFFE0000; 0xFFFFFFFF; 0x7CFFFFFF; 0x002F7FFF; 0x00000060];
   [0xFFFFFFE0; 0x23FFFFFF; 0xFF000000; 0x00000003; 0xFFF99FE0; 0x03C5FDFF; 0xB0000000; 0x00030003];
   [0xFFF987E0; 0x036DFDFF; 0x5E000000; 0x001C0000; 0xFFFBAFE0; 0x23EDFDFF; 0x00000000; 0x00000001];
   [0xFFF99FE0; 0x23CDFDFF; 0xB0000000; 0x00000003; 0xD63DC7E0; 0x03BFC718; 0x00000000; 0x00000000];
   [0xFFFDDFE0; 0x03EFFDFF; 0x00000000; 0x00000003; 0xFFFDDFE0; 0x03EFFDFF; 0x40000000; 0x00000003];
   [0xFFFDDFE0; 0x03FFFDFF; 0x00000000; 0x00000003; 0x00000000; 0x00000000; 0x00000000; 0x00000000];
   [0xFFFFFFFE; 0x000D7FFF; 0x0000003F; 0x00000000; 0xFEF02596; 0x200D6CAE; 0x0000001F; 0x00000000];
   [0x00000000; 0x00000000; 0xFFFFFEFF; 0x000003FF; 0x00000000; 0x00000000; 0x00000000; 0x00000000];
   [0x00000000; 0x00000000; 0x00000000; 0x00000000; 0x00000000; 0xFFFFFFFF; 0xFFFF003F; 0x007FFFFF];
   [0x0007DAED; 0x50000000; 0x82315001; 0x002C62AB; 0x40000000; 0xF580C900; 0x00000007; 0x02010800];
   [0xFFFFFFFF; 0xFFFFFFFF; 0xFFFFFFFF; 0xFFFFFFFF; 0x0FFFFFFF; 0xFFFFFFFF; 0xFFFFFFFF; 0x03FFFFFF];
   [0x3F3FFFFF; 0xFFFFFFFF; 0xAAFF3F3F; 0x3FFFFFFF; 0xFFFFFFFF; 0x5FDFFFFF; 0x0FCF1FDC; 0x1FDC1FFF];
   [0x00000000; 0x00004C40; 0x00000000; 0x00000000; 0x00000007; 0x00000000; 0x00000000; 0x00000000];
   [0x00000080; 0x000003FE; 0xFFFFFFFE; 0xFFFFFFFF; 0x001FFFFF; 0xFFFFFFFE; 0xFFFFFFFF; 0x07FFFFFF];
   [0xFFFFFFE0; 0x00001FFF; 0x00000000; 0x00000000; 0x00000000; 0x00000000; 0x00000000; 0x00000000];
   [0xFFFFFFFF; 0xFFFFFFFF; 0xFFFFFFFF; 0xFFFFFFFF; 0xFFFFFFFF; 0x0000003F; 0x00000000; 0x00000000];
   [0xFFFFFFFF; 0xFFFFFFFF; 0xFFFFFFFF; 0xFFFFFFFF; 0xFFFFFFFF; 0x0000000F; 0x00000000; 0x00000000];
   [0x00000000; 0x07FF6000; 0x87FFFFFE; 0x07FFFFFE; 0x00000000; 0x00800000; 0xFF7FFFFF; 0xFF7FFFFF];
   [0x00FFFFFF; 0x00000000; 0xFFFF0000; 0xFFFFFFFF; 0xFFFFFFFF; 0xF80001FF; 0x00030003; 0x00000000];
   [0xFFFFFFFF; 0xFFFFFFFF; 0x0000003F; 0x00000003; 0xFFFFD7C0; 0xFFFFFFFB; 0x547F7FFF; 0x000FFFFD];
   [0xFFFFDFFE; 0xFFFFFFFF; 0xDFFEFFFF; 0xFFFFFFFF; 0xFFFF007B; 0xFFFFFFFF; 0xFFFF199F; 0x033FCFFF];
   [0x00000000; 0xFFFE0000; 0x027FFFFF; 0xFFFFFFFE; 0xFFFE007F; 0xBBFFFFFB; 0xFFFF0016; 0x000707FF];
   [0x00000000; 0x07FFFFFE; 0x0007FFFF; 0xFFFF03FF; 0xFFFFFFFF; 0x7CFFFFFF; 0xFFEF7FFF; 0x03FF3DFF];
   [0xFFFFFFEE; 0xF3FFFFFF; 0xFF1E3FFF; 0x0000FFCF; 0xFFF99FEE; 0xD3C5FDFF; 0xB080399F; 0x0003FFCF];
   [0xFFF987E4; 0xD36DFDFF; 0x5E003987; 0x001FFFC0; 0xFFFBAFEE; 0xF3EDFDFF; 0x00003BBF; 0x0000FFC1];
   [0xFFF99FEE; 0xF3CDFDFF; 0xB0C0398F; 0x0000FFC3; 0xD63DC7EC; 0xC3BFC718; 0x00803DC7; 0x0000FF80];
   [0xFFFDDFEE; 0xC3EFFDFF; 0x00603DDF; 0x0000FFC3; 0xFFFDDFEC; 0xC3EFFDFF; 0x40603DDF; 0x0000FFC3];
   [0xFFFDDFEC; 0xC3FFFDFF; 0x00803DCF; 0x0000FFC3; 0x00000000; 0x00000000; 0x00000000; 0x00000000];
   [0xFFFFFFFE; 0x07FF7FFF; 0x03FF7FFF; 0x00000000; 0xFEF02596; 0x3BFF6CAE; 0x03FF3F5F; 0x00000000];
   [0x03000000; 0xC2A003FF; 0xFFFFFEFF; 0xFFFE03FF; 0xFEBF0FDF; 0x02FE3FFF; 0x00000000; 0x00000000];
   [0x00000000; 0x00000000; 0x00000000; 0x00000000; 0x00000000; 0x00000000; 0x1FFF0000; 0x00000002];
   [0x000000A0; 0x003EFFFE; 0xFFFFFFFE; 0xFFFFFFFF; 0x661FFFFF; 0xFFFFFFFE; 0xFFFFFFFF; 0x77FFFFFF]].

Definition nmstrtPages : list Z := Eval cbv in concat
  [[0x02; 0x03; 0x04; 0x05; 0x06; 0x07; 0x08; 0x00];
   [0x00; 0x09; 0x0A; 0x0B; 0x0C; 0x0D; 0x0E; 0x0F];
   [0x10; 0x11; 0x00; 0x00; 0x00; 0x00; 0x00; 0x00];
   [0x00; 0x00; 0x00; 0x00; 0x00; 0x00; 0x12; 0x13];
   [0x00; 0x14; 0x00; 0x00; 0x00; 0x00; 0x00; 0x00];
   [0x00; 0x00; 0x00; 0x00; 0x00; 0x00; 0x00; 0x00];
   [0x15; 0x16; 0x00; 0x00; 0x00; 0x00; 0x00; 0x00];
   [0x00; 0x00; 0x00; 0x00; 0x00; 0x00; 0x00; 0x00];
   [0x00; 0x00; 0x00; 0x00; 0x00; 0x00; 0x00; 0x00];
   [0x00; 0x00; 0x00; 0x00; 0x00; 0x00; 0x01; 0x01];
   [0x01; 0x01; 0x01; 0x01; 0x01; 0x01; 0x01; 0x01];
   [0x01; 0x01; 0x01; 0x01; 0x01; 0x01; 0x01; 0x01];
   [0x01; 0x01; 0x01; 0x01; 0x01; 0x01; 0x01; 0x01];
   [0x01; 0x01; 0x01; 0x01; 0x01; 0x01; 0x01; 0x01];
   [0x01; 0x01; 0x01; 0x01; 0x01; 0x01; 0x01; 0x01];
   [0x01; 0x01; 0x01; 0x01; 0x01; 0x01; 0x01; 0x01];
   [0x01; 0x01; 0x01; 0x01; 0x01; 0x01; 0x01; 0x01];
   [0x01; 0x01; 0x01; 0x01; 0x01; 0x01; 0x01; 0x01];
   [0x01; 0x01; 0x01; 0x01; 0x01; 0x01; 0x01; 0x01];
   [0x01; 0x01; 0x01; 0x01; 0x01; 0x01; 0x01; 0x17];
   [0x00; 0x00; 0x00; 0x00; 0x00; 0x00; 0x00; 0x00];
   [0x00; 0x00; 0x00; 0x00; 0x01; 0x01; 0x01; 0x01];
   [0x01; 0x01; 0x01; 0x01; 0x01; 0x01; 0x01; 0x01];
   [0x01; 0x01; 0x01; 0x01; 0x01; 0x01; 0x01; 0x01];
   [0x01; 0x01; 0x01; 0x01; 0x01; 0x01; 0x01; 0x01];
   [0x01; 0x01; 0x01; 0x01; 0x01; 0x01; 0x01; 0x01];
   [0x01; 0x01; 0x01; 0x01; 0x01; 0x01; 0x01; 0x18];
   [0x00; 0x00; 0x00; 0x00; 0x00; 0x00; 0x00; 0x00];
   [0x00; 0x00; 0x00; 0x00; 0x00; 0x00; 0x00; 0x00];
   [0x00; 0x00; 0x00; 0x00; 0x00; 0x00; 0x00; 0x00];
   [0x00; 0x00; 0x00; 0x00; 0x00; 0x00; 0x00; 0x00];
   [0x00; 0x00; 0x00; 0x00; 0x00; 0x00; 0x00; 0x00]].

Definition namePages : list Z := Eval cbv in concat
  [[0x19; 0x03; 0x1A; 0x1B; 0x1C; 0x1D; 0x1E; 0x00];
   [0x00; 0x1F; 0x20; 0x21; 0x22; 0x23; 0x24; 0x25];
   [0x10; 0x11; 0x00; 0x00; 0x00; 0x00; 0x00; 0x00];
   [0x00; 0x00; 0x00; 0x00; 0x00; 0x00; 0x12; 0x13];
   [0x26; 0x14; 0x00; 0x00; 0x00; 0x00; 0x00; 0x00];
   [0x00; 0x00; 0x00; 0x00; 0x00; 0x00; 0x00; 0x00];
   [0x27; 0x16; 0x00; 0x00; 0x00; 0x00; 0x00; 0x00];
   [0x00; 0x00; 0x00; 0x00; 0x00; 0x00; 0x00; 0x00];
   [0x00; 0x00; 0x00; 0x00; 0x00; 0x00; 0x00; 0x00];
   [0x00; 0x00; 0x00; 0x00; 0x00; 0x00; 0x01; 0x01];
   [0x01; 0x01; 0x01; 0x01; 0x01; 0x01; 0x01; 0x01];
   [0x01; 0x01; 0x01; 0x01; 0x01; 0x01; 0x01; 0x01];
   [0x01; 0x01; 0x01; 0x01; 0x01; 0x01; 0x01; 0x01];
   [0x01; 0x01; 0x01; 0x01; 0x01; 0x01; 0x01; 0x01];
   [0x01; 0x01; 0x01; 0x01; 0x01; 0x01; 0x01; 0x01];
   [0x01; 0x01; 0x01; 0x01; 0x01; 0x01; 0x01; 0x01];
   [0x01; 0x01; 0x01; 0x01; 0x01; 0x01; 0x01; 0x01];
   [0x01; 0x01; 0x01; 0x01; 0x01; 0x01; 0x01; 0x01];
   [0x01; 0x01; 0x01; 0x01; 0x01; 0x01; 0x01; 0x01];
   [0x01; 0x01; 0x01; 0x01; 0x01; 0x01; 0x01; 0x17];
   [0x00; 0x00; 0x00; 0x00; 0x00; 0x00; 0x00; 0x00];
   [0x00; 0x00; 0x00; 0x00; 0x01; 0x01; 0x01; 0x01];
   [0x01; 0x01; 0x01; 0x01; 0x01; 0x01; 0x01; 0x01];
   [0x01; 0x01; 0x01; 0x01; 0x01; 0x01; 0x01; 0x01];
   [0x01; 0x01; 0x01; 0x01; 0x01; 0x01; 0x01; 0x01];
   [0x01; 0x01; 0x01; 0x01; 0x01; 0x01; 0x01; 0x01];
   [0x01; 0x01; 0x01; 0x01; 0x01; 0x01; 0x01; 0x18];
   [0x00; 0x00; 0x00; 0x00; 0x00; 0x00; 0x00; 0x00];
   [0x00; 0x00; 0x00; 0x00; 0x00; 0x00; 0x00; 0x00];
   [0x00; 0x00; 0x00; 0x00; 0x00; 0x00; 0x00; 0x00];
   [0x00; 0x00; 0x00; 0x00; 0x00; 0x00; 0x00; 0x00];
   [0x00; 0x00; 0x00; 0x00; 0x00; 0x00; 0x00; 0x00]].

(** ** Names *)

(** A bit of [namingBitmap], in the page [page] at the word [word]. *)
Definition naming_bit (pages : list Z) (page word bit : Z) : res bool :=
  do pg <- rd pages page;
  do w <- rd namingBitmap (Z.shiftl pg 3 + word);
  Ok (negb (Z.land w (Z.shiftl 1 (Z.land bit 0x1F)) =? 0)).

Definition UCS2_GET_NAMING (pages : list Z) (hi lo : Z) : res bool :=
  naming_bit pages hi (Z.shiftr lo 5) lo.

Definition UTF8_GET_NAMING2 (pages m : list Z) (p : Z) : res bool :=
  do b0 <- rd m p; do b1 <- rd m (p + 1);
  naming_bit pages (Z.land (Z.shiftr b0 2) 7)
    (Z.shiftl (Z.land b0 3) 1 + Z.land (Z.shiftr b1 5) 1) b1.

Definition UTF8_GET_NAMING3 (pages m : list Z) (p : Z) : res bool :=
  do b0 <- rd m p; do b1 <- rd m (p + 1); do b2 <- rd m (p + 2);
  naming_bit pages (Z.shiftl (Z.land b0 0xF) 4 + Z.land (Z.shiftr b1 2) 0xF)
    (Z.shiftl (Z.land b1 3) 1 + Z.land (Z.shiftr b2 5) 1) b2.

Definition isNever (m : list Z) (p : Z) : res bool := Ok false.

Definition utf8_isName (n : Z) : list Z -> Z -> res bool :=
  if n =? 2 then UTF8_GET_NAMING2 namePages else if n =? 3 then UTF8_GET_NAMING3 namePages else isNever.
Definition utf8_isNmstrt (n : Z) : list Z -> Z -> res bool :=
  if n =? 2 then UTF8_GET_NAMING2 nmstrtPages else if n =? 3 then UTF8_GET_NAMING3 nmstrtPages else isNever.

(** ** Validity of UTF-8 *)

(** [(A & 0x80) == 0] and [(A & 0xC0) == 0xC0]. *)
Definition below_80 (a : Z) : bool := Z.land a 0x80 =? 0.
Definition from_C0 (a : Z) : bool := Z.land a 0xC0 =? 0xC0.

Definition UTF8_INVALID2 (b0 b1 : Z) : bool := (b0 <? 0xC2) || below_80 b1 || from_C0 b1.

Definition UTF8_INVALID3 (b0 b1 b2 : Z) : bool :=
  below_80 b2
  || (if (b0 =? 0xEF) && (b1 =? 0xBF) then 0xBD <? b2 else from_C0 b2)
  || (if b0 =? 0xE0 then (b1 <? 0xA0) || from_C0 b1
      else below_80 b1 || (if b0 =? 0xED then 0x9F <? b1 else from_C0 b1)).

Definition UTF8_INVALID4 (b0 b1 b2 b3 : Z) : bool :=
  below_80 b3 || from_C0 b3 || below_80 b2 || from_C0 b2
  || (if b0 =? 0xF0 then (b1 <? 0x90) || from_C0 b1
      else below_80 b1 || (if b0 =? 0xF4 then 0x8F <? b1 else from_C0 b1)).

Definition utf8_isInvalid (n : Z) (m : list Z) (p : Z) : res bool :=
  do b0 <- rd m p; do b1 <- rd m (p + 1);
  if n =? 2 then Ok (UTF8_INVALID2 b0 b1) else
  do b2 <- rd m (p + 2);
  if n =? 3 then Ok (UTF8_INVALID3 b0 b1 b2) else
  do b3 <- rd m (p + 3); Ok (UTF8_INVALID4 b0 b1 b2 b3).

(** ** Encodings of one byte per ASCII character *)

Definition type_at (types : list BT) (c : Z) : res BT := of_option OutOfBounds (types !! Z.to_nat c).

(** A null pointer of the vtable is called. *)
Definition no_entry (n : Z) (m : list Z) (p : Z) : res bool := Err Uninitialised.

Definition sb_encoding (types : list BT) (name nmstrt invalid : Z -> list Z -> Z -> res bool) : ENCODING :=
  mk_encoding 1 (fun m p => do c <- rd m p; type_at types c) rd (fun c m p => do x <- rd m p; Ok (x =? c))
    name nmstrt invalid isNever isNever.

Definition utf8_types (ascii : list BT) : list BT := (ascii ++ utf8tab)%list.
Definition latin1_types (ascii : list BT) : list BT := (ascii ++ latin1tab)%list.
(** [BT_NONXML == 0]: the rest of the table is zero. *)
Definition ascii_only_types (ascii : list BT) : list BT := (ascii ++ replicate 128 BT_NONXML)%list.

Definition utf8_of (ascii : list BT) : ENCODING :=
  sb_encoding (utf8_types ascii) utf8_isName utf8_isNmstrt utf8_isInvalid.

Definition utf8_encoding_ns : ENCODING := utf8_of (asciitab BT_COLON).
Definition utf8_encoding : ENCODING := utf8_of (asciitab BT_NMSTRT).
Definition internal_utf8_encoding_ns : ENCODING := utf8_of (iasciitab BT_COLON).
Definition internal_utf8_encoding : ENCODING := utf8_of (iasciitab BT_NMSTRT).

Definition latin1_encoding_ns : ENCODING := sb_encoding (latin1_types (asciitab BT_COLON)) no_entry no_entry no_entry.
Definition latin1_encoding : ENCODING := sb_encoding (latin1_types (asciitab BT_NMSTRT)) no_entry no_entry no_entry.
Definition ascii_encoding_ns : ENCODING := sb_encoding (ascii_only_types (asciitab BT_COLON)) no_entry no_entry no_entry.
Definition ascii_encoding : ENCODING := sb_encoding (ascii_only_types (asciitab BT_NMSTRT)) no_entry no_entry no_entry.

(** ** UTF-16 *)

Definition unicode_byte_type (hi lo : Z) : BT :=
  if (0xD8 <=? hi) && (hi <=? 0xDB) then BT_LEAD4
  else if (0xDC <=? hi) && (hi <=? 0xDF) then BT_TRAIL
  else if (hi =? 0xFF) && ((lo =? 0xFF) || (lo =? 0xFE)) then BT_NONXML
  else BT_NONASCII.

(** [little] tells the order of the two bytes; [IS_NAME_CHAR] and its like are 0. *)
Definition get_lo (little : bool) (m : list Z) (p : Z) : res Z := rd m (if little then p else p + 1).
Definition get_hi (little : bool) (m : list Z) (p : Z) : res Z := rd m (if little then p + 1 else p).

Definition utf16_byte_type (little : bool) (types : list BT) (m : list Z) (p : Z) : res BT :=
  do hi <- get_hi little m p; do lo <- get_lo little m p;
  if hi =? 0 then type_at types lo else Ok (unicode_byte_type hi lo).

Definition utf16_encoding (little : bool) (ascii : list BT) : ENCODING :=
  mk_encoding 2 (utf16_byte_type little (latin1_types ascii))
    (fun m p => do hi <- get_hi little m p; do lo <- get_lo little m p; Ok (if hi =? 0 then lo else -1))
    (fun c m p => do hi <- get_hi little m p; do lo <- get_lo little m p; Ok ((hi =? 0) && (lo =? c)))
    (fun n => isNever) (fun n => isNever) (fun n => isNever)
    (fun m p => do hi <- get_hi little m p; do lo <- get_lo little m p; UCS2_GET_NAMING namePages hi lo)
    (fun m p => do hi <- get_hi little m p; do lo <- get_lo little m p; UCS2_GET_NAMING nmstrtPages hi lo).

Definition little2_encoding_ns : ENCODING := utf16_encoding true (asciitab BT_COLON).
Definition little2_encoding : ENCODING := utf16_encoding true (asciitab BT_NMSTRT).
Definition internal_little2_encoding_ns : ENCODING := utf16_encoding true (iasciitab BT_COLON).
Definition internal_little2_encoding : ENCODING := utf16_encoding true (iasciitab BT_NMSTRT).
Definition big2_encoding_ns : ENCODING := utf16_encoding false (asciitab BT_COLON).
Definition big2_encoding : ENCODING := utf16_encoding false (asciitab BT_NMSTRT).

(** ** The laws *)

(** The bytes a local operation looks at. *)
Ltac byte_at H q b :=
  let Hb := fresh "H" b in let E := fresh "E" b in let E' := fresh "E" b in
  destruct (H q) as (b & Hb & E & E'); [lia|]; rewrite E, E'; cbn [rbind].

Lemma naming_bit_total pages page word bit :
  forallb (fun x => (0 <=? x) && (x <? 40)) pages = true -> zlen pages = 256 -> 0 <= page < 256 -> 0 <= word < 8 ->
  exists b, naming_bit pages page word bit = Ok b.
Proof.
  intros Hp Hl Hpg Hw. unfold naming_bit. destruct (rd_total pages page) as (pg & Hlk & ->); [lia|]. cbn [rbind].
  assert (0 <= pg < 40).
  { rewrite forallb_forall in Hp. apply list_elem_of_lookup_2, list_elem_of_In, Hp in Hlk. bool_to_prop. lia. }
  rewrite Z.shiftl_mul_pow2 by lia.
  destruct (rd_total namingBitmap (pg * 2 ^ 3 + word)) as (w & _ & ->); [change (zlen namingBitmap) with 320; lia|].
  cbn [rbind]. by eexists.
Qed.

Definition naming_pages (pages : list Z) : Prop :=
  forallb (fun x => (0 <=? x) && (x <? 40)) pages = true /\ zlen pages = 256.

Lemma nmstrtPages_ok : naming_pages nmstrtPages.
Proof. split; reflexivity. Qed.

Lemma namePages_ok : naming_pages namePages.
Proof. split; reflexivity. Qed.

Lemma land_range a k : 0 <= k -> 0 <= Z.land a (Z.ones k) < 2 ^ k.
Proof. intros Hk. rewrite Z.land_ones by lia. apply Z.mod_pos_bound. lia. Qed.

Lemma naming_ucs2 pages hi lo :
  naming_pages pages -> is_byte hi -> is_byte lo -> exists b, UCS2_GET_NAMING pages hi lo = Ok b.
Proof.
  intros [Hp Hl] Hhi Hlo. unfold is_byte in *. apply naming_bit_total; [done|done|lia|].
  rewrite Z.shiftr_div_pow2 by lia. change (2 ^ 5) with 32. Z.div_mod_to_equations. lia.
Qed.

Lemma naming2_local pages : naming_pages pages -> local_op 2 (UTF8_GET_NAMING2 pages).
Proof.
  intros [Hp Hl] m m' p H. unfold UTF8_GET_NAMING2. byte_at H p b0. byte_at H (p + 1) b1.
  destruct (naming_bit_total pages (Z.land (Z.shiftr b0 2) 7)
    (Z.shiftl (Z.land b0 3) 1 + Z.land (Z.shiftr b1 5) 1) b1) as [b Hb]; [done|done|..|by exists b].
  - pose proof (land_range (Z.shiftr b0 2) 3). change (Z.ones 3) with 7 in *. lia.
  - pose proof (land_range b0 2). pose proof (land_range (Z.shiftr b1 5) 1). change (Z.ones 2) with 3 in *.
    change (Z.ones 1) with 1 in *. rewrite Z.shiftl_mul_pow2 by lia. lia.
Qed.

Lemma naming3_local pages : naming_pages pages -> local_op 3 (UTF8_GET_NAMING3 pages).
Proof.
  intros [Hp Hl] m m' p H. unfold UTF8_GET_NAMING3. byte_at H p b0. byte_at H (p + 1) b1. byte_at H (p + 2) b2.
  destruct (naming_bit_total pages (Z.shiftl (Z.land b0 0xF) 4 + Z.land (Z.shiftr b1 2) 0xF)
    (Z.shiftl (Z.land b1 3) 1 + Z.land (Z.shiftr b2 5) 1) b2) as [b Hb]; [done|done|..|by exists b].
  - pose proof (land_range b0 4). pose proof (land_range (Z.shiftr b1 2) 4). change (Z.ones 4) with 0xF in *.
    rewrite Z.shiftl_mul_pow2 by lia. lia.
  - pose proof (land_range b1 2). pose proof (land_range (Z.shiftr b2 5) 1). change (Z.ones 2) with 3 in *.
    change (Z.ones 1) with 1 in *. rewrite Z.shiftl_mul_pow2 by lia. lia.
Qed.

Lemma isNever_local n : local_op n isNever.
Proof. intros m m' p H. by exists false. Qed.

Lemma utf8_isInvalid_local n : 2 <= n <= 4 -> local_op n (utf8_isInvalid n).
Proof.
  intros Hn m m' p H. unfold utf8_isInvalid. byte_at H p b0. byte_at H (p + 1) b1.
  destruct (Z.eqb_spec n 2); [by eexists|]. byte_at H (p + 2) b2.
  destruct (Z.eqb_spec n 3); [by eexists|]. byte_at H (p + 3) b3. by eexists.
Qed.

Lemma utf8_naming_local pages n :
  naming_pages pages -> 2 <= n <= 4 ->
  local_op n (if n =? 2 then UTF8_GET_NAMING2 pages else if n =? 3 then UTF8_GET_NAMING3 pages else isNever).
Proof.
  intros Hp Hn. destruct (Z.eqb_spec n 2) as [-> |]; [by apply naming2_local|].
  destruct (Z.eqb_spec n 3) as [-> |]; [by apply naming3_local|apply isNever_local].
Qed.

Lemma type_at_total types c : length types = 256%nat -> is_byte c -> exists t, type_at types c = Ok t.
Proof.
  intros Hl Hc. unfold type_at, is_byte in *. destruct (lookup_lt_is_Some_2 types (Z.to_nat c)) as [t ->]; [lia|].
  by exists t.
Qed.

Lemma sb_laws types name nmstrt invalid :
  length types = 256%nat ->
  (forall t n, t ∈ types -> lead t = Some n -> local_op n (name n) /\ local_op n (nmstrt n) /\ local_op n (invalid n)) ->
  EncodingLaws (sb_encoding types name nmstrt invalid).
Proof.
  intros Hl Hlead.
  assert (Ht : forall m p t, BYTE_TYPE (sb_encoding types name nmstrt invalid) m p = Ok t -> t ∈ types).
  { intros m p t. cbn. destruct (rd m p) as [c|]; cbn [rbind]; [|done]. unfold type_at.
    destruct (types !! Z.to_nat c) eqn:E; cbn; [|done]. intros [= <-]. by eapply list_elem_of_lookup_2. }
  split; cbn [MINBPC BYTE_TO_ASCII CHAR_MATCHES IS_NAME_CHAR_MINBPC IS_NMSTRT_CHAR_MINBPC sb_encoding].
  - by left.
  - intros m m' p H. cbn. byte_at H p c. destruct (type_at_total types c Hl Hc) as [t Et]. by exists t.
  - intros m m' p H. byte_at H p c. by exists c.
  - intros x m m' p H. byte_at H p c. by eexists.
  - intros m p t n E Hn. by apply (Hlead t n (Ht _ _ _ E) Hn).
  - intros m p t n E Hn. by apply (Hlead t n (Ht _ _ _ E) Hn).
  - intros m p t n E Hn. by apply (Hlead t n (Ht _ _ _ E) Hn).
  - apply isNever_local.
  - apply isNever_local.
  - intros. apply Z.mod_1_r.
Qed.

Lemma utf8_laws cr colon : EncodingLaws (utf8_of (ascii_types cr colon)).
Proof.
  apply sb_laws; [reflexivity|]. intros t n _ Hn. apply lead_range in Hn.
  split; [by apply utf8_naming_local, Hn; apply namePages_ok|].
  split; [by apply utf8_naming_local, Hn; apply nmstrtPages_ok|by apply utf8_isInvalid_local].
Qed.

(** Tables without multi-byte characters never call the missing entries. *)
Lemma no_lead_laws types name nmstrt invalid :
  length types = 256%nat -> forallb (fun t => bool_decide (lead t = None)) types = true ->
  EncodingLaws (sb_encoding types name nmstrt invalid).
Proof.
  intros Hl Hno. apply sb_laws; [done|]. intros t n Ht Hn. rewrite forallb_forall in Hno.
  apply list_elem_of_In, Hno in Ht. apply bool_decide_eq_true in Ht. congruence.
Qed.

Lemma unicode_byte_type_lead hi lo n : lead (unicode_byte_type hi lo) = Some n -> n = 4.
Proof. unfold unicode_byte_type. repeat case_match; cbn; congruence. Qed.

Lemma utf16_laws little ascii :
  length ascii = 128%nat -> forallb (fun t => bool_decide (lead t = None)) (latin1_types ascii) = true ->
  EncodingLaws (utf16_encoding little ascii).
Proof.
  intros Hl Hno.
  assert (Hlen : length (latin1_types ascii) = 256%nat) by (unfold latin1_types; rewrite length_app, Hl; done).
  assert (Htwo : forall A (f : Z -> Z -> res A), (forall hi lo, is_byte hi -> is_byte lo -> exists a, f hi lo = Ok a) ->
    local_op 2 (fun m p => do hi <- get_hi little m p; do lo <- get_lo little m p; f hi lo)).
  { intros A f Hf m m' p H. unfold get_hi, get_lo. destruct little; [byte_at H (p + 1) x; byte_at H p y|byte_at H p x; byte_at H (p + 1) y];
      (destruct (Hf x y) as [a ->]; [done|done|by exists a]). }
  split; cbn [MINBPC BYTE_TO_ASCII CHAR_MATCHES IS_NAME_CHAR IS_NMSTRT_CHAR IS_INVALID_CHAR IS_NAME_CHAR_MINBPC IS_NMSTRT_CHAR_MINBPC utf16_encoding].
  - by right.
  - apply (Htwo _ (fun hi lo => if hi =? 0 then type_at (latin1_types ascii) lo else Ok (unicode_byte_type hi lo))).
    intros hi lo Hhi Hlo. destruct (hi =? 0); [by apply type_at_total|by eexists].
  - apply (Htwo _ (fun hi lo => Ok (if hi =? 0 then lo else -1))). by eexists.
  - intros c. apply (Htwo _ (fun hi lo => Ok ((hi =? 0) && (lo =? c)))). by eexists.
  - intros; apply isNever_local.
  - intros; apply isNever_local.
  - intros; apply isNever_local.
  - apply (Htwo _ (UCS2_GET_NAMING namePages)). intros. by apply naming_ucs2; [apply namePages_ok|..].
  - apply (Htwo _ (UCS2_GET_NAMING nmstrtPages)). intros. by apply naming_ucs2; [apply nmstrtPages_ok|..].
  - intros m p t n. cbn. unfold utf16_byte_type. destruct (get_hi little m p) as [hi|]; cbn [rbind]; [|done].
    destruct (get_lo little m p) as [lo|]; cbn [rbind]; [|done]. destruct (hi =? 0).
    + unfold type_at. destruct (latin1_types ascii !! Z.to_nat lo) eqn:E; cbn; [|done]. intros [= <-] Hn.
      rewrite forallb_forall in Hno. apply list_elem_of_lookup_2, list_elem_of_In, Hno, bool_decide_eq_true in E. congruence.
    + intros [= <-] Hn. apply unicode_byte_type_lead in Hn as ->. reflexivity.
Qed.

(** The encodings of the library. *)
Definition encodings : list ENCODING :=
  [utf8_encoding; utf8_encoding_ns; internal_utf8_encoding; internal_utf8_encoding_ns;
   latin1_encoding; latin1_encoding_ns; ascii_encoding; ascii_encoding_ns;
   little2_encoding; little2_encoding_ns; internal_little2_encoding; internal_little2_encoding_ns;
   big2_encoding; big2_encoding_ns].

Lemma latin1_laws cr colon :
  lead cr = None -> lead colon = None -> EncodingLaws (sb_encoding (latin1_types (ascii_types cr colon)) no_entry no_entry no_entry).
Proof. intros Hr Hc. apply no_lead_laws; [done|]. destruct cr, colon; try discriminate; vm_compute; reflexivity. Qed.

Lemma ascii_laws cr colon :
  lead cr = None -> lead colon = None -> EncodingLaws (sb_encoding (ascii_only_types (ascii_types cr colon)) no_entry no_entry no_entry).
Proof. intros Hr Hc. apply no_lead_laws; [done|]. destruct cr, colon; try discriminate; vm_compute; reflexivity. Qed.

Lemma utf16_ascii_laws little cr colon :
  lead cr = None -> lead colon = None -> EncodingLaws (utf16_encoding little (ascii_types cr colon)).
Proof. intros Hr Hc. apply utf16_laws; [done|]. destruct cr, colon; try discriminate; vm_compute; reflexivity. Qed.

Lemma encodings_laws : Forall EncodingLaws encodings.
Proof.
  apply Forall_forall. intros enc Henc. unfold encodings in Henc.
  repeat (apply elem_of_cons in Henc as [-> |Henc]); [exact (utf8_laws BT_CR BT_NMSTRT)|exact (utf8_laws BT_CR BT_COLON)|
    exact (utf8_laws BT_S BT_NMSTRT)|exact (utf8_laws BT_S BT_COLON)|
    exact (latin1_laws BT_CR BT_NMSTRT eq_refl eq_refl)|exact (latin1_laws BT_CR BT_COLON eq_refl eq_refl)|
    exact (ascii_laws BT_CR BT_NMSTRT eq_refl eq_refl)|exact (ascii_laws BT_CR BT_COLON eq_refl eq_refl)|
    exact (utf16_ascii_laws true BT_CR BT_NMSTRT eq_refl eq_refl)|exact (utf16_ascii_laws true BT_CR BT_COLON eq_refl eq_refl)|
    exact (utf16_ascii_laws true BT_S BT_NMSTRT eq_refl eq_refl)|exact (utf16_ascii_laws true BT_S BT_COLON eq_refl eq_refl)|
    exact (utf16_ascii_laws false BT_CR BT_NMSTRT eq_refl eq_refl)|exact (utf16_ascii_laws false BT_CR BT_COLON eq_refl eq_refl)|].
  by apply not_elem_of_nil in Henc.
Qed.

(** ** The scanners in the encodings of the library *)

(** C22: The scanners are safe, end, and make progress: in a buffer that ends
    right after its last byte, each of the four scanners returns (no access past
    the end, no loop that does not end); a token ends inside the buffer and past
    its start (only [XML_TOK_INSTANCE_START] points back at its [<]), an invalid
    token points at a character of the buffer, and a negative result writes
    nothing past the end. *)
Theorem xmltok_safe enc st m ptr :
  enc ∈ encodings -> bytes m -> 0 <= ptr <= zlen m ->
  exists t next, XmlTok enc st m ptr (zlen m) = Ok (t, next) /\
    (0 < tok_int t -> exists p, next = Some p /\ ptr <= p <= zlen m /\ (t <> Tok XML_TOK_INSTANCE_START -> ptr < p)) /\
    (tok_int t = 0 -> exists p, next = Some p /\ ptr <= p < zlen m) /\
    (tok_int t < 0 -> forall p, next = Some p -> p <= zlen m).
Proof.
  intros He. pose proof (proj1 (Forall_forall _ _) encodings_laws _ He) as Hl. by apply tok_safe.
Qed.

(** C23: More input does not change a token: when a scanner has returned a token
    that does not depend on the end of the buffer (not partial, not a run of
    character data or white space that reaches the end, not one of the negated
    tokens), the same scan of the buffer with any bytes appended returns the same
    token and the same end of it, so a document may be handed over in any pieces. *)
Theorem xmltok_more_input enc st m k ptr s :
  enc ∈ encodings -> bytes m -> 0 <= ptr <= zlen m ->
  XmlTok enc st m ptr (zlen m) = Ok s -> decided (fst s) = true ->
  XmlTok enc st (m ++ k) ptr (zlen m + zlen k) = Ok s.
Proof.
  intros He. pose proof (proj1 (Forall_forall _ _) encodings_laws _ He) as Hl. by apply tok_more_input.
Qed.

(** ** Witnesses *)

(** A start tag in UTF-8, and the character data after it. *)
Definition sample : list Z := str "<p:a b='1&#65;' c = '&lt;'>text".

Lemma xmltok_safe_witness :
  exists t next, XmlTok utf8_encoding_ns XML_CONTENT_STATE sample 0 (zlen sample) = Ok (t, next) /\
    (0 < tok_int t -> exists p, next = Some p /\ 0 <= p <= zlen sample /\ (t <> Tok XML_TOK_INSTANCE_START -> 0 < p)).
Proof.
  destruct (xmltok_safe utf8_encoding_ns XML_CONTENT_STATE sample 0) as (t & next & H & Hp & _).
  - apply list_elem_of_lookup_2 with 1%nat. reflexivity.
  - conc.
  - conc.
  - by exists t, next.
Defined.

Lemma xmltok_more_input_witness :
  XmlTok utf8_encoding_ns XML_CONTENT_STATE (sample ++ str "</p:a>") 0 (zlen sample + zlen (str "</p:a>")) =
    Ok (Tok XML_TOK_START_TAG_WITH_ATTS, Some 27).
Proof.
  apply (xmltok_more_input utf8_encoding_ns XML_CONTENT_STATE sample (str "</p:a>") 0).
  - apply list_elem_of_lookup_2 with 1%nat. reflexivity.
  - conc.
  - conc.
  - vm_compute. reflexivity.
  - reflexivity.
Defined.
