(* ===== verification/ExpatUtf.v ===== *)
(** * Character conversion: [src/apr-util/xml/expat/lib/xmltok.c]

    The converters between the document's encoding and the UTF-8 or UTF-16 the
    parser hands out. A converter reads from [from] to [fromLim] in the input
    [m], writes from [to] to [toLim] in the output, and returns both pointers and
    the output; an access outside the buffers is an error. *)

From S2P Require Import Prelude ExpatRole ExpatTok ExpatScan ExpatEnc.

(** ** Encoding one character *)

Definition UTF8_cval2 : Z := 0xc0.
Definition UTF8_cval3 : Z := 0xe0.
Definition UTF8_cval4 : Z := 0xf0.

(** [XmlUtf8Encode(c, buf)]: the bytes it stores; it returns their number. *)
Definition XmlUtf8Encode (c : Z) : list Z :=
  if c <? 0 then []
  else if c <? 0x80 then [u8 c]
  else if c <? 0x800 then [u8 (Z.lor (Z.shiftr c 6) UTF8_cval2); u8 (Z.lor (Z.land c 0x3f) 0x80)]
  else if c <? 0x10000 then
    [u8 (Z.lor (Z.shiftr c 12) UTF8_cval3); u8 (Z.lor (Z.land (Z.shiftr c 6) 0x3f) 0x80);
     u8 (Z.lor (Z.land c 0x3f) 0x80)]
  else if c <? 0x110000 then
    [u8 (Z.lor (Z.shiftr c 18) UTF8_cval4); u8 (Z.lor (Z.land (Z.shiftr c 12) 0x3f) 0x80);
     u8 (Z.lor (Z.land (Z.shiftr c 6) 0x3f) 0x80); u8 (Z.lor (Z.land c 0x3f) 0x80)]
  else [].

Definition XmlUtf16Encode (c : Z) : list Z :=
  if c <? 0 then []
  else if c <? 0x10000 then [u16 c]
  else if c <? 0x110000 then
    let c := c - 0x10000 in [u16 (Z.shiftr c 10 + 0xD800); u16 (Z.land c 0x3FF + 0xDC00)]
  else [].

(** [checkCharRefNumber(result)]. *)
Definition checkCharRefNumber (result : Z) : res Z :=
  let hi := Z.shiftr result 8 in
  if (0xD8 <=? hi) && (hi <=? 0xDF) then Ok (-1)
  else if hi =? 0 then
    do t <- type_at (latin1_types (asciitab BT_NMSTRT)) result;
    Ok (if bool_decide (t = BT_NONXML) then -1 else result)
  else if hi =? 0xFF then Ok (if (result =? 0xFFFE) || (result =? 0xFFFF) then -1 else result)
  else Ok result.

(** ** The converters *)

(** An input position, the output and the position in it. *)
Definition conv : Type := Z * list Z * Z.

(** [*to++ = v] on an array of [unsigned short]. *)
Definition put_short (out : list Z) (to v : Z) : res (list Z * Z) :=
  do out <- store out to (u16 v); Ok (out, to + 1).

Section converters.
Context (m : list Z).

Fixpoint utf8_toUtf16 (fuel : nat) (types : list BT) (from fromLim : Z) (out : list Z) (to toLim : Z) : res conv :=
  match fuel with
  | O => Err OutOfFuel
  | S fuel =>
      if (from =? fromLim) || (to =? toLim) then Ok (from, out, to) else
      do b0 <- rd m from;
      do t <- type_at types b0;
      match t with
      | BT_LEAD2 =>
          do b1 <- rd m (from + 1);
          do (out, to) <- put_short out to (Z.lor (Z.shiftl (Z.land b0 0x1f) 6) (Z.land b1 0x3f));
          utf8_toUtf16 fuel types (from + 2) fromLim out to toLim
      | BT_LEAD3 =>
          do b1 <- rd m (from + 1); do b2 <- rd m (from + 2);
          do (out, to) <- put_short out to
            (Z.lor (Z.lor (Z.shiftl (Z.land b0 0xf) 12) (Z.shiftl (Z.land b1 0x3f) 6)) (Z.land b2 0x3f));
          utf8_toUtf16 fuel types (from + 3) fromLim out to toLim
      | BT_LEAD4 =>
          if to + 1 =? toLim then Ok (from, out, to) else
          do b1 <- rd m (from + 1); do b2 <- rd m (from + 2); do b3 <- rd m (from + 3);
          let n := Z.lor (Z.lor (Z.lor (Z.shiftl (Z.land b0 0x7) 18) (Z.shiftl (Z.land b1 0x3f) 12))
                           (Z.shiftl (Z.land b2 0x3f) 6)) (Z.land b3 0x3f) - 0x10000 in
          do (out, to) <- put_short out to (Z.lor (Z.shiftr n 10) 0xD800);
          do (out, to) <- put_short out to (Z.lor (Z.land n 0x3FF) 0xDC00);
          utf8_toUtf16 fuel types (from + 4) fromLim out to toLim
      | _ =>
          do (out, to) <- put_short out to (schar b0);
          utf8_toUtf16 fuel types (from + 1) fromLim out to toLim
      end
  end.

(** [DEFINE_UTF16_TO_UTF8]. *)
Fixpoint utf16_toUtf8 (fuel : nat) (little : bool) (from fromLim : Z) (out : list Z) (to toLim : Z) : res conv :=
  match fuel with
  | O => Err OutOfFuel
  | S fuel =>
      if from =? fromLim then Ok (from, out, to) else
      do lo <- get_lo little m from;
      do hi <- get_hi little m from;
      if (hi =? 0) && (lo <? 0x80) then
        if to =? toLim then Ok (from, out, to) else
        do (out, to) <- emit out to lo;
        utf16_toUtf8 fuel little (from + 2) fromLim out to toLim
      else if hi <? 0x8 then
        if toLim - to <? 2 then Ok (from, out, to) else
        do (out, to) <- emit out to (Z.lor (Z.lor (Z.shiftr lo 6) (Z.shiftl hi 2)) UTF8_cval2);
        do (out, to) <- emit out to (Z.lor (Z.land lo 0x3f) 0x80);
        utf16_toUtf8 fuel little (from + 2) fromLim out to toLim
      else if (0xD8 <=? hi) && (hi <=? 0xDB) then
        if toLim - to <? 4 then Ok (from, out, to) else
        let plane := Z.lor (Z.shiftl (Z.land hi 0x3) 2) (Z.land (Z.shiftr lo 6) 0x3) + 1 in
        do (out, to) <- emit out to (Z.lor (Z.shiftr plane 2) UTF8_cval4);
        do (out, to) <- emit out to (Z.lor (Z.lor (Z.land (Z.shiftr lo 2) 0xF) (Z.shiftl (Z.land plane 0x3) 4)) 0x80);
        let from := from + 2 in
        do lo2 <- get_lo little m from;
        do hi2 <- get_hi little m from;
        do (out, to) <- emit out to
          (Z.lor (Z.lor (Z.lor (Z.shiftl (Z.land lo 0x3) 4) (Z.shiftl (Z.land hi2 0x3) 2)) (Z.shiftr lo2 6)) 0x80);
        do (out, to) <- emit out to (Z.lor (Z.land lo2 0x3f) 0x80);
        utf16_toUtf8 fuel little (from + 2) fromLim out to toLim
      else
        if toLim - to <? 3 then Ok (from, out, to) else
        do (out, to) <- emit out to (Z.lor (Z.shiftr hi 4) UTF8_cval3);
        do (out, to) <- emit out to (Z.lor (Z.lor (Z.shiftl (Z.land hi 0xf) 2) (Z.shiftr lo 6)) 0x80);
        do (out, to) <- emit out to (Z.lor (Z.land lo 0x3f) 0x80);
        utf16_toUtf8 fuel little (from + 2) fromLim out to toLim
  end.

(** [DEFINE_UTF16_TO_UTF16], after the limit has been moved. *)
Fixpoint utf16_copy (fuel : nat) (little : bool) (from fromLim : Z) (out : list Z) (to toLim : Z) : res conv :=
  match fuel with
  | O => Err OutOfFuel
  | S fuel =>
      if (from =? fromLim) || (to =? toLim) then Ok (from, out, to) else
      do hi <- get_hi little m from; do lo <- get_lo little m from;
      do (out, to) <- put_short out to (Z.lor (Z.shiftl hi 8) lo);
      utf16_copy fuel little (from + 2) fromLim out to toLim
  end.

Definition utf16_toUtf16 (fuel : nat) (little : bool) (from fromLim : Z) (out : list Z) (to toLim : Z) : res conv :=
  do fromLim <-
    (if Z.shiftl (toLim - to) 1 <? fromLim - from then
       do hi <- get_hi little m (fromLim - 2);
       Ok (if Z.land hi 0xF8 =? 0xD8 then fromLim - 2 else fromLim)
     else Ok fromLim);
  utf16_copy fuel little from fromLim out to toLim.

(** The limit of [utf8_toUtf8] when the output is short: moved back until the byte
    before it is no continuation byte. *)
Fixpoint utf8_limit (fuel : nat) (from fromLim : Z) : res Z :=
  match fuel with
  | O => Err OutOfFuel
  | S fuel =>
      if from <? fromLim then
        do b <- rd m (fromLim - 1);
        if negb (Z.land b 0xc0 =? 0x80) then Ok fromLim else utf8_limit fuel from (fromLim - 1)
      else Ok fromLim
  end.

Fixpoint utf8_copy (fuel : nat) (from fromLim : Z) (out : list Z) (to : Z) : res conv :=
  match fuel with
  | O => Err OutOfFuel
  | S fuel =>
      if from =? fromLim then Ok (from, out, to) else
      do b <- rd m from;
      do (out, to) <- emit out to b;
      utf8_copy fuel (from + 1) fromLim out to
  end.

Definition utf8_toUtf8 (fuel : nat) (from fromLim : Z) (out : list Z) (to toLim : Z) : res conv :=
  do fromLim <- (if toLim - to <? fromLim - from then utf8_limit fuel from (from + (toLim - to)) else Ok fromLim);
  utf8_copy fuel from fromLim out to.

Fixpoint latin1_toUtf8 (fuel : nat) (from fromLim : Z) (out : list Z) (to toLim : Z) : res conv :=
  match fuel with
  | O => Err OutOfFuel
  | S fuel =>
      if from =? fromLim then Ok (from, out, to) else
      do c <- rd m from;
      if negb (Z.land c 0x80 =? 0) then
        if toLim - to <? 2 then Ok (from, out, to) else
        do (out, to) <- emit out to (Z.lor (Z.shiftr c 6) UTF8_cval2);
        do (out, to) <- emit out to (Z.lor (Z.land c 0x3f) 0x80);
        latin1_toUtf8 fuel (from + 1) fromLim out to toLim
      else
        if to =? toLim then Ok (from, out, to) else
        do (out, to) <- emit out to c;
        latin1_toUtf8 fuel (from + 1) fromLim out to toLim
  end.

Fixpoint latin1_toUtf16 (fuel : nat) (from fromLim : Z) (out : list Z) (to toLim : Z) : res conv :=
  match fuel with
  | O => Err OutOfFuel
  | S fuel =>
      if (from =? fromLim) || (to =? toLim) then Ok (from, out, to) else
      do c <- rd m from;
      do (out, to) <- put_short out to c;
      latin1_toUtf16 fuel (from + 1) fromLim out to toLim
  end.

Fixpoint ascii_toUtf8 (fuel : nat) (from fromLim : Z) (out : list Z) (to toLim : Z) : res conv :=
  match fuel with
  | O => Err OutOfFuel
  | S fuel =>
      if (from =? fromLim) || (to =? toLim) then Ok (from, out, to) else
      do c <- rd m from;
      do (out, to) <- emit out to c;
      ascii_toUtf8 fuel (from + 1) fromLim out to toLim
  end.
End converters.

(** ** Bits as sums *)

Lemma lor_add k a b : 0 <= k -> 0 <= a < 2 ^ k -> b mod 2 ^ k = 0 -> Z.lor b a = b + a.
Proof.
  intros Hk Ha Hb. assert (Hl : Z.land b a = 0).
  { apply Z.bits_inj'. intros i Hi. rewrite Z.land_spec, Z.bits_0. destruct (Z.lt_ge_cases i k).
    - replace (Z.testbit b i) with false; [done|]. rewrite <- (Z.mod_pow2_bits_low b k i) by lia. by rewrite Hb, Z.bits_0.
    - replace (Z.testbit a i) with false; [by rewrite andb_false_r|]. rewrite <- (Z.mod_small a (2 ^ k)) by lia.
      by rewrite Z.mod_pow2_bits_high by lia. }
  by rewrite Z.add_nocarry_lxor, Z.lxor_lor by done.
Qed.

Lemma lor_add' k a b : 0 <= k -> 0 <= a < 2 ^ k -> b mod 2 ^ k = 0 -> Z.lor a b = a + b.
Proof. intros. rewrite Z.lor_comm. rewrite (lor_add k) by done. lia. Qed.

Lemma land_mask k a : 0 <= k -> Z.land a (2 ^ k - 1) = a mod 2 ^ k.
Proof. intros Hk. rewrite <- Z.land_ones by lia. by rewrite Z.ones_equiv, Z.sub_1_r. Qed.

(** The masks of the source as remainders, its shifts as products and quotients. *)
Lemma land_1f a : Z.land a 0x1f = a mod 32. Proof. exact (land_mask 5 a ltac:(lia)). Qed.
Lemma land_0f a : Z.land a 0xf = a mod 16. Proof. exact (land_mask 4 a ltac:(lia)). Qed.
Lemma land_07 a : Z.land a 0x7 = a mod 8. Proof. exact (land_mask 3 a ltac:(lia)). Qed.
Lemma land_03 a : Z.land a 0x3 = a mod 4. Proof. exact (land_mask 2 a ltac:(lia)). Qed.
Lemma land_3f a : Z.land a 0x3f = a mod 64. Proof. exact (land_mask 6 a ltac:(lia)). Qed.
Lemma land_3ff a : Z.land a 0x3FF = a mod 1024. Proof. exact (land_mask 10 a ltac:(lia)). Qed.
Lemma shr a k : 0 <= k -> Z.shiftr a k = a / 2 ^ k. Proof. apply Z.shiftr_div_pow2. Qed.
Lemma shl a k : 0 <= k -> Z.shiftl a k = a * 2 ^ k. Proof. apply Z.shiftl_mul_pow2. Qed.

Ltac masks := rewrite ?land_1f, ?land_0f, ?land_07, ?land_03, ?land_3f, ?land_3ff, ?shr, ?shl by lia.
Ltac divmod := Z.div_mod_to_equations; lia.
Ltac elements := repeat (apply (f_equal2 cons); [divmod|]); reflexivity.

(** ** Characters *)

(** The Unicode scalar values, and their encodings in arithmetic. *)
Definition scalar (c : Z) : Prop := 0 <= c < 0x110000 /\ ~ (0xD800 <= c < 0xE000).

Definition utf8 (c : Z) : list Z :=
  if c <? 0x80 then [c]
  else if c <? 0x800 then [0xC0 + c / 64; 0x80 + c mod 64]
  else if c <? 0x10000 then [0xE0 + c / 4096; 0x80 + c / 64 mod 64; 0x80 + c mod 64]
  else [0xF0 + c / 262144; 0x80 + c / 4096 mod 64; 0x80 + c / 64 mod 64; 0x80 + c mod 64].

Definition utf16 (c : Z) : list Z :=
  if c <? 0x10000 then [c] else [0xD800 + (c - 0x10000) / 1024; 0xDC00 + c mod 1024].

Lemma u8_small z : 0 <= z < 256 -> u8 z = z.
Proof. intros. unfold u8. by rewrite Z.mod_small by lia. Qed.

Lemma u16_small z : 0 <= z < 65536 -> u16 z = z.
Proof. intros. unfold u16. by rewrite Z.mod_small by lia. Qed.

Lemma XmlUtf8Encode_spec c : 0 <= c < 0x110000 -> XmlUtf8Encode c = utf8 c.
Proof.
  intros Hc. unfold XmlUtf8Encode, utf8, UTF8_cval2, UTF8_cval3, UTF8_cval4. masks.
  destruct (Z.ltb_spec c 0); [lia|]. destruct (Z.ltb_spec c 0x80); [by rewrite u8_small by lia|].
  destruct (Z.ltb_spec c 0x800).
  { rewrite !(lor_add' 6) by divmod. rewrite !u8_small by divmod. elements. }
  destruct (Z.ltb_spec c 0x10000).
  { rewrite (lor_add' 4), !(lor_add' 6) by divmod. rewrite !u8_small by divmod. elements. }
  destruct (Z.ltb_spec c 0x110000); [|lia].
  rewrite (lor_add' 3), !(lor_add' 6) by divmod. rewrite !u8_small by divmod. elements.
Qed.

Lemma XmlUtf16Encode_spec c : 0 <= c < 0x110000 -> XmlUtf16Encode c = utf16 c.
Proof.
  intros Hc. unfold XmlUtf16Encode, utf16. cbv zeta. masks. destruct (Z.ltb_spec c 0); [lia|].
  destruct (Z.ltb_spec c 0x10000); [by rewrite u16_small by lia|]. destruct (Z.ltb_spec c 0x110000); [|lia].
  rewrite !u16_small by divmod. elements.
Qed.

(** ** Converting the longest prefix that fits *)

(** The characters that fit into [cap] units, [size] units each. *)
Fixpoint fitting (size : Z -> Z) (cap : Z) (cs : list Z) : list Z :=
  match cs with
  | [] => []
  | c :: cs => if size c <=? cap then c :: fitting size (cap - size c) cs else []
  end.

Lemma store_blit (m : list Z) i v : 0 <= i < zlen m -> store m i v = Ok (splice m i [v]).
Proof.
  intros Hi. rewrite store_ok by done. f_equal. unfold splice.
  rewrite insert_take_drop by (unfold zlen in Hi; lia). f_equal. cbn. do 2 f_equal. unfold zlen. cbn [length]. lia.
Qed.

Lemma store_splice0 m l v : zlen l < zlen m -> store (splice m 0 l) (zlen l) v = Ok (splice m 0 (l ++ [v])).
Proof.
  intros Hl. pose proof (zlen_nonneg l). rewrite store_blit by (rewrite zlen_splice; lia).
  by rewrite (splice_splice m 0 l) by (autorewrite with zlen; lia).
Qed.

Lemma put_short_splice0 m l v :
  zlen l < zlen m -> 0 <= v < 65536 -> put_short (splice m 0 l) (zlen l) v = Ok (splice m 0 (l ++ [v]), zlen (l ++ [v])).
Proof.
  intros Hl Hv. unfold put_short. rewrite u16_small by done. rewrite store_splice0 by done. cbn [rbind].
  do 2 f_equal. zl.
Qed.

(** A converter that takes one character a step as long as it fits. *)
Section longest.
Context (ok : Z -> Prop) (inp outp : Z -> list Z) (M out : list Z) (toLim : Z).
Context (run : nat -> Z -> list Z -> res conv).
Context (Hstep : forall pre c rest don fuel, M = (pre ++ inp c ++ rest)%list -> ok c -> zlen don + zlen (outp c) <= toLim ->
  run (S fuel) (zlen pre) don = run fuel (zlen (pre ++ inp c)) (don ++ outp c)%list).
Context (Hfull : forall pre c rest don fuel, M = (pre ++ inp c ++ rest)%list -> ok c -> zlen don <= toLim < zlen don + zlen (outp c) ->
  run (S fuel) (zlen pre) don = Ok (zlen pre, splice out 0 don, zlen don)).
Context (Hend : forall don fuel, run (S fuel) (zlen M) don = Ok (zlen M, splice out 0 don, zlen don)).

Lemma convert_longest cs : forall pre don fuel,
  M = (pre ++ concat (map inp cs))%list -> Forall ok cs -> zlen don <= toLim -> (length cs < fuel)%nat ->
  let f := fitting (fun c => zlen (outp c)) (toLim - zlen don) cs in
  run fuel (zlen pre) don =
    Ok (zlen (pre ++ concat (map inp f)), splice out 0 (don ++ concat (map outp f)), zlen (don ++ concat (map outp f))).
Proof using Hstep Hfull Hend.
  induction cs as [|c cs IH]; intros pre don [|fuel] HM Hok Hd Hf; try (cbn in Hf; lia); cbn [fitting map concat] in *.
  - cbv zeta. cbn [map concat]. rewrite !app_nil_r in *. subst M. apply Hend.
  - inversion Hok as [|? ? Hc Hcs]; subst. cbv zeta. destruct (Z.leb_spec (zlen (outp c)) (toLim - zlen don)).
    + rewrite (Hstep pre c (concat (map inp cs))) by (done || lia). cbn [map concat].
      rewrite (IH (pre ++ inp c)%list (don ++ outp c)%list fuel) by
        (try (rewrite <- app_assoc); try done; autorewrite with zlen; cbn [length] in Hf; lia).
      autorewrite with zlen. replace (toLim - (zlen don + zlen (outp c))) with (toLim - zlen don - zlen (outp c)) by lia.
      rewrite <- !app_assoc. f_equal. f_equal; [f_equal|]; lia || done.
    + cbn [map concat]. rewrite !app_nil_r. apply (Hfull pre c (concat (map inp cs))); done || lia.
Qed.
End longest.

Section utf8_to_utf16.
Context (cr colon : BT) (Hcr : lead cr = None) (Hcolon : lead colon = None).
Abbreviation types := (utf8_types (ascii_types cr colon)).

Lemma type_ascii b : 0 <= b < 128 -> exists t, type_at types b = Ok t /\ lead t = None.
Proof using Hcr Hcolon.
  intros Hb. unfold type_at, utf8_types.
  rewrite lookup_app_l by (change (length (ascii_types cr colon)) with 128%nat; lia).
  destruct (lookup_lt_is_Some_2 (ascii_types cr colon) (Z.to_nat b)) as [t Ht];
    [change (length (ascii_types cr colon)) with 128%nat; lia|].
  rewrite Ht. exists t. split; [done|]. apply list_elem_of_lookup_2 in Ht. unfold ascii_types in Ht.
  repeat (apply elem_of_cons in Ht as [-> |Ht]; [done|]). by apply not_elem_of_nil in Ht.
Qed.

Lemma type_lead b : 0xC0 <= b < 0xF5 ->
  type_at types b = Ok (if b <? 0xE0 then BT_LEAD2 else if b <? 0xF0 then BT_LEAD3 else BT_LEAD4).
Proof.
  intros Hb. unfold type_at, utf8_types.
  rewrite lookup_app_r by (change (length (ascii_types cr colon)) with 128%nat; lia).
  change (length (ascii_types cr colon)) with 128%nat.
  assert (H : forall k, 0 <= k < 53 -> of_option OutOfBounds (utf8tab !! Z.to_nat (64 + k)) =
    Ok (if 0xC0 + k <? 0xE0 then BT_LEAD2 else if 0xC0 + k <? 0xF0 then BT_LEAD3 else BT_LEAD4)).
  { apply (forall_below (fun k => of_option OutOfBounds (utf8tab !! Z.to_nat (64 + k)) = _) 53). vm_compute. reflexivity. }
  specialize (H (b - 0xC0) ltac:(lia)). replace (0xC0 + (b - 0xC0)) with b in H by lia.
  by replace (Z.to_nat b - 128)%nat with (Z.to_nat (64 + (b - 0xC0))) by lia.
Qed.

Context (out : list Z) (toLim : Z) (Hlim : toLim <= zlen out).

(** One character that fits: the bytes [u] at [at_] in [M] give the units [v]. *)
Section step.
Context (M : list Z) (at_ c : Z) (rest don : list Z) (fuel : nat) (L : Z).
Context (Hk : forall k, 0 <= k -> rd M (at_ + k) = rd (utf8 c ++ rest) k) (HL : at_ <> L).

Definition step_to (u v : list Z) : Prop :=
  utf8_toUtf16 M (S fuel) types at_ L (splice out 0 don) (zlen don) toLim =
  utf8_toUtf16 M fuel types (at_ + zlen u) L (splice out 0 (don ++ v)) (zlen (don ++ v)) toLim.

Ltac start Hu :=
  unfold step_to; cbn [utf8_toUtf16]; pose proof (zlen_nonneg don); pose proof (Hk 0 ltac:(lia)) as H0;
  rewrite Z.add_0_r in H0; rewrite H0; rewrite Hu in *; change (zlen [c]) with 1 in *;
  replace (at_ =? L) with false by (symmetry; lia); replace (zlen don =? toLim) with false by (symmetry; lia);
  cbn [orb app]; rewrite rd_cons_0; cbn [rbind].

Ltac next_byte := rewrite Hk by lia; cbn [app]; rd_known; cbn [rbind].

Lemma step_1 : 0 <= c < 0x80 -> zlen don + 1 <= toLim -> step_to [c] [c].
Proof using Hcr Hcolon Hlim Hk HL.
  intros Hc Hfit. assert (Hu : utf8 c = [c]) by (unfold utf8; by replace (c <? 0x80) with true by (symmetry; lia)). start Hu.
  destruct (type_ascii c) as (t & -> & Ht); [lia|]. cbn [rbind].
  assert (Hv : schar c = c) by (unfold schar; by replace (c <? 0x80) with true by (symmetry; lia)).
  rewrite Hv, put_short_splice0 by lia. cbn [rbind]. destruct t; cbn in Ht; try discriminate; reflexivity.
Qed.

Lemma step_2 : 0x80 <= c < 0x800 -> zlen don + 1 <= toLim -> step_to (utf8 c) [c].
Proof using Hlim Hk HL.
  intros Hc Hfit. assert (Hu : utf8 c = [0xC0 + c / 64; 0x80 + c mod 64]).
  { unfold utf8. replace (c <? 0x80) with false by (symmetry; lia). by replace (c <? 0x800) with true by (symmetry; lia). }
  start Hu. rewrite type_lead by divmod. replace (_ <? 0xE0) with true by (symmetry; divmod). cbn [rbind].
  next_byte. masks. rewrite (lor_add 6) by divmod.
  replace ((0xC0 + c / 64) mod 32 * 2 ^ 6 + (0x80 + c mod 64) mod 64) with c by divmod.
  rewrite put_short_splice0 by lia. reflexivity.
Qed.

Lemma step_3 : 0x800 <= c < 0x10000 -> zlen don + 1 <= toLim -> step_to (utf8 c) [c].
Proof using Hlim Hk HL.
  intros Hc Hfit. assert (Hu : utf8 c = [0xE0 + c / 4096; 0x80 + c / 64 mod 64; 0x80 + c mod 64]).
  { unfold utf8. replace (c <? 0x80) with false by (symmetry; lia). replace (c <? 0x800) with false by (symmetry; lia).
    by replace (c <? 0x10000) with true by (symmetry; lia). }
  start Hu. rewrite type_lead by divmod. replace (_ <? 0xE0) with false by (symmetry; divmod).
  replace (_ <? 0xF0) with true by (symmetry; divmod). cbn [rbind].
  next_byte. next_byte. masks. rewrite (lor_add 12 (_ * 2 ^ 6)) by divmod. rewrite (lor_add 6) by divmod.
  replace ((0xE0 + c / 4096) mod 16 * 2 ^ 12 + (0x80 + c / 64 mod 64) mod 64 * 2 ^ 6 + (0x80 + c mod 64) mod 64) with c by divmod.
  rewrite put_short_splice0 by lia. reflexivity.
Qed.

Lemma step_4 : 0x10000 <= c < 0x110000 -> zlen don + 2 <= toLim -> step_to (utf8 c) (utf16 c).
Proof using Hlim Hk HL.
  intros Hc Hfit. assert (Hu : utf8 c = [0xF0 + c / 262144; 0x80 + c / 4096 mod 64; 0x80 + c / 64 mod 64; 0x80 + c mod 64]).
  { unfold utf8. replace (c <? 0x80) with false by (symmetry; lia). replace (c <? 0x800) with false by (symmetry; lia).
    by replace (c <? 0x10000) with false by (symmetry; lia). }
  start Hu. rewrite type_lead by divmod. replace (_ <? 0xE0) with false by (symmetry; divmod).
  replace (_ <? 0xF0) with false by (symmetry; divmod). cbn [rbind].
  replace (zlen don + 1 =? toLim) with false by (symmetry; lia). next_byte. next_byte. next_byte. cbv zeta.
  rewrite land_07, !land_3f. rewrite !shl by lia. rewrite (lor_add 18 (_ * 2 ^ 12)) by divmod.
  rewrite (lor_add 12 (_ * 2 ^ 6)) by divmod. rewrite (lor_add 6 (_ mod 64)) by divmod.
  replace ((0xF0 + c / 262144) mod 8 * 2 ^ 18 + (0x80 + c / 4096 mod 64) mod 64 * 2 ^ 12 +
    (0x80 + c / 64 mod 64) mod 64 * 2 ^ 6 + (0x80 + c mod 64) mod 64) with c by divmod.
  rewrite land_3ff, shr by lia. rewrite !(lor_add' 10) by divmod.
  unfold utf16. replace (c <? 0x10000) with false by (symmetry; lia).
  replace ((c - 0x10000) mod 1024 + 0xDC00) with (0xDC00 + c mod 1024) by divmod.
  replace ((c - 0x10000) / 2 ^ 10 + 0xD800) with (0xD800 + (c - 0x10000) / 1024) by (change (2 ^ 10) with 1024; lia).
  rewrite put_short_splice0 by divmod. cbn [rbind]. rewrite put_short_splice0 by (autorewrite with zlen; change (zlen [_]) with 1; divmod).
  cbn [rbind]. by rewrite <- app_assoc.
Qed.
End step.

Lemma utf8_toUtf16_step pre c rest don fuel :
  scalar c -> zlen don + zlen (utf16 c) <= toLim ->
  let M := (pre ++ utf8 c ++ rest)%list in
  utf8_toUtf16 M (S fuel) types (zlen pre) (zlen M) (splice out 0 don) (zlen don) toLim =
  utf8_toUtf16 M fuel types (zlen (pre ++ utf8 c)) (zlen M) (splice out 0 (don ++ utf16 c)) (zlen (don ++ utf16 c)) toLim.
Proof using Hcr Hcolon Hlim.
  intros [Hc Hns] Hfit M. rewrite (zlen_app pre).
  assert (Hk : forall k, 0 <= k -> rd M (zlen pre + k) = rd (utf8 c ++ rest) k) by (intros; by apply rd_app_r).
  assert (HL : zlen pre <> zlen M).
  { unfold M. rewrite !zlen_app. pose proof (zlen_nonneg rest). unfold utf8. repeat case_match; zl. }
  assert (H16 : c < 0x10000 -> utf16 c = [c]) by (intros; unfold utf16; by replace (c <? 0x10000) with true by (symmetry; lia)).
  destruct (Z.lt_ge_cases c 0x10000); [rewrite H16 in * by done; change (zlen [c]) with 1 in Hfit|].
  - destruct (Z.lt_ge_cases c 0x800); [|by apply (step_3 M _ c rest)].
    destruct (Z.lt_ge_cases c 0x80); [|by apply (step_2 M _ c rest)].
    replace (utf8 c) with [c] by (unfold utf8; by replace (c <? 0x80) with true by (symmetry; lia)).
    apply (step_1 M _ c rest); done || lia.
  - apply (step_4 M _ c rest); [done|done|lia|]. unfold utf16 in Hfit.
    by replace (c <? 0x10000) with false in Hfit by (symmetry; lia).
Qed.

Lemma utf8_toUtf16_full pre c rest don fuel :
  scalar c -> zlen don <= toLim < zlen don + zlen (utf16 c) ->
  let M := (pre ++ utf8 c ++ rest)%list in
  utf8_toUtf16 M (S fuel) types (zlen pre) (zlen M) (splice out 0 don) (zlen don) toLim =
  Ok (zlen pre, splice out 0 don, zlen don).
Proof.
  intros [Hc Hns] Hfull M. cbn [utf8_toUtf16]. unfold utf16 in Hfull. destruct (Z.ltb_spec c 0x10000).
  - change (zlen [c]) with 1 in Hfull. replace (zlen don =? toLim) with true by (symmetry; lia). by rewrite orb_true_r.
  - change (zlen [_; _]) with 2 in Hfull. destruct (Z.eqb_spec (zlen don) toLim); [by rewrite orb_true_r|].
    rewrite orb_false_r. destruct (zlen pre =? zlen M); [done|].
    unfold M. rewrite rd_app_0. unfold utf8.
    replace (c <? 0x80) with false by (symmetry; lia). replace (c <? 0x800) with false by (symmetry; lia).
    replace (c <? 0x10000) with false by (symmetry; lia). cbn [app]. rewrite rd_cons_0. cbn [rbind].
    rewrite type_lead by divmod. replace (_ <? 0xE0) with false by (symmetry; divmod).
    replace (_ <? 0xF0) with false by (symmetry; divmod). cbn [rbind].
    by replace (zlen don + 1 =? toLim) with true by (symmetry; lia).
Qed.

(** The converter turns the longest prefix that fits. *)
Lemma utf8_toUtf16_longest cs fuel :
  Forall scalar cs -> 0 <= toLim -> (length cs < fuel)%nat ->
  let f := fitting (fun c => zlen (utf16 c)) toLim cs in let M := concat (map utf8 cs) in
  utf8_toUtf16 M fuel types 0 (zlen M) out 0 toLim =
    Ok (zlen (concat (map utf8 f)), splice out 0 (concat (map utf16 f)), zlen (concat (map utf16 f))).
Proof using Hcr Hcolon Hlim.
  intros Hcs Ht Hf. cbv zeta. rewrite <- (splice_nil out 0) at 1 by lia.
  rewrite (convert_longest scalar utf8 utf16 (concat (map utf8 cs)) out toLim
    (fun fuel from don => utf8_toUtf16 (concat (map utf8 cs)) fuel types from (zlen (concat (map utf8 cs)))
       (splice out 0 don) (zlen don) toLim)) with (pre := []) (don := []) (cs := cs); try done.
  - rewrite zlen_nil, Z.sub_0_r. done.
  - intros pre c rest don fu -> Hc Hfit. by apply utf8_toUtf16_step.
  - intros pre c rest don fu -> Hc Hfit. by apply utf8_toUtf16_full.
  - intros don fu. cbn [utf8_toUtf16]. by rewrite Z.eqb_refl.
Qed.
End utf8_to_utf16.

(** ** From UTF-16 *)

(** The two bytes of a unit, and the bytes of a character. *)
Definition unit_bytes (little : bool) (u : Z) : list Z := if little then [u mod 256; u / 256] else [u / 256; u mod 256].
Definition utf16_bytes (little : bool) (c : Z) : list Z := concat (map (unit_bytes little) (utf16 c)).

Lemma get_unit little pre u rest k :
  zlen pre = k ->
  get_lo little (pre ++ unit_bytes little u ++ rest) k = Ok (u mod 256) /\
  get_hi little (pre ++ unit_bytes little u ++ rest) k = Ok (u / 256).
Proof.
  intros <-. unfold get_lo, get_hi. destruct little; rewrite rd_app_0, (rd_app_r pre _ 1) by lia; cbn [unit_bytes app]; split; by rd_known.
Qed.

Section utf16_to_utf8.
Context (little : bool) (out : list Z) (toLim : Z) (Hlim : toLim <= zlen out).

Lemma emit_at don v :
  zlen don < zlen out -> 0 <= v < 256 -> emit (splice out 0 don) (zlen don) v = Ok (splice out 0 (don ++ [v]), zlen (don ++ [v])).
Proof. intros. by apply emit_splice0. Qed.

Section step.
Context (M : list Z) (at_ : Z) (don : list Z) (fuel : nat) (L : Z) (HL : at_ <> L).

Definition step8 (n : Z) (v : list Z) : Prop :=
  utf16_toUtf8 M (S fuel) little at_ L (splice out 0 don) (zlen don) toLim =
  utf16_toUtf8 M fuel little (at_ + n) L (splice out 0 (don ++ v)) (zlen (don ++ v)) toLim.

Ltac put := rewrite emit_at by (autorewrite with zlen; change (zlen [_]) with 1; divmod); cbn [rbind].

Ltac start8 Hlo Hhi :=
  unfold step8; cbn [utf16_toUtf8]; pose proof (zlen_nonneg don); replace (at_ =? L) with false by (symmetry; lia);
  rewrite Hlo, Hhi; cbn [rbind].

(** A unit that is a character. *)
Lemma step8_unit c :
  get_lo little M at_ = Ok (c mod 256) -> get_hi little M at_ = Ok (c / 256) ->
  0 <= c < 0x10000 -> ~ (0xD800 <= c < 0xE000) -> zlen don + zlen (utf8 c) <= toLim -> step8 2 (utf8 c).
Proof using Hlim HL.
  intros Hlo Hhi Hc Hns Hfit. start8 Hlo Hhi. unfold utf8 in *.
  destruct (Z.ltb_spec c 0x80); [|destruct (Z.ltb_spec c 0x800); [|replace (c <? 0x10000) with true in * by (symmetry; lia)]].
  - replace (c / 256) with 0 by divmod. replace (c mod 256) with c by divmod. change (zlen [c]) with 1 in *.
    replace (c <? 0x80) with true by (symmetry; lia). cbn [Z.eqb andb].
    replace (zlen don =? toLim) with false by (symmetry; lia). put. reflexivity.
  - change (zlen [_; _]) with 2 in *. replace ((c / 256 =? 0) && (c mod 256 <? 0x80)) with false by (symmetry; apply andb_false_iff; divmod).
    replace (c / 256 <? 8) with true by (symmetry; divmod). replace (toLim - zlen don <? 2) with false by (symmetry; lia).
    unfold UTF8_cval2. masks. rewrite (lor_add' 2 _ (_ * 2 ^ 2)), !(lor_add' 6) by divmod.
    replace (c mod 256 / 2 ^ 6 + c / 256 * 2 ^ 2 + 0xC0) with (0xC0 + c / 64) by divmod.
    replace ((c mod 256) mod 64 + 0x80) with (0x80 + c mod 64) by divmod. put. put. by rewrite <- app_assoc.
  - change (zlen [_; _; _]) with 3 in *. replace ((c / 256 =? 0) && (c mod 256 <? 0x80)) with false by (symmetry; apply andb_false_iff; divmod).
    replace (c / 256 <? 8) with false by (symmetry; divmod).
    replace ((0xD8 <=? c / 256) && (c / 256 <=? 0xDB)) with false by (symmetry; apply andb_false_iff; divmod).
    replace (toLim - zlen don <? 3) with false by (symmetry; lia).
    unfold UTF8_cval3. masks. rewrite (lor_add' 4), (lor_add 2 (_ / 2 ^ 6)), !(lor_add' 6) by divmod.
    replace (c / 256 / 2 ^ 4 + 0xE0) with (0xE0 + c / 4096) by divmod.
    replace ((c / 256) mod 16 * 2 ^ 2 + c mod 256 / 2 ^ 6 + 0x80) with (0x80 + c / 64 mod 64) by divmod.
    replace ((c mod 256) mod 64 + 0x80) with (0x80 + c mod 64) by divmod. put. put. put. by rewrite <- !app_assoc.
Qed.

(** A surrogate pair. *)
Lemma step8_pair c :
  let u1 := 0xD800 + (c - 0x10000) / 1024 in let u2 := 0xDC00 + c mod 1024 in
  get_lo little M at_ = Ok (u1 mod 256) -> get_hi little M at_ = Ok (u1 / 256) ->
  get_lo little M (at_ + 2) = Ok (u2 mod 256) -> get_hi little M (at_ + 2) = Ok (u2 / 256) ->
  0x10000 <= c < 0x110000 -> zlen don + 4 <= toLim -> step8 4 (utf8 c).
Proof using Hlim HL.
  intros u1 u2 Hlo Hhi Hlo2 Hhi2 Hc Hfit. start8 Hlo Hhi. unfold utf8.
  replace (c <? 0x80) with false by (symmetry; lia). replace (c <? 0x800) with false by (symmetry; lia).
  replace (c <? 0x10000) with false by (symmetry; lia).
  assert (Hd : 0xD8 <= u1 / 256 <= 0xDB) by (unfold u1; divmod).
  replace (u1 / 256 =? 0) with false by (symmetry; lia). replace (u1 / 256 <? 8) with false by (symmetry; lia).
  replace ((0xD8 <=? u1 / 256) && (u1 / 256 <=? 0xDB)) with true by (symmetry; apply andb_true_iff; lia). cbn [andb].
  replace (toLim - zlen don <? 4) with false by (symmetry; lia). cbv zeta. rewrite Hlo2, Hhi2. cbn [rbind].
  unfold UTF8_cval4. rewrite !land_03, !land_0f, !land_3f. rewrite !shr by lia. rewrite !shl by lia.
  rewrite (lor_add 2 _ (_ * 2 ^ 2)) by divmod.
  replace ((u1 / 256) mod 4 * 2 ^ 2 + (u1 mod 256 / 2 ^ 6) mod 4 + 1) with (c / 65536) by (unfold u1; divmod).
  rewrite (lor_add' 3 (c / 65536 / 2 ^ 2)) by divmod.
  rewrite (lor_add' 4 ((u1 mod 256 / 2 ^ 2) mod 16)) by divmod. rewrite (lor_add' 6 ((u1 mod 256 / 2 ^ 2) mod 16 + _)) by divmod.
  rewrite (lor_add 4 ((u2 / 256) mod 4 * 2 ^ 2)) by divmod. rewrite (lor_add 2 (u2 mod 256 / 2 ^ 6)) by divmod.
  rewrite !(lor_add' 6) by divmod.
  replace (c / 65536 / 2 ^ 2 + 0xF0) with (0xF0 + c / 262144) by divmod.
  replace ((u1 mod 256 / 2 ^ 2) mod 16 + (c / 65536) mod 4 * 2 ^ 4 + 0x80) with (0x80 + c / 4096 mod 64) by (unfold u1; divmod).
  replace ((u1 mod 256) mod 4 * 2 ^ 4 + (u2 / 256) mod 4 * 2 ^ 2 + u2 mod 256 / 2 ^ 6 + 0x80) with (0x80 + c / 64 mod 64)
    by (unfold u1, u2; divmod).
  replace ((u2 mod 256) mod 64 + 0x80) with (0x80 + c mod 64) by (unfold u2; divmod).
  put. put. rewrite ?Hlo2, ?Hhi2. cbn [rbind]. put. put. rewrite <- !app_assoc. by replace (at_ + 2 + 2) with (at_ + 4) by lia.
Qed.
End step.

Lemma zlen_utf16_bytes c : zlen (utf16_bytes little c) = if c <? 0x10000 then 2 else 4.
Proof. unfold utf16_bytes, utf16, unit_bytes. by destruct (c <? 0x10000), little. Qed.

Lemma utf16_toUtf8_step pre c rest don fuel :
  scalar c -> zlen don + zlen (utf8 c) <= toLim ->
  let M := (pre ++ utf16_bytes little c ++ rest)%list in
  utf16_toUtf8 M (S fuel) little (zlen pre) (zlen M) (splice out 0 don) (zlen don) toLim =
  utf16_toUtf8 M fuel little (zlen (pre ++ utf16_bytes little c)) (zlen M) (splice out 0 (don ++ utf8 c)) (zlen (don ++ utf8 c)) toLim.
Proof using Hlim.
  intros [Hc Hns] Hfit M. rewrite (zlen_app pre), zlen_utf16_bytes.
  assert (HL : zlen pre <> zlen M).
  { unfold M. rewrite !zlen_app, zlen_utf16_bytes. pose proof (zlen_nonneg rest). case_match; lia. }
  unfold M in *. clear M. destruct (Z.ltb_spec c 0x10000).
  - replace (utf16_bytes little c) with (unit_bytes little c) in *.
    2: { unfold utf16_bytes, utf16. replace (c <? 0x10000) with true by (symmetry; lia). cbn [map concat]. by rewrite app_nil_r. }
    destruct (get_unit little pre c rest (zlen pre) eq_refl) as [Hlo Hhi].
    apply (step8_unit _ _ _ _ _ HL c); done || lia.
  - set (u1 := 0xD800 + (c - 0x10000) / 1024). set (u2 := 0xDC00 + c mod 1024).
    replace (utf16_bytes little c) with (unit_bytes little u1 ++ unit_bytes little u2)%list in *.
    2: { unfold utf16_bytes, utf16. replace (c <? 0x10000) with false by (symmetry; lia). cbn [map concat]. by rewrite app_nil_r. }
    destruct (get_unit little pre u1 (unit_bytes little u2 ++ rest) (zlen pre) eq_refl) as [Hlo Hhi].
    destruct (get_unit little (pre ++ unit_bytes little u1) u2 rest (zlen pre + 2)) as [Hlo2 Hhi2];
      [rewrite zlen_app; destruct little; reflexivity|]. rewrite <- !app_assoc in *.
    apply (step8_pair _ _ _ _ _ HL c); try done; [lia|]. unfold utf8 in Hfit.
    replace (c <? 0x80) with false in Hfit by (symmetry; lia). replace (c <? 0x800) with false in Hfit by (symmetry; lia).
    by replace (c <? 0x10000) with false in Hfit by (symmetry; lia).
Qed.

Lemma utf16_toUtf8_full pre c rest don fuel :
  scalar c -> zlen don <= toLim < zlen don + zlen (utf8 c) ->
  let M := (pre ++ utf16_bytes little c ++ rest)%list in
  utf16_toUtf8 M (S fuel) little (zlen pre) (zlen M) (splice out 0 don) (zlen don) toLim =
  Ok (zlen pre, splice out 0 don, zlen don).
Proof.
  intros [Hc Hns] Hfull M. cbn [utf16_toUtf8]. destruct (Z.eqb_spec (zlen pre) (zlen M)); [done|]. unfold M.
  assert (Hu : exists u more, utf16_bytes little c = (unit_bytes little u ++ more)%list /\
    (if c <? 0x10000 then u = c else 0xD8 <= u / 256 <= 0xDB)).
  { unfold utf16_bytes, utf16. destruct (Z.ltb_spec c 0x10000); cbn [map concat]; eexists _, _; (split; [reflexivity|]); [done|divmod]. }
  destruct Hu as (u & more & -> & Hu). rewrite <- app_assoc.
  destruct (get_unit little pre u (more ++ rest) (zlen pre) eq_refl) as [-> ->]. cbn [rbind]. unfold utf8 in Hfull.
  destruct (Z.ltb_spec c 0x10000); [subst u|].
  - destruct (Z.ltb_spec c 0x80); [|destruct (Z.ltb_spec c 0x800)].
    + change (zlen [c]) with 1 in Hfull. replace ((c / 256 =? 0) && (c mod 256 <? 0x80)) with true by (symmetry; apply andb_true_iff; divmod).
      by replace (zlen don =? toLim) with true by (symmetry; lia).
    + change (zlen [_; _]) with 2 in Hfull. replace ((c / 256 =? 0) && (c mod 256 <? 0x80)) with false by (symmetry; apply andb_false_iff; divmod).
      replace (c / 256 <? 8) with true by (symmetry; divmod). by replace (toLim - zlen don <? 2) with true by (symmetry; lia).
    + change (zlen [_; _; _]) with 3 in Hfull. replace ((c / 256 =? 0) && (c mod 256 <? 0x80)) with false by (symmetry; apply andb_false_iff; divmod).
      replace (c / 256 <? 8) with false by (symmetry; divmod).
      replace ((0xD8 <=? c / 256) && (c / 256 <=? 0xDB)) with false by (symmetry; apply andb_false_iff; divmod).
      by replace (toLim - zlen don <? 3) with true by (symmetry; lia).
  - replace (c <? 0x80) with false in Hfull by (symmetry; lia). replace (c <? 0x800) with false in Hfull by (symmetry; lia).
    change (zlen [_; _; _; _]) with 4 in Hfull. replace (u / 256 =? 0) with false by (symmetry; lia). cbn [andb].
    replace (u / 256 <? 8) with false by (symmetry; lia).
    replace ((0xD8 <=? u / 256) && (u / 256 <=? 0xDB)) with true by (symmetry; apply andb_true_iff; lia).
    by replace (toLim - zlen don <? 4) with true by (symmetry; lia).
Qed.

Lemma utf16_toUtf8_longest cs fuel :
  Forall scalar cs -> 0 <= toLim -> (length cs < fuel)%nat ->
  let f := fitting (fun c => zlen (utf8 c)) toLim cs in let M := concat (map (utf16_bytes little) cs) in
  utf16_toUtf8 M fuel little 0 (zlen M) out 0 toLim =
    Ok (zlen (concat (map (utf16_bytes little) f)), splice out 0 (concat (map utf8 f)), zlen (concat (map utf8 f))).
Proof using Hlim.
  intros Hcs Ht Hf. cbv zeta. rewrite <- (splice_nil out 0) at 1 by lia. set (M := concat (map (utf16_bytes little) cs)).
  rewrite (convert_longest scalar (utf16_bytes little) utf8 M out toLim
    (fun fuel from don => utf16_toUtf8 M fuel little from (zlen M) (splice out 0 don) (zlen don) toLim))
    with (pre := []) (don := []) (cs := cs); try done.
  - rewrite zlen_nil, Z.sub_0_r. done.
  - intros pre c rest don fu HM Hc Hfit. rewrite HM. by apply utf16_toUtf8_step.
  - intros pre c rest don fu HM Hc Hfit. rewrite HM. by apply utf16_toUtf8_full.
  - intros don fu. cbn [utf16_toUtf8]. by rewrite Z.eqb_refl.
Qed.
End utf16_to_utf8.

(** ** Text in the encodings *)

Definition utf8_text (cs : list Z) : list Z := concat (map XmlUtf8Encode cs).
Definition utf16_text (cs : list Z) : list Z := concat (map XmlUtf16Encode cs).
Definition utf16_document (little : bool) (cs : list Z) : list Z := concat (map (unit_bytes little) (utf16_text cs)).

Lemma scalars_fit size cap cs : Forall scalar cs -> Forall scalar (fitting size cap cs).
Proof.
  intros H. revert cap. induction H as [|c cs Hc Hcs IH]; intros cap; cbn [fitting]; [constructor|].
  destruct (size c <=? cap); [by constructor|constructor].
Qed.

Lemma utf8_text_spec cs : Forall scalar cs -> utf8_text cs = concat (map utf8 cs).
Proof.
  intros H. unfold utf8_text. f_equal. apply map_ext_Forall. eapply Forall_impl; [exact H|].
  intros c [Hc _]. by apply XmlUtf8Encode_spec.
Qed.

Lemma utf16_text_spec cs : Forall scalar cs -> utf16_text cs = concat (map utf16 cs).
Proof.
  intros H. unfold utf16_text. f_equal. apply map_ext_Forall. eapply Forall_impl; [exact H|].
  intros c [Hc _]. by apply XmlUtf16Encode_spec.
Qed.

Lemma utf16_document_spec little cs : Forall scalar cs -> utf16_document little cs = concat (map (utf16_bytes little) cs).
Proof.
  intros H. unfold utf16_document. rewrite utf16_text_spec by done. clear H.
  induction cs as [|c cs IH]; cbn [map concat]; [done|]. by rewrite map_app, concat_app, IH.
Qed.

Lemma fitting_ext s1 s2 cap cs : (forall c, c ∈ cs -> s1 c = s2 c) -> fitting s1 cap cs = fitting s2 cap cs.
Proof.
  revert cap. induction cs as [|c cs IH]; intros cap H; cbn [fitting]; [done|]. rewrite (H c) by constructor.
  destruct (s2 c <=? cap); [|done]. f_equal. apply IH. intros. apply H. by constructor.
Qed.

Lemma fitting_all size cap cs : (forall c, 0 <= size c) -> foldr (fun c n => size c + n) 0 cs <= cap -> fitting size cap cs = cs.
Proof.
  intros Hs. revert cap. induction cs as [|c cs IH]; intros cap Hc; cbn [fitting foldr] in *; [done|].
  assert (0 <= foldr (fun c n => size c + n) 0 cs) by (clear Hc IH; induction cs as [|a l IH]; cbn; [lia|]; pose proof (Hs a); lia).
  replace (size c <=? cap) with true by (symmetry; lia). f_equal. apply IH. lia.
Qed.

Lemma zlen_concat_map (f : Z -> list Z) cs : zlen (concat (map f cs)) = foldr (fun c n => zlen (f c) + n) 0 cs.
Proof. induction cs as [|c cs IH]; cbn [map concat foldr]; [done|]. by rewrite zlen_app, IH. Qed.

(** The converters take the longest run of whole characters that fits. For any
    text and any room in the output, [utf8_toUtf16] and [utf16_toUtf8] (either
    byte order) convert exactly the characters that fit, leave the input pointer
    at the first character that does not, write nothing past the limit and never
    split a character or a surrogate pair. *)
Theorem converters_longest little cs out toLim fuel :
  Forall scalar cs -> 0 <= toLim <= zlen out -> (length cs < fuel)%nat ->
  (let f := fitting (fun c => zlen (XmlUtf16Encode c)) toLim cs in
   utf8_toUtf16 (utf8_text cs) fuel (utf8_types (asciitab BT_NMSTRT)) 0 (zlen (utf8_text cs)) out 0 toLim =
     Ok (zlen (utf8_text f), splice out 0 (utf16_text f), zlen (utf16_text f))) /\
  (let f := fitting (fun c => zlen (XmlUtf8Encode c)) toLim cs in
   utf16_toUtf8 (utf16_document little cs) fuel little 0 (zlen (utf16_document little cs)) out 0 toLim =
     Ok (zlen (utf16_document little f), splice out 0 (utf8_text f), zlen (utf8_text f))).
Proof.
  intros Hcs Ht Hf.
  assert (Hin : forall c, c ∈ cs -> 0 <= c < 0x110000) by (intros c Hc; by apply (proj1 (Forall_forall _ _) Hcs c Hc)).
  split; cbv zeta.
  - rewrite (fitting_ext _ (fun c => zlen (utf16 c))) by (intros c Hc; by rewrite XmlUtf16Encode_spec by auto).
    pose proof (scalars_fit (fun c => zlen (utf16 c)) toLim cs Hcs).
    rewrite !utf8_text_spec, utf16_text_spec by done. apply (utf8_toUtf16_longest BT_CR BT_NMSTRT); done || lia.
  - rewrite (fitting_ext _ (fun c => zlen (utf8 c))) by (intros c Hc; by rewrite XmlUtf8Encode_spec by auto).
    pose proof (scalars_fit (fun c => zlen (utf8 c)) toLim cs Hcs).
    rewrite !utf16_document_spec, utf8_text_spec by done. apply utf16_toUtf8_longest; done || lia.
Qed.

Lemma converters_longest_witness :
  utf8_toUtf16 (utf8_text [65; 0xE9; 0x20AC; 0x1F600; 66]) 6 (utf8_types (asciitab BT_NMSTRT)) 0 11
    (replicate 4 0) 0 4 = Ok (6, [65; 0xE9; 0x20AC; 0], 3) /\
  utf16_toUtf8 (utf16_document true [65; 0xE9; 0x20AC; 0x1F600; 66]) 6 true 0 12
    (replicate 4 0) 0 4 = Ok (4, [65; 0xC3; 0xA9; 0], 3).
Proof.
  apply (converters_longest true [65; 0xE9; 0x20AC; 0x1F600; 66] (replicate 4 0) 4 6);
    [repeat constructor; cbn; lia|split; [lia|done]|cbn; lia].
Defined.

(** C27: Round trip: with room for it, converting a UTF-8 text to UTF-16 and the
    result, stored in either byte order, back to UTF-8 gives the text. *)
Theorem utf_roundtrip little cs out out8 fuel :
  Forall scalar cs -> zlen (utf16_text cs) <= zlen out -> zlen (utf8_text cs) <= zlen out8 -> (length cs < fuel)%nat ->
  exists units, utf8_toUtf16 (utf8_text cs) fuel (utf8_types (asciitab BT_NMSTRT)) 0 (zlen (utf8_text cs)) out 0 (zlen out) =
      Ok (zlen (utf8_text cs), splice out 0 units, zlen units) /\
    let doc := concat (map (unit_bytes little) units) in
    utf16_toUtf8 doc fuel little 0 (zlen doc) out8 0 (zlen out8) =
      Ok (zlen doc, splice out8 0 (utf8_text cs), zlen (utf8_text cs)).
Proof.
  intros Hcs H16 H8 Hf. exists (utf16_text cs). fold (utf16_document little cs).
  rewrite utf16_document_spec, !utf8_text_spec, utf16_text_spec in * by done. split.
  - rewrite (utf8_toUtf16_longest BT_CR BT_NMSTRT eq_refl eq_refl out (zlen out)) by (done || apply zlen_nonneg || lia).
    rewrite fitting_all; [done|intros; apply zlen_nonneg|by rewrite <- zlen_concat_map].
  - cbv zeta. rewrite utf16_toUtf8_longest by (done || apply zlen_nonneg || lia).
    rewrite fitting_all; [done|intros; apply zlen_nonneg|by rewrite <- zlen_concat_map].
Qed.

Lemma utf_roundtrip_witness :
  exists units, utf8_toUtf16 (utf8_text [65; 0x20AC; 0x1F600]) 4 (utf8_types (asciitab BT_NMSTRT)) 0 8 (replicate 5 0) 0 5 =
      Ok (8, splice (replicate 5 0) 0 units, zlen units) /\
    let doc := concat (map (unit_bytes false) units) in
    utf16_toUtf8 doc 4 false 0 (zlen doc) (replicate 9 0) 0 9 =
      Ok (zlen doc, [65; 0xE2; 0x82; 0xAC; 0xF0; 0x9F; 0x98; 0x80; 0], 8).
Proof.
  apply (utf_roundtrip false [65; 0x20AC; 0x1F600] (replicate 5 0) (replicate 9 0) 4);
    [repeat constructor; cbn; lia|vm_compute; done|vm_compute; done|cbn; lia].
Defined.

(** The converter of UTF-16 to UTF-16 looks for a surrogate at the end of the input,
    not where the output ends: with room for one unit it copies half of a pair
    followed by another character. *)
Example utf16_toUtf16_splits :
  utf16_toUtf16 (utf16_document true [0x1F600; 66]) 4 true 0 6 [0] 0 1 = Ok (2, [0xD83D], 1).
Proof. reflexivity. Qed.

(** ** Validity of UTF-8 sequences *)

Lemma below_80_spec b : 0 <= b < 256 -> below_80 b = (b <? 0x80).
Proof. apply (forall_below (fun b => below_80 b = (b <? 0x80)) 256). vm_compute. reflexivity. Qed.

Lemma from_C0_spec b : 0 <= b < 256 -> from_C0 b = (0xC0 <=? b).
Proof. apply (forall_below (fun b => from_C0 b = (0xC0 <=? b)) 256). vm_compute. reflexivity. Qed.

(** The length the table gives for a first byte. *)
Definition lead_length (b : Z) : option Z :=
  if (b <? 0xC0) || (0xF5 <=? b) then None else Some (if b <? 0xE0 then 2 else if b <? 0xF0 then 3 else 4).

Lemma utf8_lead_range b : 0 <= b < 256 ->
  rbind (type_at (utf8_types (asciitab BT_NMSTRT)) b) (fun t => Ok (lead t)) = Ok (lead_length b).
Proof.
  apply (forall_below (fun b => rbind (type_at (utf8_types (asciitab BT_NMSTRT)) b) (fun t => Ok (lead t)) = Ok (lead_length b)) 256).
  vm_compute. reflexivity.
Qed.

(** The characters [UTF8_INVALID2] to [UTF8_INVALID4] accept. *)
Definition accepted (c : Z) : Prop := scalar c /\ c <> 0xFFFE /\ c <> 0xFFFF.

Abbreviation byte b := (0 <= b < 256).

Ltac validity :=
  intros; unfold UTF8_INVALID2, UTF8_INVALID3, UTF8_INVALID4; rewrite ?below_80_spec, ?from_C0_spec by done;
  repeat match goal with
  | |- context [if ?x =? ?y then _ else _] => destruct (Z.eqb_spec x y); cbn [andb]
  | |- context [if (?x =? ?y) && _ then _ else _] => destruct (Z.eqb_spec x y); cbn [andb]
  end; rewrite ?orb_false_iff, ?Z.ltb_ge, ?Z.leb_gt.

(** From left to right the character is computed, from right to left its bytes. *)
Ltac encodes c :=
  let H := fresh in intros H; exists c; split; [unfold accepted, scalar; lia|];
  rewrite XmlUtf8Encode_spec by lia; unfold utf8; repeat (case_match; [lia|]);
  first [lia|(case_match; [elements|lia])|elements].
Ltac decodes :=
  intros (c & [[Hc Hs] [Hn1 Hn2]] & He); rewrite XmlUtf8Encode_spec in He by lia; unfold utf8 in He;
  repeat case_match; simplify_eq He; intros; subst; divmod.

(** Reads of the first bytes of a list. *)
Ltac rd_front :=
  cbn [app];
  repeat match goal with
  | |- context [rd (_ :: _) 0] => rewrite rd_cons_0
  | |- context [rd (_ :: _) ?k] => rewrite (rd_cons _ _ k) by lia; let k' := eval compute in (k - 1) in change (k - 1) with k'
  end; cbn [rbind Z.eqb Pos.eqb].

Lemma valid2 b0 b1 : 0xC0 <= b0 < 0xE0 -> byte b1 ->
  UTF8_INVALID2 b0 b1 = false <-> exists c, accepted c /\ [b0; b1] = XmlUtf8Encode c.
Proof. validity. split; [encodes ((b0 - 0xC0) * 64 + (b1 - 0x80))|decodes]. Qed.

Lemma valid3 b0 b1 b2 : 0xE0 <= b0 < 0xF0 -> byte b1 -> byte b2 ->
  UTF8_INVALID3 b0 b1 b2 = false <-> exists c, accepted c /\ [b0; b1; b2] = XmlUtf8Encode c.
Proof. validity; (split; [encodes ((b0 - 0xE0) * 4096 + (b1 - 0x80) * 64 + (b2 - 0x80))|decodes]). Qed.

Lemma valid4 b0 b1 b2 b3 : 0xF0 <= b0 < 0xF5 -> byte b1 -> byte b2 -> byte b3 ->
  UTF8_INVALID4 b0 b1 b2 b3 = false <-> exists c, accepted c /\ [b0; b1; b2; b3] = XmlUtf8Encode c.
Proof.
  validity; (split; [encodes ((b0 - 0xF0) * 262144 + (b1 - 0x80) * 4096 + (b2 - 0x80) * 64 + (b3 - 0x80))|decodes]).
Qed.

(** C26: The validity macros accept exactly UTF-8. On the bytes of a character as long
    as its first byte announces, wherever they are in the buffer, [utf8_isInvalid]
    answers no exactly when they are what [XmlUtf8Encode] writes for a Unicode scalar
    value other than U+FFFE and U+FFFF: overlong forms, surrogates and values past
    U+10FFFF are refused. *)
Theorem utf8_valid_iff pre b0 tail rest n :
  Forall (fun b => byte b) (b0 :: tail) ->
  rbind (type_at (utf8_types (asciitab BT_NMSTRT)) b0) (fun t => Ok (lead t)) = Ok (Some n) ->
  zlen (b0 :: tail) = n ->
  utf8_isInvalid n (pre ++ (b0 :: tail) ++ rest) (zlen pre) = Ok false <->
  exists c, accepted c /\ b0 :: tail = XmlUtf8Encode c.
Proof.
  intros [Hb0 Ht]%Forall_cons_1 Hlead Hn. rewrite utf8_lead_range in Hlead by done. unfold lead_length in Hlead.
  unfold utf8_isInvalid. rewrite rd_app_0, !rd_app_r by lia. cbn [app].
  destruct tail as [|b1 tail]; [change (zlen [b0]) with 1 in Hn; repeat case_match; simplify_eq; lia|].
  apply Forall_cons_1 in Ht as [Hb1 Ht]. destruct tail as [|b2 tail].
  { change (zlen [b0; b1]) with 2 in Hn. subst n. rd_front. rewrite <- valid2 by (done || (repeat case_match; simplify_eq; lia)).
    split; congruence. }
  apply Forall_cons_1 in Ht as [Hb2 Ht]. destruct tail as [|b3 tail].
  { change (zlen [b0; b1; b2]) with 3 in Hn. subst n. rd_front. rewrite <- valid3 by (done || (repeat case_match; simplify_eq; lia)).
    split; congruence. }
  apply Forall_cons_1 in Ht as [Hb3 Ht].
  assert (n = 4) as ->. { rewrite !zlen_cons in Hn. pose proof (zlen_nonneg tail). repeat case_match; simplify_eq; lia. }
  destruct tail as [|? tail]; [|rewrite !zlen_cons in Hn; pose proof (zlen_nonneg tail); lia].
  rd_front. rewrite <- valid4 by (done || (repeat case_match; simplify_eq; lia)). split; congruence.
Qed.

Lemma utf8_valid_iff_witness :
  utf8_isInvalid 3 ([65] ++ [0xE2; 0x82; 0xAC] ++ []) 1 = Ok false <->
  exists c, accepted c /\ [0xE2; 0x82; 0xAC] = XmlUtf8Encode c.
Proof. apply (utf8_valid_iff [65] 0xE2 [0x82; 0xAC] [] 3); [repeat constructor; lia|reflexivity|reflexivity]. Defined.
