(* ===== verification/ExpatText.v ===== *)
(** * Expat's text helpers: [src/apr-util/xml/expat/lib/xmltok_impl.c]

    What the parser does with the text of a token the scanners have accepted: split
    attribute and entity values, number character references, compare and measure
    names, look up the predefined entities, check public identifiers and keep the
    position. Most of these take no end pointer and rely on the scanners; the
    relation [text] below says what they may rely on. *)

From S2P Require Import Prelude ExpatRole ExpatTok ExpatScan ExpatEnc ExpatUtf.

(** ** The helpers *)

Section helpers.
Context (enc : ENCODING) (m : list Z).
Abbreviation MIN := (MINBPC enc).

(** Every iteration of a loop without an end pointer reads at a greater offset, so
    it has left the buffer after as many as there are bytes. *)
Definition fuel_of (ptr : Z) : nat := fuel_at (zlen m) ptr.

(** The step over a character in the loops that do not check it. *)
Definition width (t : BT) : Z := match lead t with Some n => n | None => MIN end.

(** [attributeValueTok], from the first character [start] on. *)
Fixpoint attributeValue_loop (end_ start : Z) (fuel : nat) (ptr : Z) : res scan :=
  match fuel with
  | O => Err OutOfFuel
  | S fuel =>
      if ptr =? end_ then Ok (Tok XML_TOK_DATA_CHARS, Some ptr) else
      do t <- BYTE_TYPE enc m ptr;
      match t with
      | BT_AMP =>
          if ptr =? start then scanRef enc m end_ (ptr + MIN) else Ok (Tok XML_TOK_DATA_CHARS, Some ptr)
      | BT_LT => Ok (INVALID ptr)
      | BT_LF =>
          Ok (if ptr =? start then (Tok XML_TOK_DATA_NEWLINE, Some (ptr + MIN)) else (Tok XML_TOK_DATA_CHARS, Some ptr))
      | BT_CR =>
          if ptr =? start then scan_cr enc m end_ XML_TOK_TRAILING_CR ptr else Ok (Tok XML_TOK_DATA_CHARS, Some ptr)
      | BT_S =>
          Ok (if ptr =? start then (Tok XML_TOK_ATTRIBUTE_VALUE_S, Some (ptr + MIN)) else (Tok XML_TOK_DATA_CHARS, Some ptr))
      | _ => attributeValue_loop end_ start fuel (ptr + width t)
      end
  end.

Definition attributeValueTok (ptr end_ : Z) : res scan :=
  if ptr =? end_ then Ok (Tok XML_TOK_NONE, None) else attributeValue_loop end_ ptr (fuel_of ptr) ptr.

Fixpoint entityValue_loop (end_ start : Z) (fuel : nat) (ptr : Z) : res scan :=
  match fuel with
  | O => Err OutOfFuel
  | S fuel =>
      if ptr =? end_ then Ok (Tok XML_TOK_DATA_CHARS, Some ptr) else
      do t <- BYTE_TYPE enc m ptr;
      match t with
      | BT_AMP =>
          if ptr =? start then scanRef enc m end_ (ptr + MIN) else Ok (Tok XML_TOK_DATA_CHARS, Some ptr)
      | BT_PERCNT =>
          if ptr =? start then
            do (tk, next) <- scanPercent enc m end_ (ptr + MIN);
            Ok (if bool_decide (tk = Tok XML_TOK_PERCENT) then Tok XML_TOK_INVALID else tk, next)
          else Ok (Tok XML_TOK_DATA_CHARS, Some ptr)
      | BT_LF =>
          Ok (if ptr =? start then (Tok XML_TOK_DATA_NEWLINE, Some (ptr + MIN)) else (Tok XML_TOK_DATA_CHARS, Some ptr))
      | BT_CR =>
          if ptr =? start then scan_cr enc m end_ XML_TOK_TRAILING_CR ptr else Ok (Tok XML_TOK_DATA_CHARS, Some ptr)
      | _ => entityValue_loop end_ start fuel (ptr + width t)
      end
  end.

Definition entityValueTok (ptr end_ : Z) : res scan :=
  if ptr =? end_ then Ok (Tok XML_TOK_NONE, None) else entityValue_loop end_ ptr (fuel_of ptr) ptr.

(** [isPublicId(enc, ptr, end, badPtr)]: [None] for 1, [Some bad] for 0. *)
Definition public_char (ptr : Z) : res bool :=
  do t <- BYTE_TYPE enc m ptr;
  let other_ := (do c <- BYTE_TO_ASCII enc m ptr; Ok ((c =? 0x24) || (c =? 0x40))) in
  match t with
  | BT_DIGIT | BT_HEX | BT_MINUS | BT_APOS | BT_LPAR | BT_RPAR | BT_PLUS | BT_COMMA | BT_SOL | BT_EQUALS
  | BT_QUEST | BT_CR | BT_LF | BT_SEMI | BT_EXCL | BT_AST | BT_PERCNT | BT_NUM | BT_COLON => Ok true
  | BT_S => do tab <- CHAR_MATCHES enc 9 m ptr; Ok (negb tab)
  | BT_NAME | BT_NMSTRT =>
      do c <- BYTE_TO_ASCII enc m ptr;
      if Z.land c (Z.lnot 0x7f) =? 0 then Ok true else other_
  | _ => other_
  end.

Fixpoint publicId_loop (end_ : Z) (fuel : nat) (ptr : Z) : res (option Z) :=
  match fuel with
  | O => Err OutOfFuel
  | S fuel =>
      if ptr =? end_ then Ok None else
      do ok <- public_char ptr;
      if ok : bool then publicId_loop end_ fuel (ptr + MIN) else Ok (Some ptr)
  end.

Definition isPublicId (ptr end_ : Z) : res (option Z) :=
  publicId_loop (end_ - MIN) (fuel_of ptr) (ptr + MIN).

(** [charRefNumber(enc, ptr)]; [result] stays below [0x110000 * 16], far from the
    limit of an [int]. *)
Fixpoint charRef_hex (fuel : nat) (ptr result : Z) : res Z :=
  match fuel with
  | O => Err OutOfFuel
  | S fuel =>
      do semi <- CHAR_MATCHES enc 59 m ptr;
      if semi : bool then checkCharRefNumber result else
      do c <- BYTE_TO_ASCII enc m ptr;
      let result :=
        if (48 <=? c) && (c <=? 57) then Z.lor (s32 (Z.shiftl result 4)) (c - 48)
        else if (65 <=? c) && (c <=? 70) then s32 (s32 (Z.shiftl result 4) + (10 + (c - 65)))
        else if (97 <=? c) && (c <=? 102) then s32 (s32 (Z.shiftl result 4) + (10 + (c - 97)))
        else result in
      if 0x110000 <=? result then Ok (-1) else charRef_hex fuel (ptr + MIN) result
  end.

Fixpoint charRef_decimal (fuel : nat) (ptr result : Z) : res Z :=
  match fuel with
  | O => Err OutOfFuel
  | S fuel =>
      do semi <- CHAR_MATCHES enc 59 m ptr;
      if semi : bool then checkCharRefNumber result else
      do c <- BYTE_TO_ASCII enc m ptr;
      let result := s32 (s32 (result * 10) + (c - 48)) in
      if 0x110000 <=? result then Ok (-1) else charRef_decimal fuel (ptr + MIN) result
  end.

Definition charRefNumber (ptr : Z) : res Z :=
  let ptr := ptr + 2 * MIN in
  do x <- CHAR_MATCHES enc 120 m ptr;
  if x : bool then charRef_hex (fuel_of ptr) (ptr + MIN) 0 else charRef_decimal (fuel_of ptr) ptr 0.

(** [predefinedEntityName(enc, ptr, end)]: the nested tests are the comparison of the
    characters after the first with [lit], which stops at the first difference. *)
Fixpoint matches_rest (lit : list Z) (ptr : Z) : res bool :=
  match lit with
  | [] => Ok true
  | c :: lit =>
      do ok <- CHAR_MATCHES enc c m ptr;
      if ok : bool then matches_rest lit (ptr + MIN) else Ok false
  end.

Definition predefinedEntityName (ptr end_ : Z) : res Z :=
  let n := Z.quot (end_ - ptr) MIN in
  if n =? 2 then
    do t <- CHAR_MATCHES enc 116 m (ptr + MIN);
    if t : bool then
      do c <- BYTE_TO_ASCII enc m ptr;
      Ok (if c =? 108 then 60 else if c =? 103 then 62 else 0)
    else Ok 0
  else if n =? 3 then
    do ok <- matches_rest (str "amp") ptr; Ok (if ok : bool then 38 else 0)
  else if n =? 4 then
    do c <- BYTE_TO_ASCII enc m ptr;
    if c =? 113 then do ok <- matches_rest (str "uot") (ptr + MIN); Ok (if ok : bool then 34 else 0)
    else if c =? 97 then do ok <- matches_rest (str "pos") (ptr + MIN); Ok (if ok : bool then 39 else 0)
    else Ok 0
  else Ok 0.

(** The types the loops over names go on at. *)
Definition name_type (t : BT) : bool :=
  match t with
  | BT_LEAD2 | BT_LEAD3 | BT_LEAD4 | BT_NONASCII | BT_NMSTRT | BT_COLON | BT_HEX | BT_DIGIT | BT_NAME | BT_MINUS => true
  | _ => false
  end.

Fixpoint nameLength_loop (fuel : nat) (start ptr : Z) : res Z :=
  match fuel with
  | O => Err OutOfFuel
  | S fuel =>
      do t <- BYTE_TYPE enc m ptr;
      if name_type t then nameLength_loop fuel start (ptr + width t) else Ok (ptr - start)
  end.

Definition nameLength (ptr : Z) : res Z := nameLength_loop (fuel_of ptr) ptr ptr.

Fixpoint skipS_loop (fuel : nat) (ptr : Z) : res Z :=
  match fuel with
  | O => Err OutOfFuel
  | S fuel =>
      do t <- BYTE_TYPE enc m ptr;
      match t with BT_LF | BT_CR | BT_S => skipS_loop fuel (ptr + MIN) | _ => Ok ptr end
  end.

Definition skipS (ptr : Z) : res Z := skipS_loop (fuel_of ptr) ptr.

(** [updatePosition(enc, ptr, end, pos)]; an [unsigned long] has [bits] bits, and
    [columnNumber] is set to [(unsigned)-1] before it is incremented. *)
Record POSITION := mkPos { lineNumber : Z; columnNumber : Z }.

Definition ulong (bits z : Z) : Z := z mod 2 ^ bits.

Fixpoint position_loop (bits end_ : Z) (fuel : nat) (ptr : Z) (pos : POSITION) : res POSITION :=
  match fuel with
  | O => Err OutOfFuel
  | S fuel =>
      if negb (ptr <? end_) then Ok pos else
      do t <- BYTE_TYPE enc m ptr;
      match t with
      | BT_LF =>
          position_loop bits end_ fuel (ptr + MIN)
            (mkPos (ulong bits (lineNumber pos + 1)) (ulong bits (u32 (-1) + 1)))
      | BT_CR =>
          let ptr := ptr + MIN in
          do lf <- (if negb (ptr =? end_) then do t <- BYTE_TYPE enc m ptr; Ok (bool_decide (t = BT_LF)) else Ok false);
          position_loop bits end_ fuel (if lf : bool then ptr + MIN else ptr)
            (mkPos (ulong bits (lineNumber pos + 1)) (ulong bits (u32 (-1) + 1)))
      | _ =>
          position_loop bits end_ fuel (ptr + width t)
            (mkPos (lineNumber pos) (ulong bits (columnNumber pos + 1)))
      end
  end.

Definition updatePosition (bits ptr end_ : Z) (pos : POSITION) : res POSITION :=
  position_loop bits end_ (fuel_of ptr) ptr pos.
End helpers.

(** [sameName(enc, ptr1, ptr2)], the names in two buffers. *)
Section sameName.
Context (enc : ENCODING) (m1 m2 : list Z).

(** The comparison of [n] bytes, in the order the source does them. *)
Fixpoint same_bytes_at (n : nat) (p1 p2 : Z) : res bool :=
  match n with
  | O => Ok true
  | S n =>
      do a <- rd m1 p1; do b <- rd m2 p2;
      if a =? b then same_bytes_at n (p1 + 1) (p2 + 1) else Ok false
  end.

Fixpoint sameName_loop (fuel : nat) (p1 p2 : Z) : res bool :=
  match fuel with
  | O => Err OutOfFuel
  | S fuel =>
      do t <- BYTE_TYPE enc m1 p1;
      if name_type t then
        do same <- same_bytes_at (Z.to_nat (width enc t)) p1 p2;
        if same : bool then sameName_loop fuel (p1 + width enc t) (p2 + width enc t) else Ok false
      else
        do same <- (if MINBPC enc =? 1 then do a <- rd m1 p1; do b <- rd m2 p2; Ok (a =? b) else Ok false);
        if same : bool then Ok true else do t <- BYTE_TYPE enc m2 p2; Ok (negb (name_type t))
  end.

Definition sameName (p1 p2 : Z) : res bool := sameName_loop (fuel_of m1 p1) p1 p2.
End sameName.

(** ** Text in whole characters *)

(** What the helpers need of an encoding beyond [EncodingLaws]: what a character is
    depends on its bytes and not on where they are, and the ASCII characters have the
    types of asciitab.h or iasciitab.h, the others types of their own. *)
(** The types a character outside ASCII may have. *)
Definition high_type (t : BT) : bool :=
  match t with
  | BT_NONXML | BT_MALFORM | BT_LEAD2 | BT_LEAD3 | BT_LEAD4 | BT_TRAIL | BT_OTHER | BT_NMSTRT | BT_NAME | BT_NONASCII => true
  | _ => false
  end.

Definition is_ascii (c : Z) : bool := (0 <=? c) && (c <? 128).

Class AsciiLaws (enc : ENCODING) : Prop := {
  law_shift_type pre s : BYTE_TYPE enc (pre ++ s) (zlen pre) = BYTE_TYPE enc s 0;
  law_char_matches c m p : 0 <= c < 128 -> CHAR_MATCHES enc c m p = (do a <- BYTE_TO_ASCII enc m p; Ok (a =? c));
  law_ascii_type : exists cr colon, (cr = BT_CR \/ cr = BT_S) /\ (colon = BT_COLON \/ colon = BT_NMSTRT) /\
    forall m p c t, BYTE_TO_ASCII enc m p = Ok c -> BYTE_TYPE enc m p = Ok t ->
      if is_ascii c then type_at (ascii_types cr colon) c = Ok t else high_type t = true
}.

(** What the tables say of some types, and of the characters they are compared with. *)
Definition ascii_class (t : BT) (c : Z) : bool :=
  match t with
  | BT_DIGIT => (48 <=? c) && (c <=? 57)
  | BT_HEX => ((65 <=? c) && (c <=? 70)) || ((97 <=? c) && (c <=? 102))
  | BT_SEMI => c =? 59
  | BT_S => (c =? 32) || (c =? 9) || (c =? 13)
  | _ => negb (c =? 59) && negb (c =? 32) && (negb (c =? 120) || bool_decide (t = BT_NMSTRT))
  end.

Lemma ascii_class_ok enc `{!AsciiLaws enc} m p c t :
  BYTE_TO_ASCII enc m p = Ok c -> BYTE_TYPE enc m p = Ok t -> ascii_class t c = true.
Proof.
  intros Hc Ht. destruct law_ascii_type as (cr & colon & Hcr & Hcol & H). specialize (H m p c t Hc Ht).
  assert (Hhigh : ~ (0 <= c < 128) -> high_type t = true -> ascii_class t c = true).
  { intros Hno Hh. assert (H59 : (c =? 59) = false) by lia. assert (H32 : (c =? 32) = false) by lia.
    assert (H120 : (c =? 120) = false) by lia. destruct t; try discriminate Hh; cbn [ascii_class]; by rewrite H59, H32, H120. }
  unfold is_ascii in H. destruct (Z.leb_spec 0 c), (Z.ltb_spec c 128); cbn [andb] in H.
  - assert (Hall : forall k, 0 <= k < 128 -> rbind (type_at (ascii_types cr colon) k) (fun t => Ok (ascii_class t k)) = Ok true).
    { apply (forall_below (fun k => rbind (type_at (ascii_types cr colon) k) (fun t => Ok (ascii_class t k)) = Ok true) 128).
      destruct Hcr as [-> | ->], Hcol as [-> | ->]; vm_compute; reflexivity. }
    specialize (Hall c ltac:(lia)). rewrite H in Hall. cbn [rbind] in Hall. by injection Hall.
  - by apply Hhigh; [lia|].
  - by apply Hhigh; [lia|].
  - by apply Hhigh; [lia|].
Qed.

Section text.
Context (enc : ENCODING) `{!EncodingLaws enc} (m : list Z).
Abbreviation MIN := (MINBPC enc).

(** The characters from [p] to [q]: their types and what they are in ASCII. *)
Inductive text : Z -> Z -> list (BT * Z) -> Prop :=
  | text_nil p : text p p []
  | text_cons p q t c cs :
      BYTE_TYPE enc m p = Ok t -> BYTE_TO_ASCII enc m p = Ok c -> text (p + width enc t) q cs ->
      text p q ((t, c) :: cs).

Lemma width_pos t : 1 <= width enc t.
Proof using Type*.
  unfold width. destruct (lead t) as [n|] eqn:E; [apply lead_range in E; lia|]. destruct (@law_minbpc enc _) as [-> | ->]; lia.
Qed.

Lemma text_le p q cs : text p q cs -> p + zlen cs <= q.
Proof using Type*.
  induction 1 as [p|p q t c cs _ _ _ IH]; [rewrite zlen_nil; lia|]. rewrite zlen_cons. pose proof (width_pos t). lia.
Qed.

Lemma text_app p q r cs1 cs2 : text p q cs1 -> text q r cs2 -> text p r (cs1 ++ cs2).
Proof. induction 1; intros H2; [done|]. cbn [app]. econstructor; eauto. Qed.

Lemma text_one p t c : BYTE_TYPE enc m p = Ok t -> BYTE_TO_ASCII enc m p = Ok c -> text p (p + width enc t) [(t, c)].
Proof. intros. econstructor; [done|done|constructor]. Qed.

(** *** Names and space *)

Definition names (cs : list (BT * Z)) : Prop := Forall (fun tc => name_type (fst tc) = true) cs.

Lemma nameLength_loop_spec start fuel p q cs t :
  text p q cs -> names cs -> BYTE_TYPE enc m q = Ok t -> name_type t = false -> (length cs < fuel)%nat ->
  nameLength_loop enc m fuel start p = Ok (q - start).
Proof.
  intros Ht Hn Hq Hnt. revert fuel. induction Ht as [p|p q t' c cs Hty Hc Ht IH]; intros [|fuel] Hf; cbn [length] in *; [lia..| |lia|];
    cbn [nameLength_loop].
  - rewrite Hq. cbn [rbind]. by rewrite Hnt.
  - apply Forall_cons_1 in Hn as [Hn1 Hn]. rewrite Hty. cbn [rbind fst] in *. rewrite Hn1. apply IH; [done|done|lia].
Qed.

Definition spaces (cs : list (BT * Z)) : Prop := Forall (fun tc => fst tc = BT_S \/ fst tc = BT_CR \/ fst tc = BT_LF) cs.

Lemma skipS_loop_spec fuel p q cs t :
  text p q cs -> spaces cs -> BYTE_TYPE enc m q = Ok t -> t <> BT_S -> t <> BT_CR -> t <> BT_LF -> (length cs < fuel)%nat ->
  skipS_loop enc m fuel p = Ok q.
Proof.
  intros Ht Hn Hq H1 H2 H3. revert fuel. induction Ht as [p|p q t' c cs Hty Hc Ht IH]; intros [|fuel] Hf; cbn [length] in *; [lia..| |lia|];
    cbn [skipS_loop].
  - rewrite Hq. cbn [rbind]. by destruct t.
  - apply Forall_cons_1 in Hn as [Hn1 Hn]. rewrite Hty. cbn [rbind fst] in *.
    destruct Hn1 as [-> |[-> | ->]]; (apply IH; [done|done|lia]).
Qed.

(** *** Positions *)

(** The characters of a text as the document's author sees them: [true] for a line
    break, which a carriage return, a line feed or the pair of them is. *)
Fixpoint breaks (ts : list BT) : list bool :=
  match ts with
  | [] => []
  | BT_CR :: BT_LF :: ts | BT_CR :: ts | BT_LF :: ts => true :: breaks ts
  | _ :: ts => false :: breaks ts
  end.

(** The lines are counted by their breaks, the columns from the last break, where
    they start at [start]. *)
Definition lines_after (bs : list bool) (line : Z) : Z := line + Z.of_nat (count_occ bool_dec bs true).

Definition column_after (start : Z) (bs : list bool) (column : Z) : Z :=
  fold_left (fun c (nl : bool) => if nl then start else c + 1) bs column.

(** What [(unsigned)-1] incremented is in an [unsigned long]. *)
Definition line_start (bits : Z) : Z := ulong bits (2 ^ 32).

Definition position_after (bits : Z) (bs : list bool) (pos : POSITION) : POSITION :=
  mkPos (ulong bits (lines_after bs (lineNumber pos))) (ulong bits (column_after (line_start bits) bs (columnNumber pos))).

Lemma column_after_mod bits start bs c c' :
  0 <= bits -> ulong bits c = ulong bits c' -> ulong bits (column_after start bs c) = ulong bits (column_after start bs c').
Proof.
  intros Hb. revert c c'. unfold column_after. induction bs as [|[] bs IH]; intros c c' H; cbn [fold_left]; [done|done|].
  apply IH. unfold ulong in *. rewrite (Z.add_mod c), (Z.add_mod c') by (apply Z.pow_nonzero; lia). by rewrite H.
Qed.

Lemma position_after_cons bits b bs pos :
  0 <= bits -> position_after bits (b :: bs) pos =
  position_after bits bs (if b then mkPos (ulong bits (lineNumber pos + 1)) (line_start bits)
                          else mkPos (lineNumber pos) (ulong bits (columnNumber pos + 1))).
Proof.
  intros Hb. assert (H2 : 2 ^ bits <> 0) by (apply Z.pow_nonzero; lia).
  unfold position_after, lines_after. destruct b; cbn [lineNumber columnNumber]; apply (f_equal2 mkPos).
  - rewrite count_occ_cons_eq by done. unfold ulong. rewrite Z.add_mod_idemp_l by done. f_equal. lia.
  - done.
  - rewrite count_occ_cons_neq by done. done.
  - apply (column_after_mod bits _ bs (columnNumber pos + 1)); [done|]. unfold ulong. by rewrite Z.mod_mod.
Qed.

Definition wf_position (bits : Z) (pos : POSITION) : Prop :=
  0 <= lineNumber pos < 2 ^ bits /\ 0 <= columnNumber pos < 2 ^ bits.

Lemma ulong_range bits z : 0 <= bits -> 0 <= ulong bits z < 2 ^ bits.
Proof. intros. apply Z.mod_pos_bound. by apply Z.pow_pos_nonneg. Qed.

Lemma position_loop_spec bits end_ fuel : forall p cs pos,
  0 <= bits -> wf_position bits pos -> text p end_ cs -> (length cs < fuel)%nat ->
  position_loop enc m bits end_ fuel p pos = Ok (position_after bits (breaks (map fst cs)) pos).
Proof using Type*.
  induction fuel as [|fuel IH]; intros p cs pos Hb Hw Ht Hf; [lia|]. cbn [position_loop].
  pose proof (text_le _ _ _ Ht) as Hle. inversion Ht as [|p' q t c cs' Hty Hc Hrest]; subst.
  { rewrite Z.ltb_irrefl. cbn [negb map breaks]. destruct pos as [l c], Hw as [Hl Hc]. cbn in Hl, Hc.
    unfold position_after, lines_after, column_after, ulong. cbn. by rewrite Z.add_0_r, !Z.mod_small by done. }
  rewrite zlen_cons in Hle. pose proof (zlen_nonneg cs'). replace (p <? end_) with true by (symmetry; lia). cbn [negb].
  rewrite Hty. cbn [rbind map fst]. cbn [length] in Hf.
  assert (Hnl : wf_position bits (mkPos (ulong bits (lineNumber pos + 1)) (ulong bits (u32 (-1) + 1)))) by (split; by apply ulong_range).
  assert (Hch : wf_position bits (mkPos (lineNumber pos) (ulong bits (columnNumber pos + 1)))) by (split; [apply Hw|by apply ulong_range]).
  destruct t; try (cbn [breaks]; rewrite position_after_cons by done; apply IH; [done|done|exact Hrest|lia]).
  unfold width in Hrest. cbn [lead] in Hrest. destruct (Z.eqb_spec (p + MIN) end_) as [E|E]; cbn [negb rbind].
  - subst end_. inversion Hrest as [|? ? t ? ? ? ? Hr]; subst; [|pose proof (text_le _ _ _ Hr); pose proof (width_pos t); pose proof (zlen_nonneg cs); lia].
    cbn [map breaks]. rewrite position_after_cons by done. by apply (IH _ []); [..|constructor|cbn; lia].
  - inversion Hrest as [|? ? t ? cs2 Hty2 ? Hr]; subst; [done|]. rewrite Hty2. cbn [rbind map fst length] in *.
    case_bool_decide as Hlf; [subst t|].
    + cbn [breaks]. rewrite position_after_cons by done. apply IH; [done|done|exact Hr|lia].
    + replace (breaks (BT_CR :: t :: map fst cs2)) with (true :: breaks (t :: map fst cs2)) by (by destruct t).
      rewrite position_after_cons by done. apply (IH _ ((t, c0) :: cs2)); [done|done|exact Hrest|cbn [length]; lia].
Qed.

(** *** Character references *)

Definition digits (hex : bool) (cs : list (BT * Z)) : Prop :=
  Forall (fun tc => fst tc = BT_DIGIT \/ hex = true /\ fst tc = BT_HEX) cs.

Definition digit_value (c : Z) : Z := if c <=? 57 then c - 48 else if c <=? 70 then c - 55 else c - 87.

Definition ref_number (hex : bool) (cs : list (BT * Z)) (n : Z) : Z :=
  fold_left (fun n tc => n * (if hex then 16 else 10) + digit_value (snd tc)) cs n.

(** The production [Char] of XML 1.0: the numbers that are characters. *)
Definition xml_char (n : Z) : bool :=
  (n =? 0x9) || (n =? 0xA) || (n =? 0xD) || (0x20 <=? n) && (n <=? 0xD7FF) ||
  (0xE000 <=? n) && (n <=? 0xFFFD) || (0x10000 <=? n) && (n <=? 0x10FFFF).

(** The character a number refers to, [-1] if it is none. *)
Definition char_of_number (n : Z) : res Z := Ok (if xml_char n then n else -1).

Lemma checkCharRefNumber_xml n : 0 <= n < 0x110000 -> checkCharRefNumber n = char_of_number n.
Proof.
  intros Hn. destruct (Z.lt_ge_cases n 256) as [Hlo|Hhi].
  - revert n Hn Hlo. assert (H : forall n, 0 <= n < Z.of_nat 256 -> checkCharRefNumber n = char_of_number n)
      by (apply (forall_below (fun n => checkCharRefNumber n = char_of_number n) 256); vm_compute; reflexivity).
    intros n Hn Hlo. apply H. lia.
  - unfold checkCharRefNumber, char_of_number, xml_char. rewrite Z.shiftr_div_pow2 by lia. change (2 ^ 8) with 256.
    assert (Hdiv : n = 256 * (n / 256) + n mod 256 /\ 0 <= n mod 256 < 256) by (split; [apply Z.div_mod; lia|apply Z.mod_pos_bound; lia]).
    set (h := n / 256) in *. replace (h =? 0) with false by (symmetry; apply Z.eqb_neq; lia).
    destruct ((0xD8 <=? h) && (h <=? 0xDF)) eqn:E1; [|destruct (h =? 0xFF) eqn:E2; [destruct ((n =? 0xFFFE) || (n =? 0xFFFF)) eqn:E3|]];
      f_equal; case_match eqn:E; try done; exfalso; lia.
Qed.

Context `{!AsciiLaws enc}.

Lemma matches_ascii c p a : 0 <= c < 128 -> BYTE_TO_ASCII enc m p = Ok a -> CHAR_MATCHES enc c m p = Ok (a =? c).
Proof using Type*. intros Hc Ha. rewrite law_char_matches by done. by rewrite Ha. Qed.

Lemma digit_ascii hex t c p :
  BYTE_TYPE enc m p = Ok t -> BYTE_TO_ASCII enc m p = Ok c -> t = BT_DIGIT \/ hex = true /\ t = BT_HEX ->
  48 <= c <= 57 \/ hex = true /\ (65 <= c <= 70 \/ 97 <= c <= 102).
Proof using Type*.
  intros Ht Hc Hd. pose proof (ascii_class_ok enc m p c t Hc Ht) as Ha. destruct Hd as [-> |[-> ->]]; cbn [ascii_class] in Ha; lia.
Qed.

Lemma ref_number_ge hex cs n :
  Forall (fun tc => 0 <= digit_value (snd tc)) cs -> 0x110000 <= n -> 0x110000 <= ref_number hex cs n.
Proof.
  intros H. revert n. induction H as [|tc cs Hd H IH]; intros n Hn; [done|]. cbn [ref_number fold_left].
  apply IH. destruct hex; lia.
Qed.

Lemma digits_nonneg p q hex cs : text p q cs -> digits hex cs -> Forall (fun tc => 0 <= digit_value (snd tc)) cs.
Proof using Type*.
  induction 1 as [p|p q t c cs Ht Hc Htx IH]; intros Hd; [constructor|]. apply Forall_cons_1 in Hd as [Hd1 Hd].
  constructor; [|by apply IH]. cbn [snd]. destruct (digit_ascii hex t c p Ht Hc Hd1); unfold digit_value; repeat case_match; lia.
Qed.

(** One digit of either loop. *)
Lemma digit_step hex p q t c cs n (loop : Z -> res Z) :
  text p q ((t, c) :: cs) -> digits hex ((t, c) :: cs) -> 0 <= n < 0x110000 ->
  (0 <= n * (if hex then 16 else 10) + digit_value c < 0x110000 ->
    loop (n * (if hex then 16 else 10) + digit_value c) = char_of_number (ref_number hex cs (n * (if hex then 16 else 10) + digit_value c))) ->
  (let n := n * (if hex then 16 else 10) + digit_value c in if 0x110000 <=? n then Ok (-1) else loop n) =
  char_of_number (ref_number hex ((t, c) :: cs) n).
Proof using Type*.
  intros Ht Hd Hn Hloop. pose proof (digits_nonneg _ _ _ _ Ht Hd) as Hnn. apply Forall_cons_1 in Hnn as [Hc Hnn]. cbn [snd] in Hc.
  cbv zeta. change (ref_number hex ((t, c) :: cs) n) with (ref_number hex cs (n * (if hex then 16 else 10) + digit_value c)).
  destruct (Z.leb_spec 0x110000 (n * (if hex then 16 else 10) + digit_value c)) as [Hge|Hlt].
  - pose proof (ref_number_ge hex cs _ Hnn Hge). unfold char_of_number. destruct (xml_char _) eqn:E; [|done]. unfold xml_char in E. exfalso. lia.
  - apply Hloop. destruct hex; lia.
Qed.

Lemma s32_small z : 0 <= z < 2 ^ 31 -> s32 z = z.
Proof. intros. unfold s32. rewrite Z.mod_small; lia. Qed.

Lemma semicolon q : BYTE_TYPE enc m q = Ok BT_SEMI -> (exists c, BYTE_TO_ASCII enc m q = Ok c) -> CHAR_MATCHES enc 59 m q = Ok true.
Proof using Type*.
  intros Ht [c Hc]. pose proof (ascii_class_ok enc m q c _ Hc Ht) as Ha. cbn [ascii_class] in Ha.
  rewrite (matches_ascii 59 q c) by (done || lia). by rewrite Ha.
Qed.

(** The digit of the hexadecimal loop. *)
Lemma hex_digit_step n c :
  0 <= n < 0x110000 -> 48 <= c <= 57 \/ 65 <= c <= 70 \/ 97 <= c <= 102 ->
  (if (48 <=? c) && (c <=? 57) then Z.lor (s32 (Z.shiftl n 4)) (c - 48)
   else if (65 <=? c) && (c <=? 70) then s32 (s32 (Z.shiftl n 4) + (10 + (c - 65)))
   else if (97 <=? c) && (c <=? 102) then s32 (s32 (Z.shiftl n 4) + (10 + (c - 97)))
   else n) = n * 16 + digit_value c.
Proof.
  intros Hn Hc. rewrite Z.shiftl_mul_pow2 by lia. rewrite !(s32_small (n * 2 ^ 4)) by lia. unfold digit_value.
  destruct Hc as [Hc|[Hc|Hc]].
  - replace ((48 <=? c) && (c <=? 57)) with true by lia. replace (c <=? 57) with true by lia.
    rewrite (lor_add 4) by (lia || (Z.div_mod_to_equations; lia)). lia.
  - replace ((48 <=? c) && (c <=? 57)) with false by lia. replace ((65 <=? c) && (c <=? 70)) with true by lia.
    replace (c <=? 57) with false by lia. replace (c <=? 70) with true by lia. rewrite s32_small; lia.
  - replace ((48 <=? c) && (c <=? 57)) with false by lia. replace ((65 <=? c) && (c <=? 70)) with false by lia.
    replace ((97 <=? c) && (c <=? 102)) with true by lia.
    replace (c <=? 57) with false by lia. replace (c <=? 70) with false by lia. rewrite s32_small; lia.
Qed.

Lemma charRef_hex_spec fuel : forall p q cs n,
  text p q cs -> digits true cs -> CHAR_MATCHES enc 59 m q = Ok true -> 0 <= n < 0x110000 -> (length cs < fuel)%nat ->
  charRef_hex enc m fuel p n = char_of_number (ref_number true cs n).
Proof using Type*.
  induction fuel as [|fuel IH]; intros p q cs n Ht Hd Hq Hn Hf; [lia|]. cbn [charRef_hex].
  inversion Ht as [|? ? t c cs' Hty Hc Htx]; subst.
  { rewrite Hq. cbn [rbind ref_number fold_left]. by apply checkCharRefNumber_xml. }
  pose proof Hd as [Hd1 Hd']%Forall_cons_1. pose proof (digit_ascii true t c p Hty Hc Hd1) as Hr.
  rewrite (matches_ascii 59 p c) by (done || lia). rewrite Hc. cbn [rbind]. replace (c =? 59) with false by lia.
  rewrite hex_digit_step by (done || lia). apply (digit_step true p q t c cs' n (fun n => charRef_hex enc m fuel (p + MIN) n)); [done..|].
  intros Hn'. cbn [length] in Hf. eapply IH; [|done|done|lia|lia]. unfold width in Htx. cbn [fst] in Hd1.
  by destruct Hd1 as [-> |[_ ->]].
Qed.

Lemma charRef_decimal_spec fuel : forall p q cs n,
  text p q cs -> digits false cs -> CHAR_MATCHES enc 59 m q = Ok true -> 0 <= n < 0x110000 -> (length cs < fuel)%nat ->
  charRef_decimal enc m fuel p n = char_of_number (ref_number false cs n).
Proof using Type*.
  induction fuel as [|fuel IH]; intros p q cs n Ht Hd Hq Hn Hf; [lia|]. cbn [charRef_decimal].
  inversion Ht as [|? ? t c cs' Hty Hc Htx]; subst.
  { rewrite Hq. cbn [rbind ref_number fold_left]. by apply checkCharRefNumber_xml. }
  pose proof Hd as [Hd1 Hd']%Forall_cons_1. destruct (digit_ascii false t c p Hty Hc Hd1) as [Hr|[]]; [|done].
  rewrite (matches_ascii 59 p c) by (done || lia). rewrite Hc. cbn [rbind]. replace (c =? 59) with false by lia.
  rewrite (s32_small (n * 10)), s32_small by lia. replace (c - 48) with (digit_value c) by (unfold digit_value; case_match; lia).
  apply (digit_step false p q t c cs' n (fun n => charRef_decimal enc m fuel (p + MIN) n)); [done..|].
  intros Hn'. cbn [length] in Hf. eapply IH; [|done|done|lia|lia]. unfold width in Htx. cbn [fst] in Hd1.
  by destruct Hd1 as [-> |[]].
Qed.

(** *** The tokens of a value *)

Lemma width_mod p t : BYTE_TYPE enc m p = Ok t -> width enc t mod MIN = 0.
Proof using Type*.
  intros Ht. unfold width. destruct (lead t) as [n|] eqn:E; [by eapply law_lead|].
  destruct (@law_minbpc enc _) as [-> | ->]; reflexivity.
Qed.

Lemma text_inside p q cs : text p q cs -> 0 <= p -> inside enc q p p.
Proof using Type*.
  intros Ht Hp. unfold inside. pose proof (text_le _ _ _ Ht). pose proof (zlen_nonneg cs).
  split; [lia|]. split; [lia|]. clear Hp H H0. induction Ht as [p|p q t c cs Hty Hc Ht IH]; [by rewrite Z.sub_diag|].
  apply width_mod in Hty. replace (q - p) with (q - (p + width enc t) + width enc t) by lia.
  destruct (@law_minbpc enc _) as [E|E]; rewrite E in *; Z.div_mod_to_equations; lia.
Qed.

Section values.
Context (e : Z) (Hb : bytes m) (He : e <= zlen m).

Lemma same_self : same_bytes m m 0 e.
Proof using Hb He.
  intros i Hi. destruct (rd_total m i) as (b & Hl & Hr); [lia|]. exists b.
  split; [by eapply (proj1 (Forall_lookup _ _) Hb)|done].
Qed.

Lemma outcome_wf lo r r' : outcome enc e lo r r' -> exists s, r = Ok s /\ wf_scan enc e lo s.
Proof. intros (s & -> & Hw & _). by exists s. Qed.

Lemma scanRef_wf lo p : past enc e lo p -> exists s, scanRef enc m e p = Ok s /\ wf_scan enc e lo s.
Proof using Type*.
  intros Hp. eapply outcome_wf. apply (scanRef_ok enc m m e e same_self (Z.le_refl e)); [by rewrite Z.sub_diag|done].
Qed.

Lemma scanPercent_wf lo p : past enc e lo p -> exists s, scanPercent enc m e p = Ok s /\ wf_scan enc e lo s.
Proof using Type*.
  intros Hp. eapply outcome_wf. apply (scanPercent_ok enc m m e e same_self (Z.le_refl e)); [by rewrite Z.sub_diag|done].
Qed.

Lemma scan_cr_wf lo p : inside enc e lo p -> p <> e ->
  exists s, scan_cr enc m e XML_TOK_TRAILING_CR p = Ok s /\ wf_scan enc e lo s.
Proof using Type*.
  intros Hp Hne. eapply outcome_wf. apply (scan_cr_ok enc m m e e same_self (Z.le_refl e)); [by rewrite Z.sub_diag|done..].
Qed.

Lemma wf_data lo p : past enc e lo p -> wf_scan enc e lo (Tok XML_TOK_DATA_CHARS, Some p).
Proof. intros. by apply wf_tok. Qed.

Lemma next_past lo p : inside enc e lo p -> p <> e -> past enc e lo (p + MIN).
Proof using Type*.
  intros (Hlo & Hp & Ha) Hne. unfold past, inside. destruct (@law_minbpc enc _) as [E|E]; rewrite E in *; Z.div_mod_to_equations; lia.
Qed.

(** After an ordinary character of a value. *)
Lemma text_next start p t cs :
  text (p + width enc t) e cs -> inside enc e start p ->
  inside enc e start (p + width enc t) /\ (p + width enc t = start -> p + width enc t <> e).
Proof using Type*.
  intros Hrest Hin. pose proof (width_pos t). unfold inside in Hin.
  destruct (text_inside _ _ _ Hrest) as (_ & ? & ?); [lia|]. split; [split; [lia|done]|lia].
Qed.

(** The end of a run of character data past the start of the value. *)
Lemma data_wf start p :
  inside enc e start p -> p <> start -> exists s, Ok (Tok XML_TOK_DATA_CHARS, Some p) = Ok s /\ wf_scan enc e start s.
Proof. intros Hin Hne. eexists. split; [reflexivity|]. apply wf_data. split; [done|]. unfold inside in Hin. lia. Qed.

(** A loop over the characters of a value: each is a token at its start, ends one
    later on, or is passed over. *)
Ltac value_loop start fuel IH :=
  induction fuel as [|fuel IH]; intros p cs Ht Hin Hne Hf; [lia|]; cbn [attributeValue_loop entityValue_loop];
  destruct (Z.eqb_spec p e) as [->|Hpe]; [apply data_wf; [done|intros ->; by apply Hne]|];
  inversion Ht as [|? ? t c cs' Hty Hc Hrest]; subst; [done|]; rewrite Hty; cbn [rbind length] in *;
  pose proof (next_past _ p Hin Hpe) as Hnext; destruct (text_next _ _ _ _ Hrest Hin) as [Hin' Hne'];
  destruct t; try (apply (IH _ cs'); [done..|lia]); destruct (Z.eqb_spec p start) as [Hps|Hps];
  first [ by apply data_wf | apply scanRef_wf; exact Hnext | by apply scan_cr_wf
        | eexists; split; [reflexivity|]; first [by apply wf_invalid|by apply wf_tok] | idtac ].

Lemma attributeValue_wf start fuel : forall p cs,
  text p e cs -> inside enc e start p -> (p = start -> p <> e) -> (length cs < fuel)%nat ->
  exists s, attributeValue_loop enc m e start fuel p = Ok s /\ wf_scan enc e start s.
Proof using Type*. value_loop start fuel IH. Qed.

(** [XML_TOK_PERCENT] made invalid points at the character after the percent sign. *)
Lemma name_cases_return t p s :
  CHECK_NAME_CASES enc m e t p = Ok (Returns s) \/ CHECK_NMSTRT_CASES enc m e t p = Ok (Returns s) ->
  fst s = Tok XML_TOK_PARTIAL_CHAR \/ fst s = Tok XML_TOK_INVALID.
Proof.
  unfold CHECK_NAME_CASES, CHECK_NMSTRT_CASES. destruct t; cbn [lead];
    repeat match goal with |- context [if ?c then _ else _] => destruct c end;
    repeat match goal with |- context [rbind ?x _] => destruct x as [[]|]; cbn [rbind] end;
    intros [E|E]; simplify_eq; auto.
Qed.

Lemma scanRef_name_tok r fuel p next : scanRef_name enc m e r fuel p = Ok (Tok XML_TOK_PERCENT, next) -> r = XML_TOK_PERCENT.
Proof.
  revert p. induction fuel as [|fuel IH]; intros p; cbn [scanRef_name]; [done|]. destruct (p =? e); [done|].
  destruct (BYTE_TYPE enc m p) as [t|]; [|done]. cbn [rbind]. unfold switch.
  destruct (CHECK_NAME_CASES enc m e t p) as [[q|s|]|] eqn:E; cbn [rbind]; [apply IH| | |done].
  - intros [= ->]. destruct (name_cases_return t p _ (or_introl E)) as [H|H]; discriminate H.
  - destruct t; try done. by intros [= ->].
Qed.

Lemma scanPercent_at p next : scanPercent enc m e p = Ok (Tok XML_TOK_PERCENT, next) -> next = Some p /\ p <> e.
Proof.
  unfold scanPercent. destruct (Z.eqb_spec p e) as [|Hne]; [done|].
  destruct (BYTE_TYPE enc m p) as [t|]; [|done]. cbn [rbind]. unfold switch.
  destruct (CHECK_NMSTRT_CASES enc m e t p) as [[q|s|]|] eqn:E; cbn [rbind]; [| | |done].
  - intros H. apply scanRef_name_tok in H. discriminate H.
  - intros [= ->]. destruct (name_cases_return t p _ (or_intror E)) as [H|H]; discriminate H.
  - destruct t; try done; intros [= <-]; done.
Qed.

Lemma entityValue_wf start fuel : forall p cs,
  text p e cs -> inside enc e start p -> (p = start -> p <> e) -> (length cs < fuel)%nat ->
  exists s, entityValue_loop enc m e start fuel p = Ok s /\ wf_scan enc e start s.
Proof using Type*.
  value_loop start fuel IH. destruct (scanPercent_wf start (p + MIN) Hnext) as ([tk next] & Hs & Hw). rewrite Hs. cbn [rbind].
  eexists. split; [reflexivity|]. case_bool_decide as Htk; [|done]. subst tk.
  apply scanPercent_at in Hs as [-> Hpe']. apply wf_invalid; [|done]. by apply past_inside.
Qed.

(** *** What the scanners have accepted *)

(** A scanner that returns a token has passed over whole characters. *)
Abbreviation at_ p := (inside enc e 0 p).

Lemma ascii_at p : at_ p -> p <> e -> exists c, BYTE_TO_ASCII enc m p = Ok c.
Proof using Type*.
  intros Hp Hne. destruct (next_past _ _ Hp Hne) as [[_ [Hle _]] _].
  destruct (law_ascii m m p) as (c & Hc & _); [|by exists c]. intros i Hi. apply same_self. unfold inside in Hp. lia.
Qed.

Lemma char_text p t : at_ p -> p <> e -> BYTE_TYPE enc m p = Ok t -> exists c, text p (p + width enc t) [(t, c)].
Proof using Type*. intros Hp Hne Ht. destruct (ascii_at p Hp Hne) as [c Hc]. exists c. by apply text_one. Qed.

Lemma min_text p t : at_ p -> p <> e -> BYTE_TYPE enc m p = Ok t -> lead t = None ->
  at_ (p + MIN) /\ exists c, text p (p + MIN) [(t, c)].
Proof using Type*.
  intros Hp Hne Ht Hl. destruct (char_text p t Hp Hne Ht) as [c Hc]. unfold width in Hc. rewrite Hl in Hc.
  split; [by apply past_inside, next_past|by exists c].
Qed.

Lemma width_inside p t : at_ p -> p <> e -> BYTE_TYPE enc m p = Ok t -> (forall n, lead t = Some n -> n <= e - p) -> at_ (p + width enc t).
Proof using Type*.
  intros Hp Hne Ht Hn. pose proof (width_mod _ _ Ht) as Hm. destruct (next_past _ _ Hp Hne) as [Hin _]. unfold width in *.
  destruct (lead t) as [n|] eqn:El; [|done]. specialize (Hn n eq_refl). apply lead_range in El. unfold inside in *.
  destruct (@law_minbpc enc _) as [E|E]; rewrite E in *; Z.div_mod_to_equations; lia.
Qed.

(** The cases of the macros that go on. *)
Lemma name_advance p t q :
  CHECK_NAME_CASES enc m e t p = Ok (Advance q) \/ CHECK_NMSTRT_CASES enc m e t p = Ok (Advance q) ->
  q = p + width enc t /\ name_type t = true /\ t <> BT_COLON /\ forall n, lead t = Some n -> n <= e - p.
Proof.
  unfold CHECK_NAME_CASES, CHECK_NMSTRT_CASES, width. destruct t; cbn [lead];
    repeat match goal with |- context [if ?x <? ?y then _ else _] => destruct (Z.ltb_spec x y) end;
    repeat match goal with |- context [rbind ?x _] => destruct x as [[]|]; cbn [rbind] end;
    intros [E|E]; simplify_eq; (split; [done|]; split; [done|]; split; [done|]; intros; simplify_eq; done).
Qed.

Lemma invalid_advance p t q :
  INVALID_CASES enc m e t p = Ok (Advance q) ->
  q = p + width enc t /\ lead t <> None /\ forall n, lead t = Some n -> n <= e - p.
Proof.
  unfold INVALID_CASES, width. destruct (lead t) as [n|]; [|by destruct t]. destruct (Z.ltb_spec (e - p) n); [done|].
  destruct (IS_INVALID_CHAR enc n m p) as [[]|]; cbn [rbind]; [done| |done]. intros [= <-].
  split; [done|]. split; [done|]. by intros ? [= <-].
Qed.

Lemma invalid_default p t : INVALID_CASES enc m e t p = Ok Default -> lead t = None.
Proof.
  unfold INVALID_CASES. destruct (lead t) as [n|]; [|done]. destruct (e - p <? n); [done|].
  by destruct (IS_INVALID_CHAR enc n m p) as [[]|].
Qed.

Lemma name_default p t : CHECK_NAME_CASES enc m e t p = Ok Default \/ CHECK_NMSTRT_CASES enc m e t p = Ok Default -> lead t = None.
Proof.
  unfold CHECK_NAME_CASES, CHECK_NMSTRT_CASES. destruct t; cbn [lead];
    repeat match goal with |- context [if ?x <? ?y then _ else _] => destruct (Z.ltb_spec x y) end;
    repeat match goal with |- context [rbind ?x _] => destruct x as [[]|]; cbn [rbind] end;
    intros [E|E]; simplify_eq; done.
Qed.

(** A name character that was accepted. *)
Lemma name_step p t q :
  at_ p -> p <> e -> BYTE_TYPE enc m p = Ok t ->
  CHECK_NAME_CASES enc m e t p = Ok (Advance q) \/ CHECK_NMSTRT_CASES enc m e t p = Ok (Advance q) ->
  at_ q /\ exists c, text p q [(t, c)] /\ names [(t, c)].
Proof using Type*.
  intros Hp Hne Ht Ha. apply name_advance in Ha as (-> & Hn & _ & Hl). split; [by apply width_inside|].
  destruct (char_text p t Hp Hne Ht) as [c Hc]. exists c. split; [done|]. by repeat constructor.
Qed.

(** [H : scanner = Ok (Tok r, Some next)] with [0 < tok_value r], one step of the
    scanner: the buffer has not ended, a character is read, the macro's cases go on
    or leave the others. *)
Ltac scan_read H p :=
  destruct (Z.eqb_spec p e) as [|?Hne]; [simplify_eq; cbn in *; lia|];
  destruct (BYTE_TYPE enc m p) as [?t|] eqn:?Hty; [|discriminate H]; cbn [rbind] in H.

Ltac scan_cases H Hpos E :=
  unfold switch in H;
  match type of H with
  | context [CHECK_NAME_CASES enc m e ?t ?p] =>
      destruct (CHECK_NAME_CASES enc m e t p) as [[?q|?s|]|] eqn:E; cbn [rbind] in H;
      [|exfalso; destruct (name_cases_return t p _ (or_introl E)) as [?Hs|?Hs]; simplify_eq; cbn in *; simplify_eq; cbn in *; lia| |discriminate H]
  | context [CHECK_NMSTRT_CASES enc m e ?t ?p] =>
      destruct (CHECK_NMSTRT_CASES enc m e t p) as [[?q|?s|]|] eqn:E; cbn [rbind] in H;
      [|exfalso; destruct (name_cases_return t p _ (or_intror E)) as [?Hs|?Hs]; simplify_eq; cbn in *; simplify_eq; cbn in *; lia| |discriminate H]
  end.

Ltac not_token := simplify_eq; cbn in *; lia.

Lemma scanDigits_text hex fuel : forall p r next,
  at_ p -> scanDigits enc m e hex fuel p = Ok (Tok r, Some next) -> 0 < tok_value r ->
  exists q cs, text p q cs /\ digits hex cs /\ BYTE_TYPE enc m q = Ok BT_SEMI /\ at_ q /\ q <> e /\ next = q + MIN.
Proof using Type*.
  induction fuel as [|fuel IH]; intros p r next Hp H Hpos; [done|]. cbn [scanDigits] in H. scan_read H p.
  assert (Hgo : lead t = None -> scanDigits enc m e hex fuel (p + MIN) = Ok (Tok r, Some next) ->
    t = BT_DIGIT \/ hex = true /\ t = BT_HEX ->
    exists q cs, text p q cs /\ digits hex cs /\ BYTE_TYPE enc m q = Ok BT_SEMI /\ at_ q /\ q <> e /\ next = q + MIN).
  { intros Hl Hr Hd. destruct (min_text p t Hp Hne Hty Hl) as [Hp' [c Hc]].
    destruct (IH _ _ _ Hp' Hr Hpos) as (q & cs & Hq & Hds & Hrest). exists q, ((t, c) :: cs).
    split; [by apply (text_app _ _ _ [_] _ Hc)|]. split; [by constructor|done]. }
  destruct t; try not_token.
  - exists p, []. injection H as <- <-. repeat split; try done; try apply Hp; constructor.
  - destruct hex; [|not_token]. apply Hgo; [done|done|by right].
  - apply Hgo; [done|done|by left].
Qed.

Lemma scanRef_name_text k fuel : forall p r next,
  at_ p -> scanRef_name enc m e k fuel p = Ok (Tok r, Some next) -> 0 < tok_value r ->
  exists q cs, text p q cs /\ names cs /\ BYTE_TYPE enc m q = Ok BT_SEMI /\ at_ q /\ q <> e /\ next = q + MIN /\ r = k.
Proof using Type*.
  induction fuel as [|fuel IH]; intros p r next Hp H Hpos; [done|]. cbn [scanRef_name] in H. scan_read H p.
  scan_cases H Hpos E.
  - destruct (name_step p t q Hp Hne Hty (or_introl E)) as [Hq [c [Hc Hn]]].
    destruct (IH _ _ _ Hq H Hpos) as (q' & cs & Hq' & Hns & Hrest). exists q', ((t, c) :: cs).
    split; [by apply (text_app _ _ _ [_] _ Hc)|]. split; [|done]. constructor; [by apply Forall_cons_1 in Hn as [? _]|done].
  - destruct t; try not_token. exists p, []. injection H as <- <-. repeat split; try done; try apply Hp; constructor.
Qed.

(** A character reference between [&] and the end of the token. *)
Definition char_ref (p next : Z) : Prop :=
  exists q cs hex, BYTE_TYPE enc m p = Ok BT_NUM /\ CHAR_MATCHES enc 120 m (p + MIN) = Ok hex /\
    text (if hex : bool then p + MIN + MIN else p + MIN) q cs /\ digits hex cs /\ cs <> [] /\
    BYTE_TYPE enc m q = Ok BT_SEMI /\ q <> e /\ at_ q /\ next = q + MIN.

Lemma scanDigits_from hex p r next t :
  at_ p -> p <> e -> BYTE_TYPE enc m p = Ok t -> t = BT_DIGIT \/ hex = true /\ t = BT_HEX ->
  scanDigits enc m e hex (fuel_at e p) (p + MIN) = Ok (Tok r, Some next) -> 0 < tok_value r ->
  exists q cs, text p q cs /\ digits hex cs /\ cs <> [] /\ BYTE_TYPE enc m q = Ok BT_SEMI /\ q <> e /\ at_ q /\ next = q + MIN.
Proof using Type*.
  intros Hp Hne Hty Ht H Hpos.
  destruct (min_text p t Hp Hne Hty) as [Hp' [c Hc]]; [by destruct Ht as [-> |[_ ->]]|].
  destruct (scanDigits_text _ _ _ _ _ Hp' H Hpos) as (q & cs & Hq & Hd & Hs & Hat & Hne' & ->).
  exists q, ((t, c) :: cs). split; [by apply (text_app _ _ _ [_] _ Hc)|]. split; [by constructor|done].
Qed.

Lemma scanCharRef_text p r next :
  at_ p -> p <> e -> BYTE_TYPE enc m p = Ok BT_NUM ->
  scanCharRef enc m e (p + MIN) = Ok (Tok r, Some next) -> 0 < tok_value r -> char_ref p next.
Proof using Type*.
  intros Hp Hne Hty H Hpos. destruct (min_text p _ Hp Hne Hty eq_refl) as [Hp1 _]. unfold scanCharRef in H.
  destruct (Z.eqb_spec (p + MIN) e) as [|Hne1]; [not_token|].
  destruct (CHAR_MATCHES enc 120 m (p + MIN)) as [[]|] eqn:Hx; cbn [rbind] in H; [| |done].
  - unfold scanHexCharRef in H. destruct (next_past _ _ Hp1 Hne1) as [Hp2 _]. scan_read H (p + MIN + MIN).
    destruct t; try not_token;
      (destruct (scanDigits_from true _ _ _ _ Hp2 Hne0 Hty0 ltac:(auto) H Hpos) as (q & cs & Ht & Hd & Hrest)); by exists q, cs, true.
  - destruct (BYTE_TYPE enc m (p + MIN)) as [t|] eqn:Hty1; [|done]. cbn [rbind] in H. destruct t; try not_token.
    destruct (scanDigits_from false _ _ _ _ Hp1 Hne1 Hty1 ltac:(auto) H Hpos) as (q & cs & Ht & Hd & Hrest). by exists q, cs, false.
Qed.

(** The characters of a reference. *)
Definition ref_type (t : BT) : bool := name_type t || bool_decide (t = BT_NUM) || bool_decide (t = BT_SEMI).

Lemma names_ref cs : names cs -> Forall (fun tc => ref_type (fst tc) = true) cs.
Proof. intros H. eapply Forall_impl; [exact H|]. intros [t c] Hn. unfold ref_type. cbn [fst] in *. by rewrite Hn. Qed.
End values.
End text.

(** ** Equal names *)

Section names.
Context (enc : ENCODING) `{!EncodingLaws enc} `{!AsciiLaws enc} (m1 m2 : list Z).
Abbreviation MIN := (MINBPC enc).

Lemma same_bytes_at_spec a : forall b p1 p2 r1 r2,
  has_bytes m1 p1 (a ++ r1) -> has_bytes m2 p2 (b ++ r2) -> length a = length b ->
  same_bytes_at m1 m2 (length a) p1 p2 = Ok (bool_decide (a = b)).
Proof.
  induction a as [|x a IH]; intros [|y b] p1 p2 r1 r2 H1 H2 Hl; try discriminate Hl; cbn [length same_bytes_at app] in *; [done|].
  rewrite (has_bytes_rd _ _ _ _ H1), (has_bytes_rd _ _ _ _ H2). cbn [rbind].
  destruct (Z.eqb_spec x y) as [->|Hxy]; [|rewrite bool_decide_false by congruence; done].
  rewrite (IH b (p1 + 1) (p2 + 1) r1 r2); [|by apply (has_bytes_cons _ _ y)|by apply (has_bytes_cons _ _ y)|lia].
  f_equal. apply bool_decide_ext. split; [by intros ->|by intros [= ->]].
Qed.

Lemma same_bytes_split n k p1 p2 :
  same_bytes_at m1 m2 (n + k) p1 p2 =
  (do same <- same_bytes_at m1 m2 n p1 p2;
   if same : bool then same_bytes_at m1 m2 k (p1 + Z.of_nat n) (p2 + Z.of_nat n) else Ok false).
Proof.
  revert p1 p2. induction n as [|n IH]; intros p1 p2; cbn [Nat.add same_bytes_at rbind]; [by rewrite !Z.add_0_r|].
  destruct (rd m1 p1) as [a|]; [|done]. cbn [rbind]. destruct (rd m2 p2) as [b|]; [|done]. cbn [rbind].
  destruct (a =? b); [|done]. rewrite IH. by replace (Z.of_nat (S n)) with (1 + Z.of_nat n) by lia; rewrite !Z.add_assoc.
Qed.

(** The type of a character depends on its bytes only. *)
Lemma type_of_bytes a p1 p2 r1 r2 :
  bytes a -> has_bytes m1 p1 (a ++ r1) -> has_bytes m2 p2 (a ++ r2) -> zlen a = MIN -> BYTE_TYPE enc m1 p1 = BYTE_TYPE enc m2 p2.
Proof using Type*.
  intros Hb (pre1 & post1 & -> & <-) (pre2 & post2 & -> & <-) Ha. rewrite !law_shift_type, <- !app_assoc.
  destruct (law_type (a ++ r1 ++ post1) (a ++ r2 ++ post2) 0) as (t & -> & ->); [|done].
  intros i Hi. destruct (rd_total a i) as (b & Hl & _); [lia|]. exists b.
  split; [by eapply (proj1 (Forall_lookup _ _) Hb)|]. split; apply rd_lookup; (split; [lia|by apply lookup_app_l_Some]).
Qed.

(** The bytes of a name from [p] on, and the first character after it. *)
Record name_at (m : list Z) (p : Z) (n d : list Z) (cs : list (BT * Z)) : Prop := {
  name_text : text enc m p (p + zlen n) cs;
  name_chars : names cs;
  name_end : exists t, BYTE_TYPE enc m (p + zlen n) = Ok t /\ name_type t = false;
  name_bytes : has_bytes m p (n ++ d);
  name_delim : zlen d = MIN
}.

Lemma min_width p t m : BYTE_TYPE enc m p = Ok t -> MIN <= width enc t.
Proof using Type*.
  intros Ht. pose proof (width_mod enc m p t Ht) as Hm. pose proof (width_pos enc t).
  destruct (@law_minbpc enc _) as [E|E]; rewrite E in *; Z.div_mod_to_equations; lia.
Qed.

(** The first character of a name, and the name after it. *)
Lemma name_at_cons m p n d t c cs :
  name_at m p n d ((t, c) :: cs) ->
  exists a n', n = (a ++ n')%list /\ zlen a = width enc t /\ BYTE_TYPE enc m p = Ok t /\ name_type t = true /\
    name_at m (p + zlen a) n' d cs.
Proof using Type*.
  intros [Ht Hc (te & Hte & Hnt) Hb Hd]. inversion Ht as [|? ? ? ? ? Hty Ha Hrest]; subst. apply Forall_cons_1 in Hc as [Hc1 Hc].
  pose proof (text_le _ _ _ _ _ Hrest) as Hle. pose proof (zlen_nonneg cs). pose proof (width_pos enc t).
  assert (Hlen : zlen (take (Z.to_nat (width enc t)) n) = width enc t) by (apply zlen_take; lia).
  exists (take (Z.to_nat (width enc t)) n), (drop (Z.to_nat (width enc t)) n).
  split; [by rewrite take_drop|]. split; [done|]. split; [done|]. split; [done|]. rewrite Hlen.
  assert (Hn' : p + width enc t + zlen (drop (Z.to_nat (width enc t)) n) = p + zlen n) by (rewrite zlen_drop by lia; lia).
  split; [by rewrite Hn'|done|exists te; by rewrite Hn'| |done].
  rewrite <- (take_drop (Z.to_nat (width enc t)) n), <- app_assoc in Hb. apply has_bytes_app in Hb as [_ Hb]. by rewrite Hlen in Hb.
Qed.

Lemma name_at_nil m p n d : name_at m p n d [] -> n = [] /\ exists t, BYTE_TYPE enc m p = Ok t /\ name_type t = false.
Proof.
  intros [Ht _ (t & Hty & Hn) _ _]. inversion Ht as [? Hp|]; subst. assert (zlen n = 0) by lia.
  destruct n; [|rewrite zlen_cons in *; pose proof (zlen_nonneg n); lia]. rewrite zlen_nil, Z.add_0_r in Hty. split; [done|]. exists t. by rewrite ?zlen_nil, ?Z.add_0_r.
Qed.

(** [MIN] bytes from the start of a name on. *)
Lemma name_at_min m p n d cs : name_at m p n d cs -> exists a r, (n ++ d)%list = (a ++ r)%list /\ zlen a = MIN /\ has_bytes m p (a ++ r).
Proof using Type*.
  intros [_ _ _ Hb Hd]. pose proof (zlen_nonneg n). assert (0 < MIN) by (destruct (@law_minbpc enc _); lia).
  exists (take (Z.to_nat MIN) (n ++ d)), (drop (Z.to_nat MIN) (n ++ d)). rewrite take_drop. split; [done|]. split; [|done].
  apply zlen_take. rewrite zlen_app. lia.
Qed.

Lemma prefix_bytes m p a r : bytes m -> has_bytes m p (a ++ r) -> bytes a.
Proof. intros Hb (pre & post & -> & _). apply Forall_app in Hb as [_ Hb]. rewrite <- app_assoc in Hb. by apply Forall_app in Hb as [Hb _]. Qed.

(** The end of the first name: the answer is that the second has ended too. *)
Lemma name_ended p2 n2 d2 cs2 :
  name_at m2 p2 n2 d2 cs2 -> (do t <- BYTE_TYPE enc m2 p2; Ok (negb (name_type t))) = Ok (bool_decide ([] = n2)).
Proof using Type*.
  intros H2. destruct cs2 as [|[t c] cs2].
  - destruct (name_at_nil _ _ _ _ H2) as (-> & t & -> & Hn). cbn [rbind]. by rewrite Hn.
  - destruct (name_at_cons _ _ _ _ _ _ _ H2) as (a & n' & -> & Ha & -> & Hn & _). cbn [rbind]. rewrite Hn.
    pose proof (width_pos enc t). destruct a; [rewrite zlen_nil in Ha; lia|done].
Qed.

Lemma min_test p1 p2 a1 a2 r1 r2 :
  has_bytes m1 p1 (a1 ++ r1) -> has_bytes m2 p2 (a2 ++ r2) -> zlen a1 = MIN -> zlen a2 = MIN ->
  exists b, (if MIN =? 1 then do a <- rd m1 p1; do b <- rd m2 p2; Ok (a =? b) else Ok false) = Ok b /\ (b = true -> a1 = a2).
Proof using Type*.
  intros H1 H2 L1 L2. destruct (Z.eqb_spec MIN 1) as [E|E]; [|by exists false]. rewrite E in *.
  destruct a1 as [|x [|x' a1]]; [done| |rewrite !zlen_cons in L1; pose proof (zlen_nonneg a1); lia].
  destruct a2 as [|y [|y' a2]]; [done| |rewrite !zlen_cons in L2; pose proof (zlen_nonneg a2); lia]. cbn [app] in *.
  rewrite (has_bytes_rd _ _ _ _ H1), (has_bytes_rd _ _ _ _ H2). exists (x =? y). split; [done|]. intros ->%Z.eqb_eq. done.
Qed.

(** The comparison of one character; the bytes decide whether it is a character of
    the second name at all. *)
Lemma char_compared p1 p2 n1 n2 d1 d2 t c cs1 cs2 :
  bytes m1 -> name_at m1 p1 n1 d1 ((t, c) :: cs1) -> name_at m2 p2 n2 d2 cs2 ->
  (same_bytes_at m1 m2 (Z.to_nat (width enc t)) p1 p2 = Ok false /\ n1 <> n2) \/
  (same_bytes_at m1 m2 (Z.to_nat (width enc t)) p1 p2 = Ok true /\ exists a n1' n2' cs2',
    n1 = (a ++ n1')%list /\ n2 = (a ++ n2')%list /\ zlen a = width enc t /\
    name_at m1 (p1 + zlen a) n1' d1 cs1 /\ name_at m2 (p2 + zlen a) n2' d2 cs2').
Proof using Type*.
  intros Hb H1 H2. destruct (name_at_min _ _ _ _ _ H1) as (a1 & r1 & E1 & L1 & B1).
  destruct (name_at_min _ _ _ _ _ H2) as (a2 & r2 & E2 & L2 & B2).
  destruct (name_at_cons _ _ _ _ _ _ _ H1) as (b1 & n1' & -> & Lb1 & Hty & Hn & H1').
  pose proof (min_width _ _ _ Hty) as Hmin. destruct (decide (a1 = a2)) as [->|Hne].
  - pose proof (prefix_bytes _ _ _ _ Hb B1) as Hb2.
    pose proof (type_of_bytes a2 p1 p2 r1 r2 Hb2 B1 B2 L2) as Heq. rewrite Hty in Heq. symmetry in Heq.
    destruct cs2 as [|[t' c'] cs2]; [destruct (name_at_nil _ _ _ _ H2) as (-> & t' & Ht' & Hn'); congruence|].
    destruct (name_at_cons _ _ _ _ _ _ _ H2) as (b2 & n2' & -> & Lb2 & Hty2 & _ & H2'). assert (t' = t) as -> by congruence.
    destruct H1 as [_ _ _ Bn1 _], H2 as [_ _ _ Bn2 _]. rewrite <- app_assoc in Bn1, Bn2.
    pose proof (same_bytes_at_spec b1 b2 _ _ _ _ Bn1 Bn2 ltac:(unfold zlen in *; lia)) as Hs.
    replace (Z.to_nat (width enc t)) with (length b1) by (unfold zlen in *; lia). rewrite Hs. case_bool_decide as Hbb.
    + subst b2. right. split; [done|]. by exists b1, n1', n2', cs2.
    + left. split; [done|]. intros [Hbb' _]%app_inj_1; [done|unfold zlen in *; lia].
  - left. assert (Ha : length a1 = length a2) by (unfold zlen in *; lia). split.
    + replace (Z.to_nat (width enc t)) with (length a1 + (Z.to_nat (width enc t) - length a1))%nat by (unfold zlen in *; lia).
      rewrite same_bytes_split, (same_bytes_at_spec a1 a2 p1 p2 r1 r2) by done. by rewrite bool_decide_false by done.
    + intros E. apply Hne. rewrite <- E in E2. rewrite <- !app_assoc in E1, E2.
      assert (Hsplit : forall d r a, b1 ++ n1' ++ d = a ++ r -> zlen a = MIN -> a = take (Z.to_nat MIN) b1).
      { intros d r a Ea La. apply (f_equal (take (Z.to_nat MIN))) in Ea. rewrite take_app_le in Ea by (unfold zlen in *; lia).
        rewrite Ea, take_app_le by (unfold zlen in *; lia). by rewrite take_ge by (unfold zlen in *; lia). }
      by rewrite (Hsplit _ _ _ E1 L1), (Hsplit _ _ _ E2 L2).
Qed.

Lemma sameName_loop_spec cs1 : forall fuel p1 p2 n1 n2 d1 d2 cs2,
  bytes m1 -> name_at m1 p1 n1 d1 cs1 -> name_at m2 p2 n2 d2 cs2 -> (length cs1 < fuel)%nat ->
  sameName_loop enc m1 m2 fuel p1 p2 = Ok (bool_decide (n1 = n2)).
Proof using Type*.
  induction cs1 as [|[t c] cs1 IH]; intros [|fuel] p1 p2 n1 n2 d1 d2 cs2 Hb H1 H2 Hf; cbn [length] in Hf; [lia| |lia|];
    cbn [sameName_loop].
  - destruct (name_at_min _ _ _ _ _ H1) as (a1 & r1 & E1 & L1 & B1), (name_at_min _ _ _ _ _ H2) as (a2 & r2 & E2 & L2 & B2).
    destruct (name_at_nil _ _ _ _ H1) as (-> & t & Hty & Hn). rewrite Hty. cbn [rbind]. rewrite Hn.
    pose proof (name_ended _ _ _ _ H2) as Hend. destruct (min_test _ _ _ _ _ _ B1 B2 L1 L2) as ([] & -> & Hb1); cbn [rbind]; [|done].
    rewrite (Hb1 eq_refl) in B1.
    pose proof (prefix_bytes _ _ _ _ Hb B1) as Hb2.
    rewrite <- (type_of_bytes a2 p1 p2 r1 r2 Hb2 B1 B2 L2), Hty in Hend. cbn [rbind] in Hend. by rewrite Hn in Hend.
  - destruct (name_at_cons _ _ _ _ _ _ _ H1) as (_ & _ & _ & _ & Hty & Hn & _). rewrite Hty. cbn [rbind]. rewrite Hn.
    destruct (char_compared _ _ _ _ _ _ _ _ _ _ Hb H1 H2) as [[-> Hne]|(-> & a & n1' & n2' & cs2' & -> & -> & La & H1' & H2')]; cbn [rbind].
    + by rewrite bool_decide_false.
    + rewrite <- La. rewrite (IH _ _ _ _ _ _ _ _ Hb H1' H2') by lia. f_equal. apply bool_decide_ext.
      split; [by intros ->|]. by intros E%app_inv_head.
Qed.
End names.

(** ** The laws for the encodings of the library *)

Definition ascii_pair (cr colon : BT) : Prop := (cr = BT_CR \/ cr = BT_S) /\ (colon = BT_COLON \/ colon = BT_NMSTRT).

(** A table of ASCII types followed by types of their own. *)
Lemma table_type cr colon high c t :
  length high = 128%nat -> forallb high_type high = true ->
  type_at (ascii_types cr colon ++ high) c = Ok t ->
  if is_ascii c then type_at (ascii_types cr colon) c = Ok t else high_type t = true.
Proof.
  intros Hl Hh. unfold type_at, is_ascii. destruct (Z.leb_spec 0 c).
  - cbn [andb]. destruct (Z.ltb_spec c 128).
    + by rewrite lookup_app_l by (change (length (ascii_types cr colon)) with 128%nat; lia).
    + rewrite lookup_app_r by (change (length (ascii_types cr colon)) with 128%nat; lia).
      destruct (high !! _) as [x|] eqn:E; cbn; [|done]. intros [= <-]. rewrite forallb_forall in Hh.
      by apply Hh, list_elem_of_In, (list_elem_of_lookup_2 _ _ _ E).
  - replace (Z.to_nat c) with 0%nat by lia. cbn. by intros [= <-].
Qed.

Lemma sb_ascii_laws cr colon high name nmstrt invalid :
  ascii_pair cr colon -> length high = 128%nat -> forallb high_type high = true ->
  AsciiLaws (sb_encoding (ascii_types cr colon ++ high) name nmstrt invalid).
Proof.
  intros [Hcr Hcol] Hl Hh. split; cbn [sb_encoding BYTE_TYPE BYTE_TO_ASCII CHAR_MATCHES].
  - intros pre s. by rewrite rd_app_0.
  - done.
  - exists cr, colon. split; [done|]. split; [done|]. intros m p c t Hc. rewrite Hc. by apply table_type.
Qed.

Lemma unicode_type_high hi lo : high_type (unicode_byte_type hi lo) = true.
Proof. unfold unicode_byte_type. by repeat case_match. Qed.

Lemma utf16_text_laws little cr colon : ascii_pair cr colon -> AsciiLaws (utf16_encoding little (ascii_types cr colon)).
Proof.
  intros [Hcr Hcol]. split; cbn [utf16_encoding BYTE_TYPE BYTE_TO_ASCII CHAR_MATCHES].
  - intros pre s. unfold utf16_byte_type, get_hi, get_lo.
    destruct little; rewrite rd_app_0, (rd_app_r pre s 1) by lia; reflexivity.
  - intros c m p Hc. destruct (get_hi little m p) as [hi|]; [|done]. destruct (get_lo little m p) as [lo|]; [|done]. cbn [rbind].
    destruct (hi =? 0); [done|]. by replace (-1 =? c) with false by lia.
  - exists cr, colon. split; [done|]. split; [done|]. intros m p c t. unfold utf16_byte_type.
    destruct (get_hi little m p) as [hi|]; [|done]. destruct (get_lo little m p) as [lo|]; [|done]. cbn [rbind].
    destruct (hi =? 0); intros [= <-]; [by apply table_type|]. intros [= <-]. apply unicode_type_high.
Qed.

Lemma encodings_ascii : Forall AsciiLaws encodings.
Proof.
  assert (Hp : forall cr colon, bool_decide (cr = BT_CR \/ cr = BT_S) && bool_decide (colon = BT_COLON \/ colon = BT_NMSTRT) = true ->
    ascii_pair cr colon) by (intros cr colon H; bool_to_prop; split; by apply (bool_decide_eq_true_1 _)).
  repeat apply Forall_cons_2; [..|by apply Forall_nil_2].
  1-8: (apply sb_ascii_laws; [by apply Hp|done|by vm_compute]).
  all: by apply utf16_text_laws, Hp.
Qed.

(** ** A buffer cut off after the text *)

Section cut.
Context (enc : ENCODING) `{!EncodingLaws enc} `{!AsciiLaws enc} (m : list Z) (n : Z) (Hb : bytes m) (Hn : n <= zlen m).
Abbreviation cut := (take (Z.to_nat n) m).

Lemma cut_bytes p w : 0 <= p -> p + w <= n -> same_bytes m cut p w.
Proof using Hb Hn.
  intros Hp Hw i Hi. destruct (rd_total m i) as (b & Hl & Hr); [lia|]. exists b.
  split; [by eapply (proj1 (Forall_lookup _ _) Hb)|]. split; [done|]. apply rd_lookup. split; [lia|].
  rewrite lookup_take. by rewrite decide_True by lia.
Qed.

Lemma cut_op {A} (f : list Z -> Z -> res A) p : local_op (MINBPC enc) f -> 0 <= p -> p + MINBPC enc <= n -> f cut p = f m p.
Proof using Hb Hn. intros Hf Hp Hw. by destruct (Hf _ _ _ (cut_bytes p _ Hp Hw)) as (a & -> & ->). Qed.

Lemma text_cut p q cs : text enc m p q cs -> 0 <= p -> q <= n -> text enc cut p q cs.
Proof using Type*.
  induction 1 as [p|p q t c cs Ht Hc Htx IH]; intros Hp Hq; [constructor|].
  pose proof (text_le _ _ _ _ _ Htx). pose proof (zlen_nonneg cs). pose proof (min_width enc p t m Ht). pose proof (width_pos enc t).
  econstructor; [rewrite cut_op; [exact Ht|apply law_type|lia..]|rewrite cut_op; [exact Hc|apply law_ascii|lia..]|apply IH; lia].
Qed.
End cut.

(** ** The tokens a scanner may return *)

Section results.
Context (enc : ENCODING) (m : list Z) (e : Z).

(** [r] returns one of the tokens of [S]. *)
Definition gives (S : list tok) (r : res scan) : Prop := forall s, r = Ok s -> fst s ∈ S.
Definition gives_case (S : list tok) (c : res case_) : Prop := forall s, c = Ok (Returns s) -> fst s ∈ S.

Lemma gives_switch S c adv d :
  gives_case S c -> (forall p, gives S (adv p)) -> gives S d -> gives S (switch c adv d).
Proof.
  intros Hc Ha Hd s. unfold switch. destruct c as [[p|r|]|]; cbn [rbind]; [apply Ha| |apply Hd|done].
  intros [= <-]. by apply Hc.
Qed.

Lemma gives_mono S S' r : gives S r -> forallb (fun k => bool_decide (k ∈ S')) S = true -> gives S' r.
Proof.
  intros H HS s Hs. specialize (H s Hs). rewrite forallb_forall in HS. by apply (bool_decide_eq_true_1 _), HS, list_elem_of_In.
Qed.

Definition PARTIAL_OR_INVALID : list tok := map Tok [XML_TOK_PARTIAL; XML_TOK_PARTIAL_CHAR; XML_TOK_INVALID].

Lemma INVALID_CASES_gives t p : gives_case PARTIAL_OR_INVALID (INVALID_CASES enc m e t p).
Proof.
  intros s. unfold INVALID_CASES. repeat case_match; try (destruct (IS_INVALID_CHAR _ _ _ _) as [[]|]); cbn [rbind];
    intros; simplify_eq; by (apply (bool_decide_eq_true_1 _); reflexivity).
Qed.

Lemma name_cases_give t p : gives_case PARTIAL_OR_INVALID (CHECK_NAME_CASES enc m e t p) /\ gives_case PARTIAL_OR_INVALID (CHECK_NMSTRT_CASES enc m e t p).
Proof.
  split; intros s Hs; [destruct (name_cases_return enc m e t p s (or_introl Hs)) as [-> | ->]|
    destruct (name_cases_return enc m e t p s (or_intror Hs)) as [-> | ->]]; by (apply (bool_decide_eq_true_1 _); reflexivity).
Qed.

Definition within (S S' : list tok) : bool := forallb (fun k => bool_decide (k ∈ S')) S.

Lemma case_mono S S' c : gives_case S c -> within S S' = true -> gives_case S' c.
Proof.
  intros H HS s Hs. specialize (H s Hs). unfold within in HS. rewrite forallb_forall in HS.
  by apply (bool_decide_eq_true_1 _), HS, list_elem_of_In.
Qed.

End results.

(** One step of a scanner whose results are among the tokens of the goal. *)
Ltac give1 :=
  match goal with
  | |- gives _ (Err _) => intros ?s ?H; discriminate H
  | |- gives _ (Ok (if ?b then _ else _)) => destruct b
  | |- gives _ (Ok _) => let H := fresh in intros ?s H; injection H as <-; apply (bool_decide_eq_true_1 _); reflexivity
  | |- gives _ (if ?b then _ else _) => destruct b
  | |- gives _ (rbind ?x _) => destruct x eqn:?Heq; cbn [rbind]; [|intros ?s ?H; discriminate H]
  | |- gives _ (switch (INVALID_CASES _ _ _ _ _) _ _) =>
      apply gives_switch; [apply (case_mono PARTIAL_OR_INVALID); [apply INVALID_CASES_gives|reflexivity]|intros ?p|]
  | |- gives _ (switch (CHECK_NAME_CASES _ _ _ _ _) _ _) =>
      apply gives_switch; [apply (case_mono PARTIAL_OR_INVALID); [apply name_cases_give|reflexivity]|intros ?p|]
  | |- gives _ (switch (CHECK_NMSTRT_CASES _ _ _ _ _) _ _) =>
      apply gives_switch; [apply (case_mono PARTIAL_OR_INVALID); [apply name_cases_give|reflexivity]|intros ?p|]
  | |- gives _ (match ?t with _ => _ end) => is_var t; destruct t
  end.
Ltac give := cbv zeta; repeat (give1; cbv zeta).
Ltac give_loop fuel IH := induction fuel as [|fuel IH]; intros p; [intros ?s ?H; discriminate H|].
Ltac give_call L := eapply gives_mono; [apply L|reflexivity].

Section given.
Context (enc : ENCODING) (m : list Z) (e : Z).

Definition REF : list tok := map Tok [XML_TOK_PARTIAL; XML_TOK_PARTIAL_CHAR; XML_TOK_INVALID; XML_TOK_ENTITY_REF; XML_TOK_CHAR_REF].

Lemma scanDigits_gives hex fuel : forall p, gives REF (scanDigits enc m e hex fuel p).
Proof. give_loop fuel IH. cbn [scanDigits]. give; apply IH. Qed.

Lemma scanCharRef_gives p : gives REF (scanCharRef enc m e p).
Proof. unfold scanCharRef, scanHexCharRef. give; apply scanDigits_gives. Qed.

Lemma scanRef_name_gives k fuel : forall p, gives (Tok k :: PARTIAL_OR_INVALID) (scanRef_name enc m e k fuel p).
Proof.
  give_loop fuel IH. cbn [scanRef_name]. destruct (p =? e); [by intros s [= <-]; apply list_elem_of_lookup_2 with 1%nat|].
  destruct (BYTE_TYPE enc m p) as [t|]; cbn [rbind]; [|by intros s].
  apply gives_switch; [|apply IH|].
  - intros s Hs. apply list_elem_of_further. by apply (proj1 (name_cases_give enc m e t p)).
  - destruct t; try (by intros s [= <-]; apply list_elem_of_lookup_2 with 3%nat). intros s [= <-]. apply list_elem_of_here.
Qed.

Lemma scanRef_gives p : gives REF (scanRef enc m e p).
Proof. unfold scanRef. give; [give_call scanRef_name_gives|apply scanCharRef_gives]. Qed.

Lemma scanPercent_gives p :
  gives (Neg XML_TOK_PERCENT :: map Tok [XML_TOK_PARTIAL; XML_TOK_PARTIAL_CHAR; XML_TOK_INVALID; XML_TOK_PARAM_ENTITY_REF; XML_TOK_PERCENT]) (scanPercent enc m e p).
Proof. unfold scanPercent. give. give_call scanRef_name_gives. Qed.

Lemma scan_cr_gives t p : gives [Tok t; Tok XML_TOK_DATA_NEWLINE] (scan_cr enc m e t p).
Proof.
  unfold scan_cr. cbv zeta. destruct (_ =? e); [intros s [= <-]; apply list_elem_of_here|].
  destruct (BYTE_TYPE enc m _); cbn [rbind]; [|by intros s]. intros s [= <-]. by apply list_elem_of_lookup_2 with 1%nat.
Qed.

Definition VALUE : list tok := Neg XML_TOK_PERCENT :: REF ++ map Tok [XML_TOK_NONE; XML_TOK_DATA_CHARS; XML_TOK_DATA_NEWLINE;
  XML_TOK_TRAILING_CR; XML_TOK_ATTRIBUTE_VALUE_S; XML_TOK_PARAM_ENTITY_REF; XML_TOK_PERCENT].

Lemma attributeValue_gives start fuel : forall p, gives VALUE (attributeValue_loop enc m e start fuel p).
Proof.
  give_loop fuel IH. cbn [attributeValue_loop]. give; first [apply IH|give_call scanRef_gives|give_call scan_cr_gives].
Qed.

Lemma entityValue_gives start fuel : forall p, gives VALUE (entityValue_loop enc m e start fuel p).
Proof.
  give_loop fuel IH. cbn [entityValue_loop]. give; first [apply IH|give_call scanRef_gives|give_call scan_cr_gives|idtac].
  apply scanPercent_gives in Heq0. intros s [= <-]. cbn [fst]. case_bool_decide; [by apply list_elem_of_lookup_2 with 3%nat|].
  repeat (apply elem_of_cons in Heq0 as [Hk|Heq0]; [cbn [fst] in Hk; rewrite Hk; by (apply (bool_decide_eq_true_1 _); reflexivity)|]).
  by apply not_elem_of_nil in Heq0.
Qed.
End given.

(** ** Characters of the width of ASCII *)

Section units.
Context (enc : ENCODING) `{!EncodingLaws enc} `{!AsciiLaws enc} (m : list Z).
Abbreviation MIN := (MINBPC enc).

(** The ASCII values of the units from [p] on, whatever characters they are part of. *)
Inductive units : Z -> list Z -> Prop :=
  | units_nil p : units p []
  | units_cons p t c us :
      BYTE_TYPE enc m p = Ok t -> BYTE_TO_ASCII enc m p = Ok c -> units (p + MIN) us -> units p (c :: us).

(** The entities XML predefines. *)
Definition predefined (name : list Z) : Z :=
  if bool_decide (name = str "lt") then 60 else if bool_decide (name = str "gt") then 62
  else if bool_decide (name = str "amp") then 38 else if bool_decide (name = str "quot") then 34
  else if bool_decide (name = str "apos") then 39 else 0.

Lemma matches_rest_spec lit : forall p us,
  units p us -> length us = length lit -> Forall (fun c => 0 <= c < 128) lit ->
  matches_rest enc m lit p = Ok (bool_decide (us = lit)).
Proof using Type*.
  induction lit as [|c lit IH]; intros p us Hu Hl Hlit; cbn [matches_rest length] in *.
  - destruct us; [done|discriminate Hl].
  - destruct us as [|c' us]; [discriminate Hl|]. inversion Hu as [|? ? ? ? ? Hc Hu']; subst. apply Forall_cons_1 in Hlit as [Hc0 Hlit].
    rewrite (matches_ascii enc m c p c') by done. cbn [rbind]. destruct (Z.eqb_spec c' c) as [->|Hne].
    + rewrite (IH (p + MIN) us) by (done || (cbn [length] in Hl; lia)). f_equal. apply bool_decide_ext. split; [by intros ->|by intros [= ->]].
    + rewrite bool_decide_false by congruence. done.
Qed.

Ltac literals := repeat match goal with H : context [str ?s] |- _ => let v := eval vm_compute in (str s) in change (str s) with v in H end; congruence.

Lemma predefinedEntityName_spec p us :
  units p us -> predefinedEntityName enc m p (p + zlen us * MIN) = Ok (predefined us).
Proof using Type*.
  intros Hu. unfold predefinedEntityName, predefined. assert (Hmin : 0 < MIN) by (destruct (@law_minbpc enc _); lia).
  replace (p + zlen us * MIN - p) with (zlen us * MIN) by lia. rewrite Z.quot_mul by lia.
  assert (Hlit : forall lit, forallb (fun c => (0 <=? c) && (c <? 128)) lit = true -> Forall (fun c => 0 <= c < 128) lit).
  { intros lit H. apply Forall_forall. intros c Hc%list_elem_of_In. rewrite forallb_forall in H. specialize (H c Hc). lia. }
  destruct us as [|a [|b [|c [|d [|x us]]]]].
  1-2: by rewrite !bool_decide_false by discriminate.
  - change (zlen [a; b] =? 2) with true. cbv iota. inversion Hu as [|? ? ? ? ? Ha Hu2]; subst. inversion Hu2 as [|? ? ? ? ? Hb _]; subst.
    rewrite (matches_ascii enc m 116 _ b), Ha by (done || lia). cbn [rbind]. 
    rewrite (bool_decide_false (_ = str "amp")), (bool_decide_false (_ = str "quot")), (bool_decide_false (_ = str "apos")) by discriminate.
    repeat case_bool_decide; destruct (Z.eqb_spec b 116), (Z.eqb_spec a 108), (Z.eqb_spec a 103); simplify_eq; try done; literals.
  - change (zlen [a; b; c] =? 2) with false. change (zlen [a; b; c] =? 3) with true. cbv iota.
    rewrite (matches_rest_spec (str "amp") p [a; b; c]) by (done || by apply Hlit). cbn [rbind].
    rewrite (bool_decide_false (_ = str "lt")), (bool_decide_false (_ = str "gt")), (bool_decide_false (_ = str "quot")), (bool_decide_false (_ = str "apos")) by discriminate.
    by case_bool_decide.
  - change (zlen [a; b; c; d] =? 2) with false. change (zlen [a; b; c; d] =? 3) with false. change (zlen [a; b; c; d] =? 4) with true. cbv iota.
    inversion Hu as [|? ? ? ? ? Ha Hu2]; subst. rewrite Ha. cbn [rbind].
    rewrite (matches_rest_spec (str "uot") _ [b; c; d]), (matches_rest_spec (str "pos") _ [b; c; d]) by (done || by apply Hlit). cbn [rbind].
    rewrite (bool_decide_false (_ = str "lt")), (bool_decide_false (_ = str "gt")), (bool_decide_false (_ = str "amp")) by discriminate.
    repeat case_bool_decide; destruct (Z.eqb_spec a 113), (Z.eqb_spec a 97); simplify_eq; try done; literals.
  - rewrite !bool_decide_false by discriminate. rewrite !zlen_cons. pose proof (zlen_nonneg us).
    by repeat (replace (_ =? _) with false by lia).
Qed.

(** [PubidChar] of the XML recommendation. *)
Definition PubidChar (c : Z) : bool :=
  (c =? 32) || (c =? 13) || (c =? 10) || ((97 <=? c) && (c <=? 122)) || ((65 <=? c) && (c <=? 90)) || ((48 <=? c) && (c <=? 57))
  || occurs c (str "-'()+,./:=?;!*#@$_%").

Lemma high_mask c : ~ (0 <= c < 128) -> (Z.land c (Z.lnot 0x7f) =? 0) = false.
Proof.
  intros Hc. apply Z.eqb_neq. rewrite <- Z.ldiff_land. change 0x7f with (Z.ones 7). rewrite Z.ldiff_ones_r by lia.
  rewrite Z.shiftl_mul_pow2, Z.shiftr_div_pow2 by lia. Z.div_mod_to_equations. lia.
Qed.

Lemma PubidChar_ascii c : PubidChar c = true -> 0 <= c < 128.
Proof.
  unfold PubidChar. rewrite !orb_true_iff, !andb_true_iff, occurs_spec. intros H.
  assert (Hall : Forall (fun c => 0 <= c < 128) (str "-'()+,./:=?;!*#@$_%")) by (vm_compute; repeat constructor; discriminate).
  destruct H as [H|H]; [lia|]. by apply (proj1 (Forall_forall _ _) Hall).
Qed.

(** [public_char] on an ASCII character of a type. *)
Definition public_ascii (t : BT) (c : Z) : bool :=
  let other_ := (c =? 0x24) || (c =? 0x40) in
  match t with
  | BT_DIGIT | BT_HEX | BT_MINUS | BT_APOS | BT_LPAR | BT_RPAR | BT_PLUS | BT_COMMA | BT_SOL | BT_EQUALS
  | BT_QUEST | BT_CR | BT_LF | BT_SEMI | BT_EXCL | BT_AST | BT_PERCNT | BT_NUM | BT_COLON => true
  | BT_S => negb (c =? 9)
  | BT_NAME | BT_NMSTRT => if Z.land c (Z.lnot 0x7f) =? 0 then true else other_
  | _ => other_
  end.

Lemma public_ascii_spec p t c :
  BYTE_TYPE enc m p = Ok t -> BYTE_TO_ASCII enc m p = Ok c -> public_ascii t c = PubidChar c.
Proof using Type*.
  intros Ht Hc. destruct law_ascii_type as (cr & colon & Hcr & Hcol & H). specialize (H m p c t Hc Ht).
  unfold is_ascii in H. destruct (Z.leb_spec 0 c), (Z.ltb_spec c 128); cbn [andb] in H.
  { assert (Hall : forall k, 0 <= k < 128 -> rbind (type_at (ascii_types cr colon) k) (fun t => Ok (public_ascii t k)) = Ok (PubidChar k)).
    { apply (forall_below (fun k => rbind (type_at (ascii_types cr colon) k) (fun t => Ok (public_ascii t k)) = Ok (PubidChar k)) 128).
      destruct Hcr as [-> | ->], Hcol as [-> | ->]; vm_compute; reflexivity. }
    specialize (Hall c ltac:(lia)). rewrite H in Hall. cbn [rbind] in Hall. by injection Hall. }
  all: assert (Hno : ~ (0 <= c < 128)) by lia;
    assert (Hp : PubidChar c = false) by (destruct (PubidChar c) eqn:E; [apply PubidChar_ascii in E; lia|done]);
    rewrite Hp; destruct t; try discriminate H; cbn [public_ascii]; rewrite ?high_mask by done; lia.
Qed.

Lemma public_char_spec p t c :
  BYTE_TYPE enc m p = Ok t -> BYTE_TO_ASCII enc m p = Ok c -> public_char enc m p = Ok (PubidChar c).
Proof using Type*.
  intros Ht Hc. rewrite <- (public_ascii_spec p t c Ht Hc). unfold public_char. rewrite Ht. cbn [rbind]. rewrite Hc. cbn [rbind].
  destruct t; try reflexivity; cbn [public_ascii]; [by rewrite (matches_ascii enc m 9 p c) by (done || lia)|by case_match..].
Qed.

Fixpoint first_bad (p : Z) (us : list Z) : option Z :=
  match us with
  | [] => None
  | c :: us => if PubidChar c then first_bad (p + MIN) us else Some p
  end.

Lemma publicId_loop_spec fuel : forall p us,
  units p us -> (length us < fuel)%nat -> publicId_loop enc m (p + zlen us * MIN) fuel p = Ok (first_bad p us).
Proof using Type*.
  induction fuel as [|fuel IH]; intros p us Hu Hf; [lia|]. cbn [publicId_loop].
  assert (Hmin : 0 < MIN) by (destruct (@law_minbpc enc _); lia). destruct us as [|c us]; cbn [first_bad].
  - change (zlen (@nil Z)) with 0. by replace (p =? p + 0 * MIN) with true by lia.
  - inversion Hu as [|? t ? ? Ht Hc Hu']; subst. rewrite zlen_cons. pose proof (zlen_nonneg us).
    replace (p =? p + (1 + zlen us) * MIN) with false by (symmetry; apply Z.eqb_neq; nia).
    rewrite (public_char_spec p t c Ht Hc). cbn [rbind length] in *. destruct (PubidChar c); [|done].
    replace (p + (1 + zlen us) * MIN) with (p + MIN + zlen us * MIN) by lia. apply IH; [done|lia].
Qed.
End units.

(** ** The helpers on what the scanners have accepted *)

(** Names are compared as they are written. For two names in two buffers, each
    followed by a character no name contains, [nameLength] returns the number of
    bytes of the name and [sameName] 1 exactly when the bytes are the same; neither
    reads past the character after a name. *)
Theorem names_compared enc m1 m2 p1 p2 n1 n2 d1 d2 cs1 cs2 :
  enc ∈ encodings -> bytes m1 -> name_at enc m1 p1 n1 d1 cs1 -> name_at enc m2 p2 n2 d2 cs2 ->
  nameLength enc m1 p1 = Ok (zlen n1) /\ sameName enc m1 m2 p1 p2 = Ok (bool_decide (n1 = n2)).
Proof.
  intros He Hb H1 H2. pose proof (proj1 (Forall_forall _ _) encodings_laws _ He). pose proof (proj1 (Forall_forall _ _) encodings_ascii _ He).
  assert (Hf : (length cs1 < fuel_of m1 p1)%nat).
  { destruct H1 as [Ht _ _ Hby _]. apply text_le in Ht; [|done]. apply has_bytes_bound in Hby. rewrite zlen_app in Hby.
    pose proof (zlen_nonneg d1). unfold fuel_of, fuel_at, zlen in *. lia. }
  split; [|by eapply sameName_loop_spec].
  destruct H1 as [Ht Hn (t & Hty & Hnt) _ _]. unfold nameLength. rewrite (nameLength_loop_spec enc m1 p1 _ _ _ _ _ Ht Hn Hty Hnt Hf). f_equal. lia.
Qed.

(** Concrete texts and names. *)
Ltac a_text := repeat (eapply text_cons; [reflexivity|reflexivity|]); apply text_nil.

Ltac a_name t :=
  split; [a_text|repeat constructor|exists t; split; reflexivity
         |match goal with |- has_bytes ?m ?p ?l =>
            exists (take (Z.to_nat p) m), (drop (Z.to_nat p + length l) m); split; reflexivity end|reflexivity].

Lemma names_compared_witness :
  nameLength utf8_encoding (str "<aé >") 1 = Ok 3 /\ sameName utf8_encoding (str "<aé >") (str "</aé>") 1 2 = Ok true.
Proof.
  apply (names_compared utf8_encoding (str "<aé >") (str "</aé>") 1 2 (str "aé") (str "aé") [32] [62]
    [(BT_HEX, 97); (BT_LEAD2, 0xC3)] [(BT_HEX, 97); (BT_LEAD2, 0xC3)]).
  - apply list_elem_of_lookup_2 with 0%nat. reflexivity.
  - conc.
  - a_name BT_S.
  - a_name BT_GT.
Defined.

(** Positions. Over any text of whole characters, with an [unsigned long] of 32 or
    64 bits, [updatePosition] adds one line for each line break (a carriage return
    and a line feed together are one) and counts the columns from the last break.
    A line starts at column 0 with 32 bits; with 64 it starts at column [2 ^ 32],
    because [(unsigned)-1] is not [-1] in a wider type. *)
Theorem updatePosition_counts enc m bits p end_ cs pos :
  enc ∈ encodings -> bits = 32 \/ bits = 64 -> 0 <= p -> end_ <= zlen m -> text enc m p end_ cs -> wf_position bits pos ->
  updatePosition enc m bits p end_ pos =
    Ok (mkPos (ulong bits (lines_after (breaks (map fst cs)) (lineNumber pos)))
          (ulong bits (column_after (if bits =? 32 then 0 else 2 ^ 32) (breaks (map fst cs)) (columnNumber pos)))).
Proof.
  intros He Hbits Hp Hle Ht Hw. pose proof (proj1 (Forall_forall _ _) encodings_laws _ He).
  unfold updatePosition. rewrite (position_loop_spec enc m bits end_ (fuel_of m p) p cs pos); [|lia|done|done|].
  - destruct Hbits as [-> | ->]; reflexivity.
  - apply text_le in Ht; [|done]. unfold fuel_of, fuel_at, zlen in *. lia.
Qed.

Lemma updatePosition_counts_witness :
  updatePosition utf8_encoding (str "a" ++ [13; 10] ++ str "é" ++ [10; 13] ++ str "xyz") 32 0 10 (mkPos 4 7) = Ok (mkPos 7 3).
Proof.
  apply (updatePosition_counts utf8_encoding (str "a" ++ [13; 10] ++ str "é" ++ [10; 13] ++ str "xyz") 32 0 10
    [(BT_HEX, 97); (BT_CR, 13); (BT_LF, 10); (BT_LEAD2, 0xC3); (BT_LF, 10); (BT_CR, 13); (BT_NMSTRT, 120); (BT_NMSTRT, 121); (BT_NMSTRT, 122)]).
  - apply list_elem_of_lookup_2 with 0%nat. reflexivity.
  - by left.
  - done.
  - done.
  - a_text.
  - split; cbn; lia.
Defined.

(** With 64 bits the first column of a line is 4294967296. *)
Example column_64 : updatePosition utf8_encoding [10] 64 0 1 (mkPos 0 0) = Ok (mkPos 1 4294967296).
Proof. reflexivity. Qed.

(** The values of attributes and entities are split safely: in any text of whole
    characters, which is what the scanners leave, the two tokenizers of values read
    nothing past its end (they do not check that a multi-byte character is complete),
    they return, a token ends inside the value and past its start, and an invalid
    one points at one of its characters. *)
Theorem value_tokens_safe enc m p e cs tokenizer_ :
  enc ∈ encodings -> bytes m -> 0 <= p < e -> e <= zlen m -> text enc m p e cs ->
  tokenizer_ = attributeValueTok \/ tokenizer_ = entityValueTok ->
  exists t next, tokenizer_ enc (take (Z.to_nat e) m) p e = Ok (t, next) /\
    (0 < tok_int t -> exists q, next = Some q /\ p < q <= e) /\
    (tok_int t = 0 -> exists q, next = Some q /\ p <= q < e) /\
    (tok_int t < 0 -> next = None \/ next = Some e).
Proof.
  intros He Hb Hp Hle Ht Hk. pose proof (proj1 (Forall_forall _ _) encodings_laws _ He). pose proof (proj1 (Forall_forall _ _) encodings_ascii _ He).
  set (m' := take (Z.to_nat e) m). assert (Hb' : bytes m') by (by apply Forall_take). assert (Hz : zlen m' = e) by (apply zlen_take; lia).
  assert (Ht' : text enc m' p e cs) by (apply text_cut; done || lia).
  assert (Hf : (length cs < fuel_of m' p)%nat) by (apply text_le in Ht'; [|done]; unfold fuel_of, fuel_at; rewrite Hz; unfold zlen in *; lia).
  assert (Hin : inside enc e p p) by (apply (text_inside enc m' p e cs Ht'); lia). assert (Hne : p = p -> p <> e) by lia.
  assert (Hres : exists s, tokenizer_ enc m' p e = Ok s /\ wf_scan enc e p s /\ fst s ∈ VALUE).
  { destruct Hk as [-> | ->]; unfold attributeValueTok, entityValueTok; replace (p =? e) with false by lia.
    - destruct (attributeValue_wf enc m' e Hb' ltac:(lia) p _ p cs Ht' Hin Hne Hf) as (s & Hs & Hw). exists s.
      split; [done|]. split; [done|]. by apply attributeValue_gives in Hs.
    - destruct (entityValue_wf enc m' e Hb' ltac:(lia) p _ p cs Ht' Hin Hne Hf) as (s & Hs & Hw). exists s.
      split; [done|]. split; [done|]. by apply entityValue_gives in Hs. }
  destruct Hres as ([t next] & Hs & Hw & Hg). exists t, next. split; [done|]. unfold wf_scan, inside in Hw. cbn [fst] in Hg.
  destruct t as [t|t]; cbn [tok_int] in *.
  - destruct (Z.ltb_spec 0 (tok_value t)); [|destruct (Z.eqb_spec (tok_value t) 0)].
    + destruct Hw as (q & -> & Hq & Hlt). split; [|split; lia]. intros _. exists q. split; [done|].
      assert (t <> XML_TOK_INSTANCE_START) as Hni; [|specialize (Hlt Hni); lia]. intros ->. by revert Hg; apply (bool_decide_eq_false_1 _).
    + destruct Hw as (q & -> & Hq & Hqe). repeat split; try lia. intros _. exists q. split; [done|]. lia.
    + subst next. repeat split; try lia. by left.
  - destruct Hw as [Ht0 Hw]. repeat split; try lia. by intros _.
Qed.

Lemma value_tokens_safe_witness :
  exists t next, attributeValueTok utf8_encoding (take 4 (str "é&lt;")) 0 4 = Ok (t, next) /\
    (0 < tok_int t -> exists q, next = Some q /\ 0 < q <= 4) /\
    (tok_int t = 0 -> exists q, next = Some q /\ 0 <= q < 4) /\
    (tok_int t < 0 -> next = None \/ next = Some 4).
Proof.
  apply (value_tokens_safe utf8_encoding (str "é&lt;") 0 4 [(BT_LEAD2, 0xC3); (BT_AMP, 38); (BT_NMSTRT, 108)] attributeValueTok).
  - apply list_elem_of_lookup_2 with 0%nat. reflexivity.
  - conc.
  - done.
  - done.
  - a_text.
  - by left.
Defined.

(** Names and literals are classified as XML defines it. On the units between [ptr]
    and [end], [predefinedEntityName] returns the character of the predefined entity of
    that name and 0 for every other name, and [isPublicId] accepts a literal exactly
    when all of it is [PubidChar] of the recommendation, otherwise pointing at the
    first unit that is not. *)
Theorem literals_classified enc m p us :
  enc ∈ encodings -> bytes m -> 0 <= p -> p + zlen us * MINBPC enc <= zlen m -> units enc m p us ->
  predefinedEntityName enc m p (p + zlen us * MINBPC enc) = Ok (predefined us) /\
  (MINBPC enc <= p ->
   isPublicId enc m (p - MINBPC enc) (p + zlen us * MINBPC enc + MINBPC enc) = Ok (first_bad enc p us)).
Proof.
  intros He Hb Hp Hle Hu. pose proof (proj1 (Forall_forall _ _) encodings_laws _ He). pose proof (proj1 (Forall_forall _ _) encodings_ascii _ He).
  split; [by apply predefinedEntityName_spec|]. intros Hmin. unfold isPublicId.
  replace (p + zlen us * MINBPC enc + MINBPC enc - MINBPC enc) with (p + zlen us * MINBPC enc) by lia.
  replace (p - MINBPC enc + MINBPC enc) with p by lia. apply publicId_loop_spec; [done..|]. pose proof (zlen_nonneg us).
  assert (Hm : 1 <= MINBPC enc) by (destruct (@law_minbpc enc _); lia). unfold fuel_of, fuel_at. unfold zlen in *. nia.
Qed.

Lemma literals_classified_witness :
  predefinedEntityName little2_encoding [39; 0; 103; 0; 116; 0; 39; 0] 2 6 = Ok 62 /\
  (2 <= 2 -> isPublicId little2_encoding [39; 0; 103; 0; 116; 0; 39; 0] 0 8 = Ok None).
Proof.
  apply (literals_classified little2_encoding [39; 0; 103; 0; 116; 0; 39; 0] 2 (str "gt")).
  - apply list_elem_of_lookup_2 with 8%nat. reflexivity.
  - conc.
  - done.
  - done.
  - repeat (eapply units_cons; [reflexivity|reflexivity|]). apply units_nil.
Defined.
