(* ===== verification/ExpatAtts.v ===== *)
(** * Attributes of a start tag: [src/apr-util/xml/expat/lib/xmltok_impl.c]

    [getAtts] runs over a start tag a second time, without an end pointer and
    without the scanner's checks: it relies on the tag having been accepted by
    [scanLt]. [tag_atts] is the grammar of the tags; the scanner accepts nothing
    else, and on these [getAtts] stays inside the token and returns the attributes. *)

From S2P Require Import Prelude ExpatRole ExpatTok ExpatScan ExpatEnc ExpatUtf ExpatText.

(** ** getAtts *)

Record ATTRIBUTE := mkAttribute { att_name : Z; valuePtr : Z; valueEnd : Z; normalized : bool }.

#[global] Instance ATTRIBUTE_eq_dec : EqDecision ATTRIBUTE.
Proof. solve_decision. Defined.

Inductive att_state := other | inName | inValue.

#[global] Instance att_state_eq_dec : EqDecision att_state.
Proof. solve_decision. Defined.

(** The locals of the function and the array it fills. *)
Record att_scan := mkAtts { state : att_state; nAtts : Z; open : BT; atts : list ATTRIBUTE }.

Section getAtts.
Context (enc : ENCODING) (m : list Z) (attsMax : Z).
Abbreviation MIN := (MINBPC enc).

(** An assignment to a field of [atts[nAtts]] under [if (nAtts < attsMax)]. *)
Definition set_att (f : ATTRIBUTE -> ATTRIBUTE) (s : att_scan) : res att_scan :=
  if nAtts s <? attsMax then
    match atts s !! Z.to_nat (nAtts s) with
    | Some a => Ok (mkAtts (state s) (nAtts s) (open s) (<[Z.to_nat (nAtts s) := f a]> (atts s)))
    | None => Err OutOfBounds
    end
  else Ok s.

Definition set_state (st : att_state) (s : att_scan) : att_scan := mkAtts st (nAtts s) (open s) (atts s).

Definition START_NAME (ptr : Z) (s : att_scan) : res att_scan :=
  match state s with
  | other =>
      do s <- set_att (fun a => mkAttribute ptr (valuePtr a) (valueEnd a) true) s;
      Ok (set_state inName s)
  | _ => Ok s
  end.

(** [case BT_QUOT] and [case BT_APOS], [q] the type. *)
Definition quote (q : BT) (ptr : Z) (s : att_scan) : res att_scan :=
  match state s with
  | inValue =>
      if bool_decide (open s = q) then
        do s <- set_att (fun a => mkAttribute (att_name a) (valuePtr a) ptr (normalized a)) (set_state other s);
        Ok (mkAtts (state s) (s32 (nAtts s + 1)) (open s) (atts s))
      else Ok s
  | _ =>
      do s <- set_att (fun a => mkAttribute (att_name a) (ptr + MIN) (valueEnd a) (normalized a)) s;
      Ok (mkAtts inValue (nAtts s) q (atts s))
  end.

Definition not_normalized : att_scan -> res att_scan :=
  set_att (fun a => mkAttribute (att_name a) (valuePtr a) (valueEnd a) false).

(** [case BT_S]: white space in a value that normalization would change. *)
Definition space_in_value (ptr : Z) (s : att_scan) : res att_scan :=
  if nAtts s <? attsMax then
    do a <- of_option OutOfBounds (atts s !! Z.to_nat (nAtts s));
    if normalized a then
      do changes <-
        (if ptr =? valuePtr a then Ok true else
         do c <- BYTE_TO_ASCII enc m ptr;
         if negb (c =? 32) then Ok true else
         do c <- BYTE_TO_ASCII enc m (ptr + MIN);
         if c =? 32 then Ok true else
         do t <- BYTE_TYPE enc m (ptr + MIN); Ok (bool_decide (t = open s)));
      if changes : bool then not_normalized s else Ok s
    else Ok s
  else Ok s.

Fixpoint getAtts_loop (fuel : nat) (ptr : Z) (s : att_scan) : res att_scan :=
  match fuel with
  | O => Err OutOfFuel
  | S fuel =>
      do t <- BYTE_TYPE enc m ptr;
      match t with
      | BT_LEAD2 | BT_LEAD3 | BT_LEAD4 | BT_NONASCII | BT_NMSTRT | BT_HEX =>
          do s <- START_NAME ptr s; getAtts_loop fuel (ptr + width enc t) s
      | BT_QUOT | BT_APOS => do s <- quote t ptr s; getAtts_loop fuel (ptr + MIN) s
      | BT_AMP => do s <- not_normalized s; getAtts_loop fuel (ptr + MIN) s
      | BT_S =>
          do s <- (match state s with inName => Ok (set_state other s) | inValue => space_in_value ptr s | other => Ok s end);
          getAtts_loop fuel (ptr + MIN) s
      | BT_CR | BT_LF =>
          do s <- (match state s with inName => Ok (set_state other s) | inValue => not_normalized s | other => Ok s end);
          getAtts_loop fuel (ptr + MIN) s
      | BT_GT | BT_SOL =>
          match state s with inValue => getAtts_loop fuel (ptr + MIN) s | _ => Ok s end
      | _ => getAtts_loop fuel (ptr + MIN) s
      end
  end.

(** The number of attributes and the array. *)
Definition getAtts (ptr : Z) (a : list ATTRIBUTE) : res (Z * list ATTRIBUTE) :=
  do s <- getAtts_loop (fuel_of m ptr) (ptr + MIN) (mkAtts inName 0 BT_NONXML a);
  Ok (nAtts s, atts s).
End getAtts.

(** ** The grammar of a start tag *)

(** White space in an attribute value. *)
Definition white (t : BT) : bool := match t with BT_S | BT_CR | BT_LF => true | _ => false end.

(** Normalization of a tokenized value (XML 1.0, 3.3.3): white space is a space, no
    space leads, trails, or follows another. [after] tells that one has just been. *)
Fixpoint normalize_value (after : bool) (cs : list (BT * Z)) : list (BT * Z) :=
  match cs with
  | [] => []
  | (t, c) :: cs =>
      if white t then
        if after || forallb (fun tc => white (fst tc)) cs then normalize_value after cs
        else (BT_S, 32) :: normalize_value true cs
      else (t, c) :: normalize_value false cs
  end.

(** A value the parser may use as it stands: no reference, and normal already. *)
Definition is_normal (cs : list (BT * Z)) : bool :=
  forallb (fun tc => negb (bool_decide (fst tc = BT_AMP))) cs && bool_decide (normalize_value true cs = cs).

(** The types a name starts with. *)
Definition starts_name (t : BT) : bool :=
  match t with BT_LEAD2 | BT_LEAD3 | BT_LEAD4 | BT_NONASCII | BT_NMSTRT | BT_HEX => true | _ => false end.

Definition is_quote (t : BT) : Prop := t = BT_QUOT \/ t = BT_APOS.

Section grammar.
Context (enc : ENCODING) (m : list Z).
Abbreviation MIN := (MINBPC enc).
Abbreviation txt := (text enc m).

(** The rest of a tag from the end of a name or of a value on, up to [next], and the
    attributes in it. *)
Inductive tag_atts : Z -> Z -> list ATTRIBUTE -> Prop :=
  | tag_end p q sp t next :
      txt p q sp -> spaces sp -> BYTE_TYPE enc m q = Ok t -> t = BT_GT \/ t = BT_SOL -> q + MIN <= next ->
      tag_atts p next []
  | tag_att p q sp t c r nm s sp1 e1 v sp2 w cs o c' next l :
      txt p q sp -> spaces sp -> sp <> [] ->
      txt q r [(t, c)] -> starts_name t = true -> txt r s nm -> names nm ->
      txt s e1 sp1 -> spaces sp1 -> BYTE_TYPE enc m e1 = Ok BT_EQUALS ->
      txt (e1 + MIN) v sp2 -> spaces sp2 -> BYTE_TYPE enc m v = Ok o -> is_quote o ->
      txt (v + MIN) w cs -> Forall (fun tc => fst tc <> o) cs -> txt w (w + MIN) [(o, c')] ->
      tag_atts (w + MIN) next l ->
      tag_atts p next (mkAttribute q (v + MIN) w (is_normal cs) :: l).
End grammar.

(** ** getAtts on a tag of the grammar *)

Section run.
Context (enc : ENCODING) `{!EncodingLaws enc} `{!AsciiLaws enc} (m : list Z) (attsMax : Z).
Abbreviation MIN := (MINBPC enc).
Abbreviation txt := (text enc m).
Abbreviation loop := (getAtts_loop enc m attsMax).

(** The loop goes from [p] with [s] to [q] with [s'], in one step per character. *)
Definition steps (p : Z) (s : att_scan) (q : Z) (s' : att_scan) : Prop :=
  exists k, Z.of_nat k <= q - p /\ forall fuel, loop (k + fuel) p s = loop fuel q s'.

Lemma steps_refl p s : steps p s p s.
Proof. exists 0%nat. split; [lia|done]. Qed.

Lemma steps_trans p s q s' r s'' : steps p s q s' -> steps q s' r s'' -> steps p s r s''.
Proof.
  intros (k & Hk & H1) (j & Hj & H2). exists (k + j)%nat. split; [lia|]. intros fuel. by rewrite <- Nat.add_assoc, H1, H2.
Qed.

Lemma min_pos : 1 <= MIN.
Proof using EncodingLaws0. destruct (@law_minbpc enc _) as [-> | ->]; lia. Qed.

(** One character. *)
Lemma step_one p t s s' :
  (forall fuel, loop (S fuel) p s = loop fuel (p + width enc t) s') -> steps p s (p + width enc t) s'.
Proof using EncodingLaws0. intros H. exists 1%nat. pose proof (width_pos enc t). split; [lia|]. intros fuel. apply H. Qed.

(** Names: nothing is recorded, the state stays. *)
Lemma run_names p q nm s : txt p q nm -> names nm -> state s = inName -> steps p s q s.
Proof using EncodingLaws0.
  intros Ht Hn Hs. induction Ht as [p|p q t c cs Hty Hc Ht IH]; [apply steps_refl|]. apply Forall_cons_1 in Hn as [Hn1 Hn].
  eapply steps_trans; [apply (step_one p t s s)|by apply IH]. intros fuel. cbn [getAtts_loop fst] in *. rewrite Hty. cbn [rbind].
  unfold START_NAME. destruct t; try discriminate Hn1; rewrite ?Hs; reflexivity.
Qed.

(** White space outside a value. *)
Definition after_spaces (sp : list (BT * Z)) (s : att_scan) : att_scan := match sp with [] => s | _ => set_state other s end.

Lemma run_spaces p q sp s : txt p q sp -> spaces sp -> state s <> inValue -> steps p s q (after_spaces sp s).
Proof using EncodingLaws0.
  intros Ht Hn. revert s. induction Ht as [p|p q t c cs Hty Hc Ht IH]; intros s Hs; [apply steps_refl|]. apply Forall_cons_1 in Hn as [Hn1 Hn].
  assert (Hset : (match state s with inName => set_state other s | inValue => s | other => s end) = set_state other s).
  { destruct s as [[] n o a]; [done|done|]. by destruct Hs. }
  eapply steps_trans; [apply (step_one p t s (set_state other s))|].
  - intros fuel. cbn [getAtts_loop fst] in *. rewrite Hty. cbn [rbind]. unfold width.
    destruct Hn1 as [-> |[-> | ->]]; cbn [lead]; rewrite <- Hset; destruct (state s) eqn:E; (done || by destruct Hs).
  - replace (after_spaces ((t, c) :: cs) s) with (after_spaces cs (set_state other s)) by (by destruct cs). by apply IH.
Qed.

(** [atts[n]] when there is room for it. *)
Definition slot (n : Z) (A : list ATTRIBUTE) (a : ATTRIBUTE) : list ATTRIBUTE := if n <? attsMax then <[Z.to_nat n := a]> A else A.

Context (Hmax : 0 <= attsMax).

Lemma set_att_slot f st n o A a :
  0 <= n -> attsMax <= zlen A -> set_att attsMax f (mkAtts st n o (slot n A a)) = Ok (mkAtts st n o (slot n A (f a))).
Proof.
  intros Hn HA. unfold set_att, slot. cbn [nAtts atts state open]. destruct (Z.ltb_spec n attsMax); [|done].
  rewrite list_lookup_insert_eq by (unfold zlen in *; lia). by rewrite list_insert_insert_eq.
Qed.

Lemma slot_here n A : 0 <= n -> attsMax <= zlen A -> exists a, A = slot n A a.
Proof.
  intros Hn HA. unfold slot. destruct (Z.ltb_spec n attsMax); [|by exists (mkAttribute 0 0 0 false)].
  destruct (lookup_lt_is_Some_2 A (Z.to_nat n)) as [a Ha]; [unfold zlen in *; lia|]. exists a. by rewrite list_insert_id.
Qed.

Lemma zlen_slot n A a : zlen (slot n A a) = zlen A.
Proof. unfold slot. case_match; [apply zlen_insert|done]. Qed.

(** The code's test of a value, character by character; [first] at its start. *)
Fixpoint settled (first : bool) (cs : list (BT * Z)) : bool :=
  match cs with
  | [] => true
  | (t, c) :: cs =>
      (match t with
       | BT_AMP | BT_CR | BT_LF => false
       | BT_S => negb first && (c =? 32) && match cs with [] => false | (_, c') :: _ => negb (c' =? 32) end
       | _ => true
       end) && settled false cs
  end.

(** It is the test of the specification. *)
Definition space_is_space (cs : list (BT * Z)) : Prop := Forall (fun tc => snd tc = 32 -> fst tc = BT_S) cs.
Definition normal_from (after : bool) (cs : list (BT * Z)) : bool :=
  forallb (fun tc => negb (bool_decide (fst tc = BT_AMP))) cs && bool_decide (normalize_value after cs = cs).

Lemma normalize_shorter after cs : (length (normalize_value after cs) <= length cs)%nat.
Proof.
  revert after. induction cs as [|[t c] cs IH]; intros after; cbn [normalize_value length]; [done|].
  repeat case_match; cbn [length]; [pose proof (IH after)|pose proof (IH true)|pose proof (IH false)]; lia.
Qed.

Lemma normalize_dropped after x cs : bool_decide (normalize_value after cs = x :: cs) = false.
Proof.
  apply bool_decide_eq_false. intros E. pose proof (normalize_shorter after cs) as H. rewrite E in H. cbn [length] in H. lia.
Qed.

Lemma settled_head t c cs : space_is_space ((t, c) :: cs) -> negb (c =? 32) && settled false ((t, c) :: cs) = settled true ((t, c) :: cs).
Proof.
  intros [H _]%Forall_cons_1. cbn [fst snd] in H. cbn [settled]. destruct (Z.eqb_spec c 32) as [->|Hc].
  - by rewrite (H eq_refl).
  - destruct t; rewrite ?andb_false_r; reflexivity.
Qed.

(** White space to the end is never settled. *)
Lemma settled_white cs : cs <> [] -> forallb (fun tc => white (fst tc)) cs = true -> settled false cs = false.
Proof.
  induction cs as [|[t c] cs IH]; intros Hne Hw; [done|]. cbn [forallb fst] in Hw. apply andb_true_iff in Hw as [Ht Hw]. cbn [settled].
  destruct cs as [|x cs]; [destruct t; try discriminate Ht; by rewrite ?andb_false_r|]. rewrite IH by done. by rewrite andb_false_r.
Qed.

Lemma settled_normal cs : space_is_space cs -> forall after, settled after cs = normal_from after cs.
Proof.
  induction cs as [|[t c] cs IH]; intros Hsp after; [done|]. pose proof Hsp as [_ Hsp']%Forall_cons_1. specialize (IH Hsp').
  unfold normal_from. cbn [forallb fst normalize_value].
  assert (Hgo : forall x y, bool_decide (x :: y = (t, c) :: cs) = bool_decide (x = (t, c)) && bool_decide (y = cs)).
  { intros x y. rewrite <- bool_decide_and. apply bool_decide_ext. split; [by intros [= -> ->]|by intros [-> ->]]. }
  destruct (white t) eqn:Ht.
  - replace (bool_decide (t = BT_AMP)) with false by (by destruct t). cbn [negb andb].
    destruct after; cbn [orb]; [rewrite normalize_dropped, andb_false_r; cbn [settled]; by destruct t|].
    destruct (forallb (fun tc => white (fst tc)) cs) eqn:Hall.
    + rewrite normalize_dropped, andb_false_r. apply settled_white; [done|]. cbn [forallb fst]. by rewrite Ht.
    + rewrite Hgo. destruct cs as [|[t' c'] cs]; [done|]. fold (normal_from true ((t', c') :: cs)).
      rewrite (andb_comm (bool_decide _)), andb_assoc. fold (normal_from true ((t', c') :: cs)). rewrite <- (IH true), <- settled_head by done.
      cbn [settled]. destruct t; try discriminate Ht; rewrite ?(bool_decide_false ((BT_S, 32) = _)) by congruence; rewrite ?andb_false_r; try done.
      cbn [negb andb]. destruct (Z.eqb_spec c 32) as [->|Hc]; [rewrite bool_decide_true by done; by rewrite andb_true_r|].
      rewrite bool_decide_false by congruence. by rewrite andb_false_r.
  - rewrite Hgo, (bool_decide_true ((t, c) = (t, c))), andb_true_l by done. fold (normal_from false cs).
    rewrite <- andb_assoc. fold (normal_from false cs). rewrite <- (IH false). cbn [settled]. by destruct t.
Qed.

Lemma text_spaces p q cs : txt p q cs -> space_is_space cs.
Proof using AsciiLaws0.
  induction 1 as [|p q t c cs Hty Hc Ht IH]; constructor; [|done]. cbn [fst snd]. intros ->.
  pose proof (ascii_class_ok enc m p 32 t Hc Hty) as Ha. by destruct t.
Qed.

Section value.
Context (n : Z) (o : BT) (A : list ATTRIBUTE) (q v x w : Z) (Hn : 0 <= n) (HA : attsMax <= zlen A) (Ho : is_quote o).
Context (Hw : BYTE_TYPE enc m w = Ok o) (Hwc : exists c, BYTE_TO_ASCII enc m w = Ok c).

Definition in_value (b : bool) : att_scan := mkAtts inValue n o (slot n A (mkAttribute q v x b)).

Lemma not_normalized_spec b : not_normalized attsMax (in_value b) = Ok (in_value false).
Proof using Hn HA. unfold not_normalized, in_value. by rewrite set_att_slot. Qed.

Lemma space_in_value_spec p c rest b :
  BYTE_TYPE enc m p = Ok BT_S -> BYTE_TO_ASCII enc m p = Ok c -> txt (p + MIN) w rest -> Forall (fun tc => fst tc <> o) rest ->
  space_in_value enc m attsMax p (in_value b) =
  Ok (in_value (b && (negb (p =? v) && (c =? 32) && match rest with [] => false | (_, c') :: _ => negb (c' =? 32) end))).
Proof using Type*.
  intros Hty Hc Hrest Hne. unfold space_in_value, in_value. cbn [nAtts atts open].
  destruct (n <? attsMax) eqn:Hlt; [|by unfold slot; rewrite Hlt].
  assert (Hlk : slot n A (mkAttribute q v x b) !! Z.to_nat n = Some (mkAttribute q v x b)).
  { unfold slot. rewrite Hlt. apply list_lookup_insert_eq. unfold zlen in HA. lia. }
  rewrite Hlk. cbn [of_option rbind normalized valuePtr]. destruct b; [|done].
  assert (Hchg : (if p =? v then Ok true else
         do c <- BYTE_TO_ASCII enc m p;
         if negb (c =? 32) then Ok true else
         do c <- BYTE_TO_ASCII enc m (p + MIN);
         if c =? 32 then Ok true else
         do t <- BYTE_TYPE enc m (p + MIN); Ok (bool_decide (t = o))) =
    Ok (negb (negb (p =? v) && (c =? 32) && match rest with [] => false | (_, c') :: _ => negb (c' =? 32) end))).
  { destruct (p =? v); [done|]. rewrite Hc. cbn [rbind negb andb]. destruct (c =? 32); [|done]. cbn [negb andb].
    inversion Hrest as [? Hp|? ? t' c' rest' Hty' Hc' _]; subst.
    - destruct Hwc as [cw Hcw]. rewrite Hcw, Hw. cbn [rbind]. destruct (cw =? 32); [done|]. by rewrite bool_decide_true.
    - rewrite Hc', Hty'. cbn [rbind]. destruct (c' =? 32); [done|]. apply Forall_cons_1 in Hne as [Hne _]. by rewrite bool_decide_false. }
  rewrite Hchg. cbn [rbind andb]. destruct (negb (p =? v) && (c =? 32) && _); cbn [negb]; [done|].
  apply (not_normalized_spec true).
Qed.

Lemma run_att_value p cs b :
  txt p w cs -> Forall (fun tc => fst tc <> o) cs -> v <= p -> steps p (in_value b) w (in_value (b && settled (p =? v) cs)).
Proof using Type*.
  intros Ht. remember w as w' eqn:Ew in Ht |- *. revert b. induction Ht as [p|p w' t c cs Hty Hc Ht IH]; intros b Hne Hv.
  { cbn [settled]. rewrite andb_true_r. apply steps_refl. }
  apply Forall_cons_1 in Hne as [Hto Hne]. cbn [fst] in Hto. cbn [settled]. pose proof (width_pos enc t).
  eapply steps_trans; [|rewrite andb_assoc; replace (settled false cs) with (settled (p + width enc t =? v) cs)
    by (f_equal; apply Z.eqb_neq; lia); apply IH; [done|done|lia]].
  apply step_one. intros fuel. cbn [getAtts_loop]. rewrite Hty. cbn [rbind]. unfold width, START_NAME, quote.
  destruct t; cbn [lead]; rewrite ?andb_true_r, ?andb_false_r; try reflexivity.
  - by rewrite not_normalized_spec.
  - cbn [state in_value]. by rewrite not_normalized_spec.
  - cbn [state in_value]. by rewrite not_normalized_spec.
  - cbn [state in_value open]. by rewrite bool_decide_false by (intros ->; by apply Hto).
  - cbn [state in_value open]. by rewrite bool_decide_false by (intros ->; by apply Hto).
  - cbn [state in_value]. subst w'. by rewrite (space_in_value_spec p c cs b).
Qed.
End value.

(** The array after the attributes [l] have been stored from [n] on. *)
Fixpoint fill (n : Z) (A l : list ATTRIBUTE) : list ATTRIBUTE :=
  match l with
  | [] => A
  | a :: l => fill (n + 1) (slot n A a) l
  end.

(** The end of a value, and the state after it. *)
Lemma close_quote n o A q v x w b :
  0 <= n < 2 ^ 31 - 1 -> attsMax <= zlen A -> is_quote o -> BYTE_TYPE enc m w = Ok o ->
  steps w (in_value n o A q v x b) (w + MIN) (mkAtts other (n + 1) o (slot n A (mkAttribute q v w b))).
Proof using EncodingLaws0.
  intros Hn HA Ho Hw. replace (w + MIN) with (w + width enc o) by (unfold width; by destruct Ho as [-> | ->]).
  apply step_one. intros fuel. cbn [getAtts_loop]. rewrite Hw. cbn [rbind].
  assert (Hq : quote enc attsMax o w (in_value n o A q v x b) = Ok (mkAtts other (n + 1) o (slot n A (mkAttribute q v w b)))).
  { unfold quote, in_value. cbn [state open]. rewrite bool_decide_true by done. unfold set_state. cbn [nAtts open atts].
    rewrite set_att_slot by (done || lia). cbn [rbind state nAtts open atts]. by rewrite s32_small by lia. }
  unfold width. destruct Ho as [-> | ->]; cbn [lead]; by rewrite Hq.
Qed.

Lemma open_quote n o o' A a v st :
  0 <= n -> attsMax <= zlen A -> is_quote o -> BYTE_TYPE enc m v = Ok o -> st <> inValue ->
  steps v (mkAtts st n o' (slot n A a)) (v + MIN) (in_value n o A (att_name a) (v + MIN) (valueEnd a) (normalized a)).
Proof using EncodingLaws0.
  intros Hn HA Ho Hv Hst. replace (v + MIN) with (v + width enc o) at 1 by (unfold width; by destruct Ho as [-> | ->]).
  apply step_one. intros fuel. cbn [getAtts_loop]. rewrite Hv. cbn [rbind].
  assert (Hq : quote enc attsMax o v (mkAtts st n o' (slot n A a)) = Ok (in_value n o A (att_name a) (v + MIN) (valueEnd a) (normalized a))).
  { unfold quote. cbn [state]. destruct st; [..|done]; (rewrite set_att_slot by done); reflexivity. }
  unfold width. destruct Ho as [-> | ->]; cbn [lead]; by rewrite Hq.
Qed.

Lemma start_name n o A a q r t c :
  0 <= n -> attsMax <= zlen A -> txt q r [(t, c)] -> starts_name t = true ->
  steps q (mkAtts other n o (slot n A a)) r (mkAtts inName n o (slot n A (mkAttribute q (valuePtr a) (valueEnd a) true))).
Proof using EncodingLaws0.
  intros Hn HA Ht Hs. inversion Ht as [|? ? ? ? ? Hty Hc Ht']; subst. inversion Ht'; subst. apply step_one. intros fuel.
  cbn [getAtts_loop]. rewrite Hty. cbn [rbind]. unfold START_NAME. cbn [state]. rewrite set_att_slot by done. cbn [rbind].
  by destruct t.
Qed.

Lemma equals_sign e1 s : BYTE_TYPE enc m e1 = Ok BT_EQUALS -> steps e1 s (e1 + MIN) s.
Proof using EncodingLaws0.
  intros He. apply (step_one e1 BT_EQUALS). intros fuel. cbn [getAtts_loop]. by rewrite He.
Qed.

Lemma run_tag p next l : tag_atts enc m p next l -> forall st n o A,
  st <> inValue -> 0 <= n -> n + zlen l < 2 ^ 31 -> attsMax <= zlen A ->
  exists q s', steps p (mkAtts st n o A) q s' /\ q + MIN <= next /\ (forall fuel, loop (S fuel) q s' = Ok s') /\
    nAtts s' = n + zlen l /\ atts s' = fill n A l.
Proof using Type*.
  induction 1 as [p q sp t next Hsp Hspaces Hq Ht Hnext
    |p q sp t c r nm s sp1 e1 v sp2 w cs o' c' next l Hsp Hspaces Hne Hfirst Hstart Hnm Hnames Hsp1 Hspaces1 Heq Hsp2 Hspaces2 Hv Ho Hcs Hno Hw Htag IH];
    intros st n o A Hst Hn Hl HA.
  - exists q, (after_spaces sp (mkAtts st n o A)). split; [by apply run_spaces|]. split; [done|]. split.
    + intros fuel. cbn [getAtts_loop]. rewrite Hq. cbn [rbind]. destruct Ht as [-> | ->], sp, st; done.
    + rewrite zlen_nil, Z.add_0_r. by destruct sp.
  - rewrite zlen_cons in Hl. pose proof (zlen_nonneg l). destruct (slot_here n A Hn HA) as [a0 Ha0].
    destruct (IH other (n + 1) o' (slot n A (mkAttribute q (v + MIN) w (is_normal cs)))) as (qe & s' & Hs & Hqe & Hend & Hcnt & Hat);
      [done|lia|lia|by rewrite zlen_slot|].
    exists qe, s'. split; [|split; [done|]; split; [done|]; split; [rewrite zlen_cons; lia|exact Hat]].
    eapply steps_trans; [by apply run_spaces|]. replace (after_spaces sp (mkAtts st n o A)) with (mkAtts other n o A) by (by destruct sp).
    rewrite Ha0 at 1. eapply steps_trans; [by eapply start_name|]. eapply steps_trans; [by eapply run_names|].
    eapply steps_trans; [by apply run_spaces|]. eapply steps_trans; [by apply equals_sign|]. eapply steps_trans; [apply run_spaces; [done|done|by destruct sp1]|].
    set (a1 := mkAttribute q (valuePtr a0) (valueEnd a0) true).
    assert (Hst2 : exists st2, st2 <> inValue /\ after_spaces sp2 (after_spaces sp1 (mkAtts inName n o (slot n A a1))) = mkAtts st2 n o (slot n A a1)).
    { destruct sp1, sp2; eexists; (split; [|reflexivity]); done. }
    destruct Hst2 as (st2 & Hst2 & ->). eapply steps_trans; [by eapply open_quote|]. cbn [att_name valueEnd normalized a1].
    inversion Hw as [|? ? ? ? ? Hwt Hwc _]; subst.
    eapply steps_trans; [apply (run_att_value n o' A q (v + MIN) (valueEnd a0) w Hn HA Ho Hwt (ex_intro _ _ Hwc) (v + MIN) cs true Hcs Hno); lia|].
    rewrite Z.eqb_refl, (settled_normal cs (text_spaces _ _ _ Hcs)). fold (is_normal cs). cbn [andb].
    eapply steps_trans; [by apply close_quote; [lia|..]|]. exact Hs.
Qed.
End run.

(** ** What the scanner accepts *)

Section accepted.
Context (enc : ENCODING) `{!EncodingLaws enc} `{!AsciiLaws enc} (m : list Z) (e : Z) (Hb : bytes m) (He : e <= zlen m).
Abbreviation MIN := (MINBPC enc).
Abbreviation txt := (text enc m).
Abbreviation at_ p := (inside enc e 0 p).

(** The end of the buffer is not the answer, and a character is read. *)
Ltac read H p :=
  destruct (Z.eqb_spec p e) as [|?Hne]; [simplify_eq; try (cbn in *; lia)|];
  try (destruct (BYTE_TYPE enc m p) as [?t|] eqn:?Hty; [|discriminate H]; cbn [rbind] in H).

Lemma next_at p : at_ p -> p <> e -> at_ (p + MIN).
Proof using Type*. intros Hp Hne. by apply past_inside, (next_past enc m e Hb He). Qed.

Lemma semi_text p q cs : txt p q cs -> at_ q -> q <> e -> BYTE_TYPE enc m q = Ok BT_SEMI -> exists c, txt p (q + MIN) (cs ++ [(BT_SEMI, c)]).
Proof using Type*.
  intros Ht Hq Hne Hty. destruct (min_text enc m e Hb He q _ Hq Hne Hty eq_refl) as [_ [c Hc]]. exists c. by eapply text_app.
Qed.

Definition plain (cs : list (BT * Z)) : Prop := Forall (fun tc => fst tc <> BT_QUOT /\ fst tc <> BT_APOS) cs.

Lemma names_plain cs : names cs -> plain cs.
Proof. intros H. eapply Forall_impl; [exact H|]. intros [t c] Hn. split; intros E; cbn [fst] in *; subst t; discriminate Hn. Qed.

Lemma digits_plain hex cs : digits hex cs -> plain cs.
Proof. intros H. eapply Forall_impl; [exact H|]. intros [t c] Hd. cbn [fst] in *. destruct Hd as [-> |[_ ->]]; done. Qed.

Lemma char_ref_plain p next : at_ p -> p <> e -> char_ref enc m e p next -> exists cs, txt p next cs /\ plain cs /\ at_ next.
Proof using Type*.
  intros Hp Hne (q & cs & hex & Hnum & Hx & Ht & Hd & _ & Hsemi & Hqe & Hq & ->).
  destruct (min_text enc m e Hb He p _ Hp Hne Hnum eq_refl) as [Hp1 [c Hc]]. destruct (semi_text _ _ _ Ht Hq Hqe Hsemi) as [c' Hs].
  pose proof (digits_plain _ _ Hd) as Hpl. assert (Hend : plain (cs ++ [(BT_SEMI, c')])) by (apply Forall_app; by repeat constructor).
  destruct hex.
  - assert (Hne1 : p + MIN <> e) by (intros E; apply text_le in Ht; [|done]; unfold inside in Hq, Hp1; pose proof (min_pos enc); pose proof (zlen_nonneg cs); lia).
    destruct (ascii_at enc m e Hb He _ Hp1 Hne1) as [cx Hcx]. rewrite (matches_ascii enc m 120 _ cx) in Hx by (done || lia).
    injection Hx as Hx. apply Z.eqb_eq in Hx. subst cx.
    destruct (law_type m m (p + MIN)) as (tx & Htx & _).
    { intros i Hi. destruct (rd_total m i) as (b & Hl & Hr); [destruct (next_at _ Hp1 Hne1) as (_ & Hle & _); unfold inside in Hp1; lia|].
      exists b. split; [by eapply (proj1 (Forall_lookup _ _) Hb)|done]. }
    pose proof (ascii_class_ok enc m _ _ _ Hcx Htx) as Ha. assert (tx = BT_NMSTRT) as -> by (by destruct tx).
    exists ((BT_NUM, c) :: (BT_NMSTRT, 120) :: cs ++ [(BT_SEMI, c')]). split; [|split; [by repeat constructor|by apply next_at]].
    apply (text_app _ _ _ _ _ [_] _ Hc). apply (text_cons _ _ _ _ _ _ _ Htx Hcx). exact Hs.
  - exists ((BT_NUM, c) :: cs ++ [(BT_SEMI, c')]). split; [by apply (text_app _ _ _ _ _ [_] _ Hc)|]. split; [by constructor|by apply next_at].
Qed.

Lemma scanRef_plain p r next :
  at_ p -> scanRef enc m e p = Ok (Tok r, Some next) -> 0 < tok_value r -> exists cs, txt p next cs /\ plain cs /\ at_ next.
Proof using Type*.
  intros Hp H Hpos. unfold scanRef in H. read H p. unfold switch in H.
  destruct (CHECK_NMSTRT_CASES enc m e t p) as [[q|s|]|] eqn:E; cbn [rbind] in H; [| | |done].
  - destruct (name_step enc m e Hb He p t q Hp Hne Hty (or_intror E)) as [Hq [c [Hc Hn]]].
    destruct (scanRef_name_text enc m e Hb He _ _ _ _ _ Hq H Hpos) as (q' & cs & Ht & Hns & Hsemi & Hq' & Hne' & -> & _).
    destruct (semi_text _ _ _ Ht Hq' Hne' Hsemi) as [c' Hs]. exists ((t, c) :: cs ++ [(BT_SEMI, c')]).
    split; [by apply (text_app _ _ _ _ _ [_] _ Hc)|]. split; [|by apply next_at]. apply (names_plain [(t, c)]) in Hn.
    apply (Forall_app _ [_]). split; [done|]. apply Forall_app. split; [by apply names_plain|by repeat constructor].
  - exfalso. destruct (name_cases_return enc m e t p _ (or_intror E)) as [Hs|Hs]; simplify_eq; cbn in *; simplify_eq; cbn in *; lia.
  - destruct t; try (simplify_eq; cbn in *; lia).
    apply char_ref_plain; [done|done|]. by eapply (scanCharRef_text enc m e Hb He).
Qed.

(** A positive result of [scanRef] is a token that ends somewhere. *)
Lemma scanRef_positive p r nxt :
  at_ p -> 0 < p -> scanRef enc m e p = Ok (r, nxt) -> 0 < tok_int r -> exists k next, r = Tok k /\ nxt = Some next /\ 0 < tok_value k.
Proof using Type*.
  intros Hp H0 H Hpos. pose proof (scanRef_gives enc m e p _ H) as Hg. cbn [fst] in Hg.
  assert (Hk : exists k, r = Tok k) by (by repeat (apply elem_of_cons in Hg as [-> |Hg]; [by eexists|]); apply not_elem_of_nil in Hg).
  destruct Hk as [k ->]. cbn [tok_int] in Hpos.
  destruct (scanRef_wf enc m e Hb He 0 p) as (s & Hs & Hw); [split; [done|lia]|]. rewrite H in Hs. injection Hs as <-.
  cbn [wf_scan] in Hw. replace (0 <? tok_value k) with true in Hw by lia. destruct Hw as (next & -> & _). by exists k, next.
Qed.

Lemma scan_value_text o fuel : is_quote o -> forall p w,
  at_ p -> 0 < p -> scan_value enc m e fuel o p = Ok (Advance w) ->
  exists cs, txt p w cs /\ Forall (fun tc => fst tc <> o) cs /\ BYTE_TYPE enc m w = Ok o /\ at_ w /\ w <> e.
Proof using Type*.
  intros Ho. induction fuel as [|fuel IH]; intros p w Hp H0 H; [done|]. cbn [scan_value] in H. read H p.
  case_bool_decide as Hto; [subst t; injection H as <-; exists []; split; [constructor|]; split; [constructor|done]|].
  pose proof (min_pos enc) as Hmin. pose proof (width_pos enc t) as Hwid.
  assert (Hgo : forall q, at_ q -> p < q -> scan_value enc m e fuel o q = Ok (Advance w) -> forall cs0, txt p q cs0 -> Forall (fun tc => fst tc <> o) cs0 ->
    exists cs, txt p w cs /\ Forall (fun tc => fst tc <> o) cs /\ BYTE_TYPE enc m w = Ok o /\ at_ w /\ w <> e).
  { intros q Hq Hlt Hs cs0 Ht0 Hn0. destruct (IH q w Hq ltac:(lia) Hs) as (cs & Ht & Hn & Hrest). exists (cs0 ++ cs)%list.
    split; [by eapply text_app|]. split; [by apply Forall_app|done]. }
  destruct (INVALID_CASES enc m e t p) as [[q|s|]|] eqn:E; cbn [rbind] in H; [|done| |done].
  - apply invalid_advance in E as (-> & Hl & Hfit). destruct (char_text enc m e Hb He p t Hp Hne Hty) as [c Hc].
    eapply (Hgo (p + width enc t)); [by apply (width_inside enc m e Hb He)|lia|exact H|exact Hc|by repeat constructor].
  - apply invalid_default in E. destruct (min_text enc m e Hb He p t Hp Hne Hty E) as [Hp1 [c Hc]].
    assert (Hchar : scan_value enc m e fuel o (p + MIN) = Ok (Advance w) -> _) by (intros Hs; exact (Hgo (p + MIN) Hp1 ltac:(lia) Hs _ Hc ltac:(by repeat constructor))).
    destruct t; try (by apply Hchar); try done.
    destruct (scanRef enc m e (p + MIN)) as [[r nxt]|] eqn:Er; [|done]. cbn [rbind] in H.
    destruct (Z.leb_spec (tok_int r) 0) as [|Hpos]; [done|].
    destruct (scanRef_positive _ _ _ Hp1 ltac:(lia) Er Hpos) as (k & next & -> & -> & Hk).
    destruct (scanRef_plain _ _ _ Hp1 Er Hk) as (cs & Ht & Hpl & Hnext).
    apply (Hgo next Hnext) with ((BT_AMP, c) :: cs); [|exact H|by apply (text_app _ _ _ _ _ [_] _ Hc)|].
    + pose proof (text_le _ _ _ _ _ Ht). pose proof (zlen_nonneg cs). lia.
    + constructor; [done|]. eapply Forall_impl; [exact Hpl|]. intros tc [H1 H2]. by destruct Ho as [-> | ->].
Qed.

(** A space that was passed over, before the text [p'] continues with. *)
Lemma space_text p q sp t :
  at_ p -> p <> e -> BYTE_TYPE enc m p = Ok t -> t = BT_S \/ t = BT_CR \/ t = BT_LF -> txt (p + MIN) q sp -> spaces sp ->
  exists sp', txt p q sp' /\ spaces sp' /\ sp' <> [].
Proof using Type*.
  intros Hp Hne Hty Ht Hsp Hs. destruct (min_text enc m e Hb He p t Hp Hne Hty) as [_ [c Hc]]; [by destruct Ht as [-> |[-> | ->]]|].
  exists ((t, c) :: sp). split; [by apply (text_app _ _ _ _ _ [_] _ Hc)|]. split; [by constructor|done].
Qed.

Lemma skip_to_equals_text fuel : forall p q,
  at_ p -> p <> e -> skip_to_equals enc m e fuel p = Ok (Advance q) ->
  exists sp, txt (p + MIN) q sp /\ spaces sp /\ BYTE_TYPE enc m q = Ok BT_EQUALS /\ at_ q /\ q <> e.
Proof using Type*.
  induction fuel as [|fuel IH]; intros p q Hp Hne H; [done|]. cbn [skip_to_equals] in H. pose proof (next_at p Hp Hne) as Hp1. read H (p + MIN).
  assert (Hgo : t = BT_S \/ t = BT_CR \/ t = BT_LF -> skip_to_equals enc m e fuel (p + MIN) = Ok (Advance q) ->
    exists sp, txt (p + MIN) q sp /\ spaces sp /\ BYTE_TYPE enc m q = Ok BT_EQUALS /\ at_ q /\ q <> e).
  { intros Ht Hs. destruct (IH _ _ Hp1 Hne0 Hs) as (sp & Hsp & Hspaces & Hrest).
    destruct (space_text _ _ _ _ Hp1 Hne0 Hty Ht Hsp Hspaces) as (sp' & ? & ? & _). by exists sp'. }
  destruct t; try done; try (apply Hgo; [tauto|done]). injection H as <-. exists []. split; [constructor|]. split; [constructor|done].
Qed.

Lemma skip_to_quote_text fuel : forall p q,
  at_ p -> p <> e -> skip_to_quote enc m e fuel p = Ok (Advance q) ->
  exists sp o, txt (p + MIN) q sp /\ spaces sp /\ BYTE_TYPE enc m q = Ok o /\ is_quote o /\ at_ q /\ q <> e /\ p < q.
Proof using Type*.
  pose proof (min_pos enc) as Hmin.
  induction fuel as [|fuel IH]; intros p q Hp Hne H; [done|]. cbn [skip_to_quote] in H. pose proof (next_at p Hp Hne) as Hp1. read H (p + MIN).
  assert (Hgo : t = BT_S \/ t = BT_CR \/ t = BT_LF -> skip_to_quote enc m e fuel (p + MIN) = Ok (Advance q) ->
    exists sp o, txt (p + MIN) q sp /\ spaces sp /\ BYTE_TYPE enc m q = Ok o /\ is_quote o /\ at_ q /\ q <> e /\ p < q).
  { intros Ht Hs. destruct (IH _ _ Hp1 Hne0 Hs) as (sp & o & Hsp & Hspaces & H1 & H2 & H3 & H4 & H5).
    destruct (space_text _ _ _ _ Hp1 Hne0 Hty Ht Hsp Hspaces) as (sp' & ? & ? & _). exists sp', o. repeat (split; [done|]). lia. }
  destruct t; try done; try (apply Hgo; [tauto|done]); injection H as <-; eexists [], _;
    (split; [constructor|]); (split; [constructor|]); (split; [exact Hty|]); (split; [by (left + right)|]); (split; [done|]); (split; [done|lia]).
Qed.

Definition with_atts (k : XML_TOK) : Prop := k = XML_TOK_START_TAG_WITH_ATTS \/ k = XML_TOK_EMPTY_ELEMENT_WITH_ATTS.

(** What may follow a name or a value at [p]: the next attribute's name, past its
    first character, or the end of the tag. *)
Definition continues (p : Z) (c : case_) : Prop :=
  match c with
  | Advance r => exists q sp t c, txt p q sp /\ spaces sp /\ sp <> [] /\ txt q r [(t, c)] /\ starts_name t = true /\ at_ r /\ p < r
  | Returns (Tok k, Some next) => 0 < tok_value k -> tag_atts enc m p next [] /\ with_atts k
  | _ => True
  end.

Lemma tag_end_here p q sp t k next :
  txt p q sp -> spaces sp -> BYTE_TYPE enc m q = Ok t -> t = BT_GT \/ t = BT_SOL ->
  (k, next) = (k, q + MIN) \/ scan_sol enc m e k q = Ok (Tok k, Some next) -> tag_atts enc m p next [].
Proof using Type*.
  intros Hsp Hs Hq Ht Hn. pose proof (min_pos enc). eapply tag_end; [done|done|done|done|]. destruct Hn as [[= ->]|Hn]; [lia|].
  unfold scan_sol in Hn. destruct (q + MIN =? e); [done|]. destruct (CHAR_MATCHES enc 62 m (q + MIN)) as [[]|]; cbn [rbind] in Hn; simplify_eq; lia.
Qed.

Lemma scan_sol_tok k q k' next : scan_sol enc m e k q = Ok (Tok k', Some next) -> 0 < tok_value k' -> k' = k.
Proof.
  unfold scan_sol. destruct (q + MIN =? e); [intros; simplify_eq; cbn in *; lia|].
  destruct (CHAR_MATCHES enc 62 m (q + MIN)) as [[]|]; cbn [rbind]; intros; simplify_eq; [done|cbn in *; lia].
Qed.

Lemma nmstrt_starts t p q : CHECK_NMSTRT_CASES enc m e t p = Ok (Advance q) -> starts_name t = true.
Proof. unfold CHECK_NMSTRT_CASES. by destruct t. Qed.

Lemma nmstrt_returns t p s : CHECK_NMSTRT_CASES enc m e t p = Ok (Returns s) -> continues p (Returns s) /\ forall p', continues p' (Returns s).
Proof.
  intros H. assert (Hs : forall p', continues p' (Returns s)); [|split; [apply Hs|exact Hs]]. intros p'.
  destruct s as [[k|k] [n|]]; [|done..]. destruct (name_cases_return enc m e t p _ (or_intror H)) as [E|E]; cbn in *; simplify_eq; cbn; lia.
Qed.

Lemma continues_space p t c :
  at_ p -> p <> e -> BYTE_TYPE enc m p = Ok t -> t = BT_S \/ t = BT_CR \/ t = BT_LF -> continues (p + MIN) c -> continues p c.
Proof using Type*.
  intros Hp Hne Hty Ht. pose proof (min_pos enc). destruct c as [r|[[k|k] [next|]]|]; try done; cbn [continues].
  - intros (q & sp & t' & c' & Hsp & Hs & _ & Hq & Hst & Hr & Hlt). destruct (space_text _ _ _ _ Hp Hne Hty Ht Hsp Hs) as (sp' & ? & ? & ?).
    exists q, sp', t', c'. repeat (split; [done|]). lia.
  - intros H0 Hpos. destruct (H0 Hpos) as [Htag Hk]. inversion Htag as [? q sp t' ? Hsp Hs Hq Ht' Hle|]; subst.
    destruct (space_text _ _ _ _ Hp Hne Hty Ht Hsp Hs) as (sp' & ? & ? & _). split; [by eapply tag_end|done].
Qed.

Lemma as_case_sol p k r : with_atts k -> BYTE_TYPE enc m p = Ok BT_SOL -> as_case (scan_sol enc m e k p) = Ok r -> continues p r.
Proof using Type*.
  intros Hk Hty H. unfold as_case in H. destruct (scan_sol enc m e k p) as [s|] eqn:E; [|done]. cbn [rbind] in H. injection H as <-.
  destruct s as [[k'|k'] [next|]]; try done. cbn [continues]. intros Hpos. pose proof (scan_sol_tok _ _ _ _ E Hpos) as ->.
  split; [|done]. eapply (tag_end_here p p []); [constructor|constructor|done|by right|by right].
Qed.

Lemma here_gt p k : with_atts k -> BYTE_TYPE enc m p = Ok BT_GT -> continues p (Returns (Tok k, Some (p + MIN))).
Proof using Type*.
  intros Hk Hty. cbn [continues]. intros _. split; [|done]. eapply (tag_end_here p p [] BT_GT k); [constructor|constructor|done|by left|by left].
Qed.

Lemma next_att_continues fuel : forall p t r,
  at_ p -> p <> e -> BYTE_TYPE enc m p = Ok t -> t = BT_S \/ t = BT_CR \/ t = BT_LF -> next_att enc m e fuel p = Ok r -> continues p r.
Proof using Type*.
  pose proof (min_pos enc) as Hmin.
  induction fuel as [|fuel IH]; intros p tp r Hp Hne Htp Hspace H; [done|]. cbn [next_att] in H. pose proof (next_at p Hp Hne) as Hp1.
  destruct (Z.eqb_spec (p + MIN) e) as [|Hne1]; [injection H as <-; done|].
  destruct (BYTE_TYPE enc m (p + MIN)) as [t|] eqn:Hty; [|done]. cbn [rbind] in H.
  destruct (CHECK_NMSTRT_CASES enc m e t (p + MIN)) as [[q|s|]|] eqn:E; cbn [rbind] in H; [| | |done].
  - injection H as <-. destruct (space_text p (p + MIN) [] tp Hp Hne Htp Hspace) as (sp & ? & ? & ?); [constructor|constructor|].
    destruct (name_step enc m e Hb He _ t q Hp1 Hne1 Hty (or_intror E)) as [Hq [c [Hc _]]]. cbn [continues].
    exists (p + MIN), sp, t, c. repeat (split; [done|]). split; [by eapply nmstrt_starts|]. split; [done|].
    pose proof (text_le _ _ _ _ _ Hc). rewrite zlen_cons, zlen_nil in *. lia.
  - injection H as <-. by apply (nmstrt_returns t (p + MIN)).
  - apply (continues_space p tp); [done..|]. destruct t; try (injection H as <-; done);
      first [by apply (as_case_sol _ _ _ ltac:(by right) Hty H)|injection H as <-; by apply here_gt; [left|]|eapply IH; [done|done|done|tauto|done]].
Qed.

Lemma after_value_continues p r : at_ p -> p <> e -> after_value enc m e p = Ok r -> continues (p + MIN) r.
Proof using Type*.
  intros Hp Hne H. unfold after_value in H. pose proof (next_at p Hp Hne) as Hp1.
  destruct (Z.eqb_spec (p + MIN) e) as [|Hne1]; [injection H as <-; done|].
  destruct (BYTE_TYPE enc m (p + MIN)) as [t|] eqn:Hty; [|done]. cbn [rbind] in H.
  destruct t; try (injection H as <-; done);
    first [by apply (as_case_sol _ _ _ ltac:(by right) Hty H)|injection H as <-; by apply here_gt; [left|]|by eapply next_att_continues; [..|exact H]; [done|done|done|tauto]].
Qed.

(** From a position in an attribute's name, its name starting at [q], to the end of
    the tag. *)
Definition att_rest (q p next : Z) (l : list ATTRIBUTE) : Prop :=
  exists nm s sp1 e1 v sp2 w cs o c' l', txt p s nm /\ names nm /\ txt s e1 sp1 /\ spaces sp1 /\ BYTE_TYPE enc m e1 = Ok BT_EQUALS /\
    txt (e1 + MIN) v sp2 /\ spaces sp2 /\ BYTE_TYPE enc m v = Ok o /\ is_quote o /\
    txt (v + MIN) w cs /\ Forall (fun tc => fst tc <> o) cs /\ txt w (w + MIN) [(o, c')] /\
    l = mkAttribute q (v + MIN) w (is_normal cs) :: l' /\ tag_atts enc m (w + MIN) next l'.

Lemma att_rest_tag p q sp t c r next l :
  txt p q sp -> spaces sp -> sp <> [] -> txt q r [(t, c)] -> starts_name t = true -> att_rest q r next l -> tag_atts enc m p next l.
Proof.
  intros Hsp Hs Hne Hq Ht (nm & s & sp1 & e1 & v & sp2 & w & cs & o & c' & l' & H1 & H2 & H3 & H4 & H5 & H6 & H7 & H8 & H9 & H10 & H11 & H12 & -> & H13).
  by eapply tag_att.
Qed.

Lemma att_rest_name q p r nm next l : txt p r nm -> names nm -> att_rest q r next l -> att_rest q p next l.
Proof.
  intros Hp Hn (nm' & s & sp1 & e1 & v & sp2 & w & cs & o & c' & l' & H1 & H2 & Hrest).
  exists (nm ++ nm')%list, s, sp1, e1, v, sp2, w, cs, o, c', l'. split; [by eapply text_app|]. split; [by apply Forall_app|done].
Qed.

Definition nonpositive (r : res case_) : Prop := forall s, r = Ok (Returns s) -> tok_int (fst s) <= 0.

Lemma skip_to_quote_nonpositive fuel : forall p, nonpositive (skip_to_quote enc m e fuel p).
Proof.
  induction fuel as [|fuel IH]; intros p s H; [done|]. cbn [skip_to_quote] in H. destruct (p + MIN =? e); [by simplify_eq|].
  destruct (BYTE_TYPE enc m (p + MIN)) as [t|]; [|done]. cbn [rbind] in H. destruct t; simplify_eq; (done || by eapply IH).
Qed.

Lemma skip_to_equals_nonpositive fuel : forall p, nonpositive (skip_to_equals enc m e fuel p).
Proof.
  induction fuel as [|fuel IH]; intros p s H; [done|]. cbn [skip_to_equals] in H. destruct (p + MIN =? e); [by simplify_eq|].
  destruct (BYTE_TYPE enc m (p + MIN)) as [t|]; [|done]. cbn [rbind] in H. destruct t; simplify_eq; (done || by eapply IH).
Qed.

Lemma scan_value_nonpositive o fuel : forall p, nonpositive (scan_value enc m e fuel o p).
Proof.
  induction fuel as [|fuel IH]; intros p s H; [done|]. cbn [scan_value] in H. destruct (p =? e); [by simplify_eq|].
  destruct (BYTE_TYPE enc m p) as [t|]; [|done]. cbn [rbind] in H. case_bool_decide; [done|].
  destruct (INVALID_CASES enc m e t p) as [[q|s'|]|] eqn:E; cbn [rbind] in H; [by eapply IH| | |done].
  - injection H as <-. pose proof (INVALID_CASES_gives enc m e t p _ E) as Hg.
    repeat (apply elem_of_cons in Hg as [-> |Hg]; [done|]). by apply not_elem_of_nil in Hg.
  - destruct t; simplify_eq; try (by eapply IH); [done|]. destruct (scanRef enc m e (p + MIN)) as [[r nxt]|]; [|done]. cbn [rbind] in H.
    destruct (Z.leb_spec (tok_int r) 0); [by injection H as <-|by eapply IH].
Qed.

(** The value after the equals sign at [p]. *)
Definition value_after (p : Z) (c : case_) : Prop :=
  exists v sp o w cs c', txt (p + MIN) v sp /\ spaces sp /\ BYTE_TYPE enc m v = Ok o /\ is_quote o /\
    txt (v + MIN) w cs /\ Forall (fun tc => fst tc <> o) cs /\ txt w (w + MIN) [(o, c')] /\ continues (w + MIN) c.

Lemma attribute_value_after p c :
  at_ p -> p <> e -> attribute_value enc m e p = Ok c ->
  value_after p c \/ (exists s, c = Returns s /\ tok_int (fst s) <= 0) \/ c = Default.
Proof using Type*.
  intros Hp Hne H. unfold attribute_value, bind_case in H.
  destruct (skip_to_quote enc m e (fuel_at e p) p) as [[v|s|]|] eqn:E; cbn [rbind] in H; [| | |done].
  2: { injection H as <-. right. left. exists s. split; [done|]. by eapply skip_to_quote_nonpositive. }
  2: { injection H as <-. by right; right. }
  destruct (skip_to_quote_text _ _ _ Hp Hne E) as (sp & o & Hsp & Hs & Hv & Ho & Hat & Hvne & Hlt). rewrite Hv in H. cbn [rbind] in H.
  assert (Hpos : 0 < v) by (unfold inside in Hp; lia). pose proof (min_pos enc).
  destruct (scan_value enc m e (fuel_at e v) o (v + MIN)) as [[w|s|]|] eqn:E2; cbn [rbind] in H; [| | |done].
  2: { injection H as <-. right. left. exists s. split; [done|]. by eapply scan_value_nonpositive. }
  2: { injection H as <-. by right; right. }
  destruct (scan_value_text o _ Ho _ _ (next_at v Hat Hvne) ltac:(lia) E2) as (cs & Hcs & Hno & Hw & Hwat & Hwne).
  destruct (min_text enc m e Hb He w o Hwat Hwne Hw) as [_ [c' Hc']]; [by destruct Ho as [-> | ->]|].
  left. exists v, sp, o, w, cs, c'. repeat (split; [done|]). by apply after_value_continues.
Qed.

Lemma value_att_rest q p next s nm sp1 e1 (r : case_) :
  txt p s nm -> names nm -> txt s e1 sp1 -> spaces sp1 -> BYTE_TYPE enc m e1 = Ok BT_EQUALS -> value_after e1 r ->
  match r with
  | Advance p' => (forall q', exists l', att_rest q' p' next l')
  | Returns s => exists k, s = (Tok k, Some next) /\ 0 < tok_value k
  | Default => False
  end -> exists l, att_rest q p next l.
Proof.
  intros Hnm Hn Hsp1 Hs1 Heq (v & sp & o & w & cs & c' & H1 & H2 & H3 & H4 & H5 & H6 & H7 & Hc) Hr.
  assert (Hl : exists l', tag_atts enc m (w + MIN) next l').
  { destruct r as [p'|s'|]; [| |done].
    - destruct Hc as (q' & sp' & t & c & K1 & K2 & K3 & K4 & K5 & _). destruct (Hr q') as [l' Hl']. exists l'. by eapply att_rest_tag.
    - destruct Hr as (k & -> & Hpos). exists []. by apply Hc. }
  destruct Hl as [l' Hl']. eexists. exists nm, s, sp1, e1, v, sp, w, cs, o, c', l'. repeat (split; [done|]). done.
Qed.

Lemma scan_colon_text had p p' :
  at_ p -> p <> e -> BYTE_TYPE enc m p = Ok BT_COLON -> scan_colon enc m e had p = Ok (Advance p') ->
  exists nm, txt p p' nm /\ names nm /\ at_ p'.
Proof using Type*.
  intros Hp Hne Hty H. unfold scan_colon in H. destruct had; [done|]. destruct (min_text enc m e Hb He p _ Hp Hne Hty eq_refl) as [Hp1 [c Hc]].
  destruct (Z.eqb_spec (p + MIN) e) as [|Hne1]; [done|]. destruct (BYTE_TYPE enc m (p + MIN)) as [t|] eqn:Ht; [|done]. cbn [rbind] in H.
  destruct (CHECK_NMSTRT_CASES enc m e t (p + MIN)) as [[q|s|]|] eqn:E; cbn [rbind] in H; simplify_eq.
  destruct (name_step enc m e Hb He _ t _ Hp1 Hne1 Ht (or_intror E)) as [Hq [c' [Hc' Hn]]].
  exists [(BT_COLON, c); (t, c')]. split; [by apply (text_app _ _ _ _ _ [_] _ Hc)|]. split; [by constructor|done].
Qed.

Lemma scan_colon_nonpositive had p : nonpositive (scan_colon enc m e had p).
Proof.
  intros s H. unfold scan_colon in H. destruct had; [by simplify_eq|]. destruct (p + MIN =? e); [by simplify_eq|].
  destruct (BYTE_TYPE enc m (p + MIN)) as [t|]; [|done]. cbn [rbind] in H.
  destruct (CHECK_NMSTRT_CASES enc m e t (p + MIN)) as [[q|s'|]|] eqn:E; cbn [rbind] in H; simplify_eq; [|done].
  destruct (name_cases_return enc m e t (p + MIN) _ (or_intror E)) as [-> | ->]; done.
Qed.

(** An attribute's value, then the rest of the tag by [scanAtts]; [IH] is about the
    attributes after it. *)
Lemma value_then_atts fuel q p s nm sp1 e1 k next :
  (forall q' p', at_ p' -> scanAtts enc m e fuel false p' = Ok (Tok k, Some next) -> (exists l, att_rest q' p' next l) /\ with_atts k) ->
  txt p s nm -> names nm -> txt s e1 sp1 -> spaces sp1 -> BYTE_TYPE enc m e1 = Ok BT_EQUALS -> at_ e1 -> e1 <> e -> 0 < tok_value k ->
  switch (attribute_value enc m e e1) (scanAtts enc m e fuel false) (Ok (INVALID p)) = Ok (Tok k, Some next) ->
  (exists l, att_rest q p next l) /\ with_atts k.
Proof using Type*.
  intros IH Hnm Hn Hsp Hs Heq Hat Hne Hpos H. unfold switch in H.
  destruct (attribute_value enc m e e1) as [c|] eqn:E; [|done]. cbn [rbind] in H.
  destruct (attribute_value_after _ _ Hat Hne E) as [Hv|[(s' & -> & Hle)| ->]].
  - destruct c as [p'|s'|]; [| |simplify_eq; cbn in *; lia].
    + pose proof Hv as (v & sp & o & w & cs & c' & _ & _ & _ & _ & _ & _ & _ & (q' & sp' & t & cc & _ & _ & _ & _ & _ & Hr & _)).
      split; [|by apply (IH 0 p' Hr H)]. by eapply (value_att_rest q p next s nm sp1 e1 (Advance p')); [..|intros q''; by apply (IH q'' p' Hr H)].
    + injection H as ->. pose proof Hv as (v & sp & o & w & cs & c' & _ & _ & _ & _ & _ & _ & _ & Hc). split; [|by apply Hc].
      by eapply (value_att_rest q p next s nm sp1 e1 (Returns (Tok k, Some next))); [..|by exists k].
  - injection H as ->. cbn [fst tok_int] in Hle. lia.
  - by simplify_eq.
Qed.

Lemma scanAtts_rest fuel : forall had q p k next,
  at_ p -> scanAtts enc m e fuel had p = Ok (Tok k, Some next) -> 0 < tok_value k -> (exists l, att_rest q p next l) /\ with_atts k.
Proof using Type*.
  induction fuel as [|fuel IH]; intros had q p k next Hp H Hpos; [done|]. cbn [scanAtts] in H. read H p. unfold switch at 1 in H.
  destruct (CHECK_NAME_CASES enc m e t p) as [[p'|s|]|] eqn:E; cbn [rbind] in H; [| | |done].
  - destruct (name_step enc m e Hb He p t p' Hp Hne Hty (or_introl E)) as [Hp' [c [Hc Hn]]].
    destruct (IH had q p' k next Hp' H Hpos) as [[l Hl] Hk]. split; [|done]. exists l. by eapply att_rest_name.
  - exfalso. destruct (name_cases_return enc m e t p _ (or_introl E)) as [Hs|Hs]; simplify_eq; cbn in *; simplify_eq; cbn in *; lia.
  - assert (Hnext : forall q' p', at_ p' -> scanAtts enc m e fuel false p' = Ok (Tok k, Some next) -> (exists l, att_rest q' p' next l) /\ with_atts k)
      by (intros; by eapply IH).
    assert (Hspace : t = BT_S \/ t = BT_CR \/ t = BT_LF ->
      switch (bind_case (skip_to_equals enc m e (fuel_at e p) p) (attribute_value enc m e)) (scanAtts enc m e fuel false) (Ok (INVALID p)) =
        Ok (Tok k, Some next) -> (exists l, att_rest q p next l) /\ with_atts k).
    { intros Ht Hsw. destruct (skip_to_equals enc m e (fuel_at e p) p) as [[e1|s|]|] eqn:Es; [| | |done].
      - destruct (skip_to_equals_text _ _ _ Hp Hne Es) as (sp & Hsp & Hs & Heq & Hat & Hne1).
        destruct (space_text _ _ _ _ Hp Hne Hty Ht Hsp Hs) as (sp' & Hsp' & Hs' & _).
        by eapply (value_then_atts fuel q p p [] sp' e1 k next Hnext); [constructor|constructor|..].
      - cbn in Hsw. injection Hsw as ->. apply skip_to_equals_nonpositive in Es. cbn [fst tok_int] in Es. lia.
      - by cbn in Hsw; simplify_eq. }
    destruct t; try (simplify_eq; cbn in *; lia); try (apply Hspace; [tauto|exact H]).
    + by eapply (value_then_atts fuel q p p [] [] p k next Hnext); [constructor|constructor|constructor|constructor|..].
    + unfold switch in H. destruct (scan_colon enc m e had p) as [[p'|s|]|] eqn:Ec; cbn [rbind] in H; [| | |done].
      * destruct (scan_colon_text _ _ _ Hp Hne Hty Ec) as (nm & Hnm & Hn & Hp').
        destruct (IH true q p' k next Hp' H Hpos) as [[l Hl] Hk]. split; [|done]. exists l. by eapply att_rest_name.
      * injection H as ->. apply scan_colon_nonpositive in Ec. cbn [fst tok_int] in Ec. lia.
      * by simplify_eq.
Qed.

(** *** Start tags *)

Definition no_atts (k : XML_TOK) : Prop := k = XML_TOK_START_TAG_NO_ATTS \/ k = XML_TOK_EMPTY_ELEMENT_NO_ATTS.

(** The token tells whether there are attributes. *)
Definition tells (k : XML_TOK) (l : list ATTRIBUTE) : Prop := match l with [] => no_atts k | _ => with_atts k end.

Lemma att_rest_tells q p next l k : att_rest q p next l -> with_atts k -> tells k l.
Proof. by intros (nm & s & sp1 & e1 & v & sp2 & w & cs & o & c' & l' & _ & _ & _ & _ & _ & _ & _ & _ & _ & _ & _ & _ & -> & _). Qed.

Lemma empty_tag p q sp t k k' next :
  txt p q sp -> spaces sp -> BYTE_TYPE enc m q = Ok t -> no_atts k -> 0 < tok_value k' ->
  t = BT_GT /\ Ok (Tok k, Some (q + MIN)) = Ok (Tok k', Some next) \/ t = BT_SOL /\ scan_sol enc m e k q = Ok (Tok k', Some next) ->
  exists l, tag_atts enc m p next l /\ tells k' l.
Proof using Type*.
  intros Hsp Hs Hq Hk Hpos H. exists []. destruct H as [[-> [= -> <-]]|[-> H]].
  - split; [|done]. eapply (tag_end_here p q sp BT_GT k'); [done..|by left|by left].
  - pose proof (scan_sol_tok _ _ _ _ H Hpos) as ->. split; [|done]. eapply (tag_end_here p q sp BT_SOL k); [done|done|done|by right|by right].
Qed.

Lemma scanLt_space_tag fuel : forall p0 p sp k next,
  txt p0 p sp -> spaces sp -> sp <> [] -> at_ p -> scanLt_space enc m e fuel p = Ok (Tok k, Some next) -> 0 < tok_value k ->
  exists l, tag_atts enc m p0 next l /\ tells k l.
Proof using Type*.
  induction fuel as [|fuel IH]; intros p0 p sp k next Hsp Hs Hspne Hp H Hpos; [done|]. cbn [scanLt_space] in H. read H p. unfold switch in H.
  destruct (CHECK_NMSTRT_CASES enc m e t p) as [[p'|s|]|] eqn:E; cbn [rbind] in H; [| | |done].
  - destruct (name_step enc m e Hb He p t p' Hp Hne Hty (or_intror E)) as [Hp' [c [Hc _]]].
    destruct (scanAtts_rest _ _ p p' k next Hp' H Hpos) as [[l Hl] Hk]. exists l. split; [|by eapply att_rest_tells].
    eapply att_rest_tag; [done|done|done|done|by eapply nmstrt_starts|done].
  - exfalso. destruct (name_cases_return enc m e t p _ (or_intror E)) as [Hs'|Hs']; simplify_eq; cbn in *; simplify_eq; cbn in *; lia.
  - assert (Hspace : t = BT_S \/ t = BT_CR \/ t = BT_LF -> scanLt_space enc m e fuel (p + MIN) = Ok (Tok k, Some next) ->
      exists l, tag_atts enc m p0 next l /\ tells k l).
    { intros Ht Hrec. destruct (min_text enc m e Hb He p t Hp Hne Hty) as [Hp1 [c Hc]]; [by destruct Ht as [-> |[-> | ->]]|].
      apply (IH p0 (p + MIN) (sp ++ [(t, c)])%list k next); [by eapply text_app| |by destruct sp|done..]. apply Forall_app. split; [done|]. apply Forall_cons_2; [exact Ht|apply Forall_nil_2]. }
    destruct t; try (simplify_eq; cbn in *; lia); try (apply Hspace; [tauto|exact H]).
    + eapply (empty_tag _ _ _ _ XML_TOK_START_TAG_NO_ATTS); [done..|by left|done|by left].
    + eapply (empty_tag _ _ _ _ XML_TOK_EMPTY_ELEMENT_NO_ATTS); [done..|by right|done|by right].
Qed.

Lemma scanLt_name_tag fuel : forall had p k next,
  at_ p -> scanLt_name enc m e fuel had p = Ok (Tok k, Some next) -> 0 < tok_value k ->
  exists nm s l, txt p s nm /\ names nm /\ tag_atts enc m s next l /\ tells k l.
Proof using Type*.
  induction fuel as [|fuel IH]; intros had p k next Hp H Hpos; [done|]. cbn [scanLt_name] in H. read H p. unfold switch at 1 in H.
  assert (Hname : forall p' nm had', at_ p' -> txt p p' nm -> names nm -> scanLt_name enc m e fuel had' p' = Ok (Tok k, Some next) ->
    exists nm s l, txt p s nm /\ names nm /\ tag_atts enc m s next l /\ tells k l).
  { intros p' nm had' Hp' Hnm Hn Hrec. destruct (IH had' p' k next Hp' Hrec Hpos) as (nm' & s & l & Ht & Hn' & Hrest).
    exists (nm ++ nm')%list, s, l. split; [by eapply text_app|]. split; [by apply Forall_app|done]. }
  destruct (CHECK_NAME_CASES enc m e t p) as [[p'|s|]|] eqn:E; cbn [rbind] in H; [| | |done].
  - destruct (name_step enc m e Hb He p t p' Hp Hne Hty (or_introl E)) as [Hp' [c [Hc Hn]]]. by eapply Hname.
  - exfalso. destruct (name_cases_return enc m e t p _ (or_introl E)) as [Hs'|Hs']; simplify_eq; cbn in *; simplify_eq; cbn in *; lia.
  - assert (Hhere : (exists l, tag_atts enc m p next l /\ tells k l) -> exists nm s l, txt p s nm /\ names nm /\ tag_atts enc m s next l /\ tells k l).
    { intros [l Hl]. exists [], p, l. split; [constructor|]. split; [constructor|done]. }
    assert (Hspace : t = BT_S \/ t = BT_CR \/ t = BT_LF -> scanLt_space enc m e (fuel_at e p) (p + MIN) = Ok (Tok k, Some next) ->
      exists l, tag_atts enc m p next l /\ tells k l).
    { intros Ht Hrec. destruct (min_text enc m e Hb He p t Hp Hne Hty) as [Hp1 [c Hc]]; [by destruct Ht as [-> |[-> | ->]]|].
      eapply (scanLt_space_tag _ p (p + MIN) [(t, c)]); [done|apply Forall_cons_2; [exact Ht|apply Forall_nil_2]|done..]. }
    destruct t; try (simplify_eq; cbn in *; lia); try (apply Hhere, Hspace; [tauto|exact H]).
    + apply Hhere. eapply (empty_tag p p [] _ XML_TOK_START_TAG_NO_ATTS); [constructor|constructor|done|by left|done|by left].
    + apply Hhere. eapply (empty_tag p p [] _ XML_TOK_EMPTY_ELEMENT_NO_ATTS); [constructor|constructor|done|by right|done|by right].
    + unfold switch in H. destruct (scan_colon enc m e had p) as [[p'|s|]|] eqn:Ec; cbn [rbind] in H; [| | |done].
      * destruct (scan_colon_text _ _ _ Hp Hne Hty Ec) as (nm & Hnm & Hn & Hp'). by eapply Hname.
      * injection H as ->. apply scan_colon_nonpositive in Ec. cbn [fst tok_int] in Ec. lia.
      * by simplify_eq.
Qed.

(** *** The other tokens that start with [<] *)

Definition MARKUP : list tok := map Tok [XML_TOK_PARTIAL; XML_TOK_PARTIAL_CHAR; XML_TOK_INVALID; XML_TOK_COMMENT;
  XML_TOK_PI; XML_TOK_XML_DECL; XML_TOK_END_TAG; XML_TOK_CDATA_SECT_OPEN].

Lemma scanComment_gives p : gives MARKUP (scanComment enc m e p).
Proof.
  assert (Hloop : forall fuel p, gives MARKUP (scanComment_loop enc m e fuel p)).
  { clear. intros fuel. give_loop fuel IH. cbn [scanComment_loop]. give; apply IH. }
  unfold scanComment. give. apply Hloop.
Qed.

Lemma scanPi_text_gives t fuel : t = XML_TOK_PI \/ t = XML_TOK_XML_DECL -> forall p, gives MARKUP (scanPi_text enc m e fuel t p).
Proof.
  intros Ht. give_loop fuel IH. cbn [scanPi_text]. give; try apply IH. all: intros s [= <-]; destruct Ht as [-> | ->]; by (apply (bool_decide_eq_true_1 _); reflexivity).
Qed.

Lemma checkPiTarget_gives a b t : checkPiTarget enc m a b = Ok (Some t) -> t = XML_TOK_PI \/ t = XML_TOK_XML_DECL.
Proof.
  unfold checkPiTarget. intros H. repeat match type of H with
  | (if ?c then _ else _) = _ => destruct c
  | rbind ?x _ = _ => destruct x; cbn [rbind] in H
  | Ok (if ?c then _ else _) = _ => destruct c
  end; simplify_eq; auto.
Qed.

Lemma scanPi_gives p : gives MARKUP (scanPi enc m e p).
Proof.
  assert (Hloop : forall fuel t0 p, gives MARKUP (scanPi_target enc m e fuel t0 p)).
  { clear p. intros fuel t0. give_loop fuel IH. cbn [scanPi_target]. give; try apply IH.
    all: match goal with H : checkPiTarget _ _ _ _ = Ok (Some _) |- _ => apply checkPiTarget_gives in H end;
      try (by apply scanPi_text_gives); intros s [= <-]; destruct Heq0 as [-> | ->]; by (apply (bool_decide_eq_true_1 _); reflexivity). }
  unfold scanPi. give. apply Hloop.
Qed.

Lemma scanEndTag_gives p : gives MARKUP (scanEndTag enc m e p).
Proof.
  assert (Hspace : forall fuel p, gives MARKUP (scanEndTag_space enc m e fuel p)).
  { clear. intros fuel. give_loop fuel IH. cbn [scanEndTag_space]. give; apply IH. }
  assert (Hname : forall fuel p, gives MARKUP (scanEndTag_name enc m e fuel p)).
  { clear p. intros fuel. give_loop fuel IH. cbn [scanEndTag_name]. give; (apply IH || apply Hspace). }
  unfold scanEndTag. give. apply Hname.
Qed.

Lemma scanCdataSection_gives p : gives MARKUP (scanCdataSection enc m e p).
Proof.
  assert (Hlit : forall lit p, gives MARKUP (match_literal enc m lit p)).
  { induction lit as [|c lit IH]; intros q; cbn [match_literal]; give. apply IH. }
  unfold scanCdataSection. give. apply Hlit.
Qed.

(** A start tag between [<] and the end of the token. *)
Definition start_tag (p next : Z) (k : XML_TOK) (l : list ATTRIBUTE) : Prop :=
  exists nm s, txt p s nm /\ names nm /\ tag_atts enc m s next l /\ tells k l.

Lemma scanLt_cases p k next :
  at_ p -> scanLt enc m e p = Ok (Tok k, Some next) -> 0 < tok_value k -> (exists l, start_tag p next k l) \/ Tok k ∈ MARKUP.
Proof using Type*.
  intros Hp H Hpos. unfold scanLt in H. read H p. unfold switch in H.
  destruct (CHECK_NMSTRT_CASES enc m e t p) as [[p'|s|]|] eqn:E; cbn [rbind] in H; [| | |done].
  - left. destruct (name_step enc m e Hb He p t p' Hp Hne Hty (or_intror E)) as [Hp' [c [Hc Hn]]].
    destruct (scanLt_name_tag _ _ _ _ _ Hp' H Hpos) as (nm & s & l & Ht & Hn' & Hrest). exists l, ((t, c) :: nm), s.
    split; [by apply (text_app _ _ _ _ _ [_] _ Hc)|]. split; [by apply (Forall_app _ [_])|done].
  - exfalso. destruct (name_cases_return enc m e t p _ (or_intror E)) as [Hs'|Hs']; simplify_eq; cbn in *; simplify_eq; cbn in *; lia.
  - right. assert (Hg : forall r, gives MARKUP r -> r = Ok (Tok k, Some next) -> Tok k ∈ MARKUP) by (intros r Hr Hk; by apply (Hr _ Hk)).
    destruct t; try (simplify_eq; cbn in *; lia);
      [by apply (Hg _ (scanPi_gives _) H)| |by apply (Hg _ (scanEndTag_gives _) H)].
    destruct (p + MIN =? e); [simplify_eq; cbn in *; lia|]. destruct (BYTE_TYPE enc m (p + MIN)) as [t|]; [|done]. cbn [rbind] in H.
    destruct t; try (simplify_eq; cbn in *; lia); [by apply (Hg _ (scanCdataSection_gives _) H)|by apply (Hg _ (scanComment_gives _) H)].
Qed.

Definition DATA : list tok := map Tok [XML_TOK_PARTIAL; XML_TOK_PARTIAL_CHAR; XML_TOK_INVALID; XML_TOK_DATA_CHARS;
  XML_TOK_DATA_NEWLINE; XML_TOK_TRAILING_CR; XML_TOK_TRAILING_RSQB].

Lemma content_chars_gives fuel : forall p, gives DATA (content_chars enc m e fuel p).
Proof.
  assert (Hcase : forall t p, gives_case DATA (data_case enc m e t p)).
  { intros t p s H. unfold data_case in H. destruct (lead t) as [n|]; [|done]. destruct (e - p <? n); [injection H as <-; by apply list_elem_of_lookup_2 with 3%nat|].
    destruct (IS_INVALID_CHAR enc n m p) as [[]|]; cbn [rbind] in H; simplify_eq. by apply list_elem_of_lookup_2 with 3%nat. }
  give_loop fuel IH. cbn [content_chars]. destruct (p =? e); [give|]. destruct (BYTE_TYPE enc m p) as [t|]; cbn [rbind]; [|by intros s].
  apply gives_switch; [apply Hcase|apply IH|]. give; apply IH.
Qed.

(** A token of content: a tag or other markup after [<], a reference after [&], data. *)
Lemma content_cases p k next :
  at_ p -> p <> e -> content_from enc m e p = Ok (Tok k, Some next) -> 0 < tok_value k ->
  (BYTE_TYPE enc m p = Ok BT_LT /\ ((exists l, start_tag (p + MIN) next k l) \/ Tok k ∈ MARKUP)) \/
  (BYTE_TYPE enc m p = Ok BT_AMP /\ scanRef enc m e (p + MIN) = Ok (Tok k, Some next)) \/ Tok k ∈ DATA.
Proof using Type*.
  intros Hp Hne H Hpos. unfold content_from in H. destruct (BYTE_TYPE enc m p) as [t|] eqn:Hty; [|done]. cbn [rbind] in H.
  assert (Hgen : gives DATA (content_from enc m e p) -> Tok k ∈ DATA).
  { intros Hg. apply (Hg (Tok k, Some next)). unfold content_from. rewrite Hty. exact H. }
  destruct (decide (t = BT_LT)) as [->|H1]; [left; split; [done|]; apply scanLt_cases; [by apply next_at|done|done]|].
  destruct (decide (t = BT_AMP)) as [->|H2]; [by right; left|].
  right; right. apply Hgen. unfold content_from. rewrite Hty. cbn [rbind].
  clear H Hpos Hgen. destruct t; try done; give; first [apply content_chars_gives|give_call scan_cr_gives].
Qed.

Lemma scanRef_char_ref p next : at_ p -> scanRef enc m e p = Ok (Tok XML_TOK_CHAR_REF, Some next) -> p <> e /\ char_ref enc m e p next.
Proof using Type*.
  intros Hp H. unfold scanRef in H. read H p. split; [done|]. unfold switch in H.
  destruct (CHECK_NMSTRT_CASES enc m e t p) as [[q|s|]|] eqn:E; cbn [rbind] in H; [| | |done].
  - destruct (name_step enc m e Hb He p t q Hp Hne Hty (or_intror E)) as [Hq _].
    destruct (scanRef_name_text enc m e Hb He _ _ _ _ _ Hq H eq_refl) as (q' & cs & _ & _ & _ & _ & _ & _ & Hk). discriminate Hk.
  - destruct (name_cases_return enc m e t p _ (or_intror E)) as [Hs|Hs]; simplify_eq; discriminate Hs.
  - destruct t; try (simplify_eq; discriminate H). by eapply (scanCharRef_text enc m e Hb He).
Qed.
End accepted.

(** ** The token cut off after its end *)

(** The length of every text in the context. *)
Ltac measure :=
  repeat match goal with
  | H : text _ _ ?p ?q ?cs |- _ =>
      lazymatch goal with _ : p + zlen cs <= q |- _ => fail | _ => pose proof (text_le _ _ _ _ _ H); pose proof (zlen_nonneg cs) end
  end; rewrite ?zlen_cons, ?zlen_nil in *.

Lemma tag_atts_le enc `{!EncodingLaws enc} m p next l : tag_atts enc m p next l -> p + MINBPC enc <= next.
Proof. pose proof (min_pos enc). induction 1; measure; lia. Qed.

Lemma tag_atts_length enc `{!EncodingLaws enc} m p next l : tag_atts enc m p next l -> p + zlen l < next.
Proof. pose proof (min_pos enc). induction 1; measure; lia. Qed.

Section token.
Context (enc : ENCODING) `{!EncodingLaws enc} `{!AsciiLaws enc} (m : list Z) (next : Z) (Hb : bytes m) (Hnext : next <= zlen m).
Abbreviation MIN := (MINBPC enc).
Abbreviation cut := (take (Z.to_nat next) m).

Lemma type_cut p : 0 <= p -> p + MIN <= next -> BYTE_TYPE enc cut p = BYTE_TYPE enc m p.
Proof using EncodingLaws0 Hb Hnext. intros. apply (cut_op enc m next Hb Hnext); [apply law_type|done..]. Qed.

Lemma tag_atts_cut p l : tag_atts enc m p next l -> 0 <= p -> tag_atts enc cut p next l.
Proof using Type*.
  pose proof (min_pos enc) as Hmin. remember next as n eqn:En in |- *.
  induction 1 as [p q sp t n Hsp Hspaces Hq Ht Hle
    |p q sp t c r nm s sp1 e1 v sp2 w cs o c' n l Hsp Hspaces Hne Hfirst Hstart Hnm Hnames Hsp1 Hspaces1 Heq Hsp2 Hspaces2 Hv Ho Hcs Hno Hw Htag IH];
    intros Hp; subst n; measure.
  - eapply tag_end; [apply (text_cut enc m next Hb Hnext); [eassumption|lia..]|done|rewrite type_cut by lia; eassumption|done|done].
  - pose proof (tag_atts_le _ _ _ _ _ Htag).
    eapply tag_att; [apply (text_cut enc m next Hb Hnext); [eassumption|lia..]|done|done|apply (text_cut enc m next Hb Hnext); [eassumption|lia..]|done
      |apply (text_cut enc m next Hb Hnext); [eassumption|lia..]|done|apply (text_cut enc m next Hb Hnext); [eassumption|lia..]|done|rewrite type_cut by lia; eassumption
      |apply (text_cut enc m next Hb Hnext); [eassumption|lia..]|done|rewrite type_cut by lia; eassumption|done
      |apply (text_cut enc m next Hb Hnext); [eassumption|lia..]|done|apply (text_cut enc m next Hb Hnext); [eassumption|lia..]|apply IH; [done|lia]].
Qed.
End token.

(** ** The attributes of a token *)

(** The array after the call: the attributes there is room for, then what was there. *)
Definition stored (attsMax : Z) (l A : list ATTRIBUTE) : list ATTRIBUTE :=
  take (Z.to_nat attsMax) l ++ drop (length (take (Z.to_nat attsMax) l)) A.

Lemma fill_full attsMax l : forall n A, attsMax <= n -> fill attsMax n A l = A.
Proof.
  induction l as [|a l IH]; intros n A Hn; [done|]. cbn [fill]. unfold slot. replace (n <? attsMax) with false by lia. apply IH. lia.
Qed.

Lemma fill_stored attsMax l : forall n A, 0 <= n <= attsMax -> attsMax <= zlen A ->
  fill attsMax n A l = take (Z.to_nat n) A ++ stored (attsMax - n) l (drop (Z.to_nat n) A).
Proof.
  unfold stored. induction l as [|a l IH]; intros n A Hn HA.
  - cbn [fill]. rewrite take_nil. cbn [length app]. by rewrite drop_0, take_drop.
  - destruct (decide (n = attsMax)) as [->|Hne].
    + rewrite fill_full by lia. rewrite Z.sub_diag. change (Z.to_nat 0) with 0%nat. rewrite take_0. cbn [length app]. by rewrite drop_0, take_drop.
    + cbn [fill]. unfold slot. replace (n <? attsMax) with true by lia.
      rewrite IH by (rewrite ?zlen_insert; lia).
      replace (Z.to_nat (attsMax - n)) with (S (Z.to_nat (attsMax - (n + 1)))) by lia. cbn [take length app].
      replace (Z.to_nat (n + 1)) with (S (Z.to_nat n)) by lia.
      rewrite (take_S_r _ _ a) by (apply list_lookup_insert_eq; unfold zlen in *; lia).
      rewrite take_insert_ge, drop_insert_lt by lia. rewrite <- app_assoc. cbn [app]. by rewrite !drop_drop, Nat.add_succ_r.
Qed.

Section encoding.
Context (enc : ENCODING) `{!EncodingLaws enc} `{!AsciiLaws enc} (m : list Z) (Hb : bytes m).
Abbreviation MIN := (MINBPC enc).
Abbreviation cut next := (take (Z.to_nat next) m).

(** The second pass, over the bytes of the token alone. *)
Lemma getAtts_start_tag ptr next k l attsMax A :
  start_tag enc m (ptr + MIN) next k l -> 0 <= ptr -> next <= zlen m -> next < 2 ^ 31 -> 0 <= attsMax <= zlen A ->
  getAtts enc (cut next) attsMax ptr A = Ok (zlen l, stored attsMax l A).
Proof using Type*.
  intros (nm & s & Hnm & Hn & Htag & _) Hp Hle Hint HA. pose proof (min_pos enc).
  pose proof (tag_atts_le _ _ _ _ _ Htag). pose proof (tag_atts_length _ _ _ _ _ Htag). measure.
  apply (tag_atts_cut enc m next Hb Hle) in Htag; [|lia]. apply (text_cut enc m next Hb Hle) in Hnm; [|lia..].
  destruct (run_tag enc (cut next) attsMax ltac:(lia) _ _ _ Htag inName 0 BT_NONXML A) as (q & s' & Hsteps & Hq & Hend & Hcount & Hatts); [done|lia..|].
  pose proof (run_names enc (cut next) attsMax _ _ _ (mkAtts inName 0 BT_NONXML A) Hnm Hn eq_refl) as Hname.
  destruct (steps_trans _ _ _ _ _ _ _ _ _ Hname Hsteps) as (j & Hj & Hloop). unfold getAtts.
  assert (Hf : (fuel_of (cut next) ptr = j + S (fuel_of (cut next) ptr - S j))%nat).
  { unfold fuel_of, fuel_at. rewrite zlen_take by lia. lia. }
  rewrite Hf, Hloop, Hend. cbn [rbind]. rewrite Hcount, Hatts, fill_stored by lia. by rewrite Z.sub_0_r.
Qed.

(** The value of a reference, from the bytes of the token alone. *)
Lemma charRefNumber_char_ref ptr next e :
  char_ref enc m e (ptr + MIN) next -> 0 <= ptr -> next <= zlen m ->
  exists hex q cs, text enc m (if hex : bool then ptr + MIN + MIN + MIN else ptr + MIN + MIN) q cs /\ digits hex cs /\ cs <> [] /\
    BYTE_TYPE enc m q = Ok BT_SEMI /\ next = q + MIN /\
    charRefNumber enc (cut next) ptr = char_of_number (ref_number hex cs 0).
Proof using Type*.
  intros (q & cs & hex & Hnum & Hhex & Htxt & Hd & Hne & Hsemi & _ & _ & ->) Hp Hle. exists hex, q, cs.
  split_and!; [done..|]. pose proof (min_pos enc). pose proof (text_le _ _ _ _ _ Htxt) as Hlen. pose proof (zlen_nonneg cs).
  assert (Hx : CHAR_MATCHES enc 120 (cut (q + MIN)) (ptr + MIN + MIN) = Ok hex).
  { rewrite <- Hhex. apply (cut_op enc m (q + MIN) Hb Hle); [apply law_matches|destruct hex; lia..]. }
  apply (text_cut enc m (q + MIN) Hb Hle) in Htxt; [|destruct hex; lia..].
  assert (Hq : CHAR_MATCHES enc 59 (cut (q + MIN)) q = Ok true).
  { apply semicolon; [done|done|rewrite (type_cut enc m (q + MIN) Hb Hle); [done|destruct hex; lia..]|].
    destruct (law_ascii m (cut (q + MIN)) q (cut_bytes m (q + MIN) Hb Hle q MIN ltac:(destruct hex; lia) ltac:(lia))) as (a & _ & Ha). by exists a. }
  assert (Hf : (length cs < fuel_of (cut (q + MIN)) (ptr + MIN + MIN))%nat).
  { unfold fuel_of, fuel_at. rewrite zlen_take by (destruct hex; lia). unfold zlen in Hlen. destruct hex; lia. }
  unfold charRefNumber. cbv zeta. replace (ptr + 2 * MIN) with (ptr + MIN + MIN) by lia. rewrite Hx. cbn [rbind].
  destruct hex; [eapply charRef_hex_spec|eapply charRef_decimal_spec]; (done || lia || eassumption).
Qed.

(** A token of content, from the start of the buffer. *)
Lemma content_token ptr k next :
  0 <= ptr <= zlen m -> XmlTok enc XML_CONTENT_STATE m ptr (zlen m) = Ok (Tok k, Some next) -> 0 < tok_value k ->
  next <= zlen m /\
  ((exists l, start_tag enc m (ptr + MIN) next k l) \/ Tok k ∈ MARKUP \/ Tok k ∈ DATA \/
   (exists e, e <= zlen m /\ inside enc e 0 (ptr + MIN) /\ scanRef enc m e (ptr + MIN) = Ok (Tok k, Some next))).
Proof using Type*.
  intros Hp H Hpos. split.
  { destruct (tok_safe enc XML_CONTENT_STATE m ptr Hb Hp) as (t & n & E & Hsafe & _). rewrite H in E. injection E as <- <-.
    destruct (Hsafe Hpos) as (p & [= <-] & Hle & _). lia. }
  destruct (aligned_end_spec enc ptr (zlen m) ltac:(lia)) as (He & _ & Ha). cbn [XmlTok] in H. unfold contentTok, tokenizer in H.
  destruct (ptr =? zlen m); [simplify_eq; cbn in Hpos; lia|]. destruct (Z.eqb_spec (aligned_end enc ptr (zlen m)) ptr) as [|Hne]; [simplify_eq; cbn in Hpos; lia|].
  set (e := aligned_end enc ptr (zlen m)) in *. assert (Hin : inside enc e 0 ptr) by (unfold inside; lia).
  destruct (content_cases enc m e Hb ltac:(lia) ptr k next Hin (not_eq_sym Hne) H Hpos) as [[_ [Htag|Hm]]|[[_ Href]|Hdata]]; [by left|by right; left| |by do 2 right; left].
  do 3 right. exists e. split; [lia|]. split; [|done]. by apply (next_at enc m e Hb ltac:(lia)); [|apply not_eq_sym].
Qed.
End encoding.

(** ** The theorems *)

(** A reference to a character: its digits after [&#] or [&#x], then the semicolon. *)
Definition reference_to (enc : ENCODING) (m : list Z) (ptr next : Z) (hex : bool) (cs : list (BT * Z)) : Prop :=
  exists q, text enc m (ptr + (if hex then 3 else 2) * MINBPC enc) q cs /\ digits hex cs /\ cs <> [] /\
    BYTE_TYPE enc m q = Ok BT_SEMI /\ next = q + MINBPC enc.

Definition start_tag_token (k : XML_TOK) : bool :=
  match k with
  | XML_TOK_START_TAG_WITH_ATTS | XML_TOK_START_TAG_NO_ATTS | XML_TOK_EMPTY_ELEMENT_WITH_ATTS | XML_TOK_EMPTY_ELEMENT_NO_ATTS => true
  | _ => false
  end.

Lemma not_among (f : XML_TOK -> bool) L k : forallb (fun t => match t with Tok k => negb (f k) | Neg _ => true end) L = true -> f k = true -> Tok k ∉ L.
Proof.
  intros HL Hk Hin. apply list_elem_of_In in Hin. apply (proj1 (forallb_forall _ _) HL) in Hin. cbn in Hin. by rewrite Hk in Hin.
Qed.

Lemma start_tag_positive k : start_tag_token k = true -> 0 < tok_value k.
Proof. by destruct k. Qed.

(** C24: The attributes of an element. When the tokenizer has accepted a start tag
    or an empty-element tag in any of the encodings, the second pass over it,
    [getAtts], which checks no end of buffer and no syntax, reads the bytes of the
    token and no others, and returns the number of its attributes; the array holds
    as many of them as it has room for, each with its name, the two ends of its
    value, and the flag set just when the value has no reference in it and is its
    own normalization. The token tells whether there are any. *)
Theorem getAtts_tag enc m ptr k next attsMax A :
  enc ∈ encodings -> bytes m -> zlen m < 2 ^ 31 -> 0 <= ptr <= zlen m ->
  XmlTok enc XML_CONTENT_STATE m ptr (zlen m) = Ok (Tok k, Some next) -> start_tag_token k = true -> 0 <= attsMax <= zlen A ->
  exists l, start_tag enc m (ptr + MINBPC enc) next k l /\
    getAtts enc (take (Z.to_nat next) m) attsMax ptr A = Ok (zlen l, stored attsMax l A).
Proof.
  intros He Hb Hint Hp H Hk HA. pose proof (proj1 (Forall_forall _ _) encodings_laws _ He). pose proof (proj1 (Forall_forall _ _) encodings_ascii _ He).
  destruct (content_token enc m Hb ptr k next Hp H (start_tag_positive k Hk)) as [Hle [(l & Htag)|[Hm|[Hd|(e & _ & _ & Href)]]]].
  - exists l. split; [done|]. by apply (getAtts_start_tag enc m Hb ptr next k); [|lia..].
  - by apply (not_among start_tag_token) in Hm.
  - by apply (not_among start_tag_token) in Hd.
  - pose proof (scanRef_gives enc m e _ _ Href) as Hg. by apply (not_among start_tag_token) in Hg.
Qed.

(** C25: Character references. When the tokenizer has accepted a character
    reference in any of the encodings, [charRefNumber], which checks no end of
    buffer, reads the bytes of the token and no others; its result is the number
    the digits between [&#] or [&#x] and the semicolon write, in decimal or
    hexadecimal, when that number is a character by the production [Char] of XML 1.0, and [-1]
    otherwise (NUL and other controls, surrogates, U+FFFE, U+FFFF, beyond U+10FFFF): no
    number of digits makes the computation overflow. *)
Theorem charRefNumber_token enc m ptr next :
  enc ∈ encodings -> bytes m -> 0 <= ptr <= zlen m ->
  XmlTok enc XML_CONTENT_STATE m ptr (zlen m) = Ok (Tok XML_TOK_CHAR_REF, Some next) ->
  exists hex cs, reference_to enc m ptr next hex cs /\
    charRefNumber enc (take (Z.to_nat next) m) ptr = char_of_number (ref_number hex cs 0).
Proof.
  intros He Hb Hp H. pose proof (proj1 (Forall_forall _ _) encodings_laws _ He). pose proof (proj1 (Forall_forall _ _) encodings_ascii _ He).
  destruct (content_token enc m Hb ptr _ next Hp H eq_refl) as [Hle [(l & nm & s & _ & _ & _ & Htag)|[Hm|[Hd|(e & Hle' & Hin & Href)]]]].
  - destruct l; by destruct Htag.
  - exfalso. by apply (not_among (fun k => bool_decide (k = XML_TOK_CHAR_REF))) in Hm.
  - exfalso. by apply (not_among (fun k => bool_decide (k = XML_TOK_CHAR_REF))) in Hd.
  - destruct (scanRef_char_ref enc m e Hb Hle' _ _ Hin Href) as [_ Hchar].
    destruct (charRefNumber_char_ref enc m Hb ptr next e Hchar ltac:(lia) Hle) as (hex & q & cs & Ht & Hd & Hne & Hsemi & Hend & Hnum).
    exists hex, cs. split; [|done]. exists q. split; [|done].
    replace (ptr + _ * _) with (if hex then ptr + MINBPC enc + MINBPC enc + MINBPC enc else ptr + MINBPC enc + MINBPC enc) by (destruct hex; lia). exact Ht.
Qed.

(** A start tag in UTF-16 with two attributes, and room for one. *)
Definition tag_sample : list Z := flat_map (fun c => [c; 0]) (str "<p:a b='1 2' c = '&lt;'>text").

Lemma getAtts_tag_witness : exists l,
  start_tag little2_encoding_ns tag_sample 2 48 XML_TOK_START_TAG_WITH_ATTS l /\
  getAtts little2_encoding_ns (take 48 tag_sample) 1 0 [mkAttribute 0 0 0 false] = Ok (zlen l, stored 1 l [mkAttribute 0 0 0 false]).
Proof.
  apply (getAtts_tag little2_encoding_ns tag_sample 0 XML_TOK_START_TAG_WITH_ATTS 48 1 [mkAttribute 0 0 0 false]).
  - apply list_elem_of_lookup_2 with 9%nat. reflexivity.
  - conc.
  - conc.
  - conc.
  - vm_compute. reflexivity.
  - reflexivity.
  - conc.
Defined.

Example getAtts_sample :
  getAtts little2_encoding_ns (take 48 tag_sample) 1 0 [mkAttribute 0 0 0 false] = Ok (2, [mkAttribute 10 16 22 true]).
Proof. vm_compute. reflexivity. Qed.

Lemma charRefNumber_token_witness : exists hex cs, reference_to utf8_encoding (str "&#x1F600;!") 0 9 hex cs /\
  charRefNumber utf8_encoding (take 9 (str "&#x1F600;!")) 0 = char_of_number (ref_number hex cs 0).
Proof.
  apply (charRefNumber_token utf8_encoding (str "&#x1F600;!") 0 9).
  - apply list_elem_of_lookup_2 with 0%nat. reflexivity.
  - conc.
  - conc.
  - vm_compute. reflexivity.
Defined.
