(* ===== verification/AprAllocator.v ===== *)
(** * Node allocator: [src/apr/memory/unix/apr_pools.c], first part

    The memory of the pools comes in nodes: blocks of whole pages with a header,
    kept in lists of free nodes by size, and taken from [malloc] when no list has
    one. A node is known by its address; the headers are a finite map from
    addresses, from which [free] removes, so a use of a node that has been given
    back is an error of the model. [malloc] is a parameter. The mutex is a field
    like the others: the operations are those of one thread at a time. *)

From S2P Require Import Prelude.

(** ** Data *)

Abbreviation NULL := 0.
Abbreviation BOUNDARY_INDEX := 12.
Definition BOUNDARY_SIZE : Z := Z.shiftl 1 BOUNDARY_INDEX.
Definition MIN_ALLOC : Z := 2 * BOUNDARY_SIZE.
Definition MAX_INDEX : Z := 20.
Abbreviation APR_ALLOCATOR_MAX_FREE_UNLIMITED := 0.
Abbreviation APR_UINT32_MAX := (2 ^ 32 - 1).

(** [wrap] is the type the macro is used at. *)
Definition APR_ALIGN (wrap : Z -> Z) (size boundary : Z) : Z := Z.land (wrap (size + (boundary - 1))) (Z.lnot (boundary - 1)).
Definition APR_ALIGN_DEFAULT (size : Z) : Z := APR_ALIGN u64 size 8.

(** [apr_memnode_t]; [ref] is the address of the node whose [next] it points to.
    [malloc] leaves [ref] and [free_index] as they are. *)
Record memnode := mkNode {
  next : Z; ref : option Z; index : Z; free_index : option Z; first_avail : Z; endp : Z }.

(** [sizeof(apr_memnode_t)] and [sizeof(apr_allocator_t)] with 64-bit pointers. *)
Definition APR_MEMNODE_T_SIZE : Z := APR_ALIGN_DEFAULT 40.
Definition SIZEOF_ALLOCATOR_T : Z := APR_ALIGN_DEFAULT 192.

(** [apr_allocator_t]. *)
Record allocator_t := mkAllocator {
  max_index : Z; max_free_index : Z; current_free_index : Z; mutex : Z; owner : Z; free : list Z }.

(** The heap: the nodes and the allocators that have been allocated and not freed. *)
Record arena := mkArena { nodes : gmap Z memnode; allocators : gmap Z allocator_t }.

Definition with_next (v : Z) (d : memnode) : memnode := mkNode v (ref d) (index d) (free_index d) (first_avail d) (endp d).
Definition with_ref (v : Z) (d : memnode) : memnode := mkNode (next d) (Some v) (index d) (free_index d) (first_avail d) (endp d).
Definition with_free_index (v : Z) (d : memnode) : memnode := mkNode (next d) (ref d) (index d) (Some v) (first_avail d) (endp d).
Definition with_first_avail (v : Z) (d : memnode) : memnode := mkNode (next d) (ref d) (index d) (free_index d) v (endp d).

Definition with_max_index (v : Z) (a : allocator_t) : allocator_t :=
  mkAllocator v (max_free_index a) (current_free_index a) (mutex a) (owner a) (free a).
Definition with_current (v : Z) (a : allocator_t) : allocator_t :=
  mkAllocator (max_index a) (max_free_index a) v (mutex a) (owner a) (free a).
Definition with_free (v : list Z) (a : allocator_t) : allocator_t :=
  mkAllocator (max_index a) (max_free_index a) (current_free_index a) (mutex a) (owner a) v.

(** ** Access *)

Definition get_node (s : arena) (n : Z) : res memnode := of_option OutOfBounds (nodes s !! n).
Definition upd_node (s : arena) (n : Z) (f : memnode -> memnode) : res arena :=
  do d <- get_node s n; Ok (mkArena (<[n := f d]> (nodes s)) (allocators s)).
Definition free_node (s : arena) (n : Z) : res arena :=
  do _ <- get_node s n; Ok (mkArena (delete n (nodes s)) (allocators s)).

Definition get_allocator (s : arena) (al : Z) : res allocator_t := of_option OutOfBounds (allocators s !! al).
Definition upd_allocator (s : arena) (al : Z) (f : allocator_t -> allocator_t) : res arena :=
  do a <- get_allocator s al; Ok (mkArena (nodes s) (<[al := f a]> (allocators s))).

(** What an [apr_memnode_t **] points to: [&allocator->free[i]] or [&n->next]. *)
Inductive link := Slot (i : Z) | NextOf (n : Z).

Definition slot (a : allocator_t) (i : Z) : res Z :=
  check 0 <=? i else OutOfBounds; of_option OutOfBounds (free a !! Z.to_nat i).

Definition read_link (s : arena) (al : Z) (l : link) : res Z :=
  match l with
  | Slot i => do a <- get_allocator s al; slot a i
  | NextOf n => do d <- get_node s n; Ok (next d)
  end.

Definition write_link (s : arena) (al : Z) (l : link) (v : Z) : res arena :=
  match l with
  | Slot i =>
      do a <- get_allocator s al; do f <- store (free a) i v;
      Ok (mkArena (nodes s) (<[al := with_free f a]> (allocators s)))
  | NextOf n => upd_node s n (with_next v)
  end.

(** One more than the number of nodes bounds the walks over the lists. *)
Definition fuel_nodes (s : arena) : nat := S (size (nodes s)).

(** The blocks that have been allocated, by address, with their sizes. *)
Definition live (s : arena) : gmap Z Z :=
  map_imap (fun n d => Some (endp d - n)) (nodes s) ∪ ((fun _ => SIZEOF_ALLOCATOR_T) <$> allocators s).

(** [malloc]: from the blocks in use and a size, an address or [NULL]. *)
Class Malloc := malloc : gmap Z Z -> Z -> Z.

Section operations.
Context `{Malloc}.

(** ** apr_allocator_create and the fields *)

(** The result is [*allocator], [NULL] with [APR_ENOMEM]. *)
Definition apr_allocator_create (s : arena) : res (Z * arena) :=
  let al := malloc (live s) SIZEOF_ALLOCATOR_T in
  if al =? NULL then Ok (NULL, s) else
  let a := mkAllocator 0 APR_ALLOCATOR_MAX_FREE_UNLIMITED 0 NULL NULL (replicate (Z.to_nat MAX_INDEX) NULL) in
  Ok (al, mkArena (nodes s) (<[al := a]> (allocators s))).

Definition apr_allocator_mutex_set (s : arena) (al m : Z) : res arena :=
  upd_allocator s al (fun a => mkAllocator (max_index a) (max_free_index a) (current_free_index a) m (owner a) (free a)).
Definition apr_allocator_mutex_get (s : arena) (al : Z) : res Z := do a <- get_allocator s al; Ok (mutex a).
Definition apr_allocator_owner_set (s : arena) (al pool : Z) : res arena :=
  upd_allocator s al (fun a => mkAllocator (max_index a) (max_free_index a) (current_free_index a) (mutex a) pool (free a)).
Definition apr_allocator_owner_get (s : arena) (al : Z) : res Z := do a <- get_allocator s al; Ok (owner a).

Definition apr_allocator_max_free_set (s : arena) (al in_size : Z) : res arena :=
  upd_allocator s al (fun a =>
    let size := u32 in_size in
    let max_free := Z.shiftr (APR_ALIGN u32 size BOUNDARY_SIZE) BOUNDARY_INDEX in
    let current := u32 (current_free_index a + max_free) in
    let current := u32 (current - max_free_index a) in
    let current := if current >? max_free then max_free else current in
    mkAllocator (max_index a) max_free current (mutex a) (owner a) (free a)).

(** ** apr_allocator_destroy *)

Fixpoint destroy_list (fuel : nat) (s : arena) (al i : Z) : res arena :=
  match fuel with
  | O => Err OutOfFuel
  | S fuel =>
      do node <- read_link s al (Slot i);
      if node =? NULL then Ok s else
      do d <- get_node s node;
      do s <- write_link s al (Slot i) (next d);
      do s <- free_node s node;
      destroy_list fuel s al i
  end.

Fixpoint destroy_lists (count : nat) (s : arena) (al i : Z) : res arena :=
  match count with
  | O => Ok s
  | S count => do s <- destroy_list (fuel_nodes s) s al i; destroy_lists count s al (i + 1)
  end.

Definition apr_allocator_destroy (s : arena) (al : Z) : res arena :=
  do s <- destroy_lists (Z.to_nat MAX_INDEX) s al 0;
  do _ <- get_allocator s al; Ok (mkArena (nodes s) (delete al (allocators s))).

(** ** allocator_alloc *)

(** [while ( *ref == NULL && i < max_index)]. *)
Fixpoint find_slot (fuel : nat) (a : allocator_t) (max_index i : Z) : res Z :=
  match fuel with
  | O => Err OutOfFuel
  | S fuel =>
      do p <- slot a i;
      if (p =? NULL) && (i <? max_index) then find_slot fuel a max_index (i + 1) else Ok i
  end.

(** [do { ref--; max_index--; } while ( *ref == NULL && max_index > 0)]. *)
Fixpoint lower_max (fuel : nat) (a : allocator_t) (r max_index : Z) : res Z :=
  match fuel with
  | O => Err OutOfFuel
  | S fuel =>
      let r := r - 1 in let max_index := u32 (max_index - 1) in
      do p <- slot a r;
      if (p =? NULL) && (max_index >? 0) then lower_max fuel a r max_index else Ok max_index
  end.

(** [while ((node = *ref) != NULL && index > node->index)]: the link and the node. *)
Fixpoint find_large (fuel : nat) (s : arena) (al idx : Z) (r : link) : res (link * Z) :=
  match fuel with
  | O => Err OutOfFuel
  | S fuel =>
      do node <- read_link s al r;
      if node =? NULL then Ok (r, NULL) else
      do d <- get_node s node;
      if idx >? index d then find_large fuel s al idx (NextOf node) else Ok (r, node)
  end.

(** A node from a free list is handed out. *)
Definition take_node (s : arena) (al node : Z) : res (Z * arena) :=
  do d <- get_node s node;
  do s <- upd_allocator s al (fun a =>
    let current := u32 (current_free_index a + u32 (index d + 1)) in
    with_current (if current >? max_free_index a then max_free_index a else current) a);
  do s <- upd_node s node (fun d => with_first_avail (node + APR_MEMNODE_T_SIZE) (with_next NULL d));
  Ok (node, s).

(** A node from [malloc]. *)
Definition new_node (s : arena) (size idx : Z) : res (Z * arena) :=
  let node := malloc (live s) size in
  if node =? NULL then Ok (NULL, s) else
  Ok (node, mkArena (<[node := mkNode NULL None (u32 idx) None (node + APR_MEMNODE_T_SIZE) (node + size)]> (nodes s)) (allocators s)).

(** The node, [NULL] when there is none. *)
Definition allocator_alloc (s : arena) (al in_size : Z) : res (Z * arena) :=
  let size := APR_ALIGN u64 (u64 (in_size + APR_MEMNODE_T_SIZE)) BOUNDARY_SIZE in
  if size <? in_size then Ok (NULL, s) else
  let size := if size <? MIN_ALLOC then MIN_ALLOC else size in
  let idx := u64 (Z.shiftr size BOUNDARY_INDEX - 1) in
  if idx >? APR_UINT32_MAX then Ok (NULL, s) else
  do a <- get_allocator s al;
  if idx <=? max_index a then
    do i <- find_slot (Z.to_nat MAX_INDEX) a (max_index a) idx;
    do node <- slot a i;
    if negb (node =? NULL) then
      do d <- get_node s node;
      do s <- write_link s al (Slot i) (next d);
      do s <- (if (next d =? NULL) && (i >=? max_index a) then
                 do a' <- get_allocator s al;
                 do max_index <- lower_max (Z.to_nat MAX_INDEX) a' i (max_index a);
                 upd_allocator s al (with_max_index max_index)
               else Ok s);
      take_node s al node
    else new_node s size idx
  else
    do sink <- slot a 0;
    if negb (sink =? NULL) then
      do (r, node) <- find_large (fuel_nodes s) s al idx (Slot 0);
      if negb (node =? NULL) then
        do d <- get_node s node;
        do s <- write_link s al r (next d);
        take_node s al node
      else new_node s size idx
    else new_node s size idx.

(** ** allocator_free *)

(** The body of the loop for one node; the locals are [max_index],
    [current_free_index] and [freelist]. *)
Definition free_one (s : arena) (al max_free node : Z) (d : memnode) (max_index current freelist : Z) : res (arena * Z * Z * Z) :=
  let idx := index d in
  let lowered := if current >=? u32 (idx + 1) then current - u32 (idx + 1) else 0 in
  if negb (max_free =? APR_ALLOCATOR_MAX_FREE_UNLIMITED) && (u32 (idx + 1) >? current) then
    do s <- upd_node s node (with_next freelist);
    Ok (s, max_index, current, node)
  else if idx <? MAX_INDEX then
    do head <- read_link s al (Slot idx);
    do s <- upd_node s node (with_next head);
    do s <- write_link s al (Slot idx) node;
    Ok (s, if (head =? NULL) && (idx >? max_index) then idx else max_index, lowered, freelist)
  else
    do head <- read_link s al (Slot 0);
    do s <- upd_node s node (with_next head);
    do s <- write_link s al (Slot 0) node;
    Ok (s, max_index, lowered, freelist).

Fixpoint free_loop (fuel : nat) (s : arena) (al max_free node max_index current freelist : Z) : res (arena * Z * Z * Z) :=
  match fuel with
  | O => Err OutOfFuel
  | S fuel =>
      do d <- get_node s node;
      do (s, max_index, current, freelist) <- free_one s al max_free node d max_index current freelist;
      if next d =? NULL then Ok (s, max_index, current, freelist)
      else free_loop fuel s al max_free (next d) max_index current freelist
  end.

(** [while (freelist != NULL)]. *)
Fixpoint free_list (fuel : nat) (s : arena) (freelist : Z) : res arena :=
  match fuel with
  | O => Err OutOfFuel
  | S fuel =>
      if freelist =? NULL then Ok s else
      do d <- get_node s freelist;
      do s <- free_node s freelist;
      free_list fuel s (next d)
  end.

Definition allocator_free (s : arena) (al node : Z) : res arena :=
  do a <- get_allocator s al;
  do (s, max_index, current, freelist) <-
    free_loop (fuel_nodes s) s al (max_free_index a) node (max_index a) (current_free_index a) NULL;
  do s <- upd_allocator s al (fun a => with_current current (with_max_index max_index a));
  free_list (fuel_nodes s) s freelist.

Definition apr_allocator_alloc := allocator_alloc.
Definition apr_allocator_free := allocator_free.
End operations.

(** ** Lists of nodes *)

(** [p] heads the list [L], linked by [next] and ended by [NULL]. *)
Fixpoint chain (h : gmap Z memnode) (p : Z) (L : list Z) : Prop :=
  match L with
  | [] => p = NULL
  | n :: L => p = n /\ n <> NULL /\ exists d, h !! n = Some d /\ chain h (next d) L
  end.

Lemma chain_frame h h' p L : (forall n, n ∈ L -> h' !! n = h !! n) -> chain h p L -> chain h' p L.
Proof.
  revert p. induction L as [|n L IH]; intros p Hf; cbn [chain]; [done|]. intros (-> & Hn & d & Hd & Hc).
  split; [done|]. split; [done|]. exists d. split; [by rewrite Hf by apply list_elem_of_here|].
  apply IH; [|done]. intros m Hm. by apply Hf, list_elem_of_further.
Qed.

Lemma chain_insert h p L n d : n ∉ L -> chain h p L -> chain (<[n := d]> h) p L.
Proof. intros Hn. apply chain_frame. intros m Hm. apply lookup_insert_ne. by intros ->. Qed.

Lemma chain_delete h p L n : n ∉ L -> chain h p L -> chain (delete n h) p L.
Proof. intros Hn. apply chain_frame. intros m Hm. apply lookup_delete_ne. by intros ->. Qed.

Lemma chain_null h L : chain h NULL L -> L = [].
Proof. destruct L; [done|]. by intros (<- & [] & _). Qed.

Lemma chain_nonempty h p L : chain h p L -> p <> NULL -> exists L' d, L = p :: L' /\ h !! p = Some d /\ chain h (next d) L'.
Proof. destruct L as [|n L]; cbn [chain]; [done|]. intros (-> & _ & d & Hd & Hc) _. by exists L, d. Qed.

Lemma chain_lookup h p L n : chain h p L -> n ∈ L -> is_Some (h !! n) /\ n <> NULL.
Proof.
  revert p. induction L as [|m L IH]; intros p; cbn [chain]; [by intros _ ?%not_elem_of_nil|].
  intros (-> & Hm & d & Hd & Hc) [-> |Hn]%elem_of_cons; [split; [by exists d|done]|by eapply IH].
Qed.

(** A list without repetitions is no longer than the heap. *)
Lemma chain_length h p L : chain h p L -> NoDup L -> (length L <= size h)%nat.
Proof.
  intros Hc Hnd. rewrite <- (size_dom (D := gset Z)). rewrite <- (size_list_to_set (C := gset Z)) by done. apply subseteq_size.
  intros n Hn%elem_of_list_to_set. apply elem_of_dom. by destruct (chain_lookup _ _ _ _ Hc Hn).
Qed.

(** ** Well-formed allocators *)

Definition wf_node (n : Z) (d : memnode) : Prop :=
  0 < n /\ n mod 8 = 0 /\ 1 <= index d <= APR_UINT32_MAX /\ endp d = n + (index d + 1) * BOUNDARY_SIZE /\ endp d < 2 ^ 64 /\
  n + APR_MEMNODE_T_SIZE <= first_avail d <= endp d /\ first_avail d mod 8 = 0.

(** The list a node is kept in: oversized nodes are in list 0. *)
Definition bucket (idx : Z) : nat := if idx <? MAX_INDEX then Z.to_nat idx else 0.

(** [F] holds the addresses in the lists of [a]. *)
Record wf_allocator (h : gmap Z memnode) (a : allocator_t) (F : list (list Z)) : Prop := {
  wf_lists : Forall2 (chain h) (free a) F;
  wf_length : length F = Z.to_nat MAX_INDEX;
  wf_sorted i L n : F !! i = Some L -> n ∈ L -> exists d, h !! n = Some d /\ bucket (index d) = i;
  wf_nodup : Forall (@NoDup Z) F;
  wf_max : 0 <= max_index a < MAX_INDEX;
  wf_above i L : max_index a < Z.of_nat i -> F !! i = Some L -> L = [];
  wf_top L : max_index a <> 0 -> F !! Z.to_nat (max_index a) = Some L -> L <> [];
  wf_free : 0 <= current_free_index a <= max_free_index a;
  wf_max_free : max_free_index a <= APR_UINT32_MAX
}.

(** Blocks do not overlap. *)
Definition disjoint_blocks (B : gmap Z Z) : Prop :=
  forall a b sa sb, a <> b -> B !! a = Some sa -> B !! b = Some sb -> a + sa <= b \/ b + sb <= a.

(** Who has a node: an allocator in its lists, or the one it was handed to. *)
Abbreviation owners := (gmap Z (option Z)).

Record wf_arena (s : arena) (own : owners) : Prop := {
  wf_nodes n d : nodes s !! n = Some d -> wf_node n d;
  wf_owned n : is_Some (own !! n) <-> is_Some (nodes s !! n);
  wf_apart n d : nodes s !! n = Some d -> allocators s !! n = None;
  wf_blocks : disjoint_blocks (live s);
  wf_not_null al a : allocators s !! al = Some a -> al <> NULL;
  wf_allocators al a : allocators s !! al = Some a ->
    exists F, wf_allocator (nodes s) a F /\ forall n, own !! n = Some (Some al) <-> n ∈ concat F;
  wf_owner n al : own !! n = Some (Some al) -> is_Some (allocators s !! al)
}.

(** What a call on [al] leaves alone: the nodes handed out, other than those in [L],
    the other allocators, and the settings of this one. *)
Record untouched (al : Z) (L : list Z) (s s' : arena) (own own' : owners) : Prop := {
  un_handed n : n ∉ L -> own' !! n = Some None <-> own !! n = Some None;
  un_nodes n : n ∉ L -> own !! n = Some None -> nodes s' !! n = nodes s !! n;
  un_allocators al' : al' <> al -> allocators s' !! al' = allocators s !! al';
  un_settings a : allocators s !! al = Some a ->
    exists a', allocators s' !! al = Some a' /\ max_free_index a' = max_free_index a /\ mutex a' = mutex a /\ owner a' = owner a
}.

(** ** Sizes *)

Lemma align_spec wrap size k : 0 <= k -> APR_ALIGN wrap size (2 ^ k) = 2 ^ k * (wrap (size + (2 ^ k - 1)) / 2 ^ k).
Proof.
  intros Hk. unfold APR_ALIGN. rewrite <- Z.ldiff_land. replace (2 ^ k - 1) with (Z.ones k) by (rewrite Z.ones_equiv; lia).
  rewrite Z.ldiff_ones_r, Z.shiftl_mul_pow2, Z.shiftr_div_pow2 by lia. ring.
Qed.

Lemma page_size : BOUNDARY_SIZE = 4096. Proof. reflexivity. Qed.
Lemma header_size : APR_MEMNODE_T_SIZE = 40. Proof. reflexivity. Qed.

(** Only a huge request makes the computation of the size wrap around, and the test
    sees it; otherwise the size is the request with the header, in whole pages. *)
Lemma alloc_size in_size : 0 <= in_size < 2 ^ 64 ->
  let size := APR_ALIGN u64 (u64 (in_size + APR_MEMNODE_T_SIZE)) BOUNDARY_SIZE in
  size < in_size /\ 2 ^ 44 < in_size + APR_MEMNODE_T_SIZE \/
  exists k, size = k * BOUNDARY_SIZE /\ in_size + APR_MEMNODE_T_SIZE <= size < 2 ^ 64 /\ size < in_size + APR_MEMNODE_T_SIZE + BOUNDARY_SIZE.
Proof.
  intros Hi. cbv zeta. change BOUNDARY_SIZE with (2 ^ 12). rewrite header_size, align_spec by lia. unfold u64.
  destruct (Z_lt_ge_dec (in_size + 40) (2 ^ 64)) as [H1|H1]; [rewrite (Z.mod_small (in_size + 40)) by lia|left].
  - destruct (Z_lt_ge_dec (in_size + 40 + (2 ^ 12 - 1)) (2 ^ 64)) as [H2|H2]; [rewrite Z.mod_small by lia; right|left].
    + exists ((in_size + 40 + (2 ^ 12 - 1)) / 2 ^ 12). Z.div_mod_to_equations. lia.
    + replace (in_size + 40 + (2 ^ 12 - 1)) with (in_size + 40 + (2 ^ 12 - 1) - 2 ^ 64 + 1 * 2 ^ 64) by lia.
      rewrite Z.mod_add, Z.mod_small by lia. Z.div_mod_to_equations. lia.
  - replace (in_size + 40) with (in_size + 40 - 2 ^ 64 + 1 * 2 ^ 64) at 1 by lia. rewrite Z.mod_add, (Z.mod_small (in_size + 40 - 2 ^ 64)) by lia.
    rewrite Z.mod_small by lia. Z.div_mod_to_equations. lia.
Qed.

(** ** Slots *)

Section lists.
Context (h : gmap Z memnode) (a : allocator_t) (F : list (list Z)) (Hwf : wf_allocator h a F).

Lemma slot_list i : 0 <= i < MAX_INDEX -> exists p L, slot a i = Ok p /\ F !! Z.to_nat i = Some L /\ chain h p L.
Proof using Hwf.
  intros Hi. destruct (lookup_lt_is_Some_2 F (Z.to_nat i)) as [L HL]; [rewrite (wf_length _ _ _ Hwf); lia|].
  destruct (Forall2_lookup_r _ _ _ _ _ (wf_lists _ _ _ Hwf) HL) as (p & Hp & Hc). exists p, L. split; [|done].
  unfold slot. replace (0 <=? i) with true by lia. by rewrite Hp.
Qed.

(** The loop upwards ends at a list that is not empty. *)
Lemma find_slot_spec fuel : forall i,
  1 <= i <= max_index a -> max_index a - i < Z.of_nat fuel ->
  exists j p L, find_slot fuel a (max_index a) i = Ok j /\ i <= j <= max_index a /\
    slot a j = Ok p /\ p <> NULL /\ F !! Z.to_nat j = Some (p :: L).
Proof using Hwf.
  pose proof (wf_max _ _ _ Hwf) as Hmax. induction fuel as [|fuel IH]; intros i Hi Hf; [lia|]. cbn [find_slot].
  destruct (slot_list i ltac:(lia)) as (p & L & Hs & HL & Hc). rewrite Hs. cbn [rbind].
  destruct (Z.eqb_spec p NULL) as [->|Hp]; cbn [andb].
  - apply chain_null in Hc as ->. destruct (Z.ltb_spec i (max_index a)) as [Hlt|Hge].
    + destruct (IH (i + 1) ltac:(lia) ltac:(lia)) as (j & q & L & ? & ? & ?). exists j, q, L. split; [done|]. split; [lia|done].
    + replace i with (max_index a) in HL by lia. by destruct (wf_top _ _ _ Hwf [] ltac:(lia) HL).
  - destruct (chain_nonempty _ _ _ Hc Hp) as (L' & d & -> & _). exists i, p, L'. split; [done|]. split; [lia|done].
Qed.

(** The loop downwards ends at the highest list below that is not empty, or at 0. *)
Lemma lower_max_spec fr F' fuel : forall r,
  Forall2 (chain h) fr F' -> length F' = Z.to_nat MAX_INDEX -> 0 < r < MAX_INDEX -> r <= Z.of_nat fuel ->
  exists m, lower_max fuel (with_free fr a) r r = Ok m /\ 0 <= m < r /\
    (forall i L, m < Z.of_nat i < r -> F' !! i = Some L -> L = []) /\ (forall L, m <> 0 -> F' !! Z.to_nat m = Some L -> L <> []).
Proof.
  intros r HF Hlen. revert r. induction fuel as [|fuel IH]; intros r Hr Hf; [lia|]. cbn [lower_max]. cbv zeta. unfold u32. rewrite Z.mod_small by (unfold MAX_INDEX in *; lia).
  destruct (lookup_lt_is_Some_2 F' (Z.to_nat (r - 1))) as [L HL]; [lia|].
  destruct (Forall2_lookup_r _ _ _ _ _ HF HL) as (p & Hp & Hc).
  unfold slot at 1. replace (0 <=? r - 1) with true by lia. cbn [with_free free]. rewrite Hp. cbn [of_option rbind].
  destruct (Z.eqb_spec p NULL) as [->|Hne]; cbn [andb].
  - apply chain_null in Hc as ->. destruct (Z.gtb_spec (r - 1) 0) as [Hgt|Hle].
    + destruct (IH (r - 1) ltac:(lia) ltac:(lia)) as (m & Hm & Hmr & Habove & Htop). exists m. split; [done|]. split; [lia|]. split; [|done].
      intros i L Hi HL'. destruct (decide (Z.of_nat i = r - 1)) as [E|Hi']; [|by apply (Habove i); [lia|]].
      replace (Z.to_nat (r - 1)) with i in HL by lia. congruence.
    + exists (r - 1). split; [done|]. split; [lia|]. split; [intros; lia|intros; lia].
  - exists (r - 1). split; [done|]. split; [lia|]. split; [intros; lia|]. intros L' _ HL'. rewrite HL in HL'. injection HL' as <-.
    destruct (chain_nonempty _ _ _ Hc Hne) as (? & ? & -> & _). done.
Qed.
End lists.

(** ** Changes that keep the blocks *)

Definition same_shape (h h' : gmap Z memnode) : Prop :=
  forall n, (fun d => (index d, endp d)) <$> h' !! n = (fun d => (index d, endp d)) <$> h !! n.

Lemma same_shape_refl h : same_shape h h.
Proof. by intros n. Qed.

Lemma same_shape_trans h1 h2 h3 : same_shape h1 h2 -> same_shape h2 h3 -> same_shape h1 h3.
Proof. intros H1 H2 n. by rewrite H2. Qed.

Lemma same_shape_insert h n d d' : h !! n = Some d -> index d' = index d -> endp d' = endp d -> same_shape h (<[n := d']> h).
Proof.
  intros Hd Hi He m. destruct (decide (m = n)) as [->|Hm]; [|by rewrite lookup_insert_ne].
  rewrite lookup_insert_eq, Hd. cbn. by rewrite Hi, He.
Qed.

Lemma same_shape_lookup h h' n d : same_shape h h' -> h !! n = Some d -> exists d', h' !! n = Some d' /\ index d' = index d /\ endp d' = endp d.
Proof.
  intros Hs Hd. specialize (Hs n). rewrite Hd in Hs. destruct (h' !! n) as [d'|]; [|done]. cbn in Hs. injection Hs as Hi He. by exists d'.
Qed.

Lemma same_shape_sym h h' : same_shape h h' -> same_shape h' h.
Proof. intros H n. by rewrite H. Qed.

Lemma same_shape_dom h h' n : same_shape h h' -> is_Some (h' !! n) <-> is_Some (h !! n).
Proof. intros Hs. rewrite <- (fmap_is_Some (fun d => (index d, endp d)) (h' !! n)), Hs. by rewrite fmap_is_Some. Qed.

Lemma live_lookup s b : live s !! b =
  match nodes s !! b with Some d => Some (endp d - b) | None => (fun _ => SIZEOF_ALLOCATOR_T) <$> allocators s !! b end.
Proof.
  unfold live. rewrite lookup_union, map_lookup_imap, lookup_fmap. destruct (nodes s !! b); cbn; [by destruct (allocators s !! b)|]. by destruct (allocators s !! b).
Qed.

Lemma live_same s s' : same_shape (nodes s) (nodes s') -> (forall al, is_Some (allocators s' !! al) <-> is_Some (allocators s !! al)) -> live s' = live s.
Proof.
  intros Hs Ha. apply map_eq. intros b. rewrite !live_lookup. specialize (Hs b). specialize (Ha b).
  destruct (nodes s !! b) as [d|], (nodes s' !! b) as [d'|]; cbn in Hs; try done; [injection Hs as _ ->; done|].
  destruct (allocators s !! b), (allocators s' !! b); try done; exfalso; destruct Ha as [H1 H2]; (by destruct H1) || (by destruct H2).
Qed.

Lemma elem_of_lists (F : list (list Z)) n : n ∈ concat F <-> exists i L, F !! i = Some L /\ n ∈ L.
Proof.
  rewrite list_elem_of_In, in_concat. split.
  - intros (L & HL & Hn). apply list_elem_of_In, list_elem_of_lookup in HL as [i HL]. exists i, L. by rewrite list_elem_of_In.
  - intros (i & L & HL & Hn). exists L. split; apply list_elem_of_In; [by eapply list_elem_of_lookup_2|done].
Qed.

Lemma lists_frame h h' fr F : (forall n, n ∈ concat F -> h' !! n = h !! n) -> Forall2 (chain h) fr F -> Forall2 (chain h') fr F.
Proof.
  intros Hf HF. induction HF as [|p L fr F Hc HF IH]; constructor.
  - eapply chain_frame; [|exact Hc]. intros n Hn. apply Hf. cbn [concat]. apply elem_of_app. by left.
  - apply IH. intros n Hn. apply Hf. cbn [concat]. apply elem_of_app. by right.
Qed.

Lemma wf_allocator_frame h h' a F : (forall n, n ∈ concat F -> h' !! n = h !! n) -> wf_allocator h a F -> wf_allocator h' a F.
Proof.
  intros Hf []. constructor; try done; [by eapply lists_frame|].
  intros i L n HL Hin. rewrite Hf; [by eapply wf_sorted0|]. apply elem_of_lists. by exists i, L.
Qed.

(** The state after a change of one allocator and of nodes it has or had. *)
Lemma wf_rebuild s own s' own' al a a' F' :
  wf_arena s own -> allocators s !! al = Some a -> allocators s' = <[al := a']> (allocators s) ->
  same_shape (nodes s) (nodes s') -> (forall n d, nodes s' !! n = Some d -> wf_node n d) ->
  (forall n, is_Some (own' !! n) <-> is_Some (own !! n)) ->
  (forall n al', al' <> al -> own' !! n = Some (Some al') <-> own !! n = Some (Some al')) ->
  (forall n al', al' <> al -> own !! n = Some (Some al') -> nodes s' !! n = nodes s !! n) ->
  wf_allocator (nodes s') a' F' -> (forall n, own' !! n = Some (Some al) <-> n ∈ concat F') ->
  wf_arena s' own'.
Proof.
  intros Hwf Ha Hal Hs Hn Hdom Hother Hframe Hwa Hown. constructor.
  - done.
  - intros n. rewrite Hdom, (same_shape_dom _ _ n Hs). apply (wf_owned _ _ Hwf).
  - intros n d Hd. rewrite Hal. destruct (same_shape_lookup _ _ _ _ (same_shape_sym _ _ Hs) Hd) as (d' & Hd' & _).
    pose proof (wf_apart _ _ Hwf _ _ Hd') as Hno. rewrite lookup_insert_ne; [done|]. intros ->. congruence.
  - rewrite (live_same s s' Hs); [apply (wf_blocks _ _ Hwf)|]. intros b. rewrite Hal. destruct (decide (b = al)) as [->|Hb].
    + rewrite lookup_insert_eq, Ha. by split; eexists.
    + by rewrite lookup_insert_ne.
  - intros b c Hb. rewrite Hal in Hb. destruct (decide (b = al)) as [->|Hne]; [by apply (wf_not_null _ _ Hwf _ a)|].
    rewrite lookup_insert_ne in Hb by done. by apply (wf_not_null _ _ Hwf _ c).
  - intros b c Hb. rewrite Hal in Hb. destruct (decide (b = al)) as [->|Hne].
    + rewrite lookup_insert_eq in Hb. injection Hb as <-. by exists F'.
    + rewrite lookup_insert_ne in Hb by done. destruct (wf_allocators _ _ Hwf _ _ Hb) as (F & HF & HownF).
      exists F. split; [|intros n; by rewrite Hother].
      eapply wf_allocator_frame; [|exact HF]. intros n Hin. by apply (Hframe n b Hne), HownF.
  - intros n b Hb. rewrite Hal. destruct (decide (b = al)) as [->|Hne]; [rewrite lookup_insert_eq; by eexists|].
    rewrite lookup_insert_ne by done. apply (wf_owner _ _ Hwf n). by apply Hother.
Qed.

(** ** A node leaves a list *)

Lemma wf_lookup h a F i L n : wf_allocator h a F -> F !! i = Some L -> n ∈ L -> forall j K, F !! j = Some K -> n ∈ K -> j = i.
Proof.
  intros Hwf HL Hn j K HK Hk. destruct (wf_sorted _ _ _ Hwf _ _ _ HL Hn) as (d & Hd & <-).
  by destruct (wf_sorted _ _ _ Hwf _ _ _ HK Hk) as (d' & Hd' & <-); simplify_eq.
Qed.

Section remove.
Context (h : gmap Z memnode) (a : allocator_t) (F : list (list Z)) (j : nat) (L1 : list Z) (n : Z) (L2 : list Z).
Context (Hwf : wf_allocator h a F) (HL : F !! j = Some (L1 ++ n :: L2)).

Lemma removed_nodup : NoDup (L1 ++ n :: L2).
Proof using Hwf HL. by apply (proj1 (Forall_lookup _ _) (wf_nodup _ _ _ Hwf) j). Qed.

Lemma removed_lists m : m ∈ concat (<[j := L1 ++ L2]> F) <-> m ∈ concat F /\ m <> n.
Proof using Hwf HL.
  pose proof removed_nodup as Hnd. apply NoDup_app in Hnd as (_ & Hnd1 & [Hnd2 _]%NoDup_cons). pose proof (lookup_lt_Some _ _ _ HL) as Hj.
  rewrite !elem_of_lists. split.
  - intros (i & L & Hi & Hm). destruct (decide (i = j)) as [->|Hij].
    + rewrite list_lookup_insert_eq in Hi by done. injection Hi as <-. split.
      * exists j, (L1 ++ n :: L2). split; [done|]. rewrite elem_of_app, elem_of_cons. apply elem_of_app in Hm. tauto.
      * intros ->. apply elem_of_app in Hm as [Hm|Hm]; [|done]. apply (Hnd1 n Hm), list_elem_of_here.
    + rewrite list_lookup_insert_ne in Hi by done. split; [by exists i, L|]. intros ->. apply Hij.
      eapply (wf_lookup _ _ _ _ _ n Hwf HL); [|done..]. apply elem_of_app. right. apply list_elem_of_here.
  - intros [(i & L & Hi & Hm) Hne]. destruct (decide (i = j)) as [->|Hij]; [|exists i, L; by rewrite list_lookup_insert_ne].
    exists j, (L1 ++ L2). rewrite list_lookup_insert_eq by done. split; [done|]. rewrite HL in Hi. injection Hi as <-.
    apply elem_of_app in Hm. rewrite elem_of_cons in Hm. rewrite elem_of_app. tauto.
Qed.

Lemma wf_remove h' a' :
  same_shape h h' -> Forall2 (chain h') (free a') (<[j := L1 ++ L2]> F) -> 0 <= max_index a' < MAX_INDEX ->
  (forall i L, max_index a' < Z.of_nat i -> <[j := L1 ++ L2]> F !! i = Some L -> L = []) ->
  (forall L, max_index a' <> 0 -> <[j := L1 ++ L2]> F !! Z.to_nat (max_index a') = Some L -> L <> []) ->
  0 <= current_free_index a' <= max_free_index a' -> max_free_index a' <= APR_UINT32_MAX ->
  wf_allocator h' a' (<[j := L1 ++ L2]> F).
Proof using Hwf HL.
  intros Hs Hl Hm Ha Ht Hf Hmf. constructor; try done.
  - rewrite length_insert. apply (wf_length _ _ _ Hwf).
  - intros i L m Hi Hin. assert (exists K, F !! i = Some K /\ m ∈ K) as (K & HK & HmK).
    { destruct (decide (i = j)) as [->|Hij]; [|rewrite list_lookup_insert_ne in Hi by done; by exists L].
      rewrite list_lookup_insert_eq in Hi by (by eapply lookup_lt_Some). injection Hi as <-. exists (L1 ++ n :: L2). split; [done|].
      rewrite elem_of_app, elem_of_cons. apply elem_of_app in Hin. tauto. }
    destruct (wf_sorted _ _ _ Hwf _ _ _ HK HmK) as (d & Hd & Hb). destruct (same_shape_lookup _ _ _ _ Hs Hd) as (d' & Hd' & Hi' & _).
    exists d'. split; [done|]. by rewrite Hi'.
  - apply Forall_insert; [apply (wf_nodup _ _ _ Hwf)|]. pose proof removed_nodup as Hnd. apply NoDup_app in Hnd as (H1 & H12 & [_ H2]%NoDup_cons).
    apply NoDup_app. split; [done|]. split; [|done]. intros m Hin1 Hin2. by apply (H12 m Hin1), list_elem_of_further.
Qed.
End remove.

(** ** A node is handed out *)

(** [n] has been handed out for a request of at least [idx + 1] pages. *)
Record handed (s : arena) (own : owners) (al idx n : Z) (s' : arena) : Prop := {
  handed_wf : wf_arena s' (<[n := None]> own);
  handed_fresh : own !! n <> Some None;
  handed_not_null : n <> NULL;
  handed_node : exists d, nodes s' !! n = Some d /\ next d = NULL /\ first_avail d = n + APR_MEMNODE_T_SIZE /\ idx <= index d;
  handed_untouched : untouched al [n] s s' own (<[n := None]> own)
}.

Lemma clamp_free a i : 0 <= current_free_index a <= max_free_index a ->
  let c := u32 (current_free_index a + i) in 0 <= (if c >? max_free_index a then max_free_index a else c) <= max_free_index a.
Proof. intros H. cbv zeta. unfold u32. pose proof (Z.mod_pos_bound (current_free_index a + i) (2 ^ 32) ltac:(lia)). destruct (Z.gtb_spec ((current_free_index a + i) mod 2 ^ 32) (max_free_index a)); lia. Qed.

Lemma wf_node_reset n d : wf_node n d -> wf_node n (with_first_avail (n + APR_MEMNODE_T_SIZE) (with_next NULL d)).
Proof.
  intros (H1 & H2 & H3 & H4 & H5 & H6 & H7). unfold wf_node. cbn [with_first_avail with_next index endp first_avail]. rewrite header_size in *.
  split_and!; try lia. rewrite <- Zplus_mod_idemp_l, H2. done.
Qed.

Lemma wf_node_next n d v : wf_node n d -> wf_node n (with_next v d).
Proof. done. Qed.

Section hand_out.
Context (s : arena) (own : owners) (al : Z) (a : allocator_t) (F : list (list Z)) (j : nat) (L1 : list Z) (n : Z) (L2 : list Z) (d : memnode).
Context (Hwf : wf_arena s own) (Ha : allocators s !! al = Some a) (HF : wf_allocator (nodes s) a F).
Context (Hown : forall m, own !! m = Some (Some al) <-> m ∈ concat F) (HL : F !! j = Some (L1 ++ n :: L2)) (Hd : nodes s !! n = Some d).

Lemma listed_node m : m ∈ L1 ++ n :: L2 -> own !! m = Some (Some al).
Proof using Hown HL. intros Hm. apply Hown, elem_of_lists. by exists j, (L1 ++ n :: L2). Qed.

(** [hm], [fr] and [mi]: the nodes, the heads and the index after the unlinking. *)
Lemma take_node_spec hm fr mi idx :
  same_shape (nodes s) hm -> hm !! n = Some d -> (forall m, m ∉ L1 -> hm !! m = nodes s !! m) ->
  (forall m dm, hm !! m = Some dm -> wf_node m dm) ->
  Forall2 (chain hm) fr (<[j := L1 ++ L2]> F) -> 0 <= mi < MAX_INDEX ->
  (forall i L, mi < Z.of_nat i -> <[j := L1 ++ L2]> F !! i = Some L -> L = []) ->
  (forall L, mi <> 0 -> <[j := L1 ++ L2]> F !! Z.to_nat mi = Some L -> L <> []) -> idx <= index d ->
  exists s', take_node (mkArena hm (<[al := with_max_index mi (with_free fr a)]> (allocators s))) al n = Ok (n, s') /\ handed s own al idx n s'.
Proof using Type*.
  intros Hs Hn Hsame Hnodes Hc Hmi Habove Htop Hidx. unfold take_node, get_node. cbn [nodes]. rewrite Hn. cbn [of_option rbind].
  unfold upd_allocator, get_allocator. cbn [allocators nodes]. rewrite lookup_insert_eq. cbn [of_option rbind]. rewrite insert_insert_eq.
  unfold upd_node, get_node. cbn [nodes allocators]. rewrite Hn. cbn [of_option rbind].
  set (d' := with_first_avail (n + APR_MEMNODE_T_SIZE) (with_next NULL d)). set (a' := with_current _ _).
  exists (mkArena (<[n := d']> hm) (<[al := a']> (allocators s))). split; [done|].
  assert (Hin : n ∈ L1 ++ n :: L2) by (apply elem_of_app; right; apply list_elem_of_here). pose proof (listed_node n Hin) as Hon.
  assert (Hnot : n ∉ concat (<[j := L1 ++ L2]> F)) by (rewrite (removed_lists _ _ _ _ _ _ _ HF HL); tauto).
  assert (Hs' : same_shape (nodes s) (<[n := d']> hm)) by (eapply same_shape_trans; [exact Hs|]; by eapply same_shape_insert).
  assert (Hwa : wf_allocator (<[n := d']> hm) a' (<[j := L1 ++ L2]> F)).
  { apply (wf_remove (nodes s) a F j L1 n L2 HF HL); [done| |done|done|done|exact (clamp_free _ _ (wf_free _ _ _ HF))|exact (wf_max_free _ _ _ HF)].
    eapply lists_frame; [|exact Hc]. intros m Hm. apply lookup_insert_ne. by intros ->. }
  constructor.
  - apply (wf_rebuild s own (mkArena (<[n := d']> hm) (<[al := a']> (allocators s))) _ al a a' (<[j := L1 ++ L2]> F) Hwf Ha eq_refl Hs'); [| | | |done|]; cbn [nodes].
    + intros m dm. destruct (decide (m = n)) as [->|Hm]; [rewrite lookup_insert_eq|rewrite lookup_insert_ne by done; apply Hnodes].
      intros [= <-]. by apply wf_node_reset, Hnodes.
    + intros m. destruct (decide (m = n)) as [->|Hm]; [|by rewrite lookup_insert_ne]. rewrite lookup_insert_eq, Hon. by split; eexists.
    + intros m al' Hne. destruct (decide (m = n)) as [->|Hm]; [|by rewrite lookup_insert_ne]. rewrite lookup_insert_eq, Hon. by split; intros; simplify_eq.
    + intros m al' Hne Hm. rewrite lookup_insert_ne by (intros ->; congruence). apply Hsame. intros Hm'. rewrite (listed_node m) in Hm; [congruence|].
      apply elem_of_app. by left.
    + intros m. rewrite (removed_lists _ _ _ _ _ _ _ HF HL), <- Hown. destruct (decide (m = n)) as [->|Hm].
      * rewrite lookup_insert_eq. split; [done|]. by intros [_ []].
      * rewrite lookup_insert_ne by done. tauto.
  - by rewrite Hon.
  - destruct (Hnodes n d Hn) as (? & _). lia.
  - exists d'. cbn [nodes]. by rewrite lookup_insert_eq.
  - constructor; cbn [nodes allocators].
    + intros m Hm. rewrite lookup_insert_ne; [done|]. intros ->. apply Hm, list_elem_of_here.
    + intros m Hm Hom. rewrite lookup_insert_ne by (intros ->; apply Hm, list_elem_of_here). apply Hsame. intros Hm'. rewrite (listed_node m) in Hom; [done|].
      apply elem_of_app. by left.
    + intros al' Hne. by apply lookup_insert_ne.
    + intros c Hc'. rewrite Ha in Hc'. injection Hc' as <-. exists a'. by rewrite lookup_insert_eq.
Qed.
End hand_out.

(** [malloc] gives [NULL] or a block of its own, suitably aligned. *)
Class MallocLaws `{Malloc} : Prop := malloc_fresh B size :
  0 < size < 2 ^ 64 -> malloc B size <> NULL ->
  0 < malloc B size /\ malloc B size mod 16 = 0 /\ malloc B size + size < 2 ^ 64 /\
  forall b sb, B !! b = Some sb -> b + sb <= malloc B size \/ malloc B size + size <= b.

Section alloc.
Context `{MallocLaws}.

Lemma live_positive s own b sb : wf_arena s own -> live s !! b = Some sb -> 0 < sb.
Proof.
  intros Hwf. rewrite live_lookup. destruct (nodes s !! b) as [d|] eqn:Hd.
  - intros [= <-]. apply (wf_nodes _ _ Hwf) in Hd as (_ & _ & Hi & -> & _). rewrite page_size. lia.
  - destruct (allocators s !! b); [|done]. intros [= <-]. vm_compute. done.
Qed.

(** Where [malloc] puts a block there is none. *)
Lemma malloc_not_live s own size : wf_arena s own -> 0 < size < 2 ^ 64 -> malloc (live s) size <> NULL ->
  nodes s !! malloc (live s) size = None /\ allocators s !! malloc (live s) size = None /\ own !! malloc (live s) size = None.
Proof.
  intros Hwf Hsz Hn. destruct (malloc_fresh _ _ Hsz Hn) as (_ & _ & _ & Hfresh). set (n := malloc (live s) size) in *.
  assert (Hl : live s !! n = None).
  { destruct (live s !! n) as [sb|] eqn:E; [|done]. pose proof (live_positive _ _ _ _ Hwf E). destruct (Hfresh _ _ E); lia. }
  rewrite live_lookup in Hl. destruct (nodes s !! n) eqn:Hno; [done|]. split; [done|]. split; [by destruct (allocators s !! n)|].
  apply eq_None_not_Some. rewrite (wf_owned _ _ Hwf), Hno. by intros [].
Qed.

Lemma disjoint_insert B n sz : disjoint_blocks B -> (forall b sb, B !! b = Some sb -> b + sb <= n \/ n + sz <= b) -> disjoint_blocks (<[n := sz]> B).
Proof.
  intros HB Hf a b sa sb Hab Ha Hb. destruct (decide (a = n)) as [->|Han].
  - rewrite lookup_insert_eq in Ha. injection Ha as <-. rewrite lookup_insert_ne in Hb by done. apply Hf in Hb. lia.
  - rewrite lookup_insert_ne in Ha by done. destruct (decide (b = n)) as [->|Hbn].
    + rewrite lookup_insert_eq in Hb. injection Hb as <-. apply Hf in Ha. lia.
    + rewrite lookup_insert_ne in Hb by done. by apply (HB a b).
Qed.

Lemma new_node_spec s own al idx :
  wf_arena s own -> 1 <= idx <= APR_UINT32_MAX -> exists n s', new_node s ((idx + 1) * BOUNDARY_SIZE) idx = Ok (n, s') /\
    (n = NULL /\ s' = s /\ malloc (live s) ((idx + 1) * BOUNDARY_SIZE) = NULL \/ handed s own al idx n s').
Proof.
  intros Hwf Hidx. unfold new_node. set (size := (idx + 1) * BOUNDARY_SIZE). assert (Hsz : 0 < size < 2 ^ 64) by (unfold size; rewrite page_size; lia).
  destruct (Z.eqb_spec (malloc (live s) size) NULL) as [E|Hn]; [exists NULL, s; split; [done|by left]|].
  destruct (malloc_fresh _ _ Hsz Hn) as (Hpos & Hal & Hend & Hfresh). destruct (malloc_not_live _ _ _ Hwf Hsz Hn) as (Hno & Hna & Hoo).
  set (n := malloc (live s) size) in *. set (d := mkNode NULL None (u32 idx) None (n + APR_MEMNODE_T_SIZE) (n + size)).
  assert (Hi : u32 idx = idx) by (unfold u32; apply Z.mod_small; lia).
  exists n, (mkArena (<[n := d]> (nodes s)) (allocators s)). split; [done|]. right.
  assert (Hframe : forall m, own !! m <> None -> <[n := d]> (nodes s) !! m = nodes s !! m) by (intros m Hm; apply lookup_insert_ne; by intros ->).
  constructor; [constructor; cbn [nodes allocators]| | | |constructor; cbn [nodes allocators]].
  - intros m dm. destruct (decide (m = n)) as [->|Hm]; [rewrite lookup_insert_eq|rewrite lookup_insert_ne by done; apply (wf_nodes _ _ Hwf)].
    intros [= <-]. unfold wf_node, d. cbn [index endp first_avail]. rewrite Hi, header_size. fold size. assert (n + 40 <= n + size) by (unfold size; rewrite page_size; lia).
    split_and!; try lia; Z.div_mod_to_equations; lia.
  - intros m. destruct (decide (m = n)) as [->|Hm]; [rewrite !lookup_insert_eq; by split; eexists|rewrite !lookup_insert_ne by done; apply (wf_owned _ _ Hwf)].
  - intros m dm. destruct (decide (m = n)) as [->|Hm]; [done|rewrite lookup_insert_ne by done; apply (wf_apart _ _ Hwf)].
  - replace (live _) with (<[n := size]> (live s)); [by apply disjoint_insert; [apply (wf_blocks _ _ Hwf)|]|].
    apply map_eq. intros b. rewrite live_lookup. cbn [nodes allocators]. destruct (decide (b = n)) as [->|Hb].
    + rewrite !lookup_insert_eq. cbn. f_equal. lia.
    + rewrite !lookup_insert_ne by done. by rewrite live_lookup.
  - apply (wf_not_null _ _ Hwf).
  - intros b c Hb. destruct (wf_allocators _ _ Hwf _ _ Hb) as (F & HF & Hown). exists F. split.
    + eapply wf_allocator_frame; [|exact HF]. intros m Hm%Hown. apply Hframe. congruence.
    + intros m. rewrite <- Hown. destruct (decide (m = n)) as [->|Hm]; [rewrite lookup_insert_eq, Hoo; done|by rewrite lookup_insert_ne].
  - intros m b. destruct (decide (m = n)) as [->|Hm]; [by rewrite lookup_insert_eq|rewrite lookup_insert_ne by done; apply (wf_owner _ _ Hwf)].
  - congruence.
  - done.
  - exists d. cbn [nodes]. rewrite lookup_insert_eq. cbn [d index next first_avail]. rewrite Hi. done.
  - intros m Hm. rewrite lookup_insert_ne; [done|]. intros ->. apply Hm, list_elem_of_here.
  - intros m Hm _. rewrite lookup_insert_ne; [done|]. intros ->. apply Hm, list_elem_of_here.
  - done.
  - intros c Hc. by exists c.
Qed.

(** *** The list of the oversized nodes *)

(** The link to what follows [L1] in list 0. *)
Definition link_after (L1 : list Z) : link := match last L1 with Some m => NextOf m | None => Slot 0 end.

Lemma find_large_spec s al idx fuel : forall L1 p L2,
  read_link s al (link_after L1) = Ok p -> chain (nodes s) p L2 -> (length L2 < fuel)%nat ->
  exists r node, find_large fuel s al idx (link_after L1) = Ok (r, node) /\
    (node = NULL \/ exists M1 M2 d, L2 = M1 ++ node :: M2 /\ r = link_after (L1 ++ M1) /\ node <> NULL /\ nodes s !! node = Some d /\ idx <= index d).
Proof using.
  induction fuel as [|fuel IH]; intros L1 p L2 Hr Hc Hf; [lia|]. cbn [find_large]. rewrite Hr. cbn [rbind].
  destruct (Z.eqb_spec p NULL) as [->|Hp]; [exists (link_after L1), NULL; split; [done|by left]|].
  destruct (chain_nonempty _ _ _ Hc Hp) as (L2' & d & -> & Hd & Hc'). unfold get_node. rewrite Hd. cbn [of_option rbind].
  destruct (Z.gtb_spec idx (index d)) as [Hgt|Hle].
  - assert (Hr' : read_link s al (link_after (L1 ++ [p])) = Ok (next d)).
    { unfold link_after. rewrite last_snoc. cbn [read_link]. unfold get_node. by rewrite Hd. }
    cbn [length] in Hf. destruct (IH (L1 ++ [p]) (next d) L2' Hr' Hc' ltac:(lia)) as (r & node & Hres & Hcase).
    exists r, node. unfold link_after in Hres at 1. rewrite last_snoc in Hres. split; [done|]. destruct Hcase as [->|(M1 & M2 & d' & -> & -> & Hrest)]; [by left|right].
    exists (p :: M1), M2, d'. by rewrite <- app_assoc.
  - exists (link_after L1), p. split; [done|]. right. exists [], L2', d. by rewrite app_nil_r.
Qed.

Lemma chain_unlink h L1 m n L2 d dm : forall p,
  chain h p (L1 ++ m :: n :: L2) -> NoDup (L1 ++ m :: n :: L2) -> h !! m = Some dm -> h !! n = Some d ->
  chain (<[m := with_next (next d) dm]> h) p (L1 ++ m :: L2).
Proof using.
  induction L1 as [|k L1 IH]; intros p Hc Hnd Hm Hn; cbn [app chain] in *.
  - destruct Hc as (-> & Hm0 & dm' & Hdm' & Hnx & Hn0 & d' & Hd' & Hc). rewrite Hn in Hd'. injection Hd' as <-. split; [done|]. split; [done|].
    exists (with_next (next d) dm). rewrite lookup_insert_eq. split; [done|]. cbn [with_next next].
    apply chain_insert; [|done]. apply NoDup_cons in Hnd as [Hnd _]. intros Hin. by apply Hnd, list_elem_of_further.
  - destruct Hc as (-> & Hk & dk & Hdk & Hc). apply NoDup_cons in Hnd as [Hnk Hnd]. split; [done|]. split; [done|].
    assert (Hkm : k <> m). { intros ->. apply Hnk, elem_of_app. right. apply list_elem_of_here. }
    exists dk. rewrite lookup_insert_ne by done. split; [done|]. by apply IH.
Qed.

(** *** allocator_alloc *)

Section call.
Context (s : arena) (own : owners) (al : Z) (a : allocator_t) (F : list (list Z)).
Context (Hwf : wf_arena s own) (Ha : allocators s !! al = Some a) (HF : wf_allocator (nodes s) a F).
Context (Hown : forall m, own !! m = Some (Some al) <-> m ∈ concat F).

Lemma free_length : length (free a) = Z.to_nat MAX_INDEX.
Proof using HF. rewrite (Forall2_length _ _ _ (wf_lists _ _ _ HF)). apply (wf_length _ _ _ HF). Qed.

Lemma write_slot s' a' i v : allocators s' !! al = Some a' -> length (free a') = Z.to_nat MAX_INDEX -> 0 <= i < MAX_INDEX ->
  write_link s' al (Slot i) v = Ok (mkArena (nodes s') (<[al := with_free (<[Z.to_nat i := v]> (free a')) a']> (allocators s'))).
Proof using. intros H' Hl Hi. cbn [write_link]. unfold get_allocator. rewrite H'. cbn [of_option rbind]. rewrite store_ok; [done|]. unfold zlen. lia. Qed.

(** The heads after the first node of a list has been unlinked. *)
Lemma unlink_head j n L d : F !! j = Some (n :: L) -> nodes s !! n = Some d ->
  Forall2 (chain (nodes s)) (<[j := next d]> (free a)) (<[j := L]> F).
Proof using HF.
  intros HL Hd. apply Forall2_insert; [apply (wf_lists _ _ _ HF)|]. destruct (Forall2_lookup_r _ _ _ _ _ (wf_lists _ _ _ HF) HL) as (p & _ & Hc).
  destruct Hc as (_ & _ & d' & Hd' & Hc). by simplify_eq.
Qed.

Lemma next_null j n L d : F !! j = Some (n :: L) -> nodes s !! n = Some d -> next d = NULL <-> L = [].
Proof using HF.
  intros HL Hd. destruct (Forall2_lookup_r _ _ _ _ _ (wf_lists _ _ _ HF) HL) as (p & _ & _ & _ & d' & Hd' & Hc). simplify_eq. split.
  - intros E. rewrite E in Hc. by apply chain_null in Hc.
  - by intros ->.
Qed.

Lemma in_lists_lookup j L n : F !! j = Some L -> n ∈ L -> exists d, nodes s !! n = Some d /\ bucket (index d) = j.
Proof using HF. apply (wf_sorted _ _ _ HF). Qed.

Lemma alloc_from_slot idx :
  1 <= idx <= max_index a -> exists n s',
  (do i <- find_slot (Z.to_nat MAX_INDEX) a (max_index a) idx;
   do node <- slot a i;
   if negb (node =? NULL) then
     do d <- get_node s node;
     do s <- write_link s al (Slot i) (next d);
     do s <- (if (next d =? NULL) && (i >=? max_index a) then
                do a' <- get_allocator s al;
                do max_index <- lower_max (Z.to_nat MAX_INDEX) a' i (max_index a);
                upd_allocator s al (with_max_index max_index)
              else Ok s);
     take_node s al node
   else new_node s ((idx + 1) * BOUNDARY_SIZE) idx) = Ok (n, s') /\ handed s own al idx n s'.
Proof using Hwf Ha HF Hown.
  intros Hidx. pose proof (wf_max _ _ _ HF) as Hmax.
  destruct (find_slot_spec _ _ _ HF (Z.to_nat MAX_INDEX) idx Hidx ltac:(unfold MAX_INDEX in *; lia)) as (j & n & L & -> & Hj & Hslot & Hn & HL).
  cbn [rbind]. rewrite Hslot. cbn [rbind]. replace (n =? NULL) with false by lia. cbn [negb].
  destruct (in_lists_lookup _ _ n HL ltac:(apply list_elem_of_here)) as (d & Hd & Hb). unfold get_node at 1. rewrite Hd. cbn [of_option rbind].
  rewrite (write_slot s a j) by (done || lia || apply free_length). cbn [rbind].
  assert (Hi : idx <= index d). { unfold bucket, MAX_INDEX in Hb. destruct (Z.ltb_spec (index d) 20); lia. }
  pose proof (unlink_head _ _ _ _ HL Hd) as Hlists. set (fr := <[Z.to_nat j := next d]> (free a)) in *.
  assert (Hgo : forall mi, 0 <= mi < MAX_INDEX -> (forall i K, mi < Z.of_nat i -> <[Z.to_nat j := L]> F !! i = Some K -> K = []) ->
    (forall K, mi <> 0 -> <[Z.to_nat j := L]> F !! Z.to_nat mi = Some K -> K <> []) ->
    exists s', take_node (mkArena (nodes s) (<[al := with_max_index mi (with_free fr a)]> (allocators s))) al n = Ok (n, s') /\ handed s own al idx n s').
  { intros mi Hmi Habove Htop. apply (take_node_spec s own al a F (Z.to_nat j) [] n L d Hwf Ha HF Hown HL Hd (nodes s) fr mi idx); try done.
    apply (wf_nodes _ _ Hwf). }
  assert (Hjlt : (Z.to_nat j < length F)%nat) by (by eapply lookup_lt_Some). exists n.
  destruct (Z.eqb_spec (next d) NULL) as [Hnext|Hnext]; cbn [andb]; [destruct (Z.geb_spec j (max_index a)) as [Hge|Hlt]|].
  - replace j with (max_index a) in * by lia. unfold get_allocator at 1. cbn [allocators]. rewrite lookup_insert_eq. cbn [of_option rbind].
    destruct (lower_max_spec (nodes s) a fr _ (Z.to_nat MAX_INDEX) (max_index a) Hlists) as (mi & -> & Hmi & Habove & Htop);
      [rewrite length_insert; apply (wf_length _ _ _ HF)|lia|unfold MAX_INDEX in *; lia|]. cbn [rbind].
    unfold upd_allocator, get_allocator. cbn [allocators nodes]. rewrite lookup_insert_eq. cbn [of_option rbind]. rewrite insert_insert_eq.
    apply Hgo; [lia| |done]. intros i K Hi' HK. destruct (decide (Z.of_nat i < max_index a)); [by apply (Habove i); [lia|]|].
    destruct (decide (i = Z.to_nat (max_index a))) as [->|Hne].
    + rewrite list_lookup_insert_eq in HK by done. injection HK as <-. by apply (next_null _ _ _ _ HL Hd).
    + rewrite list_lookup_insert_ne in HK by done. apply (wf_above _ _ _ HF i); [lia|done].
  - apply (Hgo (max_index a)); [done| |].
    + intros i K Hi' HK. rewrite list_lookup_insert_ne in HK by lia. by apply (wf_above _ _ _ HF i).
    + intros K Hz HK. rewrite list_lookup_insert_ne in HK by lia. by apply (wf_top _ _ _ HF).
  - apply (Hgo (max_index a)); [done| |].
    + intros i K Hi' HK. rewrite list_lookup_insert_ne in HK by lia. by apply (wf_above _ _ _ HF i).
    + intros K Hz HK. destruct (decide (max_index a = j)) as [E|Hne]; [|rewrite list_lookup_insert_ne in HK by lia; by apply (wf_top _ _ _ HF)].
      rewrite E, list_lookup_insert_eq in HK by done. injection HK as <-. by rewrite <- (next_null _ _ _ _ HL Hd).
Qed.

(** The heads stay when a node inside a list is unlinked. *)
Lemma unlink_inner j L1 m n L2 d dm :
  F !! j = Some (L1 ++ m :: n :: L2) -> nodes s !! m = Some dm -> nodes s !! n = Some d ->
  Forall2 (chain (<[m := with_next (next d) dm]> (nodes s))) (free a) (<[j := L1 ++ m :: L2]> F).
Proof using HF.
  intros HL Hm Hn. destruct (Forall2_lookup_r _ _ _ _ _ (wf_lists _ _ _ HF) HL) as (p & Hp & Hc).
  pose proof (proj1 (Forall_lookup _ _) (wf_nodup _ _ _ HF) _ _ HL) as Hnd.
  rewrite <- (list_insert_id (free a) j p Hp). apply Forall2_same_length_lookup_2.
  { rewrite !length_insert. apply (Forall2_length _ _ _ (wf_lists _ _ _ HF)). }
  intros i q K Hq HK. destruct (decide (i = j)) as [->|Hij].
  - rewrite list_lookup_insert_eq in Hq by (by eapply lookup_lt_Some). rewrite list_lookup_insert_eq in HK by (by eapply lookup_lt_Some).
    simplify_eq. by eapply chain_unlink.
  - rewrite list_lookup_insert_ne in Hq by done. rewrite list_lookup_insert_ne in HK by done. apply chain_insert; [|by eapply Forall2_lookup_lr; [apply (wf_lists _ _ _ HF)|..]].
    intros Hin. apply Hij. eapply (wf_lookup _ _ _ _ _ m HF HL); [|done..]. apply elem_of_app. right. apply list_elem_of_here.
Qed.

Lemma alloc_from_sink idx :
  1 <= idx <= APR_UINT32_MAX -> exists n s',
  (do sink <- slot a 0;
   if negb (sink =? NULL) then
     do (r, node) <- find_large (fuel_nodes s) s al idx (Slot 0);
     if negb (node =? NULL) then
       do d <- get_node s node;
       do s <- write_link s al r (next d);
       take_node s al node
     else new_node s ((idx + 1) * BOUNDARY_SIZE) idx
   else new_node s ((idx + 1) * BOUNDARY_SIZE) idx) = Ok (n, s') /\
  (n = NULL /\ s' = s /\ malloc (live s) ((idx + 1) * BOUNDARY_SIZE) = NULL \/ handed s own al idx n s').
Proof using Type*.
  intros Hidx. destruct (slot_list _ _ _ HF 0 ltac:(unfold MAX_INDEX; lia)) as (p & L & Hslot & HL & Hc). rewrite Hslot. cbn [rbind].
  destruct (Z.eqb_spec p NULL) as [->|Hp]; cbn [negb]; [by apply new_node_spec|].
  pose proof (proj1 (Forall_lookup _ _) (wf_nodup _ _ _ HF) _ _ HL) as Hnd. pose proof (wf_max _ _ _ HF) as Hmax.
  assert (Hread : read_link s al (link_after []) = Ok p) by (cbn [link_after last read_link]; unfold get_allocator; by rewrite Ha).
  destruct (find_large_spec s al idx (fuel_nodes s) [] p L Hread Hc) as (r & node & Hfind & Hcase);
    [unfold fuel_nodes; pose proof (chain_length _ _ _ Hc Hnd); lia|].
  change (link_after []) with (Slot 0) in Hfind. rewrite Hfind. cbn [rbind].
  destruct Hcase as [->|(M1 & M2 & d & -> & -> & Hnode & Hd & Hi)]; [by apply new_node_spec|].
  replace (node =? NULL) with false by lia. cbn [negb]. unfold get_node. rewrite Hd. cbn [of_option rbind app].
  change (Z.to_nat 0) with 0%nat in HL.
  assert (Habove : forall i K, max_index a < Z.of_nat i -> <[0%nat := M1 ++ M2]> F !! i = Some K -> K = []).
  { intros i K Hi' HK. rewrite list_lookup_insert_ne in HK by lia. by apply (wf_above _ _ _ HF i). }
  assert (Htop : forall K, max_index a <> 0 -> <[0%nat := M1 ++ M2]> F !! Z.to_nat (max_index a) = Some K -> K <> []).
  { intros K Hz HK. rewrite list_lookup_insert_ne in HK by lia. by apply (wf_top _ _ _ HF). }
  assert (Htake := take_node_spec s own al a F 0 M1 node M2 d Hwf Ha HF Hown HL Hd). exists node.
  enough (exists s', (do s0 <- write_link s al (link_after M1) (next d); take_node s0 al node) = Ok (node, s') /\ handed s own al idx node s') as (s' & ? & ?)
    by (exists s'; split; [done|by right]).
  assert (Hin : forall m, m ∈ M1 ++ node :: M2 -> exists dm, nodes s !! m = Some dm) by (intros m Hm; destruct (in_lists_lookup _ _ m HL Hm) as (dm & Hdm & _); by exists dm).
  destruct M1 as [|m M1 _] using rev_ind.
  - rewrite (write_slot s a 0) by (done || lia || apply free_length). cbn [rbind].
    apply (Htake (nodes s) (<[0%nat := next d]> (free a)) (max_index a)); try done; [apply (wf_nodes _ _ Hwf)|by apply (unlink_head 0 node)].
  - unfold link_after. rewrite last_snoc. cbn [write_link]. unfold upd_node, get_node. rewrite <- app_assoc in *. cbn [app] in *.
    destruct (Hin m) as [dm Hdm]; [apply elem_of_app; right; apply list_elem_of_here|]. rewrite Hdm. cbn [of_option rbind].
    assert (Hmn : m <> node). { intros ->. apply NoDup_app in Hnd as (_ & _ & [Hnd _]%NoDup_cons). apply Hnd, list_elem_of_here. }
    replace (allocators s) with (<[al := with_max_index (max_index a) (with_free (free a) a)]> (allocators s)) by (apply insert_id; by destruct a).
    apply (Htake (<[m := with_next (next d) dm]> (nodes s)) (free a) (max_index a)); try done.
    + by eapply same_shape_insert.
    + by rewrite lookup_insert_ne.
    + intros k Hk. apply lookup_insert_ne. intros ->. apply Hk, elem_of_app. right. apply list_elem_of_here.
    + intros k dk. destruct (decide (k = m)) as [->|Hk]; [rewrite lookup_insert_eq|rewrite lookup_insert_ne by done; apply (wf_nodes _ _ Hwf)].
      intros [= <-]. by apply wf_node_next, (wf_nodes _ _ Hwf).
    + by eapply unlink_inner.
Qed.
End call.

(** The bytes of a new node: the request and the node's header in whole pages, at
    least two. *)
Definition node_bytes (in_size : Z) : Z :=
  Z.max (2 * BOUNDARY_SIZE) ((in_size + APR_MEMNODE_T_SIZE + BOUNDARY_SIZE - 1) / BOUNDARY_SIZE * BOUNDARY_SIZE).

(** Why a request is refused: it is beyond 2^44 bytes, or [malloc], asked in this
    state for the bytes of its node, gives [NULL]. *)
Definition refused (s : arena) (in_size : Z) : Prop :=
  2 ^ 44 < in_size + APR_MEMNODE_T_SIZE \/ malloc (live s) (node_bytes in_size) = NULL.

Lemma allocator_alloc_spec s own al a in_size :
  wf_arena s own -> allocators s !! al = Some a -> 0 <= in_size < 2 ^ 64 ->
  exists n s', allocator_alloc s al in_size = Ok (n, s') /\
    (n = NULL /\ s' = s /\ refused s in_size \/
     exists idx, in_size + APR_MEMNODE_T_SIZE <= (idx + 1) * BOUNDARY_SIZE /\ handed s own al idx n s').
Proof.
  intros Hwf Ha Hin. destruct (wf_allocators _ _ Hwf _ _ Ha) as (F & HF & Hown). unfold allocator_alloc.
  pose proof (alloc_size in_size Hin) as Hsize. cbv zeta in Hsize |- *. set (size0 := APR_ALIGN u64 _ _) in *. clearbody size0.
  destruct Hsize as [[Hlt Hbig]|(k & -> & Hfit & Hclose)].
  { replace (size0 <? in_size) with true by lia. exists NULL, s. split; [done|]. left. split; [done|]. split; [done|by left]. }
  unfold refused. rewrite header_size, page_size in *. replace (k * 4096 <? in_size) with false by lia.
  assert (Hnb : node_bytes in_size = Z.max 8192 (k * 4096)).
  { unfold node_bytes. rewrite header_size, page_size. f_equal. f_equal. symmetry. apply (Z.div_unique_pos _ _ _ (in_size + 40 + 4096 - 1 - 4096 * k)); lia. }
  assert (exists idx, 1 <= idx /\ (if k * 4096 <? MIN_ALLOC then MIN_ALLOC else k * 4096) = (idx + 1) * 4096 /\ in_size + 40 <= (idx + 1) * 4096 /\
    (2 ^ 32 <= idx -> 2 ^ 44 < in_size + 40) /\ idx < 2 ^ 64 /\ node_bytes in_size = (idx + 1) * 4096) as (idx & Hi & -> & Hidx & Hbig & Hub & Hnode).
  { rewrite Hnb. change MIN_ALLOC with 8192. destruct (Z.ltb_spec (k * 4096) 8192); [exists 1|exists (k - 1)]; lia. }
  replace (u64 (Z.shiftr ((idx + 1) * 4096) BOUNDARY_INDEX - 1)) with idx
    by (rewrite Z.shiftr_div_pow2 by lia; change (2 ^ 12) with 4096; rewrite Z.div_mul by lia; unfold u64; rewrite Z.mod_small; lia).
  destruct (Z.gtb_spec idx APR_UINT32_MAX) as [Hgt|Hle]; [exists NULL, s; split; [done|]; left; split; [done|]; split; [done|]; left; lia|].
  unfold get_allocator at 1. rewrite Ha. cbn [of_option rbind]. destruct (Z.leb_spec idx (max_index a)) as [Hm|Hm].
  - destruct (alloc_from_slot s own al a F Hwf Ha HF Hown idx ltac:(lia)) as (n & s' & Hres & Hh). exists n, s'. split; [exact Hres|]. right. by exists idx.
  - destruct (alloc_from_sink s own al a F Hwf Ha HF Hown idx ltac:(lia)) as (n & s' & Hres & Hcase). exists n, s'. split; [exact Hres|].
    destruct Hcase as [(-> & -> & Hnull)|Hh]; [left|right; by exists idx]. split; [done|]. split; [done|]. right. by rewrite Hnode.
Qed.
End alloc.
