(* ===== verification/AprFree.v ===== *)
(** * Giving nodes back: [src/apr/memory/unix/apr_pools.c]

    [allocator_free], [apr_allocator_destroy] and the settings keep the invariant
    of [AprAllocator]; the theorems on sequences of calls. *)

From S2P Require Import Prelude AprAllocator.

(** ** Nodes come back *)

Lemma untouched_refl al s own : untouched al [] s s own own.
Proof. constructor; try done. intros a Ha. by exists a. Qed.

Lemma untouched_trans al L1 L2 s1 s2 s3 own1 own2 own3 :
  untouched al L1 s1 s2 own1 own2 -> untouched al L2 s2 s3 own2 own3 -> untouched al (L1 ++ L2) s1 s3 own1 own3.
Proof.
  intros H1 H2. constructor.
  - intros n Hn. rewrite elem_of_app in Hn. rewrite (un_handed _ _ _ _ _ _ H2), (un_handed _ _ _ _ _ _ H1); tauto.
  - intros n Hn Ho. rewrite elem_of_app in Hn. rewrite (un_nodes _ _ _ _ _ _ H2), (un_nodes _ _ _ _ _ _ H1); [done|tauto..|]. apply (un_handed _ _ _ _ _ _ H1); tauto.
  - intros al' Hne. by rewrite (un_allocators _ _ _ _ _ _ H2), (un_allocators _ _ _ _ _ _ H1).
  - intros a Ha. destruct (un_settings _ _ _ _ _ _ H1 a Ha) as (a2 & Ha2 & E1 & E2 & E3).
    destruct (un_settings _ _ _ _ _ _ H2 a2 Ha2) as (a3 & Ha3 & E4 & E5 & E6). exists a3. split_and!; congruence.
Qed.

Lemma untouched_weaken al L L' s s' own own' : (forall n, n ∈ L -> n ∈ L') -> untouched al L s s' own own' -> untouched al L' s s' own own'.
Proof. intros HL []. constructor; auto. Qed.

(** The header of a node that is handed out changes. *)
Lemma wf_touch s own n d d' :
  wf_arena s own -> own !! n = Some None -> nodes s !! n = Some d -> index d' = index d -> endp d' = endp d -> wf_node n d' ->
  wf_arena (mkArena (<[n := d']> (nodes s)) (allocators s)) own.
Proof.
  intros Hwf Ho Hd Hi He Hn. pose proof (same_shape_insert _ _ _ _ Hd Hi He) as Hs. constructor; cbn [nodes allocators].
  - intros m dm. destruct (decide (m = n)) as [->|Hm]; [rewrite lookup_insert_eq; by intros [= <-]|rewrite lookup_insert_ne by done; apply (wf_nodes _ _ Hwf)].
  - intros m. rewrite (same_shape_dom _ _ m Hs). apply (wf_owned _ _ Hwf).
  - intros m dm Hm. destruct (same_shape_lookup _ _ _ _ (same_shape_sym _ _ Hs) Hm) as (d0 & Hd0 & _). by apply (wf_apart _ _ Hwf _ d0).
  - rewrite (live_same s) by done. apply (wf_blocks _ _ Hwf).
  - apply (wf_not_null _ _ Hwf).
  - intros al a Ha. destruct (wf_allocators _ _ Hwf _ _ Ha) as (F & HF & Hown). exists F. split; [|done].
    eapply wf_allocator_frame; [|exact HF]. intros m Hm%Hown. apply lookup_insert_ne. intros ->. congruence.
  - apply (wf_owner _ _ Hwf).
Qed.

(** A node that was handed out is given back to the system. *)
Lemma wf_delete s own n : wf_arena s own -> own !! n = Some None -> wf_arena (mkArena (delete n (nodes s)) (allocators s)) (delete n own).
Proof.
  intros Hwf Ho. assert (Hd : is_Some (nodes s !! n)) by (apply (wf_owned _ _ Hwf); by eexists). destruct Hd as [d Hd].
  constructor; cbn [nodes allocators].
  - intros m dm [_ Hm]%lookup_delete_Some. by apply (wf_nodes _ _ Hwf).
  - intros m. destruct (decide (m = n)) as [->|Hm]; [by rewrite !lookup_delete_eq|]. rewrite !lookup_delete_ne by done. apply (wf_owned _ _ Hwf).
  - intros m dm [_ Hm]%lookup_delete_Some. by apply (wf_apart _ _ Hwf _ dm).
  - intros a b sa sb Hab. rewrite !live_lookup. cbn [nodes allocators]. intros Ha Hb.
    assert (Hsub : forall c sc, match delete n (nodes s) !! c with Some d0 => Some (endp d0 - c) | None => (fun _ => SIZEOF_ALLOCATOR_T) <$> allocators s !! c end = Some sc ->
      live s !! c = Some sc).
    { intros c sc. rewrite live_lookup. destruct (decide (c = n)) as [->|Hc]; [|by rewrite lookup_delete_ne].
      rewrite lookup_delete_eq, (wf_apart _ _ Hwf _ _ Hd). done. }
    by apply (wf_blocks _ _ Hwf a b); [|apply Hsub..].
  - apply (wf_not_null _ _ Hwf).
  - intros al a Ha. destruct (wf_allocators _ _ Hwf _ _ Ha) as (F & HF & Hown). exists F. split.
    + eapply wf_allocator_frame; [|exact HF]. intros m Hm%Hown. apply lookup_delete_ne. intros ->. congruence.
    + intros m. rewrite <- Hown. destruct (decide (m = n)) as [->|Hm]; [by rewrite lookup_delete_eq, Ho|by rewrite lookup_delete_ne].
  - intros m al [_ Hm]%lookup_delete_Some. by apply (wf_owner _ _ Hwf m).
Qed.

Lemma free_list_spec fuel : forall s own p L,
  wf_arena s own -> chain (nodes s) p L -> NoDup L -> (forall n, n ∈ L -> own !! n = Some None) -> (length L < fuel)%nat ->
  exists s' own', free_list fuel s p = Ok s' /\ wf_arena s' own' /\ allocators s' = allocators s /\
    (forall n, n ∈ L -> own' !! n = None) /\ (forall n, n ∉ L -> own' !! n = own !! n /\ nodes s' !! n = nodes s !! n).
Proof.
  induction fuel as [|fuel IH]; intros s own p L Hwf Hc Hnd Ho Hf; [lia|]. cbn [free_list].
  destruct (Z.eqb_spec p NULL) as [->|Hp].
  { apply chain_null in Hc as ->. exists s, own. split_and!; try done. by intros n ?%not_elem_of_nil. }
  destruct (chain_nonempty _ _ _ Hc Hp) as (L' & d & -> & Hd & Hc'). apply NoDup_cons in Hnd as [Hn Hnd].
  unfold free_node, get_node. rewrite Hd. cbn [of_option rbind length] in *. pose proof (Ho p ltac:(apply list_elem_of_here)) as Hop.
  destruct (IH (mkArena (delete p (nodes s)) (allocators s)) (delete p own) (next d) L') as (s' & own' & Hres & Hwf' & Hal & Hgone & Hkept);
    [by apply wf_delete|by apply chain_delete|done| |lia|].
  { intros n Hin. rewrite lookup_delete_ne; [by apply Ho, list_elem_of_further|]. by intros ->. }
  exists s', own'. split_and!; try done.
  - intros n [-> |Hin]%elem_of_cons; [|by apply Hgone]. destruct (Hkept p Hn) as [E _]. by rewrite E, lookup_delete_eq.
  - intros n Hin. rewrite elem_of_cons in Hin. destruct (Hkept n) as [E1 E2]; [tauto|]. cbn [nodes] in E2. rewrite E1, E2, !lookup_delete_ne; [done|intros ->; tauto..].
Qed.

(** The arena with the locals of the loop stored in the allocator. *)
Definition stage (s : arena) (al : Z) (a : allocator_t) (mi cur : Z) : arena :=
  mkArena (nodes s) (<[al := with_current cur (with_max_index mi a)]> (allocators s)).

Section keep.
Context (s : arena) (own : owners) (al : Z) (a : allocator_t) (mi cur : Z) (n : Z) (d : memnode).
Context (Hwf : wf_arena (stage s al a mi cur) own) (Ha : allocators s !! al = Some a) (Ho : own !! n = Some None) (Hd : nodes s !! n = Some d).

Lemma stage_allocator : exists F, wf_allocator (nodes s) (with_current cur (with_max_index mi a)) F /\ forall m, own !! m = Some (Some al) <-> m ∈ concat F.
Proof using Hwf. apply (wf_allocators _ _ Hwf). cbn [stage allocators]. by rewrite lookup_insert_eq. Qed.

Lemma stage_node : wf_node n d.
Proof using Hwf Hd. by apply (wf_nodes _ _ Hwf). Qed.

(** The slot of the node, its list, and the lists after it has joined. *)
Context (b : Z) (Hb : b = if index d <? MAX_INDEX then index d else 0) (F : list (list Z)).
Context (HF : wf_allocator (nodes s) (with_current cur (with_max_index mi a)) F) (Hown : forall m, own !! m = Some (Some al) <-> m ∈ concat F).
Context (head : Z) (L : list Z) (HL : F !! Z.to_nat b = Some L) (Hc : chain (nodes s) head L).
Abbreviation F' := (<[Z.to_nat b := n :: L]> F).
Abbreviation h' := (<[n := with_next head d]> (nodes s)).
Abbreviation a' := (with_free (<[Z.to_nat b := n]> (free a)) a).
Abbreviation mi' := (if (head =? NULL) && (b >? mi) then b else mi).

Lemma keep_slot : 0 <= b < MAX_INDEX /\ Z.to_nat b = bucket (index d).
Proof using Type*.
  destruct stage_node as (_ & _ & Hi & _). subst b. unfold bucket, MAX_INDEX. destruct (Z.ltb_spec (index d) 20); split; (lia || done).
Qed.

Lemma keep_lists m : m ∈ concat F' <-> m = n \/ m ∈ concat F.
Proof using Type*.
  assert (Hlt : (Z.to_nat b < length F)%nat) by (by eapply lookup_lt_Some). rewrite !elem_of_lists. split.
  - intros (i & K & HK & Hm). destruct (decide (i = Z.to_nat b)) as [->|Hne].
    + rewrite list_lookup_insert_eq in HK by done. injection HK as <-. apply elem_of_cons in Hm as [-> |Hm]; [by left|right]. by exists (Z.to_nat b), L.
    + rewrite list_lookup_insert_ne in HK by done. right. by exists i, K.
  - intros [-> |(i & K & HK & Hm)]; [exists (Z.to_nat b), (n :: L); rewrite list_lookup_insert_eq by done; split; [done|apply list_elem_of_here]|].
    destruct (decide (i = Z.to_nat b)) as [->|Hne]; [|exists i, K; by rewrite list_lookup_insert_ne].
    exists (Z.to_nat b), (n :: L). rewrite list_lookup_insert_eq by done. split; [done|]. simplify_eq. by apply list_elem_of_further.
Qed.

Lemma keep_fresh : n ∉ concat F.
Proof using Type*. intros Hin%Hown. congruence. Qed.

Lemma keep_sorted i K m : F' !! i = Some K -> m ∈ K -> exists dm, h' !! m = Some dm /\ bucket (index dm) = i.
Proof using Type*.
  destruct keep_slot as [_ Hbk]. assert (Hlt : (Z.to_nat b < length F)%nat) by (by eapply lookup_lt_Some). intros HK Hm.
  destruct (decide (m = n)) as [->|Hmn].
  - exists (with_next head d). rewrite lookup_insert_eq. split; [done|]. cbn [with_next index]. destruct (decide (i = Z.to_nat b)) as [->|Hne]; [done|].
    exfalso. apply keep_fresh, elem_of_lists. exists i, K. rewrite list_lookup_insert_ne in HK by done. done.
  - rewrite lookup_insert_ne by done. destruct (decide (i = Z.to_nat b)) as [->|Hne]; [|rewrite list_lookup_insert_ne in HK by done; by apply (wf_sorted _ _ _ HF _ K)].
    rewrite list_lookup_insert_eq in HK by done. injection HK as <-. apply elem_of_cons in Hm as [|Hm]; [done|]. by apply (wf_sorted _ _ _ HF _ L).
Qed.

Lemma keep_allocator cur' : 0 <= cur' <= max_free_index a -> wf_allocator h' (with_current cur' (with_max_index mi' a')) F'.
Proof using Type*.
  intros Hcur. destruct keep_slot as [Hb' Hbk]. destruct stage_node as (Hn0 & _ & _). pose proof (wf_max _ _ _ HF) as Hmi. cbn [with_current with_max_index max_index] in Hmi.
  assert (Hlt : (Z.to_nat b < length F)%nat) by (by eapply lookup_lt_Some).
  assert (HnL : n ∉ L) by (intros Hin; apply keep_fresh, elem_of_lists; by exists (Z.to_nat b), L).
  assert (Hempty : mi < b -> head = NULL) by (intros Hlt'; pose proof (wf_above _ _ _ HF (Z.to_nat b) L ltac:(cbn; lia) HL) as E; by rewrite E in Hc).
  constructor; cbn [with_current with_max_index with_free max_index free current_free_index max_free_index].
  - apply Forall2_insert; [eapply lists_frame; [|exact (wf_lists _ _ _ HF)]|].
    + intros m Hm. apply lookup_insert_ne. intros <-. by apply keep_fresh.
    + split; [done|]. split; [lia|]. exists (with_next head d). rewrite lookup_insert_eq. split; [done|]. by apply chain_insert.
  - rewrite length_insert. apply (wf_length _ _ _ HF).
  - exact keep_sorted.
  - apply Forall_insert; [apply (wf_nodup _ _ _ HF)|]. apply NoDup_cons. split; [done|]. by apply (proj1 (Forall_lookup _ _) (wf_nodup _ _ _ HF) (Z.to_nat b)).
  - destruct ((head =? NULL) && (b >? mi)); lia.
  - intros i K Hi' HK. destruct (Z.eqb_spec head NULL) as [Hh|Hh], (Z.gtb_spec b mi); cbn [andb] in Hi'; try (exfalso; apply Hh, Hempty; lia);
      (rewrite list_lookup_insert_ne in HK by lia; apply (wf_above _ _ _ HF i); [cbn; lia|done]).
  - intros K Hz HK. destruct (decide (mi' = b)) as [E|Hne]; [rewrite E, list_lookup_insert_eq in HK by done; by injection HK as <-|].
    destruct ((head =? NULL) && (b >? mi)); [done|]. rewrite list_lookup_insert_ne in HK by lia. by apply (wf_top _ _ _ HF).
  - done.
  - exact (wf_max_free _ _ _ HF).
Qed.

Lemma wf_keep cur' : 0 <= cur' <= max_free_index a ->
  wf_arena (stage (mkArena h' (<[al := a']> (allocators s))) al a' mi' cur') (<[n := Some al]> own).
Proof using Type*.
  intros Hcur.
  apply (wf_rebuild (stage s al a mi cur) own _ _ al (with_current cur (with_max_index mi a)) (with_current cur' (with_max_index mi' a')) F');
    cbn [stage nodes allocators]; try done.
  - by rewrite lookup_insert_eq.
  - by rewrite !insert_insert_eq.
  - by eapply same_shape_insert.
  - intros m dm. destruct (decide (m = n)) as [->|Hm]; [rewrite lookup_insert_eq; intros [= <-]; exact stage_node|rewrite lookup_insert_ne by done; apply (wf_nodes _ _ Hwf)].
  - intros m. destruct (decide (m = n)) as [->|Hm]; [|by rewrite lookup_insert_ne]. rewrite lookup_insert_eq, Ho. by split; eexists.
  - intros m al' Hne. destruct (decide (m = n)) as [->|Hm]; [|by rewrite lookup_insert_ne]. rewrite lookup_insert_eq, Ho. by split; intros; simplify_eq.
  - intros m al' Hne Hm. apply lookup_insert_ne. intros ->. congruence.
  - by apply keep_allocator.
  - intros m. rewrite keep_lists, <- Hown. destruct (decide (m = n)) as [->|Hm]; [rewrite lookup_insert_eq; split; auto|rewrite lookup_insert_ne by done; tauto].
Qed.
End keep.

(** ** allocator_free *)

Section free_loop.
Context (al : Z).

(** After one node: it is in [freelist] or in a list of the allocator. *)
Lemma free_one_spec s own a n d mi cur fl Lf :
  allocators s !! al = Some a -> wf_arena (stage s al a mi cur) own -> nodes s !! n = Some d -> own !! n = Some None -> chain (nodes s) fl Lf -> n ∉ Lf ->
  exists s' a' own' mi' cur' fl' Lf', free_one s al (max_free_index a) n d mi cur fl = Ok (s', mi', cur', fl') /\
    allocators s' !! al = Some a' /\ max_free_index a' = max_free_index a /\ wf_arena (stage s' al a' mi' cur') own' /\ chain (nodes s') fl' Lf' /\
    (Lf' = n :: Lf /\ own' = own \/ Lf' = Lf /\ own' = <[n := Some al]> own) /\
    (forall m, m <> n -> nodes s' !! m = nodes s !! m) /\ untouched al [n] s s' own own'.
Proof.
  intros Ha Hwf Hd Ho Hc Hn. pose proof (stage_node _ _ _ _ _ _ _ _ Hwf Hd) as Hnode. pose proof Hnode as (Hn0 & _ & Hi & _). destruct (stage_allocator _ _ _ _ _ _ Hwf) as (F & HF & Hown).
  pose proof (wf_free _ _ _ HF) as Hcur. cbn [with_current with_max_index current_free_index max_free_index] in Hcur.
  unfold free_one. cbv zeta. set (lowered := if cur >=? _ then _ else _).
  assert (Hlow : 0 <= lowered <= max_free_index a).
  { unfold lowered, u32. pose proof (Z.mod_pos_bound (index d + 1) (2 ^ 32) ltac:(lia)). destruct (Z.geb_spec cur ((index d + 1) mod 2 ^ 32)); lia. }
  destruct (negb _ && _).
  { unfold upd_node, get_node. rewrite Hd. cbn [of_option rbind]. exists (mkArena (<[n := with_next fl d]> (nodes s)) (allocators s)), a, own, mi, cur, n, (n :: Lf).
    split_and!; try done.
    - apply (wf_touch _ _ n d (with_next fl d) Hwf); try done.
    - split; [done|]. split; [lia|]. exists (with_next fl d). cbn [nodes]. rewrite lookup_insert_eq. split; [done|]. by apply chain_insert.
    - by left.
    - intros m Hm. by apply lookup_insert_ne.
    - constructor; cbn [nodes allocators]; try done; [|intros c Hc'; by exists c]. intros m Hm _. apply lookup_insert_ne. intros ->. apply Hm, list_elem_of_here. }
  assert (Hkeep : forall b, b = (if index d <? MAX_INDEX then index d else 0) -> exists head,
    read_link s al (Slot b) = Ok head /\
    (do s1 <- upd_node s n (with_next head); write_link s1 al (Slot b) n) =
      Ok (mkArena (<[n := with_next head d]> (nodes s)) (<[al := with_free (<[Z.to_nat b := n]> (free a)) a]> (allocators s))) /\
    wf_arena (stage (mkArena (<[n := with_next head d]> (nodes s)) (<[al := with_free (<[Z.to_nat b := n]> (free a)) a]> (allocators s))) al
      (with_free (<[Z.to_nat b := n]> (free a)) a) (if (head =? NULL) && (b >? mi) then b else mi) lowered) (<[n := Some al]> own)).
  { intros b Hb. assert (Hbr : 0 <= b < MAX_INDEX) by (subst b; unfold MAX_INDEX; destruct (Z.ltb_spec (index d) 20); lia).
    destruct (slot_list _ _ _ HF b Hbr) as (head & L & Hslot & HL & HcL). exists head. cbn [read_link]. unfold get_allocator. rewrite Ha. cbn [of_option rbind].
    split; [exact Hslot|]. split; [|by apply (wf_keep s own al a mi cur n d Hwf Ha Ho Hd b Hb F HF Hown head L HL HcL)].
    unfold upd_node, get_node. rewrite Hd. cbn [of_option rbind]. rewrite (write_slot al _ a); [done|exact Ha|exact (free_length s _ F HF)|exact Hbr]. }
  assert (Hun : forall head fr, untouched al [n] s (mkArena (<[n := with_next head d]> (nodes s)) (<[al := with_free fr a]> (allocators s))) own (<[n := Some al]> own)).
  { intros head fr. assert (Hne : forall m, m ∉ [n] -> n <> m) by (intros m Hm ->; apply Hm, list_elem_of_here).
    constructor; cbn [nodes allocators]; [intros m Hm; by rewrite lookup_insert_ne by auto|intros m Hm _; by apply lookup_insert_ne; auto|intros al' Hal; by apply lookup_insert_ne|].
    intros c Hc'. rewrite Ha in Hc'. injection Hc' as <-. exists (with_free fr a). by rewrite lookup_insert_eq. }
  assert (Hmi : (0 >? mi) = false) by (pose proof (wf_max _ _ _ HF) as [H0 _]; cbn in H0; lia).
  destruct (index d <? MAX_INDEX); [destruct (Hkeep (index d) eq_refl) as (head & Hread & Hwrite & Hw)|destruct (Hkeep 0 eq_refl) as (head & Hread & Hwrite & Hw)];
    rewrite Hread; cbn [rbind]; (destruct (upd_node s n (with_next head)) as [s1|]; [|done]); cbn [rbind] in *; rewrite Hwrite; cbn [rbind];
    rewrite ?Hmi, ?andb_false_r in Hw; (do 7 eexists; split; [reflexivity|]); cbn [nodes allocators]; rewrite lookup_insert_eq; split_and!;
    [reflexivity|reflexivity|exact Hw|by apply chain_insert|by right|intros m Hm; by apply lookup_insert_ne|apply Hun
    |reflexivity|reflexivity|exact Hw|by apply chain_insert|by right|intros m Hm; by apply lookup_insert_ne|apply Hun].
Qed.

Lemma free_loop_spec L : forall fuel s own a node mi cur fl Lf,
  allocators s !! al = Some a -> wf_arena (stage s al a mi cur) own -> chain (nodes s) node L -> L <> [] -> chain (nodes s) fl Lf ->
  NoDup (L ++ Lf) -> (forall n, n ∈ L ++ Lf -> own !! n = Some None) -> (length L <= fuel)%nat ->
  exists s' a' own' mi' cur' fl' Lf', free_loop fuel s al (max_free_index a) node mi cur fl = Ok (s', mi', cur', fl') /\
    allocators s' !! al = Some a' /\ wf_arena (stage s' al a' mi' cur') own' /\ chain (nodes s') fl' Lf' /\ NoDup Lf' /\
    (forall n, n ∈ Lf' -> own' !! n = Some None /\ n ∈ L ++ Lf) /\ (forall n, n ∈ L ++ Lf -> n ∈ Lf' \/ own' !! n = Some (Some al)) /\
    (forall n, n ∉ L -> own' !! n = own !! n) /\ untouched al L s s' own own'.
Proof.
  induction L as [|n L IH]; intros fuel s own a node mi cur fl Lf Ha Hwf Hc Hne Hcf Hnd Ho Hf; [done|].
  destruct Hc as (-> & Hn0 & d & Hd & Hc). cbn [length app] in *. destruct fuel as [|fuel]; [lia|]. cbn [free_loop]. unfold get_node. rewrite Hd. cbn [of_option rbind].
  apply NoDup_cons in Hnd as [Hn Hnd]. pose proof (Ho n ltac:(apply list_elem_of_here)) as Hon. rewrite elem_of_app in Hn.
  destruct (free_one_spec s own a n d mi cur fl Lf Ha Hwf Hd Hon Hcf ltac:(tauto)) as (s1 & a1 & own1 & mi1 & cur1 & fl1 & Lf1 & -> & Ha1 & Hmf & Hwf1 & Hcf1 & Hcase & Hframe & Hun1).
  cbn [rbind]. assert (Hown1 : forall m, m <> n -> own1 !! m = own !! m) by (intros m Hm; destruct Hcase as [[_ ->]|[_ ->]]; [done|by apply lookup_insert_ne]).
  assert (Hnd1 : NoDup (L ++ Lf1)).
  { destruct Hcase as [[-> _]|[-> _]]; [|done]. rewrite <- Permutation_middle. apply NoDup_cons. rewrite elem_of_app. tauto. }
  assert (Ho1 : forall m, m ∈ L ++ Lf1 -> own1 !! m = Some None /\ m ∈ n :: L ++ Lf).
  { intros m Hm. rewrite elem_of_cons, elem_of_app. rewrite elem_of_app in Hm. destruct (decide (m = n)) as [->|Hmn].
    - destruct Hcase as [[-> ->]|[-> ->]]; [split; [done|by left]|tauto].
    - rewrite Hown1 by done. assert (Hm' : m ∈ L \/ m ∈ Lf) by (destruct Hcase as [[-> _]|[-> _]]; [rewrite elem_of_cons in Hm|]; tauto).
      split; [apply Ho; rewrite elem_of_cons, elem_of_app|]; tauto. }
  assert (Hn1 : n ∈ Lf1 \/ own1 !! n = Some (Some al)) by (destruct Hcase as [[-> _]|[_ ->]]; [left; apply list_elem_of_here|right; apply lookup_insert_eq]).
  assert (Hsub : forall m, m ∈ Lf -> m ∈ Lf1) by (intros m Hm; destruct Hcase as [[-> _]|[-> _]]; [by apply list_elem_of_further|done]).
  destruct (Z.eqb_spec (next d) NULL) as [E|Hnext].
  { rewrite E in Hc. apply chain_null in Hc as ->. exists s1, a1, own1, mi1, cur1, fl1, Lf1. split_and!; try done.
    - intros m [-> |Hm]%elem_of_cons; [done|]. left. by apply Hsub.
    - intros m Hm. apply Hown1. intros ->. apply Hm, list_elem_of_here. }
  assert (HL : L <> []) by (intros ->; done). rewrite <- Hmf.
  assert (Hc1 : chain (nodes s1) (next d) L) by (eapply chain_frame; [|exact Hc]; intros m Hm; apply Hframe; intros ->; tauto).
  destruct (IH fuel s1 own1 a1 (next d) mi1 cur1 fl1 Lf1 Ha1 Hwf1 Hc1 HL Hcf1 Hnd1 ltac:(intros m Hm; by apply Ho1) ltac:(lia))
    as (s2 & a2 & own2 & mi2 & cur2 & fl2 & Lf2 & -> & Ha2 & Hwf2 & Hcf2 & Hnd2 & Hgone & Hkept & Hsame & Hun2).
  exists s2, a2, own2, mi2, cur2, fl2, Lf2. split_and!; try done.
  - intros m Hm. destruct (Hgone m Hm) as [Hm1 Hm2]. split; [done|by apply Ho1].
  - intros m [-> |Hm]%elem_of_cons.
    + destruct Hn1 as [Hn1|Hn1]; [apply Hkept, elem_of_app; by right|]. right. rewrite Hsame by tauto. done.
    + apply Hkept. rewrite elem_of_app in *. destruct Hm; auto.
  - intros m Hm. rewrite elem_of_cons in Hm. rewrite Hsame, Hown1 by tauto. done.
  - apply (untouched_trans al [n] L _ _ _ _ _ _ Hun1 Hun2).
Qed.
End free_loop.

(** The nodes of a list that were handed out come back: each is in a list of the
    allocator or has been given back to the system. *)
Lemma allocator_free_spec s own al a node L :
  wf_arena s own -> allocators s !! al = Some a -> chain (nodes s) node L -> L <> [] -> NoDup L -> (forall n, n ∈ L -> own !! n = Some None) ->
  exists s' own', allocator_free s al node = Ok s' /\ wf_arena s' own' /\ (forall n, n ∈ L -> own' !! n = Some (Some al) \/ own' !! n = None) /\
    (forall n, n ∉ L -> own' !! n = own !! n) /\ untouched al L s s' own own'.
Proof.
  intros Hwf Ha Hc Hne Hnd Ho. unfold allocator_free, get_allocator. rewrite Ha. cbn [of_option rbind].
  assert (Hst : stage s al a (max_index a) (current_free_index a) = s).
  { unfold stage. rewrite insert_id; [by destruct s|]. rewrite Ha. by destruct a. }
  destruct (free_loop_spec al L (fuel_nodes s) s own a node (max_index a) (current_free_index a) NULL [] Ha) as
    (s1 & a1 & own1 & mi & cur & fl & Lf & -> & Ha1 & Hwf1 & Hcf & Hndf & Hgone & Hkept & Hsame & Hun); try done.
  { by rewrite Hst. } { by rewrite app_nil_r. } { by rewrite app_nil_r. } { unfold fuel_nodes. pose proof (chain_length _ _ _ Hc Hnd). lia. }
  rewrite app_nil_r in *. cbn [rbind]. unfold upd_allocator, get_allocator. rewrite Ha1. cbn [of_option rbind]. fold (stage s1 al a1 mi cur).
  destruct (free_list_spec (fuel_nodes (stage s1 al a1 mi cur)) (stage s1 al a1 mi cur) own1 fl Lf) as (s2 & own2 & -> & Hwf2 & Hal2 & Hdel & Hrest); try done.
  { intros n Hn. by apply Hgone. } { unfold fuel_nodes. pose proof (chain_length _ _ _ Hcf Hndf). cbn [stage nodes]. lia. }
  assert (HLf : forall n, n ∈ Lf -> n ∈ L) by (intros n Hn; by apply Hgone).
  exists s2, own2. split_and!; try done.
  - intros n Hn. destruct (decide (n ∈ Lf)) as [Hin|Hin]; [right; by apply Hdel|left]. destruct (Hrest n Hin) as [-> _]. destruct (Hkept n Hn); done.
  - intros n Hn. destruct (Hrest n) as [-> _]; [auto|]. by apply Hsame.
  - assert (Hout : forall n, n ∉ L -> own2 !! n = own !! n /\ nodes s2 !! n = nodes s1 !! n).
    { intros n Hn. destruct (Hrest n) as [-> ->]; [auto|]. split; [by apply Hsame|done]. }
    constructor.
    + intros n Hn. by rewrite (proj1 (Hout n Hn)).
    + intros n Hn Hon. rewrite (proj2 (Hout n Hn)). by apply (un_nodes _ _ _ _ _ _ Hun).
    + intros al' Hal. rewrite Hal2. cbn [stage allocators]. rewrite lookup_insert_ne by done. by apply (un_allocators _ _ _ _ _ _ Hun).
    + intros c Hc'. destruct (un_settings _ _ _ _ _ _ Hun c Hc') as (a1' & Ha1' & Hset). simplify_eq.
      exists (with_current cur (with_max_index mi a1)). rewrite Hal2. cbn [stage allocators]. by rewrite lookup_insert_eq.
Qed.

(** ** Allocators come and go *)

(** The arena without an allocator; its nodes count as handed out. *)
Definition dropped (s : arena) (al : Z) : arena := mkArena (nodes s) (delete al (allocators s)).
Definition released (own : owners) (al : Z) : owners := (fun o => if decide (o = Some al) then None else o) <$> own.

Lemma released_lookup own al n : released own al !! n = (fun o => if decide (o = Some al) then None else o) <$> own !! n.
Proof. apply lookup_fmap. Qed.

Lemma released_other own al n al' : al' <> al -> released own al !! n = Some (Some al') <-> own !! n = Some (Some al').
Proof.
  intros Hne. rewrite released_lookup. destruct (own !! n) as [o|]; cbn; [|done]. destruct (decide (o = Some al)) as [->|]; [|done].
  split; [done|]. intros [= ->]. done.
Qed.

Lemma released_handed own al n : released own al !! n = Some None <-> own !! n = Some None \/ own !! n = Some (Some al).
Proof.
  rewrite released_lookup. destruct (own !! n) as [o|]; cbn; [|by split; [|intros []]]. destruct (decide (o = Some al)) as [->|]; [split; auto|].
  split; [by left|]. intros [|]; [done|]. congruence.
Qed.

Lemma live_dropped s al b sb : (forall d, nodes s !! al = Some d -> False) -> live (dropped s al) !! b = Some sb -> live s !! b = Some sb.
Proof.
  intros Hno. rewrite !live_lookup. cbn [dropped nodes allocators]. destruct (nodes s !! b); [done|].
  destruct (decide (b = al)) as [->|Hb]; [by rewrite lookup_delete_eq|by rewrite lookup_delete_ne].
Qed.

Lemma wf_dropped s own al a : wf_arena s own -> allocators s !! al = Some a -> wf_arena (dropped s al) (released own al).
Proof.
  intros Hwf Ha. constructor; cbn [dropped nodes allocators].
  - apply (wf_nodes _ _ Hwf).
  - intros n. rewrite released_lookup, fmap_is_Some. apply (wf_owned _ _ Hwf).
  - intros n d Hd. destruct (decide (n = al)) as [->|Hn]; [by rewrite lookup_delete_eq|]. rewrite lookup_delete_ne by done. by apply (wf_apart _ _ Hwf _ d).
  - intros x y sx sy Hxy Hx Hy. assert (Hno : forall d, nodes s !! al = Some d -> False) by (intros d Hd%(wf_apart _ _ Hwf); congruence).
    by apply (wf_blocks _ _ Hwf x y); [|eapply live_dropped..].
  - intros al' c [_ Hc]%lookup_delete_Some. by apply (wf_not_null _ _ Hwf _ c).
  - intros al' c [Hne Hc]%lookup_delete_Some. destruct (wf_allocators _ _ Hwf _ _ Hc) as (F & HF & Hown). exists F. split; [done|].
    intros n. by rewrite released_other by done.
  - intros n al'. rewrite released_lookup. destruct (own !! n) as [o|] eqn:Ho; [|done]. cbn. destruct (decide (o = Some al)); [done|].
    intros [= ->]. rewrite lookup_delete_ne by congruence. by apply (wf_owner _ _ Hwf n).
Qed.

Section destroy.
Context (al : Z).

Lemma destroy_list_spec fuel : forall s a own p L i,
  allocators s !! al = Some a -> length (free a) = Z.to_nat MAX_INDEX -> 0 <= i < MAX_INDEX -> slot a i = Ok p -> chain (nodes s) p L -> NoDup L ->
  wf_arena (dropped s al) own -> (forall n, n ∈ L -> own !! n = Some None) -> (length L < fuel)%nat ->
  exists s' a' own', destroy_list fuel s al i = Ok s' /\ allocators s' = <[al := a']> (allocators s) /\ length (free a') = Z.to_nat MAX_INDEX /\
    (forall k, k <> Z.to_nat i -> free a' !! k = free a !! k) /\ wf_arena (dropped s' al) own' /\
    (forall n, n ∈ L -> own' !! n = None) /\ (forall n, n ∉ L -> own' !! n = own !! n /\ nodes s' !! n = nodes s !! n).
Proof.
  induction fuel as [|fuel IH]; intros s a own p L i Ha Hlen Hi Hslot Hc Hnd Hwf Ho Hf; [lia|]. cbn [destroy_list].
  cbn [read_link]. unfold get_allocator. rewrite Ha. cbn [of_option rbind]. rewrite Hslot. cbn [rbind].
  destruct (Z.eqb_spec p NULL) as [->|Hp].
  { apply chain_null in Hc as ->. exists s, a, own. split_and!; try done; [by rewrite insert_id|]. by intros n ?%not_elem_of_nil. }
  destruct (chain_nonempty _ _ _ Hc Hp) as (L' & d & -> & Hd & Hc'). apply NoDup_cons in Hnd as [Hn Hnd]. cbn [length] in Hf.
  unfold get_node. rewrite Hd. cbn [of_option rbind]. rewrite (write_slot al s a) by done. cbn [rbind]. unfold free_node, get_node. cbn [nodes allocators]. rewrite Hd. cbn [of_option rbind].
  set (a1 := with_free (<[Z.to_nat i := next d]> (free a)) a). set (s1 := mkArena (delete p (nodes s)) (<[al := a1]> (allocators s))).
  assert (Hwf1 : wf_arena (dropped s1 al) (delete p own)).
  { replace (dropped s1 al) with (mkArena (delete p (nodes (dropped s al))) (allocators (dropped s al))); [apply wf_delete; [done|apply Ho, list_elem_of_here]|].
    unfold dropped, s1. cbn [nodes allocators]. by rewrite delete_insert_eq. }
  assert (Hs1 : slot a1 i = Ok (next d)).
  { unfold slot. replace (0 <=? i) with true by lia. cbn [a1 with_free free]. rewrite list_lookup_insert_eq by (rewrite Hlen; lia). done. }
  destruct (IH s1 a1 (delete p own) (next d) L' i) as (s2 & a2 & own2 & -> & Hal2 & Hlen2 & Hk2 & Hwf2 & Hgone & Hkept); try done.
  - cbn [s1 allocators]. by rewrite lookup_insert_eq.
  - cbn [a1 with_free free]. by rewrite length_insert.
  - cbn [s1 nodes]. by apply chain_delete.
  - intros n Hin. rewrite lookup_delete_ne; [by apply Ho, list_elem_of_further|]. by intros ->.
  - lia.
  - exists s2, a2, own2. split_and!; try done.
    + rewrite Hal2. cbn [s1 allocators]. by rewrite insert_insert_eq.
    + intros k Hk. rewrite Hk2 by done. cbn [a1 with_free free]. by rewrite list_lookup_insert_ne.
    + intros n [-> |Hin]%elem_of_cons; [|by apply Hgone]. destruct (Hkept p Hn) as [-> _]. apply lookup_delete_eq.
    + intros n Hin. rewrite elem_of_cons in Hin. destruct (Hkept n) as [-> ->]; [tauto|]. cbn [s1 nodes]. rewrite !lookup_delete_ne; [done|intros ->; tauto..].
Qed.
End destroy.

Section destroy_all.
Context (al : Z).

(** The lists from [i] on, and what they hold. *)
Record lists_from (s : arena) (a : allocator_t) (own : owners) (F : list (list Z)) (i : nat) : Prop := {
  lf_heads k L : (i <= k)%nat -> F !! k = Some L -> exists p, free a !! k = Some p /\ chain (nodes s) p L;
  lf_nodup : Forall (@NoDup Z) F;
  lf_apart j k L K n : F !! j = Some L -> F !! k = Some K -> n ∈ L -> n ∈ K -> j = k;
  lf_handed k L n : (i <= k)%nat -> F !! k = Some L -> n ∈ L -> own !! n = Some None
}.

Lemma destroy_lists_spec F count : forall s a own i,
  allocators s !! al = Some a -> length (free a) = Z.to_nat MAX_INDEX -> length F = Z.to_nat MAX_INDEX -> (i + count = Z.to_nat MAX_INDEX)%nat ->
  lists_from s a own F i -> wf_arena (dropped s al) own ->
  exists s' a' own', destroy_lists count s al (Z.of_nat i) = Ok s' /\ allocators s' = <[al := a']> (allocators s) /\ wf_arena (dropped s' al) own' /\
    (forall k L n, (i <= k)%nat -> F !! k = Some L -> n ∈ L -> own' !! n = None) /\
    (forall n, (forall k L, (i <= k)%nat -> F !! k = Some L -> n ∉ L) -> own' !! n = own !! n /\ nodes s' !! n = nodes s !! n).
Proof.
  induction count as [|count IH]; intros s a own i Ha Hlen HF Hi Hlists Hwf; cbn [destroy_lists].
  { exists s, a, own. split_and!; try done; [by rewrite insert_id|]. intros k L n Hk HL%lookup_lt_Some. lia. }
  destruct (lookup_lt_is_Some_2 F i ltac:(lia)) as [L HL]. destruct (lf_heads _ _ _ _ _ Hlists i L ltac:(lia) HL) as (p & Hp & Hc).
  pose proof (proj1 (Forall_lookup _ _) (lf_nodup _ _ _ _ _ Hlists) _ _ HL) as Hnd.
  destruct (destroy_list_spec al (fuel_nodes s) s a own p L (Z.of_nat i)) as (s1 & a1 & own1 & -> & Hal1 & Hlen1 & Hk1 & Hwf1 & Hgone1 & Hkept1); try done.
  { lia. } { unfold slot. replace (0 <=? Z.of_nat i) with true by lia. by rewrite Nat2Z.id, Hp. }
  { intros n Hn. by eapply (lf_handed _ _ _ _ _ Hlists i). } { unfold fuel_nodes. pose proof (chain_length _ _ _ Hc Hnd). lia. }
  rewrite Nat2Z.id in Hk1. cbn [rbind].
  assert (Hout : forall k K n, (S i <= k)%nat -> F !! k = Some K -> n ∈ K -> n ∉ L).
  { intros k K n Hk HK Hn Hn'. pose proof (lf_apart _ _ _ _ _ Hlists _ _ _ _ n HL HK Hn' Hn). lia. }
  destruct (IH s1 a1 own1 (S i)) as (s2 & a2 & own2 & Hres & Hal2 & Hwf2 & Hgone2 & Hkept2); try done; [by rewrite Hal1, lookup_insert_eq|lia| |].
  - destruct Hlists. constructor; [|done|done|].
    + intros k K Hk HK. destruct (lf_heads0 k K ltac:(lia) HK) as (q & Hq & Hcq). exists q. rewrite Hk1 by lia. split; [done|].
      eapply chain_frame; [|exact Hcq]. intros n Hn. apply Hkept1. by eapply Hout.
    + intros k K n Hk HK Hn. destruct (Hkept1 n) as [-> _]; [by eapply Hout|]. eapply lf_handed0; [|done..]. lia.
  - replace (Z.of_nat i + 1) with (Z.of_nat (S i)) by lia. exists s2, a2, own2. split; [done|]. split; [by rewrite Hal2, Hal1, insert_insert_eq|]. split; [done|]. split.
    + intros k K n Hk HK Hn. destruct (decide (k = i)) as [->|Hne]; [|by eapply Hgone2; [|done..]; lia]. simplify_eq.
      destruct (Hkept2 n) as [-> _]; [|by apply Hgone1]. intros k K' Hk' HK' Hn'. by eapply Hout.
    + intros n Hn. destruct (Hkept2 n) as [-> ->]; [intros k K Hk HK; apply (Hn k); [lia|done]|]. apply Hkept1. by apply (Hn i).
Qed.

(** The allocator is gone, and the nodes in its lists with it. *)
Lemma apr_allocator_destroy_spec s own a : wf_arena s own -> allocators s !! al = Some a ->
  exists s' own', apr_allocator_destroy s al = Ok s' /\ wf_arena s' own' /\ allocators s' = delete al (allocators s) /\
    (forall n, own !! n = Some (Some al) -> own' !! n = None) /\
    (forall n, own !! n <> Some (Some al) -> own' !! n = own !! n /\ nodes s' !! n = nodes s !! n).
Proof.
  intros Hwf Ha. destruct (wf_allocators _ _ Hwf _ _ Ha) as (F & HF & Hown). unfold apr_allocator_destroy.
  destruct (destroy_lists_spec F (Z.to_nat MAX_INDEX) s a (released own al) 0) as (s1 & a1 & own1 & Hres & Hal & Hwf1 & Hgone & Hkept); try done.
  - exact (free_length s a F HF).
  - exact (wf_length _ _ _ HF).
  - constructor.
    + intros k L _ HL. destruct (Forall2_lookup_r _ _ _ _ _ (wf_lists _ _ _ HF) HL) as (p & Hp & Hc). by exists p.
    + exact (wf_nodup _ _ _ HF).
    + intros j k L K n HL HK Hn Hn'. by eapply (wf_lookup _ _ _ _ _ n HF HK).
    + intros k L n _ HL Hn. apply released_handed. right. apply Hown, elem_of_lists. by exists k, L.
  - by apply (wf_dropped _ _ _ a).
  - change (Z.of_nat 0) with 0 in Hres. rewrite Hres. cbn [rbind]. unfold get_allocator. rewrite Hal, lookup_insert_eq. cbn [of_option rbind].
    exists (dropped s1 al), own1. split; [unfold dropped; by rewrite Hal|]. split; [done|]. split; [cbn [dropped allocators]; by rewrite Hal, delete_insert_eq|]. split.
    + intros n Hn. apply Hown, elem_of_lists in Hn as (k & L & HL & Hn). by eapply Hgone; [lia|..].
    + intros n Hn. cbn [dropped nodes]. destruct (Hkept n) as [-> ->].
      * intros k L _ HL Hin. apply Hn, Hown, elem_of_lists. by exists k, L.
      * split; [|done]. rewrite released_lookup. destruct (own !! n) as [o|]; [|done]. cbn. rewrite decide_False; [done|]. congruence.
Qed.
End destroy_all.

(** ** A new allocator, and the settings *)

Section settings.
Context `{MallocLaws}.

Definition empty_allocator : allocator_t :=
  mkAllocator 0 APR_ALLOCATOR_MAX_FREE_UNLIMITED 0 NULL NULL (replicate (Z.to_nat MAX_INDEX) NULL).

Lemma wf_empty_allocator h : wf_allocator h empty_allocator (replicate (Z.to_nat MAX_INDEX) []).
Proof.
  assert (Hnil : forall i L, replicate (Z.to_nat MAX_INDEX) ([] : list Z) !! i = Some L -> L = []) by (intros i L HL; by apply lookup_replicate in HL as [-> _]).
  constructor; cbn [empty_allocator free max_index current_free_index max_free_index]; unfold MAX_INDEX in *; try lia.
  - by apply Forall2_replicate.
  - apply length_replicate.
  - intros i L n HL Hn. by rewrite (Hnil _ _ HL) in Hn; apply not_elem_of_nil in Hn.
  - apply Forall_replicate. constructor.
  - intros i L _. apply Hnil.
Qed.

Lemma apr_allocator_create_spec s own : wf_arena s own ->
  exists al s', apr_allocator_create s = Ok (al, s') /\
    (al = NULL /\ s' = s /\ malloc (live s) SIZEOF_ALLOCATOR_T = NULL \/
     wf_arena s' own /\ allocators s !! al = None /\ nodes s' = nodes s /\ allocators s' = <[al := empty_allocator]> (allocators s)).
Proof.
  intros Hwf. unfold apr_allocator_create. cbv zeta. fold empty_allocator.
  destruct (Z.eqb_spec (malloc (live s) SIZEOF_ALLOCATOR_T) NULL) as [E|Hn]; [exists NULL, s; split; [done|by left]|].
  assert (Hsz : 0 < SIZEOF_ALLOCATOR_T < 2 ^ 64) by (split; vm_compute; done).
  destruct (malloc_fresh _ _ Hsz Hn) as (Hpos & _ & Hend & Hfresh). destruct (malloc_not_live _ _ _ Hwf Hsz Hn) as (Hno & Hna & Hoo).
  set (al := malloc (live s) SIZEOF_ALLOCATOR_T) in *. exists al, (mkArena (nodes s) (<[al := empty_allocator]> (allocators s))). split; [done|]. right.
  split; [|done]. constructor; cbn [nodes allocators].
  - apply (wf_nodes _ _ Hwf).
  - apply (wf_owned _ _ Hwf).
  - intros n d Hd. rewrite lookup_insert_ne by (intros <-; congruence). by apply (wf_apart _ _ Hwf _ d).
  - replace (live _) with (<[al := SIZEOF_ALLOCATOR_T]> (live s)); [by apply disjoint_insert; [apply (wf_blocks _ _ Hwf)|]|].
    apply map_eq. intros b. rewrite live_lookup. cbn [nodes allocators]. destruct (decide (b = al)) as [->|Hb].
    + by rewrite !lookup_insert_eq, Hno.
    + rewrite !lookup_insert_ne by done. by rewrite live_lookup.
  - intros al' c. destruct (decide (al' = al)) as [->|Hne]; [done|]. rewrite lookup_insert_ne by done. apply (wf_not_null _ _ Hwf).
  - intros al' c. destruct (decide (al' = al)) as [->|Hne]; [rewrite lookup_insert_eq; intros [= <-]|rewrite lookup_insert_ne by done; apply (wf_allocators _ _ Hwf)].
    exists (replicate (Z.to_nat MAX_INDEX) []). split; [apply wf_empty_allocator|]. intros n. split.
    + intros Hl%(wf_owner _ _ Hwf). rewrite Hna in Hl. by destruct Hl.
    + intros (i & L & HL & Hl)%elem_of_lists. apply lookup_replicate in HL as [-> _]. by apply not_elem_of_nil in Hl.
  - intros n b Hb. apply (wf_owner _ _ Hwf) in Hb as [c Hc]. rewrite lookup_insert_ne by congruence. by exists c.
Qed.

(** The fields that are not the lists may change. *)
Lemma wf_settings s own al a a' : wf_arena s own -> allocators s !! al = Some a -> free a' = free a -> max_index a' = max_index a ->
  0 <= current_free_index a' <= max_free_index a' -> max_free_index a' <= APR_UINT32_MAX ->
  wf_arena (mkArena (nodes s) (<[al := a']> (allocators s))) own.
Proof.
  intros Hwf Ha Hf Hm Hc Hmf. destruct (wf_allocators _ _ Hwf _ _ Ha) as (F & HF & Hown).
  apply (wf_rebuild s own (mkArena (nodes s) (<[al := a']> (allocators s))) own al a a' F Hwf Ha); try done; [apply (wf_nodes _ _ Hwf)|].
  destruct HF. constructor; try done; rewrite ?Hf, ?Hm; done.
Qed.

Lemma apr_allocator_max_free_set_spec s own al a size : wf_arena s own -> allocators s !! al = Some a ->
  exists s' a', apr_allocator_max_free_set s al size = Ok s' /\ wf_arena s' own /\ nodes s' = nodes s /\
    allocators s' = <[al := a']> (allocators s) /\ max_free_index a' = APR_ALIGN u32 (u32 size) BOUNDARY_SIZE / BOUNDARY_SIZE /\ free a' = free a.
Proof.
  intros Hwf Ha. unfold apr_allocator_max_free_set, upd_allocator, get_allocator. rewrite Ha. cbn [of_option rbind]. cbv zeta.
  set (mf := Z.shiftr _ _). set (c := u32 (_ - max_free_index a)). set (a' := mkAllocator _ _ _ _ _ _).
  assert (Hmf : mf = APR_ALIGN u32 (u32 size) BOUNDARY_SIZE / BOUNDARY_SIZE) by (unfold mf; rewrite Z.shiftr_div_pow2 by lia; done).
  assert (Hmfr : 0 <= mf <= APR_UINT32_MAX).
  { rewrite Hmf. change BOUNDARY_SIZE with (2 ^ 12). rewrite align_spec by lia. unfold u32.
    pose proof (Z.mod_pos_bound (size mod 2 ^ 32 + (2 ^ 12 - 1)) (2 ^ 32) ltac:(lia)). Z.div_mod_to_equations. lia. }
  assert (Hc : 0 <= c) by (unfold c, u32; apply Z.mod_pos_bound; lia).
  exists (mkArena (nodes s) (<[al := a']> (allocators s))), a'. split; [done|]. split; [|done].
  apply (wf_settings s own al a a'); try done; cbn [a' current_free_index max_free_index]; [|lia]. destruct (Z.gtb_spec c mf); lia.
Qed.
End settings.

(** ** Sequences of calls *)

Section calls.
Context `{MallocLaws}.

(** The arenas a program can reach, with the nodes it has and has not given back. It
    may link its nodes and move their [first_avail] inside them. *)
Inductive reach : arena -> gset Z -> Prop :=
  | reach_start : reach (mkArena ∅ ∅) ∅
  | reach_create s out al s' : reach s out -> apr_allocator_create s = Ok (al, s') -> reach s' out
  | reach_destroy s out al s' : reach s out -> is_Some (allocators s !! al) -> apr_allocator_destroy s al = Ok s' -> reach s' out
  | reach_max_free s out al size s' : reach s out -> is_Some (allocators s !! al) -> apr_allocator_max_free_set s al size = Ok s' -> reach s' out
  | reach_alloc s out al size n s' :
      reach s out -> is_Some (allocators s !! al) -> 0 <= size < 2 ^ 64 -> apr_allocator_alloc s al size = Ok (n, s') ->
      reach s' (if n =? NULL then out else {[n]} ∪ out)
  | reach_free s out al node L s' :
      reach s out -> is_Some (allocators s !! al) -> chain (nodes s) node L -> L <> [] -> NoDup L -> (forall n, n ∈ L -> n ∈ out) ->
      apr_allocator_free s al node = Ok s' -> reach s' (out ∖ list_to_set L)
  | reach_next s out n v s' : reach s out -> n ∈ out -> upd_node s n (with_next v) = Ok s' -> reach s' out
  | reach_avail s out n d v s' :
      reach s out -> n ∈ out -> nodes s !! n = Some d -> n + APR_MEMNODE_T_SIZE <= v <= endp d -> v mod 8 = 0 ->
      upd_node s n (with_first_avail v) = Ok s' -> reach s' out.

Definition agrees (out : gset Z) (own : owners) : Prop := forall n, n ∈ out <-> own !! n = Some None.

Lemma reach_wf s out : reach s out -> exists own, wf_arena s own /\ agrees out own.
Proof.
  induction 1 as [|s out al s' _ (own & Hwf & Hout) Hres|s out al s' _ (own & Hwf & Hout) [a Ha] Hres|s out al size s' _ (own & Hwf & Hout) [a Ha] Hres
    |s out al size n s' _ (own & Hwf & Hout) [a Ha] Hsize Hres|s out al node L s' _ (own & Hwf & Hout) [a Ha] Hc Hne Hnd HL Hres
    |s out n v s' _ (own & Hwf & Hout) Hn Hres|s out n d v s' _ (own & Hwf & Hout) Hn Hd Hv Hm Hres].
  - exists ∅. split; [|by intros n]. constructor; cbn [nodes allocators]; try (intros *; by rewrite lookup_empty).
    + intros n. by rewrite !lookup_empty.
    + intros a b sa sb _. rewrite live_lookup. cbn [nodes allocators]. by rewrite !lookup_empty.
  - destruct (apr_allocator_create_spec s own Hwf) as (al' & s'' & E & [(_ & -> & _)|(Hwf' & _)]); rewrite E in Hres; injection Hres as -> ->; by exists own.
  - destruct (apr_allocator_destroy_spec al s own a Hwf Ha) as (s'' & own' & E & Hwf' & _ & Hgone & Hkept). rewrite E in Hres. injection Hres as ->.
    exists own'. split; [done|]. intros n. rewrite (Hout n). destruct (decide (own !! n = Some (Some al))) as [Eo|Eo]; [rewrite Eo, (Hgone n Eo); done|].
    by rewrite (proj1 (Hkept n Eo)).
  - destruct (apr_allocator_max_free_set_spec s own al a size Hwf Ha) as (s'' & a' & E & Hwf' & _). rewrite E in Hres. injection Hres as ->. by exists own.
  - destruct (allocator_alloc_spec s own al a size Hwf Ha Hsize) as (n' & s'' & E & Hcase). unfold apr_allocator_alloc in Hres. rewrite E in Hres. injection Hres as -> ->.
    destruct Hcase as [(-> & -> & _)|(idx & _ & Hh)]; [by exists own|]. pose proof (handed_not_null _ _ _ _ _ _ Hh). replace (n =? NULL) with false by lia.
    exists (<[n := None]> own). split; [apply (handed_wf _ _ _ _ _ _ Hh)|]. intros m. rewrite elem_of_union, elem_of_singleton, (Hout m).
    destruct (decide (m = n)) as [->|Hm]; [rewrite lookup_insert_eq; tauto|rewrite lookup_insert_ne by done; tauto].
  - destruct (allocator_free_spec s own al a node L Hwf Ha Hc Hne Hnd) as (s'' & own' & E & Hwf' & Hback & Hkept & _); [intros n Hn; by apply Hout, HL|].
    unfold apr_allocator_free in Hres. rewrite E in Hres. injection Hres as ->. exists own'. split; [done|]. intros n. rewrite elem_of_difference, elem_of_list_to_set, (Hout n).
    destruct (decide (n ∈ L)) as [Hin|Hin]; [|rewrite Hkept by done; tauto]. split; [tauto|]. intros Hn. destruct (Hback n Hin); congruence.
  - unfold upd_node, get_node in Hres. destruct (nodes s !! n) as [d|] eqn:Hd; [|done]. injection Hres as <-. exists own. split; [|done].
    apply (wf_touch s own n d); try done; [by apply Hout|]. by apply wf_node_next, (wf_nodes _ _ Hwf).
  - unfold upd_node, get_node in Hres. rewrite Hd in Hres. injection Hres as <-. exists own. split; [|done].
    apply (wf_touch s own n d); try done; [by apply Hout|]. pose proof (wf_nodes _ _ Hwf _ _ Hd) as (H1 & H2 & H3 & H4 & H5 & _). unfold wf_node. cbn [with_first_avail index endp first_avail]. tauto.
Qed.

(** A node that has just been handed out, beside the others that are out. *)
Lemma handed_apart s own al idx n s' d m dm : handed s own al idx n s' -> nodes s' !! n = Some d -> own !! m = Some None -> nodes s !! m = Some dm ->
  nodes s' !! m = Some dm /\ (endp d <= m \/ endp dm <= n).
Proof.
  intros Hh Hd Ho Hm. assert (Hne : m <> n) by (intros ->; by apply (handed_fresh _ _ _ _ _ _ Hh)).
  assert (Hm' : nodes s' !! m = Some dm).
  { rewrite (un_nodes _ _ _ _ _ _ (handed_untouched _ _ _ _ _ _ Hh) m); [done| |done]. intros Hin. apply list_elem_of_singleton in Hin. done. }
  split; [done|]. pose proof (wf_blocks _ _ (handed_wf _ _ _ _ _ _ Hh) n m (endp d - n) (endp dm - m)) as Hdis. rewrite !live_lookup, Hd, Hm' in Hdis.
  destruct Hdis; [done..| |]; lia.
Qed.

(** C15: The lists of free nodes. Whatever calls a program makes on its allocators,
    giving back only nodes it has been given and not given back: the lists of
    every allocator are well linked and without repetitions; list [i] holds the
    free nodes of [i + 1] pages and list 0 those of more than 20, [max_index] is
    the highest list that is not empty, and [current_free_index] does not exceed
    [max_free_index]; and every node that exists is well formed and is either with
    the program or in a list, never both: none is lost. *)
Theorem allocator_lists s out : reach s out ->
  (forall al a, allocators s !! al = Some a -> exists F, wf_allocator (nodes s) a F /\ forall n, n ∈ concat F -> n ∉ out) /\
  (forall n d, nodes s !! n = Some d -> wf_node n d /\
    (n ∈ out \/ exists al a F, allocators s !! al = Some a /\ wf_allocator (nodes s) a F /\ n ∈ concat F)).
Proof.
  intros (own & Hwf & Hout)%reach_wf. split.
  - intros al a Ha. destruct (wf_allocators _ _ Hwf _ _ Ha) as (F & HF & Hown). exists F. split; [done|]. intros n Hn%Hown Hin%Hout. congruence.
  - intros n d Hd. split; [by apply (wf_nodes _ _ Hwf)|]. destruct (proj2 (wf_owned _ _ Hwf n) (mk_is_Some _ _ Hd)) as [[al|] Ho]; [right|left; by apply Hout].
    destruct (wf_owner _ _ Hwf _ _ Ho) as [a Ha]. destruct (wf_allocators _ _ Hwf _ _ Ha) as (F & HF & Hown). exists al, a, F. by rewrite <- Hown.
Qed.

(** C16: Allocation. Whatever calls have been made, [apr_allocator_alloc] returns: a
    node the program does not have, with room for the request, whose block
    overlaps no node the program has, all of which are unchanged; or [NULL], with
    nothing changed, and then the request is beyond 2^44 bytes or [malloc], asked
    in that state for the pages of the node, gives [NULL]. [apr_allocator_free] of a list of nodes the program has returns and
    leaves its other nodes as they are. *)
Theorem allocator_calls s out al : reach s out -> is_Some (allocators s !! al) ->
  (forall size, 0 <= size < 2 ^ 64 -> exists n s', apr_allocator_alloc s al size = Ok (n, s') /\
    (n = NULL /\ s' = s /\ refused s size \/
     n <> NULL /\ n ∉ out /\ exists d, nodes s' !! n = Some d /\ first_avail d = n + APR_MEMNODE_T_SIZE /\ size <= endp d - first_avail d /\
       forall m dm, m ∈ out -> nodes s !! m = Some dm -> nodes s' !! m = Some dm /\ (endp d <= m \/ endp dm <= n))) /\
  (forall node L, chain (nodes s) node L -> L <> [] -> NoDup L -> (forall n, n ∈ L -> n ∈ out) ->
    exists s', apr_allocator_free s al node = Ok s' /\ forall m, m ∈ out -> m ∉ L -> nodes s' !! m = nodes s !! m).
Proof.
  intros (own & Hwf & Hout)%reach_wf [a Ha]. split.
  - intros size Hsize. destruct (allocator_alloc_spec s own al a size Hwf Ha Hsize) as (n & s' & E & Hcase). exists n, s'. split; [done|].
    destruct Hcase as [Hnull|(idx & Hfit & Hh)]; [by left|right]. split; [by apply (handed_not_null _ _ _ _ _ _ Hh)|]. split; [intros Hin%Hout; by apply (handed_fresh _ _ _ _ _ _ Hh)|].
    destruct (handed_node _ _ _ _ _ _ Hh) as (d & Hd & _ & Hav & Hidx). exists d. split; [done|]. split; [done|]. split.
    + destruct (wf_nodes _ _ (handed_wf _ _ _ _ _ _ Hh) _ _ Hd) as (_ & _ & _ & -> & _). rewrite Hav, page_size in *. lia.
    + intros m dm Hm%Hout Hdm. by eapply handed_apart.
  - intros node L Hc Hne Hnd HL. destruct (allocator_free_spec s own al a node L Hwf Ha Hc Hne Hnd) as (s' & own' & E & _ & _ & _ & Hun); [intros n Hn; by apply Hout, HL|].
    exists s'. split; [done|]. intros m Hm%Hout Hin. by apply (un_nodes _ _ _ _ _ _ Hun).
Qed.
End calls.

(** ** A [malloc], and the calls at work *)

(** Blocks one after another. *)
Definition top_of (B : gmap Z Z) : Z := foldr (fun b t => Z.max t (b.1 + b.2)) 4096 (map_to_list B).
Definition bump : Malloc := fun B size => let a := 16 * ((top_of B + 15) / 16) in if a + size <? 2 ^ 47 then a else NULL.

Lemma top_of_above B b sb : B !! b = Some sb -> b + sb <= top_of B.
Proof.
  intros Hb. apply elem_of_map_to_list in Hb. unfold top_of. induction (map_to_list B) as [|x l IH]; [by apply not_elem_of_nil in Hb|].
  cbn [foldr]. apply elem_of_cons in Hb as [<-|Hb]; [cbn; lia|]. specialize (IH Hb). lia.
Qed.

Lemma top_of_start B : 4096 <= top_of B.
Proof. unfold top_of. induction (map_to_list B); cbn [foldr]; lia. Qed.

#[local] Instance bump_laws : @MallocLaws bump.
Proof.
  intros B size Hsz Hn. pose proof (top_of_start B). unfold malloc, bump in *. cbv zeta in *. destruct (Z.ltb_spec (16 * ((top_of B + 15) / 16) + size) (2 ^ 47)); [|done].
  split; [Z.div_mod_to_equations; lia|]. split; [rewrite Z.mul_comm; by apply Z.mod_mul|]. split; [lia|].
  intros b sb Hb%top_of_above. left. Z.div_mod_to_equations. lia.
Qed.
#[local] Existing Instance bump.

(** An allocator, three nodes, and two of them given back. *)
Lemma sample_reached : exists s out al, reach s out /\ is_Some (allocators s !! al) /\ out <> ∅ /\ nodes s <> ∅.
Proof.
  assert (H1 : exists al s, reach s ∅ /\ apr_allocator_create (mkArena ∅ ∅) = Ok (al, s)).
  { do 2 eexists. split; [|vm_compute; reflexivity]. eapply reach_create; [apply reach_start|vm_compute; reflexivity]. }
  destruct H1 as (al & s1 & R1 & E1). vm_compute in E1. injection E1 as <- <-.
  eapply reach_alloc with (al := 4096) (size := 100) in R1; [|vm_compute; by eexists|lia|vm_compute; reflexivity]. cbn in R1.
  eapply reach_alloc with (al := 4096) (size := 10000) in R1; [|vm_compute; by eexists|lia|vm_compute; reflexivity]. cbn in R1.
  eapply reach_alloc with (al := 4096) (size := 100000) in R1; [|vm_compute; by eexists|lia|vm_compute; reflexivity]. cbn in R1.
  eapply reach_free with (al := 4096) (node := 4288) (L := [4288]) in R1; [|vm_compute; by eexists| | |repeat constructor; set_solver|set_solver|vm_compute; reflexivity];
    [|split; [done|]; split; [done|]; eexists; split; [vm_compute; reflexivity|reflexivity]|done].
  do 2 eexists. exists 4096. split; [exact R1|]. split; [vm_compute; by eexists|]. split; [|by vm_compute].
  intros E. apply (f_equal (fun X => bool_decide (12480 ∈ X))) in E. by vm_compute in E.
Qed.

Lemma allocator_lists_witness : exists s out, reach s out /\ nodes s <> ∅ /\
  forall n d, nodes s !! n = Some d -> wf_node n d.
Proof.
  destruct sample_reached as (s & out & al & Hr & _ & _ & Hne). exists s, out. split; [exact Hr|]. split; [exact Hne|].
  intros n d Hd. exact (proj1 (proj2 (allocator_lists s out Hr) n d Hd)).
Defined.

Lemma allocator_calls_witness : exists s out al n s', reach s out /\ out <> ∅ /\ apr_allocator_alloc s al 9000 = Ok (n, s') /\
  (n = NULL -> malloc (live s) 12288 = NULL).
Proof.
  destruct sample_reached as (s & out & al & Hr & Ha & Hne & _). destruct (proj1 (allocator_calls s out al Hr Ha) 9000) as (n & s' & E & Hcase); [lia|].
  exists s, out, al, n, s'. split; [exact Hr|]. split; [exact Hne|]. split; [exact E|]. intros ->.
  destruct Hcase as [(_ & _ & [Hbig|Hnull])|[Hn _]]; [by vm_compute in Hbig|exact Hnull|done].
Defined.

(** ** Lowering the limit

    With ten pages of free nodes kept under a limit of ten, the limit is set to five:
    [current_free_index] wraps around and is set to the new limit, as if nothing
    were kept, and five more pages are kept. *)
Example lowered_limit :
  (do (al, s) <- apr_allocator_create (mkArena ∅ ∅);
   do s <- apr_allocator_max_free_set s al (10 * BOUNDARY_SIZE);
   do (n1, s) <- apr_allocator_alloc s al 40000;
   do (n2, s) <- apr_allocator_alloc s al 20000;
   do s <- apr_allocator_free s al n1;
   do s <- apr_allocator_max_free_set s al (5 * BOUNDARY_SIZE);
   do s <- apr_allocator_free s al n2;
   do a <- get_allocator s al;
   Ok (map (fun n => index <$> nodes s !! n) [n1; n2], current_free_index a, max_free_index a)) =
  Ok ([Some 9; Some 4], 0, 5).
Proof. vm_compute. reflexivity. Qed.

