(* ===== verification/AprProc.v ===== *)
(** * Subprocesses of a pool: [src/apr/memory/unix/apr_pools.c], [free_proc_chain]

    When a pool is cleared or destroyed its subprocesses are picked up, killed or
    waited for. What the system answers is a parameter: it may depend on all that
    has been asked and done before. *)

From S2P Require Import Prelude.

(** ** Data *)

Inductive apr_kill_conditions_e := APR_KILL_NEVER | APR_KILL_ALWAYS | APR_KILL_AFTER_TIMEOUT | APR_JUST_WAIT | APR_KILL_ONLY_ONCE.

#[global] Instance kill_eq_dec : EqDecision apr_kill_conditions_e.
Proof. solve_decision. Defined.

(** [struct process_chain]: the process and its [kill_how]. *)
Record process_chain := mkProc { proc : Z; kill_how : apr_kill_conditions_e }.

Definition TIMEOUT_USECS : Z := 3000000.
Definition TIMEOUT_INTERVAL : Z := 46875.

Inductive signal := SIGTERM | SIGKILL.

(** Calls of the system: [apr_proc_wait] with [APR_NOWAIT], [apr_proc_kill],
    [apr_sleep], [apr_proc_wait] with [APR_WAIT]. *)
Inductive action := Wait_nowait (p : Z) | Kill (p : Z) (sig : signal) | Sleep (usecs : Z) | Wait (p : Z).

(** The answers, after the calls so far: is the child not done ([APR_CHILD_NOTDONE]),
    and has the signal been sent ([APR_SUCCESS]). *)
Class Procs := { not_done : list action -> Z -> bool; sent : list action -> Z -> bool }.

Section free_proc_chain.
Context `{Procs}.
Context (win32 : bool).

(** ** The loops *)

(** Pick up all defunct processes. *)
Fixpoint pick_up (h : list action) (procs : list process_chain) : list process_chain * list action :=
  match procs with
  | [] => ([], h)
  | pc :: rest =>
      let pc' := if not_done h (proc pc) then pc else mkProc (proc pc) APR_KILL_NEVER in
      let '(rest, h) := pick_up (h ++ [Wait_nowait (proc pc)]) rest in (pc' :: rest, h)
  end.

(** The signals, and [need_timeout]. *)
Fixpoint send_signals (h : list action) (procs : list process_chain) (need_timeout : bool) : list process_chain * list action * bool :=
  match procs with
  | [] => ([], h, need_timeout)
  | pc :: rest =>
      let '(pc', acts, need) :=
        if win32 then
          if decide (kill_how pc = APR_KILL_NEVER) then (pc, [], need_timeout)
          else (mkProc (proc pc) APR_KILL_ALWAYS, [Kill (proc pc) SIGKILL], true)
        else if decide (kill_how pc = APR_KILL_AFTER_TIMEOUT \/ kill_how pc = APR_KILL_ONLY_ONCE) then
          (pc, [Kill (proc pc) SIGTERM], if sent h (proc pc) then true else need_timeout)
        else if decide (kill_how pc = APR_KILL_ALWAYS) then (pc, [Kill (proc pc) SIGKILL], need_timeout)
        else (pc, [], need_timeout) in
      let '(rest, h, need) := send_signals (h ++ acts) rest need in (pc' :: rest, h, need)
  end.

(** Check the status of the subprocesses. *)
Fixpoint check_status (h : list action) (procs : list process_chain) (need_timeout : bool) : list process_chain * list action * bool :=
  match procs with
  | [] => ([], h, need_timeout)
  | pc :: rest =>
      if decide (kill_how pc = APR_KILL_AFTER_TIMEOUT) then
        let pc' := if not_done h (proc pc) then pc else mkProc (proc pc) APR_KILL_NEVER in
        let '(rest, h', need) := check_status (h ++ [Wait_nowait (proc pc)]) rest (if not_done h (proc pc) then true else need_timeout) in (pc' :: rest, h', need)
      else let '(rest, h, need) := check_status h rest need_timeout in (pc :: rest, h, need)
  end.

(** [do ... while (need_timeout)], with [timeout_interval]. *)
Fixpoint timeout_loop (fuel : nat) (h : list action) (procs : list process_chain) (interval : Z) : res (list process_chain * list action) :=
  match fuel with
  | O => Err OutOfFuel
  | S fuel =>
      let '(procs, h, need_timeout) := check_status h procs false in
      if need_timeout then
        if interval >=? TIMEOUT_USECS then Ok (procs, h) else timeout_loop fuel (h ++ [Sleep interval]) procs (interval * 2)
      else Ok (procs, h)
  end.

(** The interval doubles seven times. *)
Definition timeout_rounds : nat := 8.

Definition last_kills (procs : list process_chain) : list action :=
  flat_map (fun pc => if decide (kill_how pc = APR_KILL_AFTER_TIMEOUT) then [Kill (proc pc) SIGKILL] else []) procs.
Definition last_waits (procs : list process_chain) : list action :=
  flat_map (fun pc => if decide (kill_how pc = APR_KILL_NEVER) then [] else [Wait (proc pc)]) procs.

(** The calls, [h] being those before. *)
Definition free_proc_chain (h : list action) (procs : list process_chain) : res (list action) :=
  match procs with
  | [] => Ok h
  | _ =>
      let '(procs, h) := pick_up h procs in
      let '(procs, h, need_timeout) := send_signals h procs false in
      do (procs, h) <-
        (if need_timeout then timeout_loop timeout_rounds (h ++ [Sleep TIMEOUT_INTERVAL]) procs TIMEOUT_INTERVAL else Ok (procs, h));
      Ok (h ++ last_kills procs ++ last_waits procs)
  end.

(** ** What happens to a process *)

(** Microseconds spent asleep. *)
Fixpoint slept (acts : list action) : Z :=
  match acts with
  | [] => 0
  | Sleep t :: acts => t + slept acts
  | _ :: acts => slept acts
  end.

(** The process has been reported as done, [h] being the calls before [acts]. *)
Definition picked_up (h acts : list action) (p : Z) : Prop := exists a1 a2, acts = a1 ++ Wait_nowait p :: a2 /\ not_done (h ++ a1) p = false.

(** What the loops make of an entry: it stays, or it is done, or, on Windows, killed. *)
Definition fate (h acts : list action) (pc pc' : process_chain) : Prop :=
  proc pc' = proc pc /\
  (kill_how pc' = kill_how pc \/ kill_how pc' = APR_KILL_NEVER /\ picked_up h acts (proc pc) \/
   win32 = true /\ kill_how pc <> APR_KILL_NEVER /\ kill_how pc' = APR_KILL_ALWAYS /\ Kill (proc pc) SIGKILL ∈ acts).

(** A signal is for an entry that asks for one. *)
Definition signalled (procs : list process_chain) (acts : list action) : Prop :=
  forall p sig, Kill p sig ∈ acts -> exists pc, pc ∈ procs /\ proc pc = p /\ kill_how pc <> APR_KILL_NEVER /\ (win32 = false -> kill_how pc <> APR_JUST_WAIT).

Lemma slept_app a b : slept (a ++ b) = slept a + slept b.
Proof using Type. induction a as [|x a IH]; [done|]. cbn [app slept]. destruct x; lia. Qed.

Lemma picked_up_app h a b p : picked_up h a p \/ picked_up (h ++ a) b p -> picked_up h (a ++ b) p.
Proof using Type.
  intros [(a1 & a2 & -> & E)|(a1 & a2 & -> & E)]; [exists a1, (a2 ++ b)|exists (a ++ a1), a2]; rewrite <- !app_assoc; [done|]. split; [done|]. by rewrite app_assoc.
Qed.

Lemma fate_trans h a b x y z : fate h a x y -> fate (h ++ a) b y z -> fate h (a ++ b) x z.
Proof using Type.
  intros [E1 H1] [E2 H2]. split; [congruence|]. rewrite E1 in H2. destruct H2 as [H2|[[H2 H3]|(H2 & H3 & H4 & H5)]].
  - destruct H1 as [H1|[[H1 H3]|(H1 & H3 & H4 & H5)]]; [left; congruence|right; left; split; [congruence|apply picked_up_app; by left]|].
    right; right. split_and!; try done; [congruence|]. apply elem_of_app. by left.
  - right; left. split; [done|]. apply picked_up_app. by right.
  - destruct H1 as [H1|[[H1 _]|(H1 & H6 & H7 & H8)]]; [right; right; split_and!; try done; [congruence|apply elem_of_app; by right]|congruence|].
    right; right. split_and!; try done. apply elem_of_app. by left.
Qed.

Lemma fate_before h a b x y : fate (h ++ a) b x y -> fate h (a ++ b) x y.
Proof using Type. apply fate_trans. by split; [|left]. Qed.

Lemma fate_after h a b x y : fate h a x y -> fate h (a ++ b) x y.
Proof using Type. intros Hf. eapply fate_trans; [exact Hf|]. by split; [|left]. Qed.

Lemma fates_trans h a b X Y Z : Forall2 (fate h a) X Y -> Forall2 (fate (h ++ a) b) Y Z -> Forall2 (fate h (a ++ b)) X Z.
Proof using Type. intros H1. revert Z. induction H1 as [|x y X Y Hx _ IH]; intros Z H2; inversion H2; subst; constructor; [by eapply fate_trans|by apply IH]. Qed.

Lemma fates_before h a b X Y : Forall2 (fate (h ++ a) b) X Y -> Forall2 (fate h (a ++ b)) X Y.
Proof using Type. intros Hf. eapply Forall2_impl; [exact Hf|]. intros x y. apply fate_before. Qed.

(** Signals to what is left of the entries are for the entries. *)
Lemma signalled_from h a X Y acts : Forall2 (fate h a) X Y -> signalled Y acts -> signalled X acts.
Proof using Type.
  intros Hf Hs p sig Hin. destruct (Hs p sig Hin) as (y & Hy & Ep & Hn & Hj). apply list_elem_of_lookup in Hy as (i & Hi). destruct (Forall2_lookup_r _ _ _ _ _ Hf Hi) as (x & Hx & E & Hcase).
  exists x. split; [by eapply list_elem_of_lookup_2|]. split; [congruence|]. destruct Hcase as [<-|[[E' _]|(E1 & E2 & _)]]; [done|done|]. split; [done|congruence].
Qed.

Lemma signalled_app X a b : signalled X a -> signalled X b -> signalled X (a ++ b).
Proof using Type. intros Ha Hb p sig [Hin|Hin]%elem_of_app; [by apply (Ha p sig)|by apply (Hb p sig)]. Qed.

Lemma signalled_cons x X a : signalled X a -> signalled (x :: X) a.
Proof using Type. intros Hs p sig Hin. destruct (Hs p sig Hin) as (y & Hy & Hr). exists y. split; [by apply list_elem_of_further|done]. Qed.

(** ** The loops *)

Lemma pick_up_spec procs : forall h, exists procs' acts, pick_up h procs = (procs', h ++ acts) /\ Forall2 (fate h acts) procs procs' /\ slept acts = 0 /\ signalled procs acts.
Proof using Type.
  induction procs as [|pc procs IH]; intros h; cbn [pick_up]; [exists [], []; rewrite app_nil_r; split_and!; try done; by intros p sig ?%not_elem_of_nil|].
  destruct (IH (h ++ [Wait_nowait (proc pc)])) as (procs' & acts & -> & Hf & Hs & Hk). exists ((if not_done h (proc pc) then pc else mkProc (proc pc) APR_KILL_NEVER) :: procs'), (Wait_nowait (proc pc) :: acts).
  split; [by rewrite <- app_assoc|]. split; [|split; [done|]].
  - constructor; [|exact (fates_before h [Wait_nowait (proc pc)] acts procs procs' Hf)]. destruct (not_done h (proc pc)) eqn:E; [by split; [|left]|]. split; [done|]. right; left. split; [done|].
    exists [], acts. by rewrite app_nil_r.
  - intros p sig [|Hin]%elem_of_cons; [done|]. apply (signalled_cons pc procs acts Hk p sig Hin).
Qed.

Lemma send_signals_spec procs : forall h need, exists procs' acts need', send_signals h procs need = (procs', h ++ acts, need') /\ Forall2 (fate h acts) procs procs' /\ slept acts = 0 /\ signalled procs acts /\
  (forall pc, pc ∈ procs -> kill_how pc = APR_KILL_ALWAYS \/ win32 = true /\ kill_how pc <> APR_KILL_NEVER -> Kill (proc pc) SIGKILL ∈ acts) /\
  (forall pc, pc ∈ procs -> win32 = false -> kill_how pc = APR_KILL_AFTER_TIMEOUT \/ kill_how pc = APR_KILL_ONLY_ONCE -> Kill (proc pc) SIGTERM ∈ acts).
Proof using Type.
  induction procs as [|pc procs IH]; intros h need; cbn [send_signals].
  { exists [], [], need. rewrite app_nil_r. split_and!; try done; [by intros p sig ?%not_elem_of_nil|by intros pc ?%not_elem_of_nil|by intros pc ?%not_elem_of_nil]. }
  set (step := if win32 then _ else _).
  assert (Hstep : exists pc' acts1 need1, step = (pc', acts1, need1) /\ fate h acts1 pc pc' /\ slept acts1 = 0 /\ signalled [pc] acts1 /\
    (kill_how pc = APR_KILL_ALWAYS \/ win32 = true /\ kill_how pc <> APR_KILL_NEVER -> Kill (proc pc) SIGKILL ∈ acts1) /\
    (win32 = false -> kill_how pc = APR_KILL_AFTER_TIMEOUT \/ kill_how pc = APR_KILL_ONLY_ONCE -> Kill (proc pc) SIGTERM ∈ acts1)).
  { assert (Hone : forall sig, kill_how pc <> APR_KILL_NEVER -> (win32 = false -> kill_how pc <> APR_JUST_WAIT) -> signalled [pc] [Kill (proc pc) sig]).
    { intros sig Hn Hj p sg Hin%list_elem_of_singleton. injection Hin as -> ->. exists pc. split; [apply list_elem_of_here|done]. }
    assert (Hno : signalled [pc] []) by (by intros p sig ?%not_elem_of_nil). subst step. unfold fate. destruct win32.
    - destruct (decide _) as [E|E]; do 3 eexists; (split; [reflexivity|]); cbn [proc kill_how]; rewrite ?list_elem_of_singleton; split_and!; auto; try tauto; try (intros [|[]]; congruence); by intros ?.
    - destruct (decide (kill_how pc = APR_KILL_AFTER_TIMEOUT \/ _)) as [E|E]; [|destruct (decide _) as [E'|E']]; do 3 eexists; (split; [reflexivity|]); rewrite ?list_elem_of_singleton; split_and!; auto; try done.
      + apply Hone; destruct E; congruence.
      + intros [|[]]; [destruct E; congruence|done].
      + apply Hone; congruence.
      + intros [|[]]; [congruence|done]. }
  destruct Hstep as (pc' & acts1 & need1 & -> & F1 & S1 & K1 & A1 & W1). destruct (IH (h ++ acts1) need1) as (procs' & acts & need' & -> & Hf & Hs & Hk & Ha & Hw).
  exists (pc' :: procs'), (acts1 ++ acts), need'. split; [by rewrite <- app_assoc|]. split; [constructor; [by apply fate_after|by apply fates_before]|]. split; [rewrite slept_app; lia|]. split_and!.
  - apply signalled_app; [|by apply signalled_cons]. intros p sig Hin. destruct (K1 p sig Hin) as (y & ->%list_elem_of_singleton & Hr). exists pc. split; [apply list_elem_of_here|done].
  - intros y [-> |Hy]%elem_of_cons Hcase; apply elem_of_app; [left; by apply A1|right; by apply Ha].
  - intros y [-> |Hy]%elem_of_cons Hw32 Hcase; apply elem_of_app; [left; by apply W1|right; by apply Hw].
Qed.

Lemma check_status_spec procs : forall h need, exists procs' acts need', check_status h procs need = (procs', h ++ acts, need') /\ Forall2 (fate h acts) procs procs' /\ slept acts = 0 /\ signalled procs acts.
Proof using Type.
  induction procs as [|pc procs IH]; intros h need; cbn [check_status]; [exists [], [], need; rewrite app_nil_r; split_and!; try done; by intros p sig ?%not_elem_of_nil|].
  destruct (decide _) as [E|E].
  - set (need1 := if not_done h (proc pc) then true else need). destruct (IH (h ++ [Wait_nowait (proc pc)]) need1) as (procs' & acts & need' & -> & Hf & Hs & Hk).
    exists ((if not_done h (proc pc) then pc else mkProc (proc pc) APR_KILL_NEVER) :: procs'), (Wait_nowait (proc pc) :: acts), need'. split; [by rewrite <- app_assoc|]. split; [|split; [done|]].
    + constructor; [|exact (fates_before h [Wait_nowait (proc pc)] acts procs procs' Hf)]. destruct (not_done h (proc pc)) eqn:E'; [by split; [|left]|]. split; [done|]. right; left. split; [done|].
      exists [], acts. by rewrite app_nil_r.
    + intros p sig [|Hin]%elem_of_cons; [done|]. apply (signalled_cons pc procs acts Hk p sig Hin).
  - destruct (IH h need) as (procs' & acts & need' & -> & Hf & Hs & Hk). exists (pc :: procs'), acts, need'. split_and!; try done; [constructor; [by split; [|left]|done]|by apply signalled_cons].
Qed.

(** The intervals add up: what is left to sleep when the interval is [2 ^ k] times the first. *)
Lemma timeout_loop_spec fuel : forall k h procs, 0 <= k <= 6 -> 6 - k < Z.of_nat fuel ->
  exists procs' acts, timeout_loop fuel h procs (TIMEOUT_INTERVAL * 2 ^ k) = Ok (procs', h ++ acts) /\ Forall2 (fate h acts) procs procs' /\
    slept acts <= TIMEOUT_USECS - TIMEOUT_INTERVAL * 2 ^ k /\ signalled procs acts.
Proof using Type.
  induction fuel as [|fuel IH]; intros k h procs Hk Hf; [lia|]. cbn [timeout_loop]. destruct (check_status_spec procs h false) as (procs1 & acts1 & need & -> & F1 & S1 & K1).
  assert (Hle : TIMEOUT_INTERVAL * 2 ^ k <= TIMEOUT_USECS) by (unfold TIMEOUT_INTERVAL, TIMEOUT_USECS; pose proof (Z.pow_le_mono_r 2 k 6); lia).
  destruct need; [|exists procs1, acts1; split_and!; (done || lia)]. destruct (Z.geb_spec (TIMEOUT_INTERVAL * 2 ^ k) TIMEOUT_USECS) as [Hge|Hlt]; [exists procs1, acts1; split_and!; (done || lia)|].
  assert (Hk6 : k <> 6) by (intros ->; unfold TIMEOUT_INTERVAL, TIMEOUT_USECS in Hlt; lia). replace (TIMEOUT_INTERVAL * 2 ^ k * 2) with (TIMEOUT_INTERVAL * 2 ^ (k + 1)) by (rewrite Z.pow_add_r by lia; lia).
  destruct (IH (k + 1) ((h ++ acts1) ++ [Sleep (TIMEOUT_INTERVAL * 2 ^ k)]) procs1) as (procs2 & acts2 & -> & F2 & S2 & K2); [lia|lia|].
  exists procs2, (acts1 ++ Sleep (TIMEOUT_INTERVAL * 2 ^ k) :: acts2). split; [by rewrite <- !app_assoc|]. split; [|split].
  - eapply fates_trans; [exact F1|]. exact (fates_before (h ++ acts1) [Sleep _] acts2 procs1 procs2 F2).
  - rewrite slept_app. cbn [slept]. rewrite Z.pow_add_r in S2 by lia. lia.
  - apply signalled_app; [done|]. intros p sig [|Hin]%elem_of_cons; [done|]. exact (signalled_from _ _ _ _ _ F1 K2 p sig Hin).
Qed.

Lemma slept_last procs : slept (last_kills procs ++ last_waits procs) = 0.
Proof using Type.
  rewrite slept_app. unfold last_kills, last_waits. assert (slept (flat_map (fun pc => if decide (kill_how pc = APR_KILL_AFTER_TIMEOUT) then [Kill (proc pc) SIGKILL] else []) procs) = 0) as ->
    by (induction procs as [|pc procs IH]; [done|]; cbn [flat_map]; rewrite slept_app, IH; by destruct (decide _)).
  induction procs as [|pc procs IH]; [done|]; cbn [flat_map]; rewrite slept_app; destruct (decide _); cbn [slept]; lia.
Qed.

Lemma elem_of_last_kills pc procs : pc ∈ procs -> kill_how pc = APR_KILL_AFTER_TIMEOUT -> Kill (proc pc) SIGKILL ∈ last_kills procs.
Proof using Type. intros Hin E. apply list_elem_of_In, in_flat_map. exists pc. split; [by apply list_elem_of_In|]. rewrite decide_True by done. by left. Qed.

Lemma elem_of_last_waits pc procs : pc ∈ procs -> kill_how pc <> APR_KILL_NEVER -> Wait (proc pc) ∈ last_waits procs.
Proof using Type. intros Hin E. apply list_elem_of_In, in_flat_map. exists pc. split; [by apply list_elem_of_In|]. rewrite decide_False by done. by left. Qed.

Lemma signalled_last procs : signalled procs (last_kills procs ++ last_waits procs).
Proof using Type.
  apply signalled_app; intros p sig (pc & Hpc & Hin)%list_elem_of_In%in_flat_map; apply list_elem_of_In in Hpc.
  - destruct (decide _) as [E|]; [|done]. destruct Hin as [[= <- <-]|[]]. exists pc. split_and!; congruence.
  - destruct (decide _); [done|]. by destruct Hin as [|[]].
Qed.

(** ** The calls that block *)

Fixpoint blocking (acts : list action) : nat :=
  match acts with
  | [] => 0
  | Wait _ :: acts => S (blocking acts)
  | _ :: acts => blocking acts
  end.

Lemma blocking_app a b : blocking (a ++ b) = (blocking a + blocking b)%nat.
Proof using Type. induction a as [|x a IH]; [done|]. cbn [app blocking]. destruct x; lia. Qed.

Lemma blocking_none acts p : blocking acts = 0%nat -> Wait p ∉ acts.
Proof using Type.
  induction acts as [|x acts IH]; cbn [blocking]; [by intros _ ?%not_elem_of_nil|]. destruct x; try done; intros E [|Hin]%elem_of_cons; try done; by apply IH.
Qed.

Lemma pick_up_blocking procs : forall h, blocking (pick_up h procs).2 = blocking h.
Proof using Type.
  induction procs as [|pc procs IH]; intros h; cbn [pick_up]; [done|]. specialize (IH (h ++ [Wait_nowait (proc pc)])). destruct (pick_up _ procs) as [rest h']. cbn in *. rewrite IH, blocking_app. cbn. lia.
Qed.

Lemma send_signals_blocking procs : forall h need, blocking (send_signals h procs need).1.2 = blocking h.
Proof using Type.
  induction procs as [|pc procs IH]; intros h need; cbn [send_signals]; [done|]. destruct (if win32 then _ else _) as [[pc' acts] need1] eqn:E. specialize (IH (h ++ acts) need1).
  destruct (send_signals _ procs _) as [[rest h'] need']. cbn in *. rewrite IH, blocking_app. destruct win32; repeat destruct (decide _); injection E as <- <- <-; cbn; lia.
Qed.

Lemma check_status_blocking procs : forall h need, blocking (check_status h procs need).1.2 = blocking h.
Proof using Type.
  induction procs as [|pc procs IH]; intros h need; cbn [check_status]; [done|]. destruct (decide _).
  - specialize (IH (h ++ [Wait_nowait (proc pc)]) (if not_done h (proc pc) then true else need)). destruct (check_status _ procs _) as [[rest h'] need']. cbn in *. rewrite IH, blocking_app. cbn. lia.
  - specialize (IH h need). by destruct (check_status _ procs _) as [[rest h'] need'].
Qed.

Lemma timeout_loop_blocking fuel : forall h procs interval procs' h', timeout_loop fuel h procs interval = Ok (procs', h') -> blocking h' = blocking h.
Proof using Type.
  induction fuel as [|fuel IH]; intros h procs interval procs' h' E; cbn [timeout_loop] in E; [done|]. pose proof (check_status_blocking procs h false) as Hb. destruct (check_status h procs false) as [[procs1 h1] need]. cbn in Hb.
  destruct need; [|by injection E as _ <-]. destruct (_ >=? _); [by injection E as _ <-|]. apply IH in E. rewrite E, blocking_app. cbn. lia.
Qed.

(** What is done to a process that has not been reported as done: where the signals
    are, [acts] being the calls up to the end of the timeout and [kills] the signals
    after it. *)
Definition ended (acts kills : list action) (pc : process_chain) : Prop :=
  if win32 then Kill (proc pc) SIGKILL ∈ acts
  else match kill_how pc with
       | APR_KILL_ALWAYS => Kill (proc pc) SIGKILL ∈ acts
       | APR_KILL_AFTER_TIMEOUT => Kill (proc pc) SIGTERM ∈ acts /\ Kill (proc pc) SIGKILL ∈ kills
       | APR_KILL_ONLY_ONCE => Kill (proc pc) SIGTERM ∈ acts
       | APR_KILL_NEVER | APR_JUST_WAIT => True
       end.

(** The calls of the second half, given the entries after the first. *)
Lemma signals_and_timeouts h procs : exists procs' acts,
  (let '(procs, h, need_timeout) := send_signals h procs false in
   do (procs, h) <- (if need_timeout then timeout_loop timeout_rounds (h ++ [Sleep TIMEOUT_INTERVAL]) procs TIMEOUT_INTERVAL else Ok (procs, h));
   Ok (h ++ last_kills procs ++ last_waits procs)) = Ok (h ++ acts ++ last_kills procs' ++ last_waits procs') /\
  Forall2 (fate h acts) procs procs' /\ slept acts <= TIMEOUT_USECS /\ blocking acts = 0%nat /\ signalled procs acts /\
  (forall pc, pc ∈ procs -> kill_how pc = APR_KILL_ALWAYS \/ win32 = true /\ kill_how pc <> APR_KILL_NEVER -> Kill (proc pc) SIGKILL ∈ acts) /\
  (forall pc, pc ∈ procs -> win32 = false -> kill_how pc = APR_KILL_AFTER_TIMEOUT \/ kill_how pc = APR_KILL_ONLY_ONCE -> Kill (proc pc) SIGTERM ∈ acts).
Proof using Type.
  pose proof (send_signals_blocking procs h false) as B1. destruct (send_signals_spec procs h false) as (procs1 & acts1 & need & Es & F1 & S1 & K1 & A1 & T1). rewrite Es in *. cbn in B1. rewrite blocking_app in B1. destruct need.
  - destruct (timeout_loop_spec timeout_rounds 0 ((h ++ acts1) ++ [Sleep TIMEOUT_INTERVAL]) procs1) as (procs2 & acts2 & E & F2 & S2 & K2); [lia|unfold timeout_rounds; lia|].
    rewrite Z.mul_1_r in E. pose proof (timeout_loop_blocking _ _ _ _ _ _ E) as B2. rewrite !blocking_app in B2. rewrite E. cbn [rbind]. exists procs2, (acts1 ++ Sleep TIMEOUT_INTERVAL :: acts2). split; [by rewrite <- !app_assoc|]. split_and!.
    + eapply fates_trans; [exact F1|]. exact (fates_before (h ++ acts1) [Sleep _] acts2 procs1 procs2 F2).
    + rewrite slept_app. cbn [slept]. lia.
    + rewrite blocking_app. cbn [blocking] in *. lia.
    + apply signalled_app; [done|]. intros p sig [|Hin]%elem_of_cons; [done|]. exact (signalled_from _ _ _ _ _ F1 K2 p sig Hin).
    + intros pc Hpc Hcase. apply elem_of_app. left. by apply A1.
    + intros pc Hpc Hw Hcase. apply elem_of_app. left. by apply T1.
  - cbn [rbind]. exists procs1, acts1. rewrite <- app_assoc. split_and!; try done; [unfold TIMEOUT_USECS|]; lia.
Qed.

(** What becomes of an entry: done, or waited for after the signals due to it. *)
Lemma process_end h acts1 acts2 pc pc1 pc2 : kill_how pc <> APR_KILL_NEVER -> fate h acts1 pc pc1 -> fate (h ++ acts1) acts2 pc1 pc2 ->
  (kill_how pc1 = APR_KILL_ALWAYS \/ win32 = true /\ kill_how pc1 <> APR_KILL_NEVER -> Kill (proc pc1) SIGKILL ∈ acts2) ->
  (win32 = false -> kill_how pc1 = APR_KILL_AFTER_TIMEOUT \/ kill_how pc1 = APR_KILL_ONLY_ONCE -> Kill (proc pc1) SIGTERM ∈ acts2) ->
  picked_up h (acts1 ++ acts2) (proc pc) \/ proc pc2 = proc pc /\ kill_how pc2 <> APR_KILL_NEVER /\
    forall kills, (kill_how pc2 = APR_KILL_AFTER_TIMEOUT -> Kill (proc pc) SIGKILL ∈ kills) -> ended (acts1 ++ acts2) kills pc.
Proof using Type.
  intros Hn [E1 C1] [E2 C2] HK HT. rewrite E1 in E2, C2, HK, HT.
  destruct C1 as [C1|[[_ P1]|(W & _ & C1 & K1)]]; [|left; apply picked_up_app; by left|].
  - rewrite C1 in C2, HK, HT. destruct C2 as [C2|[[_ P2]|(W & _ & C2 & K2)]]; [|left; apply picked_up_app; by right|].
    + right. split; [done|]. split; [congruence|]. intros kills Hkl. rewrite C2 in Hkl. unfold ended. destruct win32; [apply elem_of_app; right; by apply HK; right|].
      destruct (kill_how pc); rewrite ?elem_of_app; auto 6.
    + right. split; [done|]. split; [congruence|]. intros kills _. unfold ended. rewrite W, elem_of_app. by right.
  - destruct C2 as [C2|[[_ P2]|(_ & _ & C2 & _)]]; [|left; apply picked_up_app; by right|]; (right; split; [done|]; split; [congruence|]; intros kills _; unfold ended; rewrite W, elem_of_app; by left).
Qed.

(** C19: The end of subprocesses. For every list of subprocesses and all answers of the
    system, [free_proc_chain] returns; its calls are, in this order, those that do not
    block, at most the three seconds of [TIMEOUT_USECS] asleep among them, then the
    [SIGKILL]s that come after the timeout, then the calls that wait. Each process not
    registered as [APR_KILL_NEVER] has been reported as done in the first part or is
    waited for in the last; and then, on Unix, it has got [SIGKILL] in the first part
    if it is to be killed always, [SIGTERM] there and [SIGKILL] after the timeout if it
    is to be killed after a timeout, [SIGTERM] if it is to be killed only once; on
    Windows, whatever its condition ([APR_JUST_WAIT] too), it has got [SIGKILL] in the
    first part. On Unix signals are sent only to processes registered for one. *)
Theorem subprocesses_freed h procs : exists acts kills waits, free_proc_chain h procs = Ok (h ++ acts ++ kills ++ waits) /\
  slept acts <= TIMEOUT_USECS /\ (forall p, Wait p ∉ acts) /\ (forall a, a ∈ kills -> exists p, a = Kill p SIGKILL) /\ (forall a, a ∈ waits -> exists p, a = Wait p) /\
  signalled procs (acts ++ kills) /\
  forall pc, pc ∈ procs -> kill_how pc <> APR_KILL_NEVER -> picked_up h acts (proc pc) \/ Wait (proc pc) ∈ waits /\ ended acts kills pc.
Proof using Type.
  destruct procs as [|pc0 rest].
  { exists [], [], []. rewrite !app_nil_r. split; [done|]. split; [by vm_compute|]. split_and!; intros ? ?%not_elem_of_nil || by intros ? ? ?%not_elem_of_nil. all: done. }
  unfold free_proc_chain. set (procs := pc0 :: rest). pose proof (pick_up_blocking procs h) as B1.
  destruct (pick_up_spec procs h) as (procs1 & acts1 & Ep & F1 & S1 & K1). rewrite Ep in *. cbn in B1. rewrite blocking_app in B1.
  destruct (signals_and_timeouts (h ++ acts1) procs1) as (procs2 & acts2 & -> & F2 & S2 & B2 & K2 & A2 & T2).
  exists (acts1 ++ acts2), (last_kills procs2), (last_waits procs2). pose proof (fates_trans _ _ _ _ _ _ F1 F2) as F. split; [by rewrite <- !app_assoc|].
  split; [rewrite slept_app; lia|]. split; [intros p; apply blocking_none; rewrite blocking_app; lia|]. split_and!.
  - intros a (pc & _ & Hin)%list_elem_of_In%in_flat_map. destruct (decide _); [|done]. destruct Hin as [<-|[]]. by eexists.
  - intros a (pc & _ & Hin)%list_elem_of_In%in_flat_map. destruct (decide _); [done|]. destruct Hin as [<-|[]]. by eexists.
  - apply signalled_app; [apply signalled_app; [done|exact (signalled_from _ _ _ _ _ F1 K2)]|]. eapply signalled_from; [exact F|]. intros p sig Hin. apply (signalled_last procs2 p sig), elem_of_app. by left.
  - intros pc Hpc Hn. apply list_elem_of_lookup in Hpc as (i & Hi). destruct (Forall2_lookup_l _ _ _ _ _ F1 Hi) as (pc1 & Hi1 & C1). destruct (Forall2_lookup_l _ _ _ _ _ F2 Hi1) as (pc2 & Hi2 & C2).
    apply list_elem_of_lookup_2 in Hi1, Hi2. destruct (process_end h acts1 acts2 pc pc1 pc2 Hn C1 C2 (A2 _ Hi1) (T2 _ Hi1)) as [Hp|(E & Hn2 & He)]; [by left|right].
    rewrite <- E at 1. split; [by apply elem_of_last_waits|]. apply He. intros Et. rewrite <- E. by apply elem_of_last_kills.
Qed.
End free_proc_chain.

(** ** Windows

    All processes that may be ended get [SIGKILL] at once, the ones to wait for too;
    the time to end comes after. *)
#[local] Instance busy : Procs := {| not_done _ _ := true; sent _ _ := true |}.

Example just_wait_windows : free_proc_chain true [] [mkProc 17 APR_JUST_WAIT] = Ok [Wait_nowait 17; Kill 17 SIGKILL; Sleep TIMEOUT_INTERVAL; Wait 17].
Proof. reflexivity. Qed.

(** Elsewhere the three seconds of the timeout are spent in seven sleeps. *)
Example timeout_unix : (do acts <- free_proc_chain false [] [mkProc 17 APR_KILL_AFTER_TIMEOUT]; Ok (slept acts, last acts)) = Ok (TIMEOUT_USECS, Some (Wait 17)).
Proof. reflexivity. Qed.
