(* ===== verification/AprPools.v ===== *)
(** * Memory pools: [src/apr/memory/unix/apr_pools.c], second part

    A pool takes nodes from an allocator and cuts blocks off the active one; its
    nodes form a ring, linked both ways, in which the nodes that are not active are
    ordered by the room they have left. Pools form trees: destroying a pool
    destroys the pools below it, and gives all nodes back. The structure of a pool
    is inside its first node; it is known by its address.

    Cleanup functions and the ending of subprocesses ([AprProc]) are events: they are
    recorded in order and do not call the pool functions themselves. The build is the one
    without [APR_POOL_DEBUG]. *)

From S2P Require Import Prelude AprProc AprAllocator.

(** ** Data *)

(** What the [ref] of a pool points to: [&parent->child] or [&pool->sibling]. *)
Inductive pool_link := ChildOf (p : Z) | SiblingOf (p : Z).

(** [cleanup_t], with its address. *)
Record cleanup_t := mkCleanup { c_at : Z; c_data : Z; plain_cleanup_fn : Z; child_cleanup_fn : option Z }.

(** [apr_pool_t]. The lists of cleanups and of subprocesses are lists. *)
Record pool_t := mkPool {
  parent : Z; child : Z; sibling : Z; pref : option pool_link;
  cleanups : list cleanup_t; free_cleanups : list Z; pool_allocator : Z; subprocesses : list process_chain;
  abort_fn : Z; user_data : Z; tag : Z; active : Z; self : Z; self_first_avail : Z; pre_cleanups : list cleanup_t }.

(** [sizeof(apr_pool_t)], [sizeof(cleanup_t)] and [sizeof(struct process_chain)] with
    64-bit pointers. *)
Definition SIZEOF_POOL_T : Z := APR_ALIGN_DEFAULT 120.
Definition SIZEOF_CLEANUP_T : Z := 32.
Definition SIZEOF_PROCESS_CHAIN : Z := 24.

Inductive event := Cleanup (fn data : Z) | Abort_called (fn : Z) | Free_proc_chain (procs : list process_chain).

Record pstate := mkP { mem : arena; pools : gmap Z pool_t; events : list event }.

Definition set_mem (m : arena) (s : pstate) : pstate := mkP m (pools s) (events s).
Definition emit_event (e : event) (s : pstate) : pstate := mkP (mem s) (pools s) (events s ++ [e]).
Definition get_pool (s : pstate) (p : Z) : res pool_t := of_option OutOfBounds (pools s !! p).
Definition upd_pool (s : pstate) (p : Z) (f : pool_t -> pool_t) : res pstate :=
  do P <- get_pool s p; Ok (mkP (mem s) (<[p := f P]> (pools s)) (events s)).

Definition with_active (v : Z) (P : pool_t) : pool_t :=
  mkPool (parent P) (child P) (sibling P) (pref P) (cleanups P) (free_cleanups P) (pool_allocator P) (subprocesses P) (abort_fn P) (user_data P) (tag P)
    v (self P) (self_first_avail P) (pre_cleanups P).
Definition with_child (v : Z) (P : pool_t) : pool_t :=
  mkPool (parent P) v (sibling P) (pref P) (cleanups P) (free_cleanups P) (pool_allocator P) (subprocesses P) (abort_fn P) (user_data P) (tag P)
    (active P) (self P) (self_first_avail P) (pre_cleanups P).
Definition with_sibling (v : Z) (P : pool_t) : pool_t :=
  mkPool (parent P) (child P) v (pref P) (cleanups P) (free_cleanups P) (pool_allocator P) (subprocesses P) (abort_fn P) (user_data P) (tag P)
    (active P) (self P) (self_first_avail P) (pre_cleanups P).
Definition with_pref (v : option pool_link) (P : pool_t) : pool_t :=
  mkPool (parent P) (child P) (sibling P) v (cleanups P) (free_cleanups P) (pool_allocator P) (subprocesses P) (abort_fn P) (user_data P) (tag P)
    (active P) (self P) (self_first_avail P) (pre_cleanups P).
Definition with_cleanups (c : list cleanup_t) (f : list Z) (pre : list cleanup_t) (P : pool_t) : pool_t :=
  mkPool (parent P) (child P) (sibling P) (pref P) c f (pool_allocator P) (subprocesses P) (abort_fn P) (user_data P) (tag P)
    (active P) (self P) (self_first_avail P) pre.

(** ** The ring of nodes *)

Definition ref_of (d : memnode) : res Z := of_option Uninitialised (ref d).

(** [list_insert(node, point)], before [point]. *)
Definition list_insert (s : arena) (node point : Z) : res arena :=
  do dp <- get_node s point; do r <- ref_of dp;
  do s <- upd_node s node (with_ref r);
  do s <- upd_node s r (with_next node);
  do s <- upd_node s node (with_next point);
  upd_node s point (with_ref node).

(** [list_remove(node)]. *)
Definition list_remove (s : arena) (node : Z) : res arena :=
  do d <- get_node s node; do r <- ref_of d;
  do s <- upd_node s r (with_next (next d));
  do d <- get_node s node; do r <- ref_of d;
  upd_node s (next d) (with_ref r).

(** [node_free_space(node_)]. *)
Definition node_free_space (d : memnode) : Z := u64 (endp d - first_avail d).

Definition free_index_of (d : memnode) : res Z := of_option Uninitialised (free_index d).

(** [do { node = node->next; } while (free_index < node->free_index)]. *)
Fixpoint find_place (fuel : nat) (s : arena) (fi node : Z) : res Z :=
  match fuel with
  | O => Err OutOfFuel
  | S fuel =>
      do d <- get_node s node;
      do d' <- get_node s (next d);
      do k <- free_index_of d';
      if fi <? k then find_place fuel s fi (next d) else Ok (next d)
  end.

(** The node that was active takes its place in the ring. *)
Definition settle (s : arena) (active : Z) : res arena :=
  do da <- get_node s active;
  let fi := u64 (Z.shiftr (APR_ALIGN (fun z => z) (endp da - first_avail da + 1) BOUNDARY_SIZE - BOUNDARY_SIZE) BOUNDARY_INDEX) in
  do s <- upd_node s active (with_free_index (u32 fi));
  do da <- get_node s active;
  do dn <- get_node s (next da); do k <- free_index_of dn;
  if fi >=? k then Ok s else
  do node <- find_place (fuel_nodes s) s fi (next da);
  do s <- list_remove s active;
  list_insert s active node.

Section operations.
Context `{Malloc}.

Definition call_abort (s : pstate) (P : pool_t) : pstate :=
  if abort_fn P =? NULL then s else emit_event (Abort_called (abort_fn P)) s.

(** ** apr_palloc *)

Definition apr_palloc (s : pstate) (pool in_size : Z) : res (Z * pstate) :=
  do P <- get_pool s pool;
  let size := APR_ALIGN_DEFAULT in_size in
  if size <? in_size then Ok (NULL, call_abort s P) else
  let act := active P in
  do da <- get_node (mem s) act;
  if size <=? node_free_space da then
    do m <- upd_node (mem s) act (with_first_avail (first_avail da + size));
    Ok (first_avail da, set_mem m s)
  else
    let node := next da in
    do dn <- get_node (mem s) node;
    do (node, m) <-
      (if size <=? node_free_space dn then do m <- list_remove (mem s) node; Ok (node, m)
       else allocator_alloc (mem s) (pool_allocator P) size);
    if node =? NULL then Ok (NULL, call_abort s P) else
    do m <- upd_node m node (with_free_index 0);
    do dn <- get_node m node;
    let block := first_avail dn in
    do m <- upd_node m node (with_first_avail (first_avail dn + size));
    do m <- list_insert m node act;
    do s <- upd_pool (set_mem m s) pool (with_active node);
    do m <- settle (mem s) act;
    Ok (block, set_mem m s).

(** ** Cleanups *)

(** [while (c) { *cref = c->next; ...; c = *cref; }]. *)
Fixpoint run_cleanups (cs : list cleanup_t) (s : pstate) : pstate :=
  match cs with
  | [] => s
  | c :: cs => run_cleanups cs (emit_event (Cleanup (plain_cleanup_fn c) (c_data c)) s)
  end.

(** A [cleanup_t] from the free list or from the pool, [NULL] when there is none. *)
Definition new_cleanup (s : pstate) (p : Z) : res (Z * pstate) :=
  do P <- get_pool s p;
  match free_cleanups P with
  | c :: rest => do s <- upd_pool s p (fun P => with_cleanups (cleanups P) rest (pre_cleanups P) P); Ok (c, s)
  | [] => apr_palloc s p SIZEOF_CLEANUP_T
  end.

Definition apr_pool_cleanup_register (s : pstate) (p data plain child_fn : Z) : res pstate :=
  if p =? NULL then Ok s else
  do (c, s) <- new_cleanup s p;
  if c =? NULL then Err OutOfBounds else
  upd_pool s p (fun P => with_cleanups (mkCleanup c data plain (Some child_fn) :: cleanups P) (free_cleanups P) (pre_cleanups P) P).

Definition apr_pool_pre_cleanup_register (s : pstate) (p data plain : Z) : res pstate :=
  if p =? NULL then Ok s else
  do (c, s) <- new_cleanup s p;
  if c =? NULL then Err OutOfBounds else
  upd_pool s p (fun P => with_cleanups (cleanups P) (free_cleanups P) (mkCleanup c data plain None :: pre_cleanups P) P).

(** The list without its first entry for [data] and [fn], and the entry. *)
Fixpoint kill_first (data fn : Z) (cs : list cleanup_t) : list cleanup_t * list Z :=
  match cs with
  | [] => ([], [])
  | c :: cs =>
      if (c_data c =? data) && (plain_cleanup_fn c =? fn) then (cs, [c_at c])
      else let (cs, freed) := kill_first data fn cs in (c :: cs, freed)
  end.

Definition apr_pool_cleanup_kill (s : pstate) (p data fn : Z) : res pstate :=
  if p =? NULL then Ok s else
  upd_pool s p (fun P =>
    let (cs, freed) := kill_first data fn (cleanups P) in
    let (pre, freed') := kill_first data fn (pre_cleanups P) in
    with_cleanups cs (freed' ++ freed ++ free_cleanups P) pre P).

Fixpoint set_child (data plain child_fn : Z) (cs : list cleanup_t) : list cleanup_t :=
  match cs with
  | [] => []
  | c :: cs =>
      if (c_data c =? data) && (plain_cleanup_fn c =? plain) then mkCleanup (c_at c) (c_data c) (plain_cleanup_fn c) (Some child_fn) :: cs
      else c :: set_child data plain child_fn cs
  end.

Definition apr_pool_child_cleanup_set (s : pstate) (p data plain child_fn : Z) : res pstate :=
  if p =? NULL then Ok s else
  upd_pool s p (fun P => with_cleanups (set_child data plain child_fn (cleanups P)) (free_cleanups P) (pre_cleanups P) P).

Definition apr_pool_cleanup_run (s : pstate) (p data fn : Z) : res pstate :=
  do s <- apr_pool_cleanup_kill s p data fn; Ok (emit_event (Cleanup fn data) s).

(** ** Destruction *)

Definition read_pool_link (s : pstate) (l : pool_link) : res Z :=
  match l with ChildOf p => do P <- get_pool s p; Ok (child P) | SiblingOf p => do P <- get_pool s p; Ok (sibling P) end.
Definition write_pool_link (s : pstate) (l : pool_link) (v : Z) : res pstate :=
  match l with ChildOf p => upd_pool s p (with_child v) | SiblingOf p => upd_pool s p (with_sibling v) end.

(** [*active->ref = NULL]. *)
Definition cut_ring (m : arena) (node : Z) : res arena :=
  do d <- get_node m node; do r <- ref_of d; upd_node m r (with_next NULL).

(** [while (pool->child) apr_pool_destroy(pool->child)]; [destroy] is the call. *)
Fixpoint destroy_children (fuel : nat) (destroy : pstate -> Z -> res pstate) (s : pstate) (pool : Z) : res pstate :=
  match fuel with
  | O => Err OutOfFuel
  | S fuel =>
      do P <- get_pool s pool;
      if child P =? NULL then Ok s else
      do s <- destroy s (child P); destroy_children fuel destroy s pool
  end.

(** The call of [free_proc_chain(procs)], which does nothing without processes. *)
Definition end_subprocesses (procs : list process_chain) (s : pstate) : pstate :=
  match procs with [] => s | _ => emit_event (Free_proc_chain procs) s end.

(** What [apr_pool_clear] and [apr_pool_destroy] begin with: pre-cleanups, the pools
    below, cleanups, subprocesses. *)
Definition run_down (destroy : pstate -> Z -> res pstate) (s : pstate) (pool : Z) : res pstate :=
  do P <- get_pool s pool;
  let s := run_cleanups (pre_cleanups P) s in
  do s <- upd_pool s pool (fun P => with_cleanups (cleanups P) (free_cleanups P) [] P);
  do s <- destroy_children (S (size (pools s))) destroy s pool;
  do P <- get_pool s pool;
  let s := run_cleanups (cleanups P) s in
  Ok (end_subprocesses (subprocesses P) s).

(** The pool leaves its parent's list. *)
Definition unlink_pool (s : pstate) (P : pool_t) : res pstate :=
  if parent P =? NULL then Ok s else
  do r <- of_option Uninitialised (pref P);
  do s <- write_pool_link s r (sibling P);
  if sibling P =? NULL then Ok s else upd_pool s (sibling P) (with_pref (Some r)).

(** The nodes go back to the allocator, which goes too when the pool is its owner. *)
Definition release_nodes (m : arena) (pool : Z) (P : pool_t) : res arena :=
  let al := pool_allocator P in
  do m <- cut_ring m (self P);
  do own <- apr_allocator_owner_get m al;
  do m <- (if own =? pool then apr_allocator_mutex_set m al NULL else Ok m);
  do m <- allocator_free m al (self P);
  do own <- apr_allocator_owner_get m al;
  if own =? pool then apr_allocator_destroy m al else Ok m.

Fixpoint apr_pool_destroy_ (depth : nat) (s : pstate) (pool : Z) : res pstate :=
  match depth with
  | O => Err OutOfFuel
  | S depth =>
      do s <- run_down (apr_pool_destroy_ depth) s pool;
      do P <- get_pool s pool;
      do s <- unlink_pool s P;
      do m <- release_nodes (mem s) pool P;
      Ok (mkP m (delete pool (pools s)) (events s))
  end.

(** A pool is not below itself: the number of pools bounds the depth. *)
Definition apr_pool_destroy (s : pstate) (pool : Z) : res pstate := apr_pool_destroy_ (S (size (pools s))) s pool.

(** The pool keeps its first node, as it was after its creation. *)
Definition reset_nodes (m : arena) (P : pool_t) : res arena :=
  let act := self P in
  do m <- upd_node m act (with_first_avail (self_first_avail P));
  do da <- get_node m act;
  if next da =? act then Ok m else
  do m <- cut_ring m act;
  do da <- get_node m act;
  do m <- allocator_free m (pool_allocator P) (next da);
  do m <- upd_node m act (with_next act);
  upd_node m act (with_ref act).

Definition apr_pool_clear (s : pstate) (pool : Z) : res pstate :=
  do s <- run_down (apr_pool_destroy_ (size (pools s))) s pool;
  do s <- upd_pool s pool (fun P =>
    mkPool (parent P) (child P) (sibling P) (pref P) [] [] (pool_allocator P) [] (abort_fn P) NULL (tag P) (self P) (self P) (self_first_avail P) (pre_cleanups P));
  do P <- get_pool s pool;
  do m <- reset_nodes (mem s) P; Ok (set_mem m s).

(** ** Creation *)

(** [node->next = node; node->ref = &node->next; pool = first_avail; ...]: the node
    becomes the first of a pool. *)
Definition pool_in_node (m : arena) (node : Z) : res (Z * Z * arena) :=
  do m <- upd_node m node (with_next node);
  do m <- upd_node m node (with_ref node);
  do d <- get_node m node;
  let pool := first_avail d in
  do m <- upd_node m node (with_first_avail (pool + SIZEOF_POOL_T));
  Ok (pool, pool + SIZEOF_POOL_T, m).

(** [global_pool] is the parent when none is given. *)
Definition apr_pool_create_ex (s : pstate) (global_pool par abortfn al : Z) : res (Z * pstate) :=
  let par := if par =? NULL then global_pool else par in
  do abortfn <- (if (abortfn =? NULL) && negb (par =? NULL) then do Q <- get_pool s par; Ok (abort_fn Q) else Ok abortfn);
  do al <- (if al =? NULL then do Q <- get_pool s par; Ok (pool_allocator Q) else Ok al);
  do (node, m) <- allocator_alloc (mem s) al (MIN_ALLOC - APR_MEMNODE_T_SIZE);
  if node =? NULL then Ok (NULL, if abortfn =? NULL then s else emit_event (Abort_called abortfn) s) else
  do (pool, avail, m) <- pool_in_node m node;
  let P := fun sib r => mkPool par NULL sib r [] [] al [] abortfn NULL NULL node node avail [] in
  if par =? NULL then Ok (pool, mkP m (<[pool := P NULL None]> (pools s)) (events s)) else
  do Q <- get_pool s par;
  let s := mkP m (<[pool := P (child Q) (Some (ChildOf par))]> (pools s)) (events s) in
  do s <- (if child Q =? NULL then Ok s else upd_pool s (child Q) (with_pref (Some (SiblingOf pool))));
  do s <- upd_pool s par (with_child pool);
  Ok (pool, s).

(** Without a parent; [initialized] is [apr_pools_initialized]. [APR_ENOPOOL] and
    [APR_ENOMEM] give [NULL]. *)
Definition apr_pool_create_unmanaged_ex (s : pstate) (initialized : bool) (abortfn al : Z) : res (Z * pstate) :=
  if negb initialized then Ok (NULL, s) else
  let abort := fun s => if abortfn =? NULL then s else emit_event (Abort_called abortfn) s in
  do (pal, m) <- (if al =? NULL then apr_allocator_create (mem s) else Ok (al, mem s));
  if pal =? NULL then Ok (NULL, abort s) else
  do (node, m) <- allocator_alloc m pal (MIN_ALLOC - APR_MEMNODE_T_SIZE);
  if node =? NULL then Ok (NULL, abort (set_mem m s)) else
  do (pool, avail, m) <- pool_in_node m node;
  do m <- (if al =? NULL then apr_allocator_owner_set m pal pool else Ok m);
  Ok (pool, mkP m (<[pool := mkPool NULL NULL NULL None [] [] pal [] abortfn NULL NULL node node avail []]> (pools s)) (events s)).

(** ** Ancestors *)

Fixpoint ancestor_loop (fuel : nat) (s : pstate) (a b : Z) : res bool :=
  match fuel with
  | O => Err OutOfFuel
  | S fuel => if b =? NULL then Ok false else if a =? b then Ok true else do B <- get_pool s b; ancestor_loop fuel s a (parent B)
  end.

Definition apr_pool_is_ancestor (s : pstate) (a b : Z) : res bool :=
  if a =? NULL then Ok true else ancestor_loop (S (size (pools s))) s a b.

Definition apr_pool_note_subprocess (s : pstate) (pool proc : Z) (how : apr_kill_conditions_e) : res pstate :=
  do (pc, s) <- apr_palloc s pool SIZEOF_PROCESS_CHAIN;
  if pc =? NULL then Err OutOfBounds else
  upd_pool s pool (fun P => mkPool (parent P) (child P) (sibling P) (pref P) (cleanups P) (free_cleanups P) (pool_allocator P) (mkProc proc how :: subprocesses P)
    (abort_fn P) (user_data P) (tag P) (active P) (self P) (self_first_avail P) (pre_cleanups P)).
End operations.
