(* ===== verification/AprRing.v ===== *)
(** * The ring of a pool's nodes: [src/apr/memory/unix/apr_pools.c]

    What [list_insert], [list_remove] and the placement of a retired node do to the
    ring, and the functional behaviour of [apr_palloc]. *)

From Stdlib Require Import Sorted.
From S2P Require Import Prelude AprAllocator AprFree AprPools.

(** ** Links *)

Definition nxt (h : gmap Z memnode) (n : Z) : option Z := next <$> h !! n.
Definition rf (h : gmap Z memnode) (n : Z) : option Z := h !! n ≫= ref.
Definition linked (h : gmap Z memnode) (x y : Z) : Prop := nxt h x = Some y /\ rf h y = Some x.

(** What is not a link. *)
Definition content (d : memnode) : Z * option Z * Z * Z := (index d, free_index d, first_avail d, endp d).
Definition same_content (h h' : gmap Z memnode) : Prop := forall n, content <$> h' !! n = content <$> h !! n.

(** From [x] through [L]. *)
Fixpoint seg (h : gmap Z memnode) (x : Z) (L : list Z) : Prop :=
  match L with
  | [] => True
  | y :: L => linked h x y /\ seg h y L
  end.

Definition last_of (x : Z) (L : list Z) : Z := default x (last L).
Definition head_of (x : Z) (L : list Z) : Z := match L with [] => x | y :: _ => y end.

(** The ring that starts at [a]. *)
Record ring (h : gmap Z memnode) (a : Z) (L : list Z) : Prop := {
  ring_seg : seg h a L;
  ring_closed : linked h (last_of a L) a;
  ring_nodup : NoDup (a :: L)
}.

Lemma last_of_cons x y L : last_of x (y :: L) = last_of y L.
Proof. unfold last_of. destruct L as [|z L]; [done|]. cbn [last]. revert z. induction L as [|w L IH]; intros z; [done|]. apply IH. Qed.

Lemma last_of_app x L1 L2 : last_of x (L1 ++ L2) = last_of (last_of x L1) L2.
Proof. revert x. induction L1 as [|y L1 IH]; intros x; [done|]. cbn [app]. rewrite !last_of_cons. apply IH. Qed.

Lemma last_of_elem x L : last_of x L ∈ x :: L.
Proof. revert x. induction L as [|y L IH]; intros x; [apply list_elem_of_here|]. rewrite last_of_cons. apply list_elem_of_further, IH. Qed.

Lemma seg_app h x L1 L2 : seg h x (L1 ++ L2) <-> seg h x L1 /\ seg h (last_of x L1) L2.
Proof. revert x. induction L1 as [|y L1 IH]; intros x; cbn [app seg]; [tauto|]. rewrite last_of_cons, IH. tauto. Qed.

Lemma seg_frame h h' x L : NoDup (x :: L) -> (forall z, z ∈ x :: L -> z <> last_of x L -> nxt h' z = nxt h z) -> (forall z, z ∈ L -> rf h' z = rf h z) ->
  seg h x L -> seg h' x L.
Proof.
  revert x. induction L as [|y L IH]; intros x Hnd Hn Hr; cbn [seg]; [done|]. intros [[H1 H2] Hs]. apply NoDup_cons in Hnd as [Hx Hnd].
  rewrite last_of_cons in Hn. split.
  - split; [rewrite Hn; [done|apply list_elem_of_here|]|rewrite Hr; [done|apply list_elem_of_here]]. intros E. apply Hx. rewrite E. apply last_of_elem.
  - apply IH; [done| | |done]; [intros z Hz; apply Hn; by apply list_elem_of_further|intros z Hz; apply Hr; by apply list_elem_of_further].
Qed.

Lemma linked_lookup h x y : linked h x y -> is_Some (h !! x) /\ is_Some (h !! y).
Proof.
  intros [Hx Hy]. unfold nxt in Hx. unfold rf in Hy. split; [by destruct (h !! x); [eexists|]|by destruct (h !! y); [eexists|]].
Qed.

Lemma ring_lookup h a L n : ring h a L -> n ∈ a :: L -> is_Some (h !! n).
Proof.
  intros [Hs Hc _] Hn. assert (forall x, seg h x L -> n ∈ L -> is_Some (h !! n)) as Hin.
  { clear. induction L as [|y L IH]; intros x; cbn [seg]; [by intros _ ?%not_elem_of_nil|]. intros [Hl Hs] [-> |Hn]%elem_of_cons; [by apply (linked_lookup h x y)|by eapply IH]. }
  apply elem_of_cons in Hn as [-> |Hn]; [by apply (linked_lookup h _ a Hc)|by eapply Hin].
Qed.

(** The same ring from the node before. *)
Lemma ring_rotate h a L n : ring h a (L ++ [n]) -> ring h n (a :: L).
Proof.
  intros [Hs Hc Hnd]. apply seg_app in Hs as [Hs [Hl _]]. rewrite last_of_app in Hc. constructor.
  - split; [exact Hc|exact Hs].
  - rewrite last_of_cons. exact Hl.
  - rewrite Permutation_cons_append. exact Hnd.
Qed.

Lemma ring_from_next h a n L : ring h n (a :: L) -> ring h a (L ++ [n]).
Proof.
  intros [[Hl Hs] Hc Hnd]. rewrite last_of_cons in Hc. constructor.
  - apply seg_app. split; [done|]. by split.
  - rewrite last_of_app. exact Hl.
  - rewrite (Permutation_cons_append (a :: L) n) in Hnd. exact Hnd.
Qed.

(** ** list_insert and list_remove *)

Lemma upd_node_ok s n d f : nodes s !! n = Some d -> upd_node s n f = Ok (mkArena (<[n := f d]> (nodes s)) (allocators s)).
Proof. intros Hd. unfold upd_node, get_node. by rewrite Hd. Qed.

Lemma same_content_refl h : same_content h h.
Proof. by intros n. Qed.

Lemma same_content_trans h1 h2 h3 : same_content h1 h2 -> same_content h2 h3 -> same_content h1 h3.
Proof. intros H1 H2 n. by rewrite H2. Qed.

Lemma same_content_insert h n d d' : h !! n = Some d -> content d' = content d -> same_content h (<[n := d']> h).
Proof. intros Hd Hc m. destruct (decide (m = n)) as [->|Hm]; [rewrite lookup_insert_eq, Hd; cbn; by rewrite Hc|by rewrite lookup_insert_ne]. Qed.

Lemma nxt_insert h n d m : nxt (<[n := d]> h) m = if decide (m = n) then Some (next d) else nxt h m.
Proof. unfold nxt. case_decide as E; [by rewrite E, lookup_insert_eq|by rewrite lookup_insert_ne]. Qed.

Lemma rf_insert h n d m : rf (<[n := d]> h) m = if decide (m = n) then ref d else rf h m.
Proof. unfold rf. case_decide as E; [by rewrite E, lookup_insert_eq|by rewrite lookup_insert_ne]. Qed.

(** The links after [list_insert(node, y)] when [r] was before [y]. *)
Record inserted (h h' : gmap Z memnode) (r node y : Z) : Prop := {
  ins_before : linked h' r node;
  ins_after : linked h' node y;
  ins_nxt z : z <> r -> z <> node -> nxt h' z = nxt h z;
  ins_rf z : z <> y -> z <> node -> rf h' z = rf h z;
  ins_other z : z <> r -> z <> y -> z <> node -> h' !! z = h !! z;
  ins_content : same_content h h'
}.

Lemma list_insert_spec s r node y : linked (nodes s) r y -> is_Some (nodes s !! node) -> node <> r -> node <> y ->
  exists h', list_insert s node y = Ok (mkArena h' (allocators s)) /\ inserted (nodes s) h' r node y.
Proof.
  intros Hl [dn Hn] Hr Hy. pose proof Hl as [Hnx Hrf]. destruct (linked_lookup _ _ _ Hl) as [[dr Hdr] [dy Hdy]]. unfold nxt in Hnx. rewrite Hdr in Hnx. unfold rf in Hrf. rewrite Hdy in Hrf. cbn in Hnx, Hrf.
  unfold list_insert, get_node. rewrite Hdy. cbn [of_option rbind]. unfold ref_of. rewrite Hrf. cbn [of_option rbind].
  rewrite (upd_node_ok s node dn) by done. cbn [rbind].
  rewrite (upd_node_ok _ r dr) by (cbn [nodes]; by rewrite lookup_insert_ne). cbn [rbind nodes allocators].
  rewrite (upd_node_ok _ node (with_ref r dn)) by (cbn [nodes]; rewrite lookup_insert_ne, lookup_insert_eq; done). cbn [rbind nodes allocators].
  assert (Hlast : exists dy', (<[node := with_next y (with_ref r dn)]> (<[r := with_next node dr]> (<[node := with_ref r dn]> (nodes s)))) !! y = Some dy' /\ next dy' = (if decide (y = r) then node else next dy)).
  { rewrite lookup_insert_ne by done. destruct (decide (y = r)) as [->|Hyr].
    - exists (with_next node dr). by rewrite lookup_insert_eq.
    - exists dy. rewrite !lookup_insert_ne by done. done. }
  destruct Hlast as (dy' & Hdy' & Hnext). rewrite (upd_node_ok _ y dy') by done. cbn [nodes allocators].
  eexists. split; [reflexivity|]. constructor.
  - unfold linked. rewrite !nxt_insert, !rf_insert. repeat case_decide; subst; try done; cbn; simplify_eq; try done; try tauto.
  - unfold linked. rewrite !nxt_insert, !rf_insert. repeat case_decide; subst; try done; cbn; simplify_eq; try done; try tauto.
  - intros z Hz1 Hz2. rewrite !nxt_insert. repeat case_decide; subst; try done; try tauto. cbn. rewrite Hnext. unfold nxt. by rewrite Hdy.
  - intros z Hz1 Hz2. rewrite !rf_insert. repeat case_decide; subst; try done; try tauto. cbn. unfold rf. by rewrite Hdr.
  - intros z Hz1 Hz2 Hz3. by rewrite !lookup_insert_ne.
  - eapply same_content_trans; [eapply (same_content_insert _ node dn (with_ref r dn)); done|].
    eapply same_content_trans; [eapply (same_content_insert _ r dr (with_next node dr)); [by rewrite lookup_insert_ne|done]|].
    eapply same_content_trans; [eapply (same_content_insert _ node (with_ref r dn) (with_next y (with_ref r dn))); [by rewrite lookup_insert_ne, lookup_insert_eq|done]|].
    by eapply same_content_insert; [exact Hdy'|].
Qed.

(** [list_insert] in a ring, before the node that follows [L1]. *)
Lemma ring_inserted h h' a L1 L2 node : ring h a (L1 ++ L2) -> node ∉ a :: L1 ++ L2 ->
  inserted h h' (last_of a L1) node (head_of a L2) -> ring h' a (L1 ++ node :: L2).
Proof.
  intros [Hs Hc Hnd] Hnode Hins. apply seg_app in Hs as [Hs1 Hs2]. rewrite last_of_app in Hc. set (r := last_of a L1) in *.
  assert (Hr : r ∈ a :: L1) by apply last_of_elem.
  assert (Hin : forall z, z ∈ a :: L1 -> z ∉ L2 /\ z <> node).
  { intros z Hz. split; [|intros ->; apply Hnode; rewrite app_comm_cons, elem_of_app; by left]. intros Hz2. rewrite app_comm_cons in Hnd. apply NoDup_app in Hnd as (_ & Hnd & _). by apply (Hnd z). }
  assert (Hin2 : forall z, z ∈ L2 -> z <> node /\ z <> r).
  { intros z Hz. split; [intros ->; apply Hnode, list_elem_of_further, elem_of_app; by right|]. intros ->. by destruct (Hin r Hr) as [? _]. }
  assert (Hnd1 : NoDup (a :: L1)) by (rewrite app_comm_cons in Hnd; by apply NoDup_app in Hnd as (? & _)).
  assert (Hnd2 : NoDup L2) by (rewrite app_comm_cons in Hnd; by apply NoDup_app in Hnd as (_ & _ & ?)).
  assert (Hhead : forall z, z ∈ L1 -> z <> head_of a L2).
  { intros z Hz. destruct L2 as [|y L2]; cbn; [intros ->; by apply NoDup_cons in Hnd1 as [? _]|]. intros ->. destruct (Hin y) as [Hy _]; [by apply list_elem_of_further|]. apply Hy, list_elem_of_here. }
  constructor.
  - apply seg_app. fold r. split; [|split; [apply (ins_before _ _ _ _ _ Hins)|]].
    + eapply seg_frame; [done| | |exact Hs1].
      * intros z Hz Hz'. apply (ins_nxt _ _ _ _ _ Hins); [done|by apply Hin].
      * intros z Hz. apply (ins_rf _ _ _ _ _ Hins); [by apply Hhead|]. apply Hin. by apply list_elem_of_further.
    + destruct L2 as [|y L2]; [done|]. destruct Hs2 as [_ Hs2]. split; [apply (ins_after _ _ _ _ _ Hins)|]. eapply seg_frame; [done| | |exact Hs2].
      * intros z Hz _. apply (ins_nxt _ _ _ _ _ Hins); by apply Hin2.
      * intros z Hz. apply NoDup_cons in Hnd2 as [Hy _]. apply (ins_rf _ _ _ _ _ Hins); [cbn; by intros ->|apply Hin2; by apply list_elem_of_further].
  - rewrite last_of_app, last_of_cons. fold r. destruct L2 as [|y L2]; [apply (ins_after _ _ _ _ _ Hins)|]. rewrite last_of_cons in *.
    pose proof (last_of_elem y L2) as Hl. destruct Hc as [Hc1 Hc2]. split.
    + rewrite (ins_nxt _ _ _ _ _ Hins); [done|by apply Hin2..].
    + destruct (Hin a ltac:(apply list_elem_of_here)) as [Ha1 Ha2]. rewrite (ins_rf _ _ _ _ _ Hins); [done| |done]. cbn. intros ->. apply Ha1, list_elem_of_here.
  - rewrite <- Permutation_middle. rewrite (Permutation_swap node a). apply NoDup_cons. split; [exact Hnode|exact Hnd].
Qed.

(** The links after [list_remove(n)] when [a] was before [n] and [y] after it. *)
Record removed (h h' : gmap Z memnode) (a n y : Z) : Prop := {
  rem_link : linked h' a y;
  rem_nxt z : z <> a -> nxt h' z = nxt h z;
  rem_rf z : z <> y -> rf h' z = rf h z;
  rem_other z : z <> a -> z <> y -> h' !! z = h !! z;
  rem_content : same_content h h'
}.

Lemma list_remove_spec s a n y : linked (nodes s) a n -> linked (nodes s) n y -> n <> a -> n <> y ->
  exists h', list_remove s n = Ok (mkArena h' (allocators s)) /\ removed (nodes s) h' a n y.
Proof.
  intros Hl1 Hl2 Hna Hny. destruct (linked_lookup _ _ _ Hl1) as [[da Hda] [dn Hdn]]. destruct (linked_lookup _ _ _ Hl2) as [_ [dy Hdy]].
  destruct Hl1 as [Hnx1 Hrf1], Hl2 as [Hnx2 Hrf2]. unfold nxt in Hnx1, Hnx2. unfold rf in Hrf1, Hrf2. rewrite Hda in Hnx1. rewrite Hdn in Hnx2, Hrf1. rewrite Hdy in Hrf2. cbn in *.
  injection Hnx2 as Hnx2. unfold list_remove, get_node. rewrite Hdn. cbn [of_option rbind]. unfold ref_of. rewrite Hrf1. cbn [of_option rbind].
  rewrite (upd_node_ok s a da) by done. cbn [rbind nodes allocators]. rewrite lookup_insert_ne by done. rewrite Hdn. cbn [of_option rbind]. rewrite Hrf1, Hnx2. cbn [of_option rbind].
  assert (Hlast : exists dy', <[a := with_next y da]> (nodes s) !! y = Some dy' /\ next dy' = (if decide (y = a) then y else next dy)).
  { destruct (decide (y = a)) as [->|Hya]; [exists (with_next a da); by rewrite lookup_insert_eq|exists dy; by rewrite lookup_insert_ne]. }
  destruct Hlast as (dy' & Hdy' & Hnext). rewrite (upd_node_ok _ y dy') by done. cbn [nodes allocators]. eexists. split; [reflexivity|]. constructor.
  - unfold linked. rewrite !nxt_insert, !rf_insert. repeat case_decide; subst; try done; try tauto. cbn. by rewrite Hnext.
  - intros z Hz. rewrite !nxt_insert. repeat case_decide; subst; try done; try tauto. cbn. rewrite Hnext. unfold nxt. by rewrite Hdy.
  - intros z Hz. rewrite !rf_insert. repeat case_decide; subst; try done; try tauto. cbn. unfold rf. by rewrite Hda.
  - intros z Hz1 Hz2. by rewrite !lookup_insert_ne.
  - eapply same_content_trans; [by eapply (same_content_insert _ a da (with_next y da))|]. by eapply same_content_insert; [exact Hdy'|].
Qed.

(** [list_remove] of the node after the first of a ring. *)
Lemma ring_removed h h' a n L : ring h a (n :: L) -> removed h h' a n (head_of a L) -> ring h' a L.
Proof.
  intros [[Hl Hs] Hc Hnd] Hrem. rewrite last_of_cons in Hc. apply NoDup_cons in Hnd as [Ha Hnd]. apply NoDup_cons in Hnd as [Hn HndL]. rewrite elem_of_cons in Ha.
  constructor.
  - destruct L as [|y L]; [done|]. destruct Hs as [_ Hs]. split; [apply (rem_link _ _ _ _ _ Hrem)|]. apply NoDup_cons in HndL as [Hy HndL]. rewrite elem_of_cons in Ha.
    eapply seg_frame; [by apply NoDup_cons| | |exact Hs].
    + intros z Hz _. apply (rem_nxt _ _ _ _ _ Hrem). intros ->. apply elem_of_cons in Hz. tauto.
    + intros z Hz. apply (rem_rf _ _ _ _ _ Hrem). cbn. by intros ->.
  - destruct L as [|y L]; [apply (rem_link _ _ _ _ _ Hrem)|]. rewrite last_of_cons in *. pose proof (last_of_elem y L) as Hl'. destruct Hc as [Hc1 Hc2]. split.
    + rewrite (rem_nxt _ _ _ _ _ Hrem); [done|]. intros E. rewrite E in Hl'. tauto.
    + rewrite (rem_rf _ _ _ _ _ Hrem); [done|]. cbn. intros ->. apply Ha. right. apply list_elem_of_here.
  - apply NoDup_cons. tauto.
Qed.

(** ** The place of a retired node *)

(** Whole pages that are free in a node, what [free_index] records. *)
Definition pages (d : memnode) : Z := (endp d - first_avail d) / BOUNDARY_SIZE.

Definition key (h : gmap Z memnode) (n : Z) : option Z := h !! n ≫= free_index.
Definition keyed (h : gmap Z memnode) : list Z -> list Z -> Prop := Forall2 (fun n k => key h n = Some k).

(** The order of the ring: the fullest nodes last. *)
Definition descending : list Z -> Prop := StronglySorted Z.ge.

Lemma fi_pages n d : wf_node n d ->
  let fi := u64 (Z.shiftr (APR_ALIGN (fun z => z) (endp d - first_avail d + 1) BOUNDARY_SIZE - BOUNDARY_SIZE) BOUNDARY_INDEX) in
  fi = pages d /\ u32 fi = pages d /\ 0 <= pages d.
Proof.
  intros (_ & _ & Hi & He & _ & Ha & _). cbv zeta. unfold pages. change BOUNDARY_SIZE with (2 ^ 12) in *. rewrite align_spec by lia.
  rewrite Z.shiftr_div_pow2 by lia. set (sp := endp d - first_avail d). assert (Hsp : 0 <= sp < 2 ^ 44) by (unfold sp; rewrite header_size in Ha; lia). clearbody sp.
  replace ((2 ^ 12 * ((sp + 1 + (2 ^ 12 - 1)) / 2 ^ 12) - 2 ^ 12) / 2 ^ 12) with (sp / 2 ^ 12) by (Z.div_mod_to_equations; lia).
  unfold u64, u32. rewrite !Z.mod_small; Z.div_mod_to_equations; lia.
Qed.

Lemma nodup_in_heap {A} (h : gmap Z A) L : NoDup L -> (forall n, n ∈ L -> is_Some (h !! n)) -> (length L <= size h)%nat.
Proof.
  intros Hnd Hin. rewrite <- (size_dom (D := gset Z)). rewrite <- (size_list_to_set (C := gset Z)) by done. apply subseteq_size.
  intros n Hn%elem_of_list_to_set. apply elem_of_dom. by apply Hin.
Qed.

Lemma key_lookup h n k : key h n = Some k -> exists d, h !! n = Some d /\ free_index d = Some k.
Proof. unfold key. destruct (h !! n) as [d|]; [|done]. cbn. intros Hk. by exists d. Qed.

Lemma find_place_spec s act fi R : forall fuel node ks,
  seg (nodes s) node R -> linked (nodes s) (last_of node R) act -> key (nodes s) act = Some 0 -> keyed (nodes s) R ks -> 0 <= fi -> (length R < fuel)%nat ->
  exists R1 R2 ks1 ks2, R = R1 ++ R2 /\ ks = ks1 ++ ks2 /\ length R1 = length ks1 /\ find_place fuel s fi node = Ok (head_of act R2) /\
    Forall (fun k => fi < k) ks1 /\ match ks2 with [] => True | k :: _ => k <= fi end.
Proof.
  induction R as [|y R IH]; intros fuel node ks Hs Hc Hact Hk Hfi Hf; (destruct fuel as [|fuel]; [cbn in Hf; lia|]); cbn [find_place]; unfold get_node.
  - apply Forall2_nil_inv_l in Hk as ->. destruct Hc as [Hn _]. cbn in Hn. unfold nxt in Hn. destruct (nodes s !! node) as [d|]; [|done]. cbn in Hn. injection Hn as Hn. cbn [of_option rbind]. rewrite Hn.
    destruct (key_lookup _ _ _ Hact) as (da & Hda & Hka). rewrite Hda. cbn [of_option rbind]. unfold free_index_of. rewrite Hka. cbn [of_option rbind].
    replace (fi <? 0) with false by lia. by exists [], [], [], [].
  - destruct Hs as [[Hn _] Hs]. rewrite last_of_cons in Hc. unfold nxt in Hn. destruct (nodes s !! node) as [d|]; [|done]. cbn in Hn. injection Hn as Hn. cbn [of_option rbind]. rewrite Hn.
    apply Forall2_cons_inv_l in Hk as (k & ks' & Hky & Hk & ->). destruct (key_lookup _ _ _ Hky) as (dy & Hdy & Hkd). rewrite Hdy. cbn [of_option rbind].
    unfold free_index_of. rewrite Hkd. cbn [of_option rbind length] in *. destruct (Z.ltb_spec fi k) as [Hlt|Hge].
    + destruct (IH fuel y ks' Hs Hc Hact Hk Hfi ltac:(lia)) as (R1 & R2 & ks1 & ks2 & -> & -> & Hl & -> & Hgt & Hle).
      exists (y :: R1), R2, (k :: ks1), ks2. split; [done|]. split; [done|]. split; [cbn; lia|]. split; [done|]. split; [by constructor|done].
    + by exists [], (y :: R), [], (k :: ks').
Qed.

Lemma descending_insert ks1 k ks2 : descending (ks1 ++ ks2) -> Forall (fun x => k < x) ks1 -> match ks2 with [] => True | x :: _ => x <= k end -> descending (ks1 ++ k :: ks2).
Proof.
  unfold descending. induction ks1 as [|x ks1 IH]; cbn [app]; intros Hs Hgt Hle.
  - constructor; [done|]. destruct ks2 as [|y ks2]; constructor; [lia|]. apply StronglySorted_inv in Hs as [_ Hs]. eapply Forall_impl; [exact Hs|]. cbn. lia.
  - apply StronglySorted_inv in Hs as [Hs Hx]. apply Forall_cons_1 in Hgt as [Hxk Hgt]. constructor; [by apply IH|].
    apply Forall_app in Hx as [Hx1 Hx2]. apply Forall_app. split; [done|]. constructor; [lia|done].
Qed.

Lemma same_content_key h h' n : same_content h h' -> key h' n = key h n.
Proof.
  intros Hs. specialize (Hs n). unfold key. destruct (h !! n), (h' !! n); cbn in *; try done. by injection Hs as _ -> _ _.
Qed.

Lemma ring_same_links h h' a L : (forall z, nxt h' z = nxt h z) -> (forall z, rf h' z = rf h z) -> ring h a L -> ring h' a L.
Proof.
  intros Hn Hr [Hs Hc Hnd]. constructor; [|unfold linked; by rewrite Hn, Hr|done]. eapply seg_frame; [done|intros; apply Hn|intros; apply Hr|done].
Qed.

Lemma ring_next h a L : ring h a L -> linked h a (head_of a L).
Proof. intros [Hs Hc _]. destruct L as [|y L]; [exact Hc|]. by destruct Hs. Qed.

Lemma ring_second h a n L : ring h a (n :: L) -> linked h n (head_of a L).
Proof. intros [[_ Hs] Hc _]. rewrite last_of_cons in Hc. destruct L as [|y L]; [exact Hc|]. by destruct Hs. Qed.

Lemma keyed_content h h' L ks : same_content h h' -> keyed h L ks -> keyed h' L ks.
Proof. intros Hs. unfold keyed. intros Hk. eapply Forall2_impl; [exact Hk|]. cbn. intros n k. by rewrite (same_content_key h h'). Qed.

Lemma keyed_insert h n d L ks : n ∉ L -> keyed h L ks -> keyed (<[n := d]> h) L ks.
Proof.
  unfold keyed. intros Hn Hk. induction Hk as [|m k L ks Hm Hk IH]; [constructor|]. rewrite elem_of_cons in Hn. constructor; [|apply IH; tauto].
  unfold key in *. by rewrite lookup_insert_ne by (intros ->; tauto).
Qed.

(** Moving the node that follows the active one to another place of the ring. *)
Lemma move_spec s act a L1 L2 : L1 <> [] -> ring (nodes s) act (a :: L1 ++ L2) ->
  exists h', (do s <- list_remove s a; list_insert s a (head_of act L2)) = Ok (mkArena h' (allocators s)) /\ ring h' act (L1 ++ a :: L2) /\
    same_content (nodes s) h' /\ forall z, z ∉ act :: a :: L1 ++ L2 -> h' !! z = nodes s !! z.
Proof.
  intros HL1 Hring. pose proof (ring_next _ _ _ Hring) as Hl1. pose proof (ring_second _ _ _ _ Hring) as Hl2. pose proof (ring_nodup _ _ _ Hring) as Hnd.
  cbn [head_of] in Hl1. apply NoDup_cons in Hnd as [Hact Hnd]. apply NoDup_cons in Hnd as [Ha Hnd].
  assert (Hhd : head_of act (L1 ++ L2) ∈ L1 ++ L2) by (destruct L1; [done|apply list_elem_of_here]). rewrite elem_of_cons in Hact.
  destruct (list_remove_spec s act a (head_of act (L1 ++ L2)) Hl1 Hl2) as (h1 & -> & Hrem); [by intros ->; tauto|by intros E; rewrite <- E in Hhd|]. cbn [rbind].
  pose proof (ring_removed _ _ _ _ _ Hring Hrem) as Hring1.
  assert (Hlink : linked h1 (last_of act L1) (head_of act L2)).
  { pose proof Hring1 as [Hs Hc _]. apply seg_app in Hs as [_ Hs]. rewrite last_of_app in Hc. destruct L2 as [|y L2]; [exact Hc|by destruct Hs]. }
  assert (Hnot : a ∉ act :: L1 ++ L2) by (rewrite elem_of_cons; intros [E|Hin]; [apply Hact; by left|done]).
  assert (Hin1 : last_of act L1 ∈ act :: L1 ++ L2) by (rewrite app_comm_cons; apply elem_of_app; left; apply last_of_elem).
  assert (Hin2 : head_of act L2 ∈ act :: L1 ++ L2) by (destruct L2; [apply list_elem_of_here|apply list_elem_of_further, elem_of_app; right; apply list_elem_of_here]).
  destruct (list_insert_spec (mkArena h1 (allocators s)) (last_of act L1) a (head_of act L2)) as (h2 & Hres & Hins); cbn [nodes allocators] in *.
  - done.
  - assert (Hd : is_Some (nodes s !! a)) by (eapply (ring_lookup _ act); [exact Hring|]; apply list_elem_of_further, list_elem_of_here).
    apply (fmap_is_Some content). rewrite (rem_content _ _ _ _ _ Hrem a). by apply fmap_is_Some.
  - intros E. by rewrite <- E in Hin1.
  - intros E. by rewrite <- E in Hin2.
  - exists h2. split; [exact Hres|]. split; [by eapply ring_inserted|]. split; [eapply same_content_trans; [apply (rem_content _ _ _ _ _ Hrem)|apply (ins_content _ _ _ _ _ Hins)]|].
    intros z Hz. rewrite !elem_of_cons in Hz. assert (Hz' : z ∉ act :: L1 ++ L2) by (rewrite elem_of_cons; tauto).
    rewrite (ins_other _ _ _ _ _ Hins), (rem_other _ _ _ _ _ Hrem); [done|intros ->..]; tauto.
Qed.

Lemma settle_spec s act a L ks da :
  ring (nodes s) act (a :: L) -> key (nodes s) act = Some 0 -> keyed (nodes s) L ks -> descending ks -> nodes s !! a = Some da -> wf_node a da ->
  exists h' L1 L2 ks', settle s a = Ok (mkArena h' (allocators s)) /\ L = L1 ++ L2 /\ ring h' act (L1 ++ a :: L2) /\ keyed h' (L1 ++ a :: L2) ks' /\ descending ks' /\
    same_content (<[a := with_free_index (pages da) da]> (nodes s)) h' /\ forall z, z ∉ act :: a :: L -> h' !! z = nodes s !! z.
Proof.
  intros Hring Hact Hk Hdesc Hda Hwf. destruct (fi_pages _ _ Hwf) as (Hfi & Hfi32 & Hpos). unfold settle. unfold get_node at 1. rewrite Hda. cbn [of_option rbind]. cbv zeta in *.
  rewrite Hfi32, Hfi. rewrite (upd_node_ok s a da) by done. cbn [rbind]. set (d1 := with_free_index (pages da) da). set (h1 := <[a := d1]> (nodes s)).
  pose proof (ring_nodup _ _ _ Hring) as Hnd. apply NoDup_cons in Hnd as [Hna Hnd]. apply NoDup_cons in Hnd as [HaL Hnd]. rewrite elem_of_cons in Hna.
  assert (Hring1 : ring h1 act (a :: L)).
  { eapply ring_same_links; [| |exact Hring]; intros z; unfold h1; [rewrite nxt_insert|rewrite rf_insert]; case_decide as E; try done; subst; unfold nxt, rf; by rewrite Hda. }
  assert (Hact1 : key h1 act = Some 0) by (unfold key, h1; rewrite lookup_insert_ne by (intros ->; tauto); done).
  assert (Hk1 : keyed h1 L ks) by (by apply keyed_insert). assert (Hka : key h1 a = Some (pages da)) by (unfold key, h1; by rewrite lookup_insert_eq).
  assert (Hnext : next da = head_of act L). { pose proof (ring_second _ _ _ _ Hring) as [Hn _]. unfold nxt in Hn. rewrite Hda in Hn. by injection Hn. }
  assert (Hhere : match ks with [] => True | k :: _ => k <= pages da end ->
    exists h' L1 L2 ks', Ok (mkArena h1 (allocators s)) = Ok (mkArena h' (allocators s)) /\ L = L1 ++ L2 /\ ring h' act (L1 ++ a :: L2) /\ keyed h' (L1 ++ a :: L2) ks' /\ descending ks' /\
      same_content h1 h' /\ forall z, z ∉ act :: a :: L -> h' !! z = nodes s !! z).
  { intros Hle. exists h1, [], L, (pages da :: ks). split_and!; try done; [by constructor|by apply (descending_insert [])|].
    intros z Hz. unfold h1. apply lookup_insert_ne. intros <-. apply Hz, list_elem_of_further, list_elem_of_here. }
  unfold get_node at 1. cbn [nodes]. unfold h1 at 1. rewrite lookup_insert_eq. cbn [of_option rbind d1 with_free_index next]. rewrite Hnext.
  destruct L as [|x R].
  - cbn [head_of]. destruct (key_lookup _ _ _ Hact1) as (dx & Hdx & Hkx). unfold get_node at 1. cbn [nodes]. fold h1. rewrite Hdx. cbn [of_option rbind]. unfold free_index_of. rewrite Hkx. cbn [of_option rbind].
    replace (pages da >=? 0) with true by lia. apply Forall2_nil_inv_l in Hk as ->. by apply Hhere.
  - cbn [head_of]. apply Forall2_cons_inv_l in Hk1 as (k & ks1 & Hkx & Hk1 & ->). destruct (key_lookup _ _ _ Hkx) as (dx & Hdx & Hkd).
    unfold get_node at 1. cbn [nodes]. fold h1. rewrite Hdx. cbn [of_option rbind]. unfold free_index_of. rewrite Hkd. cbn [of_option rbind].
    destruct (Z.geb_spec (pages da) k) as [Hge|Hlt]; [apply Hhere; lia|].
    pose proof Hring1 as [[_ [_ Hs]] Hc _]. rewrite !last_of_cons in Hc.
    destruct (find_place_spec (mkArena h1 (allocators s)) act (pages da) R (fuel_nodes (mkArena h1 (allocators s))) x ks1) as (R1 & R2 & ks2 & ks3 & -> & -> & Hlen & -> & Hgt & Hle); try done.
    { unfold fuel_nodes. cbn [nodes]. assert (length (x :: R) <= size h1)%nat by (apply nodup_in_heap; [done|]; intros n Hn; eapply (ring_lookup _ act); [exact Hring1|]; by do 2 apply list_elem_of_further). cbn [length] in *. lia. }
    cbn [rbind]. destruct (move_spec (mkArena h1 (allocators s)) act a (x :: R1) R2) as (h2 & -> & Hring2 & Hcont & Hout); [done|exact Hring1|]. cbn [nodes allocators] in *.
    apply Forall2_app_inv in Hk1 as [Hk2 Hk3]; [|done].
    exists h2, (x :: R1), R2, (k :: ks2 ++ pages da :: ks3). split_and!; try done.
    + constructor; [by rewrite (same_content_key h1)|]. apply Forall2_app; [by eapply keyed_content|]. constructor; [by rewrite (same_content_key h1)|by eapply keyed_content].
    + apply (descending_insert (k :: ks2)); [done| |done]. by constructor.
    + intros z Hz. rewrite Hout by done. unfold h1. apply lookup_insert_ne. intros <-. apply Hz, list_elem_of_further, list_elem_of_here.
Qed.

(** ** A node becomes the active one *)

(** The region of a node: what does not change when nodes are linked and sorted. *)
Definition region (d : memnode) : Z * Z * Z := (index d, first_avail d, endp d).

Lemma same_content_region h h' : same_content h h' -> forall n, region <$> h' !! n = region <$> h !! n.
Proof. intros Hs n. specialize (Hs n). destruct (h !! n), (h' !! n); cbn in *; try done. unfold content in Hs. unfold region. by injection Hs as -> _ -> ->. Qed.

Lemma region_lookup (h h' : gmap Z memnode) n d : region <$> h' !! n = region <$> h !! n -> h !! n = Some d -> exists d', h' !! n = Some d' /\ region d' = region d.
Proof. intros Hs Hd. rewrite Hd in Hs. destruct (h' !! n) as [d'|]; [|done]. exists d'. split; [done|]. cbn in Hs. congruence. Qed.

Lemma activate_spec m n act size L ks dn da :
  ring (nodes m) act L -> keyed (nodes m) L ks -> descending ks -> n ∉ act :: L -> nodes m !! n = Some dn -> nodes m !! act = Some da -> wf_node act da ->
  exists h1 h2 L' ks',
    (do m <- upd_node m n (with_free_index 0);
     do dn <- get_node m n;
     do m <- upd_node m n (with_first_avail (first_avail dn + size));
     list_insert m n act) = Ok (mkArena h1 (allocators m)) /\ settle (mkArena h1 (allocators m)) act = Ok (mkArena h2 (allocators m)) /\
    ring h2 n L' /\ L' ≡ₚ act :: L /\ keyed h2 L' ks' /\ descending ks' /\
    (exists d', h2 !! n = Some d' /\ region d' = (index dn, first_avail dn + size, endp dn)) /\
    (forall z, z <> n -> region <$> h2 !! z = region <$> nodes m !! z) /\
    (forall z, z ∉ n :: act :: L -> h2 !! z = nodes m !! z).
Proof.
  intros Hring Hk Hdesc Hn Hdn Hda Hwf. assert (Hne : n <> act) by (intros ->; apply Hn, list_elem_of_here).
  rewrite (upd_node_ok m n dn) by done. cbn [rbind]. unfold get_node at 1. cbn [nodes]. rewrite lookup_insert_eq. cbn [of_option rbind with_free_index first_avail].
  rewrite (upd_node_ok _ n (with_free_index 0 dn)) by (cbn [nodes]; by rewrite lookup_insert_eq). cbn [rbind nodes allocators]. rewrite insert_insert_eq.
  set (d0 := with_first_avail (first_avail dn + size) (with_free_index 0 dn)). set (h0 := <[n := d0]> (nodes m)).
  assert (Hring0 : ring h0 act L).
  { eapply ring_same_links; [| |exact Hring]; intros z; unfold h0; [rewrite nxt_insert|rewrite rf_insert]; case_decide as E; try done; subst; unfold nxt, rf; by rewrite Hdn. }
  destruct (list_insert_spec (mkArena h0 (allocators m)) (last_of act L) n act) as (h1 & Hins & Hin); cbn [nodes allocators] in *.
  { apply (ring_closed _ _ _ Hring0). } { unfold h0. rewrite lookup_insert_eq. by eexists. } { intros E. apply Hn. rewrite E. apply last_of_elem. } { done. }
  rewrite Hins. assert (Hring1 : ring h1 n (act :: L)).
  { apply ring_rotate. replace L with (L ++ []) by apply app_nil_r. rewrite <- app_assoc. apply (ring_inserted h0); rewrite ?app_nil_r; done. }
  assert (Hkn : key h1 n = Some 0) by (rewrite (same_content_key h0) by apply (ins_content _ _ _ _ _ Hin); unfold key, h0; by rewrite lookup_insert_eq).
  assert (Hk1 : keyed h1 L ks) by (eapply keyed_content; [apply (ins_content _ _ _ _ _ Hin)|]; apply keyed_insert; [|done]; rewrite elem_of_cons in Hn; tauto).
  destruct (region_lookup h0 h1 act da) as (da1 & Hda1 & Hreg); [by apply same_content_region, (ins_content _ _ _ _ _ Hin)|unfold h0; by rewrite lookup_insert_ne|].
  assert (Hwf1 : wf_node act da1) by (unfold region in Hreg; unfold wf_node in *; by injection Hreg as -> -> ->).
  destruct (settle_spec (mkArena h1 (allocators m)) n act L ks da1 Hring1 Hkn Hk1 Hdesc Hda1 Hwf1) as (h2 & L1 & L2 & ks' & Hset & -> & Hring2 & Hk2 & Hdesc2 & Hcont & Hout).
  cbn [nodes allocators] in *. exists h1, h2, (L1 ++ act :: L2), ks'. split; [done|]. split; [done|]. split; [done|]. split; [by rewrite Permutation_middle|]. split; [done|]. split; [done|].
  assert (Hgo : forall z, region <$> h2 !! z = region <$> h0 !! z).
  { intros z. rewrite (same_content_region _ _ Hcont), <- (same_content_region _ _ (ins_content _ _ _ _ _ Hin)).
    destruct (decide (z = act)) as [->|Hz]; [rewrite lookup_insert_eq, Hda1; done|by rewrite lookup_insert_ne]. }
  split; [|split].
  { specialize (Hgo n). unfold h0 in Hgo. rewrite lookup_insert_eq in Hgo. destruct (h2 !! n) as [d'|]; [|done]. exists d'. split; [done|]. cbn in Hgo. unfold region in *. cbn in Hgo. congruence. }
  { intros z Hz. rewrite Hgo. unfold h0. by rewrite lookup_insert_ne. }
  intros z Hz. rewrite !elem_of_cons in Hz. rewrite Hout by (rewrite !elem_of_cons; tauto). rewrite (ins_other _ _ _ _ _ Hin).
  - unfold h0. apply lookup_insert_ne. intros <-. tauto.
  - intros ->. apply Hz. right. rewrite <- elem_of_cons. apply last_of_elem.
  - tauto.
  - tauto.
Qed.
