(* ===== verification/AprPalloc.v ===== *)
(** * Allocation from a pool: [src/apr/memory/unix/apr_pools.c]

    The invariant of a set of pools that share allocators, and [apr_palloc]. *)

From S2P Require Import Prelude AprAllocator AprFree AprPools AprRing.

(** ** Well-formed pools *)

(** [L]: the ring after the active node. *)
Record wf_pool (h : gmap Z memnode) (p : Z) (P : pool_t) (L : list Z) : Prop := {
  wp_ring : ring h (active P) L;
  wp_sorted : exists ks, keyed h L ks /\ descending ks;
  wp_self : self P ∈ active P :: L;
  wp_at : p = self P + APR_MEMNODE_T_SIZE;
  wp_avail : self_first_avail P = p + SIZEOF_POOL_T;
  wp_room d : h !! self P = Some d -> self_first_avail P <= first_avail d
}.

(** [home] tells the pool of every node that is handed out. *)
Record wf_pools (s : pstate) (own : owners) (home : gmap Z Z) : Prop := {
  wps_arena : wf_arena (mem s) own;
  wps_home n : own !! n = Some None <-> is_Some (home !! n);
  wps_pool p P : pools s !! p = Some P ->
    exists L, wf_pool (nodes (mem s)) p P L /\ forall n, home !! n = Some p <-> n ∈ active P :: L;
  wps_allocator p P : pools s !! p = Some P -> is_Some (allocators (mem s) !! pool_allocator P);
  wps_alive n p : home !! n = Some p -> is_Some (pools s !! p)
}.

Lemma frame_links h h' n : h' !! n = h !! n -> nxt h' n = nxt h n /\ rf h' n = rf h n.
Proof. intros E. unfold nxt, rf. by rewrite E. Qed.

Lemma ring_frame h h' a L : (forall n, n ∈ a :: L -> h' !! n = h !! n) -> ring h a L -> ring h' a L.
Proof.
  intros Hf [Hs Hc Hnd]. constructor; [|destruct Hc as [H1 H2]; split|done].
  - eapply seg_frame; [done|intros z Hz _; by apply frame_links, Hf|intros z Hz; by apply frame_links, Hf, list_elem_of_further|done].
  - rewrite (proj1 (frame_links h h' _ (Hf _ (last_of_elem a L)))). done.
  - rewrite (proj2 (frame_links h h' a (Hf a ltac:(apply list_elem_of_here)))). done.
Qed.

Lemma keyed_frame h h' L ks : (forall n, n ∈ L -> h' !! n = h !! n) -> keyed h L ks -> keyed h' L ks.
Proof.
  unfold keyed. intros Hf Hk. induction Hk as [|n k L ks Hn Hk IH]; [constructor|]. constructor; [unfold key in *; by rewrite Hf by apply list_elem_of_here|].
  apply IH. intros m Hm. by apply Hf, list_elem_of_further.
Qed.

Lemma wf_pool_frame h h' p P L : (forall n, n ∈ active P :: L -> h' !! n = h !! n) -> wf_pool h p P L -> wf_pool h' p P L.
Proof.
  intros Hf [Hr (ks & Hk & Hd) Hs Hat Hav Hroom]. constructor; try done.
  - by eapply ring_frame.
  - exists ks. split; [|done]. eapply keyed_frame; [|exact Hk]. intros n Hn. by apply Hf, list_elem_of_further.
  - rewrite Hf by done. done.
Qed.

(** Nodes that are handed out change, keeping their extent. *)
Lemma wf_relink s own h' :
  wf_arena s own -> same_shape (nodes s) h' -> (forall n, own !! n <> Some None -> h' !! n = nodes s !! n) ->
  (forall n d, own !! n = Some None -> h' !! n = Some d -> wf_node n d) -> wf_arena (mkArena h' (allocators s)) own.
Proof.
  intros Hwf Hs Hf Hn. constructor; cbn [nodes allocators].
  - intros n d Hd. destruct (decide (own !! n = Some None)) as [Ho|Ho]; [by apply Hn|]. rewrite Hf in Hd by done. by apply (wf_nodes _ _ Hwf).
  - intros n. rewrite (same_shape_dom _ _ n Hs). apply (wf_owned _ _ Hwf).
  - intros n d Hd. destruct (same_shape_lookup _ _ _ _ (same_shape_sym _ _ Hs) Hd) as (d0 & Hd0 & _). by apply (wf_apart _ _ Hwf _ d0).
  - rewrite (live_same s) by done. apply (wf_blocks _ _ Hwf).
  - apply (wf_not_null _ _ Hwf).
  - intros al a Ha. destruct (wf_allocators _ _ Hwf _ _ Ha) as (F & HF & Hown). exists F. split; [|done].
    eapply wf_allocator_frame; [|exact HF]. intros n Hin%Hown. apply Hf. congruence.
  - apply (wf_owner _ _ Hwf).
Qed.

(** A region that keeps its place and grows into the room of the node. *)
Lemma wf_node_region n d d' size : wf_node n d -> region d' = (index d, first_avail d + size, endp d) -> 0 <= size <= endp d - first_avail d -> size mod 8 = 0 -> wf_node n d'.
Proof.
  intros (H1 & H2 & H3 & H4 & H5 & H6 & H7) Hr Hs Hm. unfold region in Hr. injection Hr as E1 E2 E3. unfold wf_node. rewrite E1, E2, E3. split_and!; try lia.
  rewrite Z.add_mod, H7, Hm by lia. done.
Qed.

Lemma wf_node_same n d d' : wf_node n d -> region d' = region d -> wf_node n d'.
Proof. unfold region, wf_node. intros H E. by injection E as -> -> ->. Qed.

(** ** apr_palloc *)

(** What a successful call has done: a block of [size] bytes at [b]. *)
Record palloc_post (s : pstate) (own : owners) (home : gmap Z Z) (p size b : Z) (s' : pstate) (own' : owners) (home' : gmap Z Z) (n : Z) : Prop := {
  pp_wf : wf_pools s' own' home';
  pp_here : home' !! n = Some p;
  pp_end d : nodes (mem s') !! n = Some d -> first_avail d = b + size;
  pp_start : n + APR_MEMNODE_T_SIZE <= b /\ b mod 8 = 0;
  pp_fresh d : home !! n = Some p -> nodes (mem s) !! n = Some d -> first_avail d = b;
  pp_new : home !! n = None \/ home !! n = Some p;
  pp_home m : m <> n -> home' !! m = home !! m;
  pp_regions m : m <> n -> is_Some (home !! m) -> region <$> nodes (mem s') !! m = region <$> nodes (mem s) !! m;
  pp_pools q : q <> p -> pools s' !! q = pools s !! q;
  pp_pool P : pools s !! p = Some P -> exists a, pools s' !! p = Some (with_active a P);
  pp_owner x : owner <$> allocators (mem s') !! x = owner <$> allocators (mem s) !! x;
  pp_events : events s' = events s
}.

(** Nodes that are handed out change, keeping their regions. *)
Lemma wf_relinked s own h' :
  wf_arena s own -> (forall n, region <$> h' !! n = region <$> nodes s !! n) -> (forall n, own !! n <> Some None -> h' !! n = nodes s !! n) ->
  wf_arena (mkArena h' (allocators s)) own.
Proof.
  intros Hwf Hr Hf. apply wf_relink; [done| |done|].
  - intros n. specialize (Hr n). destruct (h' !! n), (nodes s !! n); cbn in *; try done. unfold region in Hr. congruence.
  - intros n d _ Hd. destruct (region_lookup h' (nodes s) n d (eq_sym (Hr n)) Hd) as (d1 & Hd1 & E). apply (wf_node_same n d1); [by apply (wf_nodes _ _ Hwf)|done].
Qed.

Lemma with_active_id P : with_active (active P) P = P.
Proof. by destruct P. Qed.

Section palloc.
Context (s : pstate) (own : owners) (home : gmap Z Z) (p : Z) (P : pool_t) (L : list Z).
Context (Hwf : wf_pools s own home) (HP : pools s !! p = Some P) (HL : wf_pool (nodes (mem s)) p P L).
Context (Hhome : forall n, home !! n = Some p <-> n ∈ active P :: L).

Lemma ring_handed n : n ∈ active P :: L -> own !! n = Some None.
Proof using Hwf Hhome. intros Hn. apply (wps_home _ _ _ Hwf). exists p. by apply Hhome. Qed.

Lemma active_node : exists d, nodes (mem s) !! active P = Some d /\ wf_node (active P) d.
Proof using Hwf HL.
  destruct (ring_lookup _ _ _ (active P) (wp_ring _ _ _ _ HL) ltac:(apply list_elem_of_here)) as [d Hd]. exists d. split; [done|]. by apply (wf_nodes _ _ (wps_arena _ _ _ Hwf)).
Qed.

Lemma space_ok n d : wf_node n d -> node_free_space d = endp d - first_avail d.
Proof using. intros (H1 & _ & _ & _ & H5 & H6 & _). unfold node_free_space, u64. rewrite header_size in H6. apply Z.mod_small. lia. Qed.

(** The rest of the pools after a change of pool [p]. *)
Lemma wf_pools_step m1 own1 h2 n L' :
  wf_arena (mkArena h2 (allocators m1)) own1 -> (forall al, is_Some (allocators (mem s) !! al) -> is_Some (allocators m1 !! al)) ->
  own1 = <[n := None]> own -> home !! n = None \/ home !! n = Some p ->
  (forall q z, q <> p -> home !! z = Some q -> h2 !! z = nodes (mem s) !! z) ->
  wf_pool h2 p (with_active n P) L' -> (forall z, z ∈ n :: L' <-> z = n \/ z ∈ active P :: L) ->
  wf_pools (mkP (mkArena h2 (allocators m1)) (<[p := with_active n P]> (pools s)) (events s)) own1 (<[n := p]> home).
Proof using Type*.
  intros Hwa Hal -> Hn Hf HL' Hin. constructor; cbn [mem pools nodes allocators].
  - done.
  - intros z. destruct (decide (z = n)) as [->|Hz]; [rewrite !lookup_insert_eq; by split; eexists|rewrite !lookup_insert_ne by done; apply (wps_home _ _ _ Hwf)].
  - intros q Q. destruct (decide (q = p)) as [->|Hq].
    + rewrite lookup_insert_eq. intros [= <-]. exists L'. split; [done|]. intros z. cbn [with_active active]. rewrite Hin.
      destruct (decide (z = n)) as [->|Hz]; [rewrite lookup_insert_eq; tauto|]. rewrite lookup_insert_ne, Hhome by done. tauto.
    + rewrite lookup_insert_ne by done. intros HQ. destruct (wps_pool _ _ _ Hwf _ _ HQ) as (K & HK & HhK). exists K. split.
      * eapply wf_pool_frame; [|exact HK]. intros z Hz%HhK. by apply (Hf q).
      * intros z. rewrite <- HhK. destruct (decide (z = n)) as [->|Hz]; [|by rewrite lookup_insert_ne]. rewrite lookup_insert_eq. split; [congruence|]. intros E. destruct Hn; congruence.
  - intros q Q. destruct (decide (q = p)) as [->|Hq]; [rewrite lookup_insert_eq; intros [= <-]; apply Hal, (wps_allocator _ _ _ Hwf _ _ HP)|].
    rewrite lookup_insert_ne by done. intros HQ. apply Hal, (wps_allocator _ _ _ Hwf _ _ HQ).
  - intros z q. destruct (decide (z = n)) as [->|Hz]; [rewrite lookup_insert_eq; intros [= <-]; rewrite lookup_insert_eq; by eexists|].
    rewrite lookup_insert_ne by done. intros Hq. destruct (decide (q = p)) as [->|Hqp]; [rewrite lookup_insert_eq; by eexists|]. rewrite lookup_insert_ne by done. by apply (wps_alive _ _ _ Hwf z).
Qed.

(** The active node has room. *)
Lemma palloc_active size da : nodes (mem s) !! active P = Some da -> 0 <= size <= endp da - first_avail da -> size mod 8 = 0 ->
  palloc_post s own home p size (first_avail da)
    (set_mem (mkArena (<[active P := with_first_avail (first_avail da + size) da]> (nodes (mem s))) (allocators (mem s))) s) own home (active P).
Proof using Type*.
  intros Hda Hsz Hm. pose proof (wps_arena _ _ _ Hwf) as Hwa. pose proof (wf_nodes _ _ Hwa _ _ Hda) as Hna.
  pose proof (ring_handed _ (list_elem_of_here (active P) L)) as Ho. pose proof (proj2 (Hhome (active P)) ltac:(apply list_elem_of_here)) as Hh.
  set (d' := with_first_avail (first_avail da + size) da). set (h' := <[active P := d']> (nodes (mem s))).
  assert (Hn' : wf_node (active P) d') by (by apply (wf_node_region (active P) da d' size)).
  assert (Hwp : wf_pool h' p P L).
  { destruct HL as [Hr (ks & Hk & Hd) Hs Hat Hav Hroom]. constructor; try done.
    - eapply ring_same_links; [| |exact Hr]; intros z; unfold h'; [rewrite nxt_insert|rewrite rf_insert]; case_decide as E; try done; subst; unfold nxt, rf; by rewrite Hda.
    - exists ks. split; [|done]. apply keyed_insert; [|done]. pose proof (ring_nodup _ _ _ Hr) as Hnd. by apply NoDup_cons in Hnd as [? _].
    - intros d. unfold h'. destruct (decide (self P = active P)) as [E|E]; [rewrite E, lookup_insert_eq; intros [= <-]; cbn; rewrite E in Hroom; specialize (Hroom _ Hda); lia|].
      rewrite lookup_insert_ne by done. apply Hroom. }
  constructor.
  - unfold set_mem. rewrite <- (insert_id (pools s) p (with_active (active P) P)) by (by rewrite with_active_id). rewrite <- (insert_id home (active P) p) by done.
    apply (wf_pools_step (mem s) own h' (active P) L).
    + apply wf_touch with (d := da); try done.
    + done.
    + by rewrite insert_id.
    + by right.
    + intros q z Hq Hz. unfold h'. apply lookup_insert_ne. intros <-. congruence.
    + by rewrite with_active_id.
    + intros z. rewrite elem_of_cons. tauto.
  - done.
  - cbn [set_mem mem nodes]. unfold h'. intros d. rewrite lookup_insert_eq. by intros [= <-].
  - destruct Hna as (_ & _ & _ & _ & _ & H6 & H7). split; [lia|done].
  - intros d _ Hd. by simplify_eq.
  - by right.
  - done.
  - intros m Hm' _. cbn [set_mem mem nodes]. unfold h'. by rewrite lookup_insert_ne.
  - done.
  - intros Q HQ. exists (active P). cbn [set_mem pools]. rewrite HQ. simplify_eq. by rewrite with_active_id.
  - done.
  - done.
Qed.

(** The memory and the pool when node [n] has become active. *)
Lemma activated_arena m1 own1 n dn dn' h2 L1 size : wf_arena m1 own1 -> own1 = <[n := None]> own -> nodes m1 !! n = Some dn -> h2 !! n = Some dn' ->
  region dn' = (index dn, first_avail dn + size, endp dn) -> 0 <= size <= endp dn - first_avail dn -> size mod 8 = 0 ->
  (forall z, z <> n -> region <$> h2 !! z = region <$> nodes m1 !! z) -> (forall z, z ∉ n :: active P :: L1 -> h2 !! z = nodes m1 !! z) ->
  (forall z, z = n \/ z ∈ active P :: L1 <-> z = n \/ z ∈ active P :: L) -> wf_arena (mkArena h2 (allocators m1)) own1.
Proof using Hwf Hhome.
  intros Hwa Hown1 Hdn Hdn' Hrn Hsz Hm8 Hother Hout Hin. apply wf_relink; [done| | |].
  - intros z. destruct (decide (z = n)) as [->|Hz]; [rewrite Hdn', Hdn; cbn; unfold region in Hrn; by injection Hrn as -> _ ->|].
    specialize (Hother z Hz). destruct (h2 !! z), (nodes m1 !! z); cbn in *; try done. unfold region in Hother. congruence.
  - intros z Hz. apply Hout. rewrite elem_of_cons, Hin. subst own1. destruct (decide (z = n)) as [->|Hzn]; [by rewrite lookup_insert_eq in Hz|].
    rewrite lookup_insert_ne in Hz by done. intros [|Hz']; [done|]. by apply Hz, ring_handed.
  - intros z d _ Hd. destruct (decide (z = n)) as [->|Hz]; [rewrite Hdn' in Hd; injection Hd as <-; apply (wf_node_region n dn dn' size); try done; by apply (wf_nodes _ _ Hwa)|].
    destruct (region_lookup h2 (nodes m1) z d (eq_sym (Hother z Hz)) Hd) as (d1 & Hd1 & Hr). apply (wf_node_same z d1); [by apply (wf_nodes _ _ Hwa)|done].
Qed.

Lemma activated_pool m1 n dn dn' h2 L' size : ring h2 n L' -> (exists ks, keyed h2 L' ks /\ descending ks) -> nodes m1 !! n = Some dn -> h2 !! n = Some dn' ->
  region dn' = (index dn, first_avail dn + size, endp dn) -> 0 <= size -> (forall z, z <> n -> region <$> h2 !! z = region <$> nodes m1 !! z) ->
  (forall z, is_Some (home !! z) -> region <$> nodes m1 !! z = region <$> nodes (mem s) !! z) -> (forall z, z ∈ n :: L' <-> z = n \/ z ∈ active P :: L) ->
  wf_pool h2 p (with_active n P) L'.
Proof using HL HP Hhome.
  intros Hring2 Hsort Hdn Hdn' Hrn Hsz Hother Hreg Hin'. pose proof (proj2 (Hhome _) (wp_self _ _ _ _ HL)) as Hself. destruct HL as [_ _ Hs Hat Hav Hroom].
  constructor; cbn [with_active active self self_first_avail]; try done; [apply Hin'; by right|].
  intros d Hd. assert (Hfa : forall d0, nodes m1 !! self P = Some d0 -> self_first_avail P <= first_avail d0).
  { intros d0 Hd0. destruct (region_lookup (nodes m1) (nodes (mem s)) (self P) d0 (eq_sym (Hreg (self P) (mk_is_Some _ _ Hself))) Hd0) as (d1 & Hd1 & Hr1).
    specialize (Hroom d1 Hd1). unfold region in Hr1. injection Hr1 as _ <- _. done. }
  destruct (decide (self P = n)) as [E|E].
  - rewrite E in *. simplify_eq. unfold region in Hrn. injection Hrn as _ -> _. specialize (Hfa _ Hdn). lia.
  - destruct (region_lookup h2 (nodes m1) (self P) d (eq_sym (Hother _ E)) Hd) as (d1 & Hd1 & Hr1). specialize (Hfa _ Hd1). unfold region in Hr1. injection Hr1 as _ <- _. done.
Qed.

(** Another node becomes active: [m1] is the memory when it is out of any list. *)
Lemma palloc_node m1 own1 n dn L1 size :
  wf_arena m1 own1 -> own1 = <[n := None]> own -> home !! n = None \/ home !! n = Some p ->
  ring (nodes m1) (active P) L1 -> (exists ks, keyed (nodes m1) L1 ks /\ descending ks) -> n ∉ active P :: L1 -> nodes m1 !! n = Some dn ->
  0 <= size <= endp dn - first_avail dn -> size mod 8 = 0 -> (forall z, z = n \/ z ∈ active P :: L1 <-> z = n \/ z ∈ active P :: L) ->
  (forall q z, q <> p -> home !! z = Some q -> nodes m1 !! z = nodes (mem s) !! z) ->
  (forall z, is_Some (home !! z) -> region <$> nodes m1 !! z = region <$> nodes (mem s) !! z) ->
  (forall al, owner <$> allocators m1 !! al = owner <$> allocators (mem s) !! al) ->
  exists s', (do m <- upd_node m1 n (with_free_index 0);
    do dn <- get_node m n;
    do m <- upd_node m n (with_first_avail (first_avail dn + size));
    do m <- list_insert m n (active P);
    do s <- upd_pool (set_mem m s) p (with_active n);
    do m <- settle (mem s) (active P);
    Ok (first_avail dn, set_mem m s)) = Ok (first_avail dn, s') /\ palloc_post s own home p size (first_avail dn) s' own1 (<[n := p]> home) n.
Proof using Type*.
  intros Hwa Hown1 Hn Hring (ks & Hk & Hdesc) HnL Hdn Hsz Hm8 Hin Hframe Hreg Hal. pose proof (wf_nodes _ _ Hwa _ _ Hdn) as Hwn.
  destruct (ring_lookup _ _ _ (active P) Hring ltac:(apply list_elem_of_here)) as [da Hda].
  destruct (activate_spec m1 n (active P) size L1 ks dn da Hring Hk Hdesc HnL Hdn Hda (wf_nodes _ _ Hwa _ _ Hda))
    as (h1 & h2 & L' & ks' & E1 & E2 & Hring2 & Hperm & Hk2 & Hdesc2 & (dn' & Hdn' & Hrn) & Hother & Hout).
  assert (E3 : (do m <- upd_node m1 n (with_free_index 0); do dn <- get_node m n; do m <- upd_node m n (with_first_avail (first_avail dn + size));
    do m <- list_insert m n (active P); do s <- upd_pool (set_mem m s) p (with_active n); do m <- settle (mem s) (active P); Ok (first_avail dn, set_mem m s)) =
    Ok (first_avail dn, mkP (mkArena h2 (allocators m1)) (<[p := with_active n P]> (pools s)) (events s))).
  { rewrite (upd_node_ok m1 n dn) in E1 |- * by done. cbn [rbind] in E1 |- *. unfold get_node in E1 |- *. cbn [nodes] in E1 |- *. rewrite lookup_insert_eq in E1 |- *. cbn [of_option rbind] in E1 |- *.
    destruct (upd_node _ n _) as [m2|]; [|done]. cbn [rbind] in E1 |- *. rewrite E1. cbn [rbind]. unfold upd_pool, get_pool. cbn [set_mem pools mem]. rewrite HP. cbn [of_option rbind mem]. rewrite E2. done. }
  eexists. split; [exact E3|]. set (s' := mkP _ _ _).
  assert (Hin' : forall z, z ∈ n :: L' <-> z = n \/ z ∈ active P :: L) by (intros z; rewrite elem_of_cons, (elem_of_Permutation_proper _ _ _ Hperm); apply Hin).
  assert (Hregs : forall z, z <> n -> is_Some (home !! z) -> region <$> h2 !! z = region <$> nodes (mem s) !! z) by (intros z Hz Hh; rewrite Hother by done; by apply Hreg).
  pose proof (activated_arena m1 own1 n dn dn' h2 L1 size Hwa Hown1 Hdn Hdn' Hrn Hsz Hm8 Hother Hout Hin) as Hwa2.
  assert (Hwp : wf_pool h2 p (with_active n P) L').
  { apply (activated_pool m1 n dn dn' h2 L' size); try done; [by exists ks'|lia]. }
  constructor.
  - subst s'. subst own1. apply (wf_pools_step m1 (<[n := None]> own) h2 n L'); try done.
    { intros al Hs. apply (fmap_is_Some owner). rewrite Hal. by apply fmap_is_Some. }
    intros q z Hq Hz. rewrite Hout; [by apply (Hframe q)|]. rewrite elem_of_cons, Hin, <- Hhome. intros [->|E]; [destruct Hn|]; congruence.
  - apply lookup_insert_eq.
  - cbn [s' mem nodes]. intros d Hd. simplify_eq. unfold region in Hrn. by injection Hrn as _ -> _.
  - destruct Hwn as (_ & _ & _ & _ & _ & H6 & H7). split; [lia|done].
  - intros d Hh Hd. destruct (region_lookup (nodes (mem s)) (nodes m1) n d (Hreg n (mk_is_Some _ _ Hh)) Hd) as (d1 & Hd1 & Hr). unfold region in Hr. congruence.
  - done.
  - intros m Hm. by apply lookup_insert_ne.
  - intros m Hm Hh. cbn [s' mem nodes]. by apply Hregs.
  - intros q Hq. cbn [s' pools]. by apply lookup_insert_ne.
  - intros Q HQ. exists n. cbn [s' pools]. rewrite lookup_insert_eq. congruence.
  - exact Hal.
  - done.
Qed.

(** The node after the active one has room. *)
Lemma palloc_reuse n L0 dn size : L = n :: L0 -> nodes (mem s) !! n = Some dn -> 0 <= size <= endp dn - first_avail dn -> size mod 8 = 0 ->
  exists m1 b s', list_remove (mem s) n = Ok m1 /\
    (do m <- upd_node m1 n (with_free_index 0);
     do dn <- get_node m n;
     do m <- upd_node m n (with_first_avail (first_avail dn + size));
     do m <- list_insert m n (active P);
     do s <- upd_pool (set_mem m s) p (with_active n);
     do m <- settle (mem s) (active P);
     Ok (first_avail dn, set_mem m s)) = Ok (b, s') /\ palloc_post s own home p size b s' own home n.
Proof using Type*.
  intros E Hdn Hsz Hm8. pose proof (wp_ring _ _ _ _ HL) as Hring. rewrite E in Hring. pose proof (ring_nodup _ _ _ Hring) as Hnd.
  apply NoDup_cons in Hnd as [Ha Hnd]. apply NoDup_cons in Hnd as [Hn Hnd]. rewrite elem_of_cons in Ha.
  destruct (list_remove_spec (mem s) (active P) n (head_of (active P) L0)) as (h1 & E1 & Hrem).
  { exact (ring_next _ _ _ Hring). } { exact (ring_second _ _ _ _ Hring). } { intros E'. apply Ha. by left. }
  { destruct L0; cbn; [intros E'; apply Ha; by left|intros ->; apply Hn, list_elem_of_here]. }
  pose proof (same_content_region _ _ (rem_content _ _ _ _ _ Hrem)) as Hreg.
  destruct (region_lookup (nodes (mem s)) h1 n dn (Hreg n) Hdn) as (dn1 & Hdn1 & Hr1). unfold region in Hr1. injection Hr1 as Hr1 Hr2 Hr3.
  pose proof (ring_handed n ltac:(rewrite E; apply list_elem_of_further, list_elem_of_here)) as Hon.
  assert (Hout : forall z, z ∉ active P :: L -> h1 !! z = nodes (mem s) !! z).
  { intros z Hz. apply (rem_other _ _ _ _ _ Hrem); intros ->; apply Hz; [apply list_elem_of_here|]. rewrite E.
    destruct L0; cbn; [apply list_elem_of_here|]. do 2 apply list_elem_of_further. apply list_elem_of_here. }
  assert (Hhn : home !! n = Some p) by (apply Hhome; rewrite E; apply list_elem_of_further, list_elem_of_here).
  destruct (palloc_node (mkArena h1 (allocators (mem s))) own n dn1 L0 size) as (s' & Hres & Hpost); cbn [nodes allocators]; try done.
  - apply wf_relinked; [apply (wps_arena _ _ _ Hwf)|done|]. intros z Hz. apply Hout. intros Hin. by apply Hz, ring_handed.
  - by rewrite insert_id.
  - by right.
  - by eapply ring_removed.
  - destruct (wp_sorted _ _ _ _ HL) as (ks & Hk & Hd). rewrite E in Hk. apply Forall2_cons_inv_l in Hk as (k & ks' & _ & Hk & ->).
    exists ks'. split; [eapply keyed_content; [apply (rem_content _ _ _ _ _ Hrem)|exact Hk]|]. by apply Sorted.StronglySorted_inv in Hd as [? _].
  - rewrite elem_of_cons. intros [->|]; tauto.
  - rewrite Hr2, Hr3. done.
  - intros z. rewrite E, !elem_of_cons. tauto.
  - intros q z Hq Hz. apply Hout. rewrite <- Hhome. congruence.
  - exists (mkArena h1 (allocators (mem s))), (first_avail dn1), s'. split; [done|]. split; [exact Hres|]. by rewrite insert_id in Hpost.
Qed.

(** A node from the allocator. *)
Lemma palloc_fresh m1 n idx size :
  handed (mem s) own (pool_allocator P) idx n m1 -> size + APR_MEMNODE_T_SIZE <= (idx + 1) * BOUNDARY_SIZE -> 0 <= size -> size mod 8 = 0 ->
  exists b s',
    (do m <- upd_node m1 n (with_free_index 0);
     do dn <- get_node m n;
     do m <- upd_node m n (with_first_avail (first_avail dn + size));
     do m <- list_insert m n (active P);
     do s <- upd_pool (set_mem m s) p (with_active n);
     do m <- settle (mem s) (active P);
     Ok (first_avail dn, set_mem m s)) = Ok (b, s') /\ palloc_post s own home p size b s' (<[n := None]> own) (<[n := p]> home) n.
Proof using Type*.
  intros Hh Hfit Hsz Hm8. destruct (handed_node _ _ _ _ _ _ Hh) as (dn & Hdn & _ & Hav & Hidx). pose proof (handed_fresh _ _ _ _ _ _ Hh) as Hfresh. pose proof (handed_untouched _ _ _ _ _ _ Hh) as Hun.
  assert (Hsame : forall z, own !! z = Some None -> nodes m1 !! z = nodes (mem s) !! z).
  { intros z Hz. apply (un_nodes _ _ _ _ _ _ Hun); [|done]. intros ->%list_elem_of_singleton. done. }
  assert (Hring : forall z, z ∈ active P :: L -> nodes m1 !! z = nodes (mem s) !! z) by (intros z Hz; by apply Hsame, ring_handed).
  destruct (wf_nodes _ _ (handed_wf _ _ _ _ _ _ Hh) _ _ Hdn) as (_ & _ & _ & He & _).
  destruct (palloc_node m1 (<[n := None]> own) n dn L size) as (s' & Hres & Hpost); try done.
  - apply (handed_wf _ _ _ _ _ _ Hh).
  - left. apply eq_None_not_Some. intros Hs. by apply Hfresh, (wps_home _ _ _ Hwf).
  - eapply ring_frame; [exact Hring|apply (wp_ring _ _ _ _ HL)].
  - destruct (wp_sorted _ _ _ _ HL) as (ks & Hk & Hd). exists ks. split; [|done]. eapply keyed_frame; [|exact Hk]. intros z Hz. by apply Hring, list_elem_of_further.
  - intros Hin. by apply Hfresh, ring_handed.
  - rewrite He, Hav, page_size in *. lia.
  - intros q z _ Hz. apply Hsame, (wps_home _ _ _ Hwf). by exists q.
  - intros z Hz. by rewrite Hsame by (by apply (wps_home _ _ _ Hwf)).
  - intros al. destruct (decide (al = pool_allocator P)) as [->|Hne]; [|by rewrite (un_allocators _ _ _ _ _ _ Hun)].
    destruct (wps_allocator _ _ _ Hwf _ _ HP) as [a Ha]. destruct (un_settings _ _ _ _ _ _ Hun a Ha) as (a' & Ha' & _ & _ & E). rewrite Ha, Ha'. cbn. by rewrite E.
  - by exists (first_avail dn), s'.
Qed.
End palloc.

Lemma align_default in_size : 0 <= in_size < 2 ^ 64 ->
  let size := APR_ALIGN_DEFAULT in_size in
  size < in_size /\ 2 ^ 64 - 8 < in_size \/ in_size <= size < in_size + 8 /\ size < 2 ^ 64 /\ size mod 8 = 0.
Proof.
  intros Hi. cbv zeta. replace (APR_ALIGN_DEFAULT in_size) with (2 ^ 3 * (u64 (in_size + (2 ^ 3 - 1)) / 2 ^ 3)) by (symmetry; by apply (align_spec u64 in_size 3)). unfold u64.
  destruct (Z_lt_ge_dec (in_size + (2 ^ 3 - 1)) (2 ^ 64)) as [H1|H1]; [right; rewrite Z.mod_small by lia|left].
  - split; [Z.div_mod_to_equations; lia|]. split; [Z.div_mod_to_equations; lia|]. change 8 with (2 ^ 3). rewrite Z.mul_comm. apply Z.mod_mul. lia.
  - replace (in_size + (2 ^ 3 - 1)) with (in_size + (2 ^ 3 - 1) - 2 ^ 64 + 1 * 2 ^ 64) by lia. rewrite Z.mod_add, Z.mod_small by lia. Z.div_mod_to_equations. lia.
Qed.

Section spec.
Context `{MallocLaws}.

(** [NULL] is returned for one of these reasons. *)
Definition no_block (s : pstate) (in_size : Z) : Prop := 2 ^ 64 - 8 < in_size \/ refused (mem s) (APR_ALIGN_DEFAULT in_size).

Lemma apr_palloc_spec s own home p P in_size :
  wf_pools s own home -> pools s !! p = Some P -> 0 <= in_size < 2 ^ 64 ->
  exists b s', apr_palloc s p in_size = Ok (b, s') /\
    (b = NULL /\ s' = call_abort s P /\ no_block s in_size \/
     exists own' home' n, palloc_post s own home p (APR_ALIGN_DEFAULT in_size) b s' own' home' n).
Proof.
  intros Hwf HP Hin. destruct (wps_pool _ _ _ Hwf _ _ HP) as (L & HL & Hhome). unfold apr_palloc, get_pool. rewrite HP. cbn [of_option rbind]. cbv zeta.
  destruct (align_default in_size Hin) as [[Hlt Hbig]|(Hsz & Hmax & Hm8)].
  { replace (_ <? in_size) with true by lia. exists NULL, (call_abort s P). split; [done|]. left. split; [done|]. split; [done|by left]. }
  replace (_ <? in_size) with false by lia. unfold no_block. set (size := APR_ALIGN_DEFAULT in_size) in *. clearbody size.
  destruct (active_node s own home p P L Hwf HL) as (da & Hda & Hna). unfold get_node at 1. rewrite Hda. cbn [of_option rbind]. rewrite (space_ok (active P) da) by done.
  destruct (Z.leb_spec size (endp da - first_avail da)) as [Hfit|Hfull].
  { rewrite (upd_node_ok (mem s) (active P) da) by done. cbn [rbind]. do 2 eexists. split; [reflexivity|]. right. exists own, home, (active P).
    eapply palloc_active; (done || lia). }
  pose proof (ring_next _ _ _ (wp_ring _ _ _ _ HL)) as [Hnx _]. unfold nxt in Hnx. rewrite Hda in Hnx. cbn in Hnx. injection Hnx as Hnx. rewrite Hnx.
  assert (Hhd : head_of (active P) L ∈ active P :: L) by (destruct L; [apply list_elem_of_here|apply list_elem_of_further, list_elem_of_here]).
  destruct (ring_lookup _ _ _ _ (wp_ring _ _ _ _ HL) Hhd) as [dn Hdn]. unfold get_node at 1. rewrite Hdn. cbn [of_option rbind].
  pose proof (wf_nodes _ _ (wps_arena _ _ _ Hwf) _ _ Hdn) as Hnn. rewrite (space_ok (head_of (active P) L) dn) by done.
  destruct (Z.leb_spec size (endp dn - first_avail dn)) as [Hfit|Hfull2].
  - destruct L as [|n L]; [cbn in Hdn; simplify_eq; lia|]. cbn [head_of] in *. pose proof (wp_ring _ _ _ _ HL) as Hring. pose proof (ring_nodup _ _ _ Hring) as Hnd.
    apply NoDup_cons in Hnd as [Ha Hnd]. apply NoDup_cons in Hnd as [Hn Hnd]. rewrite elem_of_cons in Ha.
    destruct (palloc_reuse s own home p P (n :: L) Hwf HP HL Hhome n L dn size eq_refl Hdn ltac:(lia) Hm8) as (m1 & b & s' & -> & Hres & Hpost). cbn [rbind].
    destruct Hnn as (Hn0 & _). replace (n =? NULL) with false by lia. exists b, s'. split; [exact Hres|]. right. by exists own, home, n.
  - destruct (wps_allocator _ _ _ Hwf _ _ HP) as [a Ha].
    destruct (allocator_alloc_spec (mem s) own (pool_allocator P) a size (wps_arena _ _ _ Hwf) Ha ltac:(lia)) as (n & m1 & -> & Hcase). cbn [rbind].
    destruct Hcase as [(-> & -> & Href)|(idx & Hfit & Hh)]; [exists NULL, (call_abort s P); split; [done|]; left; split; [done|]; split; [done|by right]|].
    pose proof (handed_not_null _ _ _ _ _ _ Hh). replace (n =? NULL) with false by lia.
    destruct (palloc_fresh s own home p P L Hwf HP HL Hhome m1 n idx size Hh Hfit ltac:(lia) Hm8) as (b & s' & Hres & Hpost).
    exists b, s'. split; [exact Hres|]. right. by exists (<[n := None]> own), (<[n := p]> home), n.
Qed.
End spec.
