(* ===== verification/AprPoolTree.v ===== *)
(** * Trees of pools: [src/apr/memory/unix/apr_pools.c]

    The links between pools: every pool has the list of its children, joined by
    [sibling], with [ref] pointing back to the link before; a parent is older than
    its children. Creation adds a child at the head of the list, destruction takes
    one out. *)

From S2P Require Import Prelude AprAllocator AprPools.

(** ** Lists of children *)

(** The pools [K] from [q] on; [l] is the link to the first. *)
Fixpoint sibs (ps : gmap Z pool_t) (par : Z) (l : pool_link) (q : Z) (K : list Z) : Prop :=
  match K with
  | [] => q = NULL
  | k :: K => q = k /\ k <> NULL /\ exists Q, ps !! k = Some Q /\ parent Q = par /\ pref Q = Some l /\ sibs ps par (SiblingOf k) (sibling Q) K
  end.

(** What the list needs of a pool. *)
Definition place (P : pool_t) : Z * option pool_link * Z := (parent P, pref P, sibling P).

Lemma sibs_place ps ps' par l q K : (forall k, k ∈ K -> place <$> ps' !! k = place <$> ps !! k) -> sibs ps par l q K -> sibs ps' par l q K.
Proof.
  revert l q. induction K as [|k K IH]; intros l q Hf; cbn [sibs]; [done|]. intros (-> & Hk & Q & HQ & Hp & Hr & Hs).
  pose proof (Hf k ltac:(apply list_elem_of_here)) as E. rewrite HQ in E. destruct (ps' !! k) as [Q'|] eqn:HQ'; [|done]. unfold place in E. cbn in E. injection E as E1 E2 E3.
  split; [done|]. split; [done|]. exists Q'. split_and!; try congruence. rewrite E3. apply IH; [|done]. intros m Hm. by apply Hf, list_elem_of_further.
Qed.

Lemma sibs_frame ps ps' par l q K : (forall k, k ∈ K -> ps' !! k = ps !! k) -> sibs ps par l q K -> sibs ps' par l q K.
Proof. intros Hf. apply sibs_place. intros k Hk. by rewrite Hf. Qed.

Lemma sibs_null ps par l K : sibs ps par l NULL K -> K = [].
Proof. destruct K; [done|]. by intros (<- & [] & _). Qed.

Lemma sibs_lookup ps par l q K k : sibs ps par l q K -> k ∈ K -> exists Q, ps !! k = Some Q /\ parent Q = par.
Proof.
  revert l q. induction K as [|m K IH]; intros l q; cbn [sibs]; [by intros _ ?%not_elem_of_nil|].
  intros (-> & Hm & Q & HQ & Hp & Hr & Hs) [-> |Hk]%elem_of_cons; [by exists Q|by eapply IH].
Qed.

(** What a change of links leaves as it is. *)
Definition same_but_links (P P' : pool_t) : Prop :=
  (parent P', cleanups P', free_cleanups P', pool_allocator P', subprocesses P', abort_fn P', user_data P', tag P', active P', self P', self_first_avail P', pre_cleanups P') =
  (parent P, cleanups P, free_cleanups P, pool_allocator P, subprocesses P, abort_fn P, user_data P, tag P, active P, self P, self_first_avail P, pre_cleanups P).

Lemma same_but_links_refl P : same_but_links P P.
Proof. done. Qed.

Lemma same_but_links_trans P Q R : same_but_links P Q -> same_but_links Q R -> same_but_links P R.
Proof. unfold same_but_links. congruence. Qed.

(** [unlink_pool] on the list of children: [l] is the link to the first of [K1 ++ p :: K2]. *)
Definition link_before (par : Z) (K1 : list Z) : pool_link := match last K1 with Some x => SiblingOf x | None => ChildOf par end.

Definition set_link (l : pool_link) (v : Z) (ps : gmap Z pool_t) : gmap Z pool_t :=
  match l with
  | ChildOf x => alter (with_child v) x ps
  | SiblingOf x => alter (with_sibling v) x ps
  end.

(** The pools after the two assignments. *)
Definition unlinked (ps : gmap Z pool_t) (l : pool_link) (q : Z) : gmap Z pool_t :=
  let ps := set_link l q ps in if q =? NULL then ps else alter (with_pref (Some l)) q ps.

Lemma unlinked_same ps l q k : match ps !! k, unlinked ps l q !! k with Some P, Some P' => same_but_links P P' | None, None => True | _, _ => False end.
Proof.
  assert (Hset : match ps !! k, set_link l q ps !! k with Some P, Some P' => same_but_links P P' | None, None => True | _, _ => False end).
  { destruct l as [x|x]; cbn [set_link]; (destruct (decide (x = k)) as [->|Hx]; [rewrite lookup_alter_eq|rewrite lookup_alter_ne by done]); by destruct (ps !! k). }
  unfold unlinked. destruct (q =? NULL); [done|]. destruct (decide (q = k)) as [->|Hq]; [rewrite lookup_alter_eq|by rewrite lookup_alter_ne].
  revert Hset. by destruct (ps !! k), (set_link l k ps !! k).
Qed.

Lemma unlinked_child ps l q k : l <> ChildOf k -> child <$> unlinked ps l q !! k = child <$> ps !! k.
Proof.
  intros Hl. unfold unlinked. assert (E : child <$> set_link l q ps !! k = child <$> ps !! k).
  { destruct l as [x|x]; cbn [set_link]; (destruct (decide (x = k)) as [->|Hx]; [|by rewrite lookup_alter_ne]); [done|]. rewrite lookup_alter_eq. by destruct (ps !! k). }
  destruct (q =? NULL); [done|]. destruct (decide (q = k)) as [->|Hq]; [|by rewrite lookup_alter_ne]. rewrite lookup_alter_eq, <- E. by destruct (set_link l k ps !! k).
Qed.

Lemma unlinked_place ps l q k : l <> SiblingOf k -> k <> q -> place <$> unlinked ps l q !! k = place <$> ps !! k.
Proof.
  intros Hl Hq. unfold unlinked. assert (E : place <$> set_link l q ps !! k = place <$> ps !! k).
  { destruct l as [x|x]; cbn [set_link]; (destruct (decide (x = k)) as [->|Hx]; [|by rewrite lookup_alter_ne]); [|done]. rewrite lookup_alter_eq. by destruct (ps !! k). }
  destruct (q =? NULL); [done|]. by rewrite lookup_alter_ne.
Qed.

Lemma sibs_next ps par l q K1 k K2 : sibs ps par l q (K1 ++ k :: K2) -> exists Q, ps !! k = Some Q /\ sibs ps par (SiblingOf k) (sibling Q) K2.
Proof.
  revert l q. induction K1 as [|m K1 IH]; intros l q; cbn [app sibs].
  - intros (_ & _ & Q & HQ & _ & _ & Hs). by exists Q.
  - intros (_ & _ & Q & _ & _ & _ & Hs). by eapply IH.
Qed.

(** The list of the parent without [p]; [l0] is the link to its first. *)
Lemma sibs_unlinked ps par p P q K1 K2 : forall l0,
  (l0 = ChildOf par \/ exists x, l0 = SiblingOf x /\ x ∉ K1 ++ p :: K2) ->
  sibs ps par l0 q (K1 ++ p :: K2) -> NoDup (K1 ++ p :: K2) -> par ∉ K1 ++ p :: K2 -> ps !! p = Some P ->
  sibs (unlinked ps (match last K1 with Some x => SiblingOf x | None => l0 end) (sibling P)) par l0 (match K1 with [] => sibling P | _ => q end) (K1 ++ K2).
Proof.
  revert q. induction K1 as [|k K1 IH]; intros q l0 Hl0 Hs Hnd Hpar HP; cbn [app] in *.
  - destruct Hs as (-> & Hp & Q & HQ & HQp & HQr & Hs). simplify_eq. cbn [last]. apply NoDup_cons in Hnd as [HpK Hnd].
    destruct K2 as [|k K2]; cbn [sibs] in *; [done|]. destruct Hs as (E & Hk & R & HR & HRp & HRr & Hs). split; [done|]. split; [done|].
    apply NoDup_cons in Hnd as [HkK Hnd]. rewrite !elem_of_cons in *.

    assert (Hset : set_link l0 k ps !! k = Some R).
    { destruct Hl0 as [->|(x & -> & Hx)]; cbn [set_link]; rewrite lookup_alter_ne; try done; intros E'; rewrite E' in *; [tauto|]. rewrite !elem_of_cons in Hx. tauto. }
    exists (with_pref (Some l0) R). unfold unlinked. rewrite E. replace (k =? NULL) with false by lia. rewrite lookup_alter_eq, Hset. split; [done|].
    split; [done|]. split; [done|]. cbn [with_pref sibling]. eapply sibs_frame; [|exact Hs]. intros m Hm. rewrite lookup_alter_ne by (by intros ->).
    destruct Hl0 as [->|(x & -> & Hx)]; cbn [set_link]; apply lookup_alter_ne; intros E'; rewrite E' in *; [tauto|]. rewrite !elem_of_cons in Hx. tauto.
  - destruct Hs as (-> & Hk & Q & HQ & HQp & HQr & Hs). apply NoDup_cons in Hnd as [HkK Hnd]. split; [done|]. split; [done|].
    rewrite elem_of_cons in Hpar. destruct (sibs_next _ _ _ _ _ _ _ Hs) as (P0 & HP0 & HsP). replace P0 with P in * by congruence. clear HP0 P0.
    assert (Hq : sibling P <> NULL -> sibling P ∈ K2) by (intros Hne; destruct K2 as [|y K2]; [done|]; destruct HsP as (-> & _); apply list_elem_of_here).
    assert (Hkq : sibling P <> k) by (intros E; apply HkK, elem_of_app; right; apply list_elem_of_further; rewrite <- E; apply Hq; congruence).
    pose proof (IH (sibling Q) (SiblingOf k) (or_intror (ex_intro _ k (conj eq_refl HkK))) Hs Hnd ltac:(tauto) HP) as Hrest.
    replace (match last (k :: K1) with Some x => SiblingOf x | None => l0 end) with (match last K1 with Some x => SiblingOf x | None => SiblingOf k end)
      by (rewrite last_cons; by destruct (last K1)).
    set (l := match last K1 with Some x => SiblingOf x | None => SiblingOf k end) in *.
    assert (Hget : exists Q', unlinked ps l (sibling P) !! k = Some Q' /\ parent Q' = parent Q /\ pref Q' = pref Q /\ sibling Q' = match K1 with [] => sibling P | _ => sibling Q end).
    { unfold unlinked. destruct K1 as [|k1 K1].
      - cbn [last] in l. exists (with_sibling (sibling P) Q). destruct (Z.eqb_spec (sibling P) NULL); rewrite ?(lookup_alter_ne _ _ _ k) by done; cbn [set_link l]; by rewrite lookup_alter_eq, HQ.
      - exists Q. assert (Hl : set_link l (sibling P) ps !! k = Some Q).
        { unfold l. destruct (last (k1 :: K1)) as [x|] eqn:Hx; [|by apply last_None in Hx]. cbn [set_link]. rewrite lookup_alter_ne; [done|]. intros ->.
          apply HkK, elem_of_app. left. by apply last_Some_elem_of. }
        destruct (Z.eqb_spec (sibling P) NULL); by rewrite ?(lookup_alter_ne _ _ _ k). }
    destruct Hget as (Q' & HQ' & E1 & E2 & E3). exists Q'. split; [done|]. split; [congruence|]. split; [congruence|]. rewrite E3. exact Hrest.
Qed.

(** ** Trees *)

(** [kids] lists the children of every pool, [ord] the pools, the newest first. *)
Record wf_tree (ps : gmap Z pool_t) (kids : Z -> list Z) (ord : list Z) : Prop := {
  wt_null : ps !! NULL = None;
  wt_kids p P : ps !! p = Some P -> sibs ps p (ChildOf p) (child P) (kids p) /\ NoDup (kids p);
  wt_parent p P : ps !! p = Some P -> parent P <> NULL -> is_Some (ps !! parent P) /\ p ∈ kids (parent P);
  wt_nodup : NoDup ord;
  wt_dom p : p ∈ ord <-> is_Some (ps !! p);
  wt_older A p B P : ord = A ++ p :: B -> ps !! p = Some P -> parent P <> NULL -> parent P ∈ B
}.

Definition drop_kid (p par : Z) (kids : Z -> list Z) (q : Z) : list Z := if q =? par then filter (fun k => k <> p) (kids q) else kids q.

Lemma filter_ne_id (p : Z) (K : list Z) : p ∉ K -> filter (fun k => k <> p) K = K.
Proof. intros Hp. induction K as [|k K IH]; [done|]. rewrite elem_of_cons in Hp. rewrite filter_cons_True by (intros ->; tauto). f_equal. tauto. Qed.

Lemma filter_ne_split (p : Z) (K1 K2 : list Z) : NoDup (K1 ++ p :: K2) -> filter (fun k => k <> p) (K1 ++ p :: K2) = K1 ++ K2.
Proof.
  intros Hnd. rewrite filter_app, filter_cons_False by tauto. apply NoDup_app in Hnd as (_ & H1 & H2). apply NoDup_cons in H2 as [H2 _].
  rewrite !filter_ne_id; [done|done|]. intros Hp. by apply (H1 p Hp), list_elem_of_here.
Qed.

Section tree.
Context (ps : gmap Z pool_t) (kids : Z -> list Z) (ord : list Z) (Hwf : wf_tree ps kids ord).

Lemma kid_lookup p P k : ps !! p = Some P -> k ∈ kids p -> exists Q, ps !! k = Some Q /\ parent Q = p.
Proof using Hwf. intros HP Hk. by eapply sibs_lookup; [apply (wt_kids _ _ _ Hwf _ _ HP)|]. Qed.

Lemma pool_not_null p : is_Some (ps !! p) -> p <> NULL.
Proof using Hwf. intros [P HP] ->. by rewrite (wt_null _ _ _ Hwf) in HP. Qed.

(** A child is newer. *)
Lemma kid_newer A p B P k : ord = A ++ p :: B -> ps !! p = Some P -> k ∈ kids p -> k ∈ A.
Proof using Hwf.
  intros Ho HP Hk. destruct (kid_lookup _ _ _ HP Hk) as (Q & HQ & Hp). assert (Hin : k ∈ ord) by (apply (wt_dom _ _ _ Hwf); by exists Q).
  pose proof (pool_not_null p ltac:(by exists P)) as Hp0. pose proof (wt_nodup _ _ _ Hwf) as Hnd. rewrite Ho in Hin. apply elem_of_app in Hin as [|Hin]; [done|]. exfalso.
  rewrite Ho in Hnd. apply NoDup_app in Hnd as (_ & Hd & Hnd). apply NoDup_cons in Hnd as [HpB _]. apply elem_of_cons in Hin as [-> |Hin].
  - apply HpB. rewrite <- Hp at 1. apply (wt_older _ _ _ Hwf A p B Q); [done|done|congruence].
  - apply list_elem_of_split in Hin as (B1 & B2 & ->). apply HpB, elem_of_app. right. apply list_elem_of_further. rewrite <- Hp.
    apply (wt_older _ _ _ Hwf (A ++ p :: B1) k B2 Q); [|done|congruence]. by rewrite <- app_assoc.
Qed.

Lemma own_parent p P : ps !! p = Some P -> parent P <> p.
Proof using Hwf.
  intros HP E. assert (Hin : p ∈ ord) by (apply (wt_dom _ _ _ Hwf); by exists P). apply list_elem_of_split in Hin as (A & B & Ho).
  pose proof (pool_not_null p ltac:(by exists P)). pose proof (wt_older _ _ _ Hwf A p B P Ho HP ltac:(congruence)) as Hin. rewrite E in Hin.
  pose proof (wt_nodup _ _ _ Hwf) as Hnd. rewrite Ho in Hnd. apply NoDup_app in Hnd as (_ & _ & Hnd). apply NoDup_cons in Hnd. tauto.
Qed.
End tree.

(** ** A pool leaves *)

Definition alike (ps ps' : gmap Z pool_t) : Prop :=
  forall k, match ps !! k, ps' !! k with Some P, Some P' => same_but_links P P' | None, None => True | _, _ => False end.

Lemma alike_lookup ps ps' k P' : alike ps ps' -> ps' !! k = Some P' -> exists P, ps !! k = Some P /\ same_but_links P P'.
Proof. intros Hs HP'. specialize (Hs k). rewrite HP' in Hs. destruct (ps !! k) as [P|]; [by exists P|done]. Qed.

Lemma alike_some ps ps' k : alike ps ps' -> is_Some (ps' !! k) <-> is_Some (ps !! k).
Proof. intros Hs. specialize (Hs k). destruct (ps !! k), (ps' !! k); try done; split; by eexists. Qed.

Lemma upd_pool_alter s x f : is_Some (pools s !! x) -> upd_pool s x f = Ok (mkP (mem s) (alter f x (pools s)) (events s)).
Proof.
  intros [P HP]. unfold upd_pool, get_pool. rewrite HP. cbn [of_option rbind]. do 2 f_equal. apply map_eq. intros k.
  destruct (decide (k = x)) as [->|Hk]; [by rewrite lookup_insert_eq, lookup_alter_eq, HP|by rewrite lookup_insert_ne, lookup_alter_ne].
Qed.

Lemma sibs_pref ps par q K1 p K2 : forall l0, sibs ps par l0 q (K1 ++ p :: K2) ->
  exists P, ps !! p = Some P /\ pref P = Some (match last K1 with Some x => SiblingOf x | None => l0 end).
Proof.
  revert q. induction K1 as [|k K1 IH]; intros q l0; cbn [app sibs].
  - intros (_ & _ & P & HP & _ & Hr & _). by exists P.
  - intros (_ & _ & Q & _ & _ & _ & Hs). destruct (IH _ _ Hs) as (P & HP & E). exists P. split; [done|]. rewrite E, last_cons. by destruct (last K1).
Qed.

Lemma sibs_head ps par l q K : sibs ps par l q K -> q = NULL \/ q ∈ K.
Proof. destruct K; [by left|]. intros (-> & _). right. apply list_elem_of_here. Qed.

Lemma link_in_pools ps par K1 p K2 q l : l = (match last K1 with Some x => SiblingOf x | None => ChildOf par end) -> sibs ps par (ChildOf par) q (K1 ++ p :: K2) -> is_Some (ps !! par) ->
  match l with ChildOf x | SiblingOf x => is_Some (ps !! x) end.
Proof.
  intros -> Hs Hp. destruct (last K1) as [x|] eqn:Hx; [|done]. apply last_Some_elem_of in Hx.
  destruct (sibs_lookup _ _ _ _ _ x Hs ltac:(apply elem_of_app; by left)) as (Q & HQ & _). by exists Q.
Qed.

Lemma unlink_pool_writes s P l : parent P <> NULL -> pref P = Some l -> match l with ChildOf x | SiblingOf x => is_Some (pools s !! x) end ->
  (sibling P <> NULL -> is_Some (pools s !! sibling P)) -> unlink_pool s P = Ok (mkP (mem s) (unlinked (pools s) l (sibling P)) (events s)).
Proof.
  intros Hp Hr Hl Hs. unfold unlink_pool. replace (parent P =? NULL) with false by lia. rewrite Hr. cbn [of_option rbind].
  assert (E : write_pool_link s l (sibling P) = Ok (mkP (mem s) (set_link l (sibling P) (pools s)) (events s))) by (destruct l; cbn; by apply upd_pool_alter).
  rewrite E. cbn [rbind]. unfold unlinked. destruct (Z.eqb_spec (sibling P) NULL) as [|Hn]; [done|]. rewrite upd_pool_alter; [done|]. cbn [pools].
  specialize (Hs Hn). destruct l as [x|x]; cbn [set_link]; (destruct (decide (x = sibling P)) as [->|Hx]; [rewrite lookup_alter_eq; by apply fmap_is_Some|by rewrite lookup_alter_ne]).
Qed.

Lemma filter_split (p q : Z) (l A B : list Z) : filter (fun k => k <> p) l = A ++ q :: B ->
  exists A0 B0, l = A0 ++ q :: B0 /\ filter (fun k => k <> p) A0 = A /\ filter (fun k => k <> p) B0 = B.
Proof.
  revert A. induction l as [|x l IH]; intros A E; [by destruct A|]. destruct (decide (x = p)) as [->|Hx].
  - rewrite filter_cons_False in E by tauto. destruct (IH A E) as (A0 & B0 & -> & EA & EB). exists (p :: A0), B0. rewrite filter_cons_False by tauto. done.
  - rewrite filter_cons_True in E by done. destruct A as [|y A]; cbn [app] in E; injection E as -> E; [by exists [], l|].
    destruct (IH A E) as (A0 & B0 & -> & EA & EB). exists (y :: A0), B0. rewrite filter_cons_True by done. by rewrite EA.
Qed.

Section leave.
Context (ps : gmap Z pool_t) (kids : Z -> list Z) (ord : list Z) (Hwf : wf_tree ps kids ord) (p : Z) (P : pool_t) (HP : ps !! p = Some P).

Lemma dropped_kid q : is_Some (ps !! q) -> p ∉ drop_kid p (parent P) kids q.
Proof using Hwf HP.
  intros [Q HQ]. unfold drop_kid. destruct (Z.eqb_spec q (parent P)) as [E|E]; [by intros [? _]%list_elem_of_filter|].
  intros Hin. destruct (kid_lookup _ _ _ Hwf _ _ _ HQ Hin) as (P' & HP' & E'). congruence.
Qed.

Lemma wf_tree_drop ps' : kids p = [] -> alike ps ps' ->
  (forall q Q', q <> p -> ps' !! q = Some Q' -> sibs ps' q (ChildOf q) (child Q') (drop_kid p (parent P) kids q)) ->
  wf_tree (delete p ps') (drop_kid p (parent P) kids) (filter (fun k => k <> p) ord).
Proof using Hwf HP.
  intros Hk Hal Hs. constructor.
  - apply lookup_delete_None. right. apply eq_None_not_Some. rewrite (alike_some _ _ _ Hal). rewrite (wt_null _ _ _ Hwf). by intros [].
  - intros q Q' [Hq HQ']%lookup_delete_Some. destruct (alike_lookup _ _ _ _ Hal HQ') as (Q & HQ & _). split.
    + eapply sibs_frame; [|apply (Hs q Q' ltac:(done) HQ')]. intros k Hin. apply lookup_delete_ne. intros <-. by apply (dropped_kid q (mk_is_Some _ _ HQ)).
    + unfold drop_kid. destruct (q =? parent P); [apply NoDup_filter|]; apply (wt_kids _ _ _ Hwf _ _ HQ).
  - intros q Q' [Hq HQ']%lookup_delete_Some Hp. destruct (alike_lookup _ _ _ _ Hal HQ') as (Q & HQ & E). unfold same_but_links in E. injection E as E _.
    rewrite E in *. destruct (wt_parent _ _ _ Hwf _ _ HQ Hp) as [Hpar Hin]. assert (Hne : parent Q <> p) by (intros E'; rewrite E', Hk in Hin; by apply not_elem_of_nil in Hin).
    split; [rewrite lookup_delete_ne by done; by apply (alike_some _ _ _ Hal)|]. unfold drop_kid. destruct (parent Q =? parent P); [|done]. by apply list_elem_of_filter.
  - apply NoDup_filter, (wt_nodup _ _ _ Hwf).
  - intros q. rewrite list_elem_of_filter, (wt_dom _ _ _ Hwf), <- (alike_some _ _ _ Hal). destruct (decide (q = p)) as [->|Hq]; [rewrite lookup_delete_eq; split; [tauto|by intros []]|].
    rewrite lookup_delete_ne by done. tauto.
  - intros A q B Q' (A0 & B0 & -> & EA & EB)%filter_split [Hq HQ']%lookup_delete_Some Hp. destruct (alike_lookup _ _ _ _ Hal HQ') as (Q & HQ & E). unfold same_but_links in E. injection E as E _.
    rewrite E in *. subst B. apply list_elem_of_filter. split; [|by apply (wt_older _ _ _ Hwf A0 q B0 Q)].
    destruct (wt_parent _ _ _ Hwf _ _ HQ Hp) as [_ Hin]. intros E'. rewrite E', Hk in Hin. by apply not_elem_of_nil in Hin.
Qed.

(** The lists of children when [p] has left that of its parent. *)
Lemma unlinked_kids K1 K2 l : parent P <> NULL -> kids (parent P) = K1 ++ p :: K2 -> l = link_before (parent P) K1 -> forall q Q', q <> p -> unlinked ps l (sibling P) !! q = Some Q' ->
  sibs (unlinked ps l (sibling P)) q (ChildOf q) (child Q') (drop_kid p (parent P) kids q).
Proof using Hwf HP.
  intros Hp0 HK -> q Q' Hq HQ'. set (l := link_before (parent P) K1) in *. destruct (alike_lookup ps _ q Q' (unlinked_same ps l (sibling P)) HQ') as (Q & HQ & _).
  destruct (wt_parent _ _ _ Hwf _ _ HP Hp0) as [[R HR] _]. pose proof (wt_kids _ _ _ Hwf _ _ HR) as [Hs Hnd]. rewrite HK in Hs, Hnd.
  assert (HinK : forall k, k ∈ K1 ++ p :: K2 -> exists Q, ps !! k = Some Q /\ parent Q = parent P) by (intros k Hk; rewrite <- HK in Hk; by apply (kid_lookup _ _ _ Hwf _ R)).
  unfold drop_kid. destruct (Z.eqb_spec q (parent P)) as [->|Hqp].
  - rewrite HK, filter_ne_split by done. assert (R = Q) as -> by congruence.
    assert (Hnp : parent P ∉ K1 ++ p :: K2). { intros Hin. destruct (HinK _ Hin) as (R' & HR' & E). by apply (own_parent _ _ _ Hwf _ _ HR'). }
    pose proof (sibs_unlinked ps (parent P) p P (child Q) K1 K2 (ChildOf (parent P)) ltac:(by left) Hs Hnd Hnp HP) as Hres.
    replace (child Q') with (match K1 with [] => sibling P | _ => child Q end); [exact Hres|]. destruct K1 as [|k K1].
    + unfold l, link_before, unlinked in HQ'. cbn [last] in HQ'. assert (E : set_link (ChildOf (parent P)) (sibling P) ps !! parent P = Some (with_child (sibling P) Q)) by (cbn; by rewrite lookup_alter_eq, HR).
      destruct (sibling P =? NULL); [by simplify_eq|]. destruct (decide (sibling P = parent P)) as [E'|E']; [rewrite E', lookup_alter_eq, <- E' in HQ'|rewrite lookup_alter_ne in HQ' by done; by simplify_eq].
      rewrite E' in HQ', E. rewrite E in HQ'. cbn in HQ'. by simplify_eq.
    + assert (E : child <$> unlinked ps l (sibling P) !! parent P = child <$> ps !! parent P).
      { apply unlinked_child. unfold l, link_before. destruct (last (k :: K1)) eqn:Hl; [done|]. by apply last_None in Hl. }
      rewrite HQ', HR in E. by injection E.
  - assert (Ec : child Q' = child Q).
    { assert (E : child <$> unlinked ps l (sibling P) !! q = child <$> ps !! q) by (apply unlinked_child; unfold l, link_before; destruct (last K1); [done|]; by intros [= E]).
      rewrite HQ', HQ in E. by injection E. }
    rewrite Ec. eapply sibs_place; [|apply (wt_kids _ _ _ Hwf _ _ HQ)]. intros k Hk. destruct (kid_lookup _ _ _ Hwf _ _ _ HQ Hk) as (C & HC & EC). apply unlinked_place.
    + unfold l, link_before. destruct (last K1) as [x|] eqn:Hx; [|done]. intros [= ->]. apply last_Some_elem_of in Hx. destruct (HinK k ltac:(apply elem_of_app; by left)) as (C' & HC' & E). congruence.
    + intros ->. destruct (sibs_next _ _ _ _ _ _ _ Hs) as (P' & HP' & HsP). assert (P' = P) as -> by congruence. destruct (sibs_head _ _ _ _ _ HsP) as [E|Hin].
      * rewrite E in HC. by rewrite (wt_null _ _ _ Hwf) in HC.
      * destruct (HinK (sibling P) ltac:(apply elem_of_app; right; by apply list_elem_of_further)) as (C' & HC' & E). congruence.
Qed.
End leave.

Lemma unlink_pool_spec s kids ord p P : wf_tree (pools s) kids ord -> pools s !! p = Some P -> kids p = [] ->
  exists ps', unlink_pool s P = Ok (mkP (mem s) ps' (events s)) /\ alike (pools s) ps' /\
    wf_tree (delete p ps') (drop_kid p (parent P) kids) (filter (fun k => k <> p) ord).
Proof.
  intros Hwf HP Hk. destruct (decide (parent P = NULL)) as [Hp0|Hp0].
  - exists (pools s). split; [unfold unlink_pool; rewrite Hp0; by destruct s|]. assert (Ha : alike (pools s) (pools s)) by (intros k; by destruct (pools s !! k)). split; [done|].
    apply (wf_tree_drop _ _ _ Hwf p P HP); try done. intros q Q _ HQ. unfold drop_kid. rewrite Hp0. destruct (Z.eqb_spec q NULL) as [->|]; [by rewrite (wt_null _ _ _ Hwf) in HQ|].
    apply (wt_kids _ _ _ Hwf _ _ HQ).
  - destruct (wt_parent _ _ _ Hwf _ _ HP Hp0) as [[R HR] Hin]. pose proof (proj1 (wt_kids _ _ _ Hwf _ _ HR)) as Hs. destruct (list_elem_of_split _ _ Hin) as (K1 & K2 & HK). rewrite HK in Hs.
    destruct (sibs_pref _ _ _ _ _ _ _ Hs) as (P1 & HP1 & Hr). assert (P1 = P) as -> by congruence. fold (link_before (parent P) K1) in Hr. set (l := link_before (parent P) K1) in *.
    exists (unlinked (pools s) l (sibling P)). split; [|split; [exact (unlinked_same _ _ _)|]].
    + apply unlink_pool_writes; try done; [eapply link_in_pools; [reflexivity|exact Hs|by exists R]|]. intros Hn. destruct (sibs_next _ _ _ _ _ _ _ Hs) as (P2 & HP2 & HsP). assert (P2 = P) as -> by congruence.
      destruct (sibs_head _ _ _ _ _ HsP) as [|Hin2]; [done|]. destruct (sibs_lookup _ _ _ _ _ _ HsP Hin2) as (C & HC & _). by exists C.
    + apply (wf_tree_drop _ _ _ Hwf p P HP); [done|exact (unlinked_same _ _ _)|]. by apply (unlinked_kids _ _ _ Hwf p P HP K1 K2).
Qed.

(** ** A pool joins *)

Definition add_kid (p par : Z) (kids : Z -> list Z) (q : Z) : list Z := if q =? p then [] else if q =? par then p :: kids q else kids q.

Section join.
Context (ps : gmap Z pool_t) (kids : Z -> list Z) (ord : list Z) (Hwf : wf_tree ps kids ord) (p : Z) (P : pool_t).
Context (Hp : ps !! p = None) (Hp0 : p <> NULL) (HPc : child P = NULL) (Hpar : parent P = NULL \/ is_Some (ps !! parent P)).

Lemma wf_tree_add ps' : ps' !! p = Some P -> (forall k, k <> p -> parent <$> ps' !! k = parent <$> ps !! k) ->
  (forall q Q', q <> p -> ps' !! q = Some Q' -> sibs ps' q (ChildOf q) (child Q') (add_kid p (parent P) kids q)) ->
  wf_tree ps' (add_kid p (parent P) kids) (p :: ord).
Proof using Hwf Hp Hp0 HPc Hpar.
  intros HP Hk Hs. assert (Hsome : forall k, k <> p -> is_Some (ps' !! k) <-> is_Some (ps !! k)).
  { intros k Hne. rewrite <- (fmap_is_Some parent (ps' !! k)), Hk by done. apply fmap_is_Some. }
  assert (Hlook : forall k Q', k <> p -> ps' !! k = Some Q' -> exists Q, ps !! k = Some Q /\ parent Q' = parent Q).
  { intros k Q' Hne HQ'. specialize (Hk k Hne). rewrite HQ' in Hk. destruct (ps !! k) as [Q|]; [|done]. exists Q. split; [done|]. by injection Hk. }
  assert (HpK : forall q, is_Some (ps !! q) -> p ∉ kids q).
  { intros q [Q HQ] Hin. destruct (kid_lookup _ _ _ Hwf _ _ _ HQ Hin) as (C & HC & _). congruence. }
  assert (Hself : parent P <> p) by (destruct Hpar as [-> |[Q HQ]]; congruence). assert (Hpo : p ∉ ord) by (rewrite (wt_dom _ _ _ Hwf), Hp; by intros []).
  constructor.
  - apply eq_None_not_Some. rewrite Hsome, (wt_null _ _ _ Hwf) by done. by intros [].
  - intros q Q' HQ'. destruct (decide (q = p)) as [->|Hq].
    + assert (Q' = P) as -> by congruence. unfold add_kid. rewrite Z.eqb_refl, HPc. split; [done|constructor].
    + split; [by apply Hs|]. destruct (Hlook _ _ Hq HQ') as (Q & HQ & _). destruct (wt_kids _ _ _ Hwf _ _ HQ) as [_ Hnd]. unfold add_kid. replace (q =? p) with false by lia.
      destruct (q =? parent P); [|done]. apply NoDup_cons. split; [|done]. apply HpK. by exists Q.
  - intros q Q' HQ' Hne. destruct (decide (q = p)) as [->|Hq].
    + assert (Q' = P) as -> by congruence. destruct Hpar as [|Hpp]; [done|]. split; [by apply Hsome|]. unfold add_kid. replace (parent P =? p) with false by lia.
      rewrite Z.eqb_refl. apply list_elem_of_here.
    + destruct (Hlook _ _ Hq HQ') as (Q & HQ & E). rewrite E in *. destruct (wt_parent _ _ _ Hwf _ _ HQ Hne) as [[R HR] Hin].
      assert (parent Q <> p) by congruence. split; [apply Hsome; [done|by exists R]|]. unfold add_kid. replace (parent Q =? p) with false by lia.
      destruct (parent Q =? parent P); [by apply list_elem_of_further|done].
  - apply NoDup_cons. split; [done|apply (wt_nodup _ _ _ Hwf)].
  - intros q. rewrite elem_of_cons, (wt_dom _ _ _ Hwf). destruct (decide (q = p)) as [->|Hq]; [rewrite HP; split; [by eexists|by left]|]. rewrite Hsome by done. tauto.
  - intros A q B Q' Ho HQ' Hne. destruct A as [|x A]; cbn [app] in Ho; injection Ho as -> Ho.
    + assert (Q' = P) as -> by congruence. subst B. destruct Hpar as [|Hpp]; [done|]. by apply (wt_dom _ _ _ Hwf).
    + assert (Hq : q <> x) by (intros ->; apply Hpo; rewrite Ho; apply elem_of_app; right; apply list_elem_of_here).
      destruct (Hlook _ _ Hq HQ') as (Q & HQ & E). rewrite E in *. by apply (wt_older _ _ _ Hwf A q B Q).
Qed.

(** A root. *)
Lemma wf_tree_root : parent P = NULL -> wf_tree (<[p := P]> ps) (add_kid p NULL kids) (p :: ord).
Proof using Hwf Hp Hp0 HPc Hpar.
  intros E. rewrite <- E. apply wf_tree_add; [apply lookup_insert_eq|intros k Hk; by rewrite lookup_insert_ne|].
  intros q Q Hq. rewrite lookup_insert_ne by done. intros HQ. unfold add_kid. rewrite E. replace (q =? p) with false by lia.
  destruct (Z.eqb_spec q NULL) as [->|_]; [by rewrite (wt_null _ _ _ Hwf) in HQ|]. eapply sibs_frame; [|apply (wt_kids _ _ _ Hwf _ _ HQ)].
  intros k Hin. apply lookup_insert_ne. intros <-. destruct (kid_lookup _ _ _ Hwf _ _ _ HQ Hin) as (C & HC & _). congruence.
Qed.

(** A child, at the head of the list of its parent. *)
Definition joined (Q : pool_t) : gmap Z pool_t :=
  alter (with_child p) (parent P) (if child Q =? NULL then <[p := P]> ps else alter (with_pref (Some (SiblingOf p))) (child Q) (<[p := P]> ps)).

Lemma joined_lookup Q k : k <> p -> joined Q !! k =
  (fun R => (if decide (k = parent P) then with_child p else id) ((if decide (k = child Q /\ child Q <> NULL) then with_pref (Some (SiblingOf p)) else id) R)) <$> ps !! k.
Proof using Type*.
  intros Hk. unfold joined. destruct (decide (k = parent P)) as [->|Hkp]; [rewrite lookup_alter_eq|rewrite lookup_alter_ne by done];
    (destruct (Z.eqb_spec (child Q) NULL) as [E|E]; [rewrite lookup_insert_ne by done; destruct (decide _) as [[_ ?]|_]; [congruence|]; match goal with |- context [ps !! ?x] => by destruct (ps !! x) end|]);
    (match goal with |- context [decide (?k = child Q /\ _)] => destruct (decide (k = child Q)) as [Ek|Hkc] end;
       [rewrite Ek, lookup_alter_eq, lookup_insert_ne, decide_True by (congruence || by split)|rewrite lookup_alter_ne, lookup_insert_ne, decide_False by (done || tauto)]);
    match goal with |- context [ps !! ?x] => by destruct (ps !! x) end.
Qed.

Lemma wf_tree_child Q : ps !! parent P = Some Q -> sibling P = child Q -> pref P = Some (ChildOf (parent P)) ->
  wf_tree (joined Q) (add_kid p (parent P) kids) (p :: ord).
Proof using Hwf Hp Hp0 HPc Hpar.
  intros HQ Hsib Hr. assert (Hself : parent P <> p) by congruence. pose proof (wt_kids _ _ _ Hwf _ _ HQ) as [HsQ HndQ]. pose proof (pool_not_null _ _ _ Hwf _ (mk_is_Some _ _ HQ)) as Hpar0.
  assert (HcQ : child Q <> NULL -> child Q ∈ kids (parent P)) by (intros Hc; by destruct (sibs_head _ _ _ _ _ HsQ)).
  assert (Hcp : child Q <> NULL -> child Q <> p).
  { intros Hc E. destruct (kid_lookup _ _ _ Hwf _ _ _ HQ (HcQ Hc)) as (C & HC & _). congruence. }
  assert (HP : joined Q !! p = Some P).
  { unfold joined. rewrite lookup_alter_ne by done. destruct (Z.eqb_spec (child Q) NULL); [apply lookup_insert_eq|]. rewrite lookup_alter_ne by auto. apply lookup_insert_eq. }
  apply wf_tree_add; [done| |].
  - intros k Hk. rewrite joined_lookup by done. destruct (ps !! k); [|done]. cbn. by repeat destruct (decide _).
  - intros q R' Hq HR'. rewrite joined_lookup in HR' by done. destruct (ps !! q) as [R|] eqn:HR; [|done]. cbn in HR'. injection HR' as <-.
    pose proof (wt_kids _ _ _ Hwf _ _ HR) as [HsR HndR]. unfold add_kid. replace (q =? p) with false by lia.
    assert (Hplace : forall k, k ∈ kids q -> k <> child Q -> place <$> joined Q !! k = place <$> ps !! k).
    { intros k Hk Hkc. destruct (kid_lookup _ _ _ Hwf _ _ _ HR Hk) as (C & HC & _). rewrite joined_lookup by congruence. rewrite HC. cbn. rewrite (decide_False (P := k = child Q /\ _)) by tauto. by destruct (decide _). }
    destruct (Z.eqb_spec q (parent P)) as [->|Hqp].
    + assert (R = Q) as -> by congruence. rewrite decide_True by done. cbn [with_child child]. split; [done|]. split; [done|]. exists P. split; [done|]. split; [done|]. split; [done|].
      rewrite Hsib. destruct (kids (parent P)) as [|c K]; [done|]. destruct HsQ as (Ec & Hc0 & C & HC & EC1 & EC2 & HsK). cbn [sibs]. split; [done|]. split; [done|].
      apply NoDup_cons in HndQ as [HcK _].
      assert (HC' : joined Q !! c = Some ((if decide (c = parent P) then with_child p else id) (with_pref (Some (SiblingOf p)) C))) by (rewrite joined_lookup by congruence; rewrite HC; cbn; by rewrite (decide_True (P := c = child Q /\ _)) by (split; congruence)).
      exists ((if decide (c = parent P) then with_child p else id) (with_pref (Some (SiblingOf p)) C)). split; [done|].
      assert (Hf : parent ((if decide (c = parent P) then with_child p else id) (with_pref (Some (SiblingOf p)) C)) = parent C /\ pref ((if decide (c = parent P) then with_child p else id) (with_pref (Some (SiblingOf p)) C)) = Some (SiblingOf p) /\
        sibling ((if decide (c = parent P) then with_child p else id) (with_pref (Some (SiblingOf p)) C)) = sibling C) by (by destruct (decide _)). destruct Hf as (-> & -> & ->).
      split; [done|]. split; [done|]. eapply sibs_place; [|exact HsK]. intros k Hk. apply Hplace; [by apply list_elem_of_further|]. intros ->. congruence.
    + rewrite decide_False by done. replace (child (id _)) with (child R) by (by destruct (decide _)). eapply sibs_place; [|exact HsR]. intros k Hk. apply Hplace; [done|]. intros ->.
      destruct (kid_lookup _ _ _ Hwf _ _ _ HR Hk) as (C & HC & EC). assert (Hc : child Q <> NULL) by (apply (pool_not_null _ _ _ Hwf); by exists C).
      destruct (kid_lookup _ _ _ Hwf _ _ _ HQ (HcQ Hc)) as (C' & HC' & EC'). congruence.
Qed.
End join.
