(* ===== verification/AprRelease.v ===== *)
(** * Giving the nodes of a pool back: [src/apr/memory/unix/apr_pools.c]

    The last part of [apr_pool_destroy] and of [apr_pool_clear]: the ring is cut open
    and goes to the allocator as a list. *)

From S2P Require Import Prelude AprAllocator AprFree AprPools AprRing AprPalloc.

(** ** The ring as a list *)

Lemma ring_turn h s L1 : forall a L2, ring h a (L1 ++ s :: L2) -> ring h s (L2 ++ a :: L1).
Proof.
  induction L1 as [|b L1 IH]; intros a L2 Hr; cbn [app] in Hr; [by apply ring_from_next|].
  apply ring_from_next in Hr. rewrite <- app_assoc in Hr. apply IH in Hr. by rewrite <- app_assoc in Hr.
Qed.

(** The ring seen from another of its nodes. *)
Lemma ring_from h a L s : ring h a L -> s ∈ a :: L -> exists L', ring h s L' /\ forall z, z ∈ s :: L' <-> z ∈ a :: L.
Proof.
  intros Hr [-> |Hs]%elem_of_cons; [by exists L|]. apply list_elem_of_split in Hs as (L1 & L2 & ->). exists (L2 ++ a :: L1). split; [by apply ring_turn|].
  intros z. rewrite !elem_of_cons, !elem_of_app, !elem_of_cons. tauto.
Qed.

Lemma seg_chain h L : forall x, seg h x L -> nxt h (last_of x L) = Some NULL -> (forall z, z ∈ x :: L -> z <> NULL) -> chain h x (x :: L).
Proof.
  induction L as [|y L IH]; intros x Hs Hl Hn; (split; [done|]); (split; [by apply Hn, list_elem_of_here|]).
  - unfold last_of in Hl. cbn in Hl. unfold nxt in Hl. destruct (h !! x) as [d|]; [|done]. cbn in Hl. exists d. split; [done|]. cbn [chain]. congruence.
  - destruct Hs as [[Hx _] Hs]. unfold nxt in Hx. destruct (h !! x) as [d|]; [|done]. cbn in Hx. exists d. split; [done|]. replace (next d) with y by congruence.
    rewrite last_of_cons in Hl. apply IH; [done|done|]. intros z Hz. by apply Hn, list_elem_of_further.
Qed.

Lemma cut_ring_spec m s L : ring (nodes m) s L -> (forall z, z ∈ s :: L -> z <> NULL) ->
  exists h', cut_ring m s = Ok (mkArena h' (allocators m)) /\ chain h' s (s :: L) /\ same_content (nodes m) h' /\ (forall z, z ∉ s :: L -> h' !! z = nodes m !! z).
Proof.
  intros [Hs Hc Hnd] Hn. pose proof (linked_lookup _ _ _ Hc) as [[dl Hdl] [ds Hds]]. destruct Hc as [Hnx Hrf]. set (l := last_of s L) in *.
  exists (<[l := with_next NULL dl]> (nodes m)). split_and!.
  - unfold cut_ring, get_node. rewrite Hds. cbn [of_option rbind]. unfold rf in Hrf. rewrite Hds in Hrf. cbn in Hrf. unfold ref_of. rewrite Hrf. cbn [of_option rbind].
    by apply upd_node_ok.
  - apply seg_chain; [|fold l; by rewrite nxt_insert, decide_True|done]. eapply seg_frame; [done| | |exact Hs].
    + intros z _ Hz. by rewrite nxt_insert, decide_False.
    + intros z _. rewrite rf_insert. case_decide as E; [|done]. subst z. unfold rf. by rewrite Hdl.
  - by apply (same_content_insert _ _ dl).
  - intros z Hz. apply lookup_insert_ne. intros <-. apply Hz, last_of_elem.
Qed.

(** ** A pool less *)

Definition others (p : Z) (home : gmap Z Z) : gmap Z Z := filter (fun x => x.2 <> p) home.

Lemma others_lookup p home n q : others p home !! n = Some q <-> home !! n = Some q /\ q <> p.
Proof. unfold others. by rewrite map_lookup_filter_Some. Qed.

Lemma wf_pools_remove s own home p m own' ev :
  wf_pools s own home -> wf_arena m own' -> (forall n, own' !! n = Some None <-> exists q, home !! n = Some q /\ q <> p) ->
  (forall n q, home !! n = Some q -> q <> p -> nodes m !! n = nodes (mem s) !! n) ->
  (forall q Q, q <> p -> pools s !! q = Some Q -> is_Some (allocators m !! pool_allocator Q)) ->
  wf_pools (mkP m (delete p (pools s)) ev) own' (others p home).
Proof.
  intros Hwf Hwa Ho Hn Ha. constructor; cbn [mem pools].
  - done.
  - intros n. rewrite Ho. unfold is_Some. by setoid_rewrite others_lookup.
  - intros q Q [Hq HQ]%lookup_delete_Some. destruct (wps_pool _ _ _ Hwf _ _ HQ) as (L & HL & Hh). exists L. split.
    + eapply wf_pool_frame; [|exact HL]. intros n Hin%Hh. by apply (Hn n q).
    + intros n. rewrite others_lookup, Hh. split; [tauto|]. intros Hin. split; [done|congruence].
  - intros q Q [Hq HQ]%lookup_delete_Some. by apply (Ha q).
  - intros n q [Hq Hne]%others_lookup. rewrite lookup_delete_ne by done. by apply (wps_alive _ _ _ Hwf n).
Qed.

Section release.
Context (s : pstate) (own : owners) (home : gmap Z Z) (p : Z) (P : pool_t) (a : allocator_t).
Context (Hwf : wf_pools s own home) (HP : pools s !! p = Some P) (Ha : allocators (mem s) !! pool_allocator P = Some a).
Abbreviation al := (pool_allocator P).

(** The ring of the pool, from the first node, cut open. *)
Lemma ring_cut : exists L h, cut_ring (mem s) (self P) = Ok (mkArena h (allocators (mem s))) /\ chain h (self P) (self P :: L) /\ NoDup (self P :: L) /\
  same_content (nodes (mem s)) h /\ (forall n, home !! n = Some p <-> n ∈ self P :: L) /\ (forall n, n ∉ self P :: L -> h !! n = nodes (mem s) !! n) /\
  wf_arena (mkArena h (allocators (mem s))) own.
Proof using Hwf HP.
  destruct (wps_pool _ _ _ Hwf _ _ HP) as (L0 & HL & Hh). destruct (ring_from _ _ _ _ (wp_ring _ _ _ _ HL) (wp_self _ _ _ _ HL)) as (L & Hr & Hin).
  destruct (cut_ring_spec (mem s) (self P) L Hr) as (h & E & Hc & Hsame & Hf).
  { intros z Hz. destruct (ring_lookup _ _ _ _ Hr Hz) as [d Hd]. apply (wf_nodes _ _ (wps_arena _ _ _ Hwf)) in Hd as [Hz0 _]. lia. }
  exists L, h. split_and!; try done; [apply (ring_nodup _ _ _ Hr)|intros n; by rewrite Hin|].
  apply wf_relinked; [apply (wps_arena _ _ _ Hwf)|by apply same_content_region|]. intros n Hn. apply Hf. rewrite Hin, <- Hh. intros Hp.
  apply Hn, (wps_home _ _ _ Hwf). by exists p.
Qed.

(** The allocator takes the list [L] of nodes of the pool. *)
Lemma nodes_back m node L a' : wf_arena m own -> allocators m !! al = Some a' -> chain (nodes m) node L -> L <> [] -> NoDup L -> (forall n, n ∈ L -> home !! n = Some p) ->
  exists m' own', allocator_free m al node = Ok m' /\ wf_arena m' own' /\ (forall n, own' !! n = Some None <-> is_Some (home !! n) /\ n ∉ L) /\
    (forall n, n ∉ L -> is_Some (home !! n) -> nodes m' !! n = nodes m !! n) /\ (forall n, own' !! n = own !! n \/ own' !! n = Some (Some al) \/ own' !! n = None) /\
    (forall x, owner <$> allocators m' !! x = owner <$> allocators m !! x).
Proof using Hwf.
  intros Hwa Ha' Hc Hne Hnd HL. assert (Hout : forall n, n ∈ L -> own !! n = Some None) by (intros n Hn; apply (wps_home _ _ _ Hwf); exists p; by apply HL).
  destruct (allocator_free_spec m own al a' node L Hwa Ha' Hc Hne Hnd Hout) as (m' & own' & E & Hwa' & Hback & Hkept & Hun).
  exists m', own'. split_and!; try done.
  - intros n. rewrite <- (wps_home _ _ _ Hwf). destruct (decide (n ∈ L)) as [Hin|Hin]; [|rewrite Hkept by done; tauto]. split; [|tauto]. intros E'. destruct (Hback n Hin); congruence.
  - intros n Hn Hh. apply (un_nodes _ _ _ _ _ _ Hun); [done|]. by apply (wps_home _ _ _ Hwf).
  - intros n. destruct (decide (n ∈ L)) as [Hin|Hin]; [right; by apply Hback|left; by apply Hkept].
  - intros x. destruct (decide (x = al)) as [->|Hx]; [|by rewrite (un_allocators _ _ _ _ _ _ Hun)].
    destruct (un_settings _ _ _ _ _ _ Hun a' Ha') as (a2 & Ha2 & _ & _ & Eo). rewrite Ha', Ha2. cbn. by rewrite Eo.
Qed.

(** The mutex is taken off the allocator when it goes. *)
Lemma mutex_taken m b : wf_arena m own -> allocators m !! al = Some a ->
  exists m' a', (if b : bool then apr_allocator_mutex_set m al NULL else Ok m) = Ok m' /\ wf_arena m' own /\ allocators m' !! al = Some a' /\ nodes m' = nodes m /\
    (forall x, owner <$> allocators m' !! x = owner <$> allocators m !! x).
Proof using Type.
  intros Hwa Ham. destruct b; [|by exists m, a].
  set (a' := mkAllocator (max_index a) (max_free_index a) (current_free_index a) NULL (owner a) (free a)).
  exists (mkArena (nodes m) (<[al := a']> (allocators m))), a'.
  destruct (wf_allocators _ _ Hwa _ _ Ham) as (F & HF & _). split_and!; try done.
  - unfold apr_allocator_mutex_set, upd_allocator, get_allocator. by rewrite Ham.
  - apply (wf_settings m own al a a' Hwa Ham); try done; [apply (wf_free _ _ _ HF)|apply (wf_max_free _ _ _ HF)].
  - cbn [allocators]. by rewrite lookup_insert_eq.
  - intros x. cbn [allocators]. destruct (decide (x = al)) as [->|Hx]; [by rewrite lookup_insert_eq, Ham|by rewrite lookup_insert_ne].
Qed.

(** All of it: pool [p] goes; if it is the owner no other pool may use the allocator. *)
Lemma release_nodes_spec ev : (owner a = p -> forall q Q, pools s !! q = Some Q -> pool_allocator Q = al -> q = p) ->
  exists m own', release_nodes (mem s) p P = Ok m /\ wf_pools (mkP m (delete p (pools s)) ev) own' (others p home) /\
    (forall n q, home !! n = Some q -> q <> p -> nodes m !! n = nodes (mem s) !! n) /\
    (forall x, owner <$> allocators m !! x = if decide (x = al /\ owner a = p) then None else owner <$> allocators (mem s) !! x).
Proof using Type*.
  intros Hown. destruct ring_cut as (L & h & E1 & Hc & Hnd & Hsame & Hh & Hf & Hwa). unfold release_nodes. rewrite E1. cbn [rbind].
  unfold apr_allocator_owner_get at 1, get_allocator at 1. cbn [allocators]. rewrite Ha. cbn [of_option rbind].
  destruct (mutex_taken (mkArena h (allocators (mem s))) (owner a =? p) Hwa Ha) as (m1 & a1 & -> & Hwa1 & Ha1 & Hn1 & Ho1). cbn [rbind nodes allocators] in *.
  destruct (nodes_back m1 (self P) (self P :: L) a1 Hwa1 Ha1) as (m2 & own2 & -> & Hwa2 & Hout2 & Hn2 & Hcase & Ho2); [by rewrite Hn1|done|done|by intros n Hn%Hh|]. cbn [rbind].
  assert (Ha2 : owner <$> allocators m2 !! al = Some (owner a)) by (rewrite Ho2, Ho1, Ha; done).
  destruct (allocators m2 !! al) as [a2|] eqn:Ha2'; [|done]. injection Ha2 as Ha2.
  unfold apr_allocator_owner_get, get_allocator. rewrite Ha2'. cbn [of_option rbind]. rewrite Ha2.
  assert (Hframe : forall n q, home !! n = Some q -> q <> p -> nodes m2 !! n = nodes (mem s) !! n).
  { intros n q Hn Hq. assert (n ∉ self P :: L) by (rewrite <- Hh; congruence). rewrite Hn2, Hn1, Hf; done || by eexists. }
  assert (Hout : forall n, own2 !! n = Some None <-> exists q, home !! n = Some q /\ q <> p).
  { intros n. rewrite Hout2, <- Hh. split; [intros [[q Hq] Hne]; exists q; split; [done|congruence]|intros (q & Hq & Hne); split; [by eexists|congruence]]. }
  assert (Hallocs : forall x, owner <$> allocators m2 !! x = owner <$> allocators (mem s) !! x) by (intros x; by rewrite Ho2, Ho1).
  assert (Hsome : forall x, is_Some (allocators (mem s) !! x) -> is_Some (allocators m2 !! x)).
  { intros x [b Hb]. specialize (Hallocs x). rewrite Hb in Hallocs. destruct (allocators m2 !! x); [by eexists|done]. }
  destruct (Z.eqb_spec (owner a) p) as [Eo|Eo].
  - destruct (apr_allocator_destroy_spec al m2 own2 a2 Hwa2 Ha2') as (m3 & own3 & -> & Hwa3 & Hal3 & Hgone & Hkept). exists m3, own3. split; [done|]. split.
    + apply (wf_pools_remove s own home p); try done.
      * intros n. rewrite <- Hout. destruct (decide (own2 !! n = Some (Some al))) as [E|E]; [rewrite (Hgone n E), E; done|by rewrite (proj1 (Hkept n E))].
      * intros n q Hn Hq. rewrite (proj2 (Hkept n ltac:(rewrite (proj2 (Hout n)); [done|by exists q]))). by apply (Hframe n q).
      * intros q Q Hq HQ. rewrite Hal3, lookup_delete_ne; [apply Hsome, (wps_allocator _ _ _ Hwf _ _ HQ)|]. intros E. by apply Hq, (Hown Eo q Q).
    + split.
      * intros n q Hn Hq. rewrite (proj2 (Hkept n ltac:(rewrite (proj2 (Hout n)); [done|by exists q]))). by apply (Hframe n q).
      * intros x. rewrite Hal3. destruct (decide (x = al)) as [->|Hx]; [rewrite lookup_delete_eq, decide_True by done; done|].
        rewrite lookup_delete_ne, decide_False by (done || tauto). apply Hallocs.
  - exists m2, own2. split; [done|]. split; [|split; [done|]].
    + apply (wf_pools_remove s own home p); try done. intros q Q Hq HQ. apply Hsome, (wps_allocator _ _ _ Hwf _ _ HQ).
    + intros x. rewrite decide_False by tauto. apply Hallocs.
Qed.

(** ** The first node alone *)

Lemma first_node : exists d, nodes (mem s) !! self P = Some d /\ home !! self P = Some p /\
  wf_node (self P) (with_first_avail (self_first_avail P) d) /\ own !! self P = Some None.
Proof using Hwf HP.
  destruct (wps_pool _ _ _ Hwf _ _ HP) as (L & HL & Hh). destruct (ring_lookup _ _ _ _ (wp_ring _ _ _ _ HL) (wp_self _ _ _ _ HL)) as [d Hd]. exists d.
  assert (Hp : home !! self P = Some p) by apply Hh, (wp_self _ _ _ _ HL). split; [done|]. split; [done|]. split; [|apply (wps_home _ _ _ Hwf); by exists p].
  pose proof (wf_nodes _ _ (wps_arena _ _ _ Hwf) _ _ Hd) as (H1 & H2 & H3 & H4 & H5 & H6 & H7). pose proof (wp_room _ _ _ _ HL _ Hd) as Hr.
  pose proof (wp_at _ _ _ _ HL) as E1. pose proof (wp_avail _ _ _ _ HL) as E2. unfold wf_node. cbn [with_first_avail index endp first_avail].
  change SIZEOF_POOL_T with 120 in E2. rewrite header_size in *. split_and!; try lia. rewrite E2, E1. replace (self P + 40 + 120) with (self P + 20 * 8) by lia. by rewrite Z.mod_add.
Qed.

Lemma reset_nodes_spec : exists m own' d, reset_nodes (mem s) P = Ok m /\ wf_arena m own' /\
  (forall n, own' !! n = Some None <-> n = self P \/ exists q, home !! n = Some q /\ q <> p) /\
  (forall n q, home !! n = Some q -> q <> p -> nodes m !! n = nodes (mem s) !! n) /\
  nodes m !! self P = Some d /\ next d = self P /\ ref d = Some (self P) /\ first_avail d = self_first_avail P /\
  (forall x, owner <$> allocators m !! x = owner <$> allocators (mem s) !! x).
Proof using Type*.
  destruct first_node as (d0 & Hd0 & Hhome & Hn0 & Ho0). set (d1 := with_first_avail (self_first_avail P) d0) in *.
  set (h1 := <[self P := d1]> (nodes (mem s))). pose proof (wf_touch _ _ _ _ d1 (wps_arena _ _ _ Hwf) Ho0 Hd0 eq_refl eq_refl Hn0) as Hwa1. fold h1 in Hwa1.
  destruct (wps_pool _ _ _ Hwf _ _ HP) as (L0 & HL & Hh). destruct (ring_from _ _ _ _ (wp_ring _ _ _ _ HL) (wp_self _ _ _ _ HL)) as (L & Hr & Hin).
  assert (Hr1 : ring h1 (self P) L) by (eapply ring_same_links; [| |exact Hr]; intros z; unfold h1; [rewrite nxt_insert|rewrite rf_insert]; case_decide as E; try done; subst; unfold nxt, rf; by rewrite Hd0).
  assert (Hnx : next d1 = head_of (self P) L /\ ref d1 = Some (last_of (self P) L)).
  { pose proof (ring_next _ _ _ Hr1) as [H1 _]. destruct (ring_closed _ _ _ Hr1) as [_ H2]. unfold nxt in H1. unfold rf in H2. unfold h1 in H1, H2. rewrite lookup_insert_eq in H1, H2. cbn in H1, H2. unfold d1; cbn; split; congruence. }
  destruct Hnx as [Hnx Hrf]. unfold reset_nodes. rewrite (upd_node_ok (mem s) (self P) d0) by done. fold d1 h1. cbn [rbind]. unfold get_node at 1. cbn [nodes]. unfold h1 at 1. rewrite lookup_insert_eq. cbn [of_option rbind]. rewrite Hnx.
  assert (Hother : forall n q, home !! n = Some q -> q <> p -> n ∉ self P :: L) by (intros n q Hn Hq; rewrite Hin, <- Hh; congruence).
  assert (Hh1 : forall n, n ∉ self P :: L -> h1 !! n = nodes (mem s) !! n) by (intros n Hn; apply lookup_insert_ne; intros <-; apply Hn, list_elem_of_here).
  pose proof (ring_nodup _ _ _ Hr1) as Hnd. destruct L as [|y L]; cbn [head_of].
  - rewrite Z.eqb_refl. exists (mkArena h1 (allocators (mem s))), own, d1. split_and!; try done.
    + intros n. rewrite (wps_home _ _ _ Hwf). split; [|intros [->|(q & Hq & _)]; by eexists]. intros [q Hq]. destruct (decide (q = p)) as [->|Hne]; [left|right; by exists q].
      apply Hh, Hin in Hq. apply elem_of_cons in Hq as [|Hq]; [done|by apply not_elem_of_nil in Hq].
    + intros n q Hn Hq. cbn [nodes]. by apply Hh1, (Hother n q).
    + cbn [nodes]. apply lookup_insert_eq.
  - apply NoDup_cons in Hnd as [Hsy Hnd]. replace (y =? self P) with false by (symmetry; apply Z.eqb_neq; intros ->; apply Hsy, list_elem_of_here).
    destruct (cut_ring_spec (mkArena h1 (allocators (mem s))) (self P) (y :: L) Hr1) as (h2 & -> & Hc & Hsame & Hf2).
    { intros z Hz. destruct (ring_lookup _ _ _ _ Hr1 Hz) as [d Hd]. apply (wf_nodes _ _ Hwa1) in Hd as [Hz0 _]. lia. }
    cbn [rbind nodes allocators] in *. destruct Hc as (_ & _ & d2 & Hd2 & Hc). unfold get_node at 1. cbn [nodes]. rewrite Hd2. cbn [of_option rbind]. pose proof Hc as (Ey & _).
    assert (Hwa2 : wf_arena (mkArena h2 (allocators (mem s))) own).
    { apply (wf_relinked (mkArena h1 (allocators (mem s)))); [done|by apply same_content_region|]. intros n Hn. apply Hf2. rewrite Hin, <- Hh. intros Hp. apply Hn, (wps_home _ _ _ Hwf). by exists p. }
    destruct (nodes_back (mkArena h2 (allocators (mem s))) (next d2) (y :: L) a Hwa2 Ha Hc ltac:(done) Hnd) as (m3 & own3 & -> & Hwa3 & Hout3 & Hn3 & _ & Ho3).
    { intros n Hn. by apply Hh, Hin, list_elem_of_further. }
    cbn [rbind nodes allocators] in *. assert (Hd3 : nodes m3 !! self P = Some d2) by (rewrite Hn3; [done|done|by exists p]).
    rewrite (upd_node_ok m3 (self P) d2) by done. cbn [rbind]. rewrite (upd_node_ok _ (self P) (with_next (self P) d2)) by (cbn [nodes]; apply lookup_insert_eq). cbn [nodes allocators]. rewrite insert_insert_eq.
    set (d3 := with_ref (self P) (with_next (self P) d2)). assert (Ho3' : own3 !! self P = Some None) by (apply Hout3; split; [by exists p|done]).
    assert (Hd2' : content d2 = content d1) by (specialize (Hsame (self P)); unfold h1 in Hsame; rewrite Hd2, lookup_insert_eq in Hsame; cbn [fmap option_fmap option_map] in Hsame; congruence).
    exists (mkArena (<[self P := d3]> (nodes m3)) (allocators m3)), own3, d3. split_and!; try done.
    + apply (wf_touch m3 own3 (self P) d2); try done. apply (wf_node_same (self P) d2); [by apply (wf_nodes _ _ Hwa3)|done].
    + intros n. rewrite Hout3. split.
      * intros [[q Hq] Hne]. destruct (decide (q = p)) as [->|Hqp]; [left|right; by exists q]. apply Hh, Hin, elem_of_cons in Hq. tauto.
      * intros [->|(q & Hq & Hne)]; [split; [by exists p|done]|]. split; [by exists q|]. intros Hn. apply (Hother n q Hq Hne). by apply list_elem_of_further.
    + intros n q Hn Hq. pose proof (Hother n q Hn Hq) as Hnot. cbn [nodes]. rewrite lookup_insert_ne by (intros <-; apply Hnot, list_elem_of_here).
      rewrite Hn3; [|intros Hin'; by apply Hnot, list_elem_of_further|by exists q]. rewrite Hf2 by done. by apply Hh1.
    + cbn [nodes]. apply lookup_insert_eq.
    + unfold content in Hd2'. cbn. change (self_first_avail P) with (first_avail d1). congruence.
Qed.
End release.
