(* ===== verification/AprDestroy.v ===== *)
(** * Destroying and clearing pools: [src/apr/memory/unix/apr_pools.c]

    [apr_pool_destroy] takes down a pool and the pools below it, runs the cleanups
    of all of them in order and gives their nodes back; [apr_pool_clear] does the
    same but keeps the pool, with its first node. *)

From S2P Require Import Prelude AprProc AprAllocator AprFree AprPools AprRing AprPalloc AprPoolTree AprRelease.

(** ** Below a pool *)

Inductive below (ps : gmap Z pool_t) (p : Z) : Z -> Prop :=
  | below_refl : below ps p p
  | below_up q Q : ps !! q = Some Q -> below ps p (parent Q) -> below ps p q.

Lemma below_trans ps p q r : below ps p q -> below ps q r -> below ps p r.
Proof. intros Hpq. induction 1 as [|r R HR _ IH]; [done|by eapply below_up]. Qed.

Lemma below_first ps p q : below ps p q -> q = p \/ exists c C, ps !! c = Some C /\ parent C = p /\ below ps c q.
Proof.
  induction 1 as [|q Q HQ Hb IH]; [by left|right]. destruct IH as [E|(c & C & HC & E & Hc)].
  - exists q, Q. split_and!; try done. constructor.
  - exists c, C. split_and!; try done. by eapply below_up.
Qed.

Lemma below_some ps p q : below ps p q -> is_Some (ps !! p) -> is_Some (ps !! q).
Proof. destruct 1 as [|q Q HQ _]; [done|]. intros _. by exists Q. Qed.

(** Parents stay the same. *)
Lemma below_mono ps ps' p q : (forall k P, ps !! k = Some P -> exists P', ps' !! k = Some P' /\ parent P' = parent P) -> below ps p q -> below ps' p q.
Proof. intros Hk. induction 1 as [|q Q HQ _ IH]; [constructor|]. destruct (Hk _ _ HQ) as (Q' & HQ' & E). eapply below_up; [done|]. by rewrite E. Qed.

(** What is still there is below what it was below, if that is there too. *)
Lemma below_kept ps ps' kids' ord' p q :
  wf_tree ps' kids' ord' -> ps !! NULL = None -> (forall k P', ps' !! k = Some P' -> exists P, ps !! k = Some P /\ parent P' = parent P) ->
  is_Some (ps !! p) -> below ps p q -> is_Some (ps' !! q) -> below ps' p q.
Proof.
  intros Hwf Hnull Hk Hp. induction 1 as [|q Q HQ Hb IH]; [constructor|]. intros [Q' HQ']. destruct (Hk _ _ HQ') as (Q1 & HQ1 & E). simplify_eq.
  eapply below_up; [done|]. rewrite E. apply IH. destruct (decide (parent Q = NULL)) as [E0|E0].
  - rewrite E0 in Hb. apply below_some in Hb as [R HR]; [|done]. congruence.
  - rewrite <- E. apply (wt_parent _ _ _ Hwf _ _ HQ'). by rewrite E.
Qed.

Section below.
Context (ps : gmap Z pool_t) (kids : Z -> list Z) (ord : list Z) (Hwf : wf_tree ps kids ord).

Lemma below_older A q B p : ord = A ++ q :: B -> is_Some (ps !! p) -> below ps p q -> p ∈ q :: B.
Proof using Hwf.
  intros Ho Hp Hb. revert A B Ho. induction Hb as [|q Q HQ Hb IH]; intros A B Ho; [apply list_elem_of_here|]. destruct (decide (parent Q = NULL)) as [E0|E0].
  - rewrite E0 in Hb. apply below_some in Hb as [R HR]; [|done]. by rewrite (wt_null _ _ _ Hwf) in HR.
  - pose proof (wt_older _ _ _ Hwf A q B Q Ho HQ E0) as Hin. apply list_elem_of_split in Hin as (B1 & B2 & ->). apply list_elem_of_further.
    apply elem_of_app. right. apply (IH (A ++ q :: B1) B2). by rewrite Ho, <- app_assoc.
Qed.

(** No pool is below its child. *)
Lemma kid_not_above p P k : ps !! p = Some P -> k ∈ kids p -> ~ below ps k p.
Proof using Hwf.
  intros HP Hk Hb. assert (Hin : p ∈ ord) by (apply (wt_dom _ _ _ Hwf); by exists P). apply list_elem_of_split in Hin as (A & B & Ho).
  pose proof (kid_newer _ _ _ Hwf A p B P k Ho HP Hk) as HA. destruct (kid_lookup _ _ _ Hwf _ _ _ HP Hk) as (Q & HQ & _).
  pose proof (below_older A p B k Ho (mk_is_Some _ _ HQ) Hb) as HB. pose proof (wt_nodup _ _ _ Hwf) as Hnd. rewrite Ho in Hnd. apply NoDup_app in Hnd as (_ & Hd & _). by apply (Hd k).
Qed.

Lemma below_kid p P q : ps !! p = Some P -> below ps p q -> q = p \/ exists k, k ∈ kids p /\ below ps k q.
Proof using Hwf.
  intros HP [|(c & C & HC & E & Hb)]%below_first; [by left|right]. exists c. split; [|done]. rewrite <- E. apply (wt_parent _ _ _ Hwf _ _ HC).
  rewrite E. apply (pool_not_null _ _ _ Hwf). by exists P.
Qed.

Lemma pools_length : length ord = size ps.
Proof using Hwf.
  pose proof (wt_nodup _ _ _ Hwf) as Hnd. apply Nat.le_antisymm.
  - apply nodup_in_heap; [done|]. intros q Hq. by apply (wt_dom _ _ _ Hwf).
  - rewrite <- (size_dom (D := gset Z)), <- (size_list_to_set (C := gset Z)) by done. apply subseteq_size. intros q Hq%elem_of_dom.
    apply elem_of_list_to_set. by apply (wt_dom _ _ _ Hwf).
Qed.
End below.

(** ** The order of the cleanups *)

Definition cleanup_events (cs : list cleanup_t) : list event := map (fun c => Cleanup (plain_cleanup_fn c) (c_data c)) cs.
Definition proc_events (procs : list process_chain) : list event := match procs with [] => [] | _ => [Free_proc_chain procs] end.

(** The pre-cleanups of the pool, then the pools below, one child after the other,
    then its cleanups and subprocesses. *)
Fixpoint teardown (depth : nat) (ps : gmap Z pool_t) (kids : Z -> list Z) (p : Z) : list event :=
  match depth, ps !! p with
  | S depth, Some P =>
      cleanup_events (pre_cleanups P) ++ concat (map (teardown depth ps kids) (kids p)) ++ cleanup_events (cleanups P) ++ proc_events (subprocesses P)
  | _, _ => []
  end.

Lemma run_cleanups_events cs s : run_cleanups cs s = mkP (mem s) (pools s) (events s ++ cleanup_events cs).
Proof.
  revert s. induction cs as [|c cs IH]; intros s; cbn [run_cleanups cleanup_events map]; [rewrite app_nil_r; by destruct s|].
  rewrite IH. unfold emit_event. cbn [mem pools events]. by rewrite <- app_assoc.
Qed.

Lemma end_subprocesses_events procs s : end_subprocesses procs s = mkP (mem s) (pools s) (events s ++ proc_events procs).
Proof. unfold end_subprocesses, proc_events. destruct procs; [rewrite app_nil_r; by destruct s|done]. Qed.

Lemma teardown_frame ps ps' kids kids' A p B : wf_tree ps' kids' (A ++ p :: B) ->
  (forall k P', k ∈ A -> ps' !! k = Some P' -> exists P, ps !! k = Some P /\ pre_cleanups P' = pre_cleanups P /\ cleanups P' = cleanups P /\ subprocesses P' = subprocesses P) ->
  (forall k, k ∈ A -> kids' k = kids k) -> forall depth c, c ∈ A -> teardown depth ps' kids' c = teardown depth ps kids c.
Proof.
  intros Hwf Hk Hkids. induction depth as [|depth IH]; intros c Hc; [done|]. cbn [teardown].
  assert (Hin : is_Some (ps' !! c)) by (apply (wt_dom _ _ _ Hwf), elem_of_app; by left). destruct Hin as [C' HC']. destruct (Hk c C' Hc HC') as (C & HC & E1 & E2 & E3).
  rewrite HC', HC, E1, E2, E3. do 2 f_equal. rewrite <- (Hkids c Hc). f_equal. apply map_ext_in. intros k Hin%list_elem_of_In. apply IH.
  destruct (list_elem_of_split _ _ Hc) as (A1 & A2 & ->). apply elem_of_app. left. eapply (kid_newer _ _ _ Hwf A1 c (A2 ++ p :: B)); [by rewrite <- app_assoc|done|done].
Qed.

(** ** The state as a whole *)

Definition room (P : pool_t) : Z * Z * Z * Z := (pool_allocator P, active P, self P, self_first_avail P).
Definition family (P : pool_t) : Z * Z * Z * option pool_link := (parent P, child P, sibling P, pref P).

Lemma fmap_lookup_inv {A B} (f : A -> B) (o o' : option A) x : f <$> o' = f <$> o -> o' = Some x -> exists y, o = Some y /\ f x = f y.
Proof. intros E ->. destruct o as [y|]; [|done]. exists y. split; [done|]. by injection E. Qed.

Lemma wf_pools_room s own home ps' ev : wf_pools s own home -> (forall k, room <$> ps' !! k = room <$> pools s !! k) -> wf_pools (mkP (mem s) ps' ev) own home.
Proof.
  intros [Ha Hh Hp Hal Hal2] Hr. constructor; cbn [mem pools]; try done.
  - intros p P' HP'. destruct (fmap_lookup_inv _ _ _ _ (Hr p) HP') as (P & HP & E). unfold room in E. injection E as E1 E2 E3 E4.
    destruct (Hp _ _ HP) as (L & HL & Hin). exists L. rewrite E2. split; [|done]. destruct HL. constructor; rewrite ?E2, ?E3, ?E4; done.
  - intros p P' HP'. destruct (fmap_lookup_inv _ _ _ _ (Hr p) HP') as (P & HP & E). unfold room in E. injection E as -> _ _ _. by apply (Hal p).
  - intros n p Hn. destruct (Hal2 n p Hn) as [P HP]. specialize (Hr p). rewrite HP in Hr. destruct (ps' !! p); [by eexists|done].
Qed.

Lemma wf_tree_family ps ps' kids ord : wf_tree ps kids ord -> (forall k, family <$> ps' !! k = family <$> ps !! k) -> wf_tree ps' kids ord.
Proof.
  intros Hwf Hr. assert (Hs : forall k, is_Some (ps' !! k) <-> is_Some (ps !! k)).
  { intros k. rewrite <- (fmap_is_Some family (ps' !! k)), Hr. apply fmap_is_Some. }
  destruct Hwf as [H1 H2 H3 H4 H5 H6]. constructor; try done.
  - apply eq_None_not_Some. rewrite Hs, H1. by intros [].
  - intros p P' HP'. destruct (fmap_lookup_inv _ _ _ _ (Hr p) HP') as (P & HP & E). unfold family in E. injection E as _ -> _ _.
    destruct (H2 _ _ HP) as [Hk Hnd]. split; [|done]. eapply sibs_place; [|exact Hk]. intros k _. specialize (Hr k).
    destruct (ps' !! k), (ps !! k); cbn in *; try done. unfold family in Hr. unfold place. congruence.
  - intros p P' HP'. destruct (fmap_lookup_inv _ _ _ _ (Hr p) HP') as (P & HP & E). unfold family in E. injection E as -> _ _ _. rewrite Hs. by apply H3.
  - intros p. by rewrite Hs.
  - intros A p B P' Ho HP'. destruct (fmap_lookup_inv _ _ _ _ (Hr p) HP') as (P & HP & E). unfold family in E. injection E as -> _ _ _. by apply (H6 A p B P).
Qed.

(** An allocator with an owner serves the pools below it only. *)
Definition owned_below (s : pstate) : Prop := forall al a, allocators (mem s) !! al = Some a -> owner a <> NULL ->
  exists O, pools s !! owner a = Some O /\ pool_allocator O = al /\ forall q Q, pools s !! q = Some Q -> pool_allocator Q = al -> below (pools s) (owner a) q.

Record wf_state (s : pstate) (own : owners) (home : gmap Z Z) (kids : Z -> list Z) (ord : list Z) : Prop := {
  ws_pools : wf_pools s own home;
  ws_tree : wf_tree (pools s) kids ord;
  ws_owner : owned_below s
}.

(** What is left when the pools [D] have gone. *)
Record gone (s s' : pstate) (home home' : gmap Z Z) (D : Z -> Prop) : Prop := {
  go_dead k : pools s' !! k = None <-> pools s !! k = None \/ D k;
  go_kept k P' : pools s' !! k = Some P' -> exists P, pools s !! k = Some P /\ same_but_links P P';
  go_home n q : home' !! n = Some q <-> home !! n = Some q /\ ~ D q;
  go_nodes n q : home !! n = Some q -> ~ D q -> nodes (mem s') !! n = nodes (mem s) !! n
}.

Lemma gone_trans s1 s2 s3 home1 home2 home3 D1 D2 : gone s1 s2 home1 home2 D1 -> gone s2 s3 home2 home3 D2 -> gone s1 s3 home1 home3 (fun k => D1 k \/ D2 k).
Proof.
  intros G1 G2. constructor.
  - intros k. rewrite (go_dead _ _ _ _ _ G2), (go_dead _ _ _ _ _ G1). tauto.
  - intros k P' H3. destruct (go_kept _ _ _ _ _ G2 _ _ H3) as (P2 & H2 & E2). destruct (go_kept _ _ _ _ _ G1 _ _ H2) as (P1 & H1 & E1). exists P1. split; [done|].
    by eapply same_but_links_trans.
  - intros n q. rewrite (go_home _ _ _ _ _ G2), (go_home _ _ _ _ _ G1). tauto.
  - intros n q Hn Hd. rewrite (go_nodes _ _ _ _ _ G2 n q), (go_nodes _ _ _ _ _ G1 n q); try tauto. apply (go_home _ _ _ _ _ G1). tauto.
Qed.

Lemma gone_ext s s' home home' D D' : (forall k, D k <-> D' k) -> gone s s' home home' D -> gone s s' home home' D'.
Proof.
  intros HD G. constructor.
  - intros k. rewrite <- HD. apply (go_dead _ _ _ _ _ G).
  - apply (go_kept _ _ _ _ _ G).
  - intros n q. rewrite <- HD. apply (go_home _ _ _ _ _ G).
  - intros n q. rewrite <- HD. apply (go_nodes _ _ _ _ _ G).
Qed.

Lemma gone_none s home : gone s s home home (fun _ => False).
Proof. constructor; try done; try tauto. intros k P HP. by exists P. Qed.

Lemma parent_kept P P' : same_but_links P P' -> parent P' = parent P.
Proof. unfold same_but_links. congruence. Qed.

(** Below stays below for the pools that are left. *)
Lemma gone_below s s' home home' D kids' ord' p q :
  gone s s' home home' D -> wf_tree (pools s') kids' ord' -> pools s !! NULL = None -> is_Some (pools s !! p) -> is_Some (pools s' !! q) -> below (pools s) p q <-> below (pools s') p q.
Proof.
  intros G Hwf Hnull Hp Hq. assert (Hk : forall k P', pools s' !! k = Some P' -> exists P, pools s !! k = Some P /\ parent P' = parent P).
  { intros k P' HP'. destruct (go_kept _ _ _ _ _ G _ _ HP') as (P & HP & E). exists P. split; [done|]. by apply parent_kept. }
  split; [intros Hb; by eapply below_kept|]. apply below_mono. intros k P HP. destruct (Hk _ _ HP) as (P0 & HP0 & E). by exists P0.
Qed.

(** ** One pool goes *)

Lemma alike_room ps ps' : alike ps ps' -> forall k, room <$> ps' !! k = room <$> ps !! k.
Proof. intros Hs k. specialize (Hs k). destruct (ps !! k), (ps' !! k); cbn; try done. unfold same_but_links in Hs. unfold room. congruence. Qed.

Lemma pool_goes s own home kids A p B P : wf_state s own home kids (A ++ p :: B) -> pools s !! p = Some P -> kids p = [] ->
  exists ps m own', unlink_pool s P = Ok (mkP (mem s) ps (events s)) /\ release_nodes (mem s) p P = Ok m /\
    let s' := mkP m (delete p ps) (events s) in
    wf_state s' own' (others p home) (drop_kid p (parent P) kids) (A ++ B) /\ gone s s' home (others p home) (fun k => k = p).
Proof.
  intros [Hwp Hwt Hown] HP Hk. destruct (unlink_pool_spec s kids _ p P Hwt HP Hk) as (ps & E1 & Hal & Hwt'). rewrite (filter_ne_split p A B (wt_nodup _ _ _ Hwt)) in Hwt'.
  pose proof (wf_pools_room s own home ps (events s) Hwp (alike_room _ _ Hal)) as Hwp'.
  assert (HP' : exists P', ps !! p = Some P' /\ same_but_links P P') by (specialize (Hal p); rewrite HP in Hal; destruct (ps !! p) as [P'|]; [by exists P'|done]).
  destruct HP' as (P' & HP' & HPP). pose proof HPP as HPP'. unfold same_but_links in HPP'. injection HPP' as _ _ _ Eal _ _ _ _ _ Eself _ _.
  destruct (wps_allocator _ _ _ Hwp _ _ HP) as [a Ha]. pose proof (pool_not_null _ _ _ Hwt p (mk_is_Some _ _ HP)) as Hp0.
  destruct (release_nodes_spec (mkP (mem s) ps (events s)) own home p P' a Hwp' HP' ltac:(by rewrite Eal) (events s)) as (m & own' & E2 & Hwp2 & Hn & Ho).
  { rewrite Eal. cbn [pools]. intros Eo q Q' HQ' EQ. destruct (alike_lookup _ _ _ _ Hal HQ') as (Q & HQ & HQQ).
    destruct (Hown _ _ Ha ltac:(congruence)) as (O & _ & _ & Hb). rewrite Eo in Hb. unfold same_but_links in HQQ.
    destruct (below_kid _ _ _ Hwt p P q HP (Hb q Q HQ ltac:(congruence))) as [|(k & Hin & _)]; [done|]. rewrite Hk in Hin. by apply not_elem_of_nil in Hin. }
  cbn [mem pools] in *. exists ps, m, own'. split; [done|]. assert (E2' : release_nodes (mem s) p P = Ok m) by (rewrite <- E2; unfold release_nodes; by rewrite Eal, Eself).
  split; [done|]. cbv zeta.
  assert (G : gone s (mkP m (delete p ps) (events s)) home (others p home) (fun k => k = p)).
  { constructor; cbn [pools mem].
    - intros k. rewrite lookup_delete_None. specialize (Hal k). destruct (pools s !! k), (ps !! k); try done; intuition congruence.
    - intros k Q' [Hne HQ']%lookup_delete_Some. by apply (alike_lookup _ _ _ _ Hal).
    - intros n q. apply others_lookup.
    - intros n q Hq Hne. by apply (Hn n q). }
  split; [|done]. constructor; [done|done|]. intros al' a' Ha' Hne. cbn [mem pools] in *. pose proof (Ho al') as Ho'. rewrite Ha' in Ho'. cbn in Ho'.
  rewrite Eal in Ho'. destruct (decide (al' = pool_allocator P /\ owner a = p)) as [|Hcase]; [done|]. destruct (allocators (mem s) !! al') as [a0|] eqn:Ha0; [|done]. cbn in Ho'. injection Ho' as Eo. rewrite Eo in *.
  destruct (Hown _ _ Ha0 Hne) as (O & HO & EO & Hb).
  assert (Hop : owner a0 <> p). { intros E. rewrite E in HO. assert (O = P) as -> by congruence. apply Hcase. split; [done|congruence]. }
  pose proof (Hal (owner a0)) as Hsame. rewrite HO in Hsame. destruct (ps !! owner a0) as [O'|] eqn:HO'; [|done].
  exists O'. rewrite lookup_delete_ne by done. split; [done|]. split; [unfold same_but_links in Hsame; congruence|].
  intros q Q' [Hq HQ']%lookup_delete_Some EQ. destruct (alike_lookup _ _ _ _ Hal HQ') as (Q & HQ & HQQ).
  apply (gone_below s (mkP m (delete p ps) (events s)) home (others p home) (fun k => k = p) _ _ (owner a0) q G Hwt' (wt_null _ _ _ Hwt)); [by exists O| |].
  - cbn [pools]. rewrite lookup_delete_ne by done. by exists Q'.
  - apply (Hb q Q HQ). unfold same_but_links in HQQ. congruence.
Qed.

(** ** The pools below *)

(** What a call that destroys a pool does, when less than [depth] pools are newer. *)
Definition destroys (destroy : pstate -> Z -> res pstate) (depth : nat) : Prop :=
  forall s own home kids A p B P, wf_state s own home kids (A ++ p :: B) -> pools s !! p = Some P -> (length A < depth)%nat ->
  exists s' own' home' kids' A', destroy s p = Ok s' /\ wf_state s' own' home' kids' (A' ++ B) /\ (length A' <= length A)%nat /\
    gone s s' home home' (below (pools s) p) /\ (forall q, is_Some (pools s' !! q) -> kids' q = drop_kid p (parent P) kids q) /\
    events s' = events s ++ teardown depth (pools s) kids p.

Section children.
Context (destroy : pstate -> Z -> res pstate) (depth : nat) (Hdestroy : destroys destroy depth).

(** The first child goes; the rest is left for the next rounds. *)
Lemma first_child s own home kids A p B P k K : wf_state s own home kids (A ++ p :: B) -> pools s !! p = Some P -> (length A <= depth)%nat -> kids p = k :: K ->
  exists s' own' home' kids' A' P', destroy s k = Ok s' /\ wf_state s' own' home' kids' (A' ++ p :: B) /\ (length A' <= length A)%nat /\
    gone s s' home home' (below (pools s) k) /\ pools s' !! p = Some P' /\ kids' p = K /\ (forall q, q <> p -> is_Some (pools s' !! q) -> kids' q = kids q) /\
    events s' = events s ++ teardown depth (pools s) kids k.
Proof using Hdestroy.
  intros Hwf HP Hlen HK. pose proof (ws_tree _ _ _ _ _ Hwf) as Hwt. assert (Hk : k ∈ kids p) by (rewrite HK; apply list_elem_of_here).
  destruct (kid_lookup _ _ _ Hwt _ _ _ HP Hk) as (Q & HQ & EQ). pose proof (kid_newer _ _ _ Hwt A p B P k eq_refl HP Hk) as HkA.
  destruct (list_elem_of_split _ _ HkA) as (A1 & A2 & ->). rewrite <- app_assoc in Hwf. cbn [app] in Hwf.
  destruct (Hdestroy s own home kids A1 k (A2 ++ p :: B) Q Hwf HQ) as (s' & own' & home' & kids' & A1' & E & Hwf' & Hlen' & G & Hkids & Hev); [rewrite length_app in Hlen; cbn in Hlen; lia|].
  rewrite app_assoc in Hwf'. destruct (wt_kids _ _ _ Hwt _ _ HP) as [_ Hnd].
  assert (Hp' : is_Some (pools s' !! p)) by (apply (wt_dom _ _ _ (ws_tree _ _ _ _ _ Hwf')), elem_of_app; right; apply list_elem_of_here). pose proof Hp' as [P' HP'].
  exists s', own', home', kids', (A1' ++ A2), P'. rewrite EQ in Hkids. split_and!; try done.
  - rewrite !length_app in *. cbn. lia.
  - rewrite (Hkids p Hp'). unfold drop_kid. rewrite Z.eqb_refl, HK. rewrite HK in Hnd. exact (filter_ne_split k [] K Hnd).
  - intros q Hq Hs. rewrite (Hkids q Hs). unfold drop_kid. by replace (q =? p) with false by lia.
Qed.

Lemma destroy_children_spec fuel : forall s own home kids A p B P,
  wf_state s own home kids (A ++ p :: B) -> pools s !! p = Some P -> (length A <= depth)%nat -> (length (kids p) < fuel)%nat ->
  exists s' own' home' kids' A', destroy_children fuel destroy s p = Ok s' /\ wf_state s' own' home' kids' (A' ++ p :: B) /\
    gone s s' home home' (fun q => below (pools s) p q /\ q <> p) /\ kids' p = [] /\ (forall q, q <> p -> is_Some (pools s' !! q) -> kids' q = kids q) /\
    (length A' <= length A)%nat /\ events s' = events s ++ concat (map (teardown depth (pools s) kids) (kids p)).
Proof using Hdestroy.
  induction fuel as [|fuel IH]; intros s own home kids A p B P Hwf HP Hlen Hf; [lia|]. cbn [destroy_children]. unfold get_pool. rewrite HP. cbn [of_option rbind].
  pose proof (ws_tree _ _ _ _ _ Hwf) as Hwt. destruct (wt_kids _ _ _ Hwt _ _ HP) as [Hs Hnd]. destruct (Z.eqb_spec (child P) NULL) as [E|Hc].
  { rewrite E in Hs. apply sibs_null in Hs. exists s, own, home, kids, A. rewrite Hs. cbn [map concat]. rewrite app_nil_r. split_and!; try done.
    eapply gone_ext; [|apply gone_none]. intros k. split; [done|]. intros [Hb Hne]. destruct (below_kid _ _ _ Hwt _ _ _ HP Hb) as [|(c & Hin & _)]; [done|]. rewrite Hs in Hin. by apply not_elem_of_nil in Hin. }
  destruct (kids p) as [|k K] eqn:HK; [by destruct Hc|]. destruct Hs as (-> & _).
  destruct (first_child s own home kids A p B P k K Hwf HP Hlen HK) as (s1 & own1 & home1 & kids1 & A1 & P1 & -> & Hwf1 & Hlen1 & G1 & HP1 & HK1 & Hkids1 & Hev1). cbn [rbind].
  pose proof (ws_tree _ _ _ _ _ Hwf1) as Hwt1.
  destruct (IH s1 own1 home1 kids1 A1 p B P1 Hwf1 HP1) as (s2 & own2 & home2 & kids2 & A2 & -> & Hwf2 & G2 & HK2 & Hkids2 & Hlen2 & Hev2); [lia|rewrite HK1; cbn in Hf; lia|].
  exists s2, own2, home2, kids2, A2. split; [done|]. split; [done|]. assert (Hk : k ∈ kids p) by (rewrite HK; apply list_elem_of_here).
  destruct (kid_lookup _ _ _ Hwt _ _ _ HP Hk) as (Q & HQ & EQ).
  split; [eapply gone_ext; [|by eapply gone_trans]; intros q; cbn beta|].
  - split.
    + intros [Hb|[Hb Hne]].
      * split; [eapply below_trans; [|exact Hb]; eapply below_up; [exact HQ|]; rewrite EQ; constructor|]. intros ->. by apply (kid_not_above _ _ _ Hwt p P k HP Hk).
      * split; [|done]. apply (gone_below _ _ _ _ _ _ _ p q G1 Hwt1 (wt_null _ _ _ Hwt) (mk_is_Some _ _ HP)); [|done]. eapply below_some; [exact Hb|by exists P1].
    + intros [Hb Hne]. pose proof (below_some _ _ _ Hb (mk_is_Some _ _ HP)) as [R HR]. destruct (pools s1 !! q) as [R1|] eqn:HR1.
      * right. split; [|done]. apply (gone_below _ _ _ _ _ _ _ p q G1 Hwt1 (wt_null _ _ _ Hwt) (mk_is_Some _ _ HP) (mk_is_Some _ _ HR1)). done.
      * left. apply (go_dead _ _ _ _ _ G1) in HR1 as [|]; [congruence|done].
  - split; [done|]. split; [|split; [lia|]].
    + intros q Hq Hs2. rewrite Hkids2 by done. apply Hkids1; [done|]. destruct Hs2 as [R HR]. destruct (go_kept _ _ _ _ _ G2 _ _ HR) as (R1 & HR1 & _). by exists R1.
    + rewrite Hev2, Hev1, HK1, <- app_assoc. cbn [map concat]. do 3 f_equal. apply map_ext_in. intros c Hin%list_elem_of_In.
      assert (HcA : c ∈ A1) by (apply (kid_newer _ _ _ Hwt1 A1 p B P1 c eq_refl HP1); by rewrite HK1).
      pose proof (wt_nodup _ _ _ Hwt1) as Hnd1. apply NoDup_app in Hnd1 as (_ & Hd1 & _).
      apply (teardown_frame (pools s) (pools s1) kids kids1 A1 p B Hwt1); [|intros x Hx; apply Hkids1; [intros ->; by apply (Hd1 p Hx), list_elem_of_here|]|done].
      * intros x X _ HX. destruct (go_kept _ _ _ _ _ G1 _ _ HX) as (X0 & HX0 & E). exists X0. unfold same_but_links in E. split_and!; congruence.
      * apply (wt_dom _ _ _ Hwt1), elem_of_app. by left.
Qed.
End children.

(** ** The whole of a pool *)

Lemma below_field ps ps' p q : (forall k, parent <$> ps' !! k = parent <$> ps !! k) -> below ps p q <-> below ps' p q.
Proof.
  intros Hf. split; apply below_mono; intros k P HP; [destruct (fmap_lookup_inv _ _ _ _ (eq_sym (Hf k)) HP) as (P' & HP' & E)|destruct (fmap_lookup_inv _ _ _ _ (Hf k) HP) as (P' & HP' & E)]; by exists P'.
Qed.

(** Fields other than those of memory and family do not matter. *)
Lemma owned_below_fields s m ps' ev : owned_below s -> (forall x, owner <$> allocators m !! x = owner <$> allocators (mem s) !! x) ->
  (forall k, pool_allocator <$> ps' !! k = pool_allocator <$> pools s !! k) -> (forall k, parent <$> ps' !! k = parent <$> pools s !! k) -> owned_below (mkP m ps' ev).
Proof.
  intros Hown Ho Ha Hp al a Hal Hne. cbn [mem pools] in *. destruct (fmap_lookup_inv _ _ _ _ (Ho al) Hal) as (a0 & Ha0 & E). rewrite E in *. destruct (Hown _ _ Ha0 Hne) as (O & HO & EO & Hb).
  destruct (fmap_lookup_inv _ _ _ _ (eq_sym (Ha _)) HO) as (O' & HO' & E'). exists O'. split; [done|]. split; [congruence|].
  intros q Q' HQ' EQ. destruct (fmap_lookup_inv _ _ _ _ (Ha q) HQ') as (Q & HQ & EQ'). apply (below_field (pools s)); [done|]. apply (Hb q Q HQ). congruence.
Qed.

Lemma field_of {B C} (f : pool_t -> B) (g : B -> C) (o o' : option pool_t) : f <$> o' = f <$> o -> (fun P => g (f P)) <$> o' = (fun P => g (f P)) <$> o.
Proof. destruct o, o'; cbn; congruence. Qed.

Lemma wf_state_fields s own home kids ord ps' ev : wf_state s own home kids ord ->
  (forall k, room <$> ps' !! k = room <$> pools s !! k) -> (forall k, family <$> ps' !! k = family <$> pools s !! k) -> wf_state (mkP (mem s) ps' ev) own home kids ord.
Proof.
  intros [Hwp Hwt Hown] Hr Hf. constructor; [by apply wf_pools_room|by eapply wf_tree_family|]. apply (owned_below_fields s); [done|done| |].
  - intros k. exact (field_of room (fun x => x.1.1.1) _ _ (Hr k)).
  - intros k. exact (field_of family (fun x => x.1.1.1) _ _ (Hf k)).
Qed.

Definition pre_done (P : pool_t) : pool_t := with_cleanups (cleanups P) (free_cleanups P) [] P.
Definition pre_ran (s : pstate) (p : Z) (P : pool_t) : pstate := mkP (mem s) (<[p := pre_done P]> (pools s)) (events s ++ cleanup_events (pre_cleanups P)).

Lemma insert_field {B} (f : pool_t -> B) ps p P P' : ps !! p = Some P -> f P' = f P -> forall k, f <$> (<[p := P']> ps : gmap Z pool_t) !! k = f <$> ps !! k.
Proof. intros HP E k. destruct (decide (k = p)) as [->|Hk]; [rewrite lookup_insert_eq, HP; cbn; by rewrite E|by rewrite lookup_insert_ne]. Qed.

Lemma run_down_spec destroy depth s own home kids A p B P : destroys destroy depth ->
  wf_state s own home kids (A ++ p :: B) -> pools s !! p = Some P -> (length A <= depth)%nat ->
  exists s1 own1 home1 kids1 A1 P1, run_down destroy s p = Ok s1 /\ wf_state s1 own1 home1 kids1 (A1 ++ p :: B) /\ (length A1 <= length A)%nat /\
    gone (pre_ran s p P) s1 home home1 (fun q => below (pools s) p q /\ q <> p) /\ kids1 p = [] /\ (forall q, q <> p -> is_Some (pools s1 !! q) -> kids1 q = kids q) /\
    pools s1 !! p = Some P1 /\ same_but_links (pre_done P) P1 /\ events s1 = events s ++ teardown (S depth) (pools s) kids p.
Proof.
  intros Hd Hwf HP Hlen. unfold run_down, get_pool. rewrite HP. cbn [of_option rbind]. rewrite run_cleanups_events. unfold upd_pool, get_pool. cbn [pools mem events]. rewrite HP. cbn [of_option rbind].
  fold (pre_done P). fold (pre_ran s p P). set (s0 := pre_ran s p P).
  assert (Hwf0 : wf_state s0 own home kids (A ++ p :: B)) by (apply (wf_state_fields s); [done|by apply (insert_field room _ _ P)|by apply (insert_field family _ _ P)]).
  assert (HP0 : pools s0 !! p = Some (pre_done P)) by apply lookup_insert_eq. pose proof (ws_tree _ _ _ _ _ Hwf0) as Hwt0. pose proof (ws_tree _ _ _ _ _ Hwf) as Hwt.
  destruct (wt_kids _ _ _ Hwt0 _ _ HP0) as [_ Hndk].
  destruct (destroy_children_spec destroy depth Hd (S (size (pools s0))) s0 own home kids A p B _ Hwf0 HP0 Hlen) as (s1 & own1 & home1 & kids1 & A1 & -> & Hwf1 & G1 & HK1 & Hkids1 & Hlen1 & Hev1).
  { apply Nat.lt_succ_r, nodup_in_heap; [done|]. intros k Hk. destruct (kid_lookup _ _ _ Hwt0 _ _ _ HP0 Hk) as (Q & HQ & _). by exists Q. }
  cbn [rbind]. assert (Hp1 : is_Some (pools s1 !! p)) by (apply (wt_dom _ _ _ (ws_tree _ _ _ _ _ Hwf1)), elem_of_app; right; apply list_elem_of_here). destruct Hp1 as [P1 HP1].
  rewrite HP1. cbn [of_option rbind]. destruct (go_kept _ _ _ _ _ G1 _ _ HP1) as (P0 & HP0' & Hsame). assert (P0 = pre_done P) as -> by congruence.
  rewrite run_cleanups_events, end_subprocesses_events. cbn [mem pools events]. eexists _, own1, home1, kids1, A1, P1. split; [reflexivity|].
  split; [by apply (wf_state_fields s1)|]. split; [done|]. split; [|split; [done|split; [done|split; [done|split; [done|]]]]].
  - eapply gone_ext; [|constructor; [apply (go_dead _ _ _ _ _ G1)|apply (go_kept _ _ _ _ _ G1)|apply (go_home _ _ _ _ _ G1)|apply (go_nodes _ _ _ _ _ G1)]]. intros q. cbn beta.
    assert (Hiff : below (pools s) p q <-> below (pools s0) p q) by (by apply below_field, (insert_field parent _ _ P)). tauto.
  - rewrite Hev1. cbn [s0 pre_ran events teardown]. rewrite HP, <- !app_assoc. do 2 f_equal.
    assert (Ec : cleanups P1 = cleanups P /\ subprocesses P1 = subprocesses P) by (unfold same_but_links, pre_done in Hsame; cbn in Hsame; split; congruence). destruct Ec as [-> ->].
    f_equal. f_equal. apply map_ext_in. intros c Hc%list_elem_of_In. apply (teardown_frame (pools s) (pools s0) kids kids A p B Hwt0); [|done|by apply (kid_newer _ _ _ Hwt A p B P)].
    intros k K HkA HK. pose proof (wt_nodup _ _ _ Hwt) as Hnd. apply NoDup_app in Hnd as (_ & Hdj & _).
    exists K. cbn [s0 pre_ran pools] in HK. rewrite lookup_insert_ne in HK; [done|]. intros <-. by apply (Hdj p HkA), list_elem_of_here.
Qed.

Lemma destroy_spec `{MallocLaws} depth : destroys (apr_pool_destroy_ depth) depth.
Proof.
  induction depth as [|depth IH]; intros s own home kids A p B P Hwf HP Hlen; [lia|]. cbn [apr_pool_destroy_].
  destruct (run_down_spec _ depth s own home kids A p B P IH Hwf HP) as (s1 & own1 & home1 & kids1 & A1 & P1 & -> & Hwf1 & Hlen1 & G1 & HK1 & Hkids1 & HP1 & Hsame & Hev); [lia|].
  cbn [rbind]. unfold get_pool. rewrite HP1. cbn [of_option rbind]. destruct (pool_goes s1 own1 home1 kids1 A1 p B P1 Hwf1 HP1 HK1) as (ps & m & own2 & -> & E & Hwf2 & G2).
  cbn [rbind mem]. rewrite E. cbn [rbind pools events]. cbv zeta in *. set (s2 := mkP m (delete p ps) (events s1)) in *.
  exists s2, own2, (others p home1), (drop_kid p (parent P1) kids1), A1. split; [done|]. split; [done|]. split; [done|].
  assert (Hpar : parent P1 = parent P) by (unfold same_but_links, pre_done in Hsame; cbn in Hsame; congruence).
  pose proof (gone_trans _ _ _ _ _ _ _ _ G1 G2) as G. split; [|split; [|by rewrite <- Hev]].
  - assert (HD : forall k, (below (pools s) p k /\ k <> p) \/ k = p <-> below (pools s) p k).
    { intros k. split; [intros [[Hb _]| ->]; [done|constructor]|]. intros Hb. destruct (decide (k = p)); tauto. }
    apply (gone_ext _ _ _ _ _ _ HD) in G. constructor; [| |apply (go_home _ _ _ _ _ G)|apply (go_nodes _ _ _ _ _ G)].
    + intros k. rewrite (go_dead _ _ _ _ _ G). cbn [pre_ran pools]. destruct (decide (k = p)) as [->|Hk]; [rewrite lookup_insert_eq, HP; split; intros [|]; (done || by right)|by rewrite lookup_insert_ne].
    + intros k P' HP'. destruct (go_kept _ _ _ _ _ G _ _ HP') as (Q & HQ & E'). cbn [pre_ran pools] in HQ. rewrite lookup_insert_ne in HQ; [by exists Q|].
      intros <-. assert (Hnone : pools s2 !! p = None) by (apply (go_dead _ _ _ _ _ G); right; constructor). congruence.
  - intros q Hq. rewrite Hpar. unfold drop_kid. assert (Hqp : q <> p) by (intros ->; cbn [s2 pools] in Hq; rewrite lookup_delete_eq in Hq; by destruct Hq).
    rewrite (Hkids1 q Hqp); [done|]. destruct Hq as [Q HQ]. destruct (go_kept _ _ _ _ _ G2 _ _ HQ) as (Q1 & HQ1 & _). by exists Q1.
Qed.

(** ** apr_pool_clear *)

Definition cleared (P : pool_t) : pool_t :=
  mkPool (parent P) (child P) (sibling P) (pref P) [] [] (pool_allocator P) [] (abort_fn P) NULL (tag P) (self P) (self P) (self_first_avail P) (pre_cleanups P).

Lemma wf_pools_reset s own home p P m own' d ev : wf_pools s own home -> pools s !! p = Some P -> wf_arena m own' ->
  (forall n, own' !! n = Some None <-> n = self P \/ exists q, home !! n = Some q /\ q <> p) ->
  (forall n q, home !! n = Some q -> q <> p -> nodes m !! n = nodes (mem s) !! n) ->
  nodes m !! self P = Some d -> next d = self P -> ref d = Some (self P) -> first_avail d = self_first_avail P ->
  (forall x, owner <$> allocators m !! x = owner <$> allocators (mem s) !! x) ->
  wf_pools (mkP m (<[p := cleared P]> (pools s)) ev) own' (<[self P := p]> (others p home)).
Proof.
  intros Hwf HP Hwa Ho Hn Hd Hnx Hrf Hfa Hal. destruct (wps_pool _ _ _ Hwf _ _ HP) as (L & HL & Hh).
  assert (Hself : home !! self P = Some p) by apply Hh, (wp_self _ _ _ _ HL).
  assert (Hlook : forall n q, <[self P := p]> (others p home) !! n = Some q <-> n = self P /\ q = p \/ home !! n = Some q /\ q <> p).
  { intros n q. destruct (decide (n = self P)) as [->|Hne]; [rewrite lookup_insert_eq; split; [intros [= <-]; by left|intros [[_ ->]|[E1 E2]]; congruence]|].
    rewrite lookup_insert_ne, others_lookup by done. tauto. }
  assert (Hsome : forall x, is_Some (allocators (mem s) !! x) -> is_Some (allocators m !! x)).
  { intros x Hx. apply (fmap_is_Some owner). rewrite Hal. by apply fmap_is_Some. }
  constructor; cbn [mem pools].
  - done.
  - intros n. rewrite Ho. unfold is_Some. setoid_rewrite Hlook. split; [intros [->|(q & Hq)]; [exists p; by left|exists q; by right]|intros (q & [[-> _]|Hq]); [by left|right; by exists q]].
  - intros q Q. destruct (decide (q = p)) as [->|Hq].
    + rewrite lookup_insert_eq. intros [= <-]. exists []. cbn [cleared active]. split.
      * destruct HL as [_ _ _ Hat Hav _]. constructor; cbn [cleared active self self_first_avail]; try done; [constructor; [done| |apply NoDup_singleton]| | |].
        -- unfold linked, nxt, rf, last_of. cbn [last default]. rewrite Hd. cbn. by rewrite Hnx.
        -- exists []. split; constructor.
        -- apply list_elem_of_here.
        -- intros d' Hd'. simplify_eq. lia.
      * intros n. rewrite Hlook, list_elem_of_singleton. tauto.
    + rewrite lookup_insert_ne by done. intros HQ. destruct (wps_pool _ _ _ Hwf _ _ HQ) as (K & HK & HhK). exists K. split.
      * eapply wf_pool_frame; [|exact HK]. intros z Hz%HhK. by apply (Hn z q).
      * intros n. rewrite Hlook, <- HhK. split; [intros [[_ ->]|[? _]]; done|]. intros E. by right.
  - intros q Q. destruct (decide (q = p)) as [->|Hq]; [rewrite lookup_insert_eq; intros [= <-]; apply Hsome, (wps_allocator _ _ _ Hwf _ _ HP)|].
    rewrite lookup_insert_ne by done. intros HQ. apply Hsome, (wps_allocator _ _ _ Hwf _ _ HQ).
  - intros n q [[_ ->]|[Hq Hne]]%Hlook; [rewrite lookup_insert_eq; by eexists|]. rewrite lookup_insert_ne by done. by apply (wps_alive _ _ _ Hwf n).
Qed.

(** What [apr_pool_clear] leaves: the pool with its first node, the others as they were. *)
Record cleared_post (s s' : pstate) (home home' : gmap Z Z) (p : Z) (P : pool_t) : Prop := {
  cl_pool : exists P', pools s' !! p = Some P' /\ room P' = (pool_allocator P, self P, self P, self_first_avail P) /\ parent P' = parent P /\
    cleanups P' = [] /\ pre_cleanups P' = [] /\ subprocesses P' = [] /\ child P' = NULL;
  cl_dead k : k <> p -> pools s' !! k = None <-> pools s !! k = None \/ below (pools s) p k;
  cl_kept k P' : k <> p -> pools s' !! k = Some P' -> exists P, pools s !! k = Some P /\ same_but_links P P';
  cl_home n q : home' !! n = Some q <-> n = self P /\ q = p \/ home !! n = Some q /\ ~ below (pools s) p q;
  cl_nodes n q : home !! n = Some q -> ~ below (pools s) p q -> nodes (mem s') !! n = nodes (mem s) !! n;
  cl_node : exists d, nodes (mem s') !! self P = Some d /\ first_avail d = self_first_avail P
}.

Lemma clear_spec `{MallocLaws} s own home kids A p B P : wf_state s own home kids (A ++ p :: B) -> pools s !! p = Some P ->
  exists s' own' home' kids' A', apr_pool_clear s p = Ok s' /\ wf_state s' own' home' kids' (A' ++ p :: B) /\ cleared_post s s' home home' p P /\
    events s' = events s ++ teardown (S (size (pools s))) (pools s) kids p.
Proof.
  intros Hwf HP. pose proof (pools_length _ _ _ (ws_tree _ _ _ _ _ Hwf)) as Hsize. rewrite length_app in Hsize. unfold apr_pool_clear.
  destruct (run_down_spec _ (size (pools s)) s own home kids A p B P (destroy_spec _) Hwf HP) as (s1 & own1 & home1 & kids1 & A1 & P1 & -> & Hwf1 & _ & G & HK1 & _ & HP1 & Hsame & Hev); [lia|].
  cbn [rbind]. unfold upd_pool, get_pool. rewrite HP1. cbn [of_option rbind pools mem events]. rewrite lookup_insert_eq. cbn [of_option rbind]. fold (cleared P1).
  pose proof (ws_pools _ _ _ _ _ Hwf1) as Hwp1. pose proof (ws_tree _ _ _ _ _ Hwf1) as Hwt1. destruct (wps_allocator _ _ _ Hwp1 _ _ HP1) as [a Ha].
  destruct (reset_nodes_spec s1 own1 home1 p P1 a Hwp1 HP1 Ha) as (m & own' & d & E & Hwa & Ho & Hn & Hd & Hnx & Hrf & Hfa & Hal).
  assert (E' : reset_nodes (mem s1) (cleared P1) = Ok m) by exact E. rewrite E'. cbn [rbind set_mem pools events].
  assert (Hc : child P1 = NULL) by (destruct (wt_kids _ _ _ Hwt1 _ _ HP1) as [Hs _]; rewrite HK1 in Hs; done).
  unfold same_but_links, pre_done in Hsame. cbn in Hsame. injection Hsame as E1 _ _ E4 _ _ _ _ _ E10 E11 E12.
  eexists _, own', _, kids1, A1. split; [reflexivity|]. unfold set_mem. cbn [pools events]. split; [|split; [|exact Hev]].
  - constructor; [by apply (wf_pools_reset s1 own1 home1 p P1 m own' d)|eapply wf_tree_family; [exact Hwt1|]; by apply (insert_field family _ _ P1)|].
    apply (owned_below_fields s1); [apply (ws_owner _ _ _ _ _ Hwf1)|done|by apply (insert_field pool_allocator _ _ P1)|by apply (insert_field parent _ _ P1)].
  - assert (Hb0 : forall k, below (pools s) p k /\ k <> p \/ k = p <-> below (pools s) p k).
    { intros k. split; [intros [[Hb _]| ->]; [done|constructor]|]. intros Hb. destruct (decide (k = p)); tauto. }
    constructor; cbn [mem pools].
    + exists (cleared P1). rewrite lookup_insert_eq. unfold room, cleared. cbn. rewrite E1, E4, E10, E11, E12, Hc. done.
    + intros k Hk. rewrite lookup_insert_ne, (go_dead _ _ _ _ _ G) by done. cbn [pre_ran pools]. rewrite lookup_insert_ne by done. rewrite <- Hb0. tauto.
    + intros k P'. intros Hk. rewrite lookup_insert_ne by done. intros HP'. destruct (go_kept _ _ _ _ _ G _ _ HP') as (Q & HQ & EQ). cbn [pre_ran pools] in HQ. rewrite lookup_insert_ne in HQ by done. by exists Q.
    + intros n q. rewrite <- E10. destruct (decide (n = self P1)) as [->|Hne].
      * rewrite lookup_insert_eq. split; [intros [= <-]; by left|]. intros [[_ ->]|[Hq Hnb]]; [done|]. exfalso.
        destruct (first_node s1 own1 home1 p P1 Hwp1 HP1) as (_ & _ & Hh1 & _). apply (go_home _ _ _ _ _ G) in Hh1 as [Hh1 _]. apply Hnb. assert (q = p) as -> by congruence. constructor.
      * rewrite lookup_insert_ne, others_lookup, (go_home _ _ _ _ _ G) by done. rewrite <- Hb0. destruct (decide (q = p)); tauto.
    + intros n q Hq Hnb. rewrite <- Hb0 in Hnb. rewrite (Hn n q); [|apply (go_home _ _ _ _ _ G); tauto|tauto]. rewrite (go_nodes _ _ _ _ _ G n q) by tauto. done.
    + rewrite <- E10, <- E11. by exists d.
Qed.
