(* ===== verification/AprPoolCreate.v ===== *)
(** * Creating pools: [src/apr/memory/unix/apr_pools.c]

    [apr_pool_create_ex] and [apr_pool_create_unmanaged_ex] keep the invariant of the
    pools and of their trees. *)

From S2P Require Import Prelude AprAllocator AprFree AprPools AprRing AprPalloc AprPoolTree AprRelease AprDestroy.

(** ** A node becomes a pool *)

Lemma pool_size : SIZEOF_POOL_T = 120. Proof. reflexivity. Qed.

Lemma pool_in_node_spec s own al idx n m : handed s own al idx n m ->
  exists d m', pool_in_node m n = Ok (n + APR_MEMNODE_T_SIZE, n + APR_MEMNODE_T_SIZE + SIZEOF_POOL_T, m') /\ m' = mkArena (<[n := d]> (nodes m)) (allocators m) /\
    wf_arena m' (<[n := None]> own) /\ next d = n /\ ref d = Some n /\ first_avail d = n + APR_MEMNODE_T_SIZE + SIZEOF_POOL_T.
Proof.
  intros Hh. destruct (handed_node _ _ _ _ _ _ Hh) as (d & Hd & _ & Hav & _). pose proof (handed_wf _ _ _ _ _ _ Hh) as Hwa.
  set (d' := with_first_avail (n + APR_MEMNODE_T_SIZE + SIZEOF_POOL_T) (with_ref n (with_next n d))). exists d', (mkArena (<[n := d']> (nodes m)) (allocators m)). split_and!; try done.
  - unfold pool_in_node. rewrite (upd_node_ok m n d) by done. cbn [rbind]. rewrite (upd_node_ok _ n (with_next n d)) by (cbn [nodes]; apply lookup_insert_eq). cbn [rbind nodes allocators].
    unfold get_node. cbn [nodes]. rewrite lookup_insert_eq. cbn [of_option rbind with_ref with_next first_avail]. rewrite Hav. rewrite (upd_node_ok _ n (with_ref n (with_next n d))) by (cbn [nodes]; apply lookup_insert_eq).
    cbn [rbind nodes allocators]. by rewrite !insert_insert_eq.
  - apply (wf_touch m _ n d); try done; [apply lookup_insert_eq|]. pose proof (wf_nodes _ _ Hwa _ _ Hd) as (H1 & H2 & H3 & H4 & H5 & H6 & H7).
    unfold wf_node. cbn [d' with_first_avail with_ref with_next index endp first_avail]. rewrite page_size in *. rewrite pool_size, header_size in *. split_and!; try lia.
    replace (n + 40 + 120) with (n + 20 * 8) by lia. by rewrite Z.mod_add.
Qed.

Section create.
Context (s : pstate) (own : owners) (home : gmap Z Z) (Hwf : wf_pools s own home).
Context (al idx n : Z) (m : arena) (Hh : handed (mem s) own al idx n m) (Hal : is_Some (allocators (mem s) !! al)).
Abbreviation p := (n + APR_MEMNODE_T_SIZE).

Lemma fresh_home : home !! n = None.
Proof using Hwf Hh. apply eq_None_not_Some. intros Hs. by apply (handed_fresh _ _ _ _ _ _ Hh), (wps_home _ _ _ Hwf). Qed.

Lemma fresh_pool : pools s !! p = None.
Proof using Hwf Hh.
  destruct (pools s !! p) as [Q|] eqn:HQ; [|done]. destruct (wps_pool _ _ _ Hwf _ _ HQ) as (L & HL & Hin). pose proof (wp_at _ _ _ _ HL) as E.
  assert (En : n = self Q) by lia. pose proof (proj2 (Hin (self Q)) (wp_self _ _ _ _ HL)) as Hs. rewrite <- En, fresh_home in Hs. done.
Qed.

Lemma fresh_not_null : p <> NULL.
Proof using Hh.
  destruct (handed_node _ _ _ _ _ _ Hh) as (d & Hd & _). pose proof (wf_nodes _ _ (handed_wf _ _ _ _ _ _ Hh) _ _ Hd) as [H1 _]. rewrite header_size. lia.
Qed.

Lemma allocators_kept x : owner <$> allocators m !! x = owner <$> allocators (mem s) !! x.
Proof using Hh Hal.
  destruct Hal as [a Ha]. pose proof (handed_untouched _ _ _ _ _ _ Hh) as Hun. destruct (decide (x = al)) as [->|Hx]; [|by rewrite (un_allocators _ _ _ _ _ _ Hun)].
  destruct (un_settings _ _ _ _ _ _ Hun a Ha) as (a' & Ha' & _ & _ & E). rewrite Ha, Ha'. cbn. by rewrite E.
Qed.

Lemma wf_pools_new ps' P d m' ev : m' = mkArena (<[n := d]> (nodes m)) (allocators m) -> wf_arena m' (<[n := None]> own) -> next d = n -> ref d = Some n -> first_avail d = p + SIZEOF_POOL_T ->
  ps' !! p = Some P -> room P = (al, n, n, p + SIZEOF_POOL_T) -> (forall k, k <> p -> room <$> ps' !! k = room <$> pools s !! k) ->
  wf_pools (mkP m' ps' ev) (<[n := None]> own) (<[n := p]> home).
Proof using Hwf Hh Hal.
  intros -> Hwa Hnx Hrf Hfa HP Hroom Hk. unfold room in Hroom. injection Hroom as E1 E2 E3 E4. pose proof fresh_home as Hfh. pose proof fresh_pool as Hfp.
  assert (Hframe : forall z q, home !! z = Some q -> (<[n := d]> (nodes m)) !! z = nodes (mem s) !! z).
  { intros z q Hz. assert (z <> n) by congruence. rewrite lookup_insert_ne by done. apply (un_nodes _ _ _ _ _ _ (handed_untouched _ _ _ _ _ _ Hh)); [by intros ->%list_elem_of_singleton|].
    apply (wps_home _ _ _ Hwf). by exists q. }
  assert (Hsome : forall x, is_Some (allocators (mem s) !! x) -> is_Some (allocators m !! x)).
  { intros x Hx. apply (fmap_is_Some owner). rewrite allocators_kept. by apply fmap_is_Some. }
  assert (Hlook : forall k Q', k <> p -> ps' !! k = Some Q' -> exists Q, pools s !! k = Some Q /\ room Q' = room Q) by (intros k Q' Hne; apply (fmap_lookup_inv room _ _ _ (Hk k Hne))).
  constructor; cbn [mem pools nodes allocators].
  - done.
  - intros z. destruct (decide (z = n)) as [->|Hz]; [rewrite !lookup_insert_eq; split; by eexists|rewrite !lookup_insert_ne by done; apply (wps_home _ _ _ Hwf)].
  - intros q Q'. destruct (decide (q = p)) as [->|Hq].
    + rewrite HP. intros [= <-]. exists []. rewrite E2. split.
      * constructor; rewrite ?E2, ?E3, ?E4; try done; [constructor; [done| |apply NoDup_singleton]|exists []; split; constructor|apply list_elem_of_here|].
        -- unfold linked, nxt, rf, last_of. cbn [last default]. rewrite lookup_insert_eq. cbn. by rewrite Hnx.
        -- intros d'. rewrite lookup_insert_eq. intros [= <-]. lia.
      * intros z. rewrite list_elem_of_singleton. destruct (decide (z = n)) as [->|Hz]; [rewrite lookup_insert_eq; done|]. rewrite lookup_insert_ne by done. split; [|done].
        intros Hz'. destruct (wps_alive _ _ _ Hwf _ _ Hz') as [Q HQ]. congruence.
    + intros HQ'. destruct (Hlook _ _ Hq HQ') as (Q & HQ & E). unfold room in E. injection E as F1 F2 F3 F4. destruct (wps_pool _ _ _ Hwf _ _ HQ) as (L & HL & Hin). exists L. rewrite F2. split.
      * assert (HL' : wf_pool (<[n := d]> (nodes m)) q Q L) by (eapply wf_pool_frame; [|exact HL]; intros z Hz%Hin; by apply (Hframe z q)).
        destruct HL'. constructor; rewrite ?F2, ?F3, ?F4; done.
      * intros z. rewrite <- Hin. destruct (decide (z = n)) as [->|Hz]; [rewrite lookup_insert_eq; split; congruence|by rewrite lookup_insert_ne].
  - intros q Q'. destruct (decide (q = p)) as [->|Hq]; [rewrite HP; intros [= <-]; rewrite E1; by apply Hsome|].
    intros HQ'. destruct (Hlook _ _ Hq HQ') as (Q & HQ & E). unfold room in E. injection E as F1 _ _ _. rewrite F1. apply Hsome, (wps_allocator _ _ _ Hwf _ _ HQ).
  - intros z q. destruct (decide (z = n)) as [->|Hz]; [rewrite lookup_insert_eq; intros [= <-]; rewrite HP; by eexists|]. rewrite lookup_insert_ne by done.
    intros Hz'. destruct (wps_alive _ _ _ Hwf _ _ Hz') as [Q HQ]. assert (q <> p) by congruence. specialize (Hk q ltac:(done)). rewrite HQ in Hk. destruct (ps' !! q); [by eexists|done].
Qed.
End create.

(** ** The tree and the allocators *)

(** A pool under [par] may use an allocator without owner, or one whose owner is above. *)
Definition may_use (s : pstate) (al par : Z) : Prop :=
  exists a, allocators (mem s) !! al = Some a /\ (owner a <> NULL -> below (pools s) (owner a) par).

Lemma inherited_use s own home kids ord par Q : wf_state s own home kids ord -> pools s !! par = Some Q -> may_use s (pool_allocator Q) par.
Proof.
  intros Hwf HQ. destruct (wps_allocator _ _ _ (ws_pools _ _ _ _ _ Hwf) _ _ HQ) as [a Ha]. exists a. split; [done|]. intros Hne.
  destruct (ws_owner _ _ _ _ _ Hwf _ _ Ha Hne) as (O & _ & _ & Hb). by apply (Hb par Q).
Qed.

Lemma owned_below_new s m ps' p P ev : owned_below s -> (forall x, owner <$> allocators m !! x = owner <$> allocators (mem s) !! x) -> pools s !! p = None -> ps' !! p = Some P ->
  (forall k, k <> p -> pool_allocator <$> ps' !! k = pool_allocator <$> pools s !! k) -> (forall k, k <> p -> parent <$> ps' !! k = parent <$> pools s !! k) ->
  may_use s (pool_allocator P) (parent P) -> owned_below (mkP m ps' ev).
Proof.
  intros Hown Ho Hp HP Ha Hpar Hmay al a Hal Hne. cbn [mem pools] in *. destruct (fmap_lookup_inv _ _ _ _ (Ho al) Hal) as (a0 & Ha0 & E). rewrite E in *. destruct (Hown _ _ Ha0 Hne) as (O & HO & EO & Hb).
  assert (Hup : forall q r, below (pools s) q r -> below ps' q r).
  { intros q r. apply below_mono. intros k K HK. assert (k <> p) by congruence. destruct (fmap_lookup_inv _ _ _ _ (eq_sym (Hpar k ltac:(done))) HK) as (K' & HK' & E'). by exists K'. }
  assert (Hop : owner a0 <> p) by congruence. destruct (fmap_lookup_inv _ _ _ _ (eq_sym (Ha _ Hop)) HO) as (O' & HO' & E'). exists O'. split; [done|]. split; [congruence|].
  intros q Q' HQ' EQ. destruct (decide (q = p)) as [->|Hq].
  - assert (Q' = P) as -> by congruence. eapply below_up; [done|]. apply Hup. destruct Hmay as (a1 & Ha1 & Hb1). rewrite EQ in Ha1. assert (a1 = a0) as -> by congruence. by apply Hb1.
  - destruct (fmap_lookup_inv _ _ _ _ (Ha q Hq) HQ') as (Q & HQ & EQ'). apply Hup, (Hb q Q HQ). congruence.
Qed.

(** What a call that makes a pool has done. *)
Record created (s : pstate) (own : owners) (home : gmap Z Z) (kids : Z -> list Z) (ord : list Z) (par al abortfn p n : Z) (s' : pstate) : Prop := {
  cr_wf : wf_state s' (<[n := None]> own) (<[n := p]> home) (add_kid p par kids) (p :: ord);
  cr_at : p = n + APR_MEMNODE_T_SIZE;
  cr_new : pools s !! p = None /\ home !! n = None;
  cr_pool : exists P, pools s' !! p = Some P /\ parent P = par /\ child P = NULL /\ pool_allocator P = al /\ abort_fn P = abortfn /\ cleanups P = [] /\ pre_cleanups P = [] /\ subprocesses P = [];
  cr_others k : k <> p -> match pools s !! k, pools s' !! k with Some P, Some P' => same_but_links P P' | None, None => True | _, _ => False end;
  cr_nodes m q : home !! m = Some q -> nodes (mem s') !! m = nodes (mem s) !! m;
  cr_node : exists d, nodes (mem s') !! n = Some d /\ first_avail d = p + SIZEOF_POOL_T;
  cr_events : events s' = events s
}.

Section creating.
Context (s : pstate) (own : owners) (home : gmap Z Z) (kids : Z -> list Z) (ord : list Z) (Hwf : wf_state s own home kids ord).
Context (al idx n : Z) (m : arena) (Hh : handed (mem s) own al idx n m).
Abbreviation p := (n + APR_MEMNODE_T_SIZE).
Context (par abortfn : Z) (Hmay : may_use s al par).

(** The new pool, before it is linked. *)
Definition new_pool (sib : Z) (r : option pool_link) : pool_t := mkPool par NULL sib r [] [] al [] abortfn NULL NULL n n (p + SIZEOF_POOL_T) [].

Lemma created_with ps' sib r m' d : m' = mkArena (<[n := d]> (nodes m)) (allocators m) -> wf_arena m' (<[n := None]> own) ->
  next d = n -> ref d = Some n -> first_avail d = p + SIZEOF_POOL_T -> ps' !! p = Some (new_pool sib r) -> wf_tree ps' (add_kid p par kids) (p :: ord) ->
  (forall k, k <> p -> match pools s !! k, ps' !! k with Some P, Some P' => same_but_links P P' | None, None => True | _, _ => False end) ->
  created s own home kids ord par al abortfn p n (mkP m' ps' (events s)).
Proof using Hwf Hh Hmay.
  intros Em Hwa Hnx Hrf Hfa HP Hwt Hk. pose proof (ws_pools _ _ _ _ _ Hwf) as Hwp. destruct Hmay as (a & Ha & _). pose proof (mk_is_Some _ _ Ha) as Hal.
  assert (Hfield : forall {B} (f : pool_t -> B) (Hf : forall P P', same_but_links P P' -> f P' = f P) k, k <> p -> f <$> ps' !! k = f <$> pools s !! k).
  { intros B f Hf k Hne. specialize (Hk k Hne). destruct (pools s !! k), (ps' !! k); cbn; try done. f_equal. by apply Hf. }
  constructor; cbn [mem pools events]; try done.
  - constructor; cbn [pools]; [eapply (wf_pools_new s own home Hwp al idx n m Hh Hal ps' (new_pool sib r) d m'); try done|done|].
    + apply Hfield. unfold same_but_links, room. intros P P' E. congruence.
    + subst m'. eapply (owned_below_new s _ ps' p (new_pool sib r)); [apply (ws_owner _ _ _ _ _ Hwf)| |by apply (fresh_pool s own home Hwp al idx n m)|done| | |done].
      * cbn [allocators]. by apply (allocators_kept s own al idx n m).
      * apply Hfield. unfold same_but_links. intros P P' E. congruence.
      * apply Hfield. intros P P'. apply parent_kept.
  - split; [by apply (fresh_pool s own home Hwp al idx n m)|by apply (fresh_home s own home Hwp al idx n m)].
  - by exists (new_pool sib r).
  - intros z q Hz. subst m'. cbn [nodes]. assert (z <> n) by (intros ->; by rewrite (fresh_home s own home Hwp al idx n m Hh) in Hz). rewrite lookup_insert_ne by done.
    apply (un_nodes _ _ _ _ _ _ (handed_untouched _ _ _ _ _ _ Hh)); [by intros ->%list_elem_of_singleton|]. apply (wps_home _ _ _ Hwp). by exists q.
  - subst m'. cbn [nodes]. exists d. by rewrite lookup_insert_eq.
Qed.

Lemma created_root m' d : par = NULL -> m' = mkArena (<[n := d]> (nodes m)) (allocators m) -> wf_arena m' (<[n := None]> own) ->
  next d = n -> ref d = Some n -> first_avail d = p + SIZEOF_POOL_T ->
  created s own home kids ord par al abortfn p n (mkP m' (<[p := new_pool NULL None]> (pools s)) (events s)).
Proof using Hwf Hh Hmay.
  intros Hp Em Hwa Hnx Hrf Hfa. pose proof (ws_pools _ _ _ _ _ Hwf) as Hwp. eapply (created_with _ NULL None m' d); try done; [apply lookup_insert_eq| |].
  - rewrite Hp. apply wf_tree_root; try done; [apply (ws_tree _ _ _ _ _ Hwf)|by apply (fresh_pool s own home Hwp al idx n m)|by apply (fresh_not_null s own al idx n m)|by left].
  - intros k Hk. rewrite lookup_insert_ne by done. by destruct (pools s !! k).
Qed.

Lemma created_child Q m' d : pools s !! par = Some Q -> m' = mkArena (<[n := d]> (nodes m)) (allocators m) -> wf_arena m' (<[n := None]> own) ->
  next d = n -> ref d = Some n -> first_avail d = p + SIZEOF_POOL_T ->
  created s own home kids ord par al abortfn p n (mkP m' (joined (pools s) p (new_pool (child Q) (Some (ChildOf par))) Q) (events s)).
Proof using Hwf Hh Hmay.
  intros HQ Em Hwa Hnx Hrf Hfa. pose proof (ws_pools _ _ _ _ _ Hwf) as Hwp. pose proof (ws_tree _ _ _ _ _ Hwf) as Hwt. set (P := new_pool (child Q) (Some (ChildOf par))).
  pose proof (fresh_pool s own home Hwp al idx n m Hh) as Hfp. pose proof (fresh_not_null s own al idx n m Hh) as Hp0.
  assert (Hpar : parent P = NULL \/ is_Some (pools s !! parent P)) by (right; by exists Q).
  assert (Hself : par <> p) by congruence. assert (Hcp : child Q <> NULL -> child Q <> p).
  { intros Hc E. destruct (sibs_head _ _ _ _ _ (proj1 (wt_kids _ _ _ Hwt _ _ HQ))) as [|Hin]; [done|]. destruct (kid_lookup _ _ _ Hwt _ _ _ HQ Hin) as (C & HC & _). congruence. }
  eapply (created_with _ (child Q) (Some (ChildOf par)) m' d); try done.
  - unfold joined. rewrite lookup_alter_ne by done. destruct (Z.eqb_spec (child Q) NULL); [apply lookup_insert_eq|]. rewrite lookup_alter_ne by auto. apply lookup_insert_eq.
  - by apply (wf_tree_child (pools s) kids ord Hwt p P Hfp Hp0 eq_refl Hpar Q).
  - intros k Hk. rewrite (joined_lookup (pools s) kids ord Hwt p P Hfp Hp0 eq_refl Hpar Q k Hk). destruct (pools s !! k) as [R|]; [|done]. cbn. by repeat destruct (decide _).
Qed.

(** The assignments that link the pool to its parent. *)
Lemma join_writes m' Q P : pools s !! par = Some Q -> parent P = par -> p <> par ->
  (do s <- (if child Q =? NULL then Ok (mkP m' (<[p := P]> (pools s)) (events s)) else upd_pool (mkP m' (<[p := P]> (pools s)) (events s)) (child Q) (with_pref (Some (SiblingOf p))));
   do s <- upd_pool s par (with_child p); Ok (p, s)) = Ok (p, mkP m' (joined (pools s) p P Q) (events s)).
Proof using Hwf.
  intros HQ HP Hp. pose proof (ws_tree _ _ _ _ _ Hwf) as Hwt. set (s0 := mkP m' (<[p := P]> (pools s)) (events s)). unfold joined. rewrite HP.
  assert (Hin : is_Some (pools s0 !! par)) by (cbn [s0 pools]; rewrite lookup_insert_ne by done; by exists Q). destruct (Z.eqb_spec (child Q) NULL) as [E|E].
  - cbn [rbind]. rewrite (upd_pool_alter s0) by done. done.
  - assert (Hc : is_Some (pools s0 !! child Q)).
    { cbn [s0 pools]. apply lookup_insert_is_Some. destruct (sibs_head _ _ _ _ _ (proj1 (wt_kids _ _ _ Hwt _ _ HQ))) as [|Hk]; [done|]. destruct (kid_lookup _ _ _ Hwt _ _ _ HQ Hk) as (C & HC & _).
      destruct (decide (p = child Q)); [by left|right; split; [done|by exists C]]. }
    rewrite (upd_pool_alter s0) by done. cbn [rbind]. rewrite upd_pool_alter; [done|]. cbn [pools]. destruct (decide (child Q = par)) as [Ec|Hne]; [rewrite Ec, lookup_alter_eq; by apply fmap_is_Some|by rewrite lookup_alter_ne].
Qed.
End creating.

Section calls.
Context `{MallocLaws}.

(** A failed call leaves pools and memory as they are; the abort function is called. *)
Definition not_created (s s' : pstate) (abortfn : Z) : Prop :=
  s' = (if abortfn =? NULL then s else emit_event (Abort_called abortfn) s) /\ refused (mem s) (MIN_ALLOC - APR_MEMNODE_T_SIZE).

(** What a pool takes from its parent. *)
Definition inherit (s : pstate) (f : pool_t -> Z) (par v : Z) : Z := if v =? NULL then default NULL (f <$> pools s !! par) else v.

Lemma create_ex_spec s own home kids ord global par0 abortfn al :
  let par := if par0 =? NULL then global else par0 in
  wf_state s own home kids ord -> is_Some (pools s !! par) \/ par = NULL /\ al <> NULL -> (al <> NULL -> may_use s al par) ->
  exists r s', apr_pool_create_ex s global par0 abortfn al = Ok (r, s') /\
    (r = NULL /\ not_created s s' (inherit s abort_fn par abortfn) \/
     exists n, created s own home kids ord par (inherit s pool_allocator par al) (inherit s abort_fn par abortfn) r n s').
Proof.
  intros par Hwf Hpar Hal. unfold apr_pool_create_ex. fold par. pose proof (ws_tree _ _ _ _ _ Hwf) as Hwt.
  assert (E1 : (if (abortfn =? NULL) && negb (par =? NULL) then do Q <- get_pool s par; Ok (abort_fn Q) else Ok abortfn) = Ok (inherit s abort_fn par abortfn)).
  { unfold inherit, get_pool. destruct (Z.eqb_spec abortfn NULL) as [->|]; [|done]. cbn [andb]. destruct Hpar as [[Q HQ]|[-> _]]; [|rewrite (wt_null _ _ _ Hwt); done].
    pose proof (pool_not_null _ _ _ Hwt _ (mk_is_Some _ _ HQ)). replace (par =? NULL) with false by lia. by rewrite HQ. }
  assert (E2 : (if al =? NULL then do Q <- get_pool s par; Ok (pool_allocator Q) else Ok al) = Ok (inherit s pool_allocator par al)).
  { unfold inherit, get_pool. destruct (Z.eqb_spec al NULL) as [->|]; [|done]. destruct Hpar as [[Q HQ]|[_ Hne]]; [|done]. by rewrite HQ. }
  rewrite E1. cbn [rbind]. rewrite E2. cbn [rbind]. set (ab := inherit s abort_fn par abortfn). set (al' := inherit s pool_allocator par al).
  assert (Hmay : may_use s al' par).
  { unfold al', inherit. destruct (Z.eqb_spec al NULL) as [->|Hne]; [|by apply Hal]. destruct Hpar as [[Q HQ]|[_ Hne]]; [|done]. rewrite HQ. cbn. by eapply inherited_use. }
  pose proof Hmay as (a & Ha & _). destruct (allocator_alloc_spec (mem s) own al' a (MIN_ALLOC - APR_MEMNODE_T_SIZE) (wps_arena _ _ _ (ws_pools _ _ _ _ _ Hwf)) Ha ltac:(by vm_compute)) as (n & m & -> & Hcase). cbn [rbind].
  destruct Hcase as [(-> & -> & Href)|(idx & _ & Hh)]; [do 2 eexists; split; [reflexivity|by left]|].
  pose proof (handed_not_null _ _ _ _ _ _ Hh). replace (n =? NULL) with false by lia. destruct (pool_in_node_spec _ _ _ _ _ _ Hh) as (d & m' & -> & Em & Hwa & Hnx & Hrf & Hfa). cbn [rbind].
  destruct Hpar as [[Q HQ]|[Hp Hne]].
  - pose proof (pool_not_null _ _ _ Hwt _ (mk_is_Some _ _ HQ)). replace (par =? NULL) with false by lia. unfold get_pool. rewrite HQ. cbn [of_option rbind].
    fold (new_pool al' n par ab (child Q) (Some (ChildOf par))). rewrite (join_writes s own home kids ord Hwf n par m' Q); [|done|done|].
    + do 2 eexists. split; [reflexivity|]. right. exists n. by apply (created_child s own home kids ord Hwf al' idx n m Hh par ab Hmay Q m' d).
    + intros E. pose proof (fresh_pool s own home (ws_pools _ _ _ _ _ Hwf) al' idx n m Hh). congruence.
  - replace (par =? NULL) with true by lia. do 2 eexists. split; [reflexivity|]. right. exists n. by apply (created_root s own home kids ord Hwf al' idx n m Hh par ab Hmay m' d).
Qed.

(** ** Unmanaged pools *)

Lemma wf_pools_mem s own home m : wf_pools s own home -> wf_arena m own -> nodes m = nodes (mem s) ->
  (forall x, is_Some (allocators (mem s) !! x) -> is_Some (allocators m !! x)) -> wf_pools (set_mem m s) own home.
Proof using Type.
  intros [_ Hh Hp Hal Hl] Hwa Hn Hs. constructor; cbn [set_mem mem pools]; try done; [intros p P HP; rewrite Hn; by apply Hp|]. intros p P HP. by apply Hs, (Hal p).
Qed.

(** A fresh allocator has no owner. *)
Lemma wf_state_allocator s own home kids ord al m : wf_state s own home kids ord -> wf_arena m own -> allocators (mem s) !! al = None -> nodes m = nodes (mem s) ->
  allocators m = <[al := empty_allocator]> (allocators (mem s)) -> wf_state (set_mem m s) own home kids ord.
Proof using Type.
  intros [Hwp Hwt Hown] Hwa Hal Hn Ha. constructor; [|done|].
  - apply wf_pools_mem; try done. intros x Hx. rewrite Ha. apply lookup_insert_is_Some. destruct (decide (al = x)); [by left|by right].
  - intros al' a'. cbn [set_mem mem pools]. rewrite Ha. destruct (decide (al' = al)) as [->|Hne]; [rewrite lookup_insert_eq; by intros [= <-]|rewrite lookup_insert_ne by done; apply Hown].
Qed.

(** The pool becomes the owner of an allocator that only it and the pools below use. *)
Lemma owner_set_spec s own home kids ord al a p P : wf_state s own home kids ord -> allocators (mem s) !! al = Some a -> pools s !! p = Some P -> pool_allocator P = al ->
  (forall q Q, pools s !! q = Some Q -> pool_allocator Q = al -> below (pools s) p q) ->
  exists m, apr_allocator_owner_set (mem s) al p = Ok m /\ wf_state (set_mem m s) own home kids ord /\ nodes m = nodes (mem s).
Proof using Type.
  intros [Hwp Hwt Hown] Ha HP Hal Honly. unfold apr_allocator_owner_set, upd_allocator, get_allocator. rewrite Ha. cbn [of_option rbind]. set (a' := mkAllocator _ _ _ _ _ _).
  eexists. split; [reflexivity|]. split; [|done]. pose proof (wps_arena _ _ _ Hwp) as Hwa. destruct (wf_allocators _ _ Hwa _ _ Ha) as (F & HF & _). constructor; [|done|].
  - apply wf_pools_mem; try done; [|cbn [allocators]; intros x Hx; apply lookup_insert_is_Some; destruct (decide (al = x)); [by left|by right]].
    apply (wf_settings _ _ al a a'); try done; [apply (wf_free _ _ _ HF)|apply (wf_max_free _ _ _ HF)].
  - intros al' b. cbn [set_mem mem pools allocators]. destruct (decide (al' = al)) as [->|Hne]; [|rewrite lookup_insert_ne by done; apply Hown].
    rewrite lookup_insert_eq. intros [= <-] _. exists P. cbn [a' owner]. split; [done|]. split; [done|]. exact Honly.
Qed.

(** The case without an allocator: a new one, of which the pool is the owner. *)
Lemma unmanaged_new s own home kids ord abortfn : wf_state s own home kids ord ->
  exists r s', apr_pool_create_unmanaged_ex s true abortfn NULL = Ok (r, s') /\
    (r = NULL /\ wf_state s' own home kids ord /\ pools s' = pools s /\ nodes (mem s') = nodes (mem s) \/ exists n al, created s own home kids ord NULL al abortfn r n s').
Proof.
  intros Hwf. unfold apr_pool_create_unmanaged_ex. cbn [negb Z.eqb]. pose proof (ws_pools _ _ _ _ _ Hwf) as Hwp. pose proof (wps_arena _ _ _ Hwp) as Hwa.
  assert (Habort : forall m, wf_state (set_mem m s) own home kids ord -> wf_state (if abortfn =? NULL then set_mem m s else emit_event (Abort_called abortfn) (set_mem m s)) own home kids ord).
  { intros m Hm. destruct (abortfn =? NULL); [done|]. by apply (wf_state_fields (set_mem m s)). }
  destruct (apr_allocator_create_spec (mem s) own Hwa) as (al & m0 & -> & [(-> & -> & _)|(Hwa0 & Hal & Hn0 & Ha0)]); cbn [rbind].
  { do 2 eexists. split; [reflexivity|]. left. split; [done|]. replace s with (set_mem (mem s) s) at 1 2 by (by destruct s). split; [apply Habort; by destruct s|]. by destruct (abortfn =? NULL). }
  assert (Ha : allocators m0 !! al = Some empty_allocator) by (rewrite Ha0; apply lookup_insert_eq). pose proof (wf_not_null _ _ Hwa0 _ _ Ha) as Hal0. replace (al =? NULL) with false by lia.
  set (s0 := set_mem m0 s). assert (Hwf0 : wf_state s0 own home kids ord) by (by apply (wf_state_allocator s own home kids ord al)).
  destruct (allocator_alloc_spec m0 own al empty_allocator (MIN_ALLOC - APR_MEMNODE_T_SIZE) Hwa0 Ha ltac:(by vm_compute)) as (n & m & -> & Hcase). cbn [rbind].
  destruct Hcase as [(-> & -> & _)|(idx & _ & Hh)]; [do 2 eexists; split; [reflexivity|]; left; split; [done|]; split; [by apply Habort|]; by destruct (abortfn =? NULL)|].
  pose proof (handed_not_null _ _ _ _ _ _ Hh). replace (n =? NULL) with false by lia. destruct (pool_in_node_spec _ _ _ _ _ _ Hh) as (d & m' & -> & Em & Hwa' & Hnx & Hrf & Hfa). cbn [rbind].
  assert (Hmay : may_use s0 al NULL) by (by exists empty_allocator).
  pose proof (created_root s0 own home kids ord Hwf0 al idx n m Hh NULL abortfn Hmay m' d eq_refl Em Hwa' Hnx Hrf Hfa) as Hcr. set (p := n + APR_MEMNODE_T_SIZE) in *.
  set (s1 := mkP m' _ _) in Hcr. destruct (cr_pool _ _ _ _ _ _ _ _ _ _ _ Hcr) as (P & HP & HPp & HPc & HPa & HPab & HPr).
  assert (Ha1 : exists a1, allocators (mem s1) !! al = Some a1) by (destruct (wps_allocator _ _ _ (ws_pools _ _ _ _ _ (cr_wf _ _ _ _ _ _ _ _ _ _ _ Hcr)) _ _ HP) as [a1 Ha1]; rewrite HPa in Ha1; by exists a1).
  destruct Ha1 as (a1 & Ha1). destruct (owner_set_spec s1 _ _ _ _ al a1 p P (cr_wf _ _ _ _ _ _ _ _ _ _ _ Hcr) Ha1 HP HPa) as (m2 & E2 & Hwf2 & Hn2).
  { intros q Q HQ EQ. destruct (decide (q = p)) as [->|Hq]; [constructor|]. cbn [s1 pools] in HQ. rewrite lookup_insert_ne in HQ by done.
    destruct (wps_allocator _ _ _ Hwp _ _ HQ) as [b Hb]. congruence. }
  cbn [s1 mem] in E2. rewrite E2. cbn [rbind]. do 2 eexists. split; [reflexivity|]. right. exists n, al. destruct Hcr as [_ F1 F2 _ F4 F5 F6 F7]. constructor; try done.
  - by exists P.
  - intros z q Hz. cbn [mem]. rewrite Hn2, (F5 z q Hz). cbn [s0 set_mem mem]. by rewrite Hn0.
  - cbn [mem]. by rewrite Hn2.
Qed.

Lemma unmanaged_given s own home kids ord abortfn al : wf_state s own home kids ord -> al <> NULL -> may_use s al NULL ->
  exists r s', apr_pool_create_unmanaged_ex s true abortfn al = Ok (r, s') /\
    (r = NULL /\ not_created s s' abortfn \/ exists n, created s own home kids ord NULL al abortfn r n s').
Proof.
  intros Hwf Hal Hmay. unfold apr_pool_create_unmanaged_ex. cbn [negb]. replace (al =? NULL) with false by lia. cbn [rbind]. replace (al =? NULL) with false by lia. pose proof Hmay as (a & Ha & _).
  destruct (allocator_alloc_spec (mem s) own al a (MIN_ALLOC - APR_MEMNODE_T_SIZE) (wps_arena _ _ _ (ws_pools _ _ _ _ _ Hwf)) Ha ltac:(by vm_compute)) as (n & m & -> & Hcase). cbn [rbind].
  destruct Hcase as [(-> & -> & Href)|(idx & _ & Hh)]; [do 2 eexists; split; [reflexivity|]; left; split; [done|]; split; [by destruct s|done]|].
  pose proof (handed_not_null _ _ _ _ _ _ Hh). replace (n =? NULL) with false by lia. destruct (pool_in_node_spec _ _ _ _ _ _ Hh) as (d & m' & -> & Em & Hwa' & Hnx & Hrf & Hfa). cbn [rbind].
  do 2 eexists. split; [reflexivity|]. right. exists n. by apply (created_root s own home kids ord Hwf al idx n m Hh NULL abortfn Hmay m' d).
Qed.
End calls.
