(* ===== verification/AprPoolReach.v ===== *)
(** * Programs that use pools: [src/apr/memory/unix/apr_pools.c]

    The states that sequences of calls reach, with the blocks that have been
    allocated and whose pools have been neither cleared nor destroyed since. *)

From Stdlib Require Import Sorted.
From S2P Require Import Prelude AprAllocator AprFree AprPools AprRing AprPalloc AprPoolTree AprRelease AprDestroy AprPoolCreate.

(** ** The blocks a program has *)

(** A block: its pool, its address and the size that was asked for. *)
Record block := mkBlock { b_pool : Z; b_at : Z; b_size : Z }.

(** Room taken by a block. *)
Definition b_end (x : block) : Z := b_at x + APR_ALIGN_DEFAULT (b_size x).

Definition apart (x y : block) : Prop := b_end x <= b_at y \/ b_end y <= b_at x.

(** The block is in a node of its pool, after the structure of the pool and before
    the room that is left. *)
Definition placed (s : pstate) (home : gmap Z Z) (x : block) : Prop :=
  exists n d Q, home !! n = Some (b_pool x) /\ nodes (mem s) !! n = Some d /\ pools s !! b_pool x = Some Q /\
    n + APR_MEMNODE_T_SIZE <= b_at x /\ b_end x <= first_avail d /\ b_at x mod 8 = 0 /\ 0 <= b_size x <= APR_ALIGN_DEFAULT (b_size x) /\
    (n = self Q -> self_first_avail Q <= b_at x).

Definition logged (s : pstate) (home : gmap Z Z) (bl : list block) : Prop := Forall (placed s home) bl /\ StronglySorted apart bl.

(** What the place of a block depends on. *)
Lemma placed_frame s s' home home' x : placed s home x ->
  (forall n, home !! n = Some (b_pool x) -> home' !! n = Some (b_pool x) /\ region <$> nodes (mem s') !! n = region <$> nodes (mem s) !! n) ->
  (forall Q, pools s !! b_pool x = Some Q -> exists Q', pools s' !! b_pool x = Some Q' /\ self Q' = self Q /\ self_first_avail Q' = self_first_avail Q) ->
  placed s' home' x.
Proof.
  intros (n & d & Q & Hn & Hd & HQ & H1 & H2 & H3 & H4 & H5) Hf Hq. destruct (Hf n Hn) as [Hn' Hr]. destruct (region_lookup (nodes (mem s)) (nodes (mem s')) n d Hr Hd) as (d' & Hd' & E).
  unfold region in E. injection E as _ E _. destruct (Hq Q HQ) as (Q' & HQ' & E1 & E2). exists n, d', Q'. rewrite E1, E2, E. done.
Qed.

Lemma logged_frame s s' home home' bl : logged s home bl -> (forall x, x ∈ bl -> placed s home x -> placed s' home' x) -> logged s' home' bl.
Proof. intros [Hp Hs] Hf. split; [|done]. rewrite Forall_forall in *. auto. Qed.

Lemma sorted_filter {A} (R : A -> A -> Prop) (Q : A -> Prop) `{!forall x, Decision (Q x)} l : StronglySorted R l -> StronglySorted R (filter Q l).
Proof.
  induction 1 as [|x l Hs IH Hf]; [constructor|]. destruct (decide (Q x)); [rewrite filter_cons_True by done|by rewrite filter_cons_False].
  constructor; [done|]. rewrite Forall_forall in *. intros y [_ Hy]%list_elem_of_filter. by apply Hf.
Qed.

(** The blocks of the pools that are left, those of [p] apart. *)
Definition left_over (s' : pstate) (p : Z) (bl : list block) : list block := filter (fun x => is_Some (pools s' !! b_pool x) /\ b_pool x <> p) bl.

Lemma logged_left s s' home home' p bl : logged s home bl ->
  (forall x, is_Some (pools s' !! b_pool x) -> b_pool x <> p -> placed s home x -> placed s' home' x) -> logged s' home' (left_over s' p bl).
Proof.
  intros [Hp Hs] Hf. split; [|by apply sorted_filter]. rewrite Forall_forall in *. intros x [[H1 H2] Hx]%list_elem_of_filter. auto.
Qed.

(** ** Memory *)

(** Two nodes do not overlap. *)
Lemma nodes_apart s own n m d d' : wf_arena s own -> nodes s !! n = Some d -> nodes s !! m = Some d' -> n <> m -> endp d <= m \/ endp d' <= n.
Proof.
  intros Hwf Hd Hd' Hne. pose proof (wf_blocks _ _ Hwf n m (endp d - n) (endp d' - m) Hne) as Hdis. rewrite !live_lookup, Hd, Hd' in Hdis. destruct Hdis; [done..| |]; lia.
Qed.

Lemma align_known in_size : 0 <= in_size < 2 ^ 64 -> in_size <= APR_ALIGN_DEFAULT in_size \/ 2 ^ 64 - 8 < in_size.
Proof. intros Hi. pose proof (align_default in_size Hi) as Hc. cbv zeta in Hc. lia. Qed.

Lemma align_nonneg in_size : 0 <= APR_ALIGN_DEFAULT in_size.
Proof. unfold APR_ALIGN_DEFAULT, APR_ALIGN. apply Z.land_nonneg. left. unfold u64. apply Z.mod_pos_bound. lia. Qed.

(** ** The calls *)

(** The invariant of programs: some choice of the ghost state is well formed. *)
Definition sound (s : pstate) (bl : list block) : Prop := exists own home kids ord, wf_state s own home kids ord /\ logged s home bl.

(** Only fields of pools that memory and family do not depend on change. *)
Lemma sound_fields s ps ev bl : (forall k, room <$> ps !! k = room <$> pools s !! k) -> (forall k, family <$> ps !! k = family <$> pools s !! k) -> sound s bl -> sound (mkP (mem s) ps ev) bl.
Proof.
  intros Hr Hf (own & home & kids & ord & Hwf & Hlog). exists own, home, kids, ord. split; [by apply wf_state_fields|]. eapply logged_frame; [exact Hlog|]. intros x _ Hx. eapply placed_frame; [exact Hx|done|].
  intros Q HQ. destruct (fmap_lookup_inv _ _ _ _ (eq_sym (Hr _)) HQ) as (Q' & HQ' & E). exists Q'. unfold room in E. split_and!; (done || congruence).
Qed.

Lemma sound_upd s p f s' bl : upd_pool s p f = Ok s' -> (forall P, room (f P) = room P /\ family (f P) = family P) -> sound s bl -> sound s' bl.
Proof.
  unfold upd_pool, get_pool. destruct (pools s !! p) as [P|] eqn:HP; [|done]. cbn [of_option rbind]. intros [= <-] Hf. destruct (Hf P) as [H1 H2].
  apply sound_fields; [by apply (insert_field room _ _ P)|by apply (insert_field family _ _ P)].
Qed.

Lemma sound_event s ev bl : sound s bl -> sound (mkP (mem s) (pools s) ev) bl.
Proof. by apply sound_fields. Qed.

(** Settings of allocators. *)
Lemma sound_mem s own home kids ord m bl : wf_state s own home kids ord -> logged s home bl -> wf_state (set_mem m s) own home kids ord -> nodes m = nodes (mem s) -> sound (set_mem m s) bl.
Proof.
  intros _ Hlog Hwf Hn. exists own, home, kids, ord. split; [done|]. eapply logged_frame; [exact Hlog|]. intros x _ Hx. eapply placed_frame; [exact Hx|cbn [set_mem mem]; by rewrite Hn|].
  intros Q HQ. by exists Q.
Qed.

(** A block from a pool. *)
Lemma palloc_not_null s own home p size b s' own' home' n : palloc_post s own home p size b s' own' home' n -> b <> NULL.
Proof.
  intros Hpost. destruct (pp_start _ _ _ _ _ _ _ _ _ _ Hpost) as [Hst _]. pose proof (pp_wf _ _ _ _ _ _ _ _ _ _ Hpost) as Hwp'. pose proof (wps_arena _ _ _ Hwp') as Hwa'.
  assert (Hn : is_Some (nodes (mem s') !! n)) by (apply (wf_owned _ _ Hwa'); rewrite (proj2 (wps_home _ _ _ Hwp' n) (mk_is_Some _ _ (pp_here _ _ _ _ _ _ _ _ _ _ Hpost))); by eexists).
  destruct Hn as [d Hd]. apply (wf_nodes _ _ Hwa') in Hd as [Hn0 _]. rewrite header_size in Hst. lia.
Qed.

Section palloc.
Context (s : pstate) (own : owners) (home : gmap Z Z) (kids : Z -> list Z) (ord : list Z) (bl : list block) (Hwf : wf_state s own home kids ord) (Hlog : logged s home bl).
Context (p in_size b : Z) (s' : pstate) (own' : owners) (home' : gmap Z Z) (n : Z) (P : pool_t) (HP : pools s !! p = Some P).
Context (Hpost : palloc_post s own home p (APR_ALIGN_DEFAULT in_size) b s' own' home' n).

Lemma palloc_pools k : (k = p /\ exists a, pools s' !! k = Some (with_active a P)) \/ pools s' !! k = pools s !! k.
Proof using HP Hpost.
  destruct (decide (k = p)) as [->|Hk]; [left; split; [done|by apply (pp_pool _ _ _ _ _ _ _ _ _ _ Hpost)]|right; by apply (pp_pools _ _ _ _ _ _ _ _ _ _ Hpost)].
Qed.

Lemma palloc_field {B} (f : pool_t -> B) : (forall a, f (with_active a P) = f P) -> forall k, f <$> pools s' !! k = f <$> pools s !! k.
Proof using HP Hpost. intros Hf k. destruct (palloc_pools k) as [(-> & a & ->)| ->]; [|done]. rewrite HP. cbn. by rewrite Hf. Qed.

Lemma palloc_state : wf_state s' own' home' kids ord.
Proof using Hwf HP Hpost.
  destruct Hwf as [Hwp Hwt Hown]. constructor; [apply (pp_wf _ _ _ _ _ _ _ _ _ _ Hpost)|eapply wf_tree_family; [exact Hwt|]; by apply palloc_field|].
  replace s' with (mkP (mem s') (pools s') (events s')) by (by destruct s'). apply (owned_below_fields s); [done|apply (pp_owner _ _ _ _ _ _ _ _ _ _ Hpost)|by apply palloc_field..].
Qed.

Lemma palloc_keeps_place x : placed s home x -> placed s' home' x /\ apart (mkBlock p b in_size) x.
Proof using Hwf HP Hpost.
  intros (m & d & Q & Hm & Hd & HQ & H1 & H2 & H3 & H4 & H5). pose proof (pp_wf _ _ _ _ _ _ _ _ _ _ Hpost) as Hwp'. pose proof (wps_arena _ _ _ Hwp') as Hwa'.
  assert (Hn : is_Some (nodes (mem s') !! n)) by (apply (wf_owned _ _ Hwa'); rewrite (proj2 (wps_home _ _ _ Hwp' n) (mk_is_Some _ _ (pp_here _ _ _ _ _ _ _ _ _ _ Hpost))); by eexists).
  destruct Hn as [dn Hdn]. pose proof (pp_end _ _ _ _ _ _ _ _ _ _ Hpost _ Hdn) as Hend. destruct (pp_start _ _ _ _ _ _ _ _ _ _ Hpost) as [Hst _]. pose proof (wf_nodes _ _ Hwa' _ _ Hdn) as (_ & _ & _ & _ & _ & Hav & _).
  assert (HQ' : exists Q', pools s' !! b_pool x = Some Q' /\ self Q' = self Q /\ self_first_avail Q' = self_first_avail Q).
  { destruct (palloc_pools (b_pool x)) as [(E & a & ->)| ->]; [|by exists Q]. exists (with_active a P). split; [done|]. rewrite E in HQ. by simplify_eq. }
  destruct HQ' as (Q' & HQ' & E1 & E2). unfold apart, b_end in *. cbn [b_at b_size]. destruct (decide (m = n)) as [->|Hne].
  - assert (Hp : b_pool x = p) by (destruct (pp_new _ _ _ _ _ _ _ _ _ _ Hpost); congruence). rewrite Hp in *. pose proof (pp_fresh _ _ _ _ _ _ _ _ _ _ Hpost _ Hm Hd) as Hfr.
    split; [|right; lia]. unfold placed, b_end. exists n, dn, Q'. rewrite E1, E2, Hp. split; [apply (pp_here _ _ _ _ _ _ _ _ _ _ Hpost)|]. split; [done|]. split; [done|]. split; [done|]. split; [|done].
    pose proof (align_nonneg in_size). lia.
  - pose proof (pp_regions _ _ _ _ _ _ _ _ _ _ Hpost m Hne (mk_is_Some _ _ Hm)) as Hr. destruct (region_lookup (nodes (mem s)) (nodes (mem s')) m d Hr Hd) as (d' & Hd' & E). unfold region in E. injection E as _ Ef Ee.
    split; [unfold placed, b_end; exists m, d', Q'; rewrite E1, E2, Ef; split; [by rewrite (pp_home _ _ _ _ _ _ _ _ _ _ Hpost)|done]|].
    pose proof (wf_nodes _ _ Hwa' _ _ Hd') as (_ & _ & _ & _ & _ & Hav' & _). destruct (nodes_apart _ _ _ _ _ _ Hwa' Hdn Hd' ltac:(done)) as [Hlt|Hlt]; rewrite header_size in *; [left|right]; lia.
Qed.

Lemma palloc_new_place : 0 <= in_size <= APR_ALIGN_DEFAULT in_size -> placed s' home' (mkBlock p b in_size).
Proof using Hwf HP Hpost.
  intros Hs. pose proof (pp_wf _ _ _ _ _ _ _ _ _ _ Hpost) as Hwp'. pose proof (wps_arena _ _ _ Hwp') as Hwa'. pose proof (pp_here _ _ _ _ _ _ _ _ _ _ Hpost) as Hh.
  assert (Hn : is_Some (nodes (mem s') !! n)) by (apply (wf_owned _ _ Hwa'); rewrite (proj2 (wps_home _ _ _ Hwp' n) (mk_is_Some _ _ Hh)); by eexists).
  destruct Hn as [dn Hdn]. pose proof (pp_end _ _ _ _ _ _ _ _ _ _ Hpost _ Hdn) as Hend. destruct (pp_start _ _ _ _ _ _ _ _ _ _ Hpost) as [Hst H8].
  destruct (pp_pool _ _ _ _ _ _ _ _ _ _ Hpost P HP) as (a & HP').
  exists n, dn, (with_active a P). unfold b_end. cbn [b_pool b_at b_size with_active self self_first_avail]. split_and!; try done; try lia.
  intros En. destruct (wps_pool _ _ _ (ws_pools _ _ _ _ _ Hwf) _ _ HP) as (L & HL & Hin). pose proof (proj2 (Hin _) (wp_self _ _ _ _ HL)) as Hself. rewrite <- En in Hself.
  destruct (ring_lookup _ _ _ _ (wp_ring _ _ _ _ HL) (wp_self _ _ _ _ HL)) as [d Hd]. pose proof (wp_room _ _ _ _ HL _ Hd) as Hroom. rewrite <- En in Hd.
  rewrite <- (pp_fresh _ _ _ _ _ _ _ _ _ _ Hpost _ Hself Hd). done.
Qed.

Lemma palloc_logged : logged s' home' bl /\ (0 <= in_size <= APR_ALIGN_DEFAULT in_size -> logged s' home' (mkBlock p b in_size :: bl)).
Proof using Type*.
  destruct Hlog as [Hp Hs]. assert (H1 : Forall (placed s' home') bl) by (rewrite Forall_forall in *; intros x Hx; by apply palloc_keeps_place, Hp).
  split; [by split|]. intros Hsz. split; [by constructor; [apply palloc_new_place|]|]. constructor; [done|]. rewrite Forall_forall in *. intros x Hx. by apply palloc_keeps_place, Hp.
Qed.
End palloc.

Section calls.
Context `{MallocLaws}.

Lemma palloc_sound s bl p in_size b s' : sound s bl -> is_Some (pools s !! p) -> 0 <= in_size < 2 ^ 64 -> apr_palloc s p in_size = Ok (b, s') ->
  sound s' bl /\ sound s' (if b =? NULL then bl else mkBlock p b in_size :: bl).
Proof.
  intros (own & home & kids & ord & Hwf & Hlog) [P HP] Hin E. destruct (apr_palloc_spec s own home p P in_size (ws_pools _ _ _ _ _ Hwf) HP Hin) as (b0 & s0 & E0 & Hcase).
  rewrite E in E0. injection E0 as <- <-. destruct Hcase as [(-> & -> & _)|(own' & home' & n & Hpost)].
  - assert (Hs : sound (call_abort s P) bl) by (unfold call_abort; destruct (abort_fn P =? NULL); [by exists own, home, kids, ord|apply sound_event; by exists own, home, kids, ord]). done.
  - destruct (decide (in_size <= APR_ALIGN_DEFAULT in_size)) as [Hsz|Hsz].
    + pose proof (palloc_not_null _ _ _ _ _ _ _ _ _ _ Hpost) as Hb. replace (b =? NULL) with false by lia.
      destruct (palloc_logged s own home kids ord bl Hwf Hlog p in_size b s' own' home' n P HP Hpost) as [H1 H2]. pose proof (palloc_state s own home kids ord Hwf p in_size b s' own' home' n P HP Hpost) as Hwf'.
      split; exists own', home', kids, ord; (split; [done|]); [done|apply H2; lia].
    + exfalso. unfold apr_palloc, get_pool in E. rewrite HP in E. cbn [of_option rbind] in E. replace (_ <? in_size) with true in E by lia. injection E as <- <-.
      by apply (palloc_not_null s own home p _ NULL _ own' home' n Hpost).
Qed.

(** Cleanups: the structures come from the pool or from its list of free ones. *)
Lemma new_cleanup_sound s bl p c s' : sound s bl -> is_Some (pools s !! p) -> new_cleanup s p = Ok (c, s') -> sound s' bl.
Proof.
  intros Hs [P HP]. unfold new_cleanup, get_pool. rewrite HP. cbn [of_option rbind]. destruct (free_cleanups P) as [|x rest].
  - intros E. exact (proj1 (palloc_sound s bl p SIZEOF_CLEANUP_T c s' Hs (mk_is_Some _ _ HP) ltac:(by vm_compute) E)).
  - destruct (upd_pool s p _) as [s1|] eqn:E; [|done]. cbn [rbind]. intros [= <- <-]. by eapply sound_upd; [exact E|intros Q|].
Qed.

Lemma register_sound s bl p data plain child_fn s' : sound s bl -> is_Some (pools s !! p) ->
  apr_pool_cleanup_register s p data plain child_fn = Ok s' \/ apr_pool_pre_cleanup_register s p data plain = Ok s' -> sound s' bl.
Proof.
  intros Hs Hp. unfold apr_pool_cleanup_register, apr_pool_pre_cleanup_register. destruct (p =? NULL); [intros [[= <-]|[= <-]]; done|].
  destruct (new_cleanup s p) as [[c s1]|] eqn:E; [|by intros [|]]. cbn [rbind]. pose proof (new_cleanup_sound _ _ _ _ _ Hs Hp E) as Hs1. destruct (c =? NULL); [by intros [|]|].
  intros [E'|E']; by eapply sound_upd; [exact E'|intros Q|].
Qed.

Lemma kill_sound s bl p data fn s' : sound s bl -> apr_pool_cleanup_kill s p data fn = Ok s' -> sound s' bl.
Proof.
  intros Hs. unfold apr_pool_cleanup_kill. destruct (p =? NULL); [by intros [= <-]|]. intros E. eapply sound_upd; [exact E|intros Q|done].
  cbn beta. destruct (kill_first data fn (cleanups Q)). destruct (kill_first data fn (pre_cleanups Q)). done.
Qed.

Lemma note_sound s bl p proc how s' : sound s bl -> is_Some (pools s !! p) -> apr_pool_note_subprocess s p proc how = Ok s' -> sound s' bl.
Proof.
  intros Hs Hp. unfold apr_pool_note_subprocess. destruct (apr_palloc s p SIZEOF_PROCESS_CHAIN) as [[pc s1]|] eqn:E; [|done]. cbn [rbind]. destruct (pc =? NULL); [done|]. intros E'.
  pose proof (palloc_sound s bl p SIZEOF_PROCESS_CHAIN pc s1 Hs Hp ltac:(by vm_compute) E) as [Hs1 _]. by eapply sound_upd; [exact E'|intros Q|].
Qed.

(** A new pool: nothing that is there moves. *)
Lemma created_sound s own home kids ord bl par al ab p n s' : logged s home bl -> created s own home kids ord par al ab p n s' -> sound s' bl.
Proof.
  intros Hlog Hcr. eexists _, _, _, _. split; [apply (cr_wf _ _ _ _ _ _ _ _ _ _ _ Hcr)|]. eapply logged_frame; [exact Hlog|]. intros x _ Hx. destruct (cr_new _ _ _ _ _ _ _ _ _ _ _ Hcr) as [Hfp Hfh].
  eapply placed_frame; [exact Hx| |].
  - intros m Hm. rewrite lookup_insert_ne by congruence. split; [done|]. by rewrite (cr_nodes _ _ _ _ _ _ _ _ _ _ _ Hcr m _ Hm).
  - intros Q HQ. pose proof (cr_others _ _ _ _ _ _ _ _ _ _ _ Hcr (b_pool x) ltac:(congruence)) as Ho. rewrite HQ in Ho. destruct (pools s' !! b_pool x) as [Q'|]; [|done].
    exists Q'. unfold same_but_links in Ho. split_and!; (done || congruence).
Qed.

Lemma not_created_sound s s' ab bl : sound s bl -> not_created s s' ab -> sound s' bl.
Proof. intros Hs [-> _]. destruct (ab =? NULL); [done|by apply sound_event]. Qed.

Lemma below_alive ps p q Q : below ps p q -> ps !! p = Some Q -> is_Some (ps !! q).
Proof. intros Hb HQ. eapply below_some; [exact Hb|by exists Q]. Qed.

Lemma order_split s own home kids ord p : wf_state s own home kids ord -> is_Some (pools s !! p) -> exists A B, ord = A ++ p :: B.
Proof. intros Hwf Hp. apply list_elem_of_split. by apply (wt_dom _ _ _ (ws_tree _ _ _ _ _ Hwf)). Qed.

(** [apr_pool_destroy] on a state that is well formed. *)
Lemma destroy_whole s own home kids ord p P : wf_state s own home kids ord -> pools s !! p = Some P ->
  exists s' own' home' kids' ord', apr_pool_destroy s p = Ok s' /\ wf_state s' own' home' kids' ord' /\ gone s s' home home' (below (pools s) p) /\
    events s' = events s ++ teardown (S (size (pools s))) (pools s) kids p.
Proof.
  intros Hwf HP. destruct (order_split _ _ _ _ _ _ Hwf (mk_is_Some _ _ HP)) as (A & B & ->). pose proof (pools_length _ _ _ (ws_tree _ _ _ _ _ Hwf)) as Hsize. rewrite length_app in Hsize. cbn [length] in Hsize.
  destruct (destroy_spec (S (size (pools s))) s own home kids A p B P Hwf HP) as (s' & own' & home' & kids' & A' & E & Hwf' & _ & G & _ & Hev); [lia|].
  by exists s', own', home', kids', (A' ++ B).
Qed.

Lemma destroy_sound s bl p s' : sound s bl -> is_Some (pools s !! p) -> apr_pool_destroy s p = Ok s' -> sound s' (left_over s' p bl).
Proof.
  intros (own & home & kids & ord & Hwf & Hlog) [P HP] E. destruct (destroy_whole _ _ _ _ _ _ _ Hwf HP) as (s0 & own' & home' & kids' & ord' & E0 & Hwf' & G & _). rewrite E in E0. injection E0 as <-.
  exists own', home', kids', ord'. split; [done|]. eapply logged_left; [exact Hlog|]. intros x Ha Hne Hx.
  assert (Hnb : ~ below (pools s) p (b_pool x)) by (intros Hb; destruct Ha as [Q HQ]; rewrite (proj2 (go_dead _ _ _ _ _ G (b_pool x))) in HQ; [done|by right]).
  eapply placed_frame; [exact Hx| |].
  - intros n Hn. split; [by apply (go_home _ _ _ _ _ G)|]. by rewrite (go_nodes _ _ _ _ _ G n _ Hn Hnb).
  - intros Q HQ. destruct Ha as [Q' HQ']. destruct (go_kept _ _ _ _ _ G _ _ HQ') as (Q0 & HQ0 & Es). exists Q'. unfold same_but_links in Es. split_and!; (done || congruence).
Qed.

Lemma clear_sound s bl p s' : sound s bl -> is_Some (pools s !! p) -> apr_pool_clear s p = Ok s' -> sound s' (left_over s' p bl).
Proof.
  intros (own & home & kids & ord & Hwf & Hlog) [P HP] E. destruct (order_split _ _ _ _ _ _ Hwf (mk_is_Some _ _ HP)) as (A & B & ->).
  destruct (clear_spec s own home kids A p B P Hwf HP) as (s0 & own' & home' & kids' & A' & E0 & Hwf' & C & _). rewrite E in E0. injection E0 as <-.
  exists own', home', kids', (A' ++ p :: B). split; [done|]. eapply logged_left; [exact Hlog|]. intros x Ha Hne Hx.
  assert (Hnb : ~ below (pools s) p (b_pool x)) by (intros Hb; destruct Ha as [Q HQ]; rewrite (proj2 (cl_dead _ _ _ _ _ _ C (b_pool x) Hne)) in HQ; [done|by right]).
  eapply placed_frame; [exact Hx| |].
  - intros n Hn. split; [apply (cl_home _ _ _ _ _ _ C); by right|]. by rewrite (cl_nodes _ _ _ _ _ _ C n _ Hn Hnb).
  - intros Q HQ. destruct Ha as [Q' HQ']. destruct (cl_kept _ _ _ _ _ _ C _ _ Hne HQ') as (Q0 & HQ0 & Es). exists Q'. unfold same_but_links in Es. split_and!; (done || congruence).
Qed.

(** ** Programs *)

(** The arguments of [apr_pool_create_ex] are good: there is a parent, or an
    allocator, and the allocator may be used under that parent. *)
Definition good_parent (s : pstate) (par al : Z) : Prop := (is_Some (pools s !! par) \/ par = NULL /\ al <> NULL) /\ (al <> NULL -> may_use s al par).

(** The states programs reach that pass only pools and allocators that exist, with the
    blocks of the pools that have been neither cleared nor destroyed since. *)
Inductive pool_reach : pstate -> list block -> Prop :=
  | pr_start : pool_reach (mkP (mkArena ∅ ∅) ∅ []) []
  | pr_allocator s bl al m : pool_reach s bl -> apr_allocator_create (mem s) = Ok (al, m) -> pool_reach (set_mem m s) bl
  | pr_max_free s bl al size m : pool_reach s bl -> is_Some (allocators (mem s) !! al) -> apr_allocator_max_free_set (mem s) al size = Ok m -> pool_reach (set_mem m s) bl
  | pr_owner s bl al p P m : pool_reach s bl -> pools s !! p = Some P -> pool_allocator P = al ->
      (forall q Q, pools s !! q = Some Q -> pool_allocator Q = al -> below (pools s) p q) -> apr_allocator_owner_set (mem s) al p = Ok m -> pool_reach (set_mem m s) bl
  | pr_create s bl g par0 abortfn al p s' : pool_reach s bl -> good_parent s (if par0 =? NULL then g else par0) al ->
      apr_pool_create_ex s g par0 abortfn al = Ok (p, s') -> pool_reach s' bl
  | pr_unmanaged s bl abortfn al p s' : pool_reach s bl -> (al <> NULL -> may_use s al NULL) -> apr_pool_create_unmanaged_ex s true abortfn al = Ok (p, s') -> pool_reach s' bl
  | pr_palloc s bl p size b s' : pool_reach s bl -> is_Some (pools s !! p) -> 0 <= size < 2 ^ 64 -> apr_palloc s p size = Ok (b, s') ->
      pool_reach s' (if b =? NULL then bl else mkBlock p b size :: bl)
  | pr_register s bl p data plain child_fn s' : pool_reach s bl -> is_Some (pools s !! p) ->
      apr_pool_cleanup_register s p data plain child_fn = Ok s' \/ apr_pool_pre_cleanup_register s p data plain = Ok s' -> pool_reach s' bl
  | pr_kill s bl p data fn s' : pool_reach s bl -> apr_pool_cleanup_kill s p data fn = Ok s' \/ apr_pool_cleanup_run s p data fn = Ok s' -> pool_reach s' bl
  | pr_set_child s bl p data plain child_fn s' : pool_reach s bl -> apr_pool_child_cleanup_set s p data plain child_fn = Ok s' -> pool_reach s' bl
  | pr_note s bl p proc how s' : pool_reach s bl -> is_Some (pools s !! p) -> apr_pool_note_subprocess s p proc how = Ok s' -> pool_reach s' bl
  | pr_clear s bl p s' : pool_reach s bl -> is_Some (pools s !! p) -> apr_pool_clear s p = Ok s' -> pool_reach s' (left_over s' p bl)
  | pr_destroy s bl p s' : pool_reach s bl -> is_Some (pools s !! p) -> apr_pool_destroy s p = Ok s' -> pool_reach s' (left_over s' p bl).

Lemma start_state : wf_state (mkP (mkArena ∅ ∅) ∅ []) ∅ ∅ (fun _ => []) [].
Proof.
  constructor.
  - constructor; cbn [mem pools]; try done; [|intros n; rewrite !lookup_empty; split; [done|by intros []]]. constructor; cbn [nodes allocators]; try (intros *; by rewrite lookup_empty).
    + intros n. by rewrite !lookup_empty.
    + intros a b sa sb _. rewrite live_lookup. cbn [nodes allocators]. by rewrite !lookup_empty.
  - constructor; cbn [pools]; try done; [constructor|]. intros p. rewrite lookup_empty. split; [by intros ?%not_elem_of_nil|by intros []].
  - intros al a. cbn. by rewrite lookup_empty.
Qed.

Lemma allocator_sound s bl al m : sound s bl -> apr_allocator_create (mem s) = Ok (al, m) -> sound (set_mem m s) bl.
Proof.
  intros (own & home & kids & ord & Hwf & Hlog) E. destruct (apr_allocator_create_spec (mem s) own (wps_arena _ _ _ (ws_pools _ _ _ _ _ Hwf))) as (al' & m' & E' & Hcase). rewrite E in E'. injection E' as <- <-.
  destruct Hcase as [(_ & -> & _)|(Hwa & Hal & Hn & Ha)]; [replace (set_mem (mem s) s) with s by (by destruct s); by exists own, home, kids, ord|].
  eapply sound_mem; [exact Hwf|done| |done]. by apply (wf_state_allocator s own home kids ord al).
Qed.

Lemma max_free_sound s bl al size m : sound s bl -> is_Some (allocators (mem s) !! al) -> apr_allocator_max_free_set (mem s) al size = Ok m -> sound (set_mem m s) bl.
Proof.
  intros (own & home & kids & ord & Hwf & Hlog) [a Ha] E. pose proof Hwf as [Hwp Hwt Hown].
  destruct (apr_allocator_max_free_set_spec (mem s) own al a size (wps_arena _ _ _ Hwp) Ha) as (m' & a' & E' & Hwa & Hn & Hal & _). rewrite E in E'. injection E' as <-.
  assert (Eo : owner a' = owner a).
  { unfold apr_allocator_max_free_set, upd_allocator, get_allocator in E. rewrite Ha in E. cbn [of_option rbind] in E. injection E as E. rewrite <- E in Hal. cbn [allocators] in Hal.
    apply (f_equal (lookup al)) in Hal. rewrite !lookup_insert_eq in Hal. by injection Hal as <-. }
  assert (Hos : forall x, owner <$> allocators m !! x = owner <$> allocators (mem s) !! x).
  { intros x. rewrite Hal. destruct (decide (x = al)) as [->|Hx]; [rewrite lookup_insert_eq, Ha; cbn; by rewrite Eo|by rewrite lookup_insert_ne]. }
  eapply sound_mem; [exact Hwf|done| |done]. constructor; [|done|].
  - apply wf_pools_mem; try done. intros x Hx. apply (fmap_is_Some owner). rewrite Hos. by apply fmap_is_Some.
  - by apply (owned_below_fields s).
Qed.

Lemma pool_reach_sound s bl : pool_reach s bl -> sound s bl.
Proof.
  induction 1 as [|s bl al m _ IH E|s bl al size m _ IH Ha E|s bl al p P m _ IH HP Hal Hb E|s bl g par0 abortfn al p s' _ IH [Hg Hu] E|s bl abortfn al p s' _ IH Hu E|s bl p size b s' _ IH Hp Hs E
    |s bl p data plain cf s' _ IH Hp E|s bl p data fn s' _ IH E|s bl p data plain cf s' _ IH E|s bl p proc how s' _ IH Hp E|s bl p s' _ IH Hp E|s bl p s' _ IH Hp E].
  - exists ∅, ∅, (fun _ => []), []. split; [exact start_state|]. split; constructor.
  - by eapply allocator_sound.
  - by eapply max_free_sound.
  - destruct IH as (own & home & kids & ord & Hwf & Hlog). subst al. destruct (wps_allocator _ _ _ (ws_pools _ _ _ _ _ Hwf) _ _ HP) as [a Ha].
    destruct (owner_set_spec s own home kids ord _ a p P Hwf Ha HP eq_refl Hb) as (m' & E' & Hwf' & Hn). rewrite E in E'. injection E' as <-. by eapply sound_mem.
  - destruct IH as (own & home & kids & ord & Hwf & Hlog). destruct (create_ex_spec s own home kids ord g par0 abortfn al Hwf Hg Hu) as (r & s0 & E' & Hcase). rewrite E in E'. injection E' as <- <-.
    destruct Hcase as [[_ Hn]|[n Hcr]]; [eapply not_created_sound; [|exact Hn]; by exists own, home, kids, ord|by eapply created_sound].
  - destruct IH as (own & home & kids & ord & Hwf & Hlog). destruct (decide (al = NULL)) as [->|Hal].
    + destruct (unmanaged_new s own home kids ord abortfn Hwf) as (r & s0 & E' & Hcase). rewrite E in E'. injection E' as <- <-.
      destruct Hcase as [(_ & Hwf' & Hps & Hn)|(n & al & Hcr)]; [|by eapply created_sound]. exists own, home, kids, ord. split; [done|]. eapply logged_frame; [exact Hlog|].
      intros x _ Hx. eapply placed_frame; [exact Hx|by rewrite Hn|]. rewrite Hps. intros Q HQ. by exists Q.
    + destruct (unmanaged_given s own home kids ord abortfn al Hwf Hal (Hu Hal)) as (r & s0 & E' & Hcase). rewrite E in E'. injection E' as <- <-.
      destruct Hcase as [[_ Hn]|[n Hcr]]; [eapply not_created_sound; [|exact Hn]; by exists own, home, kids, ord|by eapply created_sound].
  - by eapply palloc_sound.
  - by eapply register_sound.
  - destruct E as [E|E]; [by eapply kill_sound|]. unfold apr_pool_cleanup_run in E. destruct (apr_pool_cleanup_kill s p data fn) as [s1|] eqn:E1; [|done]. cbn [rbind] in E. injection E as <-.
    apply sound_event. by eapply kill_sound.
  - unfold apr_pool_child_cleanup_set in E. destruct (p =? NULL); [by injection E as <-|]. by eapply sound_upd; [exact E|intros Q|].
  - by eapply note_sound.
  - by eapply clear_sound.
  - by eapply destroy_sound.
Qed.

(** ** Theorems *)

(** The loop of [apr_pool_is_ancestor] goes up the tree: parents are older. *)
Lemma ancestor_loop_spec s kids ord a : wf_tree (pools s) kids ord -> a <> NULL -> forall fuel A b B, ord = A ++ b :: B -> (S (length B) < fuel)%nat ->
  exists r, ancestor_loop fuel s a b = Ok r /\ (r = true <-> below (pools s) a b).
Proof.
  intros Hwt Ha. assert (Hnull : ~ below (pools s) a NULL) by (intros Hb; inversion Hb; [done|]; by rewrite (wt_null _ _ _ Hwt) in *).
  induction fuel as [|fuel IH]; intros A b B Ho Hf; [lia|]. cbn [ancestor_loop]. assert (Hb : is_Some (pools s !! b)) by (apply (wt_dom _ _ _ Hwt); rewrite Ho; apply elem_of_app; right; apply list_elem_of_here).
  pose proof (pool_not_null _ _ _ Hwt _ Hb) as Hb0. replace (b =? NULL) with false by lia. destruct (Z.eqb_spec a b) as [->|Hab]; [exists true; split; [done|]; split; [constructor|done]|].
  destruct Hb as [P HP]. unfold get_pool. rewrite HP. cbn [of_option rbind].
  assert (Hup : below (pools s) a b <-> below (pools s) a (parent P)) by (split; [inversion 1; [done|]; simplify_eq; done|by apply below_up]).
  destruct (decide (parent P = NULL)) as [E|E].
  - exists false. destruct fuel as [|fuel]; [lia|]. cbn [ancestor_loop]. rewrite E. split; [done|]. rewrite Hup, E. split; [done|]. intros Hb'. by destruct Hnull.
  - pose proof (wt_older _ _ _ Hwt A b B P Ho HP E) as Hin. apply list_elem_of_split in Hin as (B1 & B2 & ->). destruct (IH (A ++ b :: B1) (parent P) B2) as (r & E' & Hr).
    + by rewrite Ho, <- app_assoc.
    + rewrite length_app in Hf. cbn [length] in Hf. lia.
    + exists r. split; [done|]. by rewrite Hup.
Qed.

(** C5: The memory of pools. Whatever calls a program makes, on pools and allocators
    that exist: every block it has got from [apr_palloc], whose pool has been neither
    cleared nor destroyed since, is aligned to eight bytes, lies inside a node and
    after its header, and overlaps neither another such block nor the structure of
    any pool that exists. *)
Theorem pool_blocks s bl : pool_reach s bl ->
  StronglySorted apart bl /\
  forall x, x ∈ bl -> is_Some (pools s !! b_pool x) /\ b_at x mod 8 = 0 /\
    (exists n d, nodes (mem s) !! n = Some d /\ n + APR_MEMNODE_T_SIZE <= b_at x /\ b_at x + b_size x <= endp d) /\
    (forall q Q, pools s !! q = Some Q -> q + SIZEOF_POOL_T <= b_at x \/ b_end x <= q).
Proof.
  intros (own & home & kids & ord & Hwf & Hp & Hs)%pool_reach_sound. split; [done|]. intros x Hx. rewrite Forall_forall in Hp. destruct (Hp x Hx) as (n & d & Q & Hn & Hd & HQ & H1 & H2 & H3 & H4 & H5).
  pose proof (ws_pools _ _ _ _ _ Hwf) as Hwp. pose proof (wps_arena _ _ _ Hwp) as Hwa. pose proof (wf_nodes _ _ Hwa _ _ Hd) as (_ & _ & _ & _ & _ & Hav & _). unfold b_end in *.
  split; [by exists Q|]. split; [done|]. split; [exists n, d; split; [done|]; lia|]. intros q R HR. destruct (wps_pool _ _ _ Hwp _ _ HR) as (L & HL & Hin).
  destruct (ring_lookup _ _ _ _ (wp_ring _ _ _ _ HL) (wp_self _ _ _ _ HL)) as [dr Hdr]. pose proof (wp_room _ _ _ _ HL _ Hdr) as Hroom. pose proof (wp_at _ _ _ _ HL) as Eq. pose proof (wp_avail _ _ _ _ HL) as Ea.
  pose proof (wf_nodes _ _ Hwa _ _ Hdr) as (_ & _ & _ & _ & _ & Havr & _). destruct (decide (n = self R)) as [En|Hne].
  - pose proof (proj2 (Hin _) (wp_self _ _ _ _ HL)) as Hh. rewrite <- En, Hn in Hh. injection Hh as Hh. rewrite Hh in HQ. assert (R = Q) as -> by congruence. specialize (H5 En). lia.
  - rewrite header_size in *. destruct (nodes_apart _ _ _ _ _ _ Hwa Hd Hdr Hne); lia.
Qed.

(** C6: Destroying a pool. In every reachable state [apr_pool_destroy] returns, at
    every depth of the tree; the pools that are gone are the pool and those below it,
    the others keep everything but their links; and the functions have been called in
    this order: the pre-cleanups of the pool, the last registered first, everything of
    its children, one child after the other, its cleanups, its subprocesses. *)
Theorem destroy_subtree s bl p : pool_reach s bl -> is_Some (pools s !! p) ->
  exists s' kids, apr_pool_destroy s p = Ok s' /\ (forall q Q, pools s !! q = Some Q -> sibs (pools s) q (ChildOf q) (child Q) (kids q)) /\
    (forall q, pools s' !! q = None <-> pools s !! q = None \/ below (pools s) p q) /\
    (forall q Q', pools s' !! q = Some Q' -> exists Q, pools s !! q = Some Q /\ same_but_links Q Q') /\
    events s' = events s ++ teardown (S (size (pools s))) (pools s) kids p.
Proof.
  intros (own & home & kids & ord & Hwf & _)%pool_reach_sound [P HP]. destruct (destroy_whole _ _ _ _ _ _ _ Hwf HP) as (s' & own' & home' & kids' & ord' & E & _ & G & Hev).
  exists s', kids. split; [done|]. split; [intros q Q HQ; by apply (wt_kids _ _ _ (ws_tree _ _ _ _ _ Hwf))|]. split; [apply (go_dead _ _ _ _ _ G)|]. split; [apply (go_kept _ _ _ _ _ G)|done].
Qed.

(** C17: The calls return. On a pool of a reachable state [apr_palloc] returns, with
    [NULL] only when the size wraps around, is beyond 2^44 bytes, or [malloc], asked
    in that state for the pages of a node for it, gives [NULL], and then after the
    abort function; a pool is created under it unless [malloc] refuses the two pages
    of its node; and
    [apr_pool_clear] leaves it without children, cleanups and subprocesses. *)
Theorem pool_calls s bl p P : pool_reach s bl -> pools s !! p = Some P ->
  (forall size, 0 <= size < 2 ^ 64 -> exists b s', apr_palloc s p size = Ok (b, s') /\ (b = NULL -> s' = call_abort s P /\ no_block s size)) /\
  (forall g abortfn, exists q s', apr_pool_create_ex s g p abortfn NULL = Ok (q, s') /\
    (q = NULL /\ refused (mem s) (MIN_ALLOC - APR_MEMNODE_T_SIZE) \/ pools s !! q = None /\ exists Q, pools s' !! q = Some Q /\ parent Q = p /\ pool_allocator Q = pool_allocator P)) /\
  (exists s' P', apr_pool_clear s p = Ok s' /\ pools s' !! p = Some P' /\ child P' = NULL /\ cleanups P' = [] /\ pre_cleanups P' = [] /\ subprocesses P' = []).
Proof.
  intros (own & home & kids & ord & Hwf & Hlog)%pool_reach_sound HP. pose proof (pool_not_null _ _ _ (ws_tree _ _ _ _ _ Hwf) _ (mk_is_Some _ _ HP)) as Hp0. split; [|split].
  - intros size Hsz. destruct (apr_palloc_spec s own home p P size (ws_pools _ _ _ _ _ Hwf) HP Hsz) as (b & s' & E & Hcase). exists b, s'. split; [done|]. intros ->.
    destruct Hcase as [(_ & Hs & Hn)|(own' & home' & n & Hpost)]; [done|]. exfalso. by apply (palloc_not_null s own home p _ NULL s' own' home' n Hpost).
  - intros g abortfn. destruct (create_ex_spec s own home kids ord g p abortfn NULL Hwf) as (q & s' & E & Hcase); [left; replace (p =? NULL) with false by lia; by exists P|done|].
    replace (p =? NULL) with false in Hcase by lia. exists q, s'. split; [done|]. destruct Hcase as [(-> & _ & Hr)|[n Hcr]]; [by left|right]. destruct (cr_new _ _ _ _ _ _ _ _ _ _ _ Hcr) as [Hq _].
    destruct (cr_pool _ _ _ _ _ _ _ _ _ _ _ Hcr) as (Q & HQ & E1 & _ & E2 & _). split; [done|]. exists Q. split; [done|]. split; [done|]. rewrite E2. unfold inherit. cbn [Z.eqb]. by rewrite HP.
  - destruct (order_split _ _ _ _ _ _ Hwf (mk_is_Some _ _ HP)) as (A & B & ->). destruct (clear_spec s own home kids A p B P Hwf HP) as (s' & own' & home' & kids' & A' & E & _ & C & _).
    destruct (cl_pool _ _ _ _ _ _ C) as (P' & HP' & _ & _ & E1 & E2 & E3 & E4). by exists s', P'.
Qed.

(** [apr_pool_is_ancestor] returns in every reachable state, and answers whether
    the second pool is the first or below it; [NULL] is above all pools. *)
Theorem is_ancestor_below s bl a b : pool_reach s bl -> is_Some (pools s !! b) ->
  exists r, apr_pool_is_ancestor s a b = Ok r /\ (r = true <-> a = NULL \/ below (pools s) a b).
Proof.
  intros (own & home & kids & ord & Hwf & _)%pool_reach_sound Hb. unfold apr_pool_is_ancestor. destruct (Z.eqb_spec a NULL) as [->|Ha]; [exists true; split; [done|tauto]|].
  destruct (order_split _ _ _ _ _ _ Hwf Hb) as (A & B & ->). pose proof (ws_tree _ _ _ _ _ Hwf) as Hwt. pose proof (pools_length _ _ _ Hwt) as Hsize. rewrite length_app in Hsize. cbn [length] in Hsize.
  destruct (ancestor_loop_spec s kids _ a Hwt Ha (S (size (pools s))) A b B eq_refl) as (r & E & Hr); [lia|]. exists r. split; [done|]. rewrite Hr. tauto.
Qed.
End calls.

(** ** Programs at work *)

#[local] Existing Instance bump.
#[local] Existing Instance bump_laws.

(** A pool with its allocator, a child with a child of its own, blocks from all three,
    one in a node of its own, and cleanups. *)
Lemma sample_pools : exists s bl, pool_reach s bl /\ length bl = 3%nat /\ is_Some (pools s !! 4328) /\ is_Some (pools s !! 20712) /\ (exists P, pools s !! 12520 = Some P /\ parent P = 4328).
Proof.
  pose proof pr_start as R.
  eapply pr_unmanaged with (abortfn := 7) (al := NULL) in R; [|done|vm_compute; reflexivity].
  eapply pr_create with (g := NULL) (par0 := 4328) (abortfn := NULL) (al := NULL) in R; [|split; [left; vm_compute; by eexists|done]|vm_compute; reflexivity].
  eapply pr_create with (g := NULL) (par0 := 12520) (abortfn := NULL) (al := NULL) in R; [|split; [left; vm_compute; by eexists|done]|vm_compute; reflexivity].
  eapply pr_palloc with (p := 4328) (size := 100) in R; [|vm_compute; by eexists|lia|vm_compute; reflexivity].
  eapply pr_palloc with (p := 12520) (size := 20000) in R; [|vm_compute; by eexists|lia|vm_compute; reflexivity].
  eapply pr_palloc with (p := 20712) (size := 1) in R; [|vm_compute; by eexists|lia|vm_compute; reflexivity].
  eapply pr_register with (p := 20712) (data := 5) (plain := 9) (child_fn := 9) in R; [|vm_compute; by eexists|left; vm_compute; reflexivity].
  do 2 eexists. split; [exact R|]. vm_compute. split; [done|]. split; [by eexists|]. split; [by eexists|]. by eexists.
Qed.

Lemma pool_blocks_witness : exists s bl, pool_reach s bl /\ length bl = 3%nat /\ StronglySorted apart bl.
Proof.
  destruct sample_pools as (s & bl & Hr & Hl & _). exists s, bl. split; [exact Hr|]. split; [exact Hl|]. exact (proj1 (pool_blocks s bl Hr)).
Defined.

Lemma destroy_subtree_witness : exists s bl s', pool_reach s bl /\ apr_pool_destroy s 4328 = Ok s' /\ pools s' !! 12520 = None.
Proof.
  destruct sample_pools as (s & bl & Hr & _ & Hp & _ & P & HP & E). destruct (destroy_subtree s bl 4328 Hr Hp) as (s' & kids & E' & _ & Hd & _).
  exists s, bl, s'. split; [exact Hr|]. split; [exact E'|]. apply Hd. right. eapply below_up; [exact HP|]. rewrite E. constructor.
Defined.

Lemma pool_calls_witness : exists s bl b s', pool_reach s bl /\ apr_palloc s 12520 9000 = Ok (b, s').
Proof.
  destruct sample_pools as (s & bl & Hr & _ & _ & _ & P & HP & _). destruct (proj1 (pool_calls s bl 12520 P Hr HP) 9000) as (b & s' & E & _); [lia|].
  exists s, bl, b, s'. split; [exact Hr|exact E].
Defined.

Lemma is_ancestor_below_witness : exists s bl, pool_reach s bl /\ apr_pool_is_ancestor s 4328 12520 = Ok true.
Proof.
  destruct sample_pools as (s & bl & Hr & _ & _ & _ & P & HP & E). destruct (is_ancestor_below s bl 4328 12520 Hr) as (r & E' & Hb); [by exists P|].
  exists s, bl. split; [exact Hr|]. rewrite E'. f_equal. apply Hb. right. eapply below_up; [exact HP|]. rewrite E. constructor.
Defined.
