(* ===== verification/AprNumber.v ===== *)
(** * Numbers as text: [src/apr/strings/apr_strings.c], [src/apr/strings/apr_snprintf.c]

    The conversions of [apr_snprintf] to decimal and to bases that are powers of two,
    [apr_itoa] and its relatives, and [apr_strtoi64]. Where the C library has such a
    function ([APR_INT64_STRFN], on current compilers) [apr_strtoi64] is a call of it,
    which is a parameter; elsewhere it is the loop of the source. Numbers are written
    backwards from the end of a buffer. *)

From S2P Require Import Prelude.

Definition s64 (z : Z) : Z := (z + 2 ^ 63) mod 2 ^ 64 - 2 ^ 63.

(** [*--p = c]. *)
Definition put_before (m : list Z) (p c : Z) : res (list Z * Z) := do m <- wr m (p - 1) c; Ok (m, p - 1).

(** ** apr_snprintf.c *)

(** [do { ... } while (magnitude)]. *)
Fixpoint conv_10_loop (fuel : nat) (m : list Z) (p magnitude : Z) : res (list Z * Z) :=
  match fuel with
  | O => Err OutOfFuel
  | S fuel =>
      let new_magnitude := magnitude / 10 in
      do (m, p) <- put_before m p (magnitude - new_magnitude * 10 + 48);
      if new_magnitude =? 0 then Ok (m, p) else conv_10_loop fuel m p new_magnitude
  end.

(** The magnitude of a negative number, without a negation that overflows; [u] is the
    unsigned type. *)
Definition negated (u : Z -> Z) (num : Z) : Z := let t := num + 1 in u (u (- t) + 1).

(** [is_negative], the buffer, the pointer and the length. *)
Definition conv_10 (m : list Z) (buf_end num : Z) (is_unsigned : bool) : res (bool * list Z * Z * Z) :=
  let is_negative := if is_unsigned then false else num <? 0 in
  let magnitude := if is_negative then negated u32 num else u32 num in
  do (m, p) <- conv_10_loop 32 m buf_end magnitude;
  Ok (is_negative, m, p, buf_end - p).

Definition conv_10_quad (m : list Z) (buf_end num : Z) (is_unsigned : bool) : res (bool * list Z * Z * Z) :=
  if (u64 num <=? 2 ^ 32 - 1) && is_unsigned || (num <=? 2 ^ 31 - 1) && (num >=? - 2 ^ 31) && negb is_unsigned
  then conv_10 m buf_end (s32 num) is_unsigned else
  let is_negative := if is_unsigned then false else num <? 0 in
  let magnitude := if is_negative then negated u64 num else u64 num in
  do (m, p) <- conv_10_loop 64 m buf_end magnitude;
  Ok (is_negative, m, p, buf_end - p).

(** [*ia] in network order is [s_addr]. The buffer, the pointer and the length. *)
Definition conv_in_addr (m : list Z) (buf_end s_addr : Z) : res (list Z * Z * Z) :=
  let addr := htonl s_addr in
  do (_, m, p, _) <- conv_10 m buf_end (Z.land addr 0x000000FF) true;
  do (m, p) <- put_before m p 46;
  do (_, m, p, _) <- conv_10 m p (Z.shiftr (Z.land addr 0x0000FF00) 8) true;
  do (m, p) <- put_before m p 46;
  do (_, m, p, _) <- conv_10 m p (Z.shiftr (Z.land addr 0x00FF0000) 16) true;
  do (m, p) <- put_before m p 46;
  do (_, m, p, _) <- conv_10 m p (Z.shiftr (Z.land addr 0xFF000000) 24) true;
  Ok (m, p, buf_end - p).

Definition low_digits : list Z := str "0123456789abcdef".
Definition upper_digits : list Z := str "0123456789ABCDEF".

Fixpoint conv_p2_loop (fuel : nat) (digits m : list Z) (p num nbits mask : Z) : res (list Z * Z) :=
  match fuel with
  | O => Err OutOfFuel
  | S fuel =>
      do c <- rd digits (Z.land num mask);
      do (m, p) <- put_before m p c;
      let num := Z.shiftr num nbits in
      if num =? 0 then Ok (m, p) else conv_p2_loop fuel digits m p num nbits mask
  end.

(** The buffer, the pointer and the length; [upper] is [format == 'X']. *)
Definition conv_p2 (m : list Z) (buf_end num nbits : Z) (upper : bool) : res (list Z * Z * Z) :=
  do (m, p) <- conv_p2_loop 32 (if upper then upper_digits else low_digits) m buf_end num nbits (Z.shiftl 1 nbits - 1);
  Ok (m, p, buf_end - p).

Definition conv_p2_quad (m : list Z) (buf_end num nbits : Z) (upper : bool) : res (list Z * Z * Z) :=
  if num <=? 2 ^ 32 - 1 then conv_p2 m buf_end (u32 num) nbits upper else
  do (m, p) <- conv_p2_loop 64 (if upper then upper_digits else low_digits) m buf_end num nbits (Z.shiftl 1 nbits - 1);
  Ok (m, p, buf_end - p).

(** ** apr_strings.c *)

Fixpoint toa_loop (fuel : nat) (m : list Z) (start n : Z) : res (list Z * Z) :=
  match fuel with
  | O => Err OutOfFuel
  | S fuel =>
      do (m, start) <- put_before m start (48 + Z.rem n 10);
      let n := Z.quot n 10 in
      if n =? 0 then Ok (m, start) else toa_loop fuel m start n
  end.

(** The body the three functions share; [size] is the size of the type and [wrap] its
    wrap-around, [buf] what the pool gives. The buffer and [start]. *)
Definition toa (size : Z) (wrap : Z -> Z) (buf : list Z) (n : Z) : res (list Z * Z) :=
  let BUFFER_SIZE := size * 3 + 2 in
  let start := BUFFER_SIZE - 1 in
  let negative := n <? 0 in
  let n := if negative then wrap (- n) else n in
  do buf <- wr buf start 0;
  do (buf, start) <- toa_loop 64 buf start n;
  if negative then put_before buf start 45 else Ok (buf, start).

Definition apr_itoa (buf : list Z) (n : Z) : res (list Z * Z) := toa 4 s32 buf n.
(** [long] of 64 bits. *)
Definition apr_ltoa (buf : list Z) (n : Z) : res (list Z * Z) := toa 8 s64 buf n.
Definition apr_off_t_toa (buf : list Z) (n : Z) : res (list Z * Z) := toa 8 s64 buf n.

Inductive errno_t := E_NONE | EINVAL | ERANGE.

(** [do { c = *s++; } while (apr_isspace(c))]: [c] and [s]. *)
Fixpoint skip_space (fuel : nat) (m : list Z) (s : Z) : res (Z * Z) :=
  match fuel with
  | O => Err OutOfFuel
  | S fuel => do c <- rd m s; if is_space c then skip_space fuel m (s + 1) else Ok (c, s + 1)
  end.

(** The value of a character, if it has one. *)
Definition char_digit (c : Z) : option Z :=
  let c := schar c in
  if (c >=? 48) && (c <=? 57) then Some (c - 48)
  else if (c >=? 65) && (c <=? 90) then Some (c - (65 - 10))
  else if (c >=? 97) && (c <=? 122) then Some (c - (97 - 10))
  else None.

(** One digit: [val], [acc] and [any]. *)
Definition add_digit (neg : bool) (base c val acc any : Z) : Z * Z * Z :=
  let val := s64 (val * base) in
  if any <? 0 then (val, acc, -1)
  else if neg then
    if val >? acc then (val, acc, -1)
    else let val := s64 (val - c) in if val >? acc then (val, acc, -1) else (val, val, 1)
  else
    if val <? acc then (val, acc, -1)
    else let val := s64 (val + c) in if val <? acc then (val, acc, -1) else (val, val, 1).

(** [for ( ; ; c = *s++)]: [acc], [any] and [s]. *)
Fixpoint strtoi64_loop (fuel : nat) (m : list Z) (neg : bool) (base c s val acc any : Z) : res (Z * Z * Z) :=
  match fuel with
  | O => Err OutOfFuel
  | S fuel =>
      match char_digit c with
      | None => Ok (acc, any, s)
      | Some d =>
          if d >=? base then Ok (acc, any, s) else
          let '(val, acc, any) := add_digit neg base d val acc any in
          do c <- rd m s; strtoi64_loop fuel m neg base c (s + 1) val acc any
      end
  end.

(** A sign: [neg], [c] and [s]. *)
Definition strtoi64_sign (m : list Z) (c s : Z) : res (bool * Z * Z) :=
  if c =? 45 then do c <- rd m s; Ok (true, c, s + 1)
  else if c =? 43 then do c <- rd m s; Ok (false, c, s + 1) else Ok (false, c, s).

(** The prefix of base 16, and the base: [base], [c] and [s]. *)
Definition strtoi64_base (m : list Z) (base c s : Z) : res (Z * Z * Z) :=
  do (base, c, s) <-
    (if ((base =? 0) || (base =? 16)) && (c =? 48) then
       do x <- rd m s;
       if (x =? 120) || (x =? 88) then do c <- rd m (s + 1); Ok (16, c, s + 2) else Ok (base, c, s)
     else Ok (base, c, s));
  Ok (if base =? 0 then if c =? 48 then 8 else 10 else base, c, s).

(** The [#else] branch of [apr_strtoi64]: the number, [*endptr] and [errno]. *)
Definition strtoi64 (m : list Z) (nptr base : Z) : res (Z * Z * errno_t) :=
  do (c, s) <- skip_space (S (length m)) m nptr;
  do (neg, c, s) <- strtoi64_sign m c s;
  do (base, c, s) <- strtoi64_base m base c s;
  if (base <? 2) || (base >? 36) then Ok (0, nptr, EINVAL) else
  do (acc, any, s) <- strtoi64_loop (S (length m)) m neg base c s 0 0 0;
  Ok (if any <? 0 then if neg then - 2 ^ 63 else 2 ^ 63 - 1 else acc,
      if any =? 0 then nptr else s - 1,
      if any <? 0 then ERANGE else if any =? 0 then EINVAL else E_NONE).

(** [APR_INT64_STRFN], where it is defined: a function of the C library. *)
Definition strfn_t : Type := list Z -> Z -> Z -> res (Z * Z * errno_t).

Definition apr_strtoi64 (APR_INT64_STRFN : option strfn_t) (m : list Z) (nptr base : Z) : res (Z * Z * errno_t) :=
  match APR_INT64_STRFN with Some f => f m nptr base | None => strtoi64 m nptr base end.

Definition apr_atoi64 (APR_INT64_STRFN : option strfn_t) (m : list Z) (buf : Z) : res Z :=
  do (n, _, _) <- apr_strtoi64 APR_INT64_STRFN m buf 10; Ok n.

(** ** Numerals *)

(** The digits of [n] in base [b], the most significant first. *)
Fixpoint digits_of (fuel : nat) (b n : Z) : list Z :=
  match fuel with
  | O => []
  | S fuel => if n <? b then [n] else digits_of fuel b (n / b) ++ [n mod b]
  end.

(** The value of digits that follow a number. *)
Definition value (b : Z) : Z -> list Z -> Z := foldl (fun v d => v * b + d).

Lemma value_app b v l1 l2 : value b v (l1 ++ l2) = value b (value b v l1) l2.
Proof. apply foldl_app. Qed.

Lemma digits_value_of b fuel : 2 <= b -> forall n, 0 <= n < b ^ Z.of_nat fuel -> value b 0 (digits_of fuel b n) = n /\ Forall (fun d => 0 <= d < b) (digits_of fuel b n).
Proof.
  intros Hb. induction fuel as [|fuel IH]; intros n Hn; cbn [digits_of]; [split; [cbn; lia|constructor]|].
  rewrite Nat2Z.inj_succ, Z.pow_succ_r in Hn by lia. destruct (Z.ltb_spec n b) as [Hlt|Hge]; [split; [cbn; lia|repeat constructor; lia]|].
  destruct (IH (n / b)) as [H1 H2]; [split; [apply Z.div_pos; lia|apply Z.div_lt_upper_bound; lia]|]. rewrite value_app, H1. cbn [value foldl]. pose proof (Z.div_mod n b ltac:(lia)). pose proof (Z.mod_pos_bound n b ltac:(lia)).
  split; [cbn; lia|]. apply Forall_app. split; [done|]. repeat constructor; lia.
Qed.

Lemma digits_length b fuel : 2 <= b -> forall (k : nat) n, 0 <= n < b ^ Z.of_nat (S k) -> (length (digits_of fuel b n) <= S k)%nat.
Proof.
  intros Hb. induction fuel as [|fuel IH]; intros k n Hn; cbn [digits_of]; [cbn; lia|]. destruct (Z.ltb_spec n b) as [Hlt|Hge]; [cbn; lia|]. destruct k as [|k]; [change (Z.of_nat 1) with 1 in Hn; lia|].
  rewrite length_app. cbn [length]. assert (length (digits_of fuel b (n / b)) <= S k)%nat; [|lia]. apply IH.
  rewrite (Nat2Z.inj_succ (S k)), Z.pow_succ_r in Hn by lia. split; [apply Z.div_pos; lia|apply Z.div_lt_upper_bound; lia].
Qed.

Lemma digits_not_nil b fuel n : digits_of (S fuel) b n <> [].
Proof. cbn [digits_of]. destruct (n <? b); [done|]. by destruct (digits_of fuel b (n / b)). Qed.

(** ** Writing backwards *)

(** The text [t] ends where the buffer ends for the writer: one character more. *)
Lemma put_before_splice m p t c : 1 <= p -> p + zlen t <= zlen m -> is_byte c -> put_before (splice m p t) p c = Ok (splice m (p - 1) (c :: t), p - 1).
Proof.
  intros Hp Hl Hc. pose proof (zlen_nonneg t). unfold put_before. rewrite wr_blit by (rewrite zlen_splice; lia). cbn [rbind]. rewrite u8_byte by done. do 2 f_equal.
  pose proof (splice_before m (p - 1) [c] t) as E. change (zlen [c]) with 1 in E. replace (p - 1 + 1) with p in E by lia. apply E; lia.
Qed.

(** A loop that writes digits: [chr] are the characters. *)
Definition writes (loop : nat -> list Z -> Z -> Z -> res (list Z * Z)) (b : Z) (chr : Z -> Z) : Prop :=
  forall fuel n t m p, (0 < fuel)%nat -> 0 <= n < b ^ Z.of_nat fuel -> n < 2 ^ 64 -> zlen (digits_of fuel b n) <= p -> p + zlen t <= zlen m ->
  let text := map chr (digits_of fuel b n) in loop fuel (splice m p t) p n = Ok (splice m (p - zlen text) (text ++ t), p - zlen text).

(** All loops have this form. *)
Lemma loop_writes loop b chr : 2 <= b -> (forall d, 0 <= d < b -> is_byte (chr d)) ->
  (forall fuel m p n, 0 <= n < 2 ^ 64 -> loop (S fuel) m p n = (do (m, p) <- put_before m p (chr (n mod b)); if n / b =? 0 then Ok (m, p) else loop fuel m p (n / b))) -> writes loop b chr.
Proof.
  intros Hb Hchr Hloop. unfold writes. induction fuel as [|fuel IH]; intros n t m p Hfuel Hn H64 Hp Hl; cbv zeta; [lia|].
  rewrite Hloop by lia. pose proof (Z.mod_pos_bound n b ltac:(lia)) as Hmod. cbn [digits_of] in *. rewrite Nat2Z.inj_succ, Z.pow_succ_r in Hn by lia.
  assert (Hdiv : 0 <= n / b < b ^ Z.of_nat fuel) by (split; [apply Z.div_pos; lia|apply Z.div_lt_upper_bound; lia]). destruct (Z.ltb_spec n b) as [Hlt|Hge].
  - cbn [map app] in *. change (zlen [n]) with 1 in Hp. rewrite put_before_splice; [|lia|done|by apply Hchr]. cbn [rbind]. rewrite Z.div_small, Z.mod_small by lia. done.
  - rewrite zlen_app in Hp. change (zlen [n mod b]) with 1 in Hp. pose proof (zlen_nonneg (digits_of fuel b (n / b))). rewrite put_before_splice; [|lia|done|by apply Hchr]. cbn [rbind].
    assert (1 <= n / b) by (apply Z.div_le_lower_bound; lia). replace (n / b =? 0) with false by lia. assert (n / b <= n) by (apply Z.div_le_upper_bound; nia).
    assert (Hf : (0 < fuel)%nat) by (destruct fuel; [cbn in Hdiv; lia|lia]). rewrite IH; [|done|done|lia|lia|rewrite zlen_cons; lia]. rewrite map_app, <- app_assoc. cbn [map app]. rewrite zlen_app, !zlen_map. change (zlen [chr (n mod b)]) with 1.
    replace (p - (zlen (digits_of fuel b (n / b)) + 1)) with (p - 1 - zlen (digits_of fuel b (n / b))) by lia. done.
Qed.

Lemma conv_10_writes : writes conv_10_loop 10 (fun d => 48 + d).
Proof.
  apply loop_writes; [lia|unfold is_byte; lia|]. intros fuel m p n Hn. cbn [conv_10_loop]. replace (n - n / 10 * 10 + 48) with (48 + n mod 10) by (pose proof (Z.div_mod n 10); lia). done.
Qed.

Lemma toa_writes : writes toa_loop 10 (fun d => 48 + d).
Proof.
  apply loop_writes; [lia|unfold is_byte; lia|]. intros fuel m p n Hn. cbn [toa_loop]. by rewrite Z.rem_mod_nonneg, Z.quot_div_nonneg by lia.
Qed.

Definition hex_char (upper : bool) (d : Z) : Z := nth (Z.to_nat d) (if upper then upper_digits else low_digits) 0.

Lemma conv_p2_writes nbits (upper : bool) : 1 <= nbits <= 4 ->
  writes (fun fuel m p n => conv_p2_loop fuel (if upper then upper_digits else low_digits) m p n nbits (Z.shiftl 1 nbits - 1)) (2 ^ nbits) (hex_char upper).
Proof.
  intros Hb. assert (H2 : 2 <= 2 ^ nbits <= 16) by (split; [change 2 with (2 ^ 1) at 1; apply Z.pow_le_mono_r; lia|change 16 with (2 ^ 4); apply Z.pow_le_mono_r; lia]).
  assert (Hrd : forall d, 0 <= d < 16 -> rd (if upper then upper_digits else low_digits) d = Ok (hex_char upper d) /\ is_byte (hex_char upper d)).
  { intros d Hd. assert (Hall : Forall (fun d : Z => rd (if upper then upper_digits else low_digits) d = Ok (hex_char upper d) /\ is_byte (hex_char upper d)) (map Z.of_nat (seq 0 16)))
      by (destruct upper; repeat constructor; vm_compute; intuition congruence).
    rewrite Forall_forall in Hall. apply Hall. apply list_elem_of_In, in_map_iff. exists (Z.to_nat d). split; [lia|apply in_seq; lia]. }
  apply loop_writes; [lia|intros d Hd; apply Hrd; lia|]. intros fuel m p n Hn. cbn [conv_p2_loop]. rewrite Z.shiftl_mul_pow2, Z.mul_1_l by lia.
  replace (2 ^ nbits - 1) with (Z.ones nbits) by (rewrite Z.ones_equiv; lia). rewrite Z.land_ones, Z.shiftr_div_pow2 by lia. pose proof (Z.mod_pos_bound n (2 ^ nbits) ltac:(lia)).
  destruct (Hrd (n mod 2 ^ nbits)) as [-> _]; [lia|]. done.
Qed.

(** ** The numeral of a number *)

(** The fuel does not matter when it is enough. *)
Lemma digits_fuel b : 2 <= b -> forall f g n, (0 < f)%nat -> (0 < g)%nat -> 0 <= n < b ^ Z.of_nat f -> n < b ^ Z.of_nat g -> digits_of f b n = digits_of g b n.
Proof.
  intros Hb. induction f as [|f IH]; intros [|g] n Hf Hg Hn Hn'; try lia. cbn [digits_of]. destruct (Z.ltb_spec n b) as [Hlt|Hge]; [done|].
  rewrite !Nat2Z.inj_succ, !Z.pow_succ_r in Hn, Hn' by lia. assert (H1 : 1 <= n / b) by (apply Z.div_le_lower_bound; lia).
  assert (n / b < b ^ Z.of_nat f) by (apply Z.div_lt_upper_bound; lia). assert (n / b < b ^ Z.of_nat g) by (apply Z.div_lt_upper_bound; lia).
  rewrite (IH g); [done|destruct f; [cbn in *; lia|lia]|destruct g; [cbn in *; lia|lia]|lia|lia].
Qed.

Definition numeral (b n : Z) : list Z := digits_of 64 b n.

Lemma pow_enough b k n : 2 <= b -> n < 2 ^ Z.of_nat k -> n < b ^ Z.of_nat k.
Proof. intros Hb Hn. eapply Z.lt_le_trans; [exact Hn|]. apply Z.pow_le_mono_l. lia. Qed.

Lemma digits_numeral b k n : 2 <= b -> (0 < k <= 64)%nat -> 0 <= n < 2 ^ Z.of_nat k -> digits_of k b n = numeral b n.
Proof.
  intros Hb Hk Hn. assert (n < 2 ^ Z.of_nat 64) by (eapply Z.lt_le_trans; [apply Hn|apply Z.pow_le_mono_r; lia]).
  apply digits_fuel; [lia|lia|lia| |]; [split; [lia|]|]; apply pow_enough; lia.
Qed.

(** A numeral has the number as its value, its digits are digits of the base, and it
    has no leading zero. *)
Lemma numeral_ok b n : 2 <= b -> 0 <= n < 2 ^ 64 -> value b 0 (numeral b n) = n /\ Forall (fun d => 0 <= d < b) (numeral b n).
Proof. intros Hb Hn. apply digits_value_of; [lia|]. split; [lia|]. apply pow_enough; [lia|]. change (Z.of_nat 64) with 64. lia. Qed.

Lemma digits_first b fuel : 2 <= b -> forall n, 0 < n < b ^ Z.of_nat fuel -> 0 < hd 0 (digits_of fuel b n).
Proof.
  intros Hb. induction fuel as [|fuel IH]; intros n Hn; cbn [digits_of]; [cbn in Hn; lia|]. destruct (Z.ltb_spec n b) as [Hlt|Hge]; [cbn; lia|].
  rewrite Nat2Z.inj_succ, Z.pow_succ_r in Hn by lia. specialize (IH (n / b)).
  assert (1 <= n / b) by (apply Z.div_le_lower_bound; lia). assert (n / b < b ^ Z.of_nat fuel) by (apply Z.div_lt_upper_bound; lia).
  destruct (digits_of fuel b (n / b)); cbn in *; lia.
Qed.

Lemma numeral_first b n : 2 <= b -> 0 < n < 2 ^ 64 -> 0 < hd 0 (numeral b n).
Proof. intros Hb Hn. apply digits_first; [lia|]. split; [lia|]. apply pow_enough; [lia|]. change (Z.of_nat 64) with 64. lia. Qed.

Lemma numeral_nonempty b n : 1 <= zlen (numeral b n).
Proof. pose proof (digits_not_nil b 63 n) as H. fold (numeral b n) in H. destruct (numeral b n); [done|]. rewrite zlen_cons. pose proof (zlen_nonneg l). lia. Qed.

Lemma numeral_len b k n : 2 <= b -> (0 < k)%nat -> 0 <= n < b ^ Z.of_nat k -> zlen (numeral b n) <= Z.of_nat k.
Proof. intros Hb Hk Hn. destruct k as [|k]; [lia|]. pose proof (digits_length b 64 Hb k n Hn). unfold zlen, numeral. lia. Qed.

(** The loops write numerals: the buffer is unchanged below them. *)
Lemma writes_numeral loop b chr fuel n m p : writes loop b chr -> 2 <= b -> (0 < fuel <= 64)%nat -> 0 <= n < 2 ^ Z.of_nat fuel -> zlen (numeral b n) <= p <= zlen m ->
  let text := map chr (numeral b n) in loop fuel m p n = Ok (splice m (p - zlen text) text, p - zlen text).
Proof.
  intros Hw Hb Hf Hn Hp. cbv zeta. rewrite <- (digits_numeral b fuel n) in * by lia. assert (n < 2 ^ 64) by (eapply Z.lt_le_trans; [apply Hn|apply Z.pow_le_mono_r; lia]).
  pose proof (zlen_nonneg (digits_of fuel b n)). pose proof (Hw fuel n [] m p) as H'. cbv zeta in H'. rewrite app_nil_r, splice_nil in H' by lia. apply H'; [lia| |lia|lia|rewrite zlen_nil; lia].
  split; [lia|]. apply pow_enough; lia.
Qed.

Lemma digit_chars_len n : zlen (map (fun d => 48 + d) (numeral 10 n)) = zlen (numeral 10 n).
Proof. apply zlen_map. Qed.

(** ** apr_snprintf.c: what is written *)

(** The number a conversion writes the magnitude of. *)
Definition magnitude64 (num : Z) (is_unsigned : bool) : Z := if is_unsigned then u64 num else Z.abs num.

Definition dec_text (n : Z) : list Z := map (fun d => 48 + d) (numeral 10 n).

Lemma dec_text_len n : 0 <= n < 2 ^ 64 -> 1 <= zlen (dec_text n) <= 20.
Proof.
  intros Hn. unfold dec_text. rewrite digit_chars_len. split; [apply numeral_nonempty|]. apply (numeral_len 10 20); [lia|lia|]. cbn. lia.
Qed.

Lemma conv_10_loop_text fuel m p n : (0 < fuel <= 64)%nat -> 0 <= n < 2 ^ Z.of_nat fuel -> zlen (dec_text n) <= p <= zlen m ->
  conv_10_loop fuel m p n = Ok (splice m (p - zlen (dec_text n)) (dec_text n), p - zlen (dec_text n)).
Proof. intros Hf Hn Hp. apply (writes_numeral conv_10_loop 10 (fun d => 48 + d)); [exact conv_10_writes|lia|done|done|]. unfold dec_text in Hp. by rewrite digit_chars_len in Hp. Qed.

Lemma toa_loop_text m p n : 0 <= n < 2 ^ 64 -> zlen (dec_text n) <= p <= zlen m ->
  toa_loop 64 m p n = Ok (splice m (p - zlen (dec_text n)) (dec_text n), p - zlen (dec_text n)).
Proof. intros Hn Hp. apply (writes_numeral toa_loop 10 (fun d => 48 + d)); [exact toa_writes|lia|lia|done|]. unfold dec_text in Hp. by rewrite digit_chars_len in Hp. Qed.

Lemma negated_32 num : - 2 ^ 31 <= num < 0 -> negated u32 num = - num.
Proof. intros H. unfold negated, u32. rewrite (Z.mod_small (- (num + 1))) by lia. rewrite Z.mod_small by lia. lia. Qed.

Lemma negated_64 num : - 2 ^ 63 <= num < 0 -> negated u64 num = - num.
Proof. intros H. unfold negated, u64. rewrite (Z.mod_small (- (num + 1))) by lia. rewrite Z.mod_small by lia. lia. Qed.

Lemma conv_10_text m buf_end num (un : bool) : - 2 ^ 31 <= num < 2 ^ 31 -> 
  let k := if un then u32 num else Z.abs num in let text := dec_text k in zlen text <= buf_end <= zlen m ->
  conv_10 m buf_end num un = Ok (negb un && (num <? 0), splice m (buf_end - zlen text) text, buf_end - zlen text, zlen text).
Proof.
  intros Hn k text Hp. unfold conv_10. replace (if if un then false else num <? 0 then negated u32 num else u32 num) with k.
  2:{ subst k text. destruct un; [done|]. destruct (Z.ltb_spec num 0); [rewrite negated_32; lia|]. unfold u32. rewrite Z.mod_small; lia. }
  rewrite conv_10_loop_text; [|lia| |done]. 2:{ change (Z.of_nat 32) with 32. subst k text. destruct un; [unfold u32; apply Z.mod_pos_bound; lia|lia]. }
  cbn [rbind]. fold text. replace (buf_end - (buf_end - zlen text)) with (zlen text) by lia. by destruct un.
Qed.

Lemma conv_10_quad_text m buf_end num (un : bool) : - 2 ^ 63 <= num < 2 ^ 63 -> let text := dec_text (magnitude64 num un) in zlen text <= buf_end <= zlen m ->
  conv_10_quad m buf_end num un = Ok (negb un && (num <? 0), splice m (buf_end - zlen text) text, buf_end - zlen text, zlen text).
Proof.
  intros Hn text Hp. unfold conv_10_quad. destruct (_ || _) eqn:E.
  - assert (Hs : - 2 ^ 31 <= s32 num < 2 ^ 31) by (unfold s32; pose proof (Z.mod_pos_bound (num + 2 ^ 31) (2 ^ 32) ltac:(lia)); lia).
    assert (Hk : (if un then u32 (s32 num) else Z.abs (s32 num)) = magnitude64 num un /\ negb un && (s32 num <? 0) = negb un && (num <? 0)).
    { unfold magnitude64. destruct un; cbn in E |- *; rewrite ?andb_true_r, ?andb_false_r, ?orb_false_r in E; cbn in E.
      - split; [|done]. unfold u32, s32. rewrite Zminus_mod, Zmod_mod, <- Zminus_mod. replace (num + 2 ^ 31 - 2 ^ 31) with num by lia.
        unfold u64 in *. rewrite <- (Z.mod_small (num mod 2 ^ 64) (2 ^ 32)) by (pose proof (Z.mod_pos_bound num (2 ^ 64) ltac:(lia)); lia).
        symmetry. apply Z.mod_mod_divide. exists (2 ^ 32). lia.
      - replace (s32 num) with num; [done|]. unfold s32. rewrite Z.mod_small; lia. }
    destruct Hk as [Hk Hk']. pose proof (conv_10_text m buf_end (s32 num) un Hs) as H. cbv zeta in H. rewrite Hk, Hk' in H. by apply H.
  - replace (if if un then false else num <? 0 then negated u64 num else u64 num) with (magnitude64 num un).
    2:{ unfold magnitude64. destruct un; [done|]. destruct (Z.ltb_spec num 0); [rewrite negated_64; lia|]. unfold u64. rewrite Z.mod_small; lia. }
    rewrite conv_10_loop_text; [|lia| |done]. 2:{ change (Z.of_nat 64) with 64. unfold magnitude64. destruct un; [unfold u64; apply Z.mod_pos_bound; lia|lia]. }
    cbn [rbind]. fold text. replace (buf_end - (buf_end - zlen text)) with (zlen text) by lia. by destruct un.
Qed.

(** ** Texts in bases that are powers of two *)

Definition p2_text (nbits : Z) (upper : bool) (n : Z) : list Z := map (hex_char upper) (numeral (2 ^ nbits) n).

Lemma p2_loop_text fuel nbits (upper : bool) m p n : 1 <= nbits <= 4 -> (0 < fuel <= 64)%nat -> 0 <= n < 2 ^ Z.of_nat fuel -> zlen (p2_text nbits upper n) <= p <= zlen m ->
  conv_p2_loop fuel (if upper then upper_digits else low_digits) m p n nbits (Z.shiftl 1 nbits - 1) = Ok (splice m (p - zlen (p2_text nbits upper n)) (p2_text nbits upper n), p - zlen (p2_text nbits upper n)).
Proof.
  intros Hb Hf Hn Hp. assert (2 <= 2 ^ nbits) by (change 2 with (2 ^ 1) at 1; apply Z.pow_le_mono_r; lia).
  apply (writes_numeral _ (2 ^ nbits) (hex_char upper) fuel n m p (conv_p2_writes nbits upper Hb)); [lia|done|done|]. unfold p2_text in Hp. by rewrite zlen_map in Hp.
Qed.

Lemma conv_p2_text m buf_end num nbits upper : 1 <= nbits <= 4 -> 0 <= num < 2 ^ 32 -> let text := p2_text nbits upper num in zlen text <= buf_end <= zlen m ->
  conv_p2 m buf_end num nbits upper = Ok (splice m (buf_end - zlen text) text, buf_end - zlen text, zlen text).
Proof.
  intros Hb Hn text Hp. unfold conv_p2. rewrite p2_loop_text; [|done|lia|done|done]. cbn [rbind]. fold text. by replace (buf_end - (buf_end - zlen text)) with (zlen text) by lia.
Qed.

Lemma conv_p2_quad_text m buf_end num nbits upper : 1 <= nbits <= 4 -> 0 <= num < 2 ^ 64 -> let text := p2_text nbits upper num in zlen text <= buf_end <= zlen m ->
  conv_p2_quad m buf_end num nbits upper = Ok (splice m (buf_end - zlen text) text, buf_end - zlen text, zlen text).
Proof.
  intros Hb Hn text Hp. unfold conv_p2_quad. destruct (Z.leb_spec num (2 ^ 32 - 1)).
  - replace (u32 num) with num by (unfold u32; rewrite Z.mod_small; lia). apply conv_p2_text; [done|lia|done].
  - rewrite p2_loop_text; [|done|lia|done|done]. cbn [rbind]. fold text. by replace (buf_end - (buf_end - zlen text)) with (zlen text) by lia.
Qed.

(** ** Reading numbers back *)

Lemma s64_id z : - 2 ^ 63 <= z < 2 ^ 63 -> s64 z = z.
Proof. intros H. unfold s64. rewrite Z.mod_small; lia. Qed.

Lemma value_ge b v l : 1 <= b -> 0 <= v -> Forall (fun d => 0 <= d < b) l -> v <= value b v l.
Proof.
  intros Hb Hv Hl. revert v Hv. induction Hl as [|d l Hd Hl IH]; intros v Hv; cbn; [lia|]. specialize (IH (v * b + d) ltac:(nia)). cbn in IH. fold (value b). unfold value in *. nia.
Qed.

Definition signed (neg : bool) (v : Z) : Z := if neg then - v else v.

(** [v] is the magnitude of a number of 64 bits with this sign. *)
Definition in_range (neg : bool) (v : Z) : Prop := 0 <= v /\ v <= (if neg then 2 ^ 63 else 2 ^ 63 - 1).

Lemma add_digit_ok neg base d v any : 2 <= base <= 36 -> 0 <= d < base -> 0 <= v -> 0 <= any -> in_range neg (v * base + d) ->
  add_digit neg base d (signed neg v) (signed neg v) any = (signed neg (v * base + d), signed neg (v * base + d), 1).
Proof.
  intros Hb Hd Hv Hany [H1 H2]. unfold add_digit. replace (any <? 0) with false by lia. unfold signed in *. destruct neg.
  - rewrite (s64_id (- v * base)) by nia. replace (- v * base >? - v) with false by nia. rewrite s64_id by nia. replace (- v * base - d >? - v) with false by nia. do 2 f_equal; try lia.
  - rewrite (s64_id (v * base)) by nia. replace (v * base <? v) with false by nia. rewrite s64_id by nia. by replace (v * base + d <? v) with false by nia.
Qed.

(** The characters of digits in a base. *)
Definition digits_in (base : Z) (cs ds : list Z) : Prop := Forall2 (fun c d => char_digit c = Some d /\ 0 <= d < base) cs ds.

(** A character that ends a number. *)
Definition ends_number (base c : Z) : Prop := match char_digit c with Some d => base <= d | None => True end.

Lemma strtoi64_loop_ok neg base stop m : 2 <= base <= 36 -> ends_number base stop -> forall cs ds, digits_in base cs ds -> forall fuel s v any, (length cs < fuel)%nat -> 0 <= v -> 0 <= any -> in_range neg (value base v ds) ->
  forall c, has_bytes m (s - 1) (cs ++ [stop]) -> rd m (s - 1) = Ok c ->
  strtoi64_loop fuel m neg base c s (signed neg v) (signed neg v) any = Ok (signed neg (value base v ds), if decide (cs = []) then any else 1, s + zlen cs).
Proof.
  intros Hb Hstop. induction 1 as [|x d cs ds [Hx Hd] H IH]; intros fuel s v any Hf Hv Hany Hr c Hm Hc; (destruct fuel as [|fuel]; [lia|]); cbn [strtoi64_loop].
  - pose proof (has_bytes_rd _ _ _ _ Hm) as E. assert (c = stop) as -> by congruence. unfold ends_number in Hstop. rewrite zlen_nil, Z.add_0_r. cbn. destruct (char_digit stop); [|done]. by replace (z >=? base) with true by lia.
  - pose proof (has_bytes_rd _ _ _ _ Hm) as E. assert (c = x) as -> by congruence. rewrite Hx. replace (d >=? base) with false by lia. cbn [value foldl] in Hr. fold (value base (v * base + d) ds) in Hr.
    assert (Hds : Forall (fun d => 0 <= d < base) ds) by (clear -H; induction H; constructor; [tauto|done]).
    pose proof (value_ge base (v * base + d) ds ltac:(lia) ltac:(nia) Hds). rewrite add_digit_ok; [|done|done|done|done|]. 2:{ destruct Hr. split; [nia|]. destruct neg; lia. }
    cbn [app] in Hm. apply has_bytes_cons in Hm as [_ Hm]. replace (s - 1 + 1) with s in Hm by lia.
    assert (exists c', rd m s = Ok c') as [c' Hc'] by (destruct cs as [|y cs]; [exists stop|exists y]; exact (has_bytes_rd _ _ _ _ Hm)). rewrite Hc'. cbn [rbind]. cbn [length] in Hf.
    replace s with (s + 1 - 1) in Hm, Hc' by lia. rewrite (IH fuel (s + 1) (v * base + d) 1); [|lia|nia|lia|done|done|done]. cbn [value foldl]. fold (value base (v * base + d) ds).
    rewrite zlen_cons. replace (s + 1 + zlen cs) with (s + (1 + zlen cs)) by lia. by destruct (decide (cs = [])), (decide (x :: cs = [])).
Qed.

Lemma skip_space_ok m c : is_space c = false -> forall ws fuel s, Forall (fun w => is_space w = true) ws -> (length ws < fuel)%nat -> has_bytes m s (ws ++ [c]) -> skip_space fuel m s = Ok (c, s + zlen ws + 1).
Proof.
  intros Hc. induction ws as [|w ws IH]; intros [|fuel] s Hws Hf Hm; cbn [length] in Hf; try lia; cbn [skip_space]; rewrite (has_bytes_rd _ _ _ _ Hm); cbn [rbind].
  - rewrite Hc, zlen_nil. do 2 f_equal. lia.
  - inversion_clear Hws as [|? ? Hw Hws']. rewrite Hw. apply has_bytes_cons in Hm as [_ Hm]. rewrite IH; [|done|lia|done]. rewrite zlen_cons. do 2 f_equal. lia.
Qed.

(** The sign that is written. *)
Definition sign_of (neg : bool) (sign : list Z) : Prop := if neg then sign = [45] else sign = [] \/ sign = [43].

Lemma digit_not_space_sign c d : char_digit c = Some d -> is_space c = false /\ c <> 45 /\ c <> 43.
Proof. unfold char_digit, is_space, schar. intros H. repeat case_match; simplify_eq; lia. Qed.

(** A letter of the hexadecimal prefix. *)
Definition is_x (x : Z) : Prop := x = 120 \/ x = 88.

(** [number_base base pre b t]: called with [base], on a text that after white space and
    sign is [pre] and then [t], the number is read from [t] in base [b]. Base 16 and
    base 0 allow [0x]; base 0 means octal after a zero and else decimal. *)
Inductive number_base : Z -> list Z -> Z -> list Z -> Prop :=
  | base_prefix base x t : base = 0 \/ base = 16 -> is_x x -> number_base base [48; x] 16 t
  | base_octal t : (forall x r, t = x :: r -> ~ is_x x) -> number_base 0 [] 8 (48 :: t)
  | base_decimal c t : c <> 48 -> number_base 0 [] 10 (c :: t)
  | base_given base c t : 2 <= base <= 36 -> (forall x r, base = 16 -> c = 48 -> t = x :: r -> ~ is_x x) -> number_base base [] base (c :: t).

Lemma number_base_range base pre b t : number_base base pre b t -> 2 <= b <= 36.
Proof. destruct 1; lia. Qed.

(** White space and a sign are skipped: the first digit is the next character. *)
Lemma strtoi64_head m nptr ws neg sign x r : Forall (fun w => is_space w = true) ws -> sign_of neg sign -> (sign = [] -> is_space x = false /\ x <> 45 /\ x <> 43) -> has_bytes m nptr (ws ++ sign ++ x :: r) ->
  (do (c, s) <- skip_space (S (length m)) m nptr; strtoi64_sign m c s) = Ok (neg, x, nptr + zlen ws + zlen sign + 1).
Proof.
  intros Hws Hsign Hx Hm. pose proof (has_bytes_bound _ _ _ Hm) as [Hn Hl]. rewrite zlen_app in Hl. pose proof (zlen_nonneg (sign ++ x :: r)).
  pose proof (has_bytes_app _ _ _ _ Hm) as [_ Hm1]. pose proof (has_bytes_app _ _ _ _ Hm1) as [_ Hm2]. pose proof (has_bytes_rd _ _ _ _ Hm2) as E.
  assert (Hs : exists c t, sign ++ x :: r = c :: t /\ is_space c = false) by (unfold sign_of in Hsign; destruct neg; [subst sign|destruct Hsign as [-> | ->]]; cbn [app]; [eauto| |eauto]; exists x, r; split; [done|by apply Hx]).
  destruct Hs as (c & t & Hs & Hc). rewrite Hs in Hm. rewrite (skip_space_ok m c Hc ws); [|done|unfold zlen in *; lia|]. 2:{ change (c :: t) with ([c] ++ t) in Hm. rewrite app_assoc in Hm. exact (proj1 (has_bytes_app _ _ _ _ Hm)). }
  cbn [rbind]. unfold strtoi64_sign, sign_of in *. destruct neg; [subst sign|destruct Hsign as [-> | ->]]; cbn [app] in Hs; injection Hs as <- <-; cbn [Z.eqb Pos.eqb] in *.
  - change (zlen [45]) with 1 in *. by rewrite E.
  - rewrite zlen_nil. destruct (Hx eq_refl) as (_ & Hmin & Hplus). replace (x =? 45) with false by lia. replace (x =? 43) with false by lia. do 3 f_equal. lia.
  - change (zlen [43]) with 1 in *. by rewrite E.
Qed.

(** The base and the first character, from the prefix. *)
Lemma strtoi64_base_ok m base pre b c t o : number_base base pre b (c :: t) -> (c = 48 -> t <> []) -> has_bytes m o (pre ++ c :: t) ->
  exists c0 r, pre ++ c :: t = c0 :: r /\ (pre <> [] -> c0 = 48) /\ (pre = [] -> c0 = c) /\ strtoi64_base m base c0 (o + 1) = Ok (b, c, o + zlen pre + 1) /\ rd m (o + zlen pre) = Ok c.
Proof.
  intros Hb Ht Hm. pose proof (has_bytes_app _ _ _ _ Hm) as [_ Hm2]. pose proof (has_bytes_rd _ _ _ _ Hm2) as E.
  assert (Hnx : c = 48 -> (forall x r, t = x :: r -> ~ is_x x) -> pre = [] -> exists y, rd m (o + 1) = Ok y /\ (y =? 120) || (y =? 88) = false).
  { intros Hc Hx Hp. rewrite Hp in Hm2. destruct t as [|y r]; [by destruct (Ht Hc)|]. apply has_bytes_cons in Hm2 as [_ Hm2]. exists y. rewrite zlen_nil, Z.add_0_r in Hm2. split; [by eapply has_bytes_rd|].
    specialize (Hx y r eq_refl). unfold is_x in Hx. apply orb_false_iff. split; apply Z.eqb_neq; tauto. }
  remember (c :: t) as t' eqn:Et. destruct Hb as [base x t' Hbase Hx|t' Hx|c' t' Hc|base c' t' Hr Hx].
  - exists 48, (x :: t'). split; [done|]. split; [done|]. split; [done|]. split; [|done]. cbn [app] in Hm. apply has_bytes_cons in Hm as [_ Hm]. pose proof (has_bytes_rd _ _ _ _ Hm) as Ex. unfold strtoi64_base.
    replace (((base =? 0) || (base =? 16)) && (48 =? 48)) with true by lia. rewrite Ex. cbn [rbind]. replace ((x =? 120) || (x =? 88)) with true by (unfold is_x in Hx; lia).
    change (zlen [48; x]) with 2 in *. replace (o + 1 + 1) with (o + 2) by lia. rewrite E. cbn [rbind]. do 2 f_equal. lia.
  - injection Et as <- <-. exists 48, t'. destruct (Hnx eq_refl Hx eq_refl) as (y & Ey & Hy). split_and!; try done. unfold strtoi64_base. cbn [Z.eqb orb andb Pos.eqb]. rewrite Ey. cbn [rbind]. rewrite Hy. cbn [rbind Z.eqb Pos.eqb]. rewrite zlen_nil. do 2 f_equal. lia.
  - injection Et as <- <-. exists c', t'. split_and!; try done. unfold strtoi64_base. rewrite (proj2 (Z.eqb_neq c' 48) Hc), andb_false_r. cbn [rbind Z.eqb]. rewrite (proj2 (Z.eqb_neq c' 48) Hc), zlen_nil. do 2 f_equal. lia.
  - injection Et as <- <-. exists c', t'. split_and!; try done. unfold strtoi64_base. replace (o + zlen [] + 1) with (o + 1) by (rewrite zlen_nil; lia). replace (base =? 0) with false by lia. cbn [orb]. destruct ((base =? 16) && (c' =? 48)) eqn:Eb; cbn [rbind]; [|by replace (base =? 0) with false by lia].
    assert (base = 16 /\ c' = 48) as [-> ->] by lia. destruct (Hnx eq_refl (fun x r => Hx x r eq_refl eq_refl) eq_refl) as (y & -> & Hy). cbn [rbind]. by rewrite Hy.
Qed.

(** The text up to the first digit, or to the character that is none. *)
Lemma strtoi64_first m nptr base ws neg sign pre b c t : Forall (fun w => is_space w = true) ws -> sign_of neg sign -> number_base base pre b (c :: t) -> (c = 48 -> t <> []) ->
  (sign ++ pre = [] -> is_space c = false /\ c <> 45 /\ c <> 43) -> has_bytes m nptr (ws ++ sign ++ pre ++ c :: t) ->
  let e := nptr + zlen ws + zlen sign + zlen pre in rd m e = Ok c /\
  strtoi64 m nptr base = (do (acc, any, s) <- strtoi64_loop (S (length m)) m neg b c (e + 1) 0 0 0;
    Ok (if any <? 0 then if neg then - 2 ^ 63 else 2 ^ 63 - 1 else acc, if any =? 0 then nptr else s - 1, if any <? 0 then ERANGE else if any =? 0 then EINVAL else E_NONE)).
Proof.
  intros Hws Hsign Hb Ht Hc Hm e. pose proof (has_bytes_app _ _ _ _ (proj2 (has_bytes_app _ _ _ _ Hm))) as [_ Hm2].
  destruct (strtoi64_base_ok m base pre b c t _ Hb Ht Hm2) as (c0 & r & E0 & H48 & Hc0 & Ebase & Erd). split; [exact Erd|]. rewrite E0 in Hm.
  pose proof (strtoi64_head m nptr ws neg sign c0 r Hws Hsign) as Hhead. unfold strtoi64. destruct (skip_space (S (length m)) m nptr) as [[c1 s]|]; cbn [rbind] in *.
  - rewrite Hhead; [|intros ->; destruct pre as [|? ?]; [rewrite Hc0 by done; by apply Hc|rewrite H48 by done; done]|done]. cbn [rbind]. rewrite Ebase. cbn [rbind].
    pose proof (number_base_range _ _ _ _ Hb). by replace ((b <? 2) || (b >? 36)) with false by lia.
  - discriminate Hhead; [|done]. intros ->; destruct pre as [|? ?]; [rewrite Hc0 by done; by apply Hc|rewrite H48 by done; done].
Qed.

Lemma number_read m nptr base ws neg sign pre b cs ds stop : Forall (fun w => is_space w = true) ws -> sign_of neg sign -> number_base base pre b (cs ++ [stop]) -> digits_in b cs ds -> cs <> [] -> ends_number b stop -> in_range neg (value b 0 ds) ->
  has_bytes m nptr (ws ++ sign ++ pre ++ cs ++ [stop]) -> strtoi64 m nptr base = Ok (signed neg (value b 0 ds), nptr + zlen ws + zlen sign + zlen pre + zlen cs, E_NONE).
Proof.
  intros Hws Hsign Hb Hcs Hne Hstop Hr Hm. destruct cs as [|x cs]; [done|]. assert (exists d, char_digit x = Some d) as [d Hx] by (inversion Hcs; naive_solver). pose proof (digit_not_space_sign x d Hx) as Hsp.
  pose proof (has_bytes_bound _ _ _ Hm) as [Hn Hl]. rewrite !zlen_app in Hl. pose proof (zlen_nonneg ws). pose proof (zlen_nonneg sign). pose proof (zlen_nonneg pre).
  destruct (strtoi64_first m nptr base ws neg sign pre b x (cs ++ [stop]) Hws Hsign Hb ltac:(by destruct cs) (fun _ => Hsp) Hm) as [E ->].
  pose proof (has_bytes_app _ _ _ _ (proj2 (has_bytes_app _ _ _ _ (proj2 (has_bytes_app _ _ _ _ Hm))))) as [_ Hm2]. set (e := nptr + zlen ws + zlen sign + zlen pre) in *. replace e with (e + 1 - 1) in Hm2, E by lia.
  pose proof (strtoi64_loop_ok neg b stop m (number_base_range _ _ _ _ Hb) Hstop _ _ Hcs (S (length m)) (e + 1) 0 0) as H'. replace (signed neg 0) with 0 in H' by (by destruct neg). rewrite (H' ltac:(unfold zlen in *; lia) ltac:(lia) ltac:(lia) Hr x Hm2 E). cbn [rbind].
  destruct (decide (x :: cs = [])); [done|]. cbn [Z.ltb Z.compare Z.eqb]. do 2 f_equal. f_equal. lia.
Qed.


Lemma dec_text_digits n : 0 <= n < 2 ^ 64 -> digits_in 10 (dec_text n) (numeral 10 n).
Proof.
  intros Hn. destruct (numeral_ok 10 n ltac:(lia) Hn) as [_ H]. unfold dec_text, digits_in. induction H as [|d l Hd Hl IH]; cbn [map]; constructor; [|done].
  split; [|done]. unfold char_digit, schar. replace (48 + d <? 128) with true by lia. replace ((48 + d >=? 48) && (48 + d <=? 57)) with true by lia. f_equal. lia.
Qed.

Lemma dec_text_nz n : 0 <= n < 2 ^ 64 -> 0 ∉ dec_text n.
Proof. intros Hn Hin. apply list_elem_of_In, in_map_iff in Hin as (d & Hd & Hin). destruct (numeral_ok 10 n ltac:(lia) Hn) as [_ H]. rewrite Forall_forall in H. apply list_elem_of_In, H in Hin. lia. Qed.

(** The text of a number with its sign. *)
Definition int_text (n : Z) : list Z := (if n <? 0 then [45] else []) ++ dec_text (Z.abs n).

Lemma int_text_nz n : Z.abs n < 2 ^ 64 -> 0 ∉ int_text n.
Proof. intros Hn. unfold int_text. pose proof (dec_text_nz (Z.abs n) ltac:(lia)). destruct (n <? 0); set_solver. Qed.

(** [toa] writes the number with its sign, if the type has its negation. *)
Lemma toa_text size wrap buf n k : zlen buf = size * 3 + 2 -> Z.abs n < 10 ^ Z.of_nat k -> (0 < k)%nat -> Z.of_nat k <= size * 3 -> Z.abs n < 2 ^ 64 -> wrap (Z.abs n) = Z.abs n ->
  exists buf' start, toa size wrap buf n = Ok (buf', start) /\ 0 <= start /\ points buf' start (int_text n).
Proof.
  intros Hbuf Hn Hk0 Hk H64 Hwrap. pose proof (numeral_len 10 k (Z.abs n) ltac:(lia) Hk0 ltac:(lia)) as Hlen. rewrite <- digit_chars_len in Hlen. fold (dec_text (Z.abs n)) in Hlen.
  unfold toa. cbv zeta. replace (if n <? 0 then wrap (- n) else n) with (Z.abs n). 2:{ destruct (Z.ltb_spec n 0); [rewrite <- Hwrap at 1; f_equal; lia|lia]. }
  set (s := size * 3 + 2 - 1). rewrite wr_blit by lia. cbn [rbind]. rewrite toa_loop_text; [|lia|rewrite zlen_splice by (change (zlen [_]) with 1; lia); lia]. cbn [rbind].
  pose proof (zlen_nonneg (dec_text (Z.abs n))). assert (Hsp : splice (splice buf s [u8 0]) (s - zlen (dec_text (Z.abs n))) (dec_text (Z.abs n)) = splice buf (s - zlen (dec_text (Z.abs n))) (dec_text (Z.abs n) ++ [0])).
  { pose proof (splice_before buf (s - zlen (dec_text (Z.abs n))) (dec_text (Z.abs n)) [0]) as E. replace (s - zlen (dec_text (Z.abs n)) + zlen (dec_text (Z.abs n))) with s in E by lia. change (u8 0) with 0. apply E; change (zlen [0]) with 1; lia. }
  rewrite Hsp. assert (Hnz := int_text_nz n H64). unfold points, int_text in *. assert (zlen (dec_text (Z.abs n) ++ [0]) = zlen (dec_text (Z.abs n)) + 1) by (rewrite zlen_app; done). destruct (Z.ltb_spec n 0).
  - rewrite put_before_splice; [|lia|lia|unfold is_byte; lia]. eexists _, _. split; [done|]. split; [lia|]. split; [|done]. rewrite <- app_assoc. apply has_bytes_splice; rewrite ?zlen_cons; cbn [app]; rewrite ?zlen_cons; lia.
  - eexists _, _. split; [done|]. split; [lia|]. split; [|done]. rewrite app_nil_l. apply has_bytes_splice; lia.
Qed.

Lemma int_text_read m p n : - 2 ^ 63 <= n < 2 ^ 63 -> points m p (int_text n) -> apr_atoi64 None m p = Ok n.
Proof.
  intros Hn [Hm _]. assert (Ha : 0 <= Z.abs n < 2 ^ 64) by lia. destruct (numeral_ok 10 (Z.abs n) ltac:(lia) Ha) as [Hv _]. unfold apr_atoi64.
  assert (Hne : dec_text (Z.abs n) <> []) by (intros E; pose proof (dec_text_len _ Ha) as L; rewrite E, zlen_nil in L; lia).
  cbn [apr_strtoi64]. rewrite (number_read m p 10 [] (n <? 0) (if n <? 0 then [45] else []) [] 10 (dec_text (Z.abs n)) (numeral 10 (Z.abs n)) 0).
  - cbn [rbind]. rewrite Hv. unfold signed. f_equal. destruct (Z.ltb_spec n 0); lia.
  - constructor.
  - unfold sign_of. destruct (n <? 0); tauto.
  - destruct (dec_text (Z.abs n)) as [|c t]; [done|]. apply (base_given 10 c (t ++ [0])); [lia|done].
  - by apply dec_text_digits.
  - done.
  - done.
  - rewrite Hv. unfold in_range. destruct (Z.ltb_spec n 0); lia.
  - unfold int_text in Hm. by rewrite <- app_assoc in Hm.
Qed.

(** ** Dotted quads *)

Lemma byte_of_word x k mask : 0 <= k -> Z.shiftr mask k = 255 -> Z.shiftr (Z.land x mask) k = x / 2 ^ k mod 256.
Proof. intros Hk Hm. rewrite Z.shiftr_land, Hm, Z.shiftr_div_pow2 by lia. change 255 with (Z.ones 8). by rewrite Z.land_ones by lia. Qed.

Lemma network_word a b c d : is_byte a -> is_byte b -> is_byte c -> is_byte d -> htonl (of_le32 [a; b; c; d]) = a * 2 ^ 24 + b * 2 ^ 16 + c * 2 ^ 8 + d.
Proof.
  intros Ha Hb Hc Hd. unfold htonl. change (be32 (of_le32 [a; b; c; d])) with (rev (le32 (of_le32 [a; b; c; d]))). rewrite le32_of_le32 by done. cbn [rev app of_le32]. lia.
Qed.

Lemma conv_10_before m p t num : 0 <= num < 2 ^ 31 -> zlen (dec_text num) <= p -> p + zlen t <= zlen m ->
  conv_10 (splice m p t) p num true = Ok (false, splice m (p - zlen (dec_text num)) (dec_text num ++ t), p - zlen (dec_text num), zlen (dec_text num)).
Proof.
  intros Hn Hp Hl. pose proof (zlen_nonneg t). pose proof (zlen_nonneg (dec_text num)). pose proof (conv_10_text (splice m p t) p num true ltac:(lia)) as E. cbv zeta in E. replace (u32 num) with num in E by (unfold u32; rewrite Z.mod_small; lia).
  rewrite E by (rewrite zlen_splice; lia). pose proof (splice_before m (p - zlen (dec_text num)) (dec_text num) t) as E'. replace (p - zlen (dec_text num) + zlen (dec_text num)) with p in E' by lia. by rewrite E' by lia.
Qed.

(** The text of an address. *)
Definition dotted (a b c d : Z) : list Z := dec_text a ++ 46 :: dec_text b ++ 46 :: dec_text c ++ 46 :: dec_text d.

Lemma dotted_len a b c d : zlen (dotted a b c d) = zlen (dec_text a) + zlen (dec_text b) + zlen (dec_text c) + zlen (dec_text d) + 3.
Proof. unfold dotted. rewrite !zlen_app, !zlen_cons, !zlen_app, !zlen_cons, !zlen_app, !zlen_cons. lia. Qed.

Lemma conv_in_addr_text m buf_end a b c d : is_byte a -> is_byte b -> is_byte c -> is_byte d -> let text := dotted a b c d in zlen text <= buf_end <= zlen m ->
  conv_in_addr m buf_end (of_le32 [a; b; c; d]) = Ok (splice m (buf_end - zlen text) text, buf_end - zlen text, zlen text).
Proof.
  intros Ha Hb Hc Hd text Hp. unfold text in *. rewrite dotted_len in *. pose proof (zlen_nonneg (dec_text a)). pose proof (zlen_nonneg (dec_text b)). pose proof (zlen_nonneg (dec_text c)). pose proof (zlen_nonneg (dec_text d)).
  unfold conv_in_addr. rewrite network_word by done. unfold is_byte in *. set (w := a * 2 ^ 24 + b * 2 ^ 16 + c * 2 ^ 8 + d).
  replace (Z.land w 255) with d by (change 255 with (Z.ones 8); rewrite Z.land_ones by lia; subst w; Z.div_mod_to_equations; lia). rewrite !byte_of_word by done.
  replace (w / 2 ^ 8 mod 256) with c by (subst w; Z.div_mod_to_equations; lia). replace (w / 2 ^ 16 mod 256) with b by (subst w; Z.div_mod_to_equations; lia). replace (w / 2 ^ 24 mod 256) with a by (subst w; Z.div_mod_to_equations; lia).
  rewrite <- (splice_nil m buf_end) at 1 by lia. rewrite conv_10_before by (rewrite ?zlen_nil; lia). cbn [rbind]. rewrite app_nil_r.
  do 3 (rewrite put_before_splice by (rewrite ?zlen_cons, ?zlen_app, ?zlen_cons, ?zlen_app, ?zlen_cons; unfold is_byte; lia); cbn [rbind];
        rewrite conv_10_before by (rewrite ?zlen_cons, ?zlen_app, ?zlen_cons, ?zlen_app, ?zlen_cons, ?zlen_app; lia); cbn [rbind]).
  unfold dotted. do 3 f_equal; [f_equal; lia|lia|lia].
Qed.

(** ** Theorems *)

(** [ds] are the digits of [n] in base [b]: with this value, without leading zeros. *)
Definition digits_for (b n : Z) (ds : list Z) : Prop := Forall (fun d => 0 <= d < b) ds /\ value b 0 ds = n /\ ds <> [] /\ (hd 0 ds = 0 -> ds = [0]).

Lemma numeral_for b n : 2 <= b -> 0 <= n < 2 ^ 64 -> digits_for b n (numeral b n).
Proof.
  intros Hb Hn. destruct (numeral_ok b n Hb Hn) as [Hv Hd]. split; [done|]. split; [done|]. split; [apply digits_not_nil|]. intros H0. destruct (decide (n = 0)) as [->|Hne].
  - unfold numeral. cbn [digits_of]. by replace (0 <? b) with true by lia.
  - pose proof (numeral_first b n Hb ltac:(lia)). lia.
Qed.

(** The conversions of numbers write the digits of the number, with no leading zero,
    just before the end of the buffer and nothing else: the decimal one for every
    signed and unsigned number of 64 bits, the most negative one included, in at most
    20 characters; the one for bases 2, 4, 8 and 16 in at most 64; and an address as its
    four bytes in decimal with dots between them. *)
Theorem numbers_written m buf_end num (un : bool) nbits (upper : bool) a b c d : - 2 ^ 63 <= num < 2 ^ 63 -> 1 <= nbits <= 4 -> 64 <= buf_end <= zlen m -> bytes [a; b; c; d] ->
  (exists ds, digits_for 10 (if un then u64 num else Z.abs num) ds /\ zlen ds <= 20 /\
     conv_10_quad m buf_end num un = Ok (negb un && (num <? 0), splice m (buf_end - zlen ds) (map (fun d => 48 + d) ds), buf_end - zlen ds, zlen ds)) /\
  (exists ds, digits_for (2 ^ nbits) (u64 num) ds /\ zlen ds <= 64 /\
     conv_p2_quad m buf_end (u64 num) nbits upper = Ok (splice m (buf_end - zlen ds) (map (hex_char upper) ds), buf_end - zlen ds, zlen ds)) /\
  exists text, text = dec_text a ++ [46] ++ dec_text b ++ [46] ++ dec_text c ++ [46] ++ dec_text d /\ zlen text <= 15 /\
     conv_in_addr m buf_end (of_le32 [a; b; c; d]) = Ok (splice m (buf_end - zlen text) text, buf_end - zlen text, zlen text).
Proof.
  intros Hnum Hb Hm Habcd. assert (Hu : 0 <= u64 num < 2 ^ 64) by (unfold u64; apply Z.mod_pos_bound; lia). split; [|split].
  - assert (Hk : 0 <= magnitude64 num un < 2 ^ 64) by (unfold magnitude64; destruct un; lia). pose proof (dec_text_len _ Hk) as Hl. exists (numeral 10 (magnitude64 num un)).
    split; [apply numeral_for; [lia|done]|]. rewrite <- digit_chars_len. split; [apply Hl|]. apply conv_10_quad_text; [done|]. lia.
  - assert (H2 : 2 <= 2 ^ nbits) by (change 2 with (2 ^ 1) at 1; apply Z.pow_le_mono_r; lia). exists (numeral (2 ^ nbits) (u64 num)). split; [by apply numeral_for|].
    assert (Hl : zlen (numeral (2 ^ nbits) (u64 num)) <= 64) by (apply (numeral_len _ 64); [done|lia|]; split; [lia|apply pow_enough; [done|change (Z.of_nat 64) with 64; lia]]).
    split; [done|]. pose proof (zlen_map (hex_char upper) (numeral (2 ^ nbits) (u64 num))) as E. rewrite <- E. apply conv_p2_quad_text; [done|done|]. unfold p2_text. lia.
  - apply Forall_cons in Habcd as [Ha Habcd]. apply Forall_cons in Habcd as [Hb' Habcd]. apply Forall_cons in Habcd as [Hc Hd]. apply Forall_cons in Hd as [Hd _].
    assert (Hl : forall x, is_byte x -> zlen (dec_text x) <= 3) by (intros x Hx; unfold dec_text; rewrite digit_chars_len; apply (numeral_len 10 3); [lia|lia|unfold is_byte in Hx; cbn; lia]).
    exists (dotted a b c d). split; [done|]. pose proof (Hl a Ha). pose proof (Hl b Hb'). pose proof (Hl c Hc). pose proof (Hl d Hd). rewrite dotted_len at 1. split; [lia|]. apply conv_in_addr_text; try done. rewrite dotted_len. lia.
Qed.

Lemma numbers_written_witness : exists ds, conv_10_quad (repeat 7 70) 64 (- 2 ^ 63) false = Ok (true, splice (repeat 7 70) (64 - zlen ds) (map (fun d => 48 + d) ds), 64 - zlen ds, zlen ds).
Proof.
  destruct (numbers_written (repeat 7 70) 64 (- 2 ^ 63) false 4 true 10 0 255 1) as [(ds & _ & _ & H) _]; [lia|lia|vm_compute; intuition congruence|repeat constructor; unfold is_byte; lia|]. exists ds. exact H.
Defined.

(** A number that [apr_itoa], [apr_ltoa] or [apr_off_t_toa] has written into the buffer
    it allocates is read back by [apr_atoi64] (without [APR_INT64_STRFN]), for every value of the type but the least
    one; the text is a C string of a sign and digits. *)
Theorem numbers_roundtrip buf buf' n : zlen buf = 4 * 3 + 2 -> zlen buf' = 8 * 3 + 2 ->
  (- 2 ^ 31 < n < 2 ^ 31 -> exists m start, apr_itoa buf n = Ok (m, start) /\ points m start (int_text n) /\ apr_atoi64 None m start = Ok n) /\
  (- 2 ^ 63 < n < 2 ^ 63 -> exists m start, apr_ltoa buf' n = Ok (m, start) /\ apr_off_t_toa buf' n = Ok (m, start) /\ points m start (int_text n) /\ apr_atoi64 None m start = Ok n).
Proof.
  intros Hb Hb'. split; intros Hn.
  - destruct (toa_text 4 s32 buf n 10) as (m & start & H & _ & Hp); [done|cbn; lia|lia|lia|lia|unfold s32; rewrite Z.mod_small; lia|]. exists m, start. split; [done|]. split; [done|]. apply int_text_read; [lia|done].
  - destruct (toa_text 8 s64 buf' n 19) as (m & start & H & _ & Hp); [done|cbn; lia|lia|lia|lia|apply s64_id; lia|]. exists m, start. split; [done|]. split; [done|]. split; [done|]. apply int_text_read; [lia|done].
Qed.

Lemma numbers_roundtrip_witness : exists m start, apr_itoa (repeat 1 14) (-120) = Ok (m, start) /\ points m start (int_text (-120)) /\ apr_atoi64 None m start = Ok (-120).
Proof. exact (proj1 (numbers_roundtrip (repeat 1 14) (repeat 1 26) (-120) eq_refl eq_refl) ltac:(lia)). Defined.








(** An overflow that wraps past the previous value is missed: this is five times
    [2 ^ 62]. *)
Lemma strtoi64_overflow_missed : apr_strtoi64 None (str "23058430092136939520" ++ [0]) 0 10 = Ok (2 ^ 62, 20, E_NONE).
Proof. reflexivity. Qed.

(** The least number has no negation, and its digits are written with the characters
    below ['0']. *)
Lemma itoa_least : exists m start, apr_itoa (repeat 0 14) (- 2 ^ 31) = Ok (m, start) /\ points m start (str "-./,),(-*,(").
Proof. eexists _, _. split; [reflexivity|]. split; [exists [0; 0], []; split; reflexivity|]. apply occurs_false. reflexivity. Qed.
