(* ===== verification/AprFormat.v ===== *)
(** * Formatted output: [src/apr/strings/apr_snprintf.c]

    [apr_vformatter], [apr_snprintf] and [apr_strfsize], which call each other. The
    format is the C string from the current position on, without its terminator; the
    arguments are a list of typed values. What is not in the file is a record of
    parameters: the generated format macros, the size of a thread identifier, the
    conversions of floating-point numbers and the message of an error. *)

From S2P Require Import Prelude AprNumber.

Definition NUM_BUF_SIZE : Z := 512.

(** ** The platform *)

Record platform := {
  off_t_fmt : list Z;              (* APR_OFF_T_FMT *)
  int64_fmt : list Z;              (* APR_INT64_T_FMT *)
  sizeof_tid : Z;                  (* sizeof(apr_os_thread_t) *)
  double : Type;
  isnan : double -> bool;
  isinf : double -> bool;
  conv_fp : Z -> double -> bool -> Z -> bool * list Z;  (* the sign and the text *)
  apr_gcvt : double -> Z -> bool -> list Z;
  apr_strerror : Z -> list Z
}.

(** ** Arguments *)

(** An [apr_sockaddr_t]: the port, what [apr_sockaddr_ip_getbuf] writes if it succeeds,
    and whether the address is one of IPv6 that is not a mapped one. *)
Record sockaddr := { port : Z; ip_getbuf : option (list Z); plain_ipv6 : bool }.

(** What [va_arg] gives; pointers may be null. *)
Inductive arg (D : Type) :=
  | A_int (z : Z)                        (* int, unsigned int, apr_int32_t, apr_uint32_t *)
  | A_quad (z : Z)                       (* apr_int64_t, apr_uint64_t *)
  | A_string (s : option (list Z))       (* char *, with the bytes it points to *)
  | A_double (d : D)
  | A_store (where_ : Z)                 (* the target of %n *)
  | A_ptr (z : Z)                        (* void * *)
  | A_sockaddr (sa : option sockaddr)
  | A_in_addr (ia : option Z)
  | A_status (rv : option Z)
  | A_tid (tid : option Z)
  | A_number (n : option Z).             (* apr_uint32_t *, apr_off_t * or apr_size_t * *)
Arguments A_int {D}. Arguments A_quad {D}. Arguments A_string {D}. Arguments A_double {D}. Arguments A_store {D}. Arguments A_ptr {D}.
Arguments A_sockaddr {D}. Arguments A_in_addr {D}. Arguments A_status {D}. Arguments A_tid {D}. Arguments A_number {D}.

(** ** The output *)

(** The buffer, [sp] and [bep], which [vbuff] holds between calls, and [cc]. *)
Record out := { o_mem : list Z; o_sp : option Z; o_bep : Z; o_cc : Z }.

(** [return -1] out of the whole function. *)
Definition returned : err := ThrowInt (-1).

(** [cc++] *)
Definition count_one (o : out) : out := {| o_mem := o_mem o; o_sp := o_sp o; o_bep := o_bep o; o_cc := s32 (o_cc o + 1) |}.

(** [*sp++ = c; cc++] *)
Definition put_char (c : res Z) : M out unit := fun o =>
  match o_sp o with
  | None => (Ok tt, count_one o)
  | Some sp =>
      match (do c <- c; wr (o_mem o) sp c) with
      | Ok m => (Ok tt, count_one {| o_mem := m; o_sp := Some (sp + 1); o_bep := o_bep o; o_cc := o_cc o |})
      | Err e => (Err e, o)
      end
  end.

Section Insert.
  Context (flush_func : M out Z).

(** [INS_CHAR]; the character is read only when it is written. *)
Definition INS_CHAR (c : res Z) : M out unit := fun o =>
  match o_sp o with
  | Some sp => if sp >=? o_bep o then (let! r := flush_func in if r =? 0 then put_char c else merr returned) o else put_char c o
  | None => put_char c o
  end.

(** The loop that prints the string [s]. *)
Fixpoint insert_from (n : nat) (m : list Z) (s : Z) : M out unit :=
  match n with
  | O => mok tt
  | S n => let! _ := INS_CHAR (rd m s) in insert_from n m (s + 1)
  end.

(** [PAD] *)
Fixpoint PAD (fuel : nat) (width len ch : Z) : M out unit :=
  match fuel with
  | O => merr OutOfFuel
  | S fuel =>
      let! _ := INS_CHAR (Ok ch) in
      let width := width - 1 in
      if width >? len then PAD fuel width len ch else mok tt
  end.

End Insert.

(** ** Reading a conversion specification *)

Record flags := { adjust_left : bool; print_sign : bool; alternate_form : bool; print_blank : bool; pad_zero : bool }.

Definition no_flags : flags := {| adjust_left := false; print_sign := false; alternate_form := false; print_blank := false; pad_zero := false |}.

Definition left_adjusted (f : flags) : flags :=
  {| adjust_left := true; print_sign := print_sign f; alternate_form := alternate_form f; print_blank := print_blank f; pad_zero := pad_zero f |}.

(** What one flag character sets. *)
Definition flag_of (c : Z) (f : flags) : option flags :=
  if c =? 45 then Some (left_adjusted f)
  else if c =? 43 then Some {| adjust_left := adjust_left f; print_sign := true; alternate_form := alternate_form f; print_blank := print_blank f; pad_zero := pad_zero f |}
  else if c =? 35 then Some {| adjust_left := adjust_left f; print_sign := print_sign f; alternate_form := true; print_blank := print_blank f; pad_zero := pad_zero f |}
  else if c =? 32 then Some {| adjust_left := adjust_left f; print_sign := print_sign f; alternate_form := alternate_form f; print_blank := true; pad_zero := pad_zero f |}
  else if c =? 48 then Some {| adjust_left := adjust_left f; print_sign := print_sign f; alternate_form := alternate_form f; print_blank := print_blank f; pad_zero := true |}
  else None.

Fixpoint scan_flags (f : flags) (fmt : list Z) : flags * list Z :=
  match fmt with
  | c :: rest => match flag_of c f with Some f => scan_flags f rest | None => (f, fmt) end
  | [] => (f, fmt)
  end.

(** [STR_TO_DEC]: the rest of the number, in an [apr_size_t]. *)
Fixpoint dec_digits (num : Z) (fmt : list Z) : Z * list Z :=
  match fmt with
  | c :: rest => if is_digit c then dec_digits (u64 (u64 (num * 10) + (c - 48))) rest else (num, fmt)
  | [] => (num, fmt)
  end.

Definition STR_TO_DEC (fmt : list Z) : Z * list Z := dec_digits (u64 (hd 0 fmt - 48)) (tl fmt).

Section Arguments.
  Context {D : Type}.

(** [va_arg(ap, int)] *)
Definition arg_int (ap : list (arg D)) : res (Z * list (arg D)) :=
  match ap with A_int z :: ap => Ok (z, ap) | _ => Err Uninitialised end.

Definition arg_quad (ap : list (arg D)) : res (Z * list (arg D)) :=
  match ap with A_quad z :: ap => Ok (z, ap) | _ => Err Uninitialised end.

(** [adjust_width], [min_width], the flags, the format and the arguments. *)
Definition scan_width (f : flags) (fmt : list Z) (ap : list (arg D)) : res (bool * Z * flags * list Z * list (arg D)) :=
  let c := hd 0 fmt in
  if is_digit c then let '(w, fmt) := STR_TO_DEC fmt in Ok (true, w, f, fmt, ap)
  else if c =? 42 then
    do (v, ap) <- arg_int ap;
    if v <? 0 then Ok (true, u64 (s32 (- v)), left_adjusted f, tl fmt, ap) else Ok (true, u64 v, f, tl fmt, ap)
  else Ok (false, 0, f, fmt, ap).

(** [adjust_precision], [precision], the format and the arguments. *)
Definition scan_precision (fmt : list Z) (ap : list (arg D)) : res (bool * Z * list Z * list (arg D)) :=
  if hd 0 fmt =? 46 then
    let fmt := tl fmt in
    if is_digit (hd 0 fmt) then let '(p, fmt) := STR_TO_DEC fmt in Ok (true, p, fmt, ap)
    else if hd 0 fmt =? 42 then
      do (v, ap) <- arg_int ap;
      Ok (true, if v <? 0 then 0 else u64 v, tl fmt, ap)
    else Ok (true, 0, fmt, ap)
  else Ok (false, 0, fmt, ap).

End Arguments.

Inductive var_type_enum := IS_QUAD | IS_LONG | IS_SHORT | IS_INT.

(** The test of a format macro, whose last character is the conversion. *)
Definition has_modifier (F fmt : list Z) : bool :=
  let size := zlen F + 1 in
  (size =? 4) && (hd 0 fmt =? hd 0 F) && (hd 0 (tl fmt) =? hd 0 (tl F))
  || (size =? 3) && (hd 0 fmt =? hd 0 F)
  || (size >? 4) && bool_decide (take (Z.to_nat (size - 2)) fmt = take (Z.to_nat (size - 2)) F).

Definition scan_modifier (P : platform) (fmt : list Z) : var_type_enum * list Z :=
  let skip F := drop (Z.to_nat (zlen F + 1 - 2)) fmt in
  if (zlen (off_t_fmt P) >? zlen (int64_fmt P)) && has_modifier (off_t_fmt P) fmt then (IS_QUAD, skip (off_t_fmt P))
  else if has_modifier (int64_fmt P) fmt then (IS_QUAD, skip (int64_fmt P))
  else if hd 0 fmt =? 113 then (IS_QUAD, tl fmt)
  else if hd 0 fmt =? 108 then (IS_LONG, tl fmt)
  else if hd 0 fmt =? 104 then (IS_SHORT, tl fmt)
  else (IS_INT, fmt).

(** ** One conversion *)

(** What is to be printed: the object [s] points into, [s], [s_len], [prefix_char] and
    [pad_char], and whether [s] is [S_NULL] or [char_buf]. *)
Record piece := { p_mem : list Z; p_s : Z; p_len : Z; p_prefix : Z; p_pad : Z; p_const : bool }.

(** How the [switch] ends: with something to print, without, or at the end of the
    format. *)
Inductive converted := Printed (pc : piece) | Silent | Ended.

Fixpoint zeros_before (fuel : nat) (m : list Z) (s s_len p : Z) : res (list Z * Z * Z) :=
  match fuel with
  | O => Err OutOfFuel
  | S fuel =>
      if s_len <? p then do (m, s) <- put_before m s 48; zeros_before fuel m s (s_len + 1) p else Ok (m, s, s_len)
  end.

Definition FIX_PRECISION (adjust : bool) (precision : Z) (m : list Z) (s s_len : Z) : res (list Z * Z * Z) :=
  if adjust then
    let p := if u64 (precision + 1) <? NUM_BUF_SIZE then precision else NUM_BUF_SIZE - 1 in
    zeros_before 514 m s s_len p
  else Ok (m, s, s_len).

Definition s16 (z : Z) : Z := (z + 2 ^ 15) mod 2 ^ 16 - 2 ^ 15.

Definition S_NULL : list Z := str "(null)".

(** [prefix_char] of a number. *)
Definition sign_char (f : flags) (is_negative : bool) : Z :=
  if is_negative then 45 else if print_sign f then 43 else if print_blank f then 32 else 0.

Definition pad_char (f : flags) : Z := if pad_zero f then 48 else 32.

Section Convert.
  Context (P : platform) (num_buf : list Z) (strfsize : Z -> res (list Z)).
  Notation arg := (arg (double P)).

(** [ui_num] and [s_len] keep their values from one conversion to the next; [ap]; and
    what %n has stored. *)
Record locals := { l_ui_num : Z; l_s_len : Z; l_ap : list arg; l_stores : list (Z * Z) }.

(** [case 'u'], [case 'd'] and [case 'i']. *)
Definition decimal (f : flags) (un ap_set : bool) (precision : Z) (v : var_type_enum) (ap : list arg) : res (piece * list arg) :=
  do (neg, m, s, s_len, ap) <-
    match v with
    | IS_QUAD => do (z, ap) <- arg_quad ap; do (neg, m, s, s_len) <- conv_10_quad num_buf NUM_BUF_SIZE (s64 z) un; Ok (neg, m, s, s_len, ap)
    | _ =>
        do (z, ap) <- arg_int ap;
        let i_num := match v with IS_SHORT => if un then u16 z else s16 z | _ => s32 z end in
        do (neg, m, s, s_len) <- conv_10 num_buf NUM_BUF_SIZE i_num un; Ok (neg, m, s, s_len, ap)
    end;
  do (m, s, s_len) <- FIX_PRECISION ap_set precision m s s_len;
  Ok ({| p_mem := m; p_s := s; p_len := s_len; p_prefix := if un then 0 else sign_char f neg; p_pad := pad_char f; p_const := false |}, ap).

(** The digits of [case 'o'], [case 'x'] and [case 'X'], with the new [ui_num]. *)
Definition power_of_2 (nbits : Z) (upper ap_set : bool) (precision : Z) (v : var_type_enum) (ui_num : Z) (ap : list arg) : res (list Z * Z * Z * Z * list arg) :=
  do (m, s, s_len, ui_num, ap) <-
    match v with
    | IS_QUAD => do (z, ap) <- arg_quad ap; do (m, s, s_len) <- conv_p2_quad num_buf NUM_BUF_SIZE (u64 z) nbits upper; Ok (m, s, s_len, ui_num, ap)
    | _ =>
        do (z, ap) <- arg_int ap;
        let ui_num := match v with IS_SHORT => u16 z | _ => u32 z end in
        do (m, s, s_len) <- conv_p2 num_buf NUM_BUF_SIZE ui_num nbits upper; Ok (m, s, s_len, ui_num, ap)
    end;
  do (m, s, s_len) <- FIX_PRECISION ap_set precision m s s_len;
  Ok (m, s, s_len, ui_num, ap).

Definition octal (f : flags) (ap_set : bool) (precision : Z) (v : var_type_enum) (ui_num : Z) (ap : list arg) : res (piece * Z * list arg) :=
  do (m, s, s_len, ui_num, ap) <- power_of_2 3 false ap_set precision v ui_num ap;
  do (m, s, s_len) <-
    (if alternate_form f then do c <- rd m s; if c =? 48 then Ok (m, s, s_len) else do (m, s) <- put_before m s 48; Ok (m, s, s_len + 1)
     else Ok (m, s, s_len));
  Ok ({| p_mem := m; p_s := s; p_len := s_len; p_prefix := 0; p_pad := pad_char f; p_const := false |}, ui_num, ap).

(** [c] is ['x'] or ['X']. *)
Definition hexadecimal (c : Z) (f : flags) (ap_set : bool) (precision : Z) (v : var_type_enum) (ui_num : Z) (ap : list arg) : res (piece * Z * list arg) :=
  do (m, s, s_len, ui_num, ap) <- power_of_2 4 (c =? 88) ap_set precision v ui_num ap;
  do (m, s, s_len) <-
    (if alternate_form f && negb (ui_num =? 0) then do (m, s) <- put_before m s c; do (m, s) <- put_before m s 48; Ok (m, s, s_len + 2)
     else Ok (m, s, s_len));
  Ok ({| p_mem := m; p_s := s; p_len := s_len; p_prefix := 0; p_pad := pad_char f; p_const := false |}, ui_num, ap).

(** A string that is printed as it is, with blanks. *)
Definition text_piece (m : list Z) (s s_len : Z) (const : bool) : piece :=
  {| p_mem := m; p_s := s; p_len := s_len; p_prefix := 0; p_pad := 32; p_const := const |}.

Definition null_piece : piece := text_piece S_NULL 0 6 true.

(** The length of a string up to the precision. *)
Fixpoint walk_string (fuel : nat) (m : list Z) (s_len precision : Z) : res Z :=
  match fuel with
  | O => Err OutOfFuel
  | S fuel =>
      if s_len <? precision then do c <- rd m s_len; if c =? 0 then Ok s_len else walk_string fuel m (s_len + 1) precision
      else Ok s_len
  end.

Definition string_conv (ap_set : bool) (precision : Z) (ap : list arg) : res (piece * list arg) :=
  match ap with
  | A_string None :: ap => Ok (null_piece, ap)
  | A_string (Some m) :: ap =>
      do n <- (if ap_set then walk_string (S (S (length m))) m 0 precision else strlen m 0);
      Ok (text_piece m 0 n false, ap)
  | _ => Err Uninitialised
  end.

(** [case 'f'], [case 'e'] and [case 'E']: the text starts at [&num_buf[1]]. *)
Definition floating (c : Z) (f : flags) (ap_set : bool) (precision : Z) (ap : list arg) : res (piece * list arg) :=
  match ap with
  | A_double d :: ap =>
      if isnan P d then Ok ({| p_mem := str "nan"; p_s := 0; p_len := 3; p_prefix := 0; p_pad := pad_char f; p_const := false |}, ap)
      else if isinf P d then Ok ({| p_mem := str "inf"; p_s := 0; p_len := 3; p_prefix := 0; p_pad := pad_char f; p_const := false |}, ap)
      else
        let '(neg, text) := conv_fp P c d (alternate_form f) (if ap_set then s32 precision else 6) in
        do m <- blit num_buf 1 text;
        Ok ({| p_mem := m; p_s := 1; p_len := zlen text; p_prefix := sign_char f neg; p_pad := pad_char f; p_const := false |}, ap)
  | _ => Err Uninitialised
  end.

(** [q = strchr(s, c)] in a string of length [n] that starts at [s]. *)
Fixpoint find_char (n : nat) (m : list Z) (s c : Z) : res (option Z) :=
  match n with
  | O => Ok None
  | S n => do x <- rd m s; if x =? c then Ok (Some s) else find_char n m (s + 1) c
  end.

(** [case 'g'] and [case 'G'] *)
Definition general (c : Z) (f : flags) (ap_set : bool) (precision : Z) (ap : list arg) : res (piece * list arg) :=
  match ap with
  | A_double d :: ap =>
      let precision := if ap_set then if precision =? 0 then 1 else precision else 6 in
      let text := apr_gcvt P d (s32 precision) (alternate_form f) in
      do m <- blit num_buf 1 (text ++ [0]);
      do c0 <- rd m 1;
      let '(prefix, s) := if c0 =? 45 then (45, 2) else (sign_char f false, 1) in
      do s_len <- strlen m s;
      do dot <- find_char (Z.to_nat s_len) m s 46;
      do (m, s_len) <-
        (if alternate_form f && bool_decide (dot = None) then do m <- wr m (s + s_len) 46; do m <- wr m (s + s_len + 1) 0; Ok (m, s_len + 1)
         else Ok (m, s_len));
      do m <-
        (if c =? 71 then do q <- find_char (Z.to_nat s_len) m s 101; match q with Some q => wr m q 69 | None => Ok m end
         else Ok m);
      Ok ({| p_mem := m; p_s := s; p_len := s_len; p_prefix := prefix; p_pad := pad_char f; p_const := false |}, ap)
  | _ => Err Uninitialised
  end.

(** A text that the precision may cut. *)
Definition cut (ap_set : bool) (precision s_len : Z) : Z := if ap_set && (precision <? s_len) then precision else s_len.

Definition conv_apr_sockaddr (sa : sockaddr) (m : list Z) (buf_end : Z) : res (list Z * Z * Z) :=
  do (_, m, p, _) <- conv_10 m buf_end (port sa) true;
  do (m, p) <- put_before m p 58;
  match ip_getbuf sa with
  | None => do (m, p) <- put_before m p 63; Ok (m, p, buf_end - p)
  | Some text =>
      do m <- blit m (buf_end - NUM_BUF_SIZE) (text ++ [0]);
      do sub_len <- strlen m (buf_end - NUM_BUF_SIZE);
      do ipaddr_str <- sub m (buf_end - NUM_BUF_SIZE) sub_len;
      if plain_ipv6 sa then
        do m <- wr m (p - 1) 93;
        let p := p - (sub_len + 2) in
        do m <- wr m p 91;
        do m <- blit m (p + 1) ipaddr_str;
        Ok (m, p, buf_end - p)
      else
        let p := p - sub_len in
        do m <- blit m p ipaddr_str;
        Ok (m, p, buf_end - p)
  end.

Definition conv_os_thread_t (tid : Z) (m : list Z) (buf_end : Z) : res (list Z * Z * Z) :=
  do (_, m, p, len) <-
    (if sizeof_tid P =? 4 then conv_10 m buf_end (s32 tid) true
     else if sizeof_tid P =? 8 then conv_10_quad m buf_end (s64 tid) true
     else conv_10 m buf_end 0 true);
  Ok (m, p, len).

Definition conv_os_thread_t_hex (tid : Z) (m : list Z) (buf_end : Z) : res (list Z * Z * Z) :=
  if sizeof_tid P =? 4 then conv_p2 m buf_end (u32 tid) 4 false
  else if sizeof_tid P =? 8 then conv_p2_quad m buf_end (u64 tid) 4 false
  else do (_, m, p, len) <- conv_10 m buf_end 0 true; Ok (m, p, len).

(** A pointer to something that is converted into [num_buf] and cut by the precision. *)
Definition pointed {A} (conv : A -> list Z -> Z -> res (list Z * Z * Z)) (x : option A) (ap_set : bool) (precision : Z) : res piece :=
  match x with
  | None => Ok null_piece
  | Some a => do (m, s, s_len) <- conv a num_buf NUM_BUF_SIZE; Ok (text_piece m s (cut ap_set precision s_len) false)
  end.

(** [case 'p'], whose second letter is [c]; pointers of eight bytes. *)
Definition pointer (c : Z) (ap_set : bool) (precision : Z) (ap : list arg) : res (piece * list arg) :=
  match ap with
  | a :: ap =>
      do pc <-
        (if c =? 112 then match a with A_ptr z => do (m, s, s_len) <- conv_p2_quad num_buf NUM_BUF_SIZE (u64 z) 4 false; Ok (text_piece m s s_len false) | _ => Err Uninitialised end
         else if c =? 73 then match a with A_sockaddr x => pointed conv_apr_sockaddr x ap_set precision | _ => Err Uninitialised end
         else if c =? 65 then match a with A_in_addr x => pointed (fun ia m e => conv_in_addr m e ia) x ap_set precision | _ => Err Uninitialised end
         else if c =? 109 then
           match a with
           | A_status None => Ok null_piece
           | A_status (Some rv) => do m <- blit num_buf 0 (apr_strerror P rv ++ [0]); do n <- strlen m 0; Ok (text_piece m 0 n false)
           | _ => Err Uninitialised
           end
         else if c =? 84 then match a with A_tid x => pointed conv_os_thread_t x ap_set precision | _ => Err Uninitialised end
         else if c =? 116 then match a with A_tid x => pointed conv_os_thread_t_hex x ap_set precision | _ => Err Uninitialised end
         else if (c =? 66) || (c =? 70) || (c =? 83) then
           match a with
           | A_number x =>
               let size := match x with Some n => s64 n | None => 0 end in
               do buf <- strfsize size; do n <- strlen buf 0; Ok (text_piece buf 0 n false)
           | _ => Err Uninitialised
           end
         else Ok {| p_mem := str "bogus %p"; p_s := 0; p_len := 8; p_prefix := 0; p_pad := 32; p_const := false |});
      Ok (pc, ap)
  | [] => Err Uninitialised
  end.

Definition with_args (l : locals) (ap : list arg) : locals := {| l_ui_num := l_ui_num l; l_s_len := l_s_len l; l_ap := ap; l_stores := l_stores l |}.
Definition with_ui_num (l : locals) (n : Z) : locals := {| l_ui_num := n; l_s_len := l_s_len l; l_ap := l_ap l; l_stores := l_stores l |}.
Definition with_s_len (l : locals) (n : Z) : locals := {| l_ui_num := l_ui_num l; l_s_len := n; l_ap := l_ap l; l_stores := l_stores l |}.
Definition with_store (l : locals) (where_ cc : Z) : locals := {| l_ui_num := l_ui_num l; l_s_len := l_s_len l; l_ap := l_ap l; l_stores := l_stores l ++ [(where_, cc)] |}.

(** The [switch]: what is printed, the locals and the format from the conversion
    character on. *)
Definition convert (f : flags) (ap_set : bool) (precision : Z) (v : var_type_enum) (fmt : list Z) (cc : Z) (l : locals) : res (converted * locals * list Z) :=
  let c := hd 0 fmt in
  let printed r := do (pc, ap) <- r; Ok (Printed pc, with_args l ap, fmt) in
  let numbered r := do (pc, n, ap) <- r; Ok (Printed pc, with_ui_num (with_args l ap) n, fmt) in
  if c =? 117 then printed (decimal f true ap_set precision v (l_ap l))
  else if (c =? 100) || (c =? 105) then printed (decimal f false ap_set precision v (l_ap l))
  else if c =? 111 then numbered (octal f ap_set precision v (l_ui_num l) (l_ap l))
  else if (c =? 120) || (c =? 88) then numbered (hexadecimal c f ap_set precision v (l_ui_num l) (l_ap l))
  else if c =? 115 then printed (string_conv ap_set precision (l_ap l))
  else if (c =? 102) || (c =? 101) || (c =? 69) then printed (floating c f ap_set precision (l_ap l))
  else if (c =? 103) || (c =? 71) then printed (general c f ap_set precision (l_ap l))
  else if c =? 99 then printed (do (z, ap) <- arg_int (l_ap l); Ok (text_piece [u8 z; 0] 0 1 true, ap))
  else if c =? 37 then printed (Ok (text_piece [37; 0] 0 1 true, l_ap l))
  else if c =? 110 then
    match l_ap l with
    | A_store w :: ap => Ok (Silent, with_store (with_args l ap) w cc, fmt)
    | _ => Err Uninitialised
    end
  else if c =? 112 then
    match tl fmt with
    | [] => Ok (Ended, l, [])
    | c :: _ => do (pc, ap) <- pointer c ap_set precision (l_ap l); Ok (Printed pc, with_args l ap, tl fmt)
    end
  else if c =? 0 then Ok (Ended, l, [])
  else printed (Ok (text_piece [37; c] 0 2 true, l_ap l)).

Context (flush_func : M out Z).

(** After the [switch]: the prefix, the padding and the text. [pc] is [None] when nothing
    is printed, and [s_len] is then the one of an earlier conversion. The new [s_len]. *)
Definition print_piece (f : flags) (adjust_width : bool) (min_width : Z) (pc : option piece) (s_len : Z) : M out Z :=
  let INS := INS_CHAR flush_func in
  let '(m, s, s_len, prefix, pad, const) :=
    match pc with Some pc => (p_mem pc, p_s pc, p_len pc, p_prefix pc, p_pad pc, p_const pc) | None => ([], 0, s_len, 0, pad_char f, false) end in
  let! (m, s, s_len) :=
    mlift (if negb (prefix =? 0) && negb const then do (m, s) <- put_before m s prefix; Ok (m, s, s_len + 1) else Ok (m, s, s_len)) in
  let! (s, s_len, min_width) :=
    (if adjust_width && negb (adjust_left f) && (min_width >? s_len) then
       let! (s, s_len, min_width) :=
         (if (pad =? 48) && negb (prefix =? 0) then let! _ := INS (rd m s) in mok (s + 1, s_len - 1, min_width - 1)
          else mok (s, s_len, min_width)) in
       let! _ := PAD flush_func (Z.to_nat (min_width - s_len)) min_width s_len pad in
       mok (s, s_len, s_len)
     else mok (s, s_len, min_width)) in
  let! _ := (if pc then insert_from flush_func (Z.to_nat s_len) m s else mok tt) in
  let! _ :=
    (if adjust_width && adjust_left f && (min_width >? s_len) then PAD flush_func (Z.to_nat (min_width - s_len)) min_width s_len pad
     else mok tt) in
  mok s_len.

(** The flags, the width and the precision, which are looked for unless a lower case
    letter follows. *)
Definition scan_spec (fmt : list Z) (ap : list arg) : res (flags * bool * Z * bool * Z * list Z * list arg) :=
  if (97 <=? hd 0 fmt) && (hd 0 fmt <=? 122) then Ok (no_flags, false, 0, false, 0, fmt, ap)
  else
    let '(f, fmt) := scan_flags no_flags fmt in
    do (adjust_width, min_width, f, fmt, ap) <- scan_width f fmt ap;
    do (adjust_precision, precision, fmt, ap) <- scan_precision fmt ap;
    Ok (f, adjust_width, min_width, adjust_precision, precision, fmt, ap).

(** One round of [while ( *fmt)] at a ['%'], after it: the format and the locals. *)
Definition format_one (fmt : list Z) (l : locals) : M out (list Z * locals) :=
  let! (f, adjust_width, min_width, adjust_precision, precision, fmt, ap) := mlift (scan_spec fmt (l_ap l)) in
  let '(v, fmt) := scan_modifier P fmt in
  let! cc := mgets o_cc in
  let! (r, l, fmt) := mlift (convert f adjust_precision precision v fmt cc (with_args l ap)) in
  match r with
  | Ended => mok (fmt, l)
  | Silent => let! n := print_piece f adjust_width min_width None (l_s_len l) in mok (tl fmt, with_s_len l n)
  | Printed pc => let! n := print_piece f adjust_width min_width (Some pc) (l_s_len l) in mok (tl fmt, with_s_len l n)
  end.

Fixpoint format_loop (fuel : nat) (fmt : list Z) (l : locals) : M out locals :=
  match fuel with
  | O => merr OutOfFuel
  | S fuel =>
      match fmt with
      | [] => mok l
      | c :: rest =>
          if c =? 37 then let! (fmt, l) := format_one rest l in format_loop fuel fmt l
          else let! _ := INS_CHAR flush_func (Ok c) in format_loop fuel rest l
      end
  end.

(** [cc], or -1; the output and, when it ends, the locals. *)
Definition apr_vformatter (fmt : list Z) (ap : list arg) : M out (Z * list (Z * Z)) := fun o =>
  match format_loop (S (length fmt)) fmt {| l_ui_num := 0; l_s_len := 0; l_ap := ap; l_stores := [] |} o with
  | (Ok l, o) => (Ok (o_cc o, l_stores l), o)
  | (Err e, o) => (if bool_decide (e = returned) then Ok (-1, []) else Err e, o)
  end.

End Convert.

Arguments locals : clear implicits.
Arguments with_args {P}. Arguments with_ui_num {P}. Arguments with_s_len {P}. Arguments with_store {P}.

(** ** The functions *)

Definition snprintf_flush : M out Z := mok (-1).

(** [apr_snprintf] over what converts sizes: the buffer and the result. *)
Definition snprintf_with (P : platform) (num_buf : list Z) (strfsize : Z -> res (list Z)) (buf : list Z) (len : Z) (format : list Z) (ap : list (arg (double P))) : res (list Z * Z) :=
  let vbuff := if len =? 0 then {| o_mem := buf; o_sp := None; o_bep := 0; o_cc := 0 |} else {| o_mem := buf; o_sp := Some 0; o_bep := len - 1; o_cc := 0 |} in
  let '(r, o) := apr_vformatter P num_buf strfsize snprintf_flush format ap vbuff in
  do (cc, _) <- r;
  do m <- match o_sp o with Some curpos => wr (o_mem o) curpos 0 | None => Ok (o_mem o) end;
  Ok (m, if cc =? -1 then s32 len - 1 else cc).

(** The loop of [apr_strfsize]: [o] indexes [ord]. *)
Fixpoint strfsize_loop {D} (snprintf : list Z -> Z -> list Z -> list (arg D) -> res (list Z * Z)) (fuel : nat) (buf : list Z) (size o : Z) : res (list Z) :=
  match fuel with
  | O => Err OutOfFuel
  | S fuel =>
      let remain := Z.land size 1023 in
      let size := Z.shiftr size 10 in
      if size >=? 973 then strfsize_loop snprintf fuel buf size (o + 1)
      else if (size <? 9) || (size =? 9) && (remain <? 973) then
        let remain := Z.quot (remain * 5 + 256) 512 in
        let '(size, remain) := if remain >=? 10 then (size + 1, 0) else (size, remain) in
        do c <- rd (str "KMGTPE" ++ [0]) o;
        do (buf, n) <- snprintf buf 5 (str "%d.%d%c") [A_int size; A_int remain; A_int c];
        if n <? 0 then blit buf 0 (str "****" ++ [0]) else Ok buf
      else
        let size := if remain >=? 512 then size + 1 else size in
        do c <- rd (str "KMGTPE" ++ [0]) o;
        do (buf, n) <- snprintf buf 5 (str "%3d%c") [A_int size; A_int c];
        if n <? 0 then blit buf 0 (str "****" ++ [0]) else Ok buf
  end.

Definition strfsize_with {D} (snprintf : list Z -> Z -> list Z -> list (arg D) -> res (list Z * Z)) (size : Z) (buf : list Z) : res (list Z) :=
  if size <? 0 then blit buf 0 (str "  - " ++ [0])
  else if size <? 973 then
    do (buf, n) <- snprintf buf 5 (str "%3d ") [A_int size];
    if n <? 0 then blit buf 0 (str "****" ++ [0]) else Ok buf
  else strfsize_loop snprintf 7 buf size 0.

(** The two functions call each other: [depth] bounds the calls. [num_buf] and [buf5]
    are what the local buffers hold at first. *)
Fixpoint snprintf_at (P : platform) (num_buf buf5 : list Z) (depth : nat) : list Z -> Z -> list Z -> list (arg (double P)) -> res (list Z * Z) :=
  snprintf_with P num_buf
    (fun size => match depth with O => Err OutOfFuel | S depth => strfsize_with (snprintf_at P num_buf buf5 depth) size buf5 end).

(** One call inside another is enough: the formats of [apr_strfsize] have no sizes. *)
Definition apr_snprintf (P : platform) (num_buf buf5 : list Z) := snprintf_at P num_buf buf5 1.

(** The same with a list of arguments. *)
Definition apr_vsnprintf (P : platform) (num_buf buf5 : list Z) := snprintf_at P num_buf buf5 1.

Definition apr_strfsize (P : platform) (num_buf buf5 : list Z) (size : Z) (buf : list Z) : res (list Z) :=
  strfsize_with (snprintf_at P num_buf buf5 0) size buf.
