(* ===== verification/AprPrintf.v ===== *)
(** * What formatted output is: [src/apr/strings/apr_snprintf.c]

    A reference semantics of formats: their syntax as data, the text of a format, and
    what it is to print, by numerals and padding. [apr_snprintf] prints it, as far as the
    buffer goes. *)

From S2P Require Import Prelude AprNumber AprFormat.

(** ** Formats *)

(** A width or a precision. *)
Inductive amount := Absent | Given (n : Z) | Star.

Inductive size_modifier := Plain | Short | Quad.

Inductive conversion := C_signed (i : bool) | C_unsigned | C_octal | C_hex (upper : bool) | C_string | C_char | C_percent.

(** [flag_chars] may repeat and come in any order. *)
Record directive := { flag_chars : list Z; width : amount; precision : option amount; modifier : size_modifier; conv : conversion }.

Inductive item := Literal (c : Z) | Directive (d : directive).

Definition amount_text (a : amount) : list Z :=
  match a with Absent => [] | Given n => dec_text n | Star => [42] end.

Definition modifier_text (m : size_modifier) : list Z := match m with Plain => [] | Short => [104] | Quad => [113] end.

Definition conversion_char (c : conversion) : Z :=
  match c with
  | C_signed i => if i then 105 else 100 | C_unsigned => 117 | C_octal => 111 | C_hex upper => if upper then 88 else 120
  | C_string => 115 | C_char => 99 | C_percent => 37
  end.

Definition directive_text (d : directive) : list Z :=
  37 :: flag_chars d ++ amount_text (width d) ++ match precision d with None => [] | Some a => 46 :: amount_text a end
     ++ modifier_text (modifier d) ++ [conversion_char (conv d)].

Definition item_text (i : item) : list Z := match i with Literal c => [c] | Directive d => directive_text d end.

Definition format_text (is_ : list item) : list Z := concat (map item_text is_).

(** A width has no leading zero, which would be a flag; amounts fit [apr_size_t], less
    one value. *)
Definition item_ok (i : item) : Prop :=
  match i with
  | Literal c => c <> 37
  | Directive d =>
      Forall (fun c => c ∈ [45; 43; 35; 32; 48]) (flag_chars d)
      /\ match width d with Given n => 1 <= n < 2 ^ 64 - 1 | _ => True end
      /\ match precision d with Some (Given n) => 0 <= n < 2 ^ 64 - 1 | _ => True end
  end.

(** ** What they print *)

Section Render.
  Context {D : Type}.
  Notation arg := (arg D).

(** Padding on the left or on the right; zeros on the left come after the sign. *)
Definition layout (left : bool) (w pad : Z) (sign rest : list Z) : list Z :=
  let fill := repeat pad (Z.to_nat (w - zlen (sign ++ rest))) in
  if left then sign ++ rest ++ fill else if pad =? 48 then sign ++ fill ++ rest else fill ++ sign ++ rest.

(** The width, whether it moves the text to the left, and the arguments left. *)
Definition width_of (a : amount) (args : list arg) : option (bool * Z * list arg) :=
  match a, args with
  | Absent, _ => Some (false, 0, args)
  | Given n, _ => Some (false, n, args)
  | Star, A_int v :: args => if bool_decide (- 2 ^ 31 < v < 2 ^ 31) then Some (v <? 0, Z.abs v, args) else None
  | _, _ => None
  end.

Definition precision_of (a : option amount) (args : list arg) : option (option Z * list arg) :=
  match a, args with
  | None, _ => Some (None, args)
  | Some Absent, _ => Some (Some 0, args)
  | Some (Given n), _ => Some (Some n, args)
  | Some Star, A_int v :: args => if bool_decide (- 2 ^ 31 <= v < 2 ^ 31) then Some (Some (Z.max 0 v), args) else None
  | _, _ => None
  end.

(** The number an argument is. *)
Definition number_of (m : size_modifier) (un : bool) (a : arg) : option Z :=
  match m, a with
  | Plain, A_int z => Some (if un then u32 z else s32 z)
  | Short, A_int z => Some (if un then u16 z else s16 z)
  | Quad, A_quad z => Some (if un then u64 z else s64 z)
  | _, _ => None
  end.

(** At least as many digits as the precision says, but not more than 511. *)
Definition with_zeros (p : option Z) (digits : list Z) : list Z :=
  match p with None => digits | Some p => repeat 48 (Z.to_nat (Z.min p 511 - zlen digits)) ++ digits end.

(** A string up to the precision; without a terminator the precision has to keep inside
    it. *)
Definition string_text (p : option Z) (m : list Z) : option (list Z) :=
  match p with
  | None => if occurs 0 m then Some (cstr m) else None
  | Some p => if occurs 0 m || (p <=? zlen m) then Some (take (Z.to_nat p) (cstr m)) else None
  end.

(** The sign and the rest of what is printed for an argument, and whether zeros may pad
    it. *)
Definition conversion_text (d : directive) (p : option Z) (args : list arg) : option (list Z * list Z * bool * list arg) :=
  let has c := occurs c (flag_chars d) in
  match conv d, args with
  | C_percent, _ => Some ([], [37], false, args)
  | C_char, A_int z :: args => Some ([], [u8 z], false, args)
  | C_string, A_string None :: args => Some ([], str "(null)", false, args)
  | C_string, A_string (Some m) :: args => t ← string_text p m; Some ([], t, false, args)
  | C_signed _, a :: args =>
      z ← number_of (modifier d) false a;
      Some (if z <? 0 then [45] else if has 43 then [43] else if has 32 then [32] else [], with_zeros p (dec_text (Z.abs z)), true, args)
  | C_unsigned, a :: args => z ← number_of (modifier d) true a; Some ([], with_zeros p (dec_text z), true, args)
  | C_octal, a :: args =>
      z ← number_of (modifier d) true a;
      let t := with_zeros p (p2_text 3 false z) in
      Some ([], if has 35 && negb (hd 0 t =? 48) then 48 :: t else t, true, args)
  | C_hex upper, a :: args =>
      z ← number_of (modifier d) true a;
      let t := with_zeros p (p2_text 4 upper z) in
      if has 35 then
        match modifier d with
        | Quad => None
        | _ => if bool_decide (default 0 p <= 510) then Some ([], if z =? 0 then t else 48 :: conversion_char (conv d) :: t, true, args) else None
        end
      else Some ([], t, true, args)
  | _, _ => None
  end.

Definition render_directive (d : directive) (args : list arg) : option (list Z * list arg) :=
  '(to_left, w, args) ← width_of (width d) args;
  '(p, args) ← precision_of (precision d) args;
  '(sign, rest, number, args) ← conversion_text d p args;
  let pad := if number && occurs 48 (flag_chars d) then 48 else 32 in
  Some (layout (occurs 45 (flag_chars d) || to_left) w pad sign rest, args).

(** What a format prints for these arguments; [None] if the arguments do not fit it. *)
Fixpoint render (is_ : list item) (args : list arg) : option (list Z) :=
  match is_ with
  | [] => Some []
  | Literal c :: is_ => t ← render is_ args; Some (c :: t)
  | Directive d :: is_ => '(x, args) ← render_directive d args; t ← render is_ args; Some (x ++ t)
  end.

End Render.

(** ** Programs that only print *)

Section Emits.
  Context (flush : M out Z).

Fixpoint ins_text (x : list Z) : M out unit :=
  match x with [] => mok tt | c :: x => let! _ := INS_CHAR flush (Ok c) in ins_text x end.

(** [c] prints [x] and gives [a]. *)
Definition emits {A} (c : M out A) (x : list Z) (a : A) : Prop := forall o, c o = (let! _ := ins_text x in mok a) o.

Lemma ins_text_app x y o : ins_text (x ++ y) o = (let! _ := ins_text x in ins_text y) o.
Proof.
  revert o. induction x as [|c x IH]; intros o; cbn [ins_text app]; [done|]. unfold mbindS. destruct (INS_CHAR flush (Ok c) o) as [[u|e] o']; [|done]. rewrite IH. done.
Qed.

Lemma emits_ok {A} (a : A) : emits (mok a) [] a.
Proof. done. Qed.

Lemma emits_bind {A B} (c : M out A) (k : A -> M out B) x y a b : emits c x a -> emits (k a) y b -> emits (let! v := c in k v) (x ++ y) b.
Proof.
  intros Hc Hk o. unfold mbindS at 1. rewrite Hc. unfold mbindS at 2. rewrite ins_text_app. unfold mbindS. destruct (ins_text x o) as [[u|e] o']; [|done]. cbn. rewrite Hk. done.
Qed.

Lemma emits_lift {A B} (r : res A) (k : A -> M out B) x a b : r = Ok a -> emits (k a) x b -> emits (let! v := mlift r in k v) x b.
Proof. intros -> H o. unfold mbindS at 1. cbn. apply H. Qed.

Lemma emits_gets {A B} (f : out -> A) (k : A -> M out B) x b : (forall a, emits (k a) x b) -> emits (let! v := mgets f in k v) x b.
Proof. intros H o. unfold mbindS at 1. cbn. apply H. Qed.

Lemma emits_char c : emits (INS_CHAR flush (Ok c)) [c] tt.
Proof. intros o. cbn [ins_text]. unfold mbindS. by destruct (INS_CHAR flush (Ok c) o) as [[[]|e] o']. Qed.

Lemma emits_insert m x : forall s, has_bytes m s x -> emits (insert_from flush (length x) m s) x tt.
Proof.
  induction x as [|c x IH]; intros s Hm; cbn [length insert_from]; [apply emits_ok|]. rewrite (has_bytes_rd _ _ _ _ Hm). change (c :: x) with ([c] ++ x). eapply emits_bind; [apply emits_char|]. apply IH. exact (proj2 (has_bytes_cons _ _ _ _ Hm)).
Qed.

Lemma emits_pad ch n : forall width len, width - len = Z.of_nat (S n) -> emits (PAD flush (S n) width len ch) (repeat ch (S n)) tt.
Proof.
  induction n as [|n IH]; intros width len Hw; cbn [PAD repeat]; change (ch :: ?l) with ([ch] ++ l); (eapply emits_bind; [apply emits_char|]).
  - replace (width - 1 >? len) with false by lia. apply emits_ok.
  - replace (width - 1 >? len) with true by lia. change (ch :: repeat ch n) with (repeat ch (S n)). apply IH. lia.
Qed.

Lemma emits_padding ch width len : width > len -> emits (PAD flush (Z.to_nat (width - len)) width len ch) (repeat ch (Z.to_nat (width - len))) tt.
Proof. intros H. destruct (Z.to_nat (width - len)) as [|n] eqn:E; [lia|]. apply emits_pad. lia. Qed.

(** ** Printing a piece *)

Definition prefix_text (c : Z) : list Z := if c =? 0 then [] else [c].

(** The piece holds this text, with room for a prefix. *)
Definition holds (pc : piece) (sign text : list Z) : Prop :=
  has_bytes (p_mem pc) (p_s pc) text /\ p_len pc = zlen text /\ prefix_text (p_prefix pc) = sign /\ is_byte (p_prefix pc) /\ (p_prefix pc <> 0 -> p_const pc = false /\ 1 <= p_s pc).

Lemma put_before_text m s c text : has_bytes m s text -> 1 <= s -> is_byte c -> exists m', put_before m s c = Ok (m', s - 1) /\ has_bytes m' (s - 1) (c :: text).
Proof.
  intros (pre & post & -> & <-) Hs Hc. destruct (exists_last (l := pre)) as (pre' & x & ->); [by intros ->; cbn in Hs|]. rewrite zlen_app in *. change (zlen [x]) with 1 in *.
  unfold put_before. replace (zlen pre' + 1 - 1) with (zlen pre') by lia. exists (pre' ++ c :: text ++ post). rewrite <- app_assoc. cbn [app]. rewrite wr_app. cbn [rbind]. rewrite u8_byte by done. split; [done|]. exists pre', post. done.
Qed.

Lemma layout_none left pad sign rest w : w <= zlen (sign ++ rest) -> layout left w pad sign rest = sign ++ rest.
Proof. intros Hw. unfold layout. replace (Z.to_nat (w - zlen (sign ++ rest))) with O by lia. cbn. rewrite app_nil_r. by destruct left, (pad =? 48). Qed.

Lemma emits_eq {A} (c : M out A) x y a : emits c x a -> x = y -> emits c y a.
Proof. by intros H <-. Qed.

(** The second half of [print_piece]: the text and the padding on the right. *)
Lemma emits_tail (aw left : bool) mw s_len m s pad text : has_bytes m s text -> s_len = zlen text ->
  emits (let! _ := insert_from flush (Z.to_nat s_len) m s in let! _ := (if aw && left && (mw >? s_len) then PAD flush (Z.to_nat (mw - s_len)) mw s_len pad else mok tt) in mok s_len)
        (text ++ if aw && left && (mw >? s_len) then repeat pad (Z.to_nat (mw - s_len)) else []) s_len.
Proof.
  intros Hm ->. eapply emits_bind; [rewrite to_nat_zlen; by apply emits_insert|]. destruct (aw && left && (mw >? zlen text)) eqn:E.
  - eapply emits_eq; [eapply emits_bind; [apply emits_padding; lia|apply emits_ok]|apply app_nil_r].
  - apply emits_ok.
Qed.

Lemma emits_piece f (aw : bool) mw pc sl sign text : holds pc sign text -> exists n, emits (print_piece flush f aw mw (Some pc) sl) (layout (adjust_left f) (if aw then mw else 0) (p_pad pc) sign text) n.
Proof.
  intros (Hm & Hl & <- & Hb & Hp). unfold print_piece. cbv zeta. set (c := p_prefix pc) in *.
  assert (H1 : exists m s, (if negb (c =? 0) && negb (p_const pc) then do (m, s) <- put_before (p_mem pc) (p_s pc) c; Ok (m, s, p_len pc + 1) else Ok (p_mem pc, p_s pc, p_len pc)) = Ok (m, s, zlen (prefix_text c ++ text)) /\ has_bytes m s (prefix_text c ++ text)).
  { unfold prefix_text. destruct (Z.eqb_spec c 0) as [->|Hne]; [eexists _, _; rewrite Hl; done|]. destruct (Hp Hne) as [-> Hs]. destruct (put_before_text _ _ c _ Hm Hs Hb) as (m & -> & Hm'). exists m, (p_s pc - 1). cbn [app negb andb rbind]. split; [|done]. rewrite zlen_cons. do 2 f_equal. lia. }
  destruct H1 as (m & s & E & Hm'). set (body := prefix_text c ++ text) in *. pose proof (zlen_nonneg body).
  destruct (aw && negb (adjust_left f) && (mw >? zlen body)) eqn:Ew.
  - assert (aw = true /\ adjust_left f = false /\ mw > zlen body) as (-> & Hleft & Hw) by (destruct aw, (adjust_left f); lia). cbn [andb] in *. unfold layout. rewrite Hleft. fold body.
    destruct ((p_pad pc =? 48) && negb (c =? 0)) eqn:Ez.
    + assert (p_pad pc = 48 /\ c <> 0) as [Hpad Hc] by lia. assert (Hbody : body = c :: text) by (unfold body, prefix_text; by replace (c =? 0) with false by lia). rewrite Hbody in *. rewrite zlen_cons in *.
      eexists. eapply emits_eq; [eapply emits_lift; [exact E|]; cbv beta iota zeta; cbn [negb andb]; replace (mw >? 1 + zlen text) with true by lia|].
      * eapply emits_bind. { eapply emits_bind. { eapply emits_bind; [rewrite (has_bytes_rd _ _ _ _ Hm'); apply emits_char|apply emits_ok]. } cbn beta iota. eapply emits_bind; [apply emits_padding; lia|apply emits_ok]. }
        cbn beta iota. replace (1 + zlen text - 1) with (zlen text) by lia. exact (emits_tail true false (zlen text) (zlen text) m (s + 1) (p_pad pc) text (proj2 (has_bytes_cons _ _ _ _ Hm')) eq_refl).
      * rewrite Hpad. cbn [Z.eqb Pos.eqb andb app]. unfold prefix_text. replace (c =? 0) with false by lia. rewrite !app_nil_r. cbn [app]. by replace (mw - 1 - (1 + zlen text - 1)) with (mw - (1 + zlen text)) by lia.
    + eexists. eapply emits_eq; [eapply emits_lift; [exact E|]; cbv beta iota zeta; cbn [negb andb]; replace (mw >? zlen body) with true by lia|].
      * eapply emits_bind. { eapply emits_bind; [apply emits_ok|]. cbn beta iota. eapply emits_bind; [apply emits_padding; lia|apply emits_ok]. } cbn beta iota. exact (emits_tail true false (zlen body) (zlen body) m s (p_pad pc) body Hm' eq_refl).
      * cbn [andb app]. rewrite !app_nil_r. destruct (Z.eqb_spec (p_pad pc) 48) as [Hpad|]; [|done]. assert (c = 0) as Hc by (cbn [andb] in Ez; lia). unfold body, prefix_text in *. by rewrite Hc.
  - eexists. eapply emits_eq; [eapply emits_lift; [exact E|]; cbv beta iota zeta; rewrite Ew; eapply emits_bind; [apply emits_ok|cbn beta iota; exact (emits_tail aw (adjust_left f) mw (zlen body) m s (p_pad pc) body Hm' eq_refl)]|].
    cbn [app]. destruct (aw && adjust_left f && (mw >? zlen body)) eqn:El.
    + assert (aw = true /\ adjust_left f = true) as [-> ->] by (destruct aw, (adjust_left f); auto). unfold layout. fold body. by rewrite app_assoc.
    + rewrite layout_none, app_nil_r; [done|]. fold body. destruct aw; [|done]. destruct (adjust_left f); cbn in *; lia.
Qed.
End Emits.

(** ** Numbers at the end of [num_buf] *)

(** The buffer with a text at its end. *)
Definition at_end (nb t : list Z) : list Z := splice nb (512 - zlen t) t.

Lemma at_end_bytes nb t : zlen nb = 512 -> zlen t <= 512 -> has_bytes (at_end nb t) (512 - zlen t) t.
Proof. intros Hnb Ht. pose proof (zlen_nonneg t). apply has_bytes_splice; lia. Qed.

Lemma put_at_end nb t c : zlen nb = 512 -> zlen t < 512 -> is_byte c -> put_before (at_end nb t) (512 - zlen t) c = Ok (at_end nb (c :: t), 512 - zlen (c :: t)).
Proof.
  intros Hnb Ht Hc. pose proof (zlen_nonneg t). unfold at_end. rewrite put_before_splice by (try done; lia). rewrite zlen_cons. by replace (512 - (1 + zlen t)) with (512 - zlen t - 1) by lia.
Qed.

Lemma zeros_before_ok nb p : zlen nb = 512 -> p <= 511 -> forall fuel t, Z.max 0 (p - zlen t) < Z.of_nat fuel -> zlen t <= 511 ->
  zeros_before fuel (at_end nb t) (512 - zlen t) (zlen t) p = (let t' := repeat 48 (Z.to_nat (p - zlen t)) ++ t in Ok (at_end nb t', 512 - zlen t', zlen t')).
Proof.
  intros Hnb Hp. induction fuel as [|fuel IH]; intros t Hf Ht; cbn [zeros_before]; [lia|]. destruct (Z.ltb_spec (zlen t) p).
  - rewrite put_at_end by (try done; unfold is_byte; lia). cbn [rbind]. pose proof (zlen_cons 48 t) as E. replace (zlen t + 1) with (zlen (48 :: t)) by lia. rewrite IH by lia. cbv zeta.
    assert (Hr : repeat 48 (Z.to_nat (p - zlen (48 :: t))) ++ 48 :: t = repeat 48 (Z.to_nat (p - zlen t)) ++ t); [|by rewrite Hr].
    replace (Z.to_nat (p - zlen t)) with (S (Z.to_nat (p - zlen (48 :: t)))) by lia. cbn [repeat]. rewrite repeat_cons, <- app_assoc. done.
  - cbv zeta. by replace (Z.to_nat (p - zlen t)) with O by lia.
Qed.

Definition set_precision (set : bool) (p : Z) : option Z := if set then Some p else None.

Lemma zlen_repeat {A} (x : A) n : zlen (repeat x n) = Z.of_nat n.
Proof. unfold zlen. by rewrite repeat_length. Qed.

Lemma with_zeros_len p t : zlen t <= 64 -> zlen t <= zlen (with_zeros p t) <= 511 /\ zlen (with_zeros p t) <= Z.max 64 (default 0 p).
Proof. intros Ht. pose proof (zlen_nonneg t). destruct p as [p|]; cbn [with_zeros default]; [|lia]. rewrite zlen_app, zlen_repeat. cbn. lia. Qed.

Lemma FIX_PRECISION_ok nb set p t : zlen nb = 512 -> 0 <= p < 2 ^ 64 - 1 -> zlen t <= 64 ->
  FIX_PRECISION set p (at_end nb t) (512 - zlen t) (zlen t) = (let t' := with_zeros (set_precision set p) t in Ok (at_end nb t', 512 - zlen t', zlen t')).
Proof.
  intros Hnb Hp Ht. pose proof (zlen_nonneg t). unfold FIX_PRECISION, set_precision. destruct set; [|done]. unfold u64. rewrite Z.mod_small by lia. unfold NUM_BUF_SIZE, with_zeros.
  replace (if p + 1 <? 512 then p else 512 - 1) with (Z.min p 511) by (destruct (Z.ltb_spec (p + 1) 512); lia). apply zeros_before_ok; lia.
Qed.

Lemma s64_range z : - 2 ^ 63 <= s64 z < 2 ^ 63.
Proof. unfold s64. pose proof (Z.mod_pos_bound (z + 2 ^ 63) (2 ^ 64)). lia. Qed.

Lemma s32_range z : - 2 ^ 31 <= s32 z < 2 ^ 31.
Proof. unfold s32. pose proof (Z.mod_pos_bound (z + 2 ^ 31) (2 ^ 32)). lia. Qed.

Lemma s16_range z : - 2 ^ 15 <= s16 z < 2 ^ 15.
Proof. unfold s16. pose proof (Z.mod_pos_bound (z + 2 ^ 15) (2 ^ 16)). lia. Qed.

Lemma u64_s64 z : u64 (s64 z) = u64 z.
Proof. unfold u64, s64. rewrite Zminus_mod, Zmod_mod, <- Zminus_mod. by replace (z + 2 ^ 63 - 2 ^ 63) with z by lia. Qed.

Lemma u32_s32 z : u32 (s32 z) = u32 z.
Proof. unfold u32, s32. rewrite Zminus_mod, Zmod_mod, <- Zminus_mod. by replace (z + 2 ^ 31 - 2 ^ 31) with z by lia. Qed.

Lemma u16_range z : 0 <= u16 z < 2 ^ 16.
Proof. unfold u16. apply Z.mod_pos_bound. lia. Qed.

Lemma u32_range z : 0 <= u32 z < 2 ^ 32.
Proof. unfold u32. apply Z.mod_pos_bound. lia. Qed.

Lemma u64_range z : 0 <= u64 z < 2 ^ 64.
Proof. unfold u64. apply Z.mod_pos_bound. lia. Qed.

Definition var_type_of (m : size_modifier) : var_type_enum := match m with Plain => IS_INT | Short => IS_SHORT | Quad => IS_QUAD end.

(** A piece at the end of the buffer. *)
Lemma holds_at_end nb t c pad : zlen nb = 512 -> zlen t <= 511 -> is_byte c ->
  holds {| p_mem := at_end nb t; p_s := 512 - zlen t; p_len := zlen t; p_prefix := c; p_pad := pad; p_const := false |} (prefix_text c) t.
Proof. intros Hnb Ht Hc. split; [apply at_end_bytes; cbn; lia|]. cbn. split; [done|]. split; [done|]. split; [done|]. intros _. split; [done|lia]. Qed.

Lemma holds_plain nb t pad : zlen nb = 512 -> zlen t <= 512 ->
  holds {| p_mem := at_end nb t; p_s := 512 - zlen t; p_len := zlen t; p_prefix := 0; p_pad := pad; p_const := false |} [] t.
Proof. intros Hnb Ht. split; [apply at_end_bytes; cbn; lia|]. cbn. split; [done|]. split; [done|]. split; [unfold is_byte; lia|]. done. Qed.

Section Conversions.
  Context (P : platform) (nb : list Z) (strfsize : Z -> res (list Z)) (Hnb : zlen nb = 512).
  Notation arg := (arg (double P)).

Lemma conv_10_at_end num (un : bool) : - 2 ^ 31 <= num < 2 ^ 31 -> let k := if un then u32 num else Z.abs num in
  conv_10 nb NUM_BUF_SIZE num un = Ok (negb un && (num <? 0), at_end nb (dec_text k), 512 - zlen (dec_text k), zlen (dec_text k)).
Proof using Hnb.
  intros Hn k. apply conv_10_text; [done|]. fold k. assert (0 <= k < 2 ^ 64) as Hk by (subst k; pose proof (u32_range num); destruct un; lia). pose proof (dec_text_len k Hk). change NUM_BUF_SIZE with 512. lia.
Qed.

Lemma conv_10_quad_at_end num (un : bool) : - 2 ^ 63 <= num < 2 ^ 63 -> let k := if un then u64 num else Z.abs num in
  conv_10_quad nb NUM_BUF_SIZE num un = Ok (negb un && (num <? 0), at_end nb (dec_text k), 512 - zlen (dec_text k), zlen (dec_text k)).
Proof using Hnb.
  intros Hn k. apply conv_10_quad_text; [done|]. unfold magnitude64. fold k. assert (0 <= k < 2 ^ 64) as Hk by (subst k; pose proof (u64_range num); destruct un; lia). pose proof (dec_text_len k Hk). change NUM_BUF_SIZE with 512. lia.
Qed.

(** What a signed or unsigned number is printed as. *)
Definition magnitude (un : bool) (z : Z) : Z := if un then z else Z.abs z.

Lemma number_range m un (a : arg) z : number_of m un a = Some z -> if un then 0 <= z < 2 ^ 64 else - 2 ^ 63 <= z < 2 ^ 63.
Proof using Type.
  intros H. destruct m, a; cbn in H; simplify_eq; destruct un;
    first [pose proof (u32_range z0); lia|pose proof (s32_range z0); lia|pose proof (u16_range z0); lia|pose proof (s16_range z0); lia|apply u64_range|apply s64_range].
Qed.

Lemma decimal_ok f un set p m (a : arg) args z : number_of m un a = Some z -> 0 <= p < 2 ^ 64 - 1 ->
  exists pc, decimal P nb f un set p (var_type_of m) (a :: args) = Ok (pc, args) /\ p_pad pc = pad_char f
    /\ holds pc (if un then [] else prefix_text (sign_char f (z <? 0))) (with_zeros (set_precision set p) (dec_text (magnitude un z))).
Proof using Hnb.
  intros Hz Hp. pose proof (number_range _ _ _ _ Hz) as Hr. set (t := dec_text (magnitude un z)). assert (Ht : 1 <= zlen t <= 20) by (apply dec_text_len; unfold magnitude; destruct un; lia).
  assert (E : decimal P nb f un set p (var_type_of m) (a :: args) =
    (do (m, s, s_len) <- FIX_PRECISION set p (at_end nb t) (512 - zlen t) (zlen t);
     Ok ({| p_mem := m; p_s := s; p_len := s_len; p_prefix := if un then 0 else sign_char f (negb un && (z <? 0)); p_pad := pad_char f; p_const := false |}, args))).
  { unfold decimal. destruct m, a as [z0|z0| | | | | | | | |]; cbn in Hz; simplify_eq; cbn [var_type_of arg_int arg_quad rbind]; cbv zeta.
    - rewrite conv_10_at_end by apply s32_range. subst t. unfold magnitude. destruct un; cbn; rewrite ?u32_s32; done.
    - assert (Hs : - 2 ^ 31 <= (if un then u16 z0 else s16 z0) < 2 ^ 31) by (pose proof (u16_range z0); pose proof (s16_range z0); destruct un; lia). rewrite conv_10_at_end by done.
      subst t. unfold magnitude. destruct un; [|done]. replace (u32 (u16 z0)) with (u16 z0); [done|]. unfold u32. rewrite Z.mod_small; [done|]. pose proof (u16_range z0). lia.
    - rewrite conv_10_quad_at_end by apply s64_range. subst t. unfold magnitude. destruct un; cbn; rewrite ?u64_s64; done. }
  rewrite E. rewrite FIX_PRECISION_ok by (try done; lia). cbn [rbind]. eexists. split; [done|]. split; [done|]. pose proof (with_zeros_len (set_precision set p) t).
  destruct un; [apply holds_plain; [done|lia]|]. cbn [negb andb]. apply holds_at_end; [done|lia|]. unfold sign_char, is_byte. destruct (z <? 0), (print_sign f), (print_blank f); lia.
Qed.

Lemma p2_text_len nbits upper z : 1 <= nbits <= 4 -> 0 <= z < 2 ^ 64 -> 1 <= zlen (p2_text nbits upper z) <= 64.
Proof using Type.
  intros Hb Hz. unfold p2_text. rewrite zlen_map. split; [apply numeral_nonempty|]. assert (H2 : 2 <= 2 ^ nbits) by (change 2 with (2 ^ 1) at 1; apply Z.pow_le_mono_r; lia).
  apply (numeral_len _ 64); [done|lia|]. split; [lia|]. apply pow_enough; [done|]. change (Z.of_nat 64) with 64. lia.
Qed.

Lemma power_of_2_ok nbits upper set p m (a : arg) args z ui : 1 <= nbits <= 4 -> number_of m true a = Some z -> 0 <= p < 2 ^ 64 - 1 ->
  power_of_2 P nb nbits upper set p (var_type_of m) ui (a :: args) =
    (let t := with_zeros (set_precision set p) (p2_text nbits upper z) in Ok (at_end nb t, 512 - zlen t, zlen t, match m with Quad => ui | _ => z end, args)).
Proof using Hnb.
  intros Hb Hz Hp. pose proof (number_range _ _ _ _ Hz) as Hr. cbn in Hr. pose proof (p2_text_len nbits upper z Hb Hr) as Ht. unfold power_of_2. cbv zeta.
  assert (Hq : conv_p2_quad nb NUM_BUF_SIZE z nbits upper = Ok (at_end nb (p2_text nbits upper z), 512 - zlen (p2_text nbits upper z), zlen (p2_text nbits upper z)))
    by (apply conv_p2_quad_text; [done|done|change NUM_BUF_SIZE with 512; lia]).
  assert (Hi : z < 2 ^ 32 -> conv_p2 nb NUM_BUF_SIZE z nbits upper = Ok (at_end nb (p2_text nbits upper z), 512 - zlen (p2_text nbits upper z), zlen (p2_text nbits upper z)))
    by (intros; apply conv_p2_text; [done|lia|change NUM_BUF_SIZE with 512; lia]).
  destruct m, a as [z0|z0| | | | | | | | |]; cbn in Hz; simplify_eq; cbn [var_type_of arg_int arg_quad rbind].
  - rewrite Hi by apply u32_range. cbn [rbind]. rewrite FIX_PRECISION_ok by (try done; lia). done.
  - rewrite Hi by (pose proof (u16_range z0); lia). cbn [rbind]. rewrite FIX_PRECISION_ok by (try done; lia). done.
  - rewrite Hq. cbn [rbind]. rewrite FIX_PRECISION_ok by (try done; lia). done.
Qed.

Lemma octal_ok f set p m (a : arg) args z ui : number_of m true a = Some z -> 0 <= p < 2 ^ 64 - 1 ->
  exists pc ui', octal P nb f set p (var_type_of m) ui (a :: args) = Ok (pc, ui', args) /\ p_pad pc = pad_char f
    /\ holds pc [] (let t := with_zeros (set_precision set p) (p2_text 3 false z) in if alternate_form f && negb (hd 0 t =? 48) then 48 :: t else t).
Proof using Hnb.
  intros Hz Hp. pose proof (number_range _ _ _ _ Hz) as Hr. cbn in Hr. pose proof (p2_text_len 3 false z ltac:(lia) Hr) as Ht. unfold octal. rewrite (power_of_2_ok 3 false set p m a args z ui ltac:(lia) Hz Hp). cbv zeta. cbn [rbind].
  set (t := with_zeros (set_precision set p) (p2_text 3 false z)). pose proof (with_zeros_len (set_precision set p) (p2_text 3 false z) ltac:(lia)) as [Hl _]. fold t in Hl.
  destruct (alternate_form f); cbn [andb rbind]; [|eexists _, _; split; [done|split; [done|apply holds_plain; [done|lia]]]].
  assert (Hrd : rd (at_end nb t) (512 - zlen t) = Ok (hd 0 t)). { pose proof (at_end_bytes nb t Hnb ltac:(lia)) as H. destruct t as [|x t']; [rewrite zlen_nil in Hl; lia|]. exact (has_bytes_rd _ _ _ _ H). }
  rewrite Hrd. cbn [rbind]. destruct (hd 0 t =? 48); cbn [negb rbind]; [eexists _, _; split; [done|split; [done|apply holds_plain; [done|lia]]]|].
  rewrite put_at_end by (try done; unfold is_byte; lia). cbn [rbind]. eexists _, _. split; [done|]. split; [done|]. replace (zlen t + 1) with (zlen (48 :: t)) by (rewrite zlen_cons; lia). apply holds_plain; [done|rewrite zlen_cons; lia].
Qed.

Lemma hexadecimal_ok f set p m (a : arg) args z ui c (upper : bool) : c = (if upper then 88 else 120) -> number_of m true a = Some z -> 0 <= p < 2 ^ 64 - 1 -> (alternate_form f = true -> m <> Quad /\ default 0 (set_precision set p) <= 510) ->
  exists pc ui', hexadecimal P nb c f set p (var_type_of m) ui (a :: args) = Ok (pc, ui', args) /\ p_pad pc = pad_char f
    /\ holds pc [] (let t := with_zeros (set_precision set p) (p2_text 4 upper z) in if alternate_form f && negb (z =? 0) then 48 :: c :: t else t).
Proof using Hnb.
  intros Hc Hz Hp Halt. pose proof (number_range _ _ _ _ Hz) as Hr. cbn in Hr. pose proof (p2_text_len 4 upper z ltac:(lia) Hr) as Ht. unfold hexadecimal. replace (c =? 88) with upper by (destruct upper; subst c; done). rewrite (power_of_2_ok 4 upper set p m a args z ui ltac:(lia) Hz Hp). cbv zeta. cbn [rbind].
  set (t := with_zeros (set_precision set p) (p2_text 4 upper z)). pose proof (with_zeros_len (set_precision set p) (p2_text 4 upper z) ltac:(lia)) as [Hl Hl']. fold t in Hl, Hl'.
  destruct (alternate_form f); cbn [andb rbind]; [|eexists _, _; split; [done|split; [done|apply holds_plain; [done|lia]]]]. destruct (Halt eq_refl) as [Hm Hpr].
  replace (match m with Quad => ui | _ => z end) with z by (by destruct m). destruct (z =? 0); cbn [negb rbind]; [eexists _, _; split; [done|split; [done|apply holds_plain; [done|lia]]]|].
  assert (is_byte c) by (unfold is_byte; destruct upper; subst c; lia). rewrite put_at_end by (try done; lia). cbn [rbind]. rewrite put_at_end by (rewrite ?zlen_cons; try done; unfold is_byte; lia). cbn [rbind]. eexists _, _. split; [done|]. split; [done|].
  replace (zlen t + 2) with (zlen (48 :: c :: t)) by (rewrite !zlen_cons; lia). apply holds_plain; [done|rewrite !zlen_cons; lia].
Qed.

Lemma walk_string_ok p rest : forall pre fuel, zlen pre <= p -> occurs 0 rest || (p <=? zlen (pre ++ rest)) = true -> (length rest + 1 < fuel)%nat ->
  walk_string fuel (pre ++ rest) (zlen pre) p = Ok (zlen pre + zlen (take (Z.to_nat (p - zlen pre)) (cstr rest))).
Proof using Type.
  induction rest as [|c rest IH]; intros pre fuel Hp Hr Hf; (destruct fuel as [|fuel]; [lia|]); cbn [walk_string].
  - rewrite app_nil_r in *. cbn in Hr. replace (zlen pre <? p) with false by lia. cbn [cstr]. rewrite take_nil, zlen_nil. f_equal. lia.
  - destruct (Z.ltb_spec (zlen pre) p) as [Hlt|Hge].
    + rewrite rd_app_0, rd_cons_0. cbn [rbind cstr occurs length] in *. destruct (Z.eqb_spec c 0) as [->|Hne]; [rewrite take_nil, zlen_nil; f_equal; lia|].
      replace (pre ++ c :: rest) with ((pre ++ [c]) ++ rest) in * by (by rewrite <- app_assoc). pose proof (zlen_app pre [c]) as E. change (zlen [c]) with 1 in E. rewrite <- E. rewrite IH; [|lia|done|lia]. rewrite E.
      replace (Z.to_nat (p - zlen pre)) with (S (Z.to_nat (p - (zlen pre + 1)))) by lia. cbn [take]. rewrite zlen_cons. f_equal. lia.
    + replace (Z.to_nat (p - zlen pre)) with O by lia. rewrite take_0, zlen_nil. f_equal. lia.
Qed.

Lemma cstr_prefix m : exists post, m = cstr m ++ post /\ (occurs 0 m = true -> exists r, post = 0 :: r).
Proof using Type.
  induction m as [|c m (post & E & Hz)]; cbn [cstr occurs]; [by exists []|]. destruct (Z.eqb_spec c 0) as [->|Hne]; [exists (0 :: m); eauto|]. exists post. cbn [app]. rewrite <- E. done.
Qed.

Lemma string_conv_ok set p m t args : string_text (set_precision set p) m = Some t -> 0 <= p -> string_conv P set p (A_string (Some m) :: args) = Ok (text_piece m 0 (zlen t) false, args) /\ has_bytes m 0 t.
Proof using Type.
  intros Ht Hp. destruct (cstr_prefix m) as (post & E & Hz). cbn [string_conv]. destruct set; cbn [set_precision string_text] in Ht.
  - destruct (occurs 0 m || (p <=? zlen m)) eqn:Eo; [|done]. injection Ht as <-. pose proof (walk_string_ok p m [] (S (S (length m)))) as H. cbn [app] in H. rewrite zlen_nil, Z.sub_0_r in H. rewrite H by (try done; lia). cbn [rbind].
    split; [done|]. exists [], (drop (Z.to_nat p) (cstr m) ++ post). cbn [app]. rewrite app_assoc, take_drop. done.
  - destruct (occurs 0 m) eqn:Eo; [|done]. injection Ht as <-. destruct (Hz eq_refl) as (r & ->). assert (Hm : has_bytes m 0 (cstr m ++ [0])) by (exists [], r; cbn [app]; rewrite <- app_assoc; done).
    rewrite (strlen_ok m 0 (cstr m) Hm (cstr_no_nul m)). cbn [rbind]. split; [done|]. exact (proj1 (has_bytes_app _ _ _ _ Hm)).
Qed.

Lemma holds_text m s t const : has_bytes m s t -> holds (text_piece m s (zlen t) const) [] t.
Proof using Type. intros Hm. split; [done|]. cbn. split; [done|]. split; [done|]. split; [unfold is_byte; lia|]. done. Qed.

(** The flags that are read stand for the flag characters. *)
Definition flags_for (d : directive) (f : flags) : Prop :=
  alternate_form f = occurs 35 (flag_chars d) /\ print_sign f = occurs 43 (flag_chars d) /\ print_blank f = occurs 32 (flag_chars d) /\ pad_zero f = occurs 48 (flag_chars d).

Lemma convert_ok d f set p fmt args sign rest number args' l : conversion_text d (set_precision set p) args = Some (sign, rest, number, args') -> 0 <= p < 2 ^ 64 - 1 -> flags_for d f -> l_ap P l = args ->
  exists pc l', (forall cc, convert P nb strfsize f set p (var_type_of (modifier d)) (conversion_char (conv d) :: fmt) cc l = Ok (Printed pc, l', conversion_char (conv d) :: fmt))
    /\ l_ap P l' = args' /\ holds pc sign rest /\ p_pad pc = (if number then pad_char f else 32).
Proof using Hnb.
  intros H Hp (Halt & Hsign & Hblank & _) Hl. unfold conversion_text in H. destruct (conv d) as [i| | |upper| | |] eqn:Ec.
  - destruct args as [|a args]; [done|]. destruct (number_of (modifier d) false a) as [z|] eqn:Ez; [|done]. cbn [mbind option_bind] in H. cbv zeta in H. injection H as <- <- <- <-.
    destruct (decimal_ok f false set p (modifier d) a args z Ez Hp) as (pc & E & Hpad & Hh). exists pc, (with_args l args). split; [intros cc; unfold convert; cbn [hd conversion_char]; rewrite Hl; destruct i; cbn [Z.eqb Pos.eqb orb]; by rewrite E|].
    split; [done|]. split; [|done]. cbv iota in Hh. unfold sign_char in Hh. rewrite Hsign, Hblank in Hh. by destruct (z <? 0), (occurs 43 (flag_chars d)), (occurs 32 (flag_chars d)).
  - destruct args as [|a args]; [done|]. destruct (number_of (modifier d) true a) as [z|] eqn:Ez; [|done]. cbn [mbind option_bind] in H. cbv zeta in H. injection H as <- <- <- <-.
    destruct (decimal_ok f true set p (modifier d) a args z Ez Hp) as (pc & E & Hpad & Hh). exists pc, (with_args l args). split; [intros cc; unfold convert; cbn [hd conversion_char Z.eqb Pos.eqb orb]; rewrite Hl; by rewrite E|]. done.
  - destruct args as [|a args]; [done|]. destruct (number_of (modifier d) true a) as [z|] eqn:Ez; [|done]. cbn [mbind option_bind] in H. cbv zeta in H. injection H as <- <- <- <-.
    destruct (octal_ok f set p (modifier d) a args z (l_ui_num P l) Ez Hp) as (pc & ui & E & Hpad & Hh). exists pc, (with_ui_num (with_args l args) ui). split; [intros cc; unfold convert; cbn [hd conversion_char Z.eqb Pos.eqb orb]; rewrite Hl; by rewrite E|]. cbv zeta in Hh. rewrite Halt in Hh. done.
  - destruct args as [|a args]; [done|]. destruct (number_of (modifier d) true a) as [z|] eqn:Ez; [|done]. cbn [mbind option_bind] in H. cbv zeta in H.
    assert (Hq : alternate_form f = true -> modifier d <> Quad /\ default 0 (set_precision set p) <= 510). { rewrite Halt. intros Ho. rewrite Ho in H. destruct (modifier d); simplify_option_eq; done. }
    destruct (hexadecimal_ok f set p (modifier d) a args z (l_ui_num P l) (if upper then 88 else 120) upper eq_refl Ez Hp Hq) as (pc & ui & E & Hpad & Hh). exists pc, (with_ui_num (with_args l args) ui).
    split; [intros cc; unfold convert; cbn [hd conversion_char]; rewrite Hl; destruct upper; cbn [Z.eqb Pos.eqb orb]; by rewrite E|]. cbv zeta in Hh. rewrite Halt in Hh.
    destruct (occurs 35 (flag_chars d)); [|by injection H as <- <- <- <-]. destruct (modifier d); simplify_option_eq; cbn [andb] in Hh; by destruct (z =? 0).
  - destruct args as [|[]  args]; try done. destruct s as [m|].
    + destruct (string_text (set_precision set p) m) as [t|] eqn:Et; [|done]. cbn [mbind option_bind] in H. cbv zeta in H. injection H as <- <- <- <-. destruct (string_conv_ok set p m t args Et ltac:(lia)) as [E Hm].
      exists (text_piece m 0 (zlen t) false), (with_args l args). split; [intros cc; unfold convert; cbn [hd conversion_char Z.eqb Pos.eqb orb]; rewrite Hl; by rewrite E|]. split; [done|]. split; [by apply holds_text|done].
    + injection H as <- <- <- <-. exists null_piece, (with_args l args). split; [intros cc; unfold convert; cbn [hd conversion_char Z.eqb Pos.eqb orb]; rewrite Hl; done|]. split; [done|]. split; [|done]. apply (holds_text S_NULL 0 S_NULL true). by exists [], [].
  - destruct args as [|[z| | | | | | | | | |]  args]; try done. injection H as <- <- <- <-. exists (text_piece [u8 z; 0] 0 1 true), (with_args l args). split; [intros cc; unfold convert; cbn [hd conversion_char Z.eqb Pos.eqb orb]; rewrite Hl; done|]. split; [done|]. split; [|done]. apply (holds_text [u8 z; 0] 0 [u8 z] true). by exists [], [0].
  - injection H as <- <- <- <-. exists (text_piece [37; 0] 0 1 true), (with_args l args). split; [intros cc; unfold convert; cbn [hd conversion_char Z.eqb Pos.eqb orb]; rewrite Hl; done|]. split; [done|]. split; [|done]. apply (holds_text [37; 0] 0 [37] true). by exists [], [0].
Qed.

End Conversions.

(** ** Reading the format *)

(** The flags of a record with those of these characters. *)
Definition merge (f : flags) (fl : list Z) : flags :=
  {| adjust_left := adjust_left f || occurs 45 fl; print_sign := print_sign f || occurs 43 fl; alternate_form := alternate_form f || occurs 35 fl;
     print_blank := print_blank f || occurs 32 fl; pad_zero := pad_zero f || occurs 48 fl |}.

Lemma flag_of_merge c f fl : c ∈ [45; 43; 35; 32; 48] -> exists f', flag_of c f = Some f' /\ merge f' fl = merge f (c :: fl).
Proof.
  intros Hc. rewrite !elem_of_cons, elem_of_nil in Hc. unfold merge. cbn [occurs].
  destruct Hc as [->|[->|[->|[->|[->|[]]]]]]; (eexists; split; [reflexivity|]); cbn; rewrite ?orb_false_l, ?orb_true_r; done.
Qed.

Lemma scan_flags_ok fl rest : Forall (fun c => c ∈ [45; 43; 35; 32; 48]) fl -> (forall f, flag_of (hd 0 rest) f = None) -> forall f, scan_flags f (fl ++ rest) = (merge f fl, rest).
Proof.
  intros Hfl Hrest. induction Hfl as [|c fl Hc Hfl IH]; intros f; cbn [app scan_flags].
  - assert (E : merge f [] = f) by (unfold merge; cbn [occurs]; rewrite !orb_false_r; by destruct f). rewrite E. destruct rest as [|c rest]; [done|]. cbn [scan_flags]. specialize (Hrest f). cbn [hd] in Hrest. by rewrite Hrest.
  - destruct (flag_of_merge c f fl Hc) as (f' & -> & <-). apply IH.
Qed.

Lemma dec_digits_ok rest : is_digit (hd 0 rest) = false -> forall ds num, Forall (fun d => 0 <= d < 10) ds -> 0 <= num -> value 10 num ds < 2 ^ 64 -> dec_digits num (map (fun d => 48 + d) ds ++ rest) = (value 10 num ds, rest).
Proof.
  intros Hrest. induction ds as [|d ds IH]; intros num Hds Hn Hv; cbn [map app dec_digits].
  - destruct rest as [|c rest]; [done|]. cbn [hd] in Hrest. cbn [dec_digits]. by rewrite Hrest.
  - inversion_clear Hds as [|? ? Hd Hds']. replace (is_digit (48 + d)) with true by (unfold is_digit; lia). cbn [value foldl] in *. fold (value 10 (num * 10 + d) ds) in *. pose proof (value_ge 10 (num * 10 + d) ds ltac:(lia) ltac:(lia) Hds').
    unfold u64. rewrite (Z.mod_small (num * 10)), Z.mod_small by lia. replace (num * 10 + (48 + d - 48)) with (num * 10 + d) by lia. apply IH; [done|lia|done].
Qed.

Lemma dec_text_first n : 0 <= n < 2 ^ 64 -> is_digit (hd 0 (dec_text n)) = true /\ (1 <= n -> hd 0 (dec_text n) <> 48) /\ dec_text n <> [].
Proof.
  intros Hn. destruct (numeral_ok 10 n ltac:(lia) Hn) as [_ Hd]. pose proof (numeral_nonempty 10 n) as Hl. pose proof (numeral_first 10 n ltac:(lia)) as Hf. unfold dec_text. destruct (numeral 10 n) as [|d ds]; [rewrite zlen_nil in Hl; lia|]. inversion_clear Hd as [|? ? Hd1 _]. cbn [map hd] in *. unfold is_digit.
  split; [lia|]. split; [lia|done].
Qed.

Lemma STR_TO_DEC_ok n rest : 0 <= n < 2 ^ 64 -> is_digit (hd 0 rest) = false -> STR_TO_DEC (dec_text n ++ rest) = (n, rest).
Proof.
  intros Hn Hr. destruct (numeral_ok 10 n ltac:(lia) Hn) as [Hv Hd]. pose proof (numeral_nonempty 10 n) as Hl. unfold STR_TO_DEC, dec_text. destruct (numeral 10 n) as [|d ds]; [rewrite zlen_nil in Hl; lia|]. inversion_clear Hd as [|? ? Hd1 Hds]. cbn [map app hd tl].
  unfold u64 at 1. rewrite Z.mod_small by lia. replace (48 + d - 48) with d by lia. cbn [value foldl] in Hv. rewrite Z.mul_0_l, Z.add_0_l in Hv. fold (value 10 d ds) in Hv. rewrite dec_digits_ok; [|done|done|lia|lia]. by rewrite Hv.
Qed.

(** The characters a size modifier or a conversion starts with. *)
Definition letters : list Z := [104; 113; 105; 100; 117; 111; 88; 120; 115; 99; 37].

Lemma letter_facts c : c ∈ letters -> is_digit c = false /\ c <> 42 /\ c <> 46 /\ forall f, flag_of c f = None.
Proof. intros Hc. unfold letters in Hc. rewrite !elem_of_cons, elem_of_nil in Hc. destruct_or! Hc; subst; try done; repeat split; done. Qed.

Lemma conversion_letter c : conversion_char c ∈ letters.
Proof. destruct c as [[]| | |[]| | |]; vm_compute; set_solver. Qed.

Lemma modifier_letter m c fmt : hd 0 (modifier_text m ++ conversion_char c :: fmt) ∈ letters.
Proof. destruct m; cbn [modifier_text app hd]; [apply conversion_letter|unfold letters; set_solver|unfold letters; set_solver]. Qed.

Section Scan.
  Context {D : Type}.
  Notation arg := (arg D).

Lemma scan_width_ok w rest f (args args' : list arg) to_left wv : width_of w args = Some (to_left, wv, args') -> match w with Given n => 1 <= n < 2 ^ 64 - 1 | _ => True end -> is_digit (hd 0 rest) = false -> hd 0 rest <> 42 ->
  exists aw mw f', scan_width f (amount_text w ++ rest) args = Ok (aw, mw, f', rest, args') /\ (if aw then mw else 0) = wv
    /\ adjust_left f' = adjust_left f || to_left /\ print_sign f' = print_sign f /\ alternate_form f' = alternate_form f /\ print_blank f' = print_blank f /\ pad_zero f' = pad_zero f.
Proof.
  intros Hw Hok Hd Hs. unfold scan_width. destruct w as [|n|]; cbn [width_of amount_text app] in *.
  - injection Hw as <- <- <-. rewrite Hd. replace (hd 0 rest =? 42) with false by lia. exists false, 0, f. rewrite orb_false_r. done.
  - injection Hw as <- <- <-. destruct (dec_text_first n ltac:(lia)) as (H1 & _ & H3). replace (hd 0 (dec_text n ++ rest)) with (hd 0 (dec_text n)) by (by destruct (dec_text n)). rewrite H1, STR_TO_DEC_ok by (try done; lia). exists true, n, f. rewrite orb_false_r. done.
  - destruct args as [|[v| | | | | | | | | |] args]; try done. case_bool_decide as Hv; [|done]. injection Hw as <- <- <-. cbn [hd tl]. cbn [is_digit Z.leb Z.compare Pos.compare Pos.compare_cont andb Z.eqb Pos.eqb arg_int rbind].
    destruct (Z.ltb_spec v 0).
    + exists true, (u64 (s32 (- v))), (left_adjusted f). split; [done|]. split; [unfold u64, s32; rewrite (Z.mod_small (- v + 2 ^ 31)), Z.mod_small by lia; lia|]. rewrite orb_true_r. done.
    + exists true, (u64 v), f. split; [done|]. split; [unfold u64; rewrite Z.mod_small; lia|]. rewrite orb_false_r. done.
Qed.

Lemma scan_precision_ok p rest (args args' : list arg) pv : precision_of p args = Some (pv, args') -> match p with Some (Given n) => 0 <= n < 2 ^ 64 - 1 | _ => True end -> hd 0 rest ∈ letters ->
  exists set pz, scan_precision (match p with None => [] | Some a => 46 :: amount_text a end ++ rest) args = Ok (set, pz, rest, args') /\ pv = set_precision set pz /\ 0 <= pz < 2 ^ 64 - 1.
Proof.
  intros Hp Hok Hr. destruct (letter_facts _ Hr) as (Hd & Hs & Hdot & _). unfold scan_precision. destruct p as [[|n|]|]; cbn [precision_of amount_text app hd tl] in *; cbn [Z.eqb Pos.eqb].
  - injection Hp as <- <-. rewrite Hd. replace (hd 0 rest =? 42) with false by lia. exists true, 0. split; [done|]. split; [done|lia].
  - injection Hp as <- <-. destruct (dec_text_first n ltac:(lia)) as (H1 & _ & H3). replace (hd 0 (dec_text n ++ rest)) with (hd 0 (dec_text n)) by (by destruct (dec_text n)). rewrite H1, STR_TO_DEC_ok by (try done; lia). exists true, n. done.
  - destruct args as [|[v| | | | | | | | | |] args]; try done. case_bool_decide as Hv; [|done]. injection Hp as <- <-. cbn [is_digit Z.leb Z.compare Pos.compare Pos.compare_cont andb Z.eqb Pos.eqb arg_int rbind hd tl].
    exists true, (if v <? 0 then 0 else u64 v). split; [done|]. unfold u64. destruct (Z.ltb_spec v 0); [split; [cbn; f_equal; lia|lia]|]. rewrite Z.mod_small by lia. split; [cbn; f_equal; lia|lia].
  - injection Hp as <- <-. replace (hd 0 rest =? 46) with false by lia. exists false, 0. split; [done|]. split; [done|lia].
Qed.

End Scan.
