(* ===== verification/AprSnprintf.v ===== *)
(** * [apr_snprintf] prints what its format says

    [apr_vformatter] against the reference semantics of formats, the buffer of
    [apr_snprintf], and the sizes of [apr_strfsize]. *)

From S2P Require Import Prelude AprNumber AprFormat AprPrintf.

(** ** One directive *)

(** The format macros have a size modifier that no conversion of the reference
    semantics starts with, as "ld", "lld" and "I64d" have, or none. *)
Definition macros_ok (P : platform) : Prop :=
  Forall (fun F => zlen F <= 1 \/ hd 0 F ∉ letters) [off_t_fmt P; int64_fmt P].

Lemma no_modifier F fmt : zlen F <= 1 \/ hd 0 F ∉ letters -> hd 0 fmt ∈ letters -> has_modifier F fmt = false.
Proof.
  intros HF Hfmt. unfold has_modifier. cbv zeta. destruct (decide (zlen F <= 1)) as [Hl|Hl].
  - replace (zlen F + 1 =? 4) with false by lia. replace (zlen F + 1 =? 3) with false by lia. by replace (zlen F + 1 >? 4) with false by lia.
  - destruct HF as [HF|HF]; [lia|]. assert (Hne : hd 0 fmt <> hd 0 F) by congruence. replace (hd 0 fmt =? hd 0 F) with false by lia. rewrite !andb_false_r. cbn [orb andb].
    destruct (Z.gtb_spec (zlen F + 1) 4) as [Hgt|Hle]; [|done]. cbn [andb]. apply bool_decide_eq_false. intros E. apply Hne. destruct F as [|a F]; [rewrite zlen_nil in Hl; lia|].
    replace (Z.to_nat (zlen (a :: F) + 1 - 2)) with (S (Z.to_nat (zlen (a :: F) - 2))) in E by lia. destruct fmt as [|b fmt]; cbn in E; by simplify_eq.
Qed.

Lemma scan_modifier_ok P m c fmt : macros_ok P -> scan_modifier P (modifier_text m ++ conversion_char c :: fmt) = (var_type_of m, conversion_char c :: fmt).
Proof.
  intros HP. apply Forall_cons in HP as [H1 HP]. apply Forall_cons in HP as [H2 _]. pose proof (modifier_letter m c fmt) as Hl. unfold scan_modifier. rewrite !no_modifier by done. rewrite andb_false_r.
  destruct m; cbn [modifier_text app hd tl var_type_of]; [|done|done]. by destruct c as [[]| | |[]| | |].
Qed.

Lemma islower_plain c rest : (97 <=? c) && (c <=? 122) = true -> is_digit c = false /\ c <> 42 /\ c <> 46 /\ forall f, scan_flags f (c :: rest) = (f, c :: rest).
Proof.
  intros H. unfold is_digit. split; [lia|]. split; [lia|]. split; [lia|]. intros f. cbn [scan_flags]. unfold flag_of.
  replace (c =? 45) with false by lia. replace (c =? 43) with false by lia. replace (c =? 35) with false by lia. replace (c =? 32) with false by lia. by replace (c =? 48) with false by lia.
Qed.

(** Leaving flags, width and precision out for a lower case letter changes nothing. *)
Lemma scan_spec_full P fmt ap : scan_spec P fmt ap =
  (let '(f, fmt) := scan_flags no_flags fmt in
   do (aw, mw, f, fmt, ap) <- scan_width f fmt ap;
   do (ps, p, fmt, ap) <- scan_precision fmt ap;
   Ok (f, aw, mw, ps, p, fmt, ap)).
Proof.
  unfold scan_spec. destruct ((97 <=? hd 0 fmt) && (hd 0 fmt <=? 122)) eqn:E; [|done]. destruct fmt as [|c rest]; [done|]. cbn [hd] in E. destruct (islower_plain c rest E) as (H1 & H2 & H3 & ->).
  unfold scan_width. cbn [hd tl]. rewrite H1. replace (c =? 42) with false by lia. cbn [rbind]. unfold scan_precision. cbn [hd]. by replace (c =? 46) with false by lia.
Qed.

Section Format.
  Context (P : platform) (nb : list Z) (strfsize : Z -> res (list Z)) (flush : M out Z) (Hnb : zlen nb = 512) (HP : macros_ok P).
  Notation arg := (arg (double P)).

Lemma width_first w n rest : match w with Given n => 1 <= n < 2 ^ 64 - 1 | _ => True end -> n = hd 0 rest -> (forall f, flag_of n f = None) -> forall f, flag_of (hd 0 (amount_text w ++ rest)) f = None.
Proof using Type.
  intros Hw -> Hr f. destruct w as [|n|]; cbn [amount_text app]; [apply Hr| |done]. destruct (dec_text_first n ltac:(lia)) as (H1 & H2 & H3). specialize (H2 ltac:(lia)). destruct (dec_text n) as [|c t]; [done|]. cbn [app hd] in *. unfold is_digit in H1. unfold flag_of.
  replace (c =? 45) with false by lia. replace (c =? 43) with false by lia. replace (c =? 35) with false by lia. replace (c =? 32) with false by lia. by replace (c =? 48) with false by lia.
Qed.

(** The specification of a directive is read as it is meant. *)
Lemma scan_directive d fmt (args args1 args2 : list arg) to_left wv pv : item_ok (Directive d) -> width_of (width d) args = Some (to_left, wv, args1) -> precision_of (precision d) args1 = Some (pv, args2) ->
  exists f aw mw set p, scan_spec P (tl (directive_text d) ++ fmt) args = Ok (f, aw, mw, set, p, modifier_text (modifier d) ++ conversion_char (conv d) :: fmt, args2)
    /\ flags_for d f /\ adjust_left f = occurs 45 (flag_chars d) || to_left /\ (if aw then mw else 0) = wv /\ pv = set_precision set p /\ 0 <= p < 2 ^ 64 - 1.
Proof using Type.
  intros (Hfl & Hw & Hp) Ew Ep. set (tail := modifier_text (modifier d) ++ conversion_char (conv d) :: fmt). assert (Htail : hd 0 tail ∈ letters) by apply modifier_letter. destruct (letter_facts _ Htail) as (Td & Ts & Tdot & Tf).
  set (ptail := match precision d with None => [] | Some a => 46 :: amount_text a end ++ tail).
  assert (Hptail : is_digit (hd 0 ptail) = false /\ hd 0 ptail <> 42 /\ forall f, flag_of (hd 0 ptail) f = None) by (unfold ptail; destruct (precision d); [by cbn|done]). destruct Hptail as (Pd & Ps & Pf).
  rewrite scan_spec_full. unfold directive_text. cbn [tl]. replace ((flag_chars d ++ amount_text (width d) ++ match precision d with None => [] | Some a => 46 :: amount_text a end ++ modifier_text (modifier d) ++ [conversion_char (conv d)]) ++ fmt)
    with (flag_chars d ++ amount_text (width d) ++ ptail) by (unfold ptail, tail; by rewrite <- !app_assoc). rewrite scan_flags_ok; [|done|by apply (width_first (width d) (hd 0 ptail))].
  destruct (scan_width_ok (width d) ptail (merge no_flags (flag_chars d)) args args1 to_left wv Ew Hw Pd Ps) as (aw & mw & f' & -> & Hwv & Hf). cbn [rbind].
  destruct (scan_precision_ok (precision d) tail args1 args2 pv Ep Hp Htail) as (set & p & Esp & Hpv & Hpr). unfold ptail. rewrite Esp. cbn [rbind].
  exists f', aw, mw, set, p. split; [done|]. destruct Hf as (H1 & H2 & H3 & H4 & H5). unfold merge in *. cbn in H1, H2, H3, H4, H5. split; [done|]. done.
Qed.

Lemma format_one_ok d fmt (l : locals P) x args' : item_ok (Directive d) -> render_directive d (l_ap P l) = Some (x, args') ->
  exists l', l_ap P l' = args' /\ emits flush (format_one P nb strfsize flush (tl (directive_text d) ++ fmt) l) x (fmt, l').
Proof using Hnb HP.
  intros Hok Hr. unfold render_directive in Hr. destruct (width_of (width d) (l_ap P l)) as [[[to_left wv] args1]|] eqn:Ew; [|done]. cbn [mbind option_bind] in Hr. destruct (precision_of (precision d) args1) as [[pv args2]|] eqn:Ep; [|done]. cbn [mbind option_bind] in Hr.
  destruct (conversion_text d pv args2) as [[[[sign rest] number] args3]|] eqn:Ec; [|done]. cbn [mbind option_bind] in Hr. cbv zeta in Hr. injection Hr as <- <-.
  destruct (scan_directive d fmt _ _ _ _ _ _ Hok Ew Ep) as (f & aw & mw & set & p & Es & Hf & Hleft & Hwv & -> & Hp).
  destruct (convert_ok P nb strfsize Hnb d f set p fmt args2 sign rest number args3 (with_args l args2) Ec Hp Hf eq_refl) as (pc & l' & Ecv & Hl' & Hh & Hpad).
  destruct (emits_piece flush f aw mw pc (l_s_len P l') sign rest Hh) as (n & Hn). exists (with_s_len l' n). split; [done|].
  unfold format_one. eapply emits_lift; [exact Es|]. cbv beta iota. rewrite scan_modifier_ok by done. apply emits_gets. intros cc. eapply emits_lift; [apply Ecv|]. cbv beta iota. cbn [tl].
  eapply emits_eq; [eapply emits_bind; [exact Hn|apply emits_ok]|]. rewrite app_nil_r, Hleft, Hwv, Hpad. destruct Hf as (_ & _ & _ & Hz). unfold pad_char. rewrite Hz. by destruct number, (occurs 48 (flag_chars d)).
Qed.

Lemma directive_text_cons d : directive_text d = 37 :: tl (directive_text d).
Proof using Type. done. Qed.

Lemma format_loop_ok is_ : forall (l : locals P) x fuel, Forall item_ok is_ -> render is_ (l_ap P l) = Some x -> (length (format_text is_) < fuel)%nat ->
  exists l', emits flush (format_loop P nb strfsize flush fuel (format_text is_) l) x l'.
Proof using Hnb HP.
  induction is_ as [|i is_ IH]; intros l x fuel Hok Hr Hf; (destruct fuel as [|fuel]; [lia|]).
  - cbn in Hr. injection Hr as <-. exists l. apply emits_ok.
  - inversion_clear Hok as [|? ? Hi Hok']. unfold format_text in *. cbn [map concat] in *. rewrite length_app in Hf. destruct i as [c|d]; cbn [render item_text] in *.
    + destruct (render is_ (l_ap P l)) as [t|] eqn:Et; [|done]. cbn in Hr. injection Hr as <-. destruct (IH l t fuel Hok' Et) as (l' & H); [cbn in Hf; lia|]. exists l'. cbn [app format_loop]. cbn in Hi. replace (c =? 37) with false by lia. change (c :: t) with ([c] ++ t). eapply emits_bind; [apply emits_char|exact H].
    + destruct (render_directive d (l_ap P l)) as [[y args']|] eqn:Ed; [|done]. cbn [mbind option_bind] in Hr. destruct (render is_ args') as [t|] eqn:Et; [|done]. cbn [mbind option_bind] in Hr. injection Hr as <-.
      destruct (format_one_ok d (concat (map item_text is_)) l y args' Hi Ed) as (l1 & <- & H1). destruct (IH l1 t fuel Hok' Et) as (l' & H); [rewrite directive_text_cons in Hf; cbn [length] in Hf; lia|].
      exists l'. rewrite directive_text_cons. cbn [app format_loop Z.eqb Pos.eqb]. eapply emits_bind; [exact H1|]. exact H.
Qed.

End Format.

(** ** The buffer *)

Lemma put_char_room c m p bep cc : 0 <= p < zlen m -> is_byte c -> 0 <= cc < 2 ^ 31 - 1 ->
  put_char (Ok c) {| o_mem := m; o_sp := Some p; o_bep := bep; o_cc := cc |} = (Ok tt, {| o_mem := splice m p [c]; o_sp := Some (p + 1); o_bep := bep; o_cc := cc + 1 |}).
Proof.
  intros Hp Hc Hcc. unfold put_char. cbn [o_sp o_mem rbind]. rewrite wr_blit by done. rewrite u8_byte by done. unfold count_one. cbn. unfold s32. by rewrite Z.mod_small, Z.add_simpl_r by lia.
Qed.

(** All of a text if there is room, and otherwise what there is room for. *)
Lemma ins_text_buffer x : forall m p bep cc, 0 <= p <= bep -> bep < zlen m -> bytes x -> 0 <= cc -> cc + zlen x < 2 ^ 31 ->
  ins_text snprintf_flush x {| o_mem := m; o_sp := Some p; o_bep := bep; o_cc := cc |} =
    if zlen x <=? bep - p then (Ok tt, {| o_mem := splice m p x; o_sp := Some (p + zlen x); o_bep := bep; o_cc := cc + zlen x |})
    else (Err returned, {| o_mem := splice m p (take (Z.to_nat (bep - p)) x); o_sp := Some bep; o_bep := bep; o_cc := cc + (bep - p) |}).
Proof.
  induction x as [|c x IH]; intros m p bep cc Hp Hb Hx Hcc Hs; cbn [ins_text].
  - rewrite zlen_nil. replace (0 <=? bep - p) with true by lia. rewrite splice_nil, !Z.add_0_r by lia. done.
  - apply Forall_cons in Hx as [Hc Hx]. rewrite zlen_cons in *. pose proof (zlen_nonneg x). unfold mbindS, INS_CHAR. cbn [o_sp o_bep]. destruct (Z.geb_spec p bep) as [Hge|Hlt].
    + assert (p = bep) as -> by lia. cbn. rewrite Z.sub_diag. replace (1 + zlen x <=? 0) with false by lia. cbn. rewrite splice_nil, Z.add_0_r by lia. done.
    + rewrite put_char_room by (try done; lia). pose proof (zlen_splice m p [c] ltac:(lia)) as Hl. change (zlen [c]) with 1 in Hl. rewrite IH by (try done; lia).
      replace (zlen x <=? bep - (p + 1)) with (1 + zlen x <=? bep - p) by (destruct (Z.leb_spec (1 + zlen x) (bep - p)), (Z.leb_spec (zlen x) (bep - (p + 1))); lia).
      destruct (Z.leb_spec (1 + zlen x) (bep - p)).
      * rewrite splice_cons by lia. do 2 f_equal; [f_equal; lia|lia].
      * replace (Z.to_nat (bep - p)) with (S (Z.to_nat (bep - (p + 1)))) by lia. cbn [take]. rewrite splice_cons by (try rewrite zlen_take; lia). do 2 f_equal. lia.
Qed.

Lemma ins_text_count x : forall m bep cc, 0 <= cc -> cc + zlen x < 2 ^ 31 ->
  ins_text snprintf_flush x {| o_mem := m; o_sp := None; o_bep := bep; o_cc := cc |} = (Ok tt, {| o_mem := m; o_sp := None; o_bep := bep; o_cc := cc + zlen x |}).
Proof.
  induction x as [|c x IH]; intros m bep cc Hcc Hs; cbn [ins_text]; [rewrite zlen_nil, Z.add_0_r; done|]. rewrite zlen_cons in *. pose proof (zlen_nonneg x). unfold mbindS, INS_CHAR, put_char, count_one. cbn [o_sp o_mem o_bep o_cc].
  unfold s32. rewrite Z.mod_small, Z.add_simpl_r by lia. rewrite IH by lia. do 2 f_equal. lia.
Qed.

(** [apr_snprintf] for any way to convert sizes. *)
Lemma snprintf_with_prints P nb strfsize buf len is_ args text : macros_ok P -> zlen nb = 512 -> Forall item_ok is_ -> render is_ args = Some text -> bytes text -> zlen text < 2 ^ 31 -> 0 <= len <= zlen buf -> len < 2 ^ 31 ->
  snprintf_with P nb strfsize buf len (format_text is_) args =
    Ok (if len =? 0 then buf else splice buf 0 (take (Z.to_nat (len - 1)) text ++ [0]), if (len =? 0) || (zlen text <? len) then zlen text else len - 1).
Proof.
  intros HP Hnb Hok Hr Hb Ht Hl Hlen. pose proof (zlen_nonneg text). unfold snprintf_with, apr_vformatter.
  destruct (format_loop_ok P nb strfsize snprintf_flush Hnb HP is_ {| l_ui_num := 0; l_s_len := 0; l_ap := args; l_stores := [] |} text (S (length (format_text is_))) Hok Hr ltac:(lia)) as (l' & Hem). rewrite Hem. unfold mbindS. destruct (Z.eqb_spec len 0) as [->|Hne].
  - rewrite ins_text_count by lia. cbn [mok rbind o_sp o_mem o_cc]. rewrite Z.add_0_l. by replace (zlen text =? -1) with false by lia.
  - rewrite ins_text_buffer by (try done; lia). rewrite Z.sub_0_r. cbn [orb]. destruct (Z.leb_spec (zlen text) (len - 1)).
    + cbn [mok rbind o_sp o_mem o_cc]. pose proof (wr_splice0 buf text 0 ltac:(lia)) as E. rewrite !Z.add_0_l. rewrite E. cbn [rbind]. replace (zlen text <? len) with true by lia. replace (zlen text =? -1) with false by lia.
      rewrite firstn_all2 by (unfold zlen in *; lia). done.
    + rewrite bool_decide_true by done. cbn [rbind o_sp o_mem]. assert (Hlt : zlen (take (Z.to_nat (len - 1)) text) = len - 1) by (apply zlen_take; lia).
      pose proof (wr_splice0 buf (take (Z.to_nat (len - 1)) text) 0 ltac:(lia)) as E. rewrite Hlt in E. rewrite E. cbn [rbind]. replace (zlen text <? len) with false by lia. do 2 f_equal. unfold s32. cbn [Z.eqb Pos.eqb]. rewrite Z.mod_small by lia. lia.
Qed.

(** ** Sizes *)

(** "%d.%d%c", "%3d%c" and "%3d " as data. *)
Definition simple (c : conversion) (w : amount) : item := Directive {| flag_chars := []; width := w; precision := None; modifier := Plain; conv := c |}.

Definition fmt_tenths : list item := [simple (C_signed false) Absent; Literal 46; simple (C_signed false) Absent; simple C_char Absent].
Definition fmt_units : list item := [simple (C_signed false) (Given 3); simple C_char Absent].
Definition fmt_bytes : list item := [simple (C_signed false) (Given 3); Literal 32].

Lemma fmt_texts : format_text fmt_tenths = str "%d.%d%c" /\ format_text fmt_units = str "%3d%c" /\ format_text fmt_bytes = str "%3d ".
Proof. vm_compute. done. Qed.

Lemma fmts_ok : Forall item_ok fmt_tenths /\ Forall item_ok fmt_units /\ Forall item_ok fmt_bytes.
Proof. repeat split; try constructor; repeat constructor; cbn; lia. Qed.

(** A number in three places. *)
Definition three (n : Z) : list Z := repeat 32 (Z.to_nat (3 - zlen (dec_text n))) ++ dec_text n.

Lemma dec_text_small n : 0 <= n < 10 -> dec_text n = [48 + n].
Proof. intros Hn. unfold dec_text, numeral. cbn [digits_of]. by replace (n <? 10) with true by lia. Qed.

Lemma dec_text_bytes n : 0 <= n < 2 ^ 64 -> bytes (dec_text n).
Proof. intros Hn. destruct (numeral_ok 10 n ltac:(lia) Hn) as [_ H]. unfold dec_text, bytes. rewrite list.Forall_fmap. eapply Forall_impl; [exact H|]. intros d Hd. unfold compose, is_byte. cbn beta in *. lia. Qed.

Lemma three_ok n : 0 <= n < 1000 -> zlen (three n) = 3 /\ bytes (three n).
Proof.
  intros Hn. assert (zlen (dec_text n) <= 3) by (unfold dec_text; rewrite zlen_map; apply (numeral_len 10 3); [lia|lia|cbn; lia]). pose proof (zlen_nonneg (dec_text n)). unfold three. rewrite zlen_app, zlen_repeat. split; [lia|].
  apply Forall_app. split; [|apply dec_text_bytes; lia]. apply Forall_forall. intros c Hc. apply list_elem_of_In, repeat_spec in Hc as ->. unfold is_byte. lia.
Qed.

Section Sizes.
  Context (P : platform) (nb buf5 : list Z) (Hnb : zlen nb = 512) (HP : macros_ok P).

(** What [apr_snprintf] gives for a format of four characters in a buffer of five. *)
Lemma snprintf_four depth buf is_ args text : zlen buf = 5 -> Forall item_ok is_ -> render is_ args = Some text -> zlen text = 4 -> bytes text ->
  snprintf_at P nb buf5 depth buf 5 (format_text is_) args = Ok (text ++ [0], 4).
Proof using Hnb HP.
  intros Hbuf Hok Hr Ht Hb. destruct depth; cbn [snprintf_at]; rewrite (snprintf_with_prints P nb _ buf 5 is_ args text HP Hnb Hok Hr Hb) by lia; cbn [Z.eqb orb];
    (rewrite Ht; replace (4 <? 5) with true by lia; rewrite firstn_all2 by (unfold zlen in Ht; change (Z.to_nat (5 - 1)) with 4%nat; lia); unfold splice; cbn [Z.to_nat take app];
     rewrite drop_ge by (rewrite zlen_app, Ht; change (zlen [0]) with 1; unfold zlen in Hbuf; lia); rewrite app_nil_r; done).
Qed.

Lemma render_tenths n t u : 0 <= n < 10 -> 0 <= t < 10 -> render (D := double P) fmt_tenths [A_int n; A_int t; A_int u] = Some [48 + n; 46; 48 + t; u8 u].
Proof using Type.
  intros Hn Ht. cbn [render fmt_tenths simple render_directive width_of precision_of width precision conversion_text conv number_of modifier mbind option_bind flag_chars occurs with_zeros].
  assert (E : forall k, 0 <= k < 10 -> s32 k = k) by (intros k Hk; unfold s32; rewrite Z.mod_small; lia). rewrite !E by done. replace (n <? 0) with false by lia. replace (t <? 0) with false by lia. rewrite !Z.abs_eq, !dec_text_small by lia. done.
Qed.

Lemma render_units n u : 0 <= n < 1000 -> render (D := double P) fmt_units [A_int n; A_int u] = Some (three n ++ [u8 u]).
Proof using Type.
  intros Hn. cbn [render fmt_units simple render_directive width_of precision_of width precision conversion_text conv number_of modifier mbind option_bind flag_chars occurs with_zeros].
  replace (s32 n) with n by (unfold s32; rewrite Z.mod_small; lia). replace (n <? 0) with false by lia. rewrite !Z.abs_eq by lia. cbn [mbind option_bind]. do 2 f_equal.
Qed.

Lemma render_bytes n : 0 <= n < 1000 -> render (D := double P) fmt_bytes [A_int n] = Some (three n ++ [32]).
Proof using Type.
  intros Hn. cbn [render fmt_bytes simple render_directive width_of precision_of width precision conversion_text conv number_of modifier mbind option_bind flag_chars occurs with_zeros].
  replace (s32 n) with n by (unfold s32; rewrite Z.mod_small; lia). replace (n <? 0) with false by lia. rewrite !Z.abs_eq by lia. cbn [mbind option_bind]. do 2 f_equal.
Qed.

(** [text] is a number of units of [1024 ^ k] bytes near [size]: with one decimal, to
    about a twentieth of a unit, or in three places, to half a unit. *)
Definition near (size k : Z) (text : list Z) : Prop :=
  exists u, rd (str "KMGTPE") (k - 1) = Ok u /\ let U := 1024 ^ k in
  ((exists n t, 0 <= n < 10 /\ 0 <= t < 10 /\ text = [48 + n; 46; 48 + t; u] /\ 512 * Z.abs (10 * size - (10 * n + t) * U) <= 261 * U)
   \/ (exists n, 9 <= n <= 973 /\ text = three n ++ [u] /\ 2 * Z.abs (size - n * U) <= U)).

Lemma unit_letter o : 0 <= o <= 5 -> exists u, rd (str "KMGTPE") o = Ok u /\ rd (str "KMGTPE" ++ [0]) o = Ok u /\ u8 u = u /\ is_byte u.
Proof using Type. intros Ho. assert (o = 0 \/ o = 1 \/ o = 2 \/ o = 3 \/ o = 4 \/ o = 5) as H by lia. destruct_or! H; subst o; eexists; (split; [reflexivity|split; [reflexivity|split; [reflexivity|vm_compute; intuition congruence]]]). Qed.

(** The rounding: [q] whole units, [r] 1024ths and the rest [e] of [size]. *)
Lemma near_tenths U V size q r e : 0 < V -> U = 1024 * V -> size = q * U + r * V + e -> 0 <= e < V -> 0 <= r < 1024 -> let t := (r * 5 + 256) / 512 in
  0 <= t <= 10 /\ 512 * Z.abs (10 * size - (10 * q + t) * U) <= 261 * U.
Proof using Type. intros HV -> -> He Hr t. subst t. Z.div_mod_to_equations. split; nia. Qed.

Lemma near_units U V size q r e : 0 < V -> U = 1024 * V -> size = q * U + r * V + e -> 0 <= e < V -> 0 <= r < 1024 ->
  2 * Z.abs (size - (if r >=? 512 then q + 1 else q) * U) <= U.
Proof using Type. intros HV -> -> He Hr. destruct (Z.geb_spec r 512); nia. Qed.

Lemma strfsize_loop_ok buf size0 : zlen buf = 5 -> 973 <= size0 < 2 ^ 63 -> forall fuel o size, 0 <= o -> o + Z.of_nat fuel >= 6 -> size = size0 / 1024 ^ o -> 973 <= size ->
  exists k text, strfsize_loop (snprintf_at P nb buf5 0) fuel buf size o = Ok (text ++ [0]) /\ zlen text = 4 /\ 1 <= k <= 6 /\ near size0 k text.
Proof using Hnb HP.
  intros Hbuf H0. induction fuel as [|fuel IH]; intros o size Ho Hf Hsize Hge.
  { exfalso. assert (1024 ^ 6 <= 1024 ^ o) by (apply Z.pow_le_mono_r; lia). assert (size0 / 1024 ^ o <= 7); [|lia]. apply Z.lt_succ_r, Z.div_lt_upper_bound; lia. }
  assert (Ho5 : o <= 5). { destruct (Z.le_gt_cases o 5); [done|]. assert (1024 ^ 6 <= 1024 ^ o) by (apply Z.pow_le_mono_r; lia). assert (size0 / 1024 ^ o <= 7); [|lia]. apply Z.lt_succ_r, Z.div_lt_upper_bound; lia. }
  cbn [strfsize_loop]. change 1023 with (Z.ones 10). rewrite Z.land_ones, Z.shiftr_div_pow2 by lia. change (2 ^ 10) with 1024. set (V := 1024 ^ o) in *. assert (HV : 0 < V) by (apply Z.pow_pos_nonneg; lia).
  assert (HU : 1024 ^ (o + 1) = 1024 * V) by (rewrite Z.pow_add_r by lia; lia). set (q := size / 1024). set (r := size mod 1024).
  assert (Hd : size0 = q * (1024 * V) + r * V + size0 mod V /\ 0 <= size0 mod V < V /\ 0 <= r < 1024).
  { pose proof (Z.div_mod size0 V ltac:(lia)). pose proof (Z.div_mod size 1024 ltac:(lia)). pose proof (Z.mod_pos_bound size0 V ltac:(lia)). pose proof (Z.mod_pos_bound size 1024 ltac:(lia)). unfold q, r. rewrite <- Hsize in *. split; [nia|lia]. }
  destruct Hd as (Hd & He & Hr). destruct (Z.geb_spec q 973) as [Hq|Hq].
  { apply IH; [lia|lia| |lia]. unfold q. rewrite Hsize, HU, Z.div_div by lia. f_equal. lia. }
  assert (Hq0 : 0 <= q) by (apply Z.div_pos; lia). destruct (unit_letter o ltac:(lia)) as (u & Hu & Hu0 & Hu8 & Hub). destruct fmt_texts as (Ft & Fu & _). exists (o + 1).
  destruct ((q <? 9) || (q =? 9) && (r <? 973)) eqn:E.
  - rewrite Z.quot_div_nonneg by lia. destruct (near_tenths (1024 * V) V size0 q r (size0 mod V) HV eq_refl Hd He Hr) as [Ht Hn]. cbv zeta in Ht, Hn. set (t := (r * 5 + 256) / 512) in *.
    assert (Hn9 : exists n' t', (if t >=? 10 then (q + 1, 0) else (q, t)) = (n', t') /\ 0 <= n' < 10 /\ 0 <= t' < 10 /\ 10 * n' + t' = 10 * q + t).
    { destruct (Z.geb_spec t 10); eexists _, _; (split; [reflexivity|]); [|lia]. assert (q <> 9); [|lia]. intros ->. assert (r < 973) by lia. unfold t in *. Z.div_mod_to_equations. lia. }
    destruct Hn9 as (n' & t' & -> & Hn' & Ht' & Es). rewrite Hu0. cbn [rbind]. rewrite <- Ft. rewrite (snprintf_four 0 buf fmt_tenths _ [48 + n'; 46; 48 + t'; u] Hbuf); [|apply fmts_ok|rewrite <- Hu8 at 2; by apply render_tenths|done|repeat constructor; unfold is_byte in *; lia].
    cbn [rbind Z.ltb Z.compare]. eexists. split; [done|]. split; [done|]. split; [lia|]. exists u. rewrite Z.add_simpl_r. split; [done|]. cbv zeta. rewrite HU. left. exists n', t'. split; [done|]. split; [done|]. split; [done|]. by rewrite Es.
  - pose proof (near_units (1024 * V) V size0 q r (size0 mod V) HV eq_refl Hd He Hr) as Hn. set (n := if r >=? 512 then q + 1 else q) in *. assert (Hn9 : 9 <= n <= 973) by (unfold n; destruct (Z.geb_spec r 512); lia).
    rewrite Hu0. cbn [rbind]. rewrite <- Fu. destruct (three_ok n ltac:(lia)) as [H3 Hb3]. assert (H4 : zlen (three n ++ [u]) = 4) by (rewrite zlen_app, H3; done).
    rewrite (snprintf_four 0 buf fmt_units _ (three n ++ [u]) Hbuf); [|apply fmts_ok|rewrite <- Hu8 at 2; apply render_units; lia|done|apply Forall_app; split; [done|by apply Forall_singleton]].
    cbn [rbind Z.ltb Z.compare]. eexists. split; [done|]. split; [done|]. split; [lia|]. exists u. rewrite Z.add_simpl_r. split; [done|]. cbv zeta. rewrite HU. right. exists n. done.
Qed.

End Sizes.


(** ** Theorems *)

(** C7: For every format made of literal characters and of the conversions d, i, u, o, x,
    X, s, c and %, with flags, width, precision and size in any combination that the
    arguments fit, [apr_snprintf] writes into the buffer what the reference semantics
    says, cut after [len - 1] characters, and a terminator, and nothing else; it returns
    the number of characters, or [len - 1] if some are lost; with [len] 0 it only counts.
    The precision is at most 510 for the prefix 0x, and the number then not one of 64
    bits. *)
Theorem snprintf_prints P nb buf5 buf len is_ args text : macros_ok P -> zlen nb = 512 -> Forall item_ok is_ -> render is_ args = Some text -> bytes text -> zlen text < 2 ^ 31 -> 0 <= len <= zlen buf -> len < 2 ^ 31 ->
  apr_snprintf P nb buf5 buf len (format_text is_) args =
    Ok (if len =? 0 then buf else splice buf 0 (take (Z.to_nat (len - 1)) text ++ [0]), if (len =? 0) || (zlen text <? len) then zlen text else len - 1).
Proof. intros HP Hnb Hok Hr Hb Ht Hl Hlen. unfold apr_snprintf. cbn [snprintf_at]. by apply snprintf_with_prints. Qed.

(** A platform as those of 64 bits on Linux, without floating point. *)
Definition linux64 : platform :=
  {| off_t_fmt := str "ld"; int64_fmt := str "ld"; sizeof_tid := 8; double := Empty_set; isnan := fun _ => false; isinf := fun _ => false;
     conv_fp := fun _ _ _ _ => (false, []); apr_gcvt := fun _ _ _ => []; apr_strerror := fun _ => [] |}.

Lemma linux64_macros : macros_ok linux64.
Proof. assert (108 ∉ letters) by (unfold letters; set_solver). apply Forall_cons. split; [by right|]. apply Forall_singleton. by right. Qed.

Definition example_format : list item :=
  [Directive {| flag_chars := [43; 48]; width := Star; precision := None; modifier := Plain; conv := C_signed false |}; Literal 32;
   Directive {| flag_chars := [35]; width := Absent; precision := Some (Given 4); modifier := Short; conv := C_hex true |}].

Lemma snprintf_prints_witness : exists r, apr_snprintf linux64 (repeat 0 512) (repeat 0 5) (repeat 1 20) 10 (format_text example_format) [A_int 6; A_int 42; A_int 255] = Ok r.
Proof.
  assert (Hok : Forall item_ok example_format) by (repeat constructor; cbn; try lia; set_solver).
  assert (Hr : render (D := double linux64) example_format [A_int 6; A_int 42; A_int 255] = Some (str "+00042 0X00FF")) by (vm_compute; reflexivity).
  eexists. apply (snprintf_prints linux64 (repeat 0 512) (repeat 0 5) (repeat 1 20) 10 example_format _ _ linux64_macros eq_refl Hok Hr); [repeat constructor; unfold is_byte; lia|vm_compute; reflexivity|vm_compute; intuition congruence|lia].
Defined.

(** [apr_strfsize] fills its buffer of five characters with a text of four and a
    terminator for every size: "  - " for a negative one, the number of bytes below 973,
    and otherwise a number of units with the letter of the unit that is within about a
    twentieth of the unit (with a decimal) or half of it (without). *)
Theorem strfsize_four P nb buf5 size buf : macros_ok P -> zlen nb = 512 -> zlen buf = 5 -> - 2 ^ 63 <= size < 2 ^ 63 ->
  exists text, apr_strfsize P nb buf5 size buf = Ok (text ++ [0]) /\ zlen text = 4 /\
    (size < 0 -> text = str "  - ") /\ (0 <= size < 973 -> text = three size ++ [32]) /\ (973 <= size -> exists k, 1 <= k <= 6 /\ near size k text).
Proof.
  intros HP Hnb Hbuf Hs. unfold apr_strfsize, strfsize_with. destruct (Z.ltb_spec size 0); [|destruct (Z.ltb_spec size 973)].
  - exists (str "  - "). unfold blit. change (zlen (str "  - " ++ [0])) with 5. rewrite Hbuf. replace ((0 <=? 0) && (0 + 5 <=? 5)) with true by lia. unfold splice. change (zlen (str "  - " ++ [0])) with 5. cbn [Z.to_nat take app]. rewrite drop_ge by (unfold zlen in Hbuf; lia). rewrite app_nil_r. split; [done|]. split; [done|]. split; [done|]. split; lia.
  - destruct fmt_texts as (_ & _ & Fb). rewrite <- Fb. destruct (three_ok size ltac:(lia)) as [H3 Hb3]. assert (H4 : zlen (three size ++ [32]) = 4) by (rewrite zlen_app, H3; done).
    rewrite (snprintf_four P nb buf5 Hnb HP 0 buf fmt_bytes _ (three size ++ [32]) Hbuf); [|apply fmts_ok|apply render_bytes; lia|done|apply Forall_app; split; [done|apply Forall_singleton; unfold is_byte; lia]].
    cbn [rbind Z.ltb Z.compare]. eexists. split; [done|]. split; [done|]. split; [lia|]. split; [done|lia].
  - destruct (strfsize_loop_ok P nb buf5 Hnb HP buf size Hbuf ltac:(lia) 7 0 size) as (k & text & E & H4 & Hk & Hn); [lia|lia|by rewrite Z.pow_0_r, Z.div_1_r|lia|]. exists text. split; [done|]. split; [done|]. split; [lia|]. split; [lia|]. eauto.
Qed.

Lemma strfsize_four_witness : exists text, apr_strfsize linux64 (repeat 0 512) (repeat 0 5) 1500 (repeat 1 5) = Ok (text ++ [0]) /\ zlen text = 4.
Proof. destruct (strfsize_four linux64 (repeat 0 512) (repeat 0 5) 1500 (repeat 1 5) linux64_macros eq_refl eq_refl ltac:(lia)) as (text & H1 & H2 & _). exists text. exact (conj H1 H2). Defined.

(** ** Where the code departs from what it means *)

Definition formatted (fmt : string) (args : list (arg (double linux64))) : res (list Z * Z) :=
  do (m, n) <- apr_snprintf linux64 (repeat 0 512) (repeat 0 5) (repeat 0 20) 20 (str fmt) args; Ok (cstr m, n).

(** The flag 0 pads with zeros on the right of a number that is moved to the left. *)
Lemma zeros_on_the_right : formatted "%-05d" [A_int 12] = Ok (str "12000", 5).
Proof. vm_compute. reflexivity. Qed.

(** It pads before the prefix of a hexadecimal number. *)
Lemma zeros_before_prefix : formatted "%#08x" [A_int 255] = Ok (str "00000xff", 8).
Proof. vm_compute. reflexivity. Qed.

(** The prefix of a number of 64 bits depends on the last one of 32 bits. *)
Lemma prefix_of_another : formatted "%#lx" [A_quad 255] = Ok (str "ff", 2) /\ formatted "%#x %#lx" [A_int 1; A_quad 0] = Ok (str "0x1 0x0", 7).
Proof. vm_compute. done. Qed.

(** A precision of 511 and a prefix write before the buffer, and so does a precision of
    [2 ^ 64 - 1]. *)
Lemma before_the_buffer : formatted "%#.511x" [A_int 255] = Err OutOfBounds /\ formatted "%.18446744073709551615d" [A_int 255] = Err OutOfBounds.
Proof. vm_compute. done. Qed.
