(* ===== verification/AprInet.v ===== *)
(** * Internet addresses: [src/apr/network_io/unix/inet_ntop.c], [inet_pton.c]

    [apr_inet_ntop] and [apr_inet_pton] for both families. The text of an address is
    read from and written to byte buffers; [apr_inet_ntop] prints words with
    [apr_snprintf]. *)

From S2P Require Import Prelude AprNumber AprFormat AprPrintf AprSnprintf.

Definition INADDRSZ : Z := 4.
Definition IN6ADDRSZ : Z := 16.
Definition INT16SZ : Z := 2.

Inductive family := AF_INET | AF_INET6 | AF_OTHER.

(** ** inet_ntop.c *)

(** One byte in decimal and a dot at [next]. *)
Definition put_octet (dst : list Z) (next u : Z) : res (list Z * Z) :=
  do (dst, next, u) <-
    (if u >? 99 then
       do (dst, next) <- emit dst next (48 + u / 100);
       let u := u mod 100 in
       do (dst, next) <- emit dst next (48 + u / 10);
       Ok (dst, next, u mod 10)
     else if u >? 9 then
       do (dst, next) <- emit dst next (48 + u / 10);
       Ok (dst, next, u mod 10)
     else Ok (dst, next, u));
  do (dst, next) <- emit dst next (48 + u);
  emit dst next 46.

Fixpoint ntop4_loop (fuel : nat) (src : list Z) (p : Z) (dst : list Z) (next : Z) : res (list Z * Z) :=
  match fuel with
  | O => Ok (dst, next)
  | S fuel => do u <- rd src p; do (dst, next) <- put_octet dst next u; ntop4_loop fuel src (p + 1) dst next
  end.

(** [src + p], [dst + d]; [None] is NULL with ENOSPC. *)
Definition inet_ntop4 (src : list Z) (p : Z) (dst : list Z) (d size : Z) : res (option (list Z)) :=
  if size <? 16 then Ok None else
  do (dst, next) <- ntop4_loop 4 src p dst d;
  do dst <- wr dst (next - 1) 0;
  Ok (Some dst).

(** [struct { int base, len; }] *)
Record run := { base : Z; len : Z }.

(** The runs after one more word at [i]: [best] and [cur]. *)
Definition run_step (i next_word : Z) (best cur : run) : run * run :=
  if next_word =? 0 then
    (best, if base cur =? -1 then {| base := i; len := 1 |} else {| base := base cur; len := len cur + 1 |})
  else if negb (base cur =? -1) then
    (if (base best =? -1) || (len cur >? len best) then cur else best, {| base := -1; len := len cur |})
  else (best, cur).

(** The loop over the words, of which [fuel] are left. *)
Fixpoint words_loop (fuel : nat) (src : list Z) (p i : Z) (words : list Z) (best cur : run) : res (list Z * run * run) :=
  match fuel with
  | O => Ok (words, best, cur)
  | S fuel =>
      do hi <- rd src p;
      do lo <- rd src (p + 1);
      let next_word := Z.lor (Z.shiftl hi 8) lo in
      let '(best, cur) := run_step i next_word best cur in
      words_loop fuel src (p + 2) (i + 1) (words ++ [next_word]) best cur
  end.

(** The run that is abbreviated. *)
Definition best_run (best cur : run) : run :=
  let best := if negb (base cur =? -1) && ((base best =? -1) || (len cur >? len best)) then cur else best in
  if negb (base best =? -1) && (len best <? 2) then {| base := -1; len := len best |} else best.

Section Ntop.
  Context (P : platform) (num_buf buf5 tmp0 : list Z).

(** [apr_snprintf(m + o, size, "%x", w)] *)
Definition snprintf_x (m : list Z) (o size w : Z) : res (list Z * Z) :=
  check (0 <=? o) && (o <=? zlen m) else OutOfBounds;
  do (b, n) <- apr_snprintf P num_buf buf5 (drop (Z.to_nat o) m) size (str "%x") [A_int w];
  Ok (take (Z.to_nat o) m ++ b, n).

(** [for (i = 0; i < (IN6ADDRSZ / INT16SZ);)]: [tmp] and [tp]; [None] if [inet_ntop4]
    fails. *)
Fixpoint ntop6_loop (fuel : nat) (src words : list Z) (best : run) (tmp : list Z) (tp i : Z) : res (option (list Z * Z)) :=
  match fuel with
  | O => Err OutOfFuel
  | S fuel =>
      if i <? 8 then
        if i =? base best then
          do (tmp, tp) <- emit tmp tp 58;
          ntop6_loop fuel src words best tmp tp (i + len best)
        else
          do (tmp, tp) <- (if negb (i =? 0) then emit tmp tp 58 else Ok (tmp, tp));
          do w5 <- rd words 5;
          if (i =? 6) && (base best =? 0) && ((len best =? 6) || (len best =? 5) && (w5 =? 0xffff)) then
            do r <- inet_ntop4 src 12 tmp tp (zlen tmp - tp);
            match r with
            | None => Ok None
            | Some tmp => do n <- strlen tmp tp; Ok (Some (tmp, tp + n))
            end
          else
            do w <- rd words i;
            do (tmp, n) <- snprintf_x tmp tp (zlen tmp - tp) w;
            ntop6_loop fuel src words best tmp (tp + n) (i + 1)
      else Ok (Some (tmp, tp))
  end.

(** [strcpy(dst + d, src)] *)
Definition strcpy (dst : list Z) (d : Z) (src : list Z) : res (list Z) :=
  do n <- strlen src 0; do t <- sub src 0 (n + 1); blit dst d t.

(** [tmp0] is what [tmp] holds at first, 46 bytes. *)
Definition inet_ntop6 (src dst : list Z) (size : Z) : res (option (list Z)) :=
  do (words, best, cur) <- words_loop 8 src 0 0 [] {| base := -1; len := 0 |} {| base := -1; len := 0 |};
  let best := best_run best cur in
  do r <- ntop6_loop 9 src words best tmp0 0 0;
  match r with
  | None => Ok None
  | Some (tmp, tp) =>
      do (tmp, tp) <- (if negb (base best =? -1) && (base best + len best =? 8) then emit tmp tp 58 else Ok (tmp, tp));
      do (tmp, tp) <- emit tmp tp 0;
      if tp >? size then Ok None else do dst <- strcpy dst 0 tmp; Ok (Some dst)
  end.

(** [None] is NULL, with ENOSPC or EAFNOSUPPORT. *)
Definition apr_inet_ntop (af : family) (src dst : list Z) (size : Z) : res (option (list Z)) :=
  match af with
  | AF_INET => inet_ntop4 src 0 dst 0 size
  | AF_INET6 => inet_ntop6 src dst size
  | AF_OTHER => Ok None
  end.

End Ntop.

(** ** inet_pton.c *)

(** [strchr(s, c) - s] *)
Fixpoint strchr (s : list Z) (c : Z) : option Z :=
  match s with
  | [] => None
  | x :: s => if x =? c then Some 0 else i ← strchr s c; Some (i + 1)
  end.

Definition digits : list Z := str "0123456789".
Definition xdigits_l : list Z := str "0123456789abcdef".
Definition xdigits_u : list Z := str "0123456789ABCDEF".

(** [None] is [return (0)]. *)
Fixpoint pton4_loop (fuel : nat) (m : list Z) (src : Z) (tmp : list Z) (tp : Z) (saw_digit : bool) (octets : Z) : res (option (list Z)) :=
  match fuel with
  | O => Err OutOfFuel
  | S fuel =>
      do ch <- rd m src;
      if ch =? 0 then if octets <? 4 then Ok None else Ok (Some tmp)
      else
        match strchr digits ch with
        | Some d =>
            do x <- rd tmp tp;
            let new := x * 10 + d in
            if new >? 255 then Ok None else
            do tmp <- wr tmp tp new;
            if negb saw_digit then
              let octets := octets + 1 in
              if octets >? 4 then Ok None else pton4_loop fuel m (src + 1) tmp tp true octets
            else pton4_loop fuel m (src + 1) tmp tp saw_digit octets
        | None =>
            if (ch =? 46) && saw_digit then
              if octets =? 4 then Ok None else
              do tmp <- wr tmp (tp + 1) 0;
              pton4_loop fuel m (src + 1) tmp (tp + 1) false octets
            else Ok None
        end
  end.

(** The result and the destination; [tmp0] is what [tmp] holds at first. *)
Definition inet_pton4 (tmp0 m : list Z) (src : Z) (dst : list Z) (d : Z) : res (Z * list Z) :=
  do tmp <- wr tmp0 0 0;
  do r <- pton4_loop (S (length m)) m src tmp 0 false 0;
  match r with
  | None => Ok (0, dst)
  | Some tmp => do dst <- blit dst d tmp; Ok (1, dst)
  end.

(** The state of the loop of [inet_pton6]. *)
Record state6 := { s_tmp : list Z; s_tp : Z; s_colonp : option Z; s_saw : bool; s_val : Z }.

(** The two bytes of a word at [tp]. *)
Definition store_word (tmp : list Z) (tp val : Z) : res (list Z * Z) :=
  do (tmp, tp) <- emit tmp tp (Z.land (u8 (Z.shiftr val 8)) 0xff);
  emit tmp tp (Z.land (u8 val) 0xff).

Definition xdigit_index (ch : Z) : option Z :=
  match strchr xdigits_l ch with Some i => Some i | None => strchr xdigits_u ch end.

Fixpoint pton6_loop (fuel : nat) (tmp4 m : list Z) (src curtok : Z) (s : state6) : res (option state6) :=
  match fuel with
  | O => Err OutOfFuel
  | S fuel =>
      do ch <- rd m src;
      let src := src + 1 in
      if ch =? 0 then Ok (Some s)
      else
        match xdigit_index ch with
        | Some i =>
            let val := Z.lor (Z.shiftl (s_val s) 4) i in
            if val >? 0xffff then Ok None
            else pton6_loop fuel tmp4 m src curtok {| s_tmp := s_tmp s; s_tp := s_tp s; s_colonp := s_colonp s; s_saw := true; s_val := val |}
        | None =>
            if ch =? 58 then
              let curtok := src in
              if negb (s_saw s) then
                if s_colonp s then Ok None
                else pton6_loop fuel tmp4 m src curtok {| s_tmp := s_tmp s; s_tp := s_tp s; s_colonp := Some (s_tp s); s_saw := s_saw s; s_val := s_val s |}
              else if s_tp s + INT16SZ >? IN6ADDRSZ then Ok None
              else
                do (tmp, tp) <- store_word (s_tmp s) (s_tp s) (s_val s);
                pton6_loop fuel tmp4 m src curtok {| s_tmp := tmp; s_tp := tp; s_colonp := s_colonp s; s_saw := false; s_val := 0 |}
            else if (ch =? 46) && (s_tp s + INADDRSZ <=? IN6ADDRSZ) then
              do (r, tmp) <- inet_pton4 tmp4 m curtok (s_tmp s) (s_tp s);
              if r >? 0 then Ok (Some {| s_tmp := tmp; s_tp := s_tp s + INADDRSZ; s_colonp := s_colonp s; s_saw := false; s_val := s_val s |})
              else Ok None
            else Ok None
        end
  end.

(** [for (i = 1; i <= n; i++) { endp[-i] = colonp[n - i]; colonp[n - i] = 0; }] *)
Fixpoint shift_loop (k : nat) (tmp : list Z) (colonp n i : Z) : res (list Z) :=
  match k with
  | O => Ok tmp
  | S k =>
      do c <- rd tmp (colonp + (n - i));
      do tmp <- wr tmp (IN6ADDRSZ - i) c;
      do tmp <- wr tmp (colonp + (n - i)) 0;
      shift_loop k tmp colonp n (i + 1)
  end.

(** The last word, if one has been read: [tmp] and [tp]. *)
Definition last_word (s : state6) : res (option (list Z * Z)) :=
  if s_saw s then
    if s_tp s + INT16SZ >? IN6ADDRSZ then Ok None
    else do (tmp, tp) <- store_word (s_tmp s) (s_tp s) (s_val s); Ok (Some (tmp, tp))
  else Ok (Some (s_tmp s, s_tp s)).

(** After the loop: the address, if there is one. *)
Definition pton6_finish (s : state6) : res (option (list Z)) :=
  do r <- last_word s;
  match r with
  | None => Ok None
  | Some (tmp, tp) =>
      do (tmp, tp) <-
        match s_colonp s with
        | Some colonp => do tmp <- shift_loop (Z.to_nat (tp - colonp)) tmp colonp (tp - colonp) 1; Ok (tmp, IN6ADDRSZ)
        | None => Ok (tmp, tp)
        end;
      Ok (if tp =? IN6ADDRSZ then Some tmp else None)
  end.

Definition inet_pton6 (tmp4 m : list Z) (src : Z) (dst : list Z) : res (Z * list Z) :=
  do c <- rd m src;
  do start <- (if c =? 58 then do c <- rd m (src + 1); Ok (if c =? 58 then Some (src + 1) else None) else Ok (Some src));
  match start with
  | None => Ok (0, dst)
  | Some src =>
      do r <- pton6_loop (S (length m)) tmp4 m src src {| s_tmp := repeat 0 16; s_tp := 0; s_colonp := None; s_saw := false; s_val := 0 |};
      match r with
      | None => Ok (0, dst)
      | Some s =>
          do r <- pton6_finish s;
          match r with
          | None => Ok (0, dst)
          | Some tmp => do dst <- blit dst 0 tmp; Ok (1, dst)
          end
      end
  end.

(** [tmp4] is what the buffer of [inet_pton4] holds at first. *)
Definition apr_inet_pton (tmp4 : list Z) (af : family) (m : list Z) (src : Z) (dst : list Z) : res (Z * list Z) :=
  match af with
  | AF_INET => inet_pton4 tmp4 m src dst 0
  | AF_INET6 => inet_pton6 tmp4 m src dst
  | AF_OTHER => Ok (-1, dst)
  end.
