(* ===== verification/AprInet4.v ===== *)
(** * IPv4 addresses as text

    What [inet_ntop4] writes, and that [inet_pton4] accepts exactly the dotted quads. *)

From S2P Require Import Prelude AprNumber AprFormat AprPrintf AprSnprintf AprInet.

(** ** inet_ntop4 *)

Lemma emit_behind m d t v : 0 <= d -> d + zlen t < zlen m -> is_byte v -> emit (splice m d t) (d + zlen t) v = Ok (splice m d (t ++ [v]), d + zlen (t ++ [v])).
Proof.
  intros Hd Hl Hv. pose proof (zlen_nonneg t). unfold emit. rewrite wr_blit by (rewrite zlen_splice; lia). rewrite u8_byte by done. cbn [rbind]. rewrite splice_splice by (change (zlen [v]) with 1; lia). rewrite zlen_app. change (zlen [v]) with 1. do 2 f_equal. lia.
Qed.

(** The digits of a byte as the code picks them. *)
Lemma dec_text_byte u : is_byte u ->
  dec_text u = if u >? 99 then [48 + u / 100; 48 + u mod 100 / 10; 48 + u mod 100 mod 10] else if u >? 9 then [48 + u / 10; 48 + u mod 10] else [48 + u].
Proof.
  intros Hu. revert u Hu. unfold is_byte. change 256 with (Z.of_nat 256).
  apply (forall_below (fun u => dec_text u = if u >? 99 then [48 + u / 100; 48 + u mod 100 / 10; 48 + u mod 100 mod 10] else if u >? 9 then [48 + u / 10; 48 + u mod 10] else [48 + u])). vm_compute. reflexivity.
Qed.

Lemma octet_len u : is_byte u -> 1 <= zlen (dec_text u) <= 3.
Proof. intros Hu. rewrite dec_text_byte by done. destruct (u >? 99), (u >? 9); unfold zlen; cbn [length]; lia. Qed.

Lemma put_octet_ok m d t u : 0 <= d -> d + zlen t + zlen (dec_text u) < zlen m -> is_byte u ->
  put_octet (splice m d t) (d + zlen t) u = Ok (splice m d (t ++ dec_text u ++ [46]), d + zlen (t ++ dec_text u ++ [46])).
Proof.
  intros Hd Hl Hu. pose proof Hu as Hu'. rewrite dec_text_byte in * by done. unfold is_byte in Hu'. unfold put_octet.
  assert (Hq : 0 <= u / 100 <= 2 /\ 0 <= u mod 100 / 10 <= 9 /\ 0 <= u mod 100 mod 10 <= 9 /\ 0 <= u mod 10 <= 9) by (Z.div_mod_to_equations; lia).
  destruct (Z.gtb_spec u 99); [|destruct (Z.gtb_spec u 9)]; unfold zlen at 2 in Hl; cbn [length] in Hl.
  - do 2 (rewrite emit_behind; [|done|rewrite ?zlen_app; change (zlen [_]) with 1; lia|unfold is_byte; lia]; cbn [rbind]).
    do 2 (rewrite emit_behind; [|done|rewrite ?zlen_app; change (zlen [_]) with 1; lia|unfold is_byte; lia]; cbn [rbind]). by rewrite <- !app_assoc.
  - assert (0 <= u / 10 <= 9) by (Z.div_mod_to_equations; lia). rewrite emit_behind; [|done|lia|unfold is_byte; lia]. cbn [rbind].
    do 2 (rewrite emit_behind; [|done|rewrite ?zlen_app; change (zlen [_]) with 1; lia|unfold is_byte; lia]; cbn [rbind]). by rewrite <- !app_assoc.
  - cbn [rbind]. do 2 (rewrite emit_behind; [|done|rewrite ?zlen_app; change (zlen [_]) with 1; lia|unfold is_byte; lia]; cbn [rbind]). by rewrite <- !app_assoc.
Qed.

Lemma inet_ntop4_ok src p dst d size a b c e : has_bytes src p [a; b; c; e] -> bytes [a; b; c; e] -> 16 <= size -> 0 <= d -> d + 16 <= zlen dst ->
  inet_ntop4 src p dst d size = Ok (Some (splice dst d (dotted a b c e ++ [0]))).
Proof.
  intros Hs Hb Hsz Hd Hl. apply Forall_cons in Hb as [Ha Hb]. apply Forall_cons in Hb as [Hb Hc]. apply Forall_cons in Hc as [Hc He]. apply Forall_cons in He as [He _].
  pose proof (octet_len a Ha). pose proof (octet_len b Hb). pose proof (octet_len c Hc). pose proof (octet_len e He).
  pose proof (has_bytes_rd _ _ _ _ Hs) as R1. apply has_bytes_cons in Hs as [_ Hs]. pose proof (has_bytes_rd _ _ _ _ Hs) as R2. apply has_bytes_cons in Hs as [_ Hs]. pose proof (has_bytes_rd _ _ _ _ Hs) as R3. apply has_bytes_cons in Hs as [_ Hs]. pose proof (has_bytes_rd _ _ _ _ Hs) as R4.
  unfold inet_ntop4. replace (size <? 16) with false by lia. cbn [ntop4_loop]. rewrite R1, R2, R3, R4. cbn [rbind].
  rewrite <- (splice_nil dst d) at 1 by lia. replace d with (d + zlen (@nil Z)) at 2 by (rewrite zlen_nil; lia).
  do 4 (rewrite put_octet_ok; [|done|repeat (rewrite zlen_app || rewrite zlen_nil || change (zlen [46]) with 1); lia|done]; cbn [rbind]). cbn [app].
  set (t := ((dec_text a ++ [46]) ++ dec_text b ++ [46]) ++ dec_text c ++ [46]). assert (Ht : t ++ dec_text e = dotted a b c e) by (unfold t, dotted; rewrite <- !app_assoc; done).
  rewrite (app_assoc t), Ht. pose proof (dotted_len a b c e) as Hdl. rewrite zlen_app. change (zlen [46]) with 1. replace (d + (zlen (dotted a b c e) + 1) - 1) with (d + zlen (dotted a b c e)) by lia.
  rewrite wr_blit by (rewrite zlen_splice; rewrite ?zlen_app; change (zlen [46]) with 1; lia). cbn [rbind]. change (u8 0) with 0. rewrite splice_tail by (change (zlen [46]) with 1; change (zlen [0]) with 1; lia). done.
Qed.

Lemma dotted_nz a b c e : bytes [a; b; c; e] -> 0 ∉ dotted a b c e.
Proof.
  intros Hb. apply Forall_cons in Hb as [Ha Hb]. apply Forall_cons in Hb as [Hb Hc]. apply Forall_cons in Hc as [Hc He]. apply Forall_cons in He as [He _]. assert (Hn : forall x, is_byte x -> 0 ∉ dec_text x) by (intros x Hx; apply dec_text_nz; unfold is_byte in Hx; lia).
  pose proof (Hn a Ha). pose proof (Hn b Hb). pose proof (Hn c Hc). pose proof (Hn e He). unfold dotted. set_solver.
Qed.

Lemma dotted_bound a b c e : bytes [a; b; c; e] -> 7 <= zlen (dotted a b c e) <= 15.
Proof.
  intros Hb. apply Forall_cons in Hb as [Ha Hb]. apply Forall_cons in Hb as [Hb Hc]. apply Forall_cons in Hc as [Hc He]. apply Forall_cons in He as [He _]. rewrite dotted_len. pose proof (octet_len a Ha). pose proof (octet_len b Hb). pose proof (octet_len c Hc). pose proof (octet_len e He). lia.
Qed.

(** ** inet_pton4 *)

(** The values of the octets of a text: [dots] are still to come, [cur] is the value of
    the current octet and [saw] says whether it has a digit. *)
Fixpoint quad (t : list Z) (dots : nat) (cur : Z) (saw : bool) : option (list Z) :=
  match t with
  | [] => match dots with O => if saw then Some [cur] else None | S _ => None end
  | c :: t =>
      if is_digit c then if cur * 10 + (c - 48) >? 255 then None else quad t dots (cur * 10 + (c - 48)) true
      else if (c =? 46) && saw then match dots with O => None | S dots => vs ← quad t dots 0 false; Some (cur :: vs) end
      else None
  end.

Lemma strchr_digits c : is_byte c -> strchr digits c = if is_digit c then Some (c - 48) else None.
Proof.
  intros Hc. revert c Hc. unfold is_byte. change 256 with (Z.of_nat 256). apply (forall_below (fun c => strchr digits c = if is_digit c then Some (c - 48) else None)). vm_compute. reflexivity.
Qed.

(** The loop computes it: [vs] are the octets that are complete. *)
Lemma pton4_loop_quad m t : bytes m -> forall src vs cur saw dots fuel tmp, points m src t -> (length t < fuel)%nat -> (length vs + dots = 3)%nat -> (exists post, tmp = vs ++ cur :: post) -> zlen tmp = 4 -> (saw = false -> cur = 0) -> 0 <= cur <= 255 ->
  pton4_loop fuel m src tmp (zlen vs) saw (zlen vs + if saw then 1 else 0) = Ok (ws ← quad t dots cur saw; Some (vs ++ ws)).
Proof.
  intros Hm. induction t as [|c t IH]; intros src vs cur saw dots fuel tmp Hp Hf Hd (post & ->) Hl Hs Hcur; (destruct fuel as [|fuel]; [cbn in Hf; lia|]); cbn [pton4_loop quad].
  - rewrite (points_rd _ _ _ Hp). cbn [hd rbind Z.eqb]. destruct dots as [|dots].
    + destruct saw; cbn.
      * replace (zlen vs + 1 <? 4) with false by (unfold zlen; lia). destruct post as [|x post]; [done|]. rewrite zlen_app, !zlen_cons in Hl. pose proof (zlen_nonneg post). unfold zlen in *. lia.
      * by replace (zlen vs + 0 <? 4) with true by (unfold zlen; lia).
    + by replace (zlen vs + (if saw then 1 else 0) <? 4) with true by (unfold zlen; destruct saw; lia).
  - rewrite (points_rd _ _ _ Hp). cbn [hd rbind]. pose proof (points_nz _ _ _ _ Hp) as Hnz. replace (c =? 0) with false by lia. pose proof (points_next _ _ _ _ Hp) as Hp'. cbn [length] in Hf.
    assert (Hc : is_byte c) by (pose proof (points_bytes _ _ _ Hp Hm) as H; by apply Forall_cons in H as [H _]). rewrite strchr_digits by done. destruct (is_digit c) eqn:Ed.
    + rewrite rd_app_0, rd_cons_0. cbn [rbind]. destruct (Z.gtb_spec (cur * 10 + (c - 48)) 255); [done|]. unfold is_digit in Ed. assert (Hnew : 0 <= cur * 10 + (c - 48)) by lia. rewrite wr_app, u8_byte by (unfold is_byte; lia). cbn [rbind].
      assert (Hl' : zlen (vs ++ (cur * 10 + (c - 48)) :: post) = 4) by (rewrite zlen_app, zlen_cons in *; lia). assert (Hv : zlen vs <= 3) by (unfold zlen; lia).
      specialize (IH (src + 1) vs (cur * 10 + (c - 48)) true dots fuel (vs ++ (cur * 10 + (c - 48)) :: post) Hp' ltac:(lia) Hd ltac:(eauto) Hl' ltac:(done) ltac:(lia)). cbn iota in IH.
      destruct saw; cbn [negb]; [exact IH|]. rewrite Z.add_0_r. replace (zlen vs + 1 >? 4) with false by lia. exact IH.
    + destruct ((c =? 46) && saw) eqn:Edot; [|done]. assert (saw = true) as -> by (by destruct saw; [|rewrite andb_false_r in Edot]). destruct dots as [|dots].
      * by replace (zlen vs + 1 =? 4) with true by (unfold zlen; lia).
      * replace (zlen vs + 1 =? 4) with false by (unfold zlen; lia). destruct post as [|x post]; [rewrite zlen_app, zlen_cons, zlen_nil in Hl; unfold zlen in *; lia|].
        replace (vs ++ cur :: x :: post) with ((vs ++ [cur]) ++ x :: post) in * by (by rewrite <- app_assoc). assert (Hv1 : zlen (vs ++ [cur]) = zlen vs + 1) by (rewrite zlen_app; done). rewrite <- Hv1. rewrite wr_app. change (u8 0) with 0. cbn [rbind].
        assert (Hl' : zlen ((vs ++ [cur]) ++ 0 :: post) = 4) by (rewrite zlen_app, zlen_cons in *; lia).
        specialize (IH (src + 1) (vs ++ [cur]) 0 false dots fuel _ Hp' ltac:(lia) ltac:(rewrite length_app; cbn; lia) ltac:(eauto) Hl' ltac:(done) ltac:(lia)). rewrite Z.add_0_r in IH. rewrite IH. destruct (quad t dots 0 false); [|done]. cbn. by rewrite <- app_assoc.
Qed.

(** The texts that have these octets: digits with values up to 255 and dots between
    them. *)
Fixpoint quad_text (dots : nat) (cur : Z) (saw : bool) (t vs : list Z) : Prop :=
  exists o, Forall (fun c => is_digit c = true) o /\ (saw = true \/ o <> []) /\ let v := value 10 cur (map (fun c => c - 48) o) in v <= 255 /\
    match dots with
    | O => t = o /\ vs = [v]
    | S dots => exists t' vs', t = o ++ 46 :: t' /\ vs = v :: vs' /\ quad_text dots 0 false t' vs'
    end.

Lemma quad_text_cons c t dots cur saw vs : is_digit c = true -> quad_text dots cur saw (c :: t) vs <-> quad_text dots (cur * 10 + (c - 48)) true t vs.
Proof.
  intros Hc. split.
  - intros H. destruct dots as [|dots]; cbn [quad_text] in *; destruct H as (o & Ho & Hs & Hv & H).
    + destruct H as [<- ->]. inversion_clear Ho as [|? ? _ Ho']. exists t. split; [done|]. split; [by left|]. done.
    + destruct H as (t' & vs' & Et & -> & H). destruct o as [|x o]; cbn [app] in Et; [injection Et as -> ->; done|]. injection Et as <- ->. inversion_clear Ho as [|? ? _ Ho']. exists o. split; [done|]. split; [by left|]. split; [done|]. exists t', vs'. done.
  - intros H. destruct dots as [|dots]; cbn [quad_text] in *; destruct H as (o & Ho & Hs & Hv & H); (exists (c :: o); split; [by constructor|]; split; [by right|]; split; [done|]).
    + by destruct H as [-> ->].
    + destruct H as (t' & vs' & -> & -> & H). exists t', vs'. done.
Qed.

Lemma quad_text_bound dots cur saw t vs : 0 <= cur -> quad_text dots cur saw t vs -> cur <= 255.
Proof.
  intros Hc H. assert (Hb : exists o, Forall (fun c => is_digit c = true) o /\ value 10 cur (map (fun c => c - 48) o) <= 255) by (destruct dots; cbn [quad_text] in H; destruct H as (o & Ho & _ & Hv & _); eauto). destruct Hb as (o & Ho & Hv).
  pose proof (value_ge 10 cur (map (fun c => c - 48) o) ltac:(lia) Hc) as H'. etrans; [apply H'|done]. rewrite list.Forall_fmap. eapply Forall_impl; [exact Ho|]. intros c Hd. unfold compose, is_digit in *. cbn beta in *. lia.
Qed.

Lemma quad_spec t : forall dots cur saw vs, 0 <= cur <= 255 -> quad t dots cur saw = Some vs <-> quad_text dots cur saw t vs.
Proof.
  induction t as [|c t IH]; intros dots cur saw vs Hcur; cbn [quad].
  - destruct dots as [|dots]; cbn [quad_text]; split.
    + destruct saw; [|done]. intros [= <-]. exists []. split; [done|]. split; [by left|]. split; [cbn; lia|done].
    + intros (o & _ & Hs & _ & <- & ->). by destruct Hs as [-> | Hs].
    + done.
    + intros (o & _ & _ & _ & t' & vs' & Et & _). by destruct o.
  - destruct (is_digit c) eqn:Ed.
    + rewrite quad_text_cons by done. pose proof Ed as Ed'. unfold is_digit in Ed'. destruct (Z.gtb_spec (cur * 10 + (c - 48)) 255); [|apply IH; lia]. split; [done|]. intros H'. apply quad_text_bound in H'; lia.
    + assert (Hno : forall o r, Forall (fun c => is_digit c = true) o -> o ++ r = c :: t -> o = []) by (intros [|x o] r Ho E; [done|]; injection E as E1 _; inversion_clear Ho; congruence).
      destruct ((c =? 46) && saw) eqn:Edot.
      * assert (saw = true /\ c = 46) as [-> ->] by (destruct saw; lia). destruct dots as [|dots]; cbn [quad_text].
        -- split; [done|]. intros (o & Ho & _ & _ & Et & _). rewrite (Hno o [] Ho) in Et; [done|by rewrite app_nil_r].
        -- split.
           ++ destruct (quad t dots 0 false) as [vs'|] eqn:Eq; [|done]. intros [= <-]. apply IH in Eq; [|lia]. exists []. split; [done|]. split; [by left|]. split; [cbn; lia|]. exists t, vs'. done.
           ++ intros (o & Ho & _ & _ & t' & vs' & Et & -> & H). pose proof (Hno o _ Ho (eq_sym Et)) as ->. injection Et as <-. apply IH in H; [|lia]. rewrite H. done.
      * split; [done|]. intros H. exfalso. destruct dots as [|dots]; cbn [quad_text] in H.
        -- destruct H as (o & Ho & Hs & _ & Et & _). rewrite (Hno o [] Ho) in Et; [done|by rewrite app_nil_r].
        -- destruct H as (o & Ho & Hs & _ & t' & vs' & Et & _). pose proof (Hno o _ Ho (eq_sym Et)) as ->. injection Et as -> ->. destruct Hs as [-> | Hs]; done.
Qed.

Lemma quad_text_len dots : forall cur saw t vs, quad_text dots cur saw t vs -> length vs = S dots.
Proof. induction dots as [|dots IH]; intros cur saw t vs (o & _ & _ & _ & H); [by destruct H as [_ ->]|]. destruct H as (t' & vs' & _ & -> & H). cbn. f_equal. by eapply IH. Qed.

(** What [inet_pton4] does with a text. *)
Lemma inet_pton4_ok tmp0 m src t dst d : zlen tmp0 = 4 -> bytes m -> points m src t -> 0 <= d -> d + 4 <= zlen dst ->
  inet_pton4 tmp0 m src dst d = Ok (match quad t 3 0 false with Some vs => (1, splice dst d vs) | None => (0, dst) end).
Proof.
  intros Htmp Hm Hp Hd Hl. pose proof (points_len _ _ _ Hp) as [Hs Hlen]. unfold inet_pton4. destruct tmp0 as [|x tmp0]; [done|]. pose proof (wr_app [] x tmp0 0) as E. change (zlen (@nil Z)) with 0 in E. cbn [app] in E. rewrite E. change (u8 0) with 0. cbn [rbind].
  pose proof (pton4_loop_quad m t Hm src [] 0 false 3 (S (length m)) (0 :: tmp0) Hp) as H. change (zlen (@nil Z)) with 0 in H. cbn [app] in H. rewrite Z.add_0_r in H. rewrite H; [|unfold zlen in *; lia|done|eauto|rewrite zlen_cons in *; lia|done|lia]. cbn [rbind].
  destruct (quad t 3 0 false) as [vs|] eqn:Eq; cbn [mbind option_bind]; [|done]. apply quad_spec in Eq; [|lia]. apply quad_text_len in Eq. rewrite blit_ok by (unfold zlen in *; lia). done.
Qed.

Lemma octet_text a : is_byte a -> Forall (fun c => is_digit c = true) (dec_text a) /\ dec_text a <> [] /\ value 10 0 (map (fun c => c - 48) (dec_text a)) = a.
Proof.
  intros Ha. unfold is_byte in Ha. destruct (numeral_ok 10 a ltac:(lia) ltac:(lia)) as [Hv Hd]. destruct (dec_text_first a ltac:(lia)) as (_ & _ & Hne). unfold dec_text in *. split; [|split; [done|]].
  - rewrite list.Forall_fmap. eapply Forall_impl; [exact Hd|]. intros d Hd'. unfold compose, is_digit. cbn beta in *. lia.
  - rewrite map_map. rewrite <- Hv at 2. f_equal. rewrite <- (map_id (numeral 10 a)) at 2. apply map_ext. intros d. lia.
Qed.

Lemma quad_dotted a b c e : bytes [a; b; c; e] -> quad (dotted a b c e) 3 0 false = Some [a; b; c; e].
Proof.
  intros Hb. apply Forall_cons in Hb as [Ha Hb]. apply Forall_cons in Hb as [Hb Hc]. apply Forall_cons in Hc as [Hc He]. apply Forall_cons in He as [He _]. apply quad_spec; [lia|].
  assert (Hstep : forall x, is_byte x -> exists o, Forall (fun c => is_digit c = true) o /\ (false = true \/ o <> []) /\ value 10 0 (map (fun c => c - 48) o) <= 255 /\ o = dec_text x /\ value 10 0 (map (fun c => c - 48) o) = x).
  { intros x Hx. destruct (octet_text x Hx) as (H1 & H2 & H3). exists (dec_text x). split; [done|]. split; [by right|]. unfold is_byte in Hx. split; [lia|done]. }
  destruct (Hstep a Ha) as (o1 & ? & ? & ? & -> & E1), (Hstep b Hb) as (o2 & ? & ? & ? & -> & E2), (Hstep c Hc) as (o3 & ? & ? & ? & -> & E3), (Hstep e He) as (o4 & ? & ? & ? & -> & E4).
  exists (dec_text a). do 3 (split; [done|]). eexists _, _. split; [reflexivity|]. rewrite E1. split; [reflexivity|]. exists (dec_text b). do 3 (split; [done|]). eexists _, _. split; [reflexivity|]. rewrite E2. split; [reflexivity|].
  exists (dec_text c). do 3 (split; [done|]). eexists _, _. split; [reflexivity|]. rewrite E3. split; [reflexivity|]. exists (dec_text e). do 3 (split; [done|]). rewrite E4. done.
Qed.
