(* ===== verification/AprInet6.v ===== *)
(** * IPv6 addresses as text

    Which run of zero words [inet_ntop6] abbreviates, the text it writes, and how
    [inet_pton6] reads it. *)

From S2P Require Import Prelude AprNumber AprFormat AprPrintf AprSnprintf AprInet AprInet4.

(** ** The run of zeros *)

(** The runs after the words [ws], of which the first has the number [i]. *)
Fixpoint runs (ws : list Z) (i : Z) (best cur : run) : run * run :=
  match ws with
  | [] => (best, cur)
  | w :: ws => let '(best, cur) := run_step i w best cur in runs ws (i + 1) best cur
  end.

Definition no_run : run := {| base := -1; len := 0 |}.

Definition best_of (ws : list Z) : run := let '(best, cur) := runs ws 0 no_run no_run in best_run best cur.

(** [l] words that are zero start at [b]. *)
Definition zeros_at (ws : list Z) (b l : Z) : bool :=
  (0 <=? b) && (b + l <=? zlen ws) && forallb (Z.eqb 0) (take (Z.to_nat l) (drop (Z.to_nat b) ws)).

(** The run is the first of the longest ones, and there is none only if no two zero
    words follow each other. *)
Definition best_check (ws : list Z) : bool :=
  let best := best_of ws in
  let all := map Z.of_nat (seq 0 9) in
  ((base best =? -1) || (2 <=? len best) && zeros_at ws (base best) (len best))
  && forallb (fun b => forallb (fun l => negb ((2 <=? l) && zeros_at ws b l) || negb (base best =? -1) && ((l <? len best) || (l =? len best) && (base best <=? b))) all) all.

(** All lists of [n] zeros and ones. *)
Fixpoint patterns (n : nat) : list (list Z) :=
  match n with O => [[]] | S n => concat (map (fun p => [0 :: p; 1 :: p]) (patterns n)) end.

Lemma patterns_checked : forallb best_check (patterns 8) = true.
Proof. vm_compute. reflexivity. Qed.

Definition bit_of (w : Z) : Z := if w =? 0 then 0 else 1.

Lemma in_patterns ws : map bit_of ws ∈ patterns (length ws).
Proof.
  induction ws as [|w ws IH]; cbn [map length patterns]; [by left|]. apply list_elem_of_In, in_concat. exists [0 :: map bit_of ws; 1 :: map bit_of ws]. split.
  - apply in_map_iff. exists (map bit_of ws). split; [done|]. by apply list_elem_of_In.
  - unfold bit_of at 1. destruct (w =? 0); [by left|by right; left].
Qed.

Lemma run_step_bit i w best cur : run_step i (bit_of w) best cur = run_step i w best cur.
Proof. unfold run_step, bit_of. by destruct (w =? 0) eqn:E; rewrite ?E. Qed.

Lemma runs_bits ws : forall i best cur, runs (map bit_of ws) i best cur = runs ws i best cur.
Proof. induction ws as [|w ws IH]; intros i best cur; cbn [runs map]; [done|]. rewrite run_step_bit. destruct (run_step i w best cur). apply IH. Qed.

Lemma zeros_bits ws b l : zeros_at (map bit_of ws) b l = zeros_at ws b l.
Proof.
  unfold zeros_at. rewrite zlen_map. f_equal. rewrite skipn_map, firstn_map. induction (take (Z.to_nat l) (drop (Z.to_nat b) ws)) as [|w ws' IH]; cbn [map forallb]; [done|]. rewrite IH. f_equal.
  unfold bit_of. by destruct w.
Qed.

Lemma forallb_same {A} (f g : A -> bool) l : (forall x, f x = g x) -> forallb f l = forallb g l.
Proof. intros H. induction l as [|x l IH]; cbn [forallb]; [done|]. by rewrite H, IH. Qed.

Lemma best_checked ws : length ws = 8%nat -> best_check ws = true.
Proof.
  intros Hl. pose proof (in_patterns ws) as H. rewrite Hl in H. apply list_elem_of_In in H. pose proof patterns_checked as C. rewrite forallb_forall in C. specialize (C _ H). unfold best_check, best_of in *. rewrite runs_bits in C. destruct (runs ws 0 no_run no_run) as [best cur].
  rewrite zeros_bits in C. rewrite <- C. f_equal. apply forallb_same. intros b. apply forallb_same. intros l. by rewrite zeros_bits.
Qed.

(** What the abbreviated run is. *)
Lemma best_of_ok ws : length ws = 8%nat -> let best := best_of ws in
  (base best = -1 \/ 0 <= base best /\ 2 <= len best /\ zeros_at ws (base best) (len best) = true)
  /\ forall b l, 2 <= l -> zeros_at ws b l = true -> base best <> -1 /\ (l < len best \/ l = len best /\ base best <= b).
Proof.
  intros Hl best. pose proof (best_checked ws Hl) as C. unfold best_check in C. fold best in C. cbv zeta in C. apply andb_true_iff in C as [C1 C2]. split.
  - destruct (Z.eqb_spec (base best) (-1)); [by left|]. cbn [orb] in C1. apply andb_true_iff in C1 as [H1 H2]. right. pose proof H2 as H3. unfold zeros_at in H3. apply andb_true_iff in H3 as [H3 _]. split; [lia|]. split; [lia|done].
  - intros b l Hl2 Hz. pose proof Hz as Hz'. unfold zeros_at in Hz'. apply andb_true_iff in Hz' as [Hz' _]. assert (Hb : 0 <= b /\ b + l <= 8) by (unfold zlen in Hz'; rewrite Hl in Hz'; change (Z.of_nat 8) with 8 in Hz'; apply andb_true_iff in Hz' as [H1 H2]; split; [by apply Z.leb_le|by apply Z.leb_le]).
    rewrite forallb_forall in C2. assert (Hin : forall x, 0 <= x < 9 -> In x (map Z.of_nat (seq 0 9))) by (intros x Hx; apply in_map_iff; exists (Z.to_nat x); split; [lia|apply in_seq; lia]).
    specialize (C2 b (Hin b ltac:(lia))). rewrite forallb_forall in C2. specialize (C2 l (Hin l ltac:(lia))). rewrite Hz in C2. replace (2 <=? l) with true in C2 by lia. cbn [andb negb orb] in C2. lia.
Qed.

(** ** The words *)

Definition word (w : Z) : Prop := 0 <= w < 2 ^ 16.

Lemma be16_word a b : is_byte a -> is_byte b -> Z.lor (Z.shiftl a 8) b = a * 256 + b /\ word (a * 256 + b) /\ be16 (a * 256 + b) = [a; b].
Proof.
  unfold is_byte, word. intros Ha Hb. split.
  - rewrite Z.shiftl_mul_pow2 by lia. change (2 ^ 8) with 256. symmetry. apply Z.add_nocarry_lor || idtac. apply Z.bits_inj'. intros n Hn. rewrite Z.land_spec, Z.bits_0. destruct (Z.lt_ge_cases n 8).
    + change 256 with (2 ^ 8). rewrite Z.mul_pow2_bits_low by lia. done.
    + rewrite (bits_fits 8 b n) by (unfold fits; lia). apply andb_false_r.
  - split; [lia|]. unfold be16. f_equal; [|f_equal]; Z.div_mod_to_equations; lia.
Qed.

(** The words of an address, two bytes each. *)
Lemma words_loop_ok n : forall src p i pre best cur, 0 <= p -> p + 2 * Z.of_nat n <= zlen src -> bytes src ->
  exists ws, length ws = n /\ Forall word ws /\ words_loop n src p i pre best cur = Ok (pre ++ ws, (runs ws i best cur).1, (runs ws i best cur).2) /\ has_bytes src p (concat (map be16 ws)).
Proof.
  induction n as [|n IH]; intros src p i pre best cur Hp Hl Hb; cbn [words_loop].
  - exists []. rewrite app_nil_r. split; [done|]. split; [done|]. split; [done|]. cbn. exists (take (Z.to_nat p) src), (drop (Z.to_nat p) src). split; [by rewrite app_nil_l, take_drop|]. apply zlen_take. lia.
  - assert (H : exists a b, has_bytes src p [a; b] /\ is_byte a /\ is_byte b).
    { assert (Hd : zlen (drop (Z.to_nat p) src) = zlen src - p) by (apply zlen_drop; lia). assert (Hbd : bytes (drop (Z.to_nat p) src)) by (by apply Forall_drop). destruct (drop (Z.to_nat p) src) as [|a [|b r]] eqn:E; [rewrite zlen_nil in Hd; lia|rewrite zlen_cons, zlen_nil in Hd; lia|].
      apply Forall_cons in Hbd as [Ha Hbd]. apply Forall_cons in Hbd as [Hb' _]. exists a, b. split; [|done]. exists (take (Z.to_nat p) src), r. cbn [app]. rewrite <- E, take_drop. split; [done|]. apply zlen_take. lia. }
    destruct H as (a & b & Hab & Ha & Hb'). rewrite (has_bytes_rd _ _ _ _ Hab), (has_bytes_rd _ _ _ _ (proj2 (has_bytes_cons _ _ _ _ Hab))). cbn [rbind]. cbv zeta. destruct (be16_word a b Ha Hb') as (-> & Hw & Hbe).
    destruct (run_step i (a * 256 + b) best cur) as [best' cur'] eqn:Er. destruct (IH src (p + 2) (i + 1) (pre ++ [a * 256 + b]) best' cur' ltac:(lia) ltac:(lia) Hb) as (ws & Hlen & Hws & E & Hbytes).
    exists (a * 256 + b :: ws). split; [cbn; lia|]. split; [by constructor|]. cbn [runs]. rewrite Er, E, <- app_assoc. split; [done|]. cbn [map concat]. rewrite Hbe. destruct Hab as (pre1 & post1 & E1 & L1). destruct Hbytes as (pre2 & post2 & E2 & L2).
    exists pre1, post2. split; [|done]. rewrite E2. assert (pre2 = pre1 ++ [a; b]) as ->; [|by rewrite <- !app_assoc]. rewrite E1 in E2. rewrite app_assoc in E2. apply (f_equal (take (length pre2))) in E2. rewrite take_app_length in E2. rewrite <- E2.
    replace (length pre2) with (length (pre1 ++ [a; b])) by (rewrite length_app; unfold zlen in *; cbn; lia). by rewrite take_app_length.
Qed.

(** ** The text *)

Definition hexw (w : Z) : list Z := p2_text 4 false w.

(** What the loop of [inet_ntop6] appends from word [i] on; [v4] is the text of the last
    four bytes and [mapped] says whether word 5 is 0xffff. *)
Fixpoint text6 (fuel : nat) (ws v4 : list Z) (mapped : bool) (best : run) (i : Z) : list Z :=
  match fuel with
  | O => []
  | S fuel =>
      if i <? 8 then
        if i =? base best then 58 :: text6 fuel ws v4 mapped best (i + len best)
        else (if negb (i =? 0) then [58] else []) ++
             if (i =? 6) && (base best =? 0) && ((len best =? 6) || (len best =? 5) && mapped) then v4
             else hexw (nth (Z.to_nat i) ws 0) ++ text6 fuel ws v4 mapped best (i + 1)
      else []
  end.

Lemma hexw_len w : word w -> 1 <= zlen (hexw w) <= 4.
Proof.
  unfold word. intros Hw. unfold hexw, p2_text. rewrite zlen_map. split; [apply numeral_nonempty|]. change (2 ^ 4) with 16. apply (numeral_len 16 4); [lia|lia|]. change (16 ^ Z.of_nat 4) with 65536. lia.
Qed.

Lemma hexw_bytes w : word w -> bytes (hexw w).
Proof.
  unfold word. intros Hw. destruct (numeral_ok 16 w ltac:(lia) ltac:(lia)) as [_ Hd]. unfold hexw, p2_text, bytes. change (2 ^ 4) with 16. rewrite list.Forall_fmap. eapply Forall_impl; [exact Hd|]. intros d Hd'. unfold compose.
  revert d Hd'. change 16 with (Z.of_nat 16). apply (forall_below (fun d => is_byte (hex_char false d))). vm_compute. reflexivity.
Qed.

Lemma rd_word ws i : 0 <= i < zlen ws -> rd ws i = Ok (nth (Z.to_nat i) ws 0).
Proof. intros Hi. destruct (rd_total ws i Hi) as (x & Hx & ->). f_equal. symmetry. rewrite nth_lookup, Hx. done. Qed.

Lemma splice_drop m o x : 0 <= o <= zlen m -> o + zlen x <= zlen m -> take (Z.to_nat o) m ++ splice (drop (Z.to_nat o) m) 0 x = splice m o x.
Proof.
  intros Ho Hx. pose proof (zlen_nonneg x). unfold splice. change (take (Z.to_nat 0) (drop (Z.to_nat o) m)) with (@nil Z). cbn [app]. rewrite drop_drop. do 3 f_equal. lia.
Qed.

Section Text.
  Context (P : platform) (nb buf5 tmp0 : list Z) (HP : macros_ok P) (Hnb : zlen nb = 512) (Htmp : zlen tmp0 = 46).

(** [tmp] with the text [t] and at most one character behind it. *)
Definition with_text (t tmp : list Z) : Prop := exists j, zlen j <= 1 /\ tmp = splice tmp0 0 (t ++ j).

Lemma with_text_len t tmp : with_text t tmp -> zlen t < 46 -> zlen tmp = 46.
Proof using Htmp. intros (j & Hj & ->) Ht. pose proof (zlen_nonneg t). pose proof (zlen_nonneg j). rewrite zlen_splice; rewrite ?zlen_app; lia. Qed.

(** Writing behind the text. *)
Lemma with_text_more t tmp x j : with_text t tmp -> zlen t + zlen x + zlen j <= 46 -> 1 <= zlen x + zlen j -> zlen j <= 1 -> with_text (t ++ x) (splice tmp (zlen t) (x ++ j)).
Proof using Htmp.
  intros (k & Hk & ->) Hl Hx Hj. pose proof (zlen_nonneg t). pose proof (zlen_nonneg x). exists j. split; [done|]. rewrite splice_tail0 by (rewrite ?zlen_app; lia). by rewrite app_assoc.
Qed.

Lemma emit_exact t tmp v : with_text t tmp -> zlen t < 46 -> is_byte v -> emit tmp (zlen t) v = Ok (splice tmp0 0 (t ++ [v]), zlen (t ++ [v])).
Proof using Htmp.
  intros Ht Hl Hv. pose proof (zlen_nonneg t). pose proof (with_text_len _ _ Ht Hl) as Hlen. unfold emit. rewrite wr_blit by lia. rewrite u8_byte by done. cbn [rbind]. destruct Ht as (j & Hj & ->). rewrite splice_tail0 by (change (zlen [v]) with 1; lia). by rewrite zlen_app.
Qed.

Lemma emit_text t tmp v : with_text t tmp -> zlen t < 46 -> is_byte v -> exists tmp', emit tmp (zlen t) v = Ok (tmp', zlen (t ++ [v])) /\ with_text (t ++ [v]) tmp'.
Proof using Htmp. intros Ht Hl Hv. eexists. split; [by apply emit_exact|]. exists []. rewrite app_nil_r. split; [rewrite zlen_nil; lia|done]. Qed.

Lemma render_hex w : word w -> render (D := double P) [simple (C_hex false) Absent] [A_int w] = Some (hexw w).
Proof using Type.
  unfold word. intros Hw. cbn [render simple render_directive width_of precision_of width precision conversion_text conv number_of modifier mbind option_bind flag_chars occurs with_zeros].
  replace (u32 w) with w by (unfold u32; rewrite Z.mod_small; lia). unfold layout. cbn [app orb andb]. replace (Z.to_nat (0 - zlen (p2_text 4 false w))) with O by (pose proof (zlen_nonneg (p2_text 4 false w)); lia). cbn [repeat app Z.eqb Pos.eqb]. by rewrite app_nil_r.
Qed.

Lemma snprintf_x_ok t tmp w : with_text t tmp -> word w -> zlen t + 5 <= 46 -> exists tmp', snprintf_x P nb buf5 tmp (zlen t) (zlen tmp - zlen t) w = Ok (tmp', zlen (hexw w)) /\ with_text (t ++ hexw w) tmp'.
Proof using HP Hnb Htmp.
  intros Ht Hw Hl. pose proof (zlen_nonneg t). pose proof (with_text_len _ _ Ht ltac:(lia)) as Hlen. pose proof (hexw_len w Hw) as Hh. assert (Hh' : (length (hexw w) <= 4)%nat) by (clear -Hh; unfold zlen in Hh; lia). unfold snprintf_x. replace ((0 <=? zlen t) && (zlen t <=? zlen tmp)) with true by lia.
  change (str "%x") with (format_text [simple (C_hex false) Absent]). assert (Hd : zlen (drop (Z.to_nat (zlen t)) tmp) = zlen tmp - zlen t) by (apply zlen_drop; lia).
  assert (Hok : Forall item_ok [simple (C_hex false) Absent]) by (repeat constructor). unfold apr_snprintf. cbn [snprintf_at]. rewrite (snprintf_with_prints P nb _ _ _ _ _ (hexw w) HP Hnb Hok (render_hex w Hw) (hexw_bytes w Hw)) by lia. cbn [rbind].
  replace (zlen tmp - zlen t =? 0) with false by lia. replace (zlen (hexw w) <? zlen tmp - zlen t) with true by lia. cbn [orb]. rewrite (@firstn_all2 _ _ (hexw w)) by lia.
  rewrite splice_drop by (rewrite ?zlen_app; change (zlen [0]) with 1; lia). eexists. split; [done|]. apply with_text_more; [done|change (zlen [0]) with 1; lia|change (zlen [0]) with 1; lia|done].
Qed.

(** The run of [best] is one of at least two words, if it is one. *)
Definition run_ok (best : run) : Prop := base best = -1 \/ 0 <= base best /\ 2 <= len best /\ base best + len best <= 8.

Lemma ntop6_loop_ok src ws best a b c e : zlen ws = 8 -> Forall word ws -> has_bytes src 12 [a; b; c; e] -> bytes [a; b; c; e] -> run_ok best ->
  forall fuel i t tmp, 8 - i < Z.of_nat fuel -> 0 <= i <= 8 -> with_text t tmp -> zlen t <= 5 * i -> (1 <= i -> zlen t <= 5 * i - 1) -> let x := text6 fuel ws (dotted a b c e) (nth 5 ws 0 =? 0xffff) best i in
  exists tmp', ntop6_loop P nb buf5 fuel src ws best tmp (zlen t) i = Ok (Some (tmp', zlen (t ++ x))) /\ with_text (t ++ x) tmp' /\ zlen (t ++ x) <= 45 /\ (base best + len best = 8 -> zlen (t ++ x) <= 39).
Proof using HP Hnb Htmp.
  intros Hws Hw Hsrc Hb Hrun. induction fuel as [|fuel IH]; intros i t tmp Hf Hi Ht Hl0 Hl1 x; [lia|]. subst x. cbn [ntop6_loop text6]. destruct (Z.ltb_spec i 8) as [Hlt|Hge].
  2:{ exists tmp. rewrite app_nil_r. split; [done|]. split; [done|]. lia. }
  destruct (Z.eqb_spec i (base best)) as [Hbase|Hbase].
  - destruct Hrun as [Hr|Hr]; [lia|]. destruct (emit_text t tmp 58 Ht ltac:(lia) ltac:(unfold is_byte; lia)) as (tmp1 & -> & Ht1). cbn [rbind].
    destruct (IH (i + len best) (t ++ [58]) tmp1) as (tmp' & E & H1 & H2 & H3); [lia|lia|done|rewrite zlen_app; change (zlen [58]) with 1; lia|rewrite zlen_app; change (zlen [58]) with 1; lia|]. cbv zeta in *. rewrite <- app_assoc in *. cbn [app] in *. exists tmp'. done.
  - assert (Hcolon : exists tmp1, (if negb (i =? 0) then emit tmp (zlen t) 58 else Ok (tmp, zlen t)) = Ok (tmp1, zlen (t ++ if negb (i =? 0) then [58] else [])) /\ with_text (t ++ if negb (i =? 0) then [58] else []) tmp1).
    { destruct (Z.eqb_spec i 0); cbn [negb]; [exists tmp; by rewrite app_nil_r|]. apply emit_text; [done|lia|unfold is_byte; lia]. }
    set (t1 := t ++ if negb (i =? 0) then [58] else []) in *. assert (Hl : zlen t1 <= 5 * i) by (unfold t1; destruct (Z.eqb_spec i 0); cbn [negb]; rewrite zlen_app; [rewrite zlen_nil|change (zlen [58]) with 1]; lia).
    destruct Hcolon as (tmp1 & -> & Ht1). cbn [rbind]. rewrite (rd_word ws 5) by lia. change (Z.to_nat 5) with 5%nat. cbn [rbind]. rewrite app_assoc. fold t1. pose proof (zlen_nonneg t1). destruct ((i =? 6) && (base best =? 0) && ((len best =? 6) || (len best =? 5) && (nth 5 ws 0 =? 0xffff))) eqn:E4.
    + assert (i = 6 /\ base best + len best <> 8) as [-> Hne] by lia. pose proof (with_text_len _ _ Ht1 ltac:(lia)) as Hlen. rewrite (inet_ntop4_ok src 12 tmp1 (zlen t1) (zlen tmp1 - zlen t1) a b c e Hsrc Hb) by lia. cbn [rbind]. pose proof (dotted_bound a b c e Hb) as Hd.
      rewrite (strlen_ok _ (zlen t1) (dotted a b c e)); [|apply has_bytes_splice; rewrite ?zlen_app; change (zlen [0]) with 1; lia|by apply dotted_nz]. cbn [rbind]. rewrite zlen_app. eexists. split; [done|]. split; [apply with_text_more; [done|change (zlen [0]) with 1; lia|change (zlen [0]) with 1; lia|done]|]. lia.
    + rewrite (rd_word ws i) by lia. cbn [rbind]. assert (Hwi : word (nth (Z.to_nat i) ws 0)) by (rewrite Forall_forall in Hw; apply Hw; apply list_elem_of_In, nth_In; unfold zlen in Hws; lia).
      destruct (snprintf_x_ok t1 tmp1 _ Ht1 Hwi ltac:(lia)) as (tmp2 & -> & Ht2). cbn [rbind]. pose proof (hexw_len _ Hwi). rewrite <- zlen_app.
      destruct (IH (i + 1) (t1 ++ hexw (nth (Z.to_nat i) ws 0)) tmp2) as (tmp' & E & H1 & H2 & H3); [lia|lia|done|rewrite zlen_app; lia| |].
      { intros _. rewrite zlen_app. unfold t1 in *. destruct (Z.eqb_spec i 0); cbn [negb] in *; rewrite zlen_app in *; [rewrite zlen_nil in *|change (zlen [58]) with 1 in *]; lia. }
      cbv zeta in *. rewrite <- app_assoc in *. exists tmp'. done.
Qed.

End Text.
