(* ===== verification/AprInetRound.v ===== *)
(** * Addresses read back

    How [inet_pton6] reads the texts that [inet_ntop6] writes, and the theorems on both
    families. *)

From S2P Require Import Prelude AprNumber AprFormat AprPrintf AprSnprintf AprInet AprInet4 AprInet6.

(** ** The destination *)

Lemma lor_shift k v d : 0 <= k -> 0 <= d < 2 ^ k -> Z.lor (Z.shiftl v k) d = v * 2 ^ k + d.
Proof.
  intros Hk Hd. rewrite Z.shiftl_mul_pow2 by lia. symmetry. apply Z.add_nocarry_lor. apply Z.bits_inj'. intros n Hn. rewrite Z.land_spec, Z.bits_0. destruct (Z.lt_ge_cases n k).
  - rewrite Z.mul_pow2_bits_low by lia. done.
  - rewrite (bits_fits k d n) by (unfold fits; lia). apply andb_false_r.
Qed.

(** [tmp] with the bytes that have been read. *)
Definition pad16 (bs : list Z) : list Z := bs ++ repeat 0 (16 - length bs).

Lemma pad16_len bs : zlen bs <= 16 -> zlen (pad16 bs) = 16.
Proof. intros H. unfold pad16. rewrite zlen_app, zlen_repeat. unfold zlen in *. lia. Qed.

Lemma pad16_more bs x : zlen bs + zlen x <= 16 -> splice (pad16 bs) (zlen bs) x = pad16 (bs ++ x).
Proof.
  intros H. unfold splice, pad16. rewrite to_nat_zlen, take_app_length, <- app_assoc. do 2 f_equal. replace (Z.to_nat (zlen bs + zlen x)) with (length bs + length x)%nat by (unfold zlen; lia).
  rewrite drop_app_ge by lia. replace (length bs + length x - length bs)%nat with (length x) by lia. rewrite length_app. unfold zlen in H.
  replace (16 - length bs)%nat with (length x + (16 - (length bs + length x)))%nat by lia. rewrite repeat_app. rewrite <- (repeat_length 0 (length x)) at 1. by rewrite drop_app_length.
Qed.

Lemma emit_pad bs v : zlen bs < 16 -> is_byte v -> emit (pad16 bs) (zlen bs) v = Ok (pad16 (bs ++ [v]), zlen (bs ++ [v])).
Proof.
  intros Hl Hv. pose proof (zlen_nonneg bs). unfold emit. rewrite wr_blit by (rewrite pad16_len; lia). rewrite u8_byte by done. cbn [rbind]. rewrite pad16_more by (change (zlen [v]) with 1; lia). by rewrite zlen_app.
Qed.

Lemma store_word_ok bs w : zlen bs <= 14 -> word w -> store_word (pad16 bs) (zlen bs) w = Ok (pad16 (bs ++ be16 w), zlen (bs ++ be16 w)).
Proof.
  intros Hl Hw. unfold word in Hw. unfold store_word. change 0xff with (Z.ones 8). rewrite !Z.land_ones by lia. rewrite Z.shiftr_div_pow2 by lia. unfold u8. rewrite !Zmod_mod. change (2 ^ 8) with 256.
  assert (is_byte (w / 256 mod 256) /\ is_byte (w mod 256)) as [H1 H2] by (split; apply mod_byte). rewrite emit_pad by (try done; lia). cbn [rbind]. rewrite emit_pad by (rewrite ?zlen_app; change (zlen [_]) with 1; try done; lia). unfold be16. by rewrite <- app_assoc.
Qed.

Lemma zeros_cons g (s : list Z) : repeat 0 (S g) ++ s = repeat 0 g ++ 0 :: s.
Proof. cbn [repeat]. rewrite repeat_cons, <- app_assoc. done. Qed.

(** Moving the bytes after the colons to the end. *)
Lemma shift_loop_ok p g q : bytes q -> forall s i n, zlen (p ++ q ++ repeat 0 (S g) ++ s) = 16 -> zlen s = i - 1 -> n = zlen q + i - 1 ->
  shift_loop (length q) (p ++ q ++ repeat 0 (S g) ++ s) (zlen p) n i = Ok (p ++ repeat 0 (S g) ++ q ++ s).
Proof.
  induction q as [|x q IH] using rev_ind; intros Hq s i n Hl Hs Hn; [done|]. apply Forall_app in Hq as [Hq Hx]. apply Forall_cons in Hx as [Hx _]. rewrite length_app, Nat.add_1_r. cbn [shift_loop]. rewrite !zlen_app, zlen_repeat in Hl. rewrite zlen_app in Hn. change (zlen [x]) with 1 in *.
  replace (p ++ (q ++ [x]) ++ repeat 0 (S g) ++ s) with ((p ++ q) ++ x :: repeat 0 (S g) ++ s) by (by rewrite <- !app_assoc). replace (zlen p + (n - i)) with (zlen (p ++ q)) by (rewrite zlen_app; lia). rewrite rd_app_0, rd_cons_0. cbn [rbind].
  rewrite (zeros_cons g s). replace ((p ++ q) ++ x :: repeat 0 g ++ 0 :: s) with (((p ++ q) ++ x :: repeat 0 g) ++ 0 :: s) by (by rewrite <- app_assoc).
  replace (IN6ADDRSZ - i) with (zlen ((p ++ q) ++ x :: repeat 0 g)) by (rewrite !zlen_app, zlen_cons, zlen_repeat; unfold IN6ADDRSZ; lia). rewrite wr_app, u8_byte by done. cbn [rbind].
  rewrite <- (app_assoc (p ++ q)). cbn [app]. rewrite wr_app. change (u8 0) with 0. cbn [rbind]. replace ((p ++ q) ++ 0 :: repeat 0 g ++ x :: s) with (p ++ q ++ repeat 0 (S g) ++ x :: s) by (by rewrite <- app_assoc).
  rewrite IH; [by rewrite <- app_assoc|done| |rewrite zlen_cons; lia|lia]. rewrite !zlen_app, zlen_repeat, zlen_cons. lia.
Qed.

(** ** Reading words *)

(** The state between words. *)
Definition st (bs : list Z) (co : option Z) : state6 := {| s_tmp := pad16 bs; s_tp := zlen bs; s_colonp := co; s_saw := false; s_val := 0 |}.

Definition xdigits_of (cs ds : list Z) : Prop := Forall2 (fun c d => xdigit_index c = Some d /\ c <> 0 /\ 0 <= d < 16) cs ds.

Lemma hex_xdigits ds : Forall (fun d => 0 <= d < 16) ds -> xdigits_of (map (hex_char false) ds) ds.
Proof.
  intros H. induction H as [|d ds Hd H IH]; cbn [map]; constructor; [|done]. revert d Hd. change 16 with (Z.of_nat 16) at 1.
  assert (Hall : forall d, 0 <= d < Z.of_nat 16 -> xdigit_index (hex_char false d) = Some d /\ hex_char false d <> 0) by (apply (forall_below (fun d => xdigit_index (hex_char false d) = Some d /\ hex_char false d <> 0)); vm_compute; reflexivity).
  intros d Hd. destruct (Hall d Hd). split; [done|]. split; [done|]. lia.
Qed.

Section Reading.
  Context (tmp4 m : list Z) (Htmp4 : zlen tmp4 = 4) (Hm : bytes m).

Lemma read_digits cs ds : xdigits_of cs ds -> forall fuel src curtok tmp tp co saw v, has_bytes m src cs -> 0 <= v -> value 16 v ds <= 0xffff ->
  pton6_loop (length cs + fuel) tmp4 m src curtok {| s_tmp := tmp; s_tp := tp; s_colonp := co; s_saw := saw; s_val := v |}
  = pton6_loop fuel tmp4 m (src + zlen cs) curtok {| s_tmp := tmp; s_tp := tp; s_colonp := co; s_saw := if decide (cs = []) then saw else true; s_val := value 16 v ds |}.
Proof using Type.
  induction 1 as [|c d cs ds (Hc & Hnz & Hd) H IH]; intros fuel src curtok tmp tp co saw v Hb Hv Hmax.
  - rewrite zlen_nil, Z.add_0_r. done.
  - cbn [length Nat.add pton6_loop]. rewrite (has_bytes_rd _ _ _ _ Hb). cbn [rbind]. replace (c =? 0) with false by lia. rewrite Hc. cbn [s_val s_tmp s_tp s_colonp]. rewrite lor_shift by lia. change (2 ^ 4) with 16. cbn [value foldl] in Hmax. fold (value 16 (v * 16 + d) ds) in Hmax.
    assert (Hds : Forall (fun d => 0 <= d < 16) ds) by (clear -H; induction H as [|? ? ? ? (_ & _ & ?)]; constructor; done). pose proof (value_ge 16 (v * 16 + d) ds ltac:(lia) ltac:(lia) Hds). replace (v * 16 + d >? 0xffff) with false by lia.
    rewrite IH by (try exact (proj2 (has_bytes_cons _ _ _ _ Hb)); lia || done). rewrite zlen_cons. replace (src + 1 + zlen cs) with (src + (1 + zlen cs)) by lia. cbn [value foldl]. fold (value 16 (v * 16 + d) ds). by destruct (decide (cs = [])), (decide (c :: cs = [])).
Qed.

Lemma hexw_digits w : word w -> xdigits_of (hexw w) (numeral 16 w) /\ value 16 0 (numeral 16 w) = w /\ hexw w <> [].
Proof using Type.
  unfold word. intros Hw. destruct (numeral_ok 16 w ltac:(lia) ltac:(lia)) as [Hv Hd]. split; [by apply hex_xdigits|]. split; [done|]. intros E. pose proof (hexw_len w Hw) as Hl. rewrite E, zlen_nil in Hl. lia.
Qed.

(** A word in hexadecimal. *)
Lemma read_word w fuel src curtok bs co : word w -> has_bytes m src (hexw w) ->
  pton6_loop (length (hexw w) + fuel) tmp4 m src curtok (st bs co) = pton6_loop fuel tmp4 m (src + zlen (hexw w)) curtok {| s_tmp := pad16 bs; s_tp := zlen bs; s_colonp := co; s_saw := true; s_val := w |}.
Proof using Type.
  intros Hw Hb. destruct (hexw_digits w Hw) as (Hx & Hv & Hne). unfold st. unfold word in Hw. rewrite (read_digits _ _ Hx) by (try done; lia). rewrite Hv. by destruct (decide (hexw w = [])).
Qed.
(** Words, each with a colon behind it. *)
Definition pw (ws : list Z) : list Z := concat (map (fun w => hexw w ++ [58]) ws).

Definition word_bytes (ws : list Z) : list Z := concat (map be16 ws).

Lemma word_bytes_len ws : zlen (word_bytes ws) = 2 * zlen ws.
Proof using Type. induction ws as [|w ws IH]; [done|]. unfold word_bytes in *. cbn [map concat]. rewrite zlen_app, zlen_cons, IH. change (zlen (be16 w)) with 2. lia. Qed.

Lemma read_words ws : Forall word ws -> forall fuel src bs co, has_bytes m src (pw ws) -> zlen bs + 2 * zlen ws <= 16 ->
  pton6_loop (length (pw ws) + fuel) tmp4 m src src (st bs co) = pton6_loop fuel tmp4 m (src + zlen (pw ws)) (src + zlen (pw ws)) (st (bs ++ word_bytes ws) co).
Proof using Type.
  induction 1 as [|w ws Hw Hws IH]; intros fuel src bs co Hb Hl; unfold word_bytes; cbn [map concat]; [change (pw []) with (@nil Z); rewrite app_nil_r; change (zlen (@nil Z)) with 0; by rewrite Z.add_0_r|].
  change (pw (w :: ws)) with ((hexw w ++ [58]) ++ pw ws) in *. rewrite zlen_cons in Hl. pose proof (zlen_nonneg ws). apply has_bytes_app in Hb as [Hb1 Hb2]. apply has_bytes_app in Hb1 as [Hb0 Hb1]. rewrite !length_app, <- !Nat.add_assoc. rewrite read_word by done.
  cbn [length Nat.add pton6_loop]. rewrite (has_bytes_rd _ _ _ _ Hb1). cbn [rbind Z.eqb Pos.eqb]. change (xdigit_index 58) with (@None Z). cbn [s_saw negb s_tp s_tmp s_val s_colonp]. unfold INT16SZ, IN6ADDRSZ. replace (zlen bs + 2 >? 16) with false by lia. rewrite store_word_ok by (try done; lia). cbn [rbind].
  assert (Hlw : zlen (bs ++ be16 w) = zlen bs + 2) by (rewrite zlen_app; done). rewrite zlen_app in Hb2. change (zlen [58]) with 1 in Hb2. replace (src + (zlen (hexw w) + 1)) with (src + zlen (hexw w) + 1) in Hb2 by lia.
  change {| s_tmp := pad16 (bs ++ be16 w); s_tp := zlen (bs ++ be16 w); s_colonp := co; s_saw := false; s_val := 0 |} with (st (bs ++ be16 w) co). rewrite (IH fuel (src + zlen (hexw w) + 1)) by (try done; lia). rewrite <- app_assoc. rewrite !zlen_app. change (zlen [58]) with 1. f_equal; lia.
Qed.

(** From between words [tail] gives these bytes and ends the text. *)
Definition reads6 (tail bytes_ : list Z) : Prop :=
  forall fuel src bs co, points m src tail -> (length tail < fuel)%nat -> zlen bs + zlen bytes_ <= 16 ->
  exists s, pton6_loop fuel tmp4 m src src (st bs co) = Ok (Some s) /\ s_colonp s = co /\ last_word s = Ok (Some (pad16 (bs ++ bytes_), zlen (bs ++ bytes_))).

Lemma reads6_nil : reads6 [] [].
Proof using Type. intros [|fuel] src bs co Hp Hf Hl; [cbn in Hf; lia|]. exists (st bs co). cbn [pton6_loop]. rewrite (points_rd _ _ _ Hp). cbn. rewrite app_nil_r. done. Qed.

Lemma reads6_word w : word w -> reads6 (hexw w) (be16 w).
Proof using Type.
  intros Hw fuel src bs co Hp Hf Hl. change (zlen (be16 w)) with 2 in Hl. exists {| s_tmp := pad16 bs; s_tp := zlen bs; s_colonp := co; s_saw := true; s_val := w |}. replace fuel with (length (hexw w) + S (fuel - length (hexw w) - 1))%nat by lia. rewrite read_word by (try done; exact (proj1 (has_bytes_app _ _ _ _ (proj1 Hp)))).
  cbn [pton6_loop]. rewrite (points_rd_end _ _ _ Hp). cbn [rbind Z.eqb]. split; [done|]. split; [done|]. unfold last_word. cbn [s_saw s_tp s_tmp s_val]. unfold INT16SZ, IN6ADDRSZ. replace (zlen bs + 2 >? 16) with false by lia. by rewrite store_word_ok by (try done; lia).
Qed.

Lemma reads6_words ws tail bytes_ : Forall word ws -> reads6 tail bytes_ -> reads6 (pw ws ++ tail) (word_bytes ws ++ bytes_).
Proof using Type.
  intros Hws Ht fuel src bs co Hp Hf Hl. rewrite length_app in Hf. rewrite zlen_app, word_bytes_len in Hl. pose proof (zlen_nonneg bytes_). replace fuel with (length (pw ws) + (fuel - length (pw ws)))%nat by lia. assert (Hb : has_bytes m src (pw ws)) by (destruct Hp as [Hp _]; rewrite <- app_assoc in Hp; exact (proj1 (has_bytes_app _ _ _ _ Hp))).
  rewrite read_words by (try done; lia). destruct (Ht (fuel - length (pw ws))%nat (src + zlen (pw ws)) (bs ++ word_bytes ws) co) as (s & E & Hc & Hs); [by apply points_app|lia|rewrite zlen_app, word_bytes_len; lia|]. exists s. rewrite <- app_assoc in Hs. done.
Qed.

Lemma dec_xdigits a : is_byte a -> exists ds, xdigits_of (dec_text a) ds /\ 0 <= value 16 0 ds <= 0xffff.
Proof using Type.
  intros Ha. assert (Hds : Forall (fun d => 0 <= d < 10) (numeral 10 a) /\ zlen (numeral 10 a) <= 3) by (unfold is_byte in Ha; split; [apply numeral_ok; lia|apply (numeral_len 10 3); [lia|lia|cbn; lia]]). destruct Hds as [Hd Hl]. exists (numeral 10 a). split.
  - unfold dec_text. revert Hd. generalize (numeral 10 a). intros l Hd. induction Hd as [|d l Hd Hds IH]; cbn [map]; constructor; [|done].
    assert (Hall : forall d, 0 <= d < Z.of_nat 10 -> xdigit_index (48 + d) = Some d) by (apply (forall_below (fun d => xdigit_index (48 + d) = Some d)); vm_compute; reflexivity). split; [apply Hall; lia|lia].
  - destruct (numeral 10 a) as [|d0 [|d1 [|d2 [|d3 r]]]]; unfold zlen in Hl; cbn [length] in Hl; [cbn; lia| | | |lia]; repeat (apply Forall_cons in Hd as [? Hd]); cbn; lia.
Qed.

Lemma reads6_dotted a b c e : bytes [a; b; c; e] -> reads6 (dotted a b c e) [a; b; c; e].
Proof using Htmp4 Hm.
  intros Hb fuel src bs co Hp Hf Hl. change (zlen [a; b; c; e]) with 4 in Hl. pose proof (zlen_nonneg bs). assert (Ha : is_byte a) by (by apply Forall_cons in Hb as [Ha _]). destruct (dec_xdigits a Ha) as (ds & Hx & Hv). unfold dotted in Hf. rewrite length_app in Hf. cbn [length] in Hf.
  pose proof Hp as Hp'. unfold dotted in Hp'. assert (Hb0 : has_bytes m src (dec_text a)) by (destruct Hp' as [Hp' _]; rewrite <- app_assoc in Hp'; exact (proj1 (has_bytes_app _ _ _ _ Hp'))). apply points_app in Hp'.
  exists {| s_tmp := pad16 (bs ++ [a; b; c; e]); s_tp := zlen bs + 4; s_colonp := co; s_saw := false; s_val := value 16 0 ds |}. split; [|split; [done|unfold last_word; cbn [s_saw s_tmp s_tp]; by rewrite zlen_app]].
  replace fuel with (length (dec_text a) + S (fuel - length (dec_text a) - 1))%nat by lia. unfold st. rewrite (read_digits _ _ Hx) by (try done; lia). cbn [pton6_loop]. rewrite (points_rd _ _ _ Hp'). cbn [hd rbind Z.eqb Pos.eqb]. change (xdigit_index 46) with (@None Z). cbn [s_tp s_tmp s_colonp s_val andb]. unfold INADDRSZ, IN6ADDRSZ. replace (zlen bs + 4 <=? 16) with true by lia.
  rewrite (inet_pton4_ok tmp4 m src (dotted a b c e)) by (rewrite ?pad16_len; try done; lia). rewrite quad_dotted by done. cbn [rbind]. rewrite pad16_more by (change (zlen [a; b; c; e]) with 4; lia). done.
Qed.

(** ** Whole addresses *)

(** An address without abbreviation. *)
Lemma read_full t bytes_ src dst : reads6 t bytes_ -> points m src t -> hd 0 t <> 58 -> zlen bytes_ = 16 -> 16 <= zlen dst -> inet_pton6 tmp4 m src dst = Ok (1, splice dst 0 bytes_).
Proof using Type.
  intros Ht Hp Hh Hl Hd. pose proof (points_len _ _ _ Hp) as [Hs Hlen]. unfold inet_pton6. rewrite (points_rd _ _ _ Hp). cbn [rbind]. replace (hd 0 t =? 58) with false by lia. cbn [rbind].
  destruct (Ht (S (length m)) src [] None Hp) as (s & E & Hc & Hw); [unfold zlen in *; lia|rewrite zlen_nil; lia|]. change {| s_tmp := repeat 0 16; s_tp := 0; s_colonp := None; s_saw := false; s_val := 0 |} with (st [] None). rewrite E. cbn [rbind]. unfold pton6_finish. rewrite Hw, Hc. cbn [app rbind]. rewrite Hl. cbn [Z.eqb Pos.eqb IN6ADDRSZ].
  unfold pad16. replace (16 - length bytes_)%nat with O by (unfold zlen in Hl; lia). rewrite app_nil_r. rewrite blit_ok by lia. done.
Qed.

(** An address with two colons. *)
Lemma read_abbreviated ws tail bytes_ src dst : Forall word ws -> reads6 tail bytes_ -> bytes bytes_ -> 2 * zlen ws + zlen bytes_ <= 14 -> 16 <= zlen dst -> points m src ((if decide (ws = []) then [58] else []) ++ pw ws ++ [58] ++ tail) ->
  inet_pton6 tmp4 m src dst = Ok (1, splice dst 0 (word_bytes ws ++ repeat 0 (16 - length (word_bytes ws ++ bytes_)) ++ bytes_)).
Proof using Type.
  intros Hws Ht Hby Hl Hd Hp. pose proof (zlen_nonneg bytes_). pose proof (zlen_nonneg ws).
  assert (Hstart : exists src', points m src' (pw ws ++ [58] ++ tail) /\ (do c <- rd m src; do start <- (if c =? 58 then do c <- rd m (src + 1); Ok (if c =? 58 then Some (src + 1) else None) else Ok (Some src)); Ok start) = Ok (Some src')).
  { destruct (decide (ws = [])) as [->|Hne]; cbn [app] in Hp.
    - exists (src + 1). pose proof (points_next _ _ _ _ Hp) as Hp'. split; [done|]. rewrite (points_rd _ _ _ Hp). cbn [hd rbind Z.eqb Pos.eqb]. rewrite (points_rd _ _ _ Hp'). done.
    - exists src. split; [done|]. rewrite (points_rd _ _ _ Hp). cbn [rbind]. destruct ws as [|w ws]; [done|]. inversion_clear Hws as [|? ? Hw _]. destruct (hexw_digits w Hw) as (Hx & _ & Hnil). change (pw (w :: ws)) with ((hexw w ++ [58]) ++ pw ws). destruct (hexw w) as [|c r]; [done|]. inversion_clear Hx as [|? ? ? ? (Hc & _) _]. cbn [app hd].
      replace (c =? 58) with false; [done|]. symmetry. apply Z.eqb_neq. intros ->. done. }
  destruct Hstart as (src' & Hp' & Es). pose proof (points_len _ _ _ Hp') as [Hs Hlen]. unfold inet_pton6. destruct (rd m src) as [c|]; [|done]. cbn [rbind] in *. destruct (if c =? 58 then _ else _) as [start|]; [|done]. cbn [rbind] in *. injection Es as ->.
  set (fuel := S (length m)). assert (Hfuel : (length (pw ws ++ [58%Z] ++ tail) < fuel)%nat) by (unfold zlen in Hlen; lia). rewrite !length_app in Hfuel. cbn [length] in Hfuel.
  change {| s_tmp := repeat 0 16; s_tp := 0; s_colonp := None; s_saw := false; s_val := 0 |} with (st [] None). replace fuel with (length (pw ws) + S (fuel - length (pw ws) - 1))%nat by lia. assert (Hb : has_bytes m src' (pw ws)) by (destruct Hp' as [Hp' _]; rewrite <- app_assoc in Hp'; exact (proj1 (has_bytes_app _ _ _ _ Hp'))).
  rewrite read_words by (try done; rewrite zlen_nil; lia). cbn [app]. apply points_app in Hp'. cbn [pton6_loop]. rewrite (points_rd _ _ _ Hp'). cbn [app hd rbind Z.eqb Pos.eqb]. change (xdigit_index 58) with (@None Z). cbn [st s_saw negb s_colonp s_tmp s_tp s_val].
  set (bs := word_bytes ws). assert (Hbs : zlen bs = 2 * zlen ws) by apply word_bytes_len. change {| s_tmp := pad16 bs; s_tp := zlen bs; s_colonp := Some (zlen bs); s_saw := false; s_val := 0 |} with (st bs (Some (zlen bs))).
  destruct (Ht (fuel - length (pw ws) - 1)%nat (src' + zlen (pw ws) + 1) bs (Some (zlen bs)) (points_next _ _ _ _ Hp')) as (s & E & Hc & Hw); [lia|lia|]. rewrite E. cbn [rbind]. unfold pton6_finish. rewrite Hw, Hc. cbn [rbind].
  rewrite zlen_app. replace (zlen bs + zlen bytes_ - zlen bs) with (zlen bytes_) by lia. rewrite to_nat_zlen. unfold pad16. set (g := (16 - length (bs ++ bytes_))%nat). assert (Hg : exists g', g = S g') by (exists (g - 1)%nat; unfold g; rewrite length_app; unfold zlen in *; lia). destruct Hg as (g' & Eg). rewrite Eg. rewrite <- app_assoc.
  pose proof (shift_loop_ok bs g' bytes_ Hby [] 1 (zlen bytes_)) as Hsh. rewrite !app_nil_r in Hsh. rewrite Hsh; [|rewrite !zlen_app, zlen_repeat; unfold g in Eg; rewrite length_app in Eg; unfold zlen in *; lia|done|lia]. cbn [rbind Z.eqb Pos.eqb IN6ADDRSZ]. rewrite blit_ok; [done|lia|].
  rewrite !zlen_app, zlen_repeat. unfold g in Eg. rewrite length_app in Eg. unfold zlen in *. lia.
Qed.

End Reading.

(** ** The texts that are written *)

(** The text after an abbreviated run: the last words, or the last bytes in decimal. *)
Definition tail6 (ws v4 : list Z) (mapped : bool) (best : run) : list Z :=
  if (base best =? 0) && ((len best =? 6) || (len best =? 5) && mapped) then (if len best =? 5 then pw [nth 5 ws 0] else []) ++ v4
  else match drop (Z.to_nat (base best + len best)) ws with [] => [] | r => pw (removelast r) ++ hexw (List.last r 0) end.

Definition closing (best : run) : list Z := if negb (base best =? -1) && (base best + len best =? 8) then [58] else [].

Lemma text6_full w0 w1 w2 w3 w4 w5 w6 w7 v4 mapped l : text6 9 [w0; w1; w2; w3; w4; w5; w6; w7] v4 mapped {| base := -1; len := l |} 0 = pw [w0; w1; w2; w3; w4; w5; w6] ++ hexw w7.
Proof. cbv -[hexw app]. cbn [app]. rewrite <- !app_assoc. cbn [app]. rewrite !app_nil_r. done. Qed.

Lemma text6_run w0 w1 w2 w3 w4 w5 w6 w7 v4 mapped best : run_ok best -> base best <> -1 -> let ws := [w0; w1; w2; w3; w4; w5; w6; w7] in
  text6 9 ws v4 mapped best 0 ++ closing best = (if decide (take (Z.to_nat (base best)) ws = []) then [58] else []) ++ pw (take (Z.to_nat (base best)) ws) ++ [58] ++ tail6 ws v4 mapped best.
Proof.
  intros [Hr|Hr] Hne; [done|]. destruct best as [b l]. cbn [base len] in *.
  assert (b = 0 \/ b = 1 \/ b = 2 \/ b = 3 \/ b = 4 \/ b = 5 \/ b = 6) as Hb by lia. assert (l = 2 \/ l = 3 \/ l = 4 \/ l = 5 \/ l = 6 \/ l = 7 \/ l = 8) as Hl by lia.
  destruct_or! Hb; destruct_or! Hl; subst b l; try lia; destruct mapped; cbv -[hexw app]; rewrite ?app_nil_r; repeat (rewrite <- app_assoc || (progress cbn [app])); rewrite ?app_nil_r; done.
Qed.

Lemma word_bytes_app ws1 ws2 : word_bytes (ws1 ++ ws2) = word_bytes ws1 ++ word_bytes ws2.
Proof. unfold word_bytes. by rewrite map_app, concat_app. Qed.

Lemma word_bytes_zeros l : word_bytes (repeat 0 l) = repeat 0 (2 * l).
Proof. induction l as [|l IH]; [done|]. unfold word_bytes in *. cbn [repeat map concat]. rewrite IH. replace (2 * S l)%nat with (S (S (2 * l))) by lia. done. Qed.

Lemma word_bytes_bytes ws : bytes (word_bytes ws).
Proof. induction ws as [|w ws IH]; [constructor|]. unfold word_bytes in *. cbn [map concat]. apply Forall_app. split; [|done]. unfold be16. repeat constructor; apply mod_byte. Qed.

Lemma zeros_at_split ws b l : zeros_at ws b l = true -> 0 <= l -> ws = take (Z.to_nat b) ws ++ repeat 0 (Z.to_nat l) ++ drop (Z.to_nat (b + l)) ws.
Proof.
  intros Hz Hl. unfold zeros_at in Hz. apply andb_true_iff in Hz as [Hb Hz]. apply andb_true_iff in Hb as [Hb Hbl]. apply Z.leb_le in Hb, Hbl. rewrite <- (take_drop (Z.to_nat b) ws) at 1. f_equal. rewrite <- (take_drop (Z.to_nat l) (drop (Z.to_nat b) ws)) at 1. rewrite drop_drop. f_equal; [|f_equal; lia].
  assert (Hlen : length (take (Z.to_nat l) (drop (Z.to_nat b) ws)) = Z.to_nat l) by (rewrite length_take, length_drop; unfold zlen in Hbl; lia). rewrite <- Hlen at 2. revert Hz. generalize (take (Z.to_nat l) (drop (Z.to_nat b) ws)). intros l'. induction l' as [|x l' IH]; cbn [forallb length repeat]; [done|]. intros H. apply andb_true_iff in H as [H1 H2]. apply Z.eqb_eq in H1 as <-. f_equal. by apply IH.
Qed.

Lemma hexw_nz w : word w -> 0 ∉ hexw w.
Proof. intros Hw Hin. destruct (hexw_digits w Hw) as (Hx & _ & _). induction Hx as [|c d cs ds (_ & Hc & _) H IH]; [by apply not_elem_of_nil in Hin|]. apply elem_of_cons in Hin as [Hin|Hin]; [congruence|by apply IH]. Qed.

Lemma text6_nz ws v4 mapped best : Forall word ws -> zlen ws = 8 -> 0 ∉ v4 -> run_ok best -> forall fuel i, 0 <= i -> 0 ∉ text6 fuel ws v4 mapped best i.
Proof.
  intros Hws Hl Hv Hrun. induction fuel as [|fuel IH]; intros i Hi; cbn [text6]; [apply not_elem_of_nil|]. destruct (Z.ltb_spec i 8); [|apply not_elem_of_nil]. destruct (Z.eqb_spec i (base best)).
  - apply not_elem_of_cons. split; [lia|]. apply IH. destruct Hrun as [?|?]; lia.
  - apply not_elem_of_app. split; [destruct (i =? 0); cbn [negb]; [apply not_elem_of_nil|apply not_elem_of_cons; split; [lia|apply not_elem_of_nil]]|]. destruct (_ && _ && _); [done|]. apply not_elem_of_app. split; [|apply IH; lia].
    apply hexw_nz. rewrite Forall_forall in Hws. apply Hws. apply list_elem_of_In, nth_In. unfold zlen in Hl. lia.
Qed.

(** ** What is written *)

(** The text of eight words. *)
Definition address6 (ws : list Z) : list Z :=
  let best := best_of ws in
  text6 9 ws (dotted (nth 6 ws 0 / 256 mod 256) (nth 6 ws 0 mod 256) (nth 7 ws 0 / 256 mod 256) (nth 7 ws 0 mod 256)) (nth 5 ws 0 =? 0xffff) best 0 ++ closing best.

Lemma best_run_ok ws : length ws = 8%nat -> run_ok (best_of ws).
Proof.
  intros Hl. destruct (best_of_ok ws Hl) as [[H|(H1 & H2 & H3)] _]; [by left|]. right. split; [done|]. split; [done|]. unfold zeros_at in H3. apply andb_true_iff in H3 as [H3 _]. apply andb_true_iff in H3 as [_ H3]. apply Z.leb_le in H3. unfold zlen in H3. rewrite Hl in H3. exact H3.
Qed.

Lemma explicit_words (ws : list Z) : length ws = 8%nat -> exists w0 w1 w2 w3 w4 w5 w6 w7, ws = [w0; w1; w2; w3; w4; w5; w6; w7].
Proof. intros Hl. do 8 (destruct ws as [|? ws]; [done|]). destruct ws; [|done]. by repeat eexists. Qed.

Lemma strcpy_ok dst src t : has_bytes src 0 (t ++ [0]) -> 0 ∉ t -> zlen t + 1 <= zlen dst -> strcpy dst 0 src = Ok (splice dst 0 (t ++ [0])).
Proof.
  intros Hs Hnz Hl. pose proof (zlen_nonneg t). unfold strcpy. rewrite (strlen_ok _ _ _ Hs Hnz). cbn [rbind]. replace (zlen t + 1) with (zlen (t ++ [0])) by (rewrite zlen_app; done). rewrite (has_bytes_sub _ _ _ Hs). cbn [rbind]. rewrite blit_ok; [done|lia|rewrite zlen_app; change (zlen [0]) with 1; lia].
Qed.

Lemma inet_ntop6_ok P nb buf5 tmp0 src dst size : macros_ok P -> zlen nb = 512 -> zlen tmp0 = 46 -> bytes src -> zlen src = 16 -> size <= zlen dst ->
  exists ws, length ws = 8%nat /\ Forall word ws /\ src = word_bytes ws /\ 0 ∉ address6 ws /\ zlen (address6 ws) <= 45
    /\ inet_ntop6 P nb buf5 tmp0 src dst size = if zlen (address6 ws) + 1 >? size then Ok None else Ok (Some (splice dst 0 (address6 ws ++ [0]))).
Proof.
  intros HP Hnb Htmp Hb Hl Hd. destruct (words_loop_ok 8 src 0 0 [] no_run no_run) as (ws & Hlen & Hws & Ew & Hsrc); [lia|lia|done|]. exists ws. split; [done|]. split; [done|].
  assert (Es : src = word_bytes ws). { destruct Hsrc as (pre & post & E & Hp). fold (word_bytes ws) in E. pose proof (word_bytes_len ws) as Hwl. unfold zlen in Hwl at 2. rewrite Hlen in Hwl. rewrite E, !zlen_app, Hwl, Hp in Hl. destruct pre; [|rewrite zlen_cons in Hp; pose proof (zlen_nonneg pre); lia]. destruct post; [by rewrite app_nil_r in E|]. rewrite zlen_cons in Hl. pose proof (zlen_nonneg post). lia. }
  split; [done|]. set (best := best_of ws). assert (Hrun : run_ok best) by (by apply best_run_ok). set (v := dotted (nth 6 ws 0 / 256 mod 256) (nth 6 ws 0 mod 256) (nth 7 ws 0 / 256 mod 256) (nth 7 ws 0 mod 256)).
  assert (Hv4 : bytes [nth 6 ws 0 / 256 mod 256; nth 6 ws 0 mod 256; nth 7 ws 0 / 256 mod 256; nth 7 ws 0 mod 256]) by (repeat constructor; apply mod_byte).
  assert (H12 : has_bytes src 12 [nth 6 ws 0 / 256 mod 256; nth 6 ws 0 mod 256; nth 7 ws 0 / 256 mod 256; nth 7 ws 0 mod 256]).
  { destruct (explicit_words ws Hlen) as (w0 & w1 & w2 & w3 & w4 & w5 & w6 & w7 & ->). rewrite Es. exists (word_bytes [w0; w1; w2; w3; w4; w5]), []. split; done. }
  assert (Hw8 : zlen ws = 8) by (unfold zlen; rewrite Hlen; done).
  destruct (ntop6_loop_ok P nb buf5 tmp0 HP Hnb Htmp src ws best _ _ _ _ Hw8 Hws H12 Hv4 Hrun 9 0 [] tmp0) as (tmp1 & E1 & Ht1 & Hx & Hx8); [lia|lia|exists []; split; [rewrite zlen_nil; lia|]; cbn [app]; by rewrite splice_nil by lia|rewrite zlen_nil; lia|lia|].
  cbn [app] in *. fold v in E1, Ht1, Hx, Hx8. rewrite zlen_nil in E1. set (x := text6 9 ws v (nth 5 ws 0 =? 0xffff) best 0) in *. assert (Ha : address6 ws = x ++ closing best) by done.
  assert (Hc : exists tmp2, (if negb (base best =? -1) && (base best + len best =? 8) then emit tmp1 (zlen x) 58 else Ok (tmp1, zlen x)) = Ok (tmp2, zlen (address6 ws)) /\ with_text tmp0 (address6 ws) tmp2 /\ zlen (address6 ws) <= 45).
  { rewrite Ha. unfold closing. destruct (negb (base best =? -1) && (base best + len best =? 8)) eqn:E8; [|rewrite app_nil_r; exists tmp1; done]. assert (zlen x <= 39) by (apply Hx8; lia). destruct (emit_text tmp0 Htmp x tmp1 58 Ht1 ltac:(lia) ltac:(unfold is_byte; lia)) as (tmp2 & E2 & Ht2). exists tmp2. split; [done|]. split; [done|]. rewrite zlen_app. change (zlen [58]) with 1. lia. }
  destruct Hc as (tmp2 & E2 & Ht2 & Hx2). assert (Hnz : 0 ∉ address6 ws). { rewrite Ha. apply not_elem_of_app. split; [apply text6_nz; [done|done|by apply dotted_nz|done|lia]|]. unfold closing. destruct (negb _ && _); [apply not_elem_of_cons; split; [lia|]|]; apply not_elem_of_nil. }
  split; [done|]. split; [done|]. unfold inet_ntop6. fold no_run. rewrite Ew. cbn [rbind app]. assert (Eb : best_run (runs ws 0 no_run no_run).1 (runs ws 0 no_run no_run).2 = best) by (unfold best, best_of; by destruct (runs ws 0 no_run no_run)). rewrite Eb, E1. cbn [rbind]. rewrite E2. cbn [rbind].
  rewrite (emit_exact tmp0 Htmp _ tmp2 0 Ht2) by (try lia; unfold is_byte; lia). cbn [rbind]. rewrite zlen_app. change (zlen [0]) with 1. destruct (Z.gtb_spec (zlen (address6 ws) + 1) size); [done|].
  rewrite (strcpy_ok _ _ (address6 ws)); [done|apply has_bytes_splice; rewrite ?zlen_app; change (zlen [0]) with 1; lia|done|lia].
Qed.

(** ** What is read back *)

Lemma tail6_reads tmp4 m ws best : zlen tmp4 = 4 -> bytes m -> length ws = 8%nat -> Forall word ws -> run_ok best -> base best <> -1 ->
  reads6 tmp4 m (tail6 ws (dotted (nth 6 ws 0 / 256 mod 256) (nth 6 ws 0 mod 256) (nth 7 ws 0 / 256 mod 256) (nth 7 ws 0 mod 256)) (nth 5 ws 0 =? 0xffff) best) (word_bytes (drop (Z.to_nat (base best + len best)) ws)).
Proof.
  intros H4 Hm Hl Hws Hrun Hne. unfold tail6. destruct ((base best =? 0) && ((len best =? 6) || (len best =? 5) && (nth 5 ws 0 =? 0xffff))) eqn:E.
  - assert (Hv4 : bytes [nth 6 ws 0 / 256 mod 256; nth 6 ws 0 mod 256; nth 7 ws 0 / 256 mod 256; nth 7 ws 0 mod 256]) by (repeat constructor; apply mod_byte). pose proof (reads6_dotted tmp4 m H4 Hm _ _ _ _ Hv4) as Hd.
    destruct (explicit_words ws Hl) as (w0 & w1 & w2 & w3 & w4 & w5 & w6 & w7 & ->). cbn [nth] in *. destruct best as [b l]. cbn [base len] in *. assert (b = 0 /\ (l = 6 \/ l = 5)) as [-> Hl56] by lia. destruct Hl56 as [-> | ->]; [exact Hd|].
    apply (reads6_words tmp4 m [w5]); [|exact Hd]. do 5 (apply Forall_cons in Hws as [_ Hws]). apply Forall_cons in Hws as [Hw _]. by constructor.
  - assert (Hr : Forall word (drop (Z.to_nat (base best + len best)) ws)) by (by apply Forall_drop). destruct (drop (Z.to_nat (base best + len best)) ws) as [|w r] eqn:Er; [apply reads6_nil|].
    rewrite (app_removelast_last (l := w :: r) 0) at 3 by done. rewrite (app_removelast_last (l := w :: r) 0) in Hr by done. apply Forall_app in Hr as [Hr1 Hr2]. apply Forall_cons in Hr2 as [Hr2 _]. rewrite word_bytes_app. apply reads6_words; [done|].
    replace (word_bytes [List.last (w :: r) 0]) with (be16 (List.last (w :: r) 0)) by (unfold word_bytes; cbn [map concat]; by rewrite app_nil_r). by apply reads6_word.
Qed.

(** The text of an address is read as the address. *)
Lemma address6_read tmp4 m p ws dst : zlen tmp4 = 4 -> bytes m -> length ws = 8%nat -> Forall word ws -> points m p (address6 ws) -> 16 <= zlen dst -> inet_pton6 tmp4 m p dst = Ok (1, splice dst 0 (word_bytes ws)).
Proof.
  intros H4 Hm Hl Hws Hp Hd. pose proof (best_run_ok ws Hl) as Hrun. destruct (best_of_ok ws Hl) as [Hbest _]. unfold address6 in Hp. set (best := best_of ws) in *. destruct (decide (base best = -1)) as [Hb|Hb].
  - destruct (explicit_words ws Hl) as (w0 & w1 & w2 & w3 & w4 & w5 & w6 & w7 & Ews). destruct best as [b l] eqn:Eb. cbn [base] in Hb. subst b. unfold closing in Hp. cbn [base Z.eqb negb andb] in Hp. rewrite app_nil_r, Ews, text6_full in Hp. rewrite Ews in Hws |- *.
    replace [w0; w1; w2; w3; w4; w5; w6; w7] with ([w0; w1; w2; w3; w4; w5; w6] ++ [w7]) in * by done. apply Forall_app in Hws as [Hw1 Hw2]. apply Forall_cons in Hw2 as [Hw7 _]. rewrite word_bytes_app. replace (word_bytes [w7]) with (be16 w7) by (unfold word_bytes; cbn [map concat]; by rewrite app_nil_r).
    apply (read_full tmp4 m _ _ p dst (reads6_words tmp4 m _ _ _ Hw1 (reads6_word tmp4 m w7 Hw7)) Hp); [|done|done]. apply Forall_cons in Hw1 as [Hw0 _]. destruct (hexw_digits w0 Hw0) as (Hx & _ & Hnil). change (pw [w0; w1; w2; w3; w4; w5; w6]) with ((hexw w0 ++ [58]) ++ pw [w1; w2; w3; w4; w5; w6]).
    destruct (hexw w0) as [|c r]; [done|]. inversion_clear Hx as [|? ? ? ? (Hc & _) _]. cbn [app hd]. intros ->. done.
  - destruct Hbest as [Hbest|(Hb0 & Hb2 & Hz)]; [done|]. pose proof (tail6_reads tmp4 m ws best H4 Hm Hl Hws Hrun Hb) as Htail. pose proof (zeros_at_split ws _ _ Hz ltac:(lia)) as Hsplit. set (t1 := take (Z.to_nat (base best)) ws) in *. set (t2 := drop (Z.to_nat (base best + len best)) ws) in *.
    assert (Hlen : (length t1 + Z.to_nat (len best) + length t2 = 8)%nat) by (rewrite <- Hl, Hsplit at 1; rewrite !length_app, repeat_length; lia).
    assert (Htext : points m p ((if decide (t1 = []) then [58] else []) ++ pw t1 ++ [58] ++ tail6 ws (dotted (nth 6 ws 0 / 256 mod 256) (nth 6 ws 0 mod 256) (nth 7 ws 0 / 256 mod 256) (nth 7 ws 0 mod 256)) (nth 5 ws 0 =? 0xffff) best)).
    { destruct (explicit_words ws Hl) as (w0 & w1 & w2 & w3 & w4 & w5 & w6 & w7 & Ews). unfold t1. rewrite Ews in Hp |- *. rewrite <- text6_run by done. exact Hp. }
    assert (Hw1 : Forall word t1) by (by apply Forall_take). pose proof (word_bytes_len t1) as L1. pose proof (word_bytes_len t2) as L2. assert (Hlz : zlen t1 + len best + zlen t2 = 8) by (unfold zlen; lia).
    rewrite (read_abbreviated tmp4 m t1 _ _ p dst Hw1 Htail (word_bytes_bytes t2)); [|lia|done|done]. rewrite Hsplit at 1. rewrite !word_bytes_app, word_bytes_zeros. replace (16 - length (word_bytes t1 ++ word_bytes t2))%nat with (2 * Z.to_nat (len best))%nat; [done|]. rewrite length_app. unfold zlen in *. lia.
Qed.

(** ** Theorems *)

(** C8: An address of either family that [apr_inet_ntop] has written into a buffer of 46
    (or 16) bytes or more is a C string, written at the start of the buffer and nowhere
    else, that [apr_inet_pton] reads as the same address, wherever it is; for all
    addresses, the abbreviated ones and those that end in decimal included. *)
Theorem inet_roundtrip P nb buf5 tmp0 tmp4 src dst size : macros_ok P -> zlen nb = 512 -> zlen tmp0 = 46 -> zlen tmp4 = 4 -> bytes src -> size <= zlen dst ->
  (zlen src = 4 -> 16 <= size -> exists text, apr_inet_ntop P nb buf5 tmp0 AF_INET src dst size = Ok (Some (splice dst 0 (text ++ [0]))) /\ 0 ∉ text /\ zlen text <= 15 /\
     forall m p dst', bytes m -> points m p text -> 4 <= zlen dst' -> apr_inet_pton tmp4 AF_INET m p dst' = Ok (1, splice dst' 0 src)) /\
  (zlen src = 16 -> 46 <= size -> exists text, apr_inet_ntop P nb buf5 tmp0 AF_INET6 src dst size = Ok (Some (splice dst 0 (text ++ [0]))) /\ 0 ∉ text /\ zlen text <= 45 /\
     forall m p dst', bytes m -> points m p text -> 16 <= zlen dst' -> apr_inet_pton tmp4 AF_INET6 m p dst' = Ok (1, splice dst' 0 src)).
Proof.
  intros HP Hnb Htmp H4 Hb Hd. split; intros Hl Hs; unfold apr_inet_ntop, apr_inet_pton.
  - do 4 (destruct src as [|? src]; [done|]). destruct src; [|repeat rewrite zlen_cons in Hl; pose proof (zlen_nonneg src); lia]. exists (dotted z z0 z1 z2). split; [apply inet_ntop4_ok; [by exists [], []|done|lia|lia|lia]|]. split; [by apply dotted_nz|]. split; [by apply dotted_bound|].
    intros m p dst' Hm Hp Hd'. rewrite (inet_pton4_ok tmp4 m p (dotted z z0 z1 z2)) by (try done; lia). by rewrite quad_dotted.
  - destruct (inet_ntop6_ok P nb buf5 tmp0 src dst size HP Hnb Htmp Hb Hl Hd) as (ws & Hlen & Hws & Es & Hnz & Hx & ->). exists (address6 ws). replace (zlen (address6 ws) + 1 >? size) with false by lia. split; [done|]. split; [done|]. split; [done|].
    intros m p dst' Hm Hp Hd'. rewrite Es. by apply address6_read.
Qed.

Lemma inet_roundtrip_witness : exists text, apr_inet_ntop linux64 (repeat 0 512) (repeat 0 5) (repeat 9 46) AF_INET6 [32; 1; 13; 184; 0; 0; 0; 0; 0; 0; 0; 0; 0; 0; 0; 1] (repeat 7 50) 50 = Ok (Some (splice (repeat 7 50) 0 (text ++ [0]))).
Proof.
  destruct (proj2 (inet_roundtrip linux64 (repeat 0 512) (repeat 0 5) (repeat 9 46) (repeat 9 4) [32; 1; 13; 184; 0; 0; 0; 0; 0; 0; 0; 0; 0; 0; 0; 1] (repeat 7 50) 50 linux64_macros eq_refl eq_refl eq_refl ltac:(repeat constructor; unfold is_byte; lia) ltac:(vm_compute; congruence)) eq_refl ltac:(lia)) as (text & H & _).
  exists text. exact H.
Defined.

(** [apr_inet_pton] accepts exactly the dotted quads for IPv4: four numbers from 0 to
    255 of one or more digits with dots between them, which it stores; for any other text
    it returns 0 and does not touch the destination. It returns for every text. *)
Theorem pton4_exact tmp4 m p t dst : zlen tmp4 = 4 -> bytes m -> points m p t -> 4 <= zlen dst ->
  (forall vs, quad_text 3 0 false t vs -> apr_inet_pton tmp4 AF_INET m p dst = Ok (1, splice dst 0 vs)) /\
  ((forall vs, ~ quad_text 3 0 false t vs) -> apr_inet_pton tmp4 AF_INET m p dst = Ok (0, dst)).
Proof.
  intros H4 Hm Hp Hd. unfold apr_inet_pton. rewrite (inet_pton4_ok tmp4 m p t) by (try done; lia). destruct (quad t 3 0 false) as [vs|] eqn:E.
  - split; [|intros H; exfalso; apply (H vs), quad_spec; [lia|done]]. intros vs' H. apply quad_spec in H; [|lia]. by assert (vs' = vs) as -> by congruence.
  - split; [|done]. intros vs' H. apply quad_spec in H; [congruence|lia].
Qed.

Lemma pton4_exact_witness : apr_inet_pton (repeat 9 4) AF_INET (str "10.0.0.300" ++ [0]) 0 (repeat 7 4) = Ok (0, repeat 7 4).
Proof.
  assert (Hp : points (str "10.0.0.300" ++ [0]) 0 (str "10.0.0.300")) by (split; [by exists [], []|apply occurs_false; reflexivity]).
  apply (proj2 (pton4_exact (repeat 9 4) (str "10.0.0.300" ++ [0]) 0 (str "10.0.0.300") (repeat 7 4) eq_refl ltac:(repeat constructor; unfold is_byte; lia) Hp ltac:(vm_compute; congruence))).
  intros vs H. apply quad_spec in H; [|lia]. vm_compute in H. discriminate.
Defined.

(** What [apr_inet_ntop] writes for IPv6. The words are in hexadecimal without leading
    zeros; the first of the longest runs of two or more zero words is abbreviated, and
    nothing if there is no such run; the last four bytes are in decimal after a run of six
    words, or of five and ffff, at the start; a buffer that is too small gives NULL. *)
Theorem ntop6_shortest P nb buf5 tmp0 src dst size : macros_ok P -> zlen nb = 512 -> zlen tmp0 = 46 -> bytes src -> zlen src = 16 -> size <= zlen dst ->
  exists ws text, length ws = 8%nat /\ Forall word ws /\ src = word_bytes ws /\
    apr_inet_ntop P nb buf5 tmp0 AF_INET6 src dst size = (if zlen text + 1 >? size then Ok None else Ok (Some (splice dst 0 (text ++ [0])))) /\
    ((forall b l, 2 <= l -> zeros_at ws b l = false) -> text = pw (take 7 ws) ++ hexw (nth 7 ws 0)) /\
    (forall b l, 2 <= l -> zeros_at ws b l = true -> (forall b' l', 2 <= l' -> zeros_at ws b' l' = true -> l' < l \/ l' = l /\ b <= b') ->
       text = (if decide (take (Z.to_nat b) ws = []) then [58] else []) ++ pw (take (Z.to_nat b) ws) ++ [58] ++
              tail6 ws (dotted (nth 6 ws 0 / 256 mod 256) (nth 6 ws 0 mod 256) (nth 7 ws 0 / 256 mod 256) (nth 7 ws 0 mod 256)) (nth 5 ws 0 =? 0xffff) {| base := b; len := l |}).
Proof.
  intros HP Hnb Htmp Hb Hl Hd. destruct (inet_ntop6_ok P nb buf5 tmp0 src dst size HP Hnb Htmp Hb Hl Hd) as (ws & Hlen & Hws & Es & _ & _ & E). exists ws, (address6 ws). split; [done|]. split; [done|]. split; [done|]. split; [exact E|].
  destruct (best_of_ok ws Hlen) as [Hbest Hlong]. pose proof (best_run_ok ws Hlen) as Hrun. unfold address6. set (best := best_of ws) in *. destruct (explicit_words ws Hlen) as (w0 & w1 & w2 & w3 & w4 & w5 & w6 & w7 & Ews). split.
  - intros Hno. destruct Hbest as [Hb1|(_ & Hb2 & Hz)]; [|rewrite Hno in Hz by lia; done]. destruct best as [b l]. cbn [base] in Hb1. subst b. unfold closing. cbn [base Z.eqb negb andb]. rewrite Ews, app_nil_r, text6_full. done.
  - intros b l Hl2 Hz Hfirst. destruct (Hlong b l Hl2 Hz) as [Hne Hle]. destruct Hbest as [Hb1|(Hb0 & Hb2 & Hz')]; [done|]. pose proof (Hfirst _ _ Hb2 Hz') as Hle'. assert (best = {| base := b; len := l |}) as Eb by (destruct best as [b' l']; cbn [base len] in *; f_equal; lia).
    rewrite Ews. cbv zeta. rewrite text6_run by done. by rewrite Eb.
Qed.

Lemma ntop6_shortest_witness : exists (ws text : list Z), length ws = 8%nat /\ apr_inet_ntop linux64 (repeat 0 512) (repeat 0 5) (repeat 9 46) AF_INET6 (repeat 0 15 ++ [1]) (repeat 7 50) 10 = (if zlen text + 1 >? 10 then Ok None else Ok (Some (splice (repeat 7 50) 0 (text ++ [0])))) .
Proof.
  destruct (ntop6_shortest linux64 (repeat 0 512) (repeat 0 5) (repeat 9 46) (repeat 0 15 ++ [1]) (repeat 7 50) 10 linux64_macros eq_refl eq_refl ltac:(repeat constructor; unfold is_byte; lia) eq_refl ltac:(vm_compute; congruence)) as (ws & text & H1 & _ & _ & H2 & _).
  exists ws, text. exact (conj H1 H2).
Defined.

(** ** Where the code departs from its comments *)

(** Two colons in a full address are not ignored: the last word is cleared. *)
Lemma colons_in_full_address : apr_inet_pton (repeat 9 4) AF_INET6 (str "1:2:3:4:5:6:7::8" ++ [0]) 0 (repeat 7 16) = Ok (1, [0; 1; 0; 2; 0; 3; 0; 4; 0; 5; 0; 6; 0; 7; 0; 0]).
Proof. vm_compute. reflexivity. Qed.

(** A colon at the end is accepted after two colons. *)
Lemma trailing_colon : apr_inet_pton (repeat 9 4) AF_INET6 (str "::1:" ++ [0]) 0 (repeat 7 16) = Ok (1, repeat 0 15 ++ [1]).
Proof. vm_compute. reflexivity. Qed.
