(* ===== verification/ExpatHash.v ===== *)
(** * Expat's hash tables: [src/apr-util/xml/expat/lib/xmlparse.c]

    The tables of elements, attributes, prefixes and entities: open addressing with
    double hashing over a number of slots that is a power of two. A [NAMED] object is its
    address and its name, a C string without its terminator; what [malloc_fcn] answers
    is an argument of the calls. *)

From S2P Require Import Prelude.

(** ** Data *)

Record named := { n_ptr : Z; n_name : list Z }.

(** [v] is NULL before the first entry. *)
Record table := { t_v : option (list (option named)); t_power : Z; t_size : Z; t_used : Z }.

Definition INIT_POWER : Z := 6.

Section Hash.
  Context (ulong : Z).   (* the bits of an unsigned long *)

(** [CHAR_HASH] without XML_UNICODE. *)
Definition CHAR_HASH (h c : Z) : Z := Z.lxor ((h * 0xF4243) mod 2 ^ ulong) (u8 c).

Definition hash (s : list Z) : Z := foldl CHAR_HASH 0 s.

(** [~mask] is taken in an unsigned long. *)
Definition SECOND_HASH (h mask power : Z) : Z :=
  Z.land (Z.shiftr (Z.land h (2 ^ ulong - 1 - mask)) (power - 1)) (Z.shiftr mask 2).

Definition PROBE_STEP (h mask power : Z) : Z := u8 (Z.lor (SECOND_HASH h mask power) 1).

(** [(unsigned long)size - 1] *)
Definition mask_of (size : Z) : Z := (size - 1) mod 2 ^ ulong.

(** [*s1 == *s2] up to the terminators. *)
Fixpoint keyeq (s1 s2 : list Z) : bool :=
  match s1, s2 with
  | [], [] => true
  | x :: s1, y :: s2 => (x =? y) && keyeq s1 s2
  | _, _ => false
  end.

(** [v[i]] *)
Definition slot (v : list (option named)) (i : Z) : res (option named) :=
  if 0 <=? i then of_option OutOfBounds (v !! Z.to_nat i) else Err OutOfBounds.

(** [i < step ? (i += size - step) : (i -= step)] *)
Definition next_slot (i step size : Z) : Z := if i <? step then i + (size - step) else i - step.

(** The search for a name: the slot and the entry, if it is there. *)
Fixpoint find_entry (fuel : nat) (v : list (option named)) (size h mask power : Z) (name : list Z) (i step : Z) : res (Z * option named) :=
  match fuel with
  | O => Err OutOfFuel
  | S fuel =>
      do e <- slot v i;
      match e with
      | None => Ok (i, None)
      | Some n =>
          if keyeq name (n_name n) then Ok (i, Some n) else
          let step := if step =? 0 then PROBE_STEP h mask power else step in
          find_entry fuel v size h mask power name (next_slot i step size) step
      end
  end.

(** The search for a free slot. *)
Fixpoint find_free (fuel : nat) (v : list (option named)) (size h mask power i step : Z) : res Z :=
  match fuel with
  | O => Err OutOfFuel
  | S fuel =>
      do e <- slot v i;
      match e with
      | None => Ok i
      | Some _ =>
          let step := if step =? 0 then PROBE_STEP h mask power else step in
          find_free fuel v size h mask power (next_slot i step size) step
      end
  end.

(** The slots of [old] into [newV]. *)
Fixpoint rehash (old newV : list (option named)) (newSize newMask newPower : Z) : res (list (option named)) :=
  match old with
  | [] => Ok newV
  | None :: old => rehash old newV newSize newMask newPower
  | Some n :: old =>
      let newHash := hash (n_name n) in
      do j <- find_free (S (length newV)) newV newSize newHash newMask newPower (Z.land newHash newMask) 0;
      do newV <- store newV j (Some n);
      rehash old newV newSize newMask newPower
  end.

(** The part after a slot has been found: the entry is made at [i]. *)
Definition make_entry (ok_entry : bool) (fresh : Z) (name : list Z) (t : table) (v : list (option named)) (i : Z) : res (option Z * table) :=
  let e := if ok_entry then Some {| n_ptr := fresh; n_name := name |} else None in
  do v <- store v i e;
  if ok_entry then Ok (Some fresh, {| t_v := Some v; t_power := t_power t; t_size := t_size t; t_used := u64 (t_used t + 1) |})
  else Ok (None, {| t_v := Some v; t_power := t_power t; t_size := t_size t; t_used := t_used t |}).

(** [ok_table] and [ok_entry] tell whether the allocations of slots and of an entry
    succeed, [fresh] is the address of a new entry; [createSize] matters only by being
    zero. The entry, or NULL, and the table. *)
Definition lookup (ok_table ok_entry : bool) (fresh : Z) (t : table) (name : list Z) (createSize : Z) : res (option Z * table) :=
  if t_size t =? 0 then
    if createSize =? 0 then Ok (None, t) else
    let t := {| t_v := t_v t; t_power := INIT_POWER; t_size := Z.shiftl 1 INIT_POWER; t_used := t_used t |} in
    if negb ok_table then Ok (None, {| t_v := None; t_power := t_power t; t_size := t_size t; t_used := t_used t |}) else
    let v := repeat None (Z.to_nat (t_size t)) in
    make_entry ok_entry fresh name t v (Z.land (hash name) (mask_of (t_size t)))
  else
    do v <- of_option OutOfBounds (t_v t);
    let h := hash name in
    let mask := mask_of (t_size t) in
    do (i, e) <- find_entry (S (length v)) v (t_size t) h mask (t_power t) name (Z.land h mask) 0;
    match e with
    | Some n => Ok (Some (n_ptr n), t)
    | None =>
        if createSize =? 0 then Ok (None, t) else
        if negb (Z.shiftr (t_used t) (t_power t - 1) =? 0) then
          let newPower := u8 (t_power t + 1) in
          let newSize := u64 (Z.shiftl 1 newPower) in
          let newMask := mask_of newSize in
          if negb ok_table then Ok (None, t) else
          do newV <- rehash v (repeat None (Z.to_nat newSize)) newSize newMask newPower;
          let t := {| t_v := Some newV; t_power := newPower; t_size := newSize; t_used := t_used t |} in
          do i <- find_free (S (length newV)) newV newSize h newMask newPower (Z.land h newMask) 0;
          make_entry ok_entry fresh name t newV i
        else make_entry ok_entry fresh name t v i
    end.

End Hash.

(** The addresses that are freed, NULL left out, and the table. *)
Definition hashTableClear (t : table) : res (list Z * table) :=
  if t_size t =? 0 then Ok ([], {| t_v := t_v t; t_power := t_power t; t_size := t_size t; t_used := 0 |}) else
  do v <- of_option OutOfBounds (t_v t);
  Ok (omap (option_map n_ptr) v, {| t_v := Some (repeat None (length v)); t_power := t_power t; t_size := t_size t; t_used := 0 |}).

Definition hashTableDestroy (t : table) : res (list Z) :=
  if t_size t =? 0 then Ok [] else do v <- of_option OutOfBounds (t_v t); Ok (omap (option_map n_ptr) v).

Definition hashTableInit : table := {| t_v := None; t_power := 0; t_size := 0; t_used := 0 |}.

(** [p] and [end] as indices. *)
Record HASH_TABLE_ITER := { it_p : Z; it_end : Z }.

Definition hashTableIterInit (t : table) : HASH_TABLE_ITER := {| it_p := 0; it_end := t_size t |}.

(** [fuel] is at least the number of slots that are left. *)
Fixpoint iter_next (fuel : nat) (v : list (option named)) (it : HASH_TABLE_ITER) : res (option named * HASH_TABLE_ITER) :=
  if it_p it =? it_end it then Ok (None, it) else
  match fuel with
  | O => Err OutOfFuel
  | S fuel =>
      do tem <- slot v (it_p it);
      let it := {| it_p := it_p it + 1; it_end := it_end it |} in
      match tem with Some n => Ok (Some n, it) | None => iter_next fuel v it end
  end.

Definition hashTableIterNext (t : table) (it : HASH_TABLE_ITER) : res (option named * HASH_TABLE_ITER) :=
  iter_next (Z.to_nat (t_size t)) (default [] (t_v t)) it.

(** The loop of the callers: every entry that [hashTableIterNext] gives. *)
Fixpoint iterate (fuel : nat) (t : table) (it : HASH_TABLE_ITER) : res (list named) :=
  match fuel with
  | O => Err OutOfFuel
  | S fuel =>
      do (e, it) <- hashTableIterNext t it;
      match e with None => Ok [] | Some n => do l <- iterate fuel t it; Ok (n :: l) end
  end.
