(* ===== verification/ExpatHashProbe.v ===== *)
(** * Probing in Expat's hash tables

    The step is odd and the number of slots a power of two, so that a search meets every
    slot; an entry lies behind slots that are full, and so it is found. *)

From S2P Require Import Prelude ExpatHash.

Lemma keyeq_eq s1 : forall s2, keyeq s1 s2 = bool_decide (s1 = s2).
Proof.
  induction s1 as [|x s1 IH]; intros [|y s2]; cbn [keyeq]; [done|done|done|]. rewrite IH. destruct (Z.eqb_spec x y) as [->|Hne]; cbn [andb]; [apply bool_decide_ext; naive_solver|]. symmetry. apply bool_decide_eq_false. congruence.
Qed.

Section Probe.
  Context (ulong : Z) (Hulong : 32 <= ulong).

(** ** The step *)

Lemma step_ok h mask power : 3 <= power < ulong -> mask = 2 ^ power - 1 -> let step := PROBE_STEP ulong h mask power in Z.odd step = true /\ 0 < step < 2 ^ power.
Proof using Hulong.
  intros Hp -> step. unfold PROBE_STEP in step. set (x := SECOND_HASH ulong h (2 ^ power - 1) power) in *. assert (Hx : fits (power - 2) (Z.lor x 1)).
  { apply fits_lor; [lia| |]. 
    - unfold x, SECOND_HASH. apply fits_land_r; [lia|]. apply fits_shiftr; [lia|lia|]. replace (power - 2 + 2) with power by lia. assert (0 < 2 ^ power) by (apply Z.pow_pos_nonneg; lia). unfold fits. lia.
    - unfold fits. split; [lia|]. change 1 with (2 ^ 0). apply Z.pow_lt_mono_r; lia. }
  assert (Hodd : Z.odd step = true). { unfold step. rewrite <- Z.bit0_odd, u8_testbit by lia. rewrite Z.lor_spec. apply orb_true_r. }
  assert (Hle : 0 <= step <= Z.lor x 1). { unfold step, u8. pose proof (Z.mod_pos_bound (Z.lor x 1) (2 ^ 8)). destruct Hx. split; [lia|]. apply Z.mod_le; lia. }
  split; [done|]. assert (step <> 0) by (intros E; rewrite E in Hodd; done). unfold fits in Hx. assert (2 ^ (power - 2) <= 2 ^ power) by (apply Z.pow_le_mono_r; lia). lia.
Qed.

Lemma next_slot_mod i step size : 0 <= i < size -> 0 < step < size -> next_slot i step size = (i - step) mod size.
Proof using Type.
  intros Hi Hs. unfold next_slot. destruct (Z.ltb_spec i step); [|rewrite Z.mod_small; lia]. rewrite <- (Z_mod_plus_full (i - step) 1 size), Z.mod_small; lia.
Qed.

(** ** The slots that are met *)

Section Path.
  Context (power step h : Z) (Hpower : 3 <= power) (Hodd : Z.odd step = true) (Hstep : 0 < step < 2 ^ power).
  Notation size := (2 ^ power).

Definition probe (k : nat) : Z := (h - Z.of_nat k * step) mod size.

Lemma size_pos : 0 < size.
Proof using Hpower. apply Z.pow_pos_nonneg; lia. Qed.

Lemma probe_range k : 0 <= probe k < size.
Proof using Hpower. apply Z.mod_pos_bound, size_pos. Qed.

Lemma probe_next k : next_slot (probe k) step size = probe (S k).
Proof using Hpower Hstep. rewrite next_slot_mod; [|apply probe_range|done]. unfold probe. rewrite Zminus_mod_idemp_l. f_equal. lia. Qed.

Lemma odd_divides (p : nat) : forall k, (2 ^ Z.of_nat p | k * step) -> (2 ^ Z.of_nat p | k).
Proof using Hodd Hpower.
  induction p as [|p IH]; intros k H; [exists k; cbn; lia|]. rewrite Nat2Z.inj_succ, Z.pow_succ_r in * by lia. destruct H as [q Hq]. assert (Hk : Z.odd k = false).
  { assert (E : Z.odd (k * step) = Z.odd (q * (2 * 2 ^ Z.of_nat p))) by (by rewrite Hq). rewrite !Z.odd_mul, Hodd in E. cbn in E. by rewrite andb_true_r, andb_false_r in E. }
  rewrite <- Z.negb_even in Hk. apply negb_false_iff, Z.even_spec in Hk as [k' ->]. destruct (IH k') as [r Hr]; [exists q; lia|]. exists r. lia.
Qed.

(** Every slot is met, and none twice in [size] steps. *)
Lemma probe_inj k1 k2 : (k1 < Z.to_nat size)%nat -> (k2 < Z.to_nat size)%nat -> probe k1 = probe k2 -> k1 = k2.
Proof using Hpower Hodd Hstep.
  intros H1 H2 E. pose proof size_pos as Hpos. unfold probe in E. assert (Hd : (size | (Z.of_nat k1 - Z.of_nat k2) * step)).
  { pose proof (Z.div_mod (h - Z.of_nat k1 * step) size ltac:(lia)) as D1. pose proof (Z.div_mod (h - Z.of_nat k2 * step) size ltac:(lia)) as D2. rewrite E in D1. exists ((h - Z.of_nat k2 * step) / size - (h - Z.of_nat k1 * step) / size). lia. }
  replace power with (Z.of_nat (Z.to_nat power)) in Hd at 1 by lia. apply odd_divides in Hd. replace (Z.of_nat (Z.to_nat power)) with power in Hd by lia. destruct Hd as [q Hq]. assert (q = 0) by nia. lia.
Qed.

Lemma probe_onto j : 0 <= j < size -> exists k, (k < Z.to_nat size)%nat /\ probe k = j.
Proof using Hpower Hodd Hstep.
  intros Hj. set (n := Z.to_nat size). set (range := map Z.of_nat (seq 0 n)). assert (Hnd : List.NoDup (map probe (seq 0 n))).
  { apply Finite.Injective_map_NoDup_in; [|apply seq_NoDup]. intros x y Hx Hy E. apply in_seq in Hx, Hy. apply probe_inj; [lia|lia|done]. }
  assert (Hin : incl range (map probe (seq 0 n))).
  { apply NoDup_length_incl; [done|unfold range; rewrite !length_map; lia|]. intros x Hx. apply in_map_iff in Hx as (k & <- & _). pose proof (probe_range k). apply in_map_iff. exists (Z.to_nat (probe k)). split; [lia|]. apply in_seq. unfold n. lia. }
  assert (Hjr : In j range) by (apply in_map_iff; exists (Z.to_nat j); split; [lia|apply in_seq; unfold n; lia]). apply Hin, in_map_iff in Hjr as (k & E & Hk). apply in_seq in Hk. exists k. split; [unfold n in Hk; lia|done].
Qed.

End Path.

(** ** Searching *)

Section Search.
  Context (power : Z) (Hpower : 3 <= power < ulong) (v : list (option named)) (Hv : zlen v = 2 ^ power).
  Notation size := (2 ^ power).
  Notation mask := (2 ^ power - 1).

(** The slots that a name meets. *)
Definition path (name : list Z) (k : nat) : Z := probe power (PROBE_STEP ulong (hash ulong name) mask power) (hash ulong name) k.

Definition at_slot (i : Z) : option named := mjoin (v !! Z.to_nat i).

Lemma path_range name k : 0 <= path name k < size.
Proof using Hpower. apply probe_range. lia. Qed.

Lemma slot_at i : 0 <= i < size -> slot v i = Ok (at_slot i).
Proof using Hpower Hv.
  intros Hi. unfold slot, at_slot. replace (0 <=? i) with true by lia. destruct (v !! Z.to_nat i) as [e|] eqn:E; [done|]. apply lookup_ge_None in E. unfold zlen in Hv. lia.
Qed.

Lemma path_start name : Z.land (hash ulong name) mask = path name 0.
Proof using Hpower. unfold path, probe. replace mask with (Z.ones power) by (rewrite Z.ones_equiv; lia). rewrite Z.land_ones by lia. f_equal; lia. Qed.

Lemma path_next name k : next_slot (path name k) (PROBE_STEP ulong (hash ulong name) mask power) size = path name (S k).
Proof using Hpower Hulong. apply probe_next; [lia|]. by apply step_ok. Qed.

Definition step_at (name : list Z) (k : nat) : Z := match k with O => 0 | S _ => PROBE_STEP ulong (hash ulong name) mask power end.

Lemma step_at_next name k : (if step_at name k =? 0 then PROBE_STEP ulong (hash ulong name) mask power else step_at name k) = step_at name (S k).
Proof using Hpower Hulong. destruct k as [|k]; [done|]. cbn [step_at]. destruct (step_ok (hash ulong name) mask power Hpower eq_refl) as [_ H]. cbv zeta in H. by replace (PROBE_STEP ulong (hash ulong name) mask power =? 0) with false by lia. Qed.

(** The first [k] slots have entries with other names. *)
Definition passes (name : list Z) (k : nat) : Prop := forall s, (s < k)%nat -> exists n, at_slot (path name s) = Some n /\ n_name n <> name.

(** The first [k] slots have entries. *)
Definition occupied (name : list Z) (k : nat) : Prop := forall s, (s < k)%nat -> is_Some (at_slot (path name s)).

Lemma find_entry_from name K : at_slot (path name K) = None -> forall fuel k, (k <= K < k + fuel)%nat -> passes name k ->
  exists k', (k' <= K)%nat /\ passes name k' /\ (forall n, at_slot (path name k') = Some n -> n_name n = name)
    /\ find_entry ulong fuel v size (hash ulong name) mask power name (path name k) (step_at name k) = Ok (path name k', at_slot (path name k')).
Proof using Hpower Hulong Hv.
  intros HK. induction fuel as [|fuel IH]; intros k Hk Hpass; [lia|]. cbn [find_entry]. rewrite slot_at by apply path_range. cbn [rbind]. destruct (at_slot (path name k)) as [n|] eqn:E.
  - rewrite keyeq_eq. case_bool_decide as Hn.
    + exists k. split; [lia|]. split; [done|]. rewrite E. split; [|done]. intros ? [= <-]. done.
    + cbv zeta. rewrite step_at_next. cbn [step_at]. rewrite path_next. change (PROBE_STEP ulong (hash ulong name) mask power) with (step_at name (S k)). apply IH.
      * assert (k <> K) by (intros ->; congruence). lia.
      * intros s Hs. destruct (decide (s = k)) as [->|]; [exists n; split; [done|congruence]|apply Hpass; lia].
  - exists k. split; [lia|]. split; [done|]. rewrite E. done.
Qed.

Lemma find_free_from name K : at_slot (path name K) = None -> forall fuel k, (k <= K < k + fuel)%nat -> occupied name k ->
  exists k', (k' <= K)%nat /\ occupied name k' /\ at_slot (path name k') = None /\ find_free ulong fuel v size (hash ulong name) mask power (path name k) (step_at name k) = Ok (path name k').
Proof using Hpower Hulong Hv.
  intros HK. induction fuel as [|fuel IH]; intros k Hk Hpass; [lia|]. cbn [find_free]. rewrite slot_at by apply path_range. cbn [rbind]. destruct (at_slot (path name k)) as [n|] eqn:E.
  - cbv zeta. rewrite step_at_next. cbn [step_at]. rewrite path_next. change (PROBE_STEP ulong (hash ulong name) mask power) with (step_at name (S k)). apply IH.
    + assert (k <> K) by (intros ->; congruence). lia.
    + intros s Hs. destruct (decide (s = k)) as [->|]; [eauto|apply Hpass; lia].
  - exists k. split; [lia|]. done.
Qed.

(** A free slot is on the path of every name. *)
Lemma free_on_path name : (exists j, v !! j = Some None) -> exists K, (K < length v)%nat /\ at_slot (path name K) = None.
Proof using Hpower Hulong Hv.
  intros [j Hj]. pose proof (lookup_lt_Some _ _ _ Hj) as Hlt. destruct (step_ok (hash ulong name) mask power Hpower eq_refl) as [Hodd Hs]. destruct (probe_onto power _ (hash ulong name) ltac:(lia) Hodd Hs (Z.of_nat j)) as (K & HK & E); [unfold zlen in Hv; lia|].
  exists K. split; [unfold zlen in Hv; lia|]. unfold at_slot, path. rewrite E, Nat2Z.id, Hj. done.
Qed.

Lemma find_entry_ok name : (exists j, v !! j = Some None) ->
  exists k, passes name k /\ (forall n, at_slot (path name k) = Some n -> n_name n = name)
    /\ find_entry ulong (S (length v)) v size (hash ulong name) mask power name (Z.land (hash ulong name) mask) 0 = Ok (path name k, at_slot (path name k)).
Proof using Hpower Hulong Hv.
  intros Hfree. destruct (free_on_path name Hfree) as (K & HK & Hnone). destruct (find_entry_from name K Hnone (S (length v)) 0 ltac:(lia) ltac:(intros s Hs; lia)) as (k & _ & Hp & Hn & E). exists k. rewrite path_start. done.
Qed.

Lemma find_free_ok name : (exists j, v !! j = Some None) ->
  exists k, occupied name k /\ at_slot (path name k) = None /\ find_free ulong (S (length v)) v size (hash ulong name) mask power (Z.land (hash ulong name) mask) 0 = Ok (path name k).
Proof using Hpower Hulong Hv.
  intros Hfree. destruct (free_on_path name Hfree) as (K & HK & Hnone). destruct (find_free_from name K Hnone (S (length v)) 0 ltac:(lia) ltac:(intros s Hs; lia)) as (k & _ & Hp & Hn & E). exists k. rewrite path_start. done.
Qed.

End Search.
End Probe.
