(* ===== verification/ExpatHashMap.v ===== *)
(** * Expat's hash tables are finite maps

    The invariant of the slots, what the operations do with it, and the refinement of a
    finite map from names to addresses by any history of calls. *)

From S2P Require Import Prelude ExpatHash ExpatHashProbe.

(** ** The entries of the slots *)

Definition entries (v : list (option named)) : list named := omap id v.

(** The map that the slots stand for. *)
Definition binding (n : named) : list Z * Z := (n_name n, n_ptr n).
Definition contents (v : list (option named)) : gmap (list Z) Z := list_to_map (binding <$> entries v).

Lemma entries_insert v : forall j n, v !! j = Some None -> entries (<[j := Some n]> v) ≡ₚ n :: entries v.
Proof.
  unfold entries. induction v as [|e v IH]; intros [|j] n Hj; [done|done| |].
  - injection Hj as ->. done.
  - cbn in Hj. cbn [insert list_insert omap list_omap]. destruct e as [m|]; cbn [id]; [|by apply IH]. change (m :: omap id (<[j := Some n]> v) ≡ₚ n :: m :: omap id v). rewrite (IH j n Hj). apply Permutation_swap.
Qed.

Lemma entries_free v : (length (entries v) < length v)%nat -> exists j, v !! j = Some None.
Proof.
  unfold entries. induction v as [|[n|] v IH]; intros H; [cbn in H; lia| |by exists O]. destruct IH as [j Hj]; [cbn in H; lia|by exists (S j)].
Qed.

Lemma entries_length v : (length (entries v) <= length v)%nat.
Proof. unfold entries. induction v as [|[n|] v IH]; cbn in *; lia. Qed.

Lemma entries_none k : entries (repeat None k) = [].
Proof. unfold entries. induction k as [|k IH]; [done|exact IH]. Qed.

Lemma elem_of_entries v n : n ∈ entries v <-> exists j, v !! j = Some (Some n).
Proof. unfold entries. rewrite list_elem_of_omap. setoid_rewrite list_elem_of_lookup. naive_solver. Qed.

Lemma repeat_lookup {A} (x y : A) k j : repeat x k !! j = Some y -> y = x.
Proof. revert j. induction k as [|k IH]; intros [|j] H; [done|done| |by apply (IH j)]. by injection H. Qed.

Lemma repeat_lookup_lt {A} (x : A) k j : (j < k)%nat -> repeat x k !! j = Some x.
Proof. revert j. induction k as [|k IH]; intros [|j] H; [lia|lia|done|]. apply IH. lia. Qed.

Section Map.
  Context (ulong : Z) (Hulong : 32 <= ulong <= 64).

(** ** The invariant *)

Record slots_ok (power : Z) (v : list (option named)) : Prop := {
  so_size : zlen v = 2 ^ power;
  so_path : forall j n, v !! j = Some (Some n) -> exists k, path ulong power (n_name n) k = Z.of_nat j /\ occupied ulong power v (n_name n) k;
  so_names : NoDup (n_name <$> entries v) }.

Lemma at_slot_Some v (i : Z) n : at_slot v i = Some n <-> v !! Z.to_nat i = Some (Some n).
Proof using Type. unfold at_slot. destruct (v !! Z.to_nat i) as [[m|]|]; cbn; split; congruence. Qed.

Lemma at_slot_None v (i : Z) : 0 <= i < zlen v -> at_slot v i = None -> v !! Z.to_nat i = Some None.
Proof using Type. unfold at_slot, zlen. intros Hi. destruct (v !! Z.to_nat i) as [[m|]|] eqn:E; cbn; [done|done|]. apply lookup_ge_None in E. lia. Qed.

Lemma slots_ok_empty power : 0 <= power -> slots_ok power (repeat None (Z.to_nat (2 ^ power))).
Proof using Type.
  intros Hp. assert (0 < 2 ^ power) by (apply Z.pow_pos_nonneg; lia). split; [unfold zlen; rewrite repeat_length; lia| |].
  - intros j n Hj. by apply repeat_lookup in Hj.
  - rewrite entries_none. constructor.
Qed.

(** A search that ends at a free slot shows that the name is not there. *)
Lemma absent power v name k : slots_ok power v -> passes ulong power v name k -> at_slot v (path ulong power name k) = None -> name ∉ (n_name <$> entries v).
Proof using Type.
  intros [_ Hpath _] Hpass Hnone (n & Hname & Hin)%list_elem_of_fmap. apply elem_of_entries in Hin as [j Hj]. destruct (Hpath j n Hj) as (k' & Hk' & Hocc). rewrite <- Hname in Hk', Hocc.
  assert (Hat : at_slot v (path ulong power name k') = Some n) by (apply at_slot_Some; by rewrite Hk', Nat2Z.id). destruct (Nat.lt_trichotomy k' k) as [Hlt|[->|Hlt]].
  - destruct (Hpass k' Hlt) as (m & Hm & Hne). congruence.
  - congruence.
  - destruct (Hocc k Hlt) as [m Hm]. congruence.
Qed.

(** A new entry on the path of its name. *)
Lemma slots_ok_insert power v n k : 3 <= power < ulong -> slots_ok power v -> occupied ulong power v (n_name n) k -> at_slot v (path ulong power (n_name n) k) = None -> n_name n ∉ (n_name <$> entries v) ->
  let i := Z.to_nat (path ulong power (n_name n) k) in slots_ok power (<[i := Some n]> v) /\ entries (<[i := Some n]> v) ≡ₚ n :: entries v.
Proof using Type.
  intros Hpower [Hsize Hpath Hnames] Hocc Hnone Hnew i. pose proof (path_range ulong power Hpower (n_name n) k) as Hr. assert (Hfree : v !! i = Some None) by (apply at_slot_None; [lia|done]). pose proof (entries_insert v i n Hfree) as Hperm.
  assert (Hkeep : forall s k, occupied ulong power v s k -> occupied ulong power (<[i := Some n]> v) s k).
  { intros s k0 Hocc0 q Hq. destruct (Hocc0 q Hq) as [m Hm%at_slot_Some]. exists m. apply at_slot_Some. rewrite list_lookup_insert_ne; [done|congruence]. }
  split; [|done]. split; [unfold zlen; rewrite length_insert; exact Hsize| |].
  - intros j m Hj. destruct (decide (i = j)) as [<-|Hne].
    + rewrite list_lookup_insert_eq in Hj by (by eapply lookup_lt_Some). injection Hj as <-. exists k. split; [lia|]. by apply Hkeep.
    + rewrite list_lookup_insert_ne in Hj by done. destruct (Hpath j m Hj) as (k' & Hk' & Hocc'). exists k'. split; [done|]. by apply Hkeep.
  - rewrite Hperm. cbn. by apply NoDup_cons.
Qed.

(** ** The contents *)

Lemma binding_names l : (binding <$> l).*1 = n_name <$> l.
Proof using Type. rewrite <- list_fmap_compose. done. Qed.

Lemma contents_present power v n : slots_ok power v -> n ∈ entries v -> contents v !! n_name n = Some (n_ptr n).
Proof using Type. intros Hok Hin. apply elem_of_list_to_map_1; [rewrite binding_names; apply Hok|]. apply list_elem_of_fmap. by exists n. Qed.

Lemma contents_absent v name : name ∉ (n_name <$> entries v) -> contents v !! name = None.
Proof using Type. intros H. apply not_elem_of_list_to_map_1. by rewrite binding_names. Qed.

Lemma contents_perm v v' l : NoDup (n_name <$> l) -> l ≡ₚ entries v -> entries v' ≡ₚ l -> contents v' = contents v.
Proof using Type. intros Hnd H1 H2. apply list_to_map_proper; [rewrite binding_names, H2; done|]. by rewrite H2, H1. Qed.

Lemma contents_insert v v' n : NoDup (n_name <$> entries v') -> entries v' ≡ₚ n :: entries v -> contents v' = <[n_name n := n_ptr n]> (contents v).
Proof using Type. intros Hnd Hp. unfold contents. rewrite (list_to_map_proper _ (binding <$> (n :: entries v))); [done|by rewrite binding_names|by rewrite Hp]. Qed.

(** ** Moving the entries to more slots *)

Lemma mask_of_size power : 0 <= power <= ulong -> mask_of ulong (2 ^ power) = 2 ^ power - 1.
Proof using Type. intros Hp. unfold mask_of. assert (0 < 2 ^ power) by (apply Z.pow_pos_nonneg; lia). assert (2 ^ power <= 2 ^ ulong) by (apply Z.pow_le_mono_r; lia). apply Z.mod_small. lia. Qed.

(** An entry with a new name goes to the slot that the search finds. *)
Lemma place_entry_ok power v n : 3 <= power < ulong -> slots_ok power v -> n_name n ∉ (n_name <$> entries v) -> (length (entries v) < length v)%nat ->
  exists i v', find_free ulong (S (length v)) v (2 ^ power) (hash ulong (n_name n)) (2 ^ power - 1) power (Z.land (hash ulong (n_name n)) (2 ^ power - 1)) 0 = Ok i
    /\ v !! Z.to_nat i = Some None /\ 0 <= i < zlen v /\ v' = <[Z.to_nat i := Some n]> v /\ slots_ok power v' /\ entries v' ≡ₚ n :: entries v.
Proof using Hulong.
  intros Hp Hok Hnew Hlen. destruct (find_free_ok ulong ltac:(lia) power Hp v (so_size _ _ Hok) (n_name n) (entries_free v Hlen)) as (k & Hocc & Hnone & E).
  pose proof (path_range ulong power Hp (n_name n) k) as Hr. rewrite <- (so_size _ _ Hok) in Hr. exists (path ulong power (n_name n) k). eexists. split; [exact E|]. split; [by apply at_slot_None|]. split; [done|]. split; [done|]. by apply slots_ok_insert.
Qed.

Lemma rehash_ok power : 3 <= power < ulong -> forall old newV, slots_ok power newV -> NoDup (n_name <$> (entries old ++ entries newV)) -> (length (entries old) + length (entries newV) < length newV)%nat ->
  exists newV', rehash ulong old newV (2 ^ power) (2 ^ power - 1) power = Ok newV' /\ slots_ok power newV' /\ entries newV' ≡ₚ entries old ++ entries newV.
Proof using Hulong.
  intros Hp. induction old as [|[n|] old IH]; intros newV Hok Hnd Hlen; cbn [rehash]; [by exists newV| |by apply IH]. cbv zeta. change (entries (Some n :: old)) with (n :: entries old) in *. cbn in Hnd. apply NoDup_cons in Hnd as [Hnew Hnd].
  assert (Hn : n_name n ∉ (n_name <$> entries newV)) by (rewrite fmap_app in Hnew; set_solver). cbn [length] in Hlen. destruct (place_entry_ok power newV n Hp Hok Hn ltac:(lia)) as (i & v' & E & _ & Hi & Hv' & Hok' & Hperm).
  rewrite E. cbn [rbind]. rewrite store_ok by done. cbn [rbind]. rewrite <- Hv'. destruct (IH v' Hok') as (w & Ew & Hw & Hpw).
  - rewrite Hperm, <- Permutation_middle. cbn. by apply NoDup_cons.
  - rewrite Hperm. assert (length v' = length newV) by (by rewrite Hv', length_insert). cbn [length]. lia.
  - exists w. split; [done|]. split; [done|]. rewrite Hpw, Hperm. cbn. by rewrite Permutation_middle.
Qed.

(** ** The invariant of a table that has slots

    [count] bounds the entries that were ever made: it bounds the number of slots. *)
Record table_ok (count : Z) (t : table) (v : list (option named)) : Prop := {
  to_v : t_v t = Some v;
  to_power : INIT_POWER <= t_power t < ulong;
  to_size : t_size t = 2 ^ t_power t;
  to_slots : slots_ok (t_power t) v;
  to_used : t_used t = zlen (entries v);
  to_load : t_used t <= 2 ^ (t_power t - 1);
  to_made : t_used t <= count;
  to_grown : t_power t = INIT_POWER \/ 2 ^ (t_power t - 2) <= count }.

Lemma table_ok_more count count' t v : table_ok count t v -> count <= count' -> table_ok count' t v.
Proof using Type. intros [] H. split; try done; [lia|]. destruct to_grown0; [by left|right; lia]. Qed.

Lemma half_full (used power : Z) : 0 <= used <= 2 ^ (power - 1) -> 1 <= power -> negb (Z.shiftr used (power - 1) =? 0) = (used =? 2 ^ (power - 1)).
Proof using Type.
  intros Hu Hp. rewrite Z.shiftr_div_pow2 by lia. destruct (Z.eqb_spec used (2 ^ (power - 1))) as [->|Hne]; [rewrite Z.div_same by lia; done|]. by rewrite Z.div_small by lia.
Qed.

Lemma room power (v : list (option named)) : 1 <= power -> zlen v = 2 ^ power -> zlen (entries v) <= 2 ^ (power - 1) -> (length (entries v) < length v)%nat.
Proof using Type. intros Hp Hv Hu. assert (E : 2 ^ power = 2 * 2 ^ (power - 1)) by (rewrite <- Z.pow_succ_r by lia; f_equal; lia). assert (0 < 2 ^ (power - 1)) by (apply Z.pow_pos_nonneg; lia). unfold zlen in *. lia. Qed.

(** ** What a call may answer *)

Definition answered (m : gmap (list Z) Z) (ok_table ok_entry : bool) (fresh : Z) (name : list Z) (createSize : Z) (r : option Z) (m' : gmap (list Z) Z) : Prop :=
  match m !! name with
  | Some p => r = Some p /\ m' = m
  | None =>
      if createSize =? 0 then r = None /\ m' = m
      else (r = Some fresh /\ ok_entry = true /\ m' = <[name := fresh]> m) \/ (r = None /\ m' = m /\ (ok_table && ok_entry = false))
  end.

(** The entry is made at a free slot of its path, or nothing changes. *)
Lemma make_entry_ok count t v i v' ok_entry fresh name : table_ok count t v -> t_used t < 2 ^ (t_power t - 1) -> v !! Z.to_nat i = Some None -> 0 <= i < zlen v ->
  v' = <[Z.to_nat i := Some {| n_ptr := fresh; n_name := name |}]> v -> slots_ok (t_power t) v' -> entries v' ≡ₚ {| n_ptr := fresh; n_name := name |} :: entries v ->
  exists r t' w, make_entry ok_entry fresh name t v i = Ok (r, t') /\ table_ok (count + 1) t' w
    /\ if ok_entry then r = Some fresh /\ contents w = <[name := fresh]> (contents v) else r = None /\ contents w = contents v.
Proof using Hulong.
  intros Ht Hload Hfree Hi Hv' Hok' Hperm. destruct Ht as [Hv Hpower Hsize Hslots Hused Hl Hmade Hgrown]. unfold make_entry. destruct ok_entry; rewrite store_ok by done; cbn [rbind].
  - rewrite <- Hv'. eexists _, _, v'. split; [done|]. assert (Hlen : zlen (entries v') = zlen (entries v) + 1) by (unfold zlen; rewrite Hperm; cbn; lia). assert (2 ^ (t_power t - 1) <= 2 ^ 63) by (apply Z.pow_le_mono_r; lia).
    assert (Hu : u64 (t_used t + 1) = t_used t + 1) by (unfold u64; apply Z.mod_small; unfold zlen in *; lia).
    split; [|split; [done|exact (contents_insert v v' _ (so_names _ _ Hok') Hperm)]]. split; cbn; rewrite ?Hu; try done; [by rewrite Hused, Hlen|lia|lia|destruct Hgrown; [by left|right; lia]].
  - rewrite list_insert_id by done. eexists _, _, v. split; [done|]. split; [|done]. split; cbn; try done; [lia|]. destruct Hgrown; [by left|right; lia].
Qed.

End Map.
