(* ===== verification/ExpatHashRefine.v ===== *)
(** * Histories of calls on Expat's hash tables

    [lookup], [hashTableClear] and the iterators against a finite map; a table whose
    first allocation fails is left in a state that no later call survives. *)

From S2P Require Import Prelude ExpatHash ExpatHashProbe ExpatHashMap.

(** ** Histories *)

Inductive call := Lookup (ok_table ok_entry : bool) (fresh : Z) (name : list Z) (createSize : Z) | Clear.
Inductive answer := Entry (r : option Z) | Freed (l : list Z).

Definition perform (ulong : Z) (c : call) (t : table) : res (answer * table) :=
  match c with
  | Lookup ok_table ok_entry fresh name createSize => do (r, t) <- lookup ulong ok_table ok_entry fresh t name createSize; Ok (Entry r, t)
  | Clear => do (l, t) <- hashTableClear t; Ok (Freed l, t)
  end.

Fixpoint perform_all (ulong : Z) (cs : list call) (t : table) : res (list answer * table) :=
  match cs with
  | [] => Ok ([], t)
  | c :: cs => do (a, t) <- perform ulong c t; do (l, t) <- perform_all ulong cs t; Ok (a :: l, t)
  end.

(** What a finite map from names to addresses allows. *)
Inductive behaves : gmap (list Z) Z -> list call -> list answer -> gmap (list Z) Z -> Prop :=
| behaves_done m : behaves m [] [] m
| behaves_lookup m ok_table ok_entry fresh name createSize r m' cs l m'' :
    answered m ok_table ok_entry fresh name createSize r m' -> behaves m' cs l m'' ->
    behaves m (Lookup ok_table ok_entry fresh name createSize :: cs) (Entry r :: l) m''
| behaves_clear m freed cs l m'' :
    freed ≡ₚ (map_to_list m).*2 -> behaves ∅ cs l m'' -> behaves m (Clear :: cs) (Freed freed :: l) m''.

(** The slots that the first entry needs can be allocated. *)
Fixpoint first_ok (cs : list call) : bool :=
  match cs with
  | [] => true
  | Lookup ok_table _ _ _ createSize :: cs => if createSize =? 0 then first_ok cs else ok_table
  | Clear :: cs => first_ok cs
  end.

Section Calls.
  Context (ulong : Z) (Hulong : 32 <= ulong <= 64).

(** ** One call on a table that has slots *)

Lemma table_room count t v : table_ok ulong count t v -> exists j, v !! j = Some None.
Proof using Type. intros Ht. apply entries_free, (room (t_power t)); [pose proof (to_power _ _ _ _ Ht) as H; unfold INIT_POWER in H; lia|apply Ht|]. rewrite <- (to_used _ _ _ _ Ht). apply Ht. Qed.

(** The search of a name. *)
Lemma search_ok count t v name : table_ok ulong count t v ->
  exists i e, find_entry ulong (S (length v)) v (t_size t) (hash ulong name) (mask_of ulong (t_size t)) (t_power t) name (Z.land (hash ulong name) (mask_of ulong (t_size t))) 0 = Ok (i, e)
    /\ match e with
       | Some n => contents v !! name = Some (n_ptr n)
       | None => name ∉ (n_name <$> entries v) /\ v !! Z.to_nat i = Some None /\ 0 <= i < zlen v /\ forall p, let v' := <[Z.to_nat i := Some {| n_ptr := p; n_name := name |}]> v in
                   slots_ok ulong (t_power t) v' /\ entries v' ≡ₚ {| n_ptr := p; n_name := name |} :: entries v
       end.
Proof using Hulong.
  intros Ht. pose proof (to_power _ _ _ _ Ht) as Hp. pose proof (to_slots _ _ _ _ Ht) as Hs. unfold INIT_POWER in Hp. rewrite (to_size _ _ _ _ Ht), mask_of_size by lia.
  destruct (find_entry_ok ulong ltac:(lia) (t_power t) ltac:(lia) v (so_size _ _ _ Hs) name (table_room _ _ _ Ht)) as (k & Hpass & Hn & E). exists (path ulong (t_power t) name k), (at_slot v (path ulong (t_power t) name k)). split; [exact E|].
  destruct (at_slot v (path ulong (t_power t) name k)) as [n|] eqn:Hat.
  - rewrite <- (Hn n eq_refl). apply (contents_present ulong (t_power t)); [done|]. apply elem_of_entries. apply at_slot_Some in Hat. eauto.
  - assert (Habs : name ∉ (n_name <$> entries v)) by (by eapply absent). pose proof (path_range ulong (t_power t) ltac:(lia) name k) as Hr. rewrite <- (so_size _ _ _ Hs) in Hr. split; [done|]. split; [by apply at_slot_None|]. split; [done|]. intros p.
    apply (slots_ok_insert ulong (t_power t) v {| n_ptr := p; n_name := name |} k); try done; [lia|]. intros s Hs'. destruct (Hpass s Hs') as (m & Hm & _). exists m. exact Hm.
Qed.

(** Twice the slots for the entries of a table that is half full. *)
Lemma grow_slots_ok count t v : table_ok ulong count t v -> count < 2 ^ (ulong - 3) -> t_used t = 2 ^ (t_power t - 1) ->
  let newPower := u8 (t_power t + 1) in let newSize := u64 (Z.shiftl 1 newPower) in
  exists newV, rehash ulong v (repeat None (Z.to_nat newSize)) newSize (mask_of ulong newSize) newPower = Ok newV
    /\ table_ok ulong count {| t_v := Some newV; t_power := newPower; t_size := newSize; t_used := t_used t |} newV
    /\ mask_of ulong newSize = 2 ^ newPower - 1 /\ t_used t < 2 ^ (newPower - 1) /\ entries newV ≡ₚ entries v.
Proof using Hulong.
  intros [Hv Hpower Hsize Hslots Hused Hl Hmade Hgrown] Hc Hfull. cbv zeta. unfold INIT_POWER in Hpower. assert (Hp : t_power t - 1 < ulong - 3) by (apply (Z.pow_lt_mono_r_iff 2); lia).
  assert (Hnp : u8 (t_power t + 1) = t_power t + 1) by (unfold u8; apply Z.mod_small; lia). rewrite Hnp. set (np := t_power t + 1) in *. rewrite Z.shiftl_mul_pow2, Z.mul_1_l by lia. assert (2 ^ np < 2 ^ 64) by (apply Z.pow_lt_mono_r; lia).
  assert (0 < 2 ^ np) by (apply Z.pow_pos_nonneg; lia). assert (Hns : u64 (2 ^ np) = 2 ^ np) by (unfold u64; apply Z.mod_small; lia). rewrite Hns, mask_of_size by lia.
  assert (E : 2 ^ np = 2 * (2 * 2 ^ (t_power t - 1))) by (rewrite <- !Z.pow_succ_r by lia; f_equal; lia). assert (E' : 2 ^ (np - 1) = 2 * 2 ^ (t_power t - 1)) by (rewrite <- Z.pow_succ_r by lia; f_equal; lia).
  destruct (rehash_ok ulong Hulong np ltac:(lia) v (repeat None (Z.to_nat (2 ^ np)))) as (newV & Er & Hok & Hperm).
  - apply slots_ok_empty. lia.
  - rewrite entries_none, app_nil_r. apply Hslots.
  - rewrite entries_none, repeat_length. unfold zlen in Hused. cbn. lia.
  - rewrite entries_none, app_nil_r in Hperm. exists newV. split; [done|]. split; [|split; [done|split; [lia|done]]]. split; cbn; try done; [unfold INIT_POWER; lia|by rewrite Hused; unfold zlen; rewrite Hperm|lia|]. right. replace (np - 2) with (t_power t - 1) by lia. lia.
Qed.

Lemma lookup_ok count t v ok_table ok_entry fresh name createSize : table_ok ulong count t v -> count < 2 ^ (ulong - 3) ->
  exists r t' v', lookup ulong ok_table ok_entry fresh t name createSize = Ok (r, t') /\ table_ok ulong (count + 1) t' v' /\ answered (contents v) ok_table ok_entry fresh name createSize r (contents v').
Proof using Hulong.
  intros Ht Hc. pose proof (to_power _ _ _ _ Ht) as Hp. unfold INIT_POWER in Hp. assert (Hsz : 0 < t_size t) by (rewrite (to_size _ _ _ _ Ht); apply Z.pow_pos_nonneg; lia). unfold lookup. replace (t_size t =? 0) with false by lia. rewrite (to_v _ _ _ _ Ht). cbn [of_option rbind]. cbv zeta.
  assert (Hsame : table_ok ulong (count + 1) t v) by (eapply table_ok_more; [done|lia]). destruct (search_ok count t v name Ht) as (i & e & E & He). rewrite E. cbn [rbind]. unfold answered.
  destruct e as [n|]; [rewrite He; exists (Some (n_ptr n)), t, v; done|]. destruct He as (Habs & Hfree & Hi & Hput). rewrite (contents_absent v name Habs). destruct (createSize =? 0); [by exists None, t, v|].
  rewrite half_full by (rewrite ?(to_used _ _ _ _ Ht); pose proof (to_load _ _ _ _ Ht) as L; rewrite ?(to_used _ _ _ _ Ht) in L; unfold zlen in *; lia). destruct (Z.eqb_spec (t_used t) (2 ^ (t_power t - 1))) as [Hfull|Hnot].
  - destruct ok_table; cbn [negb]; [|exists None, t, v; split; [done|]; split; [done|]; by right]. destruct (grow_slots_ok count t v Ht Hc Hfull) as (newV & Er & Hnew & Hmask & Hload & Hperm). cbv zeta in *. rewrite Er. cbn [rbind]. set (np := u8 (t_power t + 1)) in *. set (t1 := {| t_v := Some newV |}) in *. rewrite Hmask. pose proof (to_size _ _ _ _ Hnew) as Hns. unfold t1 in Hns at 1 2. cbn [t_size t_power] in Hns. rewrite Hns.
    assert (Habs' : name ∉ (n_name <$> entries newV)) by (by rewrite Hperm). assert (Hr : (length (entries newV) < length newV)%nat) by (apply (room np); [pose proof (to_power _ _ _ _ Hnew) as H; cbn in H; unfold INIT_POWER in H; lia|apply Hnew|rewrite <- (to_used _ _ _ _ Hnew); apply Hnew]).
    destruct (place_entry_ok ulong Hulong np newV {| n_ptr := fresh; n_name := name |}) as (j & v' & Ej & Hj & Hjr & Hv' & Hok' & Hperm'); [pose proof (to_power _ _ _ _ Hnew) as H; cbn in H; unfold INIT_POWER in H; lia|apply Hnew|done|done|]. cbn [n_name] in Ej. rewrite Ej. cbn [rbind].
    destruct (make_entry_ok ulong Hulong count t1 newV j v' ok_entry fresh name Hnew Hload Hj Hjr Hv' Hok' Hperm') as (r & t' & w & Em & Hw & Hcase). exists r, t', w. split; [done|]. split; [done|]. rewrite (contents_perm v newV (entries v)) in Hcase by (try done; apply Ht). destruct ok_entry; naive_solver.
  - destruct (Hput fresh) as [Hok' Hperm']. assert (Hlt : t_used t < 2 ^ (t_power t - 1)) by (pose proof (to_load _ _ _ _ Ht); lia). destruct (make_entry_ok ulong Hulong count t v i _ ok_entry fresh name Ht Hlt Hfree Hi eq_refl Hok' Hperm') as (r & t' & w & Em & Hw & Hcase). exists r, t', w. split; [done|]. split; [done|]. rewrite andb_false_iff. destruct ok_entry; naive_solver.
Qed.

(** ** The first entry *)

(** A table of no slots. *)
Definition fresh_table (t : table) : Prop := t_size t = 0 /\ t_used t = 0.

Lemma first_table_ok : table_ok ulong 0 {| t_v := Some (repeat None 64); t_power := INIT_POWER; t_size := 64; t_used := 0 |} (repeat None 64).
Proof using Hulong. split; cbn [t_v t_power t_size t_used]; unfold INIT_POWER; try done; [lia|apply (slots_ok_empty ulong 6); lia|by left]. Qed.

Lemma lookup_first count t ok_entry fresh name createSize : fresh_table t -> 0 <= count -> createSize <> 0 ->
  exists r t' v', lookup ulong true ok_entry fresh t name createSize = Ok (r, t') /\ table_ok ulong (count + 1) t' v' /\ answered ∅ true ok_entry fresh name createSize r (contents v').
Proof using Hulong.
  intros [Hs Hu] Hc Hcreate. unfold lookup. replace (t_size t =? 0) with true by lia. replace (createSize =? 0) with false by lia. cbn [negb t_v t_size t_power t_used]. cbv zeta. rewrite Hu. change (Z.shiftl 1 INIT_POWER) with 64. change (Z.to_nat 64) with 64%nat. change (mask_of ulong 64) with (mask_of ulong (2 ^ 6)). rewrite mask_of_size by lia.
  assert (Hp : 3 <= 6 < ulong) by lia. pose proof (slots_ok_empty ulong 6 ltac:(lia)) as Hok. set (n := {| n_ptr := fresh; n_name := name |}). destruct (slots_ok_insert ulong 6 (repeat None 64) n 0 Hp Hok) as [Hok' Hperm]; [intros s Hs'; lia|unfold at_slot; destruct (repeat None 64 !! _) as [e|] eqn:E; [by apply repeat_lookup in E as ->|done]|rewrite entries_none; apply not_elem_of_nil|].
  pose proof (path_range ulong 6 Hp name 0) as Hr. rewrite path_start by lia. assert (Hfree : repeat None 64 !! Z.to_nat (path ulong 6 name 0) = Some (@None named)) by (apply repeat_lookup_lt; change (2 ^ 6) with 64 in Hr; lia).
  destruct (make_entry_ok ulong Hulong 0 _ _ (path ulong 6 name 0) _ ok_entry fresh name first_table_ok ltac:(done) Hfree Hr eq_refl Hok' Hperm) as (r & t' & w & E & Hw & Hcase). exists r, t', w. split; [exact E|]. split; [eapply table_ok_more; [done|lia]|].
  unfold answered. rewrite lookup_empty. replace (createSize =? 0) with false by lia. replace (contents (repeat None 64)) with (∅ : gmap (list Z) Z) in Hcase by (unfold contents; by rewrite entries_none). destruct ok_entry; naive_solver.
Qed.

(** ** The other operations *)

Lemma freed_pointers (v : list (option named)) : omap (option_map n_ptr) v = n_ptr <$> entries v.
Proof using Type. unfold entries. induction v as [|[n|] v IH]; cbn; [done|by f_equal|done]. Qed.

Lemma clear_ok count t v : table_ok ulong count t v -> 0 <= count ->
  exists t', hashTableClear t = Ok (n_ptr <$> entries v, t') /\ table_ok ulong count t' (repeat None (length v)).
Proof using Type.
  intros [Hv Hpower Hsize Hslots Hused Hl Hmade Hgrown] Hc. unfold INIT_POWER in Hpower. assert (0 < 2 ^ t_power t) by (apply Z.pow_pos_nonneg; lia). unfold hashTableClear. replace (t_size t =? 0) with false by lia. rewrite Hv. cbn [of_option rbind]. eexists. split.
  - do 2 f_equal. apply freed_pointers.
  - pose proof (so_size _ _ _ Hslots) as Hlen. replace (length v) with (Z.to_nat (2 ^ t_power t)) by (unfold zlen in Hlen; lia). split; cbn; try done; [apply slots_ok_empty; lia|by rewrite entries_none|apply Z.pow_nonneg; lia].
Qed.

Lemma destroy_ok count t v : table_ok ulong count t v -> hashTableDestroy t = Ok (n_ptr <$> entries v).
Proof using Type.
  intros [Hv Hpower Hsize Hslots Hused Hl Hmade Hgrown]. unfold INIT_POWER in Hpower. assert (0 < 2 ^ t_power t) by (apply Z.pow_pos_nonneg; lia). unfold hashTableDestroy. replace (t_size t =? 0) with false by lia. rewrite Hv. cbn [of_option rbind]. f_equal. apply freed_pointers.
Qed.

Lemma iter_next_from v fuel : forall p : nat, (length v - p <= fuel)%nat -> (p <= length v)%nat ->
  exists p' : nat, (p' <= length v)%nat /\ iter_next fuel v {| it_p := Z.of_nat p; it_end := zlen v |} = Ok (head (entries (drop p v)), {| it_p := Z.of_nat p'; it_end := zlen v |}) /\ entries (drop p' v) = tail (entries (drop p v)).
Proof using Type.
  induction fuel as [|fuel IH]; intros p Hf Hp.
  - assert (p = length v) as -> by lia. exists (length v). split; [done|]. unfold iter_next. cbn [it_p it_end]. unfold zlen. rewrite Z.eqb_refl, drop_all. done.
  - cbn [iter_next it_p it_end]. destruct (Z.eqb_spec (Z.of_nat p) (zlen v)) as [E|Hne]; [assert (p = length v) as -> by (unfold zlen in E; lia); exists (length v); by rewrite drop_all|]. unfold zlen in Hne. destruct (lookup_lt_is_Some_2 v p ltac:(lia)) as [x Hx]. rewrite (drop_S v x p Hx).
    unfold slot. replace (0 <=? Z.of_nat p) with true by lia. rewrite Nat2Z.id, Hx. cbn [of_option rbind]. cbv zeta. replace (Z.of_nat p + 1) with (Z.of_nat (S p)) by lia. destruct x as [n|]; [exists (S p); split; [lia|done]|]. apply IH; lia.
Qed.

(** The iterator gives every entry, once. *)
Lemma iterate_from t v : t_v t = Some v -> t_size t = zlen v -> forall fuel (p : nat), (p <= length v)%nat -> (length (entries (drop p v)) < fuel)%nat ->
  iterate fuel t {| it_p := Z.of_nat p; it_end := zlen v |} = Ok (entries (drop p v)).
Proof using Type.
  intros Hv Hlen. induction fuel as [|fuel IH]; intros p Hp Hf; [lia|]. cbn [iterate]. unfold hashTableIterNext. rewrite Hv. cbn [default from_option].
  destruct (iter_next_from v (Z.to_nat (t_size t)) p) as (p' & Hp' & E & He); [unfold zlen in Hlen; lia|done|]. unfold id. rewrite E. cbn [rbind]. destruct (entries (drop p v)) as [|n l]; [done|]. cbn [head tail hd_error tl] in *. rewrite IH; [by rewrite He|done|rewrite He; cbn in Hf; lia].
Qed.

Lemma all_iterated count t v : table_ok ulong count t v -> iterate (S (length v)) t (hashTableIterInit t) = Ok (entries v).
Proof using Type.
  intros Ht. pose proof (so_size _ _ _ (to_slots _ _ _ _ Ht)) as Hlen. rewrite <- (to_size _ _ _ _ Ht) in Hlen. unfold hashTableIterInit. rewrite <- Hlen. apply (iterate_from t v (to_v _ _ _ _ Ht) (eq_sym Hlen) _ 0); [lia|]. change (drop 0 v) with v. pose proof (entries_length v). lia.
Qed.

(** ** Refinement *)

Lemma contents_list v : NoDup (n_name <$> entries v) -> map_to_list (contents v) ≡ₚ (binding <$> entries v).
Proof using Type. intros H. apply map_to_list_to_map. by rewrite binding_names. Qed.

Lemma contents_pointers v : NoDup (n_name <$> entries v) -> (n_ptr <$> entries v) ≡ₚ (map_to_list (contents v)).*2.
Proof using Type. intros H. rewrite contents_list by done. by rewrite <- list_fmap_compose. Qed.

Lemma slots_refine cs : forall count t v, table_ok ulong count t v -> 0 <= count -> count + zlen cs <= 2 ^ (ulong - 3) ->
  exists l t' v' count', perform_all ulong cs t = Ok (l, t') /\ behaves (contents v) cs l (contents v') /\ table_ok ulong count' t' v'.
Proof using Hulong.
  induction cs as [|[ok_table ok_entry fresh name createSize|] cs IH]; intros count t v Ht H0 Hc; cbn [perform_all perform]; [exists [], t, v, count; split; [done|]; split; [constructor|done]| |]; rewrite zlen_cons in Hc; pose proof (zlen_nonneg cs).
  - destruct (lookup_ok count t v ok_table ok_entry fresh name createSize Ht ltac:(lia)) as (r & t1 & v1 & E & Ht1 & Ha). rewrite E. cbn [rbind]. destruct (IH (count + 1) t1 v1 Ht1 ltac:(lia) ltac:(lia)) as (l & t' & v' & count' & El & Hb & Ht'). rewrite El. cbn [rbind]. exists (Entry r :: l), t', v', count'. split; [done|]. split; [|done]. by eapply behaves_lookup.
  - destruct (clear_ok count t v Ht H0) as (t1 & E & Ht1). rewrite E. cbn [rbind]. destruct (IH count t1 _ Ht1 H0 ltac:(lia)) as (l & t' & v' & count' & El & Hb & Ht'). rewrite El. cbn [rbind]. eexists _, t', v', count'. split; [done|]. split; [|done]. apply behaves_clear; [apply contents_pointers, Ht|]. unfold contents in Hb at 1. by rewrite entries_none in Hb.
Qed.

Lemma fresh_refine cs : forall t, t = hashTableInit -> zlen cs <= 2 ^ (ulong - 3) -> first_ok cs = true ->
  exists l t' m, perform_all ulong cs t = Ok (l, t') /\ behaves ∅ cs l m /\ ((t' = hashTableInit /\ m = ∅) \/ exists count v, table_ok ulong count t' v /\ m = contents v).
Proof using Hulong.
  induction cs as [|[ok_table ok_entry fresh name createSize|] cs IH]; intros t Ht Hc Hfirst; cbn [perform_all perform first_ok] in *; [exists [], t, ∅; split; [done|]; split; [constructor|by left]| |]; rewrite zlen_cons in Hc; pose proof (zlen_nonneg cs).
  - destruct (Z.eqb_spec createSize 0) as [->|Hne].
    + subst t. unfold lookup. cbn [t_size hashTableInit]. cbn [Z.eqb rbind]. destruct (IH hashTableInit eq_refl ltac:(lia) Hfirst) as (l & t' & m & El & Hb & Hend). rewrite El. cbn [rbind]. exists (Entry None :: l), t', m. split; [done|]. split; [|done]. eapply behaves_lookup; [|done]. done.
    + subst ok_table. destruct (lookup_first 0 t ok_entry fresh name createSize ltac:(by subst t) ltac:(lia) Hne) as (r & t1 & v1 & E & Ht1 & Ha). rewrite E. cbn [rbind]. destruct (slots_refine cs (0 + 1) t1 v1 Ht1 ltac:(lia) ltac:(lia)) as (l & t' & v' & count' & El & Hb & Ht'). rewrite El. cbn [rbind]. eexists _, t', (contents v'). split; [done|]. split; [by eapply behaves_lookup|right; eauto].
  - subst t. cbn [rbind]. destruct (IH hashTableInit eq_refl ltac:(lia) Hfirst) as (l & t' & m & El & Hb & Hend). change (hashTableClear hashTableInit) with (@Ok (list Z * table) ([], hashTableInit)). cbn [rbind]. rewrite El. cbn [rbind]. exists (Freed [] :: l), t', m. split; [done|]. split; [|done]. apply behaves_clear; [by rewrite map_to_list_empty|done].
Qed.

End Calls.

(** C10: every history of calls on an Expat hash table, with any failures of the allocator
    after the first slots, ends without leaving the slots and answers as a finite map
    from names to addresses does: a name that is there gives its entry, a new one gives
    the new entry or, only if an allocation fails, NULL and no change; clearing frees
    every entry once. The iterator gives exactly the bindings of the map. *)
Theorem hash_table_refines (ulong : Z) (cs : list call) :
  32 <= ulong <= 64 -> zlen cs <= 2 ^ (ulong - 3) -> first_ok cs = true ->
  exists l t m, perform_all ulong cs hashTableInit = Ok (l, t) /\ behaves ∅ cs l m
    /\ exists es, iterate (S (Z.to_nat (t_size t))) t (hashTableIterInit t) = Ok es /\ map_to_list m ≡ₚ (binding <$> es) /\ hashTableDestroy t = Ok (n_ptr <$> es).
Proof.
  intros Hu Hc Hf. destruct (fresh_refine ulong Hu cs hashTableInit eq_refl Hc Hf) as (l & t & m & E & Hb & [[-> ->]|(count & v & Ht & ->)]); exists l.
  - exists hashTableInit, ∅. split; [done|]. split; [done|]. exists []. by rewrite map_to_list_empty.
  - exists t, (contents v). split; [done|]. split; [done|]. exists (entries v). pose proof (so_size _ _ _ (to_slots _ _ _ _ Ht)) as Hlen. rewrite <- (to_size _ _ _ _ Ht) in Hlen. split; [|split; [apply contents_list, Ht|by eapply destroy_ok]]. replace (Z.to_nat (t_size t)) with (length v) by (unfold zlen in Hlen; lia). by eapply all_iterated.
Qed.

Lemma hash_table_refines_witness :
  let cs := [Lookup true true 100 [97] 8; Lookup true false 200 [98] 8; Lookup false true 300 [98] 8; Clear; Lookup true true 400 [97] 0] in
  exists l t m, perform_all 64 cs hashTableInit = Ok (l, t) /\ behaves ∅ cs l m
    /\ exists es, iterate (S (Z.to_nat (t_size t))) t (hashTableIterInit t) = Ok es /\ map_to_list m ≡ₚ (binding <$> es) /\ hashTableDestroy t = Ok (n_ptr <$> es).
Proof. intros cs. apply (hash_table_refines 64 cs); [lia|vm_compute; congruence|reflexivity]. Defined.

(** ** The first slots cannot be allocated *)

(** [table->size] is set before the answer of the allocator is looked at: the next call
    reads a slot of NULL. *)
Theorem first_slots_fail ulong ok_entry fresh name createSize : createSize <> 0 ->
  exists t, lookup ulong false ok_entry fresh hashTableInit name createSize = Ok (None, t)
    /\ (forall ok_table ok_entry fresh name createSize, lookup ulong ok_table ok_entry fresh t name createSize = Err OutOfBounds) /\ hashTableDestroy t = Err OutOfBounds /\ hashTableClear t = Err OutOfBounds.
Proof.
  intros Hne. unfold lookup at 1. cbn [hashTableInit t_size Z.eqb]. replace (createSize =? 0) with false by lia. cbn [negb]. eexists. split; [done|]. done.
Qed.

(** Forty names: the table grows, and every name is found again. *)
Example forty_names :
  let names := (fun k => [97 + k / 8; 97 + k mod 8]) <$> seqZ 0 40 in
  let create := (fun n => Lookup true true (hash 32 n) n 8) <$> names in
  let find := (fun n => Lookup true true 0 n 0) <$> names in
  match perform_all 32 (create ++ find) hashTableInit with
  | Ok (l, t) => bool_decide (t_size t = 128 /\ t_used t = 40) && forallb (fun '(a, b) => match a, b with Entry (Some x), Entry (Some y) => x =? y | _, _ => false end) (zip (take 40 l) (drop 40 l))
  | Err _ => false
  end = true.
Proof. vm_compute. reflexivity. Qed.
