(* ===== verification/ExpatPool.v ===== *)
(** * Expat's string pools: [src/apr-util/xml/expat/lib/xmlparse.c]

    Strings are built at the end of a block that grows; a finished string stays where it
    is until the pool is cleared. A block has an identity that no other block ever has, a
    pointer into one is the identity and an offset in [s]; [realloc_fcn] that succeeds
    gives a new block and ends the old one. The chains of [next] are lists. *)

From S2P Require Import Prelude.

(** ** Data *)

Record BLOCK := { b_size : Z; b_s : list Z }.

Definition place : Type := Z * Z.

(** [memory] has the blocks that are allocated; [new_block] is the next identity and
    [asked] counts the requests to the allocator. *)
Record STRING_POOL := {
  blocks : list Z; freeBlocks : list Z;
  p_end : option place; p_ptr : option place; p_start : option place;
  memory : gmap Z BLOCK; new_block : Z; asked : nat }.

Definition INIT_BLOCK_SIZE : Z := 1024.

(** [offsetof(BLOCK, s)] with pointers of eight bytes. *)
Definition offset_s : Z := 12.

(** The bytes of a request; [blockSize] is an int. *)
Definition request (blockSize : Z) : Z := u64 (offset_s + u64 blockSize).

(** [grant k] tells whether request [k] is granted, unless it is larger than any object
    can be; the bytes of new memory are [junk]. *)
Section Pool.
  Context (grant : nat -> bool) (junk : Z).

Definition granted (p : STRING_POOL) (blockSize : Z) : bool := grant (asked p) && (request blockSize <? 2 ^ 63).

Definition poolInit : STRING_POOL :=
  {| blocks := []; freeBlocks := []; p_end := None; p_ptr := None; p_start := None; memory := ∅; new_block := 0; asked := 0 |}.

(** ** Pointers and memory *)

Definition ptr_sub (a b : option place) : res Z :=
  match a, b with
  | None, None => Ok 0
  | Some (x, i), Some (y, j) => if x =? y then Ok (i - j) else Err OutOfBounds
  | _, _ => Err OutOfBounds
  end.

Definition ptr_add (a : option place) (n : Z) : res (option place) :=
  match a with Some (x, i) => Ok (Some (x, i + n)) | None => Err OutOfBounds end.

Definition block_at (p : STRING_POOL) (b : Z) : res BLOCK := of_option OutOfBounds (memory p !! b).

Definition with_memory (p : STRING_POOL) (m : gmap Z BLOCK) : STRING_POOL :=
  {| blocks := blocks p; freeBlocks := freeBlocks p; p_end := p_end p; p_ptr := p_ptr p; p_start := p_start p; memory := m; new_block := new_block p; asked := asked p |}.

(** [memcpy(dst, src, n)] *)
Definition copy_from (p : STRING_POOL) (src : option place) (n : Z) : res (list Z) :=
  match src with
  | Some (b, o) => do k <- block_at p b; sub (b_s k) o n
  | None => Err OutOfBounds
  end.

Definition put (p : STRING_POOL) (b o : Z) (bs : list Z) : res STRING_POOL :=
  do k <- block_at p b;
  do s <- blit (b_s k) o bs;
  Ok (with_memory p (<[b := {| b_size := b_size k; b_s := s |}]> (memory p))).

(** The request has been answered. *)
Definition asked_once (p : STRING_POOL) : STRING_POOL :=
  {| blocks := blocks p; freeBlocks := freeBlocks p; p_end := p_end p; p_ptr := p_ptr p; p_start := p_start p; memory := memory p; new_block := new_block p; asked := S (asked p) |}.

(** ** [poolGrow] *)

(** The first chain of free blocks gives a block to a pool that has none in use. *)
Definition grow_first (p : STRING_POOL) (f : Z) (free : list Z) : res (bool * STRING_POOL) :=
  do k <- block_at p f;
  Ok (true, {| blocks := [f]; freeBlocks := free; p_end := Some (f, b_size k); p_ptr := Some (f, 0); p_start := Some (f, 0); memory := memory p; new_block := new_block p; asked := asked p |}).

(** The string moves to a larger free block. *)
Definition grow_free (p : STRING_POOL) (f : Z) (k : BLOCK) (free : list Z) : res (bool * STRING_POOL) :=
  do n <- ptr_sub (p_end p) (p_start p);
  do bs <- copy_from p (p_start p) n;
  do q <- put p f 0 bs;
  do d <- ptr_sub (p_ptr p) (p_start p);
  Ok (true, {| blocks := f :: blocks p; freeBlocks := free; p_end := Some (f, b_size k); p_ptr := Some (f, d); p_start := Some (f, 0); memory := memory q; new_block := new_block p; asked := asked p |}).

(** The string is alone in its block: the block is reallocated. *)
Definition grow_realloc (p : STRING_POOL) (b : Z) (rest : list Z) : res (bool * STRING_POOL) :=
  do n <- ptr_sub (p_end p) (p_start p);
  let blockSize := s32 (n * 2) in
  if negb (granted p blockSize) then
    Ok (false, {| blocks := []; freeBlocks := freeBlocks p; p_end := p_end p; p_ptr := p_ptr p; p_start := p_start p; memory := memory p; new_block := new_block p; asked := S (asked p) |})
  else
    do k <- block_at p b;
    do d <- ptr_sub (p_ptr p) (p_start p);
    let c := new_block p in
    let s := take (Z.to_nat blockSize) (b_s k ++ repeat junk (Z.to_nat blockSize)) in
    Ok (true, {| blocks := c :: rest; freeBlocks := freeBlocks p; p_end := Some (c, blockSize); p_ptr := Some (c, d); p_start := Some (c, 0);
                 memory := <[c := {| b_size := blockSize; b_s := s |}]> (delete b (memory p)); new_block := c + 1; asked := S (asked p) |}).

(** A new block. *)
Definition grow_malloc (p : STRING_POOL) : res (bool * STRING_POOL) :=
  do n <- ptr_sub (p_end p) (p_start p);
  let blockSize := s32 n in
  let blockSize := if blockSize <? INIT_BLOCK_SIZE then INIT_BLOCK_SIZE else s32 (blockSize * 2) in
  if negb (granted p blockSize) then Ok (false, asked_once p) else
  let c := new_block p in
  let p1 := with_memory p (<[c := {| b_size := blockSize; b_s := repeat junk (Z.to_nat blockSize) |}]> (memory p)) in
  do d <- ptr_sub (p_ptr p) (p_start p);
  do q <- (if bool_decide (p_ptr p = p_start p) then Ok p1 else do bs <- copy_from p (p_start p) d; put p1 c 0 bs);
  Ok (true, {| blocks := c :: blocks p; freeBlocks := freeBlocks p; p_end := Some (c, blockSize); p_ptr := Some (c, d); p_start := Some (c, 0);
               memory := memory q; new_block := c + 1; asked := S (asked p) |}).

Definition grow_alloc (p : STRING_POOL) : res (bool * STRING_POOL) :=
  match blocks p with
  | b :: rest => if bool_decide (p_start p = Some (b, 0)) then grow_realloc p b rest else grow_malloc p
  | [] => grow_malloc p
  end.

Definition poolGrow (p : STRING_POOL) : res (bool * STRING_POOL) :=
  match freeBlocks p with
  | f :: free =>
      match p_start p with
      | None => grow_first p f free
      | Some _ =>
          do k <- block_at p f;
          do n <- ptr_sub (p_end p) (p_start p);
          if n <? b_size k then grow_free p f k free else grow_alloc p
      end
  | [] => grow_alloc p
  end.

(** ** The other operations *)

Definition with_ptr (p : STRING_POOL) (q : option place) : STRING_POOL :=
  {| blocks := blocks p; freeBlocks := freeBlocks p; p_end := p_end p; p_ptr := q; p_start := p_start p; memory := memory p; new_block := new_block p; asked := asked p |}.

Definition poolChop (p : STRING_POOL) : res STRING_POOL := do q <- ptr_add (p_ptr p) (-1); Ok (with_ptr p q).

Definition poolLastChar (p : STRING_POOL) : res Z := do q <- ptr_add (p_ptr p) (-1); do l <- copy_from p q 1; of_option OutOfBounds (head l).

Definition poolLength (p : STRING_POOL) : res Z := ptr_sub (p_ptr p) (p_start p).

(** The end of an attribute value that is not CDATA, in [storeAttributeValue]. *)
Definition chop_space (p : STRING_POOL) : res STRING_POOL :=
  do n <- poolLength p;
  if n =? 0 then Ok p else do c <- poolLastChar p; if c =? 0x20 then poolChop p else Ok p.

Definition poolDiscard (p : STRING_POOL) : STRING_POOL := with_ptr p (p_start p).

Definition poolFinish (p : STRING_POOL) : STRING_POOL :=
  {| blocks := blocks p; freeBlocks := freeBlocks p; p_end := p_end p; p_ptr := p_ptr p; p_start := p_ptr p; memory := memory p; new_block := new_block p; asked := asked p |}.

(** [*(pool->ptr)++ = c] *)
Definition put_char (p : STRING_POOL) (c : Z) : res STRING_POOL :=
  match p_ptr p with
  | Some (b, o) => do q <- put p b o [c]; Ok (with_ptr q (Some (b, o + 1)))
  | None => Err OutOfBounds
  end.

Definition poolAppendChar (p : STRING_POOL) (c : Z) : res (bool * STRING_POOL) :=
  do (r, p) <- (if bool_decide (p_ptr p = p_end p) then poolGrow p else Ok (true, p));
  if negb r then Ok (false, p) else do p <- put_char p c; Ok (true, p).

(** [poolAppendChar] for the characters of [s], until one fails. *)
Fixpoint append_chars (p : STRING_POOL) (s : list Z) : res (bool * STRING_POOL) :=
  match s with
  | [] => Ok (true, p)
  | c :: s => do (r, p) <- poolAppendChar p c; if negb r then Ok (false, p) else append_chars p s
  end.

(** NULL, or [pool->start] before [poolFinish]. *)
Definition finished (r : bool) (p : STRING_POOL) : option place * STRING_POOL :=
  if r then (p_start p, poolFinish p) else (None, p).

(** [s] is the string without its terminator, which is copied too. *)
Definition poolCopyString (p : STRING_POOL) (s : list Z) : res (option place * STRING_POOL) :=
  do (r, p) <- append_chars p (s ++ [0]); Ok (finished r p).

(** The [n] characters at [s]. *)
Definition poolCopyStringN (p : STRING_POOL) (s : list Z) (n : Z) : res (option place * STRING_POOL) :=
  do (r, p) <- (if bool_decide (p_ptr p = None) then poolGrow p else Ok (true, p));
  if negb r then Ok (None, p) else
  do cs <- (if 0 <? n then sub s 0 n else Ok []);
  do (r, p) <- append_chars p cs; Ok (finished r p).

Definition poolAppendString (p : STRING_POOL) (s : list Z) : res (option place * STRING_POOL) :=
  do (r, p) <- append_chars p s; Ok (if r then p_start p else None, p).

(** [XmlConvert]: of the input, how many bytes it takes and what it writes into so much room. *)
Fixpoint append_loop (convert : list Z -> Z -> nat * list Z) (fuel : nat) (p : STRING_POOL) (input : list Z) : res (bool * STRING_POOL) :=
  match fuel with
  | O => Err OutOfFuel
  | S fuel =>
      do room <- ptr_sub (p_end p) (p_ptr p);
      let (taken, out) := convert input room in
      do q <- match p_ptr p with
              | Some (b, o) => do q <- put p b o out; Ok (with_ptr q (Some (b, o + zlen out)))
              | None => Err OutOfBounds
              end;
      let input := drop taken input in
      match input with
      | [] => Ok (true, q)
      | _ => do (r, q) <- poolGrow q; if negb r then Ok (false, q) else append_loop convert fuel q input
      end
  end.

Definition poolAppend (convert : list Z -> Z -> nat * list Z) (fuel : nat) (p : STRING_POOL) (input : list Z) : res (option place * STRING_POOL) :=
  do (r, p) <- (if bool_decide (p_ptr p = None) then poolGrow p else Ok (true, p));
  if negb r then Ok (None, p) else
  do (r, p) <- append_loop convert fuel p input;
  Ok (if r then p_start p else None, p).

Definition poolStoreString (convert : list Z -> Z -> nat * list Z) (fuel : nat) (p : STRING_POOL) (input : list Z) : res (option place * STRING_POOL) :=
  do (r, p) <- poolAppend convert fuel p input;
  match r with
  | None => Ok (None, p)
  | Some _ =>
      do (r, p) <- (if bool_decide (p_ptr p = p_end p) then poolGrow p else Ok (true, p));
      if negb r then Ok (None, p) else
      do p <- put_char p 0; Ok (p_start p, p)
  end.

(** The blocks in use go, one by one, to the chain of free blocks, or are that chain. *)
Definition poolClear (p : STRING_POOL) : STRING_POOL :=
  let free := match freeBlocks p with [] => blocks p | _ => foldl (fun l b => b :: l) (freeBlocks p) (blocks p) end in
  {| blocks := []; freeBlocks := free; p_end := None; p_ptr := None; p_start := None; memory := memory p; new_block := new_block p; asked := asked p |}.

(** The blocks that are freed, in order. *)
Fixpoint free_chain (l : list Z) (m : gmap Z BLOCK) : res (gmap Z BLOCK) :=
  match l with
  | [] => Ok m
  | b :: l => do _ <- of_option OutOfBounds (m !! b); free_chain l (delete b m)
  end.

Definition poolDestroy (p : STRING_POOL) : res (gmap Z BLOCK) :=
  do m <- free_chain (blocks p) (memory p); free_chain (freeBlocks p) m.

End Pool.
