(* ===== verification/ExpatPoolGrow.v ===== *)
(** * The invariant of Expat's string pools, and growing

    The string that is built and the strings that are finished lie in blocks of the pool
    and keep their bytes when the pool grows, however the allocator answers. *)

From S2P Require Import Prelude ExpatPool.

(** The bytes of [s] lie at [q]. *)
Definition holds (m : gmap Z BLOCK) (q : place) (s : list Z) : Prop := exists k, m !! q.1 = Some k /\ has_bytes (b_s k) q.2 s.

(** The characters that fit before the next block is needed. *)
Definition room (p : STRING_POOL) : Z := match ptr_sub (p_end p) (p_ptr p) with Ok n => n | Err _ => 0 end.

(** A longest string: twice as much is still an int. *)
Definition limit : Z := 2 ^ 29.

Lemma take_repeat {A} (x : A) n : forall m, take n (repeat x m) = repeat x (n `min` m).
Proof. induction n as [|n IH]; intros [|m]; cbn; [done|done|done|]. by rewrite IH. Qed.

Section Pool.
  Context (grant : nat -> bool) (junk : Z).

(** ** The invariant *)

(** Blocks are allocated, and each has [size] characters; if nothing was refused, every block is in a chain. *)
Record memory_ok (p : STRING_POOL) : Prop := {
  mo_block : forall b k, memory p !! b = Some k -> zlen (b_s k) = b_size k /\ 0 < b_size k /\ b < new_block p;
  mo_chains : forall b, b ∈ blocks p ++ freeBlocks p -> is_Some (memory p !! b);
  mo_once : NoDup (blocks p ++ freeBlocks p);
  mo_all : (forall k, (k < asked p)%nat -> grant k = true) -> forall b, is_Some (memory p !! b) -> b ∈ blocks p ++ freeBlocks p }.

(** A finished string, when the current one starts at offset [so] of block [b]. *)
Definition kept_ok (p : STRING_POOL) (b so : Z) (x : place * list Z) : Prop :=
  x.2 = [] \/ (holds (memory p) x.1 x.2 /\ x.1.1 ∉ freeBlocks p /\ (x.1.1 = b -> x.1.2 + zlen x.2 <= so)).

(** [cur] is the current string, [b] its block and [so] its offset there. *)
Record at_place (p : STRING_POOL) (cur : list Z) (kept : list (place * list Z)) (b so : Z) (k : BLOCK) : Prop := {
  at_start : p_start p = Some (b, so);
  at_ptr : p_ptr p = Some (b, so + zlen cur);
  at_end : p_end p = Some (b, b_size k);
  at_block : memory p !! b = Some k;
  at_bytes : has_bytes (b_s k) so cur;
  at_used : b ∉ freeBlocks p;
  at_head : blocks p = [] \/ exists rest, blocks p = b :: rest;
  at_kept : Forall (kept_ok p b so) kept }.

Record nowhere (p : STRING_POOL) (cur : list Z) (kept : list (place * list Z)) : Prop := {
  no_start : p_start p = None; no_ptr : p_ptr p = None; no_end : p_end p = None; no_blocks : blocks p = []; no_cur : cur = []; no_kept : kept = [] }.

Definition pool_ok (p : STRING_POOL) (cur : list Z) (kept : list (place * list Z)) : Prop :=
  memory_ok p /\ (nowhere p cur kept \/ exists b so k, at_place p cur kept b so k).

(** A request after the first of [p] and before the first of [p'] was refused. *)
Definition refused (p p' : STRING_POOL) : Prop := exists k, (asked p <= k < asked p')%nat /\ grant k = false.

(** What growing does. *)
Definition grown (p : STRING_POOL) (cur : list Z) (kept : list (place * list Z)) (r : res (bool * STRING_POOL)) : Prop :=
  exists ok p', r = Ok (ok, p') /\ pool_ok p' cur kept /\ (asked p <= asked p')%nat /\ if (ok : bool) then room p < room p' /\ is_Some (p_ptr p') else refused p p'.

(** ** The parts of [poolGrow] *)

Lemma at_room p cur kept b so k : at_place p cur kept b so k -> room p = b_size k - (so + zlen cur).
Proof using Type. intros H. unfold room. rewrite (at_end _ _ _ _ _ _ H), (at_ptr _ _ _ _ _ _ H). cbn. by rewrite Z.eqb_refl. Qed.

Lemma at_bounds p cur kept b so k : memory_ok p -> at_place p cur kept b so k -> 0 <= so /\ so + zlen cur <= b_size k /\ zlen (b_s k) = b_size k.
Proof using Type. intros Hm H. pose proof (has_bytes_bound _ _ _ (at_bytes _ _ _ _ _ _ H)). pose proof (mo_block _ Hm _ _ (at_block _ _ _ _ _ _ H)). lia. Qed.

Lemma at_length p cur kept b so k : at_place p cur kept b so k -> ptr_sub (p_end p) (p_start p) = Ok (b_size k - so) /\ ptr_sub (p_ptr p) (p_start p) = Ok (zlen cur).
Proof using Type. intros H. rewrite (at_end _ _ _ _ _ _ H), (at_start _ _ _ _ _ _ H), (at_ptr _ _ _ _ _ _ H). cbn. rewrite Z.eqb_refl. split; f_equal; lia. Qed.

Lemma granted_when p n : 0 <= n < 2 ^ 31 -> granted grant p n = grant (asked p).
Proof using Type. intros Hn. unfold granted, request, offset_s, u64. rewrite (Z.mod_small n) by lia. rewrite Z.mod_small by lia. replace (12 + n <? 2 ^ 63) with true by lia. apply andb_true_r. Qed.

Lemma s32_int n : 0 <= n < 2 ^ 31 -> s32 n = n.
Proof using Type. intros Hn. unfold s32. rewrite Z.mod_small by lia. lia. Qed.

(** Finished strings when block [c] takes over from [b]. *)
Lemma kept_moves p p' b so c kept : Forall (kept_ok p b so) kept -> (forall x, x ∈ freeBlocks p' -> x ∈ freeBlocks p) -> 
  (forall q s, s <> [] -> holds (memory p) q s -> q.1 ∉ freeBlocks p -> (q.1 = b -> q.2 + zlen s <= so) -> holds (memory p') q s /\ q.1 <> c) -> Forall (kept_ok p' c 0) kept.
Proof using Type.
  intros Hk Hf Hm. eapply Forall_impl; [exact Hk|]. intros [q s] [Hs|(Hh & Hq & Hb)]; [by left|]. cbn [fst snd] in *. destruct (decide (s = [])) as [->|Hne]; [by left|]. destruct (Hm q s Hne Hh Hq Hb) as [Hh' Hc]. right. cbn [fst snd]. split; [done|]. split; [naive_solver|]. congruence.
Qed.

Lemma grow_first_ok p kept f free : memory_ok p -> nowhere p [] kept -> freeBlocks p = f :: free -> grown p [] kept (grow_first p f free).
Proof using Type.
  intros Hm [Hs Hp He Hb _ ->] Hf. destruct (mo_chains _ Hm f) as [k Hk]; [rewrite Hf; set_solver|]. pose proof (mo_block _ Hm _ _ Hk) as (Hlen & Hpos & _). unfold grow_first, block_at. rewrite Hk. cbn [of_option rbind]. eexists true, _. split; [done|]. pose proof (mo_once _ Hm) as Hnd. rewrite Hb, Hf in Hnd. split; [split|].
  - split; cbn; [apply Hm|intros b Hin; apply (mo_chains _ Hm); by rewrite Hb, Hf|done|intros Hg b Hin; pose proof (mo_all _ Hm Hg b Hin) as H; by rewrite Hb, Hf in H].
  - right. exists f, 0, k. split; cbn; try done; [exists [], (b_s k); by cbn|by apply NoDup_cons in Hnd as [? _]|by right; exists []].
  - split; [done|]. split; [|cbn; eauto]. unfold room. rewrite He, Hp. cbn. rewrite Z.eqb_refl. lia.
Qed.

(** A copy of at least the current string. *)
Lemma sub_prefix m so cur n : has_bytes m so cur -> zlen cur <= n -> so + n <= zlen m -> exists t, sub m so n = Ok (cur ++ t) /\ zlen (cur ++ t) = n.
Proof using Type.
  intros H Hn Hl. pose proof (has_bytes_bound _ _ _ H) as [H0 _]. pose proof (zlen_nonneg cur). unfold sub. replace ((0 <=? so) && (0 <=? n) && (so + n <=? zlen m)) with true by lia. destruct H as (pre & post & -> & <-).
  replace (Z.to_nat (zlen pre)) with (length pre) by (unfold zlen; lia). rewrite drop_app_length. rewrite take_app_ge by (unfold zlen in *; lia). eexists. split; [done|]. rewrite zlen_app in *. rewrite zlen_app in Hl. unfold zlen in *. rewrite length_take. lia.
Qed.

Lemma fresh_block p b : memory_ok p -> is_Some (memory p !! b) -> b <> new_block p.
Proof using Type. intros Hm [k Hk]. pose proof (mo_block _ Hm _ _ Hk). lia. Qed.

Lemma grow_free_ok p cur kept b so k f kf free : memory_ok p -> at_place p cur kept b so k -> freeBlocks p = f :: free -> memory p !! f = Some kf -> b_size k - so < b_size kf -> grown p cur kept (grow_free p f kf free).
Proof using Type.
  intros Hm Ha Hf Hkf Hn. pose proof (at_bounds _ _ _ _ _ _ Hm Ha) as (H0 & Hfit & Hlen). destruct (at_length _ _ _ _ _ _ Ha) as [En Ed]. unfold grow_free. rewrite En, Ed. cbn [rbind]. pose proof (mo_block _ Hm _ _ Hkf) as (Hlf & Hpf & Hbf).
  destruct (sub_prefix (b_s k) so cur (b_size k - so) (at_bytes _ _ _ _ _ _ Ha) ltac:(lia) ltac:(lia)) as (t & Es & Ht). unfold copy_from, put, block_at. rewrite (at_start _ _ _ _ _ _ Ha), (at_block _ _ _ _ _ _ Ha), Hkf. cbn [of_option rbind]. rewrite Es. cbn [rbind]. rewrite blit_ok by lia. cbn [rbind memory with_memory].
  pose proof (mo_once _ Hm) as Hnd. rewrite Hf in Hnd. assert (Hperm : f :: blocks p ++ free ≡ₚ blocks p ++ f :: free) by apply Permutation_middle. assert (Hbf' : b <> f) by (pose proof (at_used _ _ _ _ _ _ Ha) as H; rewrite Hf in H; set_solver).
  eexists true, _. split; [done|]. split; [split|].
  - split; cbn.
    + intros x kx Hx. destruct (decide (x = f)) as [->|Hne]; [rewrite lookup_insert_eq in Hx; injection Hx as <-; cbn; rewrite zlen_splice by lia; done|]. rewrite lookup_insert_ne in Hx by done. by apply (mo_block _ Hm).
    + intros x Hx. destruct (decide (x = f)) as [->|Hne]; [rewrite lookup_insert_eq; eauto|]. rewrite lookup_insert_ne by done. apply (mo_chains _ Hm). rewrite Hf. by rewrite <- Hperm.
    + by rewrite Hperm.
    + intros Hg x Hx. rewrite Hperm, <- Hf. apply (mo_all _ Hm Hg). destruct (decide (x = f)) as [->|Hne]; [eauto|]. by rewrite lookup_insert_ne in Hx by done.
  - right. exists f, 0, {| b_size := b_size kf; b_s := splice (b_s kf) 0 (cur ++ t) |}. split; cbn; try done; [apply lookup_insert_eq| | |right; eauto|].
    + cbn. apply (has_bytes_app _ 0 cur t). apply has_bytes_splice; lia.
    + assert (Hnd' : NoDup (f :: blocks p ++ free)) by (by rewrite Hperm). apply NoDup_cons in Hnd' as [H _]. set_solver.
    + eapply (kept_moves p); [apply Ha|cbn; rewrite Hf; set_solver|]. intros q s Hs Hh Hq Hb. cbn. rewrite Hf in Hq. assert (q.1 <> f) by set_solver. split; [|done]. destruct Hh as (kq & Hkq & Hbq). exists kq. by rewrite lookup_insert_ne by done.
  - split; [done|]. split; [|cbn; eauto]. rewrite (at_room _ _ _ _ _ _ Ha). unfold room. cbn. rewrite Z.eqb_refl. lia.
Qed.

(** The memory with a new block, and without those that [gone] says. *)
Lemma memory_ok_new p p' rest k : memory_ok p -> 0 < b_size k -> zlen (b_s k) = b_size k -> blocks p' = new_block p :: rest -> freeBlocks p' = freeBlocks p -> new_block p' = new_block p + 1 -> asked p' = S (asked p) ->
  (blocks p = rest /\ memory p' = <[new_block p := k]> (memory p) \/ exists b, blocks p = b :: rest /\ memory p' = <[new_block p := k]> (delete b (memory p))) -> memory_ok p'.
Proof using Type.
  intros Hm Hpos Hlen Hb Hf Hn Has Hcase. set (c := new_block p) in *. pose proof (mo_once _ Hm) as Hnd. assert (Hold : forall x, x <> c -> memory p' !! x = memory p !! x \/ (blocks p = x :: rest /\ memory p' !! x = None)).
  { intros x Hx. destruct Hcase as [[_ ->]|(b & Hbb & ->)]; rewrite lookup_insert_ne by done; [by left|]. destruct (decide (x = b)) as [->|]; [right; by rewrite lookup_delete_eq|left; by rewrite lookup_delete_ne]. }
  assert (Hnew : memory p' !! c = Some k) by (destruct Hcase as [[_ ->]|(b & _ & ->)]; apply lookup_insert_eq). assert (Hrest : forall x, x ∈ rest ++ freeBlocks p -> x ∈ blocks p ++ freeBlocks p) by (destruct Hcase as [[-> _]|(b & -> & _)]; set_solver).
  assert (Hc : forall x, x ∈ rest ++ freeBlocks p -> x <> c) by (intros x Hx; apply fresh_block, mo_chains, Hrest; done). split.
  - intros x kx Hx. destruct (decide (x = c)) as [->|Hne]; [assert (kx = k) as -> by congruence; lia|]. destruct (Hold x Hne) as [E|[_ E]]; [|congruence]. rewrite E in Hx. pose proof (mo_block _ Hm _ _ Hx). lia.
  - intros x Hx. rewrite Hb, Hf in Hx. apply elem_of_cons in Hx as [->|Hx]; [eauto|]. destruct (Hold x (Hc x Hx)) as [->|[E _]]; [by apply (mo_chains _ Hm), Hrest|]. rewrite E in Hnd. apply NoDup_cons in Hnd as [H _]. done.
  - rewrite Hb, Hf. cbn. apply NoDup_cons. split; [intros H; by apply (Hc c H)|]. destruct Hcase as [[<- _]|(b & E & _)]; [done|]. rewrite E in Hnd. by apply NoDup_cons in Hnd as [_ H].
  - intros Hg x Hx. rewrite Hb, Hf. destruct (decide (x = c)) as [->|Hne]; [set_solver|]. destruct (Hold x Hne) as [E|[_ E]]; [|rewrite E in Hx; by destruct Hx]. rewrite E in Hx. assert (H : x ∈ blocks p ++ freeBlocks p) by (apply (mo_all _ Hm); [intros i Hi; apply Hg; lia|done]).
    destruct Hcase as [[<- _]|(b & Eb & Em)]; [set_solver|]. rewrite Eb in H. cbn in H. apply elem_of_cons in H as [->|H]; [|set_solver]. rewrite Em, lookup_insert_ne, lookup_delete_eq in E by done. rewrite <- E in Hx. by destruct Hx.
Qed.

Lemma refused_now p p' : asked p' = S (asked p) -> grant (asked p) = false -> refused p p'.
Proof using Type. intros E H. exists (asked p). split; [lia|done]. Qed.

Lemma grow_realloc_ok p cur kept b k rest : memory_ok p -> at_place p cur kept b 0 k -> blocks p = b :: rest -> zlen cur <= limit -> room p <= 3 -> grown p cur kept (grow_realloc grant junk p b rest).
Proof using Type.
  intros Hm Ha Hb Hl Hr. pose proof (at_bounds _ _ _ _ _ _ Hm Ha) as (H0 & Hfit & Hlen). destruct (at_length _ _ _ _ _ _ Ha) as [En Ed]. rewrite (at_room _ _ _ _ _ _ Ha) in Hr. pose proof (mo_block _ Hm _ _ (at_block _ _ _ _ _ _ Ha)) as (_ & Hpos & _). unfold limit in Hl.
  unfold grow_realloc. rewrite En, Ed. cbn [rbind]. cbv zeta. rewrite Z.sub_0_r, s32_int, granted_when by lia. destruct (grant (asked p)) eqn:Hg; cbn [negb].
  - unfold block_at. rewrite (at_block _ _ _ _ _ _ Ha). cbn [of_option rbind]. set (n := b_size k * 2) in *. set (k' := {| b_size := n; b_s := take (Z.to_nat n) (b_s k ++ repeat junk (Z.to_nat n)) |}).
    assert (Hs : b_s k' = b_s k ++ repeat junk (Z.to_nat (b_size k))) by (unfold k'; cbn [b_s]; rewrite take_app_ge by (unfold zlen in *; lia); f_equal; rewrite take_repeat; f_equal; unfold zlen in *; lia).
    eexists true, _. split; [done|]. split; [split|].
    + eapply (memory_ok_new p _ rest k'); try done; [cbn; lia|rewrite Hs, zlen_app; unfold zlen in *; rewrite repeat_length; cbn; lia|right; eauto].
    + right. exists (new_block p), 0, k'. split; cbn; try done; [apply lookup_insert_eq|change (has_bytes (b_s k') 0 cur); rewrite Hs; apply has_bytes_extend, Ha| |right; eauto|].
      * intros Hin. apply (fresh_block p (new_block p) Hm); [|done]. apply (mo_chains _ Hm). set_solver.
      * eapply (kept_moves p); [apply Ha|done|]. intros q s Hne (kq & Hkq & Hbq) Hq Hbs. assert (q.1 <> b). { intros E. specialize (Hbs E). pose proof (has_bytes_bound _ _ _ Hbq). destruct s; [done|]. rewrite zlen_cons in Hbs. pose proof (zlen_nonneg s). lia. }
        assert (q.1 <> new_block p) by (apply fresh_block; [done|eauto]). split; [|done]. exists kq. cbn. by rewrite lookup_insert_ne, lookup_delete_ne by done.
    + split; [cbn; lia|]. split; [|cbn; eauto]. rewrite (at_room _ _ _ _ _ _ Ha). unfold room. cbn. rewrite Z.eqb_refl. lia.
  - eexists false, _. split; [done|]. split; [split|split; [cbn; lia|by apply refused_now]].
    + split; cbn; [apply Hm|intros x Hx; apply (mo_chains _ Hm); set_solver|pose proof (mo_once _ Hm) as Hnd; by apply NoDup_app in Hnd as (_ & _ & ?)|]. intros Hall. specialize (Hall (asked p) ltac:(lia)). congruence.
    + right. exists b, 0, k. destruct Ha. split; cbn; try done. by left.
Qed.

(** The size of a new block. *)
Definition malloc_size (n : Z) : Z := if s32 n <? INIT_BLOCK_SIZE then INIT_BLOCK_SIZE else s32 (s32 n * 2).

Lemma malloc_size_ok n : 0 <= n < 2 ^ 30 -> 0 < malloc_size n < 2 ^ 31 /\ n < malloc_size n.
Proof using Type. intros Hn. unfold malloc_size, INIT_BLOCK_SIZE. rewrite !(s32_int n) by lia. destruct (n <? 1024) eqn:E; [lia|]. rewrite s32_int; lia. Qed.

(** A refused request changes nothing but the count. *)
Lemma refused_ok p cur kept : pool_ok p cur kept -> grant (asked p) = false -> grown p cur kept (Ok (false, asked_once p)).
Proof using Type.
  intros [Hm Hc] Hg. eexists false, _. split; [done|]. split; [split|split; [cbn; lia|by apply refused_now]].
  - split; cbn; [apply Hm|apply Hm|apply Hm|]. intros Hall. specialize (Hall (asked p) ltac:(lia)). congruence.
  - destruct Hc as [[]|(b & so & k & [])]; [left; by split|right]. exists b, so, k. by split.
Qed.

(** The characters that are copied to a new block. *)
Lemma malloc_copy p cur kept b so k c n m : memory_ok p -> at_place p cur kept b so k -> zlen cur <= n -> m = <[c := {| b_size := n; b_s := repeat junk (Z.to_nat n) |}]> (memory p) ->
  exists s, zlen s = n /\ has_bytes s 0 cur
    /\ (do q <- (if bool_decide (p_ptr p = p_start p) then Ok (with_memory p m) else do bs <- copy_from p (p_start p) (zlen cur); put (with_memory p m) c 0 bs); Ok (memory q)) = Ok (<[c := {| b_size := n; b_s := s |}]> (memory p)).
Proof using Type.
  intros Hm Ha Hn ->. pose proof (zlen_nonneg cur). assert (Hz : zlen (repeat junk (Z.to_nat n)) = n) by (unfold zlen; rewrite repeat_length; lia). rewrite (at_ptr _ _ _ _ _ _ Ha), (at_start _ _ _ _ _ _ Ha). case_bool_decide as E.
  - injection E as E. assert (cur = []) as -> by (destruct cur; [done|rewrite zlen_cons in E; pose proof (zlen_nonneg cur); lia]). exists (repeat junk (Z.to_nat n)). split; [done|]. split; [by exists [], (repeat junk (Z.to_nat n))|done].
  - exists (splice (repeat junk (Z.to_nat n)) 0 cur). split; [rewrite zlen_splice; lia|]. split; [apply has_bytes_splice; lia|]. unfold copy_from, put, block_at. cbn [memory with_memory]. rewrite (at_block _ _ _ _ _ _ Ha), lookup_insert_eq. cbn [of_option rbind b_s b_size]. rewrite (has_bytes_sub _ _ _ (at_bytes _ _ _ _ _ _ Ha)). cbn [rbind]. rewrite blit_ok by lia. cbn. by rewrite insert_insert_eq.
Qed.

Lemma grow_malloc_new p cur kept n s m : pool_ok p cur kept -> zlen s = n -> 0 < n -> has_bytes s 0 cur -> room p < n - zlen cur -> m = <[new_block p := {| b_size := n; b_s := s |}]> (memory p) ->
  grown p cur kept (Ok (true, {| blocks := new_block p :: blocks p; freeBlocks := freeBlocks p; p_end := Some (new_block p, n); p_ptr := Some (new_block p, zlen cur); p_start := Some (new_block p, 0); memory := m; new_block := new_block p + 1; asked := S (asked p) |})).
Proof using Type.
  intros [Hm Hc] Hs Hn Hcur Hr ->. set (k' := {| b_size := n; b_s := s |}). eexists true, _. split; [done|]. split; [split|].
  - apply (memory_ok_new p _ (blocks p) k'); try done. by left.
  - right. exists (new_block p), 0, k'. split; cbn; try done; [apply lookup_insert_eq| |right; eauto|].
    + intros Hin. apply (fresh_block p (new_block p) Hm); [|done]. apply (mo_chains _ Hm). set_solver.
    + destruct Hc as [[_ _ _ _ _ ->]|(b & so & k & Ha)]; [constructor|]. eapply (kept_moves p); [apply Ha|done|]. intros q t Hne (kq & Hkq & Hbq) Hq Hbs. assert (q.1 <> new_block p) by (apply fresh_block; [done|eauto]). split; [|done]. exists kq. cbn. by rewrite lookup_insert_ne by done.
  - split; [cbn; lia|]. split; [|cbn; eauto]. unfold room at 2. cbn. rewrite Z.eqb_refl. lia.
Qed.

Lemma grow_malloc_ok p cur kept : pool_ok p cur kept -> zlen cur <= limit -> room p <= 3 -> grown p cur kept (grow_malloc grant junk p).
Proof using Type.
  intros Hok Hl Hr. unfold limit in Hl. assert (Hn : exists n, ptr_sub (p_end p) (p_start p) = Ok n /\ ptr_sub (p_ptr p) (p_start p) = Ok (zlen cur) /\ 0 <= n < 2 ^ 30 /\ zlen cur <= n /\ room p <= n - zlen cur).
  { destruct Hok as [Hm [[Hs Hp He _ -> _]|(b & so & k & Ha)]].
    - exists 0. unfold room. rewrite Hs, Hp, He. change (zlen (@nil Z)) with 0 in *. cbn. split; [done|]. split; [done|]. lia.
    - pose proof (at_bounds _ _ _ _ _ _ Hm Ha) as (H0 & Hfit & Hlen). destruct (at_length _ _ _ _ _ _ Ha) as [En Ed]. rewrite (at_room _ _ _ _ _ _ Ha) in *. pose proof (zlen_nonneg cur). eexists. split; [exact En|]. split; [done|]. lia. }
  destruct Hn as (n & En & Ed & Hn & Hcn & Hrn). destruct (malloc_size_ok n Hn) as [Hsz Hgt]. unfold grow_malloc. rewrite En, Ed. cbn [rbind]. cbv zeta. change (if s32 n <? INIT_BLOCK_SIZE then INIT_BLOCK_SIZE else s32 (s32 n * 2)) with (malloc_size n). rewrite granted_when by lia.
  destruct (grant (asked p)) eqn:Hg; cbn [negb]; [|by apply refused_ok]. set (c := new_block p). set (m := <[c := _]> (memory p)).
  assert (Hcopy : exists s, zlen s = malloc_size n /\ has_bytes s 0 cur /\ (do q <- (if bool_decide (p_ptr p = p_start p) then Ok (with_memory p m) else do bs <- copy_from p (p_start p) (zlen cur); put (with_memory p m) c 0 bs); Ok (memory q)) = Ok (<[c := {| b_size := malloc_size n; b_s := s |}]> (memory p))).
  { destruct Hok as [Hm [[Hs Hp He _ -> _]|(b & so & k & Ha)]]; [|eapply malloc_copy; [done|done|lia|done]]. exists (repeat junk (Z.to_nat (malloc_size n))). rewrite Hs, Hp. split; [unfold zlen; rewrite repeat_length; lia|]. split; [by exists [], (repeat junk (Z.to_nat (malloc_size n)))|done]. }
  destruct Hcopy as (s & Hs & Hcur & E). destruct (if bool_decide (p_ptr p = p_start p) then _ else _) as [q|]; [|done]. cbn [rbind] in *. injection E as E. rewrite E. apply (grow_malloc_new p cur kept (malloc_size n) s); try done; lia.
Qed.

(** ** [poolGrow] *)

Lemma poolGrow_ok p cur kept : pool_ok p cur kept -> zlen cur <= limit -> room p <= 3 -> grown p cur kept (poolGrow grant junk p).
Proof using Type.
  intros Hok Hl Hr. assert (Halloc : grown p cur kept (grow_alloc grant junk p)).
  { unfold grow_alloc. destruct (blocks p) as [|b rest] eqn:Hb; [by apply grow_malloc_ok|]. case_bool_decide as Hs; [|by apply grow_malloc_ok]. destruct Hok as [Hm [[Hno]|(b' & so & k & Ha)]]; [congruence|]. pose proof (at_start _ _ _ _ _ _ Ha) as Hs'. rewrite Hs in Hs'. injection Hs' as <- <-. by eapply grow_realloc_ok. }
  unfold poolGrow. destruct (freeBlocks p) as [|f free] eqn:Hf; [done|]. destruct Hok as [Hm [Hno|(b & so & k & Ha)]].
  - rewrite (no_start _ _ _ Hno). pose proof (no_cur _ _ _ Hno) as ->. by apply grow_first_ok.
  - rewrite (at_start _ _ _ _ _ _ Ha). destruct (mo_chains _ Hm f) as [kf Hkf]; [rewrite Hf; set_solver|]. unfold block_at. rewrite Hkf. cbn [of_option rbind]. destruct (at_length _ _ _ _ _ _ Ha) as [En _]. rewrite (at_start _ _ _ _ _ _ Ha) in En. rewrite En. cbn [rbind]. destruct (Z.ltb_spec (b_size k - so) (b_size kf)); [by eapply grow_free_ok|done].
Qed.

End Pool.
