(* ===== verification/ExpatPoolOps.v ===== *)
(** * The operations of Expat's string pools

    What each operation does with the current string and the finished ones, and the
    interface that [poolAppend] needs of the converters. *)

From S2P Require Import Prelude ExpatPool ExpatPoolGrow.

(** [means input text]: [input] is a text in the encoding, [text] the same in UTF-8. A
    converter writes a part of the text that fits, and stops early only before a
    character that does not fit: fewer than four bytes are left. *)
Class Converter (convert : list Z -> Z -> nat * list Z) (means : list Z -> list Z -> Prop) := {
  convert_part input text n : means input text -> 0 <= n ->
    exists taken out rest, convert input n = (taken, out) /\ text = out ++ rest /\ zlen out <= n /\ means (drop taken input) rest /\ (drop taken input <> [] -> n - zlen out <= 3);
  convert_nothing text : means [] text -> text = [] }.

Section Ops.
  Context (grant : nat -> bool) (junk : Z).
  Abbreviation pool_ok := (pool_ok grant).
  Abbreviation refused := (refused grant).

(** ** Requests *)

Lemma refused_l p p1 p2 : refused p p1 -> (asked p1 <= asked p2)%nat -> refused p p2.
Proof using Type. intros (k & Hk & Hg) H. exists k. split; [lia|done]. Qed.

Lemma refused_r p p1 p2 : (asked p <= asked p1)%nat -> refused p1 p2 -> refused p p2.
Proof using Type. intros H (k & Hk & Hg). exists k. split; [lia|done]. Qed.

(** ** Writing into the block *)

(** [memcpy] at [ptr], which moves past the bytes. *)
Definition put_bytes (p : STRING_POOL) (out : list Z) : res STRING_POOL :=
  match p_ptr p with
  | Some (b, o) => do q <- put p b o out; Ok (with_ptr q (Some (b, o + zlen out)))
  | None => Err OutOfBounds
  end.

Lemma put_bytes_ok p cur kept out : pool_ok p cur kept -> is_Some (p_ptr p) -> zlen out <= room p ->
  exists p', put_bytes p out = Ok p' /\ pool_ok p' (cur ++ out) kept /\ asked p' = asked p /\ room p' = room p - zlen out /\ is_Some (p_ptr p').
Proof using Type.
  intros [Hm [[_ Hp _ _ _ _]|(b & so & k & Ha)]] Hsome Hroom; [rewrite Hp in Hsome; by destruct Hsome|]. pose proof (at_bounds _ _ _ _ _ _ _ Hm Ha) as (H0 & Hfit & Hlen). rewrite (at_room _ _ _ _ _ _ Ha) in *. pose proof (zlen_nonneg cur). pose proof (zlen_nonneg out).
  unfold put_bytes, put, block_at. rewrite (at_ptr _ _ _ _ _ _ Ha), (at_block _ _ _ _ _ _ Ha). cbn [of_option rbind]. rewrite blit_ok by lia. cbn [rbind]. set (k' := {| b_size := b_size k; b_s := splice (b_s k) (so + zlen cur) out |}). eexists. split; [done|].
  assert (Hat : at_place (with_ptr (with_memory p (<[b := k']> (memory p))) (Some (b, so + zlen cur + zlen out))) (cur ++ out) kept b so k').
  { destruct Ha as [Hs Hp He Hb Hbytes Hu Hh Hk]. split; cbn; try done; [rewrite zlen_app; do 2 f_equal; lia|apply lookup_insert_eq| |].
    - destruct Hbytes as (pre & post & E & Epre). assert (Hpost : zlen out <= zlen post) by (rewrite E, !zlen_app in Hlen; lia). exists pre, (drop (length out) post). split; [|done]. unfold k'. cbn [b_s]. unfold splice. rewrite E. rewrite (app_assoc pre cur post). replace (Z.to_nat (so + zlen cur)) with (length (pre ++ cur)) by (rewrite length_app; unfold zlen in *; lia).
      rewrite take_app_length. replace (Z.to_nat (so + zlen cur + zlen out)) with (length (pre ++ cur) + length out)%nat by (rewrite length_app; unfold zlen in *; lia). rewrite drop_app_add. by rewrite <- !app_assoc.
    - eapply Forall_impl; [exact Hk|]. intros [q s] [Hq|((kq & Hkq & Hbq) & Hq & Hle)]; [by left|]. right. cbn [fst snd] in *. split; [|done]. destruct (decide (q.1 = b)) as [Eb|Hne].
      + exists k'. cbn. rewrite Eb, lookup_insert_eq. split; [done|]. rewrite Eb in Hkq. assert (kq = k) as -> by congruence. specialize (Hle Eb). apply has_bytes_splice_below; [done|lia].
      + exists kq. cbn. by rewrite lookup_insert_ne by done. }
  split; [split; [|right; eauto]|].
  - destruct Hm as [Hb Hc Ho Hall]. split; cbn; [| |done|].
    + intros x kx Hx. destruct (decide (x = b)) as [->|Hne]; [|rewrite lookup_insert_ne in Hx by done; by apply Hb]. rewrite lookup_insert_eq in Hx. injection Hx as <-. destruct (Hb b k (at_block _ _ _ _ _ _ Ha)) as (? & ? & ?). unfold k'. cbn. rewrite zlen_splice by lia. done.
    + intros x Hx. destruct (decide (x = b)) as [->|Hne]; [rewrite lookup_insert_eq; eauto|rewrite lookup_insert_ne by done; by apply Hc].
    + intros Hg x Hx. apply (Hall Hg). destruct (decide (x = b)) as [->|Hne]; [rewrite (at_block _ _ _ _ _ _ Ha); eauto|by rewrite lookup_insert_ne in Hx by done].
  - split; [done|]. split; [rewrite (at_room _ _ _ _ _ _ Hat), zlen_app; cbn; lia|cbn; eauto].
Qed.

Lemma put_char_bytes p c : put_char p c = put_bytes p [c].
Proof using Type. done. Qed.

(** ** Characters one by one *)

Lemma room_ptr p cur kept : pool_ok p cur kept -> (p_ptr p = p_end p -> room p = 0) /\ (p_ptr p <> p_end p -> is_Some (p_ptr p) /\ 0 < room p) /\ (p_ptr p = None -> room p = 0).
Proof using Type.
  intros [Hm [[_ Hp He _ _ _]|(b & so & k & Ha)]].
  - unfold room. rewrite Hp, He. done.
  - pose proof (at_bounds _ _ _ _ _ _ _ Hm Ha) as (H0 & Hfit & Hlen). rewrite (at_room _ _ _ _ _ _ Ha), (at_ptr _ _ _ _ _ _ Ha), (at_end _ _ _ _ _ _ Ha). split; [intros [= E]; lia|]. split; [|done]. intros Hne. split; [eauto|]. assert (so + zlen cur <> b_size k) by congruence. lia.
Qed.

(** The pool grows if [need] holds. *)
Lemma grow_if_ok (need : Prop) `{!Decision need} p cur kept : pool_ok p cur kept -> zlen cur <= limit -> (need -> room p <= 3) -> (~ need -> is_Some (p_ptr p)) ->
  exists ok p', (if bool_decide need then poolGrow grant junk p else Ok (true, p)) = Ok (ok, p') /\ pool_ok p' cur kept /\ (asked p <= asked p')%nat
    /\ if (ok : bool) then is_Some (p_ptr p') /\ (need -> room p < room p') /\ (~ need -> p' = p) else refused p p'.
Proof using Type.
  intros Hok Hl Hneed Hnot. case_bool_decide as Hn.
  - destruct (poolGrow_ok grant junk p cur kept Hok Hl (Hneed Hn)) as (ok & p' & E & Hok' & Has & Hend). exists ok, p'. split; [done|]. split; [done|]. split; [done|]. destruct ok; [|done]. destruct Hend. done.
  - exists true, p. split; [done|]. split; [done|]. split; [done|]. split; [by apply Hnot|]. done.
Qed.

Lemma poolAppendChar_ok p cur kept c : pool_ok p cur kept -> zlen cur < limit ->
  exists ok p', poolAppendChar grant junk p c = Ok (ok, p') /\ (asked p <= asked p')%nat /\ if (ok : bool) then pool_ok p' (cur ++ [c]) kept /\ is_Some (p_ptr p') else pool_ok p' cur kept /\ refused p p'.
Proof using Type.
  intros Hok Hl. destruct (room_ptr p cur kept Hok) as (Hfull & Hfree & _). destruct (grow_if_ok (p_ptr p = p_end p) p cur kept Hok ltac:(lia)) as (ok & p1 & E & Hok1 & Has & Hend); [intros H; rewrite Hfull by done; lia|by intros H; apply Hfree|].
  unfold poolAppendChar. rewrite E. cbn [rbind]. destruct ok; cbn [negb]; [|by exists false, p1]. destruct Hend as (Hs & Hr & Hp). assert (Hroom : 1 <= room p1) by (destruct (decide (p_ptr p = p_end p)) as [He|He]; [specialize (Hr He); rewrite Hfull in Hr by done; lia|rewrite (Hp He); destruct (Hfree He); lia]).
  rewrite put_char_bytes. destruct (put_bytes_ok p1 cur kept [c] Hok1 Hs ltac:(done)) as (p' & E' & Hok' & Has' & _ & Hs'). rewrite E'. cbn [rbind]. exists true, p'. split; [done|]. split; [lia|]. done.
Qed.

(** What appending [s] does. *)
Definition appended (p : STRING_POOL) (cur : list Z) (kept : list (place * list Z)) (s : list Z) (r : res (bool * STRING_POOL)) : Prop :=
  exists ok p' part, r = Ok (ok, p') /\ pool_ok p' (cur ++ part) kept /\ (asked p <= asked p')%nat /\ if (ok : bool) then part = s /\ (s <> [] \/ is_Some (p_ptr p) -> is_Some (p_ptr p')) else part `prefix_of` s /\ refused p p'.

Lemma append_chars_ok s : forall p cur kept, pool_ok p cur kept -> zlen cur + zlen s <= limit -> appended p cur kept s (append_chars grant junk p s).
Proof using Type.
  induction s as [|c s IH]; intros p cur kept Hok Hl; cbn [append_chars]; [exists true, p, []; rewrite app_nil_r; split; [done|]; split; [done|]; split; [done|]; split; [done|]; by intros [?|?]|]. rewrite zlen_cons in Hl. pose proof (zlen_nonneg s).
  destruct (poolAppendChar_ok p cur kept c Hok ltac:(lia)) as (ok & p1 & E & Has & Hend). rewrite E. cbn [rbind]. destruct ok; cbn [negb].
  - destruct Hend as [Hok1 Hs1]. destruct (IH p1 (cur ++ [c]) kept Hok1) as (ok & p' & part & E' & Hok' & Has' & Hend'); [rewrite zlen_app; change (zlen [c]) with 1; lia|]. exists ok, p', (c :: part). rewrite <- app_assoc in Hok'. split; [done|]. split; [done|]. split; [lia|]. destruct ok.
    + destruct Hend' as [-> Hp]. split; [done|]. intros _. apply Hp. by right.
    + destruct Hend' as [Hpre Href]. split; [by apply prefix_cons|]. by eapply refused_r.
  - destruct Hend as [Hok1 Href]. exists false, p1, []. rewrite app_nil_r. split; [done|]. split; [done|]. split; [done|]. split; [apply prefix_nil|done].
Qed.

(** ** Ending a string *)

Lemma poolFinish_ok p cur kept : pool_ok p cur kept -> pool_ok (poolFinish p) [] (match p_start p with Some q => (q, cur) :: kept | None => kept end).
Proof using Type.
  intros [Hm [Hno|(b & so & k & Ha)]]; (split; [destruct Hm; by split|]).
  - left. destruct Hno. rewrite no_start. by split.
  - rewrite (at_start _ _ _ _ _ _ Ha). pose proof (has_bytes_bound _ _ _ (at_bytes _ _ _ _ _ _ Ha)) as Hb. pose proof (zlen_nonneg cur). right. exists b, (so + zlen cur), k. destruct Ha as [Hs Hp He Hblk Hbytes Hu Hh Hk]. split; cbn; try done; [by rewrite Hp, Z.add_0_r| |].
    + apply (has_bytes_app_2 _ so cur []). by rewrite app_nil_r.
    + constructor; [right; cbn; split; [by exists k|]; split; [done|lia]|]. eapply Forall_impl; [exact Hk|]. intros [q s] [Hq|(Hh' & Hq & Hle)]; [by left|]. right. cbn in *. split; [done|]. split; [done|]. intros E. specialize (Hle E). lia.
Qed.

Lemma with_ptr_ok p cur cur' kept b so k : memory_ok grant p -> at_place p cur kept b so k -> has_bytes (b_s k) so cur' -> pool_ok (with_ptr p (Some (b, so + zlen cur'))) cur' kept.
Proof using Type. intros Hm Ha Hb. split; [destruct Hm; by split|]. right. exists b, so, k. destruct Ha. by split. Qed.

Lemma poolDiscard_ok p cur kept : pool_ok p cur kept -> pool_ok (poolDiscard p) [] kept.
Proof using Type.
  intros [Hm [Hno|(b & so & k & Ha)]].
  - split; [destruct Hm; by split|]. left. destruct Hno. by split.
  - unfold poolDiscard. rewrite (at_start _ _ _ _ _ _ Ha). rewrite <- (Z.add_0_r so). apply (with_ptr_ok p cur [] kept b so k); [done|done|]. apply (has_bytes_app _ so [] cur), Ha.
Qed.

Lemma poolChop_ok p cur c kept : pool_ok p (cur ++ [c]) kept -> poolLastChar p = Ok c /\ exists p', poolChop p = Ok p' /\ pool_ok p' cur kept /\ asked p' = asked p.
Proof using Type.
  intros [Hm [Hno|(b & so & k & Ha)]]; [destruct Hno; by destruct cur|]. pose proof (at_ptr _ _ _ _ _ _ Ha) as Hp. pose proof (at_bytes _ _ _ _ _ _ Ha) as [Hcur Hc]%has_bytes_app. rewrite zlen_app in Hp. change (zlen [c]) with 1 in Hp. unfold poolLastChar, poolChop, ptr_add. rewrite Hp. cbn [rbind]. replace (so + (zlen cur + 1) + -1) with (so + zlen cur) by lia. split.
  - unfold copy_from, block_at. rewrite (at_block _ _ _ _ _ _ Ha). cbn [of_option rbind]. change 1 with (zlen [c]). rewrite (has_bytes_sub _ _ _ Hc). done.
  - eexists. split; [done|]. split; [|done]. by eapply with_ptr_ok.
Qed.

(** ** Clearing and destroying *)

Lemma foldl_push (l : list Z) : forall acc, foldl (fun l b => b :: l) acc l ≡ₚ l ++ acc.
Proof using Type. induction l as [|b l IH]; intros acc; cbn; [done|]. rewrite IH. symmetry. apply Permutation_middle. Qed.

Lemma cleared_chains p : freeBlocks (poolClear p) ≡ₚ blocks p ++ freeBlocks p.
Proof using Type. cbn. destruct (freeBlocks p) as [|f free] eqn:E; [by rewrite app_nil_r|]. apply foldl_push. Qed.

Lemma poolClear_ok p cur kept : pool_ok p cur kept -> pool_ok (poolClear p) [] [] /\ asked (poolClear p) = asked p.
Proof using Type.
  intros [Hm _]. pose proof (cleared_chains p) as Hc. split; [|done]. split; [|left; by split]. destruct Hm as [Hb Hch Ho Hall]. split.
  - exact Hb.
  - intros b Hin. apply Hch. rewrite <- Hc. exact Hin.
  - change (NoDup (freeBlocks (poolClear p))). by rewrite Hc.
  - intros Hg b Hin. change (b ∈ freeBlocks (poolClear p)). rewrite Hc. by apply Hall.
Qed.

Lemma free_chain_ok l : forall m : gmap Z BLOCK, NoDup l -> (forall b, b ∈ l -> is_Some (m !! b)) -> exists m', free_chain l m = Ok m' /\ forall b, m' !! b = if decide (b ∈ l) then None else m !! b.
Proof using Type.
  induction l as [|a l IH]; intros m Hnd Hin; cbn [free_chain]; [exists m; split; [done|]; intros b; rewrite decide_False by apply not_elem_of_nil; done|]. apply NoDup_cons in Hnd as [Ha Hnd]. destruct (Hin a) as [k Hk]; [set_solver|]. rewrite Hk. cbn [of_option rbind].
  destruct (IH (delete a m) Hnd) as (m' & E & Hm'); [intros b Hb; rewrite lookup_delete_ne by set_solver; apply Hin; set_solver|]. exists m'. split; [done|]. intros b. rewrite Hm'. destruct (decide (b = a)) as [->|Hne]; [rewrite lookup_delete_eq, (decide_True (P := a ∈ a :: l)) by set_solver; by case_decide|]. rewrite lookup_delete_ne by done. repeat case_decide; set_solver.
Qed.

(** Nothing is freed twice; if no request was refused, nothing is left. *)
Lemma poolDestroy_ok p cur kept : pool_ok p cur kept -> exists m, poolDestroy p = Ok m /\ ((forall k, (k < asked p)%nat -> grant k = true) -> m = ∅).
Proof using Type.
  intros [Hm _]. pose proof (mo_once _ _ Hm) as (Hnb & Hdis & Hnf)%NoDup_app. unfold poolDestroy. destruct (free_chain_ok (blocks p) (memory p) Hnb) as (m1 & E1 & H1); [intros b Hb; apply (mo_chains _ _ Hm); set_solver|]. rewrite E1. cbn [rbind].
  destruct (free_chain_ok (freeBlocks p) m1 Hnf) as (m2 & E2 & H2); [intros b Hb; rewrite H1, decide_False by (intros H; by apply (Hdis b)); apply (mo_chains _ _ Hm); set_solver|]. exists m2. split; [done|]. intros Hg. apply map_eq. intros b. rewrite lookup_empty, H2, H1. case_decide; [done|]. case_decide; [done|].
  destruct (memory p !! b) as [k|] eqn:Ek; [|done]. exfalso. pose proof (mo_all _ _ Hm Hg b ltac:(eauto)). set_solver.
Qed.

(** ** Converted text *)

Section Convert.
  Context (convert : list Z -> Z -> nat * list Z) (means : list Z -> list Z -> Prop) `{!Converter convert means}.

Lemma append_loop_ok fuel : forall p cur kept input text, pool_ok p cur kept -> is_Some (p_ptr p) -> 0 <= room p -> means input text -> zlen cur + zlen text <= limit -> 4 * zlen text + (4 - Z.min (room p) 4) < Z.of_nat fuel ->
  appended p cur kept text (append_loop grant junk convert fuel p input).
Proof using All.
  induction fuel as [|fuel IH]; intros p cur kept input text Hok Hs Hr Hin Hl Hf; [pose proof (zlen_nonneg text); lia|]. cbn [append_loop]. assert (Er : ptr_sub (p_end p) (p_ptr p) = Ok (room p)).
  { destruct Hok as [_ [Hno|(b & so & k & Ha)]]; [rewrite (no_ptr _ _ _ Hno) in Hs; by destruct Hs|]. unfold room. rewrite (at_end _ _ _ _ _ _ Ha), (at_ptr _ _ _ _ _ _ Ha). cbn. by rewrite Z.eqb_refl. }
  rewrite Er. cbn [rbind]. destruct (convert_part input text (room p) Hin Hr) as (taken & out & rest & -> & -> & Hfit & Hrest & Hstop). destruct (put_bytes_ok p cur kept out Hok Hs Hfit) as (q & Eq & Hok' & Has & Hroom & Hs'). unfold put_bytes in Eq. rewrite Eq. cbn [rbind]. cbv zeta. rewrite zlen_app in *. pose proof (zlen_nonneg out). pose proof (zlen_nonneg rest).
  destruct (drop taken input) as [|c input'] eqn:Ed.
  - apply convert_nothing in Hrest as ->. rewrite app_nil_r. exists true, q, out. split; [done|]. split; [done|]. split; [lia|]. done.
  - assert (Hleft : room p - zlen out <= 3) by (by apply Hstop). destruct (poolGrow_ok grant junk q (cur ++ out) kept Hok' ltac:(rewrite zlen_app; lia) ltac:(lia)) as (ok & q1 & E1 & Hok1 & Has1 & Hend). rewrite E1. cbn [rbind]. destruct ok; cbn [negb].
    + destruct Hend as [Hmore Hs1]. destruct (IH q1 (cur ++ out) kept (c :: input') rest Hok1 Hs1) as (ok & p' & part & E & Hok2 & Has2 & Hend2); [lia|done|rewrite zlen_app; lia|lia|]. exists ok, p', (out ++ part). rewrite <- app_assoc in Hok2. split; [done|]. split; [done|]. split; [lia|]. destruct ok.
      * destruct Hend2 as [-> Hp]. split; [done|]. intros _. apply Hp. by right.
      * destruct Hend2 as [Hpre Href]. split; [by apply prefix_app|]. eapply refused_r; [|exact Href]. lia.
    + exists false, q1, out. split; [done|]. split; [done|]. split; [lia|]. split; [by exists rest|]. eapply refused_r; [|exact Hend]. lia.
Qed.

(** NULL, or the start of the current string. *)
Definition appended_at (p : STRING_POOL) (cur : list Z) (kept : list (place * list Z)) (s : list Z) (r : res (option place * STRING_POOL)) : Prop :=
  exists q p' part, r = Ok (q, p') /\ pool_ok p' (cur ++ part) kept /\ (asked p <= asked p')%nat /\ match q with Some _ => part = s /\ is_Some (p_ptr p') /\ p_start p' = q | None => part `prefix_of` s /\ refused p p' end.

Lemma start_ptr p cur kept : pool_ok p cur kept -> is_Some (p_ptr p) -> is_Some (p_start p).
Proof using Type. intros [_ [Hno|(b & so & k & Ha)]] H; [rewrite (no_ptr _ _ _ Hno) in H; by destruct H|]. rewrite (at_start _ _ _ _ _ _ Ha). eauto. Qed.

Lemma poolAppend_ok fuel p cur kept input text : pool_ok p cur kept -> means input text -> zlen cur + zlen text <= limit -> 4 * zlen text + 4 < Z.of_nat fuel -> appended_at p cur kept text (poolAppend grant junk convert fuel p input).
Proof using All.
  intros Hok Hin Hl Hf. pose proof (zlen_nonneg text). destruct (room_ptr p cur kept Hok) as (Hfull & Hfree & Hnone). destruct (grow_if_ok (p_ptr p = None) p cur kept Hok ltac:(lia)) as (ok & p1 & E & Hok1 & Has & Hend); [intros H'; rewrite Hnone by done; lia|intros H'; by apply not_eq_None_Some|].
  unfold poolAppend. rewrite E. cbn [rbind]. destruct ok; cbn [negb]; [|exists None, p1, []; rewrite app_nil_r; split; [done|]; split; [done|]; split; [done|]; split; [apply prefix_nil|done]].
  destruct Hend as (Hs & _). assert (Hr : 0 <= room p1). { destruct (room_ptr p1 cur kept Hok1) as (Hf1 & Hfr1 & _). destruct (decide (p_ptr p1 = p_end p1)) as [He|He]; [rewrite Hf1 by done; lia|destruct (Hfr1 He); lia]. }
  destruct (append_loop_ok fuel p1 cur kept input text Hok1 Hs Hr Hin Hl ltac:(lia)) as (ok & p' & part & E' & Hok' & Has' & Hend'). rewrite E'. cbn [rbind]. destruct ok.
  - destruct Hend' as [-> Hp]. destruct (start_ptr p' _ _ Hok' (Hp (or_intror Hs))) as [q Hq]. exists (Some q), p', text. rewrite Hq. split; [done|]. split; [done|]. split; [lia|]. split; [done|]. split; [|done]. apply Hp. by right.
  - exists None, p', part. split; [done|]. split; [done|]. split; [lia|]. destruct Hend'. split; [done|]. by eapply refused_r.
Qed.

Lemma poolStoreString_ok fuel p cur kept input text : pool_ok p cur kept -> means input text -> zlen cur + zlen text + 1 <= limit -> 4 * zlen text + 4 < Z.of_nat fuel -> appended_at p cur kept (text ++ [0]) (poolStoreString grant junk convert fuel p input).
Proof using All.
  intros Hok Hin Hl Hf. destruct (poolAppend_ok fuel p cur kept input text Hok Hin ltac:(lia) Hf) as (q & p1 & part & E & Hok1 & Has & Hend). unfold poolStoreString. rewrite E. cbn [rbind]. destruct q as [q|].
  - destruct Hend as (-> & Hs & Hq). destruct (poolAppendChar_ok p1 (cur ++ text) kept 0 Hok1 ltac:(rewrite zlen_app; lia)) as (ok & p2 & E2 & Has2 & Hend2). unfold poolAppendChar in E2. destruct (if bool_decide (p_ptr p1 = p_end p1) then _ else _) as [[r p3]|]; [|done]. cbn [rbind] in *. destruct r; cbn [negb] in *.
    + destruct (put_char p3 0) as [p4|]; [|done]. cbn [rbind] in *. injection E2 as <- <-. destruct Hend2 as [Hok' Hs']. destruct (start_ptr _ _ _ Hok' Hs') as [q' Hq']. exists (Some q'), p4, (text ++ [0]). rewrite Hq'. rewrite <- app_assoc in Hok'. split; [done|]. split; [done|]. split; [lia|]. done.
    + injection E2 as <- <-. destruct Hend2 as [Hok2 Href]. exists None, p3, text. split; [done|]. split; [done|]. split; [lia|]. split; [by exists [0]|]. by eapply refused_r.
  - destruct Hend as [Hpre Href]. exists None, p1, part. split; [done|]. split; [done|]. split; [done|]. split; [by apply prefix_app_r|done].
Qed.

End Convert.
End Ops.
