(* ===== verification/ExpatPoolConvert.v ===== *)
(** * The converters behind Expat's string pools

    [utf8_toUtf8] and [utf16_toUtf8] have what [poolAppend] needs of a converter. *)

From S2P Require Import Prelude ExpatTok ExpatUtf ExpatPool ExpatPoolGrow ExpatPoolOps.

(** A converter run on the input and so much room: the bytes taken and written. *)
Definition converted (r : res conv) : nat * list Z :=
  match r with Ok (from, out, to) => (Z.to_nat from, take (Z.to_nat to) out) | Err _ => (O, []) end.

(** ** UTF-16 *)

Definition convert16 (little : bool) (input : list Z) (n : Z) : nat * list Z :=
  converted (utf16_toUtf8 input (S (length input)) little 0 (zlen input) (repeat 0 (Z.to_nat n)) 0 n).

Definition means16 (little : bool) (input text : list Z) : Prop :=
  exists cs, Forall scalar cs /\ input = concat (map (utf16_bytes little) cs) /\ text = concat (map utf8 cs).

(** The characters that fit, and the first that does not. *)
Lemma fitting_prefix (f : Z -> list Z) cs : forall cap, 0 <= cap -> let l := fitting (fun c => zlen (f c)) cap cs in
  exists g, cs = l ++ g /\ zlen (concat (map f l)) <= cap /\ match g with c :: _ => cap - zlen (concat (map f l)) < zlen (f c) | [] => True end.
Proof.
  induction cs as [|c cs IH]; intros cap Hcap; cbn [fitting]; [exists []; cbn; done|]. destruct (Z.leb_spec (zlen (f c)) cap) as [Hle|Hgt].
  - destruct (IH (cap - zlen (f c)) ltac:(lia)) as (g & E & Hfit & Hnext). cbv zeta in *. cbn [map concat]. rewrite zlen_app. exists g. split; [cbn; by f_equal|]. split; [lia|]. destruct g; [done|lia].
  - exists (c :: cs). split; [done|]. change (zlen (concat (map f []))) with 0. lia.
Qed.

Lemma zlen_utf8 c : 1 <= zlen (utf8 c) <= 4.
Proof. unfold utf8. repeat case_match; unfold zlen; cbn; lia. Qed.

Lemma utf16_bytes_length little cs : (length cs <= length (concat (map (utf16_bytes little) cs)))%nat.
Proof. induction cs as [|c cs IH]; cbn [map concat]; [done|]. rewrite length_app. pose proof (zlen_utf16_bytes little c). unfold zlen in *. cbn [length]. case_match; lia. Qed.

Lemma take_splice0 n (l : list Z) : zlen l <= n -> take (Z.to_nat (zlen l)) (splice (repeat 0 (Z.to_nat n)) 0 l) = l.
Proof. intros H. unfold splice. change (Z.to_nat 0) with 0%nat. rewrite take_0, app_nil_l. replace (Z.to_nat (zlen l)) with (length l) by (unfold zlen; lia). by rewrite take_app_length. Qed.

#[export] Instance converter16 little : Converter (convert16 little) (means16 little).
Proof.
  split.
  - intros input text n (cs & Hcs & -> & ->) Hn. set (M := concat (map (utf16_bytes little) cs)). set (fs := fitting (fun c => zlen (utf8 c)) n cs). destruct (fitting_prefix utf8 cs n Hn) as (g & E & Hfit & Hnext). fold fs in E, Hfit, Hnext. cbv zeta in *.
    exists (length (concat (map (utf16_bytes little) fs))), (concat (map utf8 fs)), (concat (map utf8 g)). assert (Hd : drop (length (concat (map (utf16_bytes little) fs))) M = concat (map (utf16_bytes little) g)) by (unfold M; rewrite E at 1; rewrite map_app, concat_app; apply drop_app_length).
    split; [|split; [|split; [done|split]]].
    + unfold convert16, M. rewrite (utf16_toUtf8_longest little (repeat 0 (Z.to_nat n)) n) by first [done|unfold zlen; rewrite repeat_length; lia|pose proof (utf16_bytes_length little cs); lia]. fold fs. cbn [converted]. f_equal; [unfold zlen; lia|]. by apply take_splice0.
    + rewrite E at 1. by rewrite map_app, concat_app.
    + rewrite Hd. exists g. split; [|done]. rewrite E in Hcs. by apply Forall_app in Hcs as [_ ?].
    + rewrite Hd. destruct g as [|c g]; [done|]. intros _. pose proof (zlen_utf8 c). lia.
  - intros text (cs & _ & E & ->). destruct cs as [|c cs]; [done|]. pose proof (zlen_utf16_bytes little c) as H. cbn [map concat] in E. destruct (utf16_bytes little c); [|done]. unfold zlen in H. cbn in H. case_match; lia.
Qed.

(** ** UTF-8 *)

Definition convert8 (input : list Z) (n : Z) : nat * list Z :=
  converted (utf8_toUtf8 input (S (length input)) 0 (zlen input) (repeat 0 (Z.to_nat n)) 0 n).

Definition continuation (b : Z) : bool := Z.land b 0xc0 =? 0x80.

(** Bytes without four continuation bytes in a row, as in every part of a valid text. *)
Definition means8 (input text : list Z) : Prop :=
  text = input /\ bytes input /\ forall i : nat, (i + 4 <= length input)%nat -> exists j b, (i <= j < i + 4)%nat /\ input !! j = Some b /\ continuation b = false.

Lemma utf8_limit_ok m fuel : forall lim : nat, (lim <= length m)%nat -> (lim < fuel)%nat ->
  exists lim' : nat, utf8_limit m fuel 0 (Z.of_nat lim) = Ok (Z.of_nat lim') /\ (lim' <= lim)%nat /\ forall j b, (lim' <= j < lim)%nat -> m !! j = Some b -> continuation b = true.
Proof.
  induction fuel as [|fuel IH]; intros lim Hl Hf; [lia|]. cbn [utf8_limit]. destruct (Z.ltb_spec 0 (Z.of_nat lim)) as [Hpos|Hz]; [|exists lim; split; [done|]; split; [done|]; intros; lia].
  destruct (lookup_lt_is_Some_2 m (pred lim) ltac:(lia)) as [b Hb]. unfold rd. replace ((0 <=? Z.of_nat lim - 1) && (Z.of_nat lim - 1 <? zlen m)) with true by (unfold zlen; lia). replace (Z.to_nat (Z.of_nat lim - 1)) with (pred lim) by lia. rewrite Hb. cbn [rbind]. fold (continuation b). destruct (continuation b) eqn:Hc; cbn [negb].
  - replace (Z.of_nat lim - 1) with (Z.of_nat (pred lim)) by lia. destruct (IH (pred lim) ltac:(lia) ltac:(lia)) as (lim' & E & Hle & Hall). exists lim'. split; [done|]. split; [lia|]. intros j x Hj Hx. destruct (decide (j = pred lim)) as [->|]; [congruence|]. apply (Hall j x); [lia|done].
  - exists lim. split; [done|]. split; [done|]. intros; lia.
Qed.

Lemma utf8_copy_ok m lim out : bytes m -> (lim <= length m)%nat -> Z.of_nat lim <= zlen out -> forall fuel i : nat, (i <= lim)%nat -> (lim - i < fuel)%nat ->
  utf8_copy m fuel (Z.of_nat i) (Z.of_nat lim) (splice out 0 (take i m)) (Z.of_nat i) = Ok (Z.of_nat lim, splice out 0 (take lim m), Z.of_nat lim).
Proof.
  intros Hm Hl Hout. induction fuel as [|fuel IH]; intros i Hi Hf; [lia|]. cbn [utf8_copy]. destruct (Z.eqb_spec (Z.of_nat i) (Z.of_nat lim)) as [E|Hne]; [by replace i with lim by lia|]. destruct (lookup_lt_is_Some_2 m i ltac:(lia)) as [b Hb]. unfold rd. replace ((0 <=? Z.of_nat i) && (Z.of_nat i <? zlen m)) with true by (unfold zlen; lia). rewrite Nat2Z.id, Hb. cbn [rbind].
  assert (Hz : zlen (take i m) = Z.of_nat i) by (unfold zlen; rewrite length_take; lia). assert (Hbyte : is_byte b) by (eapply (proj1 (Forall_lookup _ _) Hm); exact Hb). assert (He : emit (splice out 0 (take i m)) (Z.of_nat i) b = Ok (splice out 0 (take i m ++ [b]), zlen (take i m ++ [b]))) by (rewrite <- Hz; apply emit_splice0; done || lia). rewrite He. cbn [rbind]. rewrite <- (take_S_r m i b Hb). replace (zlen (take (S i) m)) with (Z.of_nat (S i)) by (unfold zlen; rewrite length_take; lia). replace (Z.of_nat i + 1) with (Z.of_nat (S i)) by lia. apply IH; lia.
Qed.

Lemma convert8_ok m n : bytes m -> 0 <= n -> exists k : nat, convert8 m n = (k, take k m) /\ (k <= length m)%nat /\ Z.of_nat k <= n /\ (k = length m \/ n < zlen m /\ forall j b, (k <= j < Z.to_nat n)%nat -> m !! j = Some b -> continuation b = true).
Proof.
  intros Hm Hn. unfold convert8, utf8_toUtf8. rewrite !Z.sub_0_r. assert (Hz : zlen (repeat 0 (Z.to_nat n)) = n) by (unfold zlen; rewrite repeat_length; lia). set (out := repeat 0 (Z.to_nat n)) in *.
  assert (Hlim : exists k : nat, (if n <? zlen m then utf8_limit m (S (length m)) 0 (0 + n) else Ok (zlen m)) = Ok (Z.of_nat k) /\ (k <= length m)%nat /\ Z.of_nat k <= n /\ (k = length m \/ n < zlen m /\ forall j b, (k <= j < Z.to_nat n)%nat -> m !! j = Some b -> continuation b = true)).
  { destruct (Z.ltb_spec n (zlen m)) as [Hlt|Hge]; [|exists (length m); unfold zlen in *; split; [done|]; split; [done|]; split; [lia|by left]]. unfold zlen in Hlt. replace (0 + n) with (Z.of_nat (Z.to_nat n)) by lia. destruct (utf8_limit_ok m (S (length m)) (Z.to_nat n) ltac:(lia) ltac:(lia)) as (k & E & Hk & Hall). exists k. split; [done|]. split; [lia|]. split; [lia|by right]. }
  destruct Hlim as (k & E & Hk & Hkn & Hall). exists k. split; [|done]. rewrite E. cbn [rbind]. pose proof (utf8_copy_ok m k out Hm Hk ltac:(lia) (S (length m)) 0 ltac:(lia) ltac:(lia)) as Ec. rewrite take_0, splice_nil in Ec by lia. change (Z.of_nat 0) with 0 in Ec. rewrite Ec. cbn [converted]. rewrite Nat2Z.id. f_equal. assert (Ht : zlen (take k m) = Z.of_nat k) by (unfold zlen; rewrite length_take; lia). pose proof (take_splice0 n (take k m) ltac:(lia)) as H. rewrite Ht, Nat2Z.id in H. exact H.
Qed.

#[export] Instance converter8 : Converter convert8 means8.
Proof.
  split; [|by intros text (-> & _)]. intros input text n (-> & Hb & Hruns) Hn. destruct (convert8_ok input n Hb Hn) as (k & E & Hk & Hkn & Hall). exists k, (take k input), (drop k input). assert (Hz : zlen (take k input) = Z.of_nat k) by (unfold zlen; rewrite length_take; lia).
  split; [done|]. split; [by rewrite take_drop|]. split; [lia|]. split.
  - split; [done|]. split; [by apply Forall_drop|]. intros i Hi. rewrite length_drop in Hi. destruct (Hruns (k + i)%nat ltac:(lia)) as (j & b & Hj & Hjb & Hc). exists (j - k)%nat, b. rewrite lookup_drop. split; [lia|]. by replace (k + (j - k))%nat with j by lia.
  - intros Hne. destruct Hall as [->|[Hlt Hall]]; [by rewrite drop_all in Hne|]. rewrite Hz. destruct (Z.leb_spec (n - Z.of_nat k) 3) as [|Hgt]; [done|]. exfalso. unfold zlen in Hlt. destruct (Hruns k ltac:(lia)) as (j & b & Hj & Hjb & Hc). rewrite (Hall j b) in Hc by (done || lia). done.
Qed.
