(* ===== verification/ExpatPoolRun.v ===== *)
(** * Histories of Expat's string pools

    Any sequence of operations, with any answers of the allocator: the strings are the
    ones that were stored, where they were stored. *)

From S2P Require Import Prelude ExpatUtf ExpatPool ExpatPoolGrow ExpatPoolOps ExpatPoolConvert.

(** ** Operations *)

(** The text of converted input is what the input means in UTF-8; [Finish] is
    [poolStart] and [poolFinish]. *)
Inductive op :=
  | AppendChar (c : Z) | AppendString (s : list Z) | CopyString (s : list Z) | CopyStringN (s : list Z) (n : Z)
  | Append (input text : list Z) | StoreString (input text : list Z) | ChopSpace | Discard | Finish | ClearPool.

Inductive answer := Flag (b : bool) | Pointer (q : option place) | Nothing.

(** The characters that are added. *)
Definition adds (o : op) : option (list Z) :=
  match o with
  | AppendChar c => Some [c] | AppendString s => Some s | CopyString s => Some (s ++ [0]) | CopyStringN s n => Some (take (Z.to_nat n) s)
  | Append _ t => Some t | StoreString _ t => Some (t ++ [0]) | ChopSpace | Discard | Finish | ClearPool => None
  end.

Definition adding (os : list op) : Z := foldr (fun o n => zlen (default [] (adds o)) + n) 0 os.

Lemma adding_nonneg os : 0 <= adding os.
Proof. induction os as [|o os IH]; cbn; [done|]. fold (adding os). pose proof (zlen_nonneg (default [] (adds o))). lia. Qed.

(** ** What may happen

    The current string, and the finished ones with their places. *)
Abbreviation view := (list Z * list (place * list Z))%type.

Definition chopped (cur : list Z) : list Z := match last cur with Some 0x20 => take (pred (length cur)) cur | _ => cur end.

Inductive permitted (fail : Prop) : view -> op -> answer -> view -> Prop :=
| p_char cur kept c : permitted fail (cur, kept) (AppendChar c) (Flag true) (cur ++ [c], kept)
| p_string cur kept s q : permitted fail (cur, kept) (AppendString s) (Pointer q) (cur ++ s, kept)
| p_copy cur kept s q : permitted fail (cur, kept) (CopyString s) (Pointer (Some q)) ([], (q, cur ++ s ++ [0]) :: kept)
| p_copyN cur kept s n q : permitted fail (cur, kept) (CopyStringN s n) (Pointer (Some q)) ([], (q, cur ++ take (Z.to_nat n) s) :: kept)
| p_append cur kept input text q : permitted fail (cur, kept) (Append input text) (Pointer (Some q)) (cur ++ text, kept)
| p_store cur kept input text q : permitted fail (cur, kept) (StoreString input text) (Pointer (Some q)) (cur ++ text ++ [0], kept)
| p_failed cur kept o s part : fail -> adds o = Some s -> part `prefix_of` s -> permitted fail (cur, kept) o (match o with AppendChar _ => Flag false | _ => Pointer None end) (cur ++ part, kept)
| p_chop cur kept : permitted fail (cur, kept) ChopSpace Nothing (chopped cur, kept)
| p_discard cur kept : permitted fail (cur, kept) Discard Nothing ([], kept)
| p_finish cur kept q : permitted fail (cur, kept) Finish (Pointer (Some q)) ([], (q, cur) :: kept)
| p_finish_none kept : permitted fail ([], kept) Finish (Pointer None) ([], kept)
| p_clear cur kept : permitted fail (cur, kept) ClearPool Nothing ([], []).

Inductive permits (fail : Prop) : view -> list op -> list answer -> view -> Prop :=
| permits_done v : permits fail v [] [] v
| permits_step v o a v' os l v'' : permitted fail v o a v' -> permits fail v' os l v'' -> permits fail v (o :: os) (a :: l) v''.

Section Run.
  Context (grant : nat -> bool) (junk : Z) (convert : list Z -> Z -> nat * list Z) (means : list Z -> list Z -> Prop) `{!Converter convert means}.
  Abbreviation pool_ok := (pool_ok grant).

Definition perform (o : op) (p : STRING_POOL) : res (answer * STRING_POOL) :=
  let fuel (text : list Z) := (4 * length text + 5)%nat in
  match o with
  | AppendChar c => do (r, p) <- poolAppendChar grant junk p c; Ok (Flag r, p)
  | AppendString s => do (q, p) <- poolAppendString grant junk p s; Ok (Pointer q, p)
  | CopyString s => do (q, p) <- poolCopyString grant junk p s; Ok (Pointer q, p)
  | CopyStringN s n => do (q, p) <- poolCopyStringN grant junk p s n; Ok (Pointer q, p)
  | Append input text => do (q, p) <- poolAppend grant junk convert (fuel text) p input; Ok (Pointer q, p)
  | StoreString input text => do (q, p) <- poolStoreString grant junk convert (fuel text) p input; Ok (Pointer q, p)
  | ChopSpace => do p <- chop_space p; Ok (Nothing, p)
  | Discard => Ok (Nothing, poolDiscard p)
  | Finish => Ok (Pointer (p_start p), poolFinish p)
  | ClearPool => Ok (Nothing, poolClear p)
  end.

Fixpoint perform_all (os : list op) (p : STRING_POOL) : res (list answer * STRING_POOL) :=
  match os with
  | [] => Ok ([], p)
  | o :: os => do (a, p) <- perform o p; do (l, p) <- perform_all os p; Ok (a :: l, p)
  end.

(** The arguments are as the callers have them. *)
Definition legal (o : op) : Prop :=
  match o with
  | CopyStringN s n => n <= zlen s
  | Append input text | StoreString input text => means input text
  | _ => True
  end.

Abbreviation fail := (exists k, grant k = false).

Lemma refused_fail p p' : refused grant p p' -> fail.
Proof using Type. intros (k & _ & H). eauto. Qed.

(** The end of [poolCopyString] and [poolCopyStringN]. *)
Lemma finished_ok p cur kept s r : appended grant p cur kept s r -> (s <> [] \/ is_Some (p_ptr p)) ->
  exists q p', (do (r, p) <- r; Ok (finished r p)) = Ok (q, p') /\ match q with Some q => pool_ok p' [] ((q, cur ++ s) :: kept) | None => fail /\ exists part, part `prefix_of` s /\ pool_ok p' (cur ++ part) kept end.
Proof using Type.
  intros (ok & p1 & part & -> & Hok & Has & Hend) Hne. cbn [rbind]. destruct ok; cbn [finished].
  - destruct Hend as [-> Hs]. destruct (start_ptr grant p1 _ _ Hok (Hs Hne)) as [q Hq]. pose proof (poolFinish_ok grant p1 _ _ Hok) as Hf. rewrite Hq in Hf. exists (Some q), (poolFinish p1). by rewrite Hq.
  - destruct Hend as [Hpre Href]. exists None, p1. split; [done|]. split; [by eapply refused_fail|eauto].
Qed.

Lemma chopped_length cur : zlen (chopped cur) <= zlen cur.
Proof using Type. unfold chopped. destruct (last cur) as [c|]; [|done]. assert (zlen (take (pred (length cur)) cur) <= zlen cur) by (unfold zlen; rewrite length_take; lia). repeat case_match; done. Qed.

Lemma chopped_snoc cur c : chopped (cur ++ [c]) = if c =? 0x20 then cur else cur ++ [c].
Proof using Type.
  unfold chopped. rewrite last_snoc. destruct (Z.eqb_spec c 0x20) as [->|Hne]; [rewrite length_app, Nat.add_comm; cbn [length Nat.add pred]; apply take_app_length|]. repeat case_match; done.
Qed.

Lemma chop_space_ok p cur kept : pool_ok p cur kept -> exists p', chop_space p = Ok p' /\ pool_ok p' (chopped cur) kept.
Proof using Type.
  intros Hok. unfold chop_space, poolLength. assert (E : ptr_sub (p_ptr p) (p_start p) = Ok (zlen cur)) by (destruct Hok as [_ [[Hs Hp _ _ -> _]|(b & so & k & Ha)]]; [by rewrite Hs, Hp|by apply at_length in Ha as [_ ?]]). rewrite E. cbn [rbind].
  destruct cur as [|c cur _] using rev_ind; [by exists p|]. rewrite zlen_app. change (zlen [c]) with 1. pose proof (zlen_nonneg cur). replace (zlen cur + 1 =? 0) with false by lia. destruct (poolChop_ok grant p cur c kept Hok) as [El (p' & Ec & Hok' & _)]. rewrite El. cbn [rbind]. rewrite chopped_snoc. destruct (c =? 0x20); [by exists p'|by exists p].
Qed.

Lemma perform_ok o p cur kept : legal o -> pool_ok p cur kept -> zlen cur + zlen (default [] (adds o)) <= limit ->
  exists a p' cur' kept', perform o p = Ok (a, p') /\ permitted fail (cur, kept) o a (cur', kept') /\ pool_ok p' cur' kept' /\ zlen cur' <= zlen cur + zlen (default [] (adds o)).
Proof using All.
  assert (Hpre : forall part s, part `prefix_of` s -> zlen (cur ++ part) <= zlen cur + zlen s) by (intros part s Hp; apply prefix_length in Hp; rewrite zlen_app; unfold zlen; lia).
  assert (Hlen : forall s : list Z, zlen (@nil Z) <= zlen cur + zlen s) by (intros s; unfold zlen; cbn; lia). assert (Hfuel : forall text : list Z, 4 * zlen text + 4 < Z.of_nat (4 * length text + 5)) by (intros text; unfold zlen; lia).
  intros Hlegal Hok Hl. destruct o as [c|s|s|s n|input text|input text| | | |]; cbn [perform adds default from_option legal] in *; unfold id in *; cbv zeta.
  - change (zlen [c]) with 1 in *. destruct (poolAppendChar_ok grant junk p cur kept c Hok ltac:(lia)) as (ok & p' & E & _ & Hend). rewrite E. cbn [rbind]. destruct ok; destruct Hend as [Hok' Href].
    + eexists _, p', _, kept. split; [done|]. split; [constructor|]. split; [done|]. rewrite zlen_app. change (zlen [c]) with 1. lia.
    + eexists _, p', (cur ++ []), kept. split; [done|]. split; [by apply (p_failed _ cur kept (AppendChar c) [c]); [eapply refused_fail| |apply prefix_nil]|]. rewrite app_nil_r. split; [done|lia].
  - unfold poolAppendString. destruct (append_chars_ok grant junk s p cur kept Hok Hl) as (ok & p' & part & E & Hok' & _ & Hend). rewrite E. cbn [rbind]. destruct ok; destruct Hend as [Hpart Href]; [subst part|]; eexists _, p', _, kept; (split; [done|]); (split; [|split; [done|by apply Hpre]]); [constructor|].
    by apply (p_failed _ cur kept (AppendString s) s); [eapply refused_fail| |].
  - unfold poolCopyString. destruct (finished_ok _ _ _ _ _ (append_chars_ok grant junk (s ++ [0]) p cur kept Hok Hl)) as (q & p' & E & Hend); [left; by destruct s|]. rewrite E. cbn [rbind]. destruct q as [q|]; [|destruct Hend as (Hfail & part & Hp & Hok')]; eexists _, p', _, _; (split; [done|]).
    + split; [apply p_copy|]. split; [done|apply Hlen].
    + split; [by apply (p_failed _ cur kept (CopyString s) (s ++ [0]))|]. split; [done|by apply Hpre].
  - unfold poolCopyStringN. pose proof (zlen_nonneg (take (Z.to_nat n) s)). destruct (room_ptr grant p cur kept Hok) as (_ & _ & Hnone). destruct (grow_if_ok grant junk (p_ptr p = None) p cur kept Hok ltac:(lia)) as (ok & p1 & E & Hok1 & Has & Hend); [intros H'; rewrite Hnone by done; lia|intros H'; by apply not_eq_None_Some|]. rewrite E. cbn [rbind]. destruct ok; cbn [negb rbind].
    + destruct Hend as [Hs _]. replace (if 0 <? n then sub s 0 n else Ok []) with (@Ok (list Z) (take (Z.to_nat n) s)) by (destruct (Z.ltb_spec 0 n); [unfold sub; by replace ((0 <=? 0) && (0 <=? n) && (0 + n <=? zlen s)) with true by lia|by replace (Z.to_nat n) with 0%nat by lia]). cbn [rbind].
      destruct (finished_ok _ _ _ _ _ (append_chars_ok grant junk (take (Z.to_nat n) s) p1 cur kept Hok1 Hl)) as (q & p' & E' & Hend'); [by right|]. rewrite E'. cbn [rbind]. destruct q as [q|]; [|destruct Hend' as (Hfail & part & Hp & Hok')]; eexists _, p', _, _; (split; [done|]).
      * split; [apply p_copyN|]. split; [done|apply Hlen].
      * split; [by apply (p_failed _ cur kept (CopyStringN s n) (take (Z.to_nat n) s))|]. split; [done|by apply Hpre].
    + eexists _, p1, (cur ++ []), kept. split; [done|]. split; [by apply (p_failed _ cur kept (CopyStringN s n) (take (Z.to_nat n) s)); [eapply refused_fail| |apply prefix_nil]|]. rewrite app_nil_r. split; [done|lia].
  - destruct (poolAppend_ok grant junk convert means _ p cur kept input text Hok Hlegal Hl (Hfuel text)) as (q & p' & part & E & Hok' & _ & Hend). rewrite E. cbn [rbind]. destruct q as [q|]; [destruct Hend as (-> & _)|destruct Hend as [Hp Href]]; eexists _, p', _, kept; (split; [done|]); (split; [|split; [done|by apply Hpre]]); [constructor|].
    by apply (p_failed _ cur kept (Append input text) text); [eapply refused_fail| |].
  - destruct (poolStoreString_ok grant junk convert means _ p cur kept input text Hok Hlegal ltac:(rewrite zlen_app in Hl; change (zlen [0]) with 1 in Hl; lia) (Hfuel text)) as (q & p' & part & E & Hok' & _ & Hend). rewrite E. cbn [rbind]. destruct q as [q|]; [destruct Hend as (-> & _)|destruct Hend as [Hp Href]]; eexists _, p', _, kept; (split; [done|]); (split; [|split; [done|by apply Hpre]]); [constructor|].
    by apply (p_failed _ cur kept (StoreString input text) (text ++ [0])); [eapply refused_fail| |].
  - destruct (chop_space_ok p cur kept Hok) as (p' & E & Hok'). rewrite E. cbn [rbind]. eexists _, p', _, kept. split; [done|]. split; [constructor|]. split; [done|]. pose proof (chopped_length cur). change (zlen (@nil Z)) with 0. lia.
  - eexists _, _, _, kept. split; [done|]. split; [constructor|]. split; [by eapply poolDiscard_ok|apply Hlen].
  - pose proof (poolFinish_ok grant p cur kept Hok) as Hf. destruct (p_start p) as [q|] eqn:Hq; eexists _, _, _, _; (split; [done|]); [split; [constructor|]; split; [done|apply Hlen]|].
    destruct Hok as [_ [Hno|(b & so & k & Ha)]]; [|rewrite (at_start _ _ _ _ _ _ Ha) in Hq; done]. rewrite (no_cur _ _ _ Hno). split; [constructor|]. split; [done|]. done.
  - destruct (poolClear_ok grant p cur kept Hok) as [Hc _]. eexists _, _, _, _. split; [done|]. split; [constructor|]. split; [done|apply Hlen].
Qed.

Lemma perform_all_ok os : forall p cur kept, Forall legal os -> pool_ok p cur kept -> zlen cur + adding os <= limit ->
  exists l p' cur' kept', perform_all os p = Ok (l, p') /\ permits fail (cur, kept) os l (cur', kept') /\ pool_ok p' cur' kept'.
Proof using All.
  induction os as [|o os IH]; intros p cur kept Hlegal Hok Hl; cbn [perform_all adding foldr] in *; [exists [], p, cur, kept; split; [done|]; split; [constructor|done]|]. inversion Hlegal as [|? ? Ho Hos]; subst. fold (adding os) in Hl. pose proof (adding_nonneg os).
  destruct (perform_ok o p cur kept Ho Hok ltac:(lia)) as (a & p1 & cur1 & kept1 & E & Hp & Hok1 & Hlen). rewrite E. cbn [rbind]. destruct (IH p1 cur1 kept1 Hos Hok1 ltac:(lia)) as (l & p' & cur' & kept' & E' & Hps & Hok'). rewrite E'. cbn [rbind]. exists (a :: l), p', cur', kept'. split; [done|]. split; [by eapply permits_step|done].
Qed.

End Run.

Lemma poolInit_ok grant : pool_ok grant poolInit [] [].
Proof. split; [split; cbn; [done|by intros b ?%not_elem_of_nil|constructor|by intros _ b [k Hk]]|left; by split]. Qed.

Lemma holds_copy p q s : holds (memory p) q s -> copy_from p (Some q) (zlen s) = Ok s.
Proof. destruct q as [b o]. intros (k & Hk & Hb). cbn in *. unfold block_at. rewrite Hk. cbn [of_option rbind]. by apply has_bytes_sub. Qed.

(** C11: a string pool of Expat under any operations, with any answers of the allocator:
    no operation leaves a block, the current string is what was appended, and every
    finished string is found unchanged at the place that was returned for it, until the
    pool is cleared. An operation fails only if a request was refused, and then it has
    appended a part of its characters and nothing else. Destroying the pool frees no
    block twice, and every block if no request was refused. *)
Theorem pool_strings (grant : nat -> bool) (junk : Z) (convert : list Z -> Z -> nat * list Z) (means : list Z -> list Z -> Prop) (HC : Converter convert means) (os : list op) :
  Forall (legal means) os -> adding os <= limit ->
  exists l p cur kept, perform_all grant junk convert os poolInit = Ok (l, p) /\ permits (exists k, grant k = false) ([], []) os l (cur, kept)
    /\ Forall (fun x => x.2 = [] \/ copy_from p (Some x.1) (zlen x.2) = Ok x.2) kept /\ (cur = [] \/ copy_from p (p_start p) (zlen cur) = Ok cur)
    /\ exists m, poolDestroy p = Ok m /\ ((forall k, grant k = true) -> m = ∅).
Proof.
  intros Hlegal Hl. destruct (perform_all_ok grant junk convert means os poolInit [] [] Hlegal (poolInit_ok grant)) as (l & p & cur & kept & E & Hp & Hok); [change (zlen (@nil Z)) with 0; lia|]. exists l, p, cur, kept. split; [done|]. split; [done|].
  destruct (poolDestroy_ok grant p cur kept Hok) as (m & Em & Hm). split; [|split; [|exists m; split; [done|]; intros Hg; by apply Hm]]; destruct Hok as [_ [[_ _ _ _ -> ->]|(b & so & k & Ha)]]; [constructor| |by left|].
  - eapply Forall_impl; [apply Ha|]. intros [q s] [H|(H & _)]; [by left|right; by apply holds_copy].
  - right. rewrite (at_start _ _ _ _ _ _ Ha). apply holds_copy. exists k. split; apply Ha.
Qed.

Lemma pool_strings_witness :
  let os := [CopyString [97; 98]; StoreString [195; 169] [195; 169]; Finish; CopyStringN [97; 98; 99] 2; AppendChar 32; ChopSpace] in let grant k := bool_decide (k <> 1%nat) in
  exists l p cur kept, perform_all grant 7 convert8 os poolInit = Ok (l, p) /\ permits (exists k, grant k = false) ([], []) os l (cur, kept)
    /\ Forall (fun x => x.2 = [] \/ copy_from p (Some x.1) (zlen x.2) = Ok x.2) kept /\ (cur = [] \/ copy_from p (p_start p) (zlen cur) = Ok cur)
    /\ exists m, poolDestroy p = Ok m /\ ((forall k, grant k = true) -> m = ∅).
Proof.
  intros os grant. apply (pool_strings grant 7 convert8 means8 converter8 os); [|vm_compute; congruence].
  constructor; [exact I|]. constructor; [|do 4 (constructor; [vm_compute; try congruence; exact I|]); constructor].
  split; [reflexivity|]. split; [repeat constructor; unfold is_byte; lia|intros i Hi; cbn in Hi; lia].
Defined.

(** ** Two places where the code does less than it means to *)

(** [realloc_fcn] that fails leaves the block allocated, but the pool has forgotten it
    and every block before it: destroying the pool frees none of them. *)
Theorem realloc_refused_leaks grant junk p b rest n :
  ptr_sub (p_end p) (p_start p) = Ok n -> granted grant p (s32 (n * 2)) = false -> freeBlocks p = [] ->
  exists p', grow_realloc grant junk p b rest = Ok (false, p') /\ memory p' = memory p /\ poolDestroy p' = Ok (memory p).
Proof. intros Hn Hg Hf. unfold grow_realloc. rewrite Hn. cbn [rbind]. cbv zeta. rewrite Hg. cbn [negb]. eexists. split; [done|]. split; [done|]. unfold poolDestroy. cbn. by rewrite Hf. Qed.

Example thousand_characters :
  match append_chars (fun k => bool_decide (k = 0%nat)) 0 poolInit (repeat 97 1025) with
  | Ok (ok, p) => (ok, match poolDestroy p with Ok m => size m | Err _ => O end)
  | Err _ => (true, O)
  end = (false, 1%nat).
Proof. vm_compute. reflexivity. Qed.

(** [utf8_toUtf8] with too little room splits a character: it stops after a lead byte. *)
Theorem utf8_split b0 b1 : 0xC0 <= b0 < 0xE0 -> 0x80 <= b1 < 0xC0 -> convert8 [b0; b1] 1 = (1%nat, [b0]).
Proof.
  intros H0 H1. destruct (convert8_ok [b0; b1] 1) as (k & E & Hk & Hk1 & Hall); [repeat constructor; unfold is_byte; lia|lia|]. rewrite E. destruct k as [|[|k]]; [|done|lia]. exfalso. destruct Hall as [Hall|[_ Hall]]; [done|]. specialize (Hall 0%nat b0 ltac:(cbn; lia) eq_refl). unfold continuation in Hall.
  apply Z.eqb_eq in Hall. assert (Hb : Z.testbit (Z.land b0 0xc0) 6 = Z.testbit 0x80 6) by (by rewrite Hall). rewrite Z.land_spec in Hb. change (Z.testbit 0xc0 6) with true in Hb. change (Z.testbit 0x80 6) with false in Hb. rewrite andb_true_r, Z.testbit_odd, Z.shiftr_div_pow2 in Hb by lia. assert (Hd : b0 / 2 ^ 6 = 3) by (Z.div_mod_to_equations; lia). by rewrite Hd in Hb.
Qed.
