(* ===== verification/ExpatModel.v ===== *)
(** * Content models of element declarations: [src/apr-util/xml/expat/lib/xmlparse.c]

    [doProlog] reacts to the roles of an element declaration by building a scaffold, an
    array of linked nodes, from which [build_model] makes the tree for the application in
    one block of memory: the cells, and behind them the names. A pointer to a cell is its
    index, one to a name its offset behind the cells. *)

From S2P Require Import Prelude ExpatRole.

(** ** Data *)

Inductive XML_Content_Type := XML_CTYPE_EMPTY | XML_CTYPE_ANY | XML_CTYPE_MIXED | XML_CTYPE_NAME | XML_CTYPE_CHOICE | XML_CTYPE_SEQ.
Inductive XML_Content_Quant := XML_CQUANT_NONE | XML_CQUANT_OPT | XML_CQUANT_REP | XML_CQUANT_PLUS.

#[global] Instance XML_Content_Type_eq_dec : EqDecision XML_Content_Type.
Proof. solve_decision. Defined.

(** [name] is a string of the pool, without its terminator. *)
Record CONTENT_SCAFFOLD := {
  sc_type : XML_Content_Type; sc_quant : XML_Content_Quant; sc_name : list Z;
  sc_firstchild : Z; sc_lastchild : Z; sc_childcnt : Z; sc_nextsib : Z }.

Record XML_Content := {
  c_type : XML_Content_Type; c_quant : XML_Content_Quant; c_name : option Z; c_numchildren : Z; c_children : option Z }.

(** The fields of the parser and of its DTD that have to do with content models;
    [asked] counts the requests to the allocator. *)
Record decl := {
  groupConnector : option (list Z); groupSize : Z;
  scaffIndex : option (list Z); scaffold : option (list CONTENT_SCAFFOLD);
  scaffSize : Z; scaffCount : Z; scaffLevel : Z; contentStringLen : Z; in_eldecl : bool; asked : nat }.

Definition INIT_SCAFFOLD_ELEMENTS : Z := 32.

(** The block that [build_model] allocates. *)
Record built := { m_cells : list XML_Content; m_strings : list Z }.

Inductive outcome := Continue | NoMemory | SyntaxError | Declared (m : built).

(** [grant k] tells whether request [k] is granted; new memory has arbitrary contents. *)
Section Model.
  Context (grant : nat -> bool) (junk_node : CONTENT_SCAFFOLD) (junk_cell : XML_Content) (junk : Z) (elementDeclHandler : bool).

(** ** Assignments *)

Definition set_groups (d : decl) (c : option (list Z)) (n : Z) (i : option (list Z)) (k : nat) : decl :=
  {| groupConnector := c; groupSize := n; scaffIndex := i; scaffold := scaffold d; scaffSize := scaffSize d; scaffCount := scaffCount d; scaffLevel := scaffLevel d; contentStringLen := contentStringLen d; in_eldecl := in_eldecl d; asked := k |}.

Definition set_scaffold (d : decl) (s : option (list CONTENT_SCAFFOLD)) (size count : Z) (k : nat) : decl :=
  {| groupConnector := groupConnector d; groupSize := groupSize d; scaffIndex := scaffIndex d; scaffold := s; scaffSize := size; scaffCount := count; scaffLevel := scaffLevel d; contentStringLen := contentStringLen d; in_eldecl := in_eldecl d; asked := k |}.

Definition set_decl (d : decl) (level len : Z) (b : bool) (k : nat) : decl :=
  {| groupConnector := groupConnector d; groupSize := groupSize d; scaffIndex := scaffIndex d; scaffold := scaffold d; scaffSize := scaffSize d; scaffCount := scaffCount d; scaffLevel := level; contentStringLen := len; in_eldecl := b; asked := k |}.

(** [a[i]] and an assignment to it, through a pointer that may be NULL. *)
Definition get_at {A} (a : option (list A)) (i : Z) : res A :=
  match a with Some l => if 0 <=? i then of_option OutOfBounds (l !! Z.to_nat i) else Err OutOfBounds | None => Err OutOfBounds end.

Definition put_at {A} (a : option (list A)) (i : Z) (x : A) : res (option (list A)) :=
  match a with Some l => do l <- store l i x; Ok (Some l) | None => Err OutOfBounds end.

(** [realloc] to [n] elements. *)
Definition resize {A} (l : list A) (n : Z) (x : A) : list A := take (Z.to_nat n) (l ++ repeat x (Z.to_nat n)).

Definition with_type (s : CONTENT_SCAFFOLD) (t : XML_Content_Type) : CONTENT_SCAFFOLD :=
  {| sc_type := t; sc_quant := sc_quant s; sc_name := sc_name s; sc_firstchild := sc_firstchild s; sc_lastchild := sc_lastchild s; sc_childcnt := sc_childcnt s; sc_nextsib := sc_nextsib s |}.
Definition with_quant (s : CONTENT_SCAFFOLD) (q : XML_Content_Quant) : CONTENT_SCAFFOLD :=
  {| sc_type := sc_type s; sc_quant := q; sc_name := sc_name s; sc_firstchild := sc_firstchild s; sc_lastchild := sc_lastchild s; sc_childcnt := sc_childcnt s; sc_nextsib := sc_nextsib s |}.
Definition with_name (s : CONTENT_SCAFFOLD) (n : list Z) : CONTENT_SCAFFOLD :=
  {| sc_type := sc_type s; sc_quant := sc_quant s; sc_name := n; sc_firstchild := sc_firstchild s; sc_lastchild := sc_lastchild s; sc_childcnt := sc_childcnt s; sc_nextsib := sc_nextsib s |}.
Definition with_nextsib (s : CONTENT_SCAFFOLD) (n : Z) : CONTENT_SCAFFOLD :=
  {| sc_type := sc_type s; sc_quant := sc_quant s; sc_name := sc_name s; sc_firstchild := sc_firstchild s; sc_lastchild := sc_lastchild s; sc_childcnt := sc_childcnt s; sc_nextsib := n |}.
Definition with_children (s : CONTENT_SCAFFOLD) (first last n : Z) : CONTENT_SCAFFOLD :=
  {| sc_type := sc_type s; sc_quant := sc_quant s; sc_name := sc_name s; sc_firstchild := first; sc_lastchild := last; sc_childcnt := n; sc_nextsib := sc_nextsib s |}.

(** ** [nextScaffoldPart] *)

(** The array of open groups, at the first node. *)
Definition need_index (d : decl) : res (bool * decl) :=
  match scaffIndex d with
  | Some _ => Ok (true, d)
  | None =>
      if negb (grant (asked d)) then Ok (false, set_groups d (groupConnector d) (groupSize d) None (S (asked d))) else
      do i <- put_at (Some (repeat junk (Z.to_nat (groupSize d)))) 0 0;
      Ok (true, set_groups d (groupConnector d) (groupSize d) i (S (asked d)))
  end.

(** Room for one more node. *)
Definition need_node (d : decl) : bool * decl :=
  if scaffCount d <? scaffSize d then (true, d) else
  match scaffold d with
  | Some s =>
      if negb (grant (asked d)) then (false, set_scaffold d (scaffold d) (scaffSize d) (scaffCount d) (S (asked d))) else
      let n := u32 (scaffSize d * 2) in
      (true, set_scaffold d (Some (resize s n junk_node)) n (scaffCount d) (S (asked d)))
  | None =>
      if negb (grant (asked d)) then (false, set_scaffold d None (scaffSize d) (scaffCount d) (S (asked d))) else
      (true, set_scaffold d (Some (repeat junk_node (Z.to_nat INIT_SCAFFOLD_ELEMENTS))) INIT_SCAFFOLD_ELEMENTS (scaffCount d) (S (asked d)))
  end.

(** The node [next] becomes the last child of the open group. *)
Definition link (d : decl) (next : Z) : res decl :=
  do p <- get_at (scaffIndex d) (scaffLevel d - 1);
  do parent <- get_at (scaffold d) p;
  do s <- (if sc_lastchild parent =? 0 then Ok (scaffold d) else
           do l <- get_at (scaffold d) (sc_lastchild parent);
           put_at (scaffold d) (sc_lastchild parent) (with_nextsib l next));
  do parent <- get_at s p;
  let first := if sc_childcnt parent =? 0 then next else sc_firstchild parent in
  do s <- put_at s p (with_children parent first next (sc_childcnt parent + 1));
  Ok (set_scaffold d s (scaffSize d) (scaffCount d) (asked d)).

(** The index of the node, or none where the code returns -1. *)
Definition nextScaffoldPart (d : decl) : res (option Z * decl) :=
  do (ok, d) <- need_index d;
  if negb ok then Ok (None, d) else
  let (ok, d) := need_node d in
  if negb ok then Ok (None, d) else
  let next := scaffCount d in
  let d := set_scaffold d (scaffold d) (scaffSize d) (u32 (scaffCount d + 1)) (asked d) in
  do d <- (if scaffLevel d =? 0 then Ok d else link d next);
  do me <- get_at (scaffold d) next;
  do s <- put_at (scaffold d) next (with_nextsib (with_children me 0 0 0) 0);
  Ok (Some next, set_scaffold d s (scaffSize d) (scaffCount d) (asked d)).

(** ** [build_model] *)

Definition out : Type := Z * Z * list XML_Content * list Z.

(** The name and its terminator, at [strpos]. *)
Fixpoint copy_name (name : list Z) (strpos : Z) (strs : list Z) : res (Z * list Z) :=
  match name with
  | [] => do strs <- store strs strpos 0; Ok (strpos + 1, strs)
  | c :: name => do strs <- store strs strpos c; copy_name name (strpos + 1) strs
  end.

(** The children from [cn] on, [n] of them, into the cells from [dest] on. *)
Fixpoint build_children (node : Z -> Z -> out -> res out) (s : list CONTENT_SCAFFOLD) (n : nat) (cn dest : Z) (o : out) : res out :=
  match n with
  | O => Ok o
  | S n =>
      do o <- node cn dest o;
      do c <- get_at (Some s) cn;
      build_children node s n (sc_nextsib c) (dest + 1) o
  end.

Fixpoint build_node (fuel : nat) (s : list CONTENT_SCAFFOLD) (src dest : Z) (o : out) : res out :=
  match fuel with
  | O => Err OutOfFuel
  | S fuel =>
      let '(contpos, strpos, cells, strs) := o in
      do n <- get_at (Some s) src;
      do old <- get_at (Some cells) dest;
      if bool_decide (sc_type n = XML_CTYPE_NAME) then
        do (strpos', strs) <- copy_name (sc_name n) strpos strs;
        do cells <- store cells dest {| c_type := sc_type n; c_quant := sc_quant n; c_name := Some strpos; c_numchildren := 0; c_children := None |};
        Ok (contpos, strpos', cells, strs)
      else
        let num := u32 (sc_childcnt n) in
        do cells <- store cells dest {| c_type := sc_type n; c_quant := sc_quant n; c_name := c_name old; c_numchildren := num; c_children := Some contpos |};
        do (contpos', strpos, cells, strs) <- build_children (build_node fuel s) s (Z.to_nat num) (sc_firstchild n) contpos (contpos + num, strpos, cells, strs);
        do this <- get_at (Some cells) dest;
        do cells <- store cells dest {| c_type := c_type this; c_quant := c_quant this; c_name := None; c_numchildren := c_numchildren this; c_children := c_children this |};
        Ok (contpos', strpos, cells, strs)
  end.

(** [sizeof(XML_Content)] with pointers of eight bytes. *)
Definition sizeof_cell : Z := 32.

(** The size of the block is an int: it has the cells and names that its bytes have room for. *)
Definition build_model (d : decl) : res (option built * decl) :=
  let allocsize := s32 (scaffCount d * sizeof_cell + contentStringLen d) in
  let d := set_decl d (scaffLevel d) (contentStringLen d) (in_eldecl d) (S (asked d)) in
  if negb (grant (pred (asked d))) || (allocsize <? 0) then Ok (None, d) else
  let cells := repeat junk_cell (Z.to_nat (Z.min (scaffCount d) (allocsize / sizeof_cell))) in
  let strs := repeat junk (Z.to_nat (allocsize - scaffCount d * sizeof_cell)) in
  do s <- of_option OutOfBounds (scaffold d);
  do (_, _, cells, strs) <- build_node (S (Z.to_nat (scaffCount d))) s 0 0 (1, 0, cells, strs);
  Ok (Some {| m_cells := cells; m_strings := strs |}, d).

(** ** The roles in [doProlog] *)

(** The arrays that are indexed by the level of a group. *)
Definition need_level (d : decl) (level : Z) : bool * decl :=
  if level <? groupSize d then (true, d) else
  if groupSize d =? 0 then
    if grant (asked d) then (true, set_groups d (Some (repeat junk 32)) 32 (scaffIndex d) (S (asked d)))
    else (false, set_groups d None 32 (scaffIndex d) (S (asked d)))
  else
    let n := u32 (groupSize d * 2) in
    if negb (grant (asked d)) then (false, set_groups d (groupConnector d) n (scaffIndex d) (S (asked d))) else
    let d := set_groups d (option_map (fun c => resize c n junk) (groupConnector d)) n (scaffIndex d) (S (asked d)) in
    match scaffIndex d with
    | None => (true, d)
    | Some i =>
        if negb (grant (asked d)) then (false, set_groups d (groupConnector d) n (scaffIndex d) (S (asked d)))
        else (true, set_groups d (groupConnector d) n (Some (resize i n junk)) (S (asked d)))
    end.

Definition group_open (level : Z) (d : decl) : res (outcome * decl) :=
  let (ok, d) := need_level d level in
  if negb ok then Ok (NoMemory, d) else
  do c <- put_at (groupConnector d) level 0;
  let d := set_groups d c (groupSize d) (scaffIndex d) (asked d) in
  if negb (in_eldecl d) then Ok (Continue, d) else
  do (my, d) <- nextScaffoldPart d;
  match my with
  | None => Ok (NoMemory, d)
  | Some myindex =>
      do i <- put_at (scaffIndex d) (scaffLevel d) myindex;
      let d := set_groups d (groupConnector d) (groupSize d) i (asked d) in
      let d := set_decl d (scaffLevel d + 1) (contentStringLen d) (in_eldecl d) (asked d) in
      do n <- get_at (scaffold d) myindex;
      do s <- put_at (scaffold d) myindex (with_type n XML_CTYPE_SEQ);
      Ok (Continue, set_scaffold d s (scaffSize d) (scaffCount d) (asked d))
  end.

Definition group_sequence (level : Z) (d : decl) : res (outcome * decl) :=
  do c <- get_at (groupConnector d) level;
  if c =? 0x7C then Ok (SyntaxError, d) else
  do c <- put_at (groupConnector d) level (0x2C);
  Ok (Continue, set_groups d c (groupSize d) (scaffIndex d) (asked d)).

(** [dtd->scaffold[dtd->scaffIndex[level]]] is changed by [f]. *)
Definition change_open (d : decl) (level : Z) (f : CONTENT_SCAFFOLD -> CONTENT_SCAFFOLD) : res decl :=
  do i <- get_at (scaffIndex d) level;
  do n <- get_at (scaffold d) i;
  do s <- put_at (scaffold d) i (f n);
  Ok (set_scaffold d s (scaffSize d) (scaffCount d) (asked d)).

Definition group_choice (level : Z) (d : decl) : res (outcome * decl) :=
  do c <- get_at (groupConnector d) level;
  if c =? 0x2C then Ok (SyntaxError, d) else
  do d <- (if in_eldecl d && (c =? 0)
           then change_open d (scaffLevel d - 1) (fun n => if bool_decide (sc_type n = XML_CTYPE_MIXED) then n else with_type n XML_CTYPE_CHOICE)
           else Ok d);
  do c <- put_at (groupConnector d) level (0x7C);
  Ok (Continue, set_groups d c (groupSize d) (scaffIndex d) (asked d)).

(** [name] is what [getElementType] returns, or none if it fails. *)
Definition element_name (name : option (list Z)) (d : decl) : outcome * decl :=
  if negb elementDeclHandler then (Continue, d) else
  match name with
  | None => (NoMemory, d)
  | Some _ => (Continue, set_scaffold (set_decl d 0 (contentStringLen d) true (asked d)) (scaffold d) (scaffSize d) 0 (asked d))
  end.

Definition content_simple (t : XML_Content_Type) (d : decl) : outcome * decl :=
  if negb (in_eldecl d) then (Continue, d) else
  let d' := set_decl d (scaffLevel d) (contentStringLen d) false (asked d) in
  if negb elementDeclHandler then (Continue, d') else
  if negb (grant (asked d)) then (NoMemory, set_decl d (scaffLevel d) (contentStringLen d) (in_eldecl d) (S (asked d))) else
  (Declared {| m_cells := [{| c_type := t; c_quant := XML_CQUANT_NONE; c_name := None; c_numchildren := 0; c_children := None |}]; m_strings := [] |},
   set_decl d (scaffLevel d) (contentStringLen d) false (S (asked d))).

Definition content_pcdata (d : decl) : res (outcome * decl) :=
  if negb (in_eldecl d) then Ok (Continue, d) else
  do d <- change_open d (scaffLevel d - 1) (fun n => with_type n XML_CTYPE_MIXED);
  Ok (Continue, d).

Definition content_element (quant : XML_Content_Quant) (name : option (list Z)) (d : decl) : res (outcome * decl) :=
  if negb (in_eldecl d) then Ok (Continue, d) else
  do (my, d) <- nextScaffoldPart d;
  match my with
  | None => Ok (NoMemory, d)
  | Some myindex =>
      do n <- get_at (scaffold d) myindex;
      do s <- put_at (scaffold d) myindex (with_quant (with_type n XML_CTYPE_NAME) quant);
      let d := set_scaffold d s (scaffSize d) (scaffCount d) (asked d) in
      match name with
      | None => Ok (NoMemory, d)
      | Some name =>
          do n <- get_at (scaffold d) myindex;
          do s <- put_at (scaffold d) myindex (with_name n name);
          let d := set_scaffold d s (scaffSize d) (scaffCount d) (asked d) in
          let nameLen := zlen name + 1 in
          Ok (Continue, set_decl d (scaffLevel d) (u32 (contentStringLen d + nameLen)) (in_eldecl d) (asked d))
      end
  end.

Definition group_close (quant : XML_Content_Quant) (d : decl) : res (outcome * decl) :=
  if negb (in_eldecl d) then Ok (Continue, d) else
  let d := set_decl d (scaffLevel d - 1) (contentStringLen d) (in_eldecl d) (asked d) in
  do d <- change_open d (scaffLevel d) (fun n => with_quant n quant);
  if negb (scaffLevel d =? 0) then Ok (Continue, d) else
  if elementDeclHandler then
    do (m, d) <- build_model d;
    match m with
    | None => Ok (NoMemory, d)
    | Some m => Ok (Declared m, set_decl d (scaffLevel d) 0 false (asked d))
    end
  else Ok (Continue, set_decl d (scaffLevel d) 0 false (asked d)).

(** The roles of an element declaration; the others have nothing to do with content models. *)
Definition role_action (role : XML_ROLE) (level : Z) (name : option (list Z)) (d : decl) : res (outcome * decl) :=
  match role with
  | XML_ROLE_GROUP_OPEN => group_open level d
  | XML_ROLE_GROUP_SEQUENCE => group_sequence level d
  | XML_ROLE_GROUP_CHOICE => group_choice level d
  | XML_ROLE_ELEMENT_NAME => Ok (element_name name d)
  | XML_ROLE_CONTENT_ANY => Ok (content_simple XML_CTYPE_ANY d)
  | XML_ROLE_CONTENT_EMPTY => Ok (content_simple XML_CTYPE_EMPTY d)
  | XML_ROLE_CONTENT_PCDATA => content_pcdata d
  | XML_ROLE_CONTENT_ELEMENT => content_element XML_CQUANT_NONE name d
  | XML_ROLE_CONTENT_ELEMENT_OPT => content_element XML_CQUANT_OPT name d
  | XML_ROLE_CONTENT_ELEMENT_REP => content_element XML_CQUANT_REP name d
  | XML_ROLE_CONTENT_ELEMENT_PLUS => content_element XML_CQUANT_PLUS name d
  | XML_ROLE_GROUP_CLOSE => group_close XML_CQUANT_NONE d
  | XML_ROLE_GROUP_CLOSE_OPT => group_close XML_CQUANT_OPT d
  | XML_ROLE_GROUP_CLOSE_REP => group_close XML_CQUANT_REP d
  | XML_ROLE_GROUP_CLOSE_PLUS => group_close XML_CQUANT_PLUS d
  | XML_ROLE_ERROR => Ok (SyntaxError, d)
  | _ => Ok (Continue, d)
  end.

(** A token with its text and the name that it stands for. *)
Record token := { t_tok : XML_TOK; t_text : list Z; t_name : option (list Z) }.

(** The tokens of a declaration, through the prolog machine, up to an error or the model. *)
Fixpoint declare (enc : encoding) (ts : list token) (ps : PROLOG_STATE) (d : decl) : res (outcome * PROLOG_STATE * decl) :=
  match ts with
  | [] => Ok (Continue, ps, d)
  | t :: ts =>
      let (role, ps) := XmlTokenRole enc ps (t_tok t) (t_text t) in
      do (o, d) <- role_action role (level ps) (t_name t) d;
      match o with Continue => declare enc ts ps d | _ => Ok (o, ps, d) end
  end.

End Model.
