(* ===== verification/ExpatModelTree.v ===== *)
(** * Scaffolds that stand for trees

    Nodes in preorder: a node, then its children one after the other, each linked to the
    next. What [nextScaffoldPart] does with such nodes. *)

From S2P Require Import Prelude ExpatRole ExpatModel.

(** ** Trees *)

Inductive tree := Tree (ty : XML_Content_Type) (q : XML_Content_Quant) (nm : option (list Z)) (ch : list tree).

Section tree_rect.
  Context (P : tree -> Prop) (H : forall ty q nm ch, Forall P ch -> P (Tree ty q nm ch)).

Fixpoint tree_induction (t : tree) : P t :=
  match t with
  | Tree ty q nm ch => H ty q nm ch ((fix all (l : list tree) : Forall P l := match l with [] => Forall_nil_2 P | t :: l => Forall_cons_2 P t l (tree_induction t) (all l) end) ch)
  end.
End tree_rect.

(** Nodes, and characters of names with their terminators. *)
Fixpoint tsize (t : tree) : nat := match t with Tree _ _ _ ch => S (sum_list_with tsize ch) end.
Fixpoint tstr (t : tree) : nat := match t with Tree _ _ nm ch => (match nm with Some n => S (length n) | None => 0 end) + sum_list_with tstr ch end.

Abbreviation fsize := (sum_list_with tsize).

Lemma tsize_pos t : (0 < tsize t)%nat.
Proof. destruct t. cbn. lia. Qed.

Lemma fsize_app l1 l2 : fsize (l1 ++ l2) = (fsize l1 + fsize l2)%nat.
Proof. apply sum_list_with_app. Qed.

(** The last of the trees from [c] on. *)
Fixpoint last_index (ch : list tree) (c : nat) : nat :=
  match ch with [] => O | [_] => c | t :: ch => last_index ch (c + tsize t) end.

Lemma last_index_snoc ch t : forall c, last_index (ch ++ [t]) c = (c + fsize ch)%nat.
Proof. induction ch as [|a ch IH]; intros c; [cbn; lia|]. assert (E : last_index ((a :: ch) ++ [t]) c = last_index (ch ++ [t]) (c + tsize a)) by (by destruct ch). rewrite E, IH. cbn. lia. Qed.

(** ** Nodes that stand for a tree *)

Definition links (r : CONTENT_SCAFFOLD) (ch : list tree) (c : nat) : Prop :=
  sc_childcnt r = zlen ch /\ sc_firstchild r = match ch with [] => 0 | _ => Z.of_nat (S c) end /\ sc_lastchild r = Z.of_nat (last_index ch (S c)).

Definition named (r : CONTENT_SCAFFOLD) (nm : option (list Z)) : Prop :=
  match nm with Some n => sc_type r = XML_CTYPE_NAME /\ sc_name r = n | None => sc_type r <> XML_CTYPE_NAME end.

Section Rep.
  Context (f : nat -> option CONTENT_SCAFFOLD).

Fixpoint rep (t : tree) (c sib : nat) : Prop :=
  match t with
  | Tree ty q nm ch =>
      exists r, f c = Some r /\ sc_type r = ty /\ sc_quant r = q /\ sc_nextsib r = Z.of_nat sib /\ named r nm /\ links r ch c
        /\ (fix reps (ch : list tree) (c sib : nat) : Prop := match ch with [] => True | t :: ch => rep t c (match ch with [] => sib | _ => (c + tsize t)%nat end) /\ reps ch (c + tsize t)%nat sib end) ch (S c) O
  end.

Fixpoint reps (ch : list tree) (c sib : nat) : Prop :=
  match ch with [] => True | t :: ch => rep t c (match ch with [] => sib | _ => (c + tsize t)%nat end) /\ reps ch (c + tsize t)%nat sib end.

Lemma rep_unfold ty q nm ch c sib : rep (Tree ty q nm ch) c sib <-> exists r, f c = Some r /\ sc_type r = ty /\ sc_quant r = q /\ sc_nextsib r = Z.of_nat sib /\ named r nm /\ links r ch c /\ reps ch (S c) 0.
Proof. reflexivity. Qed.

End Rep.

(** Only the nodes of the tree matter. *)
Lemma rep_agree t : forall (f g : nat -> option CONTENT_SCAFFOLD) c sib, (forall i, (c <= i < c + tsize t)%nat -> g i = f i) -> rep f t c sib -> rep g t c sib.
Proof.
  induction t as [ty q nm ch IH] using tree_induction. intros f g c sib Hag. rewrite !rep_unfold. intros (r & Hr & H1 & H2 & H3 & H4 & H5 & Hch). exists r. split; [rewrite Hag by (cbn; lia); done|]. do 5 (split; [done|]).
  assert (Hag' : forall i, (S c <= i < S c + fsize ch)%nat -> g i = f i) by (intros i Hi; apply Hag; cbn; lia). clear Hag. clear H5 Hr. generalize dependent (S c). generalize 0%nat. induction IH as [|t ch Ht _ IHch]; intros s c' Hch Hag; [done|]. cbn [reps sum_list_with] in *. destruct Hch as [H Hch]. split.
  - apply (Ht f g); [|done]. intros i Hi. apply Hag. lia.
  - apply IHch; [done|]. intros i Hi. apply Hag. lia.
Qed.

Lemma reps_agree ch (f g : nat -> option CONTENT_SCAFFOLD) : forall c sib, (forall i, (c <= i < c + fsize ch)%nat -> g i = f i) -> reps f ch c sib -> reps g ch c sib.
Proof.
  induction ch as [|t ch IH]; intros c sib Hag; [done|]. cbn [reps sum_list_with] in *. intros [H Hch]. split; [apply (rep_agree t f g); [|done]|apply IH; [|done]]; intros i Hi; apply Hag; lia.
Qed.

Lemma reps_snoc f ch t : forall c sib, reps f (ch ++ [t]) c sib <-> reps f ch c (c + fsize ch) /\ rep f t (c + fsize ch) sib.
Proof.
  induction ch as [|a ch IH]; intros c sib; [cbn; rewrite Nat.add_0_r; tauto|]. cbn [app reps sum_list_with]. rewrite IH. replace (c + tsize a + fsize ch)%nat with (c + (tsize a + fsize ch))%nat by lia.
  assert (E : match ch ++ [t] with [] => sib | _ => (c + tsize a)%nat end = match ch with [] => (c + (tsize a + fsize ch))%nat | _ => (c + tsize a)%nat end) by (destruct ch; cbn; [lia|done]). rewrite E. tauto.
Qed.

(** Another next sibling for the last tree. *)
Lemma rep_resib t (f g : nat -> option CONTENT_SCAFFOLD) c sib sib' r : rep f t c sib -> f c = Some r -> g c = Some (with_nextsib r (Z.of_nat sib')) -> (forall i, (c < i < c + tsize t)%nat -> g i = f i) -> rep g t c sib'.
Proof.
  destruct t as [ty q nm ch]. rewrite !rep_unfold. intros (r' & Hr & H1 & H2 & H3 & H4 & H5 & Hch) Hr' Hg Hag. assert (r' = r) as -> by congruence. eexists. split; [exact Hg|]. do 5 (split; [done|]). eapply reps_agree; [|exact Hch]. intros i Hi. apply Hag. cbn. lia.
Qed.

Lemma reps_resib ch (f g : nat -> option CONTENT_SCAFFOLD) c sib sib' r : ch <> [] -> reps f ch c sib -> f (last_index ch c) = Some r -> g (last_index ch c) = Some (with_nextsib r (Z.of_nat sib')) ->
  (forall i, (c <= i < c + fsize ch)%nat -> i <> last_index ch c -> g i = f i) -> reps g ch c sib'.
Proof.
  intros Hne Hch Hr Hg Hag. destruct ch as [|t ch _] using rev_ind; [done|]. rewrite last_index_snoc in *. rewrite fsize_app in Hag. cbn [sum_list_with] in Hag. apply reps_snoc in Hch as [Hch Ht]. apply reps_snoc. split.
  - eapply reps_agree; [|exact Hch]. intros i Hi. apply Hag; lia.
  - eapply rep_resib; [exact Ht|done|done|]. intros i Hi. apply Hag; lia.
Qed.

Lemma last_index_range ch c : ch <> [] -> (c <= last_index ch c < c + fsize ch)%nat.
Proof. intros Hne. destruct ch as [|t ch _] using rev_ind; [done|]. rewrite last_index_snoc, fsize_app. cbn. pose proof (tsize_pos t). lia. Qed.

Lemma reps_last f ch c sib : ch <> [] -> reps f ch c sib -> is_Some (f (last_index ch c)).
Proof. intros Hne H. destruct ch as [|t ch _] using rev_ind; [done|]. apply reps_snoc in H as [_ H]. rewrite last_index_snoc. destruct t. apply rep_unfold in H as (r & Hr & _). eauto. Qed.
