(* ===== verification/ExpatModelStep.v ===== *)
(** * Content models: the steps

    What the reactions to single roles do with the arrays and with the nodes of the
    groups that are open. *)

From S2P Require Import Prelude ExpatRole ExpatModel ExpatModelTree.

(** ** Elements of the arrays *)

Definition node_at (d : decl) (i : nat) : option CONTENT_SCAFFOLD := scaffold d ≫= (.!! i).
Definition index_at (d : decl) (i : nat) : option Z := scaffIndex d ≫= (.!! i).
Definition connector_at (d : decl) (i : nat) : option Z := groupConnector d ≫= (.!! i).

Lemma get_at_ok {A} (a : option (list A)) (i : nat) x : a ≫= (.!! i) = Some x -> get_at a (Z.of_nat i) = Ok x.
Proof. intros H. destruct a as [l|]; [|done]. cbn in *. unfold get_at. replace (0 <=? Z.of_nat i) with true by (symmetry; apply Z.leb_le; lia). rewrite Nat2Z.id, H. done. Qed.

Lemma put_at_ok {A} (l : list A) (i : nat) x : (i < length l)%nat -> put_at (Some l) (Z.of_nat i) x = Ok (Some (<[i := x]> l)).
Proof. intros H. unfold put_at. rewrite store_ok by (unfold zlen; lia). cbn [rbind]. by rewrite Nat2Z.id. Qed.

Lemma resize_length {A} (l : list A) n x : 0 <= n -> zlen (resize l n x) = n.
Proof. intros H. unfold resize, zlen. rewrite length_take, length_app, repeat_length. lia. Qed.

Lemma resize_lookup {A} (l : list A) n x i : (i < length l)%nat -> zlen l <= n -> resize l n x !! i = l !! i.
Proof. intros Hi Hn. unfold resize, zlen in *. rewrite lookup_take_lt by lia. by rewrite lookup_app_l. Qed.

(** ** The sizes of the arrays *)

Record good (d : decl) : Prop := {
  g_connector : match groupConnector d with Some c => zlen c = groupSize d | None => groupSize d = 0 end;
  g_index : match scaffIndex d with Some i => zlen i = groupSize d /\ 0 < groupSize d | None => True end;
  g_scaffold : match scaffold d with Some s => zlen s = scaffSize d /\ 0 < scaffSize d | None => scaffSize d = 0 end;
  g_count : 0 <= scaffCount d <= scaffSize d }.

(** What stays: the nodes before [c], the open groups below level [l], their connectors. *)
Record frame (l c : nat) (d d' : decl) : Prop := {
  f_nodes : forall i, (i < c)%nat -> node_at d' i = node_at d i;
  f_index : forall i, (i < l)%nat -> index_at d' i = index_at d i;
  f_connector : forall i, (i <= l)%nat -> connector_at d' i = connector_at d i;
  f_in : in_eldecl d' = in_eldecl d }.

Lemma frame_refl l c d : frame l c d d.
Proof. by split. Qed.

Lemma frame_trans l c l' c' d1 d2 d3 : frame l c d1 d2 -> frame l' c' d2 d3 -> (l <= l')%nat -> (c <= c')%nat -> frame l c d1 d3.
Proof. intros [A1 A2 A3 A4] [B1 B2 B3 B4] Hl Hc. split; [intros i Hi; rewrite B1, A1 by lia; done|intros i Hi; rewrite B2, A2 by lia; done|intros i Hi; rewrite B3, A3 by lia; done|congruence]. Qed.

(** One node is changed. *)
Definition upd (f : nat -> option CONTENT_SCAFFOLD) (i : nat) (x : CONTENT_SCAFFOLD) : nat -> option CONTENT_SCAFFOLD := fun j => if decide (j = i) then Some x else f j.

Definition same_but_nodes (d d' : decl) : Prop :=
  groupConnector d' = groupConnector d /\ groupSize d' = groupSize d /\ scaffIndex d' = scaffIndex d /\ scaffSize d' = scaffSize d /\ scaffCount d' = scaffCount d /\ scaffLevel d' = scaffLevel d /\ contentStringLen d' = contentStringLen d /\ in_eldecl d' = in_eldecl d.

Lemma put_node_ok d i r x : good d -> node_at d i = Some r ->
  exists s d', put_at (scaffold d) (Z.of_nat i) x = Ok s /\ d' = set_scaffold d s (scaffSize d) (scaffCount d) (asked d) /\ good d' /\ same_but_nodes d d' /\ forall j, node_at d' j = upd (node_at d) i x j.
Proof.
  intros Hg Hr. unfold node_at in Hr. destruct (scaffold d) as [s|] eqn:E; [|done]. cbn in Hr. pose proof (lookup_lt_Some _ _ _ Hr) as Hlt. rewrite put_at_ok by done. eexists _, _. split; [done|]. split; [done|]. destruct Hg as [Hc Hi Hs Hn]. rewrite E in Hs. split; [split; cbn; try done; unfold zlen in *; by rewrite length_insert|]. split; [done|].
  intros j. unfold upd, node_at. rewrite E. cbn. case_decide as Hj; [subst j; by rewrite list_lookup_insert_eq|]. by rewrite list_lookup_insert_ne.
Qed.

(** The last child of the open group gets a sibling. *)
Lemma link_ok d (l p next : nat) r : good d -> scaffLevel d = Z.of_nat (S l) -> index_at d l = Some (Z.of_nat p) -> node_at d p = Some r -> (sc_lastchild r = 0 \/ exists k rk, sc_lastchild r = Z.of_nat k /\ k <> 0%nat /\ k <> p /\ node_at d k = Some rk) ->
  exists d', link d (Z.of_nat next) = Ok d' /\ good d' /\ same_but_nodes d d'
    /\ node_at d' p = Some (with_children r (if sc_childcnt r =? 0 then Z.of_nat next else sc_firstchild r) (Z.of_nat next) (sc_childcnt r + 1))
    /\ (forall k rk, sc_lastchild r = Z.of_nat k -> k <> 0%nat -> node_at d k = Some rk -> node_at d' k = Some (with_nextsib rk (Z.of_nat next)))
    /\ forall j, j <> p -> Z.of_nat j <> sc_lastchild r \/ sc_lastchild r = 0 -> node_at d' j = node_at d j.
Proof.
  intros Hg Hl Hi Hr Hlast. unfold link. replace (scaffLevel d - 1) with (Z.of_nat l) by lia. rewrite (get_at_ok _ _ _ Hi). cbn [rbind]. rewrite (get_at_ok _ _ _ Hr). cbn [rbind]. destruct Hlast as [H0|(k & rk & Hk & Hk0 & Hkp & Hrk)].
  - replace (sc_lastchild r =? 0) with true by lia. cbn [rbind]. rewrite (get_at_ok _ _ _ Hr). cbn [rbind]. cbv zeta. destruct (put_node_ok d p r (with_children r (if sc_childcnt r =? 0 then Z.of_nat next else sc_firstchild r) (Z.of_nat next) (sc_childcnt r + 1)) Hg Hr) as (s & d' & E & Hd & Hg' & Hsame & Hn). rewrite E. cbn [rbind]. exists d'. rewrite <- Hd. split; [done|]. split; [done|]. split; [done|].
    split; [rewrite Hn; unfold upd; by rewrite decide_True|]. split; [intros k rk Hk Hk0; lia|]. intros j Hj _. rewrite Hn. unfold upd. by rewrite decide_False.
  - replace (sc_lastchild r =? 0) with false by lia. rewrite Hk. rewrite (get_at_ok _ _ _ Hrk). cbn [rbind]. destruct (put_node_ok d k rk (with_nextsib rk (Z.of_nat next)) Hg Hrk) as (s & d1 & E & Hd & Hg1 & Hsame & Hn). rewrite E. cbn [rbind].
    assert (Hr1 : node_at d1 p = Some r) by (rewrite Hn; unfold upd; by rewrite decide_False). assert (Es : scaffold d1 = s) by (by rewrite Hd). rewrite <- Es, (get_at_ok _ _ _ Hr1). cbn [rbind]. cbv zeta.
    destruct (put_node_ok d1 p r (with_children r (if sc_childcnt r =? 0 then Z.of_nat next else sc_firstchild r) (Z.of_nat next) (sc_childcnt r + 1)) Hg1 Hr1) as (s2 & d2 & E2 & Hd2 & Hg2 & Hsame2 & Hn2). rewrite E2. cbn [rbind]. exists d2. split; [rewrite Hd2, Hd; done|]. split; [done|].
    split; [unfold same_but_nodes in *; intuition congruence|]. split; [rewrite Hn2; unfold upd; by rewrite decide_True|]. split.
    + intros k' rk' Hk' _ Hrk'. assert (k' = k) as -> by lia. assert (rk' = rk) as -> by congruence. rewrite Hn2. unfold upd. rewrite decide_False by done. rewrite Hn. unfold upd. by rewrite decide_True.
    + intros j Hj Hjl. rewrite Hn2. unfold upd. rewrite decide_False by done. rewrite Hn. unfold upd. rewrite decide_False by lia. done.
Qed.

Section Step.
  Context (grant : nat -> bool) (junk_node : CONTENT_SCAFFOLD) (junk_cell : XML_Content) (junk : Z).
  Abbreviation fail := (exists k, grant k = false).

(** ** [nextScaffoldPart] *)

Lemma need_index_ok d : good d -> 0 < groupSize d ->
  exists ok d', need_index grant junk d = Ok (ok, d') /\ if (ok : bool) then good d' /\ is_Some (scaffIndex d') /\ (forall i x, index_at d i = Some x -> index_at d' i = Some x) /\ groupConnector d' = groupConnector d /\ groupSize d' = groupSize d
    /\ scaffold d' = scaffold d /\ scaffCount d' = scaffCount d /\ scaffSize d' = scaffSize d /\ scaffLevel d' = scaffLevel d /\ contentStringLen d' = contentStringLen d /\ in_eldecl d' = in_eldecl d else fail.
Proof using Type.
  intros [Hc Hi Hs Hn] Hg. unfold need_index. destruct (scaffIndex d) as [i|] eqn:E; [exists true, d; split; [done|]; split; [split; [done|by rewrite E|done|done]|]; rewrite E; split; [eauto|done]|]. destruct (grant (asked d)) eqn:Eg; cbn [negb].
  - pose proof (put_at_ok (repeat junk (Z.to_nat (groupSize d))) 0 0 ltac:(rewrite repeat_length; lia)) as Ep. change (Z.of_nat 0) with 0 in Ep. rewrite Ep. cbn [rbind]. eexists true, _. split; [done|]. split; [split; cbn; try done; split; [unfold zlen; rewrite length_insert, repeat_length; lia|done]|]. split; [cbn; eauto|]. split; [|done]. intros j x Hj. unfold index_at in Hj. by rewrite E in Hj.
  - eexists false, _. split; [done|]. eauto.
Qed.

Lemma need_node_ok d : good d -> scaffCount d < 2 ^ 30 ->
  exists ok d', need_node grant junk_node d = (ok, d') /\ if (ok : bool) then good d' /\ scaffCount d' < scaffSize d' /\ (forall i x, node_at d i = Some x -> node_at d' i = Some x) /\ groupConnector d' = groupConnector d /\ groupSize d' = groupSize d
    /\ scaffIndex d' = scaffIndex d /\ scaffCount d' = scaffCount d /\ scaffLevel d' = scaffLevel d /\ contentStringLen d' = contentStringLen d /\ in_eldecl d' = in_eldecl d else fail.
Proof using Type.
  intros [Hc Hi Hs Hn] Hb. unfold need_node. destruct (Z.ltb_spec (scaffCount d) (scaffSize d)); [exists true, d; split; [done|]; split; [by split|]; done|]. destruct (scaffold d) as [s|] eqn:E.
  - destruct (grant (asked d)) eqn:Eg; cbn [negb]; [|eexists false, _; split; [done|]; eauto]. destruct Hs as [Hl Hp]. assert (Hu : u32 (scaffSize d * 2) = scaffSize d * 2) by (unfold u32; apply Z.mod_small; lia). cbv zeta. rewrite Hu. eexists true, _. split; [done|]. split; [split; cbn; try done; [split; [apply resize_length; lia|lia]|lia]|]. split; [cbn; lia|]. split; [|done].
    intros i x Hx. unfold node_at in *. rewrite E in Hx. cbn in *. pose proof (lookup_lt_Some _ _ _ Hx). rewrite resize_lookup; [done|done|lia].
  - destruct (grant (asked d)) eqn:Eg; cbn [negb]; [|eexists false, _; split; [done|]; eauto]. eexists true, _. split; [done|]. split; [split; cbn; try done; unfold INIT_SCAFFOLD_ELEMENTS; lia|]. split; [cbn; unfold INIT_SCAFFOLD_ELEMENTS; lia|]. split; [|done]. intros i x Hx. unfold node_at in Hx. by rewrite E in Hx.
Qed.

End Step.

(** ** Open groups *)

(** The group at [p], of type [ty], has the children [ch], the last nodes of the scaffold. *)
Definition open_at (d : decl) (p : nat) (ty : XML_Content_Type) (ch : list tree) : Prop :=
  ty <> XML_CTYPE_NAME /\ scaffCount d = Z.of_nat (S p + fsize ch)
  /\ exists r, node_at d p = Some r /\ sc_type r = ty /\ sc_nextsib r = 0 /\ links r ch p /\ reps (node_at d) ch (S p) 0.

(** One more child begins at [c]. *)
Definition linked (d : decl) (p : nat) (ty : XML_Content_Type) (ch : list tree) (c : nat) : Prop :=
  ty <> XML_CTYPE_NAME /\ c = (S p + fsize ch)%nat
  /\ exists r, node_at d p = Some r /\ sc_type r = ty /\ sc_nextsib r = 0 /\ sc_childcnt r = zlen ch + 1 /\ sc_firstchild r = Z.of_nat (S p) /\ sc_lastchild r = Z.of_nat c /\ reps (node_at d) ch (S p) c.

Lemma linked_frame l d d' p ty ch c : linked d p ty ch c -> frame l c d d' -> linked d' p ty ch c.
Proof.
  intros (Hty & Hc & r & Hr & H1 & H2 & H3 & H4 & H5 & H6) Hf. split; [done|]. split; [done|]. exists r. split; [rewrite (f_nodes _ _ _ _ Hf) by lia; done|]. do 5 (split; [done|]). eapply reps_agree; [|exact H6]. intros i Hi. apply Hf. lia.
Qed.

Lemma linked_closed d p ty ch c t : linked d p ty ch c -> rep (node_at d) t c 0 -> scaffCount d = Z.of_nat (c + tsize t) -> open_at d p ty (ch ++ [t]).
Proof.
  intros (Hty & -> & r & Hr & H1 & H2 & H3 & H4 & H5 & H6) Ht Hn. split; [done|]. split; [rewrite Hn, fsize_app; cbn; lia|]. exists r. split; [done|]. split; [done|]. split; [done|]. split; [split; [rewrite zlen_app; exact H3|]; split; [rewrite H4; by destruct ch|rewrite last_index_snoc; lia]|]. by apply reps_snoc.
Qed.

Lemma first_linked r ch p next : links r ch p -> next = (S p + fsize ch)%nat -> (if sc_childcnt r =? 0 then Z.of_nat next else sc_firstchild r) = Z.of_nat (S p).
Proof.
  intros (H1 & H2 & _) ->. rewrite H1, H2. destruct ch as [|t ch]; [change (zlen (@nil tree) =? 0) with true; f_equal; cbn; lia|]. rewrite zlen_cons. pose proof (zlen_nonneg ch). by replace (1 + zlen ch =? 0) with false by lia.
Qed.

(** What [nextScaffoldPart] leaves alone. *)
Definition same_rest (d d' : decl) : Prop :=
  groupConnector d' = groupConnector d /\ groupSize d' = groupSize d /\ scaffLevel d' = scaffLevel d /\ contentStringLen d' = contentStringLen d /\ in_eldecl d' = in_eldecl d.

(** A node without children. *)
Definition empty_node (d : decl) (c : nat) : Prop :=
  exists me, node_at d c = Some me /\ sc_firstchild me = 0 /\ sc_lastchild me = 0 /\ sc_childcnt me = 0 /\ sc_nextsib me = 0.

Section Next.
  Context (grant : nat -> bool) (junk_node : CONTENT_SCAFFOLD) (junk : Z).
  Abbreviation fail := (exists k, grant k = false).

(** The end of [nextScaffoldPart]. *)
Lemma node_cleared d c : good d -> (c < Z.to_nat (scaffSize d))%nat ->
  exists me s d', get_at (scaffold d) (Z.of_nat c) = Ok me /\ put_at (scaffold d) (Z.of_nat c) (with_nextsib (with_children me 0 0 0) 0) = Ok s /\ d' = set_scaffold d s (scaffSize d) (scaffCount d) (asked d)
    /\ good d' /\ same_but_nodes d d' /\ empty_node d' c /\ forall j, j <> c -> node_at d' j = node_at d j.
Proof using Type.
  intros Hg Hc. assert (Hs : is_Some (node_at d c)) by (unfold node_at; pose proof (g_scaffold _ Hg) as H; destruct (scaffold d) as [s|]; cbn; [apply lookup_lt_is_Some_2; unfold zlen in H; lia|lia]). destruct Hs as [me Hme]. exists me.
  destruct (put_node_ok d c me (with_nextsib (with_children me 0 0 0) 0) Hg Hme) as (s & d' & E & Hd & Hg' & Hsame & Hn). exists s, d'. split; [by apply get_at_ok|]. do 4 (split; [done|]). split; [eexists; split; [rewrite Hn; unfold upd; by rewrite decide_True|done]|]. intros j Hj. rewrite Hn. unfold upd. by rewrite decide_False.
Qed.

Definition next_node (d : decl) (c : nat) (my : option Z) (d' : decl) : Prop :=
  match my with
  | None => fail
  | Some m => m = Z.of_nat c /\ good d' /\ scaffCount d' = Z.of_nat (S c) /\ is_Some (scaffIndex d') /\ same_rest d d' /\ empty_node d' c
  end.

Lemma counted_ok d : good d -> scaffCount d < scaffSize d -> scaffCount d < 2 ^ 30 -> let d1 := set_scaffold d (scaffold d) (scaffSize d) (u32 (scaffCount d + 1)) (asked d) in good d1 /\ scaffCount d1 = scaffCount d + 1.
Proof using Type. intros [Hc Hi Hs Hn] Hlt Hb. cbn. assert (E : u32 (scaffCount d + 1) = scaffCount d + 1) by (unfold u32; apply Z.mod_small; lia). rewrite E. split; [|done]. split; cbn; try done. lia. Qed.

Lemma next_child d l p ty ch : good d -> 0 < groupSize d -> scaffLevel d = Z.of_nat (S l) -> index_at d l = Some (Z.of_nat p) -> open_at d p ty ch -> scaffCount d < 2 ^ 30 ->
  exists my d', nextScaffoldPart grant junk_node junk d = Ok (my, d') /\ let c := (S p + fsize ch)%nat in next_node d c my d' /\ (is_Some my -> linked d' p ty ch c /\ frame (S l) p d d' /\ forall i x, index_at d i = Some x -> index_at d' i = Some x).
Proof using Type.
  intros Hg Hgs Hl Hi Ho Hb. unfold nextScaffoldPart. destruct (need_index_ok grant junk d Hg Hgs) as (ok & d1 & E1 & H1). rewrite E1. cbn [rbind]. destruct ok; cbn [negb]; [|exists None, d1; split; [done|]; cbv zeta; split; [exact H1|by intros [??]]]. destruct H1 as (Hg1 & Hidx & Hidx1 & A1 & A2 & A3 & A4 & A5 & A6 & A7 & A8).
  destruct (need_node_ok grant junk_node d1 Hg1 ltac:(lia)) as (ok & d2 & E2 & H2). rewrite E2. destruct ok; cbn [negb]; [|exists None, d2; split; [done|]; cbv zeta; split; [exact H2|by intros [??]]]. destruct H2 as (Hg2 & Hlt2 & Hn2 & B1 & B2 & B3 & B4 & B5 & B6 & B7). cbv zeta.
  destruct Ho as (Hty & Hcnt & r & Hr & Hrt & Hrn & (Hl1 & Hl2 & Hl3) & Hreps). set (c := (S p + fsize ch)%nat) in *. assert (Ec : scaffCount d2 = Z.of_nat c) by lia. destruct (counted_ok d2 Hg2 Hlt2 ltac:(lia)) as [Hg3 Hc3]. cbv zeta in Hg3, Hc3. set (d3 := set_scaffold d2 _ _ _ _) in *.
  assert (Hlev : scaffLevel d3 = Z.of_nat (S l)) by (cbn; congruence). rewrite Hlev. replace (Z.of_nat (S l) =? 0) with false by (symmetry; apply Z.eqb_neq; lia). assert (Hn3 : forall i x, node_at d i = Some x -> node_at d3 i = Some x) by (intros i x Hx; apply Hn2; unfold node_at in *; by rewrite A3).
  assert (Hi3 : index_at d3 l = Some (Z.of_nat p)) by (apply Hidx1 in Hi; unfold index_at in *; cbn; by rewrite B3). rewrite Ec.
  destruct (link_ok d3 l p c r Hg3 Hlev Hi3 (Hn3 _ _ Hr)) as (d4 & E4 & Hg4 & Hsame4 & Hp4 & Hk4 & Hj4).
  { rewrite Hl3. destruct ch as [|t ch']; [by left|right]. destruct (reps_last (node_at d) (t :: ch') (S p) 0 ltac:(done) Hreps) as [rk Hrk]. exists (last_index (t :: ch') (S p)), rk. pose proof (last_index_range (t :: ch') (S p) ltac:(done)). split; [done|]. split; [lia|]. split; [lia|]. by apply Hn3. }
  rewrite E4. cbn [rbind]. destruct Hsame4 as (C1 & C2 & C3 & C4 & C5 & C6 & C7 & C8). destruct (node_cleared d4 c Hg4) as (me & s & d5 & Eg & Ep & Hd5 & Hg5 & (D1 & D2 & D3 & D4 & D5 & D6 & D7 & D8) & Hempty & Hj5); [rewrite C4; cbn; lia|]. rewrite Eg. cbn [rbind]. rewrite Ep. cbn [rbind].
  exists (Some (Z.of_nat c)), d5. split; [by rewrite Hd5|]. assert (Hold : forall i, (i < p)%nat -> is_Some (node_at d i)) by (intros i Hi'; pose proof (g_scaffold _ Hg) as Hgs'; unfold node_at in Hr |- *; destruct (scaffold d) as [sc|]; [|done]; cbn in *; pose proof (lookup_lt_Some _ _ _ Hr); apply lookup_lt_is_Some_2; lia).
  split; [split; [done|]; split; [done|]; split; [rewrite D5, C5, Hc3; lia|]; split; [rewrite D3, C3; cbn; rewrite B3; done|]; split; [|done]; unfold same_rest; cbn in *; repeat split; congruence|]. intros _. split.
  - split; [done|]. split; [done|]. eexists. split; [rewrite Hj5 by lia; exact Hp4|]. split; [done|]. split; [done|]. split; [cbn; lia|]. split; [by apply (first_linked r ch p c)|]. split; [done|].
    destruct ch as [|t ch']; [done|]. set (ch := t :: ch') in *. pose proof (last_index_range ch (S p) ltac:(done)) as Hlr. destruct (reps_last (node_at d) ch (S p) 0 ltac:(done) Hreps) as [rk Hrk]. apply (reps_resib ch (node_at d3) (node_at d5) (S p) 0 c rk); [done| |by apply Hn3| |].
    + eapply reps_agree; [|exact Hreps]. intros i Hi'. assert (Hs : is_Some (node_at d i)) by (pose proof (g_scaffold _ Hg) as Hgsc; pose proof (g_count _ Hg); unfold node_at; unfold node_at in Hr; destruct (scaffold d) as [sc|]; [|done]; cbn; apply lookup_lt_is_Some_2; unfold zlen in Hgsc; lia). destruct Hs as [x Hx]. rewrite Hx. by apply Hn3.
    + rewrite Hj5 by lia. apply Hk4; [done|lia|by apply Hn3].
    + intros i Hi' Hne. rewrite Hj5 by lia. apply Hj4; [lia|]. left. lia.
  - split.
    + split.
      * intros i Hi'. destruct (Hold i Hi') as [x Hx]. rewrite Hj5 by lia. rewrite Hj4; [rewrite Hx; by apply Hn3|lia|]. rewrite Hl3. destruct ch as [|t ch']; [by right|left]. pose proof (last_index_range (t :: ch') (S p) ltac:(done)). lia.
      * intros i Hi'. unfold index_at. rewrite D3, C3. cbn. rewrite B3. destruct (scaffIndex d) as [ix|] eqn:Ei; [|unfold index_at in Hi; rewrite Ei in Hi; done]. assert (Hix : is_Some (index_at d i)) by (unfold index_at in Hi |- *; rewrite Ei in *; cbn in *; pose proof (lookup_lt_Some _ _ _ Hi); apply lookup_lt_is_Some_2; lia). destruct Hix as [x Hx]. pose proof (Hidx1 i x Hx) as Hx1. unfold index_at in Hx, Hx1. rewrite Ei in Hx. cbn in *. congruence.
      * intros i Hi'. unfold connector_at. rewrite D1, C1. cbn. by rewrite B1, A1.
      * rewrite D8, C8. cbn. congruence.
    + intros i x Hx. apply Hidx1 in Hx. unfold index_at in *. rewrite D3, C3. cbn. by rewrite B3.
Qed.

Lemma next_root d : good d -> 0 < groupSize d -> scaffLevel d = 0 -> scaffCount d = 0 -> exists my d', nextScaffoldPart grant junk_node junk d = Ok (my, d') /\ next_node d 0 my d'.
Proof using Type.
  intros Hg Hgs Hl Hc. unfold nextScaffoldPart. destruct (need_index_ok grant junk d Hg Hgs) as (ok & d1 & E1 & H1). rewrite E1. cbn [rbind]. destruct ok; cbn [negb]; [|by exists None, d1]. destruct H1 as (Hg1 & Hidx & Hidx1 & A1 & A2 & A3 & A4 & A5 & A6 & A7 & A8).
  destruct (need_node_ok grant junk_node d1 Hg1 ltac:(lia)) as (ok & d2 & E2 & H2). rewrite E2. destruct ok; cbn [negb]; [|by exists None, d2]. destruct H2 as (Hg2 & Hlt2 & Hn2 & B1 & B2 & B3 & B4 & B5 & B6 & B7). cbv zeta.
  destruct (counted_ok d2 Hg2 Hlt2 ltac:(lia)) as [Hg3 Hc3]. cbv zeta in Hg3, Hc3. set (d3 := set_scaffold d2 _ _ _ _) in *. assert (Hlev : scaffLevel d3 = 0) by (cbn; congruence). rewrite Hlev. cbn [Z.eqb rbind]. replace (scaffCount d2) with (Z.of_nat 0) by lia.
  destruct (node_cleared d3 0 Hg3) as (me & s & d5 & Eg & Ep & Hd5 & Hg5 & (D1 & D2 & D3 & D4 & D5 & D6 & D7 & D8) & Hempty & Hj5); [cbn; lia|]. rewrite Eg. cbn [rbind]. rewrite Ep. cbn [rbind]. exists (Some (Z.of_nat 0)), d5. split; [by rewrite Hd5|]. split; [done|]. split; [done|]. split; [rewrite D5, Hc3; lia|]. split; [rewrite D3; cbn; by rewrite B3|]. split; [|done]. unfold same_rest. cbn in *. repeat split; congruence.
Qed.

(** ** The start of a group *)

(** The arrays of an index that [level] is in. *)
Lemma need_level_ok d (lev : nat) : good d -> Z.of_nat lev <= groupSize d \/ groupSize d = 0 /\ (lev < 32)%nat -> Z.of_nat lev < 2 ^ 30 ->
  exists ok d', need_level grant junk d (Z.of_nat lev) = (ok, d') /\ if (ok : bool) then good d' /\ Z.of_nat lev < groupSize d' /\ (forall i x, index_at d i = Some x -> index_at d' i = Some x) /\ (forall i x, connector_at d i = Some x -> connector_at d' i = Some x)
    /\ scaffold d' = scaffold d /\ scaffSize d' = scaffSize d /\ scaffCount d' = scaffCount d /\ scaffLevel d' = scaffLevel d /\ contentStringLen d' = contentStringLen d /\ in_eldecl d' = in_eldecl d else fail.
Proof using Type.
  intros [Hc Hi Hs Hn] Hlev Hb. unfold need_level. destruct (Z.ltb_spec (Z.of_nat lev) (groupSize d)) as [|Hge]; [exists true, d; split; [done|]; split; [by split|]; done|]. destruct (Z.eqb_spec (groupSize d) 0) as [H0|Hne].
  - destruct (grant (asked d)) eqn:Eg; [|eexists false, _; split; [done|]; eauto]. destruct (scaffIndex d) as [ix|] eqn:Ei; [lia|]. eexists true, _. split; [done|]. split; [by split|]. split; [cbn; lia|]. split; [intros i x Hx; unfold index_at in Hx; by rewrite Ei in Hx|]. split; [|done].
    intros i x Hx. unfold connector_at in Hx. destruct (groupConnector d) as [c|]; [|done]. cbn in Hx. apply lookup_lt_Some in Hx. unfold zlen in Hc. lia.
  - destruct (grant (asked d)) eqn:Eg; cbn [negb]; [|eexists false, _; split; [done|]; eauto]. destruct (groupConnector d) as [c|] eqn:Ec; [|lia]. assert (Hn2 : u32 (groupSize d * 2) = groupSize d * 2) by (unfold u32; apply Z.mod_small; lia). rewrite Hn2. cbv zeta. cbn [set_groups scaffIndex asked].
    assert (Hconn : forall i x, connector_at d i = Some x -> resize c (groupSize d * 2) junk !! i = Some x) by (intros i x Hx; unfold connector_at in Hx; rewrite Ec in Hx; cbn in Hx; pose proof (lookup_lt_Some _ _ _ Hx); rewrite resize_lookup by (done || lia); done). destruct (scaffIndex d) as [ix|] eqn:Ei.
    + destruct (grant (S (asked d))) eqn:Eg2; cbn [negb]; [|eexists false, _; split; [done|]; eauto]. destruct Hi as [Hi Hpos]. eexists true, _. split; [done|]. split; [split; cbn; try done; [apply resize_length; lia|split; [apply resize_length; lia|lia]]|]. split; [cbn; lia|]. split; [|split; [exact Hconn|done]].
      intros i x Hx. unfold index_at in *. rewrite Ei in Hx. cbn in *. pose proof (lookup_lt_Some _ _ _ Hx). rewrite resize_lookup by (done || lia). done.
    + eexists true, _. split; [done|]. split; [split; cbn; try done; apply resize_length; lia|]. split; [cbn; lia|]. split; [intros i x Hx; unfold index_at in Hx; by rewrite Ei in Hx|]. split; [exact Hconn|done].
Qed.

End Next.
