(* ===== verification/ExpatModelGroup.v ===== *)
(** * Content models: groups and names

    The reactions to the roles of a content model, one lemma each: what a role adds to
    the group that is open. *)

From S2P Require Import Prelude ExpatRole ExpatModel ExpatModelTree ExpatModelStep.

Lemma open_at_eq d d' p ty ch : scaffold d' = scaffold d -> scaffCount d' = scaffCount d -> open_at d p ty ch -> open_at d' p ty ch.
Proof. intros Es Ec. unfold open_at, node_at. by rewrite Es, Ec. Qed.

Lemma connector_set d (lev : nat) x : good d -> Z.of_nat lev < groupSize d ->
  exists c d', put_at (groupConnector d) (Z.of_nat lev) x = Ok c /\ d' = set_groups d c (groupSize d) (scaffIndex d) (asked d) /\ good d' /\ connector_at d' lev = Some x /\ forall i, i <> lev -> connector_at d' i = connector_at d i.
Proof.
  intros Hg Hlev. destruct (groupConnector d) as [c|] eqn:Ec; pose proof (g_connector _ Hg) as Hc; rewrite Ec in Hc; [|lia]. rewrite put_at_ok by (unfold zlen in Hc; lia). eexists _, _. split; [done|]. split; [done|]. destruct Hg as [_ Hi Hs Hn]. split; [split; cbn; try done; unfold zlen in *; by rewrite length_insert|].
  unfold connector_at. rewrite Ec. cbn. split; [apply list_lookup_insert_eq; unfold zlen in Hc; lia|]. intros i Hi'. by rewrite list_lookup_insert_ne.
Qed.

(** A connector that is in the array. *)
Lemma connector_in d (i : nat) : good d -> Z.of_nat i < groupSize d -> is_Some (connector_at d i).
Proof. intros Hg Hi. pose proof (g_connector _ Hg) as Hc. unfold connector_at. destruct (groupConnector d) as [c|]; [|lia]. cbn. apply lookup_lt_is_Some_2. unfold zlen in Hc. lia. Qed.

Section Group.
  Context (grant : nat -> bool) (junk_node : CONTENT_SCAFFOLD) (junk_cell : XML_Content) (junk : Z) (elementDeclHandler : bool).
  Abbreviation fail := (exists k, grant k = false).

(** ** Opening *)

(** The second half of [group_open]. *)
Definition open_rest (my : option Z) (d : decl) : res (outcome * decl) :=
  match my with
  | None => Ok (NoMemory, d)
  | Some myindex =>
      do i <- put_at (scaffIndex d) (scaffLevel d) myindex;
      let d := set_groups d (groupConnector d) (groupSize d) i (asked d) in
      let d := set_decl d (scaffLevel d + 1) (contentStringLen d) (in_eldecl d) (asked d) in
      do n <- get_at (scaffold d) myindex;
      do s <- put_at (scaffold d) myindex (with_type n XML_CTYPE_SEQ);
      Ok (Continue, set_scaffold d s (scaffSize d) (scaffCount d) (asked d))
  end.

(** Where the node of the group is asked for. *)
Record prepared (lev : nat) (d d' : decl) : Prop := {
  pr_good : good d';
  pr_size : Z.of_nat lev < groupSize d';
  pr_connector : connector_at d' lev = Some 0;
  pr_connectors : forall i x, i <> lev -> connector_at d i = Some x -> connector_at d' i = Some x;
  pr_index : forall i x, index_at d i = Some x -> index_at d' i = Some x;
  pr_scaffold : scaffold d' = scaffold d;
  pr_same : scaffCount d' = scaffCount d /\ scaffLevel d' = scaffLevel d /\ contentStringLen d' = contentStringLen d /\ in_eldecl d' = in_eldecl d }.

Lemma open_prepared d (lev : nat) : good d -> Z.of_nat lev <= groupSize d \/ groupSize d = 0 /\ (lev < 32)%nat -> Z.of_nat lev < 2 ^ 30 -> in_eldecl d = true ->
  (exists d', group_open grant junk_node junk (Z.of_nat lev) d = Ok (NoMemory, d') /\ fail)
  \/ exists d', prepared lev d d' /\ group_open grant junk_node junk (Z.of_nat lev) d = (do (my, d') <- nextScaffoldPart grant junk_node junk d'; open_rest my d').
Proof using Type.
  intros Hg Hlev Hb Hin. unfold group_open. destruct (need_level_ok grant junk d lev Hg Hlev Hb) as (ok & d1 & E1 & H1). rewrite E1. destruct ok; cbn [negb]; [right|left; eauto]. destruct H1 as (Hg1 & Hsz & Hidx & Hcon & A1 & A2 & A3 & A4 & A5 & A6).
  destruct (connector_set d1 lev 0 Hg1 Hsz) as (c & d2 & E2 & Hd2 & Hg2 & Hc2 & Hcs2). rewrite E2. cbn [rbind]. cbv zeta. rewrite <- Hd2. assert (Hin2 : in_eldecl d2 = true) by (rewrite Hd2; cbn; congruence). rewrite Hin2. cbn [negb]. exists d2. split; [|done].
  split; [done|by rewrite Hd2|done|intros i x Hi Hx; rewrite Hcs2 by done; by apply Hcon|intros i x Hx; rewrite Hd2; by apply Hidx|by rewrite Hd2|rewrite Hd2; cbn; done].
Qed.

(** A group has been opened at level [l] with the node [c]. *)
Record opened (l c : nat) (d d' : decl) : Prop := {
  op_good : good d';
  op_level : scaffLevel d' = Z.of_nat (S l);
  op_size : Z.of_nat (S l) < groupSize d';
  op_index : index_at d' l = Some (Z.of_nat c);
  op_connector : connector_at d' (S l) = Some 0;
  op_group : open_at d' c XML_CTYPE_SEQ [];
  op_same : contentStringLen d' = contentStringLen d /\ in_eldecl d' = in_eldecl d }.

Lemma open_finished d l c : good d -> scaffLevel d = Z.of_nat l -> is_Some (scaffIndex d) -> Z.of_nat (S l) < groupSize d -> empty_node d c -> scaffCount d = Z.of_nat (S c) -> connector_at d (S l) = Some 0 ->
  exists d', open_rest (Some (Z.of_nat c)) d = Ok (Continue, d') /\ opened l c d d' /\ (forall i, i <> l -> index_at d' i = index_at d i) /\ (forall i, i <> c -> node_at d' i = node_at d i) /\ groupConnector d' = groupConnector d.
Proof using Type.
  intros Hg Hl [ix Hix] Hsz (me & Hme & H1 & H2 & H3 & H4) Hcnt Hcon. unfold open_rest. rewrite Hl, Hix. pose proof (g_index _ Hg) as Hi. rewrite Hix in Hi. destruct Hi as [Hi Hpos]. rewrite put_at_ok by (unfold zlen in Hi; lia). cbn [rbind]. cbv zeta.
  set (d1 := set_decl _ _ _ _ _). assert (Hg1 : good d1) by (destruct Hg as [Gc Gi Gs Gn]; split; cbn; try done; unfold zlen in *; rewrite length_insert; done). assert (Hn1 : node_at d1 c = Some me) by exact Hme. rewrite (get_at_ok _ _ _ Hn1). cbn [rbind].
  destruct (put_node_ok d1 c me (with_type me XML_CTYPE_SEQ) Hg1 Hn1) as (s & d2 & E & Hd2 & Hg2 & (D1 & D2 & D3 & D4 & D5 & D6 & D7 & D8) & Hn2). rewrite E. cbn [rbind]. exists d2. split; [by rewrite Hd2|]. split; [|split; [|split]].
  - split; [done|rewrite D6; cbn; lia|by rewrite D2|unfold index_at; rewrite D3; cbn; apply list_lookup_insert_eq; unfold zlen in Hi; lia|unfold connector_at; rewrite D1; exact Hcon| |by rewrite D7, D8].
    split; [done|]. split; [rewrite D5; cbn; rewrite Hcnt; lia|]. exists (with_type me XML_CTYPE_SEQ). split; [rewrite Hn2; unfold upd; by rewrite decide_True|]. split; [done|]. split; [done|]. split; [|done]. by split.
  - intros i Hne. unfold index_at. rewrite D3, Hix. cbn. by rewrite list_lookup_insert_ne.
  - intros i Hne. rewrite Hn2. unfold upd. by rewrite decide_False.
  - by rewrite D1.
Qed.

Lemma group_open_child d l p ty ch : good d -> scaffLevel d = Z.of_nat (S l) -> Z.of_nat (S l) < groupSize d -> Z.of_nat l < 2 ^ 29 -> index_at d l = Some (Z.of_nat p) -> open_at d p ty ch -> scaffCount d < 2 ^ 30 -> in_eldecl d = true ->
  exists o d', group_open grant junk_node junk (Z.of_nat (S (S l))) d = Ok (o, d')
    /\ (o = NoMemory /\ fail \/ o = Continue /\ let c := (S p + fsize ch)%nat in opened (S l) c d d' /\ linked d' p ty ch c /\ frame (S l) p d d').
Proof using Type.
  intros Hg Hl Hsz Hb Hi Ho Hcnt Hin. destruct (open_prepared d (S (S l)) Hg ltac:(lia) ltac:(lia) Hin) as [(d' & E & Hf)|(d1 & Hpre & E)]; [exists NoMemory, d'; split; [done|by left]|]. rewrite E. destruct Hpre as [Hg1 Hsz1 Hc1 Hcs1 Hix1 Hsc1 (S1 & S2 & S3 & S4)].
  destruct (next_child grant junk_node junk d1 l p ty ch Hg1 ltac:(lia) ltac:(congruence) (Hix1 _ _ Hi) (open_at_eq d d1 p ty ch Hsc1 S1 Ho) ltac:(lia)) as (my & d2 & E2 & Hnext & Hlinked). rewrite E2. cbn [rbind]. cbv zeta in *. destruct my as [m|]; [|exists NoMemory, d2; split; [done|by left]].
  destruct Hnext as (-> & Hg2 & Hcnt2 & Hix2 & (R1 & R2 & R3 & R4 & R5) & Hempty). destruct (Hlinked ltac:(eauto)) as (Hlk & Hfr & Hidx2). set (c := (S p + fsize ch)%nat) in *.
  destruct (open_finished d2 (S l) c Hg2 ltac:(congruence) Hix2 ltac:(lia) Hempty Hcnt2) as (d3 & E3 & Hop & Hix3 & Hn3 & Hc3); [unfold connector_at; rewrite R1; exact Hc1|]. rewrite E3. exists Continue, d3. split; [done|]. right. split; [done|].
  assert (Hfr3 : frame (S l) c d2 d3) by (split; [intros i Hi'; apply Hn3; lia|intros i Hi'; apply Hix3; lia|intros i Hi'; unfold connector_at; by rewrite Hc3|apply Hop]). split; [|split].
  - destruct Hop as [O1 O2 O3 O4 O5 O6 [O7 O8]]. split; try done. split; congruence.
  - by eapply linked_frame.
  - eapply frame_trans; [|eapply frame_trans; [exact Hfr|exact Hfr3|lia|lia]|done|done]. split; [intros i Hi'; unfold node_at; by rewrite Hsc1| |intros i Hi'; destruct (connector_in d i Hg ltac:(lia)) as [x Hx]; rewrite Hx; apply Hcs1; [lia|done]|done].
    intros i Hi'. pose proof (g_index _ Hg) as Hgi. unfold index_at in Hi. destruct (scaffIndex d) as [ix|] eqn:Eix; [|done]. cbn in Hi. apply lookup_lt_Some in Hi. destruct (lookup_lt_is_Some_2 ix i ltac:(lia)) as [x Hx]. assert (Hx' : index_at d i = Some x) by (unfold index_at; by rewrite Eix). rewrite Hx'. by apply Hix1.
Qed.

Lemma group_open_root d : good d -> scaffLevel d = 0 -> scaffCount d = 0 -> in_eldecl d = true ->
  exists o d', group_open grant junk_node junk 1 d = Ok (o, d') /\ (o = NoMemory /\ fail \/ o = Continue /\ opened 0 0 d d').
Proof using Type.
  intros Hg Hl Hcnt Hin. assert (H0 : 0 <= groupSize d) by (pose proof (g_connector _ Hg) as H; destruct (groupConnector d); [unfold zlen in H|]; lia). destruct (open_prepared d 1 Hg ltac:(lia) ltac:(lia) Hin) as [(d' & E & Hf)|(d1 & Hpre & E)]; change (Z.of_nat 1) with 1 in E; [exists NoMemory, d'; split; [done|by left]|]. rewrite E. destruct Hpre as [Hg1 Hsz1 Hc1 Hcs1 Hix1 Hsc1 (S1 & S2 & S3 & S4)].
  destruct (next_root grant junk_node junk d1 Hg1 ltac:(lia) ltac:(lia) ltac:(lia)) as (my & d2 & E2 & Hnext). rewrite E2. cbn [rbind]. destruct my as [m|]; [|exists NoMemory, d2; split; [done|by left]]. destruct Hnext as (-> & Hg2 & Hcnt2 & Hix2 & (R1 & R2 & R3 & R4 & R5) & Hempty).
  destruct (open_finished d2 0 0 Hg2 ltac:(lia) Hix2 ltac:(lia) Hempty Hcnt2) as (d3 & E3 & Hop & _); [unfold connector_at; rewrite R1; exact Hc1|]. rewrite E3. exists Continue, d3. split; [done|]. right. split; [done|]. destruct Hop as [O1 O2 O3 O4 O5 O6 [O7 O8]]. split; try done. split; congruence.
Qed.

(** ** Names *)

Lemma content_element_ok d l p ty ch q n : good d -> 0 < groupSize d -> scaffLevel d = Z.of_nat (S l) -> index_at d l = Some (Z.of_nat p) -> open_at d p ty ch -> scaffCount d < 2 ^ 30 -> in_eldecl d = true ->
  exists o d', content_element grant junk_node junk q (Some n) d = Ok (o, d')
    /\ (o = NoMemory /\ fail \/ o = Continue /\ good d' /\ open_at d' p ty (ch ++ [Tree XML_CTYPE_NAME q (Some n) []]) /\ frame (S l) p d d' /\ scaffLevel d' = scaffLevel d /\ groupSize d' = groupSize d /\ contentStringLen d' = u32 (contentStringLen d + (zlen n + 1))).
Proof using Type.
  intros Hg Hgs Hl Hi Ho Hcnt Hin. unfold content_element. rewrite Hin. cbn [negb]. destruct (next_child grant junk_node junk d l p ty ch Hg Hgs Hl Hi Ho Hcnt) as (my & d1 & E & Hnext & Hlinked). rewrite E. cbn [rbind]. cbv zeta in *. destruct my as [m|]; [|exists NoMemory, d1; split; [done|by left]].
  destruct Hnext as (-> & Hg1 & Hcnt1 & _ & (R1 & R2 & R3 & R4 & R5) & (me & Hme & M1 & M2 & M3 & M4)). destruct (Hlinked ltac:(eauto)) as (Hlk & Hfr & _). set (c := (S p + fsize ch)%nat) in *. rewrite (get_at_ok _ _ _ Hme). cbn [rbind].
  destruct (put_node_ok d1 c me (with_quant (with_type me XML_CTYPE_NAME) q) Hg1 Hme) as (s & d2 & E2 & Hd2 & Hg2 & (C1 & C2 & C3 & C4 & C5 & C6 & C7 & C8) & Hn2). rewrite E2. cbn [rbind]. rewrite <- Hd2. assert (Hme2 : node_at d2 c = Some (with_quant (with_type me XML_CTYPE_NAME) q)) by (rewrite Hn2; unfold upd; by rewrite decide_True). rewrite (get_at_ok _ _ _ Hme2). cbn [rbind].
  destruct (put_node_ok d2 c _ (with_name (with_quant (with_type me XML_CTYPE_NAME) q) n) Hg2 Hme2) as (s3 & d3 & E3 & Hd3 & Hg3 & (D1 & D2 & D3 & D4 & D5 & D6 & D7 & D8) & Hn3). rewrite E3. cbn [rbind]. rewrite <- Hd3. assert (Hout : forall i, i <> c -> node_at d3 i = node_at d1 i) by (intros i Hne; rewrite Hn3; unfold upd; rewrite decide_False by done; rewrite Hn2; unfold upd; by rewrite decide_False).
  eexists Continue, _. split; [done|]. right. split; [done|]. set (d4 := set_decl _ _ _ _ _). assert (Hfr4 : frame (S l) c d1 d4) by (split; [intros i Hi'; apply Hout; lia|intros i Hi'; unfold index_at; cbn; by rewrite D3, C3|intros i Hi'; unfold connector_at; cbn; by rewrite D1, C1|cbn; congruence]). split; [|split; [|split; [|split; [|split]]]].
  - destruct Hg3 as [G1 G2 G3 G4]. by split.
  - eapply linked_closed; [by eapply linked_frame| |cbn; rewrite D5, C5, Hcnt1; lia]. apply rep_unfold. eexists. split; [change (node_at d4 c) with (node_at d3 c); rewrite Hn3; unfold upd; by rewrite decide_True|]. split; [done|]. split; [done|]. split; [exact M4|]. split; [done|]. split; [|done]. split; [exact M3|]. split; [exact M1|exact M2].
  - eapply frame_trans; [exact Hfr|exact Hfr4|done|lia].
  - cbn. congruence.
  - cbn. congruence.
  - cbn. by rewrite D7, C7, R4.
Qed.

(** ** Connectors *)

(** The node of the group at level [l] is changed. *)
Lemma change_open_ok d l p r f : good d -> index_at d l = Some (Z.of_nat p) -> node_at d p = Some r ->
  exists d', change_open d (Z.of_nat l) f = Ok d' /\ good d' /\ same_but_nodes d d' /\ forall j, node_at d' j = upd (node_at d) p (f r) j.
Proof using Type.
  intros Hg Hi Hr. unfold change_open. rewrite (get_at_ok _ _ _ Hi). cbn [rbind]. rewrite (get_at_ok _ _ _ Hr). cbn [rbind]. destruct (put_node_ok d p r (f r) Hg Hr) as (s & d' & E & Hd & Hg' & Hsame & Hn). rewrite E. cbn [rbind]. exists d'. by rewrite <- Hd.
Qed.

(** The type of a group, and the connector, when [choice] has connected its children. *)
Definition group_type (choice : bool) : XML_Content_Type := if choice then XML_CTYPE_CHOICE else XML_CTYPE_SEQ.
Definition connector (choice : bool) : Z := if choice then 0x7C else 0x2C.

Lemma open_changed d d' p ty ty' ch (f : CONTENT_SCAFFOLD -> CONTENT_SCAFFOLD) r : open_at d p ty ch -> node_at d p = Some r -> (forall j, node_at d' j = upd (node_at d) p (f r) j) -> scaffCount d' = scaffCount d -> f r = with_type r ty' -> ty' <> XML_CTYPE_NAME -> open_at d' p ty' ch.
Proof using Type.
  intros (Hty & Hcnt & r' & Hr & H1 & H2 & H3 & H4) Hr' Hn Hc Ef Hne. assert (r' = r) as -> by congruence. split; [done|]. split; [congruence|]. exists (with_type r ty'). split; [rewrite Hn; unfold upd; by rewrite decide_True, Ef|]. do 3 (split; [done|]). eapply reps_agree; [|exact H4]. intros i Hi. rewrite Hn. unfold upd. rewrite decide_False by lia. done.
Qed.

Lemma group_connect_ok choice d l p ty ch x : good d -> scaffLevel d = Z.of_nat (S l) -> Z.of_nat (S l) < groupSize d -> index_at d l = Some (Z.of_nat p) -> open_at d p ty ch -> connector_at d (S l) = Some x -> in_eldecl d = true ->
  x = 0 /\ ty = XML_CTYPE_SEQ \/ x = connector choice /\ ty = group_type choice ->
  exists d', (if choice then group_choice (Z.of_nat (S l)) d else group_sequence (Z.of_nat (S l)) d) = Ok (Continue, d') /\ good d' /\ scaffLevel d' = scaffLevel d /\ groupSize d' = groupSize d /\ contentStringLen d' = contentStringLen d
    /\ open_at d' p (group_type choice) ch /\ connector_at d' (S l) = Some (connector choice) /\ frame l p d d' /\ index_at d' l = index_at d l.
Proof using Type.
  intros Hg Hl Hsz Hi Ho Hx Hin Hcase. destruct choice.
  - unfold group_choice. rewrite (get_at_ok _ _ _ Hx). cbn [rbind]. replace (x =? 0x2C) with false by (destruct Hcase as [[-> _]|[-> _]]; done). rewrite Hin. cbn [andb].
    assert (Hch : exists d1, (if x =? 0 then change_open d (scaffLevel d - 1) (fun n => if bool_decide (sc_type n = XML_CTYPE_MIXED) then n else with_type n XML_CTYPE_CHOICE) else Ok d) = Ok d1 /\ good d1 /\ scaffLevel d1 = scaffLevel d /\ groupSize d1 = groupSize d /\ contentStringLen d1 = contentStringLen d /\ groupConnector d1 = groupConnector d /\ scaffIndex d1 = scaffIndex d /\ in_eldecl d1 = in_eldecl d /\ open_at d1 p XML_CTYPE_CHOICE ch /\ forall i, (i < p)%nat -> node_at d1 i = node_at d i).
    { destruct Hcase as [[-> ->]|[-> ->]]; [|exists d; done]. cbn [Z.eqb]. destruct Ho as (Hty & Hcnt & r & Hr & Hrt & Hrest). replace (scaffLevel d - 1) with (Z.of_nat l) by lia. destruct (change_open_ok d l p r (fun n => if bool_decide (sc_type n = XML_CTYPE_MIXED) then n else with_type n XML_CTYPE_CHOICE) Hg Hi Hr) as (d1 & E & Hg1 & (C1 & C2 & C3 & C4 & C5 & C6 & C7 & C8) & Hn). exists d1. do 8 (split; [done|]). split.
      - eapply (open_changed d d1 p XML_CTYPE_SEQ _ _ (fun n => if bool_decide (sc_type n = XML_CTYPE_MIXED) then n else with_type n XML_CTYPE_CHOICE)); [split; [done|]; split; [done|]; by exists r|exact Hr|exact Hn|done|cbn; rewrite Hrt; done|done].
      - intros i Hi'. rewrite Hn. unfold upd. rewrite decide_False by lia. done. }
    destruct Hch as (d1 & E1 & Hg1 & A1 & A2 & A3 & A4 & A5 & A6 & Ho1 & Hn1). rewrite E1. cbn [rbind]. destruct (connector_set d1 (S l) 0x7C Hg1 ltac:(lia)) as (c & d2 & E2 & Hd2 & Hg2 & Hc2 & Hcs2). rewrite E2. cbn [rbind]. rewrite <- Hd2. exists d2. split; [done|]. split; [done|]. rewrite Hd2. do 3 (split; [done|]). split; [exact Ho1|]. split; [by rewrite <- Hd2|]. split.
    + split; [exact Hn1|intros i Hi'; unfold index_at; cbn; by rewrite A5|intros i Hi'; rewrite <- Hd2, Hcs2 by lia; unfold connector_at; by rewrite A4|exact A6].
    + unfold index_at. cbn. by rewrite A5.
  - unfold group_sequence. rewrite (get_at_ok _ _ _ Hx). cbn [rbind]. replace (x =? 0x7C) with false by (destruct Hcase as [[-> _]|[-> _]]; done). destruct (connector_set d (S l) 0x2C Hg Hsz) as (c & d2 & E2 & Hd2 & Hg2 & Hc2 & Hcs2). rewrite E2. cbn [rbind]. rewrite <- Hd2. exists d2. split; [done|]. split; [done|]. rewrite Hd2. do 3 (split; [done|]). split; [destruct Hcase as [[_ ->]|[_ ->]]; exact Ho|]. split; [by rewrite <- Hd2|]. split; [|done].
    split; [done|done|intros i Hi'; rewrite <- Hd2; apply Hcs2; lia|done].
Qed.

(** ** The end of a group *)

Lemma close_node d l p ty ch q : good d -> scaffLevel d = Z.of_nat (S l) -> index_at d l = Some (Z.of_nat p) -> open_at d p ty ch -> in_eldecl d = true ->
  exists d', (do d <- change_open (set_decl d (scaffLevel d - 1) (contentStringLen d) (in_eldecl d) (asked d)) (scaffLevel d - 1) (fun n => with_quant n q); Ok d) = Ok d' /\ good d' /\ scaffLevel d' = Z.of_nat l /\ groupSize d' = groupSize d /\ contentStringLen d' = contentStringLen d
    /\ rep (node_at d') (Tree ty q None ch) p 0 /\ scaffCount d' = scaffCount d /\ frame l p d d'.
Proof using Type.
  intros Hg Hl Hi (Hty & Hcnt & r & Hr & H1 & H2 & H3 & H4) Hin. set (d0 := set_decl d (scaffLevel d - 1) (contentStringLen d) (in_eldecl d) (asked d)). assert (Hg0 : good d0) by (destruct Hg; by split). replace (scaffLevel d - 1) with (Z.of_nat l) by lia.
  destruct (change_open_ok d0 l p r (fun n => with_quant n q) Hg0 Hi Hr) as (d1 & E & Hg1 & (C1 & C2 & C3 & C4 & C5 & C6 & C7 & C8) & Hn). rewrite E. cbn [rbind]. exists d1. split; [done|]. split; [done|]. split; [rewrite C6; cbn; lia|]. split; [done|]. split; [done|]. split; [|split; [done|]].
  - apply rep_unfold. exists (with_quant r q). split; [rewrite Hn; unfold upd; by rewrite decide_True|]. split; [done|]. split; [done|]. split; [done|]. split; [cbn; congruence|]. split; [done|]. eapply reps_agree; [|exact H4]. intros i Hi'. rewrite Hn. unfold upd. rewrite decide_False by lia. done.
  - split; [intros i Hi'; rewrite Hn; unfold upd; rewrite decide_False by lia; done|intros i Hi'; unfold index_at; by rewrite C3|intros i Hi'; unfold connector_at; by rewrite C1|done].
Qed.

End Group.
