(* ===== verification/ExpatModelBuild.v ===== *)
(** * Content models: the tree for the application

    [build_model] writes the tree that the scaffold stands for into its block, and
    nothing outside of it. *)

From S2P Require Import Prelude ExpatRole ExpatModel ExpatModelTree ExpatModelStep.

(** ** Trees in cells *)

Section Shown.
  Context (cells : list XML_Content) (strs : list Z).

(** The cell [i] is the root of [t]; children lie one after the other. *)
Fixpoint shown (t : tree) (i : nat) : Prop :=
  match t with
  | Tree ty q nm ch =>
      exists c, cells !! i = Some c /\ c_type c = ty /\ c_quant c = q /\ c_numchildren c = zlen ch
        /\ match nm with
           | Some n => c_children c = None /\ ch = [] /\ exists o, c_name c = Some o /\ has_bytes strs o (n ++ [0])
           | None => c_name c = None /\ exists k : nat, c_children c = Some (Z.of_nat k) /\ (fix all (l : list tree) (k : nat) : Prop := match l with [] => True | t :: l => shown t k /\ all l (S k) end) ch k
           end
  end.

Fixpoint all_shown (l : list tree) (k : nat) : Prop := match l with [] => True | t :: l => shown t k /\ all_shown l (S k) end.

End Shown.

(** Names have no children. *)
Fixpoint leaves (t : tree) : Prop :=
  match t with Tree _ _ nm ch => (nm <> None -> ch = []) /\ (fix all (l : list tree) : Prop := match l with [] => True | t :: l => leaves t /\ all l end) ch end.
Fixpoint all_leaves (l : list tree) : Prop := match l with [] => True | t :: l => leaves t /\ all_leaves l end.

(** ** Names *)

Lemma copy_name_ok n : forall strpos strs, 0 <= strpos -> strpos + (zlen n + 1) <= zlen strs -> copy_name n strpos strs = Ok (strpos + (zlen n + 1), splice strs strpos (n ++ [0])).
Proof.
  induction n as [|c n IH]; intros strpos strs H0 Hl; cbn [copy_name].
  - change (zlen (@nil Z)) with 0 in *. rewrite store_ok by lia. cbn [rbind app]. do 2 f_equal. unfold splice. rewrite insert_take_drop by (unfold zlen in *; lia). change (zlen [0]) with 1. by replace (Z.to_nat (strpos + 1)) with (S (Z.to_nat strpos)) by lia.
  - rewrite zlen_cons in *. pose proof (zlen_nonneg n). rewrite store_ok by lia. cbn [rbind]. rewrite IH by (rewrite ?zlen_insert; unfold zlen in *; rewrite ?length_insert; lia). do 2 f_equal; [lia|]. cbn [app].
    assert (E : <[Z.to_nat strpos := c]> strs = splice strs strpos [c]) by (unfold splice; rewrite insert_take_drop by (unfold zlen in *; lia); change (zlen [c]) with 1; by replace (Z.to_nat (strpos + 1)) with (S (Z.to_nat strpos)) by lia). rewrite E. apply splice_cons; [lia|]. rewrite zlen_app. change (zlen [0]) with 1. lia.
Qed.

(** ** Agreement of memory *)

Definition agree {A} (l l' : list A) (a n : nat) : Prop := forall i, (a <= i < a + n)%nat -> l' !! i = l !! i.

Lemma agree_bytes (l l' : list Z) (o : nat) s : has_bytes l (Z.of_nat o) s -> agree l l' o (length s) -> length l' = length l -> has_bytes l' (Z.of_nat o) s.
Proof.
  intros H Ha Hl. pose proof (has_bytes_bound _ _ _ H) as Hb. destruct H as (pre & post & -> & E). exists (take o l'), (drop (o + length s) l'). unfold zlen in *. split; [|rewrite length_take, Hl, !length_app; rewrite !length_app in Hb; lia].
  rewrite <- (take_drop o l') at 1. f_equal. rewrite <- drop_drop. rewrite <- (take_drop (length s) (drop o l')) at 1. f_equal. apply list_eq. intros i. destruct (decide (i < length s)%nat) as [Hi|Hi].
  - rewrite lookup_take_lt, lookup_drop by done. rewrite Ha by lia. rewrite lookup_app_r by lia. replace (o + i - length pre)%nat with i by lia. by rewrite lookup_app_l.
  - rewrite lookup_take_ge by lia. symmetry. apply lookup_ge_None. lia.
Qed.

(** The memory is the same but for the cell [dest], [n] cells from [contpos] and [m] characters from [strpos] on. *)
Definition only (dest contpos n strpos m : nat) (o o' : list XML_Content * list Z) : Prop :=
  length o'.1 = length o.1 /\ length o'.2 = length o.2 /\ (forall i, i <> dest -> ~ (contpos <= i < contpos + n)%nat -> o'.1 !! i = o.1 !! i) /\ (forall i, ~ (strpos <= i < strpos + m)%nat -> o'.2 !! i = o.2 !! i).

(** ** [build_node] *)

(** What is written shows [t], whatever happens to the rest of the memory later. *)
Definition writes (t : tree) (dest contpos strpos : nat) (cells cells' : list XML_Content) (strs strs' : list Z) : Prop :=
  only dest contpos (tsize t - 1) strpos (tstr t) (cells, strs) (cells', strs')
  /\ forall cells2 strs2, length strs2 = length strs' -> cells2 !! dest = cells' !! dest -> agree cells' cells2 contpos (tsize t - 1) -> agree strs' strs2 strpos (tstr t) -> shown cells2 strs2 t dest.

Definition builds (fuel : nat) (s : list CONTENT_SCAFFOLD) (t : tree) : Prop :=
  forall src sib dest contpos strpos cells strs, rep (s !!.) t src sib -> leaves t -> (tsize t <= fuel)%nat -> (dest < contpos)%nat -> (dest < length cells)%nat -> (contpos + (tsize t - 1) <= length cells)%nat -> (strpos + tstr t <= length strs)%nat -> Z.of_nat (tsize t) < 2 ^ 32 ->
  exists cells' strs', build_node fuel s (Z.of_nat src) (Z.of_nat dest) (Z.of_nat contpos, Z.of_nat strpos, cells, strs) = Ok (Z.of_nat (contpos + (tsize t - 1)), Z.of_nat (strpos + tstr t), cells', strs') /\ writes t dest contpos strpos cells cells' strs strs'.

Lemma fsize_length l : (length l <= fsize l)%nat.
Proof. induction l as [|t l IH]; cbn; [done|]. pose proof (tsize_pos t). lia. Qed.

Lemma build_children_ok fuel s ch : Forall (builds fuel s) ch -> forall c cn dest contpos strpos cells strs, (ch <> [] -> cn = Z.of_nat c) -> reps (s !!.) ch c 0 -> all_leaves ch -> (fsize ch <= fuel)%nat -> (dest + length ch <= contpos)%nat ->
  (contpos + (fsize ch - length ch) <= length cells)%nat -> (strpos + sum_list_with tstr ch <= length strs)%nat -> Z.of_nat (fsize ch) < 2 ^ 32 ->
  exists cells' strs', build_children (build_node fuel s) s (length ch) cn (Z.of_nat dest) (Z.of_nat contpos, Z.of_nat strpos, cells, strs) = Ok (Z.of_nat (contpos + (fsize ch - length ch)), Z.of_nat (strpos + sum_list_with tstr ch), cells', strs')
    /\ length cells' = length cells /\ length strs' = length strs /\ (forall i, ~ (dest <= i < dest + length ch)%nat -> ~ (contpos <= i < contpos + (fsize ch - length ch))%nat -> cells' !! i = cells !! i) /\ (forall i, ~ (strpos <= i < strpos + sum_list_with tstr ch)%nat -> strs' !! i = strs !! i)
    /\ forall cells2 strs2, length strs2 = length strs' -> agree cells' cells2 dest (length ch) -> agree cells' cells2 contpos (fsize ch - length ch) -> agree strs' strs2 strpos (sum_list_with tstr ch) -> all_shown cells2 strs2 ch dest.
Proof.
  induction 1 as [|t ch Ht _ IH]; intros c cn dest contpos strpos cells strs Hcn Hrep Hleaf Hfuel Hdest Hcells Hstrs Hsz; cbn [build_children length sum_list_with reps all_leaves] in *; [exists cells, strs; rewrite !Nat.add_0_r; done|]. rewrite (Hcn ltac:(done)). destruct Hrep as [Hrt Hrch], Hleaf as [Hlt Hlch]. pose proof (tsize_pos t) as Hpos. pose proof (fsize_length ch) as Hfl.
  destruct (Ht c _ dest contpos strpos cells strs Hrt Hlt ltac:(lia) ltac:(lia) ltac:(lia) ltac:(lia) ltac:(lia) ltac:(lia)) as (cells1 & strs1 & E1 & (L1 & L2 & L3 & L4) & Hst). cbn [fst snd] in *. rewrite E1. cbn [rbind].
  assert (Hc : exists r, s !! c = Some r /\ (ch <> [] -> sc_nextsib r = Z.of_nat (c + tsize t))) by (destruct t; apply rep_unfold in Hrt as (r & Hr & _ & _ & Hsib & _); exists r; split; [done|]; intros Hne; rewrite Hsib; by destruct ch). destruct Hc as (r & Hr & Hsib). rewrite (get_at_ok (Some s) c r Hr). cbn [rbind].
  replace (Z.of_nat dest + 1) with (Z.of_nat (S dest)) by lia. destruct (IH (c + tsize t)%nat (sc_nextsib r) (S dest) (contpos + (tsize t - 1))%nat (strpos + tstr t)%nat cells1 strs1 Hsib Hrch Hlch ltac:(lia) ltac:(lia) ltac:(lia) ltac:(lia) ltac:(lia)) as (cells' & strs' & E & K1 & K2 & K3 & K4 & Hall).
  exists cells', strs'. split; [rewrite E; do 4 f_equal; lia|]. split; [congruence|]. split; [congruence|]. split; [intros i H1 H2; rewrite K3 by lia; apply L3; lia|]. split; [intros i H1; rewrite K4 by lia; apply L4; lia|].
  intros cells2 strs2 Hlen A1 A2 A3. split.
  - apply Hst; [congruence|rewrite (A1 dest) by lia; apply K3; lia|intros i Hi; rewrite (A2 i) by lia; apply K3; lia|intros i Hi; rewrite (A3 i) by lia; apply K4; lia].
  - apply Hall; [done|intros i Hi; apply A1; lia|intros i Hi; apply A2; lia|intros i Hi; apply A3; lia].
Qed.

Lemma build_node_ok s t : forall fuel, builds fuel s t.
Proof.
  induction t as [ty q nm ch IH] using tree_induction. intros [|fuel] src sib dest contpos strpos cells strs Hrep Hleaf Hfuel Hdest Hdl Hcells Hstrs Hsz; [cbn in Hfuel; lia|]. cbn [tsize tstr] in *. rewrite Nat.sub_succ, Nat.sub_0_r in *. apply rep_unfold in Hrep as (r & Hr & Hty & Hq & _ & Hnm & (L1 & L2 & _) & Hch). destruct Hleaf as [Hleaf Hleaves]. change (all_leaves ch) in Hleaves.
  cbn [build_node]. rewrite (get_at_ok (Some s) src r Hr). cbn [rbind]. destruct (lookup_lt_is_Some_2 cells dest Hdl) as [old Hold]. rewrite (get_at_ok (Some cells) dest old Hold). cbn [rbind]. destruct nm as [n|].
  - destruct Hnm as [Hname Hn]. rewrite (Hleaf ltac:(done)) in *. cbn [sum_list_with] in *. rewrite bool_decide_true by done. rewrite Hn, copy_name_ok by (unfold zlen; lia). cbn [rbind]. rewrite store_ok by (unfold zlen; lia). cbn [rbind]. rewrite Nat2Z.id, !Nat.add_0_r. assert (Hln : zlen (n ++ [0]) = Z.of_nat (S (length n))) by (rewrite zlen_app; unfold zlen; cbn; lia).
    eexists _, _. split; [do 4 f_equal; unfold zlen; lia|]. assert (Hls : length (splice strs (Z.of_nat strpos) (n ++ [0])) = length strs) by (pose proof (zlen_splice strs (Z.of_nat strpos) (n ++ [0])) as H; unfold zlen in H, Hln; lia). split.
    + split; [cbn [fst snd]; by rewrite length_insert|]. split; [exact Hls|]. cbn [fst snd]. split; [intros i Hi _; by rewrite list_lookup_insert_ne|]. intros i Hi. unfold splice. rewrite Nat2Z.id. cbn [tstr] in Hi. destruct (decide (i < strpos)%nat) as [Hlt|Hge]; [rewrite lookup_app_l by (rewrite length_take; lia); by rewrite lookup_take_lt|].
      rewrite lookup_app_r by (rewrite length_take; lia). rewrite length_take_le by lia. rewrite lookup_app_r by (unfold zlen in Hln; lia). rewrite lookup_drop. f_equal. cbn in Hi. unfold zlen in *. lia.
    + intros cells2 strs2 Hlen A1 A2 A3. eexists. rewrite A1, list_lookup_insert_eq by done. split; [done|]. cbn. split; [done|]. split; [done|]. split; [done|]. split; [done|]. split; [done|]. eexists. split; [done|]. apply (agree_bytes (splice strs (Z.of_nat strpos) (n ++ [0]))); [apply has_bytes_splice; [lia|rewrite Hln; unfold zlen; lia]| |by rewrite Hlen].
      replace (length (n ++ [0])) with (S (length n)) by (unfold zlen in Hln; lia). intros i Hi. apply A3. cbn. lia.
  - rewrite bool_decide_false by exact Hnm. cbv zeta. assert (Hu : u32 (sc_childcnt r) = zlen ch) by (rewrite L1; unfold u32; apply Z.mod_small; pose proof (fsize_length ch); unfold zlen; lia). rewrite Hu. rewrite store_ok by (unfold zlen; lia). cbn [rbind]. rewrite Nat2Z.id. set (cell := {| c_type := sc_type r; c_quant := sc_quant r; c_name := c_name old; c_numchildren := zlen ch; c_children := Some (Z.of_nat contpos) |}).
    replace (Z.to_nat (zlen ch)) with (length ch) by (unfold zlen; lia). replace (Z.of_nat contpos + zlen ch) with (Z.of_nat (contpos + length ch)) by (unfold zlen; lia). pose proof (fsize_length ch) as Hfl. cbn [Nat.add] in *.
    destruct (build_children_ok fuel s ch (Forall_impl _ _ _ IH (fun t H => H fuel)) (S src) (sc_firstchild r) contpos (contpos + length ch)%nat strpos (<[dest := cell]> cells) strs) as (cells' & strs' & E & K1 & K2 & K3 & K4 & Hall); [intros Hne; rewrite L2; by destruct ch|done|done|lia|lia|rewrite length_insert; lia|lia|lia|].
    rewrite E. cbn [rbind]. rewrite length_insert in K1. assert (Hd : cells' !! dest = Some cell) by (rewrite K3 by lia; by apply list_lookup_insert_eq). rewrite (get_at_ok (Some cells') dest cell Hd). cbn [rbind]. rewrite store_ok by (unfold zlen; lia). cbn [rbind]. rewrite Nat2Z.id. replace (contpos + length ch + (fsize ch - length ch))%nat with (contpos + fsize ch)%nat by lia.
    eexists _, _. split; [done|]. split.
    + split; [cbn [fst snd]; rewrite length_insert; lia|]. split; [exact K2|]. cbn [fst snd tsize tstr]. rewrite Nat.sub_succ, Nat.sub_0_r. split; [|intros i Hi; apply K4; cbn in Hi; lia]. intros i Hi Hr'. rewrite list_lookup_insert_ne by done. rewrite K3 by lia. by rewrite list_lookup_insert_ne.
    + cbn [tsize tstr]. rewrite Nat.sub_succ, Nat.sub_0_r. intros cells2 strs2 Hlen A1 A2 A3. eexists. rewrite A1, list_lookup_insert_eq by lia. split; [done|]. cbn. split; [done|]. split; [done|]. split; [done|]. split; [done|]. exists contpos. split; [done|]. change (all_shown cells2 strs2 ch contpos).
      apply Hall; [done| | |intros i Hi; apply A3; cbn; lia]; intros i Hi; rewrite A2 by lia; rewrite list_lookup_insert_ne by lia; done.
Qed.
