(* ===== verification/ExpatModelRun.v ===== *)
(** * Element declarations

    The tokens of an element declaration, through the prolog machine and the scaffold:
    the application gets the content model that the tokens write. *)

From S2P Require Import Prelude ExpatRole ExpatModel ExpatModelTree ExpatModelStep ExpatModelGroup ExpatModelBuild.

(** ** Content models as they are written *)

Inductive cp := CName (q : XML_Content_Quant) (n : list Z) | CGroup (choice : bool) (q : XML_Content_Quant) (items : list cp).

Section cp_rect.
  Context (P : cp -> Prop) (Hname : forall q n, P (CName q n)) (Hgroup : forall choice q items, Forall P items -> P (CGroup choice q items)).

Fixpoint cp_induction (e : cp) : P e :=
  match e with
  | CName q n => Hname q n
  | CGroup choice q items => Hgroup choice q items ((fix all (l : list cp) : Forall P l := match l with [] => Forall_nil_2 P | e :: l => Forall_cons_2 P e l (cp_induction e) (all l) end) items)
  end.
End cp_rect.

(** Groups are not empty. *)
Fixpoint cp_ok (e : cp) : Prop :=
  match e with CName _ _ => True | CGroup _ _ items => items <> [] /\ (fix all (l : list cp) : Prop := match l with [] => True | e :: l => cp_ok e /\ all l end) items end.

(** Mixed content: names, with an asterisk at the end. *)
Inductive content_model := Children (choice : bool) (q : XML_Content_Quant) (items : list cp) | Mixed (names : list (list Z)) (star : bool).

Definition model_ok (m : content_model) : Prop :=
  match m with Children choice q items => cp_ok (CGroup choice q items) | Mixed names star => names <> [] -> star = true end.

(** The type of a group with the items [l]: one item alone is a sequence. *)
Definition type_of {A} (choice : bool) (l : list A) : XML_Content_Type := match l with [] | [_] => XML_CTYPE_SEQ | _ => group_type choice end.

Fixpoint tree_of (e : cp) : tree :=
  match e with
  | CName q n => Tree XML_CTYPE_NAME q (Some n) []
  | CGroup choice q items => Tree (type_of choice items) q None (map tree_of items)
  end.

Definition name_leaf (n : list Z) : tree := Tree XML_CTYPE_NAME XML_CQUANT_NONE (Some n) [].

Definition model_tree (m : content_model) : tree :=
  match m with
  | Children choice q items => tree_of (CGroup choice q items)
  | Mixed names star => Tree XML_CTYPE_MIXED (if star then XML_CQUANT_REP else XML_CQUANT_NONE) None (map name_leaf names)
  end.

(** ** Tokens *)

Definition plain (t : XML_TOK) : token := {| t_tok := t; t_text := []; t_name := None |}.

Definition name_token (q : XML_Content_Quant) (n : list Z) : token :=
  {| t_tok := match q with XML_CQUANT_NONE => XML_TOK_NAME | XML_CQUANT_OPT => XML_TOK_NAME_QUESTION | XML_CQUANT_REP => XML_TOK_NAME_ASTERISK | XML_CQUANT_PLUS => XML_TOK_NAME_PLUS end; t_text := n; t_name := Some n |}.

Definition close_token (q : XML_Content_Quant) : token :=
  plain match q with XML_CQUANT_NONE => XML_TOK_CLOSE_PAREN | XML_CQUANT_OPT => XML_TOK_CLOSE_PAREN_QUESTION | XML_CQUANT_REP => XML_TOK_CLOSE_PAREN_ASTERISK | XML_CQUANT_PLUS => XML_TOK_CLOSE_PAREN_PLUS end.

Definition connector_token (choice : bool) : token := plain (if choice then XML_TOK_OR else XML_TOK_COMMA).

Fixpoint cp_tokens (e : cp) : list token :=
  match e with
  | CName q n => [name_token q n]
  | CGroup choice q items =>
      plain XML_TOK_OPEN_PAREN :: (fix join (l : list cp) : list token := match l with [] => [] | [e] => cp_tokens e | e :: l => cp_tokens e ++ connector_token choice :: join l end) items ++ [close_token q]
  end.

Section Join.
  Context (choice : bool).

Fixpoint join (l : list cp) : list token := match l with [] => [] | [e] => cp_tokens e | e :: l => cp_tokens e ++ connector_token choice :: join l end.

End Join.

(** Text of ASCII characters in the encoding. *)
Definition ascii_text (enc : encoding) (s : list Z) : list Z :=
  match enc with Normal => s | Little2 => s ≫= (fun c => [c; 0]) | Big2 => s ≫= (fun c => [0; c]) end.

Definition pcdata_token (enc : encoding) : token := {| t_tok := XML_TOK_POUND_NAME; t_text := ascii_text enc (str "#PCDATA"); t_name := None |}.

Definition model_tokens (enc : encoding) (m : content_model) : list token :=
  match m with
  | Children choice q items => cp_tokens (CGroup choice q items)
  | Mixed names star => plain XML_TOK_OPEN_PAREN :: pcdata_token enc :: (names ≫= (fun n => [plain XML_TOK_OR; name_token XML_CQUANT_NONE n])) ++ [close_token (if star then XML_CQUANT_REP else XML_CQUANT_NONE)]
  end.

Section Run.
  Context (grant : nat -> bool) (junk_node : CONTENT_SCAFFOLD) (junk_cell : XML_Content) (junk : Z) (enc : encoding).
  Abbreviation fail := (exists k, grant k = false).
  Abbreviation declare := (declare grant junk_node junk_cell junk true enc).
  Abbreviation action := (role_action grant junk_node junk_cell junk true).

(** ** Sequences of tokens *)

(** The tokens lead to a state that [Q] holds of, unless memory runs out. *)
Definition runs (ts : list token) (ps : PROLOG_STATE) (d : decl) (ps' : PROLOG_STATE) (Q : decl -> Prop) : Prop :=
  forall rest, (exists d', Q d' /\ declare (ts ++ rest) ps d = declare rest ps' d') \/ (exists ps1 d1, declare (ts ++ rest) ps d = Ok (NoMemory, ps1, d1) /\ fail).

Lemma runs_app ts1 ts2 ps d ps1 Q1 ps2 Q2 : runs ts1 ps d ps1 Q1 -> (forall d1, Q1 d1 -> runs ts2 ps1 d1 ps2 Q2) -> runs (ts1 ++ ts2) ps d ps2 Q2.
Proof using Type.
  intros H1 H2 rest. rewrite <- app_assoc. destruct (H1 (ts2 ++ rest)) as [(d1 & Hq & E)|H]; [|by right]. rewrite E. by apply H2.
Qed.

(** One token with its role. *)
Lemma runs_one t ps d role ps' Q : XmlTokenRole enc ps (t_tok t) (t_text t) = (role, ps') -> (exists o d', action role (level ps') (t_name t) d = Ok (o, d') /\ (o = NoMemory /\ fail \/ o = Continue /\ Q d')) -> runs [t] ps d ps' Q.
Proof using Type.
  intros Hrole (o & d' & E & H) rest. cbn [app ExpatModel.declare]. rewrite Hrole, E. cbn [rbind]. destruct H as [[-> Hf]|[-> Hq]]; [right; eauto|left; eauto].
Qed.

(** ** Inside a group *)

Record in_group (d : decl) (l p : nat) (ty : XML_Content_Type) (ch : list tree) (x : Z) : Prop := {
  ig_good : good d;
  ig_level : scaffLevel d = Z.of_nat (S l);
  ig_size : Z.of_nat (S l) < groupSize d;
  ig_index : index_at d l = Some (Z.of_nat p);
  ig_open : open_at d p ty ch;
  ig_connector : connector_at d (S l) = Some x;
  ig_in : in_eldecl d = true }.

(** Where an item may begin: after a connector, or first in the whole model. *)
Definition at_item (ps : PROLOG_STATE) (l : nat) : Prop :=
  level ps = Z.of_nat (S l) /\ (handler ps = H_element6 \/ handler ps = H_element2 /\ l = 0%nat).

(** What an item adds. *)
Definition added (l p : nat) (ty : XML_Content_Type) (ch : list tree) (x : Z) (d : decl) (t : tree) (d' : decl) : Prop :=
  in_group d' l p ty (ch ++ [t]) x /\ frame (S l) p d d' /\ contentStringLen d' = contentStringLen d + Z.of_nat (tstr t).

(** The sizes stay small. *)
Definition small (d : decl) (l : nat) (t : tree) : Prop :=
  scaffCount d + Z.of_nat (tsize t) < 2 ^ 29 /\ Z.of_nat l + Z.of_nat (tsize t) < 2 ^ 29 /\ 0 <= contentStringLen d /\ contentStringLen d + Z.of_nat (tstr t) < 2 ^ 32.

Lemma role_of_name ps l q n : at_item ps l -> exists role, XmlTokenRole enc ps (t_tok (name_token q n)) (t_text (name_token q n)) = (role, goto H_element7 ps) /\ forall lev name d, action role lev name d = content_element grant junk_node junk q name d.
Proof using Type. intros [_ H]. unfold XmlTokenRole. destruct H as [->|[-> _]]; destruct q; eexists; (split; [reflexivity|done]). Qed.

Lemma name_runs q n ps d l p ty ch x : in_group d l p ty ch x -> at_item ps l -> small d l (Tree XML_CTYPE_NAME q (Some n) []) -> runs [name_token q n] ps d (goto H_element7 ps) (added l p ty ch x d (Tree XML_CTYPE_NAME q (Some n) [])).
Proof using Type.
  intros [Hg Hl Hsz Hi Ho Hc Hin] Hat (S1 & S2 & S3 & S4). destruct (role_of_name ps l q n Hat) as (role & Hrole & Hact). eapply runs_one; [exact Hrole|]. rewrite Hact. cbn [name_token t_name]. cbn [tsize tstr sum_list_with] in *.
  destruct (content_element_ok grant junk_node junk d l p ty ch q n Hg ltac:(lia) Hl Hi Ho ltac:(lia) Hin) as (o & d' & E & [H|(-> & Hg' & Ho' & Hf & Hl' & Hs' & Hlen)]); exists o, d' || exists Continue, d'; (split; [done|]); [by left|right]. split; [done|].
  split; [|split; [done|rewrite Hlen; unfold u32; cbn [tstr sum_list_with]; rewrite Z.mod_small; unfold zlen; lia]]. split; [done|congruence|lia|rewrite (f_index _ _ _ _ Hf) by lia; done|done|rewrite (f_connector _ _ _ _ Hf) by lia; done|rewrite (f_in _ _ _ _ Hf); done].
Qed.

Lemma connect_runs choice ps d l p ty ch x : in_group d l p ty ch x -> handler ps = H_element7 -> level ps = Z.of_nat (S l) -> x = 0 /\ ty = XML_CTYPE_SEQ \/ x = connector choice /\ ty = group_type choice ->
  runs [connector_token choice] ps d (goto H_element6 ps) (fun d' => in_group d' l p (group_type choice) ch (connector choice) /\ frame l p d d' /\ contentStringLen d' = contentStringLen d).
Proof using Type.
  intros [Hg Hl Hsz Hi Ho Hc Hin] Hh Hlev Hcase. destruct (group_connect_ok choice d l p ty ch x Hg Hl Hsz Hi Ho Hc Hin Hcase) as (d' & E & Hg' & Hl' & Hs' & Hlen & Ho' & Hc' & Hf & Hi'). apply (runs_one _ _ _ (if choice then XML_ROLE_GROUP_CHOICE else XML_ROLE_GROUP_SEQUENCE)); [unfold XmlTokenRole; rewrite Hh; by destruct choice|].
  exists Continue, d'. split; [cbn [goto level]; rewrite Hlev, <- E; by destruct choice|]. right. split; [done|]. split; [|done]. split; try done; [congruence|lia|congruence|rewrite (f_in _ _ _ _ Hf); done].
Qed.

(** ** Lists of items *)

Definition item_runs (e : cp) : Prop := cp_ok e -> forall ps d l p ty ch x, in_group d l p ty ch x -> at_item ps l -> small d l (tree_of e) -> runs (cp_tokens e) ps d (goto H_element7 ps) (added l p ty ch x d (tree_of e)).

Definition all_small (d : decl) (l : nat) (ts : list tree) : Prop :=
  scaffCount d + Z.of_nat (fsize ts) < 2 ^ 29 /\ Z.of_nat l + Z.of_nat (fsize ts) < 2 ^ 29 /\ 0 <= contentStringLen d /\ contentStringLen d + Z.of_nat (sum_list_with tstr ts) < 2 ^ 32.

Definition items_added (choice : bool) (items : list cp) (l p : nat) (ty : XML_Content_Type) (ch : list tree) (d d' : decl) : Prop :=
  (exists x, in_group d' l p (match items with [] | [_] => ty | _ => group_type choice end) (ch ++ map tree_of items) x) /\ frame l p d d' /\ contentStringLen d' = contentStringLen d + Z.of_nat (sum_list_with tstr (map tree_of items)).

Lemma frame_less l l' c d d' : frame l c d d' -> (l' <= l)%nat -> frame l' c d d'.
Proof using Type. intros H Hl. eapply frame_trans; [apply frame_refl|exact H|done|done]. Qed.

Lemma count_open d l p ty ch x : in_group d l p ty ch x -> scaffCount d = Z.of_nat (S p + fsize ch).
Proof using Type. intros H. by destruct (ig_open _ _ _ _ _ _ H) as (_ & ? & _). Qed.

Lemma join_runs choice items : items <> [] -> Forall item_runs items -> Forall cp_ok items -> forall ps d l p ty ch x, in_group d l p ty ch x -> at_item ps l -> x = 0 /\ ty = XML_CTYPE_SEQ \/ x = connector choice /\ ty = group_type choice -> all_small d l (map tree_of items) ->
  runs (join choice items) ps d (goto H_element7 ps) (items_added choice items l p ty ch d).
Proof using Type.
  induction items as [|e items IH]; intros Hne Hruns Hok ps d l p ty ch x Hin Hat Hcase (S1 & S2 & S3 & S4); [done|]. inversion Hruns as [|? ? He Hes]; subst. inversion Hok as [|? ? Hoe Hoes]; subst. cbn [map sum_list_with] in *. pose proof (tsize_pos (tree_of e)) as Hpos. assert (Hsm : small d l (tree_of e)) by (split; [lia|]; split; [lia|]; split; lia).
  pose proof (He Hoe ps d l p ty ch x Hin Hat Hsm) as Hfirst. destruct items as [|e2 items].
  - cbn [join]. intros rest. destruct (Hfirst rest) as [(d' & (Hg & Hf & Hlen) & E)|H]; [left|by right]. exists d'. split; [|done]. split; [by exists x|]. split; [eapply frame_less; [exact Hf|lia]|]. rewrite Hlen. cbn [map sum_list_with]. lia.
  - change (join choice (e :: e2 :: items)) with (cp_tokens e ++ [connector_token choice] ++ join choice (e2 :: items)). eapply runs_app; [exact Hfirst|]. intros d1 (Hg1 & Hf1 & Hlen1). eapply runs_app; [eapply connect_runs; [exact Hg1|done|by destruct Hat|exact Hcase]|]. intros d2 (Hg2 & Hf2 & Hlen2). cbv beta.
    pose proof (count_open _ _ _ _ _ _ Hin) as C0. pose proof (count_open _ _ _ _ _ _ Hg2) as C2. rewrite fsize_app in C2. cbn [sum_list_with] in C2.
    assert (Hnext : runs (join choice (e2 :: items)) (goto H_element6 (goto H_element7 ps)) d2 (goto H_element7 (goto H_element6 (goto H_element7 ps))) (items_added choice (e2 :: items) l p (group_type choice) (ch ++ [tree_of e]) d2)) by (eapply IH; [done|done|done|exact Hg2|split; [by destruct Hat|by left]|by right|split; [lia|]; split; [lia|]; split; lia]).
    intros rest. destruct (Hnext rest) as [(d' & ([y Hg3] & Hf3 & Hlen3) & E)|H]; [left|by right]. exists d'. split; [|exact E]. split; [|split].
    + exists y. rewrite <- app_assoc in Hg3. by destruct items.
    + eapply frame_trans; [eapply frame_less; [exact Hf1|]|eapply frame_trans; [exact Hf2|exact Hf3|done|done]|done|done]. lia.
    + rewrite Hlen3, Hlen2, Hlen1. cbn [map sum_list_with]. lia.
Qed.

(** ** Groups *)

Lemma role_of_close ps q : handler ps = H_element7 -> exists role, XmlTokenRole enc ps (t_tok (close_token q)) (t_text (close_token q)) = (role, close_group ps) /\ forall lev name d, action role lev name d = group_close grant junk_cell junk true q d.
Proof using Type. intros H. unfold XmlTokenRole. rewrite H. destruct q; eexists; (split; [reflexivity|done]). Qed.

Lemma all_cp_ok items : (fix all (l : list cp) : Prop := match l with [] => True | e :: l => cp_ok e /\ all l end) items -> Forall cp_ok items.
Proof using Type. induction items as [|e items IH]; [constructor|]. intros [H1 H2]. constructor; [done|by apply IH]. Qed.

Lemma close_child_runs d0 d ps l p ty ch q c ty2 ch2 x y : in_group d0 l p ty ch x -> in_group d (S l) c ty2 ch2 y -> linked d p ty ch c -> frame (S l) p d0 d -> handler ps = H_element7 -> level ps = Z.of_nat (S (S l)) -> Z.of_nat (S (S l)) < 2 ^ 32 ->
  runs [close_token q] ps d (set_level (Z.of_nat (S l)) ps) (fun d' => in_group d' l p ty (ch ++ [Tree ty2 q None ch2]) x /\ frame (S l) p d0 d' /\ contentStringLen d' = contentStringLen d).
Proof using Type.
  intros Hin0 [Hg Hl Hsz Hi Ho Hc Hin] Hlk Hfr Hh Hlev Hb. destruct (role_of_close ps q Hh) as (role & Hrole & Hact). assert (Hps : close_group ps = set_level (Z.of_nat (S l)) ps) by (unfold close_group; rewrite Hlev; unfold u32; rewrite Z.mod_small by lia; replace (Z.of_nat (S (S l)) - 1) with (Z.of_nat (S l)) by lia; cbn [set_level level]; by replace (Z.of_nat (S l) =? 0) with false by (symmetry; apply Z.eqb_neq; lia)). rewrite Hps in Hrole.
  eapply runs_one; [exact Hrole|]. rewrite Hact. unfold group_close. rewrite Hin. cbn [negb]. destruct (close_node d (S l) c ty2 ch2 q Hg Hl Hi Ho Hin) as (d' & E & Hg' & Hl' & Hs' & Hlen & Hrep & Hcnt & Hf). rewrite Hin in E. cbn [set_decl scaffLevel in_eldecl contentStringLen asked] in *. destruct (change_open _ _ _) as [d1|]; [|done]. cbn [rbind] in *. injection E as E. subst d1. rewrite Hl'. replace (Z.of_nat (S l) =? 0) with false by (symmetry; apply Z.eqb_neq; lia). cbn [negb]. exists Continue, d'. split; [done|]. right. split; [done|].
  assert (Hc' : c = (S p + fsize ch)%nat) by (by destruct Hlk as (_ & ? & _)). assert (Hf' : frame (S l) p d0 d') by (eapply frame_trans; [exact Hfr|exact Hf|done|lia]). destruct Hin0 as [G0 L0 Z0 I0 O0 C0 N0]. split; [|done]. split; [done|done|lia|rewrite (f_index _ _ _ _ Hf') by lia; done| |rewrite (f_connector _ _ _ _ Hf') by lia; done|rewrite (f_in _ _ _ _ Hf'); done].
  eapply linked_closed; [by eapply linked_frame|exact Hrep|]. rewrite Hcnt. destruct Ho as (_ & -> & _). cbn. lia.
Qed.

Lemma group_runs choice q items : Forall item_runs items -> item_runs (CGroup choice q items).
Proof using Type.
  intros Hitems [Hne Hok] ps d l p ty ch x Hin Hat (S1 & S2 & S3 & S4). cbn [tree_of tsize tstr Nat.add] in *. apply all_cp_ok in Hok. destruct Hin as [Hg Hl Hsz Hi Ho Hc Hine] eqn:Hin_eq. clear Hin_eq.
  change (cp_tokens (CGroup choice q items)) with ([plain XML_TOK_OPEN_PAREN] ++ join choice items ++ [close_token q]). set (ps1 := set_level (Z.of_nat (S (S l))) (goto H_element6 ps)).
  assert (Hopen : runs [plain XML_TOK_OPEN_PAREN] ps d ps1 (fun d1 => opened (S l) (S p + fsize ch) d d1 /\ linked d1 p ty ch (S p + fsize ch) /\ frame (S l) p d d1)).
  { apply (runs_one _ _ _ XML_ROLE_GROUP_OPEN).
    - destruct Hat as [Hlev [Hh|[Hh ->]]]; unfold XmlTokenRole; cbn [plain t_tok t_text]; rewrite Hh; cbn [handler_fun element6 element2].
      + f_equal. unfold ps1, set_level, goto. cbn. rewrite Hh, Hlev. f_equal. unfold u32. rewrite Z.mod_small; lia.
      + done.
    - cbn [ps1 set_level level plain t_name role_action]. destruct (group_open_child grant junk_node junk d l p ty ch Hg Hl Hsz ltac:(lia) Hi Ho ltac:(lia) Hine) as (o & d' & E & H). exists o, d'. split; [exact E|]. exact H. }
  eapply runs_app; [exact Hopen|]. intros d1 ([O1 O2 O3 O4 O5 O6 [O7 O8]] & Hlk & Hfr). set (c := (S p + fsize ch)%nat) in *. assert (Hin1 : in_group d1 (S l) c XML_CTYPE_SEQ [] 0) by (split; try done; congruence).
  pose proof (count_open _ _ _ _ _ _ Hin1) as C1. pose proof (ig_open _ _ _ _ _ _ Hin) as (_ & C0 & _). cbn [sum_list_with] in C1. assert (Ec : Z.of_nat c = scaffCount d) by (unfold c; lia). eapply runs_app; [apply (join_runs choice items Hne Hitems Hok ps1 d1 (S l) c XML_CTYPE_SEQ [] 0 Hin1); [by split; [|left]|by left|split; [lia|]; split; [lia|]; split; lia]|].
  intros d2 ([y Hin2] & Hf2 & Hlen2). cbn [app] in Hin2. assert (Hfin : runs [close_token q] (goto H_element7 ps1) d2 (set_level (Z.of_nat (S l)) (goto H_element7 ps1)) (fun d' => in_group d' l p ty (ch ++ [Tree (type_of choice items) q None (map tree_of items)]) x /\ frame (S l) p d d' /\ contentStringLen d' = contentStringLen d2)).
  { eapply close_child_runs; [exact Hin|by destruct items as [|? [|? ?]]|eapply linked_frame; [exact Hlk|exact Hf2]|apply (frame_trans (S l) p (S l) c d d1 d2 Hfr Hf2); [done|unfold c; lia]|done|done|lia]. }
  assert (Eps : set_level (Z.of_nat (S l)) (goto H_element7 ps1) = goto H_element7 ps) by (destruct Hat as [Hlev _]; unfold ps1, set_level, goto; cbn; by rewrite Hlev). rewrite Eps in Hfin.
  intros rest. destruct (Hfin rest) as [(d' & (Hg3 & Hf3 & Hlen3) & E)|H]; [left|by right]. exists d'. split; [|done]. split; [done|]. split; [done|]. rewrite Hlen3, Hlen2, O7. cbn [tstr]. lia.
Qed.

Lemma items_run e : item_runs e.
Proof using Type. induction e as [q n|choice q items IH] using cp_induction; [|by apply group_runs]. intros _ ps d l p ty ch x Hin Hat Hs. by apply name_runs. Qed.

(** ** The whole declaration *)

Lemma leaves_all f (l : list cp) : Forall (fun e => leaves (f e)) l -> all_leaves (map f l).
Proof using Type. induction 1 as [|e l He _ IH]; [done|]. by split. Qed.

Lemma leaves_tree e : leaves (tree_of e).
Proof using Type. induction e as [q n|choice q items IH] using cp_induction; [by split|]. split; [done|]. change (all_leaves (map tree_of items)). by apply leaves_all. Qed.

Lemma leaves_model m : leaves (model_tree m).
Proof using Type. destruct m as [choice q items|names star]; [apply (leaves_tree (CGroup choice q items))|]. split; [done|]. change (all_leaves (map name_leaf names)). induction names as [|n names IH]; [done|]. by split. Qed.

(** Between declarations. *)
Definition ready (d : decl) : Prop := good d /\ contentStringLen d = 0.

(** The application has the tree [t], in a block of the right size. *)
Definition delivered (t : tree) (m : built) : Prop :=
  shown (m_cells m) (m_strings m) t 0 /\ length (m_cells m) = tsize t /\ length (m_strings m) = tstr t.

(** The cells and names take less than 2^31 bytes. *)
Definition fits_int (t : tree) : Prop := Z.of_nat (tsize t) * sizeof_cell + Z.of_nat (tstr t) < 2 ^ 31.

Lemma build_model_ok d t : good d -> rep (node_at d) t 0 0 -> leaves t -> scaffCount d = Z.of_nat (tsize t) -> contentStringLen d = Z.of_nat (tstr t) -> fits_int t ->
  exists o d', build_model grant junk_cell junk d = Ok (o, d') /\ d' = set_decl d (scaffLevel d) (contentStringLen d) (in_eldecl d) (S (asked d)) /\ match o with None => fail | Some m => delivered t m end.
Proof using Type.
  intros Hg Hrep Hleaf Hcnt Hlen Hfit. unfold fits_int, sizeof_cell in Hfit. unfold build_model. rewrite Hcnt, Hlen. unfold sizeof_cell. assert (Hs : s32 (Z.of_nat (tsize t) * 32 + Z.of_nat (tstr t)) = Z.of_nat (tsize t) * 32 + Z.of_nat (tstr t)) by (unfold s32; rewrite Z.mod_small; lia). rewrite Hs. cbn [set_decl asked pred]. destruct (grant (asked d)) eqn:Eg; cbn [negb orb]; [|eexists None, _; split; [done|]; split; [done|eauto]].
  replace (Z.of_nat (tsize t) * 32 + Z.of_nat (tstr t) <? 0) with false by lia. cbv zeta. cbn [set_decl scaffCount scaffold]. rewrite Hcnt. assert (Hsc : exists s, scaffold d = Some s) by (destruct t; apply rep_unfold in Hrep as (r & Hr & _); unfold node_at in Hr; destruct (scaffold d); [eauto|done]). destruct Hsc as [s Es]. rewrite Es. cbn [of_option rbind].
  assert (Hc : Z.to_nat (Z.min (Z.of_nat (tsize t)) ((Z.of_nat (tsize t) * 32 + Z.of_nat (tstr t)) / 32)) = tsize t) by (rewrite Z.div_add_l by lia; pose proof (Z.div_pos (Z.of_nat (tstr t)) 32); lia). rewrite Hc. replace (Z.to_nat (Z.of_nat (tsize t) * 32 + Z.of_nat (tstr t) - Z.of_nat (tsize t) * 32)) with (tstr t) by lia. rewrite Nat2Z.id. pose proof (tsize_pos t) as Hpos.
  destruct (build_node_ok s t (S (tsize t)) 0%nat 0%nat 0%nat 1%nat 0%nat (repeat junk_cell (tsize t)) (repeat junk (tstr t))) as (cells' & strs' & E & (L1 & L2 & _) & Hst); [eapply rep_agree; [|exact Hrep]; intros i _; unfold node_at; by rewrite Es|done|lia|lia|rewrite repeat_length; lia|rewrite repeat_length; lia|rewrite repeat_length; lia|lia|].
  change (Z.of_nat 0) with 0 in E. change (Z.of_nat 1) with 1 in E. rewrite E. cbn [rbind]. eexists (Some _), _. split; [done|]. split; [done|]. cbn [fst snd] in *. rewrite repeat_length in L1, L2. split; [|done]. cbn [m_cells m_strings]. apply Hst; done.
Qed.

Lemma root_closed d ty ch q x : in_group d 0 0 ty ch x -> leaves (Tree ty q None ch) -> contentStringLen d = Z.of_nat (tstr (Tree ty q None ch)) -> fits_int (Tree ty q None ch) ->
  exists o d', group_close grant junk_cell junk true q d = Ok (o, d') /\ (o = NoMemory /\ fail \/ ready d' /\ exists m, o = Declared m /\ delivered (Tree ty q None ch) m).
Proof using Type.
  intros [Hg Hl Hsz Hi Ho Hc Hin] Hleaf Hlen Hfit. unfold group_close. rewrite Hin. cbn [negb]. destruct (close_node d 0 0 ty ch q Hg Hl Hi Ho Hin) as (d' & E & Hg' & Hl' & Hs' & Hlen' & Hrep & Hcnt & Hf). rewrite Hin in E. cbn [set_decl scaffLevel in_eldecl contentStringLen asked] in *. destruct (change_open _ _ _) as [d1|]; [|done]. cbn [rbind] in *. injection E as E. subst d1. rewrite Hl'. cbn [Z.of_nat Z.eqb negb].
  destruct (build_model_ok d' _ Hg' Hrep Hleaf) as (o & d2 & E2 & Hd2 & Ho2); [rewrite Hcnt; destruct Ho as (_ & -> & _); cbn; lia|by rewrite Hlen'|done|]. rewrite E2. cbn [rbind]. destruct o as [m|]; [|eexists _, _; split; [done|]; left; done]. eexists _, _. split; [done|]. right. split; [|eauto]. split; [|done]. rewrite Hd2. destruct Hg'. by split.
Qed.

(** The name of the element, and the parenthesis that opens its model. *)
Lemma start_runs d ps t : ready d -> handler ps = H_element0 -> t_tok t = XML_TOK_NAME -> is_Some (t_name t) ->
  runs [t; plain XML_TOK_OPEN_PAREN] ps d (set_level 1 (goto H_element2 (goto H_element1 ps))) (fun d' => in_group d' 0 0 XML_CTYPE_SEQ [] 0 /\ contentStringLen d' = 0).
Proof using Type.
  intros [Hg Hlen] Hh Ht [n Hn]. change [t; plain XML_TOK_OPEN_PAREN] with ([t] ++ [plain XML_TOK_OPEN_PAREN]). set (d1 := set_scaffold (set_decl d 0 (contentStringLen d) true (asked d)) (scaffold d) (scaffSize d) 0 (asked d)).
  eapply (runs_app _ _ _ _ (goto H_element1 ps) (fun d' => d' = d1)).
  - apply (runs_one _ _ _ XML_ROLE_ELEMENT_NAME); [unfold XmlTokenRole; rewrite Hh, Ht; done|]. exists Continue, d1. split; [cbn; by rewrite Hn|]. by right.
  - intros ? ->. assert (Hg1 : good d1) by (destruct Hg as [G1 G2 G3 G4]; split; cbn; try done; lia). apply (runs_one _ _ _ XML_ROLE_GROUP_OPEN); [done|]. cbn [set_level level plain t_name role_action]. destruct (group_open_root grant junk_node junk d1 Hg1 eq_refl eq_refl eq_refl) as (o & d' & E & H). exists o, d'. split; [exact E|]. destruct H as [H|[-> [O1 O2 O3 O4 O5 O6 [O7 O8]]]]; [by left|right]. split; [done|]. split; [by split|]. by rewrite O7.
Qed.

(** ** Mixed content *)

Lemma pcdata_runs d ps : in_group d 0 0 XML_CTYPE_SEQ [] 0 -> handler ps = H_element2 -> contentStringLen d = 0 -> runs [pcdata_token enc] ps d (goto H_element3 ps) (fun d' => in_group d' 0 0 XML_CTYPE_MIXED [] 0 /\ contentStringLen d' = 0).
Proof using Type.
  intros [Hg Hl Hsz Hi Ho Hc Hin] Hh Hlen. apply (runs_one _ _ _ XML_ROLE_CONTENT_PCDATA); [unfold XmlTokenRole; rewrite Hh; cbn [handler_fun pcdata_token t_tok t_text element2]; replace (name_is enc (ascii_text enc (str "#PCDATA")) 1 KW_PCDATA) with true by (by destruct enc); done|].
  cbn [pcdata_token t_name role_action]. unfold content_pcdata. rewrite Hin. cbn [negb]. destruct Ho as (Hty & Hcnt & r & Hr & Hrest) eqn:Ho_eq. clear Ho_eq. replace (scaffLevel d - 1) with (Z.of_nat 0) by lia. destruct (change_open_ok d 0 0 r (fun n => with_type n XML_CTYPE_MIXED) Hg Hi Hr) as (d1 & E & Hg1 & (C1 & C2 & C3 & C4 & C5 & C6 & C7 & C8) & Hn). rewrite E. cbn [rbind]. exists Continue, d1. split; [done|]. right. split; [done|]. split; [|congruence].
  split; [done|congruence|by rewrite C2|unfold index_at; by rewrite C3| |unfold connector_at; by rewrite C1|congruence]. by eapply (open_changed d d1 0 XML_CTYPE_SEQ _ _ (fun n => with_type n XML_CTYPE_MIXED)).
Qed.

(** More names; afterwards only an asterisk may follow. *)
Definition after_names (names : list (list Z)) (ps : PROLOG_STATE) : PROLOG_STATE := match names with [] => ps | _ => goto H_element5 ps end.

Lemma mixed_runs names : forall ps d ch, in_group d 0 0 XML_CTYPE_MIXED ch 0 -> handler ps = H_element3 \/ handler ps = H_element5 -> all_small d 0 (map name_leaf names) ->
  runs (names ≫= (fun n => [plain XML_TOK_OR; name_token XML_CQUANT_NONE n])) ps d (after_names names ps) (fun d' => in_group d' 0 0 XML_CTYPE_MIXED (ch ++ map name_leaf names) 0 /\ contentStringLen d' = contentStringLen d + Z.of_nat (sum_list_with tstr (map name_leaf names))).
Proof using Type.
  induction names as [|n names IH]; intros ps d ch Hin Hh (S1 & S2 & S3 & S4); [intros rest; left; exists d; split; [|done]; cbn; rewrite app_nil_r; split; [done|lia]|]. cbn [map sum_list_with tsize tstr name_leaf Nat.add] in *.
  change ((n :: names) ≫= (fun n => [plain XML_TOK_OR; name_token XML_CQUANT_NONE n])) with ([plain XML_TOK_OR] ++ [name_token XML_CQUANT_NONE n] ++ (names ≫= (fun n => [plain XML_TOK_OR; name_token XML_CQUANT_NONE n]))).
  eapply (runs_app _ _ _ _ (goto H_element4 ps) (fun d' => d' = d)); [apply (runs_one _ _ _ XML_ROLE_ELEMENT_NONE); [unfold XmlTokenRole; destruct Hh as [->| ->]; done|exists Continue, d; split; [done|by right]]|]. intros ? ->.
  eapply (runs_app _ _ _ _ (goto H_element5 ps) (added 0 0 XML_CTYPE_MIXED ch 0 d (name_leaf n))).
  - destruct Hin as [Hg Hl Hsz Hi Ho Hc Hine]. apply (runs_one _ _ _ XML_ROLE_CONTENT_ELEMENT); [done|]. cbn [name_token t_name role_action]. destruct (content_element_ok grant junk_node junk d 0 0 XML_CTYPE_MIXED ch XML_CQUANT_NONE n Hg ltac:(lia) Hl Hi Ho ltac:(lia) Hine) as (o & d' & E & H). exists o, d'. split; [done|]. destruct H as [H|(-> & Hg' & Ho' & Hf & Hl' & Hs' & Hlen)]; [by left|right]. split; [done|].
    split; [|split; [done|rewrite Hlen; unfold u32; cbn [name_leaf tstr sum_list_with]; rewrite Z.mod_small; unfold zlen; lia]]. split; [done|congruence|lia|rewrite (f_index _ _ _ _ Hf) by lia; done|done|rewrite (f_connector _ _ _ _ Hf) by lia; done|rewrite (f_in _ _ _ _ Hf); done].
  - intros d1 (Hin1 & Hf1 & Hlen1). pose proof (count_open _ _ _ _ _ _ Hin) as C0. pose proof (count_open _ _ _ _ _ _ Hin1) as C1. rewrite fsize_app in C1. cbn [sum_list_with name_leaf tsize tstr] in C1, Hlen1. assert (Hnext := IH (goto H_element5 ps) d1 (ch ++ [name_leaf n]) Hin1 (or_intror eq_refl) ltac:(split; [lia|]; split; [lia|]; split; lia)).
    intros rest. destruct (Hnext rest) as [(d' & (Hin2 & Hlen2) & E)|H]; [left|by right]. exists d'. split; [|rewrite E; by destruct names]. rewrite <- app_assoc in Hin2. split; [done|]. rewrite Hlen2, Hlen1. lia.
Qed.

(** ** The last parenthesis *)

Lemma close_runs ts ps d ps1 q role ps2 ty ch t : t = Tree ty q None ch -> leaves t -> fits_int t -> runs ts ps d ps1 (fun d' => (exists x, in_group d' 0 0 ty ch x) /\ contentStringLen d' = Z.of_nat (tstr t)) ->
  XmlTokenRole enc ps1 (t_tok (close_token q)) (t_text (close_token q)) = (role, ps2) -> (forall lev name d, action role lev name d = group_close grant junk_cell junk true q d) -> handler ps2 = H_declClose ->
  exists o ps' d', declare (ts ++ [close_token q]) ps d = Ok (o, ps', d') /\ (o = NoMemory /\ fail \/ ready d' /\ handler ps' = H_declClose /\ exists b, o = Declared b /\ delivered t b).
Proof using Type.
  intros -> Hleaf Hfit Hruns Hrole Hact Hh. destruct (Hruns [close_token q]) as [(d1 & ([x Hin] & Hlen) & E)|(ps1' & d1 & E & Hf)]; [|eexists _, _, _; split; [exact E|by left]]. rewrite E. cbn [ExpatModel.declare]. rewrite Hrole, Hact. destruct (root_closed d1 ty ch q x Hin Hleaf Hlen Hfit) as (o & d' & E' & H). rewrite E'. cbn [rbind].
  destruct H as [[-> Hf]|(Hr & b & -> & Hb)]; eexists _, _, _; (split; [done|]); [by left|right]. split; [done|]. split; [done|]. eauto.
Qed.

Lemma children_declared choice q items t ps d : cp_ok (CGroup choice q items) -> fits_int (tree_of (CGroup choice q items)) -> ready d -> handler ps = H_element0 -> t_tok t = XML_TOK_NAME -> is_Some (t_name t) ->
  exists o ps' d', declare (t :: model_tokens enc (Children choice q items)) ps d = Ok (o, ps', d') /\ (o = NoMemory /\ fail \/ ready d' /\ handler ps' = H_declClose /\ exists b, o = Declared b /\ delivered (tree_of (CGroup choice q items)) b).
Proof using Type.
  intros [Hne Hok] Hfit Hready Hh Ht Hn. apply all_cp_ok in Hok. set (ps1 := set_level 1 (goto H_element2 (goto H_element1 ps))). change (t :: model_tokens enc (Children choice q items)) with ([t; plain XML_TOK_OPEN_PAREN] ++ join choice items ++ [close_token q]). rewrite app_assoc. destruct (role_of_close (goto H_element7 ps1) q eq_refl) as (role & Hrole & Hact).
  pose proof (start_runs d ps t Hready Hh Ht Hn) as Hstart. assert (Hfi := Hfit). unfold fits_int, sizeof_cell in Hfi. cbn [tree_of tsize tstr Nat.add] in Hfi.
  eapply (close_runs _ _ _ (goto H_element7 ps1) q role _ (type_of choice items) (map tree_of items)); [done|apply (leaves_tree (CGroup choice q items))|done| |exact Hrole|exact Hact|done]. eapply runs_app; [exact Hstart|]. intros d1 [Hin Hlen].
  pose proof (count_open _ _ _ _ _ _ Hin) as C1. cbn [sum_list_with] in C1. assert (Hsm : all_small d1 0 (map tree_of items)) by (repeat split; lia). assert (Hjoin := join_runs choice items Hne (Forall_true _ _ items_run) Hok ps1 d1 0 0 XML_CTYPE_SEQ [] 0 Hin (conj eq_refl (or_intror (conj eq_refl eq_refl))) (or_introl (conj eq_refl eq_refl)) Hsm).
  intros rest. destruct (Hjoin rest) as [(d' & ([x Hin'] & _ & Hlen') & E)|H]; [left|by right]. exists d'. split; [|exact E]. split; [exists x; by destruct items as [|? [|? ?]]|]. rewrite Hlen', Hlen. cbn [tree_of tstr]. lia.
Qed.

Lemma mixed_declared names star t ps d : (names <> [] -> star = true) -> fits_int (model_tree (Mixed names star)) -> ready d -> handler ps = H_element0 -> t_tok t = XML_TOK_NAME -> is_Some (t_name t) ->
  exists o ps' d', declare (t :: model_tokens enc (Mixed names star)) ps d = Ok (o, ps', d') /\ (o = NoMemory /\ fail \/ ready d' /\ handler ps' = H_declClose /\ exists b, o = Declared b /\ delivered (model_tree (Mixed names star)) b).
Proof using Type.
  intros Hstar Hfit Hready Hh Ht Hn. set (ps1 := set_level 1 (goto H_element2 (goto H_element1 ps))). set (q := if star then XML_CQUANT_REP else XML_CQUANT_NONE). change (t :: model_tokens enc (Mixed names star)) with (([t; plain XML_TOK_OPEN_PAREN] ++ [pcdata_token enc]) ++ (names ≫= (fun n => [plain XML_TOK_OR; name_token XML_CQUANT_NONE n])) ++ [close_token q]). rewrite app_assoc.
  assert (Hfi := Hfit). unfold fits_int, sizeof_cell in Hfi. cbn [model_tree tsize tstr Nat.add] in Hfi. assert (Hclose : exists role ps2, XmlTokenRole enc (after_names names (goto H_element3 ps1)) (t_tok (close_token q)) (t_text (close_token q)) = (role, ps2) /\ (forall lev name d, action role lev name d = group_close grant junk_cell junk true q d) /\ handler ps2 = H_declClose).
  { unfold q. destruct names as [|n names]; [destruct star|rewrite (Hstar ltac:(done))]; eexists _, _; (split; [reflexivity|]); done. }
  destruct Hclose as (role & ps2 & Hrole & Hact & Hps2). eapply (close_runs _ _ _ (after_names names (goto H_element3 ps1)) q role ps2 XML_CTYPE_MIXED (map name_leaf names)); [done|apply (leaves_model (Mixed names star))|done| |exact Hrole|exact Hact|done].
  eapply runs_app; [eapply runs_app; [exact (start_runs d ps t Hready Hh Ht Hn)|]; intros d1 [Hin Hlen]; exact (pcdata_runs d1 ps1 Hin eq_refl Hlen)|]. intros d2 [Hin2 Hlen2]. pose proof (count_open _ _ _ _ _ _ Hin2) as C2. cbn [sum_list_with] in C2. assert (Hsm : all_small d2 0 (map name_leaf names)) by (repeat split; lia). assert (Hnames := mixed_runs names (goto H_element3 ps1) d2 [] Hin2 (or_introl eq_refl) Hsm).
  intros rest. destruct (Hnames rest) as [(d' & (Hin' & Hlen') & E)|H]; [left|by right]. exists d'. split; [|exact E]. split; [by exists 0|]. rewrite Hlen', Hlen2. cbn [model_tree tstr]. lia.
Qed.

End Run.

(** C9: an element declaration of Expat, from its tokens to the handler: whatever the
    content model is (nested groups with any quantifiers, or mixed content), in any
    encoding and whatever the arrays held before, no access leaves an array, and the
    handler gets a block with exactly the cells and names of the tree that the tokens
    write, laid out as the header promises; only a refused request prevents it. Then
    the arrays are ready for the next declaration. *)
Theorem content_models (grant : nat -> bool) (junk_node : CONTENT_SCAFFOLD) (junk_cell : XML_Content) (junk : Z) (enc : encoding) (m : content_model) (t : token) (ps : PROLOG_STATE) (d : decl) :
  model_ok m -> fits_int (model_tree m) -> ready d -> handler ps = H_element0 -> t_tok t = XML_TOK_NAME -> is_Some (t_name t) ->
  exists o ps' d', declare grant junk_node junk_cell junk true enc (t :: model_tokens enc m) ps d = Ok (o, ps', d')
    /\ (o = NoMemory /\ (exists k, grant k = false) \/ ready d' /\ handler ps' = H_declClose /\ exists b, o = Declared b /\ delivered (model_tree m) b).
Proof. destruct m as [choice q items|names star]; intros Hok Hfit Hr Hh Ht Hn; [by apply children_declared|by apply mixed_declared]. Qed.

(** A parser that has seen no declaration. *)
Definition first_decl : decl := {| groupConnector := None; groupSize := 0; scaffIndex := None; scaffold := None; scaffSize := 0; scaffCount := 0; scaffLevel := 0; contentStringLen := 0; in_eldecl := false; asked := 0 |}.

Definition any_node : CONTENT_SCAFFOLD := {| sc_type := XML_CTYPE_ANY; sc_quant := XML_CQUANT_PLUS; sc_name := [120]; sc_firstchild := 7; sc_lastchild := 7; sc_childcnt := 7; sc_nextsib := 7 |}.
Definition any_cell : XML_Content := {| c_type := XML_CTYPE_ANY; c_quant := XML_CQUANT_PLUS; c_name := Some 7; c_numchildren := 7; c_children := Some 7 |}.

(** [<!ELEMENT a (b, (c | d)*, e?)+>] *)
Definition example_model : content_model :=
  Children false XML_CQUANT_PLUS [CName XML_CQUANT_NONE [98]; CGroup true XML_CQUANT_REP [CName XML_CQUANT_NONE [99]; CName XML_CQUANT_NONE [100]]; CName XML_CQUANT_OPT [101]].

Lemma content_models_witness :
  let ps := mkProlog H_element0 0 XML_ROLE_NONE 0 true false in
  exists o ps' d', declare (fun _ => true) any_node any_cell 7 true Little2 (name_token XML_CQUANT_NONE [97] :: model_tokens Little2 example_model) ps first_decl = Ok (o, ps', d')
    /\ (o = NoMemory /\ (exists k : nat, true = false) \/ ready d' /\ handler ps' = H_declClose /\ exists b, o = Declared b /\ delivered (model_tree example_model) b).
Proof.
  intros ps. apply (content_models (fun _ => true) any_node any_cell 7 Little2 example_model (name_token XML_CQUANT_NONE [97]) ps first_decl).
  - cbn. repeat split; congruence.
  - vm_compute. reflexivity.
  - split; [split; cbn; lia || exact I|reflexivity].
  - reflexivity.
  - reflexivity.
  - exists [97]. reflexivity.
Defined.

(** The cells of that model: six, the children of a node side by side. *)
Example example_cells :
  match declare (fun _ => true) any_node any_cell 7 true Normal (name_token XML_CQUANT_NONE [97] :: model_tokens Normal example_model) (mkProlog H_element0 0 XML_ROLE_NONE 0 true false) first_decl with
  | Ok (Declared b, _, _) => (map (fun c => (c_type c, c_name c, c_children c)) (m_cells b), m_strings b)
  | _ => ([], [])
  end = ([(XML_CTYPE_SEQ, None, Some 1); (XML_CTYPE_NAME, Some 0, None); (XML_CTYPE_CHOICE, None, Some 4); (XML_CTYPE_NAME, Some 6, None); (XML_CTYPE_NAME, Some 2, None); (XML_CTYPE_NAME, Some 4, None)],
         [98; 0; 99; 0; 100; 0; 101; 0]).
Proof. vm_compute. reflexivity. Qed.

(** ** Two parsers and one DTD

    A parser for an external parameter entity has its own [groupSize], which starts at 0,
    but shares the DTD, and with it [scaffIndex]. When it grows its groups it reallocates
    the shared array to its own size: the array can become shorter than the first parser
    takes it to be, and a group of that parser is then stored outside of it. *)
Definition shared_index (parent child : decl) : decl :=
  {| groupConnector := groupConnector parent; groupSize := groupSize parent; scaffIndex := scaffIndex child; scaffold := scaffold child; scaffSize := scaffSize child; scaffCount := scaffCount child; scaffLevel := scaffLevel child; contentStringLen := contentStringLen child; in_eldecl := in_eldecl child; asked := asked child |}.

Definition child_of (parent : decl) : decl := shared_index first_decl parent.

Definition deep (n : nat) : content_model := Nat.iter n (fun m => match m with Children c q items => Children c q [CGroup c q items] | m => m end) (Children false XML_CQUANT_NONE [CName XML_CQUANT_NONE [98]]).

Definition declare_deep (n : nat) (d : decl) : res (outcome * PROLOG_STATE * decl) :=
  declare (fun _ => true) any_node any_cell 7 true Normal (name_token XML_CQUANT_NONE [97] :: model_tokens Normal (deep n)) (mkProlog H_element0 0 XML_ROLE_NONE 0 true false) d.

(** Models of depth 100 in the document, 40 in an external entity, 100 in the document. *)
Theorem shared_index_shrinks :
  (do (_, _, d1) <- declare_deep 100 first_decl; do (_, _, d2) <- declare_deep 40 (child_of d1); do r <- declare_deep 100 (shared_index d1 d2); Ok tt) = Err OutOfBounds.
Proof. vm_compute. reflexivity. Qed.
