(* ===== verification/ExpatBuffer.v ===== *)
(** * Expat's input buffer: [src/apr-util/xml/expat/lib/xmlparse.c]

    [XML_Parse], [XML_GetBuffer] and [XML_ParseBuffer], with XML_CONTEXT_BYTES as the
    project's configuration has it: the bytes that the processor has not taken yet, after
    at most so many that it has. The processor is a parameter. *)

From S2P Require Import Prelude.

(** ** Data *)

Definition XML_CONTEXT_BYTES : Z := 1024.
Definition INIT_BUFFER_SIZE : Z := 1024.

(** [buffer] is NULL at first; the pointers into it are offsets. *)
Record input := { i_buffer : option (list Z); bufferPtr : Z; bufferEnd : Z }.

(** [bufferLim] is where the block ends. *)
Definition bufferLim (i : input) : Z := match i_buffer i with Some b => zlen b | None => 0 end.

Inductive status := XML_STATUS_OK | XML_STATUS_ERROR.

(** The parts of the parser that matter here: [p_failed] is set when [processor] has become
    [errorProcessor]; [St] is the state of the processors. *)
Record parser (St : Type) := { p_in : input; p_state : St; p_failed : bool; errorCode : Z }.
Arguments p_in {St}. Arguments p_state {St}. Arguments p_failed {St}. Arguments errorCode {St}.

Definition XML_ERROR_NONE : Z := 0.
Definition XML_ERROR_NO_MEMORY : Z := 1.

Section Buffer.
  Context {St : Type}.
  (* What a processor answers on the bytes it is given, the last ones if the flag says so:
     an error or XML_ERROR_NONE, its state, and by how much it advances [*endPtr]. *)
  Context (processor : St -> list Z -> bool -> Z * St * Z) (junk : Z).

(** ** [XML_GetBuffer] *)

(** [do bufferSize *= 2; while (bufferSize < neededSize)] *)
Fixpoint double (fuel : nat) (bufferSize neededSize : Z) : res Z :=
  match fuel with
  | O => Err OutOfFuel
  | S fuel =>
      let bufferSize := s32 (bufferSize * 2) in
      if bufferSize <? neededSize then double fuel bufferSize neededSize else Ok bufferSize
  end.

(** [memmove(buffer, &buffer[offset], n)] *)
Definition move_down (i : input) (offset n : Z) : res input :=
  match i_buffer i with
  | Some b => do bs <- sub b offset n; do b <- blit b 0 bs; Ok {| i_buffer := Some b; bufferPtr := bufferPtr i - offset; bufferEnd := bufferEnd i - offset |}
  | None => Err OutOfBounds
  end.

(** [granted] tells whether an allocation succeeds; none stands for NULL. *)
Definition XML_GetBuffer (granted : bool) (i : input) (len : Z) : res (option Z * input) :=
  if len <=? bufferLim i - bufferEnd i then Ok (Some (bufferEnd i), i) else
  let keep := Z.min (s32 (bufferPtr i)) XML_CONTEXT_BYTES in
  let neededSize := s32 (s32 (len + (bufferEnd i - bufferPtr i)) + keep) in
  if neededSize <=? bufferLim i then
    do i <- (if keep <? bufferPtr i then move_down i (s32 (bufferPtr i - keep)) (bufferEnd i - bufferPtr i + keep) else Ok i);
    Ok (Some (bufferEnd i), i)
  else
    let bufferSize := s32 (bufferLim i - bufferPtr i) in
    do bufferSize <- double 32 (if bufferSize =? 0 then INIT_BUFFER_SIZE else bufferSize) neededSize;
    if negb granted then Ok (None, i) else
    let newBuf := repeat junk (Z.to_nat bufferSize) in
    match i_buffer i with
    | Some b =>
        let n := bufferEnd i - bufferPtr i + keep in
        do bs <- sub b (bufferPtr i - keep) n;
        do newBuf <- blit newBuf 0 bs;
        let i := {| i_buffer := Some newBuf; bufferPtr := keep; bufferEnd := bufferEnd i - bufferPtr i + keep |} in
        Ok (Some (bufferEnd i), i)
    | None =>
        let i := {| i_buffer := Some newBuf; bufferPtr := 0; bufferEnd := bufferEnd i - bufferPtr i |} in
        Ok (Some (bufferEnd i), i)
    end.

(** ** [XML_ParseBuffer] and [XML_Parse] *)

(** The bytes between the pointers. *)
Definition unread (i : input) : res (list Z) :=
  match i_buffer i with
  | Some b => sub b (bufferPtr i) (bufferEnd i - bufferPtr i)
  | None => if bufferEnd i =? bufferPtr i then Ok [] else Err OutOfBounds
  end.

(** The call of [processor], which after an error is [errorProcessor], and that answers
    [errorCode]. *)
Definition run_processor (p : parser St) (bytes : list Z) (isFinal : bool) : Z * St * Z :=
  if p_failed p then (errorCode p, p_state p, 0) else processor (p_state p) bytes isFinal.

(** What [XML_Parse] and [XML_ParseBuffer] do with the answer of the processor. *)
Definition parsed (p : parser St) (i : input) (isFinal : bool) : res (status * parser St) :=
  do bytes <- unread i;
  let '(error, st, taken) := run_processor p bytes isFinal in
  let i := if isFinal then i else {| i_buffer := i_buffer i; bufferPtr := bufferPtr i + taken; bufferEnd := bufferEnd i |} in
  if error =? XML_ERROR_NONE then
    Ok (XML_STATUS_OK, {| p_in := i; p_state := st; p_failed := p_failed p; errorCode := error |})
  else Ok (XML_STATUS_ERROR, {| p_in := i; p_state := st; p_failed := true; errorCode := error |}).

Definition XML_ParseBuffer (p : parser St) (len : Z) (isFinal : bool) : res (status * parser St) :=
  let i := p_in p in
  parsed p {| i_buffer := i_buffer i; bufferPtr := bufferPtr i; bufferEnd := bufferEnd i + len |} isFinal.

Definition with_input (p : parser St) (i : input) : parser St := {| p_in := i; p_state := p_state p; p_failed := p_failed p; errorCode := errorCode p |}.

Definition XML_Parse (granted : bool) (p : parser St) (s : list Z) (isFinal : bool) : res (status * parser St) :=
  if zlen s =? 0 then
    if negb isFinal then Ok (XML_STATUS_OK, p) else parsed p (p_in p) true
  else
    do (buff, i) <- XML_GetBuffer granted (p_in p) (zlen s);
    match buff with
    | None => Ok (XML_STATUS_ERROR, {| p_in := i; p_state := p_state p; p_failed := p_failed p; errorCode := XML_ERROR_NO_MEMORY |})
    | Some at_ =>
        match i_buffer i with
        | Some b => do b <- blit b at_ s; XML_ParseBuffer (with_input p {| i_buffer := Some b; bufferPtr := bufferPtr i; bufferEnd := bufferEnd i |}) (zlen s) isFinal
        | None => Err OutOfBounds
        end
    end.

(** ** A document, call by call *)

Record call := { c_granted : bool; c_bytes : list Z; c_final : bool }.

Fixpoint parse_calls (p : parser St) (cs : list call) : res (list status * parser St) :=
  match cs with
  | [] => Ok ([], p)
  | c :: cs =>
      do (r, p) <- XML_Parse (c_granted c) p (c_bytes c) (c_final c);
      do (rs, p) <- parse_calls p cs;
      Ok (r :: rs, p)
  end.

(** What [XML_ParserCreate] leaves. *)
Definition new_parser (st : St) : parser St :=
  {| p_in := {| i_buffer := None; bufferPtr := 0; bufferEnd := 0 |}; p_state := st; p_failed := false; errorCode := XML_ERROR_NONE |}.

End Buffer.
