(* ===== verification/ExpatBufferRun.v ===== *)
(** * Expat's input buffer keeps the document together

    However the document is cut into calls, the processor is given the bytes that it has
    left and then the new ones, and the bytes before them stay in sight. *)

From S2P Require Import Prelude ExpatBuffer.

(** ** The specification: a stream of bytes

    There is no buffer: [t_seen] is what the processor has taken, [t_pending] what it has
    not, which it is given again before the bytes of the next call. *)

Record stream (St : Type) := { t_state : St; t_failed : bool; t_code : Z; t_seen : list Z; t_pending : list Z }.
Arguments t_state {St}. Arguments t_failed {St}. Arguments t_code {St}. Arguments t_seen {St}. Arguments t_pending {St}.

Section Stream.
  Context {St : Type} (processor : St -> list Z -> bool -> Z * St * Z).

Definition feed (t : stream St) (s : list Z) (isFinal : bool) : status * stream St :=
  let bytes := t_pending t ++ s in
  let '(e, st, taken) := if t_failed t then (t_code t, t_state t, 0) else processor (t_state t) bytes isFinal in
  let n := if isFinal then 0%nat else Z.to_nat taken in
  (if e =? XML_ERROR_NONE then XML_STATUS_OK else XML_STATUS_ERROR,
   {| t_state := st; t_failed := t_failed t || negb (e =? XML_ERROR_NONE); t_code := e; t_seen := t_seen t ++ take n bytes; t_pending := drop n bytes |}).

(** A call that finds no memory, if [memory] says so, leaves the stream as it is. *)
Definition stream_call (memory : bool) (t : stream St) (s : list Z) (isFinal : bool) : status * stream St :=
  match s, isFinal, memory with
  | [], false, _ => (XML_STATUS_OK, t)
  | _ :: _, _, false => (XML_STATUS_ERROR, {| t_state := t_state t; t_failed := t_failed t; t_code := XML_ERROR_NO_MEMORY; t_seen := t_seen t; t_pending := t_pending t |})
  | _, _, _ => feed t s isFinal
  end.

Fixpoint stream_calls (t : stream St) (cs : list call) (ms : list bool) : list status * stream St :=
  match cs, ms with
  | c :: cs, m :: ms => let '(r, t) := stream_call m t (c_bytes c) (c_final c) in let '(rs, t) := stream_calls t cs ms in (r :: rs, t)
  | _, _ => ([], t)
  end.

Definition new_stream (st : St) : stream St := {| t_state := st; t_failed := false; t_code := XML_ERROR_NONE; t_seen := []; t_pending := [] |}.

End Stream.

(** ** The invariant

    [seen] is what the processor has taken, [pending] what it has not. *)
Definition buffered (i : input) (seen pending : list Z) : Prop :=
  match i_buffer i with
  | None => bufferPtr i = 0 /\ bufferEnd i = 0 /\ seen = [] /\ pending = []
  | Some b =>
      zlen b < 2 ^ 31 /\ exists ctx, ctx `suffix_of` seen /\ Z.min XML_CONTEXT_BYTES (zlen seen) <= zlen ctx /\ has_bytes b 0 (ctx ++ pending) /\ bufferPtr i = zlen ctx /\ bufferEnd i = zlen ctx + zlen pending
  end.

Lemma int_id n : 0 <= n < 2 ^ 31 -> s32 n = n.
Proof. intros Hn. unfold s32. rewrite Z.mod_small by lia. lia. Qed.

Lemma double_ok needed fuel : forall a, 0 < a -> needed < 2 ^ 30 -> a < 2 ^ 30 -> needed <= a * 2 ^ Z.of_nat fuel -> exists r, double (S fuel) a needed = Ok r /\ needed <= r /\ r < 2 ^ 31 /\ 0 < r.
Proof.
  induction fuel as [|fuel IH]; intros a Ha Hn Hb Hf.
  - cbn [double]. rewrite int_id by lia. change (2 ^ Z.of_nat 0) with 1 in Hf. replace (a * 2 <? needed) with false by lia. exists (a * 2). split; [done|]. lia.
  - set (f := S fuel). cbn [double]. rewrite int_id by lia. destruct (Z.ltb_spec (a * 2) needed); [|exists (a * 2); split; [done|]; lia]. unfold f. apply IH; try lia. rewrite Nat2Z.inj_succ, Z.pow_succ_r in Hf by lia. lia.
Qed.

(** The context that is kept, and the rest of it. *)
Lemma split_context (ctx pending b : list Z) : has_bytes b 0 (ctx ++ pending) -> let keep := Z.min (zlen ctx) XML_CONTEXT_BYTES in
  exists old new, ctx = old ++ new /\ zlen new = keep /\ sub b (zlen ctx - keep) (zlen pending + keep) = Ok (new ++ pending) /\ zlen old = zlen ctx - keep.
Proof.
  intros Hb keep. pose proof (zlen_nonneg ctx). unfold XML_CONTEXT_BYTES in keep. set (k := Z.to_nat (zlen ctx - keep)). exists (take k ctx), (drop k ctx). assert (Hk : (k <= length ctx)%nat) by (unfold k, keep, zlen in *; lia). assert (Ho : zlen (take k ctx) = zlen ctx - keep) by (unfold zlen at 1; rewrite length_take; unfold k, zlen in *; lia). assert (Hnw : zlen (drop k ctx) = keep) by (unfold zlen at 1; rewrite length_drop; unfold k, zlen in *; lia).
  split; [by rewrite take_drop|]. split; [done|]. split; [|done]. rewrite <- (take_drop k ctx) in Hb. rewrite <- app_assoc in Hb. apply has_bytes_app in Hb as [_ Hb]. rewrite Ho, Z.add_0_l in Hb. replace (zlen pending + keep) with (zlen (drop k ctx ++ pending)) by (rewrite zlen_app; lia). by apply has_bytes_sub.
Qed.

Lemma kept_context (old new seen : list Z) : (old ++ new) `suffix_of` seen -> Z.min XML_CONTEXT_BYTES (zlen seen) <= zlen (old ++ new) -> zlen new = Z.min (zlen (old ++ new)) XML_CONTEXT_BYTES -> new `suffix_of` seen /\ Z.min XML_CONTEXT_BYTES (zlen seen) <= zlen new.
Proof. intros [pre ->] H1 H2. split; [exists (pre ++ old); by rewrite app_assoc|]. lia. Qed.

Section Buffer.
  Context {St : Type} (processor : St -> list Z -> bool -> Z * St * Z) (junk : Z).

Lemma XML_GetBuffer_ok granted i seen pending len : buffered i seen pending -> 0 < len -> zlen pending + len <= 2 ^ 29 ->
  exists r i', XML_GetBuffer junk granted i len = Ok (r, i')
    /\ match r with None => granted = false /\ i' = i | Some at_ => buffered i' seen pending /\ at_ = bufferEnd i' /\ is_Some (i_buffer i') /\ bufferEnd i' + len <= bufferLim i' end.
Proof using Type.
  intros Hi Hlen Hb. pose proof (zlen_nonneg pending) as Hp0. unfold XML_GetBuffer. destruct (Z.leb_spec len (bufferLim i - bufferEnd i)) as [Hfit|Hfull].
  { exists (Some (bufferEnd i)), i. split; [done|]. split; [done|]. split; [done|]. split; [|lia]. unfold buffered, bufferLim in *. destruct (i_buffer i); [eauto|lia]. }
  unfold buffered in Hi. destruct (i_buffer i) as [b|] eqn:Eb.
  - destruct Hi as (Hlim & ctx & Hsuf & Hmin & Hbytes & Hptr & Hend). assert (Elim : bufferLim i = zlen b) by (unfold bufferLim; by rewrite Eb). pose proof (has_bytes_bound _ _ _ Hbytes) as [_ Hbb]. rewrite zlen_app in Hbb. pose proof (zlen_nonneg ctx) as Hc0. rewrite (int_id (bufferPtr i)) by lia. destruct (split_context ctx pending b Hbytes) as (old & new & Ec & Hnew & Esub & Hold). cbv zeta in *. rewrite Hptr in *. rewrite Hend in *. replace (zlen ctx + zlen pending - zlen ctx) with (zlen pending) by lia.
    set (keep := Z.min (zlen ctx) XML_CONTEXT_BYTES) in *. assert (Hk : 0 <= keep <= 1024 /\ keep <= zlen ctx) by (unfold keep, XML_CONTEXT_BYTES; lia). rewrite (int_id (len + zlen pending)), (int_id (len + zlen pending + keep)) by lia. rewrite Ec in Hsuf, Hmin. destruct (kept_context old new seen Hsuf Hmin) as [Hsuf' Hmin']; [rewrite <- Ec; exact Hnew|]. destruct (Z.leb_spec (len + zlen pending + keep) (bufferLim i)) as [Hroom|Hgrow].
    + replace (keep <? zlen ctx) with true by lia. unfold move_down. rewrite Eb, (int_id (zlen ctx - keep)) by lia. rewrite Esub. cbn [rbind]. rewrite blit_ok by (rewrite ?zlen_app; lia). cbn [rbind]. eexists (Some _), _. split; [done|]. cbn [i_buffer bufferPtr bufferEnd]. assert (Hz : zlen (splice b 0 (new ++ pending)) = zlen b) by (apply zlen_splice; rewrite ?zlen_app; lia). split; [|split; [done|split; [eauto|]]].
      * unfold buffered. cbn [i_buffer bufferPtr bufferEnd]. split; [lia|]. exists new. split; [done|]. split; [done|]. split; [apply has_bytes_splice; rewrite ?zlen_app; lia|]. rewrite Hptr, Hend. lia.
      * unfold bufferLim. cbn [i_buffer]. rewrite Hz, Hend. lia.
    + rewrite (int_id (bufferLim i - zlen ctx)) by lia. set (a := if bufferLim i - zlen ctx =? 0 then INIT_BUFFER_SIZE else bufferLim i - zlen ctx). assert (Ha : 0 < a < 2 ^ 30) by (unfold a, INIT_BUFFER_SIZE; case_match; lia). destruct (double_ok (len + zlen pending + keep) 31 a) as (r & Er & Hr1 & Hr2 & Hr3); [lia|lia|lia|change (2 ^ Z.of_nat 31) with (2 ^ 31); lia|]. rewrite Er. cbn [rbind]. destruct granted; cbn [negb]; [|exists None, i; done].
      rewrite Esub. cbn [rbind]. assert (Hj : zlen (repeat junk (Z.to_nat r)) = r) by (unfold zlen; rewrite repeat_length; lia). rewrite blit_ok by (rewrite ?zlen_app; lia). cbn [rbind]. assert (Hz : zlen (splice (repeat junk (Z.to_nat r)) 0 (new ++ pending)) = r) by (rewrite zlen_splice; rewrite ?zlen_app; lia). eexists (Some _), _. split; [done|]. cbn [i_buffer bufferPtr bufferEnd]. split; [|split; [done|split; [eauto|]]].
      * unfold buffered. cbn [i_buffer bufferPtr bufferEnd]. split; [lia|]. exists new. split; [done|]. split; [done|]. split; [apply has_bytes_splice; rewrite ?zlen_app; lia|]. lia.
      * unfold bufferLim. cbn [i_buffer]. lia.
  - destruct Hi as (Hptr & Hend & -> & ->). assert (Elim : bufferLim i = 0) by (unfold bufferLim; by rewrite Eb). rewrite Hptr, Hend, Elim in *. change (zlen (@nil Z)) with 0 in *. change (Z.min (s32 0) XML_CONTEXT_BYTES) with 0. rewrite !Z.sub_0_r, !Z.add_0_r, (int_id len), (int_id len) by lia. replace (len <=? 0) with false by lia. change (if s32 0 =? 0 then INIT_BUFFER_SIZE else s32 0) with 1024.
    destruct (double_ok len 31 1024) as (r & Er & Hr1 & Hr2 & Hr3); [lia|lia|lia|change (2 ^ Z.of_nat 31) with (2 ^ 31); lia|]. rewrite Er. cbn [rbind]. destruct granted; cbn [negb]; [|exists None, i; done]. eexists (Some _), _. split; [done|]. cbn [i_buffer bufferPtr bufferEnd]. assert (Hj : zlen (repeat junk (Z.to_nat r)) = r) by (unfold zlen; rewrite repeat_length; lia). split; [|split; [done|split; [eauto|unfold bufferLim; cbn [i_buffer]; lia]]].
    unfold buffered. cbn [i_buffer bufferPtr bufferEnd]. split; [lia|]. exists []. split; [done|]. split; [done|]. split; [by exists [], (repeat junk (Z.to_nat r))|done].
Qed.

(** ** The calls *)

(** The pointer that a processor sets is inside the bytes that it was given. *)
Definition takes_input : Prop := forall st bytes isFinal, let '(_, _, taken) := processor st bytes isFinal in 0 <= taken <= zlen bytes.

Definition parses (p : parser St) (t : stream St) : Prop :=
  buffered (p_in p) (t_seen t) (t_pending t) /\ p_state p = t_state t /\ p_failed p = t_failed t /\ errorCode p = t_code t.

Lemma unread_ok i seen pending : buffered i seen pending -> unread i = Ok pending.
Proof using Type.
  unfold buffered, unread. destruct (i_buffer i) as [b|]; [|intros (-> & -> & _ & ->); done].
  intros (_ & ctx & _ & _ & Hb & -> & ->). replace (zlen ctx + zlen pending - zlen ctx) with (zlen pending) by lia. apply has_bytes_sub. rewrite <- (Z.add_0_l (zlen ctx)). by apply has_bytes_app_2.
Qed.

(** The processor takes some of the bytes: they become the end of the context. *)
Lemma buffered_take i seen pending n : buffered i seen pending -> 0 <= n <= zlen pending ->
  buffered {| i_buffer := i_buffer i; bufferPtr := bufferPtr i + n; bufferEnd := bufferEnd i |} (seen ++ take (Z.to_nat n) pending) (drop (Z.to_nat n) pending).
Proof using Type.
  intros Hi Hn. unfold buffered in *. cbn [i_buffer bufferPtr bufferEnd]. destruct (i_buffer i) as [b|].
  - destruct Hi as (Hl & ctx & [pre Hs] & Hm & Hb & Hp & He). split; [done|]. exists (ctx ++ take (Z.to_nat n) pending). assert (Ht : zlen (take (Z.to_nat n) pending) = n) by (unfold zlen in *; rewrite length_take; lia). assert (Hd : zlen (drop (Z.to_nat n) pending) = zlen pending - n) by (unfold zlen in *; rewrite length_drop; lia). rewrite !zlen_app, Ht, Hd. split; [exists pre; by rewrite Hs, app_assoc|]. split; [lia|]. split; [by rewrite <- app_assoc, take_drop|]. lia.
  - destruct Hi as (-> & -> & -> & ->). change (zlen (@nil Z)) with 0 in Hn. assert (n = 0) as -> by lia. done.
Qed.

Lemma has_bytes_append (m a s : list Z) : has_bytes m 0 a -> has_bytes (splice m (zlen a) s) 0 (a ++ s).
Proof using Type.
  intros (pre & post & -> & Hp). destruct pre; [|rewrite zlen_cons in Hp; pose proof (zlen_nonneg pre); lia]. cbn [app]. exists []. eexists. split; [|done]. cbn [app]. unfold splice. replace (Z.to_nat (zlen a)) with (length a) by (unfold zlen; lia). rewrite take_app_length, <- app_assoc. done.
Qed.

(** New bytes after the pending ones. *)
Lemma buffered_put i seen pending b s : buffered i seen pending -> i_buffer i = Some b -> bufferEnd i + zlen s <= zlen b ->
  exists b', blit b (bufferEnd i) s = Ok b' /\ buffered {| i_buffer := Some b'; bufferPtr := bufferPtr i; bufferEnd := bufferEnd i + zlen s |} seen (pending ++ s).
Proof using Type.
  unfold buffered. intros Hi Eb Hs. rewrite Eb in Hi. destruct Hi as (Hl & ctx & Hsuf & Hm & Hb & Hp & He). pose proof (zlen_nonneg ctx). pose proof (zlen_nonneg pending). exists (splice b (bufferEnd i) s). rewrite blit_ok by lia. split; [done|]. cbn [i_buffer bufferPtr bufferEnd]. rewrite zlen_splice by lia. split; [done|]. exists ctx. split; [done|]. split; [done|]. split; [|rewrite zlen_app; lia].
  rewrite app_assoc. replace (bufferEnd i) with (zlen (ctx ++ pending)) by (rewrite zlen_app; lia). by apply has_bytes_append.
Qed.

Lemma parsed_ok p t i s isFinal : takes_input -> p_state p = t_state t -> p_failed p = t_failed t -> errorCode p = t_code t -> buffered i (t_seen t) (t_pending t ++ s) ->
  exists p', parsed processor p i isFinal = Ok ((feed processor t s isFinal).1, p') /\ parses p' (feed processor t s isFinal).2.
Proof using Type.
  intros Hlaw Hst Hf Hc Hi. unfold parsed, feed, run_processor. rewrite (unread_ok _ _ _ Hi), Hst, Hf, Hc. cbn [rbind].
  assert (Hn : let '(_, _, n) := if t_failed t then (t_code t, t_state t, 0) else processor (t_state t) (t_pending t ++ s) isFinal in 0 <= n <= zlen (t_pending t ++ s)).
  { destruct (t_failed t); [pose proof (zlen_nonneg (t_pending t ++ s)); lia|apply Hlaw]. }
  destruct (if t_failed t then _ else _) as [[e st] n]. 
  assert (Hb : buffered (if isFinal then i else {| i_buffer := i_buffer i; bufferPtr := bufferPtr i + n; bufferEnd := bufferEnd i |}) (t_seen t ++ take (if isFinal then 0%nat else Z.to_nat n) (t_pending t ++ s)) (drop (if isFinal then 0%nat else Z.to_nat n) (t_pending t ++ s))).
  { destruct isFinal; [by rewrite take_0, drop_0, app_nil_r|by apply buffered_take]. }
  destruct (e =? XML_ERROR_NONE) eqn:Ee; cbn [fst snd negb]; rewrite ?orb_false_r, ?orb_true_r; eexists; (split; [done|]); unfold parses; cbn; rewrite ?orb_false_r, ?orb_true_r; done.
Qed.

Lemma XML_Parse_ok p t granted s isFinal : takes_input -> parses p t -> zlen (t_pending t) + zlen s <= 2 ^ 29 ->
  exists m p', (granted = true -> m = true) /\ XML_Parse processor junk granted p s isFinal = Ok ((stream_call processor m t s isFinal).1, p') /\ parses p' (stream_call processor m t s isFinal).2.
Proof using Type.
  intros Hlaw Hp Hb. unfold XML_Parse. destruct s as [|x s].
  - exists true. cbn [zlen length Z.of_nat Z.eqb]. destruct isFinal; cbn [negb stream_call].
    + destruct Hp as (Hi & Hst & Hf & Hc). destruct (parsed_ok p t (p_in p) [] true) as (p' & -> & Hp'); [done..|by rewrite app_nil_r|]. by exists p'.
    + by exists p.
  - set (s' := x :: s) in *. assert (Hl : 0 < zlen s') by (unfold s'; rewrite zlen_cons; pose proof (zlen_nonneg s); lia). replace (zlen s' =? 0) with false by lia. destruct Hp as (Hi & Hst & Hf & Hc). destruct (XML_GetBuffer_ok granted (p_in p) _ _ (zlen s') Hi Hl Hb) as (r & i' & -> & Hr). cbn [rbind]. destruct r as [at_|].
    + destruct Hr as (Hi' & -> & [b Eb] & Hroom). exists true. rewrite Eb. unfold bufferLim in Hroom. rewrite Eb in Hroom. destruct (buffered_put i' _ _ b s' Hi' Eb Hroom) as (b' & -> & Hb'). cbn [rbind]. unfold XML_ParseBuffer. cbn [with_input p_in i_buffer bufferPtr bufferEnd].
      set (q := with_input p _). destruct (parsed_ok q t _ s' isFinal Hlaw Hst Hf Hc Hb') as (p' & -> & Hp'). exists p'. split; [done|]. by destruct isFinal.
    + destruct Hr as [-> ->]. exists false. unfold s'. cbn [stream_call]. eexists. split; [done|]. split; [by destruct isFinal|]. unfold parses. by destruct isFinal.
Qed.

(** ** Histories *)

Definition total (cs : list call) : Z := foldr (fun c n => zlen (c_bytes c) + n) 0 cs.

(** The bytes of the calls that found memory, in order. *)
Fixpoint accepted (cs : list call) (ms : list bool) : list Z :=
  match cs, ms with
  | c :: cs, m :: ms => (if m then c_bytes c else []) ++ accepted cs ms
  | _, _ => []
  end.

(** The bytes that are kept before the pending ones. *)
Definition context (i : input) : res (list Z) :=
  match i_buffer i with
  | Some b => let keep := Z.min (bufferPtr i) XML_CONTEXT_BYTES in sub b (bufferPtr i - keep) keep
  | None => Ok []
  end.

Lemma context_ok i seen pending : buffered i seen pending -> context i = Ok (drop (length seen - Z.to_nat XML_CONTEXT_BYTES) seen).
Proof using Type.
  unfold buffered, context. destruct (i_buffer i) as [b|]; [|intros (_ & _ & -> & _); done]. intros (_ & ctx & Hs & Hm & Hb & -> & _).
  assert (Hb' : has_bytes b 0 (ctx ++ [])) by (rewrite app_nil_r; by apply has_bytes_app in Hb as [? _]). destruct (split_context ctx [] b Hb') as (old & new & Ec & Hn & Esub & _). rewrite Z.add_0_l, app_nil_r in Esub. rewrite Esub. f_equal.
  rewrite Ec in Hs, Hm. destruct (kept_context old new seen Hs Hm) as [[pre ->] Hk]; [by rewrite <- Ec|]. rewrite zlen_app in Hk. assert (E : (length (pre ++ new) - Z.to_nat XML_CONTEXT_BYTES)%nat = length pre).
  { rewrite length_app. pose proof (zlen_nonneg pre). unfold zlen, XML_CONTEXT_BYTES in *. lia. }
  by rewrite E, drop_app_length.
Qed.

Lemma feed_bytes t s isFinal : t_seen (feed processor t s isFinal).2 ++ t_pending (feed processor t s isFinal).2 = t_seen t ++ t_pending t ++ s /\ zlen (t_pending (feed processor t s isFinal).2) <= zlen (t_pending t) + zlen s.
Proof using Type.
  unfold feed. destruct (if t_failed t then _ else _) as [[e st] n]. cbn [fst snd t_seen t_pending]. rewrite <- app_assoc, take_drop. split; [done|]. rewrite <- zlen_app. unfold zlen. rewrite length_drop. lia.
Qed.

Lemma stream_call_bytes m t s isFinal : let t' := (stream_call processor m t s isFinal).2 in
  t_seen t' ++ t_pending t' = (t_seen t ++ t_pending t) ++ (if m then s else []) /\ zlen (t_pending t') <= zlen (t_pending t) + zlen s.
Proof using Type.
  pose proof (zlen_nonneg s). rewrite <- app_assoc. unfold stream_call. destruct s as [|x s], isFinal, m; cbn zeta; try apply feed_bytes; cbn [snd t_seen t_pending]; rewrite ?app_nil_r; (split; [done|lia]).
Qed.

Lemma parse_calls_ok (Hlaw : takes_input) cs : forall p t, parses p t -> zlen (t_pending t) + total cs <= 2 ^ 29 ->
  exists ms rs p' t', parse_calls processor junk p cs = Ok (rs, p') /\ stream_calls processor t cs ms = (rs, t') /\ parses p' t'
    /\ Forall2 (fun c m => c_granted c = true -> m = true) cs ms /\ t_seen t' ++ t_pending t' = (t_seen t ++ t_pending t) ++ accepted cs ms.
Proof using Type.
  induction cs as [|c cs IH]; intros p t Hp Hb.
  - exists [], [], p, t. cbn. rewrite app_nil_r. split_and!; done || constructor.
  - cbn [total foldr] in Hb. fold (total cs) in Hb. assert (Hc : 0 <= total cs) by (clear; induction cs as [|c cs IH]; [done|]; cbn; fold (total cs); pose proof (zlen_nonneg (c_bytes c)); lia).
    destruct (XML_Parse_ok p t (c_granted c) (c_bytes c) (c_final c) Hlaw Hp) as (m & p1 & Hm & E1 & Hp1); [lia|]. destruct (stream_call_bytes m t (c_bytes c) (c_final c)) as [Hacc Hlen]. cbv zeta in *. destruct (stream_call processor m t (c_bytes c) (c_final c)) as [r t1] eqn:Ec. cbn [fst snd] in *.
    destruct (IH p1 t1 Hp1) as (ms & rs & p' & t' & E2 & E3 & Hp' & Hms & Hall); [lia|]. exists (m :: ms), (r :: rs), p', t'. cbn [parse_calls stream_calls accepted]. rewrite E1. cbn [rbind]. rewrite E2, Ec, E3. split; [done|]. split; [done|]. split; [done|]. split; [by constructor|]. by rewrite Hall, Hacc, <- !app_assoc.
Qed.

(** C12: [XML_Parse] puts the document together again. However it is cut into calls of at
    most 2^29 bytes in all, whatever memory each of them is refused, and whatever the
    processors do as long as they take bytes that they were given, every call ends, no byte
    is read or written outside the buffer, and the statuses, the state of the processors and
    the error are those of a stream, in which the processor is given what it has left and
    then the new bytes; a call fails for want of memory only where an allocation is refused,
    and then its bytes are not in the stream; what is taken and what is pending are the
    bytes of the other calls, in order; the buffer holds exactly the pending bytes, and
    before them the last XML_CONTEXT_BYTES that were taken, or all if they are fewer. *)
Theorem input_buffer st cs (Hlaw : takes_input) (Hcs : total cs <= 2 ^ 29) :
  exists ms rs p t, parse_calls processor junk (new_parser st) cs = Ok (rs, p)
    /\ stream_calls processor (new_stream st) cs ms = (rs, t)
    /\ p_state p = t_state t /\ p_failed p = t_failed t /\ errorCode p = t_code t
    /\ Forall2 (fun c m => c_granted c = true -> m = true) cs ms
    /\ t_seen t ++ t_pending t = accepted cs ms
    /\ unread (p_in p) = Ok (t_pending t)
    /\ context (p_in p) = Ok (drop (length (t_seen t) - Z.to_nat XML_CONTEXT_BYTES) (t_seen t)).
Proof using Type.
  destruct (parse_calls_ok Hlaw cs (new_parser st) (new_stream st)) as (ms & rs & p & t & E1 & E2 & (Hi & Hst & Hf & Hc) & Hms & Hacc); [done|by cbn|].
  exists ms, rs, p, t. split_and!; try done; [by eapply unread_ok|by eapply context_ok].
Qed.

End Buffer.

(** A processor that takes all but the last byte, and fails on a zero. *)
Definition count_bytes (n : Z) (bytes : list Z) (isFinal : bool) : Z * Z * Z :=
  if existsb (Z.eqb 0) bytes then (4, n, 0) else (0, n + zlen bytes, Z.max 0 (zlen bytes - 1)).

Definition some_calls : list call :=
  [ {| c_granted := false; c_bytes := [9; 9]; c_final := false |}; {| c_granted := true; c_bytes := repeat 7 3000; c_final := false |};
    {| c_granted := true; c_bytes := repeat 8 1500; c_final := false |}; {| c_granted := false; c_bytes := [1; 2]; c_final := true |};
    {| c_granted := true; c_bytes := [0; 5]; c_final := false |}; {| c_granted := true; c_bytes := []; c_final := true |} ].

Lemma count_bytes_takes : takes_input count_bytes.
Proof. intros n bytes f. unfold count_bytes. pose proof (zlen_nonneg bytes). destruct (existsb _ _); lia. Qed.

Lemma input_buffer_witness : takes_input count_bytes /\ exists ms rs p t, parse_calls count_bytes 170 (new_parser 0) some_calls = Ok (rs, p)
  /\ stream_calls count_bytes (new_stream 0) some_calls ms = (rs, t) /\ unread (p_in p) = Ok (t_pending t) /\ t_seen t ++ t_pending t = accepted some_calls ms.
Proof.
  split; [exact count_bytes_takes|].
  destruct (input_buffer count_bytes 170 0 some_calls count_bytes_takes ltac:(vm_compute; discriminate)) as (ms & rs & p & t & H1 & H2 & _ & _ & _ & _ & H6 & H7 & _).
  exact (ex_intro _ ms (ex_intro _ rs (ex_intro _ p (ex_intro _ t (conj H1 (conj H2 (conj H7 H6))))))).
Defined.

(** The statuses of these calls. *)
Example some_calls_run : match parse_calls count_bytes 170 (new_parser 0) some_calls with
  | Ok (rs, p) => rs = [XML_STATUS_ERROR; XML_STATUS_OK; XML_STATUS_OK; XML_STATUS_OK; XML_STATUS_ERROR; XML_STATUS_ERROR] /\ errorCode p = 4 /\ p_failed p = true
  | Err _ => False end.
Proof. vm_compute. done. Qed.

(** ** Beyond the bound

    The size that is needed is computed in an [int]. After one byte that is not taken, a
    request for 2^31 - 1 bytes makes it negative, and it is answered with the end of a
    buffer of 2048. *)
Theorem huge_request_overruns :
  (do (_, p) <- parse_calls count_bytes 170 (new_parser 0) [{| c_granted := true; c_bytes := [60]; c_final := false |}];
   do (at_, i) <- XML_GetBuffer 170 true (p_in p) (2 ^ 31 - 1);
   Ok (at_, bufferLim i)) = Ok (Some 1, 2048).
Proof. vm_compute. reflexivity. Qed.

Lemma double_zero needed fuel : 0 < needed -> double fuel 0 needed = Err OutOfFuel.
Proof. intros Hn. induction fuel as [|fuel IH]; [done|]. cbn [double]. change (s32 (0 * 2)) with 0. by replace (0 <? needed) with true by lia. Qed.

Lemma double_step a needed : s32 (a * 2) < needed -> (forall fuel, double fuel (s32 (a * 2)) needed = Err OutOfFuel) -> forall fuel, double fuel a needed = Err OutOfFuel.
Proof. intros Ha IH [|fuel]; [done|]. cbn [double]. replace (s32 (a * 2) <? needed) with true by lia. apply IH. Qed.

(** The size doubles until it is enough; for more than 2^30 bytes it wraps, first to a
    negative number and then to zero, and the loop never ends. *)
Theorem doubling_never_ends needed : 2 ^ 30 < needed -> forall fuel, double fuel INIT_BUFFER_SIZE needed = Err OutOfFuel.
Proof.
  intros Hn. unfold INIT_BUFFER_SIZE.
  do 22 (apply double_step; (let s := lazymatch goal with |- context [s32 ?x] => constr:(s32 x) end in let y := eval vm_compute in s in change s with y); [lia|]).
  intros fuel. apply double_zero. lia.
Qed.
