(* ===== verification/AprRmm.v ===== *)
(** * Relocatable memory: [src/apr-util/misc/apr_rmm.c]

    A region of shared memory in which blocks are allocated and freed. The blocks, their
    headers and the header of the region all lie in the region itself: it is a map from
    offsets to the 8-byte words that begin there, and a word outside of it can be neither
    read nor written. Every size and offset of the allocator is a multiple of 8. *)

From stdpp Require Import gmap.
From S2P Require Import Prelude AprAllocator.

Notation region := (gmap Z Z).

Definition ld (m : region) (o : Z) : res Z := of_option OutOfBounds (m !! o).
Definition st (m : region) (o v : Z) : res region := match m !! o with Some _ => Ok (<[o := v]> m) | None => Err OutOfBounds end.

(** ** Layout *)

(** [rmm_block_t]: the offsets of its fields. *)
Definition b_size (b : Z) : Z := b.
Definition b_prev (b : Z) : Z := b + 8.
Definition b_next (b : Z) : Z := b + 16.

(** [rmm_hdr_block_t], at offset 0. *)
Definition abssize : Z := 0.
Definition firstused : Z := 8.
Definition firstfree : Z := 16.

Definition RMM_HDR_BLOCK_SIZE : Z := APR_ALIGN_DEFAULT 24.
Definition RMM_BLOCK_SIZE : Z := APR_ALIGN_DEFAULT 24.

Definition APR_SUCCESS : Z := 0.
Definition APR_EINVAL : Z := 22.

(** ** Finding blocks *)

Fixpoint find_block_by_offset (fuel : nat) (m : region) (next find prev : Z) (includes : bool) : res Z :=
  match fuel with
  | O => Err OutOfFuel
  | S fuel =>
      if next =? 0 then Ok (if includes then prev else 0)
      else if find =? next then Ok next
      else if find <? next then Ok (if includes then prev else 0)
      else do next' <- ld m (b_next next); find_block_by_offset fuel m next' find next includes
  end.

(** The search of [find_block_of_size]: a block of the very size, or the best one and its
    size. *)
Fixpoint best_fit (fuel : nat) (m : region) (next size best bestsize : Z) : res (Z + Z * Z) :=
  match fuel with
  | O => Err OutOfFuel
  | S fuel =>
      if next =? 0 then Ok (inr (best, bestsize)) else
      do s <- ld m (b_size next);
      if s =? size then Ok (inl next) else
      do next' <- ld m (b_next next);
      if (size <=? s) && ((bestsize =? 0) || (s <? bestsize)) then best_fit fuel m next' size next s
      else best_fit fuel m next' size best bestsize
  end.

(** The end of [find_block_of_size]: what is left of [best] becomes a block. *)
Definition split_block (m : region) (best size : Z) : res region :=
  let new := best + size in
  do s <- ld m (b_size best); do m <- st m (b_size new) (u64 (s - size));
  do n <- ld m (b_next best); do m <- st m (b_next new) n;
  do m <- st m (b_prev new) best;
  do m <- st m (b_size best) size;
  do m <- st m (b_next best) (u64 (best + size));
  do n <- ld m (b_next new);
  if negb (n =? 0) then st m (b_prev n) (u64 (best + size)) else Ok m.

(** One step of a walk for each word of the region. *)
Definition walk (m : region) : nat := S (size m).

Definition find_block_of_size (m : region) (size : Z) : res (Z * region) :=
  do next <- ld m firstfree;
  do r <- best_fit (walk m) m next size 0 0;
  match r with
  | inl next => Ok (next, m)
  | inr (best, bestsize) =>
      if u64 (RMM_BLOCK_SIZE + size) <? bestsize then do m <- split_block m best size; Ok (best, m)
      else Ok (best, m)
  end.

(** ** Moving a block to the other list *)

(** Close the gap. *)
Definition unlink (m : region) (this : Z) (free : bool) : res region :=
  do prev <- ld m (b_prev this);
  do next <- ld m (b_next this);
  do m <- (if negb (prev =? 0) then st m (b_next prev) next
           else st m (if free then firstused else firstfree) next);
  if negb (next =? 0) then st m (b_prev next) prev else Ok m.

(** Find the place in the other list, which may be its head. *)
Definition relink (m : region) (this : Z) (free : bool) : res region :=
  let first := if free then firstfree else firstused in
  do f <- ld m first;
  do prev <- find_block_by_offset (walk m) m f this 0 true;
  do m <- st m (b_prev this) prev;
  if prev =? 0 then do f <- ld m first; do m <- st m (b_next this) f; st m first this else Ok m.

(** Open the list up after the block before, or become part of it. *)
Definition join_prev (m : region) (this : Z) (free : bool) : res (Z * region) :=
  do prev <- ld m (b_prev this);
  if negb (prev =? 0) then
    do psize <- ld m (b_size prev);
    if free && (u64 (prev + psize) =? this) then
      do s <- ld m (b_size this); do m <- st m (b_size prev) (u64 (psize + s)); Ok (prev, m)
    else
      do n <- ld m (b_next prev); do m <- st m (b_next this) n; do m <- st m (b_next prev) this; Ok (this, m)
  else Ok (this, m).

(** Link with the block after, or take it over. *)
Definition join_next (m : region) (this : Z) (free : bool) : res region :=
  do next <- ld m (b_next this);
  if negb (next =? 0) then
    do s <- ld m (b_size this);
    if free && (u64 (this + s) =? next) then
      do ns <- ld m (b_size next); do m <- st m (b_size this) (u64 (s + ns));
      do n <- ld m (b_next next); do m <- st m (b_next this) n;
      if negb (n =? 0) then st m (b_prev n) this else Ok m
    else st m (b_prev next) this
  else Ok m.

Definition move_block (m : region) (this : Z) (free : bool) : res region :=
  do m <- unlink m this free;
  do m <- relink m this free;
  do (this, m) <- join_prev m this free;
  join_next m this free.

(** ** The interface

    [lock] and [unlock] are what the operations on the lock return; [apr_rmm_malloc] and
    [apr_rmm_calloc] do not look at them. *)

Record apr_rmm_t := { rmm_base : region; rmm_size : Z }.

Definition apr_rmm_init (lock unlock : Z) (base : region) (size : Z) : res (Z * option apr_rmm_t) :=
  if negb (lock =? APR_SUCCESS) then Ok (lock, None) else
  do m <- st base abssize size;
  do m <- st m firstused 0;
  do m <- st m firstfree RMM_HDR_BLOCK_SIZE;
  let blk := RMM_HDR_BLOCK_SIZE in
  do m <- st m (b_size blk) (u64 (size - RMM_HDR_BLOCK_SIZE));
  do m <- st m (b_prev blk) 0;
  do m <- st m (b_next blk) 0;
  Ok (unlock, Some {| rmm_base := m; rmm_size := size |}).

(** The loops of [apr_rmm_destroy]. *)
Fixpoint blast (fuel : nat) (m : region) (this : Z) : res region :=
  match fuel with
  | O => Err OutOfFuel
  | S fuel =>
      do next <- ld m (b_next this);
      do m <- st m (b_prev this) 0; do m <- st m (b_next this) 0;
      if negb (next =? 0) then blast fuel m next else Ok m
  end.

Definition blast_list (m : region) (first : Z) : res region :=
  do this <- ld m first;
  if negb (this =? 0) then do m <- blast (walk m) m this; st m first 0 else Ok m.

Definition apr_rmm_destroy (lock unlock : Z) (rmm : apr_rmm_t) : res (Z * apr_rmm_t) :=
  if negb (lock =? APR_SUCCESS) then Ok (lock, rmm) else
  do m <- blast_list (rmm_base rmm) firstused;
  do m <- blast_list m firstfree;
  do m <- st m abssize 0;
  Ok (unlock, {| rmm_base := m; rmm_size := 0 |}).

(** The result shares the region. *)
Definition apr_rmm_attach (base : region) : res apr_rmm_t := do n <- ld base abssize; Ok {| rmm_base := base; rmm_size := n |}.

Definition apr_rmm_malloc (m : region) (reqsize : Z) : res (Z * region) :=
  let size := u64 (APR_ALIGN_DEFAULT reqsize + RMM_BLOCK_SIZE) in
  if size <? reqsize then Ok (0, m) else
  do (this, m) <- find_block_of_size m size;
  if negb (this =? 0) then do m <- move_block m this false; Ok (this + RMM_BLOCK_SIZE, m)
  else Ok (this, m).

(** [memset] and [memcpy] on words. *)
Fixpoint set_words (m : region) (o : Z) (n : nat) : res region :=
  match n with O => Ok m | S n => do m <- st m o 0; set_words m (o + 8) n end.

Fixpoint copy_words (m : region) (to from : Z) (n : nat) : res region :=
  match n with O => Ok m | S n => do v <- ld m from; do m <- st m to v; copy_words m (to + 8) (from + 8) n end.

Definition apr_rmm_calloc (m : region) (reqsize : Z) : res (Z * region) :=
  let size := u64 (APR_ALIGN_DEFAULT reqsize + RMM_BLOCK_SIZE) in
  if size <? reqsize then Ok (0, m) else
  do (this, m) <- find_block_of_size m size;
  if negb (this =? 0) then
    do m <- move_block m this false;
    let this := this + RMM_BLOCK_SIZE in
    do m <- set_words m this (Z.to_nat ((size - RMM_BLOCK_SIZE) / 8));
    Ok (this, m)
  else Ok (this, m).

Definition apr_rmm_free (lock unlock : Z) (m : region) (this : Z) : res (Z * region) :=
  if this <? RMM_HDR_BLOCK_SIZE + RMM_BLOCK_SIZE then Ok (APR_EINVAL, m) else
  let this := this - RMM_BLOCK_SIZE in
  if negb (lock =? APR_SUCCESS) then Ok (lock, m) else
  do prev <- ld m (b_prev this);
  do pn <- (if negb (prev =? 0) then ld m (b_next prev) else ld m firstused);
  if negb (pn =? this) then Ok (APR_EINVAL, m) else
  do next <- ld m (b_next this);
  do np <- (if negb (next =? 0) then ld m (b_prev next) else Ok this);
  if negb (np =? this) then Ok (APR_EINVAL, m) else
  do m <- move_block m this true;
  Ok (unlock, m).

(** [entity] is none for NULL, or else the offset that [apr_rmm_offset_get] computes. *)
Definition apr_rmm_realloc (lock unlock : Z) (m : region) (entity : option Z) (reqsize : Z) : res (Z * region) :=
  match entity with
  | None => apr_rmm_malloc m reqsize
  | Some old =>
      let size := APR_ALIGN_DEFAULT reqsize in
      if size <? reqsize then Ok (0, m) else
      do (this, m) <- apr_rmm_malloc m size;
      if this =? 0 then Ok (0, m) else
      do oldsize <- ld m (b_size (old - RMM_BLOCK_SIZE));
      do m <- copy_words m this old (Z.to_nat ((if oldsize <? size then oldsize else size) / 8));
      do (_, m) <- apr_rmm_free lock unlock m old;
      Ok (this, m)
  end.

Definition apr_rmm_overhead_get (n : Z) : Z := u64 (RMM_HDR_BLOCK_SIZE + n * (RMM_BLOCK_SIZE + APR_ALIGN_DEFAULT 1)).
