(* ===== verification/AprRmmList.v ===== *)
(** * The lists of blocks of a relocatable region

    A list of blocks in memory, the cells that link it and what stays the same when one of
    them is written. *)

From stdpp Require Import gmap.
From S2P Require Import Prelude AprRmm.

(** ** Blocks

    A block is its offset and its size, header included. *)
Notation block := (Z * Z)%type.

(** The word at [a] is not of the header of a block of [l]. *)
Definition clear (a : Z) (l : list block) : Prop := Forall (fun x => a < x.1 \/ x.1 + 24 <= a) l.

(** The header at [o] overlaps no header of [l]. *)
Definition off (o : Z) (l : list block) : Prop := Forall (fun x => o + 24 <= x.1 \/ x.1 + 24 <= o) l.

(** The headers of the list are apart. *)
Fixpoint sep (l : list block) : Prop := match l with [] => True | x :: l => 24 <= x.1 /\ off x.1 l /\ sep l end.

Lemma clear_app a l1 l2 : clear a (l1 ++ l2) <-> clear a l1 /\ clear a l2.
Proof. apply Forall_app. Qed.
Lemma off_app a l1 l2 : off a (l1 ++ l2) <-> off a l1 /\ off a l2.
Proof. apply Forall_app. Qed.
Lemma clear_cons a x l : clear a (x :: l) <-> (a < x.1 \/ x.1 + 24 <= a) /\ clear a l.
Proof. unfold clear, off. by rewrite Forall_cons. Qed.
Lemma off_cons a x l : off a (x :: l) <-> (a + 24 <= x.1 \/ x.1 + 24 <= a) /\ off a l.
Proof. unfold clear, off. by rewrite Forall_cons. Qed.
Lemma clear_nil a : clear a [].
Proof. constructor. Qed.
Lemma off_nil a : off a [].
Proof. constructor. Qed.

Lemma off_clear o a l : off o l -> o <= a < o + 24 -> clear a l.
Proof. intros H Ha. eapply Forall_impl; [exact H|]. cbn. lia. Qed.

Lemma sep_low a l : sep l -> a < 24 -> clear a l.
Proof. intros Hs Ha. induction l as [|x l IH]; [apply clear_nil|]. destruct Hs as (? & _ & ?). apply clear_cons. split; [lia|auto]. Qed.

Definition apart (l1 l2 : list block) : Prop := Forall (fun x => off x.1 l2) l1.

Lemma sep_app l1 l2 : sep (l1 ++ l2) <-> sep l1 /\ sep l2 /\ apart l1 l2.
Proof.
  unfold apart. induction l1 as [|x l1 IH]; cbn; [rewrite Forall_nil; tauto|]. rewrite IH, off_app, Forall_cons. tauto.
Qed.

Lemma sep_perm l1 l2 : l1 ≡ₚ l2 -> sep l1 -> sep l2.
Proof.
  induction 1 as [|x l1 l2 H IH|x y l|l1 l2 l3 _ IH1 _ IH2]; cbn; [done| | |auto].
  - intros (? & Hx & ?). split; [done|]. split; [unfold off in *; by rewrite <- H|auto].
  - rewrite !off_cons. intuition lia.
Qed.

(** ** Lists in memory *)

(** The cell that points past [l], a list that the cell [f] points to. *)
Definition after (l : list block) (f : Z) : Z := match last l with Some x => x.1 + 16 | None => f end.
Definition last0 (l : list block) (p : Z) : Z := match last l with Some x => x.1 | None => p end.
Definition head0 (l : list block) : Z := match l with x :: _ => x.1 | [] => 0 end.

(** The blocks of [l] are linked, from the cell [f] on; [p] comes before them. *)
Fixpoint linked (m : region) (f p : Z) (l : list block) : Prop :=
  match l with
  | [] => True
  | (o, s) :: l => m !! f = Some o /\ m !! o = Some s /\ m !! (o + 8) = Some p /\ linked m (o + 16) o l
  end.

(** The blocks of [l] end a list, in which [p] comes before them. *)
Fixpoint tail (m : region) (p : Z) (l : list block) : Prop :=
  match l with
  | [] => True
  | (o, s) :: l => m !! o = Some s /\ m !! (o + 8) = Some p /\ m !! (o + 16) = Some (head0 l) /\ tail m o l
  end.

(** The whole list. *)
Definition is_list (m : region) (f : Z) (l : list block) : Prop := m !! f = Some (head0 l) /\ tail m 0 l.

Lemma last_cons_or (x : block) l : exists y, last (x :: l) = Some y.
Proof. destruct (last (x :: l)) as [y|] eqn:E; [by exists y|]. by apply last_None in E. Qed.

Lemma after_snoc l x f : after (l ++ [x]) f = x.1 + 16.
Proof. unfold after. by rewrite last_snoc. Qed.
Lemma after_cons x l f : after (x :: l) f = after l (x.1 + 16).
Proof. unfold after. destruct l as [|y l]; [done|]. rewrite last_cons_cons. by destruct (last_cons_or y l) as [z ->]. Qed.
Lemma last0_cons x l p : last0 (x :: l) p = last0 l x.1.
Proof. unfold last0. destruct l as [|y l]; [done|]. rewrite last_cons_cons. by destruct (last_cons_or y l) as [z ->]. Qed.
Lemma last0_snoc l x p : last0 (l ++ [x]) p = x.1.
Proof. unfold last0. by rewrite last_snoc. Qed.
Lemma after_app l1 l2 f : after (l1 ++ l2) f = after l2 (after l1 f).
Proof. revert f. induction l1 as [|x l1 IH]; intros f; [done|]. cbn [app]. rewrite !after_cons. apply IH. Qed.

Lemma linked_app m f p l1 l2 : linked m f p (l1 ++ l2) <-> linked m f p l1 /\ linked m (after l1 f) (last0 l1 p) l2.
Proof.
  revert f p. induction l1 as [|[o s] l1 IH]; intros f p; cbn [app linked]; [unfold after, last0; cbn; tauto|]. rewrite IH, after_cons, last0_cons. cbn [fst]. tauto.
Qed.

(** The cells of one list in another. *)
Lemma apart_sym l1 l2 : apart l1 l2 -> apart l2 l1.
Proof. unfold apart, off. rewrite !Forall_forall. intros H x Hx. rewrite Forall_forall. intros y Hy. specialize (H y Hy). rewrite Forall_forall in H. specialize (H x Hx). lia. Qed.

Lemma apart_app_r l l1 l2 : apart l (l1 ++ l2) <-> apart l l1 /\ apart l l2.
Proof. unfold apart. rewrite <- Forall_and. apply Forall_iff. intros x. apply off_app. Qed.

Lemma apart_app_l l l1 l2 : apart (l1 ++ l2) l <-> apart l1 l /\ apart l2 l.
Proof. apply Forall_app. Qed.

Lemma apart_cons_l l x l1 : apart (x :: l1) l <-> off x.1 l /\ apart l1 l.
Proof. unfold apart. by rewrite Forall_cons. Qed.

Lemma apart_cons_r l x l1 : apart l (x :: l1) <-> off x.1 l /\ apart l l1.
Proof. split; intros H; [apply apart_sym, apart_cons_l in H as [? ?]|apply apart_sym, apart_cons_l; destruct H]; split; auto using apart_sym. Qed.

Lemma apart_nil_l l : apart [] l.
Proof. constructor. Qed.
Lemma apart_nil_r l : apart l [].
Proof. apply apart_sym, apart_nil_l. Qed.

Lemma after_clear l l' f : clear f l' -> apart l l' -> clear (after l f) l'.
Proof.
  intros Hf Ha. unfold after. destruct (last l) as [y|] eqn:El; [|done]. apply last_Some_elem_of in El. unfold apart in Ha. rewrite Forall_forall in Ha. eapply off_clear; [by apply Ha|lia].
Qed.

Lemma after_off l f o : off o l -> f < o \/ o + 24 <= f -> after l f < o \/ o + 24 <= after l f.
Proof.
  intros Ho Hf. unfold after. destruct (last l) as [y|] eqn:El; [|done]. apply last_Some_elem_of in El. unfold off in Ho. rewrite Forall_forall in Ho. specialize (Ho y El). lia.
Qed.

Lemma head_clear l l' k : l <> [] -> 0 <= k < 24 -> apart l l' -> clear (head0 l + k) l'.
Proof. destruct l as [|x l]; [done|]. intros _ Hk Ha. apply Forall_cons in Ha as [Ha _]. cbn. eapply off_clear; [exact Ha|lia]. Qed.

(** Writing elsewhere. *)
Lemma linked_other m f p l a v : linked m f p l -> a <> f -> clear a l -> linked (<[a := v]> m) f p l.
Proof.
  revert f p. induction l as [|[o s] l IH]; intros f p H Hf Hc; [done|]. apply clear_cons in Hc as [Ho Hc]. cbn [fst] in Ho. destruct H as (H1 & H2 & H3 & H4). cbn [linked]. rewrite !lookup_insert_ne by lia. split_and!; try done. apply IH; [done|lia|done].
Qed.

(** Writing the cell after the list. *)
Lemma linked_after m f p l v : linked m f p l -> sep l -> clear f l -> linked (<[after l f := v]> m) f p l.
Proof.
  revert f p. induction l as [|[o s] l IH]; intros f p H Hs Hf; [done|]. rewrite after_cons. cbn [fst]. destruct Hs as (Ho & Hoff & Hs). cbn [fst] in *. apply clear_cons in Hf as [Hf1 Hf]. cbn [fst] in Hf1. destruct H as (H1 & H2 & H3 & H4).
  assert (Ha : after l (o + 16) <> f /\ after l (o + 16) <> o /\ after l (o + 16) <> o + 8).
  { unfold after. destruct (last l) as [y|] eqn:El; [|lia]. apply last_Some_elem_of in El. unfold clear, off in *. rewrite Forall_forall in Hf, Hoff. specialize (Hf y El). specialize (Hoff y El). lia. }
  cbn [linked]. rewrite !lookup_insert_ne by lia. split_and!; try done. apply IH; [done|done|]. eapply off_clear; [exact Hoff|lia].
Qed.

Lemma tail_other m p l a v : tail m p l -> clear a l -> tail (<[a := v]> m) p l.
Proof.
  revert p. induction l as [|[o s] l IH]; intros p H Hc; [done|]. apply clear_cons in Hc as [Ho Hc]. cbn [fst] in Ho. destruct H as (H1 & H2 & H3 & H4). cbn [tail]. rewrite !lookup_insert_ne by lia. split_and!; try done. by apply IH.
Qed.

(** Writing what comes before the list. *)
Lemma tail_prev m p l q : tail m p l -> sep l -> l <> [] -> tail (<[head0 l + 8 := q]> m) q l.
Proof.
  destruct l as [|[o s] l]; [done|]. intros (H1 & H2 & H3 & H4) (Ho & Hoff & Hs) _. cbn [head0 fst] in *. cbn [tail]. rewrite lookup_insert_eq, !lookup_insert_ne by lia. split_and!; try done. apply tail_other; [done|]. eapply off_clear; [exact Hoff|lia].
Qed.

Lemma tail_app m f p l1 l2 : m !! f = Some (head0 (l1 ++ l2)) /\ tail m p (l1 ++ l2) <-> linked m f p l1 /\ m !! after l1 f = Some (head0 l2) /\ tail m (last0 l1 p) l2.
Proof.
  revert f p. induction l1 as [|[o s] l1 IH]; intros f p; cbn [app linked]; [unfold after, last0; cbn; tauto|]. rewrite after_cons, last0_cons. cbn [head0 tail fst]. specialize (IH (o + 16) o). tauto.
Qed.

Lemma is_list_app m f l1 l2 : is_list m f (l1 ++ l2) <-> linked m f 0 l1 /\ m !! after l1 f = Some (head0 l2) /\ tail m (last0 l1 0) l2.
Proof. apply tail_app. Qed.

Lemma is_list_other m f l a v : is_list m f l -> a <> f -> clear a l -> is_list (<[a := v]> m) f l.
Proof. intros [H1 H2] Hf Hc. split; [by rewrite lookup_insert_ne|by apply tail_other]. Qed.

(** ** What an operation leaves alone *)

(** Only the cell [f] and the headers of [l] change. *)
Definition touched (m m' : region) (f : Z) (l : list block) : Prop := dom m' = dom m /\ forall a, a <> f -> clear a l -> m' !! a = m !! a.

Lemma touched_refl m f l : touched m m f l.
Proof. done. Qed.

Lemma touched_trans m1 m2 m3 f l : touched m1 m2 f l -> touched m2 m3 f l -> touched m1 m3 f l.
Proof. intros [D1 H1] [D2 H2]. split; [congruence|]. intros a Ha Hc. rewrite H2, H1 by done. done. Qed.

Lemma touched_write m f l a v : is_Some (m !! a) -> a = f \/ ~ clear a l -> touched m (<[a := v]> m) f l.
Proof.
  intros Hm Ha. split; [by rewrite dom_insert_lookup_L|]. intros b Hb Hc. apply lookup_insert_ne. intros ->. by destruct Ha.
Qed.

Lemma touched_more m m' f l a v : touched m m' f l -> is_Some (m' !! a) -> a = f \/ ~ clear a l -> touched m (<[a := v]> m') f l.
Proof. intros H Hm Ha. eapply touched_trans; [exact H|]. by apply touched_write. Qed.

Lemma tail_touched m m' f' p l l' : tail m p l -> touched m m' f' l' -> clear f' l -> apart l l' -> tail m' p l.
Proof.
  intros H2 [_ Ht]. revert p H2. induction l as [|[o s] l IH]; intros p H2 Hf Ha; [done|]. apply Forall_cons in Ha as [Ho Ha]. apply clear_cons in Hf as [Hfo Hf]. cbn [fst] in Ho, Hfo. destruct H2 as (E1 & E2 & E3 & E4).
  assert (Hw : forall a, o <= a < o + 24 -> m' !! a = m !! a) by (intros a Hb; apply Ht; [lia|by eapply off_clear]). cbn [tail]. rewrite !Hw by lia. split_and!; try done. by apply IH.
Qed.

Lemma is_list_touched m m' f f' l l' : is_list m f l -> touched m m' f' l' -> f <> f' -> clear f l' -> clear f' l -> apart l l' -> is_list m' f l.
Proof. intros [H1 H2] Ht Hf Hc Hc' Ha. split; [|by eapply tail_touched]. destruct Ht as [_ Ht]. by rewrite Ht. Qed.

Lemma after_touched l f l' : l ⊆ l' -> after l f = f \/ ~ clear (after l f) l'.
Proof.
  intros Hl. unfold after. destruct (last l) as [y|] eqn:El; [|by left]. apply last_Some_elem_of in El. right. unfold clear. rewrite Forall_forall. intros Hc. specialize (Hc y (Hl y El)). lia.
Qed.

Lemma head_touched l k l' : l ⊆ l' -> l <> [] -> 0 <= k < 24 -> ~ clear (head0 l + k) l'.
Proof.
  destruct l as [|x l]; [done|]. intros Hl _ Hk Hc. unfold clear in Hc. rewrite Forall_forall in Hc. specialize (Hc x (Hl x ltac:(left))). cbn in Hc. lia.
Qed.

Lemma in_header x l a : x ∈ l -> x.1 <= a < x.1 + 24 -> ~ clear a l.
Proof. intros Hx Ha Hc. unfold clear in Hc. rewrite Forall_forall in Hc. specialize (Hc x Hx). lia. Qed.

Lemma touched_weaken m m' f l l' : touched m m' f l -> l ⊆ l' -> touched m m' f l'.
Proof. intros [D H] Hl. split; [done|]. intros a Ha Hc. apply H; [done|]. unfold clear in *. rewrite Forall_forall in *. auto. Qed.

Lemma touched_some m m' f l a : touched m m' f l -> is_Some (m !! a) -> is_Some (m' !! a).
Proof. intros [D _] H. apply elem_of_dom. rewrite D. by apply elem_of_dom. Qed.

Lemma ld_ok m a v : m !! a = Some v -> ld m a = Ok v.
Proof. unfold ld. by intros ->. Qed.

Lemma st_ok m a v : is_Some (m !! a) -> st m a v = Ok (<[a := v]> m).
Proof. unfold st. by intros [w ->]. Qed.

(** ** Walks *)

Lemma linked_dom m f p l : linked m f p l -> Forall (fun x => x.1 ∈ dom m) l.
Proof. revert f p. induction l as [|[o s] l IH]; intros f p H; constructor; [cbn; apply elem_of_dom; by destruct H as (_ & -> & _)|]. destruct H as (_ & _ & _ & H). eauto. Qed.

Lemma sep_nodup l : sep l -> NoDup l.*1.
Proof.
  induction l as [|x l IH]; intros Hs; cbn; [constructor|]. destruct Hs as (_ & Ho & Hs). constructor; [|auto]. intros Hin. apply list_elem_of_fmap in Hin as (y & E & Hy). unfold off in Ho. rewrite Forall_forall in Ho. specialize (Ho y Hy). lia.
Qed.

Lemma walk_enough m f p l : linked m f p l -> sep l -> (length l < walk m)%nat.
Proof.
  intros H Hs. unfold walk. apply Nat.lt_succ_r. rewrite <- size_dom, <- (length_fmap fst l), <- (size_list_to_set (C := gset Z)) by by apply sep_nodup. apply subseteq_size. intros a Ha. apply elem_of_list_to_set, list_elem_of_fmap in Ha as (x & -> & Hx). pose proof (linked_dom _ _ _ _ H) as Hd. rewrite Forall_forall in Hd. auto.
Qed.
