(* ===== verification/AprRmmMove.v ===== *)
(** * Moving a block from one list to the other

    [find_block_by_offset] and the four parts of [move_block]. *)

From stdpp Require Import gmap.
From S2P Require Import Prelude AprRmm AprRmmList.

Lemma head0_zero l : sep l -> (head0 l =? 0) = false <-> l <> [].
Proof. destruct l as [|x l]; cbn; [done|]. intros (H & _). split; [done|]. intros _. apply Z.eqb_neq. lia. Qed.

Lemma last0_zero l : sep l -> (last0 l 0 =? 0) = false <-> l <> [].
Proof.
  intros Hs. unfold last0. destruct (last l) as [y|] eqn:El.
  - split; [intros _ ->; done|]. intros _. assert (Hy : 24 <= y.1); [|by apply Z.eqb_neq; lia]. apply last_Some in El as [l' ->]. apply sep_app in Hs as (_ & (H & _) & _). done.
  - apply last_None in El. subst l. done.
Qed.

(** The cell that points past [l] is in the last block, or the head of the list. *)
Lemma st_after m l f v : sep l -> (if negb (last0 l 0 =? 0) then st m (last0 l 0 + 16) v else st m f v) = st m (after l f) v.
Proof.
  intros Hs. destruct (last0 l 0 =? 0) eqn:E; cbn [negb].
  - destruct l as [|x l]; [done|]. exfalso. assert (H : (last0 (x :: l) 0 =? 0) = false) by by apply last0_zero. congruence.
  - unfold after, last0 in *. by destruct (last l).
Qed.

Lemma find_block_by_offset_ok m o T2 (HT2 : Forall (fun x => o < x.1) T2) : forall T1 fuel f p next, linked m f p T1 -> m !! f = Some next -> m !! after T1 f = Some (head0 T2) -> sep (T1 ++ T2) -> Forall (fun x => x.1 < o) T1 -> (length T1 < fuel)%nat ->
  find_block_by_offset fuel m next o p true = Ok (last0 T1 p).
Proof.
  induction T1 as [|[a s] T1 IH]; intros [|fuel] f p next Hl Hf He Hs HT1 Hfuel; try (cbn in Hfuel; lia); cbn [find_block_by_offset].
  - unfold after in He. cbn in He. rewrite Hf in He. injection He as ->. destruct T2 as [|[b t] T2]; [done|]. cbn [head0 fst]. destruct Hs as (Hb & _). apply Forall_cons in HT2 as [Hob _]. cbn [fst] in *. replace (b =? 0) with false by lia. replace (o =? b) with false by lia. by replace (o <? b) with true by lia.
  - destruct Hl as (H1 & H2 & H3 & H4). rewrite Hf in H1. injection H1 as ->. destruct Hs as (Ha & _ & Hs). apply Forall_cons in HT1 as [Hao HT1]. cbn [fst] in *. rewrite after_cons in He. cbn [fst] in He. replace (a =? 0) with false by lia. replace (o =? a) with false by lia. replace (o <? a) with false by lia. rewrite last0_cons. cbn [fst].
    assert (Hn : exists n, m !! (a + 16) = Some n). { destruct T1 as [|[b t] T1]; [by exists (head0 T2)|]. destruct H4 as (H4 & _). by exists b. }
    destruct Hn as [n Hn]. unfold b_next. rewrite (ld_ok _ _ _ Hn). cbn [rbind]. eapply IH; eauto. cbn in Hfuel. lia.
Qed.

(** ** Closing the gap *)

Lemma unlink_ok m o s S1 S2 (free : bool) : let f := if free then firstused else firstfree in
  is_list m f (S1 ++ (o, s) :: S2) -> sep (S1 ++ (o, s) :: S2) ->
  exists m', unlink m o free = Ok m' /\ is_list m' f (S1 ++ S2) /\ touched m m' f (S1 ++ S2).
Proof.
  intros f Hl Hs. apply is_list_app in Hl as (H1 & H2 & H3). destruct H3 as (E1 & E2 & E3 & E4). cbn [head0 fst] in H2.
  assert (Hf : 0 < f < 24) by (unfold f, firstused, firstfree; destruct free; lia). pose proof (sep_low f _ Hs ltac:(lia)) as Hcf. apply clear_app in Hcf as [Hc1 Hc2]. apply clear_cons in Hc2 as [_ Hc2]. apply sep_app in Hs as (Hs1 & (Ho & Hoff & Hs2) & Hap). cbn [fst] in *. apply apart_cons_r in Hap as [_ Hap].
  assert (Hca : clear (after S1 f) S2) by by apply after_clear. set (n := head0 S2) in *. set (m1 := <[after S1 f := n]> m).
  assert (L1 : linked m1 f 0 S1) by by apply linked_after. assert (L2 : m1 !! after S1 f = Some n) by apply lookup_insert_eq. assert (L3 : tail m1 o S2) by by apply tail_other.
  assert (T1 : touched m m1 f (S1 ++ S2)). { apply touched_write; [by eexists|]. apply after_touched. set_solver. }
  unfold unlink, b_prev, b_next. rewrite (ld_ok _ _ _ E2), (ld_ok _ _ _ E3). cbn [rbind]. fold f. rewrite st_after by done. rewrite st_ok by (by eexists). cbn [rbind]. fold m1. destruct S2 as [|x S2].
  - exists m1. split; [done|]. split; [|done]. by apply is_list_app.
  - assert (Hn : (n =? 0) = false) by by apply head0_zero. rewrite Hn. cbn [negb]. rewrite st_ok by (destruct x, L3 as (_ & L3 & _); by eexists). eexists. split; [done|]. split.
    + apply is_list_app. split; [|split].
      * apply linked_other; [done| |apply head_clear; [done|lia|by apply apart_sym]]. apply clear_cons in Hc2 as [Hc2 _]. unfold n. cbn. lia.
      * rewrite lookup_insert_ne; [done|]. apply clear_cons in Hca as [Hca _]. unfold n. cbn. lia.
      * by apply (tail_prev _ o).
    + eapply touched_trans; [exact T1|]. apply touched_write; [destruct x, L3 as (_ & L3 & _); by eexists|]. right. apply head_touched; [set_solver|done|lia].
Qed.

(** ** Opening the other list *)

(** The blocks of a list lie below [o], or from [o] on, and [B] is the end of the region. *)
Definition below (o : Z) (l : list block) : Prop := Forall (fun x => 24 <= x.2 /\ x.1 + x.2 <= o) l.
Definition from (o B : Z) (l : list block) : Prop := Forall (fun x => o <= x.1 /\ 24 <= x.2 /\ x.1 + x.2 <= B) l.

(** The block [x] is linked after [T1], but [T2] still has [q] before it. *)
Definition half (m : region) (f : Z) (T1 : list block) (x : block) (T2 : list block) (q : Z) : Prop :=
  linked m f 0 (T1 ++ [x]) /\ m !! (x.1 + 16) = Some (head0 T2) /\ tail m q T2.

Section Insert.
  Context (m : region) (o s B : Z) (T1 T2 : list block) (free : bool).
Let f := if free then firstfree else firstused.
  Context (Hl : is_list m f (T1 ++ T2)) (Hs : sep ((o, s) :: T1 ++ T2)) (H1 : below o T1) (H2 : from (o + s) B T2) (HB : o + s <= B < 2 ^ 64) (Hos : 24 <= s).
  Context (Eo : m !! o = Some s) (Ep : is_Some (m !! (o + 8))) (En : is_Some (m !! (o + 16))).

Lemma place_found : exists n, m !! f = Some n /\ find_block_by_offset (walk m) m n o 0 true = Ok (last0 T1 0).
Proof using All.
  pose proof Hl as Hl'. apply is_list_app in Hl' as (L1 & L2 & L3). destruct Hl as [Hf _]. eexists. split; [exact Hf|]. destruct Hs as (_ & _ & Hs'). eapply find_block_by_offset_ok; [|exact L1|exact Hf|exact L2|done| |].
  - eapply Forall_impl; [exact H2|]. cbn. lia.
  - eapply Forall_impl; [exact H1|]. cbn. lia.
  - apply sep_app in Hs' as (Hs1 & _). by eapply walk_enough.
Qed.

(** After [relink] the block knows what comes before it. *)
Let m1 := <[o + 8 := last0 T1 0]> m.

Lemma m1_list : is_list m1 f (T1 ++ T2) /\ m1 !! o = Some s /\ m1 !! (o + 8) = Some (last0 T1 0) /\ is_Some (m1 !! (o + 16)) /\ touched m m1 f ((o, s) :: T1 ++ T2).
Proof using All.
  destruct Hs as (Ho & Hoff & Hs'). cbn [fst] in *. assert (Hf : f < 24) by (unfold f, firstfree, firstused; destruct free; lia). unfold m1. rewrite lookup_insert_eq, !lookup_insert_ne by lia. split_and!; try done.
  - apply is_list_other; [done|lia|]. eapply off_clear; [exact Hoff|lia].
  - apply touched_write; [done|]. right. apply (in_header (o, s)); [left|cbn; lia].
Qed.

Lemma f_low : 0 < f < 24.
Proof using Type. clear Hl. unfold f, firstfree, firstused. destruct free; lia. Qed.

(** The block takes its place after [T1]. *)
Let m2 := <[after T1 f := o]> (<[o + 16 := head0 T2]> m1).

Lemma m2_half : half m2 f T1 (o, s) T2 (last0 T1 0) /\ touched m m2 f ((o, s) :: T1 ++ T2).
Proof using All.
  destruct m1_list as (L & E1 & E2 & E3 & Ht). destruct Hs as (Ho & Hoff & Hs'). cbn [fst] in *. pose proof f_low as Hf. apply is_list_app in L as (L1 & L2 & L3). apply off_app in Hoff as [Ho1 Ho2]. apply sep_app in Hs' as (Hs1 & Hs2 & Hap). pose proof (sep_low f T1 Hs1 ltac:(lia)) as Hc1. pose proof (sep_low f T2 Hs2 ltac:(lia)) as Hc2.
  assert (Ha : after T1 f < o \/ o + 24 <= after T1 f) by (apply after_off; [done|lia]).
  assert (Hca : clear (after T1 f) T2) by by apply after_clear. unfold m2, half. cbn [fst]. split_and!.
  - apply linked_app. split; [apply linked_after; [|done|done]; apply linked_other; [done|lia|by eapply off_clear; [exact Ho1|lia]]|]. cbn [linked]. rewrite lookup_insert_eq, !lookup_insert_ne by lia. done.
  - rewrite lookup_insert_ne, lookup_insert_eq by lia. done.
  - apply tail_other; [|done]. apply tail_other; [done|]. eapply off_clear; [exact Ho2|lia].
  - eapply touched_trans; [exact Ht|]. eapply touched_trans; [apply touched_write; [done|]; right; apply (in_header (o, s)); [left|cbn; lia]|]. apply touched_write; [rewrite lookup_insert_ne by lia; by eexists|]. apply after_touched. set_solver.
Qed.

Lemma insert_alone : free = false \/ (forall p ps, last T1 = Some (p, ps) -> p + ps <> o) ->
  (do m <- relink m o free; join_prev m o free) = Ok (o, m2).
Proof using All.
  intros Hfree. destruct place_found as (n & Hn & Hfind). destruct m1_list as (L & E1 & E2 & E3 & Ht). destruct Hs as (Ho & _ & Hs'). apply sep_app in Hs' as (Hs1 & _). unfold relink. fold f. rewrite (ld_ok _ _ _ Hn). cbn [rbind]. rewrite Hfind. cbn [rbind]. unfold b_prev, b_next. rewrite st_ok by done. cbn [rbind]. fold m1. apply is_list_app in L as (L1 & L2 & _). pose proof f_low as Hf. cbn [fst] in Ho.
  destruct (last0 T1 0 =? 0) eqn:El.
  - assert (T1 = []) as E1'. { destruct T1 as [|x T1']; [done|]. assert ((last0 (x :: T1') 0 =? 0) = false) by by apply last0_zero. congruence. }
    unfold m2, after in *. rewrite E1' in *. cbn in L2. rewrite (ld_ok _ _ _ L2). cbn [rbind]. rewrite st_ok by done. cbn [rbind]. rewrite st_ok by (rewrite lookup_insert_ne by lia; by eexists). cbn [rbind]. unfold join_prev, b_prev. cbn [last]. rewrite (ld_ok _ _ 0); [done|]. rewrite !lookup_insert_ne by lia. exact E2.
  - cbn [rbind]. unfold join_prev, b_prev, b_next, b_size. rewrite (ld_ok _ _ _ E2). cbn [rbind]. rewrite El. cbn [negb]. 
    destruct (last T1) as [[p ps]|] eqn:Elast; [|unfold last0 in El; rewrite Elast in El; done]. pose proof Elast as Elast'. apply last_Some in Elast' as [T1' E]. unfold last0, after in L2 |- *. unfold m2, after. rewrite Elast in *. cbn [fst] in *. rewrite E in L1. apply linked_app in L1 as (_ & _ & Eps & _). rewrite (ld_ok _ _ _ Eps). cbn [rbind].
    assert (Hm : free && (u64 (p + ps) =? o) = false). { destruct Hfree as [->|Hne]; [done|]. specialize (Hne p ps eq_refl). apply andb_false_intro2, Z.eqb_neq. assert (Hp : 24 <= ps /\ p + ps <= o) by (unfold below in H1; rewrite Forall_forall in H1; apply (H1 (p, ps)); rewrite E; set_solver). assert (24 <= p) by (rewrite E in Hs1; apply sep_app in Hs1 as (_ & (? & _) & _); done). unfold u64. rewrite Z.mod_small by lia. done. }
    rewrite Hm, (ld_ok _ _ _ L2). cbn [rbind]. rewrite st_ok by done. cbn [rbind]. rewrite st_ok by (rewrite lookup_insert_ne; [by eexists|]; unfold last0 in *; destruct Hs as (_ & Hoff & _); apply off_app in Hoff as [Hoff _]; rewrite E in Hoff; apply off_app in Hoff as [_ Hoff]; apply off_cons in Hoff as [Hoff _]; cbn in Hoff; lia). done.
Qed.

(** Or the block before takes it in. *)
Lemma insert_merge p ps T1' : free = true -> T1 = T1' ++ [(p, ps)] -> p + ps = o ->
  exists m', (do m <- relink m o free; join_prev m o free) = Ok (p, m') /\ half m' f T1' (p, ps + s) T2 p /\ touched m m' f ((o, s) :: T1 ++ T2).
Proof using All.
  intros Hfree E Epo. destruct place_found as (n & Hn & Hfind). destruct m1_list as (L & E1 & E2 & E3 & Ht). destruct Hs as (Ho & Hoff & Hs'). pose proof f_low as Hf. apply sep_app in Hs' as (Hs1 & Hs2 & Hap). unfold relink. fold f. rewrite (ld_ok _ _ _ Hn). cbn [rbind]. rewrite Hfind. cbn [rbind]. unfold b_prev, b_next. rewrite st_ok by done. cbn [rbind]. fold m1. apply is_list_app in L as (L1 & L2 & L3). assert (El : last0 T1 0 = p) by (rewrite E; apply last0_snoc). assert (Ea : after T1 f = p + 16) by (rewrite E; apply after_snoc). rewrite El, Ea in *. clear Hn Hfind. subst T1. apply linked_app in L1 as (L0 & Lf & Eps & Epp & _). apply sep_app in Hs1 as (Hs0 & (Hp & _) & Hap0). apply apart_app_l in Hap as (Hap1 & Hap2). apply apart_cons_l in Hap2 as [Hp2 _]. apply apart_cons_r in Hap0 as [Hp0 _]. cbn [fst] in *.
  assert (Hb : 24 <= ps /\ p + ps <= o) by (unfold below in H1; apply Forall_app in H1 as [_ H1]; apply Forall_cons in H1 as [H1 _]; done).
  replace (p =? 0) with false by lia. cbn [rbind]. unfold join_prev, b_prev, b_next, b_size. rewrite (ld_ok _ _ _ E2). cbn [rbind]. replace (p =? 0) with false by lia. cbn [negb]. rewrite (ld_ok _ _ _ Eps). cbn [rbind]. rewrite Hfree. unfold u64. rewrite (Z.mod_small (p + ps)) by lia. replace (p + ps =? o) with true by lia. cbn [andb]. rewrite (ld_ok _ _ _ E1). cbn [rbind]. rewrite st_ok by by eexists. cbn [rbind]. rewrite Z.mod_small by lia. eexists. split; [done|]. split.
  - unfold half. cbn [fst]. split_and!.
    + apply linked_app. split; [apply linked_other; [done|lia|by eapply off_clear; [exact Hp0|lia]]|]. cbn [linked]. rewrite lookup_insert_eq, (lookup_insert_ne _ _ (p + 8)) by lia. split_and!; try done. rewrite lookup_insert_ne; [done|]. destruct (after_off T1' f p Hp0); lia.
    + rewrite lookup_insert_ne by lia. done.
    + apply tail_other; [done|]. eapply off_clear; [exact Hp2|lia].
  - eapply touched_trans; [exact Ht|]. apply touched_write; [by eexists|]. right. apply (in_header (p, ps)); [set_solver|cbn; lia].
Qed.

End Insert.

(** ** The block after *)

Section Next.
  Context (m : region) (f t ts q B : Z) (T1 T2 : list block) (free : bool).
  Context (Hh : half m f T1 (t, ts) T2 q) (Hs : sep (T1 ++ (t, ts) :: T2)) (Hf : 0 < f < 24) (H2 : from (t + ts) B T2) (HB : t + ts <= B < 2 ^ 64) (Hts : 24 <= ts).

Lemma next_alone : free = false \/ t + ts <> head0 T2 -> exists m', join_next m t free = Ok m' /\ is_list m' f (T1 ++ (t, ts) :: T2) /\ touched m m' f (T1 ++ (t, ts) :: T2).
Proof using All.
  intros Hfree. destruct Hh as (L1 & L2 & L3). pose proof L1 as L1'. apply linked_app in L1' as (_ & _ & Ets & _). cbn [fst] in *. replace (T1 ++ (t, ts) :: T2) with ((T1 ++ [(t, ts)]) ++ T2) in * by by rewrite <- app_assoc. apply sep_app in Hs as (Hs1 & Hs2 & Hap). unfold join_next, b_next, b_size, b_prev. rewrite (ld_ok _ _ _ L2). cbn [rbind]. destruct T2 as [|x T2'] eqn:E2.
  - exists m. split; [done|]. split; [|done]. apply is_list_app. rewrite after_snoc. done.
  - rewrite <- E2 in *. assert (Hn : (head0 T2 =? 0) = false) by (apply head0_zero; [done|by rewrite E2]). rewrite Hn. cbn [negb]. rewrite (ld_ok _ _ _ Ets). cbn [rbind].
    assert (Hm : free && (u64 (t + ts) =? head0 T2) = false). { destruct Hfree as [->|Hne]; [done|]. apply andb_false_intro2, Z.eqb_neq. apply sep_app in Hs1 as (_ & (Ht & _) & _). cbn in Ht. unfold u64. rewrite Z.mod_small by lia. done. }
    rewrite Hm. assert (Hx : is_Some (m !! (head0 T2 + 8))) by (rewrite E2 in L3 |- *; destruct x, L3 as (_ & L3 & _); by eexists). rewrite st_ok by done. eexists. split; [done|]. assert (Hne : T2 <> []) by by rewrite E2. pose proof (sep_low f T2 Hs2 ltac:(lia)) as Hcf. split.
    + apply is_list_app. rewrite after_snoc, last0_snoc. cbn [fst]. split_and!.
      * apply linked_other; [done| |apply head_clear; [done|lia|by apply apart_sym]]. intros <-. eapply (head_touched T2 8 T2); [done|done|lia|done].
      * rewrite lookup_insert_ne; [done|]. apply apart_app_l in Hap as [_ Hap]. apply apart_cons_l in Hap as [Hap _]. rewrite E2 in *. apply off_cons in Hap as [Hap _]. cbn in *. lia.
      * by eapply tail_prev.
    + apply touched_write; [done|]. right. apply head_touched; [set_solver|done|lia].
Qed.

Lemma next_merge n ns T2' : free = true -> T2 = (n, ns) :: T2' -> t + ts = n -> exists m', join_next m t free = Ok m' /\ is_list m' f (T1 ++ (t, ts + ns) :: T2') /\ touched m m' f (T1 ++ (t, ts) :: T2).
Proof using All.
  intros Hfree E2 Etn. destruct Hh as (L1 & L2 & L3). subst T2. cbn [head0 fst] in *. apply linked_app in L1 as (L1 & Lf & Ets & Ep & _). destruct L3 as (Ens & _ & En & L3). apply sep_app in Hs as (Hs1 & (Ht & Hot & Hn & Hon & Hs2) & Hap). apply apart_cons_r in Hap as [Ho1 Hap]. apply apart_cons_r in Hap as [On1 Hap]. apply off_cons in Hot as [_ Hot]. cbn [fst] in *. pose proof (sep_low f T1 Hs1 ltac:(lia)) as Hcf. pose proof (sep_low f T2' Hs2 ltac:(lia)) as Hcf2.
  assert (Hb : n + ns <= B) by (unfold from in H2; apply Forall_cons in H2 as [H2 _]; apply H2). assert (Hns : 24 <= ns) by (unfold from in H2; apply Forall_cons in H2 as [H2 _]; apply H2).
  unfold join_next, b_next, b_size, b_prev. rewrite (ld_ok _ _ _ L2). cbn [rbind]. replace (n =? 0) with false by lia. cbn [negb]. rewrite (ld_ok _ _ _ Ets). cbn [rbind]. unfold u64. rewrite (Z.mod_small (t + ts)) by lia. rewrite Hfree. replace (t + ts =? n) with true by lia. cbn [andb]. rewrite (ld_ok _ _ _ Ens). cbn [rbind]. rewrite Z.mod_small by lia. rewrite st_ok by by eexists. cbn [rbind]. rewrite (ld_ok _ _ (head0 T2')) by (rewrite lookup_insert_ne by lia; done). cbn [rbind]. rewrite st_ok by (rewrite lookup_insert_ne by lia; by eexists). cbn [rbind].
  set (m2 := <[t + 16 := head0 T2']> (<[t := ts + ns]> m)).
  assert (Ha : after T1 f < t \/ t + 24 <= after T1 f) by (apply after_off; [done|lia]).
  assert (K1 : linked m2 f 0 (T1 ++ [(t, ts + ns)])). { apply linked_app. split; [apply linked_other; [apply linked_other; [done|lia|eapply off_clear; [exact Ho1|lia]]|lia|eapply off_clear; [exact Ho1|lia]]|]. cbn [linked]. unfold m2. rewrite !(lookup_insert_ne _ (t + 16)) by lia. rewrite lookup_insert_eq, !lookup_insert_ne by lia. done. }
  assert (K2 : m2 !! (t + 16) = Some (head0 T2')) by apply lookup_insert_eq. assert (K3 : tail m2 n T2') by (apply tail_other; [apply tail_other; [done|]|]; eapply off_clear; try exact Hot; lia).
  assert (K4 : touched m m2 f (T1 ++ (t, ts) :: (n, ns) :: T2')). { eapply touched_trans; apply touched_write; [by eexists| |rewrite lookup_insert_ne by lia; by eexists|]; right; apply (in_header (t, ts)); try (cbn; lia); set_solver. }
  replace (T1 ++ (t, ts + ns) :: T2') with ((T1 ++ [(t, ts + ns)]) ++ T2') by by rewrite <- app_assoc. destruct T2' as [|x T2''] eqn:E2.
  - exists m2. split; [done|]. split; [|done]. apply is_list_app. rewrite after_snoc. done.
  - rewrite <- E2 in *. assert (Hn2 : (head0 T2' =? 0) = false) by (apply head0_zero; [done|by rewrite E2]). rewrite Hn2. cbn [negb]. assert (Hx : is_Some (m2 !! (head0 T2' + 8))) by (rewrite E2 in K3 |- *; destruct x, K3 as (_ & K3 & _); by eexists). rewrite st_ok by done. eexists. split; [done|]. assert (Hne : T2' <> []) by by rewrite E2. split.
    + apply is_list_app. rewrite after_snoc, last0_snoc. cbn [fst]. split_and!.
      * apply linked_other; [done| |]. { intros <-. eapply (head_touched T2' 8 T2'); [done|done|lia|done]. } apply clear_app. split; [apply head_clear; [done|lia|by apply apart_sym]|]. apply clear_cons. split; [|apply clear_nil]. rewrite E2 in *. apply off_cons in Hot as [Hot _]. cbn in *. lia.
      * rewrite lookup_insert_ne; [done|]. rewrite E2 in *. apply off_cons in Hot as [Hot _]. cbn in *. lia.
      * by eapply tail_prev.
    + eapply touched_trans; [exact K4|]. apply touched_write; [done|]. right. apply head_touched; [set_solver|done|lia].
Qed.

End Next.
