(* ===== verification/AprRmmLayout.v ===== *)
(** * The layout of a relocatable region

    The region is tiled by its blocks. Moving a block, splitting one and finding the best
    one, in terms of the layout. *)

From stdpp Require Import gmap.
From S2P Require Import Prelude AprRmm AprRmmList AprRmmMove.

(** ** Layouts

    The blocks in the order of the memory, used or free, with their sizes. *)
Notation layout := (list (bool * Z)).

Fixpoint total (bl : layout) : Z := match bl with [] => 0 | x :: bl => x.2 + total bl end.

(** The used or the free blocks of a layout that begins at [o]. *)
Fixpoint blocks (u : bool) (o : Z) (bl : layout) : list block :=
  match bl with [] => [] | x :: bl => (if eqb x.1 u then [(o, x.2)] else []) ++ blocks u (o + x.2) bl end.

Definition good (bl : layout) : Prop := Forall (fun x => 24 <= x.2 /\ x.2 mod 8 = 0) bl.

(** No two free blocks are neighbours. *)
Definition joint (l1 l2 : layout) : Prop := match last l1, head l2 with Some (false, _), Some (false, _) => False | _, _ => True end.
Fixpoint tight (bl : layout) : Prop := match bl with [] => True | x :: bl => joint [x] bl /\ tight bl end.

Lemma total_app l1 l2 : total (l1 ++ l2) = total l1 + total l2.
Proof. induction l1 as [|x l1 IH]; cbn; lia. Qed.

Lemma layout_blocks_app u l1 : forall o l2, blocks u o (l1 ++ l2) = blocks u o l1 ++ blocks u (o + total l1) l2.
Proof. induction l1 as [|x l1 IH]; intros o l2; cbn; [by rewrite Z.add_0_r|]. rewrite IH, <- app_assoc, Z.add_assoc. done. Qed.

Lemma good_app l1 l2 : good (l1 ++ l2) <-> good l1 /\ good l2.
Proof. apply Forall_app. Qed.

Lemma good_cons x l : good (x :: l) <-> (24 <= x.2 /\ x.2 mod 8 = 0) /\ good l.
Proof. unfold good. by rewrite Forall_cons. Qed.

Lemma total_nonneg bl : good bl -> 0 <= total bl.
Proof. induction bl as [|x bl IH]; cbn; [done|]. intros H. apply good_cons in H as [? H]. specialize (IH H). lia. Qed.

Lemma total_mod bl : good bl -> total bl mod 8 = 0.
Proof. induction bl as [|x bl IH]; cbn; [done|]. intros H. apply good_cons in H as [[_ Hx] H]. rewrite Z.add_mod, IH, Hx by (done || lia). done. Qed.

(** Where the blocks are. *)
Lemma blocks_from u bl : forall o, good bl -> from o (o + total bl) (blocks u o bl).
Proof.
  unfold from. induction bl as [|x bl IH]; intros o H; cbn; [constructor|]. apply good_cons in H as [Hx H]. pose proof (total_nonneg bl H). apply Forall_app. split.
  - destruct (eqb x.1 u); constructor; cbn; [lia|constructor].
  - eapply Forall_impl; [apply IH; done|]. cbn. lia.
Qed.

Lemma blocks_below u bl o : good bl -> below (o + total bl) (blocks u o bl).
Proof. intros H. eapply Forall_impl; [by apply blocks_from|]. cbn. lia. Qed.

Lemma from_off o B l : from (o + 24) B l -> off o l.
Proof. intros H. eapply Forall_impl; [exact H|]. cbn. lia. Qed.

Lemma from_weaken o o' B B' l : from o B l -> o' <= o -> B <= B' -> from o' B' l.
Proof. intros H ? ?. eapply Forall_impl; [exact H|]. cbn. lia. Qed.

Lemma blocks_sep bl : forall o, good bl -> 24 <= o -> sep (blocks true o bl ++ blocks false o bl).
Proof.
  induction bl as [|[u s] bl IH]; intros o H Ho; [done|]. apply good_cons in H as [Hx H]. cbn [snd] in Hx. specialize (IH (o + s) H ltac:(lia)). cbn [blocks fst snd].
  assert (Hoff : off o (blocks true (o + s) bl ++ blocks false (o + s) bl)). { apply off_app. split; eapply from_off, (from_weaken (o + s) _ _ (o + s + total bl)); (by apply blocks_from) || lia. }
  destruct u; cbn [eqb app]; [done|]. eapply sep_perm; [apply Permutation_middle|]. done.
Qed.

(** ** The representation *)

Record laid (m : region) (bl : layout) (size : Z) : Prop := {
  laid_used : is_list m firstused (blocks true 24 bl);
  laid_free : is_list m firstfree (blocks false 24 bl);
  laid_good : good bl;
  laid_size : 24 + total bl = size;
  laid_bound : size < 2 ^ 64;
  laid_dom : forall a, is_Some (m !! a) <-> 0 <= a < size /\ a mod 8 = 0 }.

(** What the operations do to words that are in no header. *)
Definition spared (m m' : region) (l : list block) : Prop := forall a, a = 0 \/ 24 <= a -> clear a l -> m' !! a = m !! a.

Lemma touched_spared m m' f l l' : touched m m' f l -> 0 < f < 24 -> l ⊆ l' -> spared m m' l'.
Proof. intros [_ H] Hf Hl a Ha Hc. apply H; [lia|]. unfold clear in *. rewrite Forall_forall in *. auto. Qed.

Lemma spared_trans m1 m2 m3 l : spared m1 m2 l -> spared m2 m3 l -> spared m1 m3 l.
Proof. intros H1 H2 a Ha Hc. by rewrite H2, H1. Qed.

(** All blocks. *)
Definition all (bl : layout) : list block := blocks true 24 bl ++ blocks false 24 bl.

(** ** Moving a block between two lists *)

Lemma move_block_parts m o free : move_block m o free = (do m <- unlink m o free; do (t, m) <- (do m <- relink m o free; join_prev m o free); join_next m t free).
Proof. unfold move_block. destruct (unlink m o free) as [m0|]; [|done]. cbn [rbind]. by destruct (relink m0 o free). Qed.

Definition source (free : bool) : Z := if free then firstused else firstfree.
Definition target (free : bool) : Z := if free then firstfree else firstused.

Lemma heads_low free : 0 < source free < 24 /\ 0 < target free < 24 /\ source free <> target free.
Proof. unfold source, target, firstused, firstfree. destruct free; lia. Qed.

Section Lists.
  Context (o s : Z) (S1 S2 T : list block) (free : bool) (Hs : sep ((S1 ++ (o, s) :: S2) ++ T)).

Lemma both_apart : sep (S1 ++ (o, s) :: S2) /\ sep (S1 ++ S2) /\ sep ((o, s) :: T) /\ apart (S1 ++ S2) ((o, s) :: T).
Proof using All.
  apply sep_app in Hs as (HS & HT & Hap). apply apart_app_l in Hap as [H1 H2]. apply apart_cons_l in H2 as [Ho H2]. pose proof HS as HS'. apply sep_app in HS' as (HS1 & (Hlow & HoS & HS2) & H12). apply apart_cons_r in H12 as [HoS1 H12]. cbn [fst] in *. split; [done|]. split; [by apply sep_app|]. split; [done|]. apply apart_cons_r. split; [by apply off_app|]. by apply apart_app_l.
Qed.

Lemma detach m : is_list m (source free) (S1 ++ (o, s) :: S2) -> is_list m (target free) T ->
  exists m1, unlink m o free = Ok m1 /\ is_list m1 (source free) (S1 ++ S2) /\ is_list m1 (target free) T /\ m1 !! o = Some s /\ is_Some (m1 !! (o + 8)) /\ is_Some (m1 !! (o + 16)) /\ touched m m1 (source free) (S1 ++ S2).
Proof using All.
  intros HlS HlT. destruct both_apart as (HS & HS' & HT & Hap). destruct (heads_low free) as (Hf1 & Hf2 & Hf). destruct (unlink_ok m o s S1 S2 free HlS HS) as (m1 & E1 & L1 & T1). fold (source free) in L1, T1. exists m1. split; [done|]. split; [done|]. split.
  - eapply is_list_touched; [exact HlT|exact T1|done|by apply sep_low; [|lia]| |apply apart_sym; by apply apart_cons_r in Hap as [_ Hap]]. apply sep_low; [apply HT|lia].
  - assert (Hw : forall a, o <= a < o + 24 -> m1 !! a = m !! a). { destruct T1 as [_ T1]. intros a Ha. destruct HT as (Ho & _). cbn in Ho. apply T1; [lia|]. apply apart_cons_r in Hap as [Hap _]. eapply off_clear; [exact Hap|cbn; lia]. }
    apply is_list_app in HlS as (_ & _ & E & Ep & En & _). rewrite !Hw by lia. split_and!; try done; by eexists.
Qed.

Lemma attach_keeps m1 m2 : is_list m1 (source free) (S1 ++ S2) -> touched m1 m2 (target free) ((o, s) :: T) -> is_list m2 (source free) (S1 ++ S2).
Proof using All.
  intros Hl Ht. destruct both_apart as (_ & HS' & HT & Hap). destruct (heads_low free) as (Hf1 & Hf2 & Hf). eapply is_list_touched; [exact Hl|exact Ht|done| | |exact Hap]; apply sep_low; done || lia.
Qed.

End Lists.

(** What has not changed after a move. *)
Lemma moved m m1 m2 m3 free l l' : touched m m1 (source free) l -> touched m1 m2 (target free) l' -> touched m2 m3 (target free) l' -> dom m3 = dom m /\ spared m m3 (l ++ l').
Proof.
  intros H1 H2 H3. destruct (heads_low free) as (? & ? & _). split; [destruct H1, H2, H3; congruence|]. eapply spared_trans; [eapply touched_spared; [exact H1|done|set_solver]|]. eapply spared_trans; (eapply touched_spared; [eassumption|done|set_solver]).
Qed.

(** A free block and its neighbours become one. *)
Definition absorb (free : bool) (T1 : list block) (o s : Z) : list block * block :=
  match last T1 with
  | Some (p, ps) => if free && (p + ps =? o) then (removelast T1, (p, ps + s)) else (T1, (o, s))
  | None => (T1, (o, s))
  end.

Definition take_next (free : bool) (x : block) (T2 : list block) : list block :=
  match T2 with
  | (n, ns) :: T2' => if free && (x.1 + x.2 =? n) then (x.1, x.2 + ns) :: T2' else x :: T2
  | [] => [x]
  end.

Section Place.
  Context (o s B : Z) (T1 T2 : list block) (free : bool).
  Context (Hs : sep ((o, s) :: T1 ++ T2)) (H1 : below o T1) (H2 : from (o + s) B T2) (HB : o + s <= B < 2 ^ 64) (Hos : 24 <= s).

Lemma absorb_ok m : is_list m (target free) (T1 ++ T2) -> m !! o = Some s -> is_Some (m !! (o + 8)) -> is_Some (m !! (o + 16)) ->
  exists m' q, (do m <- relink m o free; join_prev m o free) = Ok ((absorb free T1 o s).2.1, m') /\ half m' (target free) (absorb free T1 o s).1 (absorb free T1 o s).2 T2 q /\ touched m m' (target free) ((o, s) :: T1 ++ T2).
Proof using All.
  intros Hl E0 Ep En. unfold absorb. assert (Halone : free = false \/ (forall p ps, last T1 = Some (p, ps) -> p + ps <> o) -> exists m' q, (do m <- relink m o free; join_prev m o free) = Ok (o, m') /\ half m' (target free) T1 (o, s) T2 q /\ touched m m' (target free) ((o, s) :: T1 ++ T2)).
  { intros Hc. eexists _, _. split; [by eapply insert_alone|]. by apply (m2_half m o s B). }
  destruct (last T1) as [[p ps]|] eqn:El; [|by apply Halone; right]. destruct free eqn:Ef; cbn [andb]; [|by apply Halone; left]. destruct (Z.eqb_spec (p + ps) o) as [Epo|Hne]; [|apply Halone; right; congruence]. cbn [fst snd]. pose proof El as El'. apply last_Some in El' as [T1' ->]. rewrite removelast_last. destruct (insert_merge m o s B (T1' ++ [(p, ps)]) T2 true Hl Hs H1 H2 HB Hos E0 Ep En p ps T1' eq_refl eq_refl Epo) as (m' & E & Hh & Ht). by exists m', p.
Qed.

(** What is absorbed is where the block and its predecessor were. *)
Lemma absorb_place : let T1' := (absorb free T1 o s).1 in let x := (absorb free T1 o s).2 in
  sep (T1' ++ x :: T2) /\ x.1 + x.2 = o + s /\ 24 <= x.2 /\ (forall a, clear a ((o, s) :: T1 ++ T2) -> clear a (T1' ++ x :: T2)).
Proof using All.
  cbv zeta. unfold absorb. assert (Hsep : sep (T1 ++ (o, s) :: T2)) by (eapply sep_perm; [apply Permutation_middle|done]).
  assert (Halone : sep (T1 ++ (o, s) :: T2) /\ o + s = o + s /\ 24 <= s /\ (forall a, clear a ((o, s) :: T1 ++ T2) -> clear a (T1 ++ (o, s) :: T2))).
  { split_and!; try done. intros a Hc. unfold clear in *. by rewrite <- Permutation_middle. }
  destruct (last T1) as [[p ps]|] eqn:El; [|done]. destruct free; cbn [andb]; [|done]. destruct (Z.eqb_spec (p + ps) o) as [Epo|Hne]; [|done]. apply last_Some in El as [T1' ->]. rewrite removelast_last. cbn [fst snd].
  assert (Hps : 24 <= ps) by (apply Forall_app in H1 as [_ H1]; apply Forall_cons in H1 as [H1 _]; apply H1). split_and!; [|lia|lia|].
  - destruct Hs as (_ & _ & Hs'). rewrite <- app_assoc in Hs'. apply sep_app in Hs' as (? & Hs2 & Hap). apply sep_app. split; [done|]. split; [exact Hs2|]. apply apart_cons_r in Hap as [Hap Hap2]. by apply apart_cons_r.
  - intros a Hc. apply clear_cons in Hc as [_ Hc]. rewrite <- app_assoc in Hc. apply clear_app in Hc as [Hc1 Hc2]. apply clear_app. split; [done|]. apply clear_cons in Hc2 as [Hc2 Hc3]. by apply clear_cons.
Qed.

Lemma take_next_ok m q t ts T1' : half m (target free) T1' (t, ts) T2 q -> sep (T1' ++ (t, ts) :: T2) -> t + ts = o + s -> 24 <= ts ->
  exists m', join_next m t free = Ok m' /\ is_list m' (target free) (T1' ++ take_next free (t, ts) T2) /\ touched m m' (target free) (T1' ++ (t, ts) :: T2).
Proof using All.
  intros Hh Hsep Et Hts. destruct (heads_low free) as (_ & Hf & _). unfold take_next. cbn [fst snd]. assert (Hfr : from (t + ts) B T2) by by rewrite Et. assert (HBt : t + ts <= B < 2 ^ 64) by lia. destruct T2 as [|[n ns] T2'] eqn:E2.
  - eapply next_alone; eauto. right. cbn. destruct Hs as (? & _). cbn in *. lia.
  - rewrite <- E2 in *. destruct free eqn:Ef; cbn [andb]; [|eapply next_alone; eauto]. destruct (Z.eqb_spec (t + ts) n) as [En|Hne]; [by eapply next_merge; eauto|]. eapply next_alone; eauto. right. by rewrite E2.
Qed.

End Place.

Lemma move_lists m o s B S1 S2 T1 T2 free : is_list m (source free) (S1 ++ (o, s) :: S2) -> is_list m (target free) (T1 ++ T2) ->
  sep ((S1 ++ (o, s) :: S2) ++ T1 ++ T2) -> below o T1 -> from (o + s) B T2 -> o + s <= B < 2 ^ 64 -> 24 <= s ->
  exists m', move_block m o free = Ok m' /\ is_list m' (source free) (S1 ++ S2) /\ is_list m' (target free) ((absorb free T1 o s).1 ++ take_next free (absorb free T1 o s).2 T2)
    /\ dom m' = dom m /\ spared m m' ((S1 ++ (o, s) :: S2) ++ T1 ++ T2).
Proof.
  intros HlS HlT Hs H1 H2 HB Hos. destruct (detach o s S1 S2 (T1 ++ T2) free Hs m HlS HlT) as (m1 & E1 & L1 & L2 & Eo & Ep & En & Ht1). destruct (both_apart o s S1 S2 (T1 ++ T2) free Hs) as (_ & _ & Hsep & _).
  destruct (absorb_ok o s B T1 T2 free Hsep H1 H2 HB Hos m1 L2 Eo Ep En) as (m2 & q & E2 & Hh & Ht2). destruct (absorb_place o s B T1 T2 free Hsep H1 H2 HB Hos) as (Hsep2 & Ex & Hx & Hc). cbv zeta in *. destruct (absorb free T1 o s) as [T1' [t ts]]. cbn [fst snd] in *.
  destruct (take_next_ok o s B T1 T2 free Hsep H1 H2 HB Hos m2 q t ts T1' Hh Hsep2 Ex Hx) as (m3 & E3 & L3 & Ht3). exists m3. rewrite move_block_parts, E1. cbn [rbind]. rewrite E2. cbn [rbind].
  assert (Ht3' : touched m2 m3 (target free) ((o, s) :: T1 ++ T2)) by (destruct Ht3 as [D Ht3]; split; [done|]; auto). split; [done|]. split; [|split; [done|]].
  - eapply attach_keeps; [exact Hs| |exact Ht3']. by eapply attach_keeps.
  - destruct (moved _ _ _ _ _ _ _ Ht1 Ht2 Ht3') as [Hd Hsp]. split; [done|]. intros a Ha Hca. apply Hsp; [done|]. apply clear_app in Hca as [Hca1 Hca2]. apply clear_app in Hca1 as [? Hca1]. apply clear_cons in Hca1 as [? ?]. apply clear_app. split; [by apply clear_app|by apply clear_cons].
Qed.
