(* ===== verification/AprRmmBlocks.v ===== *)
(** * The operations on the layout of a relocatable region

    What [move_block] and [find_block_of_size] do to the tiling of the region. *)

From stdpp Require Import gmap.
From S2P Require Import Prelude AprRmm AprRmmList AprRmmMove AprRmmLayout.

Lemma tight_app l1 l2 : tight (l1 ++ l2) <-> tight l1 /\ tight l2 /\ joint l1 l2.
Proof.
  induction l1 as [|x l1 IH]; cbn [app tight]; [unfold joint; cbn; tauto|]. rewrite IH. destruct l1 as [|y l1]; [destruct x as [[|] z]; unfold joint; cbn; tauto|]. assert (E : joint (x :: y :: l1) l2 <-> joint (y :: l1) l2) by (unfold joint; by rewrite last_cons_cons). rewrite E. unfold joint. cbn [app head last]. tauto.
Qed.

(** ** Giving a block back *)

Definition give_back (l1 : layout) (s : Z) : layout * Z := match last l1 with Some (false, ps) => (removelast l1, ps + s) | _ => (l1, s) end.
Definition take_free (s : Z) (l2 : layout) : layout := match l2 with (false, ns) :: l2 => (false, s + ns) :: l2 | _ => (false, s) :: l2 end.
Definition release (l1 : layout) (s : Z) (l2 : layout) : layout := (give_back l1 s).1 ++ take_free (give_back l1 s).2 l2.

Lemma mod8_add a b : a mod 8 = 0 -> b mod 8 = 0 -> (a + b) mod 8 = 0.
Proof. intros Ha Hb. by rewrite Z.add_mod, Ha, Hb by lia. Qed.

Lemma last_split (l : layout) : l = [] \/ exists l' x, l = l' ++ [x].
Proof. destruct l as [|y l] using rev_ind; [by left|right]. by exists l, y. Qed.

Lemma give_back_ok l1 s : good l1 -> 24 <= s -> s mod 8 = 0 -> let r := give_back l1 s in
  absorb true (blocks false 24 l1) (24 + total l1) s = (blocks false 24 r.1, (24 + total r.1, r.2)) /\ blocks true 24 r.1 = blocks true 24 l1 /\ total r.1 + r.2 = total l1 + s /\ good r.1 /\ 24 <= r.2 /\ r.2 mod 8 = 0.
Proof.
  intros Hg Hs Hs8. cbv zeta. unfold give_back. destruct (last_split l1) as [->|(l & [u ps] & ->)]; [done|]. rewrite last_snoc, removelast_last. apply good_app in Hg as [Hg Hx]. apply good_cons in Hx as [[Hps Hps8] _]. cbn [snd] in *. pose proof (blocks_below false l 24 Hg) as Hb. destruct u.
  - cbn [fst snd]. rewrite !layout_blocks_app, total_app. cbn [blocks fst snd eqb app total]. rewrite !app_nil_r. split_and!; try done; [|apply good_app; split; [done|]; apply good_cons; split; [done|constructor]]. unfold absorb. destruct (last (blocks false 24 l)) as [[p pz]|] eqn:El; [|done]. apply last_Some_elem_of in El. unfold below in Hb. rewrite Forall_forall in Hb. specialize (Hb _ El). cbn in Hb. replace (p + pz =? 24 + (total l + (ps + 0))) with false by lia. done.
  - cbn [fst snd]. rewrite !layout_blocks_app, total_app. cbn [blocks fst snd eqb app total]. rewrite app_nil_r. split_and!; try done; [|lia|lia|by apply mod8_add]. unfold absorb. rewrite last_snoc, removelast_last. replace (24 + total l + ps =? 24 + (total l + (ps + 0))) with true by lia. done.
Qed.

Lemma take_free_ok o s l2 : good l2 -> 24 <= s -> s mod 8 = 0 ->
  take_next true (o, s) (blocks false (o + s) l2) = blocks false o (take_free s l2) /\ blocks true o (take_free s l2) = blocks true (o + s) l2 /\ total (take_free s l2) = s + total l2 /\ good (take_free s l2).
Proof.
  intros Hg Hs Hs8. unfold take_free. destruct l2 as [|[[|] ns] l2]; cbn [blocks fst snd eqb app total].
  - split_and!; try done. apply good_cons. split; [done|constructor].
  - apply good_cons in Hg as [[Hns Hns8] Hg]. cbn [snd] in *. split_and!; try done; [|do 2 (apply good_cons; split; [done|]); done]. unfold take_next. cbn [fst snd]. pose proof (blocks_from false l2 (o + s + ns) Hg) as Hf. destruct (blocks false (o + s + ns) l2) as [|[n z] F2]; [done|]. apply Forall_cons in Hf as [Hf _]. cbn in Hf. by replace (o + s =? n) with false by lia.
  - apply good_cons in Hg as [[Hns Hns8] Hg]. cbn [snd] in *. rewrite !Z.add_assoc. split_and!; try done; [|apply good_cons; split; [split; [cbn; lia|by apply mod8_add]|done]]. unfold take_next. cbn [fst snd]. by rewrite Z.eqb_refl.
Qed.

Lemma release_tight l1 s l2 : tight (l1 ++ (true, s) :: l2) -> tight (release l1 s l2).
Proof.
  intros Ht. apply tight_app in Ht as (H1 & [_ H2] & _). unfold release. assert (Hl : tight (give_back l1 s).1 /\ forall n l, joint (give_back l1 s).1 ((false, n) :: l)).
  { unfold give_back. destruct (last_split l1) as [->|(l & [u ps] & ->)]; [done|]. rewrite last_snoc, removelast_last. apply tight_app in H1 as (H1 & _ & H3). destruct u; cbn [fst].
    - split; [|intros n l0; unfold joint; rewrite last_snoc; done]. apply tight_app. done.
    - split; [done|]. intros n l0. unfold joint in *. cbn in H3. by destruct (last l) as [[[|] ?]|]. }
  destruct Hl as [Hl1 Hl2]. apply tight_app. split; [done|]. unfold take_free. destruct l2 as [|[[|] ns] l2]; (split; [|apply Hl2]); cbn [tight]; done.
Qed.

(** ** Moving a block *)

Section Move.
  Context (m : region) (size : Z) (l1 l2 : layout) (s : Z).

Lemma laid_sep bl : good bl -> sep (all bl) /\ sep (blocks false 24 bl ++ blocks true 24 bl).
Proof using Type. intros Hg. pose proof (blocks_sep bl 24 Hg ltac:(lia)) as H. split; [exact H|]. eapply sep_perm; [apply Permutation_app_comm|exact H]. Qed.

Lemma move_used : laid m (l1 ++ (false, s) :: l2) size ->
  exists m', move_block m (24 + total l1) false = Ok m' /\ laid m' (l1 ++ (true, s) :: l2) size /\ spared m m' (all (l1 ++ (false, s) :: l2)).
Proof using Type.
  intros [Hu Hf Hg Hsz Hb Hd]. destruct (laid_sep _ Hg) as [_ Hsep]. unfold all. rewrite !layout_blocks_app in *. cbn [blocks fst snd eqb app] in *. pose proof Hg as Hg0. apply good_app in Hg as [Hg1 Hg2]. apply good_cons in Hg2 as [[Hs Hs8] Hg2]. cbn [fst snd] in Hs, Hs8. rewrite total_app in Hsz. cbn in Hsz. pose proof (total_nonneg _ Hg2) as Ht2.
  destruct (move_lists m (24 + total l1) s size (blocks false 24 l1) (blocks false (24 + total l1 + s) l2) (blocks true 24 l1) (blocks true (24 + total l1 + s) l2) false) as (m' & E & L1 & L2 & D & Hsp); try done; [by apply blocks_below|replace size with (24 + total l1 + s + total l2) by lia; by apply blocks_from|lia|].
  exists m'. split; [done|]. split; [|intros a Ha Hc; apply Hsp; [done|]; unfold clear in *; rewrite Permutation_app_comm in Hc; exact Hc].
  assert (E1 : absorb false (blocks true 24 l1) (24 + total l1) s = (blocks true 24 l1, (24 + total l1, s))) by (unfold absorb; by destruct (last _) as [[? ?]|]). rewrite E1 in L2. cbn [fst snd] in L2. assert (E2 : forall x l, take_next false x l = x :: l) by (intros x [|[? ?] ?]; done). rewrite E2 in L2. split.
  - rewrite layout_blocks_app. exact L2.
  - rewrite layout_blocks_app. exact L1.
  - apply good_app. apply good_app in Hg0 as [? Hg0]. apply good_cons in Hg0 as [? ?]. split; [done|]. by apply good_cons.
  - rewrite total_app. cbn. lia.
  - done.
  - intros a. rewrite <- Hd, <- !elem_of_dom, D. done.
Qed.

Lemma move_free : laid m (l1 ++ (true, s) :: l2) size ->
  exists m', move_block m (24 + total l1) true = Ok m' /\ laid m' (release l1 s l2) size /\ spared m m' (all (l1 ++ (true, s) :: l2)).
Proof using Type.
  intros [Hu Hf Hg Hsz Hb Hd]. destruct (laid_sep _ Hg) as [Hsep _]. unfold all in *. rewrite !layout_blocks_app in *. cbn [blocks fst snd eqb app] in *. apply good_app in Hg as [Hg1 Hg2]. apply good_cons in Hg2 as [[Hs Hs8] Hg2]. cbn [fst snd] in Hs, Hs8. rewrite total_app in Hsz. cbn in Hsz. pose proof (total_nonneg _ Hg2) as Ht2.
  destruct (move_lists m (24 + total l1) s size (blocks true 24 l1) (blocks true (24 + total l1 + s) l2) (blocks false 24 l1) (blocks false (24 + total l1 + s) l2) true) as (m' & E & L1 & L2 & D & Hsp); try done; [by apply blocks_below|replace size with (24 + total l1 + s + total l2) by lia; by apply blocks_from|lia|].
  exists m'. split; [done|]. split; [|done]. destruct (give_back_ok l1 s Hg1 Hs Hs8) as (A1 & A2 & A3 & A4 & A5 & A6). cbv zeta in *. rewrite A1 in L2. cbn [fst snd] in L2. unfold release. destruct (give_back l1 s) as [l1' s']. cbn [fst snd] in *. replace (24 + total l1 + s) with (24 + total l1' + s') in * by lia. destruct (take_free_ok (24 + total l1') s' l2 Hg2 A5 A6) as (B1 & B2 & B3 & B4). split.
  - by rewrite layout_blocks_app, A2, B2.
  - rewrite layout_blocks_app, <- B1. exact L2.
  - by apply good_app.
  - rewrite total_app. lia.
  - done.
  - intros a. rewrite <- Hd, <- !elem_of_dom, D. done.
Qed.

End Move.

(** ** Finding a block *)

Lemma best_fit_ok m size l : forall p fuel best bestsize, tail m p l -> sep l -> Forall (fun x => 24 <= x.2) l -> (length l < fuel)%nat ->
  exists r, best_fit fuel m (head0 l) size best bestsize = Ok r /\
    match r with
    | inl o => (o, size) ∈ l
    | inr (b, bs) => ((b, bs) = (best, bestsize) \/ (b, bs) ∈ l /\ size < bs) /\ Forall (fun x => x.2 < size \/ bs <> 0) l /\ (bestsize <> 0 -> bs <> 0)
    end.
Proof.
  induction l as [|[o s] l IH]; intros p [|fuel] best bestsize Ht Hs Hg Hfuel; try (cbn in Hfuel; lia); cbn [best_fit head0 fst].
  - exists (inr (best, bestsize)). split; [done|]. split; [by left|]. split; [constructor|done].
  - destruct Ht as (E1 & _ & E3 & E4). destruct Hs as (Ho & _ & Hs). apply Forall_cons in Hg as [Hgs Hg]. cbn [fst snd] in *. replace (o =? 0) with false by lia. unfold b_size, b_next. rewrite (ld_ok _ _ _ E1). cbn [rbind]. destruct (Z.eqb_spec s size) as [->|Hne]; [exists (inl o); split; [done|left]|]. rewrite (ld_ok _ _ _ E3). cbn [rbind]. cbn in Hfuel.
    destruct ((size <=? s) && ((bestsize =? 0) || (s <? bestsize))) eqn:Ec.
    + destruct (IH o fuel o s E4 Hs Hg ltac:(lia)) as (r & -> & Hr). exists r. split; [done|]. destruct r as [a|[b bs]]; [by right|]. destruct Hr as (Hr1 & Hr2 & Hr3). specialize (Hr3 ltac:(lia)). apply andb_prop in Ec as [Ec _]. split; [right; destruct Hr1 as [[= -> ->]|[? ?]]; split; [left|lia|by right|done]|]. split; [constructor; [by right|done]|done].
    + destruct (IH o fuel best bestsize E4 Hs Hg ltac:(lia)) as (r & -> & Hr). exists r. split; [done|]. destruct r as [a|[b bs]]; [by right|]. destruct Hr as (Hr1 & Hr2 & Hr3). split; [destruct Hr1 as [?|[? ?]]; [by left|right; split; [by right|done]]|]. split; [constructor; [|done]|done]. cbn. destruct (Z.leb_spec size s); [|lia]. right. apply Hr3. cbn in Ec. apply orb_false_iff in Ec as [Ec _]. lia.
Qed.

(** A word of one block is in no header of the others. *)
Ltac cell := first [done | lia | match goal with H : off ?o ?l |- clear _ ?l => apply (off_clear o _ l H); lia end].

(** What is left of a block becomes a free block. *)
Lemma split_ok m o s size F1 F2 : let f := firstfree in let n := o + size in let F' := F1 ++ (o, size) :: (n, s - size) :: F2 in
  is_list m f (F1 ++ (o, s) :: F2) -> sep F' -> 24 <= size -> size + 24 <= s -> o + s < 2 ^ 64 -> (forall k, k = 0 \/ k = 8 \/ k = 16 -> is_Some (m !! (n + k))) ->
  exists m', split_block m o size = Ok m' /\ is_list m' f F' /\ touched m m' f F'.
Proof.
  intros f n F' Hl Hs Hsize Hss Hb Hn. apply is_list_app in Hl as (L1 & L2 & E1 & E2 & E3 & L3). cbn [head0 fst] in L2. unfold F' in *. apply sep_app in Hs as (Hs1 & (Ho & Hoff & Hn24 & Hnoff & Hs2) & Hap). apply apart_cons_r in Hap as [Ho1 Hap]. apply apart_cons_r in Hap as [Hn1 Hap]. apply off_cons in Hoff as [Hon Ho2]. cbn [fst] in *. assert (Hf : f = 16) by done.
  assert (Ha : (after F1 f < o \/ o + 24 <= after F1 f) /\ (after F1 f < n \/ n + 24 <= after F1 f)) by (split; apply after_off; done || lia). pose proof (Hn 0 ltac:(lia)) as N0. rewrite Z.add_0_r in N0. pose proof (Hn 8 ltac:(lia)) as N8. pose proof (Hn 16 ltac:(lia)) as N16.
  unfold split_block, b_size, b_next, b_prev. fold n. rewrite (ld_ok _ _ _ E1). cbn [rbind]. unfold u64. rewrite !Z.mod_small by lia. rewrite st_ok by done. cbn [rbind]. rewrite (ld_ok _ _ (head0 F2)) by (rewrite lookup_insert_ne by lia; done). cbn [rbind]. rewrite st_ok by (rewrite lookup_insert_ne by lia; done). cbn [rbind]. rewrite st_ok by (rewrite !lookup_insert_ne by lia; done). cbn [rbind]. rewrite st_ok by (rewrite !lookup_insert_ne by lia; by eexists). cbn [rbind]. rewrite st_ok by (rewrite !lookup_insert_ne by lia; by eexists). cbn [rbind]. rewrite (ld_ok _ _ (head0 F2)) by (rewrite !lookup_insert_ne by lia; by rewrite lookup_insert_eq). cbn [rbind].
  set (m5 := <[o + 16 := n]> _). assert (K1 : linked m5 f 0 F1). by (unfold m5; repeat apply linked_other; cell).
  assert (K2 : m5 !! after F1 f = Some o) by (unfold m5; rewrite !lookup_insert_ne by lia; done). assert (K3 : tail m5 o F2) by (unfold m5; repeat apply tail_other; cell).
  assert (K4 : m5 !! o = Some size /\ m5 !! (o + 8) = Some (last0 F1 0) /\ m5 !! (o + 16) = Some n /\ m5 !! n = Some (s - size) /\ m5 !! (n + 8) = Some o /\ m5 !! (n + 16) = Some (head0 F2)).
  { unfold m5. repeat split; repeat (rewrite lookup_insert_ne by lia); try apply lookup_insert_eq. done. }
  assert (K5 : touched m m5 f (F1 ++ (o, size) :: (n, s - size) :: F2)).
  { unfold m5. repeat apply touched_more; [apply touched_refl|..]; try (repeat (rewrite lookup_insert_ne by lia); done || by eexists); right; first [apply (in_header (o, size)); [set_solver|cbn; lia]|apply (in_header (n, s - size)); [set_solver|cbn; lia]]. }
  replace (F1 ++ (o, size) :: (n, s - size) :: F2) with ((F1 ++ [(o, size); (n, s - size)]) ++ F2) in * by by rewrite <- app_assoc. assert (K6 : linked m5 f 0 (F1 ++ [(o, size); (n, s - size)])) by (apply linked_app; cbn [linked]; tauto). assert (Ea : after (F1 ++ [(o, size); (n, s - size)]) f = n + 16 /\ last0 (F1 ++ [(o, size); (n, s - size)]) 0 = n) by (unfold after, last0; by rewrite last_app).
  destruct F2 as [|x F2'] eqn:E.
  - exists m5. split; [done|]. split; [|done]. apply is_list_app. destruct Ea as [-> ->]. tauto.
  - rewrite <- E in *. assert (Hne : F2 <> []) by by rewrite E. assert (Hz : (head0 F2 =? 0) = false) by by apply head0_zero. rewrite Hz. cbn [negb]. assert (Hx : is_Some (m5 !! (head0 F2 + 8))) by (rewrite E in K3 |- *; destruct x, K3 as (_ & K3 & _); by eexists). rewrite st_ok by done. eexists. split; [done|]. split.
    + apply is_list_app. destruct Ea as [-> ->]. split_and!; [|rewrite lookup_insert_ne; [tauto|]|by eapply tail_prev].
      * apply linked_other; [done|intros Hy; apply (head_touched F2 8 F2); [done|done|lia|rewrite Hy; apply sep_low; [done|lia]]|]. apply head_clear; [done|lia|]. apply apart_app_r. split; [by apply apart_sym|]. apply apart_cons_r. split; [done|]. apply apart_cons_r. split; [done|]. apply apart_nil_r.
      * rewrite E in Hnoff. apply off_cons in Hnoff as [Hnoff _]. rewrite E. cbn. lia.
    + eapply touched_trans; [exact K5|]. apply touched_write; [done|]. right. apply head_touched; [set_solver|done|lia].
Qed.

(** ** Allocating a block *)

Lemma block_split u bl : forall o a s, (a, s) ∈ blocks u o bl -> exists l1 l2, bl = l1 ++ (u, s) :: l2 /\ a = o + total l1.
Proof.
  induction bl as [|[v z] bl IH]; intros o a s H; cbn [blocks fst snd] in H; [by apply not_elem_of_nil in H|]. apply elem_of_app in H as [H|H].
  - destruct (eqb v u) eqn:E; [|by apply not_elem_of_nil in H]. apply eqb_prop in E as ->. apply list_elem_of_singleton in H as [= -> ->]. exists [], bl. split; [done|cbn; lia].
  - destruct (IH _ _ _ H) as (l1 & l2 & -> & ->). exists ((v, z) :: l1), l2. split; [done|cbn; lia].
Qed.

(** The layout in which the first [size] bytes of a free block are used, or all of them if
    the rest is too small for a block. *)
Definition carve (l1 : layout) (s size : Z) (l2 : layout) : layout :=
  if size + 24 <? s then l1 ++ (true, size) :: (false, s - size) :: l2 else l1 ++ (true, s) :: l2.

Lemma carve_tight l1 s size l2 : tight (l1 ++ (false, s) :: l2) -> tight (carve l1 s size l2).
Proof.
  intros H. apply tight_app in H as (H1 & [H2 H3] & H4). unfold carve. destruct (_ <? _); apply tight_app; cbn [tight]; (split; [done|]); split; try done; by destruct (last l1) as [[[|] ?]|] eqn:E; unfold joint; rewrite E.
Qed.

Lemma split_layout m l1 s l2 sz size : laid m (l1 ++ (false, s) :: l2) sz -> 24 <= size -> size mod 8 = 0 -> size + 24 <= s -> let bl' := l1 ++ (false, size) :: (false, s - size) :: l2 in
  exists m', split_block m (24 + total l1) size = Ok m' /\ laid m' bl' sz /\ spared m m' (all bl').
Proof.
  intros [Hu Hf Hg Hsz Hb Hd] Hs24 Hs8 Hs bl'. apply good_app in Hg as [Hg1 Hg2]. apply good_cons in Hg2 as [[Hs1 Hs2] Hg2]. cbn [snd] in *. pose proof (total_nonneg _ Hg1) as Ht1. pose proof (total_nonneg _ Hg2) as Ht2. pose proof (total_mod _ Hg1) as Hm1. rewrite total_app in Hsz. cbn in Hsz.
  assert (Hg : good bl'). { apply good_app. split; [done|]. apply good_cons. split; [done|]. apply good_cons. split; [|done]. cbn. split; [lia|]. rewrite Zminus_mod, Hs2, Hs8. done. }
  destruct (laid_sep bl' Hg) as [Hsep _]. unfold all in *. assert (EU : blocks true 24 bl' = blocks true 24 (l1 ++ (false, s) :: l2)). { unfold bl'. rewrite !layout_blocks_app. cbn [blocks fst snd eqb app]. do 2 f_equal. lia. }
  assert (EF : blocks false 24 bl' = blocks false 24 l1 ++ (24 + total l1, size) :: (24 + total l1 + size, s - size) :: blocks false (24 + total l1 + s) l2). { unfold bl'. rewrite !layout_blocks_app. cbn [blocks fst snd eqb app]. do 4 f_equal. lia. }
  rewrite layout_blocks_app in Hf. cbn [blocks fst snd eqb app] in Hf. rewrite EU, EF in *. pose proof Hsep as Hsep'. apply sep_app in Hsep' as (HsU & HsF & Hap).
  destruct (split_ok m (24 + total l1) s size (blocks false 24 l1) (blocks false (24 + total l1 + s) l2)) as (m' & E & L & Ht); try done; [lia| |].
  { intros k Hk. apply Hd. split; [lia|]. rewrite <- !Z.add_assoc. repeat apply mod8_add; try done. by destruct Hk as [->|[->| ->]]. }
  exists m'. split; [done|]. split; [|eapply touched_spared; [exact Ht|done|set_solver]]. split.
  - rewrite EU. eapply is_list_touched; [exact Hu|exact Ht|done| | |exact Hap]; by apply sep_low.
  - by rewrite EF.
  - done.
  - unfold bl'. rewrite total_app. cbn. lia.
  - done.
  - destruct Ht as [D _]. intros a. rewrite <- Hd, <- !elem_of_dom, D. done.
Qed.

Lemma find_block_ok m bl sz size : laid m bl sz -> 24 <= size < 2 ^ 64 -> size mod 8 = 0 ->
  (find_block_of_size m size = Ok (0, m) /\ Forall (fun x => x.2 < size) (blocks false 24 bl))
  \/ exists l1 s l2 m', bl = l1 ++ (false, s) :: l2 /\ size <= s /\ find_block_of_size m size = Ok (24 + total l1, m')
      /\ (if size + 24 <? s then laid m' (l1 ++ (false, size) :: (false, s - size) :: l2) sz /\ spared m m' (all (l1 ++ (false, size) :: (false, s - size) :: l2)) else m' = m).
Proof.
  intros Hl Hsize Hs8. pose proof Hl as [Hu Hf Hg Hsz Hb Hd]. destruct (laid_sep bl Hg) as [Hsep _]. pose proof Hsep as Hsep'. unfold all in Hsep'. apply sep_app in Hsep' as (_ & HsF & _). unfold find_block_of_size. destruct Hf as [Hf1 Hf2]. rewrite (ld_ok _ _ _ Hf1). cbn [rbind].
  assert (Hlen : (length (blocks false 24 bl) < walk m)%nat). { pose proof (is_list_app m firstfree (blocks false 24 bl) []) as [H _]. rewrite app_nil_r in H. destruct (H (conj Hf1 Hf2)) as (H' & _). by eapply walk_enough. }
  assert (Hall : Forall (fun x : block => 24 <= x.2) (blocks false 24 bl)) by (eapply Forall_impl; [by apply blocks_from|cbn; lia]).
  destruct (best_fit_ok m size _ 0 _ 0 0 Hf2 HsF Hall Hlen) as (r & -> & Hr). cbn [rbind]. destruct r as [o|[b bs]].
  - right. destruct (block_split _ _ _ _ _ Hr) as (l1 & l2 & -> & ->). exists l1, size, l2, m. split; [done|]. split; [lia|]. split; [done|]. by replace (size + 24 <? size) with false by lia.
  - destruct Hr as ([[= -> ->]|[Hin Hbs]] & Hr2 & _).
    + left. replace (u64 (RMM_BLOCK_SIZE + size) <? 0) with false by (unfold u64; pose proof (Z.mod_pos_bound (RMM_BLOCK_SIZE + size) (2 ^ 64)); lia). split; [done|]. eapply Forall_impl; [exact Hr2|]. cbn. lia.
    + right. destruct (block_split _ _ _ _ _ Hin) as (l1 & l2 & -> & ->). change RMM_BLOCK_SIZE with 24. pose proof Hg as Hg'. apply good_app in Hg' as [Hg1 Hg2]. apply good_cons in Hg2 as [[Hbs1 Hbs8] Hg2]. cbn [snd] in *. pose proof (total_nonneg _ Hg1). pose proof (total_nonneg _ Hg2). rewrite total_app in Hsz. cbn in Hsz. unfold u64. rewrite Z.mod_small by lia. rewrite (Z.add_comm 24 size). destruct (Z.ltb_spec (size + 24) bs) as [Hlt|Hge]; [|exists l1, bs, l2, m; split; [done|]; split; [lia|]; split; [done|]; by replace (size + 24 <? bs) with false by lia].
      destruct (split_layout m l1 bs l2 sz size Hl) as (m' & E & Hl' & Hsp); try done; [lia..|]. exists l1, bs, l2, m'. rewrite E. cbn [rbind]. split; [done|]. split; [lia|]. split; [done|]. by replace (size + 24 <? bs) with true by lia.
Qed.

Lemma allocate m bl sz size : laid m bl sz -> 24 <= size < 2 ^ 64 -> size mod 8 = 0 ->
  (find_block_of_size m size = Ok (0, m) /\ Forall (fun x => x.2 < size) (blocks false 24 bl))
  \/ exists l1 s l2 m1 m2, bl = l1 ++ (false, s) :: l2 /\ size <= s /\ find_block_of_size m size = Ok (24 + total l1, m1) /\ move_block m1 (24 + total l1) false = Ok m2
      /\ laid m2 (carve l1 s size l2) sz /\ spared m m2 (all bl ++ all (carve l1 s size l2)).
Proof.
  intros Hl Hsize Hs8. destruct (find_block_ok m bl sz size Hl Hsize Hs8) as [H|(l1 & s & l2 & m1 & -> & Hs & E & H)]; [by left|]. right. unfold carve. destruct (size + 24 <? s) eqn:Ec.
  - destruct H as [Hl1 Hsp]. destruct (move_used m1 sz l1 _ size Hl1) as (m2 & E2 & Hl2 & Hsp2). exists l1, s, l2, m1, m2. rewrite Ec. split_and!; try done. assert (Hp : all (l1 ++ (false, size) :: (false, s - size) :: l2) ≡ₚ all (l1 ++ (true, size) :: (false, s - size) :: l2)). { unfold all. rewrite !layout_blocks_app. cbn [blocks fst snd eqb app]. rewrite <- !app_assoc. apply Permutation_app_head. cbn. rewrite <- !Permutation_middle. solve_Permutation. }
    eapply spared_trans; intros a Ha Hc; [apply Hsp|apply Hsp2]; try done; unfold clear in *; rewrite Hp; by apply Forall_app in Hc as [_ Hc].
  - subst m1. destruct (move_used m sz l1 l2 s Hl) as (m2 & E2 & Hl2 & Hsp2). exists l1, s, l2, m, m2. rewrite Ec. split_and!; try done. intros a Ha Hc. apply Hsp2; [done|]. by apply clear_app in Hc as [Hc _].
Qed.
