(* ===== verification/AprRmmRoom.v ===== *)
(** * Room in a relocatable region

    Where the words of a block are, and why a request that fails has no room. *)

From stdpp Require Import gmap.
From S2P Require Import Prelude AprAllocator AprRmm AprRmmList AprRmmMove AprRmmLayout AprRmmBlocks.

(** ** Places *)

Lemma blocks_disjoint bl u u' o s o' s' : good bl -> (o, s) ∈ blocks u 24 bl -> (o', s') ∈ blocks u' 24 bl -> (o = o' /\ s = s' /\ u = u') \/ o + s <= o' \/ o' + s' <= o.
Proof.
  intros Hg H H'. destruct (block_split _ _ _ _ _ H) as (l1 & l2 & -> & ->). apply good_app in Hg as [Hg1 Hg2]. apply good_cons in Hg2 as [_ Hg2]. rewrite layout_blocks_app in H'. cbn [blocks fst snd] in H'. apply elem_of_app in H' as [H'|H'].
  - pose proof (blocks_below u' l1 24 Hg1) as Hb. unfold below in Hb. rewrite Forall_forall in Hb. specialize (Hb _ H'). cbn in Hb. lia.
  - apply elem_of_app in H' as [H'|H'].
    + destruct (eqb u u') eqn:E; [|by apply not_elem_of_nil in H']. apply eqb_prop in E. apply list_elem_of_singleton in H' as [= -> ->]. auto.
    + pose proof (blocks_from u' l2 (24 + total l1 + s) Hg2) as Hb. unfold from in Hb. rewrite Forall_forall in Hb. specialize (Hb _ H'). cbn in Hb. lia.
Qed.

(** No header is among the words that a used block is for. *)
Lemma payload_clear bl o s a : good bl -> (o, s) ∈ blocks true 24 bl -> o + 24 <= a < o + s -> clear a (all bl).
Proof.
  intros Hg H Ha. assert (Hc : forall u, clear a (blocks u 24 bl)). { intros u. unfold clear. rewrite Forall_forall. intros [o' s'] H'. pose proof (blocks_from u bl 24 Hg) as Hb. unfold from in Hb. rewrite Forall_forall in Hb. specialize (Hb _ H'). cbn in Hb |- *. destruct (blocks_disjoint bl true u o s o' s' Hg H H') as [(-> & -> & _)|[?|?]]; lia. }
  unfold all. by apply clear_app.
Qed.

(** ** Gaps *)

(** In a layout without neighbouring free blocks, memory that meets no used block is in one
    free block. *)
Lemma one_gap bl : forall o a e, good bl -> tight bl -> o <= a < e -> e <= o + total bl -> (forall b s, (b, s) ∈ blocks true o bl -> e <= b \/ b + s <= a) ->
  exists b s, (b, s) ∈ blocks false o bl /\ b <= a /\ e <= b + s.
Proof.
  induction bl as [|[u s] bl IH]; intros o a e Hg Ht Ha He Hno; cbn in He; [lia|]. apply good_cons in Hg as [[Hs _] Hg]. destruct Ht as [Hj Ht]. cbn [snd] in *. cbn [blocks fst snd] in *. destruct (Z.le_gt_cases (o + s) a) as [Hle|Hgt].
  - destruct (IH (o + s) a e Hg Ht) as (b & z & Hin & Hb); [lia|lia| |exists b, z; split; [apply elem_of_app; by right|done]]. intros b z Hin. apply Hno. apply elem_of_app. by right.
  - destruct u; [specialize (Hno o s ltac:(left)); lia|]. exists o, s. split; [left|]. split; [lia|]. destruct bl as [|[[|] z] bl]; [cbn in He; lia| |done]. apply good_cons in Hg as [[Hz _] _]. cbn [snd blocks fst eqb app] in *. specialize (Hno (o + s) z ltac:(left)). lia.
Qed.

(** ** Sizes *)

Lemma align_up n : 0 <= n -> n + 7 < 2 ^ 64 -> APR_ALIGN_DEFAULT n = 8 * ((n + 7) / 8).
Proof. intros Hn Hb. unfold APR_ALIGN_DEFAULT. change 8 with (2 ^ 3) at 1. rewrite align_spec by lia. unfold u64. rewrite Z.mod_small by lia. done. Qed.

Lemma align_wrap n : n < 2 ^ 64 -> 2 ^ 64 <= n + 7 -> APR_ALIGN_DEFAULT n = 0.
Proof. intros Hn Hb. unfold APR_ALIGN_DEFAULT. change 8 with (2 ^ 3) at 1. rewrite align_spec by lia. unfold u64. change (2 ^ 3) with 8. replace (n + (8 - 1)) with (n - (2 ^ 64 - 7) + 1 * 2 ^ 64) by lia. rewrite Z.mod_add by lia. rewrite Z.mod_small by lia. rewrite Z.div_small by lia. done. Qed.

(** The size of a block for a request, or the answer that there is none. *)
Lemma request_size n : 0 <= n < 2 ^ 64 -> let size := u64 (APR_ALIGN_DEFAULT n + RMM_BLOCK_SIZE) in
  (size < n /\ 2 ^ 64 <= 8 * ((n + 7) / 8) + 24) \/ (size = 8 * ((n + 7) / 8) + 24 /\ n + 24 <= size < n + 32 /\ size < 2 ^ 64 /\ size mod 8 = 0).
Proof.
  intros Hn size. unfold size. change RMM_BLOCK_SIZE with 24. pose proof (Z.div_mod (n + 7) 8 ltac:(lia)) as Hd. pose proof (Z.mod_pos_bound (n + 7) 8 ltac:(lia)) as Hm. destruct (Z.lt_ge_cases (n + 7) (2 ^ 64)) as [Hlt|Hge].
  - rewrite align_up by lia. destruct (Z.lt_ge_cases (8 * ((n + 7) / 8) + 24) (2 ^ 64)) as [H1|H1].
    + right. unfold u64. rewrite Z.mod_small by lia. split_and!; try lia. apply mod8_add; [|done]. rewrite Z.mul_comm. apply Z.mod_mul. lia.
    + left. unfold u64. replace (8 * ((n + 7) / 8) + 24) with (8 * ((n + 7) / 8) + 24 - 2 ^ 64 + 1 * 2 ^ 64) by lia. rewrite Z.mod_add, Z.mod_small by lia. lia.
  - left. rewrite align_wrap by lia. change (u64 (0 + 24)) with 24. lia.
Qed.
