(* ===== verification/AprRmmRun.v ===== *)
(** * Programs that use a relocatable region

    What the calls promise a program, and that they keep it for as long as the program
    gives them offsets that it has been given. *)

From stdpp Require Import gmap.
From S2P Require Import Prelude AprAllocator AprRmm AprRmmList AprRmmMove AprRmmLayout AprRmmBlocks AprRmmRoom.

(** ** The specification

    A program knows the offsets it has been given, and the words it finds there. *)
Notation live := (gmap Z (list Z)).

Inductive cmd :=
  | Malloc (n : Z) | Calloc (n : Z) | Realloc (lock unlock : Z) (entity : option Z) (n : Z) | Free (lock unlock : Z) (h : Z)
  | Put (h i v : Z) | Get (h i : Z).

(** Running a command; the last two are the accesses of the program itself. *)
Definition run (c : cmd) (m : region) : res (Z * region) :=
  match c with
  | Malloc n => apr_rmm_malloc m n
  | Calloc n => apr_rmm_calloc m n
  | Realloc lock unlock entity n => apr_rmm_realloc lock unlock m entity n
  | Free lock unlock h => apr_rmm_free lock unlock m h
  | Put h i v => do m <- st m (h + 8 * i) v; Ok (0, m)
  | Get h i => do v <- ld m (h + 8 * i); Ok (v, m)
  end.

Section Spec.
  Context (size : Z).

(** The blocks with their headers are inside the region and do not overlap. *)
Definition placed (L : live) : Prop :=
  (forall r ws, L !! r = Some ws -> r mod 8 = 0 /\ 48 <= r /\ r + 8 * zlen ws <= size)
  /\ forall r ws r' ws', L !! r = Some ws -> L !! r' = Some ws' -> r = r' \/ r + 8 * zlen ws <= r' - 24 \/ r' + 8 * zlen ws' <= r - 24.

(** Wherever a block of [n] bytes and its header would go, there is a block. *)
Definition no_room (L : live) (n : Z) : Prop :=
  forall a, 24 <= a -> a + 24 + n <= size -> exists r ws, L !! r = Some ws /\ a < r + 8 * zlen ws /\ r - 24 < a + 24 + n.

(** A new block of at least [n] bytes, about whose words [P] holds. *)
Definition new_block (L L0 : live) (n r : Z) (L' : live) (P : list Z -> Prop) : Prop :=
  exists ws, 0 < r /\ L !! r = None /\ n <= 8 * zlen ws /\ P ws /\ L' = <[r := ws]> L0.

Definition is_size (n : Z) : Prop := 0 <= n < 2 ^ 64.

(** What a program may do. *)
Definition legal (L : live) (c : cmd) : Prop :=
  match c with
  | Malloc n | Calloc n | Realloc _ _ None n => is_size n
  | Realloc _ _ (Some h) n => is_size n /\ is_Some (L !! h)
  | Free _ _ h => is_Some (L !! h) \/ h < 48
  | Put h i _ | Get h i => exists ws, L !! h = Some ws /\ 0 <= i < zlen ws
  end.

(** A block is reallocated whose words, with 24 bytes more or up to the new size, reach
    past the end of the region. *)
Definition overruns (L : live) (c : cmd) : Prop :=
  match c with
  | Realloc _ _ (Some h) n => exists ws, L !! h = Some ws /\ size < h + Z.min (8 * zlen ws + 24) (8 * ((n + 7) / 8))
  | _ => False
  end.

(** What it may expect. *)
Definition answers (L : live) (c : cmd) (r : Z) (L' : live) : Prop :=
  match c with
  | Malloc n | Realloc _ _ None n => r = 0 /\ L' = L /\ no_room L n \/ new_block L L n r L' (fun _ => True)
  | Calloc n => r = 0 /\ L' = L /\ no_room L n \/ new_block L L n r L' (fun ws => forall i v, ws !! i = Some v -> 8 * Z.of_nat i < n -> v = 0)
  | Realloc lock _ (Some h) n =>
      r = 0 /\ L' = L /\ no_room L n
      \/ new_block L (if lock =? 0 then delete h L else L) n r L' (fun ws' => forall ws i v, L !! h = Some ws -> ws !! i = Some v -> 8 * Z.of_nat i < n -> ws' !! i = Some v)
  | Free lock unlock h => if h <? 48 then r = APR_EINVAL /\ L' = L else if lock =? 0 then r = unlock /\ L' = delete h L else r = lock /\ L' = L
  | Put h i v => exists ws, L !! h = Some ws /\ L' = <[h := <[Z.to_nat i := v]> ws]> L
  | Get h i => exists ws, L !! h = Some ws /\ ws !! Z.to_nat i = Some r /\ L' = L
  end.

(** The region [m] serves [k] more commands of any program that may expect [L]: at each
    moment the blocks are in place, another user can attach, and the region can be
    destroyed. Only a reallocation whose copy reaches past the end of the region does
    not keep the promise: it fails, or it reads outside the region. *)
Fixpoint serves (k : nat) (m : region) (L : live) : Prop :=
  placed L /\ apr_rmm_attach m = Ok {| rmm_base := m; rmm_size := size |}
  /\ (forall lock unlock, exists m', apr_rmm_destroy lock unlock {| rmm_base := m; rmm_size := size |} =
       Ok (if lock =? 0 then (unlock, {| rmm_base := m'; rmm_size := 0 |}) else (lock, {| rmm_base := m; rmm_size := size |})))
  /\ match k with O => True | S k => forall c, legal L c ->
       (exists r m' L', run c m = Ok (r, m') /\ answers L c r L' /\ (overruns L c -> r = 0) /\ serves k m' L')
       \/ overruns L c /\ run c m = Err OutOfBounds end.

End Spec.

(** ** The invariant *)

(** The words of a block. *)
Definition words (m : region) (r : Z) (ws : list Z) : Prop := forall i v, ws !! i = Some v -> m !! (r + 8 * Z.of_nat i) = Some v.

Record holds (m : region) (bl : layout) (L : live) : Prop := {
  holds_block : forall r ws, L !! r = Some ws -> (r - 24, 24 + 8 * zlen ws) ∈ blocks true 24 bl /\ words m r ws;
  holds_all : forall o s, (o, s) ∈ blocks true 24 bl -> is_Some (L !! (o + 24)) }.

Definition ready (m : region) (bl : layout) (L : live) (size : Z) : Prop := laid m bl size /\ tight bl /\ m !! abssize = Some size /\ holds m bl L.

Lemma ready_placed m bl L size : ready m bl L size -> placed size L.
Proof.
  intros ([Hu Hf Hg Hsz Hb Hd] & _ & _ & [H1 H2]). split.
  - intros r ws E. destruct (H1 r ws E) as [Hin _]. pose proof (blocks_from true bl 24 Hg) as Hfr. unfold from in Hfr. rewrite Forall_forall in Hfr. specialize (Hfr _ Hin). cbn in Hfr. destruct (block_split _ _ _ _ _ Hin) as (l1 & l2 & -> & Er). apply good_app in Hg as [Hg1 _]. pose proof (total_mod _ Hg1). split; [|lia]. replace r with (total l1 + 48) by lia. by apply mod8_add.
  - intros r ws r' ws' E E'. destruct (H1 r ws E) as [Hin _]. destruct (H1 r' ws' E') as [Hin' _]. destruct (blocks_disjoint bl true true _ _ _ _ Hg Hin Hin') as [(? & _)|[?|?]]; lia.
Qed.

(** A request that no free block can serve has no room. *)
Lemma ready_no_room m bl L size n : ready m bl L size -> 0 <= n -> Forall (fun x => x.2 < n + 24) (blocks false 24 bl) -> no_room size L n.
Proof.
  intros ([Hu Hf Hg Hsz Hb Hd] & Ht & _ & [H1 H2]) Hn Hall a Ha He. 
  destruct (decide (Exists (fun x => x.1 < a + 24 + n /\ a < x.1 + x.2) (blocks true 24 bl))) as [Hx|Hx].
  - apply Exists_exists in Hx as ([b s] & Hin & Hb1 & Hb2). cbn in *. destruct (H2 b s Hin) as [ws E]. exists (b + 24), ws. destruct (H1 _ _ E) as [Hin' _]. destruct (blocks_disjoint bl true true _ _ _ _ Hg Hin Hin') as [(_ & Es & _)|[?|?]]; [split; [done|lia]| |]; pose proof (blocks_from true bl 24 Hg) as Hfr; unfold from in Hfr; rewrite Forall_forall in Hfr; pose proof (Hfr _ Hin); pose proof (Hfr _ Hin'); cbn in *; lia.
  - exfalso. destruct (one_gap bl 24 a (a + 24 + n) Hg Ht) as (b & s & Hin & Hb1 & Hb2); [lia|lia| |].
    + intros b s Hin. destruct (Z.le_gt_cases (a + 24 + n) b); [by left|right]. destruct (Z.le_gt_cases (b + s) a); [done|]. exfalso. apply Hx, Exists_exists. exists (b, s). split; [done|cbn; lia].
    + rewrite Forall_forall in Hall. specialize (Hall _ Hin). cbn in Hall. lia.
Qed.

(** ** Allocating *)

Lemma carve_blocks l1 s size l2 : blocks true 24 (carve l1 s size l2) ≡ₚ (24 + total l1, if size + 24 <? s then size else s) :: blocks true 24 (l1 ++ (false, s) :: l2).
Proof.
  unfold carve. destruct (size + 24 <? s); rewrite !layout_blocks_app; cbn [blocks fst snd eqb app]; rewrite <- Permutation_middle; [|done]. replace (24 + total l1 + size + (s - size)) with (24 + total l1 + s) by lia. done.
Qed.

Lemma block_read_words m k : forall a, (forall i, 0 <= i < Z.of_nat k -> is_Some (m !! (a + 8 * i))) -> exists ws, length ws = k /\ words m a ws.
Proof.
  induction k as [|k IH]; intros a Hd; [by exists []|]. destruct (Hd 0 ltac:(lia)) as [v Hv]. rewrite Z.add_0_r in Hv. destruct (IH (a + 8)) as (ws & Hl & Hw). { intros i Hi. replace (a + 8 + 8 * i) with (a + 8 * (i + 1)) by lia. apply Hd. lia. }
  exists (v :: ws). split; [cbn; lia|]. intros [|i] w E; cbn in E; [injection E as <-; by rewrite Z.add_0_r|]. replace (a + 8 * Z.of_nat (S i)) with (a + 8 + 8 * Z.of_nat i) by lia. by apply Hw.
Qed.

Lemma words_spared m m' bl bl' r ws : words m r ws -> good bl -> good bl' -> (r - 24, 24 + 8 * zlen ws) ∈ blocks true 24 bl -> (r - 24, 24 + 8 * zlen ws) ∈ blocks true 24 bl' -> spared m m' (all bl ++ all bl') -> words m' r ws.
Proof.
  intros Hw Hg Hg' Hin Hin' Hsp i v E. pose proof (lookup_lt_Some _ _ _ E) as Hi. pose proof (blocks_from true bl 24 Hg) as Hb. unfold from in Hb. rewrite Forall_forall in Hb. specialize (Hb _ Hin). cbn in Hb. unfold zlen in *. rewrite Hsp; [by apply Hw|lia|]. apply clear_app. split; eapply payload_clear; eauto; lia.
Qed.

(** The words of a used block are in the region. *)
Lemma block_words m bl size o s : laid m bl size -> (o, s) ∈ blocks true 24 bl -> exists ws, 24 + 8 * zlen ws = s /\ words m (o + 24) ws.
Proof.
  intros [_ _ Hg Hsz _ Hd] Hin. pose proof (blocks_from true bl 24 Hg) as Hb. unfold from in Hb. rewrite Forall_forall in Hb. specialize (Hb _ Hin). cbn in Hb. destruct (block_split _ _ _ _ _ Hin) as (l1 & l2 & -> & Eo). apply good_app in Hg as [Hg1 Hg2]. apply good_cons in Hg2 as [[_ Hs8] _]. cbn in Hs8. pose proof (total_mod _ Hg1) as Hm. pose proof (Z.div_mod (s - 24) 8 ltac:(lia)) as Hdm. rewrite Zminus_mod, Hs8 in Hdm. change ((0 - 24 mod 8) mod 8) with 0 in Hdm.
  destruct (block_read_words m (Z.to_nat ((s - 24) / 8)) (o + 24)) as (ws & Hl & Hw).
  - intros i Hi. apply Hd. split; [lia|]. rewrite Eo. apply mod8_add; [apply mod8_add; [by apply mod8_add|done]|]. rewrite Z.mul_comm. apply Z.mod_mul. lia.
  - exists ws. split; [unfold zlen; lia|done].
Qed.

Lemma allocate_ready m bl L sz size : ready m bl L sz -> 24 <= size < 2 ^ 64 -> size mod 8 = 0 ->
  (find_block_of_size m size = Ok (0, m) /\ Forall (fun x => x.2 < size) (blocks false 24 bl))
  \/ exists o m1 m2 bl' ws, find_block_of_size m size = Ok (o, m1) /\ move_block m1 o false = Ok m2 /\ ready m2 bl' (<[o + 24 := ws]> L) sz /\ L !! (o + 24) = None /\ size <= 24 + 8 * zlen ws /\ 24 <= o.
Proof.
  intros (Hl & Ht & Ha & [H1 H2]) Hsize Hs8. destruct (allocate m bl sz size Hl Hsize Hs8) as [H|(l1 & s & l2 & m1 & m2 & -> & Hs & E1 & E2 & Hl2 & Hsp)]; [by left|right].
  set (o := 24 + total l1) in *. set (bl' := carve l1 s size l2) in *. set (s' := if size + 24 <? s then size else s). assert (Hp : blocks true 24 bl' ≡ₚ (o, s') :: blocks true 24 (l1 ++ (false, s) :: l2)) by apply carve_blocks. assert (Hin : (o, s') ∈ blocks true 24 bl') by (rewrite Hp; left). destruct (block_words m2 bl' sz o s' Hl2 Hin) as (ws & Hws & Hw). pose proof (laid_good _ _ _ Hl) as Hg. pose proof (laid_good _ _ _ Hl2) as Hg2.
  assert (Hfree : (o, s) ∈ blocks false 24 (l1 ++ (false, s) :: l2)) by (rewrite layout_blocks_app; cbn [blocks fst snd eqb app]; apply elem_of_app; right; left).
  assert (Hnone : L !! (o + 24) = None). { destruct (L !! (o + 24)) as [ws'|] eqn:E; [exfalso|done]. destruct (H1 _ _ E) as [Hin' _]. destruct (blocks_disjoint _ _ _ _ _ _ _ Hg Hfree Hin') as [(_ & _ & ?)|[?|?]]; [done| |]; pose proof (zlen_nonneg ws'); lia. }
  assert (Ho : 24 <= o) by (apply good_app in Hg as [Hg _]; pose proof (total_nonneg _ Hg); unfold o; lia). exists o, m1, m2, bl', ws. split_and!; try done; [|unfold s' in Hws; destruct (size + 24 <? s); lia]. split; [done|]. split; [by apply carve_tight|]. split.
  - rewrite Hsp; [done|by left|]. unfold all. repeat (apply clear_app; split); (eapply sep_low; [|unfold abssize; lia]).
    all: destruct (laid_sep _ Hg) as [Ha1 _]; destruct (laid_sep _ Hg2) as [Ha2 _]; unfold all in *; apply sep_app in Ha1 as (? & ? & _), Ha2 as (? & ? & _); done.
  - split.
    + intros r ws' E. apply lookup_insert_Some in E as [[<- <-]|[Hne E]].
      * replace (o + 24 - 24) with o by lia. rewrite Hws. done.
      * destruct (H1 _ _ E) as [Hin' Hw']. assert (Hin2 : (r - 24, 24 + 8 * zlen ws') ∈ blocks true 24 bl') by (rewrite Hp; by right). split; [done|]. exact (words_spared m m2 _ _ r ws' Hw' Hg Hg2 Hin' Hin2 Hsp).
    + intros b z Hb. rewrite Hp in Hb. apply elem_of_cons in Hb as [[= -> ->]|Hb]; [rewrite lookup_insert_eq; by eexists|]. destruct (decide (o + 24 = b + 24)) as [->|Hne]; [rewrite lookup_insert_eq; by eexists|]. rewrite lookup_insert_ne by done. by eapply H2.
Qed.

(** What a request that finds no block means. *)
Lemma none_fits m bl L sz n : ready m bl L sz -> 0 <= n -> Forall (fun x => x.2 < 8 * ((n + 7) / 8) + 24) (blocks false 24 bl) -> no_room sz L n.
Proof.
  intros Hr Hn Hall. eapply ready_no_room; [exact Hr|done|]. rewrite Forall_forall in *. intros [o s] Hin. specialize (Hall _ Hin). cbn in *. destruct (block_split _ _ _ _ _ Hin) as (l1 & l2 & E & _). pose proof (laid_good _ _ _ (proj1 Hr)) as Hg. rewrite E in Hg. apply good_app in Hg as [_ Hg]. apply good_cons in Hg as [[_ Hs8] _]. cbn in Hs8. pose proof (Z.div_mod (n + 7) 8 ltac:(lia)). pose proof (Z.mod_pos_bound (n + 7) 8 ltac:(lia)). pose proof (Z.div_mod s 8 ltac:(lia)). lia.
Qed.

Lemma too_large sz L n : sz < 2 ^ 64 -> 2 ^ 64 <= 8 * ((n + 7) / 8) + 24 -> no_room sz L n.
Proof. intros Hs Hn a Ha He. pose proof (Z.div_mod (n + 7) 8 ltac:(lia)). pose proof (Z.mod_pos_bound (n + 7) 8 ltac:(lia)). lia. Qed.

Lemma malloc_ok m bl L sz n : ready m bl L sz -> 0 <= n < 2 ^ 64 -> exists r m', apr_rmm_malloc m n = Ok (r, m') /\
  (r = 0 /\ m' = m /\ (forall n', 0 <= n' -> (n' + 7) / 8 = (n + 7) / 8 -> no_room sz L n') \/ exists bl' ws, 48 <= r /\ L !! r = None /\ 8 * ((n + 7) / 8) <= 8 * zlen ws /\ n <= 8 * zlen ws /\ ready m' bl' (<[r := ws]> L) sz).
Proof.
  intros Hr Hn. pose proof (laid_bound _ _ _ (proj1 Hr)) as Hb. unfold apr_rmm_malloc. destruct (request_size n Hn) as [[Hlt Hbig]|(Es & Hs1 & Hs2 & Hs3)]; cbv zeta in *; set (size := u64 _) in *.
  - replace (size <? n) with true by lia. exists 0, m. split; [done|]. left. split; [done|]. split; [done|]. intros n' Hn' En. apply too_large; [done|by rewrite En].
  - replace (size <? n) with false by lia. destruct (allocate_ready m bl L sz size Hr ltac:(lia) Hs3) as [[E Hall]|(o & m1 & m2 & bl' & ws & E1 & E2 & Hr' & Hnone & Hws & Ho)].
    + rewrite E. cbn. exists 0, m. split; [done|]. left. split; [done|]. split; [done|]. intros n' Hn' En. eapply none_fits; [exact Hr|lia|]. by rewrite En, <- Es.
    + rewrite E1. cbn [rbind]. replace (o =? 0) with false by lia. cbn [negb]. rewrite E2. cbn [rbind]. change RMM_BLOCK_SIZE with 24. eexists _, m2. split; [done|]. right. exists bl', ws. split_and!; try done; lia.
Qed.

(** ** Writing in a block *)

Lemma tail_same m m' p l : tail m p l -> (forall x a, x ∈ l -> x.1 <= a < x.1 + 24 -> m' !! a = m !! a) -> tail m' p l.
Proof.
  revert p. induction l as [|[o s] l IH]; intros p H Hw; [done|]. destruct H as (E1 & E2 & E3 & E4). cbn [tail]. rewrite !(Hw (o, s)) by (left || (cbn; lia)). split_and!; try done. apply IH; [done|]. intros x a Hx. apply Hw. by right.
Qed.

Lemma is_list_same m m' f l : is_list m f l -> m' !! f = m !! f -> (forall x a, x ∈ l -> x.1 <= a < x.1 + 24 -> m' !! a = m !! a) -> is_list m' f l.
Proof. intros [H1 H2] Hf Hw. split; [by rewrite Hf|by eapply tail_same]. Qed.

Lemma ready_write m m' bl L sz r ws ws' : ready m bl L sz -> L !! r = Some ws -> length ws' = length ws -> words m' r ws' -> dom m' = dom m -> (forall a, a < r \/ r + 8 * zlen ws <= a -> m' !! a = m !! a) ->
  ready m' bl (<[r := ws']> L) sz.
Proof.
  intros Hr E Hlen Hw D Hout. pose proof (ready_placed _ _ _ _ Hr) as [Hp1 Hp2]. destruct (Hp1 _ _ E) as (_ & Hr48 & _). destruct Hr as ([Hu Hf Hg Hsz Hb Hd] & Ht & Ha & [H1 H2]). destruct (H1 _ _ E) as [Hin _]. assert (Ez : zlen ws' = zlen ws) by (unfold zlen; by rewrite Hlen).
  assert (Hh : forall u x a, x ∈ blocks u 24 bl -> x.1 <= a < x.1 + 24 -> m' !! a = m !! a). { intros u [o s] a Hx Hxa. cbn in Hxa. apply Hout. pose proof (blocks_from u bl 24 Hg) as Hfr. unfold from in Hfr. rewrite Forall_forall in Hfr. specialize (Hfr _ Hx). cbn in Hfr. destruct (blocks_disjoint bl true u _ _ _ _ Hg Hin Hx) as [(? & ? & _)|[?|?]]; lia. }
  split; [|split; [done|split; [rewrite Hout by (unfold abssize; lia); done|]]].
  - split; try done; [eapply is_list_same; [exact Hu|apply Hout; unfold firstused; lia|by apply Hh]|eapply is_list_same; [exact Hf|apply Hout; unfold firstfree; lia|by apply Hh]|]. intros a. rewrite <- Hd, <- !elem_of_dom, D. done.
  - split.
    + intros r' w E'. apply lookup_insert_Some in E' as [[<- <-]|[Hne E']]; [by rewrite Ez|]. destruct (H1 _ _ E') as [Hin' Hw']. split; [done|]. intros i v Ev. pose proof (lookup_lt_Some _ _ _ Ev) as Hi. rewrite Hout; [by apply Hw'|]. destruct (Hp2 _ _ _ _ E E') as [?|[?|?]]; [done|unfold zlen in *; lia..].
    + intros o s Ho. destruct (decide (r = o + 24)) as [->|Hne]; [rewrite lookup_insert_eq; by eexists|]. rewrite lookup_insert_ne by done. by eapply H2.
Qed.

Lemma words_in m bl L sz r ws i : ready m bl L sz -> L !! r = Some ws -> 0 <= i < zlen ws -> exists v, ws !! Z.to_nat i = Some v /\ m !! (r + 8 * i) = Some v.
Proof.
  intros (_ & _ & _ & [H1 _]) E Hi. destruct (H1 _ _ E) as [_ Hw]. destruct (lookup_lt_is_Some_2 ws (Z.to_nat i)) as [v Hv]; [unfold zlen in *; lia|]. exists v. split; [done|]. specialize (Hw _ _ Hv). by rewrite Z2Nat.id in Hw by lia.
Qed.

(** ** [memset] and [memcpy] *)

Lemma set_words_ok k : forall m r, (forall i, 0 <= i < Z.of_nat k -> is_Some (m !! (r + 8 * i))) ->
  exists m', set_words m r k = Ok m' /\ dom m' = dom m /\ (forall a, a < r \/ r + 8 * Z.of_nat k <= a -> m' !! a = m !! a) /\ (forall i, 0 <= i < Z.of_nat k -> m' !! (r + 8 * i) = Some 0).
Proof.
  induction k as [|k IH]; intros m r Hd; [exists m; split_and!; try done; lia|]. cbn [set_words]. pose proof (Hd 0 ltac:(lia)) as H0. rewrite Z.add_0_r in H0. rewrite st_ok by done. cbn [rbind]. destruct (IH (<[r := 0]> m) (r + 8)) as (m' & E & D & Ho & Hi).
  { intros i Hi. rewrite lookup_insert_ne by lia. replace (r + 8 + 8 * i) with (r + 8 * (i + 1)) by lia. apply Hd. lia. }
  exists m'. split; [done|]. split; [by rewrite D, dom_insert_lookup_L|]. split.
  - intros a Ha. rewrite Ho by lia. apply lookup_insert_ne. lia.
  - intros i Hi'. destruct (decide (i = 0)) as [->|]; [rewrite Z.add_0_r, Ho by lia; apply lookup_insert_eq|]. replace (r + 8 * i) with (r + 8 + 8 * (i - 1)) by lia. apply Hi. lia.
Qed.

Lemma copy_words_ok k : forall m to from, (to + 8 * Z.of_nat k <= from \/ from + 8 * Z.of_nat k <= to) -> (forall i, 0 <= i < Z.of_nat k -> is_Some (m !! (to + 8 * i)) /\ is_Some (m !! (from + 8 * i))) ->
  exists m', copy_words m to from k = Ok m' /\ dom m' = dom m /\ (forall a, a < to \/ to + 8 * Z.of_nat k <= a -> m' !! a = m !! a) /\ (forall i, 0 <= i < Z.of_nat k -> m' !! (to + 8 * i) = m !! (from + 8 * i)).
Proof.
  induction k as [|k IH]; intros m to from Hdis Hd; [exists m; split_and!; try done; lia|]. cbn [copy_words]. destruct (Hd 0 ltac:(lia)) as [H0 [v Hv]]. rewrite Z.add_0_r in H0, Hv. rewrite (ld_ok _ _ _ Hv). cbn [rbind]. rewrite st_ok by done. cbn [rbind]. destruct (IH (<[to := v]> m) (to + 8) (from + 8)) as (m' & E & D & Ho & Hi); [lia| |].
  { intros i Hi. rewrite !lookup_insert_ne by lia. replace (to + 8 + 8 * i) with (to + 8 * (i + 1)) by lia. replace (from + 8 + 8 * i) with (from + 8 * (i + 1)) by lia. apply Hd. lia. }
  exists m'. split; [done|]. split; [by rewrite D, dom_insert_lookup_L|]. split.
  - intros a Ha. rewrite Ho by lia. apply lookup_insert_ne. lia.
  - intros i Hi'. destruct (decide (i = 0)) as [->|]; [rewrite !Z.add_0_r, Ho by lia; by rewrite lookup_insert_eq|]. replace (to + 8 * i) with (to + 8 + 8 * (i - 1)) by lia. rewrite Hi, lookup_insert_ne by lia. f_equal. lia.
Qed.

(** The words of a block after some of them have been written. *)
Lemma written m m' bl L sz r ws : ready m bl L sz -> L !! r = Some ws -> dom m' = dom m -> (forall a, a < r \/ r + 8 * zlen ws <= a -> m' !! a = m !! a) ->
  exists ws', zlen ws' = zlen ws /\ words m' r ws' /\ ready m' bl (<[r := ws']> L) sz.
Proof.
  intros Hr E D Ho. destruct (block_read_words m' (length ws) r) as (ws' & Hl & Hw).
  { intros i Hi. apply elem_of_dom. rewrite D. apply elem_of_dom. destruct (words_in m bl L sz r ws i Hr E Hi) as (v & _ & Hv). by exists v. }
  exists ws'. split; [unfold zlen; by rewrite Hl|]. split; [done|]. by eapply ready_write.
Qed.

Lemma words_at m r ws i v : words m r ws -> (i < length ws)%nat -> m !! (r + 8 * Z.of_nat i) = Some v -> ws !! i = Some v.
Proof. intros Hw Hi Hm. destruct (lookup_lt_is_Some_2 ws i Hi) as [w Hv]. specialize (Hw _ _ Hv). congruence. Qed.

Lemma calloc_ok m bl L sz n : ready m bl L sz -> 0 <= n < 2 ^ 64 -> exists r m' bl' L', apr_rmm_calloc m n = Ok (r, m') /\ answers sz L (Calloc n) r L' /\ ready m' bl' L' sz.
Proof.
  intros Hr Hn. destruct (malloc_ok m bl L sz n Hr Hn) as (r & m1 & E & H). unfold apr_rmm_malloc in E. unfold apr_rmm_calloc. destruct (request_size n Hn) as [[Hlt _]|(Es & Hs1 & Hs2 & Hs3)]; cbv zeta in *; set (size := u64 _) in *.
  - replace (size <? n) with true in * by lia. injection E as <- <-. exists 0, m, bl, L. split; [done|]. split; [|done]. left. split; [done|]. split; [done|]. destruct H as [(_ & _ & H)|(? & ? & ? & _)]; [apply H; [lia|done]|lia].
  - replace (size <? n) with false in * by lia. destruct (find_block_of_size m size) as [[o m0]|] eqn:Ef; [|done]. cbn [rbind] in *. destruct (Z.eqb_spec o 0) as [->|Ho]; cbn [negb] in *.
    + injection E as <- <-. destruct H as [(_ & -> & H)|(? & ? & ? & _)]; [|lia]. exists 0, m, bl, L. split; [done|]. split; [|done]. left. split; [done|]. split; [done|]. apply H; [lia|done].
    + destruct (move_block m0 o false) as [m2|] eqn:Em; [|done]. cbn [rbind] in *. injection E as <- <-. change RMM_BLOCK_SIZE with 24 in *.
      destruct H as [(Hz & -> & H)|(bl' & ws & H48 & Hnone & Hk & Hws & Hr')].
      { exfalso. destruct (allocate_ready m bl L sz size Hr ltac:(lia) Hs3) as [[E' _]|(o' & ? & ? & ? & ? & E' & _ & _ & _ & _ & Ho')]; rewrite Ef in E'; [by injection E' as ? _|injection E' as <- _; lia]. }
      set (r := o + 24) in *. assert (El : <[r := ws]> L !! r = Some ws) by apply lookup_insert_eq. pose proof (Z.div_mod (n + 7) 8 ltac:(lia)) as Hdm. pose proof (Z.mod_pos_bound (n + 7) 8 ltac:(lia)). set (k := (n + 7) / 8) in *. replace ((size - 24) / 8) with k by (rewrite Es; replace (8 * k + 24 - 24) with (k * 8) by lia; by rewrite Z.div_mul by lia).
      destruct (set_words_ok (Z.to_nat k) m2 r) as (m3 & -> & D & Hout & Hz).
      { intros i Hi. destruct (words_in m2 bl' _ sz r ws i Hr' El) as (v & _ & Hv); [lia|by exists v]. }
      cbn [rbind]. destruct (written m2 m3 bl' _ sz r ws Hr' El D) as (ws' & Hl & Hw & Hr3); [intros a Ha; apply Hout; lia|]. rewrite insert_insert_eq in Hr3. exists r, m3, bl', (<[r := ws']> L). split; [done|]. split; [|done]. right. exists ws'. split; [lia|]. split; [done|]. split; [lia|]. split; [|done]. intros i v Ev Hi. specialize (Hw _ _ Ev). rewrite Hz in Hw by lia. congruence.
Qed.

(** A copy that reads a word that is not in the region. *)
Lemma copy_words_past k : forall m to from, (forall i, 0 <= i < Z.of_nat k -> is_Some (m !! (to + 8 * i))) ->
  (exists i, 0 <= i < Z.of_nat k /\ m !! (from + 8 * i) = None) -> copy_words m to from k = Err OutOfBounds.
Proof.
  induction k as [|k IH]; intros m to from Hto (i & Hi & Hn); [lia|]. cbn [copy_words]. destruct (m !! from) as [v|] eqn:Ev.
  - rewrite (ld_ok _ _ _ Ev). cbn [rbind]. pose proof (Hto 0 ltac:(lia)) as H0. rewrite Z.add_0_r in H0. rewrite st_ok by done. cbn [rbind]. apply IH.
    + intros j Hj. apply lookup_insert_is_Some. destruct (decide (to = to + 8 + 8 * j)); [by left|right; split; [done|]]. replace (to + 8 + 8 * j) with (to + 8 * (j + 1)) by lia. apply Hto. lia.
    + exists (i - 1). assert (i <> 0) by (intros E0; rewrite E0, Z.mul_0_r, Z.add_0_r in Hn; congruence). split; [lia|]. replace (from + 8 + 8 * (i - 1)) with (from + 8 * i) by lia. rewrite lookup_insert_ne; [done|]. intros Et. rewrite <- Et in Hn. rewrite Hn in H0. by destruct H0.
  - unfold ld. by rewrite Ev.
Qed.
