(* ===== verification/AprRmmServe.v ===== *)
(** * A relocatable region serves its programs

    [apr_rmm_free], [apr_rmm_realloc], [apr_rmm_destroy] and all calls together. *)

From stdpp Require Import gmap.
From S2P Require Import Prelude AprAllocator AprRmm AprRmmList AprRmmMove AprRmmLayout AprRmmBlocks AprRmmRoom AprRmmRun.

(** ** Freeing *)

Lemma ld_after m l f : sep l -> (if negb (last0 l 0 =? 0) then ld m (last0 l 0 + 16) else ld m f) = ld m (after l f).
Proof.
  intros Hs. destruct (last0 l 0 =? 0) eqn:E; cbn [negb].
  - destruct l as [|x l]; [done|]. exfalso. assert (H : (last0 (x :: l) 0 =? 0) = false) by by apply last0_zero. congruence.
  - unfold after, last0 in *. by destruct (last l).
Qed.

Lemma release_used l1 s l2 : good l1 -> good l2 -> 24 <= s -> s mod 8 = 0 -> blocks true 24 (release l1 s l2) = blocks true 24 l1 ++ blocks true (24 + total l1 + s) l2.
Proof.
  intros Hg1 Hg2 Hs Hs8. destruct (give_back_ok l1 s Hg1 Hs Hs8) as (_ & A2 & A3 & A4 & A5 & A6). cbv zeta in *. unfold release. destruct (give_back l1 s) as [l1' s']. cbn [fst snd] in *. destruct (take_free_ok (24 + total l1') s' l2 Hg2 A5 A6) as (_ & B2 & _ & _). rewrite layout_blocks_app, A2, B2. do 2 f_equal. lia.
Qed.

Lemma free_ready m bl L sz h ws : ready m bl L sz -> L !! h = Some ws -> exists m' bl', (forall unlock, apr_rmm_free APR_SUCCESS unlock m h = Ok (unlock, m')) /\ ready m' bl' (delete h L) sz.
Proof.
  intros Hr E. pose proof (ready_placed _ _ _ _ Hr) as [Hp1 _]. destruct (Hp1 _ _ E) as (_ & H48 & _). destruct Hr as (Hl & Ht & Ha & [H1 H2]). destruct (H1 _ _ E) as [Hin _]. pose proof Hl as [Hu _ Hg _ _ _]. destruct (block_split _ _ _ _ _ Hin) as (l1 & l2 & -> & Eo). set (s := 24 + 8 * zlen ws) in *.
  destruct (move_free m sz l1 l2 s Hl) as (m' & Em & Hl' & Hsp). pose proof (laid_good _ _ _ Hl') as Hg'. destruct (laid_sep _ Hg) as [Hsep _]. pose proof Hg as Hg0. apply good_app in Hg0 as [Hg1 Hg2]. apply good_cons in Hg2 as [[Hs Hs8] Hg2]. cbn [snd] in *.
  exists m', (release l1 s l2). split.
  - intros unlock. unfold apr_rmm_free. change (RMM_HDR_BLOCK_SIZE + RMM_BLOCK_SIZE) with 48. change RMM_BLOCK_SIZE with 24. replace (h <? 48) with false by lia. cbn [negb Z.eqb APR_SUCCESS]. rewrite Eo. unfold all in Hsep. rewrite layout_blocks_app in Hu, Hsep. cbn [blocks fst snd eqb app] in Hu, Hsep. apply is_list_app in Hu as (_ & Hcell & _ & Ep & En & Htail). cbn [head0 fst] in Hcell. apply sep_app in Hsep as (Hsep & _). apply sep_app in Hsep as (HsU1 & (Ho & _ & HsU2) & _). cbn [fst] in Ho.
    unfold b_prev, b_next. rewrite (ld_ok _ _ _ Ep). cbn [rbind]. rewrite ld_after by done. rewrite (ld_ok _ _ _ Hcell). cbn [rbind]. rewrite Z.eqb_refl. cbn [negb]. rewrite (ld_ok _ _ _ En). cbn [rbind]. set (U2 := blocks true _ l2) in *.
    assert (Enp : (if negb (head0 U2 =? 0) then ld m (head0 U2 + 8) else Ok (24 + total l1)) = Ok (24 + total l1)). { destruct U2 as [|[b z] U2']; [done|]. destruct Htail as (_ & Eb & _). cbn [head0 fst] in *. replace (b =? 0) with false by (destruct HsU2 as (? & _); cbn in *; lia). cbn [negb]. by apply ld_ok. }
    rewrite Enp. cbn [rbind]. rewrite Z.eqb_refl. cbn [negb]. rewrite Em. done.
  - split; [done|]. split; [by apply release_tight|]. split.
    + rewrite Hsp; [done|by left|]. apply sep_low; [done|unfold abssize; lia].
    + pose proof (release_used l1 s l2 Hg1 Hg2 Hs Hs8) as Er. assert (Hold : forall x, x ∈ blocks true 24 (release l1 s l2) -> x.1 <> h - 24 /\ x ∈ blocks true 24 (l1 ++ (true, s) :: l2)).
      { intros x Hx. rewrite Er in Hx. rewrite layout_blocks_app. cbn [blocks fst snd eqb app]. pose proof (blocks_below true l1 24 Hg1) as Hb1. pose proof (blocks_from true l2 (24 + total l1 + s) Hg2) as Hb2. unfold below, from in *. rewrite Forall_forall in Hb1, Hb2. apply elem_of_app in Hx as [Hx|Hx]; [specialize (Hb1 _ Hx)|specialize (Hb2 _ Hx)]; (split; [lia|]); apply elem_of_app; [by left|right; by right]. }
      split.
      * intros r w Ew. apply lookup_delete_Some in Ew as [Hne Ew]. destruct (H1 _ _ Ew) as [Hin' Hw']. assert (Hin2 : (r - 24, 24 + 8 * zlen w) ∈ blocks true 24 (release l1 s l2)). { rewrite Er. rewrite layout_blocks_app in Hin'. cbn [blocks fst snd eqb app] in Hin'. apply elem_of_app in Hin' as [?|Hin']; [apply elem_of_app; by left|]. apply elem_of_cons in Hin' as [[= ? ?]|?]; [lia|apply elem_of_app; by right]. }
        split; [done|]. apply (words_spared m m' _ _ r w Hw' Hg Hg' Hin' Hin2). intros a Ha' Hc. apply Hsp; [done|]. by apply clear_app in Hc as [Hc _].
      * intros o z Hoz. destruct (Hold _ Hoz) as [Hne Hoz']. cbn in Hne. rewrite lookup_delete_ne by lia. by eapply H2.
Qed.

(** ** Reallocating *)

Lemma old_size m bl L sz h ws : ready m bl L sz -> L !! h = Some ws -> m !! (h - 24) = Some (24 + 8 * zlen ws).
Proof.
  intros ([[_ Hu] _ _ _ _ _] & _ & _ & [H1 _]) E. destruct (H1 _ _ E) as [Hin _]. revert Hu Hin. generalize 0, (blocks true 24 bl). intros p l. revert p. induction l as [|[o s] l IH]; intros p Hu Hin; [by apply not_elem_of_nil in Hin|]. destruct Hu as (E1 & _ & _ & E4). apply elem_of_cons in Hin as [[= -> ->]|Hin]; [done|eauto].
Qed.

Lemma realloc_ok m bl L sz lock unlock h ws n : ready m bl L sz -> L !! h = Some ws -> 0 <= n < 2 ^ 64 -> h + Z.min (8 * zlen ws + 24) (8 * ((n + 7) / 8)) <= sz ->
  exists r m' bl' L', apr_rmm_realloc lock unlock m (Some h) n = Ok (r, m') /\ answers sz L (Realloc lock unlock (Some h) n) r L' /\ ready m' bl' L' sz.
Proof.
  intros Hr E Hn Hend. pose proof (laid_bound _ _ _ (proj1 Hr)) as Hb. pose proof (Z.div_mod (n + 7) 8 ltac:(lia)) as Hdm. pose proof (Z.mod_pos_bound (n + 7) 8 ltac:(lia)) as Hmb. set (k := (n + 7) / 8) in *. unfold apr_rmm_realloc. destruct (Z.lt_ge_cases (n + 7) (2 ^ 64)) as [Hlt|Hge].
  2: { rewrite align_wrap by lia. replace (0 <? n) with true by lia. exists 0, m, bl, L. split; [done|]. split; [|done]. left. split; [done|]. split; [done|]. apply too_large; [done|]. fold k. lia. }
  rewrite align_up by lia. fold k. replace (8 * k <? n) with false by lia. assert (Ek : (8 * k + 7) / 8 = k) by (symmetry; apply (Z.div_unique _ _ _ 7); lia).
  destruct (malloc_ok m bl L sz (8 * k) Hr ltac:(lia)) as (r & m1 & E1 & H). rewrite E1. cbn [rbind]. rewrite Ek in H. destruct H as [(-> & -> & H)|(bl1 & wn & H48 & Hnone & Hk & _ & Hr1)].
  { cbn [Z.eqb]. exists 0, m, bl, L. split; [done|]. split; [|done]. left. split; [done|]. split; [done|]. apply H; [lia|done]. }
  replace (r =? 0) with false by lia. assert (Eh : <[r := wn]> L !! h = Some ws) by (rewrite lookup_insert_ne; [done|congruence]). assert (El : <[r := wn]> L !! r = Some wn) by apply lookup_insert_eq.
  change RMM_BLOCK_SIZE with 24. unfold b_size. rewrite (ld_ok _ _ _ (old_size _ _ _ _ _ _ Hr1 Eh)). cbn [rbind]. pose proof (ready_placed _ _ _ _ Hr1) as [Hp1 Hp2]. destruct (Hp1 _ _ Eh) as (Hh8 & Hh48 & _). destruct (Hp1 _ _ El) as (Hr8 & _ & Hrend). assert (Hne : h <> r) by congruence. pose proof (zlen_nonneg ws) as Hz.
  set (c := if 24 + 8 * zlen ws <? 8 * k then 24 + 8 * zlen ws else 8 * k). assert (Hc : c = Z.min (8 * zlen ws + 24) (8 * k)) by (unfold c; destruct (Z.ltb_spec (24 + 8 * zlen ws) (8 * k)); lia). assert (Hc8 : c / 8 = Z.min (zlen ws + 3) k) by (rewrite Hc; symmetry; apply (Z.div_unique _ _ _ 0); lia). rewrite Hc8. set (j := Z.min (zlen ws + 3) k) in *.
  destruct (copy_words_ok (Z.to_nat j) m1 r h) as (m2 & E2 & D & Hout & Hcopy); [destruct (Hp2 _ _ _ _ Eh El) as [?|[?|?]]; lia| |].
  { intros i Hi. split; (apply (laid_dom _ _ _ (proj1 Hr1)); split; [lia|apply mod8_add; [done|rewrite Z.mul_comm; apply Z.mod_mul; lia]]). }
  rewrite E2. cbn [rbind]. destruct (written m1 m2 bl1 _ sz r wn Hr1 El D) as (w' & Hl & Hw & Hr2); [intros a Ha; apply Hout; lia|]. rewrite insert_insert_eq in Hr2.
  assert (Hkeep : forall ws0 i v, L !! h = Some ws0 -> ws0 !! i = Some v -> 8 * Z.of_nat i < n -> w' !! i = Some v).
  { intros ws0 i v E0 Ev Hi. rewrite E in E0. injection E0 as <-. pose proof (lookup_lt_Some _ _ _ Ev) as Hlt'. assert (Hij : 0 <= Z.of_nat i < j) by (unfold j, zlen in *; lia). apply (words_at m2 r); [done|unfold zlen in *; lia|]. rewrite Hcopy by lia. destruct Hr1 as (_ & _ & _ & [Hb1 _]). destruct (Hb1 _ _ Eh) as [_ Hwh]. by apply Hwh. }
  assert (Eh2 : <[r := w']> L !! h = Some ws) by (rewrite lookup_insert_ne; [done|congruence]). destruct (Z.eqb_spec lock 0) as [->|Hlock].
  - destruct (free_ready m2 bl1 _ sz h ws Hr2 Eh2) as (m3 & bl3 & Ef & Hr3). rewrite (Ef unlock : apr_rmm_free 0 unlock m2 h = _). cbn [rbind]. exists r, m3, bl3, (<[r := w']> (delete h L)). split; [done|]. rewrite delete_insert_ne in Hr3 by done. split; [|done]. right. cbn [Z.eqb]. exists w'. split_and!; try done; lia.
  - assert (Ef : apr_rmm_free lock unlock m2 h = Ok (lock, m2)). { unfold apr_rmm_free. change (RMM_HDR_BLOCK_SIZE + RMM_BLOCK_SIZE) with 48. replace (h <? 48) with false by lia. unfold APR_SUCCESS. by replace (lock =? 0) with false by lia. }
    rewrite Ef. cbn [rbind]. exists r, m2, bl1, (<[r := w']> L). split; [done|]. split; [|done]. right. replace (lock =? 0) with false by lia. exists w'. split_and!; try done; lia.
Qed.

(** A reallocation whose copy would pass the end of the region. *)
Lemma realloc_past m bl L sz lock unlock h ws n : ready m bl L sz -> L !! h = Some ws -> 0 <= n < 2 ^ 64 -> sz < h + Z.min (8 * zlen ws + 24) (8 * ((n + 7) / 8)) ->
  apr_rmm_realloc lock unlock m (Some h) n = Ok (0, m) /\ no_room sz L n \/ apr_rmm_realloc lock unlock m (Some h) n = Err OutOfBounds.
Proof.
  intros Hr E Hn Hend. pose proof (laid_bound _ _ _ (proj1 Hr)) as Hb. pose proof (Z.div_mod (n + 7) 8 ltac:(lia)) as Hdm. pose proof (Z.mod_pos_bound (n + 7) 8 ltac:(lia)) as Hmb. set (k := (n + 7) / 8) in *. unfold apr_rmm_realloc. destruct (Z.lt_ge_cases (n + 7) (2 ^ 64)) as [Hlt|Hge].
  2: { rewrite align_wrap by lia. replace (0 <? n) with true by lia. left. split; [done|]. apply too_large; [done|]. fold k. lia. }
  rewrite align_up by lia. fold k. replace (8 * k <? n) with false by lia. assert (Ek : (8 * k + 7) / 8 = k) by (symmetry; apply (Z.div_unique _ _ _ 7); lia).
  destruct (malloc_ok m bl L sz (8 * k) Hr ltac:(lia)) as (r & m1 & E1 & H). rewrite E1. cbn [rbind]. rewrite Ek in H. destruct H as [(-> & -> & H)|(bl1 & wn & H48 & Hnone & Hk & _ & Hr1)].
  { left. split; [done|]. apply H; [lia|done]. }
  right. replace (r =? 0) with false by lia. assert (Eh : <[r := wn]> L !! h = Some ws) by (rewrite lookup_insert_ne; [done|congruence]). assert (El : <[r := wn]> L !! r = Some wn) by apply lookup_insert_eq.
  change RMM_BLOCK_SIZE with 24. unfold b_size. rewrite (ld_ok _ _ _ (old_size _ _ _ _ _ _ Hr1 Eh)). cbn [rbind]. destruct (ready_placed _ _ _ _ Hr1) as [Hp1 _]. destruct (Hp1 _ _ Eh) as (Hh8 & Hh48 & Hhend). destruct (Hp1 _ _ El) as (Hr8 & _ & Hrend). pose proof (zlen_nonneg ws) as Hz.
  set (c := if 24 + 8 * zlen ws <? 8 * k then 24 + 8 * zlen ws else 8 * k). assert (Hc : c = Z.min (8 * zlen ws + 24) (8 * k)) by (unfold c; destruct (Z.ltb_spec (24 + 8 * zlen ws) (8 * k)); lia). assert (Hc8 : c / 8 = Z.min (zlen ws + 3) k) by (rewrite Hc; symmetry; apply (Z.div_unique _ _ _ 0); lia). rewrite Hc8. set (j := Z.min (zlen ws + 3) k) in *.
  rewrite (copy_words_past (Z.to_nat j) m1 r h); [done| |].
  - intros i Hi. apply (laid_dom _ _ _ (proj1 Hr1)). split; [lia|]. apply mod8_add; [done|]. rewrite Z.mul_comm. apply Z.mod_mul. lia.
  - exists (j - 1). split; [lia|]. destruct (m1 !! (h + 8 * (j - 1))) eqn:Em; [|done]. assert (Hin : is_Some (m1 !! (h + 8 * (j - 1)))) by by eexists. apply (laid_dom _ _ _ (proj1 Hr1)) in Hin. pose proof (total_mod _ (laid_good _ _ _ (proj1 Hr1))). pose proof (laid_size _ _ _ (proj1 Hr1)). pose proof (Z.div_mod h 8 ltac:(lia)). pose proof (Z.div_mod (total bl1) 8 ltac:(lia)). lia.
Qed.

(** ** Destroying *)

Lemma blast_ok f l : forall m p fuel, tail m p l -> sep l -> l <> [] -> (length l <= fuel)%nat -> exists m', blast fuel m (head0 l) = Ok m' /\ touched m m' f l.
Proof.
  induction l as [|[o s] l IH]; intros m p [|fuel] Ht Hs Hne Hfuel; try done; [cbn in Hfuel; lia|]. destruct Ht as (E1 & E2 & E3 & E4). destruct Hs as (Ho & Hoff & Hs). cbn [fst] in *. cbn [blast head0 fst]. unfold b_next, b_prev. rewrite (ld_ok _ _ _ E3). cbn [rbind]. rewrite st_ok by by eexists. cbn [rbind]. rewrite st_ok by (rewrite lookup_insert_ne by lia; by eexists). cbn [rbind]. set (m2 := <[o + 16 := 0]> _).
  assert (T : touched m m2 f ((o, s) :: l)) by (unfold m2; repeat apply touched_more; [apply touched_refl|by eexists|right; apply (in_header (o, s)); [left|cbn; lia]|rewrite lookup_insert_ne by lia; by eexists|right; apply (in_header (o, s)); [left|cbn; lia]]).
  destruct l as [|x l'] eqn:El; [by exists m2|]. rewrite <- El in *. assert (Hl : l <> []) by by rewrite El. assert (Hz : (head0 l =? 0) = false) by by apply head0_zero. rewrite Hz. cbn [negb]. destruct (IH m2 o fuel) as (m' & E & Ht); [unfold m2; repeat apply tail_other; cell|done|done|cbn in Hfuel; lia|]. exists m'. split; [done|]. eapply touched_trans; [exact T|]. eapply touched_weaken; [exact Ht|set_solver].
Qed.

Lemma blast_list_ok m f l : is_list m f l -> sep l -> 0 < f < 24 -> exists m', blast_list m f = Ok m' /\ touched m m' f l.
Proof.
  intros [Hf Ht] Hs Hlow. unfold blast_list. rewrite (ld_ok _ _ _ Hf). cbn [rbind]. destruct l as [|x l'] eqn:El; [by exists m|]. rewrite <- El in *. assert (Hne : l <> []) by by rewrite El. assert (Hz : (head0 l =? 0) = false) by by apply head0_zero. rewrite Hz. cbn [negb].
  assert (Hlen : (length l < walk m)%nat). { pose proof (is_list_app m f l []) as [H _]. rewrite app_nil_r in H. destruct (H (conj Hf Ht)) as (H' & _). by eapply walk_enough. }
  destruct (blast_ok f l m 0 (walk m) Ht Hs Hne ltac:(lia)) as (m' & E & T). rewrite E. cbn [rbind]. rewrite st_ok by (eapply touched_some; [exact T|by eexists]). eexists. split; [done|]. apply touched_more; [done|eapply touched_some; [exact T|by eexists]|by left].
Qed.

Lemma rmm_destroy_ok m bl L sz : ready m bl L sz -> exists m', forall unlock, apr_rmm_destroy APR_SUCCESS unlock {| rmm_base := m; rmm_size := sz |} = Ok (unlock, {| rmm_base := m'; rmm_size := 0 |}).
Proof.
  intros ([Hu Hf Hg _ _ _] & _ & Ha & _). destruct (laid_sep _ Hg) as [Hsep _]. apply sep_app in Hsep as (HsU & HsF & Hap). destruct (blast_list_ok m firstused _ Hu HsU) as (m1 & E1 & T1); [unfold firstused; lia|]. assert (Hf1 : is_list m1 firstfree (blocks false 24 bl)) by (eapply is_list_touched; [exact Hf|exact T1|done|by apply sep_low|by apply sep_low|by apply apart_sym]). destruct (blast_list_ok m1 firstfree _ Hf1 HsF) as (m2 & E2 & T2); [unfold firstfree; lia|].
  exists (<[abssize := 0]> m2). intros unlock. unfold apr_rmm_destroy. cbn [negb Z.eqb APR_SUCCESS rmm_base]. rewrite E1. cbn [rbind]. rewrite E2. cbn [rbind]. rewrite st_ok; [done|]. eapply touched_some; [exact T2|]. eapply touched_some; [exact T1|]. by eexists.
Qed.

(** ** All calls *)

Lemma init_ready m0 size unlock : 48 <= size < 2 ^ 64 -> size mod 8 = 0 -> (forall a, is_Some (m0 !! a) <-> 0 <= a < size /\ a mod 8 = 0) ->
  exists m, apr_rmm_init APR_SUCCESS unlock m0 size = Ok (unlock, Some {| rmm_base := m; rmm_size := size |}) /\ ready m [(false, size - 24)] ∅ size.
Proof.
  intros Hs Hs8 Hd. assert (Hin : forall a, 0 <= a < 48 -> a mod 8 = 0 -> is_Some (m0 !! a)) by (intros a Ha Ha8; apply Hd; lia). unfold apr_rmm_init, b_size, b_prev, b_next, abssize, firstused, firstfree. change RMM_HDR_BLOCK_SIZE with 24. cbn [negb Z.eqb APR_SUCCESS]. unfold u64. rewrite Z.mod_small by lia. change (24 + 8) with 32. change (24 + 16) with 40.
  do 6 (rewrite st_ok by (rewrite ?lookup_insert_ne by lia; by apply Hin); cbn [rbind]). eexists. split; [done|]. set (m := <[40 := 0]> _). assert (Hm : m !! 0 = Some size /\ m !! 8 = Some 0 /\ m !! 16 = Some 24 /\ m !! 24 = Some (size - 24) /\ m !! 32 = Some 0 /\ m !! 40 = Some 0) by (unfold m; repeat split; repeat (rewrite lookup_insert_ne by lia); apply lookup_insert_eq). destruct Hm as (M0 & M8 & M16 & M24 & M32 & M40).
  split; [|split; [done|split; [done|]]].
  - split; try done.
    + apply good_cons. split; [|constructor]. cbn. split; [lia|]. rewrite Zminus_mod, Hs8. done.
    + cbn. lia.
    + lia.
    + intros a. unfold m. rewrite <- elem_of_dom, !dom_insert_lookup_L, elem_of_dom by (rewrite ?lookup_insert_ne by lia; by apply Hin). apply Hd.
  - split; [intros r ws E; by rewrite lookup_empty in E|]. intros o s E. cbn in E. by apply not_elem_of_nil in E.
Qed.

Lemma run_ready m bl L sz c : ready m bl L sz -> legal L c -> ~ overruns sz L c -> exists r m' bl' L', run c m = Ok (r, m') /\ answers sz L c r L' /\ ready m' bl' L' sz.
Proof.
  intros Hr Hc Hov. assert (Hmalloc : forall n, is_size n -> exists r m' bl' L', apr_rmm_malloc m n = Ok (r, m') /\ answers sz L (Malloc n) r L' /\ ready m' bl' L' sz).
  { intros n Hn. destruct (malloc_ok m bl L sz n Hr Hn) as (r & m' & E & [(-> & -> & H)|(bl' & ws & H48 & Hnone & _ & Hws & Hr')]).
    - exists 0, m, bl, L. split; [done|]. split; [|done]. left. split; [done|]. split; [done|]. apply H; [apply Hn|done].
    - exists r, m', bl', (<[r := ws]> L). split; [done|]. split; [|done]. right. exists ws. split_and!; try done. lia. }
  destruct c as [n|n|lock unlock [h|] n|lock unlock h|h i v|h i]; cbn [run legal] in *.
  - by apply Hmalloc.
  - by eapply calloc_ok.
  - destruct Hc as (Hn & ws & E). eapply realloc_ok; [done|exact E|exact Hn|]. destruct (Z.le_gt_cases (h + Z.min (8 * zlen ws + 24) (8 * ((n + 7) / 8))) sz); [done|]. exfalso. apply Hov. exists ws. split; [done|lia].
  - by apply Hmalloc.
  - destruct (Z.ltb_spec h 48) as [Hlow|Hhigh].
    + exists APR_EINVAL, m, bl, L. cbn [answers]. unfold apr_rmm_free. change (RMM_HDR_BLOCK_SIZE + RMM_BLOCK_SIZE) with 48. by replace (h <? 48) with true by lia.
    + destruct Hc as [[ws E]|?]; [|lia]. cbn [answers]. replace (h <? 48) with false by lia. destruct (Z.eqb_spec lock 0) as [->|Hlock].
      * destruct (free_ready m bl L sz h ws Hr E) as (m' & bl' & Ef & Hr'). exists unlock, m', bl', (delete h L). by rewrite (Ef unlock : apr_rmm_free 0 unlock m h = _).
      * exists lock, m, bl, L. unfold apr_rmm_free. change (RMM_HDR_BLOCK_SIZE + RMM_BLOCK_SIZE) with 48. replace (h <? 48) with false by lia. unfold APR_SUCCESS. by replace (lock =? 0) with false by lia.
  - destruct Hc as (ws & E & Hi). destruct (words_in m bl L sz h ws i Hr E Hi) as (w & Ew & Hw). rewrite st_ok by by exists w. exists 0, (<[h + 8 * i := v]> m), bl, (<[h := <[Z.to_nat i := v]> ws]> L). split; [done|]. split; [by exists ws|]. eapply ready_write; [exact Hr|exact E|apply length_insert| |apply dom_insert_lookup_L; by exists w|intros a Ha; apply lookup_insert_ne; lia].
    intros j u Eu. destruct Hr as (_ & _ & _ & [H1 _]). destruct (H1 _ _ E) as [_ Hws]. apply list_lookup_insert_Some in Eu as [(<- & <- & _)|[Hne Eu]]; [rewrite Z2Nat.id by lia; apply lookup_insert_eq|]. rewrite lookup_insert_ne by lia. by apply Hws.
  - destruct Hc as (ws & E & Hi). destruct (words_in m bl L sz h ws i Hr E Hi) as (w & Ew & Hw). rewrite (ld_ok _ _ _ Hw). exists w, m, bl, L. split; [done|]. split; [by exists ws|done].
Qed.

Lemma decide_overruns sz L c : overruns sz L c \/ ~ overruns sz L c.
Proof.
  destruct c as [n|n|lock unlock [h|] n|lock unlock h|h i v|h i]; cbn [overruns]; try (right; by intros []). destruct (L !! h) as [ws|] eqn:E; [|right; by intros (? & ? & _)].
  destruct (Z.lt_ge_cases sz (h + Z.min (8 * zlen ws + 24) (8 * ((n + 7) / 8)))); [left; by exists ws|right; intros (ws' & E' & ?); injection E' as <-; lia].
Qed.

Lemma overrun_ready m bl L sz c : ready m bl L sz -> legal L c -> overruns sz L c -> run c m = Ok (0, m) /\ answers sz L c 0 L \/ run c m = Err OutOfBounds.
Proof.
  intros Hr Hc Hov. destruct c as [n|n|lock unlock [h|] n|lock unlock h|h i v|h i]; cbn [overruns legal run answers] in *; try done. destruct Hov as (ws & E & Hend), Hc as [Hn _].
  destruct (realloc_past m bl L sz lock unlock h ws n Hr E Hn Hend) as [[E' Hno]|E']; [left; split; [done|by left]|by right].
Qed.

Lemma ready_serves k : forall m bl L sz, ready m bl L sz -> serves sz k m L.
Proof.
  assert (Hbase : forall m bl L sz, ready m bl L sz -> placed sz L /\ apr_rmm_attach m = Ok {| rmm_base := m; rmm_size := sz |}
    /\ (forall lock unlock, exists m', apr_rmm_destroy lock unlock {| rmm_base := m; rmm_size := sz |} = Ok (if lock =? 0 then (unlock, {| rmm_base := m'; rmm_size := 0 |}) else (lock, {| rmm_base := m; rmm_size := sz |})))).
  { intros m bl L sz Hr. split; [by eapply ready_placed|]. split; [unfold apr_rmm_attach; destruct Hr as (_ & _ & Ha & _); by rewrite (ld_ok _ _ _ Ha)|]. intros lock unlock. destruct (Z.eqb_spec lock 0) as [->|Hl].
    - destruct (rmm_destroy_ok m bl L sz Hr) as (m' & E). exists m'. exact (E unlock).
    - exists m. unfold apr_rmm_destroy, APR_SUCCESS. by replace (lock =? 0) with false by lia. }
  induction k as [|k IH]; intros m bl L sz Hr; cbn [serves]; destruct (Hbase m bl L sz Hr) as (H1 & H2 & H3); (split; [done|]); (split; [done|]); (split; [done|]); [done|]. intros c Hc. destruct (decide_overruns sz L c) as [Hov|Hov].
  - destruct (overrun_ready m bl L sz c Hr Hc Hov) as [(E & Ha)|E]; [left|by right]. exists 0, m, L. split; [done|]. split; [done|]. split; [done|]. by eapply IH.
  - destruct (run_ready m bl L sz c Hr Hc Hov) as (r & m' & bl' & L' & E & Ha & Hr'). left. exists r, m', L'. split; [done|]. split; [done|]. split; [done|]. by eapply IH.
Qed.

(** C18: a region of relocatable memory keeps what it promises. After [apr_rmm_init], however
    many calls a program makes, as long as it frees, reallocates and accesses only what it has
    been given, and with one exception: every call returns, no word outside the region is read or written, blocks
    with their headers never overlap and stay in the region, a word of a block holds what
    the program wrote last, cleared memory is zero, a block that is moved keeps its words,
    and a request fails only when there is no place in the region where the block and its
    header could go. The statuses are those of the lock. At any moment another user can
    attach and the region can be destroyed. The exception is [apr_rmm_realloc] of a block of
    the program, when the block's words and 24 bytes more, or the new size if it is
    smaller, reach past the end of the region: that call fails for want of room or reads
    outside the region. *)
Theorem region_serves k unlock m0 size (Hs : 48 <= size < 2 ^ 64) (Hs8 : size mod 8 = 0) (Hm0 : forall a, is_Some (m0 !! a) <-> 0 <= a < size /\ a mod 8 = 0) :
  exists m, apr_rmm_init APR_SUCCESS unlock m0 size = Ok (unlock, Some {| rmm_base := m; rmm_size := size |}) /\ serves size k m ∅.
Proof. destruct (init_ready m0 size unlock Hs Hs8 Hm0) as (m & E & Hr). exists m. split; [done|]. by eapply ready_serves. Qed.

(** A region of [n] words. *)
Fixpoint fresh_region (n : nat) : region := match n with O => ∅ | S n => <[8 * Z.of_nat n := 170]> (fresh_region n) end.

Lemma fresh_region_dom n a : is_Some (fresh_region n !! a) <-> 0 <= a < 8 * Z.of_nat n /\ a mod 8 = 0.
Proof.
  induction n as [|n IH]; cbn [fresh_region]; [rewrite lookup_empty; split; [by intros [? ?]|lia]|]. destruct (decide (8 * Z.of_nat n = a)) as [<-|Hne].
  - rewrite lookup_insert_eq. split; [|by eexists]. intros _. split; [lia|]. rewrite Z.mul_comm. apply Z.mod_mul. lia.
  - rewrite lookup_insert_ne by done. rewrite IH. pose proof (Z.div_mod a 8 ltac:(lia)). split; intros [? ?]; (split; [lia|done]).
Qed.

Lemma region_serves_witness : 48 <= 120 < 2 ^ 64 /\ exists m, apr_rmm_init APR_SUCCESS 0 (fresh_region 15) 120 = Ok (0, Some {| rmm_base := m; rmm_size := 120 |}) /\ serves 120 4 m ∅.
Proof. split; [lia|]. exact (region_serves 4 0 (fresh_region 15) 120 ltac:(lia) eq_refl (fresh_region_dom 15)). Defined.

(** A program, and what its calls return. *)
Fixpoint run_all (cs : list cmd) (m : region) : res (list Z * region) :=
  match cs with [] => Ok ([], m) | c :: cs => do (r, m) <- run c m; do (rs, m) <- run_all cs m; Ok (r :: rs, m) end.

Definition in_region (n : nat) (cs : list cmd) : res (list Z) :=
  do (_, rmm) <- apr_rmm_init 0 0 (fresh_region n) (8 * Z.of_nat n);
  match rmm with Some rmm => do (rs, _) <- run_all cs (rmm_base rmm); Ok rs | None => Err OutOfBounds end.

(** Three blocks; the first two are freed and become one, which the last request takes;
    what was in the third is where it was. *)
Example blocks_merge : in_region 24 [Malloc 24; Malloc 24; Malloc 8; Put 144 0 7; Free 0 0 48; Free 0 0 96; Malloc 60; Get 144 0; Malloc 24; Calloc 1; Malloc 0] = Ok [48; 96; 144; 0; 0; 0; 48; 7; 0; 176; 0].
Proof. vm_compute. reflexivity. Qed.

(** [apr_rmm_realloc] takes the size of the old block, header included, for the number of
    bytes that there are to copy: when the block is the last of the region, a request for
    more reads past the end. *)
Theorem realloc_reads_past : in_region 15 [Malloc 40; Malloc 8; Free 0 0 48] = Ok [48; 112; 0] /\ in_region 15 [Malloc 40; Malloc 8; Free 0 0 48; Realloc 0 0 (Some 112) 40] = Err OutOfBounds.
Proof. split; vm_compute; reflexivity. Qed.
